(* ===== verification/_CoqProject ===== *)
-Q . S2P
Prelude.v
Misc.v
Cpio.v
Memblock.v
Frame.v
Bump.v
Buddy.v
BuddyLists.v
BuddyBlocks.v
BuddySpec.v
BuddyTheorems.v
Sparsemem.v
SparsememSpec.v
SparsememInit.v
PfnIter.v
Zones.v
ZonesSpec.v
ZonesManager.v
Paging.v
PagingRef.v
ZonesSource.v
ByteMem.v
Console.v
Machine.v
Idt.v
Gdt.v
Slab.v
SlabMem.v
SlabLists.v
SlabCaches.v
SlabHeap.v
SlabGrow.v
SlabOps.v
SlabFree.v
Kmalloc.v
HeapSpec.v
HeapOps.v
HeapMachine.v
ZonesHeap.v
PhysMem.v
PerCpu.v
HeapTheorems.v
AddrSpace.v
AddrSpaceSpec.v
AddrSpaceLife.v
AddrSpaceTheorems.v
Devices.v
DevicesSpec.v
Acpi.v
AcpiSpec.v
KernelStacks.v
KernelStacksSpec.v
Objects.v
ObjectsSpec.v
Endpoints.v
EndpointsSpec.v
Runqueue.v
RunqueueSpec.v
Sched.v
SchedSpec.v
SchedOps.v
SchedLoops.v
SchedTheorems.v
Syscalls.v
Entry.v
Traps.v
Loader.v
PagesRef.v
SyscallsSpec.v
Userland.v
UserlandSpec.v
InitServer.v
KernelSpec.v
KernelSteps.v
KernelCalls.v
KernelTheorems.v
MemTests.v
LoaderTheorems.v
Boot.v
KernelRun.v
