(* ===== verification/Prelude.v ===== *)
(** * Anvil: a verification of the kernel and its first user program

    Anvil (src/kernel, Rust and some assembly) is a microkernel for x86-64.  At
    boot it turns the bootloader's memory map into a page allocator and a heap,
    brings up page tables, segments, interrupts, timers and the other CPUs,
    finds the init service in an archive, loads it as the first task and hands
    over to the scheduler.  Afterwards it runs only to serve system calls
    (message passing, memory, sleeping), page faults and timer interrupts.  The
    init service (src/userland/init_service) is a C program on a small library
    of its own.  This library models those parts as executable definitions that
    follow the source line by line, and proves what each part promises to the
    next one.  Paths below are relative to src/; kernel paths to
    kernel/src/arch/amd64/ unless they start with kernel/.

    ** How the code is modelled

    The kernel is built with overflow checks and debug assertions, so a
    function is a Rocq function into [outcome] (this file): it returns, panics
    (overflow, index out of range, failed assertion, [unwrap] of nothing,
    [panic!]), or has used up the rounds the model gave to a loop.  [wp m Q]
    says that [m] returns with [Q] and excludes the other two; [post m Q P]
    also allows panics that satisfy [P], which names the reason: the call that
    fails, or the resources of which there are not enough.  [result] is Rust's [Result].
    Integers are [Z] kept in range by checked operations ([add64], ...), or by
    [wrap64], [wrap32] where the source wraps or truncates.  State that the
    source mutates behind a lock is passed explicitly; one operation under a
    lock is one atomic step.  The lock-free run queue is modelled access by
    access instead.  Memory that the kernel reads and writes through raw
    pointers is a function from addresses to bytes ([ByteMem]).

    Code outside of the repository is an argument: a type class of operations
    and one of laws that state its documented behaviour, each with an instance
    at which the theorems are applied.  These are page tables and their mapper
    ([Paging.X86_64], [Loader.OffsetPageTable]; instance in [PagingRef],
    [PagesRef]), descriptor tables ([Gdt.GdtCrate]), the answers of the
    bootloader and the contents of the ACPI tables (plain arguments).  The
    same form separates components: the buddy allocator sees frame metadata
    through [Frame.FrameStore], which the sparse memory map implements; page
    tables and address spaces see the page allocator through
    [Paging.PageSource], and the slab allocator, per-CPU memory and the loader
    through [Slab.HeapPages]; the zone manager implements both ([ZonesSource],
    [ZonesHeap]), so their theorems hold of the real allocator.

    ** Physical memory

    - [Misc] is memory/misc.rs: alignment, orders, the direct map.
    - [Memblock] is memory/pmm/memblock.rs, the tables of usable and reserved
      regions; normalising them yields exactly the usable bytes that are not
      reserved, as sorted disjoint regions.
    - [Bump], [Sparsemem], [SparsememSpec], [SparsememInit], [PfnIter] and
      [Frame] are bump_alloc.rs, sparsemem.rs and pfn_iterator.rs: the metadata
      of every frame, where it is placed, and the runs of usable frames.  No
      reserved frame, and none that holds metadata, is ever usable.
    - [Buddy], [BuddyLists], [BuddyBlocks], [BuddySpec], [BuddyTheorems] are
      buddy.rs: doubly linked free lists in the metadata against an abstract
      map of blocks; clients never share frames, and an allocation fails only
      when no block is large enough.
    - [Zones], [ZonesSpec], [ZonesManager] are zones_manager.rs and
      pages_allocator.rs: what booting, allocating and releasing pages do.
    - [Slab] (operations), [SlabMem], [SlabLists], [SlabCaches], [SlabHeap],
      [SlabGrow], [SlabOps], [SlabFree] are slab.rs on bytes: headers, free
      lists and buckets in the pages themselves.
    - [Kmalloc], [HeapSpec], [HeapOps], [HeapMachine], [HeapTheorems] are
      physical_alloc.rs, the kernel heap, under any sequence of requests its
      clients may make: memory handed out is apart from all other memory in
      use and keeps its bytes, requests are answered, and pages are given back.
    - [PhysMem] is memory/pmm/mod.rs, the start of all of the above, with the
      memory maps on which it panics, and pmm_tests.rs; [MemTests] is
      memory/mod.rs and mem_subsys_tests.rs.  The tests that every boot runs
      pass, or get no memory, and leave the memory subsystem ready.

    ** Virtual memory

    - [Paging] is memory/vmm/mod.rs; [AddrSpace], [AddrSpaceSpec],
      [AddrSpaceLife], [AddrSpaceTheorems] are scheduler/addr_space.rs and
      memory/vmm/pf_handler.rs: regions stay aligned and disjoint, user pages
      lie inside them and never share frames, faults fill reserved regions,
      and dropping an address space returns its frames.
    - [KernelStacks], [KernelStacksSpec] are scheduler/stack.rs and
      memory/vmm/v_allocator.rs: stacks with guard pages, apart from one another.

    ** Capabilities, messages and scheduling

    - [Objects], [ObjectsSpec] are ipc/object_table.rs, message.rs, cnode.rs and
      notification.rs: a handle never reaches another object than its own.
    - [Endpoints], [EndpointsSpec] are ipc/endpoint.rs and ipc/mod.rs: a ring
      buffer that refines a queue of tickets; receivers are served in order and
      messages are neither lost nor duplicated.
    - [Runqueue], [RunqueueSpec] are the work-stealing deque of
      scheduler/cpu_local.rs under every interleaving of its accesses.
    - [Sched], [SchedSpec], [SchedOps], [SchedLoops], [SchedTheorems] are
      scheduler/mod.rs, task.rs, task_storage.rs and the rest of cpu_local.rs:
      every task is in exactly one place, sleepers wake when their time comes.
    - [Syscalls], [SyscallsSpec] are scheduler/syscall/ and the capabilities of
      the first task.  [KernelSpec], [KernelSteps], [KernelCalls],
      [KernelTheorems] put the kernel together as a step relation: in every
      reachable state a system call is confined to what the capabilities of
      its caller allow, receivers get the messages sent to them, and no call
      moves a capability to another task.  [KernelRun] is a concrete run.

    ** Processor and devices

    - [Machine] is the part of the processor the assembly uses, [Entry] the
      assembly itself (scheduler/syscall/mod.rs, scheduler/mod.rs,
      scheduler/exec_loader.rs, interrupts/interrupt_trap.asm); [Traps] shows
      that a system call keeps the registers of its caller and an interrupt
      is not noticed by the code it interrupts.
    - [Idt] is interrupts/ and [Gdt] gdt.rs: every vector reaches its handler
      with the right stack, and the selectors of the tables are those the entry
      code relies on.
    - [PerCpu] is cpu/smp/percpu.rs, macros.rs and preempt.rs.
    - [Devices], [DevicesSpec] are kernel/src/misc/registers.rs, ports.rs, apic/
      and timer/ against models of the I/O APIC, the local timer and the HPET:
      interrupt lines are routed as asked, and the period of the timer is a
      millisecond up to a stated error.
    - [Acpi], [AcpiSpec] are acpi/: tables are mapped before they are read.
    - [Console] is kernel/src/framebuffer/ and kernel/src/early_print/: the
      pixels on the screen are those of a terminal.

    ** Boot and user programs

    - [Cpio] is kernel/src/cpio_parser/mod.rs: what was packed is found again.
    - [Loader], [LoaderTheorems] are scheduler/exec_loader.rs: the image, stack
      and boot information a new task sees; with enough pages, object slots and
      stack addresses a task is built without a panic.
    - [Boot] is kernel/src/main.rs, bootinfo/, cmd_args/ and cpu/smp/startup.rs:
      the first task runs the file of the archive.
    - [Userland], [UserlandSpec] are userland/init_service/shared.h; [InitServer]
      is server.c, from its boot information to its last message, followed
      through printf, dispatcher, page tables and fault handler.

    ** Bounds and fuel

    Sizes of tables, orders and limits are the constants of the source.  Loops
    that run over a range or a list are [for_each] and need no bound.  Others
    are [iter] with a bound on the rounds computed from the state (orders left,
    frames of a section, pages of a region, entries of a queue), and the
    theorems prove that it is never reached: [wp] and [post] fail on [NoFuel].
    Three loops of the source have no bound, and theirs is an argument:
    [cpio_find] needs more rounds than the archive has files, and never
    ends after a malformed header, which is proved too; the calibration of the
    timer needs as many rounds as it takes the HPET to count ten milliseconds;
    [steal] gets enough rounds for a full queue when it runs alone.  Theorems
    about runs of the kernel bound the number of steps so that the tick counter
    does not overflow, and the number of CPUs by five, the size of the buffer
    for stolen tasks.

    ** Not modelled

    - Weak memory: accesses of the run queue are sequentially consistent, and
      the system calls of different CPUs do not overlap (each is one step).
      [KernelRun] shows what an overlap in the middle of a receive does.
    - The walk of the page tables by the processor, its caches of translations,
      and faults raised inside the assembly.
    - The serial port, the format of log messages, and the printing of
      registers and CPU features: output only.  The keyboard decoder is an
      external crate whose keys are printed.
    - The bodies of acpi, limine and spin: their results are arguments, locks
      are atomicity.
    - The tests of pmm_tests.rs that are commented out in run_all, the build
      script, linker scripts and makefiles. *)
From stdpp Require Export base numbers list gmap.
#[global] Open Scope Z_scope.

(** ** Panics and fallible results

    The kernel is built with the [dev] profile (kernel/GNUmakefile), so
    arithmetic overflow, an out-of-range index, a failed [assert!] or
    [debug_assert!], [unwrap]/[expect] on [None]/[Err] and [panic!] all stop
    the kernel.  [outcome A] is the type of a computation that returns, panics,
    or exhausts the iteration bound the model gave to a loop. *)

Inductive panic :=
  | POverflow
  | PBounds
  | PUnwrap
  | PAssert
  | PExplicit.

Inductive outcome (A : Type) :=
  | Ret (a : A)
  | Panic (p : panic)
  | NoFuel.
Arguments Ret {A} a.
Arguments Panic {A} p.
Arguments NoFuel {A}.

#[global] Instance panic_eq_dec : EqDecision panic.
Proof. solve_decision. Defined.

#[global] Instance outcome_ret : MRet outcome := λ A a, Ret a.
#[global] Instance outcome_bind : MBind outcome := λ A B f m,
  match m with Ret a => f a | Panic p => Panic p | NoFuel => NoFuel end.

(** Rust's [Result<A, E>]. *)
Inductive result (E A : Type) :=
  | Ok (a : A)
  | Err (e : E).
Arguments Ok {E A} a.
Arguments Err {E A} e.

(** [assert c p] is [assert!]/[debug_assert!]: it panics when [c] is false. *)
Definition assert (c : bool) : outcome unit := if c then Ret () else Panic PAssert.

(** [unwrap] is [Option::unwrap]/[expect]. *)
Definition unwrap {A} (o : option A) : outcome A :=
  match o with Some a => Ret a | None => Panic PUnwrap end.

(** *** Total correctness

    [wp m Q]: the computation [m] returns a value satisfying [Q]; it neither
    panics nor runs out of fuel. *)
Definition wp {A} (m : outcome A) (Q : A → Prop) : Prop :=
  match m with Ret a => Q a | _ => False end.

Lemma wp_ret {A} (a : A) (Q : A → Prop) : Q a → wp (Ret a) Q.
Proof. done. Qed.

Lemma wp_mret {A} (a : A) (Q : A → Prop) : Q a → wp (mret a) Q.
Proof. done. Qed.

Lemma wp_bind {A B} (m : outcome A) (f : A → outcome B) (Q : B → Prop) :
  wp m (λ a, wp (f a) Q) → wp (m ≫= f) Q.
Proof. by destruct m. Qed.

Lemma wp_mono {A} (m : outcome A) (P Q : A → Prop) :
  wp m P → (∀ a, P a → Q a) → wp m Q.
Proof. destruct m; simpl; auto. Qed.

Lemma wp_conj {A} (m : outcome A) (P Q : A → Prop) :
  wp m P → wp m Q → wp m (λ a, P a ∧ Q a).
Proof. destruct m; simpl; auto. Qed.

Lemma wp_elim {A} (m : outcome A) (Q : A → Prop) :
  wp m Q → ∃ a, m = Ret a ∧ Q a.
Proof. destruct m; simpl; naive_solver. Qed.

Lemma wp_inv {A} (m : outcome A) (a : A) (Q : A → Prop) :
  m = Ret a → wp m Q → Q a.
Proof. by intros ->. Qed.

Lemma wp_intro {A} (m : outcome A) (a : A) (Q : A → Prop) :
  m = Ret a → Q a → wp m Q.
Proof. by intros ->. Qed.

Lemma wp_assert (c : bool) (Q : unit → Prop) :
  c = true → Q () → wp (assert c) Q.
Proof. by intros ->. Qed.

Lemma wp_unwrap {A} (o : option A) (a : A) (Q : A → Prop) :
  o = Some a → Q a → wp (unwrap o) Q.
Proof. by intros ->. Qed.

#[global] Arguments wp : simpl never.

(** [post m Q P]: [m] returns a value satisfying [Q] or panics as [P] allows. *)
Definition post {A} (m : outcome A) (Q : A → Prop) (P : panic → Prop) : Prop :=
  match m with Ret a => Q a | Panic p => P p | NoFuel => False end.

Lemma post_wp {A} (m : outcome A) (Q : A → Prop) (P : panic → Prop) : wp m Q → post m Q P.
Proof. by destruct m. Qed.

Lemma post_mono {A} (m : outcome A) (Q Q' : A → Prop) (P : panic → Prop) :
  post m Q P → (∀ a, Q a → Q' a) → post m Q' P.
Proof. destruct m; simpl; auto. Qed.

Lemma post_weaken {A} (m : outcome A) (Q : A → Prop) (P P' : panic → Prop) :
  post m Q P → (∀ p, P p → P' p) → post m Q P'.
Proof. destruct m; simpl; auto. Qed.

Lemma post_bind_post {A B} (m : outcome A) (f : A → outcome B) (R : A → Prop) (Q : B → Prop) (P : panic → Prop) :
  post m R P → (∀ a, R a → post (f a) Q P) → post (m ≫= f) Q P.
Proof. destruct m; simpl; auto. Qed.

Lemma post_bind {A B} (m : outcome A) (f : A → outcome B) (R : A → Prop) (Q : B → Prop) (P : panic → Prop) :
  wp m R → (∀ a, R a → post (f a) Q P) → post (m ≫= f) Q P.
Proof. unfold wp. destruct m; simpl; try done. auto. Qed.

(** ** Machine integers

    [u64]/[usize] values are integers of [Z] in [0 .. 2^64).  The checked
    operations panic exactly when the Rust operator would overflow. *)

Definition u64_max : Z := 2 ^ 64 - 1.
Definition u32_max : Z := 2 ^ 32 - 1.

Definition is_u64 (x : Z) : Prop := 0 ≤ x ≤ u64_max.

Definition add64 (x y : Z) : outcome Z :=
  if x + y <=? u64_max then Ret (x + y) else Panic POverflow.
Definition sub64 (x y : Z) : outcome Z :=
  if y <=? x then Ret (x - y) else Panic POverflow.
Definition mul64 (x y : Z) : outcome Z :=
  if x * y <=? u64_max then Ret (x * y) else Panic POverflow.

(** [checked_add], [saturating_add], [saturating_sub], [wrapping_add] and
    [wrapping_sub] of [u64]/[usize], and the bitwise complement [!x]. *)
Definition checked_add64 (x y : Z) : option Z :=
  if x + y <=? u64_max then Some (x + y) else None.
Definition sat_add64 (x y : Z) : Z := Z.min (x + y) u64_max.
Definition sat_sub64 (x y : Z) : Z := Z.max (x - y) 0.
Definition wrap64 (x : Z) : Z := x mod 2 ^ 64.
Definition not64 (x : Z) : Z := u64_max - x.

Lemma wp_add64 x y (Q : Z → Prop) :
  x + y ≤ u64_max → Q (x + y) → wp (add64 x y) Q.
Proof. intros ??. unfold add64. by rewrite (proj2 (Z.leb_le _ _)). Qed.

Lemma wp_sub64 x y (Q : Z → Prop) :
  y ≤ x → Q (x - y) → wp (sub64 x y) Q.
Proof. intros ??. unfold sub64. by rewrite (proj2 (Z.leb_le _ _)). Qed.

Lemma wp_mul64 x y (Q : Z → Prop) :
  x * y ≤ u64_max → Q (x * y) → wp (mul64 x y) Q.
Proof. intros ??. unfold mul64. by rewrite (proj2 (Z.leb_le _ _)). Qed.

(** ** Arrays

    A fixed-size array [[T; N]] is a list of length [N]; indexing panics when
    out of range. *)

Definition arr_get {A} (l : list A) (i : nat) : outcome A :=
  match l !! i with Some a => Ret a | None => Panic PBounds end.
Definition arr_set {A} (l : list A) (i : nat) (a : A) : outcome (list A) :=
  match l !! i with Some _ => Ret (<[i:=a]> l) | None => Panic PBounds end.

Lemma wp_arr_get {A} (l : list A) i a (Q : A → Prop) :
  l !! i = Some a → Q a → wp (arr_get l i) Q.
Proof. unfold arr_get. by intros ->. Qed.

Lemma wp_arr_set {A} (l : list A) i a (Q : list A → Prop) :
  (i < length l)%nat → Q (<[i:=a]> l) → wp (arr_set l i a) Q.
Proof.
  intros Hi HQ. unfold arr_set.
  destruct (lookup_lt_is_Some_2 l i Hi) as [? ->]. done.
Qed.

(** *** List facts shared by the array loops *)

Lemma take_S_insert {A} (l : list A) w x :
  (w < length l)%nat → take (S w) (<[w:=x]> l) = take w l ++ [x].
Proof.
  intros Hw. rewrite (take_S_r _ w x) by by apply list_lookup_insert_eq.
  by rewrite take_insert_ge by lia.
Qed.

Lemma lookup_of_drop {A} (l1 l2 : list A) i :
  drop i l1 = drop i l2 → l1 !! i = l2 !! i.
Proof.
  intros H. replace i with (i + 0)%nat by lia. by rewrite <-!lookup_drop, H.
Qed.

Lemma drop_S_of_drop {A} (l1 l2 : list A) i :
  drop i l1 = drop i l2 → drop (S i) l1 = drop (S i) l2.
Proof. intros H. replace (S i) with (i + 1)%nat by lia. by rewrite <-!drop_drop, H. Qed.

Lemma filter_ext_in {A} (P Q : A → Prop) `{∀ x, Decision (P x)} `{∀ x, Decision (Q x)} (l : list A) :
  (∀ x, x ∈ l → P x ↔ Q x) → filter P l = filter Q l.
Proof.
  induction l as [|x l IH]; intros Hl; [done|].
  rewrite !filter_cons, IH by (intros; apply Hl; by right).
  pose proof (Hl x ltac:(by left)). by repeat case_decide; try tauto.
Qed.

Lemma filter_all {A} (P : A → Prop) `{∀ x, Decision (P x)} (l : list A) :
  (∀ x, x ∈ l → P x) → filter P l = l.
Proof.
  intros Hl. rewrite (filter_ext_in P (λ _, True)) by naive_solver.
  clear Hl. induction l as [|x l IH]; [done|]. by rewrite filter_cons_True, IH.
Qed.

(** ** Loops *)

(** [for x in l { a = f(x, a) }]. *)
Fixpoint for_each {A B} (f : B → A → outcome A) (l : list B) (a : A) : outcome A :=
  match l with
  | [] => Ret a
  | x :: l => f x a ≫= for_each f l
  end.

(** [for i in lo..hi { a = f(i, a) }]. *)
Definition for_range {A} (lo hi : nat) (f : nat → A → outcome A) (a : A) : outcome A :=
  for_each f (seq lo (hi - lo)) a.

(** A [for] loop whose body may leave the enclosing function ([return], [?]):
    [inl a] continues with state [a], [inr b] returns [b]. *)
Fixpoint for_each_ret {A B C} (f : B → A → outcome (A + C)) (l : list B) (a : A)
    : outcome (A + C) :=
  match l with
  | [] => Ret (inl a)
  | x :: l =>
      r ← f x a;
      match r with
      | inl a => for_each_ret f l a
      | inr c => Ret (inr c)
      end
  end.

(** A loop whose body either continues with a new state or leaves the loop
    with a value: [while] loops and [loop] with [break] or [return]. *)
Fixpoint iter {A B} (fuel : nat) (f : A → outcome (A + B)) (a : A) : outcome B :=
  match fuel with
  | O => NoFuel
  | S fuel =>
      r ← f a;
      match r with
      | inl a => iter fuel f a
      | inr b => Ret b
      end
  end.

(** Invariant rule for [for_each]: [I] relates the elements already visited and
    the loop state. *)
Lemma wp_for_each {A B} (f : B → A → outcome A) (l : list B) (a : A)
    (I : list B → A → Prop) (Q : A → Prop) :
  I [] a →
  (∀ done x rest a, l = done ++ x :: rest → I done a →
    wp (f x a) (I (done ++ [x]))) →
  (∀ a, I l a → Q a) →
  wp (for_each f l a) Q.
Proof.
  intros H0 Hstep HQ.
  cut (∀ done rest a, l = done ++ rest → I done a → wp (for_each f rest a) Q).
  { intros H. by apply (H [] l). }
  intros done rest. revert done. induction rest as [|x rest IH]; intros done a' Hl HI; simpl.
  { rewrite app_nil_r in Hl. subst. apply wp_ret. auto. }
  apply wp_bind. eapply wp_mono; [by eapply Hstep|].
  intros a'' HI'. apply (IH (done ++ [x])); [|done]. by rewrite <-app_assoc.
Qed.

(** The same for loops that may panic. *)
Lemma post_for_each {A B} (f : B → A → outcome A) (l : list B) (a : A)
    (I : list B → A → Prop) (Q : A → Prop) (P : panic → Prop) :
  I [] a →
  (∀ done x rest a, l = done ++ x :: rest → I done a → post (f x a) (I (done ++ [x])) P) →
  (∀ a, I l a → Q a) →
  post (for_each f l a) Q P.
Proof.
  intros H0 Hstep HQ.
  cut (∀ done rest a, l = done ++ rest → I done a → post (for_each f rest a) Q P).
  { intros H. by apply (H [] l). }
  intros done rest. revert done. induction rest as [|x rest IH]; intros done a' Hl HI; simpl.
  { rewrite app_nil_r in Hl. subst. auto. }
  pose proof (Hstep done x rest a' Hl HI) as Hx. destruct (f x a') as [a''|p|]; simpl in *; try done.
  apply (IH (done ++ [x])); [|done]. by rewrite <-app_assoc.
Qed.

(** Invariant rule for [for_each_ret]. *)
Lemma wp_for_each_ret {A B C} (f : B → A → outcome (A + C)) (l : list B) (a : A)
    (I : list B → A → Prop) (Q : A + C → Prop) :
  I [] a →
  (∀ done x rest a, l = done ++ x :: rest → I done a →
    wp (f x a) (λ r, match r with
                     | inl a' => I (done ++ [x]) a'
                     | inr c => Q (inr c)
                     end)) →
  (∀ a, I l a → Q (inl a)) →
  wp (for_each_ret f l a) Q.
Proof.
  intros H0 Hstep HQ.
  cut (∀ done rest a, l = done ++ rest → I done a → wp (for_each_ret f rest a) Q).
  { intros H. by apply (H [] l). }
  intros done rest. revert done. induction rest as [|x rest IH]; intros done a' Hl HI; simpl.
  { rewrite app_nil_r in Hl. subst. apply wp_ret. auto. }
  apply wp_bind. eapply wp_mono; [by eapply Hstep|].
  intros [a''|c] HI'; [|done]. apply (IH (done ++ [x])); [|done]. by rewrite <-app_assoc.
Qed.

Lemma post_for_each_ret {A B C} (f : B → A → outcome (A + C)) (l : list B) (a : A)
    (I : A → Prop) (Q : A + C → Prop) (P : panic → Prop) :
  I a →
  (∀ x a, x ∈ l → I a → post (f x a) (λ r, match r with inl a' => I a' | inr c => Q (inr c) end) P) →
  (∀ a, I a → Q (inl a)) →
  post (for_each_ret f l a) Q P.
Proof.
  intros H0 Hstep HQ. revert a H0. induction l as [|x l IH]; intros a H0; simpl; [by apply HQ|].
  pose proof (Hstep x a (list_elem_of_here _ _) H0) as Hx. destruct (f x a) as [[a'|c]|p|]; simpl in *; try done.
  apply IH; [|done]. intros y b Hy. apply Hstep. by right.
Qed.

(** Invariant rule for [for_range]: [I i a] holds when [i] is about to be
    visited. *)
Lemma wp_for_range {A} (lo hi : nat) (f : nat → A → outcome A) (a : A)
    (I : nat → A → Prop) (Q : A → Prop) :
  (lo ≤ hi)%nat →
  I lo a →
  (∀ i a, (lo ≤ i < hi)%nat → I i a → wp (f i a) (I (S i))) →
  (∀ a, I hi a → Q a) →
  wp (for_range lo hi f a) Q.
Proof.
  intros Hle H0 Hstep HQ. unfold for_range.
  remember (hi - lo)%nat as n eqn:Hn. revert lo a Hle H0 Hstep Hn.
  induction n as [|n IH]; intros lo a Hle H0 Hstep Hn; simpl.
  { apply wp_ret, HQ. by replace hi with lo by lia. }
  apply wp_bind. eapply wp_mono; [apply Hstep; [lia|done]|].
  intros a' Ha'. apply IH; [lia|done| |lia].
  intros i a'' Hi. apply Hstep. lia.
Qed.

(** Total-correctness rule for [iter]: the measure decreases at every
    iteration, and the fuel exceeds its initial value. *)
Lemma wp_iter {A B} (fuel : nat) (f : A → outcome (A + B)) (a : A)
    (I : A → Prop) (m : A → nat) (Q : B → Prop) :
  I a →
  (m a < fuel)%nat →
  (∀ a, I a → wp (f a) (λ r, match r with
                             | inl a' => I a' ∧ (m a' < m a)%nat
                             | inr b => Q b
                             end)) →
  wp (iter fuel f a) Q.
Proof.
  intros H0 Hm Hstep. revert a H0 Hm.
  induction fuel as [|fuel IH]; intros a H0 Hm; [lia|]; simpl.
  apply wp_bind. eapply wp_mono; [by apply Hstep|].
  intros [a'|b]; [|done]. intros [HI Hlt]. apply IH; [done|lia].
Qed.

(** The same with the variant as part of the invariant. *)
Lemma wp_iter_var {A B} (fuel : nat) (f : A → outcome (A + B)) (a : A)
    (I : nat → A → Prop) (n : nat) (Q : B → Prop) :
  I n a → (n < fuel)%nat →
  (∀ n a, I n a → wp (f a) (λ r, match r with
                                 | inl a' => ∃ n', (n' < n)%nat ∧ I n' a'
                                 | inr b => Q b
                                 end)) →
  wp (iter fuel f a) Q.
Proof.
  intros H0 Hn Hstep. revert n a H0 Hn.
  induction fuel as [|fuel IH]; intros n a H0 Hn; [lia|]; simpl.
  apply wp_bind. eapply wp_mono; [by apply (Hstep n)|].
  intros [a'|b]; [|done]. intros (n' & Hlt & HI). apply (IH n'); [done|lia].
Qed.

(** The result of [iter] does not depend on the fuel once it returns. *)
Lemma iter_fuel_mono {A B} (n m : nat) (f : A → outcome (A + B)) (a : A) (b : B) :
  (n ≤ m)%nat → iter n f a = Ret b → iter m f a = Ret b.
Proof.
  revert m a. induction n as [|n IH]; intros m a Hle H; [done|].
  destruct m as [|m]; [lia|]. simpl in *.
  destruct (f a) as [[a'|b']| |]; simpl in *; try done.
  apply IH; [lia|done].
Qed.

Lemma iter_stable {A B} (n m : nat) (f : A → outcome (A + B)) (a : A) :
  (n ≤ m)%nat → iter n f a ≠ NoFuel → iter m f a = iter n f a.
Proof.
  revert m a. induction n as [|n IH]; intros m a Hle H; [done|].
  destruct m as [|m]; [lia|]. simpl in *. destruct (f a) as [[a'|b']| |]; simpl in *; try done.
  apply IH; [lia|done].
Qed.

Lemma iter_next {A B} n (f : A → outcome (A + B)) a a' : f a = Ret (inl a') → iter (S n) f a = iter n f a'.
Proof. cbn [iter]. by intros ->. Qed.

Lemma iter_done {A B} n (f : A → outcome (A + B)) a b : f a = Ret (inr b) → iter (S n) f a = Ret b.
Proof. cbn [iter]. by intros ->. Qed.

(** *** Computations that end

    [halts m]: [m] returns or panics. *)
Definition halts {A} (m : outcome A) : Prop := post m (λ _, True) (λ _, True).

Lemma halts_bind {A B} (m : outcome A) (f : A → outcome B) : halts m → (∀ x, halts (f x)) → halts (m ≫= f).
Proof. intros Hm Hf. eapply post_bind_post; [exact Hm|]. intros x _. apply Hf. Qed.

Lemma halts_add64 x y : halts (add64 x y).
Proof. unfold halts, add64. by destruct (_ <=? _). Qed.

Lemma halts_sub64 x y : halts (sub64 x y).
Proof. unfold halts, sub64. by destruct (_ <=? _). Qed.

Lemma halts_mul64 x y : halts (mul64 x y).
Proof. unfold halts, mul64. by destruct (_ <=? _). Qed.

Lemma halts_for_each {A B} (f : B → A → outcome A) l a : (∀ x a, halts (f x a)) → halts (for_each f l a).
Proof. intros Hf. revert a. induction l as [|x l IH]; intros a; [done|]. cbn. apply halts_bind; auto. Qed.

Lemma halts_for_each_ret {A B C} (f : B → A → outcome (A + C)) l a :
  (∀ x a, halts (f x a)) → halts (for_each_ret f l a).
Proof.
  intros Hf. revert a. induction l as [|x l IH]; intros a; [done|]. cbn. apply halts_bind; [done|]. by intros [?|?].
Qed.

Create HintDb halts.
#[export] Hint Resolve halts_add64 halts_sub64 halts_mul64 : halts.

(** Follows the binds and branches of a computation without unbounded loops. *)
Ltac halt :=
  repeat first [ solve [eauto with halts | done] | apply halts_bind; [|intros ?] | case_match ].

(** *** Proof automation

    [wp_step] performs one step of a [wp] goal: it enters a bind, consumes a
    return, a checked operation whose side condition is arithmetic, or an
    array access whose contents are known. *)

Create HintDb anvil.

Ltac wp_step :=
  lazymatch goal with
  | |- wp (mret _) _ => apply wp_mret
  | |- wp (Ret _) _ => apply wp_ret
  | |- wp (_ ≫= _) _ => apply wp_bind
  | |- wp (mbind _ _) _ => apply wp_bind
  | |- wp (add64 _ _) _ => apply wp_add64; [first [lia | shelve_unifiable]|]
  | |- wp (sub64 _ _) _ => apply wp_sub64; [first [lia | shelve_unifiable]|]
  | |- wp (arr_get _ _) _ => eapply wp_arr_get; [solve [eauto with anvil]|]
  | |- wp (assert _) _ => apply wp_assert; [try done|]
  end.
