(* ===== verification/Misc.v ===== *)
(** * Address arithmetic helpers

    Models kernel/src/arch/amd64/memory/misc.rs: alignment, integer logarithm,
    the higher-half direct map translation, the page-count to order conversion
    and the size formatter.  [HHDM_OFFSET] (a static set once at boot by
    [init_physical_memory]) is the argument [hhdm]. *)
From stdpp Require Import strings.
From S2P Require Import Prelude.

Definition align_up (x a : Z) : outcome Z :=
  s ← add64 x a;
  s ← sub64 s 1;
  m ← sub64 a 1;
  Ret (Z.land s (not64 m)).

Definition align_down (x a : Z) : outcome Z :=
  m ← sub64 a 1;
  Ret (Z.land x (not64 m)).

(** [usize::leading_zeros] and [usize::trailing_zeros]. *)
Definition leading_zeros (x : Z) : Z :=
  if x =? 0 then 64 else 63 - Z.log2 x.

Fixpoint pos_trailing_zeros (p : positive) : Z :=
  match p with
  | xO p => 1 + pos_trailing_zeros p
  | _ => 0
  end.

Definition trailing_zeros (x : Z) : Z :=
  match x with Zpos p => pos_trailing_zeros p | _ => 64 end.

Definition floor_log2 (x : Z) : outcome Z := sub64 63 (leading_zeros x).

Definition virt_to_phys (hhdm virt : Z) : outcome Z := sub64 virt hhdm.
Definition phys_to_virt (hhdm phys : Z) : outcome Z := add64 phys hhdm.

(** The loop of [pages_to_order]; [n <<= 1] drops the bit shifted out, so it
    wraps.  65 iterations are enough whenever the source loop terminates. *)
Definition pages_to_order (pages : Z) : outcome Z :=
  assert (0 <? pages) ;;
  iter 65 (λ '(n, order),
    if n <? pages then Ret (inl (wrap64 (2 * n), order + 1))
    else Ret (inr order)) (1, 0).

Inductive SizeUnit := Bytes | KiB | MiB | GiB | TiB.

Definition size_unit_str (u : SizeUnit) : string :=
  match u with
  | Bytes => "B"
  | KiB => "KiB"
  | MiB => "MiB"
  | GiB => "GiB"
  | TiB => "TiB"
  end.

Record HumanSize := { hs_value : Z; hs_unit : SizeUnit }.

Definition human_readable_size (bytes : Z) : HumanSize :=
  let KIB := 1024 in
  let MIB := 1024 * KIB in
  let GIB := 1024 * MIB in
  let TIB := 1024 * GIB in
  if TIB <=? bytes then {| hs_value := bytes / TIB; hs_unit := TiB |}
  else if GIB <=? bytes then {| hs_value := bytes / GIB; hs_unit := GiB |}
  else if MIB <=? bytes then {| hs_value := bytes / MIB; hs_unit := MiB |}
  else if KIB <=? bytes then {| hs_value := bytes / KIB; hs_unit := KiB |}
  else {| hs_value := bytes; hs_unit := Bytes |}.

(** ** Bit masks and alignment *)

Lemma land_not64_low (s k : Z) :
  0 ≤ s ≤ u64_max → 0 ≤ k ≤ 64 →
  Z.land s (not64 (2 ^ k - 1)) = 2 ^ k * (s / 2 ^ k).
Proof.
  intros Hs Hk. unfold not64, u64_max in *.
  replace (2 ^ 64 - 1 - (2 ^ k - 1)) with (Z.shiftl (Z.ones (64 - k)) k).
  2:{ rewrite Z.shiftl_mul_pow2, Z.ones_equiv by lia.
      replace (2 ^ 64) with (2 ^ (64 - k) * 2 ^ k); [lia|].
      rewrite <-Z.pow_add_r by lia. f_equal. lia. }
  rewrite Z.mul_comm, <-Z.shiftl_mul_pow2, <-Z.shiftr_div_pow2 by lia.
  apply Z.bits_inj'. intros n Hn. rewrite Z.land_spec.
  destruct (decide (n < k)) as [Hlt|Hge].
  { by rewrite !Z.shiftl_spec_low, andb_false_r by lia. }
  rewrite !Z.shiftl_spec, Z.shiftr_spec by lia.
  replace (n - k + k) with n by lia.
  destruct (decide (n < 64)) as [Hlt64|Hge64].
  { by rewrite Z.ones_spec_low, andb_true_r by lia. }
  rewrite Z.ones_spec_high, andb_false_r by lia. symmetry.
  destruct (decide (s = 0)) as [->|Hne]; [apply Z.bits_0|].
  apply Z.bits_above_log2; [lia|]. apply Z.log2_lt_pow2; [lia|].
  apply Z.lt_le_trans with (2 ^ 64); [lia|]. apply Z.pow_le_mono_r; lia.
Qed.

(** The value [align_up] computes for a power-of-two alignment. *)
Definition align_up_to (x a : Z) : Z := a * ((x + a - 1) / a).

Lemma align_up_to_spec x a :
  0 < a → x ≤ align_up_to x a < x + a ∧ align_up_to x a mod a = 0.
Proof.
  intros Ha. unfold align_up_to. split.
  - pose proof (Z.div_mod (x + a - 1) a ltac:(lia)).
    pose proof (Z.mod_pos_bound (x + a - 1) a Ha). lia.
  - rewrite Z.mul_comm. apply Z.mod_mul. lia.
Qed.

Lemma wp_align_up x k (Q : Z → Prop) :
  0 ≤ x → 0 ≤ k < 64 → x + 2 ^ k ≤ u64_max → Q (align_up_to x (2 ^ k)) →
  wp (align_up x (2 ^ k)) Q.
Proof.
  intros Hx Hk Hmax HQ. unfold align_up.
  pose proof (Z.pow_pos_nonneg 2 k ltac:(lia) ltac:(lia)).
  wp_step. apply wp_add64; [lia|]. wp_step. apply wp_sub64; [lia|].
  wp_step. apply wp_sub64; [lia|]. apply wp_ret.
  rewrite land_not64_low by lia. done.
Qed.

Lemma wp_align_down x k (Q : Z → Prop) :
  is_u64 x → 0 ≤ k < 64 → Q (2 ^ k * (x / 2 ^ k)) →
  wp (align_down x (2 ^ k)) Q.
Proof.
  intros Hx Hk HQ. unfold align_down.
  pose proof (Z.pow_pos_nonneg 2 k ltac:(lia) ltac:(lia)).
  wp_step. apply wp_sub64; [lia|]. apply wp_ret.
  rewrite land_not64_low by (unfold is_u64 in *; lia). done.
Qed.

Lemma wp_floor_log2 x (Q : Z → Prop) :
  0 < x ≤ u64_max → Q (Z.log2 x) → wp (floor_log2 x) Q.
Proof.
  intros Hx HQ. unfold floor_log2, leading_zeros.
  rewrite (proj2 (Z.eqb_neq x 0)) by lia.
  assert (Z.log2 x < 64) by (apply Z.log2_lt_pow2; unfold u64_max in *; lia).
  apply wp_sub64; [pose proof (Z.log2_nonneg x); lia|].
  by replace (63 - (63 - Z.log2 x)) with (Z.log2 x) by lia.
Qed.

(** ** Trailing zeros *)

Lemma pos_trailing_zeros_nonneg p : 0 ≤ pos_trailing_zeros p.
Proof. induction p; simpl; lia. Qed.

Lemma pos_trailing_zeros_divide p : (2 ^ pos_trailing_zeros p | Zpos p).
Proof.
  induction p as [p IH|p IH|]; simpl pos_trailing_zeros; try apply Z.divide_1_l.
  pose proof (pos_trailing_zeros_nonneg p).
  rewrite Z.pow_add_r, Z.pow_1_r, (Pos2Z.inj_xO p) by lia.
  by apply Z.mul_divide_mono_l.
Qed.

Lemma trailing_zeros_divide x k :
  0 < x → 0 ≤ k ≤ trailing_zeros x → (2 ^ k | x).
Proof.
  intros Hx Hk. destruct x as [|p|p]; try lia. simpl in Hk.
  etransitivity; [|apply pos_trailing_zeros_divide].
  exists (2 ^ (pos_trailing_zeros p - k)). rewrite <-Z.pow_add_r by lia. f_equal. lia.
Qed.

Lemma trailing_zeros_nonneg x : 0 ≤ trailing_zeros x.
Proof. destruct x; simpl; [lia| |lia]. apply pos_trailing_zeros_nonneg. Qed.

(** ** Page counts and orders *)

(** [pages_to_order] returns the least order whose block holds [pages] pages. *)
Lemma pages_to_order_spec pages :
  0 < pages ≤ 2 ^ 63 →
  wp (pages_to_order pages) (λ o,
    0 ≤ o ≤ 63 ∧ pages ≤ 2 ^ o ∧ (∀ o', 0 ≤ o' < o → 2 ^ o' < pages)).
Proof.
  intros Hp. unfold pages_to_order.
  wp_step. apply wp_assert; [apply Z.ltb_lt; lia|].
  apply (wp_iter _ _ _
    (λ '(n, o), 0 ≤ o ≤ 63 ∧ n = 2 ^ o ∧ ∀ o', 0 ≤ o' < o → 2 ^ o' < pages)
    (λ '(n, o), Z.to_nat (64 - o))).
  - split; [lia|]. split; [done|]. intros. lia.
  - lia.
  - intros [n o] (Ho & -> & Hlt). destruct (Z.ltb_spec (2 ^ o) pages) as [Hn|Hn]; simpl.
    + assert (o < 63) by (apply (Z.pow_lt_mono_r_iff 2); lia).
      assert (2 ^ (o + 1) = 2 * 2 ^ o) as Hpow by (rewrite Z.pow_add_r; lia).
      assert (2 ^ (o + 1) ≤ 2 ^ 63) by (apply Z.pow_le_mono_r; lia).
      split; [|lia]. split; [lia|]. split.
      { unfold wrap64. rewrite Z.mod_small by lia. lia. }
      intros o' Ho'. destruct (decide (o' = o)) as [->|]; [done|]. apply Hlt. lia.
    + done.
Qed.

#[export] Hint Resolve trailing_zeros_nonneg : anvil.
