(* ===== verification/Cpio.v ===== *)
(** * The initial archive

    Models kernel/src/cpio_parser/mod.rs: the iterator over a cpio archive in
    the new ASCII format and the search for a file in it.  [cpio_encode] is the
    format: iterating over an archive yields the files that were put in, and
    the search finds the first that fits.  After a malformed header the
    iterator stays where it is, so the search never ends. *)
From S2P Require Import Prelude Misc.

Record CpioEntry := mk_cpio_entry { ce_name : list Z; ce_data : list Z }.

Module CpioError.
Inductive t := InvalidMagic | InvalidHeader | UnexpectedEnd | InvalidUtf8.
End CpioError.

Definition len {A} (l : list A) : Z := Z.of_nat (length l).

(** [&l[a..b]]. *)
Definition slice {A} (l : list A) (a b : Z) : outcome (list A) :=
  if (a <=? b) && (b <=? len l) then Ret (take (Z.to_nat (b - a)) (drop (Z.to_nat a) l)) else Panic PBounds.

Definition mul32 (x y : Z) : outcome Z := if x * y <=? u32_max then Ret (x * y) else Panic POverflow.
Definition add32 (x y : Z) : outcome Z := if x + y <=? u32_max then Ret (x + y) else Panic POverflow.

(** The value of a hexadecimal digit. *)
Definition hex_digit (b : Z) : option Z :=
  if (48 <=? b) && (b <=? 57) then Some (b - 48)
  else if (97 <=? b) && (b <=? 102) then Some (b - 97 + 10)
  else if (65 <=? b) && (b <=? 70) then Some (b - 65 + 10)
  else None.

Definition parse_hex8 (bytes : list Z) : outcome (result CpioError.t Z) :=
  if len bytes <? 8 then Ret (Err CpioError.InvalidHeader)
  else
    ds ← slice bytes 0 8;
    r ← for_each_ret (λ b res,
      match hex_digit b with
      | Some digit =>
          m ← mul32 res 16;
          s ← add32 m digit;
          Ret (inl s)
      | None => Ret (inr CpioError.InvalidHeader)
      end) ds 0;
    match r with
    | inl v => Ret (Ok v)
    | inr e => Ret (Err e)
    end.

Definition align4 (x : Z) : outcome Z :=
  s ← add64 x 3;
  Ret (Z.land s (not64 3)).

(** [core::str::from_utf8]: well-formed UTF-8. *)
Definition in_range_z (lo hi b : Z) : bool := (lo <=? b) && (b <=? hi).
Definition cont_byte (b : Z) : bool := in_range_z 0x80 0xBF b.

Fixpoint utf8_valid (l : list Z) : bool :=
  match l with
  | [] => true
  | b :: l =>
      if in_range_z 0 0x7F b then utf8_valid l
      else match l with
      | [] => false
      | c1 :: l =>
          if in_range_z 0xC2 0xDF b then cont_byte c1 && utf8_valid l
          else match l with
          | [] => false
          | c2 :: l =>
              if in_range_z 0xE0 0xEF b then
                in_range_z (if b =? 0xE0 then 0xA0 else 0x80) (if b =? 0xED then 0x9F else 0xBF) c1 &&
                cont_byte c2 && utf8_valid l
              else match l with
              | [] => false
              | c3 :: l =>
                  in_range_z 0xF0 0xF4 b &&
                  in_range_z (if b =? 0xF0 then 0x90 else 0x80) (if b =? 0xF4 then 0x8F else 0xBF) c1 &&
                  cont_byte c2 && cont_byte c3 && utf8_valid l
              end
          end
      end
  end.

(** ** [CpioIter] *)

Record CpioIter := mk_cpio_iter { ci_data : list Z; ci_offset : Z }.

Definition cpio_new (data : list Z) : CpioIter := mk_cpio_iter data 0.

(** The bytes [070701] and [TRAILER!!!]. *)
Definition MAGIC : list Z := [48; 55; 48; 55; 48; 49].
Definition TRAILER : list Z := [84; 82; 65; 73; 76; 69; 82; 33; 33; 33].

Definition cpio_next (it : CpioIter) : outcome (CpioIter * option (result CpioError.t CpioEntry)) :=
  let data := ci_data it in
  let off := ci_offset it in
  hdr ← add64 off 110;
  if len data <? hdr then Ret (it, None)
  else
    e6 ← add64 off 6;
    magic ← slice data off e6;
    if negb (bool_decide (magic = MAGIC)) then Ret (it, Some (Err CpioError.InvalidMagic))
    else
      o54 ← add64 off 54;
      b ← slice data o54 (len data);
      r ← parse_hex8 b;
      match r with
      | Err e => Ret (it, Some (Err e))
      | Ok filesize =>
          o94 ← add64 off 94;
          b ← slice data o94 (len data);
          r ← parse_hex8 b;
          match r with
          | Err e => Ret (it, Some (Err e))
          | Ok namesize =>
              name_start ← add64 off 110;
              name_end ← add64 name_start namesize;
              if len data <? name_end then Ret (it, Some (Err CpioError.UnexpectedEnd))
              else
                e ← sub64 name_end 1;
                name ← slice data name_start e;
                if negb (utf8_valid name) then Ret (it, Some (Err CpioError.InvalidUtf8))
                else
                  data_start ← align4 name_end;
                  data_end ← add64 data_start filesize;
                  if len data <? data_end then Ret (it, Some (Err CpioError.UnexpectedEnd))
                  else
                    file_data ← slice data data_start data_end;
                    offset ← align4 data_end;
                    let it := mk_cpio_iter data offset in
                    if bool_decide (name = TRAILER) then Ret (it, None)
                    else Ret (it, Some (Ok (mk_cpio_entry name file_data)))
          end
      end.

(** [str::ends_with]. *)
Definition ends_with (s suffix : list Z) : bool := bool_decide (suffix `suffix_of` s).

Definition names (e : CpioEntry) (filename : list Z) : bool :=
  bool_decide (ce_name e = filename) || ends_with (ce_name e) filename.

(** One round of the loop of [cpio_find]. *)
Definition find_step (filename : list Z) (it : CpioIter) : outcome (CpioIter + option (list Z)) :=
  '(it, r) ← cpio_next it;
  match r with
  | None => Ret (inr None)
  | Some (Ok e) => if names e filename then Ret (inr (Some (ce_data e))) else Ret (inl it)
  | Some (Err _) => Ret (inl it)
  end.

(** The source has no bound on the loop: [fuel] is the number of rounds. *)
Definition cpio_find (fuel : nat) (archive filename : list Z) : outcome (option (list Z)) :=
  iter fuel (find_step filename) (cpio_new archive).

(** ** The format *)

(** A file as an archive stores it: the header fields that the parser skips
    (eleven numbers, of which [pk_pre], [pk_mid] and [pk_chk] are the text),
    whether hexadecimal digits are capitals, and the file. *)
Record packed := mk_packed {
  pk_pre : list Z;
  pk_mid : list Z;
  pk_chk : list Z;
  pk_upper : bool;
  pk_entry : CpioEntry
}.

Definition hex_char (upper : bool) (d : Z) : Z :=
  if d <? 10 then 48 + d else if upper then 55 + d else 87 + d.

Definition hex8 (upper : bool) (v : Z) : list Z :=
  (λ i, hex_char upper (v / 16 ^ i mod 16)) <$> [7; 6; 5; 4; 3; 2; 1; 0].

Definition pad4 (n : Z) : list Z := replicate (Z.to_nat ((- n) mod 4)) 0.

Definition cpio_header (p : packed) : list Z :=
  MAGIC ++ pk_pre p ++ hex8 (pk_upper p) (len (ce_data (pk_entry p))) ++ pk_mid p ++
  hex8 (pk_upper p) (len (ce_name (pk_entry p)) + 1) ++ pk_chk p.

Definition cpio_encode (p : packed) : list Z :=
  let name := ce_name (pk_entry p) in
  let data := ce_data (pk_entry p) in
  cpio_header p ++ name ++ [0] ++ pad4 (110 + len name + 1) ++ data ++ pad4 (len data).

Record packed_ok (p : packed) : Prop := {
  po_pre : length (pk_pre p) = 48%nat;
  po_mid : length (pk_mid p) = 32%nat;
  po_chk : length (pk_chk p) = 8%nat;
  po_name : len (ce_name (pk_entry p)) + 1 ≤ u32_max;
  po_data : len (ce_data (pk_entry p)) ≤ u32_max;
  po_utf8 : utf8_valid (ce_name (pk_entry p)) = true
}.

(** ** Slices *)

Lemma len_app {A} (a b : list A) : len (a ++ b) = len a + len b.
Proof. unfold len. rewrite length_app. lia. Qed.

Lemma len_nonneg {A} (l : list A) : 0 ≤ len l.
Proof. unfold len. lia. Qed.

Lemma slice_mid {A} (l a b c : list A) x y :
  l = a ++ b ++ c → x = len a → y = len a + len b → slice l x y = Ret b.
Proof.
  intros -> -> ->. unfold slice. rewrite !len_app. pose proof (len_nonneg b). pose proof (len_nonneg c).
  rewrite (proj2 (Z.leb_le _ _)), (proj2 (Z.leb_le _ _)) by lia. cbn [andb].
  replace (len a + len b - len a) with (len b) by lia. unfold len. rewrite !Nat2Z.id.
  by rewrite drop_app_length, take_app_length.
Qed.

(** ** Numbers *)

Lemma hex_digit_char upper d : 0 ≤ d < 16 → hex_digit (hex_char upper d) = Some d.
Proof.
  intros Hd. unfold hex_char, hex_digit. destruct (Z.ltb_spec d 10).
  - rewrite (proj2 (Z.leb_le _ _)), (proj2 (Z.leb_le _ _)) by lia. cbn [andb]. f_equal. lia.
  - destruct upper.
    + rewrite (proj2 (Z.leb_le 48 _)), (proj2 (Z.leb_gt _ 57)), (proj2 (Z.leb_gt 97 _)), (proj2 (Z.leb_le 65 _)),
        (proj2 (Z.leb_le _ 70)) by lia. cbn [andb]. f_equal. lia.
    + rewrite (proj2 (Z.leb_le 48 _)), (proj2 (Z.leb_gt _ 57)), (proj2 (Z.leb_le 97 _)), (proj2 (Z.leb_le _ 102))
        by lia. cbn [andb]. f_equal. lia.
Qed.

Lemma parse_digit upper v acc d (Q : Z + CpioError.t → Prop) :
  0 ≤ acc → acc * 16 + 15 ≤ u32_max → 0 ≤ d < 16 → v = hex_char upper d → Q (inl (acc * 16 + d)) →
  wp (match hex_digit v with
      | Some digit => m ← mul32 acc 16; s ← add32 m digit; Ret (inl s)
      | None => Ret (inr CpioError.InvalidHeader)
      end) Q.
Proof.
  intros H0 Hm Hd -> HQ. rewrite hex_digit_char by done. unfold mul32, add32.
  rewrite (proj2 (Z.leb_le _ _)) by lia. cbn [mbind outcome_bind].
  by rewrite (proj2 (Z.leb_le _ _)) by lia.
Qed.

Lemma div16_step v i : 0 ≤ v → 0 ≤ i → v / 16 ^ (i + 1) * 16 + v / 16 ^ i mod 16 = v / 16 ^ i.
Proof.
  intros Hv Hi. rewrite Z.pow_add_r, <-Z.div_div by lia. change (16 ^ 1) with 16.
  pose proof (Z.div_mod (v / 16 ^ i) 16 ltac:(lia)). lia.
Qed.

(** Reading back a number. *)
Lemma parse_hex8_spec upper v rest :
  0 ≤ v ≤ u32_max → parse_hex8 (hex8 upper v ++ rest) = Ret (Ok v).
Proof.
  intros Hv. unfold parse_hex8. assert (len (hex8 upper v) = 8) as Hl by done.
  rewrite len_app, Hl. pose proof (len_nonneg rest). rewrite (proj2 (Z.ltb_ge _ _)) by lia.
  rewrite (slice_mid _ [] (hex8 upper v) rest) by done. cbn [mbind outcome_bind].
  cut (wp (for_each_ret (λ b res, match hex_digit b with
      | Some digit => m ← mul32 res 16; s ← add32 m digit; Ret (inl s)
      | None => Ret (inr CpioError.InvalidHeader)
      end) (hex8 upper v) 0) (λ r, r = inl v)).
  { by intros (r & -> & ->)%wp_elim. }
  unfold u32_max in *.
  apply (wp_for_each_ret _ _ _ (λ done acc, acc = v / 16 ^ (8 - len done))).
  - change (16 ^ (8 - len [])) with 4294967296. by rewrite Z.div_small by lia.
  - intros done x rest' acc Hd ->.
    assert (length done < 8)%nat as Hdl.
    { pose proof (f_equal length Hd) as Hlen. rewrite length_app in Hlen. cbn in Hlen. lia. }
    assert (x = hex_char upper (v / 16 ^ (7 - len done) mod 16)) as Hx.
    { assert (hex8 upper v !! length done = Some x) as Hlk by (by rewrite Hd, list_lookup_middle).
      unfold hex8 in Hlk. rewrite list_lookup_fmap in Hlk. apply fmap_Some in Hlk as (i & Hi & ->).
      assert (i = 7 - len done) as ->; [|done]. unfold len. revert Hi. generalize (length done). intros n Hi.
      do 8 (destruct n as [|n]; [by injection Hi as <-|]). discriminate Hi. }
    assert (0 < 16 ^ (8 - len done)) by (unfold len; apply Z.pow_pos_nonneg; lia).
    assert (v / 16 ^ (8 - len done) < 16 ^ 7) as Hb.
    { destruct (decide (length done = 0%nat)) as [E|E].
      - unfold len. rewrite E. change (8 - Z.of_nat 0) with 8. by rewrite Z.div_small by lia.
      - apply Z.div_lt_upper_bound; [done|]. unfold len in *.
        assert (16 ^ 1 ≤ 16 ^ (8 - Z.of_nat (length done))) by (apply Z.pow_le_mono_r; lia). lia. }
    eapply (parse_digit upper _ _ (v / 16 ^ (7 - len done) mod 16)).
    + apply Z.div_pos; lia.
    + change (16 ^ 7) with 268435456 in Hb. unfold u32_max. lia.
    + apply Z.mod_pos_bound. lia.
    + done.
    + rewrite len_app. change (len [x]) with 1. replace (8 - len done) with (7 - len done + 1) by lia.
      rewrite div16_step by (unfold len; lia). do 2 f_equal. lia.
  - intros acc ->. rewrite Hl. cbn. by rewrite Z.div_1_r.
Qed.

Lemma align4_spec x : 0 ≤ x → x + 3 ≤ u64_max → align4 x = Ret (x + (- x) mod 4).
Proof.
  intros H0 Hx. unfold align4, add64. rewrite (proj2 (Z.leb_le _ _)) by lia. cbn [mbind outcome_bind].
  pose proof (land_not64_low (x + 3) 2) as Hl. change (2 ^ 2 - 1) with 3 in Hl. change (2 ^ 2) with 4 in Hl.
  rewrite Hl by (unfold u64_max in *; lia). f_equal.
  pose proof (Z.div_mod (x + 3) 4 ltac:(lia)). pose proof (Z.mod_pos_bound (x + 3) 4 ltac:(lia)).
  pose proof (Z.div_mod (- x) 4 ltac:(lia)). pose proof (Z.mod_pos_bound (- x) 4 ltac:(lia)). lia.
Qed.

Lemma len_pad4 n : len (pad4 n) = (- n) mod 4.
Proof. unfold len, pad4. rewrite length_replicate. pose proof (Z.mod_pos_bound (- n) 4 ltac:(lia)). lia. Qed.

Lemma len_hex8 upper v : len (hex8 upper v) = 8.
Proof. done. Qed.

(** ** One file *)

Section file.
Variable p : packed.
Hypothesis Hp : packed_ok p.
#[local] Notation name := (ce_name (pk_entry p)).
#[local] Notation data := (ce_data (pk_entry p)).

Lemma cpio_header_len : len (cpio_header p) = 110.
Proof using Hp.
  destruct Hp. unfold cpio_header. rewrite !len_app, !len_hex8. unfold len at 1 2 3 4.
  rewrite po_pre0, po_mid0, po_chk0. done.
Qed.

Lemma cpio_encode_len :
  len (cpio_encode p) = 110 + len name + 1 + (- (110 + len name + 1)) mod 4 + len data + (- len data) mod 4.
Proof using Hp. unfold cpio_encode. rewrite !len_app, cpio_header_len, !len_pad4. change (len [0]) with 1. lia. Qed.

Lemma encode_aligned : len (cpio_encode p) mod 4 = 0.
Proof using Hp.
  rewrite cpio_encode_len. set (n := 110 + len name + 1).
  pose proof (Z.div_mod (- n) 4 ltac:(lia)). pose proof (Z.div_mod (- len data) 4 ltac:(lia)).
  replace (n + _ + len data + _) with (- ((- n) / 4 + (- len data) / 4) * 4) by lia. apply Z.mod_mul. lia.
Qed.

#[local] Notation h1 := (hex8 (pk_upper p) (len data)).
#[local] Notation h2 := (hex8 (pk_upper p) (len name + 1)).
#[local] Notation pad1 := (pad4 (110 + len name + 1)).

(** Where the parts of the file are. *)
Lemma file_slices before after :
  let archive := before ++ cpio_encode p ++ after in
  let off := len before in
  let name_end := off + 110 + (len name + 1) in
  let data_start := name_end + (- (110 + len name + 1)) mod 4 in
  slice archive off (off + 6) = Ret MAGIC ∧
  (∃ r, slice archive (off + 54) (len archive) = Ret (h1 ++ r)) ∧
  (∃ r, slice archive (off + 94) (len archive) = Ret (h2 ++ r)) ∧
  slice archive (off + 110) (name_end - 1) = Ret name ∧
  slice archive data_start (data_start + len data) = Ret data.
Proof using Hp.
  intros archive off name_end data_start. pose proof cpio_header_len as Hh. pose proof Hp as [Hpre Hmid Hchk _ _ _].
  set (tail := name ++ [0] ++ pad1 ++ data ++ pad4 (len data) ++ after).
  assert (len (pk_pre p) = 48 ∧ len (pk_mid p) = 32 ∧ len (pk_chk p) = 8) as (Lpre & Lmid & Lchk).
  { unfold len. rewrite Hpre, Hmid, Hchk. done. }
  assert (archive = before ++ MAGIC ++ pk_pre p ++ h1 ++ pk_mid p ++ h2 ++ pk_chk p ++ tail) as E.
  { unfold archive, cpio_encode, cpio_header, tail. by rewrite <-!app_assoc. }
  split_and!.
  - apply (slice_mid _ before MAGIC (pk_pre p ++ h1 ++ pk_mid p ++ h2 ++ pk_chk p ++ tail)); done.
  - exists (pk_mid p ++ h2 ++ pk_chk p ++ tail).
    apply (slice_mid _ (before ++ MAGIC ++ pk_pre p) _ []).
    + rewrite E, app_nil_r. by rewrite <-!app_assoc.
    + rewrite !len_app, Lpre. change (len MAGIC) with 6. unfold off. lia.
    + rewrite E, !len_app. lia.
  - exists (pk_chk p ++ tail).
    apply (slice_mid _ (before ++ MAGIC ++ pk_pre p ++ h1 ++ pk_mid p) _ []).
    + rewrite E, app_nil_r. by rewrite <-!app_assoc.
    + rewrite !len_app, Lpre, Lmid, len_hex8. change (len MAGIC) with 6. unfold off. lia.
    + rewrite E, !len_app. lia.
  - apply (slice_mid _ (before ++ cpio_header p) name ([0] ++ pad1 ++ data ++ pad4 (len data) ++ after)).
    + unfold archive, cpio_encode. by rewrite <-!app_assoc.
    + by rewrite len_app, Hh.
    + rewrite len_app, Hh. unfold name_end, off. lia.
  - apply (slice_mid _ (before ++ cpio_header p ++ name ++ [0] ++ pad1) data (pad4 (len data) ++ after)).
    + unfold archive, cpio_encode. by rewrite <-!app_assoc.
    + rewrite !len_app, Hh, len_pad4. change (len [0]) with 1. unfold data_start, name_end, off. lia.
    + rewrite !len_app, Hh, len_pad4. change (len [0]) with 1. unfold data_start, name_end, off. lia.
Qed.

(** What the iterator does at the start of a well-formed file. *)
Lemma cpio_next_file before after :
  len before mod 4 = 0 → len before + len (cpio_encode p) + 7 ≤ u64_max →
  let archive := before ++ cpio_encode p ++ after in
  cpio_next (mk_cpio_iter archive (len before)) =
    Ret (mk_cpio_iter archive (len before + len (cpio_encode p)),
         if bool_decide (name = TRAILER) then None else Some (Ok (pk_entry p))).
Proof using Hp.
  intros Hal Hmax archive. pose proof cpio_encode_len as Hlen. pose proof Hp as [_ _ _ Hn Hd Hu].
  destruct (file_slices before after) as (S1 & (r1 & S2) & (r2 & S3) & S4 & S5). fold archive in S1, S2, S3, S4, S5.
  pose proof (len_nonneg before). pose proof (len_nonneg after). pose proof (len_nonneg name). pose proof (len_nonneg data).
  set (n := 110 + len name + 1) in *.
  pose proof (Z.mod_pos_bound (- n) 4 ltac:(lia)) as Hm1. pose proof (Z.mod_pos_bound (- len data) 4 ltac:(lia)) as Hm2.
  assert (len archive = len before + len (cpio_encode p) + len after) as Ha.
  { unfold archive. rewrite !len_app. lia. }
  assert (∀ x y, x + y ≤ u64_max → add64 x y = Ret (x + y)) as Hadd.
  { intros x y Hxy. unfold add64. by rewrite (proj2 (Z.leb_le _ _)). }
  unfold cpio_next. cbn [ci_data ci_offset].
  rewrite (Hadd (len before) 110) by lia. cbn [mbind outcome_bind]. rewrite (proj2 (Z.ltb_ge _ _)) by lia.
  rewrite (Hadd (len before) 6) by lia. cbn [mbind outcome_bind]. rewrite S1. cbn [mbind outcome_bind].
  rewrite (bool_decide_true (MAGIC = MAGIC)) by done. cbn [negb].
  rewrite (Hadd (len before) 54) by lia. cbn [mbind outcome_bind]. rewrite S2. cbn [mbind outcome_bind].
  rewrite parse_hex8_spec by lia. cbn [mbind outcome_bind].
  rewrite (Hadd (len before) 94) by lia. cbn [mbind outcome_bind]. rewrite S3. cbn [mbind outcome_bind].
  rewrite parse_hex8_spec by lia. cbn [mbind outcome_bind].
  rewrite (Hadd (len before + 110)) by lia. cbn [mbind outcome_bind]. rewrite (proj2 (Z.ltb_ge _ _)) by lia.
  unfold sub64. rewrite (proj2 (Z.leb_le _ _)) by lia. cbn [mbind outcome_bind]. rewrite S4. cbn [mbind outcome_bind].
  rewrite Hu. cbn [negb].
  assert ((- (len before + 110 + (len name + 1))) mod 4 = (- n) mod 4) as Em.
  { replace (- (len before + 110 + (len name + 1))) with (- n + (- (len before / 4)) * 4).
    - apply Z.mod_add. lia.
    - pose proof (Z.div_mod (len before) 4 ltac:(lia)). unfold n. lia. }
  rewrite align4_spec by (unfold n in *; lia). cbn [mbind outcome_bind]. rewrite Em.
  rewrite (Hadd _ (len data)) by (unfold n in *; lia). cbn [mbind outcome_bind].
  rewrite (proj2 (Z.ltb_ge _ _)) by (unfold n in *; lia). rewrite S5. cbn [mbind outcome_bind].
  set (de := len before + 110 + (len name + 1) + (- n) mod 4 + len data).
  assert ((- de) mod 4 = (- len data) mod 4) as Ed.
  { pose proof (Z.div_mod (len before) 4 ltac:(lia)). pose proof (Z.div_mod (- n) 4 ltac:(lia)).
    replace (- de) with (- len data + (- (len before / 4) + (- n) / 4) * 4) by (unfold de, n in *; lia).
    apply Z.mod_add. lia. }
  rewrite align4_spec by (unfold de, n in *; lia). cbn [mbind outcome_bind]. rewrite Ed.
  replace (de + (- len data) mod 4) with (len before + len (cpio_encode p)) by (unfold de, n in *; lia).
  case_bool_decide; [done|]. by destruct (pk_entry p).
Qed.
End file.

(** ** Archives *)

Definition entries (ps : list packed) : list CpioEntry := pk_entry <$> ps.

(** The bytes of the files. *)
Definition cpio_files (ps : list packed) : list Z := ps ≫= cpio_encode.

Definition archive_ok (ps : list packed) : Prop :=
  Forall packed_ok ps ∧ Forall (λ p, ce_name (pk_entry p) ≠ TRAILER) ps.

Lemma cpio_files_aligned ps : Forall packed_ok ps → len (cpio_files ps) mod 4 = 0.
Proof.
  induction 1 as [|p ps Hp Hps IH]; [done|]. unfold cpio_files in *. rewrite bind_cons, len_app.
  rewrite Z.add_mod, (encode_aligned p Hp), IH by lia. done.
Qed.

(** One round of the search at the start of a file. *)
Lemma find_step_file filename p before after :
  packed_ok p → len before mod 4 = 0 → len before + len (cpio_encode p) + 7 ≤ u64_max →
  let archive := before ++ cpio_encode p ++ after in
  find_step filename (mk_cpio_iter archive (len before)) =
    Ret (if bool_decide (ce_name (pk_entry p) = TRAILER) then inr None
         else if names (pk_entry p) filename then inr (Some (ce_data (pk_entry p)))
         else inl (mk_cpio_iter archive (len before + len (cpio_encode p)))).
Proof.
  intros Hp Hal Hmax archive. unfold find_step, archive. rewrite cpio_next_file by done. cbn [mbind outcome_bind].
  case_bool_decide; [done|]. by destruct (names (pk_entry p) filename).
Qed.

(** The search steps over files that do not fit. *)
Lemma find_skips filename ps before after fuel :
  archive_ok ps → Forall (λ e, names e filename = false) (entries ps) → len before mod 4 = 0 →
  len before + len (cpio_files ps) + 7 ≤ u64_max →
  let archive := before ++ cpio_files ps ++ after in
  iter (length ps + fuel) (find_step filename) (mk_cpio_iter archive (len before)) =
  iter fuel (find_step filename) (mk_cpio_iter archive (len before + len (cpio_files ps))).
Proof.
  intros [Hok Hnt]. revert before Hnt. induction Hok as [|p ps Hp Hps IH]; intros before Hnt Hno Hal Hmax.
  { cbn. by rewrite Z.add_0_r. }
  apply Forall_cons in Hnt as [Hnt Hnts]. apply Forall_cons in Hno as [Hn Hno]. cbv zeta.
  unfold cpio_files in *. rewrite bind_cons, len_app in *. pose proof (len_nonneg (ps ≫= cpio_encode)).
  rewrite <-app_assoc. cbn [length Nat.add].
  rewrite (iter_next _ _ _ (mk_cpio_iter (before ++ cpio_encode p ++ (ps ≫= cpio_encode) ++ after)
    (len before + len (cpio_encode p)))).
  2:{ rewrite find_step_file by (try done; lia). by rewrite bool_decide_false, Hn. }
  specialize (IH (before ++ cpio_encode p) Hnts Hno). cbv zeta in IH. rewrite len_app, <-app_assoc in IH.
  rewrite IH; [do 2 f_equal; lia|rewrite Z.add_mod, (encode_aligned p Hp), Hal by lia; done|lia].
Qed.

(** The first file that fits. *)
Definition lookup_file (es : list CpioEntry) (filename : list Z) : option (list Z) :=
  ce_data <$> head (filter (λ e, names e filename = true) es).

Lemma find_split (f : CpioEntry → bool) ps :
  Forall (λ e, f e = false) (entries ps) ∨
  ∃ ps1 p ps2, ps = ps1 ++ p :: ps2 ∧ Forall (λ e, f e = false) (entries ps1) ∧ f (pk_entry p) = true.
Proof.
  induction ps as [|p ps IH]; [by left; apply Forall_nil|]. destruct (f (pk_entry p)) eqn:E.
  { right. exists [], p, ps. split; [done|]. split; [by apply Forall_nil|done]. }
  destruct IH as [Hall|(ps1 & q & ps2 & -> & Hall & Hq)]; [left; by apply Forall_cons|right].
  exists (p :: ps1), q, ps2. split; [done|]. split; [by apply Forall_cons|done].
Qed.

Lemma filter_none (f : CpioEntry → bool) es : Forall (λ e, f e = false) es → filter (λ e, f e = true) es = [].
Proof. induction 1 as [|e es He Hes IH]; [done|]. rewrite filter_cons_False by congruence. done. Qed.

(** The search on a whole archive: files, a trailer, anything after it. *)
Lemma cpio_find_spec ps t rest filename fuel :
  archive_ok ps → packed_ok t → ce_name (pk_entry t) = TRAILER →
  len (cpio_files ps ++ cpio_encode t) + 7 ≤ u64_max → (length ps < fuel)%nat →
  cpio_find fuel (cpio_files ps ++ cpio_encode t ++ rest) filename = Ret (lookup_file (entries ps) filename).
Proof.
  intros [Hok Hnt] Ht Htn Hmax Hfuel. rewrite len_app in Hmax. pose proof (len_nonneg (cpio_encode t)).
  unfold cpio_find, cpio_new, lookup_file.
  destruct (find_split (λ e, names e filename) ps) as [Hno|(ps1 & p & ps2 & -> & Hno & Hp)].
  - pose proof (find_skips filename ps [] (cpio_encode t ++ rest) (S (fuel - length ps - 1)) (conj Hok Hnt) Hno eq_refl) as Hs.
    cbn [app] in Hs. change (len (A:=Z) []) with 0 in Hs. rewrite Z.add_0_l in Hs.
    replace (length ps + S (fuel - length ps - 1))%nat with fuel in Hs by lia. rewrite Hs by lia.
    rewrite filter_none by done. apply iter_done.
    rewrite find_step_file by (try done; try lia; by apply cpio_files_aligned). by rewrite bool_decide_true.
  - rewrite length_app in Hfuel. cbn [length] in Hfuel.
    apply Forall_app in Hok as [Hok1 [Hokp Hok2]%Forall_cons]. apply Forall_app in Hnt as [Hnt1 [Hntp Hnt2]%Forall_cons].
    unfold cpio_files in *. rewrite bind_app, bind_cons in *. rewrite !len_app in Hmax.
    pose proof (len_nonneg (ps2 ≫= cpio_encode)). pose proof (len_nonneg (cpio_encode p)).
    set (after := (ps2 ≫= cpio_encode) ++ cpio_encode t ++ rest).
    replace (((ps1 ≫= cpio_encode) ++ cpio_encode p ++ (ps2 ≫= cpio_encode)) ++ cpio_encode t ++ rest)
      with ((ps1 ≫= cpio_encode) ++ cpio_encode p ++ after) by (unfold after; by rewrite <-!app_assoc).
    pose proof (find_skips filename ps1 [] (cpio_encode p ++ after) (S (fuel - length ps1 - 1)) (conj Hok1 Hnt1) Hno eq_refl) as Hs.
    cbn [app] in Hs. change (len (A:=Z) []) with 0 in Hs. rewrite Z.add_0_l in Hs. unfold cpio_files in Hs.
    replace (length ps1 + S (fuel - length ps1 - 1))%nat with fuel in Hs by lia. rewrite Hs by lia.
    unfold entries. rewrite fmap_app, fmap_cons, filter_app, filter_none, filter_cons_True by done. cbn [app head].
    apply iter_done. rewrite find_step_file by (try done; try lia; by apply cpio_files_aligned).
    by rewrite bool_decide_false, Hp.
Qed.

(** ** Arbitrary bytes *)

Lemma bind_ret_inv {A B} (m : outcome A) (f : A → outcome B) b : m ≫= f = Ret b → ∃ a, m = Ret a ∧ f a = Ret b.
Proof. destruct m as [a|e|]; cbn; [eauto|done|done]. Qed.

Ltac step_ret H :=
  let x := fresh "x" in let E := fresh "E" in
  apply bind_ret_inv in H as (x & E & H); cbv beta in H.

Lemma add64_inv x y z : add64 x y = Ret z → z = x + y ∧ x + y ≤ u64_max.
Proof. unfold add64. destruct (Z.leb_spec (x + y) u64_max); [|done]. by intros [= <-]. Qed.

Lemma align4_inv x y : 0 ≤ x → align4 x = Ret y → x ≤ y.
Proof.
  intros Hx. destruct (decide (x + 3 ≤ u64_max)) as [Hle|Hgt].
  - rewrite align4_spec by done. intros [= <-]. pose proof (Z.mod_pos_bound (- x) 4 ltac:(lia)). lia.
  - unfold align4, add64. by rewrite (proj2 (Z.leb_gt _ _)) by lia.
Qed.

(** Numbers read are not negative. *)
Lemma hex_digit_nonneg b d : hex_digit b = Some d → 0 ≤ d.
Proof.
  unfold hex_digit. destruct (Z.leb_spec 48 b), (Z.leb_spec b 57); cbn [andb]; [intros [= <-]; lia|..];
    destruct (Z.leb_spec 97 b), (Z.leb_spec b 102); cbn [andb]; try (intros [= <-]; lia);
    destruct (Z.leb_spec 65 b), (Z.leb_spec b 70); cbn [andb]; try (intros [= <-]; lia); done.
Qed.

Lemma parse_hex8_nonneg bytes v : parse_hex8 bytes = Ret (Ok v) → 0 ≤ v.
Proof.
  unfold parse_hex8. destruct (len bytes <? 8); [done|]. intros H. step_ret H. step_ret H. destruct x0 as [v'|e]; [|done].
  injection H as <-. revert E0. clear E. assert (0 ≤ 0) as H0 by lia. revert H0. generalize 0 at 2 3 as acc.
  induction x as [|b x IH]; intros acc Hacc; cbn [for_each_ret]; [by intros [= <-]|].
  intros H. step_ret H. destruct (hex_digit b) as [d|] eqn:Hd; [|injection E as <-; done].
  step_ret E. step_ret E. injection E as <-. apply (IH x2); [|done].
  unfold mul32, add32 in *. repeat case_match; simplify_eq. apply hex_digit_nonneg in Hd. lia.
Qed.

(** A file found moves the iterator on; an error leaves it where it is. *)
Lemma cpio_next_moves it it' r :
  0 ≤ ci_offset it → cpio_next it = Ret (it', r) →
  match r with
  | None => True
  | Some (Ok _) => ci_data it' = ci_data it ∧ ci_offset it + 110 ≤ ci_offset it' ∧ ci_offset it + 110 ≤ len (ci_data it)
  | Some (Err _) => it' = it
  end.
Proof.
  intros H0. unfold cpio_next. intros H. step_ret H. apply add64_inv in E as [-> Hmax].
  destruct (Z.ltb_spec (len (ci_data it)) (ci_offset it + 110)) as [|Hlen]; [by injection H as <- <-|].
  step_ret H. step_ret H. destruct (negb _); [by injection H as <- <-|].
  step_ret H. step_ret H. step_ret H. destruct x3 as [fs|e]; [|by injection H as <- <-].
  step_ret H. step_ret H. step_ret H. destruct x5 as [ns|e]; [|by injection H as <- <-].
  apply parse_hex8_nonneg in E3, E6.
  step_ret H. step_ret H. apply add64_inv in E7 as [-> _]. apply add64_inv in E8 as [-> _].
  destruct (len (ci_data it) <? _); [by injection H as <- <-|].
  step_ret H. step_ret H. destruct (negb _); [by injection H as <- <-|].
  step_ret H. step_ret H. destruct (len (ci_data it) <? _); [by injection H as <- <-|].
  step_ret H. step_ret H. apply align4_inv in E9; [|lia]. apply add64_inv in E10 as [-> _]. apply align4_inv in E12; [|lia].
  destruct (bool_decide _); injection H as <- <-; [done|]. cbn [ci_data ci_offset]. split; [done|]. lia.
Qed.

Lemma halts_slice {A} (l : list A) a b : halts (slice l a b).
Proof. unfold slice. by destruct (_ && _). Qed.
#[local] Hint Resolve halts_slice : halts.

Lemma halts_parse_hex8 bytes : halts (parse_hex8 bytes).
Proof.
  unfold parse_hex8. destruct (_ <? _); [done|]. apply halts_bind; [apply halts_slice|]. intros ds.
  apply halts_bind; [|by intros [?|?]]. apply halts_for_each_ret. intros b res. destruct (hex_digit b); [|done].
  unfold mul32, add32. halt.
Qed.

Lemma halts_align4 x : halts (align4 x).
Proof. unfold align4. halt. Qed.
#[local] Hint Resolve halts_parse_hex8 halts_align4 : halts.

Lemma halts_cpio_next it : halts (cpio_next it).
Proof. unfold cpio_next. halt. Qed.

(** The search stops at [it]: the iterator reports an error for ever. *)
Definition malformed_at (it : CpioIter) : Prop := ∃ e, cpio_next it = Ret (it, Some (Err e)).

Lemma find_stuck filename it fuel : malformed_at it → iter fuel (find_step filename) it = NoFuel.
Proof.
  intros [e He]. induction fuel as [|fuel IH]; [done|]. rewrite (iter_next _ _ _ it); [done|].
  unfold find_step. by rewrite He.
Qed.

(** Either the search ends within a round for every 110 bytes left, with a
    result that does not depend on the fuel, or it comes to a malformed
    header and never ends. *)
Lemma find_ends filename n it :
  0 ≤ ci_offset it → len (ci_data it) - ci_offset it < 110 * Z.of_nat n →
  (∃ r, r ≠ NoFuel ∧ ∀ fuel, (n < fuel)%nat → iter fuel (find_step filename) it = r) ∨
  ((∀ fuel, iter fuel (find_step filename) it = NoFuel) ∧
   ∃ it', ci_data it' = ci_data it ∧ malformed_at it').
Proof.
  revert it. induction n as [|n IH]; intros it H0 Hlen.
  all: pose proof (halts_cpio_next it) as Hh; destruct (cpio_next it) as [[it' r]|p|] eqn:E; [| |done].
  all: try (left; exists (Panic p); split; [done|]; intros [|fuel] Hf; [lia|]; cbn [iter]; unfold find_step at 2; by rewrite E).
  all: pose proof (cpio_next_moves it it' r H0 E) as Hm; destruct r as [[e|e]|].
  all: try (right; subst it'; split; [intros fuel; apply find_stuck; by exists e|]; exists it; split; [done|by exists e]).
  all: try (left; exists (Ret None); split; [done|]; intros [|fuel] Hf; [lia|]; apply iter_done; unfold find_step; by rewrite E).
  { destruct Hm as (_ & _ & Hle). lia. }
  destruct Hm as (Hd & Hoff & _). destruct (names e filename) eqn:En.
  - left. exists (Ret (Some (ce_data e))). split; [done|]. intros [|fuel] Hf; [lia|]. apply iter_done. unfold find_step.
    rewrite E. cbn [mbind outcome_bind]. by rewrite En.
  - assert (∀ fuel, iter (S fuel) (find_step filename) it = iter fuel (find_step filename) it') as Hs.
    { intros fuel. apply iter_next. unfold find_step. rewrite E. cbn [mbind outcome_bind]. by rewrite En. }
    destruct (IH it') as [(r & Hr & Hall)|(Hall & it2 & Hd2 & Hm2)]; [lia|rewrite Hd; lia| |].
    + left. exists r. split; [done|]. intros [|fuel] Hf; [lia|]. rewrite Hs. apply Hall. lia.
    + right. split; [|exists it2; split; [congruence|done]]. intros [|fuel]; [done|]. by rewrite Hs.
Qed.

(** C39: reading an archive gives back what was put in.  On a sequence of files in
    the cpio format, with any other header fields, digits in either case, a
    trailer and anything after it, the search for a name returns the data of
    the first file whose name ends with it, or nothing when there is none. *)
Theorem cpio_roundtrip ps t rest filename fuel :
  archive_ok ps → packed_ok t → ce_name (pk_entry t) = TRAILER →
  len (cpio_files ps ++ cpio_encode t) + 7 ≤ u64_max → (length ps < fuel)%nat →
  cpio_find fuel (cpio_files ps ++ cpio_encode t ++ rest) filename = Ret (lookup_file (entries ps) filename).
Proof. apply cpio_find_spec. Qed.

Definition sample_packed (name data : list Z) : packed :=
  mk_packed (replicate 48 48) (replicate 32 48) (replicate 8 48) true (mk_cpio_entry name data).

(** Files [a] and [b]. *)
Lemma cpio_roundtrip_witness :
  let ps := [sample_packed [97] [1; 2; 3]; sample_packed [120; 98] [4; 5]] in
  let t := sample_packed TRAILER [] in
  cpio_find 3 (cpio_files ps ++ cpio_encode t ++ [0; 0]) [98] = Ret (Some [4; 5]).
Proof.
  intros ps t. rewrite (cpio_roundtrip ps t [0; 0] [98] 3).
  - vm_compute. reflexivity.
  - split; [|by repeat constructor]. by repeat (apply Forall_cons; split; [split; vm_compute; done|]).
  - split; vm_compute; done.
  - reflexivity.
  - vm_compute. done.
  - cbn. lia.
Defined.

(** On arbitrary bytes the search either ends, within one round for every
    110 bytes, or comes to a malformed header and then never ends. *)
Theorem cpio_find_ends archive filename :
  let n := Z.to_nat (len archive / 110 + 1) in
  (∃ r, r ≠ NoFuel ∧ ∀ fuel, (n < fuel)%nat → cpio_find fuel archive filename = r) ∨
  ((∀ fuel, cpio_find fuel archive filename = NoFuel) ∧ ∃ off, malformed_at (mk_cpio_iter archive off)).
Proof.
  intros n. pose proof (len_nonneg archive). pose proof (Z.div_mod (len archive) 110 ltac:(lia)).
  pose proof (Z.mod_pos_bound (len archive) 110 ltac:(lia)). pose proof (Z.div_pos (len archive) 110 ltac:(lia) ltac:(lia)).
  destruct (find_ends filename n (cpio_new archive)) as [Hl|(Hall & it & Hd & Hm)]; [done|cbn; lia|by left|].
  right. split; [done|]. exists (ci_offset it). cbn in Hd. subst archive. by destruct it.
Qed.

(** Bytes that are no header make the search run for ever. *)
Theorem malformed_archive_hangs ps junk filename fuel :
  archive_ok ps → Forall (λ e, names e filename = false) (entries ps) →
  110 ≤ len junk → take 6 junk ≠ MAGIC → len (cpio_files ps) + 120 ≤ u64_max →
  cpio_find fuel (cpio_files ps ++ junk) filename = NoFuel.
Proof.
  intros Hok Hno Hl Hj Hmax. pose proof (len_nonneg (cpio_files ps)).
  assert (malformed_at (mk_cpio_iter (cpio_files ps ++ junk) (len (cpio_files ps)))) as Hm.
  { exists CpioError.InvalidMagic. unfold cpio_next. cbn [ci_data ci_offset].
    assert (∀ y, y ≤ 110 → add64 (len (cpio_files ps)) y = Ret (len (cpio_files ps) + y)) as Hadd.
    { intros y Hy. unfold add64. by rewrite (proj2 (Z.leb_le _ _)) by lia. }
    rewrite (Hadd 110) by lia. cbn [mbind outcome_bind]. rewrite len_app, (proj2 (Z.ltb_ge _ _)) by lia.
    rewrite (Hadd 6) by lia. cbn [mbind outcome_bind].
    rewrite (slice_mid _ (cpio_files ps) (take 6 junk) (drop 6 junk) (len (cpio_files ps)) (len (cpio_files ps) + 6)).
    - cbn [mbind outcome_bind]. by rewrite bool_decide_false.
    - by rewrite take_drop.
    - done.
    - unfold len in *. rewrite length_take. lia. }
  cut (cpio_find (length ps + fuel) (cpio_files ps ++ junk) filename = NoFuel).
  { unfold cpio_find. intros Hn. destruct (iter fuel _ _) eqn:E; [| |done];
      rewrite (iter_stable fuel), E in Hn; [done|lia|by rewrite E|done|lia|by rewrite E]. }
  pose proof (find_skips filename ps [] junk fuel Hok Hno eq_refl) as Hs. cbn [app] in Hs.
  change (len (A:=Z) []) with 0 in Hs. rewrite Z.add_0_l in Hs. unfold cpio_find, cpio_new. rewrite Hs by lia.
  by apply find_stuck.
Qed.
