(* ===== verification/Memblock.v ===== *)
(** * The early region table

    Models kernel/src/arch/amd64/memory/pmm/memblock.rs.  A [Memblock] holds
    three fixed arrays of 64 regions with their fill counts: usable memory,
    reserved ranges and the raw usable ranges as the bootloader reported them.
    [normalize] compacts, sorts and merges each table in place and subtracts
    the reserved ranges from usable memory.

    The array routines are modelled as the in-place index loops they are; each
    is proved equal, on the live prefix, to a functional reference
    ([filter], sorting, [merge_ref], [subtract_ref]), and the references carry
    the set-level meaning. *)
From S2P Require Import Prelude.
From Stdlib Require Import Sorting.Sorted Sorting.Permutation.

Definition MAX_MEMBLOCK_REGIONS : nat := 64.
#[global] Arguments MAX_MEMBLOCK_REGIONS : simpl never.

Module MemblockType.
Inductive t := Usable | Reserved | AcpiReclaim | BootloaderReclaimable.

#[export] Instance eq_dec : EqDecision t.
Proof. solve_decision. Defined.

Definition is_reserved_kind (k : t) : bool :=
  match k with Usable => false | _ => true end.
End MemblockType.
Export (hints) MemblockType.

Record MemblockRegion := mk_region {
  mr_base : Z;
  mr_size : Z;
  mr_kind : MemblockType.t
}.

Definition region_empty : MemblockRegion := mk_region 0 0 MemblockType.Reserved.
Definition mr_end (r : MemblockRegion) : Z := sat_add64 (mr_base r) (mr_size r).

Inductive MemblockError := OutOfSlots | ZeroSize | Overflow | InvalidKind.

(** [compact_list]: drop the empty regions, in place. *)
Definition compact_list (arr : list MemblockRegion) (cnt : nat)
    : outcome (list MemblockRegion * nat) :=
  '(arr, w) ← for_range 0 cnt (λ i '(arr, w),
     r ← arr_get arr i;
     if mr_size r =? 0 then Ret (arr, w)
     else
       arr ← (if (w =? i)%nat then Ret arr else arr_set arr w r);
       Ret (arr, S w)) (arr, O);
  arr ← for_range w cnt (λ i arr, arr_set arr i region_empty) arr;
  Ret (arr, w).

(** The inner loop of the insertion sort: shift larger elements right. *)
Definition sort_shift (key : MemblockRegion) (arr : list MemblockRegion) (i : nat)
    : outcome (list MemblockRegion * nat) :=
  iter (S i) (λ '(arr, j),
    if (0 <? j)%nat then
      p ← arr_get arr (j - 1);
      if mr_base key <? mr_base p then
        arr ← arr_set arr j p;
        Ret (inl (arr, (j - 1)%nat))
      else Ret (inr (arr, j))
    else Ret (inr (arr, j))) (arr, i).

Definition sort_by_base (arr : list MemblockRegion) (cnt : nat)
    : outcome (list MemblockRegion) :=
  for_range 1 cnt (λ i arr,
    key ← arr_get arr i;
    '(arr, j) ← sort_shift key arr i;
    arr_set arr j key) arr.

Definition merge_overlaps_same_kind (arr : list MemblockRegion) (cnt : nat)
    : outcome (list MemblockRegion * nat) :=
  if (cnt =? 0)%nat then Ret (arr, cnt)
  else
    cur ← arr_get arr 0;
    '(arr, w, cur) ← for_range 1 cnt (λ i '(arr, w, cur),
       r ← arr_get arr i;
       if bool_decide (mr_kind r = mr_kind cur) && (mr_base r <=? mr_end cur) then
         let new_end := Z.max (mr_end cur) (mr_end r) in
         sz ← sub64 new_end (mr_base cur);
         Ret (arr, w, mk_region (mr_base cur) sz (mr_kind cur))
       else
         arr ← arr_set arr w cur;
         Ret (arr, S w, r)) (arr, O, cur);
    arr ← arr_set arr w cur;
    let w := S w in
    arr ← for_range w cnt (λ i arr, arr_set arr i region_empty) arr;
    Ret (arr, w).

(** [out[out_cnt] = Usable [lo, hi); out_cnt += 1], or [Err(OutOfSlots)]. *)
Definition push_out (out : list MemblockRegion) (out_cnt : nat) (lo hi : Z)
    : outcome ((list MemblockRegion * nat) + MemblockError) :=
  if (MAX_MEMBLOCK_REGIONS <=? out_cnt)%nat then Ret (inr OutOfSlots)
  else
    sz ← sub64 hi lo;
    out ← arr_set out out_cnt (mk_region lo sz MemblockType.Usable);
    Ret (inl (out, S out_cnt)).

(** The first inner loop of [subtract_reserved]: skip the reserved regions that
    end at or below [cur]. *)
Definition skip_below (reserved : list MemblockRegion) (res_cnt : nat) (cur : Z)
    : outcome nat :=
  iter (S res_cnt) (λ ri,
    if (ri <? res_cnt)%nat then
      r ← arr_get reserved ri;
      if mr_end r <=? cur then Ret (inl (S ri)) else Ret (inr ri)
    else Ret (inr ri)) O.

(** The body of the second inner loop: emit the part of the memory region left
    of the next reserved region and move [cur] past it.  [inr (inl _)] leaves
    the loop, [inr (inr e)] returns the error. *)
Definition carve_step (reserved : list MemblockRegion) (res_cnt : nat) (mend : Z)
    (st : list MemblockRegion * nat * Z * nat)
    : outcome ((list MemblockRegion * nat * Z * nat) +
               ((list MemblockRegion * nat * Z) + MemblockError)) :=
  let '(out, out_cnt, cur, ri) := st in
  if (ri <? res_cnt)%nat then
    r ← arr_get reserved ri;
    if mend <=? mr_base r then Ret (inr (inl (out, out_cnt, cur)))
    else
      let left_end := Z.min (mr_base r) mend in
      p ← (if cur <? left_end then push_out out out_cnt cur left_end
           else Ret (inl (out, out_cnt)));
      match p with
      | inr e => Ret (inr (inr e))
      | inl (out, out_cnt) =>
          let cur := Z.max cur (mr_end r) in
          if mend <=? cur then Ret (inr (inl (out, out_cnt, cur)))
          else Ret (inl (out, out_cnt, cur, S ri))
      end
  else Ret (inr (inl (out, out_cnt, cur))).

(** The body of the outer loop of [subtract_reserved], for one memory region. *)
Definition subtract_one (reserved : list MemblockRegion) (res_cnt : nat)
    (m : MemblockRegion) (out : list MemblockRegion) (out_cnt : nat)
    : outcome ((list MemblockRegion * nat) + MemblockError) :=
  let mend := mr_end m in
  ri ← skip_below reserved res_cnt (mr_base m);
  st ← iter (S res_cnt) (carve_step reserved res_cnt mend) (out, out_cnt, mr_base m, ri);
  match st with
  | inr e => Ret (inr e)
  | inl (out, out_cnt, cur) =>
      if cur <? mend then push_out out out_cnt cur mend
      else Ret (inl (out, out_cnt))
  end.

Definition subtract_reserved
    (memory : list MemblockRegion) (mem_cnt : nat)
    (reserved : list MemblockRegion) (res_cnt : nat)
    (out : list MemblockRegion)
    : outcome ((list MemblockRegion * nat) + MemblockError) :=
  for_each_ret (λ mi '(out, out_cnt),
    m ← arr_get memory mi;
    subtract_one reserved res_cnt m out out_cnt) (seq 0 mem_cnt) (out, O).

Record Memblock := mk_memblock {
  memory : list MemblockRegion;
  mem_cnt : nat;
  reserved : list MemblockRegion;
  res_cnt : nat;
  raw_memory : list MemblockRegion;
  raw_memory_cnt : nat
}.

Definition memblock_new : Memblock :=
  let a := replicate MAX_MEMBLOCK_REGIONS region_empty in
  mk_memblock a 0 a 0 a 0.

Definition memory_regions (mb : Memblock) : list MemblockRegion :=
  take (mem_cnt mb) (memory mb).
Definition reserved_regions (mb : Memblock) : list MemblockRegion :=
  take (res_cnt mb) (reserved mb).
Definition all_memory_regions (mb : Memblock) : list MemblockRegion :=
  take (raw_memory_cnt mb) (raw_memory mb).

(** [iter().map(end).max().unwrap_or(0)]. *)
Definition max_phys_addr (mb : Memblock) : Z :=
  foldr (λ r acc, Z.max (mr_end r) acc) 0 (all_memory_regions mb).

Definition add_memory (mb : Memblock) (base size : Z)
    : outcome (Memblock * result MemblockError unit) :=
  if size =? 0 then Ret (mb, Err ZeroSize)
  else match checked_add64 base size with
  | None => Ret (mb, Err Overflow)
  | Some end_ =>
      if (MAX_MEMBLOCK_REGIONS <=? mem_cnt mb)%nat then Ret (mb, Err OutOfSlots)
      else if (MAX_MEMBLOCK_REGIONS <=? raw_memory_cnt mb)%nat then Ret (mb, Err OutOfSlots)
      else
        sz ← sub64 end_ base;
        let region := mk_region base sz MemblockType.Usable in
        mem ← arr_set (memory mb) (mem_cnt mb) region;
        raw ← arr_set (raw_memory mb) (raw_memory_cnt mb) region;
        Ret (mk_memblock mem (S (mem_cnt mb)) (reserved mb) (res_cnt mb)
                         raw (S (raw_memory_cnt mb)), Ok ())
  end.

Definition add_reserved (mb : Memblock) (base size : Z) (kind : MemblockType.t)
    : outcome (Memblock * result MemblockError unit) :=
  if negb (MemblockType.is_reserved_kind kind) then Ret (mb, Err InvalidKind)
  else if size =? 0 then Ret (mb, Err ZeroSize)
  else match checked_add64 base size with
  | None => Ret (mb, Err Overflow)
  | Some end_ =>
      if (MAX_MEMBLOCK_REGIONS <=? res_cnt mb)%nat then Ret (mb, Err OutOfSlots)
      else
        sz ← sub64 end_ base;
        res ← arr_set (reserved mb) (res_cnt mb) (mk_region base sz kind);
        Ret (mk_memblock (memory mb) (mem_cnt mb) res (S (res_cnt mb))
                         (raw_memory mb) (raw_memory_cnt mb), Ok ())
  end.

(** The three calls [normalize] makes on each table. *)
Definition compact_sort_merge (arr : list MemblockRegion) (cnt : nat)
    : outcome (list MemblockRegion * nat) :=
  '(arr, cnt) ← compact_list arr cnt;
  arr ← sort_by_base arr cnt;
  merge_overlaps_same_kind arr cnt.

Definition normalize (mb : Memblock) : outcome (Memblock * result MemblockError unit) :=
  '(raw, raw_cnt) ← compact_sort_merge (raw_memory mb) (raw_memory_cnt mb);
  '(mem, mcnt) ← compact_sort_merge (memory mb) (mem_cnt mb);
  '(res, rcnt) ← compact_sort_merge (reserved mb) (res_cnt mb);
  let new_memory := replicate MAX_MEMBLOCK_REGIONS region_empty in
  s ← subtract_reserved mem mcnt res rcnt new_memory;
  match s with
  | inr e => Ret (mk_memblock mem mcnt res rcnt raw raw_cnt, Err e)
  | inl (new_memory, new_cnt) =>
      '(mem, mcnt) ← compact_list new_memory new_cnt;
      Ret (mk_memblock mem mcnt res rcnt raw raw_cnt, Ok ())
  end.

(** ** Statistics *)

Record MemblockStats := mk_stats {
  usable_region_count : nat;
  usable_bytes : Z;
  reserved_bytes : Z;
  usable_min_addr : option Z;
  usable_max_addr : option Z
}.

Definition collect_memblock_stats (mb : Memblock) : outcome MemblockStats :=
  '(ub, mn, mx) ← for_each (λ m '(ub, mn, mx),
     ub ← add64 ub (mr_size m);
     Ret (ub, Some (match mn with None => mr_base m | Some x => Z.min x (mr_base m) end),
              Some (match mx with None => mr_end m | Some x => Z.max x (mr_end m) end)))
     (memory_regions mb) (0, None, None);
  rb ← for_each (λ r rb,
     for_each (λ m rb,
       let lo := Z.max (mr_base r) (mr_base m) in
       let hi := Z.min (mr_end r) (mr_end m) in
       if lo <? hi then d ← sub64 hi lo; add64 rb d else Ret rb)
       (all_memory_regions mb) rb)
     (reserved_regions mb) 0;
  Ret (mk_stats (mem_cnt mb) ub rb mn mx).

(** ** Construction from the bootloader's memory map

    [Entry]/[EntryType] are the limine crate's types with those the
    kernel names; here three are distinguished and every other one is reserved. *)

Module EntryType.
Inductive t := USABLE | ACPI_RECLAIMABLE | ACPI_NVS | BOOTLOADER_RECLAIMABLE | OTHER.

#[export] Instance eq_dec : EqDecision t.
Proof. solve_decision. Defined.
End EntryType.
Export (hints) EntryType.

Record Entry := mk_entry {
  entry_base : Z;
  entry_length : Z;
  entry_type : EntryType.t
}.

Definition add_entry (e : Entry) (mb : Memblock)
    : outcome (Memblock * result MemblockError unit) :=
  match entry_type e with
  | EntryType.USABLE => add_memory mb (entry_base e) (entry_length e)
  | EntryType.ACPI_RECLAIMABLE =>
      add_reserved mb (entry_base e) (entry_length e) MemblockType.AcpiReclaim
  | EntryType.BOOTLOADER_RECLAIMABLE =>
      add_reserved mb (entry_base e) (entry_length e) MemblockType.BootloaderReclaimable
  | EntryType.ACPI_NVS | EntryType.OTHER =>
      add_reserved mb (entry_base e) (entry_length e) MemblockType.Reserved
  end.

(** [memblock_statistics] only prints what [collect_memblock_stats] computes. *)
Definition initialize_memblock_from_mm (mmap : list Entry)
    : outcome (result MemblockError Memblock) :=
  r ← for_each_ret (λ e mb,
     '(mb, r) ← add_entry e mb;
     Ret (match r with Ok _ => inl mb | Err err => inr err end)) mmap memblock_new;
  match r with
  | inr err => Ret (Err err)
  | inl mb =>
      '(mb, r) ← normalize mb;
      match r with
      | Err err => Ret (Err err)
      | Ok _ => _ ← collect_memblock_stats mb; Ret (Ok mb)
      end
  end.

(** ** Coverage and well-formedness *)

Definition in_region (r : MemblockRegion) (a : Z) : Prop := mr_base r ≤ a < mr_end r.
Definition covers (l : list MemblockRegion) (a : Z) : Prop := ∃ r, r ∈ l ∧ in_region r a.

Definition region_ok (r : MemblockRegion) : Prop :=
  0 ≤ mr_base r ∧ 0 ≤ mr_size r ∧ mr_base r + mr_size r ≤ u64_max.

Definition base_le (r1 r2 : MemblockRegion) : Prop := mr_base r1 ≤ mr_base r2.

(** [before r1 r2]: [r1] ends strictly below [r2], with a gap. *)
Definition before (r1 r2 : MemblockRegion) : Prop := mr_end r1 < mr_base r2.

Lemma mr_end_ok r : region_ok r → mr_end r = mr_base r + mr_size r.
Proof. unfold region_ok, mr_end, sat_add64. lia. Qed.

Lemma covers_nil a : covers [] a ↔ False.
Proof. unfold covers. set_solver. Qed.

Lemma covers_cons r l a : covers (r :: l) a ↔ in_region r a ∨ covers l a.
Proof. unfold covers. set_solver. Qed.

Lemma covers_app l1 l2 a : covers (l1 ++ l2) a ↔ covers l1 a ∨ covers l2 a.
Proof. unfold covers. set_solver. Qed.

Lemma covers_perm l1 l2 a : l1 ≡ₚ l2 → covers l1 a ↔ covers l2 a.
Proof. intros H. unfold covers. by setoid_rewrite H. Qed.

Lemma covers_filter_nonempty l a :
  Forall region_ok l →
  covers (filter (λ r, mr_size r ≠ 0) l) a ↔ covers l a.
Proof.
  intros Hok. unfold covers. split; intros (r & Hr & Ha).
  - apply list_elem_of_filter in Hr as [_ ?]. eauto.
  - exists r. split; [|done]. apply list_elem_of_filter. split; [|done].
    rewrite Forall_forall in Hok. specialize (Hok r Hr).
    unfold in_region in Ha. rewrite mr_end_ok in Ha by done. lia.
Qed.

(** ** The array loops refine list functions *)

Lemma wp_clear_tail (arr : list MemblockRegion) w cnt (Q : list MemblockRegion → Prop) :
  (w ≤ cnt ≤ length arr)%nat →
  (∀ arr', length arr' = length arr → take w arr' = take w arr → Q arr') →
  wp (for_range w cnt (λ i arr, arr_set arr i region_empty) arr) Q.
Proof.
  intros Hw HQ.
  apply (wp_for_range _ _ _ _ (λ i a, length a = length arr ∧ take w a = take w arr)).
  - lia.
  - done.
  - intros i a Hi [Hlen Htake]. apply wp_arr_set; [lia|].
    rewrite length_insert, take_insert_ge by lia. done.
  - intros a [??]. auto.
Qed.

Lemma compact_list_spec arr cnt :
  (cnt ≤ length arr)%nat →
  wp (compact_list arr cnt) (λ '(arr', w),
    length arr' = length arr ∧ (w ≤ cnt)%nat ∧
    take w arr' = filter (λ r, mr_size r ≠ 0) (take cnt arr)).
Proof.
  intros Hcnt. unfold compact_list. apply wp_bind.
  apply (wp_for_range _ _ _ _ (λ i '(a, w),
    length a = length arr ∧ (w ≤ i)%nat ∧ drop i a = drop i arr ∧
    take w a = filter (λ r, mr_size r ≠ 0) (take i arr))).
  - lia.
  - done.
  - intros i [a w] Hi (Hlen & Hw & Hdrop & Htake).
    destruct (lookup_lt_is_Some_2 arr i) as [r Hr]; [lia|].
    assert (a !! i = Some r) as Har by (by rewrite (lookup_of_drop a arr)).
    apply wp_bind. eapply wp_arr_get; [done|].
    rewrite (take_S_r arr i r) by done. rewrite filter_app.
    destruct (Z.eqb_spec (mr_size r) 0) as [Hz|Hz].
    + apply wp_ret. rewrite filter_cons_False, app_nil_r by naive_solver.
      repeat split; [done|lia| |done]. by apply drop_S_of_drop.
    + apply wp_bind.
      assert (wp (if (w =? i)%nat then Ret a else arr_set a w r) (λ a', a' = <[w:=r]> a)) as H.
      { destruct (Nat.eqb_spec w i) as [->|].
        - apply wp_ret. by rewrite list_insert_id.
        - apply wp_arr_set; [lia|done]. }
      eapply wp_mono; [apply H|]. intros a' ->. apply wp_ret.
      rewrite length_insert, filter_cons_True by done.
      repeat split; [done|lia| |].
      * rewrite drop_insert_lt by lia. by apply drop_S_of_drop.
      * rewrite take_S_insert by lia. by rewrite Htake.
  - intros [a w] (Hlen & Hw & Hdrop & Htake). apply wp_bind.
    apply wp_clear_tail; [lia|]. intros arr' Hlen' Htake'. apply wp_ret.
    split; [lia|]. split; [done|]. by rewrite Htake'.
Qed.

(** The inner loop finds the position [j] of [key] in the sorted prefix [L] and
    leaves room for it: everything from [j] on is shifted by one. *)
Lemma sort_shift_spec key (L rest : list MemblockRegion) x :
  wp (sort_shift key (L ++ x :: rest) (length L)) (λ '(arr', j),
    (j ≤ length L)%nat ∧
    (∃ y, arr' = take j L ++ y :: drop j L ++ rest) ∧
    Forall (λ r, mr_base key < mr_base r) (drop j L) ∧
    (∀ r, (0 < j)%nat → L !! (j - 1)%nat = Some r → mr_base r ≤ mr_base key)).
Proof.
  unfold sort_shift.
  apply (wp_iter _ _ _ (λ '(a, j), (j ≤ length L)%nat ∧
    (∃ y, a = take j L ++ y :: drop j L ++ rest) ∧
    Forall (λ r, mr_base key < mr_base r) (drop j L)) (λ '(_, j), j)).
  - split; [done|]. rewrite take_ge, drop_ge by lia. split; [|done]. by exists x.
  - lia.
  - intros [a j] (Hj & [y ->] & Hall). destruct (Nat.ltb_spec 0 j) as [Hpos|Hpos]; simpl.
    2:{ repeat split; [done|by exists y|done|]. intros. lia. }
    destruct (lookup_lt_is_Some_2 L (j - 1)) as [p Hp]; [lia|].
    assert (length (take j L) = j) as Hlt by (rewrite length_take; lia).
    apply wp_bind. eapply (wp_arr_get _ _ p).
    { rewrite lookup_app_l by lia. by rewrite lookup_take_lt by lia. }
    destruct (Z.ltb_spec (mr_base key) (mr_base p)) as [Hk|Hk].
    + apply wp_bind. apply wp_arr_set.
      { rewrite length_app; simpl. lia. }
      apply wp_ret. split; [|lia]. split; [lia|].
      assert (take j L = take (j - 1) L ++ [p]) as Htk.
      { replace j with (S (j - 1)) at 1 by lia. by apply take_S_r. }
      assert (drop (j - 1) L = p :: drop j L) as Hdr.
      { rewrite (drop_S L p (j - 1)) by done. do 2 f_equal. lia. }
      split.
      * exists p. rewrite insert_app_r_alt by lia. rewrite Hlt, Nat.sub_diag. simpl.
        rewrite Htk, Hdr, <-app_assoc. done.
      * rewrite Hdr. by constructor.
    + apply wp_ret. repeat split; [done|by exists y|done|].
      intros r _ Hr. simplify_eq. lia.
Qed.

Lemma base_le_trans : Transitive base_le.
Proof. unfold base_le. intros ???. lia. Qed.

Lemma insert_sorted key (L : list MemblockRegion) j :
  StronglySorted base_le L →
  Forall (λ r, mr_base key < mr_base r) (drop j L) →
  (∀ r, (0 < j)%nat → L !! (j - 1)%nat = Some r → mr_base r ≤ mr_base key) →
  (j ≤ length L)%nat →
  StronglySorted base_le (take j L ++ key :: drop j L).
Proof.
  intros Hs Hgt Hle Hj. revert j Hgt Hle Hj.
  induction Hs as [|a L Hs IH Ha]; intros j Hgt Hle Hj.
  { destruct j; simpl; repeat constructor. }
  destruct j as [|j]; simpl.
  { simpl in Hgt. constructor; [by constructor|].
    eapply Forall_impl; [exact Hgt|]. unfold base_le. simpl. lia. }
  simpl in *. constructor.
  { apply IH; [done| |lia]. intros r Hpos Hr. apply (Hle r); [lia|].
    replace (j - 0)%nat with (S (j - 1)) by lia. done. }
  rewrite <-(take_drop j L) in Ha. apply Forall_app in Ha as [Ha1 Ha2].
  apply Forall_app. split; [done|]. constructor; [|done].
  destruct j as [|j]; [apply (Hle a); [lia|done]|].
  destruct (lookup_lt_is_Some_2 L j) as [r Hr]; [lia|].
  unfold base_le in *. assert (mr_base r ≤ mr_base key) by (apply (Hle r); [lia|done]).
  rewrite (take_S_r L j r) in Ha1 by done. apply Forall_app in Ha1 as [_ Ha1].
  inversion Ha1; subst. lia.
Qed.

Lemma sort_by_base_spec arr cnt :
  (cnt ≤ length arr)%nat →
  wp (sort_by_base arr cnt) (λ arr',
    length arr' = length arr ∧
    take cnt arr' ≡ₚ take cnt arr ∧ StronglySorted base_le (take cnt arr')).
Proof.
  intros Hcnt. unfold sort_by_base.
  destruct (decide (cnt = 0)%nat) as [->|Hne].
  { apply wp_ret. rewrite !take_0. repeat split; constructor. }
  apply (wp_for_range _ _ _ _ (λ i a,
    length a = length arr ∧ drop i a = drop i arr ∧
    take i a ≡ₚ take i arr ∧ StronglySorted base_le (take i a))).
  - lia.
  - repeat split; [done|]. destruct arr; simpl; repeat constructor.
  - intros i a Hi (Hlen & Hdrop & Hperm & Hsort).
    destruct (lookup_lt_is_Some_2 arr i) as [key Hkey]; [lia|].
    assert (a !! i = Some key) as Hak by (by rewrite (lookup_of_drop a arr)).
    apply wp_bind. eapply wp_arr_get; [done|]. apply wp_bind.
    assert (a = take i a ++ key :: drop (S i) a) as Ha by (by rewrite take_drop_middle).
    assert (length (take i a) = i) as Hlt by (rewrite length_take; lia).
    pose proof (sort_shift_spec key (take i a) (drop (S i) a) key) as Hshift.
    rewrite Hlt, <-Ha in Hshift. eapply wp_mono; [exact Hshift|].
    intros [a' j] (Hj & [y ->] & Hgt & Hle). rewrite <-Hlt in Hj at 1.
    assert (length (take j (take i a)) = j) as Hlj by (rewrite length_take; lia).
    apply wp_arr_set; [rewrite length_app; simpl; lia|].
    rewrite insert_app_r_alt by lia. rewrite Hlj, Nat.sub_diag. simpl.
    set (L := take i a) in *.
    assert (length (take j L ++ key :: drop j L) = S i) as HlL.
    { rewrite length_app, length_take. simpl. rewrite length_drop. lia. }
    rewrite app_comm_cons, app_assoc.
    repeat split.
    + rewrite length_app, HlL, length_drop. lia.
    + rewrite drop_app_length' by done. by apply drop_S_of_drop.
    + rewrite take_app_length' by done. rewrite (take_S_r arr i key) by done.
      rewrite <-Permutation_middle, take_drop, Hperm. apply Permutation_cons_append.
    + rewrite take_app_length' by done. by apply insert_sorted.
  - intros a (? & _ & ? & ?). done.
Qed.

(** *** Merging *)

Definition mergeable (cur r : MemblockRegion) : bool :=
  bool_decide (mr_kind r = mr_kind cur) && (mr_base r <=? mr_end cur).

Definition merge_into (cur r : MemblockRegion) : MemblockRegion :=
  mk_region (mr_base cur) (Z.max (mr_end cur) (mr_end r) - mr_base cur) (mr_kind cur).

(** Reference for [merge_overlaps_same_kind]: one left-to-right pass that keeps
    a current region. *)
Fixpoint merge_ref (cur : MemblockRegion) (l : list MemblockRegion) : list MemblockRegion :=
  match l with
  | [] => [cur]
  | r :: l =>
      if mergeable cur r then merge_ref (merge_into cur r) l
      else cur :: merge_ref r l
  end.

Definition merge_list (l : list MemblockRegion) : list MemblockRegion :=
  match l with [] => [] | cur :: l => merge_ref cur l end.

Lemma merge_into_ok cur r :
  region_ok cur → region_ok r → region_ok (merge_into cur r).
Proof. unfold region_ok, merge_into, mr_end, sat_add64. simpl. lia. Qed.

Lemma merge_into_end cur r :
  region_ok cur → region_ok r → mr_end (merge_into cur r) = Z.max (mr_end cur) (mr_end r).
Proof.
  intros Hc Hr. rewrite (mr_end_ok (merge_into cur r)) by by apply merge_into_ok.
  unfold merge_into. simpl. lia.
Qed.

Lemma merge_overlaps_same_kind_spec arr cnt :
  (cnt ≤ length arr)%nat → Forall region_ok (take cnt arr) →
  wp (merge_overlaps_same_kind arr cnt) (λ '(arr', w),
    length arr' = length arr ∧ (w ≤ cnt)%nat ∧
    take w arr' = merge_list (take cnt arr)).
Proof.
  intros Hcnt Hok. unfold merge_overlaps_same_kind.
  destruct (Nat.eqb_spec cnt 0) as [->|Hne]; [by apply wp_ret|].
  destruct arr as [|c0 arr0] eqn:Harr; [simpl in Hcnt; lia|]. rewrite <-Harr in *.
  apply wp_bind. eapply (wp_arr_get _ _ c0); [by rewrite Harr|].
  assert (region_ok c0) as Hc0.
  { rewrite Harr in Hok. destruct cnt; [lia|]. by inversion Hok. }
  assert (merge_list (take cnt arr) = merge_ref c0 (drop 1 (take cnt arr))) as Hml.
  { rewrite Harr. destruct cnt; [lia|]. done. }
  apply wp_bind.
  apply (wp_for_range _ _ _ _ (λ i '(a, w, cur),
    length a = length arr ∧ (w < i)%nat ∧ drop i a = drop i arr ∧ region_ok cur ∧
    take w a ++ merge_ref cur (drop i (take cnt arr)) = merge_list (take cnt arr))).
  - lia.
  - repeat split; [lia|apply Hc0..|]. by rewrite Hml.
  - intros i [[a w] cur] Hi (Hlen & Hw & Hdrop & Hcur & Heq).
    destruct (lookup_lt_is_Some_2 arr i) as [r Hr]; [lia|].
    assert (a !! i = Some r) as Har by (by rewrite (lookup_of_drop a arr)).
    assert (take cnt arr !! i = Some r) as Htr by (by rewrite lookup_take_lt by lia).
    assert (region_ok r) as Hrok by (by eapply (Forall_lookup_1 _ _ _ _ Hok)).
    apply wp_bind. eapply wp_arr_get; [done|].
    rewrite (drop_S _ r) in Heq by done. simpl in Heq. unfold mergeable in Heq.
    destruct (bool_decide _ && _) eqn:Hm.
    + apply wp_bind. apply wp_sub64.
      { unfold mr_end, sat_add64, region_ok in *. lia. }
      apply wp_ret. repeat split; [done|lia|by apply drop_S_of_drop|..|done];
      by apply merge_into_ok.
    + apply wp_bind. apply wp_arr_set; [lia|]. apply wp_ret.
      rewrite length_insert, drop_insert_lt, take_S_insert by lia.
      repeat split; [done|lia|by apply drop_S_of_drop|apply Hrok..|].
      by rewrite <-app_assoc.
  - intros [[a w] cur] (Hlen & Hw & _ & Hcur & Heq).
    rewrite drop_ge in Heq by (rewrite length_take; lia). simpl in Heq.
    apply wp_bind. apply wp_arr_set; [lia|]. apply wp_bind.
    apply wp_clear_tail; [rewrite length_insert; lia|].
    intros arr' Hlen' Htake'. apply wp_ret. rewrite length_insert in Hlen'.
    split; [lia|]. split; [lia|]. rewrite Htake', take_S_insert by lia. done.
Qed.

(** A live region: valid and non-empty. *)
Definition region_live (r : MemblockRegion) : Prop := region_ok r ∧ mr_size r ≠ 0.

Lemma region_live_ok r : region_live r → region_ok r.
Proof. by intros [? _]. Qed.

Lemma region_live_end r : region_live r → mr_end r = mr_base r + mr_size r ∧ 0 < mr_size r.
Proof. intros [Hok Hne]. rewrite mr_end_ok by done. unfold region_ok in *. lia. Qed.

Lemma merge_into_live cur r :
  region_live cur → region_live r → region_live (merge_into cur r).
Proof.
  intros Hc Hr. split; [apply merge_into_ok; apply region_live_ok; done|].
  apply region_live_end in Hc, Hr. unfold merge_into. simpl. lia.
Qed.

Lemma merge_ref_live cur l :
  region_live cur → Forall region_live l → Forall region_live (merge_ref cur l).
Proof.
  intros Hc Hl. revert cur Hc. induction Hl as [|r l Hr Hl IH]; intros cur Hc; simpl.
  - by apply Forall_singleton.
  - destruct (mergeable cur r); [apply IH; by apply merge_into_live|]. constructor; auto.
Qed.

Lemma merge_ref_kind (P : MemblockType.t → Prop) cur l :
  P (mr_kind cur) → Forall (λ r, P (mr_kind r)) l →
  Forall (λ r, P (mr_kind r)) (merge_ref cur l).
Proof.
  intros Hc Hl. revert cur Hc. induction Hl as [|r l Hr Hl IH]; intros cur Hc; simpl.
  - by apply Forall_singleton.
  - destruct (mergeable cur r); [by apply IH|]. constructor; auto.
Qed.

Lemma merge_ref_lower b cur l :
  b ≤ mr_base cur → Forall (λ r, b ≤ mr_base r) l →
  Forall (λ r, b ≤ mr_base r) (merge_ref cur l).
Proof.
  intros Hc Hl. revert cur Hc. induction Hl as [|r l Hr Hl IH]; intros cur Hc; simpl.
  - by apply Forall_singleton.
  - destruct (mergeable cur r); [by apply IH|]. constructor; auto.
Qed.

Lemma merge_ref_sorted cur l :
  StronglySorted base_le (cur :: l) → StronglySorted base_le (merge_ref cur l).
Proof.
  revert cur. induction l as [|r l IH]; intros cur Hs; simpl; [done|].
  apply StronglySorted_inv in Hs as [Hs Hc].
  apply StronglySorted_inv in Hs as [Hs Hr]. inversion Hc as [|?? Hcr Hcl]; subst.
  destruct (mergeable cur r).
  - apply IH. by constructor.
  - constructor; [apply IH; by constructor|].
    apply merge_ref_lower; [done|]. exact Hcl.
Qed.

Lemma merge_ref_separated cur l k :
  StronglySorted base_le (cur :: l) →
  Forall region_live (cur :: l) → Forall (λ r, mr_kind r = k) (cur :: l) →
  StronglySorted before (merge_ref cur l).
Proof.
  revert cur. induction l as [|r l IH]; intros cur Hs Hok Hk; simpl; [repeat constructor|].
  apply StronglySorted_inv in Hs as [Hs Hc].
  inversion Hok as [|?? Hcok Hok']; subst. inversion Hok' as [|?? Hrok Hlok]; subst.
  inversion Hk as [|?? Hck Hk']; subst. inversion Hk' as [|?? Hrk Hlk]; subst.
  inversion Hc as [|?? Hcr Hcl]; subst.
  destruct (mergeable cur r) eqn:Hm.
  - apply IH; [|constructor; [by apply merge_into_live|done]|by constructor].
    apply StronglySorted_inv in Hs as [Hs _]. by constructor.
  - constructor; [by apply IH|].
    unfold mergeable in Hm. rewrite bool_decide_true in Hm by congruence. simpl in Hm.
    apply Z.leb_gt in Hm.
    assert (Forall (λ r', mr_base r ≤ mr_base r') (merge_ref r l)) as Hlow.
    { apply merge_ref_lower; [lia|]. by apply StronglySorted_inv in Hs as [_ Hs]. }
    eapply Forall_impl; [exact Hlow|]. unfold before. simpl. lia.
Qed.

Lemma merge_ref_covers cur l a :
  StronglySorted base_le (cur :: l) → Forall region_ok (cur :: l) →
  covers (merge_ref cur l) a ↔ covers (cur :: l) a.
Proof.
  revert cur. induction l as [|r l IH]; intros cur Hs Hok; simpl; [done|].
  apply StronglySorted_inv in Hs as [Hs Hc].
  inversion Hok as [|?? Hcok Hok']; subst. inversion Hok' as [|?? Hrok Hlok]; subst.
  inversion Hc as [|?? Hcr Hcl]; subst.
  destruct (mergeable cur r) eqn:Hm.
  - rewrite IH.
    2:{ apply StronglySorted_inv in Hs as [Hs _]. by constructor. }
    2:{ constructor; [by apply merge_into_ok|done]. }
    rewrite !covers_cons. unfold mergeable in Hm.
    apply andb_true_iff in Hm as [_ Hm]. apply Z.leb_le in Hm.
    enough (in_region (merge_into cur r) a ↔ in_region cur a ∨ in_region r a) by tauto.
    unfold in_region. rewrite merge_into_end by done. unfold base_le in Hcr. simpl. lia.
  - rewrite !covers_cons, IH, covers_cons by done. tauto.
Qed.

(** ** Subtracting reserved ranges *)

Definition usable_piece (lo hi : Z) : list MemblockRegion :=
  if lo <? hi then [mk_region lo (hi - lo) MemblockType.Usable] else [].

(** Reference for one memory region [[cur, mend)]: the pieces left after
    removing the reserved regions, given in order of their base. *)
Fixpoint pieces (cur mend : Z) (res : list MemblockRegion) : list MemblockRegion :=
  match res with
  | [] => usable_piece cur mend
  | r :: res =>
      if mend <=? mr_base r then usable_piece cur mend
      else
        usable_piece cur (mr_base r) ++
        (let cur := Z.max cur (mr_end r) in
         if mend <=? cur then [] else pieces cur mend res)
  end.

Definition subtract_ref (mem res : list MemblockRegion) : list MemblockRegion :=
  mem ≫= λ m, pieces (mr_base m) (mr_end m) res.

Lemma usable_piece_nil lo hi : hi ≤ lo → usable_piece lo hi = [].
Proof. intros H. unfold usable_piece. by rewrite (proj2 (Z.ltb_ge _ _)). Qed.

Lemma pieces_nil cur mend res : mend ≤ cur → pieces cur mend res = [].
Proof.
  intros H. destruct res as [|r res]; simpl; [by apply usable_piece_nil|].
  destruct (Z.leb_spec mend (mr_base r)); [by apply usable_piece_nil|].
  rewrite usable_piece_nil by lia. simpl. by rewrite (proj2 (Z.leb_le _ _)) by lia.
Qed.

Lemma pieces_skip cur mend r res :
  region_ok r → mr_end r ≤ cur → pieces cur mend (r :: res) = pieces cur mend res.
Proof.
  intros Hr He. pose proof (mr_end_ok r Hr). unfold region_ok in Hr. simpl.
  destruct (Z.leb_spec mend (mr_base r)).
  { rewrite usable_piece_nil by lia. by rewrite pieces_nil by lia. }
  rewrite usable_piece_nil by lia. simpl. rewrite Z.max_l by lia.
  destruct (Z.leb_spec mend cur); [by rewrite pieces_nil|done].
Qed.

(** What appending [lo, hi) to the output amounts to: the piece is appended, or
    the table is full. *)
Definition pushed (out : list MemblockRegion) (c : nat) (ps : list MemblockRegion)
    (r : (list MemblockRegion * nat) + MemblockError) : Prop :=
  match r with
  | inl (out', c') => length out' = MAX_MEMBLOCK_REGIONS ∧
      (c' ≤ MAX_MEMBLOCK_REGIONS)%nat ∧ take c' out' = take c out ++ ps
  | inr e => e = OutOfSlots ∧ (MAX_MEMBLOCK_REGIONS < c + length ps)%nat
  end.

Lemma push_piece_spec out c lo hi :
  length out = MAX_MEMBLOCK_REGIONS → (c ≤ MAX_MEMBLOCK_REGIONS)%nat →
  wp (if lo <? hi then push_out out c lo hi else Ret (inl (out, c)))
     (pushed out c (usable_piece lo hi)).
Proof.
  intros Hlen Hc. unfold push_out, usable_piece. destruct (Z.ltb_spec lo hi) as [Hlt|Hge].
  2:{ apply wp_ret. simpl. by rewrite app_nil_r. }
  destruct (Nat.leb_spec MAX_MEMBLOCK_REGIONS c).
  { apply wp_ret. simpl. split; [done|lia]. }
  apply wp_bind. apply wp_sub64; [lia|]. apply wp_bind. apply wp_arr_set; [lia|].
  apply wp_ret. simpl. by rewrite length_insert, take_S_insert by lia.
Qed.

Section subtract_one.
  Context (res : list MemblockRegion) (rcnt : nat).
  Context (Hrc : (rcnt ≤ length res)%nat) (Hok : Forall region_ok (take rcnt res)).

Lemma reserved_get i :
    (i < rcnt)%nat →
    ∃ r, res !! i = Some r ∧ region_ok r ∧
         drop i (take rcnt res) = r :: drop (S i) (take rcnt res).
  Proof using Hrc Hok.
    intros Hi. destruct (lookup_lt_is_Some_2 res i) as [r Hr]; [lia|].
    assert (take rcnt res !! i = Some r) as Ht by (by rewrite lookup_take_lt by lia).
    exists r. split; [done|]. split; [by eapply (Forall_lookup_1 _ _ _ _ Hok)|]. by apply drop_S.
  Qed.

Lemma skip_below_spec cur mend :
    wp (skip_below res rcnt cur) (λ ri, (ri ≤ rcnt)%nat ∧
      pieces cur mend (drop ri (take rcnt res)) = pieces cur mend (take rcnt res)).
  Proof using Hrc Hok.
    apply (wp_iter _ _ _ (λ ri, (ri ≤ rcnt)%nat ∧
      pieces cur mend (drop ri (take rcnt res)) = pieces cur mend (take rcnt res))
      (λ ri, rcnt - ri)%nat); [split; [lia|done]|lia|].
    intros ri [Hri Hps]. destruct (Nat.ltb_spec ri rcnt) as [Hlt|Hge]; [|by apply wp_ret].
    destruct (reserved_get ri Hlt) as (r & Hr & Hrok & Hdr).
    apply wp_bind. eapply wp_arr_get; [done|].
    destruct (Z.leb_spec (mr_end r) cur) as [He|He]; apply wp_ret; [|done].
    split; [|lia]. split; [lia|]. by rewrite <-Hps, Hdr, pieces_skip.
  Qed.

  (** One carving step moves a piece from the remaining [pieces] to the output. *)
Lemma carve_step_spec mend out c cur ri :
    length out = MAX_MEMBLOCK_REGIONS → (c ≤ MAX_MEMBLOCK_REGIONS)%nat →
    (ri ≤ rcnt)%nat →
    let todo := pieces cur mend (drop ri (take rcnt res)) in
    wp (carve_step res rcnt mend (out, c, cur, ri)) (λ st,
      match st with
      | inl (out', c', cur', ri') => ri' = S ri ∧ (ri < rcnt)%nat ∧
          length out' = MAX_MEMBLOCK_REGIONS ∧ (c' ≤ MAX_MEMBLOCK_REGIONS)%nat ∧
          take c' out' ++ pieces cur' mend (drop ri' (take rcnt res)) = take c out ++ todo
      | inr (inl (out', c', cur')) =>
          length out' = MAX_MEMBLOCK_REGIONS ∧ (c' ≤ MAX_MEMBLOCK_REGIONS)%nat ∧
          take c' out' ++ usable_piece cur' mend = take c out ++ todo
      | inr (inr e) => e = OutOfSlots ∧ (MAX_MEMBLOCK_REGIONS < c + length todo)%nat
      end).
  Proof using Hrc Hok.
    intros Hlen Hc Hri todo. unfold carve_step, todo. clear todo.
    destruct (Nat.ltb_spec ri rcnt) as [Hlt|Hge].
    2:{ apply wp_ret. by rewrite drop_ge by (rewrite length_take; lia). }
    destruct (reserved_get ri Hlt) as (r & Hr & Hrok & Hdr). rewrite Hdr.
    apply wp_bind. eapply wp_arr_get; [done|]. simpl pieces.
    destruct (Z.leb_spec mend (mr_base r)) as [Hm|Hm]; [by apply wp_ret|].
    rewrite Z.min_l by lia. apply wp_bind.
    eapply wp_mono; [by apply push_piece_spec|]. simpl.
    intros [[out' c']|e]; simpl.
    - intros (Hlen' & Hc' & Htk). rewrite app_assoc, <-Htk.
      destruct (Z.leb_spec mend (Z.max cur (mr_end r))) as [Hend|Hend]; apply wp_ret.
      + by rewrite usable_piece_nil.
      + done.
    - intros [-> Hfull]. apply wp_ret. rewrite length_app. split; [done|lia].
  Qed.

Lemma subtract_one_spec m out c :
    length out = MAX_MEMBLOCK_REGIONS → (c ≤ MAX_MEMBLOCK_REGIONS)%nat →
    wp (subtract_one res rcnt m out c)
       (pushed out c (pieces (mr_base m) (mr_end m) (take rcnt res))).
  Proof using Hrc Hok.
    intros Hlen Hc. unfold subtract_one. set (mend := mr_end m).
    set (ps := pieces (mr_base m) mend (take rcnt res)).
    apply wp_bind. eapply wp_mono; [apply (skip_below_spec _ mend)|].
    intros ri0 [Hri0 Hps0]. apply wp_bind.
    apply (wp_iter _ _ _ (λ '(out', c', cur, ri), (ri ≤ rcnt)%nat ∧
        length out' = MAX_MEMBLOCK_REGIONS ∧ (c' ≤ MAX_MEMBLOCK_REGIONS)%nat ∧
        take c' out' ++ pieces cur mend (drop ri (take rcnt res)) = take c out ++ ps)
        (λ '(_, _, _, ri), rcnt - ri)%nat); [by rewrite Hps0|lia|].
    intros [[[out' c'] cur] ri] (Hri & Hlen' & Hc' & Heq).
    eapply wp_mono; [by apply carve_step_spec|].
    assert (c' + length (pieces cur mend (drop ri (take rcnt res))) = c + length ps)%nat as Hl.
    { apply (f_equal length) in Heq. rewrite !length_app, !length_take in Heq. lia. }
    intros [[[[out'' c''] cur'] ri']|[[[out'' c''] cur']|e]].
    - intros (-> & Hlt & Hlen'' & Hc'' & Heq'). split; [|lia]. rewrite Heq'. split; [lia|done].
    - intros (Hlen'' & Hc'' & Heq'). eapply wp_mono; [by apply push_piece_spec|].
      rewrite Heq in Heq'. intros [[out3 c3]|e]; simpl.
      + intros (? & ? & ->). by rewrite Heq'.
      + intros [-> Hfull]. split; [done|].
        apply (f_equal length) in Heq'. rewrite !length_app, !length_take in Heq'. lia.
    - intros [-> Hfull]. apply wp_ret. split; [done|lia].
  Qed.
End subtract_one.

Lemma subtract_reserved_spec mem mcnt res rcnt out :
  (mcnt ≤ length mem)%nat → (rcnt ≤ length res)%nat →
  Forall region_ok (take rcnt res) → length out = MAX_MEMBLOCK_REGIONS →
  wp (subtract_reserved mem mcnt res rcnt out)
     (pushed out 0 (subtract_ref (take mcnt mem) (take rcnt res))).
Proof.
  intros Hm Hr Hok Hlen. unfold subtract_reserved.
  apply (wp_for_each_ret _ _ _ (λ done '(out', c'),
    length out' = MAX_MEMBLOCK_REGIONS ∧ (c' ≤ MAX_MEMBLOCK_REGIONS)%nat ∧
    take c' out' = subtract_ref (take (length done) mem) (take rcnt res))).
  - split; [done|]. split; [lia|done].
  - intros done i rest [out' c'] Hseq (Hlen' & Hc' & Htk).
    assert (i = length done ∧ (i < mcnt)%nat) as [-> Hi].
    { assert (seq 0 mcnt !! length done = Some i) as Hl.
      { rewrite Hseq, lookup_app_r, Nat.sub_diag by lia. done. }
      apply lookup_seq in Hl. lia. }
    destruct (lookup_lt_is_Some_2 mem (length done)) as [m Hmi]; [lia|].
    apply wp_bind. eapply wp_arr_get; [done|].
    eapply wp_mono; [by apply subtract_one_spec|].
    rewrite length_app. simpl. rewrite Nat.add_1_r, (take_S_r mem _ m) by done.
    intros [[out'' c'']|e]; simpl.
    + intros (? & ? & ->). rewrite Htk. unfold subtract_ref. rewrite bind_app. simpl.
      by rewrite app_nil_r.
    + intros [-> Hfull]. split; [done|]. apply (f_equal length) in Htk.
      rewrite length_take in Htk.
      assert (take mcnt mem = take (length done) mem ++ m :: drop (S (length done)) (take mcnt mem))
        as ->.
      { rewrite <-(take_drop_middle (take mcnt mem) (length done) m) at 1.
        - by rewrite take_take, Nat.min_l by lia.
        - by rewrite lookup_take_lt by lia. }
      unfold subtract_ref in *. rewrite bind_app, length_app, <-Htk. simpl.
      rewrite length_app. lia.
  - intros [out' c'] (? & ? & Htk). rewrite length_seq in Htk. by simpl.
Qed.

Lemma covers_usable_piece lo hi a :
  hi ≤ u64_max → covers (usable_piece lo hi) a ↔ lo ≤ a < hi.
Proof.
  intros Hhi. unfold usable_piece. destruct (Z.ltb_spec lo hi).
  - rewrite covers_cons, covers_nil. unfold in_region, mr_end, sat_add64. simpl. lia.
  - rewrite covers_nil. lia.
Qed.

(** The invariants of a piece of [[cur, mend)]. *)
Definition piece_of (cur mend : Z) (r : MemblockRegion) : Prop :=
  region_live r ∧ mr_kind r = MemblockType.Usable ∧ cur ≤ mr_base r ∧ mr_end r ≤ mend.

Lemma usable_piece_of cur mend lo hi :
  0 ≤ lo → hi ≤ u64_max → cur ≤ lo → hi ≤ mend →
  Forall (piece_of cur mend) (usable_piece lo hi).
Proof.
  intros. unfold usable_piece. destruct (Z.ltb_spec lo hi); [|constructor].
  apply Forall_singleton. unfold piece_of, region_live, region_ok, mr_end, sat_add64. simpl.
  repeat split; lia.
Qed.

Lemma pieces_of cur mend res :
  0 ≤ cur → mend ≤ u64_max → Forall region_ok res →
  Forall (piece_of cur mend) (pieces cur mend res).
Proof.
  intros Hcur Hmend Hok. revert cur Hcur. induction Hok as [|r res Hr Hok IH]; intros cur Hcur; simpl.
  { apply usable_piece_of; lia. }
  destruct (Z.leb_spec mend (mr_base r)); [apply usable_piece_of; lia|].
  apply Forall_app. split; [apply usable_piece_of; unfold region_ok in *; lia|].
  destruct (Z.leb_spec mend (Z.max cur (mr_end r))); [constructor|].
  eapply Forall_impl; [apply IH; lia|].
  unfold piece_of. intros ? (? & ? & ? & ?). split; [done|]. split; [done|lia].
Qed.

Lemma covers_above b res a : Forall (λ r, b ≤ mr_base r) res → a < b → ¬ covers res a.
Proof.
  intros Hle Ha (r & Hr & Hin). rewrite Forall_forall in Hle. specialize (Hle r Hr).
  unfold in_region in Hin. simpl in Hle. lia.
Qed.

Lemma pieces_covers cur mend res a :
  0 ≤ cur → mend ≤ u64_max → Forall region_ok res → StronglySorted base_le res →
  covers (pieces cur mend res) a ↔ cur ≤ a < mend ∧ ¬ covers res a.
Proof.
  intros Hcur Hmend Hok Hs. revert cur Hcur.
  induction Hs as [|r res Hs IH Hle]; intros cur Hcur; simpl.
  { rewrite covers_usable_piece, covers_nil by done. tauto. }
  inversion Hok as [|?? Hr Hok']; subst. specialize (IH Hok').
  pose proof (mr_end_ok r Hr) as He. unfold region_ok in Hr.
  assert (a < mr_base r → ¬ covers (r :: res) a) as Habove.
  { apply covers_above. constructor; [lia|exact Hle]. }
  destruct (Z.leb_spec mend (mr_base r)) as [Hm|Hm].
  { rewrite covers_usable_piece by done. split; [|tauto]. intros Ha. split; [done|].
    apply Habove. lia. }
  rewrite covers_app, covers_usable_piece by lia. rewrite covers_cons in *. unfold in_region in *.
  destruct (Z.leb_spec mend (Z.max cur (mr_end r))) as [Hend|Hend].
  - rewrite covers_nil. split.
    + intros [Ha|[]]. split; [lia|]. apply Habove. lia.
    + intros [Ha Hn]. left. destruct (decide (a < mr_base r)); [lia|]. exfalso. apply Hn. lia.
  - rewrite IH by lia. split.
    + intros [Ha|[Ha Hc]]; (split; [lia|]); [apply Habove; lia|]. intros [?|?]; [lia|done].
    + intros [Ha Hn]. destruct (decide (a < mr_base r)); [left; lia|right].
      split; [|tauto]. destruct (decide (a < mr_end r)); [exfalso; apply Hn; lia|lia].
Qed.

Lemma sorted_before_app l1 l2 :
  StronglySorted before l1 → StronglySorted before l2 →
  (∀ x y, x ∈ l1 → y ∈ l2 → before x y) → StronglySorted before (l1 ++ l2).
Proof.
  intros Hs1 Hs2 Hx. induction Hs1 as [|x l1 Hs1 IH Hf]; simpl; [done|].
  constructor.
  - apply IH. intros. apply Hx; [by right|done].
  - apply Forall_app. split; [done|]. apply Forall_forall. intros y Hy.
    apply Hx; [by left|done].
Qed.

Lemma pieces_separated cur mend res :
  0 ≤ cur → mend ≤ u64_max → Forall region_live res →
  StronglySorted before (pieces cur mend res).
Proof.
  intros Hcur Hmend Hok. revert cur Hcur.
  induction Hok as [|r res Hr Hok IH]; intros cur Hcur; simpl;
    [unfold usable_piece; destruct (_ <? _); repeat constructor|].
  destruct (Z.leb_spec mend (mr_base r));
    [unfold usable_piece; destruct (_ <? _); repeat constructor|].
  pose proof (region_live_end r Hr) as [He Hpos]. pose proof (region_live_ok r Hr) as Hrok.
  unfold region_ok in Hrok.
  apply sorted_before_app; [unfold usable_piece; destruct (_ <? _); repeat constructor| |].
  { destruct (Z.leb_spec mend (Z.max cur (mr_end r))); [constructor|]. apply IH. lia. }
  intros x y Hx Hy. destruct (Z.leb_spec mend (Z.max cur (mr_end r))); [by apply elem_of_nil in Hy|].
  assert (Forall (piece_of cur (mr_base r)) (usable_piece cur (mr_base r))) as H1
    by (apply usable_piece_of; lia).
  assert (Forall (piece_of (Z.max cur (mr_end r)) mend)
            (pieces (Z.max cur (mr_end r)) mend res)) as H2.
  { apply pieces_of; [lia|lia|]. eapply Forall_impl; [done|apply region_live_ok]. }
  rewrite Forall_forall in H1, H2. specialize (H1 x Hx). specialize (H2 y Hy).
  unfold piece_of, before in *. lia.
Qed.

Lemma subtract_ref_spec mem res :
  Forall region_live mem → StronglySorted before mem →
  Forall region_live res → StronglySorted base_le res →
  let out := subtract_ref mem res in
  Forall region_live out ∧ Forall (λ r, mr_kind r = MemblockType.Usable) out ∧
  StronglySorted before out ∧ (∀ a, covers out a ↔ covers mem a ∧ ¬ covers res a).
Proof.
  intros Hm Hs Hr Hrs out.
  assert (Forall region_ok res) as Hrok by (eapply Forall_impl; [done|apply region_live_ok]).
  assert (∀ m, m ∈ mem → Forall (piece_of (mr_base m) (mr_end m))
            (pieces (mr_base m) (mr_end m) res)) as Hpiece.
  { intros m Hmm. rewrite Forall_forall in Hm. specialize (Hm m Hmm).
    pose proof (region_live_end m Hm). destruct Hm as [Hm _]. unfold region_ok in Hm.
    apply pieces_of; [lia|lia|done]. }
  assert (Forall (λ r, ∃ m, m ∈ mem ∧ piece_of (mr_base m) (mr_end m) r) out) as Hall.
  { apply Forall_forall. intros r Hin. apply list_elem_of_bind in Hin as (m & Hin & Hmm).
    exists m. split; [done|]. specialize (Hpiece m Hmm). rewrite Forall_forall in Hpiece. auto. }
  split; [eapply Forall_impl; [exact Hall|]; intros r (m & _ & ? & _); done|].
  split; [eapply Forall_impl; [exact Hall|]; intros r (m & _ & _ & ? & _); done|].
  clear Hall. subst out. unfold subtract_ref. induction Hs as [|m mem Hs IH Hb]; simpl.
  { split; [constructor|]. intros a. rewrite !covers_nil. tauto. }
  inversion Hm as [|?? Hml Hm']; subst.
  destruct IH as [IHs IHc]; [done|intros m' Hm''; apply Hpiece; by right|].
  pose proof (region_live_end m Hml). pose proof (region_live_ok m Hml) as Hmok.
  unfold region_ok in Hmok. split.
  - apply sorted_before_app; [apply pieces_separated; [lia|lia|done]|done|].
    intros x y Hx Hy. apply list_elem_of_bind in Hy as (m' & Hy & Hm'').
    pose proof (Hpiece m ltac:(by left)) as H1. pose proof (Hpiece m' ltac:(by right)) as H2.
    rewrite Forall_forall in H1, H2, Hb. specialize (H1 x Hx). specialize (H2 y Hy).
    specialize (Hb m' Hm''). unfold piece_of, before in *. lia.
  - intros a. rewrite covers_app, IHc, pieces_covers, covers_cons by (done || lia).
    unfold in_region. tauto.
Qed.

(** ** The memblock invariant *)

(** A table of 64 slots whose first [cnt] are valid regions of kinds in [P]. *)
Definition table_ok (P : MemblockType.t → Prop) (arr : list MemblockRegion) (cnt : nat) : Prop :=
  length arr = MAX_MEMBLOCK_REGIONS ∧ (cnt ≤ MAX_MEMBLOCK_REGIONS)%nat ∧
  Forall region_ok (take cnt arr) ∧ Forall (λ r, P (mr_kind r)) (take cnt arr).

Definition is_usable (k : MemblockType.t) : Prop := k = MemblockType.Usable.
Definition is_reserved (k : MemblockType.t) : Prop := MemblockType.is_reserved_kind k = true.

Record memblock_ok (mb : Memblock) : Prop := {
  ok_memory : table_ok is_usable (memory mb) (mem_cnt mb);
  ok_reserved : table_ok is_reserved (reserved mb) (res_cnt mb);
  ok_raw : table_ok is_usable (raw_memory mb) (raw_memory_cnt mb)
}.

(** What [normalize] establishes: non-empty regions, usable memory strictly
    separated, reserved ranges in order of base. *)
Record normalized (mb : Memblock) : Prop := {
  norm_memory : Forall region_live (memory_regions mb);
  norm_memory_sep : StronglySorted before (memory_regions mb);
  norm_reserved : Forall region_live (reserved_regions mb);
  norm_reserved_sorted : StronglySorted base_le (reserved_regions mb);
  norm_raw : Forall region_live (all_memory_regions mb);
  norm_raw_sep : StronglySorted before (all_memory_regions mb)
}.

Lemma compact_sort_merge_spec P arr cnt :
  table_ok P arr cnt →
  wp (compact_sort_merge arr cnt) (λ '(arr', cnt'),
    table_ok P arr' cnt' ∧ Forall region_live (take cnt' arr') ∧
    StronglySorted base_le (take cnt' arr') ∧
    ((∀ k, P k → is_usable k) → StronglySorted before (take cnt' arr')) ∧
    ∀ a, covers (take cnt' arr') a ↔ covers (take cnt arr) a).
Proof.
  intros (Hlen & Hcnt & Hok & Hk). unfold compact_sort_merge.
  apply wp_bind. eapply wp_mono; [apply compact_list_spec; lia|].
  intros [arr1 w] (Hlen1 & Hw & Htk1). apply wp_bind.
  eapply wp_mono; [apply sort_by_base_spec; lia|].
  intros arr2 (Hlen2 & Hperm & Hsort).
  assert (∀ r, r ∈ take w arr2 → region_live r ∧ P (mr_kind r)) as Hin.
  { intros r Hr. rewrite Hperm, Htk1 in Hr. apply list_elem_of_filter in Hr as [Hne Hr].
    rewrite Forall_forall in Hok, Hk. split; [split; auto|auto]. }
  assert (Forall region_live (take w arr2)) as Hlive
    by (apply Forall_forall; intros r Hr; by apply Hin).
  assert (Forall (λ r, P (mr_kind r)) (take w arr2)) as HP
    by (apply Forall_forall; intros r Hr; by apply Hin).
  assert (Forall region_ok (take w arr2)) as Hok2
    by (eapply Forall_impl; [exact Hlive|apply region_live_ok]).
  assert (∀ a, covers (take w arr2) a ↔ covers (take cnt arr) a) as Hcov.
  { intros a. by rewrite (covers_perm _ _ _ Hperm), Htk1, covers_filter_nonempty. }
  eapply wp_mono; [apply merge_overlaps_same_kind_spec; [lia|done]|].
  intros [arr3 w'] (Hlen3 & Hw' & Htk3). unfold table_ok. rewrite Htk3.
  setoid_rewrite <-Hcov. clear Hcov Hin Htk3 Htk1 Hperm.
  destruct (take w arr2) as [|cur l]; simpl.
  { split; [split; [lia|split; [lia|by split]]|].
    split; [done|]. split; [constructor|]. split; [intros; constructor|done]. }
  inversion Hlive; inversion HP; inversion Hok2; subst.
  pose proof (merge_ref_live cur l) as Hml.
  split; [|split; [by apply Hml|split; [by apply merge_ref_sorted|split]]].
  - repeat split; [lia|lia| |by apply merge_ref_kind].
    eapply Forall_impl; [by apply Hml|apply region_live_ok].
  - intros HPu. apply (merge_ref_separated cur l MemblockType.Usable); [done..|].
    eapply Forall_impl; [exact HP|]. intros r Hr. by apply HPu.
  - intros a. by apply merge_ref_covers.
Qed.

Lemma is_usable_id k : is_usable k → is_usable k.
Proof. done. Qed.

Lemma filter_live l : Forall region_live l → filter (λ r, mr_size r ≠ 0) l = l.
Proof.
  induction 1 as [|r l [_ Hr] Hl IH]; [done|]. by rewrite filter_cons_True, IH.
Qed.

Lemma normalize_spec mb :
  memblock_ok mb →
  wp (normalize mb) (λ '(mb', r),
    memblock_ok mb' ∧
    (∀ a, covers (reserved_regions mb') a ↔ covers (reserved_regions mb) a) ∧
    (∀ a, covers (all_memory_regions mb') a ↔ covers (all_memory_regions mb) a) ∧
    match r with
    | Ok _ => normalized mb' ∧
        ∀ a, covers (memory_regions mb') a ↔
             covers (memory_regions mb) a ∧ ¬ covers (reserved_regions mb) a
    | Err e => e = OutOfSlots ∧
        ∀ a, covers (memory_regions mb') a ↔ covers (memory_regions mb) a
    end).
Proof.
  intros [Hm Hr Hw]. unfold normalize.
  apply wp_bind. eapply wp_mono; [by apply compact_sort_merge_spec|].
  intros [raw rawc] (Hw' & Hwl & Hws & Hwb & Hwc). specialize (Hwb is_usable_id).
  apply wp_bind. eapply wp_mono; [by apply compact_sort_merge_spec|].
  intros [mem mc] (Hm' & Hml & Hms & Hmb & Hmc). specialize (Hmb is_usable_id).
  apply wp_bind. eapply wp_mono; [by apply compact_sort_merge_spec|].
  intros [res rc] (Hr' & Hrl & Hrs & _ & Hrc).
  destruct (subtract_ref_spec _ _ Hml Hmb Hrl Hrs) as (Hol & Hok & Hob & Hoc).
  set (out := subtract_ref (take mc mem) (take rc res)) in *.
  apply wp_bind. destruct Hm' as (Hmlen & Hmcnt & Hm'). destruct Hr' as (Hrlen & Hrcnt & Hr').
  eapply wp_mono; [apply subtract_reserved_spec; [lia|lia|apply Hr'|apply length_replicate]|].
  fold out. intros [[nm nc]|e]; simpl.
  - intros (Hnlen & Hnc & Hnt). apply wp_bind.
    eapply wp_mono; [apply compact_list_spec; lia|]. intros [mem' mc'] (Hlen' & Hmc' & Htk').
    rewrite Hnt, filter_live in Htk' by done. apply wp_ret.
    unfold memory_regions, reserved_regions, all_memory_regions. simpl.
    split; [split; simpl; [|exact (conj Hrlen (conj Hrcnt Hr'))|done]|].
    { rewrite <-Htk' in Hol, Hok. split; [lia|]. split; [lia|]. split; [|done].
      eapply Forall_impl; [exact Hol|apply region_live_ok]. }
    split; [exact Hrc|]. split; [exact Hwc|]. rewrite Htk'. split.
    + by split; simpl; unfold memory_regions; simpl; rewrite ?Htk'.
    + intros a. rewrite Hoc, Hmc, Hrc. done.
  - intros [-> _]. apply wp_ret. split; [|done].
    by split; simpl; [exact (conj Hmlen (conj Hmcnt Hm'))|exact (conj Hrlen (conj Hrcnt Hr'))|].
Qed.

(** ** Adding regions *)

Definition region_arg_ok (base size : Z) : Prop := 0 ≤ base ∧ 0 < size ∧ base + size ≤ u64_max.

Lemma checked_add64_ok base size :
  base + size ≤ u64_max → checked_add64 base size = Some (base + size).
Proof. intros. unfold checked_add64. by rewrite (proj2 (Z.leb_le _ _)). Qed.

Lemma table_push P arr cnt r :
  table_ok P arr cnt → (cnt < MAX_MEMBLOCK_REGIONS)%nat → region_ok r → P (mr_kind r) →
  table_ok P (<[cnt:=r]> arr) (S cnt).
Proof.
  intros (Hlen & Hcnt & Hok & Hk) Hlt Hr HP. unfold table_ok.
  rewrite length_insert, take_S_insert by lia.
  repeat split; [done|lia|..]; (apply Forall_app; split; [done|by apply Forall_singleton]).
Qed.

(** [add_memory] and [add_reserved] append one region, or report why they
    cannot and leave the tables unchanged. *)
Lemma add_memory_spec mb base size :
  memblock_ok mb → 0 ≤ base → 0 ≤ size →
  wp (add_memory mb base size) (λ '(mb', r),
    memblock_ok mb' ∧
    match r with
    | Ok _ => region_arg_ok base size ∧
        let reg := mk_region base size MemblockType.Usable in
        memory_regions mb' = memory_regions mb ++ [reg] ∧
        all_memory_regions mb' = all_memory_regions mb ++ [reg] ∧
        reserved_regions mb' = reserved_regions mb ∧
        mem_cnt mb' = S (mem_cnt mb) ∧ raw_memory_cnt mb' = S (raw_memory_cnt mb) ∧
        res_cnt mb' = res_cnt mb
    | Err e => mb' = mb ∧
        (e = ZeroSize ∧ size = 0 ∨ e = Overflow ∧ u64_max < base + size ∨
         e = OutOfSlots ∧ (MAX_MEMBLOCK_REGIONS ≤ mem_cnt mb ∨
                           MAX_MEMBLOCK_REGIONS ≤ raw_memory_cnt mb)%nat)
    end).
Proof.
  intros Hok Hb Hs. destruct (Hok) as [Hm Hr Hw]. unfold add_memory.
  destruct (Z.eqb_spec size 0); [apply wp_ret; split; [done|]; split; [done|]; eauto 10|].
  unfold checked_add64. destruct (Z.leb_spec (base + size) u64_max); [|apply wp_ret; split; [done|]; split; [done|]; eauto 10].
  destruct (Nat.leb_spec MAX_MEMBLOCK_REGIONS (mem_cnt mb)); [apply wp_ret; split; [done|]; split; [done|]; eauto 10|].
  destruct (Nat.leb_spec MAX_MEMBLOCK_REGIONS (raw_memory_cnt mb)); [apply wp_ret; split; [done|]; split; [done|]; eauto 10|].
  apply wp_bind. apply wp_sub64; [lia|]. replace (base + size - base) with size by lia.
  destruct (Hm) as (Hmlen & _). destruct (Hw) as (Hwlen & _).
  apply wp_bind. apply wp_arr_set; [lia|]. apply wp_bind. apply wp_arr_set; [lia|]. apply wp_ret.
  assert (region_ok (mk_region base size MemblockType.Usable)) by (unfold region_ok; simpl; lia).
  unfold memory_regions, all_memory_regions, reserved_regions. simpl.
  rewrite !take_S_insert by lia.
  split; [split; simpl; [by apply table_push|done|by apply table_push]|].
  by repeat split; try lia.
Qed.

Lemma add_reserved_spec mb base size kind :
  memblock_ok mb → 0 ≤ base → 0 ≤ size →
  wp (add_reserved mb base size kind) (λ '(mb', r),
    memblock_ok mb' ∧
    match r with
    | Ok _ => region_arg_ok base size ∧ is_reserved kind ∧
        reserved_regions mb' = reserved_regions mb ++ [mk_region base size kind] ∧
        memory_regions mb' = memory_regions mb ∧
        all_memory_regions mb' = all_memory_regions mb ∧
        mem_cnt mb' = mem_cnt mb ∧ raw_memory_cnt mb' = raw_memory_cnt mb ∧
        res_cnt mb' = S (res_cnt mb)
    | Err e => mb' = mb ∧
        (e = InvalidKind ∧ kind = MemblockType.Usable ∨ e = ZeroSize ∧ size = 0 ∨
         e = Overflow ∧ u64_max < base + size ∨
         e = OutOfSlots ∧ (MAX_MEMBLOCK_REGIONS ≤ res_cnt mb)%nat)
    end).
Proof.
  intros Hok Hb Hs. destruct (Hok) as [Hm Hr Hw]. unfold add_reserved.
  destruct (MemblockType.is_reserved_kind kind) eqn:Hk; cbn [negb].
  2:{ apply wp_ret. split; [done|]. split; [done|]. left. by destruct kind. }
  destruct (Z.eqb_spec size 0); [apply wp_ret; split; [done|]; split; [done|]; eauto 10|].
  unfold checked_add64. destruct (Z.leb_spec (base + size) u64_max); [|apply wp_ret; split; [done|]; split; [done|]; eauto 10].
  destruct (Nat.leb_spec MAX_MEMBLOCK_REGIONS (res_cnt mb)); [apply wp_ret; split; [done|]; split; [done|]; eauto 10|].
  apply wp_bind. apply wp_sub64; [lia|]. replace (base + size - base) with size by lia.
  destruct (Hr) as (Hrlen & _). apply wp_bind. apply wp_arr_set; [lia|]. apply wp_ret.
  assert (region_ok (mk_region base size kind)) by (unfold region_ok; simpl; lia).
  unfold memory_regions, all_memory_regions, reserved_regions. simpl.
  rewrite !take_S_insert by lia.
  split; [split; simpl; [done|by apply table_push|done]|].
  by repeat split; try lia.
Qed.

(** ** Statistics do not overflow

    Physical addresses on amd64 have at most 52 bits; below that bound the
    byte counters of [collect_memblock_stats] stay within [u64]. *)

Definition PHYS_LIMIT : Z := 2 ^ 52.

Definition sum_sizes (l : list MemblockRegion) : Z := foldr (λ r acc, mr_size r + acc) 0 l.

Lemma sum_sizes_app l1 l2 : sum_sizes (l1 ++ l2) = sum_sizes l1 + sum_sizes l2.
Proof. induction l1 as [|r l1 IH]; simpl; [done|]. unfold sum_sizes in *. rewrite IH. lia. Qed.

Lemma sum_sizes_nonneg l : Forall region_live l → 0 ≤ sum_sizes l.
Proof.
  induction 1 as [|r l [Hr _] Hl IH]; simpl; [done|]. unfold region_ok in Hr. lia.
Qed.

Lemma sum_sizes_bound l b B :
  StronglySorted before l → Forall region_live l →
  Forall (λ r, b ≤ mr_base r) l → Forall (λ r, mr_end r ≤ B) l → b ≤ B →
  sum_sizes l ≤ B - b.
Proof.
  intros Hs. revert b. induction Hs as [|r l Hs IH Hb]; intros b Hlive Hlow Hup HbB; simpl; [lia|].
  inversion Hlive as [|?? Hr Hlive']; inversion Hlow as [|?? Hrb Hlow'];
    inversion Hup as [|?? Hre Hup']; subst. pose proof (region_live_end r Hr) as [He _].
  assert (sum_sizes l ≤ B - mr_end r); [|lia].
  apply IH; [done| |done|done]. eapply Forall_impl; [exact Hb|]. unfold before. simpl. lia.
Qed.

Lemma normalized_sum_bound l B :
  StronglySorted before l → Forall region_live l → Forall (λ r, mr_end r ≤ B) l → 0 ≤ B →
  sum_sizes l ≤ B.
Proof.
  intros Hs Hl Hu HB. replace B with (B - 0) by lia.
  apply sum_sizes_bound; [done|done| |done|done].
  eapply Forall_impl; [exact Hl|]. intros r [Hr _]. unfold region_ok in Hr. lia.
Qed.

Lemma overlap_sum_spec r l B rb :
  StronglySorted before l → Forall region_live l → Forall (λ r, mr_end r ≤ B) l →
  0 ≤ rb → 0 ≤ B → rb + B ≤ u64_max →
  wp (for_each (λ m rb,
       let lo := Z.max (mr_base r) (mr_base m) in
       let hi := Z.min (mr_end r) (mr_end m) in
       if lo <? hi then d ← sub64 hi lo; add64 rb d else Ret rb) l rb)
     (λ rb', rb ≤ rb' ≤ rb + B).
Proof.
  intros Hs Hl Hu Hrb HB Hmax. pose proof (normalized_sum_bound l B Hs Hl Hu HB) as HsB.
  apply (wp_for_each _ _ _ (λ done rb', rb ≤ rb' ≤ rb + sum_sizes done)).
  - simpl. lia.
  - intros done m rest rb' -> Hrb'. rewrite sum_sizes_app in *. simpl in *.
    apply Forall_app in Hl as [Hd Hl]. inversion Hl as [|?? Hm Hrest]; subst.
    pose proof (sum_sizes_nonneg rest Hrest). pose proof (region_live_end m Hm) as [He ?].
    destruct (Z.ltb_spec (Z.max (mr_base r) (mr_base m)) (Z.min (mr_end r) (mr_end m))).
    + apply wp_bind. apply wp_sub64; [lia|]. apply wp_add64; [lia|]. lia.
    + apply wp_ret. lia.
  - intros rb' ?. lia.
Qed.

Lemma collect_memblock_stats_spec mb :
  memblock_ok mb → normalized mb →
  Forall (λ r, mr_end r ≤ PHYS_LIMIT) (memory_regions mb) →
  Forall (λ r, mr_end r ≤ PHYS_LIMIT) (all_memory_regions mb) →
  wp (collect_memblock_stats mb) (λ st,
    usable_region_count st = mem_cnt mb ∧
    usable_bytes st = sum_sizes (memory_regions mb)).
Proof.
  intros Hok Hn Hmem Hraw. unfold collect_memblock_stats. destruct Hn as [Hml Hms _ _ Hwl Hws].
  pose proof (normalized_sum_bound _ PHYS_LIMIT Hms Hml Hmem ltac:(done)) as HsB.
  apply wp_bind.
  apply (wp_for_each _ _ _ (λ done '(ub, mn, mx), ub = sum_sizes done)).
  - done.
  - intros done m rest [[ub mn] mx] Heq ->. apply wp_bind. rewrite sum_sizes_app. simpl.
    rewrite Heq, sum_sizes_app in HsB. simpl in HsB. rewrite Heq in Hml.
    apply Forall_app in Hml as [_ Hml]. inversion Hml as [|?? Hm Hrest]; subst.
    pose proof (sum_sizes_nonneg rest Hrest). unfold PHYS_LIMIT, u64_max in *.
    apply wp_add64; [unfold u64_max; lia|]. apply wp_ret. lia.
  - intros [[ub mn] mx] ->. apply wp_bind.
    apply (wp_for_each _ _ _ (λ done rb, 0 ≤ rb ≤ Z.of_nat (length done) * PHYS_LIMIT)).
    + simpl. lia.
    + intros done r rest rb Heq Hrb.
      assert (length done < 64)%nat as Hlen.
      { apply (f_equal length) in Heq. rewrite length_app in Heq. simpl in Heq.
        destruct (ok_reserved mb Hok) as (Hrl & Hrc & _).
        unfold reserved_regions, MAX_MEMBLOCK_REGIONS in *. rewrite length_take in Heq. lia. }
      eapply wp_mono; [apply (overlap_sum_spec r _ PHYS_LIMIT); try done;
        unfold PHYS_LIMIT, u64_max in *; lia|].
      intros rb' Hrb'. rewrite length_app. simpl. unfold PHYS_LIMIT in *. lia.
    + intros rb _. by apply wp_ret.
Qed.

(** ** The bootloader memory map *)

Definition kind_of_entry (t : EntryType.t) : MemblockType.t :=
  match t with
  | EntryType.USABLE => MemblockType.Usable
  | EntryType.ACPI_RECLAIMABLE => MemblockType.AcpiReclaim
  | EntryType.BOOTLOADER_RECLAIMABLE => MemblockType.BootloaderReclaimable
  | EntryType.ACPI_NVS | EntryType.OTHER => MemblockType.Reserved
  end.

Definition entry_region (e : Entry) : MemblockRegion :=
  mk_region (entry_base e) (entry_length e) (kind_of_entry (entry_type e)).

Definition usable_entries (mmap : list Entry) : list Entry :=
  filter (λ e, entry_type e = EntryType.USABLE) mmap.
Definition other_entries (mmap : list Entry) : list Entry :=
  filter (λ e, entry_type e ≠ EntryType.USABLE) mmap.

Definition in_entry (e : Entry) (a : Z) : Prop :=
  entry_base e ≤ a < entry_base e + entry_length e.

(** What the code expects of the bootloader: non-empty entries within the
    physical address space, at most 64 of each sort. *)
Record mmap_ok (mmap : list Entry) : Prop := {
  mmap_entries : Forall (λ e, 0 ≤ entry_base e ∧ 0 < entry_length e ∧
                              entry_base e + entry_length e ≤ PHYS_LIMIT) mmap;
  mmap_usable : (length (usable_entries mmap) ≤ MAX_MEMBLOCK_REGIONS)%nat;
  mmap_other : (length (other_entries mmap) ≤ MAX_MEMBLOCK_REGIONS)%nat
}.

(** The tables hold exactly the entries seen so far. *)
Record loaded (mmap : list Entry) (mb : Memblock) : Prop := {
  loaded_ok : memblock_ok mb;
  loaded_mem : memory_regions mb = entry_region <$> usable_entries mmap;
  loaded_raw : all_memory_regions mb = entry_region <$> usable_entries mmap;
  loaded_res : reserved_regions mb = entry_region <$> other_entries mmap;
  loaded_mem_cnt : mem_cnt mb = length (usable_entries mmap);
  loaded_raw_cnt : raw_memory_cnt mb = length (usable_entries mmap);
  loaded_res_cnt : res_cnt mb = length (other_entries mmap)
}.

Lemma loaded_new : loaded [] memblock_new.
Proof.
  assert (∀ P, table_ok P (replicate MAX_MEMBLOCK_REGIONS region_empty) 0) as Ht.
  { intros P. split; [done|]. split; [unfold MAX_MEMBLOCK_REGIONS; lia|]. by rewrite take_0. }
  by split.
Qed.

Lemma add_entry_loaded done e mb :
  loaded done mb → mmap_ok (done ++ [e]) →
  wp (add_entry e mb) (λ '(mb', r), r = Ok () ∧ loaded (done ++ [e]) mb').
Proof.
  intros [Hok Hm Hw Hr Hmc Hwc Hrc] [He Hu Ho]. apply Forall_app in He as [_ He].
  inversion He as [|?? (Hb & Hl & Hlim) _]; subst. unfold PHYS_LIMIT in Hlim.
  unfold usable_entries, other_entries in *. rewrite filter_app, length_app in Hu, Ho.
  assert (entry_base e + entry_length e ≤ u64_max) as Hmax by (unfold u64_max; lia).
  assert (entry_region e = mk_region (entry_base e) (entry_length e) (kind_of_entry (entry_type e)))
    as HE by done.
  unfold add_entry. destruct (entry_type e) eqn:Ht; simpl in HE.
  1: rewrite (filter_cons_True _ e) in Hu by done; simpl in Hu;
     eapply wp_mono; [apply (add_memory_spec mb); [done|lia|lia]|].
  2-5: rewrite (filter_cons_True _ e) in Ho by congruence; simpl in Ho;
     eapply wp_mono; [apply (add_reserved_spec mb); [done|lia|lia]|].
  1: intros [mb' [[]|err]] [Hok' H]; [|exfalso; naive_solver lia].
  2-5: intros [mb' [[]|err]] [Hok' H]; [|exfalso; naive_solver lia].
  all: cbv zeta in H; destruct_and! H; split; [done|]; split;
    unfold usable_entries, other_entries; [done|..];
    rewrite filter_app, ?fmap_app, ?length_app;
    first [rewrite (filter_cons_True _ e) by congruence
          |rewrite (filter_cons_False _ e) by naive_solver congruence];
    simpl; rewrite ?app_nil_r, ?HE; (congruence || lia).
Qed.

Lemma mmap_ok_prefix l1 l2 : mmap_ok (l1 ++ l2) → mmap_ok l1.
Proof.
  unfold usable_entries, other_entries. intros [He Hu Ho].
  unfold usable_entries, other_entries in *. rewrite filter_app, length_app in Hu, Ho.
  apply Forall_app in He as [He _]. split; [done|unfold usable_entries; lia|unfold other_entries; lia].
Qed.

Lemma in_entry_region mmap e a :
  mmap_ok mmap → e ∈ mmap → in_region (entry_region e) a ↔ in_entry e a.
Proof.
  intros [He _ _] Hin. rewrite Forall_forall in He. pose proof (He _ Hin).
  unfold in_region, in_entry, mr_end, sat_add64, u64_max, PHYS_LIMIT in *. simpl. lia.
Qed.

Lemma covers_entries l (P : Entry → Prop) `{∀ e, Decision (P e)} :
  mmap_ok l →
  ∀ a, covers (entry_region <$> filter P l) a ↔ ∃ e, e ∈ l ∧ P e ∧ in_entry e a.
Proof.
  intros Hl a. unfold covers. split.
  - intros (r & (e & -> & [HP He]%list_elem_of_filter)%list_elem_of_fmap & Ha). exists e.
    split; [done|]. split; [done|]. by eapply in_entry_region.
  - intros (e & He & HP & Ha). exists (entry_region e).
    split; [|by eapply in_entry_region]. apply list_elem_of_fmap. exists e.
    split; [done|]. by apply list_elem_of_filter.
Qed.

(** Live regions inside a bounded address set end below the bound. *)
Lemma covers_bound l B :
  Forall region_live l → (∀ a, covers l a → a < B) → Forall (λ r, mr_end r ≤ B) l.
Proof.
  intros Hl HB. rewrite Forall_forall in Hl |- *. intros r Hr.
  pose proof (Hl _ Hr) as [Hok Hpos]. unfold region_ok in Hok.
  assert (mr_end r - 1 < B); [|lia].
  apply HB. exists r. split; [done|]. unfold in_region, mr_end, sat_add64 in *. lia.
Qed.

(** The address is usable memory according to the map. *)
Definition mmap_usable_at (mmap : list Entry) (a : Z) : Prop :=
  (∃ e, e ∈ mmap ∧ entry_type e = EntryType.USABLE ∧ in_entry e a) ∧
  ¬ (∃ e, e ∈ mmap ∧ entry_type e ≠ EntryType.USABLE ∧ in_entry e a).

Lemma load_entries_spec mmap :
  mmap_ok mmap →
  wp (for_each_ret (λ e mb,
        '(mb, r) ← add_entry e mb;
        Ret (match r with Ok _ => inl mb | Err err => inr err end)) mmap memblock_new)
     (λ r, ∃ mb, r = inl mb ∧ loaded mmap mb).
Proof.
  intros Hmm. apply (wp_for_each_ret _ _ _ loaded).
  - apply loaded_new.
  - intros done e rest mb -> Hl. apply wp_bind.
    eapply wp_mono; [apply add_entry_loaded; [done|]|].
    { apply (mmap_ok_prefix _ rest). by rewrite <-app_assoc. }
    intros [mb' r] [-> Hl']. by apply wp_ret.
  - eauto.
Qed.

Lemma mmap_addr_bound mmap a e :
  mmap_ok mmap → e ∈ mmap → in_entry e a → a < PHYS_LIMIT.
Proof.
  intros [He _ _] Hin Ha. rewrite Forall_forall in He.
  pose proof (He _ Hin). unfold in_entry in Ha. lia.
Qed.

Lemma initialize_spec mmap :
  mmap_ok mmap →
  wp (initialize_memblock_from_mm mmap) (λ r,
    match r with
    | Ok mb => memblock_ok mb ∧ normalized mb ∧
        (∀ a, covers (memory_regions mb) a ↔ mmap_usable_at mmap a) ∧
        (∀ a, covers (all_memory_regions mb) a ↔
              ∃ e, e ∈ mmap ∧ entry_type e = EntryType.USABLE ∧ in_entry e a) ∧
        (∀ a, covers (reserved_regions mb) a ↔
              ∃ e, e ∈ mmap ∧ entry_type e ≠ EntryType.USABLE ∧ in_entry e a)
    | Err e => e = OutOfSlots
    end).
Proof.
  intros Hmm. unfold initialize_memblock_from_mm.
  apply wp_bind. eapply wp_mono; [by apply load_entries_spec|].
  intros r (mb & -> & [Hok Hm Hw Hr _ _ _]).
  apply wp_bind. eapply wp_mono; [by apply normalize_spec|].
  intros [mb' [[]|err]] (Hok' & Hr' & Hw' & H); [|by destruct H as [-> _]].
  destruct H as [Hn Hc].
  setoid_rewrite Hr in Hr'. setoid_rewrite Hw in Hw'. setoid_rewrite Hm in Hc.
  setoid_rewrite Hr in Hc. unfold usable_entries, other_entries in *.
  setoid_rewrite (covers_entries mmap _ Hmm) in Hr'.
  setoid_rewrite (covers_entries mmap _ Hmm) in Hw'.
  setoid_rewrite (covers_entries mmap _ Hmm) in Hc.
  apply wp_bind. eapply wp_mono; [apply collect_memblock_stats_spec; try done|].
  - apply covers_bound; [apply Hn|]. intros a [(e & ? & _ & ?) _]%Hc. by eapply mmap_addr_bound.
  - apply covers_bound; [apply Hn|]. intros a (e & ? & _ & ?)%Hw'. by eapply mmap_addr_bound.
  - intros st _. apply wp_ret. done.
Qed.

(** ** Properties *)

(** Building the memory tables from the bootloader's map terminates without
    a panic; it either reports that the fixed tables are too small, or yields
    normalised tables in which an address is usable memory exactly when some
    usable entry of the map contains it and no other entry does. *)
Theorem initialize_memblock_correct mmap :
  mmap_ok mmap →
  wp (initialize_memblock_from_mm mmap) (λ r,
    match r with
    | Ok mb => memblock_ok mb ∧ normalized mb ∧
        (∀ a, covers (memory_regions mb) a ↔ mmap_usable_at mmap a)
    | Err e => e = OutOfSlots
    end).
Proof.
  intros Hmm. eapply wp_mono; [by apply initialize_spec|].
  intros [mb|e]; [|done]. tauto.
Qed.

(** A map with a reserved hole inside a usable entry and an ACPI entry that
    overlaps the end of another. *)
Definition sample_mmap : list Entry :=
  [mk_entry 4096 0x9E000 EntryType.USABLE; mk_entry 0x9F000 4096 EntryType.OTHER;
   mk_entry 0x100000 0x700000 EntryType.USABLE;
   mk_entry 0x200000 0x1000 EntryType.OTHER;
   mk_entry 0x7FF000 0x2000 EntryType.ACPI_RECLAIMABLE].

Lemma sample_mmap_ok : mmap_ok sample_mmap.
Proof.
  split; [|vm_compute; lia..]. unfold sample_mmap, PHYS_LIMIT.
  repeat (apply Forall_cons; split; [simpl; lia|]). by apply Forall_nil.
Qed.

Lemma initialize_memblock_correct_witness :
  mmap_ok sample_mmap ∧
  wp (initialize_memblock_from_mm sample_mmap) (λ r,
    match r with
    | Ok mb => memblock_ok mb ∧ normalized mb ∧
        (∀ a, covers (memory_regions mb) a ↔ mmap_usable_at sample_mmap a)
    | Err e => e = OutOfSlots
    end).
Proof. split; [apply sample_mmap_ok | apply initialize_memblock_correct, sample_mmap_ok]. Defined.

(** C25: [normalize] computes set subtraction.  From any well-formed tables it
    returns without a panic; on success usable memory is the old usable memory
    minus the reserved ranges, sorted and with gaps between the regions, while
    the reserved and raw tables cover what they covered; on failure (only
    [OutOfSlots]) no table has changed its coverage. *)
Theorem normalize_correct mb :
  memblock_ok mb →
  wp (normalize mb) (λ '(mb', r),
    memblock_ok mb' ∧
    (∀ a, covers (reserved_regions mb') a ↔ covers (reserved_regions mb) a) ∧
    (∀ a, covers (all_memory_regions mb') a ↔ covers (all_memory_regions mb) a) ∧
    match r with
    | Ok _ => normalized mb' ∧
        ∀ a, covers (memory_regions mb') a ↔
             covers (memory_regions mb) a ∧ ¬ covers (reserved_regions mb) a
    | Err e => e = OutOfSlots ∧
        ∀ a, covers (memory_regions mb') a ↔ covers (memory_regions mb) a
    end).
Proof. apply normalize_spec. Qed.

(** The tables after loading the sample map, before [normalize]. *)
Definition sample_memblock : Memblock :=
  match for_each_ret (λ e mb,
          '(mb, r) ← add_entry e mb;
          Ret (match r with Ok _ => inl mb | Err err => inr err end)) sample_mmap memblock_new
  with Ret (inl mb) => mb | _ => memblock_new end.

Lemma sample_memblock_ok : memblock_ok sample_memblock.
Proof.
  unfold sample_memblock.
  destruct (wp_elim _ _ (load_entries_spec _ sample_mmap_ok)) as (r & -> & mb & -> & Hmb).
  apply Hmb.
Qed.

Lemma normalize_correct_witness :
  memblock_ok sample_memblock ∧
  wp (normalize sample_memblock) (λ '(mb', r), memblock_ok mb').
Proof.
  split; [apply sample_memblock_ok|].
  eapply wp_mono; [apply (normalize_correct sample_memblock), sample_memblock_ok|].
  intros [mb' r] H. apply H.
Defined.

(** [merge_overlaps_same_kind] only merges neighbours of the table sorted by
    base, so reserved ranges of one kind that overlap stay apart when a range of
    another kind starts between them: here [0,100) and [30,50) of kind Reserved
    survive [normalize] side by side. *)
Theorem same_kind_overlap_survives :
  ∃ mb', (('(mb, _) ← add_reserved memblock_new 0 100 MemblockType.Reserved;
           '(mb, _) ← add_reserved mb 10 10 MemblockType.AcpiReclaim;
           '(mb, _) ← add_reserved mb 30 20 MemblockType.Reserved;
           '(mb, _) ← normalize mb; Ret mb) = Ret mb') ∧
    reserved_regions mb' =
      [mk_region 0 100 MemblockType.Reserved; mk_region 10 10 MemblockType.AcpiReclaim;
       mk_region 30 20 MemblockType.Reserved].
Proof. eexists. split; [vm_compute; reflexivity|]. vm_compute. reflexivity. Qed.
