(* ===== verification/Frame.v ===== *)
(** * Page frames

    The per-frame metadata of kernel/src/arch/amd64/memory/pmm (sparsemem.rs
    [Frame]/[FrameState], buddy.rs [BuddyTag], zones_manager.rs [ZoneId]) and
    the interface [FrameStore] through which the buddy allocator and the zone
    manager reach it.  The sparse memory model (file Sparsemem) is the
    implementation of the interface. *)
From S2P Require Import Prelude.

(** [Pfn::MAX], the null link of the free lists. *)
Definition INVALID_PFN : Z := u64_max.

Module FrameState.
Inductive t := Absent | Usable | Reserved.
#[export] Instance eq_dec : EqDecision t.
Proof. solve_decision. Defined.
End FrameState.
Export (hints) FrameState.

Module BuddyTag.
Inductive t := Unused | Free | Allocated.
#[export] Instance eq_dec : EqDecision t.
Proof. solve_decision. Defined.
End BuddyTag.
Export (hints) BuddyTag.

Module ZoneId.
Inductive t := Dma | Normal | High.
#[export] Instance eq_dec : EqDecision t.
Proof. solve_decision. Defined.

Definition idx (z : t) : nat := match z with Dma => 0 | Normal => 1 | High => 2 end.
End ZoneId.
Export (hints) ZoneId.

Record Frame := mk_frame {
  f_state : FrameState.t;
  f_order : nat;
  f_tag : BuddyTag.t;
  f_zone : ZoneId.t;
  f_next : Z;
  f_prev : Z
}.

(** [Frame::absent()]. *)
Definition frame_absent : Frame :=
  mk_frame FrameState.Absent 0 BuddyTag.Unused ZoneId.Normal INVALID_PFN INVALID_PFN.

(** Field assignments. *)
Definition set_state (s : FrameState.t) (f : Frame) : Frame :=
  mk_frame s (f_order f) (f_tag f) (f_zone f) (f_next f) (f_prev f).
Definition set_zone_id (z : ZoneId.t) (f : Frame) : Frame :=
  mk_frame (f_state f) (f_order f) (f_tag f) z (f_next f) (f_prev f).
Definition set_next (n : Z) (f : Frame) : Frame :=
  mk_frame (f_state f) (f_order f) (f_tag f) (f_zone f) n (f_prev f).
Definition set_prev (p : Z) (f : Frame) : Frame :=
  mk_frame (f_state f) (f_order f) (f_tag f) (f_zone f) (f_next f) p.
Definition set_tag (t : BuddyTag.t) (f : Frame) : Frame :=
  mk_frame (f_state f) (f_order f) t (f_zone f) (f_next f) (f_prev f).
(** [f.order = order as u8]. *)
Definition set_order (o : nat) (f : Frame) : Frame :=
  mk_frame (f_state f) (o mod 256) (f_tag f) (f_zone f) (f_next f) (f_prev f).

(** ** The interface to frame metadata

    [fs_get m p] is [pfn_to_frame(p)]: [None] when the frame's section is not
    present.  [fs_set] writes through the pointer it returns.  [fs_layout] is
    whatever else the store holds, which such a write leaves alone. *)
Class FrameStore (M : Type) := {
  fs_shape : Type;
  fs_get : M → Z → option Frame;
  fs_set : M → Z → Frame → M;
  fs_layout : M → fs_shape;
  fs_layout_set m p f : fs_layout (fs_set m p f) = fs_layout m;
  fs_get_set_eq m p f : is_Some (fs_get m p) → fs_get (fs_set m p f) p = Some f;
  fs_get_set_ne m p q f : p ≠ q → fs_get (fs_set m p f) q = fs_get m q
}.

Section access.
Context {M : Type} {FS : FrameStore M}.

(** [Buddy::frame_mut_unchecked]: the pointer, or a panic. *)
Definition frame_get (m : M) (p : Z) : outcome Frame := unwrap (fs_get m p).
(** A write through that pointer. *)
Definition frame_upd (m : M) (p : Z) (g : Frame → Frame) : outcome M :=
  f ← frame_get m p; Ret (fs_set m p (g f)).

Lemma wp_frame_get m p f (Q : Frame → Prop) :
  fs_get m p = Some f → Q f → wp (frame_get m p) Q.
Proof. unfold frame_get. by intros ->. Qed.

Lemma wp_frame_upd m p f g (Q : M → Prop) :
  fs_get m p = Some f → Q (fs_set m p (g f)) → wp (frame_upd m p g) Q.
Proof. intros Hp HQ. unfold frame_upd. apply wp_bind. by eapply wp_frame_get. Qed.

(** Reading back after a write. *)
Lemma fs_get_set m p q f g :
  fs_get m p = Some f →
  fs_get (fs_set m p g) q = if decide (q = p) then Some g else fs_get m q.
Proof.
  intros Hp. case_decide; subst; [|by rewrite fs_get_set_ne].
  by rewrite fs_get_set_eq by eauto.
Qed.

(** The frame is present and usable. *)
Definition usable (m : M) (p : Z) : Prop :=
  ∃ f, fs_get m p = Some f ∧ f_state f = FrameState.Usable.

(** Everything but the list links. *)
Definition f_core (f : Frame) : FrameState.t * nat * BuddyTag.t * ZoneId.t :=
  (f_state f, f_order f, f_tag f, f_zone f).
Definition cores (m : M) (p : Z)
    : fs_shape * option (FrameState.t * nat * BuddyTag.t * ZoneId.t) :=
  (fs_layout m, f_core <$> fs_get m p).

(** The block headed by a frame, as its tag records it. *)
Definition head_of (f : Frame) : option (BuddyTag.t * nat) :=
  match f_tag f with
  | BuddyTag.Unused => None
  | t => Some (t, f_order f)
  end.
Definition heads (m : M) (p : Z) : option (BuddyTag.t * nat) := fs_get m p ≫= head_of.

(** What the buddy allocator never changes. *)
Definition statics (m : M) (p : Z) : fs_shape * option (FrameState.t * ZoneId.t) :=
  (fs_layout m, (λ f, (f_state f, f_zone f)) <$> fs_get m p).

Lemma cores_heads m m' p q : cores m' p = cores m q → heads m' p = heads m q.
Proof.
  unfold cores, heads, head_of, f_core. intros [= _ Hc].
  destruct (fs_get m' p), (fs_get m q); simpl in *; try done.
  injection Hc as _ Ho Ht _. by rewrite Ht, Ho.
Qed.

Lemma cores_statics m m' p : cores m' p = cores m p → statics m' p = statics m p.
Proof.
  unfold cores, statics, f_core. intros [= Hl Hc]. f_equal; [done|].
  destruct (fs_get m' p), (fs_get m p); simpl in *; try done. injection Hc. congruence.
Qed.

Lemma statics_usable m m' p : statics m' p = statics m p → usable m p → usable m' p.
Proof.
  unfold statics, usable. intros [= _ Hs] (f & Hf & Hu). rewrite Hf in Hs. simpl in Hs.
  destruct (fs_get m' p) as [f'|]; simpl in Hs; [|done]. exists f'. split; [done|]. congruence.
Qed.
End access.
