(* ===== verification/Bump.v ===== *)
(** * The boot-time bump allocator

    Models kernel/src/arch/amd64/memory/pmm/bump_alloc.rs: a pointer that only
    moves forward inside a fixed range. *)
From Stdlib Require Import Sorting.Sorted.
From S2P Require Import Prelude Misc.

Record BumpState := mk_bump {
  bump_end : Z;
  bump_next : Z
}.

Definition bump_init (start end_ : Z) : outcome BumpState :=
  _ ← assert (start <? end_);
  Ret (mk_bump end_ start).

(** [usize::is_power_of_two]. *)
Definition is_power_of_two (x : Z) : bool := (0 <? x) && (Z.land x (x - 1) =? 0).

(** [NonNull::new]. *)
Definition nonnull (p : Z) : option Z := if p =? 0 then None else Some p.

Definition bump_alloc (s : BumpState) (size align : Z) : outcome (BumpState * option Z) :=
  if size =? 0 then Ret (s, None)
  else
    let align := Z.max align 1 in
    if negb (is_power_of_two align) then Ret (s, None)
    else
      aligned ← align_up (bump_next s) align;
      match checked_add64 aligned size with
      | None => Ret (s, None)
      | Some new_next =>
          if bump_end s <? new_next then Ret (s, None)
          else Ret (mk_bump (bump_end s) new_next, nonnull aligned)
      end.

(** [core::ptr::write_bytes(p, 0, n)] on byte-addressed memory. *)
Definition zero_bytes (p n : Z) (mem : Z → Z) : Z → Z :=
  λ a, if (p <=? a) && (a <? p + n) then 0 else mem a.

Definition bump_alloc_zeroed (s : BumpState) (mem : Z → Z) (size align : Z)
    : outcome (BumpState * (Z → Z) * option Z) :=
  '(s, r) ← bump_alloc s size align;
  match r with
  | None => Ret (s, mem, None)
  | Some p => Ret (s, zero_bytes p size mem, Some p)
  end.

(** ** Specification *)

Lemma is_power_of_two_pow k : 0 ≤ k → is_power_of_two (2 ^ k) = true.
Proof.
  intros Hk. unfold is_power_of_two. pose proof (Z.pow_pos_nonneg 2 k ltac:(lia) Hk).
  rewrite (proj2 (Z.ltb_lt _ _)) by lia. simpl. apply Z.eqb_eq.
  replace (2 ^ k - 1) with (Z.ones k) by (rewrite Z.ones_equiv; lia).
  rewrite Z.land_ones by lia. apply Z.mod_same. lia.
Qed.

(** Bumping with alignment [2^k]: the result starts at the next aligned address;
    the allocator refuses only what does not fit. *)
Lemma bump_alloc_spec s size k :
  0 < bump_next s → 0 ≤ k < 64 → bump_next s + 2 ^ k ≤ u64_max → 0 < size →
  wp (bump_alloc s size (2 ^ k)) (λ '(s', r),
    let p := align_up_to (bump_next s) (2 ^ k) in
    if decide (p + size ≤ Z.min (bump_end s) u64_max)
    then r = Some p ∧ s' = mk_bump (bump_end s) (p + size)
    else r = None ∧ s' = s).
Proof.
  intros Hn Hk Hmax Hs. unfold bump_alloc. rewrite (proj2 (Z.eqb_neq _ _)) by lia.
  pose proof (Z.pow_pos_nonneg 2 k ltac:(lia) ltac:(lia)). rewrite Z.max_l by lia.
  rewrite is_power_of_two_pow by lia. cbn [negb].
  apply wp_bind, wp_align_up; [lia..|].
  pose proof (align_up_to_spec (bump_next s) (2 ^ k) ltac:(lia)) as Hp.
  set (p := align_up_to _ _) in *. unfold checked_add64.
  destruct (Z.leb_spec (p + size) u64_max); [|apply wp_ret; rewrite decide_False by lia; done].
  destruct (Z.ltb_spec (bump_end s) (p + size)).
  - apply wp_ret. rewrite decide_False by lia. done.
  - apply wp_ret. rewrite decide_True by lia. unfold nonnull.
    rewrite (proj2 (Z.eqb_neq _ _)) by lia. done.
Qed.

(** ** Sequences of requests *)

(** A request is a size and the exponent of its alignment; the blocks obtained
    are listed with the request they answer. *)
Fixpoint bump_all (s : BumpState) (reqs : list (Z * Z)) : outcome (list (Z * (Z * Z))) :=
  match reqs with
  | [] => Ret []
  | (size, k) :: reqs =>
      '(s, r) ← bump_alloc s size (2 ^ k);
      l ← bump_all s reqs;
      Ret (match r with Some p => (p, (size, k)) :: l | None => l end)
  end.

Definition request_ok (q : Z * Z) : Prop := 0 < q.1 ∧ 0 ≤ q.2 ≤ 12.

(** One block lies entirely below the other. *)
Definition below (x y : Z * (Z * Z)) : Prop := x.1 + x.2.1 ≤ y.1.

Definition block_good (lo hi : Z) (x : Z * (Z * Z)) : Prop :=
  lo ≤ x.1 ∧ x.1 + x.2.1 ≤ hi ∧ x.1 mod 2 ^ x.2.2 = 0.

Lemma bump_all_spec s reqs :
  0 < bump_next s → bump_next s ≤ bump_end s → bump_end s + 4096 ≤ u64_max →
  Forall request_ok reqs →
  wp (bump_all s reqs) (λ l,
    Forall (block_good (bump_next s) (bump_end s)) l ∧ StronglySorted below l).
Proof.
  intros Hn Hle He Hreqs. revert s Hn Hle He.
  induction Hreqs as [|[size k] reqs [Hsize Hk] Hreqs IH]; intros s Hn Hle He; simpl in *.
  { apply wp_ret. split; constructor. }
  assert (2 ^ k ≤ 2 ^ 12) by (apply Z.pow_le_mono_r; lia).
  pose proof (Z.pow_pos_nonneg 2 k ltac:(lia) ltac:(lia)).
  apply wp_bind. eapply wp_mono; [apply (bump_alloc_spec s size k); lia|].
  intros [s' r]. simpl. pose proof (align_up_to_spec (bump_next s) (2 ^ k) ltac:(lia)) as [Hp Hal].
  set (p := align_up_to _ _) in *. case_decide as Hfit.
  - intros [-> ->]. apply wp_bind. eapply wp_mono; [apply IH; simpl; lia|]. simpl.
    intros l [Hg Hs]. apply wp_ret. split.
    + constructor; [by unfold block_good; simpl; lia|].
      eapply Forall_impl; [exact Hg|]. intros x (H1 & H2 & H3). unfold block_good. lia.
    + constructor; [done|]. eapply Forall_impl; [exact Hg|]. intros x (H1 & H2 & H3).
      unfold below. simpl. lia.
  - intros [-> ->]. apply wp_bind. eapply wp_mono; [apply IH; done|]. intros l Hl. by apply wp_ret.
Qed.

(** Any sequence of bump allocations runs without a panic, and the blocks it
    returns are aligned as requested, inside the allocator's range, and
    disjoint in the order they were handed out. *)
Theorem bump_allocations_disjoint s reqs :
  0 < bump_next s → bump_next s ≤ bump_end s → bump_end s + 4096 ≤ u64_max →
  Forall request_ok reqs →
  wp (bump_all s reqs) (λ l,
    Forall (block_good (bump_next s) (bump_end s)) l ∧ StronglySorted below l).
Proof. apply bump_all_spec. Qed.

Lemma bump_allocations_disjoint_witness :
  wp (bump_all (mk_bump 8192 4097) [(100, 3); (10000, 3); (64, 12)]) (λ l,
    Forall (block_good 4097 8192) l ∧ StronglySorted below l).
Proof.
  apply (bump_allocations_disjoint (mk_bump 8192 4097));
    [simpl; lia|simpl; lia|unfold u64_max; simpl; lia|].
  repeat (apply Forall_cons; split; [unfold request_ok; simpl; lia|]). by apply Forall_nil.
Defined.
