(* ===== verification/Buddy.v ===== *)
(** * The buddy allocator: operations

    Models kernel/src/arch/amd64/memory/pmm/buddy.rs.  A [Buddy] manages the
    frames [base_pfn .. base_pfn+pages): its free blocks of each order are kept
    in doubly linked lists threaded through the frame metadata, which it
    reaches through the [FrameStore] interface.  The operations return the new
    buddy record and the new store.  Their specifications are in BuddyLists
    (free lists), BuddyBlocks (block structure) and BuddySpec (operations). *)
From S2P Require Import Prelude Misc Frame.

Definition MAX_ORDER : nat := 11.

(** buddy.rs has its own [floor_log2], with a debug assertion. *)
Definition buddy_floor_log2 (x : Z) : outcome Z :=
  _ ← assert (0 <? x); floor_log2 x.

Definition max_block_order_for (start remaining : Z) : outcome nat :=
  if remaining =? 0 then Ret O
  else
    max_by_remaining ← buddy_floor_log2 remaining;
    let tz := if start =? 0 then Z.of_nat MAX_ORDER
              else Z.min (trailing_zeros start) (Z.of_nat MAX_ORDER) in
    Ret (Z.to_nat (Z.min max_by_remaining tz)).

Record Buddy := mk_buddy {
  base_pfn : Z;
  pages : Z;
  max_order : nat;
  free : list Z;
  free_pages : Z
}.

Definition set_free (l : list Z) (b : Buddy) : Buddy :=
  mk_buddy (base_pfn b) (pages b) (max_order b) l (free_pages b).
Definition set_free_pages (n : Z) (b : Buddy) : Buddy :=
  mk_buddy (base_pfn b) (pages b) (max_order b) (free b) n.

Definition buddy_new (base_pfn pages : Z) : outcome Buddy :=
  max_order ← (if pages =? 0 then Ret O
               else l ← buddy_floor_log2 pages;
                    Ret (Z.to_nat (Z.min l (Z.of_nat MAX_ORDER))));
  Ret (mk_buddy base_pfn pages max_order (replicate (S MAX_ORDER) INVALID_PFN) 0).

(** [1usize << order]; a shift by 64 or more overflows. *)
Definition order_pages (order : nat) : outcome Z :=
  if (order <? 64)%nat then Ret (2 ^ Z.of_nat order) else Panic POverflow.

Definition in_range (b : Buddy) (pfn : Z) : bool :=
  (base_pfn b <=? pfn) && (pfn - base_pfn b <? pages b).

Definition local (b : Buddy) (pfn : Z) : outcome Z := sub64 pfn (base_pfn b).
Definition to_pfn (b : Buddy) (l : Z) : outcome Z := add64 (base_pfn b) l.

Definition buddy_of (b : Buddy) (head : Z) (order : nat) : outcome (option Z) :=
  l ← local b head;
  n ← order_pages order;
  let buddy := Z.lxor l n in
  e ← add64 buddy n;
  if pages b <? e then Ret None
  else p ← to_pfn b buddy; Ret (Some p).

Section operations.
Context {M : Type} {FS : FrameStore M}.

Definition is_free_head (b : Buddy) (m : M) (pfn : Z) (order : nat) : bool :=
  if negb (in_range b pfn) then false
  else match fs_get m pfn with
  | None => false
  | Some f => bool_decide (f_tag f = BuddyTag.Free) && (f_order f =? order)%nat
  end.

Definition reset (b : Buddy) (m : M) : outcome (Buddy * M) :=
  let b := set_free_pages 0 (set_free (replicate (S MAX_ORDER) INVALID_PFN) b) in
  m ← for_each (λ i m,
    pfn ← add64 (base_pfn b) i;
    match fs_get m pfn with
    | None => Ret m
    | Some f =>
        Ret (fs_set m pfn
          (set_prev INVALID_PFN (set_next INVALID_PFN
            (set_order 0 (set_tag BuddyTag.Unused f)))))
    end) (seqZ 0 (pages b)) m;
  Ret (b, m).

Definition push_free (b : Buddy) (m : M) (head : Z) (order : nat) : outcome (Buddy * M) :=
  old ← arr_get (free b) order;
  m ← frame_upd m head (λ f,
    set_next old (set_prev INVALID_PFN (set_order order (set_tag BuddyTag.Free f))));
  m ← (if old =? INVALID_PFN then Ret m else frame_upd m old (set_prev head));
  l ← arr_set (free b) order head;
  Ret (set_free l b, m).

Definition pop_free (b : Buddy) (m : M) (order : nat) : outcome (option Z * Buddy * M) :=
  head ← arr_get (free b) order;
  if head =? INVALID_PFN then Ret (None, b, m)
  else
    fh ← frame_get m head;
    let next := f_next fh in
    m ← frame_upd m head (λ f, set_next INVALID_PFN (set_prev INVALID_PFN f));
    l ← arr_set (free b) order next;
    m ← (if next =? INVALID_PFN then Ret m else frame_upd m next (set_prev INVALID_PFN));
    Ret (Some head, set_free l b, m).

Definition remove_free (b : Buddy) (m : M) (head : Z) (order : nat) : outcome (Buddy * M) :=
  fh ← frame_get m head;
  _ ← assert (bool_decide (f_tag fh = BuddyTag.Free) && (f_order fh =? order)%nat);
  let prev := f_prev fh in
  let next := f_next fh in
  m ← frame_upd m head (λ f, set_next INVALID_PFN (set_prev INVALID_PFN f));
  '(b, m) ← (if prev =? INVALID_PFN
             then l ← arr_set (free b) order next; Ret (set_free l b, m)
             else m ← frame_upd m prev (set_next next); Ret (b, m));
  m ← (if next =? INVALID_PFN then Ret m else frame_upd m next (set_prev prev));
  Ret (b, m).

Definition mark_block_free_head (b : Buddy) (m : M) (head : Z) (order : nat) : outcome M :=
  m ← frame_upd m head (λ f,
    set_next INVALID_PFN (set_prev INVALID_PFN (set_order order (set_tag BuddyTag.Free f))));
  n ← order_pages order;
  for_each (λ i m,
    p ← add64 head i;
    _ ← assert (in_range b p);
    f ← frame_get m p;
    _ ← assert (bool_decide (f_state f = FrameState.Usable));
    frame_upd m p (λ f,
      set_next INVALID_PFN (set_prev INVALID_PFN (set_order 0 (set_tag BuddyTag.Unused f)))))
    (seqZ 1 (n - 1)) m.

Definition mark_block_allocated (m : M) (head : Z) (order : nat) : outcome M :=
  frame_upd m head (λ f,
    set_next INVALID_PFN (set_prev INVALID_PFN (set_order order (set_tag BuddyTag.Allocated f)))).

(** One iteration of [coalesce_up]'s loop: [inr] leaves it. *)
Definition coalesce_step (st : Buddy * M * Z * nat)
    : outcome ((Buddy * M * Z * nat) + (Buddy * M)) :=
  let '(b, m, head, order) := st in
  if (order <? max_order b)%nat then
    buddy ← buddy_of b head order;
    match buddy with
    | None => Ret (inr (b, m))
    | Some buddy =>
        if negb (is_free_head b m buddy order) then Ret (inr (b, m))
        else
          '(b, m) ← remove_free b m head order;
          '(b, m) ← remove_free b m buddy order;
          lh ← local b head;
          lb ← local b buddy;
          let head := if lh <? lb then head else buddy in
          let order := S order in
          m ← mark_block_free_head b m head order;
          '(b, m) ← push_free b m head order;
          Ret (inl (b, m, head, order))
    end
  else Ret (inr (b, m)).

Definition coalesce_up (b : Buddy) (m : M) (head : Z) (order : nat) : outcome (Buddy * M) :=
  iter (S (max_order b - order)) coalesce_step (b, m, head, order).

Definition insert_block_boot (b : Buddy) (m : M) (head : Z) (order : nat)
    : outcome (Buddy * M) :=
  _ ← assert (order <=? max_order b)%nat;
  _ ← assert (in_range b head);
  m ← mark_block_free_head b m head order;
  n ← order_pages order;
  fp ← add64 (free_pages b) n;
  '(b, m) ← push_free (set_free_pages fp b) m head order;
  coalesce_up b m head order.

(** The body of [add_usable_run]'s loop. *)
Definition add_run_step (st : Buddy * M * Z * Z) : outcome ((Buddy * M * Z * Z) + (Buddy * M)) :=
  let '(b, m, p, remaining) := st in
  if 0 <? remaining then
    o ← max_block_order_for p remaining;
    let order := Nat.min o (max_order b) in
    '(b, m) ← insert_block_boot b m p order;
    step ← order_pages order;
    p ← add64 p step;
    remaining ← sub64 remaining step;
    Ret (inl (b, m, p, remaining))
  else Ret (inr (b, m)).

Definition add_usable_run (b : Buddy) (m : M) (start len : Z) : outcome (Buddy * M) :=
  if (len =? 0) || (pages b =? 0) then Ret (b, m)
  else
    let zone_start := base_pfn b in
    zone_end ← add64 (base_pfn b) (pages b);
    e ← add64 start len;
    let p_start := Z.max start zone_start in
    let p_end := Z.min e zone_end in
    if p_end <=? p_start then Ret (b, m)
    else
      remaining ← sub64 p_end p_start;
      iter (S (Z.to_nat remaining)) add_run_step (b, m, p_start, remaining).

(** One iteration of [alloc]'s splitting loop. *)
Definition split_step (head : Z) (order : nat) (st : Buddy * M * nat)
    : outcome ((Buddy * M * nat) + (Buddy * M)) :=
  let '(b, m, cur_order) := st in
  if (order <? cur_order)%nat then
    let cur_order := (cur_order - 1)%nat in
    o ← buddy_of b head cur_order;
    buddy ← unwrap o;
    m ← mark_block_free_head b m buddy cur_order;
    '(b, m) ← push_free b m buddy cur_order;
    n ← order_pages cur_order;
    fp ← add64 (free_pages b) n;
    Ret (inl (set_free_pages fp b, m, cur_order))
  else Ret (inr (b, m)).

(** [(order..=max_order).find(|o| free[o] != INVALID_PFN)]. *)
Definition find_order (b : Buddy) (order : nat) : outcome (option nat) :=
  r ← for_each_ret (λ o (_ : unit),
    h ← arr_get (free b) o;
    Ret (if h =? INVALID_PFN then inl () else inr o)) (seq order (S (max_order b) - order)) ();
  Ret (match r with inl _ => None | inr o => Some o end).

Definition alloc (b : Buddy) (m : M) (order : nat) : outcome (option Z * Buddy * M) :=
  if (max_order b <? order)%nat then Ret (None, b, m)
  else
    fo ← find_order b order;
    match fo with
    | None => Ret (None, b, m)
    | Some found_order =>
        '(oh, b, m) ← pop_free b m found_order;
        match oh with
        | None => Ret (None, b, m)
        | Some head =>
            n ← order_pages found_order;
            fp ← sub64 (free_pages b) n;
            '(b, m) ← iter (S (found_order - order)) (split_step head order)
                           (set_free_pages fp b, m, found_order);
            m ← mark_block_allocated m head order;
            Ret (Some head, b, m)
        end
    end.

(** The method [free]; the record has a field of that name. *)
Definition free_block (b : Buddy) (m : M) (head : Z) : outcome (Buddy * M) :=
  _ ← assert (in_range b head);
  fh ← frame_get m head;
  _ ← assert (bool_decide (f_tag fh = BuddyTag.Allocated));
  m ← frame_upd m head (λ f,
    set_next INVALID_PFN (set_prev INVALID_PFN (set_tag BuddyTag.Free f)));
  let order := f_order fh in
  n ← order_pages order;
  _ ← for_each (λ i (_ : unit),
    p ← add64 head i;
    f ← frame_get m p;
    assert (bool_decide (f_tag f = BuddyTag.Unused))) (seqZ 1 (n - 1)) ();
  fp ← add64 (free_pages b) n;
  '(b, m) ← push_free (set_free_pages fp b) m head order;
  coalesce_up b m head order.
End operations.
