(* ===== verification/BuddyLists.v ===== *)
(** * The free lists of the buddy allocator

    The doubly linked lists threaded through the frames: [seg m o prev l next]
    says that the frames of [l], in this order, form a well-linked segment of
    the list of order [o]; [lists b m L] says that the twelve lists of the
    buddy hold exactly the frames [L].  [push_free], [pop_free] and
    [remove_free] implement insertion at the head, removal of the head and
    removal anywhere, and touch nothing but links and the pushed head. *)
From stdpp Require Import functions.
From S2P Require Import Prelude Frame Buddy.

Definition head_or (l : list Z) (d : Z) : Z := match l with [] => d | p :: _ => p end.
Definition last_or (d : Z) (l : list Z) : Z := default d (last l).

Section lists.
Context {M : Type} {FS : FrameStore M}.

Implicit Types (m : M) (l : list Z).

Definition node (m : M) (o : nat) (p prev next : Z) : Prop :=
  p ≠ INVALID_PFN ∧
  ∃ f, fs_get m p = Some f ∧ f_tag f = BuddyTag.Free ∧ f_order f = o ∧
       f_prev f = prev ∧ f_next f = next.

Fixpoint seg (m : M) (o : nat) (prev : Z) (l : list Z) (next : Z) : Prop :=
  match l with
  | [] => True
  | p :: l => node m o p prev (head_or l next) ∧ seg m o p l next
  end.

(** ** Segments *)

Lemma head_or_app l1 l2 d : head_or (l1 ++ l2) d = head_or l1 (head_or l2 d).
Proof. by destruct l1. Qed.

Lemma last_or_cons d p l : last_or d (p :: l) = last_or p l.
Proof. unfold last_or. rewrite last_cons. by destruct (last l). Qed.

Lemma last_or_snoc d l p : last_or d (l ++ [p]) = p.
Proof. unfold last_or. by rewrite last_snoc. Qed.

Lemma seg_app m o prev l1 l2 next :
  seg m o prev (l1 ++ l2) next ↔
  seg m o prev l1 (head_or l2 next) ∧ seg m o (last_or prev l1) l2 next.
Proof.
  revert prev. induction l1 as [|p l1 IH]; intros prev; simpl.
  { unfold last_or. simpl. tauto. }
  rewrite IH, last_or_cons, head_or_app. tauto.
Qed.

Lemma seg_node m o prev l next p :
  seg m o prev l next → p ∈ l → ∃ pr nx, node m o p pr nx.
Proof.
  revert prev. induction l as [|q l IH]; intros prev; [by intros _ ?%elem_of_nil|].
  intros [Hq Hl] [->|Hp]%elem_of_cons; eauto.
Qed.

Lemma node_eq m m' o p pr nx :
  fs_get m' p = fs_get m p → node m o p pr nx → node m' o p pr nx.
Proof. unfold node. by intros ->. Qed.

(** The segment depends on its own frames only. *)
Lemma seg_frame m m' o prev l next :
  (∀ p, p ∈ l → fs_get m' p = fs_get m p) → seg m o prev l next → seg m' o prev l next.
Proof.
  revert prev. induction l as [|q l IH]; intros prev Heq; [done|].
  intros [Hq Hl]. split.
  - eapply node_eq; [|done]. apply Heq. by left.
  - apply IH; [|done]. intros p Hp. apply Heq. by right.
Qed.

(** Redirecting the back link of the first frame, and the forward link of the
    last one. *)
Lemma seg_set_prev m o prev prev' p l next f :
  p ∉ l → fs_get m p = Some f → seg m o prev (p :: l) next →
  seg (fs_set m p (set_prev prev' f)) o prev' (p :: l) next.
Proof.
  intros Hp Hf [(Hv & f' & Hf' & Ht & Ho & _ & Hn) Hl].
  split.
  - split; [done|]. exists (set_prev prev' f). rewrite (fs_get_set _ _ _ _ _ Hf), decide_True by done.
    assert (f = f') as <- by congruence. done.
  - eapply seg_frame; [|done]. intros q Hq. rewrite fs_get_set_ne; [done|]. by intros ->.
Qed.

Lemma seg_set_next m o prev l p next next' f :
  p ∉ l → fs_get m p = Some f → seg m o prev (l ++ [p]) next →
  seg (fs_set m p (set_next next' f)) o prev (l ++ [p]) next'.
Proof.
  intros Hp Hf. rewrite !seg_app. simpl.
  intros [Hl [(Hv & f' & Hf' & Ht & Ho & Hpr & _) _]]. split.
  - eapply seg_frame; [|done]. intros q Hq. rewrite fs_get_set_ne; [done|]. by intros ->.
  - split; [|done]. split; [done|]. exists (set_next next' f).
    rewrite (fs_get_set _ _ _ _ _ Hf), decide_True by done.
    assert (f = f') as <- by congruence. done.
Qed.

(** ** The lists of a buddy *)

Record lists (b : Buddy) (m : M) (L : nat → list Z) : Prop := {
  lists_len : length (free b) = S MAX_ORDER;
  lists_head : ∀ o, (o ≤ MAX_ORDER)%nat → free b !! o = Some (head_or (L o) INVALID_PFN);
  lists_seg : ∀ o, seg m o INVALID_PFN (L o) INVALID_PFN;
  lists_nodup : ∀ o, NoDup (L o)
}.

Lemma lists_mem b m L o p :
  lists b m L → p ∈ L o →
  ∃ f, fs_get m p = Some f ∧ f_tag f = BuddyTag.Free ∧ f_order f = o ∧ p ≠ INVALID_PFN.
Proof.
  intros HL Hp. destruct (seg_node _ _ _ _ _ _ (lists_seg _ _ _ HL o) Hp) as (?&?&?&f&?).
  exists f. naive_solver.
Qed.

(** A frame is on one list only: its order says which. *)
Lemma lists_unique b m L o o' p : lists b m L → p ∈ L o → p ∈ L o' → o = o'.
Proof.
  intros HL Hp Hp'.
  destruct (lists_mem _ _ _ _ _ HL Hp) as (f & ? & _ & <- & _).
  destruct (lists_mem _ _ _ _ _ HL Hp') as (f' & ? & _ & <- & _). congruence.
Qed.

Lemma lists_nonempty b m L o :
  lists b m L → (o ≤ MAX_ORDER)%nat → free b !! o = Some INVALID_PFN → L o = [].
Proof.
  intros HL Ho Hf. rewrite (lists_head _ _ _ HL) in Hf by done.
  destruct (L o) as [|p l] eqn:E; [done|]. injection Hf as ->.
  destruct (lists_mem b m L o INVALID_PFN HL) as (?&?&?&?&?); [rewrite E; by left|done].
Qed.

(** Replacing one list: the others keep their frames untouched. *)
Lemma lists_update b m L o l m' :
  lists b m L → (o ≤ MAX_ORDER)%nat →
  (∀ p, p ∉ L o → (∃ o', p ∈ L o') → fs_get m' p = fs_get m p) →
  seg m' o INVALID_PFN l INVALID_PFN → NoDup l →
  lists (set_free (<[o:=head_or l INVALID_PFN]> (free b)) b) m' (<[o:=l]> L).
Proof.
  intros HL Ho Hm Hseg Hnd. split.
  - simpl. rewrite length_insert. apply HL.
  - intros o' Ho'. simpl. destruct (decide (o = o')) as [<-|].
    + rewrite fn_lookup_insert. apply list_lookup_insert_eq. rewrite (lists_len _ _ _ HL). lia.
    + rewrite list_lookup_insert_ne, fn_lookup_insert_ne by done. by apply HL.
  - intros o'. destruct (decide (o = o')) as [<-|]; [by rewrite fn_lookup_insert|].
    rewrite fn_lookup_insert_ne by done. eapply seg_frame; [|apply HL].
    intros p Hp. apply Hm; [|eauto]. intros Hp'. by pose proof (lists_unique _ _ _ _ _ _ HL Hp Hp').
  - intros o'. destruct (decide (o = o')) as [<-|]; [by rewrite fn_lookup_insert|].
    rewrite fn_lookup_insert_ne by done. apply HL.
Qed.

(** Writing links only leaves every core as it was. *)
Lemma cores_set m p f g q :
  fs_get m p = Some f → f_core g = f_core f → cores (fs_set m p g) q = cores m q.
Proof.
  intros Hf Hg. unfold cores. rewrite (fs_get_set _ _ _ _ _ Hf), fs_layout_set.
  case_decide; subst; [|done]. rewrite Hf. simpl. by rewrite Hg.
Qed.

Lemma seg_head_ne m o pr l nx d :
  seg m o pr l nx → l ≠ [] → head_or l d ≠ INVALID_PFN.
Proof. destruct l; [done|]. by intros [[? _] _] _. Qed.

Lemma seg_last_ne m o pr l nx :
  seg m o pr l nx → l ≠ [] → last_or INVALID_PFN l ≠ INVALID_PFN.
Proof.
  destruct l as [|p l _] using rev_ind; [done|]. rewrite seg_app, last_or_snoc. simpl.
  by intros [_ [[? _] _]] _.
Qed.

(** The two relinking steps of a removal or insertion, with what they leave. *)
Lemma relink_next m o l nx nx' (Q : M → Prop) :
  seg m o INVALID_PFN l nx → NoDup l → l ≠ [] →
  (∀ m', seg m' o INVALID_PFN l nx' → (∀ q, cores m' q = cores m q) →
         (∀ q, q ∉ l → fs_get m' q = fs_get m q) → Q m') →
  wp (frame_upd m (last_or INVALID_PFN l) (set_next nx')) Q.
Proof.
  intros Hs Hnd Hne HQ. destruct l as [|p l _] using rev_ind; [done|].
  rewrite last_or_snoc. apply NoDup_app in Hnd as (_ & Hp & _).
  assert (p ∉ l) as Hpl by (intros Hin; apply (Hp p Hin); by left).
  pose proof Hs as Hs'. rewrite seg_app in Hs'. simpl in Hs'.
  destruct Hs' as [_ [(_ & f & Hf & _) _]].
  apply (wp_frame_upd _ _ f); [done|]. apply HQ.
  - by eapply seg_set_next.
  - intros q. by eapply cores_set.
  - intros q Hq. apply fs_get_set_ne. intros ->. apply Hq, elem_of_app. right. by left.
Qed.

Lemma relink_prev m o l pr pr' (Q : M → Prop) :
  seg m o pr l INVALID_PFN → NoDup l → l ≠ [] →
  (∀ m', seg m' o pr' l INVALID_PFN → (∀ q, cores m' q = cores m q) →
         (∀ q, q ∉ l → fs_get m' q = fs_get m q) → Q m') →
  wp (frame_upd m (head_or l INVALID_PFN) (set_prev pr')) Q.
Proof.
  intros Hs Hnd Hne HQ. destruct l as [|p l]; [done|]. simpl.
  apply NoDup_cons in Hnd as [Hpl _]. pose proof Hs as [(_ & f & Hf & _) _].
  apply (wp_frame_upd _ _ f); [done|]. apply HQ.
  - by eapply seg_set_prev.
  - intros q. by eapply cores_set.
  - intros q Hq. apply fs_get_set_ne. intros ->. apply Hq. by left.
Qed.

(** The second half of every list operation: [if next != INVALID { next.prev = pr' }]. *)
Lemma relink_prev_opt m o l pr pr' (Q : M → Prop) :
  seg m o pr l INVALID_PFN → NoDup l →
  (∀ m', seg m' o pr' l INVALID_PFN → (∀ q, cores m' q = cores m q) →
         (∀ q, q ∉ l → fs_get m' q = fs_get m q) → Q m') →
  wp (if head_or l INVALID_PFN =? INVALID_PFN then Ret m
      else frame_upd m (head_or l INVALID_PFN) (set_prev pr')) Q.
Proof.
  intros Hs Hnd HQ. destruct l as [|p l].
  { cbn [head_or]. rewrite Z.eqb_refl. apply wp_ret, HQ; done. }
  rewrite (proj2 (Z.eqb_neq _ _)) by by eapply seg_head_ne.
  by eapply relink_prev.
Qed.

(** ** The list operations *)

Lemma push_free_spec b m L head o f :
  lists b m L → (o ≤ MAX_ORDER)%nat → fs_get m head = Some f → head ≠ INVALID_PFN →
  (∀ o', head ∉ L o') →
  wp (push_free b m head o) (λ '(b', m'),
    b' = set_free (<[o:=head]> (free b)) b ∧
    lists b' m' (<[o:=head :: L o]> L) ∧
    (∀ p, p ≠ head → p ∉ L o → fs_get m' p = fs_get m p) ∧
    (∀ p, p ≠ head → cores m' p = cores m p) ∧
    cores m' head = (fs_layout m, Some (f_state f, o, BuddyTag.Free, f_zone f))).
Proof.
  intros HL Ho Hf Hne Hnin. unfold push_free.
  apply wp_bind, (wp_arr_get _ _ (head_or (L o) INVALID_PFN)); [by apply HL|].
  apply wp_bind. eapply wp_frame_upd; [done|].
  set (g := set_next _ _). set (m1 := fs_set m head g).
  assert (∀ q, q ≠ head → fs_get m1 q = fs_get m q) as Hm1 by (intros; by apply fs_get_set_ne).
  assert (fs_layout m1 = fs_layout m) as Hly1 by apply fs_layout_set.
  assert (fs_get m1 head = Some g) as Hg by (unfold m1; by rewrite fs_get_set_eq by eauto).
  assert (f_order g = o) as Hgo.
  { change (o mod 256 = o)%nat. apply Nat.mod_small. unfold MAX_ORDER in Ho. lia. }
  apply wp_bind. apply (relink_prev_opt _ o _ INVALID_PFN).
  { eapply seg_frame; [|apply HL]. intros p Hp. apply Hm1. intros ->. by apply (Hnin o). }
  { apply HL. }
  intros m2 Hs2 Hc2 Hm2. assert (fs_get m2 head = Some g) as Hg2 by (by rewrite Hm2).
  apply wp_bind, wp_arr_set; [rewrite (lists_len _ _ _ HL); lia|]. apply wp_ret.
  split; [done|]. split; [|split; [|split]].
  - apply (lists_update b m L o (head :: L o)); [done|done| | |].
    + intros p Hp [o' Ho']. rewrite Hm2, Hm1; [done| |done]. intros ->. by apply (Hnin o').
    + simpl. split; [|done]. split; [done|]. exists g. done.
    + constructor; [apply Hnin|apply HL].
  - intros p Hp Hpl. by rewrite Hm2, Hm1.
  - intros p Hp. rewrite Hc2. unfold cores. by rewrite Hm1, Hly1.
  - rewrite Hc2. unfold cores. rewrite Hly1, Hg. simpl. unfold f_core. by rewrite Hgo.
Qed.

Lemma remove_free_spec b m L head o :
  lists b m L → (o ≤ MAX_ORDER)%nat → head ∈ L o →
  wp (remove_free b m head o) (λ '(b', m'),
    b' = set_free (free b') b ∧
    (∃ l1 l2, L o = l1 ++ head :: l2 ∧ lists b' m' (<[o:=l1 ++ l2]> L)) ∧
    (∀ p, p ∉ L o → fs_get m' p = fs_get m p) ∧
    (∀ p, cores m' p = cores m p)).
Proof.
  intros HL Ho Hin. destruct (list_elem_of_split _ _ Hin) as (l1 & l2 & E).
  pose proof (lists_seg _ _ _ HL o) as Hs. pose proof (lists_nodup _ _ _ HL o) as Hnd.
  rewrite E in Hs, Hnd. apply seg_app in Hs as [Hs1 [(Hv & f & Hf & Ht & Hfo & Hpr & Hnx) Hs2]].
  apply NoDup_app in Hnd as (Hnd1 & Hd1 & [Hd2 Hnd2]%NoDup_cons).
  assert (head ∉ l1) as Hd0 by (intros Hx; apply (Hd1 _ Hx); by left).
  assert (∀ q, q ∈ l1 → q ∉ l2) as Hd12 by (intros q Hq Hq2; apply (Hd1 _ Hq); by right).
  unfold remove_free. apply wp_bind. eapply wp_frame_get; [done|].
  apply wp_bind, wp_assert; [by rewrite Ht, Hfo, Nat.eqb_refl, bool_decide_eq_true_2|].
  rewrite Hpr, Hnx. apply wp_bind. eapply wp_frame_upd; [done|].
  set (m1 := fs_set m head _).
  assert (∀ q, q ≠ head → fs_get m1 q = fs_get m q) as Hm1 by (intros; by apply fs_get_set_ne).
  assert (∀ q, cores m1 q = cores m q) as Hc1 by (intros q; by eapply cores_set).
  assert (seg m1 o INVALID_PFN l1 head) as Hs1'.
  { eapply seg_frame; [|exact Hs1]. intros p Hp. apply Hm1. by intros ->. }
  assert (seg m1 o head l2 INVALID_PFN) as Hs2'.
  { eapply seg_frame; [|exact Hs2]. intros p Hp. apply Hm1. by intros ->. }
  assert (∀ p, p ∉ L o → p ≠ head ∧ p ∉ l1 ∧ p ∉ l2) as HLo.
  { intros p Hp. rewrite E in Hp. apply not_elem_of_app in Hp as [? [? ?]%not_elem_of_cons]. done. }
  apply wp_bind.
  apply (wp_mono _ (λ '(b2, m2),
    b2 = set_free (free b2) b ∧ free b2 = <[o:=head_or (l1 ++ l2) INVALID_PFN]> (free b) ∧
    seg m2 o INVALID_PFN l1 (head_or l2 INVALID_PFN) ∧ seg m2 o head l2 INVALID_PFN ∧
    (∀ q, cores m2 q = cores m q) ∧ (∀ p, p ∉ L o → fs_get m2 p = fs_get m p))).
  - destruct (decide (l1 = [])) as [->|Hne].
    + change (last_or INVALID_PFN []) with INVALID_PFN. rewrite Z.eqb_refl. apply wp_bind, wp_arr_set.
      { rewrite (lists_len _ _ _ HL). lia. }
      apply wp_ret. do 5 (split; [done|]).
      intros p Hp. apply Hm1. by apply HLo.
    + rewrite (proj2 (Z.eqb_neq _ _)) by by eapply seg_last_ne.
      apply wp_bind. eapply relink_next; [done..|]. intros m2 Hs Hc Hm. apply wp_ret.
      split; [by destruct b|]. split.
      { symmetry. apply list_insert_id. rewrite (lists_head _ _ _ HL o Ho), E.
        rewrite !head_or_app. by destruct l1. }
      split; [done|]. split.
      { eapply seg_frame; [|exact Hs2']. intros p Hp. apply Hm. intros Hp'. by apply (Hd12 p). }
      split; [intros q; by rewrite Hc|].
      intros p Hp. destruct (HLo p Hp) as (? & ? & ?). by rewrite Hm, Hm1.
  - intros [b2 m2] (Hb2 & Hfree & Hsl & Hsr & Hc & Hm).
    apply wp_bind. apply (relink_prev_opt _ o l2 head); [done..|].
    intros m3 Hsr3 Hc3 Hm3. apply wp_ret. split; [done|]. split; [|split].
    + exists l1, l2. split; [done|]. rewrite Hb2, Hfree. apply (lists_update b m L o (l1 ++ l2));
        [done|done| | |].
      * intros p Hp _. destruct (HLo p Hp) as (? & ? & ?). rewrite Hm3 by done. by apply Hm.
      * apply seg_app. split; [|done]. eapply seg_frame; [|exact Hsl]. eauto.
      * apply NoDup_app. split; [done|]. split; done.
    + intros p Hp. destruct (HLo p Hp) as (? & ? & ?). rewrite Hm3 by done. by apply Hm.
    + intros p. by rewrite Hc3.
Qed.

Lemma pop_free_spec b m L head l o :
  lists b m L → (o ≤ MAX_ORDER)%nat → L o = head :: l →
  wp (pop_free b m o) (λ '(r, b', m'),
    r = Some head ∧ b' = set_free (free b') b ∧
    lists b' m' (<[o:=l]> L) ∧
    (∀ p, p ∉ L o → fs_get m' p = fs_get m p) ∧
    (∀ p, cores m' p = cores m p)).
Proof.
  intros HL Ho E. pose proof (lists_seg _ _ _ HL o) as Hs. pose proof (lists_nodup _ _ _ HL o) as Hnd.
  rewrite E in Hs, Hnd. destruct Hs as [(Hv & f & Hf & Ht & Hfo & Hpr & Hnx) Hs2].
  apply NoDup_cons in Hnd as [Hd2 Hnd2].
  unfold pop_free. apply wp_bind, (wp_arr_get _ _ head).
  { by rewrite (lists_head _ _ _ HL o Ho), E. }
  rewrite (proj2 (Z.eqb_neq _ _)) by done. apply wp_bind. eapply wp_frame_get; [done|].
  rewrite Hnx. apply wp_bind. eapply wp_frame_upd; [done|]. set (m1 := fs_set m head _).
  assert (∀ q, q ≠ head → fs_get m1 q = fs_get m q) as Hm1 by (intros; by apply fs_get_set_ne).
  assert (∀ q, cores m1 q = cores m q) as Hc1 by (intros q; by eapply cores_set).
  assert (∀ p, p ∉ L o → p ≠ head ∧ p ∉ l) as HLo.
  { intros p Hp. rewrite E in Hp. by apply not_elem_of_cons in Hp. }
  apply wp_bind, wp_arr_set; [rewrite (lists_len _ _ _ HL); lia|].
  apply wp_bind. apply (relink_prev_opt _ o l head).
  { eapply seg_frame; [|exact Hs2]. intros p Hp. apply Hm1. by intros ->. }
  { done. }
  intros m2 Hs' Hc' Hm'. apply wp_ret. split; [done|]. split; [done|].
  split; [|split; [|intros p; by rewrite Hc']].
  - apply (lists_update b m L o l); [done|done| |done|done].
    intros p Hp _. destruct (HLo p Hp) as [? ?]. by rewrite Hm', Hm1.
  - intros p Hp. destruct (HLo p Hp) as [? ?]. by rewrite Hm', Hm1.
Qed.
End lists.
