(* ===== verification/BuddyBlocks.v ===== *)
(** * The block structure of a buddy zone

    The abstract state of the buddy allocator: a finite map [H] from the first
    frame of each block to its tag and order.  [blocks_ok] is the geometric
    invariant (blocks are aligned, inside the zone, on usable frames and
    pairwise disjoint); [coalesced] says that no two buddies are free.  The
    main results are that an aligned range of free frames lies inside one free
    block, and that the free blocks are determined by the set of free
    frames. *)
From S2P Require Import Prelude Frame Buddy.

(** ** Aligned power-of-two intervals *)

Definition psize (o : nat) : Z := 2 ^ Z.of_nat o.

Lemma psize_pos o : 0 < psize o.
Proof. apply Z.pow_pos_nonneg; lia. Qed.

Lemma psize_S o : psize (S o) = 2 * psize o.
Proof. unfold psize. rewrite Nat2Z.inj_succ, Z.pow_succ_r by lia. lia. Qed.

Lemma psize_le a b : (a ≤ b)%nat → psize a ≤ psize b.
Proof. intros. apply Z.pow_le_mono_r; lia. Qed.

Lemma psize_divide a b : (a ≤ b)%nat → (psize a | psize b).
Proof.
  intros Hab. unfold psize. exists (2 ^ (Z.of_nat b - Z.of_nat a)).
  rewrite <-Z.pow_add_r by lia. f_equal. lia.
Qed.

Definition in_block (p : Z) (o : nat) (q : Z) : Prop := p ≤ q < p + psize o.

#[global] Instance in_block_dec p o q : Decision (in_block p o q).
Proof. unfold in_block. apply _. Defined.

Lemma in_block_head p o : in_block p o p.
Proof. unfold in_block. pose proof (psize_pos o). lia. Qed.

(** Two aligned intervals that meet are nested. *)
Lemma aligned_nested p a q b x :
  (a ≤ b)%nat → (psize a | p) → (psize b | q) → in_block p a x → in_block q b x →
  q ≤ p ∧ p + psize a ≤ q + psize b.
Proof.
  intros Hab [i ->] Hq [H1 H2] [H3 H4].
  assert (psize a | q) as [j ->] by (etrans; [by apply psize_divide|done]).
  destruct (psize_divide a b Hab) as [k Hk]. rewrite Hk in *.
  pose proof (psize_pos a) as Ha. set (A := psize a) in *.
  assert (j < i + 1) as Hj by (apply (Zmult_lt_reg_r _ _ A); lia).
  assert (i < j + k) as Hi by (apply (Zmult_lt_reg_r _ _ A); lia).
  split; [apply Zmult_le_compat_r; lia|].
  assert ((i + 1) * A ≤ (j + k) * A) by (apply Zmult_le_compat_r; lia). lia.
Qed.

(** ** Buddies *)

Definition mate (base p : Z) (o : nat) : Z := base + Z.lxor (p - base) (psize o).

Lemma lxor_add_pow l o : 0 ≤ l → (psize (S o) | l) → Z.lxor l (psize o) = l + psize o.
Proof.
  intros Hl [k ->]. symmetry. apply Z.add_nocarry_lxor. apply Z.bits_inj'. intros n Hn.
  rewrite Z.land_spec, Z.bits_0. unfold psize.
  rewrite Z.pow2_bits_eqb by lia. destruct (Z.eqb_spec (Z.of_nat o) n) as [<-|]; [|apply andb_false_r].
  rewrite andb_true_r, Z.mul_pow2_bits_low by lia. done.
Qed.

(** The buddy of an aligned block is its neighbour in the block of the next
    order. *)
Lemma lxor_cases l o :
  0 ≤ l → (psize o | l) →
  ((psize (S o) | l) ∧ Z.lxor l (psize o) = l + psize o) ∨
  ((psize (S o) | l - psize o) ∧ psize o ≤ l ∧ Z.lxor l (psize o) = l - psize o).
Proof.
  intros Hl [k Hk]. pose proof (psize_pos o) as Hp. rewrite psize_S.
  destruct (Z.Even_or_Odd k) as [[j ->]|[j ->]].
  - left. split; [exists j; lia|]. apply lxor_add_pow; [done|]. rewrite psize_S. exists j. lia.
  - right. assert (psize o * (2 * j) = l - psize o) as Hj by lia.
    assert (0 ≤ 2 * j + 1) by (apply (Z.mul_nonneg_cancel_r _ (psize o)); lia).
    assert (0 ≤ l - psize o) by (rewrite <-Hj; apply Z.mul_nonneg_nonneg; lia).
    split; [exists j; lia|]. split; [lia|].
    replace l with (Z.lxor (l - psize o) (psize o)) at 1.
    + by rewrite Z.lxor_assoc, Z.lxor_nilpotent, Z.lxor_0_r.
    + rewrite lxor_add_pow; [lia|done|]. rewrite psize_S. exists j. lia.
Qed.

Lemma mate_cases base p o :
  base ≤ p → (psize o | p - base) →
  ((psize (S o) | p - base) ∧ mate base p o = p + psize o) ∨
  ((psize (S o) | mate base p o - base) ∧ mate base p o = p - psize o ∧ base ≤ mate base p o).
Proof.
  intros Hp Hd. unfold mate. destruct (lxor_cases (p - base) o) as [[H1 ->]|(H1 & H2 & ->)]; [lia|done|..].
  - left. split; [done|lia].
  - right. replace (base + (p - base - psize o) - base) with (p - base - psize o) by lia.
    split; [done|lia].
Qed.

Lemma mate_mate base p o : mate base (mate base p o) o = p.
Proof.
  unfold mate.
  replace (base + Z.lxor (p - base) (psize o) - base) with (Z.lxor (p - base) (psize o)) by lia.
  rewrite Z.lxor_assoc, Z.lxor_nilpotent, Z.lxor_0_r. lia.
Qed.

(** ** Counting *)

Definition count (P : Z → Prop) `{∀ q, Decision (P q)} (base n : Z) : Z :=
  Z.of_nat (length (filter P (seqZ base n))).

Lemma count_ext P Q `{∀ q, Decision (P q)} `{∀ q, Decision (Q q)} base n :
  (∀ q, base ≤ q < base + n → P q ↔ Q q) → count P base n = count Q base n.
Proof.
  intros HPQ. unfold count. do 2 f_equal. apply filter_ext_in.
  intros q Hq%elem_of_seqZ. by apply HPQ.
Qed.

Lemma count_bound P `{∀ q, Decision (P q)} base n : 0 ≤ n → 0 ≤ count P base n ≤ n.
Proof.
  intros Hn. unfold count. pose proof (length_filter P (seqZ base n)) as Hl.
  rewrite length_seqZ in Hl. lia.
Qed.

Lemma count_none P `{∀ q, Decision (P q)} base n :
  (∀ q, base ≤ q < base + n → ¬ P q) → count P base n = 0.
Proof.
  intros Hn. rewrite (count_ext P (λ _, False)) by naive_solver.
  unfold count. by induction (seqZ base n) as [|q l IH].
Qed.

Lemma length_filter_or (P Q R : Z → Prop) `{∀ q, Decision (P q)} `{∀ q, Decision (Q q)}
    `{∀ q, Decision (R q)} (l : list Z) :
  (∀ q, q ∈ l → R q ↔ P q ∨ Q q) → (∀ q, q ∈ l → P q → ¬ Q q) →
  length (filter R l) = (length (filter P l) + length (filter Q l))%nat.
Proof.
  intros HR HPQ. induction l as [|q l IH]; [done|].
  rewrite !filter_cons.
  pose proof (HR q ltac:(by left)). pose proof (HPQ q ltac:(by left)).
  specialize (IH ltac:(intros ??; apply HR; by right) ltac:(intros ??; apply HPQ; by right)).
  repeat case_decide; simpl; try tauto; lia.
Qed.

Lemma count_range a c base n :
  base ≤ a → a ≤ c → c ≤ base + n → count (λ q, a ≤ q < c) base n = c - a.
Proof.
  intros Hlo Hac Hhi. unfold count.
  assert (n = (a - base) + ((c - a) + (base + n - c))) as Hn by lia.
  rewrite Hn, !seqZ_app, !filter_app, !length_app by lia.
  assert (∀ x k, (∀ q, x ≤ q < x + k → ¬ (a ≤ q < c)) →
            length (filter (λ q, a ≤ q < c) (seqZ x k)) = O) as Hz.
  { intros x k Hz. pose proof (count_none (λ q, a ≤ q < c) x k Hz) as Hc. unfold count in Hc. lia. }
  rewrite (Hz base), (Hz (base + (a - base) + (c - a))); [|intros q Hq; lia..].
  rewrite filter_all; [rewrite length_seqZ; lia|].
  intros q Hq%elem_of_seqZ. lia.
Qed.

Lemma count_add_range P R a c base n `{∀ q, Decision (P q)} `{∀ q, Decision (R q)} :
  base ≤ a → a ≤ c → c ≤ base + n →
  (∀ q, base ≤ q < base + n → R q ↔ P q ∨ a ≤ q < c) → (∀ q, P q → ¬ (a ≤ q < c)) →
  count R base n = count P base n + (c - a).
Proof.
  intros Hlo Hac Hhi HR HP. rewrite <-(count_range a c base n) by done. unfold count.
  rewrite (length_filter_or P (λ q, a ≤ q < c) R); [lia| |auto].
  intros q Hq%elem_of_seqZ. by apply HR.
Qed.

Lemma count_add P R p o base n `{∀ q, Decision (P q)} `{∀ q, Decision (R q)} :
  base ≤ p → p + psize o ≤ base + n →
  (∀ q, R q ↔ P q ∨ in_block p o q) → (∀ q, P q → ¬ in_block p o q) →
  count R base n = count P base n + psize o.
Proof.
  intros Hlo Hhi HR HP. pose proof (psize_pos o).
  replace (psize o) with (p + psize o - p) by lia. apply count_add_range; [lia..| |done]. auto.
Qed.

Lemma psize_inj a b : psize a = psize b → a = b.
Proof. unfold psize. intros E%Z.pow_inj_r; lia. Qed.

Lemma aligned_nested_from base p a q b x :
  (a ≤ b)%nat → (psize a | p - base) → (psize b | q - base) →
  in_block p a x → in_block q b x → q ≤ p ∧ p + psize a ≤ q + psize b.
Proof.
  intros Hab Hp Hq Hx Hx'.
  pose proof (aligned_nested (p - base) a (q - base) b (x - base) Hab Hp Hq) as Hn.
  unfold in_block in *. lia.
Qed.

(** ** The blocks of a zone *)

Notation blocks := (gmap Z (BuddyTag.t * nat)).

(** The frame belongs to some block; to a free block. *)
Definition taken (H : blocks) (q : Z) : Prop :=
  ∃ p t o, H !! p = Some (t, o) ∧ in_block p o q.
Definition free_at (H : blocks) (q : Z) : Prop :=
  map_Exists (λ p x, x.1 = BuddyTag.Free ∧ in_block p x.2 q) H.

#[global] Instance free_at_dec H q : Decision (free_at H q).
Proof. unfold free_at. apply _. Defined.

Lemma free_at_spec H q :
  free_at H q ↔ ∃ p o, H !! p = Some (BuddyTag.Free, o) ∧ in_block p o q.
Proof.
  unfold free_at. rewrite map_Exists_lookup. split.
  - intros (p & [t o] & Hp & Ht & Hq). simpl in *. subst. eauto.
  - intros (p & o & Hp & Hq). exists p, (BuddyTag.Free, o). done.
Qed.

Lemma free_at_taken H q : free_at H q → taken H q.
Proof. rewrite free_at_spec. intros (p & o & Hp & Hq). by exists p, BuddyTag.Free, o. Qed.

Lemma taken_head H p t o : H !! p = Some (t, o) → taken H p.
Proof. intros Hp. exists p, t, o. split; [done|apply in_block_head]. Qed.

Lemma not_taken_none H q : ¬ taken H q → H !! q = None.
Proof. intros Hn. destruct (H !! q) as [[]|] eqn:E; [|done]. by destruct Hn; eapply taken_head. Qed.

Section blocks.
Context (base pages : Z) (mo : nat) (U : Z → Prop).
Implicit Types (H : blocks) (p q : Z) (o : nat) (t : BuddyTag.t).

(** A block that may stand at [p]: aligned, in the zone, on usable frames. *)
Record placeable (p : Z) (o : nat) : Prop := {
  pl_order : (o ≤ mo)%nat;
  pl_lo : base ≤ p;
  pl_hi : p + psize o ≤ base + pages;
  pl_align : (psize o | p - base);
  pl_usable : ∀ q, in_block p o q → U q
}.

Definition blocks_ok (H : blocks) : Prop :=
  ∀ p t o, H !! p = Some (t, o) →
    t ≠ BuddyTag.Unused ∧ placeable p o ∧
    ∀ q, in_block p o q → q ≠ p → H !! q = None.

Definition coalesced (H : blocks) : Prop :=
  ∀ p o, (o < mo)%nat → H !! p = Some (BuddyTag.Free, o) →
    H !! mate base p o ≠ Some (BuddyTag.Free, o).

Lemma blocks_disjoint H p t o p' t' o' q :
  blocks_ok H → H !! p = Some (t, o) → H !! p' = Some (t', o') →
  in_block p o q → in_block p' o' q → p = p'.
Proof.
  intros HH Hp Hp' Hq Hq'.
  destruct (HH _ _ _ Hp) as (_ & _ & Hin). destruct (HH _ _ _ Hp') as (_ & _ & Hin').
  destruct (Z.lt_trichotomy p p') as [Hlt|[->|Hlt]]; [|done|].
  - rewrite Hin in Hp'; [done| |lia]. unfold in_block in *. lia.
  - rewrite Hin' in Hp; [done| |lia]. unfold in_block in *. lia.
Qed.

Lemma blocks_delete H p : blocks_ok H → blocks_ok (delete p H).
Proof.
  intros HH p' t o [Hne Hp']%lookup_delete_Some. destruct (HH _ _ _ Hp') as (? & ? & Hin).
  split; [done|]. split; [done|]. intros q Hq Hqp. apply lookup_delete_None. right. auto.
Qed.

Lemma blocks_place H p t o :
  blocks_ok H → t ≠ BuddyTag.Unused → placeable p o →
  (∀ q, in_block p o q → ¬ taken H q) → blocks_ok (<[p:=(t, o)]> H).
Proof.
  intros HH Ht Hpl Hfree p' t' o' [[<- [= <- <-]]|[Hne Hp']]%lookup_insert_Some.
  - split; [done|]. split; [done|]. intros q Hq Hqp. rewrite lookup_insert_ne by done.
    destruct (H !! q) as [[]|] eqn:E; [|done]. by destruct (Hfree q Hq (taken_head _ _ _ _ E)).
  - destruct (HH _ _ _ Hp') as (? & ? & Hin). split; [done|]. split; [done|].
    intros q Hq Hqp. apply lookup_insert_None. split; [by apply Hin|].
    intros ->. apply (Hfree q (in_block_head q o)). by exists p', t', o'.
Qed.

Lemma free_at_insert H p t o q :
  H !! p = None →
  free_at (<[p:=(t, o)]> H) q ↔ (t = BuddyTag.Free ∧ in_block p o q) ∨ free_at H q.
Proof.
  intros Hp. rewrite !free_at_spec. split.
  - intros (p' & o' & [[<- [= -> <-]]|[? ?]]%lookup_insert_Some & Hq); [by left|right; eauto].
  - intros [[-> Hq]|(p' & o' & Hp' & Hq)].
    + exists p, o. by rewrite lookup_insert_eq.
    + exists p', o'. rewrite lookup_insert_ne; [done|]. congruence.
Qed.

Lemma free_at_delete H p t o q :
  blocks_ok H → H !! p = Some (t, o) →
  free_at (delete p H) q ↔ free_at H q ∧ ¬ in_block p o q.
Proof.
  intros HH Hp. rewrite !free_at_spec. split.
  - intros (p' & o' & [Hne Hp']%lookup_delete_Some & Hq). split; [eauto|].
    intros Hq'. by apply Hne, (blocks_disjoint H p t o p' BuddyTag.Free o' q).
  - intros [(p' & o' & Hp' & Hq) Hn]. exists p', o'. split; [|done].
    apply lookup_delete_Some. split; [|done]. intros ->. congruence.
Qed.

Lemma taken_delete H p t o q :
  blocks_ok H → H !! p = Some (t, o) →
  taken (delete p H) q ↔ taken H q ∧ ¬ in_block p o q.
Proof.
  intros HH Hp. split.
  - intros (p' & t' & o' & [Hne Hp']%lookup_delete_Some & Hq). split; [by exists p', t', o'|].
    intros Hq'. by apply Hne, (blocks_disjoint H p t o p' t' o' q).
  - intros [(p' & t' & o' & Hp' & Hq) Hn]. exists p', t', o'. split; [|done].
    apply lookup_delete_Some. split; [|done]. intros ->. congruence.
Qed.

Lemma taken_insert H p t o q :
  H !! p = None → taken (<[p:=(t, o)]> H) q ↔ in_block p o q ∨ taken H q.
Proof.
  intros Hp. split.
  - intros (p' & t' & o' & [[<- [= <- <-]]|[? ?]]%lookup_insert_Some & Hq); [by left|].
    right. by exists p', t', o'.
  - intros [Hq|(p' & t' & o' & Hp' & Hq)].
    + exists p, t, o. by rewrite lookup_insert_eq.
    + exists p', t', o'. rewrite lookup_insert_ne; [done|]. congruence.
Qed.

(** An aligned range of free frames lies inside a single free block. *)
Lemma free_range_contained H o p :
  blocks_ok H → coalesced H → (o ≤ mo)%nat → base ≤ p → (psize o | p - base) →
  (∀ q, in_block p o q → free_at H q) →
  ∃ p' o', H !! p' = Some (BuddyTag.Free, o') ∧ (o ≤ o')%nat ∧
           p' ≤ p ∧ p + psize o ≤ p' + psize o'.
Proof.
  intros HH Hc. revert p. induction o as [|o IH]; intros p Ho Hlo Hal Hall.
  { destruct (proj1 (free_at_spec _ _) (Hall p (in_block_head _ _))) as (p' & o' & Hp' & Hq).
    exists p', o'. unfold in_block, psize in *. simpl in *. split; [done|]. split; lia. }
  pose proof (psize_S o) as HS. pose proof (psize_pos o).
  destruct (IH p) as (p1 & o1 & Hp1 & Ho1 & Hlo1 & Hhi1); [lia|done| |..].
  { etrans; [apply (psize_divide o (S o)); lia|done]. }
  { intros q Hq. apply Hall. unfold in_block in *. lia. }
  destruct (IH (p + psize o)) as (p2 & o2 & Hp2 & Ho2 & Hlo2 & Hhi2); [lia|lia| |..].
  { destruct Hal as [k Hk]. exists (2 * k + 1). lia. }
  { intros q Hq. apply Hall. unfold in_block in *. lia. }
  destruct (HH _ _ _ Hp1) as (_ & [_ _ _ Hal1 _] & _).
  destruct (HH _ _ _ Hp2) as (_ & [_ _ _ Hal2 _] & _).
  destruct (decide (S o ≤ o1)%nat) as [Hge|Hlt].
  { exists p1, o1. split; [done|]. split; [done|].
    apply (aligned_nested_from base p (S o) p1 o1 p); [done..|unfold in_block; lia|unfold in_block; lia]. }
  destruct (decide (S o ≤ o2)%nat) as [Hge|Hlt2].
  { exists p2, o2. split; [done|]. split; [done|].
    apply (aligned_nested_from base p (S o) p2 o2 (p + psize o)); [done..|unfold in_block; lia|unfold in_block; lia]. }
  exfalso. assert (o1 = o) as -> by lia. assert (o2 = o) as -> by lia.
  assert (p1 = p) as -> by lia. assert (p2 = p + psize o) as -> by lia.
  apply (Hc p o); [lia|done|]. destruct (mate_cases base p o) as [[_ ->]|(Hal' & Hm & _)]; [done|done|done|].
  exfalso. rewrite Hm in Hal'. destruct Hal as [k Hk], Hal' as [j Hj]. rewrite HS in *.
  assert (psize o * (2 * (k - j) - 1) = 0) as [?|?]%Z.mul_eq_0 by lia; lia.
Qed.

(** Fully coalesced free blocks are determined by the free frames. *)
Lemma coalesced_unique H1 H2 p o :
  blocks_ok H1 → coalesced H1 → blocks_ok H2 → coalesced H2 →
  (∀ q, free_at H1 q ↔ free_at H2 q) →
  H1 !! p = Some (BuddyTag.Free, o) → H2 !! p = Some (BuddyTag.Free, o).
Proof.
  intros Hk1 Hc1 Hk2 Hc2 Heq Hp. destruct (Hk1 _ _ _ Hp) as (_ & [Ho Hlo _ Hal _] & _).
  destruct (free_range_contained H2 o p) as (p2 & o2 & Hp2 & Ho2 & Hlo2 & Hhi2); [done..| |].
  { intros q Hq. apply Heq, free_at_spec. eauto. }
  destruct (Hk2 _ _ _ Hp2) as (_ & [Ho2' Hlo2' _ Hal2 _] & _).
  destruct (free_range_contained H1 o2 p2) as (p1 & o1 & Hp1 & Ho1 & Hlo1 & Hhi1); [done..| |].
  { intros q Hq. apply Heq, free_at_spec. eauto. }
  pose proof (psize_pos o).
  assert (p1 = p) as ->.
  { apply (blocks_disjoint H1 p1 BuddyTag.Free o1 p BuddyTag.Free o p); [done..| |];
      unfold in_block; lia. }
  assert (o1 = o) as -> by congruence.
  assert (p2 = p) as -> by lia. assert (o2 = o) as -> by (apply psize_inj; lia). done.
Qed.
(** *** Merging and splitting *)

(** The same free frames and the same allocated blocks. *)
Definition same_use (H H' : blocks) : Prop :=
  (∀ q, free_at H' q ↔ free_at H q) ∧
  (∀ p o, H' !! p = Some (BuddyTag.Allocated, o) ↔ H !! p = Some (BuddyTag.Allocated, o)).

(** Only the block at [h] may have a free buddy. *)
Definition coalesced_except (h : Z) (H : blocks) : Prop :=
  ∀ p o, (o < mo)%nat → H !! p = Some (BuddyTag.Free, o) → p ≠ h → mate base p o ≠ h →
    H !! mate base p o ≠ Some (BuddyTag.Free, o).

Lemma coalesced_of_except h o H :
  coalesced_except h H → H !! h = Some (BuddyTag.Free, o) →
  ((o < mo)%nat → H !! mate base h o ≠ Some (BuddyTag.Free, o)) → coalesced H.
Proof.
  intros Hc Hh Hm p o' Ho' Hp Hp'. destruct (decide (p = h)) as [->|Hne].
  { assert (o' = o) as -> by congruence. by apply Hm. }
  destruct (decide (mate base p o' = h)) as [E|Hne']; [|exact (Hc p o' Ho' Hp Hne Hne' Hp')].
  rewrite E in Hp'. assert (o' = o) as -> by congruence.
  apply Hm; [done|]. by rewrite <-E, mate_mate.
Qed.

Lemma coalesced_insert h o H :
  coalesced H → coalesced_except h (<[h:=(BuddyTag.Free, o)]> H).
Proof.
  intros Hc p o' Ho' Hp Hne Hne'. rewrite lookup_insert_ne in Hp by done.
  rewrite lookup_insert_ne by done. by apply Hc.
Qed.

Lemma mate_block p o q :
  base ≤ p → (psize o | p - base) →
  in_block (Z.min p (mate base p o)) (S o) q ↔ in_block p o q ∨ in_block (mate base p o) o q.
Proof.
  intros Hlo Hal. unfold in_block. rewrite psize_S. pose proof (psize_pos o).
  destruct (mate_cases base p o Hlo Hal) as [[_ ->]|(_ & -> & _)]; lia.
Qed.

Lemma mate_place H p t t' o :
  blocks_ok H → (o < mo)%nat → H !! p = Some (t, o) → H !! mate base p o = Some (t', o) →
  placeable (Z.min p (mate base p o)) (S o) ∧ mate base p o ≠ p.
Proof.
  intros HH Ho Hp Hm. destruct (HH _ _ _ Hp) as (_ & [_ Hlo Hhi Hal Hu] & _).
  destruct (HH _ _ _ Hm) as (_ & [_ Hlo' Hhi' _ Hu'] & _). pose proof (psize_pos o).
  assert (∀ q, in_block (Z.min p (mate base p o)) (S o) q → U q) as HU.
  { intros q [Hq|Hq]%mate_block; auto. }
  destruct (mate_cases base p o Hlo Hal) as [[Hd E]|(Hd & E & _)]; rewrite E in *; (split; [|lia]).
  - rewrite Z.min_l in * by lia. split; try done. rewrite psize_S. lia.
  - rewrite Z.min_r in * by lia. split; try done. rewrite psize_S. lia.
Qed.

Lemma merge_untaken H p o q :
  blocks_ok H → H !! p = Some (BuddyTag.Free, o) →
  H !! mate base p o = Some (BuddyTag.Free, o) → mate base p o ≠ p →
  in_block (Z.min p (mate base p o)) (S o) q → ¬ taken (delete (mate base p o) (delete p H)) q.
Proof.
  intros HH Hp Hm Hne Hq. destruct (HH _ _ _ Hp) as (_ & [_ Hlo _ Hal _] & _).
  rewrite (taken_delete _ _ BuddyTag.Free o);
    [|by apply blocks_delete|by rewrite lookup_delete_ne].
  rewrite (taken_delete _ _ BuddyTag.Free o) by done.
  apply mate_block in Hq; [|done..]. tauto.
Qed.

Lemma merge_same_use H p o :
  blocks_ok H → H !! p = Some (BuddyTag.Free, o) →
  H !! mate base p o = Some (BuddyTag.Free, o) → mate base p o ≠ p →
  let h := Z.min p (mate base p o) in
  same_use H (<[h:=(BuddyTag.Free, S o)]> (delete (mate base p o) (delete p H))).
Proof.
  intros HH Hp Hm Hne h. destruct (HH _ _ _ Hp) as (_ & [_ Hlo _ Hal _] & _).
  assert (delete (mate base p o) (delete p H) !! h = None) as Hh.
  { unfold h. destruct (Z.min_spec p (mate base p o)) as [[_ ->]|[_ ->]].
    - rewrite lookup_delete_ne, lookup_delete_eq by done. done.
    - by rewrite lookup_delete_eq. }
  split.
  - intros q. rewrite free_at_insert by done.
    rewrite (free_at_delete _ _ BuddyTag.Free o);
      [|by apply blocks_delete|by rewrite lookup_delete_ne].
    rewrite (free_at_delete _ _ BuddyTag.Free o) by done.
    unfold h. rewrite mate_block by done.
    destruct (decide (in_block p o q)); [|destruct (decide (in_block (mate base p o) o q))];
      [| |tauto]; (split; [intros _|tauto]); apply free_at_spec; eauto.
  - intros p' o'. destruct (decide (p' = h)) as [->|Hne'].
    + rewrite lookup_insert_eq. unfold h.
      destruct (Z.min_spec p (mate base p o)) as [[_ ->]|[_ ->]]; rewrite ?Hp, ?Hm; naive_solver.
    + rewrite lookup_insert_ne, !lookup_delete_Some by done. naive_solver.
Qed.

Lemma merge_coalesced H p o h' :
  coalesced_except p H →
  coalesced_except h' (<[h':=(BuddyTag.Free, S o)]> (delete (mate base p o) (delete p H))).
Proof.
  intros Hc p' o' Ho' Hp' Hne Hne'. rewrite lookup_insert_ne in Hp' |- * by done.
  apply lookup_delete_Some in Hp' as [_ [Hp Hp']%lookup_delete_Some].
  rewrite !lookup_delete_Some. intros (_ & Hm & Hm'). by apply (Hc p' o').
Qed.

(** Shrinking an allocated block to its lower half frees the upper half. *)
Lemma split_place H p t o :
  blocks_ok H → H !! p = Some (t, S o) →
  placeable p o ∧ placeable (p + psize o) o ∧ mate base p o = p + psize o.
Proof.
  intros HH Hp. destruct (HH _ _ _ Hp) as (_ & [Ho Hlo Hhi Hal Hu] & _).
  rewrite psize_S in Hhi. pose proof (psize_pos o) as Hpos. pose proof (psize_S o) as HS.
  assert (∀ q, in_block p o q ∨ in_block (p + psize o) o q → U q) as HU.
  { intros q Hq. apply Hu. unfold in_block in *. rewrite HS. lia. }
  assert (psize o | p - base) as Hal'.
  { etrans; [apply (psize_divide o (S o)); lia|done]. }
  split; [split; [lia|done|lia|done|auto]|]. split.
  - split; [lia|lia|lia| |auto]. replace (p + psize o - base) with (p - base + psize o) by lia.
    apply Z.divide_add_r; [done|]. exists 1. lia.
  - unfold mate. rewrite lxor_add_pow; [lia|lia|done].
Qed.

Lemma blocks_shrink H p t o :
  blocks_ok H → H !! p = Some (t, S o) → blocks_ok (<[p:=(t, o)]> H).
Proof.
  intros HH Hp. destruct (split_place H p t o HH Hp) as (Hpl & _ & _).
  destruct (HH _ _ _ Hp) as (Ht & _ & _). pose proof (psize_S o). pose proof (psize_pos o).
  rewrite <-insert_delete_eq. apply blocks_place; [by apply blocks_delete|done|done|].
  intros q Hq. rewrite (taken_delete _ _ t (S o)) by done. unfold in_block in *. lia.
Qed.

Lemma split_untaken H p t o q :
  blocks_ok H → H !! p = Some (t, S o) →
  in_block (p + psize o) o q → ¬ taken (<[p:=(t, o)]> H) q.
Proof.
  intros HH Hp Hq. rewrite <-insert_delete_eq, taken_insert by by rewrite lookup_delete_eq.
  rewrite (taken_delete _ _ t (S o)) by done. pose proof (psize_S o). unfold in_block in *. lia.
Qed.
(** *** Allocation *)

(** [H'] is [H] after allocating the block of order [o] at [head]. *)
Record allocated (H : blocks) (head : Z) (o : nat) (H' : blocks) : Prop := {
  al_block : H' !! head = Some (BuddyTag.Allocated, o);
  al_free : ∀ q, free_at H' q ↔ free_at H q ∧ ¬ in_block head o q;
  al_was_free : ∀ q, in_block head o q → free_at H q;
  al_others : ∀ p o', p ≠ head →
    H' !! p = Some (BuddyTag.Allocated, o') ↔ H !! p = Some (BuddyTag.Allocated, o')
}.

(** Taking a whole free block. *)
Lemma allocated_whole H p o :
  blocks_ok H → H !! p = Some (BuddyTag.Free, o) →
  allocated H p o (<[p:=(BuddyTag.Allocated, o)]> (delete p H)).
Proof.
  intros HH Hp. split.
  - by rewrite lookup_insert_eq.
  - intros q. rewrite free_at_insert by by rewrite lookup_delete_eq.
    rewrite (free_at_delete _ _ BuddyTag.Free o) by done. naive_solver.
  - intros q Hq. apply free_at_spec. eauto.
  - intros p' o' Hne. by rewrite lookup_insert_ne, lookup_delete_ne.
Qed.

(** Giving the upper half back. *)
Lemma allocated_split H0 H p o :
  blocks_ok H → allocated H0 p (S o) H →
  allocated H0 p o (<[p + psize o:=(BuddyTag.Free, o)]> (<[p:=(BuddyTag.Allocated, o)]> H)) ∧
  ∀ q, free_at (<[p + psize o:=(BuddyTag.Free, o)]> (<[p:=(BuddyTag.Allocated, o)]> H)) q ↔
       free_at H q ∨ in_block (p + psize o) o q.
Proof.
  intros HH [Hp Hfree Hwas Hoth]. pose proof (psize_S o) as HS. pose proof (psize_pos o) as Hpos.
  assert (<[p:=(BuddyTag.Allocated, o)]> H !! (p + psize o) = None) as Hn.
  { apply not_taken_none. apply (split_untaken H p _ o); [done..|apply in_block_head]. }
  assert (∀ q, free_at (<[p + psize o:=(BuddyTag.Free, o)]> (<[p:=(BuddyTag.Allocated, o)]> H)) q ↔
            free_at H q ∨ in_block (p + psize o) o q) as HF.
  { intros q. rewrite free_at_insert by done.
    rewrite <-insert_delete_eq, free_at_insert by by rewrite lookup_delete_eq.
    rewrite (free_at_delete _ _ BuddyTag.Allocated (S o)) by done. rewrite Hfree. naive_solver. }
  split; [|done]. split.
  - rewrite lookup_insert_ne by lia. by rewrite lookup_insert_eq.
  - intros q. rewrite HF, Hfree. specialize (Hwas q). unfold in_block in *. rewrite HS in *.
    split; [|destruct (decide (p ≤ q < p + 2 * psize o)); [right; lia|tauto]].
    intros [[? ?]|?]; [split; [done|lia]|]. split; [apply Hwas; lia|lia].
  - intros q Hq. apply Hwas. unfold in_block in *. lia.
  - intros p' o' Hne. rewrite <-Hoth by done. destruct (decide (p' = p + psize o)) as [->|].
    + rewrite lookup_insert_eq. rewrite lookup_insert_ne in Hn by done. rewrite Hn. done.
    + by rewrite !lookup_insert_ne.
Qed.

Lemma split_coalesced H p o t :
  blocks_ok H → H !! p = Some (t, S o) → coalesced H →
  coalesced (<[p + psize o:=(BuddyTag.Free, o)]> (<[p:=(BuddyTag.Allocated, o)]> H)).
Proof.
  intros HH Hp Hc. destruct (split_place H p t o HH Hp) as (_ & _ & Hm).
  pose proof (psize_pos o).
  apply (coalesced_of_except (p + psize o) o).
  - intros p' o' Ho' Hp' Hne Hne'. rewrite lookup_insert_ne in Hp' |- * by done.
    apply lookup_insert_Some in Hp' as [[? ?]|[Hpp Hp']]; [done|].
    rewrite lookup_insert_Some. intros [[? ?]|[_ Hm']]; [done|]. by apply (Hc p' o').
  - by rewrite lookup_insert_eq.
  - intros _. rewrite <-Hm, mate_mate, Hm, lookup_insert_ne, lookup_insert_eq by lia. done.
Qed.

Lemma alloc_coalesced H p o :
  coalesced H → coalesced (<[p:=(BuddyTag.Allocated, o)]> (delete p H)).
Proof.
  intros Hc p' o' Ho'. rewrite !lookup_insert_Some, !lookup_delete_Some.
  intros [[? ?]|(? & ? & Hp')]; [done|]. intros [[? ?]|(? & ? & Hm)]; [done|].
  by apply (Hc p' o').
Qed.

(** *** Release *)

(** [H'] is [H] after releasing the block of order [o] at [head]. *)
Record released (H : blocks) (head : Z) (o : nat) (H' : blocks) : Prop := {
  rl_free : ∀ q, free_at H' q ↔ free_at H q ∨ in_block head o q;
  rl_others : ∀ p o', H' !! p = Some (BuddyTag.Allocated, o') ↔
    p ≠ head ∧ H !! p = Some (BuddyTag.Allocated, o')
}.
End blocks.
