(* ===== verification/BuddySpec.v ===== *)
(** * The buddy allocator: specifications

    [inv b m H] relates the concrete state (the buddy record [b] and the frame
    store [m]) to the abstract blocks [H]: the free lists hold exactly the free
    blocks, the tags in the frames agree with [H], the blocks are well placed,
    no two buddies are both free, and [free_pages] counts the free frames.
    Every operation preserves it; each one is specified by what it does to the
    free frames and to the allocated blocks. *)
From stdpp Require Import functions.
From S2P Require Import Prelude Misc Frame Buddy BuddyLists BuddyBlocks.

Notation blocks := (gmap Z (BuddyTag.t * nat)).

(** The zone lies below the highest frame of a 64-bit physical address, and its
    base is aligned to its largest block. *)
Record zone_ok (b : Buddy) : Prop := {
  zone_base : 0 ≤ base_pfn b;
  zone_pages : 0 ≤ pages b;
  zone_limit : base_pfn b + pages b ≤ 2 ^ 52;
  zone_order : (max_order b ≤ MAX_ORDER)%nat;
  zone_align : (psize (max_order b) | base_pfn b)
}.

Definition in_zone (b : Buddy) (p : Z) : Prop := base_pfn b ≤ p < base_pfn b + pages b.

Lemma in_range_spec b p : in_range b p = true ↔ in_zone b p.
Proof. unfold in_range, in_zone. rewrite andb_true_iff, Z.leb_le, Z.ltb_lt. lia. Qed.

(** [b'] manages the same zone as [b]. *)
Definition same_zone (b b' : Buddy) : Prop :=
  base_pfn b' = base_pfn b ∧ pages b' = pages b ∧ max_order b' = max_order b.

Lemma zone_ok_same b b' : same_zone b b' → zone_ok b → zone_ok b'.
Proof. intros (E1 & E2 & E3) []. split; rewrite ?E1, ?E2, ?E3; done. Qed.

Lemma psize_max o : (o ≤ MAX_ORDER)%nat → psize o ≤ 2048.
Proof. intros Ho. by apply (psize_le o MAX_ORDER). Qed.

Lemma wp_order_pages o (Q : Z → Prop) :
  (o ≤ MAX_ORDER)%nat → Q (psize o) → wp (order_pages o) Q.
Proof.
  intros Ho HQ. unfold order_pages. unfold MAX_ORDER in Ho.
  rewrite (proj2 (Nat.ltb_lt _ _)) by lia. done.
Qed.

Section spec.
Context {M : Type} {FS : FrameStore M}.
Implicit Types (m : M) (b : Buddy) (H : blocks) (X : Z → Prop) (L : nat → list Z).

(** Frame states and zones are untouched, and so is every frame outside [F]. *)
Definition frames_kept (F : Z → Prop) (m m' : M) : Prop :=
  (∀ p, statics m' p = statics m p) ∧ (∀ p, ¬ F p → fs_get m' p = fs_get m p).

#[global] Instance frames_kept_refl F : Reflexive (frames_kept F).
Proof. by split. Qed.
#[global] Instance frames_kept_trans F : Transitive (frames_kept F).
Proof.
  intros m1 m2 m3 [H1 H1'] [H2 H2']. split; intros p; [by rewrite H2, H1|].
  intros Hp. by rewrite H2', H1'.
Qed.

Lemma frames_kept_mono (F F' : Z → Prop) m m' :
  (∀ p, F p → F' p) → frames_kept F m m' → frames_kept F' m m'.
Proof. intros HF [Hs Hk]. split; [done|]. auto. Qed.

(** The free frames of [H] are in [F]. *)
Definition owns (F : Z → Prop) (H : blocks) : Prop := ∀ q, free_at H q → F q.

(** The frame is on no list. *)
Definition unlinked (m : M) (p : Z) : Prop :=
  ∃ f, fs_get m p = Some f ∧ f_next f = INVALID_PFN.

Definition zone_blocks (b : Buddy) (m : M) (H : blocks) : Prop :=
  blocks_ok (base_pfn b) (pages b) (max_order b) (usable m) H.
Definition zone_place (b : Buddy) (m : M) (p : Z) (o : nat) : Prop :=
  placeable (base_pfn b) (pages b) (max_order b) (usable m) p o.

(** The concrete state represents [H], except that the tags of the frames in
    [X] may not have been written yet. *)
Record rep (b : Buddy) (m : M) (H : blocks) (X : Z → Prop) (L : nat → list Z) : Prop := {
  rep_zone : zone_ok b;
  rep_lists : lists b m L;
  rep_mem : ∀ o p, p ∈ L o ↔ H !! p = Some (BuddyTag.Free, o);
  rep_heads : ∀ p, in_zone b p → ¬ X p → heads m p = H !! p;
  rep_blocks : zone_blocks b m H
}.

Definition free_count (b : Buddy) (H : blocks) : Z :=
  count (free_at H) (base_pfn b) (pages b).

Definition inv (b : Buddy) (m : M) (H : blocks) : Prop :=
  (∃ L, rep b m H (λ _, False) L) ∧
  coalesced (base_pfn b) (max_order b) H ∧
  free_pages b = free_count b H.

Lemma zone_place_kept b m m' p o :
  (∀ q, statics m' q = statics m q) → zone_place b m p o → zone_place b m' p o.
Proof. intros Hs []. split; try done. intros q Hq. eapply statics_usable; eauto. Qed.

Lemma zone_blocks_kept b m m' H :
  (∀ q, statics m' q = statics m q) → zone_blocks b m H → zone_blocks b m' H.
Proof.
  intros Hs HH p t o Hp. destruct (HH p t o Hp) as (? & ? & ?).
  split; [done|]. split; [by eapply zone_place_kept|done].
Qed.

Lemma rep_weaken b m H (X X' : Z → Prop) L :
  (∀ p, in_zone b p → X p → X' p) → rep b m H X L → rep b m H X' L.
Proof. intros HX [Hz Hl Hm Hh Hb]. split; try done. intros p Hp Hn. apply Hh; eauto. Qed.

Lemma block_in_zone b m H p t o q :
  zone_blocks b m H → H !! p = Some (t, o) → in_block p o q → in_zone b q.
Proof.
  intros HH Hp Hq. destruct (HH _ _ _ Hp) as (_ & [_ Hlo Hhi _ _] & _).
  unfold in_block, in_zone in *. lia.
Qed.

Lemma free_in_zone b m H q : zone_blocks b m H → free_at H q → in_zone b q.
Proof. intros HH (p & o & Hp & Hq)%free_at_spec. by eapply block_in_zone. Qed.

Lemma zone_pfn_valid b p : zone_ok b → in_zone b p → p ≠ INVALID_PFN ∧ 0 ≤ p < 2 ^ 52.
Proof. unfold in_zone, INVALID_PFN, u64_max. intros [? ? ? _ _] ?. lia. Qed.

Lemma place_present b m p o :
  zone_place b m p o → ∃ f, fs_get m p = Some f ∧ f_state f = FrameState.Usable.
Proof. intros [_ _ _ _ Hu]. apply Hu, in_block_head. Qed.

Lemma place_in_zone b m p o q : zone_place b m p o → in_block p o q → in_zone b q.
Proof. intros [_ Hlo Hhi _ _]. unfold in_block, in_zone. lia. Qed.

(** A frame of no block is on no list. *)
Lemma not_taken_list b m H X L q o : rep b m H X L → ¬ taken H q → q ∉ L o.
Proof.
  intros HR Hn Hq. apply (rep_mem _ _ _ _ _ HR) in Hq.
  apply Hn. by eapply taken_head.
Qed.

Lemma cores_kept m m' : (∀ p, cores m' p = cores m p) → ∀ p, statics m' p = statics m p.
Proof. intros Hc p. by apply cores_statics. Qed.

Lemma owns_head F H p o q :
  owns F H → H !! p = Some (BuddyTag.Free, o) → in_block p o q → F q.
Proof. intros HF Hp Hq. apply HF, free_at_spec. eauto. Qed.

Lemma owns_insert F H p o :
  owns F H → (∀ q, in_block p o q → F q) → owns F (<[p:=(BuddyTag.Free, o)]> H).
Proof.
  intros HF Hp q (p' & o' & [[-> [= ->]]|[_ Hp']]%lookup_insert_Some & Hq)%free_at_spec; [auto|].
  by eapply owns_head.
Qed.

Lemma owns_delete F H p : owns F H → owns F (delete p H).
Proof.
  intros HF q (p' & o' & [_ Hp']%lookup_delete_Some & Hq)%free_at_spec. by eapply owns_head.
Qed.

Lemma owns_same F H H' : same_use H H' → owns F H → owns F H'.
Proof. intros [Hu _] HF q Hq. apply HF. by apply Hu. Qed.

(** ** List operations on represented states

    Throughout, [F] contains the free frames and those the operation works on;
    no other frame is touched. *)

Section owned.
Context (F : Z → Prop).

Lemma rep_push b m H X L head o :
  rep b m H (λ p, X p ∨ p = head) L → zone_place b m head o →
  (∀ q, in_block head o q → ¬ taken H q) →
  owns F H → (∀ q, in_block head o q → F q) →
  wp (push_free b m head o) (λ '(b', m'),
    b' = set_free (free b') b ∧
    (∃ L', rep b' m' (<[head:=(BuddyTag.Free, o)]> H) X L') ∧ frames_kept F m m').
Proof.
  intros HR Hpl Hnt HF Hblk. pose proof HR as [Hz Hl Hm Hh Hb].
  pose proof (place_in_zone _ _ _ _ head Hpl (in_block_head _ _)) as Hin.
  destruct (place_present _ _ _ _ Hpl) as (f & Hf & Hu).
  assert (o ≤ MAX_ORDER)%nat as Ho by (destruct Hz, Hpl; lia).
  assert (H !! head = None) as Hnone by (apply not_taken_none, Hnt, in_block_head).
  eapply wp_mono.
  { apply (push_free_spec b m L head o f); [done..|by eapply zone_pfn_valid|].
    intros o'. eapply not_taken_list; [done|]. apply Hnt, in_block_head. }
  intros [b' m'] (-> & Hl' & Hout & Hc & Hch).
  assert (∀ p, statics m' p = statics m p) as Hs.
  { intros p. destruct (decide (p = head)) as [->|]; [|by apply cores_statics, Hc].
    unfold statics, cores in *. rewrite Hf. destruct (fs_get m' head) as [g|]; [|done].
    simpl in *. injection Hch as Hly Hst _ _ Hzo. by rewrite Hly, Hst, Hzo. }
  split; [done|]. split.
  - eexists. split; [by apply (zone_ok_same b)|exact Hl'| | |].
    + intros o' p. destruct (decide (o' = o)) as [->|].
      * rewrite fn_lookup_insert, elem_of_cons, Hm.
        destruct (decide (p = head)) as [->|]; [rewrite lookup_insert_eq; naive_solver|].
        rewrite lookup_insert_ne by done. naive_solver.
      * rewrite fn_lookup_insert_ne by done. rewrite Hm.
        destruct (decide (p = head)) as [->|]; [rewrite lookup_insert_eq|by rewrite lookup_insert_ne].
        rewrite Hnone. naive_solver.
    + intros p Hp HX. destruct (decide (p = head)) as [->|Hne].
      * rewrite lookup_insert_eq. unfold heads, cores in *.
        destruct (fs_get m' head) as [g|]; [|done]. simpl in *. unfold head_of.
        injection Hch as _ _ -> -> _. done.
      * rewrite lookup_insert_ne by done. rewrite (cores_heads m _ _ p) by by apply Hc.
        apply Hh; [done|]. naive_solver.
    + apply (zone_blocks_kept b m); [done|]. by apply blocks_place.
  - split; [done|]. intros p Hp. apply Hout.
    + intros ->. apply Hp, Hblk, in_block_head.
    + intros Hpl'. apply Hm in Hpl'. apply Hp. eapply owns_head; [done..|apply in_block_head].
Qed.

(** Taking a free block off its list leaves its tag behind. *)
Lemma rep_unlisted b m H X L b' m' head o l :
  rep b m H X L → H !! head = Some (BuddyTag.Free, o) →
  b' = set_free (free b') b → lists b' m' (<[o:=l]> L) →
  (∀ p, p ∈ l ↔ p ∈ L o ∧ p ≠ head) →
  (∀ p, p ∉ L o → fs_get m' p = fs_get m p) → (∀ p, cores m' p = cores m p) → owns F H →
  rep b' m' (delete head H) (λ p, X p ∨ p = head) (<[o:=l]> L) ∧ frames_kept F m m'.
Proof.
  intros [Hz Hl Hm Hh Hb] Hhead Hb' Hl' Hll Hout Hc HF. split.
  - split; [by rewrite Hb'; apply (zone_ok_same b)|done| | |].
    + intros o' p. destruct (decide (o' = o)) as [->|].
      * rewrite fn_lookup_insert, Hll, Hm, lookup_delete_Some. naive_solver.
      * rewrite fn_lookup_insert_ne by done. rewrite Hm, lookup_delete_Some. naive_solver.
    + intros p Hp HX. rewrite (cores_heads m _ _ p) by done.
      rewrite lookup_delete_ne by naive_solver. apply Hh; [by rewrite Hb' in Hp|naive_solver].
    + rewrite Hb'. apply (zone_blocks_kept b m); [by apply cores_kept|]. by apply blocks_delete.
  - split; [by apply cores_kept|]. intros p Hp. apply Hout. intros Hp'. apply Hm in Hp'.
    apply Hp. eapply owns_head; [done..|apply in_block_head].
Qed.

Lemma rep_order b m H X L p t o : rep b m H X L → H !! p = Some (t, o) → (o ≤ MAX_ORDER)%nat.
Proof.
  intros [Hz _ _ _ Hb] Hp. destruct (Hb _ _ _ Hp) as (_ & [Ho _ _ _ _] & _). destruct Hz. lia.
Qed.

Lemma rep_remove b m H X L head o :
  rep b m H X L → H !! head = Some (BuddyTag.Free, o) → owns F H →
  wp (remove_free b m head o) (λ '(b', m'),
    b' = set_free (free b') b ∧
    (∃ L', rep b' m' (delete head H) (λ p, X p ∨ p = head) L') ∧ frames_kept F m m').
Proof.
  intros HR Hhead HF. pose proof (rep_mem _ _ _ _ _ HR) as Hm.
  eapply wp_mono; [apply (remove_free_spec b m L); [apply HR|by eapply rep_order|by apply Hm]|].
  intros [b' m'] (Hb' & (l1 & l2 & HE & Hl') & Hout & Hc). split; [done|].
  pose proof (lists_nodup _ _ _ (rep_lists _ _ _ _ _ HR) o) as Hnd.
  rewrite HE in Hnd. apply NoDup_app in Hnd as (_ & Hd1 & [Hd2 _]%NoDup_cons).
  destruct (rep_unlisted b m H X L b' m' head o (l1 ++ l2)) as [HR' Hk]; [done..| |done|done|done|eauto].
  intros p. rewrite HE, !elem_of_app, elem_of_cons. split; [|naive_solver].
  intros [Hp|Hp]; (split; [tauto|]); intros ->; [apply (Hd1 _ Hp); by left|done].
Qed.

Lemma rep_pop b m H X L head l o :
  rep b m H X L → (o ≤ MAX_ORDER)%nat → L o = head :: l → owns F H →
  wp (pop_free b m o) (λ '(r, b', m'),
    r = Some head ∧ b' = set_free (free b') b ∧ H !! head = Some (BuddyTag.Free, o) ∧
    (∃ L', rep b' m' (delete head H) (λ p, X p ∨ p = head) L') ∧ frames_kept F m m').
Proof.
  intros HR Ho HE HF. pose proof (rep_mem _ _ _ _ _ HR) as Hm.
  assert (H !! head = Some (BuddyTag.Free, o)) as Hhead by (apply Hm; rewrite HE; by left).
  eapply wp_mono; [apply (pop_free_spec b m L head l); [apply HR|done|done]|].
  intros [[r b'] m'] (-> & Hb' & Hl' & Hout & Hc). do 3 (split; [done|]).
  pose proof (lists_nodup _ _ _ (rep_lists _ _ _ _ _ HR) o) as Hnd.
  rewrite HE in Hnd. apply NoDup_cons in Hnd as [Hd _].
  destruct (rep_unlisted b m H X L b' m' head o l) as [HR' Hk]; [done..| |done|done|done|eauto].
  intros p. rewrite HE, elem_of_cons. split; [|naive_solver].
  intros Hp. split; [tauto|]. by intros ->.
Qed.

(** ** Writing tags *)

Lemma lists_frame b m m' L :
  (∀ o p, p ∈ L o → fs_get m' p = fs_get m p) → lists b m L → lists b m' L.
Proof.
  intros Hm [Hlen Hhd Hseg Hnd]. split; try done. intros o. eapply seg_frame; [|apply Hseg]. intros p. apply Hm.
Qed.

(** Rewriting the frames of a range that belongs to no block. *)
Lemma rep_retag b m H X L m' head o :
  rep b m H X L → zone_place b m head o → (∀ q, in_block head o q → ¬ taken H q) →
  (∀ p, statics m' p = statics m p) →
  (∀ p, ¬ in_block head o p → fs_get m' p = fs_get m p) →
  (∀ p, in_block head o p → p ≠ head → heads m' p = None) → (∀ q, in_block head o q → F q) →
  rep b m' H (λ p, (X p ∧ ¬ in_block head o p) ∨ p = head) L ∧ frames_kept F m m'.
Proof.
  intros HR Hpl Hnt Hs Hout Hin HF. pose proof HR as [Hz Hl Hm Hh Hb]. split.
  - split; try done.
    + eapply lists_frame; [|done]. intros o' p Hp. apply Hout. intros Hblk.
      by eapply not_taken_list; [done|apply Hnt|].
    + intros p Hp HX. destruct (decide (in_block head o p)) as [Hblk|Hblk].
      * rewrite Hin by naive_solver. symmetry. by apply not_taken_none, Hnt.
      * rewrite <-Hh by naive_solver. unfold heads. by rewrite Hout.
    + by apply (zone_blocks_kept b m).
  - split; [done|]. intros p Hp. apply Hout. intros Hblk. by apply Hp, HF.
Qed.

Lemma statics_set m p f g :
  fs_get m p = Some f → f_state g = f_state f → f_zone g = f_zone f →
  ∀ q, statics (fs_set m p g) q = statics m q.
Proof.
  intros Hf Hs Hz q. unfold statics. rewrite (fs_get_set _ _ _ _ _ Hf), fs_layout_set.
  case_decide; subst; [|done]. rewrite Hf. simpl. by rewrite Hs, Hz.
Qed.

Lemma heads_set_unused m p f g :
  fs_get m p = Some f → f_tag g = BuddyTag.Unused → heads (fs_set m p g) p = None.
Proof.
  intros Hf Hg. unfold heads. rewrite fs_get_set_eq by eauto. simpl. unfold head_of. by rewrite Hg.
Qed.

Lemma in_block_split head o p :
  in_block head o p ↔ p = head ∨ ∃ i, i ∈ seqZ 1 (psize o - 1) ∧ p = head + i.
Proof.
  unfold in_block. pose proof (psize_pos o). split.
  - intros Hp. destruct (decide (p = head)); [by left|]. right. exists (p - head).
    rewrite elem_of_seqZ. lia.
  - intros [->|(i & Hi%elem_of_seqZ & ->)]; lia.
Qed.

(** The loop over the inner frames: each visited frame becomes unused. *)
Lemma mark_inner_spec b m head o :
  zone_ok b → zone_place b m head o →
  wp (for_each (λ i m,
        p ← add64 head i;
        _ ← assert (in_range b p);
        f ← frame_get m p;
        _ ← assert (bool_decide (f_state f = FrameState.Usable));
        frame_upd m p (λ f, set_next INVALID_PFN (set_prev INVALID_PFN
          (set_order 0 (set_tag BuddyTag.Unused f))))) (seqZ 1 (psize o - 1)) m)
     (λ m', (∀ p, statics m' p = statics m p) ∧
            (∀ p, ¬ in_block head o p ∨ p = head → fs_get m' p = fs_get m p) ∧
            (∀ p, in_block head o p → p ≠ head → heads m' p = None)).
Proof.
  intros Hz Hpl.
  apply (wp_for_each _ _ _ (λ done m', (∀ p, statics m' p = statics m p) ∧
    (∀ p, ¬ in_block head o p ∨ p = head → fs_get m' p = fs_get m p) ∧
    (∀ i, i ∈ done → heads m' (head + i) = None))).
  { split; [done|]. split; [done|]. by intros i ?%elem_of_nil. }
  - intros done i rest m1 Heq (Hs & Hout & Hdone).
    assert (i ∈ seqZ 1 (psize o - 1)) as Hi by (rewrite Heq; apply elem_of_app; right; by left).
    assert (in_block head o (head + i)) as Hblk by (apply in_block_split; eauto).
    apply elem_of_seqZ in Hi.
    pose proof (place_in_zone _ _ _ _ _ Hpl Hblk) as Hin.
    destruct (zone_pfn_valid _ _ Hz Hin) as [_ Hv].
    apply wp_bind, wp_add64; [unfold u64_max; lia|].
    apply wp_bind, wp_assert; [by apply in_range_spec|].
    destruct (statics_usable m m1 (head + i) (Hs _)) as (f & Hf & Hu).
    { by apply (pl_usable _ _ _ _ _ _ Hpl). }
    apply wp_bind. eapply wp_frame_get; [done|].
    apply wp_bind, wp_assert; [by apply bool_decide_eq_true_2|].
    eapply wp_frame_upd; [done|]. split; [|split].
    + intros p. erewrite statics_set by done. apply Hs.
    + intros p Hp. rewrite fs_get_set_ne; [by apply Hout|]. intros <-. destruct Hp; [done|lia].
    + intros j [Hj|Hj%list_elem_of_singleton]%elem_of_app.
      * destruct (decide (j = i)) as [->|]; [by eapply heads_set_unused|].
        unfold heads. rewrite fs_get_set_ne by lia. by apply Hdone.
      * subst. by eapply heads_set_unused.
  - intros m' (Hs & Hout & Hall). split; [done|]. split; [done|].
    intros p [?|(i & Hi & ->)]%in_block_split Hne; [done|]. auto.
Qed.

Lemma rep_mark b m H X L head o :
  rep b m H X L → zone_place b m head o → (∀ q, in_block head o q → ¬ taken H q) →
  (∀ q, in_block head o q → F q) →
  wp (mark_block_free_head b m head o) (λ m',
    rep b m' H (λ p, (X p ∧ ¬ in_block head o p) ∨ p = head) L ∧ frames_kept F m m').
Proof.
  intros HR Hpl Hnt HF. pose proof (rep_zone _ _ _ _ _ HR) as Hz. unfold mark_block_free_head.
  destruct (place_present _ _ _ _ Hpl) as (f & Hf & Hu).
  apply wp_bind. eapply wp_frame_upd; [done|]. set (g := set_next _ _). set (m1 := fs_set m head g).
  assert (∀ p, statics m1 p = statics m p) as Hs1 by (by apply (statics_set m head f g)).
  apply wp_bind, wp_order_pages; [destruct Hz, Hpl; lia|].
  eapply wp_mono; [apply mark_inner_spec; [done|by eapply zone_place_kept]|].
  intros m' (Hs & Hout & Hin). apply rep_retag; [done..| | | |].
  - intros p. by rewrite Hs.
  - intros p Hp. rewrite Hout by auto. unfold m1. apply fs_get_set_ne. intros <-.
    apply Hp, in_block_head.
  - done.
  - done.
Qed.

(** Writing the tag of an allocated block that [H] already records. *)
Lemma rep_mark_allocated b m H L head o :
  rep b m H (λ p, p = head) L → H !! head = Some (BuddyTag.Allocated, o) → F head →
  wp (mark_block_allocated m head o) (λ m',
    rep b m' H (λ _, False) L ∧ frames_kept F m m' ∧ unlinked m' head).
Proof.
  intros HR Hhead HF. pose proof HR as [Hz Hl Hm Hh Hb].
  pose proof (rep_order _ _ _ _ _ _ _ _ HR Hhead) as Ho.
  destruct (Hb _ _ _ Hhead) as (_ & Hpl & _).
  destruct (place_present _ _ _ _ Hpl) as (f & Hf & Hu).
  unfold mark_block_allocated. eapply wp_frame_upd; [done|]. set (g := set_next _ _).
  assert (f_order g = o) as Hgo.
  { change (o mod 256 = o)%nat. apply Nat.mod_small. unfold MAX_ORDER in Ho. lia. }
  assert (∀ p, statics (fs_set m head g) p = statics m p) as Hs by by apply (statics_set m head f).
  split; [split; try done|split].
  - eapply lists_frame; [|done]. intros o' p Hp. apply fs_get_set_ne. intros <-.
    apply Hm in Hp. congruence.
  - intros p Hp _. unfold heads. rewrite (fs_get_set _ _ _ _ _ Hf). case_decide as Hd.
    + subst p. rewrite Hhead. simpl. unfold head_of. by rewrite Hgo.
    + by apply Hh.
  - by apply (zone_blocks_kept b m).
  - split; [done|]. intros p Hp. apply fs_get_set_ne. by intros <-.
  - exists g. by rewrite fs_get_set_eq by eauto.
Qed.

(** ** Coalescing *)

Lemma buddy_of_spec b m head o :
  zone_ok b → zone_place b m head o →
  wp (buddy_of b head o) (λ r,
    let mt := mate (base_pfn b) head o in
    if base_pfn b + pages b <? mt + psize o then r = None
    else r = Some mt ∧ in_zone b mt).
Proof.
  intros Hz Hpl. destruct (zone_pfn_valid _ _ Hz (place_in_zone _ _ _ _ _ Hpl (in_block_head _ _))).
  destruct Hz as [Hb0 Hp0 Hlim Hmo _]. destruct Hpl as [Ho Hlo Hhi Hal _].
  pose proof (psize_pos o). pose proof (psize_max o ltac:(lia)).
  pose proof (mate_cases _ _ _ Hlo Hal) as Hmc.
  unfold buddy_of. apply wp_bind, wp_sub64; [lia|]. apply wp_bind, wp_order_pages; [lia|].
  fold (psize o).
  set (x := Z.lxor (head - base_pfn b) (psize o)) in *.
  assert (mate (base_pfn b) head o = base_pfn b + x) as Hx by done. rewrite Hx in *.
  assert (0 ≤ x ≤ 2 ^ 52 + 2048) as Hxb by lia.
  apply wp_bind, wp_add64; [unfold u64_max; lia|]. simpl.
  destruct (Z.ltb_spec (pages b) (x + psize o)).
  - rewrite (proj2 (Z.ltb_lt _ _)) by lia. by apply wp_ret.
  - rewrite (proj2 (Z.ltb_ge _ _)) by lia. apply wp_bind, wp_add64; [unfold u64_max; lia|].
    apply wp_ret. split; [done|]. unfold in_zone. lia.
Qed.

Lemma is_free_head_spec b m H L p o :
  rep b m H (λ _, False) L → in_zone b p →
  is_free_head b m p o = true ↔ H !! p = Some (BuddyTag.Free, o).
Proof.
  intros HR Hp. unfold is_free_head. rewrite (proj2 (in_range_spec b p) Hp). simpl.
  rewrite <-(rep_heads _ _ _ _ _ HR p Hp) by tauto. unfold heads, head_of.
  destruct (fs_get m p) as [f|]; simpl; [|done].
  rewrite andb_true_iff, bool_decide_eq_true, Nat.eqb_eq.
  destruct (f_tag f); naive_solver.
Qed.

#[global] Instance same_use_refl : Reflexive same_use.
Proof. by split. Qed.
#[global] Instance same_use_trans : Transitive same_use.
Proof. intros H1 H2 H3 [Ha Hb] [Hc Hd]. split; intros; [by rewrite Hc, Ha|by rewrite Hd, Hb]. Qed.

(** What the coalescing loop maintains: the zone represents some [H'] with the
    same use of the frames as [H], in which only [head] may have a free
    buddy. *)
Definition coalescing (b : Buddy) (m : M) (H : blocks) (st : Buddy * M * Z * nat) : Prop :=
  let '(b', m', head, o) := st in
  b' = set_free (free b') b ∧ frames_kept F m m' ∧
  ∃ H' L, rep b' m' H' (λ _, False) L ∧ H' !! head = Some (BuddyTag.Free, o) ∧
    coalesced_except (base_pfn b) (max_order b) head H' ∧ same_use H H'.

Definition coalesce_done (b : Buddy) (m : M) (H : blocks) (st : Buddy * M) : Prop :=
  let '(b', m') := st in
  b' = set_free (free b') b ∧ frames_kept F m m' ∧
  ∃ H' L, rep b' m' H' (λ _, False) L ∧
    coalesced (base_pfn b) (max_order b) H' ∧ same_use H H'.

(** Merging a block with its free buddy. *)
Lemma merge_step_spec b m H L head o :
  rep b m H (λ _, False) L → owns F H → (o < max_order b)%nat →
  H !! head = Some (BuddyTag.Free, o) →
  H !! mate (base_pfn b) head o = Some (BuddyTag.Free, o) →
  let mt := mate (base_pfn b) head o in
  let h := Z.min head mt in
  wp ('(b, m) ← remove_free b m head o;
      '(b, m) ← remove_free b m mt o;
      lh ← local b head;
      lb ← local b mt;
      let head := if lh <? lb then head else mt in
      m ← mark_block_free_head b m head (S o);
      '(b, m) ← push_free b m head (S o);
      Ret (inl (B:=Buddy * M) (b, m, head, S o)))
     (λ r, ∃ b' m', r = inl (b', m', h, S o) ∧ b' = set_free (free b') b ∧
        frames_kept F m m' ∧
        ∃ L', rep b' m' (<[h:=(BuddyTag.Free, S o)]> (delete mt (delete head H))) (λ _, False) L').
Proof.
  intros HR HF Ho Hh Hmt mt h. pose proof HR as [Hz _ _ _ Hb].
  destruct (mate_place _ _ _ _ H head _ _ o Hb Ho Hh Hmt) as [Hpl Hne].
  fold mt in Hmt, Hpl, Hne. fold h in Hpl.
  destruct (Hb _ _ _ Hh) as (_ & [_ Hlo _ Hal _] & _). destruct (Hb _ _ _ Hmt) as (_ & [_ Hlo' _ _ _] & _).
  assert (∀ q, in_block h (S o) q → F q) as HFh.
  { intros q Hq. destruct (proj1 (mate_block (base_pfn b) head o q Hlo Hal) Hq).
    - by apply (owns_head F H head o).
    - by apply (owns_head F H mt o). }
  apply wp_bind. eapply wp_mono; [by eapply rep_remove|].
  intros [b1 m1] (Hb1 & (L1 & HR1) & Hk1). rewrite Hb1 in HR1 |- *. clear Hb1.
  apply wp_bind. eapply wp_mono; [apply (rep_remove _ _ _ _ _ _ _ HR1); [by rewrite lookup_delete_ne|by apply owns_delete]|].
  intros [b2 m2] (Hb2 & (L2 & HR2) & Hk2). rewrite Hb2 in HR2 |- *. clear Hb2.
  apply wp_bind, wp_sub64; [simpl; lia|]. apply wp_bind, wp_sub64; [simpl; lia|]. simpl.
  replace (if head - base_pfn b <? mt - base_pfn b then head else mt) with h.
  2:{ unfold h. destruct (Z.ltb_spec (head - base_pfn b) (mt - base_pfn b)); lia. }
  assert (frames_kept F m m2) as Hk by (by etrans).
  apply wp_bind. eapply wp_mono.
  { eapply (rep_mark _ _ _ _ _ h (S o)); [exact HR2| | |done].
    - eapply zone_place_kept; [apply Hk|]. exact Hpl.
    - intros q Hq. eapply merge_untaken; done. }
  intros m3 [HR3 Hk3]. apply wp_bind. eapply wp_mono.
  { eapply (rep_push _ _ _ (λ _, False)).
    - eapply rep_weaken; [|exact HR3]. intros p _ [[HX Hout]|Hp]; [|by right].
      exfalso. apply Hout, mate_block; [done|apply (Hb _ _ _ Hh)|].
      destruct HX as [[[]| ->]| ->]; [left|right]; apply in_block_head.
    - eapply zone_place_kept; [|exact Hpl]. intros q. transitivity (statics m2 q); [apply Hk3|apply Hk].
    - intros q Hq. eapply merge_untaken; done.
    - by do 2 apply owns_delete.
    - done. }
  intros [b4 m4] (Hb4 & (L4 & HR4) & Hk4). apply wp_ret. exists b4, m4.
  split; [done|]. split; [by rewrite Hb4|]. split; [|eauto].
  etrans; [exact Hk|]. etrans; [exact Hk3|]. exact Hk4.
Qed.

Lemma coalesce_up_spec b m H L head o :
  rep b m H (λ _, False) L → owns F H → H !! head = Some (BuddyTag.Free, o) →
  coalesced_except (base_pfn b) (max_order b) head H →
  wp (coalesce_up b m head o) (coalesce_done b m H).
Proof.
  intros HR HF Hh Hc. unfold coalesce_up.
  apply (wp_iter _ _ _ (coalescing b m H) (λ '(_, _, _, o), (max_order b - o)%nat)).
  { split; [by destruct b|]. split; [done|]. exists H, L. done. }
  { lia. }
  intros [[[b1 m1] h] o1] (Hb1 & Hk & H1 & L1 & HR1 & Hh1 & Hc1 & Hu1).
  pose proof (rep_blocks _ _ _ _ _ HR1) as Hblk. destruct (Hblk _ _ _ Hh1) as (_ & Hpl & _).
  assert (max_order b = max_order b1 ∧ base_pfn b = base_pfn b1) as [Emo Eb] by (by rewrite Hb1).
  rewrite Emo, Eb in Hc1.
  set (mt := mate (base_pfn b1) h o1).
  assert (∀ P : Buddy * M * Z * nat → Prop,
    ((o1 < max_order b1)%nat → H1 !! mt ≠ Some (BuddyTag.Free, o1)) →
    wp (Ret (inr (b1, m1))) (λ r, match r with inl a => P a | inr st => coalesce_done b m H st end)) as Hexit.
  { intros P Hn. apply wp_ret. split; [done|]. split; [done|]. exists H1, L1. split; [done|].
    rewrite Emo, Eb. split; [|done]. by eapply coalesced_of_except. }
  unfold coalesce_step. destruct (Nat.ltb_spec o1 (max_order b1)) as [Hlt|Hge].
  2:{ apply Hexit. lia. }
  apply wp_bind. eapply wp_mono; [apply (buddy_of_spec b1 m1); [apply HR1|done]|]. fold mt. simpl.
  intros r. destruct (Z.ltb_spec (base_pfn b1 + pages b1) (mt + psize o1)) as [Hout|Hin].
  { intros ->. apply Hexit. intros _ Hmt. destruct (Hblk _ _ _ Hmt) as (_ & [_ _ Hhi _ _] & _). lia. }
  intros [-> Hz]. pose proof (is_free_head_spec b1 m1 H1 L1 mt o1 HR1 Hz) as Hif.
  destruct (is_free_head b1 m1 mt o1) eqn:E; simpl.
  2:{ apply Hexit. intros _ Hmt. by apply Hif in Hmt. }
  destruct Hif as [Hmt _]. specialize (Hmt eq_refl).
  eapply wp_mono; [apply (merge_step_spec b1 m1 H1 L1 h o1); [done|by eapply owns_same|done..]|].
  intros r (b2 & m2 & -> & Hb2 & Hk2 & L2 & HR2). split; [|lia].
  split; [by rewrite Hb2, Hb1|]. split; [by etrans|].
  destruct (mate_place _ _ _ _ H1 h _ _ o1 Hblk Hlt Hh1 Hmt) as [_ Hne].
  eexists _, L2. split; [exact HR2|]. rewrite lookup_insert_eq. split; [done|]. split.
  - rewrite Emo, Eb. by apply merge_coalesced.
  - etrans; [exact Hu1|]. by eapply merge_same_use.
Qed.

End owned.

(** ** Allocation *)

Lemma find_order_spec b m L order :
  lists b m L → (max_order b ≤ MAX_ORDER)%nat →
  wp (find_order b order) (λ r,
    match r with
    | Some o => (order ≤ o ≤ max_order b)%nat ∧ L o ≠ []
    | None => ∀ o, (order ≤ o ≤ max_order b)%nat → L o = []
    end).
Proof.
  intros HL Hmo. unfold find_order. apply wp_bind.
  apply (wp_for_each_ret _ _ _ (λ done _, ∀ o, o ∈ done → L o = [])).
  - by intros o ?%elem_of_nil.
  - intros done o rest [] Heq Hdone.
    assert (o ∈ seq order (S (max_order b) - order)) as Ho%elem_of_seq.
    { rewrite Heq. apply elem_of_app. right. by left. }
    apply wp_bind, (wp_arr_get _ _ (head_or (L o) INVALID_PFN)); [apply HL; lia|].
    apply wp_ret. destruct (Z.eqb_spec (head_or (L o) INVALID_PFN) INVALID_PFN) as [E|E].
    + intros o' [Ho'|Ho'%list_elem_of_singleton]%elem_of_app; [by apply Hdone|]. subst.
      eapply lists_nonempty; [done|lia|]. rewrite (lists_head _ _ _ HL) by lia. by rewrite E.
    + split; [lia|]. intros E'. by rewrite E' in E.
  - intros [] Hall. apply wp_ret. intros o Ho. apply Hall, elem_of_seq. lia.
Qed.

(** Recording an allocated block at [head] while its tag is not written yet. *)
Lemma rep_ghost b m H L head o :
  rep b m H (λ p, p = head) L → (∀ o', H !! head ≠ Some (BuddyTag.Free, o')) →
  zone_blocks b m (<[head:=(BuddyTag.Allocated, o)]> H) →
  rep b m (<[head:=(BuddyTag.Allocated, o)]> H) (λ p, p = head) L.
Proof.
  intros [Hz Hl Hm Hh Hb] Hn Hb'. split; try done.
  - intros o' p. rewrite Hm. destruct (decide (p = head)) as [->|Hne].
    + rewrite lookup_insert_eq. split; [intros ?; by destruct (Hn o')|done].
    + by rewrite lookup_insert_ne.
  - intros p Hp Hne. rewrite lookup_insert_ne by done. by apply Hh.
Qed.

Definition splitting (b : Buddy) (m : M) (H : blocks) (head : Z) (lo hi : nat)
    (st : Buddy * M * nat) : Prop :=
  let '(b', m', cur) := st in
  same_zone b b' ∧ frames_kept (free_at H) m m' ∧ (lo ≤ cur ≤ hi)%nat ∧
  ∃ H' L, rep b' m' H' (λ p, p = head) L ∧ allocated H head cur H' ∧
    coalesced (base_pfn b) (max_order b) H' ∧ free_pages b' = free_count b' H'.

Lemma free_count_bound b H : zone_ok b → 0 ≤ free_count b H ≤ pages b.
Proof. intros Hz. apply count_bound, Hz. Qed.

Lemma split_step_spec b m H head lo hi st :
  splitting b m H head lo hi st →
  wp (split_step head lo st) (λ r,
    match r with
    | inl st' => splitting b m H head lo hi st' ∧ (st'.2 - lo < st.2 - lo)%nat
    | inr (b', m') => splitting b m H head lo hi (b', m', lo)
    end).
Proof.
  destruct st as [[b1 m1] cur]. intros (Hsz & Hk & Hcur & H1 & L1 & HR1 & Ha & Hc & Hfp).
  unfold split_step. destruct (Nat.ltb_spec lo cur) as [Hlt|Hge].
  2:{ apply wp_ret. assert (cur = lo) as -> by lia. do 3 (split; [done|]). by exists H1, L1. }
  destruct cur as [|c]; [lia|]. replace (S c - 1)%nat with c by lia.
  pose proof HR1 as [Hz _ _ _ Hb]. pose proof (al_block _ _ _ _ Ha) as Hh.
  destruct (split_place _ _ _ _ H1 head _ c Hb Hh) as (Hpl & Hplb & Hm).
  pose proof (pl_order _ _ _ _ _ _ Hpl) as Hcm. pose proof (zone_order _ Hz).
  pose proof (psize_pos c).
  apply wp_bind. eapply wp_mono; [by apply (buddy_of_spec b1 m1)|]. simpl. rewrite Hm.
  rewrite (proj2 (Z.ltb_ge _ _)) by (destruct Hplb; lia).
  intros r [-> _]. apply wp_bind, (wp_unwrap _ (head + psize c)); [done|].
  assert (owns (free_at H) (<[head:=(BuddyTag.Allocated, c)]> H1)) as Hown.
  { intros q (p & o & [[_ [=]]|[_ Hp]]%lookup_insert_Some & Hq)%free_at_spec.
    apply (al_free _ _ _ _ Ha), free_at_spec. eauto. }
  assert (∀ q, in_block (head + psize c) c q → free_at H q) as Hownb.
  { intros q Hq. apply (al_was_free _ _ _ _ Ha). unfold in_block in *. rewrite psize_S. lia. }
  assert (rep b1 m1 (<[head:=(BuddyTag.Allocated, c)]> H1) (λ p, p = head) L1) as HR1'.
  { apply rep_ghost; [done|intros o'; by rewrite Hh|]. by apply blocks_shrink. }
  apply wp_bind. eapply wp_mono.
  { eapply (rep_mark (free_at H) _ _ _ _ _ (head + psize c) c); [exact HR1'|exact Hplb| |done].
    intros q Hq. by eapply split_untaken. }
  intros m2 [HR2 Hk2]. apply wp_bind. eapply wp_mono.
  { eapply (rep_push (free_at H) _ _ _ (λ p, p = head)).
    - eapply rep_weaken; [|exact HR2]. simpl. tauto.
    - eapply zone_place_kept; [apply Hk2|exact Hplb].
    - intros q Hq. by eapply split_untaken.
    - done.
    - done. }
  intros [b3 m3] (Hb3 & (L3 & HR3) & Hk3).
  apply wp_bind, wp_order_pages; [lia|].
  destruct (allocated_split _ _ _ _ H H1 head c Hb Ha) as [Ha' HF].
  assert (free_pages b3 + psize c = free_count b1
    (<[head + psize c:=(BuddyTag.Free, c)]> (<[head:=(BuddyTag.Allocated, c)]> H1))) as Hcount.
  { rewrite Hb3. simpl. rewrite Hfp. symmetry.
    apply (count_add _ _ (head + psize c) c); [by destruct Hplb|by destruct Hplb|done|].
    intros q Hq Hin. apply (al_free _ _ _ _ Ha) in Hq as [_ Hq]. apply Hq.
    unfold in_block in *. rewrite psize_S. lia. }
  pose proof (free_count_bound b1 (<[head + psize c:=(BuddyTag.Free, c)]>
    (<[head:=(BuddyTag.Allocated, c)]> H1)) Hz) as Hbd.
  apply wp_bind, wp_add64; [destruct Hz; unfold u64_max; lia|]. apply wp_ret. split; [|simpl; lia].
  assert (same_zone b b3) as Hsz3 by (rewrite Hb3; exact Hsz).
  split; [exact Hsz3|]. split.
  { etrans; [exact Hk|]. etrans; done. }
  split; [lia|]. eexists _, L3. split.
  { destruct HR3 as [Hz3 [] ? ? ?]. split; [by apply (zone_ok_same b3)|by split|done..]. }
  split; [exact Ha'|]. destruct Hsz as (Eb & Ep & Em). split.
  - rewrite <-Eb, <-Em. eapply split_coalesced; [done..|]. by rewrite Eb, Em.
  - simpl. rewrite Hcount. unfold free_count. simpl. by rewrite Hb3.
Qed.

Lemma inv_largest b m H L order :
  rep b m H (λ _, False) L → (∀ o, (order ≤ o ≤ max_order b)%nat → L o = []) →
  ¬ ∃ p o, (order ≤ o)%nat ∧ H !! p = Some (BuddyTag.Free, o).
Proof.
  intros HR Hall (p & o & Ho & Hp). pose proof (rep_blocks _ _ _ _ _ HR _ _ _ Hp) as (_ & [Hmo _ _ _ _] & _).
  apply (rep_mem _ _ _ _ _ HR) in Hp. rewrite Hall in Hp by lia. by apply elem_of_nil in Hp.
Qed.

Lemma alloc_spec b m H order :
  inv b m H →
  wp (alloc b m order) (λ '(r, b', m'),
    match r with
    | None => b' = b ∧ m' = m ∧ ¬ ∃ p o, (order ≤ o)%nat ∧ H !! p = Some (BuddyTag.Free, o)
    | Some head => same_zone b b' ∧ frames_kept (free_at H) m m' ∧ unlinked m' head ∧
        ∃ H', inv b' m' H' ∧ allocated H head order H'
    end).
Proof.
  intros ([L HR] & Hc & Hfp). pose proof HR as [Hz Hl _ _ Hb]. pose proof (zone_order _ Hz) as Hmo.
  unfold alloc. destruct (Nat.ltb_spec (max_order b) order) as [Hlt|Hge].
  { apply wp_ret. do 2 (split; [done|]). apply (inv_largest b m H L); [done|lia]. }
  apply wp_bind. eapply wp_mono; [by eapply find_order_spec|].
  intros [fo|] Hfo; [|apply wp_ret; do 2 (split; [done|]); by apply (inv_largest b m H L)].
  destruct Hfo as [Hfo HLne]. destruct (L fo) as [|head l] eqn:E; [done|].
  apply wp_bind. eapply wp_mono; [apply (rep_pop (free_at H) b m H (λ _, False) L head l); [done|lia|done|by intros q]|].
  intros [[r b1] m1] (-> & Hb1 & Hhead & (L1 & HR1) & Hk1).
  pose proof (allocated_whole _ _ _ _ H head fo Hb Hhead) as Ha.
  destruct (Hb _ _ _ Hhead) as (_ & Hpl & _).
  apply wp_bind, wp_order_pages; [lia|].
  assert (free_pages b = free_count b (<[head:=(BuddyTag.Allocated, fo)]> (delete head H)) + psize fo) as Hcount.
  { rewrite Hfp. unfold free_count. apply (count_add _ _ head fo); [by destruct Hpl|by destruct Hpl| |].
    - intros q. rewrite (al_free _ _ _ _ Ha). pose proof (al_was_free _ _ _ _ Ha q).
      destruct (decide (in_block head fo q)); tauto.
    - intros q. rewrite (al_free _ _ _ _ Ha). tauto. }
  pose proof (free_count_bound b (<[head:=(BuddyTag.Allocated, fo)]> (delete head H)) Hz) as Hbd.
  apply wp_bind. rewrite Hb1. cbn [free_pages set_free]. apply wp_sub64; [lia|].
  apply wp_bind. apply (wp_iter _ _ _ (splitting b m H head order fo) (λ st, (st.2 - order)%nat)).
  - split; [done|]. split; [exact Hk1|]. split; [lia|]. eexists _, L1.
    split; [|split; [exact Ha|split; [by apply alloc_coalesced|]]].
    2:{ unfold free_count in *. simpl. lia. }
    rewrite Hb1 in HR1. apply rep_ghost.
    + apply (rep_weaken _ _ _ (λ p, False ∨ p = head)); [tauto|].
      destruct HR1 as [Hz1 [] ? ? ?]. split; [by apply (zone_ok_same b)|by split|done..].
    + intros o'. by rewrite lookup_delete_eq.
    + apply blocks_place; [apply (rep_blocks _ _ _ _ _ HR1)|done| |].
      * eapply zone_place_kept; [apply Hk1|exact Hpl].
      * intros q Hq. rewrite (taken_delete _ _ _ _ _ _ _ _ _ Hb Hhead). tauto.
  - simpl. lia.
  - intros st Hst. eapply wp_mono; [by apply split_step_spec|].
    intros [st'|[b2 m2]]; [done|]. intros (Hsz & Hk & _ & H2 & L2 & HR2 & Ha2 & Hc2 & Hf2).
    apply wp_bind. eapply wp_mono; [apply (rep_mark_allocated (free_at H)); [exact HR2|apply Ha2|]|].
    { apply (al_was_free _ _ _ _ Ha2), in_block_head. }
    intros m3 (HR3 & Hk3 & Hl3). apply wp_ret. split; [done|]. split; [by etrans|].
    split; [done|]. exists H2. split; [|done]. split; [eauto|]. destruct Hsz as (Eb & _ & Em). by rewrite Eb, Em.
Qed.

(** ** Release and boot-time insertion *)

(** Both end the same way: the block is pushed on its list and coalesced. *)
Lemma push_coalesce_spec F b m H L head o :
  rep b m H (λ p, p = head) L → coalesced (base_pfn b) (max_order b) H →
  zone_place b m head o → (∀ q, in_block head o q → ¬ taken H q) →
  owns F H → (∀ q, in_block head o q → F q) →
  free_pages b = free_count b H →
  wp (fp ← add64 (free_pages b) (psize o);
      '(b, m) ← push_free (set_free_pages fp b) m head o;
      coalesce_up b m head o) (λ '(b', m'),
    same_zone b b' ∧ frames_kept F m m' ∧
    ∃ H', inv b' m' H' ∧ same_use (<[head:=(BuddyTag.Free, o)]> H) H').
Proof.
  intros HR Hc Hpl Hnt HF Hblk Hfp. set (H1 := <[head:=(BuddyTag.Free, o)]> H).
  pose proof (rep_zone _ _ _ _ _ HR) as Hz.
  assert (H !! head = None) as Hnone by (apply not_taken_none, Hnt, in_block_head).
  assert (free_pages b + psize o = free_count b H1) as Hcount.
  { rewrite Hfp. symmetry. apply (count_add _ _ head o); [by destruct Hpl|by destruct Hpl| |].
    - intros q. unfold H1. rewrite free_at_insert by done. tauto.
    - intros q Hq Hin. by apply (Hnt q Hin), free_at_taken. }
  pose proof (free_count_bound b H1 Hz) as Hbd.
  apply wp_bind, wp_add64; [destruct Hz; unfold u64_max; lia|].
  set (b1 := set_free_pages _ b).
  assert (rep b1 m H (λ p, False ∨ p = head) L) as HR1.
  { destruct HR as [Hz' [] ? Hh ?]. split; [by apply (zone_ok_same b)|by split|done| |done].
    intros p Hp HX. apply Hh; tauto. }
  apply wp_bind. eapply wp_mono; [by eapply (rep_push F b1 m H (λ _, False))|].
  intros [b2 m2] (Hb2 & (L2 & HR2) & Hk2).
  eapply wp_mono.
  { apply (coalesce_up_spec F b2 m2 H1 L2 head o); [done|by apply owns_insert|by apply lookup_insert_eq|].
    rewrite Hb2. by apply coalesced_insert. }
  intros [b3 m3] (Hb3 & Hk3 & H3 & L3 & HR3 & Hc3 & Hu3).
  assert (same_zone b b3 ∧ free_pages b3 = free_pages b1) as [Hsz Hf3] by (by rewrite Hb3, Hb2).
  split; [done|]. split; [by etrans|].
  exists H3. split; [|done]. split; [by exists L3|]. split; [by rewrite Hb3|].
  rewrite Hf3. simpl. rewrite Hcount. unfold free_count. destruct Hsz as (-> & -> & _).
  apply count_ext. intros q _. symmetry. apply Hu3.
Qed.

Lemma released_intro H H' head o :
  H !! head = None → same_use (<[head:=(BuddyTag.Free, o)]> H) H' → released H head o H'.
Proof.
  intros Hn [Hf Ha]. split.
  - intros q. rewrite Hf, free_at_insert by done. tauto.
  - intros p o'. rewrite Ha. destruct (decide (p = head)) as [->|].
    + rewrite lookup_insert_eq. naive_solver.
    + rewrite lookup_insert_ne by done. naive_solver.
Qed.

(** [free]'s debug check of the inner frames passes. *)
Lemma inner_unused_check b m H L m1 head o :
  rep b m H (λ _, False) L → H !! head = Some (BuddyTag.Allocated, o) →
  (∀ p, p ≠ head → fs_get m1 p = fs_get m p) →
  wp (for_each (λ i (_ : unit),
        p ← add64 head i;
        f ← frame_get m1 p;
        assert (bool_decide (f_tag f = BuddyTag.Unused))) (seqZ 1 (psize o - 1)) ()) (λ _, True).
Proof.
  intros [Hz _ _ Hheads Hb] Hh Hm1. destruct (Hb _ _ _ Hh) as (_ & Hpl & Hin).
  apply (wp_for_each _ _ _ (λ _ _, True)); [done| |done].
  intros done i rest [] Heq _.
  assert (i ∈ seqZ 1 (psize o - 1)) as Hi by (rewrite Heq; apply elem_of_app; right; by left).
  assert (in_block head o (head + i)) as Hblk by (apply in_block_split; eauto).
  apply elem_of_seqZ in Hi. pose proof (place_in_zone _ _ _ _ _ Hpl Hblk) as Hzi.
  destruct (zone_pfn_valid _ _ Hz Hzi) as [_ Hv].
  apply wp_bind, wp_add64; [unfold u64_max; lia|].
  destruct (pl_usable _ _ _ _ _ _ Hpl _ Hblk) as (fi & Hfi & _).
  apply wp_bind. eapply wp_frame_get; [rewrite Hm1 by lia; done|].
  apply wp_assert; [|done]. apply bool_decide_eq_true_2.
  pose proof (Hheads _ Hzi ltac:(tauto)) as Hnone. rewrite (Hin _ Hblk) in Hnone by lia.
  unfold heads in Hnone. rewrite Hfi in Hnone. simpl in Hnone. unfold head_of in Hnone.
  by destruct (f_tag fi).
Qed.

(** Forgetting an allocated block, whatever is written to its head's tag. *)
Lemma rep_forget F b m H L head o f g :
  F head → rep b m H (λ _, False) L → H !! head = Some (BuddyTag.Allocated, o) →
  fs_get m head = Some f → f_state g = f_state f → f_zone g = f_zone f →
  rep b (fs_set m head g) (delete head H) (λ p, p = head) L ∧
  frames_kept F m (fs_set m head g).
Proof.
  intros HF [Hz Hl Hm Hheads Hb] Hh Hf Hgs Hgz.
  pose proof (statics_set m head f g Hf Hgs Hgz) as Hs. split; [split|split]; try done.
  - eapply lists_frame; [|done]. intros o' p Hp. apply fs_get_set_ne. intros <-.
    apply Hm in Hp. congruence.
  - intros o' p. rewrite Hm, lookup_delete_Some. naive_solver.
  - intros p Hp Hne. rewrite lookup_delete_ne by done. unfold heads.
    rewrite fs_get_set_ne by done. apply Hheads; tauto.
  - apply (zone_blocks_kept b m); [done|]. by apply blocks_delete.
  - intros p Hp. apply fs_get_set_ne. by intros <-.
Qed.

Lemma coalesced_delete base mo H p : coalesced base mo H → coalesced base mo (delete p H).
Proof.
  intros Hc p' o' Ho' [_ Hp]%lookup_delete_Some. rewrite lookup_delete_Some.
  intros [_ Hp']. by apply (Hc p' o').
Qed.

(** Deleting an allocated block does not change the free frames. *)
Lemma free_at_delete_allocated b m H p o q :
  zone_blocks b m H → H !! p = Some (BuddyTag.Allocated, o) →
  free_at (delete p H) q ↔ free_at H q.
Proof.
  intros Hb Hp. rewrite (free_at_delete _ _ _ _ _ _ _ _ _ Hb Hp). split; [tauto|].
  intros Hq. split; [done|]. intros Hq'. apply free_at_spec in Hq as (p' & o' & Hp' & Hpq).
  assert (p' = p) by (by eapply blocks_disjoint). congruence.
Qed.

Lemma rep_head_frame b m H L p t o :
  rep b m H (λ _, False) L → H !! p = Some (t, o) →
  ∃ f, fs_get m p = Some f ∧ f_tag f = t ∧ f_order f = o.
Proof.
  intros [Hz Hl Hm Hheads Hb] Hp. pose proof (block_in_zone _ _ _ _ _ _ p Hb Hp (in_block_head _ _)) as Hin.
  pose proof (Hheads p Hin ltac:(tauto)) as Hhd. rewrite Hp in Hhd. unfold heads in Hhd.
  destruct (fs_get m p) as [f|]; simpl in Hhd; [|done]. exists f. unfold head_of in Hhd.
  destruct (f_tag f); naive_solver.
Qed.

Lemma free_block_spec b m H head o :
  inv b m H → H !! head = Some (BuddyTag.Allocated, o) →
  wp (free_block b m head) (λ '(b', m'),
    same_zone b b' ∧ frames_kept (λ q, free_at H q ∨ in_block head o q) m m' ∧
    ∃ H', inv b' m' H' ∧ released H head o H').
Proof.
  intros ([L HR] & Hc & Hfp) Hh. pose proof (rep_blocks _ _ _ _ _ HR) as Hb.
  destruct (Hb _ _ _ Hh) as (_ & Hpl & _). pose proof (rep_order _ _ _ _ _ _ _ _ HR Hh) as Ho.
  destruct (rep_head_frame _ _ _ _ _ _ _ HR Hh) as (f & Hf & Ht & Hfo).
  unfold free_block. apply wp_bind, wp_assert.
  { apply in_range_spec. eapply block_in_zone; [done..|apply in_block_head]. }
  apply wp_bind. eapply wp_frame_get; [done|].
  apply wp_bind, wp_assert; [by apply bool_decide_eq_true_2|].
  apply wp_bind. eapply wp_frame_upd; [done|]. set (g := set_next _ _). set (m1 := fs_set m head g).
  rewrite Hfo. apply wp_bind, wp_order_pages; [done|].
  apply wp_bind. eapply wp_mono; [eapply inner_unused_check; [done..|]|].
  { intros p Hp. by apply fs_get_set_ne. }
  intros [] _. set (F := λ q, free_at H q ∨ in_block head o q).
  destruct (rep_forget F b m H L head o f g) as [HR1 Hk1]; [right; apply in_block_head|done..|].
  eapply wp_mono.
  { apply (push_coalesce_spec F b m1 (delete head H) L head o); [done|by apply coalesced_delete| | | | |].
    - eapply zone_place_kept; [apply Hk1|exact Hpl].
    - intros q Hq. rewrite (taken_delete _ _ _ _ _ _ _ _ _ Hb Hh). tauto.
    - apply owns_delete. intros q Hq. by left.
    - intros q Hq. by right.
    - rewrite Hfp. apply count_ext. intros q _. symmetry. by eapply free_at_delete_allocated. }
  intros [b' m'] (Hsz & Hk & H' & Hinv & Hu'). split; [done|]. split; [by etrans|].
  exists H'. split; [done|].
  destruct (released_intro _ _ _ _ (lookup_delete_eq H head) Hu') as [Hrf Hra]. split.
  - intros q. by rewrite Hrf, (free_at_delete_allocated b m H head o q).
  - intros p o'. rewrite Hra, lookup_delete_Some. naive_solver.
Qed.

(** ** Building a zone *)

Lemma insert_block_boot_spec b m H head o :
  inv b m H → zone_place b m head o → (∀ q, in_block head o q → ¬ taken H q) →
  wp (insert_block_boot b m head o) (λ '(b', m'),
    same_zone b b' ∧ frames_kept (λ q, free_at H q ∨ in_block head o q) m m' ∧
    ∃ H', inv b' m' H' ∧ released H head o H').
Proof.
  intros ([L HR] & Hc & Hfp) Hpl Hnt. pose proof (rep_zone _ _ _ _ _ HR) as Hz.
  unfold insert_block_boot. apply wp_bind, wp_assert; [apply Nat.leb_le, Hpl|].
  apply wp_bind, wp_assert.
  { apply in_range_spec. eapply place_in_zone; [done|apply in_block_head]. }
  set (F := λ q, free_at H q ∨ in_block head o q).
  apply wp_bind. eapply wp_mono; [eapply (rep_mark F); [done..|]; by right|]. intros m1 [HR1 Hk1].
  apply wp_bind, wp_order_pages; [destruct Hpl, Hz; lia|].
  eapply wp_mono.
  { apply (push_coalesce_spec F b m1 H L head o); [|done| |done|by left|by right|done].
    - eapply rep_weaken; [|exact HR1]. simpl. naive_solver.
    - eapply zone_place_kept; [apply Hk1|done]. }
  intros [b' m'] (Hsz & Hk & H' & Hinv & Hu'). split; [done|]. split; [by etrans|].
  exists H'. split; [done|]. apply released_intro; [|done]. apply not_taken_none, Hnt, in_block_head.
Qed.

Lemma psize_log2 o x : 0 < x → (o ≤ Z.to_nat (Z.log2 x))%nat → psize o ≤ x.
Proof.
  intros Hx Ho. pose proof (Z.log2_nonneg x). transitivity (2 ^ Z.log2 x).
  - apply Z.pow_le_mono_r; lia.
  - by apply Z.log2_spec.
Qed.

Lemma max_block_order_for_spec p r :
  0 ≤ p → 0 < r ≤ u64_max →
  wp (max_block_order_for p r) (λ o, psize o ≤ r ∧ (psize o | p)).
Proof.
  intros Hp Hr. unfold max_block_order_for. rewrite (proj2 (Z.eqb_neq _ _)) by lia.
  apply wp_bind. unfold buddy_floor_log2. apply wp_bind, wp_assert; [apply Z.ltb_lt; lia|].
  apply wp_floor_log2; [done|]. apply wp_ret. pose proof (Z.log2_nonneg r).
  split; [apply psize_log2; lia|].
  destruct (Z.eqb_spec p 0) as [->|Hne]; [apply Z.divide_0_r|].
  pose proof (trailing_zeros_nonneg p). unfold psize.
  rewrite Z2Nat.id by (unfold MAX_ORDER; lia).
  apply trailing_zeros_divide; unfold MAX_ORDER; lia.
Qed.

(** The frames of a run. *)
Definition in_run (start len q : Z) : Prop := start ≤ q < start + len.

Definition no_allocated (H : blocks) : Prop := ∀ p o, H !! p ≠ Some (BuddyTag.Allocated, o).

(** In a zone without allocated blocks, the frames of blocks are the free
    frames. *)
Lemma taken_free b m H q : zone_blocks b m H → no_allocated H → taken H q → free_at H q.
Proof.
  intros Hb Hn (p & t & o & Hp & Hq). destruct (Hb _ _ _ Hp) as (Ht & _ & _).
  apply free_at_spec. exists p, o. split; [|done]. destruct t; [done|done|by destruct (Hn p o)].
Qed.

Definition adding (b : Buddy) (m : M) (H : blocks) (start len : Z) (st : Buddy * M * Z * Z) : Prop :=
  let '(b', m', p, r) := st in
  same_zone b b' ∧ frames_kept (in_zone b) m m' ∧ start ≤ p ∧ 0 ≤ r ∧ p + r = start + len ∧
  ∃ H', inv b' m' H' ∧ no_allocated H' ∧
    ∀ q, free_at H' q ↔ free_at H q ∨ (start ≤ q < p).

Lemma add_run_step_spec b m H start len st :
  inv b m H → no_allocated H →
  base_pfn b ≤ start → start + len ≤ base_pfn b + pages b →
  (∀ q, in_run start len q → usable m q ∧ ¬ free_at H q) →
  adding b m H start len st →
  wp (add_run_step st) (λ r,
    match r with
    | inl st' => adding b m H start len st' ∧ (Z.to_nat st'.2 < Z.to_nat st.2)%nat
    | inr (b', m') => adding b m H start len (b', m', start + len, 0)
    end).
Proof.
  intros Hinv Hna Hlo Hhi Hrun. destruct st as [[[b1 m1] p] r].
  intros (Hsz & Hk & Hp & Hr & Hpr & H1 & Hinv1 & Hna1 & HF1).
  unfold add_run_step. destruct (Z.ltb_spec 0 r) as [Hr0|Hr0].
  2:{ apply wp_ret. assert (r = 0) as -> by lia. assert (p = start + len) as -> by lia.
      do 5 (split; [done|]). by exists H1. }
  pose proof Hinv as ([L0 HR0] & _). pose proof (rep_zone _ _ _ _ _ HR0) as Hz0.
  pose proof Hsz as (Eb & Ep & Em). destruct Hz0 as [Hb0 Hp0 Hlim Hmo Hal].
  apply wp_bind. eapply wp_mono; [apply max_block_order_for_spec; unfold u64_max; lia|].
  intros o0 [Hsize Hdiv]. set (o := Nat.min o0 (max_order b1)).
  assert (psize o ≤ r) as Ho by (transitivity (psize o0); [apply psize_le; lia|done]).
  pose proof (psize_pos o).
  assert (zone_place b1 m1 p o) as Hpl.
  { split; rewrite ?Eb, ?Ep; [unfold o; lia|lia|lia| |].
    - apply Z.divide_sub_r; [transitivity (psize o0)|transitivity (psize (max_order b))];
        [apply psize_divide; lia|done|apply psize_divide; lia|done].
    - intros q Hq. eapply statics_usable; [apply Hk|]. apply Hrun. unfold in_run, in_block in *. lia. }
  apply wp_bind. eapply wp_mono.
  { apply (insert_block_boot_spec b1 m1 H1 p o); [done..|].
    intros q Hq Htk. destruct Hinv1 as ([L1 HR1] & _).
    apply (taken_free b1 m1) in Htk; [|apply HR1|done]. apply HF1 in Htk.
    destruct (Hrun q) as [_ Hnf]; unfold in_run, in_block in *; [lia|]. destruct Htk; [done|lia]. }
  intros [b2 m2] (Hsz2 & Hk2 & H2 & Hinv2 & [HF2 HA2]).
  apply wp_bind, wp_order_pages; [unfold o; lia|].
  apply wp_bind, wp_add64; [unfold u64_max; lia|]. apply wp_bind, wp_sub64; [lia|].
  apply wp_ret. split; [|simpl; lia].
  split; [unfold same_zone in *; naive_solver congruence|].
  split.
  { etrans; [exact Hk|]. eapply frames_kept_mono; [|exact Hk2]. intros q Hq.
    cut (in_zone b1 q); [unfold in_zone; by rewrite Eb, Ep|].
    destruct Hq as [Hq|Hq]; [|by eapply place_in_zone].
    destruct Hinv1 as ([L1 HR1] & _). eapply free_in_zone; [apply HR1|done]. }
  do 3 (split; [lia|]). exists H2. split; [done|]. split.
  - intros p' o' Hp'. apply HA2 in Hp' as [_ Hp']. by apply (Hna1 p' o').
  - intros q. rewrite HF2, HF1. unfold in_block.
    assert (start ≤ q < p + psize o ↔ start ≤ q < p ∨ p ≤ q < p + psize o) by lia. tauto.
Qed.

Lemma add_usable_run_spec b m H start len :
  inv b m H → no_allocated H → 0 ≤ start → 0 ≤ len → start + len ≤ 2 ^ 52 →
  (∀ q, in_zone b q → in_run start len q → usable m q ∧ ¬ free_at H q) →
  wp (add_usable_run b m start len) (λ '(b', m'),
    same_zone b b' ∧ frames_kept (in_zone b) m m' ∧
    ∃ H', inv b' m' H' ∧ no_allocated H' ∧
      ∀ q, free_at H' q ↔ free_at H q ∨ (in_zone b q ∧ in_run start len q)).
Proof.
  intros Hinv Hna Hs Hl Hlim Hrun. unfold add_usable_run, in_run, in_zone in *.
  pose proof Hinv as ([L0 HR0] & _). destruct (rep_zone _ _ _ _ _ HR0) as [Hb0 Hp0 Hzl _ _].
  assert (∀ (e : base_pfn b + pages b ≤ start ∨ start + len ≤ base_pfn b ∨ len = 0 ∨ pages b = 0),
    same_zone b b ∧ frames_kept (in_zone b) m m ∧ ∃ H', inv b m H' ∧ no_allocated H' ∧
      ∀ q, free_at H' q ↔ free_at H q ∨ ((base_pfn b ≤ q < base_pfn b + pages b) ∧
        start ≤ q < start + len)) as Hnop.
  { intros He. do 2 (split; [done|]). exists H. do 2 (split; [done|]). intros q. split; [tauto|].
    intros [?|?]; [done|lia]. }
  destruct ((len =? 0) || (pages b =? 0)) eqn:Hz.
  { apply wp_ret, Hnop. lia. }
  apply wp_bind, wp_add64; [unfold u64_max; lia|]. apply wp_bind, wp_add64; [unfold u64_max; lia|].
  set (ps := Z.max start (base_pfn b)). set (pe := Z.min (start + len) (base_pfn b + pages b)).
  destruct (Z.leb_spec pe ps) as [Hle|Hlt]; [apply wp_ret, Hnop; lia|].
  apply wp_bind, wp_sub64; [lia|].
  apply (wp_iter _ _ _ (adding b m H ps (pe - ps)) (λ st, Z.to_nat st.2)).
  - split; [done|]. split; [done|]. do 3 (split; [lia|]). exists H. do 2 (split; [done|]).
    intros q. split; [tauto|]. intros [?|?]; [done|lia].
  - simpl. lia.
  - intros st Hst. eapply wp_mono.
    { apply (add_run_step_spec b m H ps (pe - ps)); [done|done|lia|lia| |done].
      intros q Hq. unfold in_run in Hq. apply Hrun; lia. }
    intros [st'|[b' m']]; [done|]. intros (Hsz & Hk & _ & _ & _ & H' & Hi & Hn & HF).
    do 2 (split; [done|]). exists H'. do 2 (split; [done|]). intros q. rewrite HF.
    assert (ps ≤ q < ps + (pe - ps) ↔
      (base_pfn b ≤ q < base_pfn b + pages b) ∧ start ≤ q < start + len) by lia. tauto.
Qed.

(** A zone without blocks. *)
Lemma inv_empty b m :
  zone_ok b → free b = replicate (S MAX_ORDER) INVALID_PFN → free_pages b = 0 →
  (∀ p, in_zone b p → heads m p = None) → inv b m ∅.
Proof.
  intros Hz Hf Hfp Hh. split; [|split].
  - exists (λ _, []). split; [done| | |by intros p Hp _; rewrite Hh, lookup_empty|].
    + split; rewrite ?Hf; [done| |done|].
      * intros o Ho. apply lookup_replicate. split; [done|lia].
      * intros o. constructor.
    + intros o p. rewrite lookup_empty, elem_of_nil. naive_solver.
    + intros p t o. by rewrite lookup_empty.
  - intros p o _. by rewrite lookup_empty.
  - rewrite Hfp. symmetry. apply count_none. intros q _. rewrite free_at_spec.
    intros (p & o & Hp & _). by rewrite lookup_empty in Hp.
Qed.

Lemma reset_spec b m :
  zone_ok b →
  wp (reset b m) (λ '(b', m'), same_zone b b' ∧ frames_kept (in_zone b) m m' ∧ inv b' m' ∅).
Proof.
  intros Hz. unfold reset. set (b1 := set_free_pages 0 _).
  apply wp_bind. apply (wp_for_each _ _ _ (λ done m', frames_kept (in_zone b) m m' ∧
    ∀ i, i ∈ done → heads m' (base_pfn b + i) = None)).
  - split; [done|]. by intros i ?%elem_of_nil.
  - intros done i rest m1 Heq [Hk Hdone].
    assert (i ∈ seqZ 0 (pages b)) as Hi%elem_of_seqZ.
    { change (pages b) with (pages b1). rewrite Heq. apply elem_of_app. right. by left. }
    assert (in_zone b (base_pfn b + i)) as Hin by (unfold in_zone; lia).
    destruct (zone_pfn_valid _ _ Hz Hin) as [_ Hv].
    apply wp_bind, wp_add64; [unfold u64_max; simpl; lia|]. simpl.
    destruct (fs_get m1 (base_pfn b + i)) as [f|] eqn:Hf; apply wp_ret.
    + split.
      * etrans; [exact Hk|]. split; [by apply (statics_set m1 _ f)|].
        intros p Hp. apply fs_get_set_ne. by intros <-.
      * intros j [Hj|Hj%list_elem_of_singleton]%elem_of_app.
        -- destruct (decide (j = i)) as [->|]; [by eapply heads_set_unused|].
           unfold heads. rewrite fs_get_set_ne by lia. by apply Hdone.
        -- subst. by eapply heads_set_unused.
    + split; [done|]. intros j [Hj|Hj%list_elem_of_singleton]%elem_of_app; [by apply Hdone|].
      subst. unfold heads. by rewrite Hf.
  - intros m' [Hk Hall]. apply wp_ret. split; [done|]. split; [done|].
    apply inv_empty; [by apply (zone_ok_same b)|done|done|].
    intros p Hp. unfold in_zone in Hp. simpl in Hp. replace p with (base_pfn b + (p - base_pfn b)) by lia.
    apply Hall, elem_of_seqZ. simpl. lia.
Qed.

Lemma buddy_new_spec base n :
  0 ≤ base → 0 ≤ n → base + n ≤ 2 ^ 52 → (psize MAX_ORDER | base) →
  wp (buddy_new base n) (λ b, zone_ok b ∧ base_pfn b = base ∧ pages b = n ∧
    max_order b = Nat.min (Z.to_nat (Z.log2 n)) MAX_ORDER).
Proof.
  intros Hb Hn Hlim Hal. unfold buddy_new. apply wp_bind.
  apply (wp_mono _ (λ mo, mo = Nat.min (Z.to_nat (Z.log2 n)) MAX_ORDER)).
  - destruct (Z.eqb_spec n 0) as [->|Hne]; [done|].
    unfold buddy_floor_log2. apply wp_bind, wp_bind, wp_assert; [apply Z.ltb_lt; lia|].
    apply wp_floor_log2; [unfold u64_max; lia|]. apply wp_ret. lia.
  - intros mo ->. apply wp_ret. split; [|done].
    split; simpl; [lia|lia|lia|lia|]. transitivity (psize MAX_ORDER); [|done].
    apply psize_divide. lia.
Qed.
End spec.
