(* ===== verification/BuddyTheorems.v ===== *)
(** * The buddy allocator: properties

    Correctness of allocation and release, completeness of allocation,
    detection of double frees, and the safety of every sequence of client
    operations, for any frame store. *)
From stdpp Require Import functions.
From S2P Require Import Prelude Misc Frame Buddy BuddyLists BuddyBlocks BuddySpec.

(** ** A finite table of frames

    The simplest frame store; the witnesses below run on it. *)
Lemma frame_table_get_eq (m : gmap Z Frame) p f : is_Some (m !! p) → <[p:=f]> m !! p = Some f.
Proof. intros _. apply lookup_insert_eq. Qed.
Lemma frame_table_get_ne (m : gmap Z Frame) p q f : p ≠ q → <[p:=f]> m !! q = m !! q.
Proof. apply lookup_insert_ne. Qed.
#[global] Instance frame_table : FrameStore (gmap Z Frame) := {|
  fs_get m p := m !! p;
  fs_set m p f := <[p:=f]> m;
  fs_layout _ := ();
  fs_layout_set _ _ _ := eq_refl;
  fs_get_set_eq := frame_table_get_eq;
  fs_get_set_ne := frame_table_get_ne
|}.

(** A zone of eight usable frames, all in one free block of order 3. *)
Definition sample_frame (t : BuddyTag.t) (o : nat) : Frame :=
  mk_frame FrameState.Usable o t ZoneId.High INVALID_PFN INVALID_PFN.
Definition sample_store : gmap Z Frame :=
  <[0:=sample_frame BuddyTag.Free 3]>
    (list_to_map ((λ p, (p, sample_frame BuddyTag.Unused 0)) <$> seqZ 0 8)).
Definition sample_buddy : Buddy :=
  mk_buddy 0 8 3 (<[3%nat:=0]> (replicate 12 INVALID_PFN)) 8.
Definition sample_blocks : blocks := {[0 := (BuddyTag.Free, 3%nat)]}.

Lemma sample_store_get p :
  0 ≤ p < 8 →
  sample_store !! p = Some (if decide (p = 0) then sample_frame BuddyTag.Free 3
                            else sample_frame BuddyTag.Unused 0).
Proof.
  intros Hp.
  assert (p = 0 ∨ p = 1 ∨ p = 2 ∨ p = 3 ∨ p = 4 ∨ p = 5 ∨ p = 6 ∨ p = 7) as Hc by lia.
  destruct_or! Hc; subst p; vm_compute; reflexivity.
Qed.

Lemma sample_rep :
  rep sample_buddy sample_store sample_blocks (λ _, False)
      (<[3%nat:=[0]]> (λ _ : nat, [] : list Z)).
Proof.
  split.
  - split; simpl; try lia; try (unfold MAX_ORDER; lia). apply Z.divide_0_r.
  - split.
    + done.
    + intros o Ho. unfold MAX_ORDER in Ho.
      do 12 (destruct o as [|o]; [vm_compute; reflexivity|]). lia.
    + intros o. destruct (decide (o = 3)%nat) as [->|]; [|by rewrite fn_lookup_insert_ne].
      rewrite fn_lookup_insert. split; [|done]. split; [done|].
      exists (sample_frame BuddyTag.Free 3). vm_compute. done.
    + intros o. destruct (decide (o = 3)%nat) as [->|].
      * rewrite fn_lookup_insert. apply NoDup_singleton.
      * rewrite fn_lookup_insert_ne by done. constructor.
  - intros o p. unfold sample_blocks. rewrite lookup_singleton_Some.
    destruct (decide (o = 3)%nat) as [->|].
    + rewrite fn_lookup_insert, list_elem_of_singleton. naive_solver.
    + rewrite fn_lookup_insert_ne, elem_of_nil by done. naive_solver.
  - intros p Hp _. unfold in_zone in Hp. simpl in Hp. unfold heads. simpl.
    rewrite sample_store_get by done. unfold sample_blocks.
    case_decide; subst; [done|]. by rewrite lookup_singleton_ne.
  - intros p t o Hp. unfold sample_blocks in *.
    apply lookup_singleton_Some in Hp as [<- [= <- <-]]. split; [done|]. split.
    + split; simpl; [lia|lia|vm_compute; done|apply Z.divide_0_r|].
      intros q Hq. unfold in_block, psize in Hq. simpl in Hq. unfold usable. simpl.
      rewrite sample_store_get by lia. case_decide; eauto.
    + intros q _ Hq. by apply lookup_singleton_ne.
Qed.

Lemma sample_inv : inv sample_buddy sample_store sample_blocks.
Proof.
  split; [exists (<[3%nat:=[0]]> (λ _, [])); apply sample_rep|]. split.
  - intros p o Ho Hp. unfold sample_blocks in Hp. apply lookup_singleton_Some in Hp as [<- [= <-]]. simpl in Ho. lia.
  - vm_compute. reflexivity.
Qed.

Section theorems.
Context {M : Type} {FS : FrameStore M}.
Implicit Types (m : M) (b : Buddy) (H : blocks).

(** The states [alloc] and [free] may leave behind. *)
Definition alloc_result (b : Buddy) (m : M) (H : blocks) (order : nat)
    (x : option Z * Buddy * M) : Prop :=
  let '(r, b', m') := x in
  match r with
  | None => b' = b ∧ m' = m ∧ ¬ ∃ p o, (order ≤ o)%nat ∧ H !! p = Some (BuddyTag.Free, o)
  | Some head => same_zone b b' ∧ frames_kept (free_at H) m m' ∧ unlinked m' head ∧
      ∃ H', inv b' m' H' ∧ allocated H head order H'
  end.

Definition free_result (b : Buddy) (m : M) (H : blocks) (head : Z) (o : nat) (x : Buddy * M) : Prop :=
  let '(b', m') := x in
  same_zone b b' ∧ frames_kept (λ q, free_at H q ∨ in_block head o q) m m' ∧
  ∃ H', inv b' m' H' ∧ released H head o H'.

(** An aligned range of the zone that is entirely free. *)
Record free_range (b : Buddy) (H : blocks) (p : Z) (order : nat) : Prop := {
  fr_order : (order ≤ max_order b)%nat;
  fr_base : base_pfn b ≤ p;
  fr_align : (psize order | p - base_pfn b);
  fr_free : ∀ q, in_block p order q → free_at H q
}.

Definition held_block (H : blocks) (head : Z) (o : nat) : Prop :=
  H !! head = Some (BuddyTag.Allocated, o).

(** [alloc] never panics on a well-formed zone.  It fails only when no free
    block of the order or a larger one exists, and then changes nothing; when
    it succeeds the returned block is aligned, was entirely free, is now
    recorded as allocated and on no list, and no other free frame, allocated
    block or frame state is affected: only frames that were free are
    written. *)
Theorem buddy_alloc_correct b m H order :
  inv b m H →
  wp (alloc b m order) (alloc_result b m H order).
Proof. apply alloc_spec. Qed.

(** Releasing an allocated block never panics, makes exactly its frames free,
    keeps every other allocation, leaves the zone fully coalesced, and writes
    only the frames of the block and frames that were free. *)
Theorem buddy_free_correct b m H head o :
  inv b m H → held_block H head o → wp (free_block b m head) (free_result b m H head o).
Proof. apply free_block_spec. Qed.

(** Allocation is complete: whenever some aligned range of [2^order] frames is
    entirely free, [alloc] returns a block. *)
Theorem buddy_alloc_complete b m H order p :
  inv b m H → free_range b H p order →
  wp (alloc b m order) (λ '(r, _, _), is_Some r).
Proof.
  intros Hinv [Ho Hlo Hal Hall]. eapply wp_mono; [by apply alloc_spec|].
  intros [[[h|] b'] m']; [done|]. intros (_ & _ & Hn). destruct Hn.
  destruct Hinv as ([L HR] & Hc & _).
  destruct (free_range_contained _ _ _ _ H order p (rep_blocks _ _ _ _ _ HR) Hc Ho Hlo Hal Hall)
    as (p' & o' & Hp' & Hoo & _). eauto.
Qed.

(** The frame of an unallocated position of the zone fails [free]'s check. *)
Lemma free_unallocated b m H p f :
  inv b m H → in_zone b p → fs_get m p = Some f →
  (∀ o, H !! p ≠ Some (BuddyTag.Allocated, o)) → free_block b m p = Panic PAssert.
Proof.
  intros ([L HR] & _ & _) Hp Hf Hn. unfold free_block, assert.
  rewrite (proj2 (in_range_spec b p) Hp). simpl. unfold frame_get. rewrite Hf. simpl.
  rewrite bool_decide_eq_false_2; [done|]. intros Ht.
  pose proof (rep_heads _ _ _ _ _ HR p Hp ltac:(tauto)) as Hh. unfold heads in Hh.
  rewrite Hf in Hh. simpl in Hh. unfold head_of in Hh. rewrite Ht in Hh. by apply (Hn (f_order f)).
Qed.

(** A double free is detected: releasing a block a second time panics. *)
Theorem buddy_double_free_panics b m H head o b' m' :
  inv b m H → held_block H head o →
  free_block b m head = Ret (b', m') → free_block b' m' head = Panic PAssert.
Proof.
  intros Hinv Hh Hfree. pose proof (free_block_spec b m H head o Hinv Hh) as Hw.
  rewrite Hfree in Hw. destruct Hw as (Hsz & [Hs _] & H' & Hinv' & [_ Hra]).
  pose proof Hinv as ([L HR] & _). pose proof (rep_blocks _ _ _ _ _ HR) as Hb.
  destruct (rep_head_frame _ _ _ _ _ _ _ HR Hh) as (f & Hf & _).
  destruct (fs_get m' head) as [f'|] eqn:Hf'.
  2:{ specialize (Hs head). unfold statics in Hs. by rewrite Hf, Hf' in Hs. }
  eapply free_unallocated; [done| |done|].
  - destruct Hsz as (Eb & Ep & _). unfold in_zone. rewrite Eb, Ep.
    eapply block_in_zone; [done..|apply in_block_head].
  - intros o' [? _]%Hra. done.
Qed.

(** ** Sequences of operations

    Clients allocate, and release blocks they hold; [held] records the blocks
    handed out. *)
Notation state := (Buddy * M * gmap Z nat)%type.

Inductive step : state → state → Prop :=
  | step_alloc b m held o p b' m' :
      alloc b m o = Ret (Some p, b', m') → step (b, m, held) (b', m', <[p:=o]> held)
  | step_alloc_none b m held o b' m' :
      alloc b m o = Ret (None, b', m') → step (b, m, held) (b', m', held)
  | step_free b m held p o b' m' :
      held !! p = Some o → free_block b m p = Ret (b', m') →
      step (b, m, held) (b', m', delete p held).

Definition held_at (held : gmap Z nat) (q : Z) : Prop := map_Exists (λ p o, in_block p o q) held.
#[local] Instance held_at_dec held q : Decision (held_at held q).
Proof. unfold held_at. apply _. Defined.

Lemma held_at_spec held q : held_at held q ↔ ∃ p o, held !! p = Some o ∧ in_block p o q.
Proof. unfold held_at. by rewrite map_Exists_lookup. Qed.

(** What every reachable state satisfies, relative to the initial one. *)
Definition client_inv (b0 : Buddy) (m0 : M) (H0 : blocks) (s : state) : Prop :=
  let '(b, m, held) := s in
  same_zone b0 b ∧ frames_kept (free_at H0) m0 m ∧
  ∃ H, inv b m H ∧
    (∀ p o, H !! p = Some (BuddyTag.Allocated, o) ↔ held !! p = Some o) ∧
    (∀ q, free_at H0 q ↔ free_at H q ∨ held_at held q).

Lemma free_not_held b m H held q :
  inv b m H → (∀ p o, H !! p = Some (BuddyTag.Allocated, o) ↔ held !! p = Some o) →
  free_at H q → ¬ held_at held q.
Proof.
  intros ([L HR] & _) Hheld (p & o & Hp & Hq)%free_at_spec (p' & o' & Hp' & Hq')%held_at_spec.
  apply Hheld in Hp'.
  assert (p = p') by (eapply blocks_disjoint; [apply HR|done..]). congruence.
Qed.

Lemma held_at_insert held p o q :
  held !! p = None → held_at (<[p:=o]> held) q ↔ in_block p o q ∨ held_at held q.
Proof.
  intros Hp. rewrite !held_at_spec. split.
  - intros (p' & o' & [[<- <-]|[_ ?]]%lookup_insert_Some & Hq); [by left|right; eauto].
  - intros [Hq|(p' & o' & Hp' & Hq)].
    + exists p, o. by rewrite lookup_insert_eq.
    + exists p', o'. rewrite lookup_insert_ne; [done|]. congruence.
Qed.

Lemma held_at_delete held p o q :
  held !! p = Some o → held_at held q ↔ in_block p o q ∨ held_at (delete p held) q.
Proof.
  intros Hp. rewrite <-held_at_insert by by rewrite lookup_delete_eq.
  by rewrite insert_delete_id.
Qed.

Lemma client_inv_alloc b0 m0 H0 b m held o p b' m' :
  alloc b m o = Ret (Some p, b', m') →
  client_inv b0 m0 H0 (b, m, held) → client_inv b0 m0 H0 (b', m', <[p:=o]> held).
Proof.
  intros E (Hsz & Hk & H & Hinv & Hheld & HF).
  pose proof (alloc_spec b m H o Hinv) as Hw. rewrite E in Hw.
  destruct Hw as (Hsz' & Hk' & _ & H' & Hinv' & [Hab Haf Haw Hao]).
  assert (held !! p = None) as Hp.
  { destruct (held !! p) as [op|] eqn:Ep; [|done].
    destruct (free_not_held b m H held p Hinv Hheld (Haw p (in_block_head _ _))).
    apply held_at_spec. exists p, op. split; [done|apply in_block_head]. }
  split; [unfold same_zone in *; naive_solver congruence|].
  split; [transitivity m; [done|]; eapply frames_kept_mono; [|done]; intros q Hq; apply HF; by left|].
  exists H'. split; [done|]. split.
  - intros p' o'. destruct (decide (p' = p)) as [->|].
    + rewrite Hab, lookup_insert_eq. naive_solver.
    + by rewrite Hao, lookup_insert_ne.
  - intros q. rewrite HF, Haf, held_at_insert by done. specialize (Haw q).
    destruct (decide (in_block p o q)); tauto.
Qed.

Lemma client_inv_free b0 m0 H0 b m held p o b' m' :
  held !! p = Some o → free_block b m p = Ret (b', m') →
  client_inv b0 m0 H0 (b, m, held) → client_inv b0 m0 H0 (b', m', delete p held).
Proof.
  intros Hp E (Hsz & Hk & H & Hinv & Hheld & HF).
  pose proof (free_block_spec b m H p o Hinv) as Hw. rewrite E in Hw.
  destruct Hw as (Hsz' & Hk' & H' & Hinv' & [Hrf Hro]); [by apply Hheld|].
  split; [unfold same_zone in *; naive_solver congruence|].
  split.
  { transitivity m; [done|]. eapply frames_kept_mono; [|done]. intros q Hq. apply HF.
    destruct Hq as [Hq|Hq]; [by left|right]. apply held_at_spec. eauto. }
  exists H'. split; [done|]. split.
  - intros p' o'. rewrite Hro, Hheld, lookup_delete_Some. naive_solver.
  - intros q. rewrite HF, Hrf, (held_at_delete held p o) by done. tauto.
Qed.

Lemma client_inv_step b0 m0 H0 s s' :
  step s s' → client_inv b0 m0 H0 s → client_inv b0 m0 H0 s'.
Proof.
  intros Hstep. destruct Hstep as [b m held o p b' m' E|b m held o b' m' E|b m held p o b' m' Hp E].
  - by apply (client_inv_alloc _ _ _ _ _ _ o).
  - intros (Hsz & Hk & H & Hinv & Hheld & HF).
    pose proof (alloc_spec b m H o Hinv) as Hw. rewrite E in Hw. destruct Hw as (-> & -> & _).
    do 2 (split; [done|]). eauto.
  - by apply (client_inv_free _ _ _ _ _ _ _ o).
Qed.

Lemma client_inv_reachable b0 m0 H0 s :
  inv b0 m0 H0 → no_allocated H0 → rtc step (b0, m0, ∅) s → client_inv b0 m0 H0 s.
Proof.
  intros Hinv Hna Hsteps.
  assert (client_inv b0 m0 H0 (b0, m0, ∅)) as H1.
  { do 2 (split; [done|]). exists H0. split; [done|]. split.
    - intros p o. rewrite lookup_empty. split; [intros ?; by destruct (Hna p o)|done].
    - intros q. split; [tauto|]. intros [?|(p & o & Hp & _)%held_at_spec]; [done|].
      by rewrite lookup_empty in Hp. }
  revert H1. induction Hsteps as [s|s1 s2 s3 Hstep _ IH]; [done|].
  intros H1. apply IH. by eapply client_inv_step.
Qed.

(** C27: in every state reached by any sequence of allocations and releases of held
    blocks, the next operation does not panic, the held blocks are aligned,
    inside the zone, on usable frames and pairwise disjoint, and the free page
    count plus the held frames is the initial free page count. *)
Theorem buddy_clients_safe b0 m0 H0 b m held :
  inv b0 m0 H0 → no_allocated H0 → rtc step (b0, m0, ∅) (b, m, held) →
  (∀ o, wp (alloc b m o) (λ _, True)) ∧
  (∀ p o, held !! p = Some o → wp (free_block b m p) (λ _, True)) ∧
  (∀ p o, held !! p = Some o → zone_place b m p o) ∧
  (∀ p o p' o' q, held !! p = Some o → held !! p' = Some o' →
     in_block p o q → in_block p' o' q → p = p') ∧
  free_pages b + count (held_at held) (base_pfn b) (pages b) = free_pages b0.
Proof.
  intros Hinv Hna Hsteps.
  destruct (client_inv_reachable _ _ _ _ Hinv Hna Hsteps) as ((Eb & Ep & Em) & _ & H & Hi & Hheld & HF).
  pose proof Hi as ([L HR] & _ & Hfp). destruct Hinv as (_ & _ & Hfp0).
  pose proof (rep_blocks _ _ _ _ _ HR) as Hb. split; [|split; [|split; [|split]]].
  - intros o. eapply wp_mono; [by apply alloc_spec|done].
  - intros p o Hp%Hheld. eapply wp_mono; [by eapply free_block_spec|done].
  - intros p o Hp%Hheld. apply (Hb _ _ _ Hp).
  - intros p o p' o' q Hp%Hheld Hp'%Hheld. by eapply blocks_disjoint.
  - rewrite Hfp, Hfp0. unfold free_count, count. rewrite Eb, Ep.
    rewrite (length_filter_or (free_at H) (held_at held) (free_at H0)); [lia| |].
    + intros q _. apply HF.
    + intros q _. by eapply free_not_held.
Qed.

(** No fragmentation survives: when every block has been released, the free
    blocks are exactly the initial ones. *)
Theorem buddy_release_all_restores b0 m0 H0 b m :
  inv b0 m0 H0 → no_allocated H0 → rtc step (b0, m0, ∅) (b, m, ∅) → inv b m H0.
Proof.
  intros Hinv Hna Hsteps.
  destruct (client_inv_reachable _ _ _ _ Hinv Hna Hsteps) as ((Eb & Ep & Em) & Hk & H & Hi & Hheld & HF).
  assert (no_allocated H) as Hna'.
  { intros p o Hp. apply Hheld in Hp. by rewrite lookup_empty in Hp. }
  assert (∀ q, free_at H0 q ↔ free_at H q) as HF'.
  { intros q. rewrite HF. split; [|tauto]. intros [?|(p & o & Hp & _)%held_at_spec]; [done|].
    by rewrite lookup_empty in Hp. }
  replace H0 with H; [done|]. destruct Hinv as ([L0 HR0] & Hc0 & _). pose proof Hi as ([L HR] & Hc & _).
  pose proof (zone_blocks_kept _ _ m _ (proj1 Hk) (rep_blocks _ _ _ _ _ HR0)) as Hb0. pose proof (rep_blocks _ _ _ _ _ HR) as Hb.
  assert (∀ b m H p t o, zone_blocks b m H → no_allocated H → H !! p = Some (t, o) → t = BuddyTag.Free) as Hfree.
  { intros b' m' H' p t o Hz' Hn' Hp. destruct (Hz' _ _ _ Hp) as (? & _).
    destruct t; [done|done|by destruct (Hn' p o)]. }
  unfold zone_blocks in *. rewrite <-Eb, <-Ep, <-Em in Hb0. rewrite <-Eb, <-Em in Hc0.
  apply map_eq. intros p. apply option_eq. intros [t o]. split; intros Hp.
  - assert (t = BuddyTag.Free) as -> by (by eapply (Hfree b m H)).
    apply (coalesced_unique _ _ _ _ H H0 p o Hb Hc Hb0 Hc0); [|done]. intros q. symmetry. apply HF'.
  - assert (t = BuddyTag.Free) as -> by (by eapply (Hfree b m H0)).
    by apply (coalesced_unique _ _ _ _ H0 H p o Hb0 Hc0 Hb Hc).
Qed.
End theorems.

(** ** Witnesses on the sample zone *)

Lemma sample_no_allocated : no_allocated sample_blocks.
Proof.
  intros p o Hp. unfold sample_blocks in Hp. by apply lookup_singleton_Some in Hp as [_ ?].
Qed.

(** Allocating two frames from the sample zone splits its block twice. *)
Lemma sample_alloc :
  ∃ b m, alloc sample_buddy sample_store 1 = Ret (Some 0, b, m).
Proof. eexists _, _. vm_compute. reflexivity. Qed.

Lemma sample_allocated :
  ∃ b m H, alloc sample_buddy sample_store 1 = Ret (Some 0, b, m) ∧
    inv b m H ∧ H !! 0 = Some (BuddyTag.Allocated, 1%nat).
Proof.
  destruct sample_alloc as (b & m & E).
  pose proof (alloc_spec _ _ _ 1 sample_inv) as Hw. rewrite E in Hw.
  destruct Hw as (_ & _ & _ & H' & Hinv & [Hal _ _ _]). by exists b, m, H'.
Qed.

Lemma buddy_alloc_correct_witness :
  inv sample_buddy sample_store sample_blocks ∧
  wp (alloc sample_buddy sample_store 1) (alloc_result sample_buddy sample_store sample_blocks 1).
Proof. split; [apply sample_inv | apply buddy_alloc_correct, sample_inv]. Defined.

Lemma buddy_free_correct_witness :
  ∃ b (m : gmap Z Frame) H, inv b m H ∧ H !! 0 = Some (BuddyTag.Allocated, 1%nat) ∧
    wp (free_block b m 0) (λ '(b', m'), ∃ H', inv b' m' H' ∧ released H 0 1 H').
Proof.
  destruct sample_allocated as (b & m & H & _ & Hinv & Hh). exists b, m, H.
  split; [done|]. split; [done|].
  eapply wp_mono; [apply (buddy_free_correct b m H 0 1 Hinv Hh)|].
  intros [b' m'] (_ & _ & ?). done.
Defined.

Lemma buddy_alloc_complete_witness :
  (∀ q, in_block 4 2 q → free_at sample_blocks q) ∧
  wp (alloc sample_buddy sample_store 2) (λ '(r, _, _), is_Some r).
Proof.
  assert (∀ q, in_block 4 2 q → free_at sample_blocks q) as Hall.
  { intros q Hq. apply free_at_spec. exists 0, 3%nat. split; [done|].
    unfold in_block, psize in *. simpl in *. lia. }
  split; [exact Hall|].
  apply (buddy_alloc_complete sample_buddy sample_store sample_blocks 2 4); [apply sample_inv|].
  split; [simpl; lia|simpl; lia|by exists 1|exact Hall].
Defined.

Lemma buddy_double_free_panics_witness :
  ∃ b (m : gmap Z Frame) b' m', free_block b m 0 = Ret (b', m') ∧
    free_block b' m' 0 = Panic PAssert.
Proof.
  destruct sample_allocated as (b & m & H & _ & Hinv & Hh).
  destruct (wp_elim _ _ (free_block_spec b m H 0 1 Hinv Hh)) as ([b' m'] & E & _).
  exists b, m, b', m'. split; [done|].
  apply (buddy_double_free_panics b m H 0 1 b' m' Hinv Hh E).
Defined.

Lemma buddy_clients_safe_witness :
  ∃ b (m : gmap Z Frame), rtc step (sample_buddy, sample_store, ∅) (b, m, {[0 := 1%nat]}) ∧
    free_pages b + count (held_at {[0 := 1%nat]}) (base_pfn b) (pages b) = free_pages sample_buddy.
Proof.
  destruct sample_alloc as (b & m & E). exists b, m.
  assert (rtc step (sample_buddy, sample_store, ∅) (b, m, {[0 := 1%nat]})) as Hs.
  { apply rtc_once, (step_alloc _ _ ∅ 1 0 b m E). }
  split; [exact Hs|].
  apply (buddy_clients_safe sample_buddy sample_store sample_blocks b m {[0 := 1%nat]}
    sample_inv sample_no_allocated Hs).
Defined.

Lemma buddy_release_all_restores_witness :
  ∃ b (m : gmap Z Frame), rtc step (sample_buddy, sample_store, ∅) (b, m, ∅) ∧
    inv b m sample_blocks.
Proof.
  destruct sample_allocated as (b1 & m1 & H & E & Hinv & Hh).
  destruct (wp_elim _ _ (free_block_spec b1 m1 H 0 1 Hinv Hh)) as ([b m] & E' & _).
  assert (rtc step (sample_buddy, sample_store, ∅) (b, m, ∅)) as Hs.
  { eapply rtc_l; [apply (step_alloc _ _ ∅ 1 0 b1 m1 E)|].
    apply rtc_once. pose proof (step_free b1 m1 {[0 := 1%nat]} 0 1 b m eq_refl E') as Hstep.
    by rewrite delete_singleton_eq in Hstep. }
  exists b, m. split; [exact Hs|].
  apply (buddy_release_all_restores sample_buddy sample_store sample_blocks b m
    sample_inv sample_no_allocated Hs).
Defined.
