(* ===== verification/Sparsemem.v ===== *)
(** * The sparse memory model: operations

    Models kernel/src/arch/amd64/memory/pmm/sparsemem.rs.  Physical memory is
    cut into sections of 2^15 frames; a section that contains usable memory has
    an array of frame metadata, taken from the bump allocator.

    A frame array behind a [*mut Frame] is a finite map from offsets to frames
    in which an offset that was never written holds [Frame::absent()], the
    value [ensure_section] initialises every element with.  The section table
    is a list of length [section_count].  [alloc_zeroed]'s zero fill is
    overwritten by that initialisation, so only its pointer and the allocator
    state are kept. *)
From S2P Require Import Prelude Misc Memblock Frame Bump.

Definition PAGE_SHIFT : Z := 12.
Definition PAGE_SIZE : Z := 4096.
Definition SECTION_SHIFT : Z := 27.
Definition SECTION_SIZE : Z := 2 ^ 27.
Definition SECTION_PFN_SHIFT : Z := 15.
Definition PAGES_PER_SECTION : Z := 32768.

(** [size_of] and [align_of] of the two [repr(C)] structures. *)
Definition MEMSECTION_BYTES : Z := 16.
Definition FRAME_BYTES : Z := 24.
Definition PTR_ALIGN : Z := 8.

Record Memsection := mk_section {
  ms_frames : gmap Z Frame;
  ms_present : bool
}.

Definition section_empty : Memsection := mk_section ∅ false.

(** The frame at an offset of the section's array. *)
Definition section_frame (s : Memsection) (off : Z) : Frame :=
  default frame_absent (ms_frames s !! off).

Record SparseMem := mk_sparse {
  sm_ptr : Z;
  sm_sections : list Memsection;
  max_present_sec : Z;
  cached_max_pfn : Z
}.

Definition sparse_empty : SparseMem := mk_sparse 0 [] 0 0.

Definition is_initialized (s : SparseMem) : bool := negb (sm_ptr s =? 0).

Definition section_count (s : SparseMem) : Z := Z.of_nat (length (sm_sections s)).

Definition pfn_to_section (pfn : Z) : Z := Z.shiftr pfn SECTION_PFN_SHIFT.
Definition pfn_to_offset (pfn : Z) : Z := Z.land pfn (PAGES_PER_SECTION - 1).
(** [sec << SECTION_PFN_SHIFT]; the shifted-out bits are lost. *)
Definition section_base_pfn (sec : Z) : Z := wrap64 (Z.shiftl sec SECTION_PFN_SHIFT).

(** The section [sec] of the table, or an access out of its bounds. *)
Definition get_section (s : SparseMem) (sec : Z) : outcome Memsection :=
  arr_get (sm_sections s) (Z.to_nat sec).
Definition put_section (s : SparseMem) (sec : Z) (x : Memsection) : outcome SparseMem :=
  l ← arr_set (sm_sections s) (Z.to_nat sec) x;
  Ret (mk_sparse (sm_ptr s) l (max_present_sec s) (cached_max_pfn s)).

(** [pfn_present]; the first test is [usize]'s range. *)
Definition pfn_present (s : SparseMem) (pfn : Z) : bool :=
  if 0 <=? pfn then
    match sm_sections s !! Z.to_nat (pfn_to_section pfn) with
    | Some x => ms_present x
    | None => false
    end
  else false.

Definition max_present_pfn (s : SparseMem) : Z := cached_max_pfn s.

(** [pfn_to_frame], with the frame the pointer designates. *)
Definition pfn_to_frame (s : SparseMem) (pfn : Z) : option Frame :=
  if pfn_present s pfn then
    match sm_sections s !! Z.to_nat (pfn_to_section pfn) with
    | Some x => Some (section_frame x (pfn_to_offset pfn))
    | None => None
    end
  else None.

(** A write through that pointer. *)
Definition write_frame (s : SparseMem) (pfn : Z) (f : Frame) : SparseMem :=
  if pfn_present s pfn then
    mk_sparse (sm_ptr s)
      (alter (λ x, mk_section (<[pfn_to_offset pfn:=f]> (ms_frames x)) (ms_present x))
             (Z.to_nat (pfn_to_section pfn)) (sm_sections s))
      (max_present_sec s) (cached_max_pfn s)
  else s.

Definition ensure_section (s : SparseMem) (bump : BumpState) (sec : Z)
    : outcome (SparseMem * BumpState) :=
  if section_count s <=? sec then Ret (s, bump)
  else
    x ← get_section s sec;
    if ms_present x then Ret (s, bump)
    else
      let bytes := PAGES_PER_SECTION * FRAME_BYTES in
      '(bump, r) ← bump_alloc bump bytes PTR_ALIGN;
      _ ← unwrap r;
      s ← put_section s sec (mk_section ∅ true);
      let mx := if max_present_sec s <? sec then sec else max_present_sec s in
      Ret (mk_sparse (sm_ptr s) (sm_sections s) mx (cached_max_pfn s), bump).

(** [for f in slice { f.state = state }] on the frames [off .. off+len). *)
Definition fill_state (st : FrameState.t) (off len : Z) (x : Memsection) : Memsection :=
  mk_section
    (foldl (λ fr i, <[i:=set_state st (default frame_absent (fr !! i))]> fr)
           (ms_frames x) (seqZ off len))
    (ms_present x).

(** One iteration of [mark_range]'s loop. *)
Definition mark_step (end_pfn : Z) (state : FrameState.t) (create_sections : bool)
    (st : SparseMem * BumpState * Z)
    : outcome ((SparseMem * BumpState * Z) + (SparseMem * BumpState)) :=
  let '(s, bump, pfn) := st in
  if pfn <? end_pfn then
    let sec := pfn_to_section pfn in
    if section_count s <=? sec then Ret (inr (s, bump))
    else
      '(s, bump) ← (if create_sections then ensure_section s bump sec else Ret (s, bump));
      x ← get_section s sec;
      if negb (ms_present x) then
        Ret (inl (s, bump, Z.min end_pfn (section_base_pfn (sec + 1))))
      else
        let sec_base := section_base_pfn sec in
        e ← add64 sec_base PAGES_PER_SECTION;
        let chunk_end := Z.min end_pfn e in
        off ← sub64 pfn sec_base;
        len ← sub64 chunk_end pfn;
        s ← put_section s sec (fill_state state off len x);
        Ret (inl (s, bump, chunk_end))
  else Ret (inr (s, bump)).

Definition mark_range (s : SparseMem) (bump : BumpState) (base end_ : Z)
    (state : FrameState.t) (create_sections : bool) : outcome (SparseMem * BumpState) :=
  if end_ <=? base then Ret (s, bump)
  else
    let start_pfn := Z.shiftr base PAGE_SHIFT in
    e ← add64 end_ PAGE_SIZE;
    e ← sub64 e 1;
    let end_pfn := Z.shiftr e PAGE_SHIFT in
    iter (S (S (length (sm_sections s)))) (mark_step end_pfn state create_sections)
         (s, bump, start_pfn).

(** The inner loop of [compute_max_present_pfn]: the last frame of the section
    that is not absent. *)
Definition last_present (x : Memsection) : option Z :=
  snd <$> list_find (λ i, f_state (section_frame x i) ≠ FrameState.Absent)
                    (reverse (seqZ 0 PAGES_PER_SECTION)).

Definition compute_max_present_pfn (s : SparseMem) : outcome Z :=
  for_each (λ sec max,
    x ← get_section s sec;
    if negb (ms_present x) then Ret max
    else
      let base := section_base_pfn sec in
      match last_present x with
      | None => Ret max
      | Some i =>
          p ← add64 base i;
          pfn ← add64 p 1;
          Ret (if max <? pfn then pfn else max)
      end) (seqZ 0 (section_count s)) 0.

Definition section_count_from_max_phys (max_phys : Z) : outcome Z :=
  if max_phys =? 0 then Ret 0
  else
    m ← sub64 max_phys 1;
    add64 (Z.shiftr m SECTION_SHIFT) 1.

Definition mark_regions (s : SparseMem) (bump : BumpState) (l : list MemblockRegion)
    (skip : MemblockRegion → bool) (state : FrameState.t) (create : bool)
    : outcome (SparseMem * BumpState) :=
  for_each (λ r '(s, bump),
    if skip r then Ret (s, bump)
    else mark_range s bump (mr_base r) (mr_end r) state create) l (s, bump).

Definition init_from_memblock (s : SparseMem) (bump : BumpState) (mb : Memblock)
    : outcome (SparseMem * BumpState) :=
  _ ← assert (negb (is_initialized s));
  let max_phys := max_phys_addr mb in
  if max_phys =? 0 then Ret (s, bump)
  else
    count ← section_count_from_max_phys max_phys;
    bytes ← mul64 count MEMSECTION_BYTES;
    '(bump, r) ← bump_alloc bump bytes PTR_ALIGN;
    ptr ← unwrap r;
    let s := mk_sparse ptr (replicate (Z.to_nat count) section_empty)
                       (max_present_sec s) (cached_max_pfn s) in
    '(s, bump) ← mark_regions s bump (memory_regions mb)
      (λ r, negb (bool_decide (mr_kind r = MemblockType.Usable)) || (mr_size r =? 0))
      FrameState.Usable true;
    '(s, bump) ← mark_regions s bump (reserved_regions mb)
      (λ r, mr_size r =? 0) FrameState.Reserved false;
    mx ← compute_max_present_pfn s;
    Ret (mk_sparse (sm_ptr s) (sm_sections s) (max_present_sec s) mx, bump).

(** ** Sizing and placement of the metadata *)

Definition MAX_SECTIONS : Z := 4096.
Definition WORDS : nat := 64.

(** [u64::count_ones]. *)
Definition count_ones (w : Z) : Z :=
  Z.of_nat (length (filter (λ i, Z.testbit w i = true) (seqZ 0 64))).

(** The closure [set_bit]. *)
Definition set_bit (seen : list Z) (sec : Z) : outcome (list Z) :=
  if sec <? MAX_SECTIONS then
    let i := Z.to_nat (sec / 64) in
    w ← arr_get seen i;
    arr_set seen i (Z.lor w (Z.shiftl 1 (sec mod 64)))
  else Ret seen.

Definition count_present_sections (mb : Memblock) : outcome Z :=
  seen ← for_each (λ r seen,
    if mr_size r =? 0 then Ret seen
    else
      let start_sec := Z.shiftr (mr_base r) SECTION_SHIFT in
      let end_sec := Z.shiftr (sat_sub64 (mr_end r) 1) SECTION_SHIFT in
      for_each (λ sec seen, set_bit seen sec)
        (seqZ start_sec (end_sec - start_sec + 1)) seen)
    (memory_regions mb) (replicate WORDS 0);
  for_each (λ w acc, add64 acc (count_ones w)) seen 0.

Definition sparsemem_required_bytes (mb : Memblock) : outcome Z :=
  let max_phys := max_phys_addr mb in
  section_count ← section_count_from_max_phys max_phys;
  present_sections ← count_present_sections mb;
  ps1 ← add64 present_sections 1;
  align_slack ← mul64 PTR_ALIGN ps1;
  a ← mul64 section_count MEMSECTION_BYTES;
  fr ← mul64 present_sections PAGES_PER_SECTION;
  fb ← mul64 fr FRAME_BYTES;
  t ← add64 a fb;
  add64 t align_slack.

Definition find_suitable_region (mb : Memblock) (need_bytes : Z) : outcome (option (Z * Z)) :=
  r ← for_each_ret (λ r (_ : unit),
    if mr_size r =? 0 then Ret (inl ())
    else
      aligned_base ← align_up (mr_base r) PAGE_SIZE;
      region_end ← add64 (mr_base r) (mr_size r);
      if region_end <=? aligned_base then Ret (inl ())
      else
        available ← sub64 region_end aligned_base;
        if need_bytes <=? available then Ret (inr (mr_base r, mr_size r)) else Ret (inl ()))
    (memory_regions mb) ();
  Ret (match r with inl _ => None | inr x => Some x end).

Definition reserve_for_sparsemem (mb : Memblock) (base size : Z)
    : outcome (Memblock * result MemblockError unit) :=
  '(mb, r) ← add_reserved mb base size MemblockType.Reserved;
  match r with
  | Err e => Ret (mb, Err e)
  | Ok _ => normalize mb
  end.

(** [Result::expect]. *)
Definition expect_ok {E A} (r : result E A) : outcome A :=
  match r with Ok a => Ret a | Err _ => Panic PUnwrap end.

Definition init_sparsemem_layer (hhdm : Z) (mb : Memblock) : outcome (Memblock * SparseMem) :=
  need_bytes ← sparsemem_required_bytes mb;
  o ← find_suitable_region mb need_bytes;
  '(region_base, _) ← unwrap o;
  bump_start ← align_up region_base PAGE_SIZE;
  bump_end ← add64 bump_start need_bytes;
  '(mb, r) ← reserve_for_sparsemem mb bump_start need_bytes;
  _ ← expect_ok r;
  vs ← phys_to_virt hhdm bump_start;
  ve ← phys_to_virt hhdm bump_end;
  bump ← bump_init vs ve;
  '(sparse, _) ← init_from_memblock sparse_empty bump mb;
  Ret (mb, sparse).
