(* ===== verification/SparsememSpec.v ===== *)
(** * The sparse memory model: specifications

    Reading and writing frames (the [FrameStore] instance), marking ranges and
    the state [init_from_memblock] builds. *)
From S2P Require Import Prelude Misc Memblock Frame Bump Sparsemem.

(** ** Frame numbers, sections and offsets *)

Lemma pfn_to_section_div p : pfn_to_section p = p / PAGES_PER_SECTION.
Proof. unfold pfn_to_section. by rewrite Z.shiftr_div_pow2. Qed.

Lemma pfn_to_offset_mod p : pfn_to_offset p = p mod PAGES_PER_SECTION.
Proof. unfold pfn_to_offset. change (PAGES_PER_SECTION - 1) with (Z.ones 15). by rewrite Z.land_ones. Qed.

Lemma pfn_split p :
  p = pfn_to_section p * PAGES_PER_SECTION + pfn_to_offset p ∧
  0 ≤ pfn_to_offset p < PAGES_PER_SECTION.
Proof.
  rewrite pfn_to_section_div, pfn_to_offset_mod. unfold PAGES_PER_SECTION.
  pose proof (Z.div_mod p 32768). pose proof (Z.mod_pos_bound p 32768). lia.
Qed.

Lemma pfn_to_section_nonneg p : 0 ≤ p → 0 ≤ pfn_to_section p.
Proof. intros Hp. rewrite pfn_to_section_div. unfold PAGES_PER_SECTION. apply Z.div_pos; lia. Qed.

Lemma pfn_to_section_spec p sec :
  pfn_to_section p = sec ↔ sec * PAGES_PER_SECTION ≤ p < (sec + 1) * PAGES_PER_SECTION.
Proof. pose proof (pfn_split p). unfold PAGES_PER_SECTION in *. lia. Qed.

Lemma section_base_pfn_mul sec :
  0 ≤ sec ≤ 2 ^ 37 → section_base_pfn sec = sec * PAGES_PER_SECTION.
Proof.
  intros Hs. unfold section_base_pfn, wrap64. rewrite Z.shiftl_mul_pow2 by done.
  change (2 ^ SECTION_PFN_SHIFT) with PAGES_PER_SECTION. apply Z.mod_small.
  unfold PAGES_PER_SECTION. lia.
Qed.

(** ** The sections as a frame store *)

(** The section of a frame number is present. *)
Definition sec_present (s : SparseMem) (sec : Z) : Prop :=
  0 ≤ sec ∧ ∃ x, sm_sections s !! Z.to_nat sec = Some x ∧ ms_present x = true.

Lemma pfn_present_spec s p : pfn_present s p = true ↔ 0 ≤ p ∧ sec_present s (pfn_to_section p).
Proof.
  unfold pfn_present, sec_present. destruct (Z.leb_spec 0 p) as [Hp|Hp]; [|split; [done|lia]].
  pose proof (pfn_to_section_nonneg p Hp).
  destruct (sm_sections s !! _) as [x|]; split; try naive_solver.
Qed.

Definition frame_or_absent (s : SparseMem) (p : Z) : Frame := default frame_absent (pfn_to_frame s p).

Lemma pfn_to_frame_some s p x :
  0 ≤ p → sm_sections s !! Z.to_nat (pfn_to_section p) = Some x → ms_present x = true →
  pfn_to_frame s p = Some (section_frame x (pfn_to_offset p)).
Proof.
  intros Hp Hx Hpr. unfold pfn_to_frame. rewrite Hx.
  rewrite (proj2 (pfn_present_spec s p)); [done|]. split; [done|].
  split; [by apply pfn_to_section_nonneg|]. eauto.
Qed.

Lemma pfn_to_frame_inv s p f :
  pfn_to_frame s p = Some f →
  0 ≤ p ∧ ∃ x, sm_sections s !! Z.to_nat (pfn_to_section p) = Some x ∧ ms_present x = true ∧
    f = section_frame x (pfn_to_offset p).
Proof.
  unfold pfn_to_frame. destruct (pfn_present s p) eqn:E; [|done].
  apply pfn_present_spec in E as [Hp (_ & x & Hx & Hpr)]. rewrite Hx. naive_solver.
Qed.

Lemma pfn_to_frame_present s p : is_Some (pfn_to_frame s p) ↔ pfn_present s p = true.
Proof.
  split.
  - intros [f Hf]. unfold pfn_to_frame in Hf. by destruct (pfn_present s p).
  - intros [Hp (_ & x & Hx & Hpr)]%pfn_present_spec. rewrite (pfn_to_frame_some s p x); eauto.
Qed.

Lemma write_frame_same s p f :
  is_Some (pfn_to_frame s p) → pfn_to_frame (write_frame s p f) p = Some f.
Proof.
  intros [g Hg]. destruct (pfn_to_frame_inv _ _ _ Hg) as (Hp & x & Hx & Hpr & _).
  unfold write_frame. rewrite (proj1 (pfn_to_frame_present s p)) by eauto.
  erewrite pfn_to_frame_some; [|done| |].
  2:{ simpl. rewrite list_lookup_alter_eq, Hx. simpl. reflexivity. }
  - unfold section_frame. simpl. by rewrite lookup_insert_eq.
  - done.
Qed.

Lemma write_frame_other s p q f :
  p ≠ q → pfn_to_frame (write_frame s p f) q = pfn_to_frame s q.
Proof.
  intros Hne. unfold write_frame. destruct (pfn_present s p) eqn:Hp; [|done].
  apply pfn_present_spec in Hp as [Hp _].
  unfold pfn_to_frame, pfn_present. simpl.
  destruct (Z.leb_spec 0 q) as [Hq|Hq]; [|done].
  destruct (decide (pfn_to_section p = pfn_to_section q)) as [E|E].
  - rewrite E, list_lookup_alter_eq. destruct (sm_sections s !! _) as [x|]; [|done]. simpl.
    destruct (ms_present x); [|done]. f_equal. unfold section_frame. simpl.
    rewrite lookup_insert_ne; [done|]. intros E'.
    pose proof (pfn_split p). pose proof (pfn_split q). rewrite E, E' in *. lia.
  - pose proof (pfn_to_section_nonneg p Hp). pose proof (pfn_to_section_nonneg q Hq).
    rewrite list_lookup_alter_ne; [done|]. lia.
Qed.

(** A frame write changes neither the table's size nor which sections are
    present. *)
Definition sparse_layout (s : SparseMem) : Z * list bool * Z * Z :=
  (sm_ptr s, ms_present <$> sm_sections s, max_present_sec s, cached_max_pfn s).

Lemma write_frame_layout s p f : sparse_layout (write_frame s p f) = sparse_layout s.
Proof.
  unfold write_frame, sparse_layout. destruct (pfn_present s p); [|done]. simpl. do 3 f_equal.
  apply list_eq. intros i. rewrite !list_lookup_fmap.
  destruct (decide (i = Z.to_nat (pfn_to_section p))) as [->|Hne].
  - rewrite list_lookup_alter_eq. by destruct (sm_sections s !! _).
  - by rewrite list_lookup_alter_ne.
Qed.

#[global] Instance sparse_store : FrameStore SparseMem := {|
  fs_get := pfn_to_frame;
  fs_set := write_frame;
  fs_layout := sparse_layout;
  fs_layout_set := write_frame_layout;
  fs_get_set_eq := write_frame_same;
  fs_get_set_ne := write_frame_other
|}.

(** ** Marking ranges *)

(** [s'] is [s] after marking the frames [lo .. hi) with [st]; sections met on
    the way are created when [create] is set. *)
Record marked (st : FrameState.t) (create : bool) (lo hi : Z) (s s' : SparseMem) : Prop := {
  mkd_len : length (sm_sections s') = length (sm_sections s);
  mkd_ptr : sm_ptr s' = sm_ptr s;
  mkd_present : ∀ sec, sec_present s' sec ↔
    sec_present s sec ∨
    create = true ∧ 0 ≤ sec < section_count s ∧ ∃ q, lo ≤ q < hi ∧ pfn_to_section q = sec;
  mkd_frame : ∀ p, pfn_present s' p = true →
    frame_or_absent s' p =
      if decide (lo ≤ p < hi) then set_state st (frame_or_absent s p) else frame_or_absent s p;
  mkd_max : max_present_sec s ≤ max_present_sec s' ∧
    (max_present_sec s' = max_present_sec s ∨ sec_present s' (max_present_sec s')) ∧
    (∀ sec, sec_present s' sec → sec_present s sec ∨ sec ≤ max_present_sec s')
}.

Lemma pfn_present_mono s s' p :
  (∀ sec, sec_present s sec → sec_present s' sec) → pfn_present s p = true → pfn_present s' p = true.
Proof. intros H. rewrite !pfn_present_spec. naive_solver. Qed.

Lemma frame_or_absent_none s p : pfn_present s p = false → frame_or_absent s p = frame_absent.
Proof. intros H. unfold frame_or_absent, pfn_to_frame. by rewrite H. Qed.

Lemma set_state_absent_twice st f : set_state st (set_state st f) = set_state st f.
Proof. done. Qed.

Lemma marked_empty st create lo hi s : hi ≤ lo → marked st create lo hi s s.
Proof.
  intros Hle. split; try done.
  - intros sec. split; [by left|]. intros [?|(_ & _ & q & ? & _)]; [done|lia].
  - intros p _. by rewrite decide_False by lia.
  - split; [done|]. split; [by left|]. by left.
Qed.

(** A chunk without present sections is skipped. *)
Lemma marked_skip st lo hi s :
  (∀ q, lo ≤ q < hi → ¬ sec_present s (pfn_to_section q)) → marked st false lo hi s s.
Proof.
  intros Hskip. split; try done.
  - intros sec. split; [by left|]. by intros [?|(? & _)].
  - intros p [_ Hp]%pfn_present_spec. rewrite decide_False; [done|]. intros Hin. by apply (Hskip p).
  - split; [done|]. split; [by left|]. by left.
Qed.

Lemma marked_trans st create lo mid hi s1 s2 s3 :
  lo ≤ mid ≤ hi → marked st create lo mid s1 s2 → marked st create mid hi s2 s3 →
  marked st create lo hi s1 s3.
Proof.
  intros Hle [Hl1 Hp1 Hs1 Hf1 Hm1] [Hl2 Hp2 Hs2 Hf2 Hm2]. split.
  - congruence.
  - congruence.
  - intros sec. rewrite Hs2, Hs1. unfold section_count. rewrite Hl1. split.
    + intros [[?|(? & ? & q & ? & ?)]|(? & ? & q & ? & ?)];
        [by left|right; split_and!; try lia; try done; exists q; (split; [lia|done])..].
    + intros [?|(? & ? & q & ? & ?)]; [by left; left|].
      destruct (Z_lt_le_dec q mid); [left; right|right]; split_and!; try done; try lia;
        exists q; (split; [lia|done]).
  - intros p Hp. rewrite Hf2 by done.
    destruct (pfn_present s2 p) eqn:E2.
    + rewrite Hf1 by done. repeat case_decide; try lia; done.
    + assert (pfn_present s1 p = false) as E1.
      { destruct (pfn_present s1 p) eqn:E1; [|done].
        rewrite (pfn_present_mono s1 s2) in E2; [done| |done]. intros sec Hsec. apply Hs1. by left. }
      rewrite !frame_or_absent_none by done.
      destruct (decide (lo ≤ p < mid)) as [Hin|Hin].
      * exfalso. rewrite <-not_true_iff_false in E2. apply E2, pfn_present_spec.
        apply pfn_present_spec in Hp as [Hp0 Hsec]. split; [done|].
        apply Hs2 in Hsec as [?|(? & ? & _)]; [done|]. apply Hs1. right.
        unfold section_count in *. rewrite Hl1 in *. split_and!; [done|lia|lia|by exists p].
      * repeat case_decide; try lia; done.
  - destruct Hm1 as (Ha1 & Hb1 & Hc1), Hm2 as (Ha2 & Hb2 & Hc2). split; [lia|]. split.
    + destruct Hb2 as [->|?]; [|by right]. destruct Hb1 as [->|?]; [by left|].
      right. apply Hs2. by left.
    + intros sec Hsec. destruct (Hc2 sec Hsec) as [H2|?]; [|by right].
      destruct (Hc1 sec H2) as [?|?]; [by left|right; lia].
Qed.

(** *** Filling one section *)

Lemma fill_frames st (l : list Z) (fr : gmap Z Frame) i :
  default frame_absent
    (foldl (λ fr i, <[i:=set_state st (default frame_absent (fr !! i))]> fr) fr l !! i) =
  if decide (i ∈ l) then set_state st (default frame_absent (fr !! i))
  else default frame_absent (fr !! i).
Proof.
  revert fr. induction l as [|j l IH]; intros fr; cbn [foldl].
  { pose proof (not_elem_of_nil i). by case_decide. }
  rewrite IH. pose proof (elem_of_cons l i j) as Hiff. destruct (decide (i = j)) as [->|Hne].
  - rewrite lookup_insert_eq. by repeat case_decide; try tauto.
  - rewrite lookup_insert_ne by done. by repeat case_decide; try tauto.
Qed.

Lemma section_frame_fill st off len x i :
  section_frame (fill_state st off len x) i =
  if decide (off ≤ i < off + len) then set_state st (section_frame x i) else section_frame x i.
Proof.
  unfold section_frame, fill_state. simpl. rewrite fill_frames.
  pose proof (elem_of_seqZ off len i) as Hiff. by repeat case_decide; try tauto.
Qed.

(** Replacing a present section by another one. *)
Lemma put_section_spec s sec x y (Q : SparseMem → Prop) :
  0 ≤ sec → sm_sections s !! Z.to_nat sec = Some x →
  Q (mk_sparse (sm_ptr s) (<[Z.to_nat sec:=y]> (sm_sections s)) (max_present_sec s) (cached_max_pfn s)) →
  wp (put_section s sec y) Q.
Proof.
  intros Hs Hx HQ. unfold put_section. apply wp_bind, wp_arr_set; [|by apply wp_ret].
  by eapply lookup_lt_Some.
Qed.

Lemma sec_present_put s sec y ptr mx cm sec' :
  0 ≤ sec < section_count s → ms_present y = true →
  sec_present (mk_sparse ptr (<[Z.to_nat sec:=y]> (sm_sections s)) mx cm) sec' ↔
  sec_present s sec' ∨ sec' = sec.
Proof.
  intros Hs Hy. unfold sec_present, section_count in *. simpl.
  destruct (decide (sec' = sec)) as [->|Hne].
  - rewrite list_lookup_insert_eq by lia. naive_solver lia.
  - destruct (decide (0 ≤ sec')); [|naive_solver lia].
    rewrite list_lookup_insert_ne by lia. naive_solver.
Qed.

Lemma frame_put s sec x y ptr mx cm p :
  0 ≤ sec < section_count s → sm_sections s !! Z.to_nat sec = Some x →
  (ms_present x = true ∨ ∀ i, section_frame y i = frame_absent) →
  ms_present y = true → 0 ≤ p → 
  frame_or_absent (mk_sparse ptr (<[Z.to_nat sec:=y]> (sm_sections s)) mx cm) p =
  if decide (pfn_to_section p = sec) then section_frame y (pfn_to_offset p)
  else frame_or_absent s p.
Proof.
  intros Hs Hx Hor Hy Hp. unfold frame_or_absent, pfn_to_frame, pfn_present. simpl.
  rewrite (proj2 (Z.leb_le _ _)) by done. pose proof (pfn_to_section_nonneg p Hp).
  case_decide as E.
  - rewrite E, list_lookup_insert_eq by (unfold section_count in *; lia). by rewrite Hy.
  - rewrite list_lookup_insert_ne by lia. done.
Qed.

Lemma frame_in_section s sec x p :
  0 ≤ p → sm_sections s !! Z.to_nat sec = Some x → ms_present x = true →
  pfn_to_section p = sec → frame_or_absent s p = section_frame x (pfn_to_offset p).
Proof.
  intros Hp Hx Hpr E. unfold frame_or_absent. rewrite (pfn_to_frame_some s p x); rewrite ?E; done.
Qed.

(** Writing the frames [a .. c) of a present section. *)
Lemma marked_fill st create s sec x a c (Q : SparseMem → Prop) :
  0 ≤ sec < section_count s → sm_sections s !! Z.to_nat sec = Some x → ms_present x = true →
  sec * PAGES_PER_SECTION ≤ a → a < c → c ≤ (sec + 1) * PAGES_PER_SECTION →
  (∀ s', marked st create a c s s' → sm_sections s' !! Z.to_nat sec ≠ None → Q s') →
  wp (put_section s sec (fill_state st (a - sec * PAGES_PER_SECTION) (c - a) x)) Q.
Proof.
  intros Hs Hx Hpr Ha Hac Hc HQ. eapply put_section_spec; [lia|done|]. apply HQ.
  2:{ simpl. rewrite list_lookup_insert_eq; [done|]. by eapply lookup_lt_Some. }
  assert (sec_present s sec) as Hsec by (split; [lia|eauto]).
  split; simpl.
  - by rewrite length_insert.
  - done.
  - intros sec'. rewrite sec_present_put by done. split.
    + intros [?| ->]; by left.
    + intros [?|(_ & _ & q & Hq & <-)]; [by left|]. right. apply pfn_to_section_spec.
      unfold PAGES_PER_SECTION in *. lia.
  - intros p [Hp Hp']%pfn_present_spec. erewrite frame_put; [|done..|by left|done|done].
    case_decide as E.
    + rewrite section_frame_fill, (frame_in_section s sec x) by done.
      apply pfn_to_section_spec in E. pose proof (pfn_split p) as [Hd Ho].
      rewrite (proj2 (pfn_to_section_spec p sec) E) in Hd.
      repeat case_decide; try done; lia.
    + rewrite decide_False; [done|]. intros Hin. apply E, pfn_to_section_spec. lia.
  - split; [lia|]. split; [by left|]. intros sec'. rewrite sec_present_put by done. intros [?| ->]; by left.
Qed.

(** *** Creating sections *)

#[global] Instance sec_present_dec s sec : Decision (sec_present s sec).
Proof.
  refine (cast_if (decide (0 ≤ sec ∧
    (match sm_sections s !! Z.to_nat sec with Some x => ms_present x | None => false end) = true)));
  unfold sec_present; destruct (sm_sections s !! Z.to_nat sec); naive_solver.
Defined.

(** The sections of [T] that still have to be created. *)
Definition missing (T : Z → bool) (s : SparseMem) : Z :=
  Z.of_nat (length (filter (λ sec, T sec = true ∧ ¬ sec_present s sec) (seqZ 0 (section_count s)))).

Definition SECTION_COST : Z := PAGES_PER_SECTION * FRAME_BYTES + PTR_ALIGN.

(** The bump allocator has room for them. *)
Definition room (T : Z → bool) (s : SparseMem) (bump : BumpState) : Prop :=
  0 < bump_next bump ∧ bump_next bump + missing T s * SECTION_COST ≤ bump_end bump ∧
  bump_end bump + 4096 ≤ u64_max.

Lemma missing_nonneg T s : 0 ≤ missing T s.
Proof. unfold missing. lia. Qed.

Lemma length_filter_mono {A} (P Q : A → Prop) `{∀ x, Decision (P x)} `{∀ x, Decision (Q x)} (l : list A) :
  (∀ x, x ∈ l → P x → Q x) → (length (filter P l) ≤ length (filter Q l))%nat.
Proof.
  induction l as [|x l IH]; intros HPQ; [done|]. rewrite !filter_cons.
  pose proof (HPQ x ltac:(by left)). specialize (IH ltac:(intros ??; apply HPQ; by right)).
  repeat case_decide; simpl; try tauto; lia.
Qed.

Lemma length_filter_lt {A} (P Q : A → Prop) `{∀ x, Decision (P x)} `{∀ x, Decision (Q x)} (l : list A) y :
  (∀ x, x ∈ l → P x → Q x) → y ∈ l → Q y → ¬ P y →
  (length (filter P l) < length (filter Q l))%nat.
Proof.
  intros HPQ Hy HQ HP. apply list_elem_of_split in Hy as (l1 & l2 & ->).
  rewrite !filter_app, !length_app, filter_cons_False, filter_cons_True by done. simpl.
  pose proof (length_filter_mono P Q l1 ltac:(intros ??; apply HPQ, elem_of_app; by left)).
  pose proof (length_filter_mono P Q l2 ltac:(intros ??; apply HPQ, elem_of_app; right; by right)). lia.
Qed.

Lemma missing_mono T s s' :
  length (sm_sections s') = length (sm_sections s) →
  (∀ sec, sec_present s sec → sec_present s' sec) → missing T s' ≤ missing T s.
Proof.
  intros Hl Hp. unfold missing, section_count. rewrite Hl. apply Nat2Z.inj_le, length_filter_mono.
  naive_solver.
Qed.

Lemma missing_lt T s s' sec :
  length (sm_sections s') = length (sm_sections s) →
  (∀ sec, sec_present s sec → sec_present s' sec) →
  0 ≤ sec < section_count s → T sec = true → ¬ sec_present s sec → sec_present s' sec →
  missing T s' + 1 ≤ missing T s.
Proof.
  intros Hl Hp Hsec HT Hn Hp'. unfold missing, section_count in *. rewrite Hl.
  assert (length (filter (λ sec, T sec = true ∧ ¬ sec_present s' sec) (seqZ 0 (Z.of_nat (length (sm_sections s))))) <
          length (filter (λ sec, T sec = true ∧ ¬ sec_present s sec) (seqZ 0 (Z.of_nat (length (sm_sections s))))))%nat.
  { apply (length_filter_lt _ _ _ sec); [naive_solver|apply elem_of_seqZ; lia|done|naive_solver]. }
  lia.
Qed.

(** What [ensure_section] does to the table. *)
Record ensured (sec : Z) (s s' : SparseMem) : Prop := {
  ens_len : length (sm_sections s') = length (sm_sections s);
  ens_ptr : sm_ptr s' = sm_ptr s;
  ens_present : ∀ sec', sec_present s' sec' ↔ sec_present s sec' ∨ sec' = sec;
  ens_frame : ∀ p, pfn_present s' p = true → frame_or_absent s' p = frame_or_absent s p;
  ens_max : max_present_sec s' = Z.max (max_present_sec s) sec ∨
    (s' = s ∧ sec_present s sec)
}.

Lemma ensure_section_spec T s bump sec :
  0 ≤ sec < section_count s → T sec = true → room T s bump →
  wp (ensure_section s bump sec) (λ '(s', bump'), ensured sec s s' ∧ room T s' bump').
Proof.
  intros Hsec HT (Hn & Hroom & He). unfold ensure_section.
  rewrite (proj2 (Z.leb_gt _ _)) by lia.
  destruct (lookup_lt_is_Some_2 (sm_sections s) (Z.to_nat sec)) as [x Hx].
  { unfold section_count in Hsec. lia. }
  apply wp_bind. eapply wp_arr_get; [done|]. destruct (ms_present x) eqn:Hpr.
  { apply wp_ret. assert (sec_present s sec) by (split; [lia|eauto]).
    split; [|done]. split; try done; [|by right]. intros sec'. split; [by left|]. by intros [?| ->]. }
  assert (¬ sec_present s sec) as Hnp by (intros (_ & y & Hy & Hy'); congruence).
  set (l := <[Z.to_nat sec:=mk_section ∅ true]> (sm_sections s)).
  set (s1 := mk_sparse (sm_ptr s) l (if max_present_sec s <? sec then sec else max_present_sec s)
                       (cached_max_pfn s)).
  assert (∀ sec', sec_present s1 sec' ↔ sec_present s sec' ∨ sec' = sec) as Hp1.
  { intros sec'. by apply sec_present_put. }
  assert (length (sm_sections s1) = length (sm_sections s)) as Hl1 by apply length_insert.
  assert (missing T s1 + 1 ≤ missing T s) as Hm.
  { apply (missing_lt T s s1 sec); try done; [|apply Hp1; by right].
    intros sec' Hs'. apply Hp1. by left. }
  pose proof (missing_nonneg T s1). unfold SECTION_COST, PTR_ALIGN, PAGES_PER_SECTION, FRAME_BYTES in Hroom.
  apply wp_bind. change PTR_ALIGN with (2 ^ 3). eapply wp_mono.
  { apply (bump_alloc_spec bump (PAGES_PER_SECTION * FRAME_BYTES) 3); try done; lia. }
  intros [bump' r]. cbv zeta.
  pose proof (align_up_to_spec (bump_next bump) (2 ^ 3) ltac:(lia)) as [Hp _].
  set (p := align_up_to _ _) in *.
  rewrite decide_True by (unfold PAGES_PER_SECTION, FRAME_BYTES, u64_max in *; lia).
  intros [-> ->]. apply wp_bind, (wp_unwrap _ p); [done|].
  apply wp_bind. eapply put_section_spec; [lia|done|]. apply wp_ret.
  change (ensured sec s s1 ∧ room T s1 (mk_bump (bump_end bump) (p + PAGES_PER_SECTION * FRAME_BYTES))).
  split.
  - split; [done|done|done| |left; simpl; destruct (Z.ltb_spec (max_present_sec s) sec); lia].
    intros q [Hq _]%pfn_present_spec. unfold s1, l.
    erewrite (frame_put s sec x (mk_section ∅ true)); [|done|done|by right|done|done].
    case_decide as E; [|done]. rewrite frame_or_absent_none; [done|].
    apply not_true_iff_false. rewrite pfn_present_spec, E. tauto.
  - unfold room, SECTION_COST, PTR_ALIGN, PAGES_PER_SECTION, FRAME_BYTES in *. simpl. lia.
Qed.

(** Marking a chunk of a section that [ensure_section] has just made present. *)
Lemma marked_after_ensure st s s1 s2 sec a c :
  0 ≤ sec < section_count s → ensured sec s s1 →
  sec * PAGES_PER_SECTION ≤ a → a < c → c ≤ (sec + 1) * PAGES_PER_SECTION →
  marked st true a c s1 s2 → marked st true a c s s2.
Proof.
  intros Hsec [Hl Hptr Hpr Hfr Hmx] Ha Hac Hc [Hl2 Hptr2 Hpr2 Hfr2 (Hm2 & Hmm2 & Hmp2)].
  assert (∀ q, a ≤ q < c → pfn_to_section q = sec) as Hq.
  { intros q Hq. apply pfn_to_section_spec. lia. }
  assert (∀ sec', sec_present s2 sec' ↔ sec_present s sec' ∨ sec' = sec) as Hpr'.
  { intros sec'. rewrite Hpr2, Hpr. split; [|tauto].
    intros [?|(_ & _ & q & Hin & <-)]; [done|]. right. by apply Hq. }
  split.
  - congruence.
  - congruence.
  - intros sec'. rewrite Hpr'. split; (intros [?|H]; [by left|right]).
    + subst. split_and!; [done|lia|lia|]. exists a. split; [lia|]. apply Hq. lia.
    + destruct H as (_ & _ & q & Hin & <-). by apply Hq.
  - intros p Hp. rewrite Hfr2 by done.
    assert (pfn_present s1 p = true) as Hp1.
    { apply pfn_present_spec in Hp as [? Hp]. apply pfn_present_spec. split; [done|].
      apply Hpr. by apply Hpr' in Hp. }
    by rewrite Hfr.
  - assert (sec_present s2 sec) as Hsp by (apply Hpr'; by right).
    destruct Hmx as [Hmx|[-> Hps]]; [|by split_and!].
    split; [lia|]. split.
    + destruct Hmm2 as [E|?]; [|by right]. rewrite E, Hmx.
      destruct (Z.max_spec (max_present_sec s) sec) as [[_ ->]|[_ ->]]; [by right|by left].
    + intros sec' Hs'. apply Hpr' in Hs' as [?| ->]; [by left|]. right. lia.
Qed.

(** *** The marking loop *)

Lemma pfn_to_section_mono p q : p ≤ q → pfn_to_section p ≤ pfn_to_section q.
Proof. intros Hpq. rewrite !pfn_to_section_div. by apply Z.div_le_mono. Qed.

Lemma sec_present_lt s sec : sec_present s sec → 0 ≤ sec < section_count s.
Proof.
  intros (Hs & x & Hx & _). apply lookup_lt_Some in Hx. unfold section_count. lia.
Qed.

(** Frames beyond the table are ignored. *)
Lemma marked_beyond st create lo hi s :
  section_count s ≤ pfn_to_section lo → marked st create lo hi s s.
Proof.
  intros Hlo. split; try done.
  - intros sec. split; [by left|]. intros [?|(_ & Hs & q & Hq & <-)]; [done|].
    pose proof (pfn_to_section_mono lo q ltac:(lia)). lia.
  - intros p [_ Hp]%pfn_present_spec. apply sec_present_lt in Hp. rewrite decide_False; [done|].
    intros Hin. pose proof (pfn_to_section_mono lo p ltac:(lia)). lia.
  - split; [done|]. split; [by left|]. by left.
Qed.

Lemma room_mono T s s' bump :
  length (sm_sections s') = length (sm_sections s) →
  (∀ sec, sec_present s sec → sec_present s' sec) → room T s bump → room T s' bump.
Proof.
  intros Hl Hp (? & ? & ?). pose proof (missing_mono T s s' Hl Hp).
  unfold room, SECTION_COST, PAGES_PER_SECTION, FRAME_BYTES, PTR_ALIGN in *. lia.
Qed.

Lemma marked_present_mono st create lo hi s s' sec :
  marked st create lo hi s s' → sec_present s sec → sec_present s' sec.
Proof. intros [_ _ Hp _ _] ?. apply Hp. by left. Qed.

(** The state of [mark_range]'s loop. *)
Definition marking (T : Z → bool) (st : FrameState.t) (create : bool) (lo hi : Z) (s0 : SparseMem)
    (x : SparseMem * BumpState * Z) : Prop :=
  let '(s, bump, pfn) := x in
  lo ≤ pfn ≤ hi ∧ marked st create lo pfn s0 s ∧ room T s bump.

Definition sections_left (hi : Z) (n : nat) (pfn : Z) : nat :=
  if pfn <? hi then S (n - Z.to_nat (pfn_to_section pfn)) else 0.

Lemma mark_step_spec T st create lo hi s0 x :
  0 ≤ lo → hi ≤ 2 ^ 40 → section_count s0 ≤ 2 ^ 25 →
  (create = true → ∀ q, lo ≤ q < hi → T (pfn_to_section q) = true) →
  marking T st create lo hi s0 x →
  wp (mark_step hi st create x) (λ r,
    match r with
    | inl x' => marking T st create lo hi s0 x' ∧
        (sections_left hi (length (sm_sections s0)) x'.2 <
         sections_left hi (length (sm_sections s0)) x.2)%nat
    | inr (s', bump') => marked st create lo hi s0 s' ∧ room T s' bump'
    end).
Proof.
  intros Hlo Hhi Hcnt HT. destruct x as [[s bump] pfn]. intros (Hpfn & Hmk & Hroom).
  pose proof (mkd_len _ _ _ _ _ _ Hmk) as Hlen.
  assert (section_count s = section_count s0) as Hsc by (unfold section_count; by rewrite Hlen).
  unfold mark_step. destruct (Z.ltb_spec pfn hi) as [Hlt|Hge].
  2:{ apply wp_ret. by assert (pfn = hi) as -> by lia. }
  set (sec := pfn_to_section pfn).
  assert (0 ≤ sec) as Hsec0 by (apply pfn_to_section_nonneg; lia).
  destruct (proj1 (pfn_to_section_spec pfn sec) eq_refl) as [Hp1 Hp2].
  destruct (Z.leb_spec (section_count s) sec) as [Hout|Hin].
  { apply wp_ret. split; [|done]. eapply marked_trans; [|exact Hmk|by apply marked_beyond]. lia. }
  assert (∀ c, pfn < c → c = hi ∨ c = (sec + 1) * PAGES_PER_SECTION →
    (sections_left hi (length (sm_sections s0)) c <
     sections_left hi (length (sm_sections s0)) pfn)%nat) as Hmeas.
  { intros c Hc Hor. unfold sections_left, section_count in *.
    rewrite (proj2 (Z.ltb_lt pfn hi)) by lia. destruct (Z.ltb_spec c hi); [|lia].
    assert (pfn_to_section c = sec + 1) as -> by (apply pfn_to_section_spec; unfold PAGES_PER_SECTION in *; lia).
    fold sec. lia. }
  apply wp_bind.
  apply (wp_mono _ (λ '(s1, bump1), room T s1 bump1 ∧
    ((create = true ∧ ensured sec s s1) ∨ (create = false ∧ s1 = s)))).
  { destruct create; [|apply wp_ret; split; [done|by right]].
    eapply wp_mono; [apply (ensure_section_spec T); [lia|by apply HT; lia|done]|].
    intros [s1 bump1] [? ?]. split; [done|by left]. }
  intros [s1 bump1] [Hroom1 Hor].
  assert (length (sm_sections s1) = length (sm_sections s)) as Hl1.
  { destruct Hor as [[_ []]|[_ ->]]; done. }
  destruct (lookup_lt_is_Some_2 (sm_sections s1) (Z.to_nat sec)) as [x Hx].
  { unfold section_count in *. lia. }
  assert (0 ≤ sec < section_count s1) as Hsec1 by (unfold section_count in *; lia).
  apply wp_bind. eapply wp_arr_get; [done|].
  rewrite !section_base_pfn_mul by lia.
  destruct (ms_present x) eqn:Hpr; simpl negb; cbv iota.
  2:{ destruct Hor as [[_ Hens]|[-> ->]].
      { destruct (ens_present _ _ _ Hens sec) as [_ (_ & y & Hy & Hy')]; [by right|congruence]. }
      apply wp_ret. cbn [snd]. split; [|apply Hmeas; [unfold PAGES_PER_SECTION in *; lia|lia]].
      split; [unfold PAGES_PER_SECTION in *; lia|]. split; [|done].
      eapply marked_trans; [|exact Hmk|]; [unfold PAGES_PER_SECTION in *; lia|].
      apply marked_skip. intros q Hq (_ & y & Hy & Hy').
      assert (pfn_to_section q = sec) as E by (apply pfn_to_section_spec; lia).
      rewrite E in Hy. congruence. }
  apply wp_bind, wp_add64; [unfold PAGES_PER_SECTION, u64_max in *; lia|].
  apply wp_bind, wp_sub64; [lia|]. 
  set (c := Z.min hi (sec * PAGES_PER_SECTION + PAGES_PER_SECTION)).
  assert (pfn < c ∧ c ≤ (sec + 1) * PAGES_PER_SECTION ∧
    (c = hi ∨ c = (sec + 1) * PAGES_PER_SECTION)) as (Hc1 & Hc2 & Hc3) by lia.
  apply wp_bind, wp_sub64; [lia|].
  apply wp_bind. apply (marked_fill st create s1 sec x pfn c); [done|done|done|lia|lia|lia|].
  intros s2 Hmk2 _. apply wp_ret. split; [|by apply Hmeas]. split; [lia|].
  assert (marked st create pfn c s s2) as Hmk'.
  { destruct Hor as [[-> Hens]|[-> ->]]; [|done]. eapply marked_after_ensure; [|done..]. lia. }
  split; [eapply marked_trans; [|done..]; lia|].
  apply (room_mono T s1); [apply Hmk2| |done]. intros sec'. by eapply marked_present_mono.
Qed.

(** The frames a byte range touches. *)
Definition first_page (r : MemblockRegion) : Z := mr_base r / PAGE_SIZE.
Definition last_page (r : MemblockRegion) : Z := (mr_end r + PAGE_SIZE - 1) / PAGE_SIZE.

Lemma mark_range_spec T st create s bump r :
  region_live r → mr_end r ≤ PHYS_LIMIT → section_count s ≤ 2 ^ 25 → room T s bump →
  (create = true → ∀ q, first_page r ≤ q < last_page r → T (pfn_to_section q) = true) →
  wp (mark_range s bump (mr_base r) (mr_end r) st create) (λ '(s', bump'),
    marked st create (first_page r) (last_page r) s s' ∧ room T s' bump').
Proof.
  intros [(Hb & Hs & Hmax) Hne] He Hcnt Hroom HT. unfold mark_range.
  assert (mr_end r = mr_base r + mr_size r) as Hend by (unfold mr_end, sat_add64; lia).
  unfold PHYS_LIMIT in He. rewrite (proj2 (Z.leb_gt _ _)) by lia.
  apply wp_bind, wp_add64; [unfold PAGE_SIZE, u64_max; lia|].
  apply wp_bind, wp_sub64; [unfold PAGE_SIZE; lia|].
  rewrite !Z.shiftr_div_pow2 by done. change (2 ^ PAGE_SHIFT) with PAGE_SIZE.
  fold (first_page r) (last_page r).
  assert (0 ≤ first_page r ≤ last_page r ∧ last_page r ≤ 2 ^ 40) as Hpg.
  { unfold first_page, last_page, PAGE_SIZE. split; [split|].
    - apply Z.div_pos; lia.
    - apply Z.div_le_mono; lia.
    - apply Z.lt_succ_r, Z.div_lt_upper_bound; lia. }
  apply (wp_iter _ _ _ (marking T st create (first_page r) (last_page r) s)
    (λ x, sections_left (last_page r) (length (sm_sections s)) x.2)).
  - split; [lia|]. split; [by apply marked_empty|done].
  - unfold sections_left. case_match; simpl; lia.
  - intros x Hx. eapply wp_mono; [by apply (mark_step_spec T st create (first_page r) (last_page r) s); try lia|].
    by intros [x'|[s' bump']].
Qed.

(** *** Marking a table of regions *)

Definition page_in (r : MemblockRegion) (p : Z) : Prop := first_page r ≤ p < last_page r.
(** Some region of the table touches the page. *)
Definition page_of (l : list MemblockRegion) (p : Z) : Prop := ∃ r, r ∈ l ∧ page_in r p.

#[global] Instance page_of_dec l p : Decision (page_of l p).
Proof.
  refine (cast_if (decide (Exists (λ r, page_in r p) l))); unfold page_of.
  - by apply Exists_exists.
  - by rewrite <-Exists_exists.
Defined.

Lemma page_of_cons r l p : page_of (r :: l) p ↔ page_in r p ∨ page_of l p.
Proof. unfold page_of. setoid_rewrite elem_of_cons. naive_solver. Qed.

Record marked_all (st : FrameState.t) (create : bool) (l : list MemblockRegion)
    (s s' : SparseMem) : Prop := {
  mka_len : length (sm_sections s') = length (sm_sections s);
  mka_ptr : sm_ptr s' = sm_ptr s;
  mka_present : ∀ sec, sec_present s' sec ↔
    sec_present s sec ∨
    create = true ∧ 0 ≤ sec < section_count s ∧ ∃ q, page_of l q ∧ pfn_to_section q = sec;
  mka_frame : ∀ p, pfn_present s' p = true →
    frame_or_absent s' p =
      if decide (page_of l p) then set_state st (frame_or_absent s p) else frame_or_absent s p;
  mka_max : max_present_sec s ≤ max_present_sec s' ∧
    (max_present_sec s' = max_present_sec s ∨ sec_present s' (max_present_sec s')) ∧
    (∀ sec, sec_present s' sec → sec_present s sec ∨ sec ≤ max_present_sec s')
}.

Lemma marked_all_nil st create s : marked_all st create [] s s.
Proof.
  assert (∀ p, ¬ page_of [] p) as Hn by (intros p (r & ?%elem_of_nil & _); done).
  split; [done|done| | |].
  - intros sec. split; [by left|]. intros [?|(_ & _ & q & Hq & _)]; [done|]. by apply Hn in Hq.
  - intros p _. by rewrite decide_False.
  - split; [done|]. split; by left.
Qed.

Lemma marked_all_snoc st create l r s1 s2 s3 :
  marked_all st create l s1 s2 → marked st create (first_page r) (last_page r) s2 s3 →
  marked_all st create (l ++ [r]) s1 s3.
Proof.
  intros [Hl1 Hp1 Hs1 Hf1 (Ha1 & Hb1 & Hc1)] [Hl2 Hp2 Hs2 Hf2 (Ha2 & Hb2 & Hc2)].
  assert (∀ p, page_of (l ++ [r]) p ↔ page_of l p ∨ page_in r p) as Hpg.
  { intros p. unfold page_of. setoid_rewrite elem_of_app. setoid_rewrite list_elem_of_singleton.
    naive_solver. }
  split; [congruence|congruence| | |].
  - intros sec. rewrite Hs2, Hs1. unfold section_count. rewrite Hl1. setoid_rewrite Hpg.
    unfold page_in. clear. naive_solver.
  - intros p Hp. rewrite Hf2 by done. destruct (pfn_present s2 p) eqn:E2.
    { rewrite Hf1 by done. pose proof (Hpg p) as Hiff. unfold page_in in Hiff.
      repeat case_decide; tauto || done. }
    assert (pfn_present s1 p = false) as E1.
    { destruct (pfn_present s1 p) eqn:E1; [|done].
      rewrite (pfn_present_mono s1 s2) in E2; [done| |done]. intros sec Hsec. apply Hs1. by left. }
    rewrite !frame_or_absent_none by done. pose proof (Hpg p) as Hiff. unfold page_in in Hiff.
    assert (¬ page_of l p) as Hnp.
    { intros Hin. rewrite <-not_true_iff_false in E2. apply E2, pfn_present_spec.
      apply pfn_present_spec in Hp as [Hp0 Hsec]. split; [done|].
      apply Hs2 in Hsec as [?|(? & ? & _)]; [done|]. apply Hs1. right.
      unfold section_count in *. rewrite Hl1 in *. split_and!; [done|lia|lia|by exists p]. }
    repeat case_decide; tauto || done.
  - split; [lia|]. split.
    + destruct Hb2 as [->|?]; [|by right]. destruct Hb1 as [->|?]; [by left|].
      right. apply Hs2. by left.
    + intros sec Hsec. destruct (Hc2 sec Hsec) as [H2|?]; [|by right].
      destruct (Hc1 sec H2) as [?|?]; [by left|right; lia].
Qed.

Definition regions_in (B : Z) (l : list MemblockRegion) : Prop :=
  Forall (λ r, region_live r ∧ mr_end r ≤ B) l.

Lemma mark_regions_spec T st create skip s bump l :
  regions_in PHYS_LIMIT l → (∀ r, r ∈ l → skip r = false) →
  section_count s ≤ 2 ^ 25 → room T s bump →
  (create = true → ∀ q, page_of l q → T (pfn_to_section q) = true) →
  wp (mark_regions s bump l skip st create) (λ '(s', bump'),
    marked_all st create l s s' ∧ room T s' bump').
Proof.
  intros Hl Hskip Hcnt Hroom HT. unfold mark_regions.
  apply (wp_for_each _ _ _ (λ done '(s', bump'), marked_all st create done s s' ∧ room T s' bump')).
  - split; [apply marked_all_nil|done].
  - intros done r rest [s1 bump1] -> [Hmk Hroom1].
    assert (r ∈ done ++ r :: rest) as Hin by (apply elem_of_app; right; by left).
    unfold regions_in in Hl. rewrite Forall_forall in Hl. destruct (Hl r Hin) as [Hlive Hend].
    rewrite Hskip by done. eapply wp_mono.
    { apply (mark_range_spec T st create s1 bump1 r); [done|done| |done|].
      - unfold section_count in *. by rewrite (mka_len _ _ _ _ _ Hmk).
      - intros Hc q Hq. apply HT; [done|]. by exists r. }
    intros [s2 bump2] [Hmk2 Hroom2]. split; [|done]. by eapply marked_all_snoc.
  - intros [s' bump'] [? ?]. done.
Qed.

(** ** The highest present frame *)

Definition nonabsent (s : SparseMem) (p : Z) : Prop :=
  ∃ f, pfn_to_frame s p = Some f ∧ f_state f ≠ FrameState.Absent.

Lemma last_present_spec x :
  match last_present x with
  | None => ∀ i, 0 ≤ i < PAGES_PER_SECTION → f_state (section_frame x i) = FrameState.Absent
  | Some i => 0 ≤ i < PAGES_PER_SECTION ∧ f_state (section_frame x i) ≠ FrameState.Absent ∧
      ∀ j, i < j < PAGES_PER_SECTION → f_state (section_frame x j) = FrameState.Absent
  end.
Proof.
  unfold last_present. assert (0 ≤ PAGES_PER_SECTION) as HP by done.
  revert HP. generalize PAGES_PER_SECTION. intros N HN.
  assert (∀ k i, reverse (seqZ 0 N) !! k = Some i → i = N - 1 - Z.of_nat k ∧ 0 ≤ i < N) as Hrev.
  { intros k i Hk. pose proof (lookup_lt_Some _ _ _ Hk) as Hlt. rewrite length_reverse, length_seqZ in Hlt.
    rewrite reverse_lookup in Hk by (rewrite length_seqZ; lia).
    apply lookup_seqZ in Hk as [-> Hr]. rewrite length_seqZ in *. lia. }
  destruct (list_find _ _) as [[k i]|] eqn:E.
  - change (snd <$> Some (k, i)) with (Some i). cbv iota.
    apply list_find_Some in E as (Hk & Hne & Hmin).
    destruct (Hrev _ _ Hk) as [Hi Hr]. split; [done|]. split; [done|].
    intros j Hj. destruct (decide (f_state (section_frame x j) = FrameState.Absent)) as [|Hn]; [done|].
    exfalso. apply (Hmin (Z.to_nat (N - 1 - j)) j); [|lia|done].
    rewrite reverse_lookup by (rewrite length_seqZ; lia). apply lookup_seqZ.
    rewrite length_seqZ. lia.
  - change (snd <$> None) with (@None Z). cbv iota. apply list_find_None in E. rewrite Forall_forall in E.
    intros i Hi. destruct (decide (f_state (section_frame x i) = FrameState.Absent)) as [|Hn]; [done|].
    destruct (E i); [|done]. apply elem_of_reverse, elem_of_seqZ. lia.
Qed.

Lemma compute_max_spec s :
  section_count s ≤ 2 ^ 25 →
  wp (compute_max_present_pfn s) (λ r,
    0 ≤ r ≤ 2 ^ 40 ∧ (∀ p, nonabsent s p → p < r) ∧ (r = 0 ∨ nonabsent s (r - 1))).
Proof.
  intros Hcnt. unfold compute_max_present_pfn.
  apply (wp_for_each _ _ _ (λ done r, 0 ≤ r ≤ 2 ^ 40 ∧
    (∀ p, nonabsent s p → pfn_to_section p ∈ done → p < r) ∧ (r = 0 ∨ nonabsent s (r - 1)))).
  - split; [lia|]. split; [|by left]. by intros p _ ?%elem_of_nil.
  - intros done sec rest r Heq (Hr & Hall & Hlast).
    assert (sec ∈ seqZ 0 (section_count s)) as Hsec%elem_of_seqZ.
    { rewrite Heq. apply elem_of_app. right. by left. }
    destruct (lookup_lt_is_Some_2 (sm_sections s) (Z.to_nat sec)) as [x Hx].
    { unfold section_count in Hsec. lia. }
    apply wp_bind. eapply wp_arr_get; [done|].
    assert (∀ p, nonabsent s p → pfn_to_section p = sec →
      ms_present x = true ∧ f_state (section_frame x (pfn_to_offset p)) ≠ FrameState.Absent) as Hp.
    { intros p (f & Hf & Hne) E. apply pfn_to_frame_inv in Hf as (_ & y & Hy & Hpr & ->).
      rewrite E in Hy. assert (y = x) as -> by congruence. done. }
    destruct (ms_present x) eqn:Hpr.
    2:{ apply wp_ret. split; [done|]. split; [|done]. intros p Hn [?|E%list_elem_of_singleton]%elem_of_app.
        - by apply Hall.
        - by destruct (Hp p Hn E). }
    cbn [negb]. cbv zeta. pose proof (last_present_spec x) as Hlp.
    destruct (last_present x) as [i|].
    2:{ apply wp_ret. split; [done|]. split; [|done]. intros p Hn [?|E%list_elem_of_singleton]%elem_of_app.
        - by apply Hall.
        - destruct (Hp p Hn E) as [_ Hne]. destruct Hne. apply Hlp. apply pfn_split. }
    destruct Hlp as (Hi & Hne & Hafter). rewrite section_base_pfn_mul by lia.
    unfold PAGES_PER_SECTION in Hi.
    apply wp_bind, wp_add64; [unfold PAGES_PER_SECTION, u64_max; lia|].
    apply wp_bind, wp_add64; [unfold PAGES_PER_SECTION, u64_max; lia|]. apply wp_ret.
    set (p0 := sec * PAGES_PER_SECTION + i).
    assert (pfn_to_section p0 = sec) as Hs0.
    { apply pfn_to_section_spec. unfold p0, PAGES_PER_SECTION in *. lia. }
    assert (pfn_to_offset p0 = i) as Ho0.
    { pose proof (pfn_split p0) as [E _]. rewrite Hs0 in E. unfold p0 in *. lia. }
    assert (nonabsent s p0) as Hn0.
    { exists (section_frame x i). split; [|done]. rewrite <-Ho0. apply pfn_to_frame_some; [|by rewrite Hs0|done].
      unfold p0, PAGES_PER_SECTION. lia. }
    assert (∀ p, nonabsent s p → pfn_to_section p = sec → p ≤ p0) as Hmax.
    { intros p Hn E. destruct (Hp p Hn E) as [_ Hne']. pose proof (pfn_split p) as [E' Ho]. rewrite E in E'.
      destruct (decide (i < pfn_to_offset p)); [|unfold p0; lia]. destruct Hne'. apply Hafter. lia. }
    assert (0 ≤ p0 + 1 ≤ 2 ^ 40) as Hb by (unfold p0, PAGES_PER_SECTION; lia).
    destruct (Z.ltb_spec r (p0 + 1)) as [Hlt|Hge].
    + split; [done|]. split; [|right; by replace (p0 + 1 - 1) with p0 by lia].
      intros p Hn [Hd|E%list_elem_of_singleton]%elem_of_app.
      * specialize (Hall p Hn Hd). lia.
      * specialize (Hmax p Hn E). lia.
    + split; [done|]. split; [|done]. intros p Hn [Hd|E%list_elem_of_singleton]%elem_of_app.
      * by apply Hall.
      * specialize (Hmax p Hn E). lia.
  - intros r (Hr & Hall & Hlast). split; [done|]. split; [|done]. intros p Hn. apply Hall; [done|].
    destruct Hn as (f & Hf & _). apply pfn_to_frame_inv in Hf as (Hp & x & Hx & Hpr & _).
    apply elem_of_seqZ. assert (sec_present s (pfn_to_section p)) as Hsp%sec_present_lt; [|lia].
    split; [by apply pfn_to_section_nonneg|eauto].
Qed.

(** ** Building the table from the memory regions *)

(** The sections a region meets, as [count_present_sections] computes them. *)
Definition sec_in (r : MemblockRegion) (sec : Z) : Prop :=
  mr_base r / SECTION_SIZE ≤ sec ≤ (mr_end r - 1) / SECTION_SIZE.
Definition sec_of (l : list MemblockRegion) (sec : Z) : Prop := ∃ r, r ∈ l ∧ sec_in r sec.

#[global] Instance sec_of_dec l sec : Decision (sec_of l sec).
Proof.
  refine (cast_if (decide (Exists (λ r, sec_in r sec) l))); unfold sec_of.
  - by apply Exists_exists.
  - by rewrite <-Exists_exists.
Defined.

Lemma page_in_sec r q : region_live r → page_in r q → sec_in r (pfn_to_section q).
Proof.
  intros [(Hb & Hs & Hmax) Hne] [Hlo Hhi]. unfold sec_in. rewrite pfn_to_section_div.
  assert (mr_end r = mr_base r + mr_size r) as He by (unfold mr_end, sat_add64; lia).
  change SECTION_SIZE with (PAGE_SIZE * PAGES_PER_SECTION).
  rewrite <-!Z.div_div by done. unfold first_page, last_page in *.
  replace (mr_end r + PAGE_SIZE - 1) with (mr_end r - 1 + 1 * PAGE_SIZE) in Hhi by lia.
  rewrite Z.div_add in Hhi by done. split; apply Z.div_le_mono; unfold PAGES_PER_SECTION; lia.
Qed.

(** How many of the first [n] sections the regions meet. *)
Definition sections_met (l : list MemblockRegion) (n : Z) : Z :=
  Z.of_nat (length (filter (sec_of l) (seqZ 0 n))).

(** The frame table describes the memory tables. *)
Record built (mb : Memblock) (s : SparseMem) : Prop := {
  bt_init : is_initialized s = true;
  bt_count : 0 < section_count s ≤ 2 ^ 25;
  bt_present : ∀ sec, sec_present s sec ↔
    ∃ q, page_of (memory_regions mb) q ∧ pfn_to_section q = sec;
  bt_state : ∀ p f, pfn_to_frame s p = Some f →
    f_state f = if decide (page_of (reserved_regions mb) p) then FrameState.Reserved
                else if decide (page_of (memory_regions mb) p) then FrameState.Usable
                else FrameState.Absent;
  bt_max_sec : 0 ≤ max_present_sec s < section_count s ∧
    ∀ sec, sec_present s sec → sec ≤ max_present_sec s;
  bt_max_pfn : 0 ≤ cached_max_pfn s ≤ 2 ^ 40 ∧
    (∀ p, nonabsent s p → p < cached_max_pfn s) ∧
    (cached_max_pfn s = 0 ∨ nonabsent s (cached_max_pfn s - 1))
}.

(** What [init_from_memblock] is entitled to. *)
Record tables_ok (mb : Memblock) : Prop := {
  to_kinds : Forall (λ r, mr_kind r = MemblockType.Usable) (memory_regions mb);
  to_memory : regions_in (max_phys_addr mb) (memory_regions mb);
  to_reserved : regions_in PHYS_LIMIT (reserved_regions mb);
  to_limit : 0 < max_phys_addr mb ≤ PHYS_LIMIT
}.

Definition sections_for (max_phys : Z) : Z := (max_phys - 1) / SECTION_SIZE + 1.

Lemma sections_for_bound max_phys :
  0 < max_phys ≤ PHYS_LIMIT → 0 < sections_for max_phys ≤ 2 ^ 25.
Proof.
  intros H. unfold sections_for, SECTION_SIZE, PHYS_LIMIT in *.
  assert (0 ≤ (max_phys - 1) / 2 ^ 27) by (apply Z.div_pos; lia).
  assert ((max_phys - 1) / 2 ^ 27 < 2 ^ 25) by (apply Z.div_lt_upper_bound; lia). lia.
Qed.

Lemma section_count_from_max_phys_spec max_phys (Q : Z → Prop) :
  0 < max_phys ≤ PHYS_LIMIT → Q (sections_for max_phys) →
  wp (section_count_from_max_phys max_phys) Q.
Proof.
  intros H HQ. pose proof (sections_for_bound _ H). unfold section_count_from_max_phys.
  rewrite (proj2 (Z.eqb_neq _ _)) by lia. apply wp_bind, wp_sub64; [lia|].
  rewrite Z.shiftr_div_pow2 by done. change (2 ^ SECTION_SHIFT) with SECTION_SIZE.
  apply wp_add64; [|done]. unfold sections_for, u64_max in *. lia.
Qed.

Lemma mem_page_section mb q :
  tables_ok mb → page_of (memory_regions mb) q →
  0 ≤ pfn_to_section q < sections_for (max_phys_addr mb).
Proof.
  intros [_ Hm _ Hlim] (r & Hr & Hq). unfold regions_in in Hm. rewrite Forall_forall in Hm.
  destruct (Hm r Hr) as [Hlive Hend]. pose proof (page_in_sec r q Hlive Hq) as [Hlo Hhi].
  destruct Hlive as [(Hb & Hs & _) _]. unfold sections_for.
  assert (0 ≤ mr_base r / SECTION_SIZE) by (apply Z.div_pos; [lia|done]).
  assert ((mr_end r - 1) / SECTION_SIZE ≤ (max_phys_addr mb - 1) / SECTION_SIZE)
    by (apply Z.div_le_mono; [done|lia]). lia.
Qed.

Lemma replicate_absent ptr n mx cm sec :
  ¬ sec_present (mk_sparse ptr (replicate n section_empty) mx cm) sec.
Proof. intros (_ & x & Hx & Hpr). simpl in Hx. apply lookup_replicate in Hx as [-> _]. done. Qed.

(** The two marking passes over a fresh table. *)
Lemma built_of_marks mb ptr s1 s2 mx :
  let s0 := mk_sparse ptr (replicate (Z.to_nat (sections_for (max_phys_addr mb))) section_empty) 0 0 in
  tables_ok mb → ptr ≠ 0 →
  marked_all FrameState.Usable true (memory_regions mb) s0 s1 →
  marked_all FrameState.Reserved false (reserved_regions mb) s1 s2 →
  (0 ≤ mx ≤ 2 ^ 40 ∧ (∀ p, nonabsent s2 p → p < mx) ∧ (mx = 0 ∨ nonabsent s2 (mx - 1))) →
  built mb (mk_sparse (sm_ptr s2) (sm_sections s2) (max_present_sec s2) mx).
Proof.
  intros s0 Hto Hptr [Hl1 Hp1 Hs1 Hf1 (Ha1 & Hb1 & Hc1)] [Hl2 Hp2 Hs2 Hf2 (Ha2 & Hb2 & Hc2)] Hmx.
  pose proof (sections_for_bound _ (to_limit _ Hto)) as Hsb.
  assert (section_count s0 = sections_for (max_phys_addr mb)) as Hc0.
  { unfold section_count, s0. simpl. rewrite length_replicate. lia. }
  assert (section_count s2 = section_count s0) as Hcn by (unfold section_count; by rewrite Hl2, Hl1).
  assert (∀ sec, ¬ sec_present s0 sec) as Hno by (intros sec; apply replicate_absent).
  assert (∀ sec, sec_present s2 sec ↔ sec_present s1 sec) as Hs12.
  { intros sec. rewrite Hs2. naive_solver. }
  assert (∀ sec, sec_present s2 sec ↔ ∃ q, page_of (memory_regions mb) q ∧ pfn_to_section q = sec) as Hpres.
  { intros sec. rewrite Hs12, Hs1, Hc0. split.
    - intros [Hp|(_ & _ & ?)]; [by destruct (Hno sec)|done].
    - intros (q & Hq & <-). right. pose proof (mem_page_section mb q Hto Hq). eauto. }
  split; [| |exact Hpres| | |exact Hmx].
  - unfold is_initialized. simpl. rewrite Hp2, Hp1. simpl. by rewrite (proj2 (Z.eqb_neq _ _)).
  - change (0 < section_count s2 ≤ 2 ^ 25). lia.
  - intros p f Hf. change (pfn_to_frame s2 p = Some f) in Hf.
    assert (pfn_present s2 p = true) as Hpp by (apply pfn_to_frame_present; eauto).
    assert (frame_or_absent s2 p = f) as <- by (unfold frame_or_absent; by rewrite Hf).
    assert (pfn_present s1 p = true) as Hpp1.
    { rewrite pfn_present_spec in Hpp |- *. by rewrite <-Hs12. }
    rewrite Hf2, Hf1 by done. rewrite (frame_or_absent_none s0 p).
    2:{ apply not_true_iff_false. rewrite pfn_present_spec. intros [_ ?]. by eapply Hno. }
    by repeat case_decide.
  - split; [|intros sec Hsec%Hs12; destruct (Hc1 sec Hsec) as [Hp|?]; [by destruct (Hno sec)|simpl; lia]].
    change (0 ≤ max_present_sec s2 < section_count s2). change (max_present_sec s0) with 0 in *.
    split; [lia|]. destruct Hb2 as [E|Hp%sec_present_lt]; [|lia].
    destruct Hb1 as [E1|Hp%Hs12%sec_present_lt]; lia.
Qed.

Lemma init_from_memblock_spec mb bump :
  tables_ok mb → 0 < bump_next bump → bump_end bump + 4096 ≤ u64_max →
  (let n := sections_for (max_phys_addr mb) in
   bump_next bump + PTR_ALIGN + n * MEMSECTION_BYTES +
   sections_met (memory_regions mb) n * SECTION_COST ≤ bump_end bump) →
  wp (init_from_memblock sparse_empty bump mb) (λ '(s, _), built mb s).
Proof.
  intros Hto Hn He Hroom. cbv zeta in Hroom.
  pose proof Hto as [Hkind Hmem Hres Hlim]. pose proof (sections_for_bound _ Hlim) as Hsb.
  unfold init_from_memblock. apply wp_bind, wp_assert; [done|].
  rewrite (proj2 (Z.eqb_neq _ _)) by lia.
  apply wp_bind, section_count_from_max_phys_spec; [done|].
  set (n := sections_for (max_phys_addr mb)) in *.
  apply wp_bind, wp_mul64; [unfold MEMSECTION_BYTES, u64_max; lia|].
  assert (0 ≤ sections_met (memory_regions mb) n) by (unfold sections_met; lia).
  unfold SECTION_COST, PTR_ALIGN, PAGES_PER_SECTION, FRAME_BYTES, MEMSECTION_BYTES in Hroom.
  apply wp_bind. change PTR_ALIGN with (2 ^ 3). eapply wp_mono.
  { apply (bump_alloc_spec bump (n * MEMSECTION_BYTES) 3); unfold MEMSECTION_BYTES; lia. }
  intros [bump1 r]. cbv zeta.
  pose proof (align_up_to_spec (bump_next bump) (2 ^ 3) ltac:(lia)) as [Hp _].
  set (ptr := align_up_to _ _) in *.
  rewrite decide_True by (unfold MEMSECTION_BYTES, u64_max in *; lia).
  intros [-> ->]. apply wp_bind, (wp_unwrap _ ptr); [done|]. cbv zeta.
  set (s0 := mk_sparse ptr _ _ _). set (bump1 := mk_bump _ _).
  set (T := λ sec, bool_decide (sec_of (memory_regions mb) sec)).
  assert (section_count s0 = n) as Hc0.
  { unfold section_count, s0. simpl. rewrite length_replicate. lia. }
  assert (room T s0 bump1) as Hroom1.
  { unfold room, bump1, SECTION_COST, PTR_ALIGN, PAGES_PER_SECTION, FRAME_BYTES, MEMSECTION_BYTES. simpl.
    assert (missing T s0 ≤ sections_met (memory_regions mb) n).
    { unfold missing, sections_met. rewrite Hc0. apply Nat2Z.inj_le, length_filter_mono.
      intros x _ [HT _]. by apply bool_decide_eq_true in HT. }
    pose proof (missing_nonneg T s0). lia. }
  assert (∀ B l, regions_in B l → B ≤ PHYS_LIMIT → regions_in PHYS_LIMIT l) as Hweak.
  { intros B l Hl HB. eapply Forall_impl; [exact Hl|]. intros x [? ?]. split; [done|lia]. }
  unfold regions_in in Hmem. rewrite Forall_forall in Hmem, Hkind.
  apply wp_bind. eapply wp_mono.
  { apply (mark_regions_spec T); [by eapply Hweak; [apply Hto|lia]| |lia|done|].
    - intros r Hr. rewrite bool_decide_eq_true_2 by by apply Hkind. simpl. apply Z.eqb_neq.
      by destruct (Hmem r Hr) as [[_ ?] _].
    - intros _ q (r & Hr & Hq). apply bool_decide_eq_true_2. exists r. split; [done|].
      apply page_in_sec; [|done]. by destruct (Hmem r Hr). }
  intros [s1 bump2] [Hmk1 Hroom2].
  apply wp_bind. eapply wp_mono.
  { apply (mark_regions_spec T _ false); [done| | |done|done].
    - intros r Hr. apply Z.eqb_neq. unfold regions_in in Hres. rewrite Forall_forall in Hres.
      by destruct (Hres r Hr) as [[_ ?] _].
    - unfold section_count. rewrite (mka_len _ _ _ _ _ Hmk1). fold (section_count s0). lia. }
  intros [s2 bump3] [Hmk2 _].
  apply wp_bind. eapply wp_mono.
  { apply compute_max_spec. unfold section_count.
    rewrite (mka_len _ _ _ _ _ Hmk2), (mka_len _ _ _ _ _ Hmk1). fold (section_count s0). lia. }
  intros mx Hmx. apply wp_ret. apply (built_of_marks mb ptr s1); [done|lia|done|done|done].
Qed.
