(* ===== verification/SparsememInit.v ===== *)
(** * Placing the frame metadata

    [sparsemem_required_bytes] is enough for everything [init_from_memblock]
    takes from the bump allocator, and [init_sparsemem_layer] builds a frame
    table in which the metadata's own memory is reserved. *)
From S2P Require Import Prelude Misc Memblock Frame Bump Sparsemem SparsememSpec.

(** ** The section bitmap *)

Definition bit_at (seen : list Z) (sec : Z) : bool :=
  match seen !! Z.to_nat (sec / 64) with
  | Some w => Z.testbit w (sec mod 64)
  | None => false
  end.

Lemma set_bit_spec seen sec :
  length seen = WORDS → 0 ≤ sec →
  wp (set_bit seen sec) (λ seen', length seen' = WORDS ∧
    ∀ i, 0 ≤ i → bit_at seen' i = bit_at seen i || bool_decide (i = sec ∧ sec < MAX_SECTIONS)).
Proof.
  intros Hlen Hsec. unfold set_bit, MAX_SECTIONS. destruct (Z.ltb_spec sec 4096) as [Hlt|Hge].
  2:{ apply wp_ret. split; [done|]. intros i Hi. rewrite bool_decide_eq_false_2 by lia.
      by rewrite orb_false_r. }
  assert (0 ≤ sec / 64 < 64) as Hw.
  { split; [apply Z.div_pos; lia|apply Z.div_lt_upper_bound; lia]. }
  destruct (lookup_lt_is_Some_2 seen (Z.to_nat (sec / 64))) as [w Hseen]; [unfold WORDS in Hlen; lia|].
  apply wp_bind. eapply wp_arr_get; [done|]. apply wp_arr_set; [unfold WORDS in Hlen; lia|].
  split; [by rewrite length_insert|]. intros i Hi. unfold bit_at.
  pose proof (Z.mod_pos_bound sec 64 ltac:(lia)). pose proof (Z.mod_pos_bound i 64 ltac:(lia)).
  pose proof (Z.div_mod sec 64). pose proof (Z.div_mod i 64).
  assert (0 ≤ i / 64) by (apply Z.div_pos; lia).
  destruct (decide (i / 64 = sec / 64)) as [E|E].
  - rewrite E, list_lookup_insert_eq, Hseen by (unfold WORDS in Hlen; lia).
    rewrite Z.lor_spec, Z.shiftl_1_l, Z.pow2_bits_eqb by lia. f_equal.
    destruct (Z.eqb_spec (sec mod 64) (i mod 64)); symmetry;
      [apply bool_decide_eq_true_2|apply bool_decide_eq_false_2]; lia.
  - rewrite list_lookup_insert_ne by lia. rewrite bool_decide_eq_false_2 by (intros [-> _]; done).
    by rewrite orb_false_r.
Qed.

Lemma filter_seqZ_shift (P : Z → Prop) `{∀ x, Decision (P x)} a n :
  length (filter P (seqZ a n)) = length (filter (λ i, P (a + i)) (seqZ 0 n)).
Proof.
  replace a with (a + 0) at 1 by lia. rewrite <-fmap_add_seqZ.
  induction (seqZ 0 n) as [|i l IH]; [done|]. rewrite fmap_cons, !filter_cons.
  repeat case_decide; simpl; try done; by rewrite IH.
Qed.

(** The population counts add up to the number of set bits. *)
Lemma count_bits seen :
  foldr (λ w acc, count_ones w + acc) 0 seen =
  Z.of_nat (length (filter (λ i, bit_at seen i = true) (seqZ 0 (64 * Z.of_nat (length seen))))).
Proof.
  induction seen as [|w seen IH]; [done|]. cbn [foldr length]. rewrite IH.
  replace (64 * Z.of_nat (S (length seen))) with (64 + 64 * Z.of_nat (length seen)) by lia.
  rewrite seqZ_app, filter_app, length_app, (filter_seqZ_shift _ (0 + 64)) by lia.
  unfold count_ones.
  rewrite (filter_ext_in _ (λ i, bit_at (w :: seen) i = true) (seqZ 0 64)).
  2:{ intros i Hi%elem_of_seqZ. unfold bit_at. rewrite Z.div_small, Z.mod_small by lia. done. }
  rewrite (filter_ext_in _ (λ i, bit_at (w :: seen) (0 + 64 + i) = true)
                         (seqZ 0 (64 * Z.of_nat (length seen)))); [lia|].
  intros i Hi%elem_of_seqZ. unfold bit_at.
  replace (0 + 64 + i) with (i + 1 * 64) by lia. rewrite Z.div_add, Z.mod_add by lia.
  assert (0 ≤ i / 64) by (apply Z.div_pos; lia).
  by replace (Z.to_nat (i / 64 + 1)) with (S (Z.to_nat (i / 64))) by lia.
Qed.

Lemma sum_ones_spec seen :
  (length seen ≤ WORDS)%nat →
  wp (for_each (λ w acc, add64 acc (count_ones w)) seen 0) (λ r,
    r = foldr (λ w acc, count_ones w + acc) 0 seen).
Proof.
  intros Hlen.
  assert (∀ l, foldr (λ w acc, count_ones w + acc) 0 l ≤ 64 * Z.of_nat (length l) ∧
               0 ≤ foldr (λ w acc, count_ones w + acc) 0 l) as Hb.
  { intros l. rewrite count_bits. split; [|lia].
    pose proof (length_filter (λ i, bit_at l i = true) (seqZ 0 (64 * Z.of_nat (length l)))) as Hf.
    rewrite length_seqZ in Hf. lia. }
  assert (∀ l1 l2, foldr (λ w acc, count_ones w + acc) 0 (l1 ++ l2) =
    foldr (λ w acc, count_ones w + acc) 0 l1 + foldr (λ w acc, count_ones w + acc) 0 l2) as Happ.
  { intros l1 l2. induction l1 as [|w l1 IH]; simpl; lia. }
  apply (wp_for_each _ _ _ (λ done r, r = foldr (λ w acc, count_ones w + acc) 0 done)).
  - done.
  - intros done w rest r Heq ->. pose proof (Hb seen) as [Hs _]. rewrite Heq, Happ in Hs.
    pose proof (Hb rest) as [_ Hr]. simpl in Hs. pose proof (Hb (w :: rest)) as [_ Hwr].
    rewrite <-Heq in Hs. rewrite Happ. simpl. rewrite Z.add_0_r.
    apply wp_add64; [unfold WORDS, u64_max in *; lia|done].
  - done.
Qed.

(** The regions lie below 512 GiB, the reach of the bitmap. *)
Definition below_bitmap (l : list MemblockRegion) : Prop :=
  regions_in (MAX_SECTIONS * SECTION_SIZE) l.

Lemma mark_region_bits r seen :
  region_live r → length seen = WORDS →
  wp (for_each (λ sec seen, set_bit seen sec)
        (seqZ (Z.shiftr (mr_base r) SECTION_SHIFT)
              (Z.shiftr (sat_sub64 (mr_end r) 1) SECTION_SHIFT -
               Z.shiftr (mr_base r) SECTION_SHIFT + 1)) seen) (λ seen',
    length seen' = WORDS ∧
    ∀ i, 0 ≤ i < MAX_SECTIONS → bit_at seen' i = true ↔ bit_at seen i = true ∨ sec_in r i).
Proof.
  intros [(Hb & Hs & Hmax) Hne] Hlen.
  assert (mr_end r = mr_base r + mr_size r) as He by (unfold mr_end, sat_add64; lia).
  unfold sat_sub64. rewrite Z.max_l by lia. rewrite !Z.shiftr_div_pow2 by done.
  change (2 ^ SECTION_SHIFT) with SECTION_SIZE.
  set (a := mr_base r / SECTION_SIZE). set (z := (mr_end r - 1) / SECTION_SIZE).
  assert (0 ≤ a) by (apply Z.div_pos; [lia|done]).
  apply (wp_for_each _ _ _ (λ done seen', length seen' = WORDS ∧
    ∀ i, 0 ≤ i < MAX_SECTIONS → bit_at seen' i = true ↔ bit_at seen i = true ∨ i ∈ done)).
  - split; [done|]. intros i _. split; [by left|]. by intros [?|?%elem_of_nil].
  - intros done sec rest seen1 Heq [Hl1 Hbits].
    assert (sec ∈ seqZ a (z - a + 1)) as Hsec%elem_of_seqZ.
    { rewrite Heq. apply elem_of_app. right. by left. }
    eapply wp_mono; [apply set_bit_spec; [done|lia]|].
    intros seen2 [Hl2 Hset]. split; [done|]. intros i Hi.
    rewrite Hset, orb_true_iff, Hbits, bool_decide_eq_true, elem_of_app, list_elem_of_singleton by lia.
    split; [naive_solver|]. intros [?|[?| ->]]; [tauto|tauto|]. right. lia.
  - intros seen' [Hl' Hbits]. split; [done|]. intros i Hi. rewrite Hbits by done.
    rewrite elem_of_seqZ. unfold sec_in. fold a z. split; (intros [?|?]; [by left|right; lia]).
Qed.

Lemma count_present_sections_spec mb :
  below_bitmap (memory_regions mb) →
  wp (count_present_sections mb) (λ n, n = sections_met (memory_regions mb) MAX_SECTIONS).
Proof.
  intros Hbelow. unfold below_bitmap, regions_in in Hbelow. rewrite Forall_forall in Hbelow.
  unfold count_present_sections. apply wp_bind.
  apply (wp_for_each _ _ _ (λ done seen, length seen = WORDS ∧
    ∀ i, 0 ≤ i < MAX_SECTIONS → bit_at seen i = true ↔ sec_of done i)).
  - split; [done|]. intros i Hi. unfold bit_at. split.
    + destruct (replicate WORDS 0 !! _) as [w|] eqn:E; [|done].
      apply lookup_replicate in E as [-> _]. by rewrite Z.testbit_0_l.
    + by intros (r & ?%elem_of_nil & _).
  - intros done r rest seen Heq [Hlen Hbits].
    assert (r ∈ memory_regions mb) as Hin by (rewrite Heq; apply elem_of_app; right; by left).
    destruct (Hbelow r Hin) as [Hlive _].
    rewrite (proj2 (Z.eqb_neq _ _)) by apply Hlive.
    eapply wp_mono; [by apply mark_region_bits|]. intros seen' [Hl' Hb']. split; [done|].
    intros i Hi. rewrite Hb', Hbits by done. unfold sec_of. setoid_rewrite elem_of_app.
    setoid_rewrite list_elem_of_singleton. naive_solver.
  - intros seen [Hlen Hbits]. eapply wp_mono; [apply sum_ones_spec; lia|].
    intros n ->. rewrite count_bits, Hlen. unfold sections_met. do 2 f_equal.
    apply filter_ext_in. intros i Hi%elem_of_seqZ. apply Hbits. unfold WORDS, MAX_SECTIONS in *. lia.
Qed.

(** ** Memory tables *)

(** What boot has established when the frame table is placed: normalised tables
    whose raw ranges lie below 512 GiB and contain the usable memory. *)
Record mb_ready (mb : Memblock) : Prop := {
  rd_ok : memblock_ok mb;
  rd_norm : normalized mb;
  rd_raw : ∀ a, covers (memory_regions mb) a → covers (all_memory_regions mb) a;
  rd_below : Forall (λ r, mr_end r ≤ MAX_SECTIONS * SECTION_SIZE) (all_memory_regions mb);
  rd_reserved : Forall (λ r, mr_end r ≤ PHYS_LIMIT) (reserved_regions mb);
  rd_nonempty : all_memory_regions mb ≠ []
}.

Lemma live_end r : region_live r → mr_end r = mr_base r + mr_size r ∧ 0 ≤ mr_base r < mr_end r.
Proof. intros [(? & ? & ?) ?]. unfold mr_end, sat_add64. lia. Qed.

Lemma covers_lt l B a : Forall (λ r, mr_end r ≤ B) l → covers l a → a < B.
Proof.
  intros HB (r & Hr & Ha). rewrite Forall_forall in HB. specialize (HB r Hr). unfold in_region in Ha. lia.
Qed.

(** [max_phys_addr] is determined by the covered addresses. *)
Lemma max_phys_covers l :
  Forall region_live l →
  let M := foldr (λ r acc, Z.max (mr_end r) acc) 0 l in
  0 ≤ M ∧ (∀ a, covers l a → a < M) ∧ (l ≠ [] → 0 < M ∧ covers l (M - 1)) ∧
  Forall (λ r, mr_end r ≤ M) l.
Proof.
  induction 1 as [|r l Hr Hl IH]; simpl.
  { split; [done|]. split; [by intros a (r & ?%elem_of_nil & _)|]. split; [done|constructor]. }
  destruct IH as (H0 & Hlt & Hlast & Hall). destruct (live_end r Hr) as [_ He].
  set (M := foldr _ _ _) in *. split; [lia|]. split; [|split].
  - intros a (r' & [->|Hin]%elem_of_cons & Ha); [unfold in_region in Ha; lia|].
    specialize (Hlt a ltac:(by exists r')). lia.
  - intros _. split; [lia|]. destruct (Z.max_spec (mr_end r) M) as [[Hm ->]|[Hm ->]].
    + destruct l as [|r' l']; [simpl in M; lia|]. destruct Hlast as [_ (x & Hx & Hin)]; [done|].
      exists x. split; [by right|done].
    + exists r. split; [by left|]. unfold in_region. lia.
  - constructor; [lia|]. eapply Forall_impl; [exact Hall|]. simpl. lia.
Qed.

Lemma ready_max_phys mb :
  mb_ready mb → 0 < max_phys_addr mb ≤ MAX_SECTIONS * SECTION_SIZE ∧
    covers (all_memory_regions mb) (max_phys_addr mb - 1) ∧
    ∀ a, covers (all_memory_regions mb) a → a < max_phys_addr mb.
Proof.
  intros [_ Hn _ Hb _ Hne]. destruct (max_phys_covers _ (norm_raw _ Hn)) as (_ & Hlt & Hlast & _).
  destruct (Hlast Hne) as [Hpos Hcov]. split; [|done]. fold (max_phys_addr mb) in *.
  split; [done|]. pose proof (covers_lt _ _ _ Hb Hcov). unfold max_phys_addr in *. lia.
Qed.

Lemma table_kinds P arr cnt : table_ok P arr cnt → Forall (λ r, P (mr_kind r)) (take cnt arr).
Proof. by intros (_ & _ & _ & ?). Qed.

Lemma ready_tables mb : mb_ready mb → tables_ok mb.
Proof.
  intros Hrd. pose proof Hrd as [Hok Hn Hraw Hb Hr Hne].
  destruct (ready_max_phys mb Hrd) as (Hmp & _ & Hlt). split.
  - apply (table_kinds is_usable), Hok.
  - apply Forall_and. split; [apply Hn|]. apply covers_bound; [apply Hn|]. auto.
  - apply Forall_and. split; [apply Hn|done].
  - unfold MAX_SECTIONS, SECTION_SIZE, PHYS_LIMIT in *. lia.
Qed.

Lemma ready_below_bitmap mb : mb_ready mb → below_bitmap (memory_regions mb).
Proof.
  intros Hrd. destruct (ready_tables mb Hrd) as [_ Hm _ _].
  destruct (ready_max_phys mb Hrd) as (Hmp & _). eapply Forall_impl; [exact Hm|].
  intros r [? ?]. split; [done|lia].
Qed.

Lemma sections_for_small mb : mb_ready mb → sections_for (max_phys_addr mb) ≤ MAX_SECTIONS.
Proof.
  intros Hrd. destruct (ready_max_phys mb Hrd) as (Hmp & _). unfold sections_for.
  assert ((max_phys_addr mb - 1) / SECTION_SIZE < MAX_SECTIONS); [|lia].
  apply Z.div_lt_upper_bound; [done|lia].
Qed.

(** The bytes [sparsemem_required_bytes] asks for. *)
Definition metadata_bytes (mb : Memblock) : Z :=
  sections_for (max_phys_addr mb) * MEMSECTION_BYTES +
  sections_met (memory_regions mb) MAX_SECTIONS * SECTION_COST + PTR_ALIGN.

Lemma sections_met_bound l n : 0 ≤ n → 0 ≤ sections_met l n ≤ n.
Proof.
  intros Hn. unfold sections_met. pose proof (length_filter (sec_of l) (seqZ 0 n)) as H.
  rewrite length_seqZ in H. lia.
Qed.

Lemma metadata_bytes_bound mb :
  mb_ready mb → 0 < metadata_bytes mb ≤ 2 ^ 33.
Proof.
  intros Hrd. pose proof (sections_for_small mb Hrd). pose proof (sections_for_bound _ (to_limit _ (ready_tables mb Hrd))).
  pose proof (sections_met_bound (memory_regions mb) MAX_SECTIONS ltac:(done)).
  unfold metadata_bytes, MEMSECTION_BYTES, SECTION_COST, MAX_SECTIONS, PTR_ALIGN, PAGES_PER_SECTION, FRAME_BYTES in *.
  lia.
Qed.

Lemma required_bytes_spec mb (Q : Z → Prop) :
  mb_ready mb → Q (metadata_bytes mb) → wp (sparsemem_required_bytes mb) Q.
Proof.
  intros Hrd HQ. pose proof (metadata_bytes_bound mb Hrd) as Hb.
  pose proof (sections_for_bound _ (to_limit _ (ready_tables mb Hrd))).
  pose proof (sections_met_bound (memory_regions mb) MAX_SECTIONS ltac:(done)).
  unfold metadata_bytes, SECTION_COST, PTR_ALIGN, PAGES_PER_SECTION, FRAME_BYTES, MEMSECTION_BYTES in *.
  unfold sparsemem_required_bytes, MEMSECTION_BYTES, FRAME_BYTES, PTR_ALIGN, PAGES_PER_SECTION.
  apply wp_bind, section_count_from_max_phys_spec; [apply (to_limit _ (ready_tables mb Hrd))|].
  apply wp_bind. eapply wp_mono; [by apply count_present_sections_spec, ready_below_bitmap|].
  intros n ->. unfold u64_max in *.
  apply wp_bind, wp_add64; [unfold u64_max; lia|]. apply wp_bind, wp_mul64; [unfold u64_max; lia|].
  apply wp_bind, wp_mul64; [unfold u64_max; lia|]. apply wp_bind, wp_mul64; [unfold u64_max; lia|].
  apply wp_bind, wp_mul64; [unfold u64_max; lia|]. apply wp_bind, wp_add64; [unfold u64_max; lia|].
  apply wp_add64; [unfold u64_max; lia|].
  match goal with |- Q ?x => match type of HQ with Q ?y => replace x with y by lia; done end end.
Qed.

(** ** Choosing and reserving the metadata range *)

(** No usable region can hold [need] bytes from its first page boundary. *)
Definition no_room (mb : Memblock) (need : Z) : Prop :=
  ∀ r, r ∈ memory_regions mb → mr_end r < align_up_to (mr_base r) PAGE_SIZE + need.

Lemma find_suitable_region_spec mb need :
  mb_ready mb → 0 < need →
  wp (find_suitable_region mb need) (λ o,
    match o with
    | None => no_room mb need
    | Some (base, _) => 0 ≤ base ∧ ∀ a,
        align_up_to base PAGE_SIZE ≤ a < align_up_to base PAGE_SIZE + need →
        covers (memory_regions mb) a
    end).
Proof.
  intros Hrd Hneed. pose proof (ready_below_bitmap mb Hrd) as Hb. unfold below_bitmap, regions_in in Hb.
  rewrite Forall_forall in Hb. unfold find_suitable_region. apply wp_bind.
  apply (wp_for_each_ret _ _ _ (λ done _, ∀ r, r ∈ done → mr_end r < align_up_to (mr_base r) PAGE_SIZE + need)).
  - by intros r ?%elem_of_nil.
  - intros done r rest [] Heq Hdone.
    assert (r ∈ memory_regions mb) as Hin by (rewrite Heq; apply elem_of_app; right; by left).
    destruct (Hb r Hin) as [Hlive Hend]. destruct (live_end r Hlive) as [He Hpos].
    unfold MAX_SECTIONS, SECTION_SIZE in Hend.
    rewrite (proj2 (Z.eqb_neq _ _)) by apply Hlive. change PAGE_SIZE with (2 ^ 12).
    apply wp_bind, wp_align_up; [lia|lia|unfold u64_max; lia|].
    pose proof (align_up_to_spec (mr_base r) (2 ^ 12) ltac:(lia)) as [Hal _].
    apply wp_bind, wp_add64; [unfold u64_max; lia|].
    assert (∀ r', r' ∈ done ++ [r] → mr_end r < align_up_to (mr_base r) (2 ^ 12) + need →
      mr_end r' < align_up_to (mr_base r') (2 ^ 12) + need) as Hnext.
    { intros r' [Hr'|Hr'%list_elem_of_singleton]%elem_of_app Hlt; [by apply Hdone|by subst]. }
    destruct (Z.leb_spec (mr_base r + mr_size r) (align_up_to (mr_base r) (2 ^ 12))).
    { apply wp_ret. intros r' Hr'. apply Hnext; [done|lia]. }
    apply wp_bind, wp_sub64; [lia|]. destruct (Z.leb_spec need (mr_base r + mr_size r - align_up_to (mr_base r) (2 ^ 12))).
    + apply wp_ret. split; [lia|]. intros a Ha. exists r. split; [done|]. unfold in_region. lia.
    + apply wp_ret. intros r' Hr'. apply Hnext; [done|lia].
  - intros [] Hall. by apply wp_ret.
Qed.

Lemma covers_snoc l r a : covers (l ++ [r]) a ↔ covers l a ∨ in_region r a.
Proof.
  unfold covers. setoid_rewrite elem_of_app. setoid_rewrite list_elem_of_singleton. naive_solver.
Qed.

(** Reserving a range of usable memory removes it from the usable memory and
    keeps the tables ready, unless a table is full. *)
Lemma reserve_spec mb base size :
  mb_ready mb → 0 < size → (∀ a, base ≤ a < base + size → covers (memory_regions mb) a) →
  wp (reserve_for_sparsemem mb base size) (λ '(mb', r),
    match r with
    | Err e => e = OutOfSlots
    | Ok _ => mb_ready mb' ∧ max_phys_addr mb' = max_phys_addr mb ∧
        (∀ a, covers (memory_regions mb') a ↔
              covers (memory_regions mb) a ∧ ¬ covers (reserved_regions mb) a ∧ ¬ (base ≤ a < base + size)) ∧
        (∀ a, covers (reserved_regions mb') a ↔
              covers (reserved_regions mb) a ∨ base ≤ a < base + size)
    end).
Proof.
  intros Hrd Hsize Hin. pose proof Hrd as [Hok Hn Hraw Hb Hr Hne].
  destruct (ready_max_phys mb Hrd) as (Hmp & Hlast & Hmax). unfold MAX_SECTIONS, SECTION_SIZE in Hmp.
  assert (0 ≤ base ∧ base + size ≤ 2 ^ 39) as [Hb0 Hbs].
  { pose proof (Hmax _ (Hraw _ (Hin (base + size - 1) ltac:(lia)))).
    destruct (Hin base ltac:(lia)) as (r & Hr' & Ha). pose proof (norm_memory _ Hn) as Hl.
    rewrite Forall_forall in Hl. destruct (live_end r (Hl r Hr')). unfold in_region in Ha. lia. }
  unfold reserve_for_sparsemem. apply wp_bind.
  eapply wp_mono; [apply (add_reserved_spec mb base size MemblockType.Reserved); [done|lia|lia]|].
  intros [mb1 [[]|e]] [Hok1 H1].
  2:{ apply wp_ret. destruct H1 as [_ [[_ ?]|[[_ ?]|[[_ ?]|[-> _]]]]]; [done|lia|unfold u64_max in *; lia|done]. }
  destruct H1 as (_ & _ & Hres1 & Hmem1 & Hraw1 & _).
  eapply wp_mono; [by apply normalize_spec|]. intros [mb2 [[]|e]] (Hok2 & Hres2 & Hraw2 & H2); [|by destruct H2].
  destruct H2 as [Hn2 Hmem2]. setoid_rewrite Hmem1 in Hmem2. setoid_rewrite Hres1 in Hmem2.
  setoid_rewrite Hres1 in Hres2. setoid_rewrite covers_snoc in Hmem2. setoid_rewrite covers_snoc in Hres2.
  setoid_rewrite Hraw1 in Hraw2.
  assert (∀ a, in_region (mk_region base size MemblockType.Reserved) a ↔ base ≤ a < base + size) as Hreg.
  { intros a. unfold in_region, mr_end, sat_add64, u64_max. simpl. lia. }
  setoid_rewrite Hreg in Hmem2. setoid_rewrite Hreg in Hres2.
  assert (all_memory_regions mb2 ≠ []) as Hne2.
  { intros E. pose proof (proj2 (Hraw2 _) Hlast) as Hc. rewrite E in Hc. by destruct Hc as (? & ?%elem_of_nil & _). }
  assert (mb_ready mb2) as Hrd2.
  { split; [done|done| | | |done].
    - intros a Ha. apply Hraw2, Hraw. apply Hmem2 in Ha. apply Ha.
    - apply covers_bound; [apply Hn2|]. intros a Ha%Hraw2. exact (covers_lt _ _ _ Hb Ha).
    - apply covers_bound; [apply Hn2|]. intros a [Ha|Ha]%Hres2; [exact (covers_lt _ _ _ Hr Ha)|].
      unfold PHYS_LIMIT. lia. }
  split; [done|]. split; [|split].
  - destruct (ready_max_phys mb2 Hrd2) as (_ & Hlast2 & Hmax2).
    pose proof (Hmax2 _ (proj2 (Hraw2 _) Hlast)). pose proof (Hmax _ (proj1 (Hraw2 _) Hlast2)). lia.
  - intros a. rewrite Hmem2. tauto.
  - done.
Qed.

(** Fewer sections are met when less memory is covered. *)
Lemma sec_of_mono l l' sec :
  Forall region_live l' → (∀ a, covers l' a → covers l a) → Forall region_live l →
  sec_of l' sec → sec_of l sec.
Proof.
  intros Hl' Hsub Hl (r & Hr & Hlo & Hhi). rewrite Forall_forall in Hl, Hl'.
  destruct (live_end r (Hl' r Hr)) as [_ Hb].
  set (a := Z.max (mr_base r) (sec * SECTION_SIZE)).
  assert (a / SECTION_SIZE = sec ∧ in_region r a) as [Ha Hin].
  { pose proof (Z.mul_div_le (mr_end r - 1) SECTION_SIZE ltac:(done)).
    pose proof (Z.mul_succ_div_gt (mr_base r) SECTION_SIZE ltac:(done)).
    unfold SECTION_SIZE, in_region in *. split; [|lia].
    symmetry. apply (Z.div_unique_pos _ _ _ (a - sec * 2 ^ 27)); lia. }
  destruct (Hsub a) as (r' & Hr' & Hin'); [by exists r|]. exists r'. split; [done|].
  destruct (live_end r' (Hl r' Hr')) as [_ Hb']. unfold in_region in Hin'.
  rewrite <-Ha. split; apply Z.div_le_mono; unfold SECTION_SIZE; lia.
Qed.

(** ** The whole layer *)

Lemma covers_page l a : Forall region_live l → covers l a → page_of l (a / PAGE_SIZE).
Proof.
  intros Hl (r & Hr & Ha). exists r. split; [done|]. rewrite Forall_forall in Hl.
  destruct (live_end r (Hl r Hr)) as [_ Hb]. unfold in_region in Ha. unfold page_in, first_page, last_page.
  split; [apply Z.div_le_mono; unfold PAGE_SIZE; lia|].
  replace (mr_end r + PAGE_SIZE - 1) with (mr_end r - 1 + 1 * PAGE_SIZE) by lia.
  rewrite Z.div_add by done. apply Z.lt_succ_r, Z.div_le_mono; unfold PAGE_SIZE; lia.
Qed.

(** A page touched by a region holds one of its bytes. *)
Lemma page_covers l p : Forall region_live l → page_of l p → ∃ a, a / PAGE_SIZE = p ∧ covers l a.
Proof.
  intros Hl (r & Hr & Hin). rewrite Forall_forall in Hl. destruct (live_end r (Hl r Hr)) as [_ Hb].
  set (a := Z.max (mr_base r) (p * PAGE_SIZE)). exists a.
  unfold page_in, first_page, last_page in Hin.
  pose proof (Z.mul_div_le (mr_end r + PAGE_SIZE - 1) PAGE_SIZE ltac:(done)).
  pose proof (Z.mul_succ_div_gt (mr_base r) PAGE_SIZE ltac:(done)).
  unfold PAGE_SIZE in *. split; [symmetry; apply (Z.div_unique_pos _ _ _ (a - p * 4096)); lia|].
  exists r. split; [done|]. unfold in_region. lia.
Qed.

Lemma built_usable mb s p :
  built mb s → usable s p → page_of (memory_regions mb) p ∧ ¬ page_of (reserved_regions mb) p.
Proof.
  intros [_ _ _ Hst _ _] (f & Hf & Hu). specialize (Hst p f Hf). rewrite Hst in Hu.
  by repeat case_decide.
Qed.

(** The metadata occupies usable memory of [mb], which [mb'] reserves. *)
Record metadata_at (mb mb' : Memblock) (base : Z) : Prop := {
  md_free : ∀ a, base ≤ a < base + metadata_bytes mb → covers (memory_regions mb) a;
  md_memory : ∀ a, covers (memory_regions mb') a ↔ covers (memory_regions mb) a ∧
    ¬ covers (reserved_regions mb) a ∧ ¬ (base ≤ a < base + metadata_bytes mb);
  md_reserved : ∀ a, covers (reserved_regions mb') a ↔
    covers (reserved_regions mb) a ∨ base ≤ a < base + metadata_bytes mb
}.

Lemma init_with_reserved mb mb' base hhdm :
  mb_ready mb → mb_ready mb' → max_phys_addr mb' = max_phys_addr mb →
  metadata_at mb mb' base → 0 ≤ base → base + metadata_bytes mb ≤ 2 ^ 39 →
  0 < hhdm → hhdm + 2 ^ 40 ≤ u64_max →
  wp (bump ← bump_init (base + hhdm) (base + metadata_bytes mb + hhdm);
      '(sparse, _) ← init_from_memblock sparse_empty bump mb';
      Ret (mb', sparse)) (λ '(mb2, s), mb2 = mb' ∧ built mb' s).
Proof.
  intros Hrd Hrd' Hmp [Hfree Hmem Hres] Hb He Hh Hhm.
  pose proof (metadata_bytes_bound mb Hrd) as Hmb.
  unfold bump_init. apply wp_bind, wp_bind, wp_assert; [apply Z.ltb_lt; lia|]. apply wp_ret.
  apply wp_bind. eapply wp_mono.
  { apply init_from_memblock_spec; [by apply ready_tables|simpl; lia|simpl; lia|]. simpl.
    assert (sections_met (memory_regions mb') (sections_for (max_phys_addr mb')) ≤
            sections_met (memory_regions mb) MAX_SECTIONS) as Hle.
    { pose proof (sections_for_small mb' Hrd') as Hsm.
      pose proof (sections_for_bound _ (to_limit _ (ready_tables mb' Hrd'))).
      unfold sections_met.
      replace MAX_SECTIONS with (sections_for (max_phys_addr mb') +
        (MAX_SECTIONS - sections_for (max_phys_addr mb'))) by lia.
      rewrite seqZ_app, filter_app, length_app by lia.
      assert (length (filter (sec_of (memory_regions mb')) (seqZ 0 (sections_for (max_phys_addr mb')))) ≤
        length (filter (sec_of (memory_regions mb)) (seqZ 0 (sections_for (max_phys_addr mb')))))%nat; [|lia].
      apply length_filter_mono. intros sec _. apply sec_of_mono; [apply Hrd'| |apply Hrd].
      intros a Ha. apply Hmem in Ha. apply Ha. }
    unfold metadata_bytes, SECTION_COST, PTR_ALIGN, PAGES_PER_SECTION, FRAME_BYTES in *. rewrite Hmp in *. lia. }
  intros [s bump'] Hbt. by apply wp_ret.
Qed.

Lemma align_up_page x : align_up_to x PAGE_SIZE mod PAGE_SIZE = 0.
Proof. by apply align_up_to_spec. Qed.

(** The two ways in which placing the metadata fails: no region is large
    enough, or a region table overflows. *)
Definition expected_panic (mb : Memblock) (p : panic) : Prop :=
  p = PUnwrap ∧ (no_room mb (metadata_bytes mb) ∨
    ∃ rb rs mb', find_suitable_region mb (metadata_bytes mb) = Ret (Some (rb, rs)) ∧
      reserve_for_sparsemem mb (align_up_to rb PAGE_SIZE) (metadata_bytes mb) = Ret (mb', Err OutOfSlots)).

Lemma init_sparsemem_layer_spec hhdm mb :
  mb_ready mb → 0 < hhdm → hhdm + 2 ^ 40 ≤ u64_max →
  post (init_sparsemem_layer hhdm mb)
    (λ '(mb', s), mb_ready mb' ∧ built mb' s ∧
       ∃ base, base mod PAGE_SIZE = 0 ∧ metadata_at mb mb' base)
    (expected_panic mb).
Proof.
  intros Hrd Hh Hhm. pose proof (metadata_bytes_bound mb Hrd) as Hmb.
  destruct (ready_max_phys mb Hrd) as (Hmp & _ & Hmax). unfold MAX_SECTIONS, SECTION_SIZE in Hmp.
  unfold init_sparsemem_layer.
  apply (post_bind _ _ (λ need, need = metadata_bytes mb)); [by apply required_bytes_spec|]. intros need ->.
  destruct (wp_elim _ _ (find_suitable_region_spec mb (metadata_bytes mb) Hrd ltac:(lia))) as (o & Eo & Hfind).
  rewrite Eo. apply (post_bind _ _ (λ x, x = o)); [done|]. intros ? ->.
  destruct o as [[rb rs]|]; [|split; [done|by left]]. destruct Hfind as [Hrb Hcov].
  eapply (post_bind _ _ (λ x, x = (rb, rs))); [done|]. intros ? ->.
  pose proof (align_up_to_spec rb PAGE_SIZE ltac:(done)) as [Hal _].
  set (base := align_up_to rb PAGE_SIZE) in *.
  assert (base + metadata_bytes mb ≤ 2 ^ 39) as Hend.
  { pose proof (Hmax _ (rd_raw _ Hrd _ (Hcov (base + metadata_bytes mb - 1) ltac:(lia)))). lia. }
  apply (post_bind _ _ (λ x, x = base)).
  { change PAGE_SIZE with (2 ^ 12) in *. apply wp_align_up; [lia|lia|unfold u64_max in *; lia|done]. }
  intros ? ->. apply (post_bind _ _ (λ x, x = base + metadata_bytes mb)).
  { apply wp_add64; [unfold u64_max; lia|done]. }
  intros ? ->. pose proof (reserve_spec mb base (metadata_bytes mb) Hrd ltac:(lia) Hcov) as Hres.
  destruct (wp_elim _ _ Hres) as ([mb1 r] & E & Hr). rewrite E.
  apply (post_bind _ _ (λ x, x = (mb1, r))); [done|]. intros ? ->.
  destruct r as [[]|e]; [|subst e; split; [done|]; right; by exists rb, rs, mb1].
  destruct Hr as (Hrd1 & Hmp1 & Hm1 & Hr1).
  apply (post_bind _ _ (λ _, True)); [done|]. intros [] _.
  apply (post_bind _ _ (λ x, x = base + hhdm)); [apply wp_add64; [unfold u64_max in *; lia|done]|].
  intros ? ->. apply (post_bind _ _ (λ x, x = base + metadata_bytes mb + hhdm)).
  { apply wp_add64; [unfold u64_max in *; lia|done]. }
  intros ? ->. assert (metadata_at mb mb1 base) as Hmd by done.
  apply post_wp. eapply wp_mono; [by apply (init_with_reserved mb mb1 base hhdm); try lia|].
  intros [mb2 s] [-> Hbt]. split; [done|]. split; [done|]. exists base. split; [apply align_up_page|done].
Qed.

(** ** From the bootloader's map *)

Lemma boot_ready mmap mb :
  mmap_ok mmap →
  (∀ e, e ∈ mmap → entry_type e = EntryType.USABLE →
        entry_base e + entry_length e ≤ MAX_SECTIONS * SECTION_SIZE) →
  (∃ e, e ∈ mmap ∧ entry_type e = EntryType.USABLE) →
  initialize_memblock_from_mm mmap = Ret (Ok mb) → mb_ready mb.
Proof.
  intros Hmm Hlow (e0 & He0 & Ht0) E. pose proof (initialize_spec mmap Hmm) as Hw. rewrite E in Hw.
  destruct Hw as (Hok & Hn & Hmem & Hraw & Hres). split; [done|done| | | |].
  - intros a Ha. apply Hraw. by apply Hmem in Ha as [Ha _].
  - apply covers_bound; [apply Hn|]. intros a (e & He & Ht & Hin)%Hraw.
    specialize (Hlow e He Ht). unfold in_entry in Hin. lia.
  - apply covers_bound; [apply Hn|]. intros a (e & He & Ht & Hin)%Hres. by eapply mmap_addr_bound.
  - intros Hnil. assert (covers (all_memory_regions mb) (entry_base e0)) as Hc.
    { apply Hraw. exists e0. split; [done|]. split; [done|]. destruct Hmm as [Hall _ _].
      rewrite Forall_forall in Hall. specialize (Hall e0 He0). unfold in_entry. lia. }
    rewrite Hnil in Hc. by destruct Hc as (? & ?%elem_of_nil & _).
Qed.

(** C19: placing the frame metadata never runs out of the space it asked for.  On
    normalised tables below 512 GiB, [init_sparsemem_layer] either stops
    because no region can hold the metadata or the region table is full, or it
    builds a frame table that describes the memory tables, with the metadata
    itself reserved: the frame of any metadata byte is not usable. *)
Theorem sparsemem_layer_correct hhdm mb :
  mb_ready mb → 0 < hhdm → hhdm + 2 ^ 40 ≤ u64_max →
  post (init_sparsemem_layer hhdm mb)
    (λ '(mb', s), built mb' s ∧ ∃ base, metadata_at mb mb' base ∧
       ∀ a, base ≤ a < base + metadata_bytes mb → ¬ usable s (a / PAGE_SIZE))
    (expected_panic mb).
Proof.
  intros Hrd Hh Hhm. pose proof (init_sparsemem_layer_spec hhdm mb Hrd Hh Hhm) as Hp.
  destruct (init_sparsemem_layer hhdm mb) as [[mb' s]|p|]; [|done|done].
  destruct Hp as (Hrd' & Hbt & base & _ & Hmd). split; [done|]. exists base. split; [done|].
  intros a Ha Hu. apply (built_usable mb' s _ Hbt Hu).
  apply covers_page; [apply Hrd'|]. apply Hmd. by right.
Qed.

Lemma sample_initialized : ∃ mb, initialize_memblock_from_mm sample_mmap = Ret (Ok mb).
Proof. eexists. vm_compute. reflexivity. Qed.

Lemma sample_low e :
  e ∈ sample_mmap → entry_type e = EntryType.USABLE →
  entry_base e + entry_length e ≤ MAX_SECTIONS * SECTION_SIZE.
Proof.
  unfold sample_mmap. rewrite !elem_of_cons, elem_of_nil.
  intros Hin _. destruct_or! Hin; try done; subst e; vm_compute; done.
Qed.

Lemma sample_usable : ∃ e, e ∈ sample_mmap ∧ entry_type e = EntryType.USABLE.
Proof. eexists. split; [by left|done]. Qed.

Lemma sparsemem_layer_correct_witness :
  ∃ mb, mb_ready mb ∧
  post (init_sparsemem_layer 0xFFFF800000000000 mb)
    (λ '(mb', s), built mb' s ∧ ∃ base, metadata_at mb mb' base ∧
       ∀ a, base ≤ a < base + metadata_bytes mb → ¬ usable s (a / PAGE_SIZE))
    (expected_panic mb).
Proof.
  destruct sample_initialized as [mb E].
  pose proof (boot_ready _ _ sample_mmap_ok sample_low sample_usable E) as Hrd.
  exists mb. split; [exact Hrd|].
  apply (sparsemem_layer_correct 0xFFFF800000000000 mb Hrd); unfold u64_max; lia.
Defined.

(** C17: the frames the kernel may allocate are sound with respect to the
    bootloader's map: a usable frame touches a usable entry of the map, and no
    byte of it belongs to any other kind of entry. *)
Theorem boot_usable_frames_sound mmap mb hhdm :
  mmap_ok mmap →
  (∀ e, e ∈ mmap → entry_type e = EntryType.USABLE →
        entry_base e + entry_length e ≤ MAX_SECTIONS * SECTION_SIZE) →
  (∃ e, e ∈ mmap ∧ entry_type e = EntryType.USABLE) →
  initialize_memblock_from_mm mmap = Ret (Ok mb) →
  0 < hhdm → hhdm + 2 ^ 40 ≤ u64_max →
  post (init_sparsemem_layer hhdm mb)
    (λ '(_, s), ∀ p, usable s p →
       (∃ e a, e ∈ mmap ∧ entry_type e = EntryType.USABLE ∧ in_entry e a ∧ a / PAGE_SIZE = p) ∧
       (∀ e a, e ∈ mmap → entry_type e ≠ EntryType.USABLE → a / PAGE_SIZE = p → ¬ in_entry e a))
    (expected_panic mb).
Proof.
  intros Hmm Hlow Hex E Hh Hhm. pose proof (boot_ready _ _ Hmm Hlow Hex E) as Hrd.
  pose proof (initialize_spec mmap Hmm) as Hw. rewrite E in Hw. destruct Hw as (_ & _ & Hmem & _ & Hres).
  pose proof (init_sparsemem_layer_spec hhdm mb Hrd Hh Hhm) as Hp.
  destruct (init_sparsemem_layer hhdm mb) as [[mb' s]|p|]; [|done|done].
  destruct Hp as (Hrd' & Hbt & base & _ & [_ Hm' Hr']). intros p Hu.
  destruct (built_usable mb' s p Hbt Hu) as [Hpm Hpr]. split.
  - apply page_covers in Hpm as (a & Hap & Hc); [|apply (norm_memory _ (rd_norm _ Hrd'))].
    apply Hm' in Hc as [Hc _]. apply Hmem in Hc as [(e & He & Ht & Hea) _]. by exists e, a.
  - intros e a He Ht Ha Hea. apply Hpr. rewrite <-Ha. apply covers_page; [apply Hrd'|].
    apply Hr'. left. apply Hres. eauto.
Qed.

Lemma boot_usable_frames_sound_witness :
  ∃ mb, initialize_memblock_from_mm sample_mmap = Ret (Ok mb) ∧
  post (init_sparsemem_layer 0xFFFF800000000000 mb)
    (λ '(_, s), ∀ p, usable s p →
       ∀ e a, e ∈ sample_mmap → entry_type e ≠ EntryType.USABLE → a / PAGE_SIZE = p → ¬ in_entry e a)
    (expected_panic mb).
Proof.
  destruct sample_initialized as [mb E]. exists mb. split; [exact E|].
  pose proof (boot_usable_frames_sound sample_mmap mb 0xFFFF800000000000 sample_mmap_ok sample_low
    sample_usable E ltac:(lia) ltac:(unfold u64_max; lia)) as H.
  destruct (init_sparsemem_layer 0xFFFF800000000000 mb) as [[mb' s]|p|]; [|exact H|exact H].
  intros p Hu. apply (H p Hu).
Defined.
