(* ===== verification/PfnIter.v ===== *)
(** * Iterating over runs of usable frames

    Models kernel/src/arch/amd64/memory/pmm/pfn_iterator.rs.  The iterator
    walks the present sections in order and yields the maximal runs of usable
    frames, which may extend over section boundaries. *)
From Stdlib Require Import Sorting.Sorted.
From S2P Require Import Prelude Misc Memblock Frame Bump Sparsemem SparsememSpec.

Record PfnRun := mk_run {
  run_start : Z;
  run_len : Z
}.

Definition run_end (r : PfnRun) : outcome Z := add64 (run_start r) (run_len r).

Record RunIter := mk_iter {
  it_sec : Z;
  it_idx : Z;
  it_start : option Z;
  it_len : Z
}.

Definition iter_new : RunIter := mk_iter 0 0 None 0.

(** [close_run]: take the run that is open, if any. *)
Definition close_run (it : RunIter) : RunIter * option PfnRun :=
  match it_start it with
  | None => (it, None)
  | Some start => (mk_iter (it_sec it) (it_idx it) None 0, Some (mk_run start (it_len it)))
  end.

(** The inner loop over the frames of a present section. *)
Definition scan_step (x : Memsection) (base_pfn : Z) (it : RunIter)
    : outcome (RunIter + (RunIter * option PfnRun)) :=
  if it_idx it <? PAGES_PER_SECTION then
    let frame := section_frame x (it_idx it) in
    pfn ← add64 base_pfn (it_idx it);
    idx ← add64 (it_idx it) 1;
    let it := mk_iter (it_sec it) idx (it_start it) (it_len it) in
    if bool_decide (f_state frame = FrameState.Usable) then
      match it_start it with
      | None => Ret (inl (mk_iter (it_sec it) idx (Some pfn) 1))
      | Some _ =>
          len ← add64 (it_len it) 1;
          Ret (inl (mk_iter (it_sec it) idx (it_start it) len))
      end
    else
      let '(it, r) := close_run it in
      match r with
      | Some run => Ret (inr (it, Some run))
      | None => Ret (inl it)
      end
  else Ret (inr (it, None)).

Definition scan_section (x : Memsection) (base_pfn : Z) (it : RunIter)
    : outcome (RunIter * option PfnRun) :=
  iter (S (Z.to_nat (PAGES_PER_SECTION - it_idx it))) (scan_step x base_pfn) it.

(** The outer loop of [next]. *)
Definition next_step (s : SparseMem) (it : RunIter)
    : outcome (RunIter + (RunIter * option PfnRun)) :=
  if it_sec it <=? max_present_sec s then
    x ← get_section s (it_sec it);
    if negb (ms_present x) then
      let '(it, r) := close_run (mk_iter (it_sec it + 1) 0 (it_start it) (it_len it)) in
      match r with
      | Some run => Ret (inr (it, Some run))
      | None => Ret (inl it)
      end
    else
      let base_pfn := section_base_pfn (it_sec it) in
      '(it, r) ← scan_section x base_pfn it;
      match r with
      | Some run => Ret (inr (it, Some run))
      | None => Ret (inl (mk_iter (it_sec it + 1) 0 (it_start it) (it_len it)))
      end
  else Ret (inr (close_run it)).

Definition iter_next (s : SparseMem) (it : RunIter) : outcome (RunIter * option PfnRun) :=
  if section_count s =? 0 then Ret (close_run it)
  else iter (S (Z.to_nat (max_present_sec s + 1 - it_sec it))) (next_step s) it.

Definition size_hint (s : SparseMem) (it : RunIter) : Z * option Z :=
  if section_count s =? 0 then (0, Some 0)
  else
    let remaining := sat_add64 (sat_sub64 (max_present_sec s) (it_sec it)) 1 in
    (0, Some remaining).

(** ** Specification *)

(** The part of the table's shape the iterator relies on. *)
Record iterable (s : SparseMem) : Prop := {
  itb_count : 0 < section_count s ≤ 2 ^ 25;
  itb_max : 0 ≤ max_present_sec s < section_count s;
  itb_all : ∀ sec, sec_present s sec → sec ≤ max_present_sec s
}.

Definition limit (s : SparseMem) : Z := (max_present_sec s + 1) * PAGES_PER_SECTION.

Definition position (it : RunIter) : Z := it_sec it * PAGES_PER_SECTION + it_idx it.

Definition no_usable (s : SparseMem) (lo hi : Z) : Prop := ∀ q, lo ≤ q < hi → ¬ usable s q.
Definition all_usable (s : SparseMem) (lo hi : Z) : Prop := ∀ q, lo ≤ q < hi → usable s q.

(** Frames below [lo] have been reported; the open run, if any, is maximal to
    the left and reaches the current position. *)
Record it_inv (s : SparseMem) (lo : Z) (it : RunIter) : Prop := {
  ii_pos : 0 ≤ it_idx it ≤ PAGES_PER_SECTION ∧ 0 ≤ it_sec it ≤ max_present_sec s + 1;
  ii_lo : 0 ≤ lo ≤ position it;
  ii_idx : it_idx it = 0 ∨ sec_present s (it_sec it);
  ii_run : match it_start it with
           | None => no_usable s lo (position it)
           | Some st => lo ≤ st ∧ no_usable s lo st ∧ all_usable s st (position it) ∧
               st < position it ∧ it_len it = position it - st
           end
}.

(** A run handed out starting from [lo]. *)
Record run_ok (s : SparseMem) (lo : Z) (r : PfnRun) : Prop := {
  ro_len : 0 < run_len r;
  ro_lo : lo ≤ run_start r;
  ro_gap : no_usable s lo (run_start r);
  ro_all : all_usable s (run_start r) (run_start r + run_len r);
  ro_max : ¬ usable s (run_start r + run_len r);
  ro_hi : run_start r + run_len r ≤ limit s
}.

(** What [next] promises. *)
Definition next_post (s : SparseMem) (lo : Z) (x : RunIter * option PfnRun) : Prop :=
  let '(it, r) := x in
  match r with
  | Some run => run_ok s lo run ∧ it_inv s (run_start run + run_len run) it
  | None => ∀ q, lo ≤ q → ¬ usable s q
  end.

Section spec.
Context (s : SparseMem) (Hs : iterable s).

Lemma usable_section p :
  usable s p → 0 ≤ p ∧ p < limit s ∧ sec_present s (pfn_to_section p).
Proof.
  intros (f & Hf & _). apply pfn_to_frame_inv in Hf as (Hp & x & Hx & Hpr & _).
  assert (sec_present s (pfn_to_section p)) as Hsp.
  { split; [by apply pfn_to_section_nonneg|eauto]. }
  split; [done|]. split; [|done]. pose proof (itb_all _ Hs _ Hsp). unfold limit.
  destruct (proj1 (pfn_to_section_spec p _) eq_refl) as [_ Hlt].
  unfold PAGES_PER_SECTION in *. lia.
Qed.

Lemma usable_frame sec x i :
  sm_sections s !! Z.to_nat sec = Some x → ms_present x = true → 0 ≤ sec →
  0 ≤ i < PAGES_PER_SECTION →
  usable s (sec * PAGES_PER_SECTION + i) ↔ f_state (section_frame x i) = FrameState.Usable.
Proof.
  intros Hx Hpr Hsec Hi. set (p := sec * PAGES_PER_SECTION + i).
  assert (pfn_to_section p = sec) as Es.
  { apply pfn_to_section_spec. unfold p, PAGES_PER_SECTION in *. lia. }
  assert (pfn_to_offset p = i) as Eo.
  { pose proof (pfn_split p) as [E _]. rewrite Es in E. unfold p in *. lia. }
  assert (0 ≤ p) as Hp by (unfold p, PAGES_PER_SECTION in *; lia).
  pose proof (pfn_to_frame_some s p x Hp) as Hf. rewrite Es, Eo in Hf. specialize (Hf Hx Hpr).
  unfold usable. simpl. rewrite Hf. naive_solver.
Qed.

Lemma position_valid lo it : it_inv s lo it → position it ≤ limit s ∧ limit s ≤ 2 ^ 40.
Proof.
  intros [Hpos _ Hend _]. destruct (itb_count _ Hs), (itb_max _ Hs). unfold position, limit, PAGES_PER_SECTION in *.
  destruct Hend as [E|Hsp%(itb_all _ Hs)]; [rewrite E|]; lia.
Qed.

(** Closing the run at a frame that is not usable. *)
Lemma close_run_spec lo it it' :
  it_inv s lo it → ¬ usable s (position it) →
  it_start it' = it_start it → it_len it' = it_len it →
  (0 ≤ it_idx it' ≤ PAGES_PER_SECTION ∧ 0 ≤ it_sec it' ≤ max_present_sec s + 1) →
  (it_idx it' = 0 ∨ sec_present s (it_sec it')) →
  position it ≤ position it' → no_usable s (position it) (position it') →
  match close_run it' with
  | (it2, Some run) => next_post s lo (it2, Some run)
  | (it2, None) => it2 = it' ∧ it_inv s lo it'
  end.
Proof.
  intros Hinv Hnu Es El Hpos Hend Hle Hgap. pose proof (position_valid lo it Hinv) as [Hlim _].
  destruct Hinv as [_ Hlo _ Hrun]. unfold close_run. rewrite Es, El. destruct (it_start it) as [st|].
  - destruct Hrun as (Hst & Hno & Hall & Hlt & ->). simpl. split.
    + split; simpl; try done; replace (st + (position it - st)) with (position it) by lia; try done. lia.
    + simpl. replace (st + (position it - st)) with (position it) by lia.
      split; [done|unfold position in *; simpl; lia|done|]. unfold position in *. simpl. done.
  - split; [done|]. split; [done|lia|done|]. rewrite Es. intros q Hq.
    destruct (Z_lt_le_dec q (position it)); [apply Hrun|apply Hgap]; lia.
Qed.

Lemma scan_step_spec lo sec x it :
  sm_sections s !! Z.to_nat sec = Some x → ms_present x = true → 0 ≤ sec ≤ max_present_sec s →
  it_inv s lo it → it_sec it = sec →
  wp (scan_step x (sec * PAGES_PER_SECTION) it) (λ r,
    match r with
    | inl it' => (it_inv s lo it' ∧ it_sec it' = sec) ∧ it_idx it' = it_idx it + 1 ∧
        it_idx it < PAGES_PER_SECTION
    | inr (it', Some run) => next_post s lo (it', Some run)
    | inr (it', None) => it' = it ∧ it_idx it = PAGES_PER_SECTION
    end).
Proof.
  intros Hx Hpr Hsec Hinv Es. pose proof (position_valid lo it Hinv) as [Hpl Hlim].
  assert (sec_present s sec) as Hsp by (split; [lia|eauto]).
  pose proof Hinv as [[Hidx Hsc] Hlo Hend Hrun]. unfold scan_step.
  destruct (Z.ltb_spec (it_idx it) PAGES_PER_SECTION) as [Hlt|Hge].
  2:{ apply wp_ret. split; [done|lia]. }
  assert (sec * PAGES_PER_SECTION + it_idx it = position it) as Ep by (unfold position; by rewrite Es).
  apply wp_bind, wp_add64; [unfold u64_max; lia|].
  apply wp_bind, wp_add64; [unfold u64_max, PAGES_PER_SECTION in *; lia|].
  pose proof (usable_frame sec x (it_idx it) Hx Hpr ltac:(lia) ltac:(lia)) as Hu. rewrite Ep in Hu.
  rewrite Ep. simpl. rewrite Es.
  assert (∀ st len, position (mk_iter sec (it_idx it + 1) st len) = position it + 1) as Hpos1.
  { intros. unfold position in *. simpl. lia. }
  destruct (bool_decide_reflect (f_state (section_frame x (it_idx it)) = FrameState.Usable)) as [Hus|Hus].
  - apply Hu in Hus. destruct (it_start it) as [st|] eqn:Est.
    + destruct Hrun as (Hst & Hno & Hall & Hst' & Hlen).
      apply wp_bind, wp_add64; [unfold u64_max; lia|]. apply wp_ret. split; [|simpl; lia]. split; [|done].
      split; rewrite ?Hpos1; simpl; [lia|lia|by right|]. split; [done|]. split; [done|]. split; [|lia].
      intros q Hq. destruct (decide (q = position it)) as [->|]; [done|]. apply Hall. lia.
    + apply wp_ret. split; [|simpl; lia]. split; [|done]. split; rewrite ?Hpos1; simpl; [lia|lia|by right|].
      split; [lia|]. split; [done|]. split; [|lia].
      intros q Hq. by assert (q = position it) as -> by lia.
  - rewrite <-Hu in Hus. set (it1 := mk_iter sec (it_idx it + 1) (it_start it) (it_len it)).
    assert (position it1 = position it + 1) as E1 by apply Hpos1.
    assert (no_usable s (position it) (position it1)) as Hgap.
    { intros q Hq. by assert (q = position it) as -> by lia. }
    pose proof (close_run_spec lo it it1 Hinv Hus eq_refl eq_refl ltac:(simpl; lia)
      ltac:(by right) ltac:(lia) Hgap) as Hc.
    destruct (close_run it1) as [it2 [run|]]; [by apply wp_ret|]. destruct Hc as [-> Hinv'].
    apply wp_ret. simpl. split; [done|]. lia.
Qed.

Lemma scan_section_spec lo x it :
  sm_sections s !! Z.to_nat (it_sec it) = Some x → ms_present x = true →
  it_sec it ≤ max_present_sec s → it_inv s lo it →
  wp (scan_section x (it_sec it * PAGES_PER_SECTION) it) (λ '(it', r),
    match r with
    | Some run => next_post s lo (it', Some run)
    | None => it_sec it' = it_sec it ∧
        it_inv s lo (mk_iter (it_sec it + 1) 0 (it_start it') (it_len it'))
    end).
Proof.
  intros Hx Hpr Hsec Hinv. unfold scan_section.
  apply (wp_iter _ _ _ (λ it', it_inv s lo it' ∧ it_sec it' = it_sec it)
    (λ it', Z.to_nat (PAGES_PER_SECTION - it_idx it'))).
  - done.
  - lia.
  - intros it1 [Hinv1 Es]. destruct Hinv as [[_ Hsc] _ _ _].
    eapply wp_mono; [apply (scan_step_spec lo (it_sec it) x it1); [done..|lia|done|done]|].
    intros [it2|[it2 [run|]]].
    + intros (? & ? & ?). split; [done|lia].
    + done.
    + intros [-> Hidx]. split; [done|]. destruct Hinv1 as [_ Hlo Hend Hrun].
      assert (position it1 = position (mk_iter (it_sec it + 1) 0 (it_start it1) (it_len it1))) as Ep.
      { unfold position. simpl. lia. }
      rewrite Ep in *. split; simpl; [unfold PAGES_PER_SECTION in *; lia|done|by left|done].
Qed.

Lemma iter_next_spec lo it :
  it_inv s lo it → wp (iter_next s it) (next_post s lo).
Proof.
  intros Hinv. unfold iter_next. destruct Hs as [Hc Hm Hall].
  rewrite (proj2 (Z.eqb_neq _ _)) by lia.
  apply (wp_iter _ _ _ (it_inv s lo) (λ it', Z.to_nat (max_present_sec s + 1 - it_sec it'))).
  - done.
  - lia.
  - clear it Hinv. intros it Hinv. pose proof Hinv as [[Hidx Hsc] Hlo Hend Hrun]. unfold next_step.
    destruct (Z.leb_spec (it_sec it) (max_present_sec s)) as [Hle|Hgt].
    + destruct (lookup_lt_is_Some_2 (sm_sections s) (Z.to_nat (it_sec it))) as [x Hx].
      { unfold section_count in *. lia. }
      apply wp_bind. eapply wp_arr_get; [done|]. destruct (ms_present x) eqn:Hpr; simpl negb; cbv iota.
      * rewrite section_base_pfn_mul by lia. apply wp_bind.
        eapply wp_mono; [by apply (scan_section_spec lo x it)|].
        intros [it1 [run|]] H1; apply wp_ret; [done|]. destruct H1 as [E H1]. rewrite E.
        split; [done|]. simpl. lia.
      * assert (∀ q, it_sec it * PAGES_PER_SECTION ≤ q < (it_sec it + 1) * PAGES_PER_SECTION → ¬ usable s q) as Hnu.
        { intros q Hq Hu. apply usable_section in Hu as (_ & _ & (_ & y & Hy & Hy')).
          rewrite (proj2 (pfn_to_section_spec q (it_sec it)) Hq) in Hy. congruence. }
        assert (it_idx it = 0) as Ei by (destruct Hend as [?|(_ & y & Hy & Hy')]; [done|congruence]).
        assert (position it = it_sec it * PAGES_PER_SECTION) as Ep by (unfold position; lia).
        set (it1 := mk_iter (it_sec it + 1) 0 (it_start it) (it_len it)).
        assert (position it1 = (it_sec it + 1) * PAGES_PER_SECTION) as E1 by (unfold position; simpl; lia).
        assert (no_usable s (position it) (position it1)) as Hgap.
        { intros q Hq. apply Hnu. lia. }
        assert (¬ usable s (position it)) as Hnp.
        { apply Hnu. unfold PAGES_PER_SECTION in *. lia. }
        pose proof (close_run_spec lo it it1 Hinv Hnp eq_refl eq_refl
          ltac:(simpl; unfold PAGES_PER_SECTION; lia) ltac:(by left)
          ltac:(rewrite E1, Ep; unfold PAGES_PER_SECTION; lia) Hgap) as Hcl.
        destruct (close_run it1) as [it2 [run|]]; [by apply wp_ret|]. destruct Hcl as [-> Hinv'].
        apply wp_ret. split; [done|]. simpl. lia.
    + assert (it_sec it = max_present_sec s + 1) as Es by lia.
      assert (it_idx it = 0) as Ei by (destruct Hend as [?|?%Hall]; [done|lia]).
      assert (position it = limit s) as Ep by (unfold position, limit; lia).
      assert (∀ q, limit s ≤ q → ¬ usable s q) as Hnu.
      { intros q Hq Hu. apply usable_section in Hu. lia. }
      assert (no_usable s (position it) (position it)) as Hgap by (intros q Hq; lia).
      pose proof (close_run_spec lo it it Hinv ltac:(rewrite Ep; by apply Hnu) eq_refl eq_refl
        ltac:(lia) ltac:(by left) ltac:(lia) Hgap) as Hcl.
      apply wp_ret. destruct (close_run it) as [it2 [run|]] eqn:Ecl; [done|].
      destruct Hcl as [-> Hinv']. intros q Hq Hu. destruct Hinv' as [_ _ _ Hrun'].
      destruct (Z_lt_le_dec q (limit s)); [|by apply (Hnu q)].
      destruct (it_start it) as [st|] eqn:Est; [|apply (Hrun' q); [lia|done]].
      unfold close_run in Ecl. by rewrite Est in Ecl.
Qed.
End spec.

(** ** The runs of a table *)

(** Driving the iterator to the end, as a [for] loop over it does. *)
Definition runs_step (s : SparseMem) (st : RunIter * list PfnRun)
    : outcome ((RunIter * list PfnRun) + list PfnRun) :=
  let '(it, acc) := st in
  '(it, r) ← iter_next s it;
  match r with
  | None => Ret (inr acc)
  | Some run => Ret (inl (it, acc ++ [run]))
  end.

Definition all_runs (s : SparseMem) : outcome (list PfnRun) :=
  iter (S (Z.to_nat (section_count s * PAGES_PER_SECTION))) (runs_step s) (iter_new, []).

Fixpoint runs_from (s : SparseMem) (lo : Z) (l : list PfnRun) : Prop :=
  match l with
  | [] => ∀ q, lo ≤ q → ¬ usable s q
  | r :: l => run_ok s lo r ∧ runs_from s (run_start r + run_len r) l
  end.

Definition last_end (l : list PfnRun) : Z :=
  match last l with None => 0 | Some r => run_start r + run_len r end.

Lemma iter_new_inv s : iterable s → it_inv s 0 iter_new.
Proof.
  intros [Hc Hm _]. split; simpl; [unfold PAGES_PER_SECTION; lia|done|by left|].
  intros q Hq. unfold position in Hq. simpl in Hq. lia.
Qed.

Lemma all_runs_spec s : iterable s → wp (all_runs s) (runs_from s 0).
Proof.
  intros Hs. unfold all_runs.
  apply (wp_iter _ _ _ (λ '(it, acc), it_inv s (last_end acc) it ∧
      ∀ l, runs_from s (last_end acc) l → runs_from s 0 (acc ++ l))
    (λ '(_, acc), Z.to_nat (limit s - last_end acc))).
  - split; [by apply iter_new_inv|done].
  - unfold last_end, limit. simpl. pose proof (itb_max _ Hs). unfold PAGES_PER_SECTION. lia.
  - intros [it acc] [Hinv Hacc]. unfold runs_step. apply wp_bind.
    eapply wp_mono; [by apply (iter_next_spec s Hs (last_end acc))|].
    intros [it' [run|]] Hpost; apply wp_ret.
    + destruct Hpost as [Hrun Hinv'].
      assert (last_end (acc ++ [run]) = run_start run + run_len run) as E.
      { unfold last_end. by rewrite last_snoc. }
      rewrite E. split; [|destruct Hrun; lia]. split; [done|].
      intros l Hl. rewrite <-app_assoc. apply Hacc. done.
    + rewrite <-(app_nil_r acc). by apply Hacc.
Qed.

Definition in_pfn_run (r : PfnRun) (q : Z) : Prop := run_start r ≤ q < run_start r + run_len r.

Lemma runs_from_lo s lo l r : runs_from s lo l → r ∈ l → lo ≤ run_start r ∧ 0 < run_len r.
Proof.
  revert lo. induction l as [|r0 l IH]; intros lo Hl Hr; [by apply elem_of_nil in Hr|].
  destruct Hl as [[] Hl]. apply elem_of_cons in Hr as [->|Hr]; [done|].
  destruct (IH _ Hl Hr). lia.
Qed.

Lemma runs_from_usable s lo l q :
  runs_from s lo l → lo ≤ q → usable s q ↔ ∃ r, r ∈ l ∧ in_pfn_run r q.
Proof.
  revert lo. induction l as [|r l IH]; intros lo Hl Hq; simpl in Hl.
  { split; [intros Hu; by destruct (Hl q Hq)|]. by intros (r & ?%elem_of_nil & _). }
  destruct Hl as [[Hlen Hlo Hgap Hall Hmax _] Hl].
  destruct (Z_lt_le_dec q (run_start r + run_len r)) as [Hlt|Hge].
  - split.
    + intros Hu. exists r. split; [by left|]. unfold in_pfn_run.
      destruct (Z_lt_le_dec q (run_start r)); [|lia]. by destruct (Hgap q); [lia|].
    + intros (r' & Hr' & Hin). apply Hall. apply elem_of_cons in Hr' as [->|Hr']; [done|].
      destruct (runs_from_lo _ _ _ _ Hl Hr'). unfold in_pfn_run in Hin. lia.
  - rewrite (IH _ Hl Hge). split.
    + intros (r' & Hr' & Hin). exists r'. split; [by right|done].
    + intros (r' & [->|Hr']%elem_of_cons & Hin); [unfold in_pfn_run in Hin; lia|eauto].
Qed.

(** Runs are separated by at least one frame that is not usable. *)
Definition run_before (r1 r2 : PfnRun) : Prop := run_start r1 + run_len r1 < run_start r2.

Lemma runs_from_sorted s lo l : runs_from s lo l → StronglySorted run_before l.
Proof.
  revert lo. induction l as [|r l IH]; intros lo Hl; [constructor|].
  destruct Hl as [Hr Hl]. constructor; [by eapply IH|]. apply Forall_forall. intros r' Hr'.
  destruct (runs_from_lo _ _ _ _ Hl Hr') as [Hlo Hpos]. unfold run_before.
  destruct (decide (run_start r' = run_start r + run_len r)) as [E|]; [|lia].
  destruct (ro_max _ _ _ Hr). rewrite <-E.
  apply (runs_from_usable s (run_start r + run_len r) l); [done|lia|].
  exists r'. split; [done|]. unfold in_pfn_run. lia.
Qed.

(** The iterator terminates and its runs are exactly the maximal runs of
    usable frames, in increasing order: a frame is usable if and only if it
    lies in a run, and consecutive runs are separated. *)
Theorem usable_runs_exact s :
  iterable s →
  wp (all_runs s) (λ l,
    (∀ q, usable s q ↔ ∃ r, r ∈ l ∧ in_pfn_run r q) ∧ StronglySorted run_before l).
Proof.
  intros Hs. eapply wp_mono; [by apply all_runs_spec|]. intros l Hl.
  split; [|by eapply runs_from_sorted]. intros q.
  destruct (Z_lt_le_dec q 0) as [Hneg|Hpos]; [|by apply (runs_from_usable s 0)].
  split.
  - intros Hu. apply usable_section in Hu; [lia|done].
  - intros (r & Hr & Hin). destruct (runs_from_lo _ _ _ _ Hl Hr). unfold in_pfn_run in Hin. lia.
Qed.

(** One section in which frames 0 and 2 are usable and nothing else. *)
Definition two_runs : SparseMem :=
  mk_sparse 4096
    [mk_section (<[0:=set_state FrameState.Usable frame_absent]>
                (<[2:=set_state FrameState.Usable frame_absent]> ∅)) true] 0 3.

Lemma two_runs_iterable : iterable two_runs.
Proof.
  split; [by vm_compute|by vm_compute|].
  intros sec Hsec%sec_present_lt. unfold two_runs, section_count in *. simpl in *. lia.
Qed.

Lemma usable_runs_exact_witness :
  iterable two_runs ∧
  wp (all_runs two_runs) (λ l,
    (∀ q, usable two_runs q ↔ ∃ r, r ∈ l ∧ in_pfn_run r q) ∧ StronglySorted run_before l).
Proof. split; [apply two_runs_iterable | apply usable_runs_exact, two_runs_iterable]. Defined.

(** [size_hint] counts the sections that remain, not the runs: a single section
    can yield more runs than the upper bound it reports. *)
Theorem size_hint_upper_bound_wrong :
  size_hint two_runs iter_new = (0, Some 1) ∧
  wp (all_runs two_runs) (λ l, (2 ≤ length l)%nat).
Proof.
  split; [reflexivity|].
  eapply wp_mono; [apply all_runs_spec, two_runs_iterable|]. intros l Hl.
  assert (∀ q, 0 ≤ q → usable two_runs q ↔ ∃ r, r ∈ l ∧ in_pfn_run r q) as Hu.
  { intros q Hq. by apply (runs_from_usable two_runs 0). }
  assert (usable two_runs 0) as H0 by (eexists; split; [vm_compute; reflexivity|done]).
  assert (usable two_runs 2) as H2 by (eexists; split; [vm_compute; reflexivity|done]).
  assert (¬ usable two_runs 1) as H1.
  { intros (f & Hf & Hs). vm_compute in Hf. injection Hf as <-. done. }
  apply Hu in H0 as (r0 & Hr0 & Hin0); [|lia]. apply Hu in H2 as (r2 & Hr2 & Hin2); [|lia].
  rewrite Hu in H1 by lia. unfold in_pfn_run in *.
  destruct l as [|a [|b l]]; [by apply elem_of_nil in Hr0| |simpl; lia].
  apply list_elem_of_singleton in Hr0, Hr2. subst. destruct H1. exists a. split; [by left|lia].
Qed.
