(* ===== verification/Zones.v ===== *)
(** * Memory zones and the page allocator: operations

    Models kernel/src/arch/amd64/memory/pmm/zones_manager.rs and
    pages_allocator.rs.  A zone is a range of frames with a buddy allocator;
    the manager keeps one zone per [ZoneId] and dispatches on the zone recorded
    in a frame.  The frame table ([get_sparse_memory()]) is threaded through
    the operations; the manager's mutex makes each of them atomic. *)
From S2P Require Import Prelude Misc Memblock Frame Bump Sparsemem SparsememSpec PfnIter Buddy.

Definition DMA_LIMIT_PFN : Z := 4096.
Definition MAX_ZONES : nat := 3.

Record Zone := mk_zone {
  z_id : ZoneId.t;
  z_base : Z;
  z_count : Z;
  z_alloc : Buddy
}.

Definition contains_pfn (z : Zone) (pfn : Z) : outcome bool :=
  if z_base z <=? pfn then
    e ← add64 (z_base z) (z_count z);
    Ret (pfn <? e)
  else Ret false.

Definition with_alloc (z : Zone) (b : Buddy) : Zone := mk_zone (z_id z) (z_base z) (z_count z) b.

Definition zone_alloc (z : Zone) (sm : SparseMem) (order : nat)
    : outcome (option Z * Zone * SparseMem) :=
  '(r, b, sm) ← alloc (z_alloc z) sm order;
  Ret (r, with_alloc z b, sm).

Definition zone_free (z : Zone) (sm : SparseMem) (pfn : Z) : outcome (Zone * SparseMem) :=
  c ← contains_pfn z pfn;
  _ ← assert c;
  '(b, sm) ← free_block (z_alloc z) sm pfn;
  Ret (with_alloc z b, sm).

Definition zone_free_pages (z : Zone) : Z := free_pages (z_alloc z).

Definition usable_pages (z : Zone) (sm : SparseMem) : outcome Z :=
  zone_end ← add64 (z_base z) (z_count z);
  runs ← all_runs sm;
  for_each (λ run acc,
    let s := Z.max (run_start run) (z_base z) in
    e ← run_end run;
    let e := Z.min e zone_end in
    n ← (if s <? e then sub64 e s else Ret 0);
    add64 acc n) runs 0.

(** The manager: one slot per [ZoneId]. *)
Notation ZonesManager := (list (option Zone)).

Definition manager_new : ZonesManager := replicate MAX_ZONES None.

Definition set_zone (mgr : ZonesManager) (z : Zone) : outcome ZonesManager :=
  let idx := ZoneId.idx (z_id z) in
  _ ← assert (idx <? MAX_ZONES)%nat;
  old ← arr_get mgr idx;
  _ ← assert (bool_decide (old = None));
  arr_set mgr idx (Some z).

Definition zone_of (mgr : ZonesManager) (id : ZoneId.t) : outcome (option Zone) :=
  arr_get mgr (ZoneId.idx id).

Definition mgr_alloc_pages (mgr : ZonesManager) (sm : SparseMem) (id : ZoneId.t) (order : nat)
    : outcome (option Z * ZonesManager * SparseMem) :=
  oz ← zone_of mgr id;
  match oz with
  | None => Ret (None, mgr, sm)
  | Some z =>
      '(r, z, sm) ← zone_alloc z sm order;
      mgr ← arr_set mgr (ZoneId.idx id) (Some z);
      Ret (r, mgr, sm)
  end.

Definition mgr_free_pages (mgr : ZonesManager) (sm : SparseMem) (pfn : Z)
    : outcome (ZonesManager * SparseMem) :=
  frame ← unwrap (pfn_to_frame sm pfn);
  let state := f_state frame in
  let zid := f_zone frame in
  _ ← assert (bool_decide (state ≠ FrameState.Absent));
  _ ← assert (bool_decide (state ≠ FrameState.Reserved));
  oz ← zone_of mgr zid;
  match oz with
  | None => Panic PExplicit
  | Some z =>
      '(z, sm) ← zone_free z sm pfn;
      mgr ← arr_set mgr (ZoneId.idx zid) (Some z);
      Ret (mgr, sm)
  end.

(** [for f in slice { if f.state == Usable { f.zone = zid } }]. *)
Definition fill_zone (zid : ZoneId.t) (off len : Z) (x : Memsection) : Memsection :=
  mk_section
    (foldl (λ fr i,
       let f := default frame_absent (fr !! i) in
       <[i:=if bool_decide (f_state f = FrameState.Usable) then set_zone_id zid f else f]> fr)
       (ms_frames x) (seqZ off len))
    (ms_present x).

Definition assign_step (zid : ZoneId.t) (end_ : Z) (st : SparseMem * Z)
    : outcome ((SparseMem * Z) + SparseMem) :=
  let '(sm, p) := st in
  if p <? end_ then
    let sec := pfn_to_section p in
    let sec_base := section_base_pfn sec in
    sec_end ← add64 sec_base PAGES_PER_SECTION;
    x ← get_section sm sec;
    _ ← assert (ms_present x);
    let chunk_end := Z.min end_ sec_end in
    off ← sub64 p sec_base;
    n ← sub64 chunk_end p;
    sm ← put_section sm sec (fill_zone zid off n x);
    Ret (inl (sm, chunk_end))
  else Ret (inr sm).

Definition assign_zone_to_run (sm : SparseMem) (zid : ZoneId.t) (start len : Z)
    : outcome SparseMem :=
  if len =? 0 then Ret sm
  else
    end_ ← add64 start len;
    iter (S (S (length (sm_sections sm)))) (assign_step zid end_) (sm, start).

(** The body of [build_zone]'s loop over the runs. *)
Definition build_step (id : ZoneId.t) (pfn_start pfn_end : Z) (st : RunIter * Buddy * SparseMem)
    : outcome ((RunIter * Buddy * SparseMem) + (Buddy * SparseMem)) :=
  let '(it, b, sm) := st in
  '(it, r) ← iter_next sm it;
  match r with
  | None => Ret (inr (b, sm))
  | Some run =>
      if pfn_end <=? run_start run then Ret (inr (b, sm))
      else
        let clipped_start := Z.max (run_start run) pfn_start in
        e ← run_end run;
        let clipped_end := Z.min e pfn_end in
        if clipped_end <=? clipped_start then Ret (inl (it, b, sm))
        else
          clipped_len ← sub64 clipped_end clipped_start;
          '(b, sm) ← add_usable_run b sm clipped_start clipped_len;
          sm ← assign_zone_to_run sm id clipped_start clipped_len;
          Ret (inl (it, b, sm))
  end.

Definition build_zone (sm : SparseMem) (id : ZoneId.t) (pfn_start pfn_end : Z)
    : outcome (Zone * SparseMem) :=
  _ ← assert (pfn_start <=? pfn_end);
  page_count ← sub64 pfn_end pfn_start;
  b ← buddy_new pfn_start page_count;
  '(b, sm) ← reset b sm;
  '(b, sm) ← iter (S (Z.to_nat (section_count sm * PAGES_PER_SECTION)))
                  (build_step id pfn_start pfn_end) (iter_new, b, sm);
  Ret (mk_zone id pfn_start page_count b, sm).

(** [log_zones_summary] prints these numbers for every zone. *)
Definition log_zones_summary (mgr : ZonesManager) (sm : SparseMem) : outcome unit :=
  for_each (λ zid (_ : unit),
    oz ← zone_of mgr zid;
    match oz with
    | None => Ret ()
    | Some z =>
        usable ← usable_pages z sm;
        _ ← mul64 usable PAGE_SIZE;
        _ ← mul64 (zone_free_pages z) PAGE_SIZE;
        _ ← add64 (z_base z) (z_count z);
        Ret ()
    end) [ZoneId.Dma; ZoneId.Normal; ZoneId.High] ().

Definition init_zones_manager (sm : SparseMem) : outcome (ZonesManager * SparseMem) :=
  let max_pfn := max_present_pfn sm in
  _ ← assert (0 <? max_pfn);
  _ ← assert (DMA_LIMIT_PFN <=? max_pfn);
  '(dma_zone, sm) ← build_zone sm ZoneId.Dma 0 DMA_LIMIT_PFN;
  '(high_zone, sm) ← build_zone sm ZoneId.High DMA_LIMIT_PFN max_pfn;
  mgr ← set_zone manager_new dma_zone;
  mgr ← set_zone mgr high_zone;
  _ ← log_zones_summary mgr sm;
  Ret (mgr, sm).

(** ** The page allocator *)

(** [PAllocFlags], as its bits. *)
Definition PA_KERNEL : Z := 1.
Definition PA_DMA : Z := 2.
Definition PA_ZEROED : Z := 4.
Definition flags_contain (flags bit : Z) : bool := Z.land flags bit =? bit.

Definition KERNEL_PAGES : Z := PA_KERNEL.
Definition SAFE_KERNEL_PAGES : Z := Z.lor PA_KERNEL PA_ZEROED.

Definition flags_to_zone (flags : Z) : outcome ZoneId.t :=
  match flags_contain flags PA_KERNEL, flags_contain flags PA_DMA with
  | true, false => Ret ZoneId.High
  | false, true => Ret ZoneId.Dma
  | _, _ => Panic PExplicit
  end.

Definition alloc_physical_frame_pfn (mgr : ZonesManager) (sm : SparseMem)
    : outcome (option Z * ZonesManager * SparseMem) :=
  mgr_alloc_pages mgr sm ZoneId.High 0.

(** The physical memory the zero fill writes is [mem], indexed by virtual
    address. *)
Definition alloc_pages_by_order (hhdm : Z) (mgr : ZonesManager) (sm : SparseMem) (mem : Z → Z)
    (order : nat) (flags : Z) : outcome (option Z * ZonesManager * SparseMem * (Z → Z)) :=
  zone ← flags_to_zone flags;
  let zeroed := flags_contain flags PA_ZEROED in
  '(r, mgr, sm) ← mgr_alloc_pages mgr sm zone order;
  match r with
  | None => Ret (None, mgr, sm, mem)
  | Some pfn =>
      let phys := wrap64 (Z.shiftl pfn PAGE_SHIFT) in
      mem ← (if zeroed then
               virt ← phys_to_virt hhdm phys;
               pages ← order_pages order;
               n ← mul64 pages PAGE_SIZE;
               Ret (zero_bytes virt n mem)
             else Ret mem);
      Ret (Some phys, mgr, sm, mem)
  end.

Definition pa_free_pages (mgr : ZonesManager) (sm : SparseMem) (ptr : Z)
    : outcome (ZonesManager * SparseMem) :=
  _ ← assert (ptr mod PAGE_SIZE =? 0);
  let pfn := Z.shiftr ptr PAGE_SHIFT in
  mgr_free_pages mgr sm pfn.
