(* ===== verification/ZonesSpec.v ===== *)
(** * Memory zones: specifications

    Building the zones from the frame table, and the manager's invariant. *)
From S2P Require Import Prelude Misc Memblock Frame Bump Sparsemem SparsememSpec SparsememInit PfnIter.
From S2P Require Import Buddy BuddyLists BuddyBlocks BuddySpec Zones.

(** ** The buddy invariant is local to its zone *)

(** A frame up to its zone field, which the buddy allocator never reads. *)
Definition erase_zone (f : Frame) : Frame := set_zone_id ZoneId.Normal f.

Section local.
Context {M : Type} {FS : FrameStore M}.
Implicit Types (m : M) (b : Buddy) (H : blocks).

Lemma erased_get m m' p f :
  erase_zone <$> fs_get m' p = erase_zone <$> fs_get m p → fs_get m p = Some f →
  ∃ f', fs_get m' p = Some f' ∧ f_state f' = f_state f ∧ f_tag f' = f_tag f ∧
        f_order f' = f_order f ∧ f_next f' = f_next f ∧ f_prev f' = f_prev f.
Proof.
  intros Heq Hf. rewrite Hf in Heq. destruct (fs_get m' p) as [f'|]; simpl in Heq; [|done].
  exists f'. injection Heq. naive_solver.
Qed.

Lemma erased_heads m m' p :
  erase_zone <$> fs_get m' p = erase_zone <$> fs_get m p → heads m' p = heads m p.
Proof.
  intros Heq. unfold heads, head_of. destruct (fs_get m p) as [f|] eqn:Hf.
  - destruct (erased_get m m' p f) as (f' & -> & _ & Ht & Ho & _); [by rewrite Hf|done|].
    simpl. by rewrite Ht, Ho.
  - by destruct (fs_get m' p).
Qed.

Lemma seg_erased m m' o prev l next :
  (∀ p, p ∈ l → erase_zone <$> fs_get m' p = erase_zone <$> fs_get m p) →
  seg m o prev l next → seg m' o prev l next.
Proof.
  revert prev. induction l as [|p l IH]; intros prev Heq; [done|].
  intros [(Hv & f & Hf & Ht & Ho & Hpr & Hnx) Hl]. split.
  - split; [done|]. destruct (erased_get m m' p f) as (f' & Hf' & _ & Ht' & Ho' & Hn' & Hp').
    { apply Heq. by left. } { done. }
    exists f'. split_and!; congruence.
  - apply IH; [|done]. intros q Hq. apply Heq. by right.
Qed.

Lemma inv_ext b m m' H :
  (∀ p, in_zone b p → erase_zone <$> fs_get m' p = erase_zone <$> fs_get m p) →
  inv b m H → inv b m' H.
Proof.
  intros Heq ([L [Hz [Hlen Hhd Hseg Hnd] Hm Hh Hb]] & Hc & Hfp).
  assert (∀ o p, p ∈ L o → in_zone b p) as HL.
  { intros o p Hp%Hm. eapply block_in_zone; [exact Hb|done|apply in_block_head]. }
  split; [|done]. exists L. split; [done| |done| |].
  - split; [done|done| |done]. intros o. apply (seg_erased m m'); [|apply Hseg].
    intros p Hp. apply Heq, (HL o), Hp.
  - intros p Hp HX. rewrite <-Hh by done. by apply erased_heads, Heq.
  - intros p t o Hp. destruct (Hb p t o Hp) as (Ht & [Ho Hlo Hhi Hal Hu] & Hin).
    split; [done|]. split; [|done]. split; try done. intros q Hq. destruct (Hu q Hq) as (f & Hf & Hs).
    destruct (erased_get m m' q f) as (f' & Hf' & Hs' & _); [|done|exists f'; split; congruence].
    apply Heq. unfold in_block, in_zone in *. lia.
Qed.
End local.

(** ** Recording the zone in the frames of a run *)

Definition same_layout (s s' : SparseMem) : Prop := sparse_layout s' = sparse_layout s.

Lemma layout_present s s' sec : same_layout s s' → sec_present s' sec ↔ sec_present s sec.
Proof.
  intros [= _ Hp _ _]. unfold sec_present.
  assert (∀ i, ms_present <$> sm_sections s' !! i = ms_present <$> sm_sections s !! i) as Hi.
  { intros i. by rewrite <-!list_lookup_fmap, Hp. }
  specialize (Hi (Z.to_nat sec)).
  destruct (sm_sections s' !! _), (sm_sections s !! _); simpl in Hi; naive_solver.
Qed.

Lemma layout_count s s' : same_layout s s' → section_count s' = section_count s.
Proof.
  intros [= _ Hp _ _]. unfold section_count. apply (f_equal length) in Hp.
  rewrite !length_fmap in Hp. by rewrite Hp.
Qed.

Lemma layout_max s s' : same_layout s s' → max_present_sec s' = max_present_sec s.
Proof. by intros [= _ _ ? _]. Qed.

Lemma put_section_frames s sec x y (Q : SparseMem → Prop) :
  0 ≤ sec → sm_sections s !! Z.to_nat sec = Some x → ms_present x = true → ms_present y = true →
  (∀ s', same_layout s s' →
    (∀ p, pfn_to_frame s' p =
       if decide (0 ≤ p ∧ pfn_to_section p = sec) then Some (section_frame y (pfn_to_offset p))
       else pfn_to_frame s p) → Q s') →
  wp (put_section s sec y) Q.
Proof.
  intros Hsec Hx Hpx Hpy HQ. eapply put_section_spec; [done|done|]. apply HQ.
  - unfold same_layout, sparse_layout. simpl. do 3 f_equal. rewrite list_fmap_insert.
    apply list_insert_id. rewrite list_lookup_fmap, Hx. simpl. congruence.
  - intros p. unfold pfn_to_frame, pfn_present. simpl.
    destruct (Z.leb_spec 0 p) as [Hp|Hp]; [|by rewrite decide_False by lia].
    pose proof (pfn_to_section_nonneg p Hp). case_decide as Hd.
    + destruct Hd as [_ ->]. rewrite list_lookup_insert_eq by by eapply lookup_lt_Some. by rewrite Hpy.
    + rewrite list_lookup_insert_ne by lia. done.
Qed.

Lemma section_frame_fill_zone zid off len x i :
  section_frame (fill_zone zid off len x) i =
  if decide (off ≤ i < off + len ∧ f_state (section_frame x i) = FrameState.Usable)
  then set_zone_id zid (section_frame x i) else section_frame x i.
Proof.
  unfold section_frame, fill_zone. simpl. pose proof (elem_of_seqZ off len i) as Hiff.
  assert (∀ (l : list Z) (fr : gmap Z Frame),
    default frame_absent (foldl (λ fr i,
       let f := default frame_absent (fr !! i) in
       <[i:=if bool_decide (f_state f = FrameState.Usable) then set_zone_id zid f else f]> fr) fr l !! i) =
    if decide (i ∈ l ∧ f_state (default frame_absent (fr !! i)) = FrameState.Usable)
    then set_zone_id zid (default frame_absent (fr !! i)) else default frame_absent (fr !! i)) as Hl.
  { induction l as [|j l IH]; intros fr; cbn [foldl].
    { rewrite decide_False; [done|]. intros [?%elem_of_nil _]. done. }
    rewrite IH. cbv zeta. pose proof (elem_of_cons l i j) as Hc. destruct (decide (i = j)) as [->|Hne].
    - rewrite lookup_insert_eq. simpl.
      destruct (bool_decide_reflect (f_state (default frame_absent (fr !! j)) = FrameState.Usable));
        repeat case_decide; try done; tauto.
    - rewrite lookup_insert_ne by done. repeat case_decide; try done; tauto. }
  rewrite Hl. repeat case_decide; try done; tauto.
Qed.

(** [s'] is [s] with the zone of the usable frames [lo .. hi) set. *)
Definition zoned (zid : ZoneId.t) (lo hi : Z) (s s' : SparseMem) : Prop :=
  same_layout s s' ∧
  ∀ p, pfn_to_frame s' p =
    (λ f, if decide (lo ≤ p < hi ∧ f_state f = FrameState.Usable) then set_zone_id zid f else f) <$>
    pfn_to_frame s p.

Lemma zoned_trans zid lo mid hi s1 s2 s3 :
  lo ≤ mid ≤ hi → zoned zid lo mid s1 s2 → zoned zid mid hi s2 s3 → zoned zid lo hi s1 s3.
Proof.
  intros Hle [Hl1 Hf1] [Hl2 Hf2]. split; [unfold same_layout in *; congruence|].
  intros p. rewrite Hf2, Hf1. destruct (pfn_to_frame s1 p) as [f|]; [|done]. simpl. f_equal.
  assert (lo ≤ p < hi ↔ lo ≤ p < mid ∨ mid ≤ p < hi) as Hsplit by lia.
  assert (¬ (lo ≤ p < mid ∧ mid ≤ p < hi)) by lia.
  destruct (decide (lo ≤ p < mid ∧ f_state f = FrameState.Usable)) as [Hd|Hd]; simpl;
    repeat case_decide; try done; exfalso; tauto.
Qed.

Lemma assign_zone_spec zid s start len :
  section_count s ≤ 2 ^ 25 → 0 ≤ start → 0 < len → all_usable s start (start + len) →
  wp (assign_zone_to_run s zid start len) (zoned zid start (start + len) s).
Proof.
  intros Hcnt Hst Hlen Hall. unfold assign_zone_to_run. rewrite (proj2 (Z.eqb_neq _ _)) by lia.
  assert (∀ q, start ≤ q < start + len → sec_present s (pfn_to_section q)) as Hpres.
  { intros q Hq. destruct (Hall q Hq) as (f & Hf & _). apply pfn_to_frame_inv in Hf as (? & x & ? & ? & _).
    split; [by apply pfn_to_section_nonneg|eauto]. }
  assert (start + len ≤ 2 ^ 40) as Hlim.
  { pose proof (sec_present_lt _ _ (Hpres (start + len - 1) ltac:(lia))).
    destruct (proj1 (pfn_to_section_spec (start + len - 1) _) eq_refl). unfold PAGES_PER_SECTION in *. lia. }
  apply wp_bind, wp_add64; [unfold u64_max; lia|].
  apply (wp_iter _ _ _ (λ '(s', p), start ≤ p ≤ start + len ∧ zoned zid start p s s')
    (λ '(_, p), sections_left (start + len) (length (sm_sections s)) p)).
  - split; [lia|]. split; [done|]. intros p. destruct (pfn_to_frame s p) as [f|]; [|done]. simpl.
    by rewrite decide_False by lia.
  - unfold sections_left. case_match; lia.
  - intros [s1 p] [Hp Hz]. unfold assign_step. destruct (Z.ltb_spec p (start + len)) as [Hlt|Hge].
    2:{ apply wp_ret. by assert (p = start + len) as <- by lia. }
    set (sec := pfn_to_section p).
    destruct (proj1 (pfn_to_section_spec p sec) eq_refl) as [Hp1 Hp2].
    pose proof (Hpres p ltac:(lia)) as Hsp. pose proof (sec_present_lt _ _ Hsp) as Hsc. fold sec in Hsp, Hsc.
    rewrite section_base_pfn_mul by lia.
    apply wp_bind, wp_add64; [unfold PAGES_PER_SECTION, u64_max; lia|].
    pose proof Hz as [Hlay Hfr]. apply (layout_present _ _ sec Hlay) in Hsp as (_ & x & Hx & Hpr).
    apply wp_bind. eapply wp_arr_get; [done|]. apply wp_bind, wp_assert; [done|].
    apply wp_bind, wp_sub64; [lia|].
    set (c := Z.min (start + len) (sec * PAGES_PER_SECTION + PAGES_PER_SECTION)).
    assert (p < c ∧ c ≤ (sec + 1) * PAGES_PER_SECTION ∧
      (c = start + len ∨ c = (sec + 1) * PAGES_PER_SECTION)) as (Hc1 & Hc2 & Hc3) by lia.
    apply wp_bind, wp_sub64; [lia|]. apply wp_bind.
    apply (put_section_frames s1 sec x); [lia|done|done|done|]. intros s2 Hlay2 Hfr2. apply wp_ret. split.
    + split; [lia|]. apply (zoned_trans zid start p c s s1 s2); [lia|done|]. split; [done|].
      intros q. rewrite Hfr2. case_decide as Hd.
      * destruct Hd as [Hq0 Hq]. rewrite section_frame_fill_zone.
        rewrite (pfn_to_frame_some s1 q x) by (rewrite ?Hq; done). simpl. f_equal.
        pose proof (pfn_split q) as [Hqd Hqo]. rewrite Hq in Hqd.
        assert (p - sec * PAGES_PER_SECTION ≤ pfn_to_offset q <
          p - sec * PAGES_PER_SECTION + (c - p) ↔ p ≤ q < c) as Hiff by lia.
        repeat case_decide; try done; exfalso; tauto.
      * destruct (pfn_to_frame s1 q) as [f|] eqn:Hf; [|done]. simpl. rewrite decide_False; [done|].
        intros [Hq _]. apply Hd. split; [lia|]. apply pfn_to_section_spec. lia.
    + unfold sections_left. rewrite (proj2 (Z.ltb_lt p (start + len))) by lia.
      destruct (Z.ltb_spec c (start + len)); [|lia].
      assert (pfn_to_section c = sec + 1) as -> by (apply pfn_to_section_spec; unfold PAGES_PER_SECTION in *; lia).
      fold sec. unfold section_count in Hsc. lia.
Qed.

(** ** Building one zone *)

(** [s'] has the same sections and frame states as [s]. *)
Definition states_kept (s s' : SparseMem) : Prop :=
  same_layout s s' ∧ ∀ p, f_state <$> pfn_to_frame s' p = f_state <$> pfn_to_frame s p.

#[global] Instance states_kept_refl : Reflexive states_kept.
Proof. by split. Qed.
#[global] Instance states_kept_trans : Transitive states_kept.
Proof.
  intros s1 s2 s3 [Hl1 Hs1] [Hl2 Hs2]. split; [unfold same_layout in *; congruence|].
  intros p. by rewrite Hs2, Hs1.
Qed.

Lemma states_usable s s' p : states_kept s s' → usable s' p ↔ usable s p.
Proof.
  intros [_ Hs]. specialize (Hs p). unfold usable. simpl.
  destruct (pfn_to_frame s' p) as [f'|], (pfn_to_frame s p) as [f|]; simpl in Hs; try done.
  injection Hs as Hs. split; intros (g & [= <-] & Hg); eexists; split; try done; congruence.
Qed.

Lemma frames_states b (s s' : SparseMem) : frames_kept b s s' → states_kept s s'.
Proof.
  intros [Hs _]. split; [exact (f_equal fst (Hs 0))|]. intros p.
  pose proof (f_equal snd (Hs p)) as Hp. revert Hp. simpl. destruct (pfn_to_frame s' p), (pfn_to_frame s p); simpl; congruence.
Qed.

Lemma zoned_states zid lo hi s s' : zoned zid lo hi s s' → states_kept s s'.
Proof.
  intros [Hl Hf]. split; [done|]. intros p. rewrite Hf. destruct (pfn_to_frame s p); [|done]. simpl.
  by case_decide.
Qed.

Lemma iterable_kept s s' : states_kept s s' → iterable s → iterable s'.
Proof.
  intros [Hl _] [Hc Hm Ha]. pose proof (layout_count _ _ Hl) as Ec. pose proof (layout_max _ _ Hl) as Em.
  split; rewrite ?Ec, ?Em; [done..|]. intros sec. rewrite (layout_present _ _ _ Hl). apply Ha.
Qed.

Lemma it_inv_kept s s' lo it : states_kept s s' → it_inv s lo it → it_inv s' lo it.
Proof.
  intros Hk [Hp Hlo Hi Hr]. pose proof (proj1 Hk) as Hl. pose proof (layout_max _ _ Hl) as Em.
  split; rewrite ?Em; [done|done|by rewrite (layout_present _ _ _ Hl)|].
  assert (∀ a c, no_usable s a c → no_usable s' a c) as Hno.
  { intros a c H q Hq. rewrite (states_usable _ _ _ Hk). by apply H. }
  assert (∀ a c, all_usable s a c → all_usable s' a c) as Hall.
  { intros a c H q Hq. rewrite (states_usable _ _ _ Hk). by apply H. }
  destruct (it_start it); [|by apply Hno]. destruct Hr as (? & ? & ? & ?). split_and!; naive_solver.
Qed.

(** [s'] is [s] after the frames [lo .. hi) were handed to the zone [id]: its
    usable frames below [done] carry the zone, and nothing changed outside. *)
Record handed (id : ZoneId.t) (lo hi done : Z) (s s' : SparseMem) : Prop := {
  hd_states : states_kept s s';
  hd_out : ∀ p, ¬ lo ≤ p < hi → pfn_to_frame s' p = pfn_to_frame s p;
  hd_zone : ∀ p f, lo ≤ p < hi → p < done → pfn_to_frame s' p = Some f →
    f_state f = FrameState.Usable → f_zone f = id
}.

(** The allocator holds exactly the usable frames of its zone below [done]. *)
Definition filled (b : Buddy) (s s' : SparseMem) (done : Z) : Prop :=
  ∃ H, inv b s' H ∧ no_allocated H ∧
    ∀ q, free_at H q ↔ in_zone b q ∧ usable s q ∧ q < done.

Lemma frames_kept_zone b (s s' : SparseMem) p f' :
  frames_kept b s s' → pfn_to_frame s' p = Some f' →
  ∃ f, pfn_to_frame s p = Some f ∧ f_state f = f_state f' ∧ f_zone f = f_zone f'.
Proof.
  intros [Hs _] Hf'. pose proof (f_equal snd (Hs p)) as Hp. revert Hp. simpl. rewrite Hf'.
  destruct (pfn_to_frame s p) as [f|]; simpl; [|done]. intros [= ??]. eauto.
Qed.

Lemma zoned_erased zid lo hi s s' p :
  zoned zid lo hi s s' → erase_zone <$> pfn_to_frame s' p = erase_zone <$> pfn_to_frame s p.
Proof.
  intros [_ ->]. destruct (pfn_to_frame s p); [|done]. simpl. by case_decide.
Qed.

(** One run handed to the zone. *)
Lemma hand_run_spec {B} (K : Buddy → SparseMem → B) id (s s1 : SparseMem) b d r lo hi :
  iterable s → lo = base_pfn b → hi = base_pfn b + pages b → hi ≤ 2 ^ 40 →
  handed id lo hi d s s1 → filled b s s1 d → run_ok s d r → run_start r < hi →
  let cs := Z.max (run_start r) lo in
  let ce := Z.min (run_start r + run_len r) hi in
  cs < ce →
  wp ('(b, sm) ← add_usable_run b s1 cs (ce - cs);
      sm ← assign_zone_to_run sm id cs (ce - cs);
      Ret (K b sm)) (λ x, ∃ b' s2, x = K b' s2 ∧
    same_zone b b' ∧ handed id lo hi (run_start r + run_len r) s s2 ∧
    filled b' s s2 (run_start r + run_len r)).
Proof.
  intros Hit -> -> Hlim [Hst Hout Hz] (H & Hinv & Hna & Hfree) [Hlen Hlo Hgap Hall _ _] Hstart cs ce Hlt.
  pose proof Hinv as ([L0 HR0] & _). destruct (rep_zone _ _ _ _ _ HR0) as [Hb0 Hp0 _ _ _].
  apply wp_bind. eapply wp_mono.
  { apply (add_usable_run_spec b s1 H cs (ce - cs)); [done|done|lia|lia|lia|].
    intros q Hq Hrun. unfold in_run in Hrun. split.
    - apply (states_usable s s1 q Hst), Hall. lia.
    - rewrite Hfree. lia. }
  intros [b' s2] (Hsz & Hk & H' & Hinv' & Hna' & Hfree').
  pose proof (frames_states _ _ _ Hk) as Hk2. assert (states_kept s s2) as Hst2 by (by etrans).
  apply wp_bind. eapply wp_mono.
  { apply (assign_zone_spec id s2 cs (ce - cs)); [|lia|lia|].
    - apply (iterable_kept s); done.
    - intros q Hq. apply (states_usable s s2 q Hst2), Hall. lia. }
  intros s3 Hzd. replace (cs + (ce - cs)) with ce in * by lia. apply wp_ret. exists b', s3.
  do 2 (split; [done|]). pose proof (zoned_states _ _ _ _ _ Hzd) as Hk3. split.
  - split.
    + by etrans.
    + intros p Hp. pose proof (proj2 Hk p Hp) as Hsame. simpl in Hsame.
      rewrite (proj2 Hzd), Hsame, Hout by done.
      destruct (pfn_to_frame s p); [|done]. simpl. rewrite decide_False by lia. done.
    + intros p f Hp Hd. rewrite (proj2 Hzd). destruct (pfn_to_frame s2 p) as [f2|] eqn:Hf2; [|done].
      simpl. case_decide as Hc; [by intros [= <-] _|]. intros [= <-] Hu.
      destruct (frames_kept_zone _ _ _ _ _ Hk Hf2) as (f1 & Hf1 & E1 & <-).
      rewrite <-E1 in Hu. apply (Hz p); [done| |done|done].
      destruct (Z_lt_le_dec p d); [done|]. exfalso.
      assert (usable s p) as Hup by (apply (states_usable s s1 p Hst); by exists f1).
      destruct (Z_lt_le_dec p (run_start r)); [by apply (Hgap p); [lia|]|].
      apply Hc. split; [lia|congruence].
  - exists H'. split; [|split; [done|]].
    + eapply inv_ext; [|exact Hinv']. intros p _. by eapply zoned_erased.
    + destruct Hsz as (E1 & E2 & _). unfold in_zone, in_run in *. intros q. rewrite Hfree', Hfree, E1, E2. split.
      * intros [(? & ? & ?)|[? ?]]; split_and!; try done; try lia. apply Hall. lia.
      * intros (Hq & Hu & Hd). destruct (Z_lt_le_dec q d); [by left|]. right.
        destruct (Z_lt_le_dec q (run_start r)); [by destruct (Hgap q); [lia|]|lia].
Qed.

(** Reaching the end of the zone without meeting a usable frame. *)
Lemma handed_skip id lo hi d d' s s' :
  (∀ q, lo ≤ q < hi → d ≤ q < d' → ¬ usable s q) → handed id lo hi d s s' → handed id lo hi d' s s'.
Proof.
  intros Hno [Hs Ho Hz]. split; [done|done|]. intros p f Hp Hd Hf Hu.
  apply (Hz p); try done. destruct (Z_lt_le_dec p d); [done|]. destruct (Hno p); [done|lia|].
  apply (states_usable s s' p Hs). by exists f.
Qed.

Lemma filled_skip b d d' s s' :
  d ≤ d' → (∀ q, in_zone b q → d ≤ q < d' → ¬ usable s q) → filled b s s' d → filled b s s' d'.
Proof.
  intros Hle Hno (H & Hi & Hn & Hf). exists H. do 2 (split; [done|]). intros q. rewrite Hf. split.
  - intros (? & ? & ?). split_and!; [done|done|lia].
  - intros (? & ? & ?). split_and!; [done|done|]. destruct (Z_lt_le_dec q d); [done|].
    by destruct (Hno q).
Qed.

Definition building (id : ZoneId.t) (b : Buddy) (s : SparseMem) (n : nat)
    (st : RunIter * Buddy * SparseMem) : Prop :=
  let '(it, b', s') := st in
  same_zone b b' ∧ ∃ d, n = Z.to_nat (limit s - d) ∧ it_inv s d it ∧
    handed id (base_pfn b) (base_pfn b + pages b) d s s' ∧ filled b' s s' d.

Lemma states_kept_sym s s' : states_kept s s' → states_kept s' s.
Proof. intros [Hl Hs]. split; [done|]. intros p. by rewrite Hs. Qed.

Lemma next_post_kept s s' lo x : states_kept s s' → next_post s' lo x → next_post s lo x.
Proof.
  intros Hk. pose proof (states_kept_sym _ _ Hk) as Hk'. destruct x as [it [run|]]; simpl.
  - intros [[Hlen Hlo Hgap Hall Hmax Hhi] Hi]. split; [|by eapply it_inv_kept].
    split; [done|done| | | |].
    + intros q Hq. rewrite <-(states_usable _ _ _ Hk). by apply Hgap.
    + intros q Hq. rewrite <-(states_usable _ _ _ Hk). by apply Hall.
    + by rewrite <-(states_usable _ _ _ Hk).
    + unfold limit in *. by rewrite (layout_max _ _ (proj1 Hk)) in Hhi.
  - intros Hno q Hq. rewrite <-(states_usable _ _ _ Hk). by apply Hno.
Qed.

Lemma building_skip id b b' s s' d d' :
  same_zone b b' → d ≤ d' → (∀ q, in_zone b q → d ≤ q < d' → ¬ usable s q) →
  handed id (base_pfn b) (base_pfn b + pages b) d s s' → filled b' s s' d →
  handed id (base_pfn b) (base_pfn b + pages b) d' s s' ∧ filled b' s s' d'.
Proof.
  intros (E1 & E2 & _) Hle Hno Hh Hf. split.
  - by eapply handed_skip.
  - eapply filled_skip; [done| |done]. unfold in_zone. by rewrite E1, E2.
Qed.

Lemma building_done id b b' s s' d :
  same_zone b b' → (∀ q, in_zone b q → d ≤ q → ¬ usable s q) →
  handed id (base_pfn b) (base_pfn b + pages b) d s s' → filled b' s s' d →
  handed id (base_pfn b) (base_pfn b + pages b) (base_pfn b + pages b) s s' ∧
  filled b' s s' (base_pfn b + pages b).
Proof.
  intros Hsz Hno Hh Hf. set (hi := base_pfn b + pages b).
  destruct (building_skip id b b' s s' d (Z.max d hi)) as [[Hs Ho Hz] (H & Hi & Hn & HF)]; try done.
  { lia. } { intros q Hq Hd. apply Hno; [done|lia]. }
  split; [split; [done|done|]|].
  - intros p f Hp _. apply Hz; lia.
  - exists H. do 2 (split; [done|]). intros q. rewrite HF. destruct Hsz as (E1 & E2 & _).
    unfold in_zone. rewrite E1, E2. split; intros (? & ? & ?); split_and!; try done; lia.
Qed.

Lemma build_step_spec id b s n st :
  iterable s → zone_ok b → base_pfn b + pages b ≤ 2 ^ 40 → building id b s n st →
  wp (build_step id (base_pfn b) (base_pfn b + pages b) st) (λ r,
    match r with
    | inl st' => ∃ n', (n' < n)%nat ∧ building id b s n' st'
    | inr (b', s') => same_zone b b' ∧
        handed id (base_pfn b) (base_pfn b + pages b) (base_pfn b + pages b) s s' ∧
        filled b' s s' (base_pfn b + pages b)
    end).
Proof.
  intros Hit [Hb0 Hp0 _ _ _] Hlim. destruct st as [[it b1] s1]. intros (Hsz & d & -> & Hi & Hh & Hf).
  pose proof (hd_states _ _ _ _ _ _ Hh) as Hst. unfold build_step. apply wp_bind. eapply wp_mono.
  { apply (iter_next_spec s1); [by apply (iterable_kept s)|by apply (it_inv_kept s)]. }
  intros [it' r] Hpost%(next_post_kept s s1); [|done]. destruct r as [run|].
  2:{ apply wp_ret. split; [done|]. apply (building_done id b b1 s s1 d); try done. intros q _. apply Hpost. }
  destruct Hpost as [Hrun Hi']. pose proof Hrun as [Hlen Hlo Hgap Hall _ Hhi].
  assert (limit s ≤ 2 ^ 40) as Hl by (destruct (position_valid s Hit _ _ Hi); lia).
  assert (0 ≤ d) as Hd by (destruct (ii_lo _ _ _ Hi); lia).
  destruct (Z.leb_spec (base_pfn b + pages b) (run_start run)) as [Hge|Hlt].
  { apply wp_ret. split; [done|]. apply (building_done id b b1 s s1 d); try done.
    intros q Hq ?. apply Hgap. unfold in_zone in Hq. lia. }
  apply wp_bind. unfold run_end. apply wp_add64; [unfold u64_max; lia|].
  destruct (Z.leb_spec (Z.min (run_start run + run_len run) (base_pfn b + pages b))
              (Z.max (run_start run) (base_pfn b))) as [Hle|Hcl].
  - apply wp_ret. exists (Z.to_nat (limit s - (run_start run + run_len run))). split; [lia|].
    split; [done|]. exists (run_start run + run_len run). split; [done|]. split; [done|].
    apply (building_skip id b b1 s s1 d); try done; [lia|]. intros q Hq ?.
    unfold in_zone in Hq. lia.
  - apply wp_bind, wp_sub64; [lia|]. pose proof Hsz as (E1 & E2 & _). eapply wp_mono.
    { apply (hand_run_spec (λ b sm, inl (it', b, sm)) id s s1 b1 d run); try done; rewrite ?E1, ?E2; done. }
    intros x (b2 & s2 & -> & Hsz2 & Hh2 & Hf2).
    exists (Z.to_nat (limit s - (run_start run + run_len run))). split; [lia|].
    split; [unfold same_zone in *; naive_solver congruence|]. exists (run_start run + run_len run). done.
Qed.

(** What [build_zone] promises of the zone it returns. *)
Record zone_built (id : ZoneId.t) (lo hi : Z) (s s' : SparseMem) (z : Zone) : Prop := {
  zb_id : z_id z = id;
  zb_base : z_base z = lo;
  zb_count : z_count z = hi - lo;
  zb_range : base_pfn (z_alloc z) = lo ∧ pages (z_alloc z) = hi - lo;
  zb_order : max_order (z_alloc z) = Nat.min (Z.to_nat (Z.log2 (hi - lo))) MAX_ORDER;
  zb_handed : handed id lo hi hi s s';
  zb_filled : filled (z_alloc z) s s' hi
}.

Lemma filled_empty b s s' : inv b s' ∅ → filled b s s' 0.
Proof.
  intros Hi. exists ∅. split; [done|]. split; [by intros p o; rewrite lookup_empty|].
  intros q. rewrite free_at_spec. split.
  - intros (p & o & Hp & _). by rewrite lookup_empty in Hp.
  - intros (Hz & _ & Hq). destruct Hi as ([L HR] & _). destruct (rep_zone _ _ _ _ _ HR).
    unfold in_zone in Hz. lia.
Qed.

Lemma build_zone_spec id lo hi s :
  iterable s → 0 ≤ lo → lo ≤ hi → hi ≤ 2 ^ 40 → (psize MAX_ORDER | lo) →
  wp (build_zone s id lo hi) (λ '(z, s'), zone_built id lo hi s s' z).
Proof.
  intros Hit Hlo Hle Hhi Hal. unfold build_zone.
  apply wp_bind, wp_assert; [lia|]. apply wp_bind, wp_sub64; [lia|].
  apply wp_bind. eapply wp_mono; [apply buddy_new_spec; [done|lia|lia|done]|].
  intros b (Hz & Eb & Ep & Em). apply wp_bind. eapply wp_mono; [by apply reset_spec|].
  intros [b1 s1] (Hsz & Hk & Hinv). pose proof (frames_states _ _ _ Hk) as Hst.
  assert (base_pfn b + pages b = hi) as Eh by lia.
  apply wp_bind. eapply (wp_iter_var _ _ _ (building id b s) (Z.to_nat (limit s - 0))).
  - split; [done|]. exists 0. split; [done|]. split; [by apply iter_new_inv|].
    split; [split; [done| |]|by apply filled_empty].
    + intros p Hp. apply Hk. unfold in_zone. lia.
    + intros p f Hp Hd. lia.
  - rewrite (layout_count _ _ (proj1 Hst)). unfold limit. pose proof (itb_max _ Hit).
    unfold PAGES_PER_SECTION. lia.
  - intros n st Hst'. rewrite <-Eb at 1. rewrite <-Eh.
    eapply wp_mono; [apply (build_step_spec id b s n st); [done|done|lia|done]|].
    intros [st'|[b' s']]; [done|]. intros ((E1 & E2 & E3) & Hh & Hf). apply wp_ret.
    rewrite Eb, Ep in *. replace (lo + (hi - lo)) with hi in * by lia.
    split; simpl; try done; congruence.
Qed.
