(* ===== verification/ZonesManager.v ===== *)
(** * The zone manager and the page allocator: properties

    The invariant of the manager (disjoint zones, each with a correct buddy
    allocator, every usable frame labelled with its zone), that booting
    establishes it, and that the page allocator's operations preserve it. *)
From stdpp Require Import functions.
From S2P Require Import Prelude Misc Memblock Frame Bump Sparsemem SparsememSpec SparsememInit PfnIter.
From S2P Require Import Buddy BuddyLists BuddyBlocks BuddySpec BuddyTheorems Zones ZonesSpec.

(** ** The manager's invariant *)

Definition pfn_label (s : SparseMem) (p : Z) (id : ZoneId.t) : Prop :=
  ∀ f, pfn_to_frame s p = Some f → f_state f = FrameState.Usable → f_zone f = id.

Record zone_inv (lim : Z) (s : SparseMem) (id : ZoneId.t) (z : Zone) (H : blocks) : Prop := {
  zi_id : z_id z = id;
  zi_range : base_pfn (z_alloc z) = z_base z ∧ pages (z_alloc z) = z_count z;
  zi_limit : z_base z + z_count z ≤ lim;
  zi_inv : inv (z_alloc z) s H;
  zi_label : ∀ p, in_zone (z_alloc z) p → pfn_label s p id
}.

(** [G] gives the blocks of every zone. *)
Record mgr_inv (lim : Z) (mgr : ZonesManager) (s : SparseMem) (G : ZoneId.t → blocks) : Prop := {
  mi_len : length mgr = MAX_ZONES;
  mi_zone : ∀ id z, mgr !! ZoneId.idx id = Some (Some z) → zone_inv lim s id z (G id);
  mi_none : ∀ id, mgr !! ZoneId.idx id = Some None → G id = ∅;
  mi_disj : ∀ id id' z z' p, mgr !! ZoneId.idx id = Some (Some z) →
    mgr !! ZoneId.idx id' = Some (Some z') →
    in_zone (z_alloc z) p → in_zone (z_alloc z') p → id = id'
}.

Lemma idx_inj id id' : ZoneId.idx id = ZoneId.idx id' → id = id'.
Proof. by destruct id, id'. Qed.

Lemma idx_lt id : (ZoneId.idx id < MAX_ZONES)%nat.
Proof. destruct id; unfold MAX_ZONES; simpl; lia. Qed.

Lemma in_zone_same b b' p : same_zone b b' → in_zone b' p ↔ in_zone b p.
Proof. unfold in_zone. by intros (-> & -> & _). Qed.

(** Replacing a zone's allocator after it worked on its own frames. *)
Lemma mgr_inv_update lim mgr s G id z b' s' H' :
  mgr_inv lim mgr s G → mgr !! ZoneId.idx id = Some (Some z) →
  same_zone (z_alloc z) b' → frames_kept (in_zone (z_alloc z)) s s' → inv b' s' H' →
  mgr_inv lim (<[ZoneId.idx id:=Some (with_alloc z b')]> mgr) s' (<[id:=H']> G).
Proof.
  intros [Hlen Hz Hn Hd] Hid Hsz Hk Hinv'.
  assert (∀ id' z', <[ZoneId.idx id:=Some (with_alloc z b')]> mgr !! ZoneId.idx id' = Some (Some z') →
    ∃ z0, mgr !! ZoneId.idx id' = Some (Some z0) ∧ same_zone (z_alloc z0) (z_alloc z')) as Hold.
  { intros id' z'. destruct (decide (id = id')) as [<-|Hne].
    - rewrite list_lookup_insert_eq by (rewrite Hlen; apply idx_lt). intros [= <-]. eauto.
    - rewrite list_lookup_insert_ne by (by intros ?%idx_inj). intros E. exists z'. done. }
  assert (∀ p id, pfn_label s p id → pfn_label s' p id) as Hlab.
  { intros p id' Hp f' Hf' Hu. destruct (frames_kept_zone _ _ _ _ _ Hk Hf') as (f & Hf & E & <-).
    apply Hp; [done|congruence]. }
  split.
  - by rewrite length_insert.
  - intros id' z'. destruct (decide (id = id')) as [<-|Hne].
    + rewrite list_lookup_insert_eq by (rewrite Hlen; apply idx_lt). intros [= <-].
      rewrite fn_lookup_insert. destruct (Hz _ _ Hid) as [Ei [Eb Ep] Hl _ Hlb]. destruct Hsz as (E1 & E2 & E3).
      split; simpl; [done|split; congruence|done|done|].
      intros p Hp. apply Hlab, Hlb. unfold in_zone in *. by rewrite <-E1, <-E2.
    + rewrite list_lookup_insert_ne by (by intros ?%idx_inj). rewrite fn_lookup_insert_ne by done.
      intros E. destruct (Hz _ _ E) as [Ei Er Hl Hi Hlb]. split; try done.
      * eapply inv_ext; [|done]. intros p Hp. simpl. f_equal. apply (proj2 Hk). intros Hp'. apply Hne.
        by apply (Hd id id' z z' p).
      * intros p Hp. by apply Hlab, Hlb.
  - intros id'. destruct (decide (id = id')) as [<-|Hne].
    + rewrite list_lookup_insert_eq by (rewrite Hlen; apply idx_lt). done.
    + rewrite list_lookup_insert_ne by (by intros ?%idx_inj). rewrite fn_lookup_insert_ne by done. apply Hn.
  - intros id1 id2 z1 z2 p (y1 & Hy1 & S1)%Hold (y2 & Hy2 & S2)%Hold H1 H2.
    apply (Hd id1 id2 y1 y2 p); [done|done| |].
    + by rewrite (in_zone_same _ _ _ S1) in H1.
    + by rewrite (in_zone_same _ _ _ S2) in H2.
Qed.

Lemma with_alloc_id z : with_alloc z (z_alloc z) = z.
Proof. by destruct z. Qed.

Lemma mgr_lookup lim mgr s G id :
  mgr_inv lim mgr s G → ∃ oz, mgr !! ZoneId.idx id = Some oz.
Proof. intros [Hlen _ _ _]. apply lookup_lt_is_Some_2. rewrite Hlen. apply idx_lt. Qed.

(** No zone has a block of this order left. *)
Definition exhausted (H : blocks) (order : nat) : Prop :=
  ¬ ∃ p o, (order ≤ o)%nat ∧ H !! p = Some (BuddyTag.Free, o).

Lemma mgr_alloc_spec lim mgr s G id order :
  mgr_inv lim mgr s G →
  wp (mgr_alloc_pages mgr s id order) (λ '(r, mgr', s'),
    match r with
    | None => mgr' = mgr ∧ s' = s ∧ exhausted (G id) order
    | Some head => frames_kept (free_at (G id)) s s' ∧ unlinked s' head ∧
        ∃ H', allocated (G id) head order H' ∧ mgr_inv lim mgr' s' (<[id:=H']> G)
    end).
Proof.
  intros Hm. destruct (mgr_lookup _ _ _ _ id Hm) as [oz Hoz]. unfold mgr_alloc_pages, zone_of.
  apply wp_bind. eapply wp_arr_get; [done|]. destruct oz as [z|].
  2:{ apply wp_ret. do 2 (split; [done|]). rewrite (mi_none _ _ _ _ Hm id Hoz).
      intros (p & o & _ & Hp). by rewrite lookup_empty in Hp. }
  pose proof (mi_zone _ _ _ _ Hm _ _ Hoz) as Hz. unfold zone_alloc.
  apply wp_bind, wp_bind. eapply wp_mono; [apply alloc_spec, Hz|]. intros [[r b'] s'] Hr.
  apply wp_ret. apply wp_bind, wp_arr_set; [by eapply lookup_lt_Some|]. apply wp_ret.
  destruct r as [head|].
  - destruct Hr as (Hsz & Hk & Hl & H' & Hinv & Ha). do 2 (split; [done|]).
    exists H'. split; [done|]. apply (mgr_inv_update lim mgr s G id z b'); [done..| |done].
    eapply frames_kept_mono; [|done]. intros q. destruct Hz as [_ _ _ ([L HR] & _) _].
    apply (free_in_zone (z_alloc z) s), HR.
  - destruct Hr as (-> & -> & Hno). split; [|done]. rewrite with_alloc_id. by apply list_insert_id.
Qed.

Lemma mgr_free_spec lim mgr s G id head o :
  lim ≤ u64_max → mgr_inv lim mgr s G → G id !! head = Some (BuddyTag.Allocated, o) →
  wp (mgr_free_pages mgr s head) (λ '(mgr', s'),
    frames_kept (λ q, free_at (G id) q ∨ in_block head o q) s s' ∧
    ∃ H', released (G id) head o H' ∧ mgr_inv lim mgr' s' (<[id:=H']> G)).
Proof.
  intros Hlim Hm Hh. destruct (mgr_lookup _ _ _ _ id Hm) as [oz Hoz]. destruct oz as [z|].
  2:{ by rewrite (mi_none _ _ _ _ Hm id Hoz), lookup_empty in Hh. }
  pose proof (mi_zone _ _ _ _ Hm _ _ Hoz) as [Ei [Eb Ep] Hl Hinv Hlb].
  pose proof Hinv as ([L HR] & _). pose proof (rep_blocks _ _ _ _ _ HR) as Hb.
  destruct (Hb _ _ _ Hh) as (_ & Hpl & _).
  pose proof (place_in_zone _ _ _ _ _ Hpl (in_block_head _ _)) as Hin.
  destruct (place_present _ _ _ _ Hpl) as (f & Hf & Hu).
  unfold mgr_free_pages. apply wp_bind. eapply wp_unwrap; [exact Hf|]. cbv zeta.
  rewrite (Hlb head Hin f Hf Hu), Hu.
  apply wp_bind, wp_assert; [done|]. apply wp_bind, wp_assert; [done|].
  unfold zone_of. apply wp_bind. eapply wp_arr_get; [done|]. unfold zone_free.
  unfold contains_pfn. unfold in_zone in Hin. rewrite (proj2 (Z.leb_le (z_base z) head)) by lia.
  apply wp_bind, wp_bind, wp_bind, wp_add64; [lia|]. apply wp_ret.
  apply wp_bind, wp_assert; [lia|].
  apply wp_bind. eapply wp_mono; [by apply (free_block_spec (z_alloc z) s (G id) head o)|].
  intros [b' s'] (Hsz & Hk & H' & Hinv' & Hr). apply wp_ret.
  apply wp_bind, wp_arr_set; [by eapply lookup_lt_Some|]. apply wp_ret.
  split; [done|]. exists H'. split; [done|].
  apply (mgr_inv_update lim mgr s G id z b'); [done..| |done].
  eapply frames_kept_mono; [|done]. intros q [Hq|Hq].
  - by apply (free_in_zone _ _ _ _ Hb).
  - by apply (place_in_zone _ _ _ _ _ Hpl).
Qed.

(** ** Counting the usable frames of a zone *)

#[global] Instance usable_dec (s : SparseMem) q : Decision (usable s q).
Proof.
  unfold usable. simpl. destruct (pfn_to_frame s q) as [f|].
  - destruct (decide (f_state f = FrameState.Usable)) as [H|H]; [left; eauto|right].
    intros (g & [= <-] & Hg). done.
  - right. by intros (g & ? & _).
Defined.

Definition usable_below (s : SparseMem) (d q : Z) : Prop := usable s q ∧ q < d.
#[global] Instance usable_below_dec s d q : Decision (usable_below s d q).
Proof. unfold usable_below. apply _. Defined.

Lemma count_run s d r base n :
  run_ok s d r → 0 ≤ n →
  let a := Z.max (run_start r) base in
  let c := Z.min (run_start r + run_len r) (base + n) in
  count (usable_below s (run_start r + run_len r)) base n =
  count (usable_below s d) base n + (if a <? c then c - a else 0).
Proof.
  intros [Hlen Hlo Hgap Hall _ _] Hn a c.
  assert (∀ q, d ≤ q < run_start r + run_len r → usable s q ↔ run_start r ≤ q) as Hu.
  { intros q Hq. split; [|intros ?; apply Hall; lia]. intros Hus.
    destruct (Z_lt_le_dec q (run_start r)); [by destruct (Hgap q); [lia|]|done]. }
  assert (∀ q, base ≤ q < base + n →
    usable_below s (run_start r + run_len r) q ↔ usable_below s d q ∨ a ≤ q < c) as Hiff.
  { intros q Hq. unfold usable_below. specialize (Hu q).
    destruct (Z_lt_le_dec q d); [|destruct (Z_lt_le_dec q (run_start r + run_len r))];
      [|rewrite Hu by lia|]; intuition lia. }
  destruct (Z.ltb_spec a c).
  - apply count_add_range; [lia|lia|lia|done|]. intros q [_ Hq]. lia.
  - rewrite Z.add_0_r. apply count_ext. intros q Hq. rewrite Hiff by done. intuition lia.
Qed.

Lemma usable_pages_spec z s :
  iterable s → 0 ≤ z_base z → 0 ≤ z_count z → z_base z + z_count z ≤ u64_max →
  wp (usable_pages z s) (λ n, n = count (usable s) (z_base z) (z_count z)).
Proof.
  intros Hit Hb Hc Hlim. unfold usable_pages. apply wp_bind, wp_add64; [done|].
  apply wp_bind. eapply wp_mono; [by apply all_runs_spec|]. intros l Hl.
  set (f := λ run acc, _). set (base := z_base z) in *. set (n := z_count z) in *.
  assert (∀ l d, 0 ≤ d → runs_from s d l →
    wp (for_each f l (count (usable_below s d) base n)) (λ k, k = count (usable s) base n)) as Hgo.
  { clear l Hl. intros l. induction l as [|r l IH]; intros d Hd Hl; simpl.
    - apply wp_ret. apply count_ext. intros q Hq. simpl in Hl. unfold usable_below.
      destruct (Z_lt_le_dec q d); [intuition|]. specialize (Hl q). intuition lia.
    - destruct Hl as [Hr Hl]. pose proof Hr as [Hlen Hlo _ _ _ Hhi].
      assert (limit s ≤ 2 ^ 40) by (pose proof (position_valid s Hit 0 _ (iter_new_inv s Hit)); lia).
      apply wp_bind. unfold f at 1, run_end. apply wp_bind, wp_add64; [unfold u64_max; lia|].
      pose proof (count_run s d r base n Hr Hc) as E. cbv zeta in E.
      pose proof (count_bound (usable_below s (run_start r + run_len r)) base n Hc) as Hbd.
      set (a := Z.max (run_start r) base) in *.
      set (c := Z.min (run_start r + run_len r) (base + n)) in *.
      apply wp_bind. apply (wp_mono _ (λ k, k = if a <? c then c - a else 0)).
      { destruct (Z.ltb_spec a c); [by apply wp_sub64; [lia|]|by apply wp_ret]. }
      intros k ->. rewrite E in Hbd. apply wp_add64; [unfold base, n in *; lia|]. rewrite <-E. apply IH; [lia|done]. }
  rewrite <-(count_none (usable_below s 0) base n); [by apply Hgo|].
  intros q Hq [_ ?]. lia.
Qed.

(** ** Booting the manager *)

Lemma zone_built_inv id lo hi s s' z lim :
  zone_built id lo hi s s' z → hi ≤ lim →
  ∃ H, zone_inv lim s' id z H ∧ no_allocated H ∧
    (∀ q, free_at H q ↔ lo ≤ q < hi ∧ usable s q) ∧
    (∀ q, in_zone (z_alloc z) q ↔ lo ≤ q < hi).
Proof.
  intros [Ei Eb Ec [Er1 Er2] _ [Hst Hout Hz] (H & Hi & Hn & Hf)] Hlim. exists H.
  assert (∀ q, in_zone (z_alloc z) q ↔ lo ≤ q < hi) as Hin by (intros q; unfold in_zone; lia).
  split; [split; [done|lia|lia|done|]|].
  - intros p Hp%Hin f Hf' Hu. apply (Hz p); [done|lia|done|done].
  - split; [done|]. setoid_rewrite Hin in Hf. split; [|done].
    intros q. rewrite Hf. intuition lia.
Qed.

(** Handing frames elsewhere does not disturb a zone. *)
Lemma zone_inv_handed lim s s' id id' lo hi z H :
  zone_inv lim s id z H → handed id' lo hi hi s s' →
  (∀ q, in_zone (z_alloc z) q → ¬ lo ≤ q < hi) → zone_inv lim s' id z H.
Proof.
  intros [Ei Er Hl Hi Hlb] [_ Hout _] Hdisj. split; try done.
  - eapply inv_ext; [|done]. intros p Hp. simpl. by rewrite Hout by auto.
  - intros p Hp f. rewrite Hout by auto. by apply Hlb.
Qed.

Lemma log_zones_spec lim mgr s G :
  iterable s → lim ≤ 2 ^ 40 → mgr_inv lim mgr s G → wp (log_zones_summary mgr s) (λ _, True).
Proof.
  intros Hit Hlim Hm. unfold log_zones_summary. apply (wp_for_each _ _ _ (λ _ _, True)); [done| |done].
  intros _ id _ [] _ _. destruct (mgr_lookup _ _ _ _ id Hm) as [oz Hoz]. unfold zone_of.
  apply wp_bind. eapply wp_arr_get; [done|]. destruct oz as [z|]; [|done].
  destruct (mi_zone _ _ _ _ Hm _ _ Hoz) as [_ [Eb Ep] Hl ([L HR] & _ & Hfp) _].
  destruct (rep_zone _ _ _ _ _ HR) as [Hb0 Hp0 _ _ _]. unfold zone_free_pages.
  pose proof (free_count_bound (z_alloc z) (G id) (rep_zone _ _ _ _ _ HR)) as Hfc.
  apply wp_bind. eapply wp_mono; [apply usable_pages_spec; [done|unfold u64_max; lia..]|].
  intros n ->. pose proof (count_bound (usable s) (z_base z) (z_count z) ltac:(lia)) as Hcb.
  apply wp_bind, wp_mul64; [unfold PAGE_SIZE, u64_max; lia|].
  apply wp_bind, wp_mul64; [unfold PAGE_SIZE, u64_max; lia|].
  apply wp_bind, wp_add64; [unfold u64_max; lia|]. by apply wp_ret.
Qed.

Definition booted (s : SparseMem) (mgr : ZonesManager) (s' : SparseMem) : Prop :=
  states_kept s s' ∧
  (∃ dma high, mgr = [Some dma; None; Some high] ∧
    z_base dma = 0 ∧ z_count dma = DMA_LIMIT_PFN ∧
    z_base high = DMA_LIMIT_PFN ∧ z_count high = max_present_pfn s - DMA_LIMIT_PFN) ∧
  ∃ G, mgr_inv (max_present_pfn s) mgr s' G ∧ (∀ id, no_allocated (G id)) ∧
    (∀ q, free_at (G ZoneId.Dma) q ↔ 0 ≤ q < DMA_LIMIT_PFN ∧ usable s q) ∧
    (∀ q, free_at (G ZoneId.High) q ↔ DMA_LIMIT_PFN ≤ q < max_present_pfn s ∧ usable s q) ∧
    G ZoneId.Normal = ∅.

Lemma two_zones_inv lim s dma high H1 H2 :
  zone_inv lim s ZoneId.Dma dma H1 → zone_inv lim s ZoneId.High high H2 →
  (∀ q, in_zone (z_alloc dma) q → ¬ in_zone (z_alloc high) q) →
  mgr_inv lim [Some dma; None; Some high] s
    (λ id, match id with ZoneId.Dma => H1 | ZoneId.Normal => ∅ | ZoneId.High => H2 end).
Proof.
  intros Hd Hh Hdisj. split.
  - done.
  - intros [] z; simpl; intros [= <-]; done.
  - intros []; simpl; naive_solver.
  - intros [] [] z z' p; simpl; intros [= <-] [= <-]; try done; intros ? ?; exfalso; by eapply Hdisj.
Qed.

Lemma init_zones_manager_spec s :
  iterable s → DMA_LIMIT_PFN ≤ max_present_pfn s ≤ 2 ^ 40 →
  wp (init_zones_manager s) (λ '(mgr, s'), booted s mgr s').
Proof.
  intros Hit Hmax. unfold init_zones_manager, DMA_LIMIT_PFN in *. set (mx := max_present_pfn s) in *.
  do 2 (apply wp_bind, wp_assert; [lia|]).
  apply wp_bind. eapply wp_mono; [apply (build_zone_spec ZoneId.Dma 0 4096 s); [done|lia..|apply Z.divide_0_r]|].
  intros [dma s1] Hz1. pose proof (hd_states _ _ _ _ _ _ (zb_handed _ _ _ _ _ _ Hz1)) as Hk1.
  apply wp_bind. eapply wp_mono.
  { apply (build_zone_spec ZoneId.High 4096 mx s1); [by apply (iterable_kept s)|lia..|]. by exists 2. }
  intros [high s2] Hz2. pose proof (hd_states _ _ _ _ _ _ (zb_handed _ _ _ _ _ _ Hz2)) as Hk2.
  destruct (zone_built_inv _ _ _ _ _ _ mx Hz1 ltac:(lia)) as (H1 & Hi1 & Hn1 & HF1 & Hr1).
  destruct (zone_built_inv _ _ _ _ _ _ mx Hz2 ltac:(lia)) as (H2 & Hi2 & Hn2 & HF2 & Hr2).
  assert (zone_inv mx s2 ZoneId.Dma dma H1) as Hi1'.
  { eapply zone_inv_handed; [done|apply Hz2|]. intros q Hq%Hr1. lia. }
  pose proof (two_zones_inv mx s2 dma high H1 H2 Hi1' Hi2) as Hm.
  unfold set_zone. rewrite (zb_id _ _ _ _ _ _ Hz1), (zb_id _ _ _ _ _ _ Hz2).
  apply wp_bind, (wp_intro _ [Some dma; None; None]); [done|].
  apply wp_bind, (wp_intro _ [Some dma; None; Some high]); [done|].
  assert (∀ q, in_zone (z_alloc dma) q → ¬ in_zone (z_alloc high) q) as Hdisj.
  { intros q. rewrite Hr1, Hr2. lia. }
  apply wp_bind. eapply wp_mono.
  { eapply (log_zones_spec mx); [|lia|by apply Hm]. apply (iterable_kept s1); [done|]. by apply (iterable_kept s). }
  intros _ _. apply wp_ret. split; [by etrans|]. split.
  { destruct Hz1, Hz2. exists dma, high. split_and!; done. }
  eexists. split; [by apply Hm|]. simpl. split_and!.
  - intros []; [done| |done]. intros p o. by rewrite lookup_empty.
  - done.
  - intros q. rewrite HF2, (states_usable s s1 q Hk1). done.
  - done.
Qed.

(** ** Properties *)

(** C22: booting the zone manager on a frame table never panics when memory
    reaches past the DMA limit; it yields disjoint zones whose allocators hold
    exactly the usable frames: those below 16 MiB in the DMA zone, the rest in
    the high zone.  Nothing is allocated, every usable frame carries its zone,
    and each zone reports as many free pages as it has usable frames. *)
Theorem zones_boot_correct s :
  iterable s → DMA_LIMIT_PFN ≤ max_present_pfn s ≤ 2 ^ 40 →
  wp (init_zones_manager s) (λ '(mgr, s'), booted s mgr s' ∧
    ∀ id z, mgr !! ZoneId.idx id = Some (Some z) →
      zone_free_pages z = count (usable s') (z_base z) (z_count z)).
Proof.
  intros Hit Hmax. eapply wp_mono; [by apply init_zones_manager_spec|].
  intros [mgr s'] Hb. split; [done|]. destruct Hb as (Hk & (dma & high & -> & Eb1 & Ec1 & Eb2 & Ec2) & G & Hm & _ & HFd & HFh & HN).
  intros id z Hz. destruct (mi_zone _ _ _ _ Hm _ _ Hz) as [_ [Eb Ep] Hl ([L HR] & _ & Hfp) _].
  pose proof (rep_blocks _ _ _ _ _ HR) as Hb. unfold zone_free_pages. rewrite Hfp. unfold free_count.
  rewrite Eb, Ep. apply count_ext. intros q Hq. split.
  - intros (p & o & Hp & Hpq)%free_at_spec. destruct (Hb _ _ _ Hp) as (_ & [_ _ _ _ Hu] & _). by apply Hu.
  - intros Hu%(states_usable s s' q Hk). destruct id; simpl in Hz; simplify_eq.
    + apply HFd. split; [lia|done].
    + apply HFh. split; [lia|done].
Qed.

(** The block of physical addresses of a block of frames. *)
Definition phys_of (pfn : Z) : Z := pfn * PAGE_SIZE.

Lemma shift_phys p : 0 ≤ p ≤ 2 ^ 40 → wrap64 (Z.shiftl p PAGE_SHIFT) = phys_of p.
Proof.
  intros Hp. unfold wrap64, phys_of, PAGE_SHIFT, PAGE_SIZE. rewrite Z.shiftl_mul_pow2 by lia.
  rewrite Z.mod_small; lia.
Qed.

Lemma allocated_place lim mgr s G id head o :
  mgr_inv lim mgr s G → G id !! head = Some (BuddyTag.Allocated, o) →
  0 ≤ head ∧ head + psize o ≤ lim ∧ (o ≤ MAX_ORDER)%nat ∧ (psize o | head) ∧
  ∀ q, in_block head o q → usable s q.
Proof.
  intros Hm Hh. destruct (mgr_lookup _ _ _ _ id Hm) as [[z|] Hoz].
  2:{ by rewrite (mi_none _ _ _ _ Hm id Hoz), lookup_empty in Hh. }
  destruct (mi_zone _ _ _ _ Hm _ _ Hoz) as [_ [Eb Ep] Hl ([L HR] & _ & _) _].
  destruct (rep_zone _ _ _ _ _ HR) as [Hb0 _ _ Hmo Hal].
  destruct (rep_blocks _ _ _ _ _ HR _ _ _ Hh) as (_ & [Ho Hlo Hhi Hdiv Hu] & _).
  split; [lia|]. split; [lia|]. split; [lia|]. split; [|done].
  replace head with ((head - base_pfn (z_alloc z)) + base_pfn (z_alloc z)) by lia.
  apply Z.divide_add_r; [done|]. transitivity (psize (max_order (z_alloc z))); [|done].
  by apply psize_divide.
Qed.

Lemma page_alloc_spec hhdm lim mgr s G mem order flags id :
  mgr_inv lim mgr s G → lim ≤ 2 ^ 40 → hhdm + lim * PAGE_SIZE ≤ u64_max →
  flags_to_zone flags = Ret id →
  wp (alloc_pages_by_order hhdm mgr s mem order flags) (λ '(r, mgr', s', mem'),
    match r with
    | None => mgr' = mgr ∧ s' = s ∧ mem' = mem ∧ exhausted (G id) order
    | Some phys => frames_kept (free_at (G id)) s s' ∧ (psize order * PAGE_SIZE | phys) ∧
        (∃ head H', phys = phys_of head ∧ allocated (G id) head order H' ∧ unlinked s' head ∧
           mgr_inv lim mgr' s' (<[id:=H']> G) ∧ ∀ q, in_block head order q → usable s' q) ∧
        ∀ a, mem' a = if decide (flags_contain flags PA_ZEROED = true ∧
                                 phys + hhdm ≤ a < phys + hhdm + psize order * PAGE_SIZE)
                      then 0 else mem a
    end).
Proof.
  intros Hm Hlim Hh Hfl. unfold alloc_pages_by_order. rewrite Hfl.
  apply wp_bind, wp_ret. apply wp_bind. eapply wp_mono; [by apply mgr_alloc_spec|].
  intros [[[head|] mgr'] s'] Hr; [|by apply wp_ret; destruct Hr as (-> & -> & ?)].
  destruct Hr as (Hk & Hl & H' & Ha & Hm').
  destruct (allocated_place lim mgr' s' _ id head order Hm') as (Hp0 & Hpl & Ho & Hdiv & Hu).
  { rewrite fn_lookup_insert. apply Ha. }
  pose proof (psize_pos order). pose proof (psize_max order Ho).
  rewrite shift_phys by lia. apply wp_bind.
  eapply (wp_mono _ (λ mem', ∀ a, mem' a = if decide (flags_contain flags PA_ZEROED = true ∧
      phys_of head + hhdm ≤ a < phys_of head + hhdm + psize order * PAGE_SIZE) then 0 else mem a)).
  - unfold phys_of, PAGE_SIZE in *. destruct (flags_contain flags PA_ZEROED).
    + apply wp_bind, wp_add64; [lia|]. apply wp_bind, wp_order_pages; [done|].
      apply wp_bind, wp_mul64; [unfold u64_max; lia|]. apply wp_ret. intros a. unfold zero_bytes.
      destruct (Z.leb_spec (head * 4096 + hhdm) a), (Z.ltb_spec a (head * 4096 + hhdm + psize order * 4096));
        simpl; case_decide; try done; lia.
    + apply wp_ret. intros a. by rewrite decide_False by naive_solver.
  - intros mem' Hmem. apply wp_ret. split; [done|]. split; [|split; [|done]].
    + by apply Z.mul_divide_mono_r.
    + exists head, H'. done.
Qed.

(** C28: allocating [2^order] pages never panics for well-formed flags.  It
    fails only when the zone holds no free block of that order or more, and
    then changes nothing.  Otherwise the address is aligned to the size of the
    block, the block consists of usable frames of the zone that were free and
    now belong to the caller alone, its bytes are zero when asked for, no
    other byte of memory is written, and no metadata of a frame that was not
    free. *)
Theorem page_alloc_correct hhdm lim mgr s G mem order flags id :
  mgr_inv lim mgr s G → lim ≤ 2 ^ 40 → hhdm + lim * PAGE_SIZE ≤ u64_max →
  flags_to_zone flags = Ret id →
  wp (alloc_pages_by_order hhdm mgr s mem order flags) (λ '(r, mgr', s', mem'),
    match r with
    | None => mgr' = mgr ∧ s' = s ∧ mem' = mem ∧ exhausted (G id) order
    | Some phys => frames_kept (free_at (G id)) s s' ∧ (psize order * PAGE_SIZE | phys) ∧
        (∃ head H', phys = phys_of head ∧ allocated (G id) head order H' ∧ unlinked s' head ∧
           mgr_inv lim mgr' s' (<[id:=H']> G) ∧ ∀ q, in_block head order q → usable s' q) ∧
        ∀ a, mem' a = if decide (flags_contain flags PA_ZEROED = true ∧
                                 phys + hhdm ≤ a < phys + hhdm + psize order * PAGE_SIZE)
                      then 0 else mem a
    end).
Proof. apply page_alloc_spec. Qed.

Lemma page_free_spec lim mgr s G id head o :
  mgr_inv lim mgr s G → lim ≤ 2 ^ 40 → G id !! head = Some (BuddyTag.Allocated, o) →
  wp (pa_free_pages mgr s (phys_of head)) (λ '(mgr', s'),
    frames_kept (λ q, free_at (G id) q ∨ in_block head o q) s s' ∧
    ∃ H', released (G id) head o H' ∧ mgr_inv lim mgr' s' (<[id:=H']> G)).
Proof.
  intros Hm Hlim Hh. unfold pa_free_pages, phys_of. apply wp_bind, wp_assert.
  { apply Z.eqb_eq, Z.mod_mul. done. }
  rewrite Z.shiftr_div_pow2 by done. change (2 ^ PAGE_SHIFT) with PAGE_SIZE. rewrite Z.div_mul by done.
  apply (mgr_free_spec lim mgr s G id head o); [unfold u64_max; lia|done|done].
Qed.

(** C29: releasing the address of an allocated block never panics, frees exactly
    its frames, keeps every other allocation of every zone and writes no
    metadata but that of the block and of frames that were free. *)
Theorem page_free_correct lim mgr s G id head o :
  mgr_inv lim mgr s G → lim ≤ 2 ^ 40 → G id !! head = Some (BuddyTag.Allocated, o) →
  wp (pa_free_pages mgr s (phys_of head)) (λ '(mgr', s'),
    frames_kept (λ q, free_at (G id) q ∨ in_block head o q) s s' ∧
    ∃ H', released (G id) head o H' ∧ mgr_inv lim mgr' s' (<[id:=H']> G)).
Proof. apply page_free_spec. Qed.

(** Releasing any other address panics: one that is not page aligned, or
    whose frame is not the first of an allocated block. *)
Theorem page_free_rejects lim mgr s G ptr :
  mgr_inv lim mgr s G → lim ≤ 2 ^ 40 → 0 ≤ ptr ≤ u64_max →
  (∀ id o head, ptr = phys_of head → G id !! head ≠ Some (BuddyTag.Allocated, o)) →
  ∃ e, pa_free_pages mgr s ptr = Panic e.
Proof.
  intros Hm Hlim Hp Hno. unfold pa_free_pages, assert. destruct (Z.eqb_spec (ptr mod PAGE_SIZE) 0) as [E|]; [|by eexists].
  simpl. rewrite Z.shiftr_div_pow2 by done. change (2 ^ PAGE_SHIFT) with PAGE_SIZE.
  set (head := ptr / PAGE_SIZE). assert (ptr = phys_of head) as Ehead.
  { unfold phys_of, head. pose proof (Z.div_mod ptr PAGE_SIZE ltac:(done)). unfold PAGE_SIZE in *. lia. }
  unfold mgr_free_pages. destruct (pfn_to_frame s head) as [f|] eqn:Hf; [|by eexists]. simpl.
  unfold assert.
  destruct (bool_decide (f_state f ≠ FrameState.Absent)); [|by eexists]. simpl.
  destruct (bool_decide (f_state f ≠ FrameState.Reserved)); [|by eexists]. simpl.
  unfold zone_of. destruct (mgr_lookup _ _ _ _ (f_zone f) Hm) as [oz Hoz].
  unfold arr_get. rewrite Hoz. simpl. destruct oz as [z|]; [|by eexists].
  destruct (mi_zone _ _ _ _ Hm _ _ Hoz) as [_ [Eb Ep] Hl Hi _]. pose proof Hi as ([L HR] & _).
  destruct (rep_zone _ _ _ _ _ HR) as [Hb0 Hp0 _ _ _].
  unfold zone_free, contains_pfn. destruct (Z.leb_spec (z_base z) head); [|by eexists]. simpl.
  unfold add64. rewrite (proj2 (Z.leb_le _ _)) by (unfold u64_max; lia). simpl.
  destruct (Z.ltb_spec head (z_base z + z_count z)); [|by eexists]. simpl.
  rewrite (free_unallocated (z_alloc z) s (G (f_zone f)) head f); [by eexists|done| |done|].
  - unfold in_zone. lia.
  - intros o. by apply Hno.
Qed.

(** ** A small machine *)

(** One section with the usable frames 4200 .. 4207. *)
Definition small_machine : SparseMem :=
  mk_sparse 4096
    [mk_section (list_to_map ((λ p, (p, set_state FrameState.Usable frame_absent)) <$> seqZ 4200 8)) true]
    0 4208.

Lemma small_machine_iterable : iterable small_machine.
Proof.
  split; [unfold section_count; simpl; lia..|].
  intros sec Hs%sec_present_lt. unfold section_count in Hs. simpl in *. lia.
Qed.

Lemma small_machine_max : DMA_LIMIT_PFN ≤ max_present_pfn small_machine ≤ 2 ^ 40.
Proof. unfold DMA_LIMIT_PFN. simpl. lia. Qed.

Lemma small_machine_usable : usable small_machine 4200.
Proof.
  exists (set_state FrameState.Usable frame_absent). split; [|reflexivity].
  change (pfn_to_frame small_machine 4200 = Some (set_state FrameState.Usable frame_absent)).
  vm_compute. reflexivity.
Qed.

Lemma zones_boot_correct_witness :
  wp (init_zones_manager small_machine) (λ '(mgr, s'), booted small_machine mgr s').
Proof.
  eapply wp_mono; [apply (zones_boot_correct small_machine small_machine_iterable small_machine_max)|].
  intros [mgr s'] [H _]. exact H.
Defined.

Lemma small_machine_booted :
  ∃ mgr s' G, init_zones_manager small_machine = Ret (mgr, s') ∧ mgr_inv 4208 mgr s' G ∧
    ¬ exhausted (G ZoneId.High) 0.
Proof.
  destruct (wp_elim _ _ (init_zones_manager_spec small_machine small_machine_iterable small_machine_max))
    as ([mgr s'] & E & _ & _ & G & Hm & _ & _ & HF & _).
  exists mgr, s', G. split; [done|]. split; [done|]. intros Hno. apply Hno.
  assert (free_at (G ZoneId.High) 4200) as (p & o & Hp & _)%free_at_spec; [|exists p, o; split; [lia|done]].
  apply HF. split; [unfold DMA_LIMIT_PFN; simpl; lia|].
  apply small_machine_usable.
Qed.

Lemma page_alloc_correct_witness :
  ∃ mgr s, init_zones_manager small_machine = Ret (mgr, s) ∧
    wp (alloc_pages_by_order 0xFFFF800000000000 mgr s (λ _, 7) 0 SAFE_KERNEL_PAGES)
       (λ '(r, _, _, mem'), ∃ phys, r = Some phys ∧ (4096 | phys) ∧
          mem' (phys + 0xFFFF800000000000) = 0).
Proof.
  destruct small_machine_booted as (mgr & s & G & E & Hm & Hne). exists mgr, s. split; [exact E|].
  pose proof (page_alloc_correct 0xFFFF800000000000 4208 mgr s G (λ _, 7) 0 SAFE_KERNEL_PAGES ZoneId.High
    Hm ltac:(lia) ltac:(unfold PAGE_SIZE, u64_max; lia) eq_refl) as Hw.
  eapply wp_mono; [exact Hw|]. intros [[[[phys|] mgr'] s'] mem'] Hr.
  - destruct Hr as (_ & Hdiv & _ & Hmem). exists phys. split; [done|]. split; [done|].
    rewrite Hmem, decide_True; [done|]. split; [done|]. unfold PAGE_SIZE, psize. simpl. lia.
  - destruct Hr as (_ & _ & _ & Hex). by destruct Hne.
Defined.

Lemma small_machine_allocated :
  ∃ mgr s G head, mgr_inv 4208 mgr s G ∧ G ZoneId.High !! head = Some (BuddyTag.Allocated, 0%nat) ∧
    ∀ o, G ZoneId.Dma !! 0 ≠ Some (BuddyTag.Allocated, o).
Proof.
  destruct (wp_elim _ _ (init_zones_manager_spec small_machine small_machine_iterable small_machine_max))
    as ([mgr0 s0] & E0 & _ & _ & G0 & Hm0 & Hna & _ & HF & _).
  destruct (wp_elim _ _ (mgr_alloc_spec _ mgr0 s0 G0 ZoneId.High 0 Hm0)) as ([[[head|] mgr] s] & _ & Hr).
  - destruct Hr as (_ & _ & H' & Ha & Hm). exists mgr, s, (<[ZoneId.High:=H']> G0), head.
    split; [done|]. split; [rewrite fn_lookup_insert; apply Ha|].
    intros o. rewrite fn_lookup_insert_ne by done. apply Hna.
  - exfalso. destruct Hr as (_ & _ & Hex). apply Hex.
    assert (free_at (G0 ZoneId.High) 4200) as (p & o & Hp & _)%free_at_spec; [|exists p, o; split; [lia|done]].
    apply HF. split; [unfold DMA_LIMIT_PFN; simpl; lia|].
    apply small_machine_usable.
Qed.

Lemma page_free_correct_witness :
  ∃ mgr s head, wp (pa_free_pages mgr s (phys_of head)) (λ '(mgr', s'), states_kept s s').
Proof.
  destruct small_machine_allocated as (mgr & s & G & head & Hm & Hh & _). exists mgr, s, head.
  eapply wp_mono; [apply (page_free_correct 4208 mgr s G ZoneId.High head 0 Hm ltac:(lia) Hh)|].
  intros [mgr' s'] [H _]. by eapply frames_states.
Defined.

Lemma page_free_rejects_witness :
  ∃ mgr s, mgr !! ZoneId.idx ZoneId.High ≠ None ∧ ∃ e, pa_free_pages mgr s 4097 = Panic e.
Proof.
  destruct small_machine_allocated as (mgr & s & G & head & Hm & _ & _). exists mgr, s. split.
  - destruct (mgr_lookup _ _ _ _ ZoneId.High Hm) as [oz ->]. done.
  - apply (page_free_rejects 4208 mgr s G 4097 Hm ltac:(lia) ltac:(unfold u64_max; lia)).
    intros id o h Hp. unfold phys_of, PAGE_SIZE in Hp. lia.
Defined.
