(* ===== verification/Paging.v ===== *)
(** * Page tables

    Models kernel/src/arch/amd64/memory/vmm/mod.rs.  The kernel manipulates
    page tables through the x86_64 crate, which is not part of the repository:
    [X86_64] is the interface the kernel uses and [X86_64Laws] the documented
    behaviour it relies on.  Likewise the page allocator is seen through
    [PageSource]; the zone manager implements it (ZonesSource.v). *)
From stdpp Require Export strings.
From S2P Require Import Prelude Misc Memblock Frame Sparsemem Zones.

(** ** The page allocator as its clients see it

    [page_alloc m order flags] is [alloc_pages_by_order] and [page_free] is
    [free_pages]; [M] is the allocator's state. *)
Class PageSource (M : Type) := {
  page_alloc : M → nat → Z → outcome (M * option Z);
  page_free : M → Z → outcome M
}.

Definition block_bytes (o : nat) : Z := PAGE_SIZE * 2 ^ Z.of_nat o.

(** [pages_out m B]: the blocks handed out and not yet returned are [B], from
    physical address to order. *)
Class PageSourceLaws (M : Type) `{PageSource M} := {
  pages_out : M → gmap Z nat → Prop;
  pages_out_aligned m B p o :
    pages_out m B → B !! p = Some o → 0 ≤ p ∧ p mod PAGE_SIZE = 0 ∧ p + block_bytes o ≤ 2 ^ 52;
  pages_out_disjoint m B p o p' o' :
    pages_out m B → B !! p = Some o → B !! p' = Some o' → p ≠ p' →
    p + block_bytes o ≤ p' ∨ p' + block_bytes o' ≤ p;
  page_alloc_law m B o :
    pages_out m B →
    wp (page_alloc m o SAFE_KERNEL_PAGES) (λ '(m', r),
      match r with
      | Some p => B !! p = None ∧ pages_out m' (<[p:=o]> B)
      | None => pages_out m' B
      end);
  page_free_law m B p o :
    pages_out m B → B !! p = Some o → wp (page_free m p) (λ m', pages_out m' (delete p B))
}.

(** ** The x86_64 crate *)

Inductive MapToError :=
  | FrameAllocationFailed
  | ParentEntryHugePage
  | PageAlreadyMapped (frame : Z).

Module UnmapError.
Inductive t := ParentEntryHugePage | PageNotMapped | InvalidFrameAddress (addr : Z).
End UnmapError.

(** Bits of [PageTableFlags]. *)
Record PageBits := {
  b_present : Z;
  b_writable : Z;
  b_user : Z;
  b_no_cache : Z;
  b_no_execute : Z
}.

(** Addresses are integers.  [page_containing] is [Page::containing_address]
    and [PhysFrame::containing_address], by start address; [map_to] draws the
    frames of intermediate tables from the allocator it is given. *)
Class X86_64 (PT : Type) := {
  virt_new : Z → outcome Z;
  phys_new : Z → outcome Z;
  virt_add : Z → Z → outcome Z;
  is_aligned : Z → Z → bool;
  page_containing : Z → Z;
  page_bits : PageBits;
  map_to : ∀ {M}, (M → outcome (M * option Z)) → PT → M → Z → Z → Z →
    outcome (PT * M * result MapToError ());
  unmap : PT → Z → PT * result UnmapError.t Z;
  level_4_table : PT → Z
}.

Definition canonical (a : Z) : Prop := 0 ≤ a < 2 ^ 47 ∨ 2 ^ 64 - 2 ^ 47 ≤ a < 2 ^ 64.
#[global] Instance canonical_dec a : Decision (canonical a).
Proof. unfold canonical. apply _. Defined.

Definition bit (i : Z) : Z := 2 ^ i.

(** States reachable by calling a frame allocator. *)
Inductive drawn {M} (allocate_frame : M → outcome (M * option Z)) : M → list Z → M → Prop :=
  | drawn_nil m : drawn allocate_frame m [] m
  | drawn_none m m' m'' l :
      allocate_frame m = Ret (m', None) → drawn allocate_frame m' l m'' →
      drawn allocate_frame m l m''
  | drawn_some m m' m'' f l :
      allocate_frame m = Ret (m', Some f) → drawn allocate_frame m' l m'' →
      drawn allocate_frame m (f :: l) m''.

(** The same when every call gives a frame. *)
Inductive got {M} (allocate_frame : M → outcome (M * option Z)) : M → list Z → M → Prop :=
  | got_nil m : got allocate_frame m [] m
  | got_cons m m' m'' f l :
      allocate_frame m = Ret (m', Some f) → got allocate_frame m' l m'' → got allocate_frame m (f :: l) m''.

(** [translate pt page] is the 4 KiB mapping of a page: its frame and flags;
    [huge pt page]: an entry above the page is a huge page.  Mapping a page
    needs at most three frames, and fails for one of the documented reasons. *)
Class X86_64Laws (PT : Type) `{X86_64 PT} := {
  translate : PT → Z → option (Z * Z);
  huge : PT → Z → Prop;
  virt_new_law a : virt_new a = if bool_decide (canonical a) then Ret a else Panic PExplicit;
  phys_new_law a : phys_new a = if bool_decide (0 ≤ a < 2 ^ 52) then Ret a else Panic PExplicit;
  virt_add_law a n : virt_add a n = if bool_decide (canonical (a + n)) then Ret (a + n) else Panic PExplicit;
  is_aligned_law a : is_aligned a PAGE_SIZE = (a mod PAGE_SIZE =? 0);
  page_containing_law a : page_containing a = a - a mod PAGE_SIZE;
  page_bits_law : NoDup [b_present page_bits; b_writable page_bits; b_user page_bits;
                         b_no_cache page_bits; b_no_execute page_bits] ∧
    Forall (λ i, 0 ≤ i < 64) [b_present page_bits; b_writable page_bits; b_user page_bits;
                              b_no_cache page_bits; b_no_execute page_bits];
  map_to_law {M} (allocate_frame : M → outcome (M * option Z)) pt m page frame flags :
    (∀ l m', drawn allocate_frame m l m' → wp (allocate_frame m') (λ _, True)) →
    Z.testbit flags (b_present page_bits) = true →
    wp (map_to allocate_frame pt m page frame flags) (λ '(pt', m', r),
      level_4_table pt' = level_4_table pt ∧ (∀ p, huge pt' p ↔ huge pt p) ∧
      match r with
      | Ok _ => (∃ l, got allocate_frame m l m' ∧ (length l ≤ 3)%nat) ∧ translate pt page = None ∧
          ∀ p, translate pt' p = if decide (p = page) then Some (frame, flags) else translate pt p
      | Err e => (∀ p, translate pt' p = translate pt p) ∧
          (∀ f fl, translate pt page = Some (f, fl) → e = PageAlreadyMapped f) ∧
          match e with
          | FrameAllocationFailed => ∃ l m1, got allocate_frame m l m1 ∧ (length l ≤ 2)%nat ∧ allocate_frame m1 = Ret (m', None)
          | ParentEntryHugePage => (∃ l, got allocate_frame m l m' ∧ (length l ≤ 3)%nat) ∧ huge pt page
          | PageAlreadyMapped f => (∃ l, got allocate_frame m l m' ∧ (length l ≤ 3)%nat) ∧ ∃ fl, translate pt page = Some (f, fl)
          end
      end);
  unmap_law pt page pt' r :
    unmap pt page = (pt', r) →
    level_4_table pt' = level_4_table pt ∧
    match translate pt page with
    | Some (f, _) => r = Ok f ∧
        ∀ p, translate pt' p = if decide (p = page) then None else translate pt p
    | None => (∃ e, r = Err e) ∧ ∀ p, translate pt' p = translate pt p
    end
}.

(** ** The kernel's operations on page tables *)

Section vmm.
Context {PT M : Type} `{!X86_64 PT} `{!PageSource M}.

(** [KernelFrameAllocator::allocate_frame]. *)
Definition allocate_frame (m : M) : outcome (M * option Z) :=
  '(m, r) ← page_alloc m 0 SAFE_KERNEL_PAGES;
  match r with
  | None => Ret (m, None)
  | Some phys => _ ← assert (is_aligned phys PAGE_SIZE); Ret (m, Some phys)
  end.

Definition map_error_str (e : MapToError) : string :=
  match e with
  | FrameAllocationFailed => "map: frame allocation failed"
  | ParentEntryHugePage => "map: parent entry is a huge page"
  | PageAlreadyMapped _ => "map: page already mapped"
  end.

Definition unmap_error_str (e : UnmapError.t) : string :=
  match e with
  | UnmapError.ParentEntryHugePage => "unmap: parent entry is a huge page"
  | UnmapError.PageNotMapped => "unmap: page not mapped"
  | UnmapError.InvalidFrameAddress _ => "unmap: invalid frame address"
  end.

Definition map_single_page (pt : PT) (m : M) (virt phys flags : Z)
    : outcome (PT * M * result string ()) :=
  let page := page_containing virt in
  let frame := page_containing phys in
  '(pt, m, r) ← map_to allocate_frame pt m page frame flags;
  match r with
  | Ok _ => Ret (pt, m, Ok ())
  | Err e => Ret (pt, m, Err (map_error_str e))
  end.

Definition map_mmio_page_inner (pt : PT) (m : M) (virt phys flags : Z)
    : outcome (PT * M * result string ()) :=
  let page := page_containing virt in
  let frame := page_containing phys in
  '(pt, m, r) ← map_to allocate_frame pt m page frame flags;
  Ret (pt, m, match r with
              | Ok _ => Ok ()
              | Err (PageAlreadyMapped existing) =>
                  if existing =? frame then Ok ()
                  else Err "map_mmio_page: VA already mapped to different PA"
              | Err ParentEntryHugePage => Ok ()
              | Err FrameAllocationFailed => Err "map_mmio_page: OOM for intermediate page table"
              end).

Definition unmap_single_page (pt : PT) (virt : Z) : PT * result string Z :=
  let page := page_containing virt in
  let '(pt, r) := unmap pt page in
  match r with
  | Ok frame => (pt, Ok frame)
  | Err e => (pt, Err (unmap_error_str e))
  end.

(** [expect] on a [Result]. *)
Definition expect {E A} (r : result E A) : outcome A :=
  match r with Ok a => Ret a | Err _ => Panic PUnwrap end.

Definition kmap_page (pt : PT) (m : M) (virt phys flags : Z) : outcome (PT * M) :=
  '(pt, m, r) ← map_single_page pt m virt phys flags;
  _ ← expect r;
  Ret (pt, m).

Definition kmap_mmio_page (pt : PT) (m : M) (virt phys flags : Z) : outcome (PT * M) :=
  '(pt, m, r) ← map_mmio_page_inner pt m virt phys flags;
  _ ← expect r;
  Ret (pt, m).

Definition kunmap_page (pt : PT) (virt : Z) : outcome PT :=
  let '(pt, r) := unmap_single_page pt virt in
  _ ← expect r;
  Ret pt.

Definition flags_of (l : list Z) : Z := foldr (λ b f, Z.lor (bit b) f) 0 l.

Definition MMIO_FLAGS : Z :=
  flags_of [b_present page_bits; b_writable page_bits; b_no_cache page_bits; b_no_execute page_bits].

Definition map_mmio_region (pt : PT) (m : M) (phys size : Z) : outcome (PT * M * Z) :=
  let phys_start := Z.land phys (not64 (PAGE_SIZE - 1)) in
  offset ← sub64 phys phys_start;
  len ← add64 offset size;
  let pages := (len + PAGE_SIZE - 1) / PAGE_SIZE in
  virt_base ← virt_new 0xFFFFFF8000000000;
  '(pt, m) ← for_range 0 (Z.to_nat pages) (λ i '(pt, m),
    off ← mul64 (Z.of_nat i) PAGE_SIZE;
    va ← virt_add virt_base off;
    a ← add64 phys_start off;
    pa ← phys_new a;
    '(pt, m, r) ← map_mmio_page_inner pt m va pa MMIO_FLAGS;
    _ ← expect r;
    Ret (pt, m)) (pt, m);
  v ← virt_add virt_base offset;
  Ret (pt, m, v).

(** The virtual region is the list of its pages' addresses. *)
Definition map_region (pt : PT) (m : M) (region physical_region : list Z) (flags : Z)
    : outcome (PT * M * result string ()) :=
  if (length physical_region <? length region)%nat
  then Ret (pt, m, Err "map_region: physical_region shorter than virtual_region")
  else
    r ← for_each_ret (λ '(i, page) '(pt, m),
      pa ← arr_get physical_region i;
      let frame := page_containing pa in
      '(pt, m, r) ← map_to allocate_frame pt m page frame flags;
      match r with
      | Ok _ => Ret (inl (pt, m))
      | Err e => Ret (inr (pt, m, map_error_str e))
      end) (imap pair region) (pt, m);
    match r with
    | inl (pt, m) => Ret (pt, m, Ok ())
    | inr (pt, m, e) => Ret (pt, m, Err e)
    end.

Definition unmap_region (pt : PT) (region : list Z) : outcome (PT * result string (list Z)) :=
  r ← for_each_ret (λ page '(pt, frames),
    let '(pt, r) := unmap pt page in
    match r with
    | Ok frame => Ret (inl (pt, frames ++ [frame]))
    | Err e => Ret (inr (pt, unmap_error_str e))
    end) region (pt, []);
  match r with
  | inl (pt, frames) => Ret (pt, Ok frames)
  | inr (pt, e) => Ret (pt, Err e)
  end.
End vmm.

(** ** What the operations do, from the interfaces' laws *)

Section specs.
Context {PT M : Type} `{!X86_64 PT} `{!X86_64Laws PT} `{!PageSource M} `{!PageSourceLaws M}.

Definition page_of (a : Z) : Z := a - a mod PAGE_SIZE.

Lemma page_of_aligned a : a mod PAGE_SIZE = 0 → page_of a = a.
Proof. unfold page_of. lia. Qed.

Lemma page_of_mod a : page_of a mod PAGE_SIZE = 0.
Proof.
  unfold page_of, PAGE_SIZE. pose proof (Z.div_mod a 4096 ltac:(lia)).
  replace (a - a mod 4096) with (a / 4096 * 4096) by lia. apply Z.mod_mul. lia.
Qed.

(** Frames drawn for page tables are new blocks; nothing handed out before
    changes. *)
Lemma allocate_frame_spec m B :
  pages_out m B →
  wp (allocate_frame m) (λ '(m', r),
    match r with
    | Some p => B !! p = None ∧ pages_out m' (<[p:=0%nat]> B)
    | None => pages_out m' B
    end).
Proof.
  intros HB. unfold allocate_frame. apply wp_bind. eapply wp_mono; [by apply page_alloc_law|].
  intros [m' [p|]] Hr; [|by apply wp_ret]. apply wp_bind, wp_assert; [|by apply wp_ret].
  rewrite is_aligned_law. destruct Hr as [_ Hr].
  destruct (pages_out_aligned _ _ p 0%nat Hr) as (_ & E & _); [apply lookup_insert_eq|]. lia.
Qed.

Lemma drawn_out m l m' B :
  drawn allocate_frame m l m' → pages_out m B → ∃ B', B ⊆ B' ∧ pages_out m' B'.
Proof.
  intros Hd. revert B. induction Hd as [m|m m1 m2 l E _ IH|m m1 m2 f l E _ IH]; intros B HB.
  - eauto.
  - pose proof (wp_inv _ _ _ E (allocate_frame_spec m B HB)) as Hr. simpl in Hr. by apply IH.
  - pose proof (wp_inv _ _ _ E (allocate_frame_spec m B HB)) as Hr. simpl in Hr. destruct Hr as [Hn Hr].
    destruct (IH _ Hr) as (B' & Hsub & HB'). exists B'. split; [|done].
    etransitivity; [|done]. by apply insert_subseteq.
Qed.

Lemma got_drawn {A} (f : A → outcome (A * option Z)) m l m' : got f m l m' → drawn f m l m'.
Proof. induction 1; [constructor|by econstructor]. Qed.

Lemma got_none {A} (f : A → outcome (A * option Z)) m l m1 m' : got f m l m1 → f m1 = Ret (m', None) → drawn f m l m'.
Proof.
  induction 1 as [m|m m2 m3 a l E _ IH]; intros Hn.
  - by eapply drawn_none; [exact Hn|constructor].
  - eapply drawn_some; [exact E|]. by apply IH.
Qed.

(** [room n m]: the next [n] requests of [m], of at most four pages each, are
    served. *)
Record budget (room : nat → M → Prop) : Prop := {
  bu_alloc n m o m' r :
    room (S n) m → (o ≤ 2)%nat → page_alloc m o SAFE_KERNEL_PAGES = Ret (m', r) → is_Some r ∧ room n m';
  bu_less n m : room (S n) m → room n m
}.

(** The budget that is always used up. *)
Lemma no_budget : budget (λ _ _, False).
Proof. by split. Qed.

Lemma budget_less room k n m : budget room → room (k + n)%nat m → room n m.
Proof. intros Hb. induction k as [|k IH]; [done|]. intros H. by apply IH, (bu_less _ Hb). Qed.

Lemma got_room room n m l m' :
  budget room → got allocate_frame m l m' → room (length l + n)%nat m → room n m'.
Proof.
  intros Hb. induction 1 as [m|m m1 m2 f l E _ IH]; [done|]. cbn [length Nat.add]. intros Hr. apply IH.
  unfold allocate_frame in E. destruct (page_alloc m 0 SAFE_KERNEL_PAGES) as [[m3 r]| |] eqn:Ea; [|done..]. cbn [mbind outcome_bind] in E.
  destruct (bu_alloc _ Hb _ _ 0 _ _ Hr ltac:(lia) Ea) as [[x ->] Hr']. destruct (assert _); [|done..]. by injection E as <- _.
Qed.

(** What a change of the page table may leave of the allocator's state. *)
Definition grown (B : gmap Z nat) (m : M) : Prop := ∃ B', B ⊆ B' ∧ pages_out m B'.

Lemma grown_refl m B : pages_out m B → grown B m.
Proof. intros HB. exists B. done. Qed.

Lemma grown_trans B B' m : B ⊆ B' → grown B' m → grown B m.
Proof. intros HB (B'' & HB' & Hm). exists B''. split; [by etransitivity|done]. Qed.

Definition mapped_at (pt pt' : PT) (page frame flags : Z) : Prop :=
  ∀ p, translate pt' p = if decide (p = page) then Some (frame, flags) else translate pt p.
Definition unmapped_at (pt pt' : PT) (page : Z) : Prop :=
  ∀ p, translate pt' p = if decide (p = page) then None else translate pt p.
Definition same_mappings (pt pt' : PT) : Prop := ∀ p, translate pt' p = translate pt p.

(** Mapping a page draws at most three frames; it fails for lack of them, or
    because the page is mapped, by itself or by a huge page. *)
Definition map_uses (room : nat → M → Prop) pt m page m' {E} (r : result E ()) : Prop :=
  match r with
  | Ok _ => ∀ n, room (3 + n)%nat m → room n m'
  | Err _ => ¬ room 3%nat m ∨ huge pt page ∨ is_Some (translate pt page)
  end.

Lemma map_to_room room pt m B page frame flags :
  budget room → pages_out m B → Z.testbit flags (b_present page_bits) = true →
  wp (map_to allocate_frame pt m page frame flags) (λ '(pt', m', r),
    grown B m' ∧ level_4_table pt' = level_4_table pt ∧ (∀ p, huge pt' p ↔ huge pt p) ∧ map_uses room pt m page m' r ∧
    match r with
    | Ok _ => translate pt page = None ∧ mapped_at pt pt' page frame flags
    | Err e => same_mappings pt pt' ∧ (∀ f fl, translate pt page = Some (f, fl) → e = PageAlreadyMapped f)
    end).
Proof.
  intros Hb HB Hp. eapply wp_mono; [apply map_to_law; [|done]|].
  { intros l m' Hd. destruct (drawn_out _ _ _ _ Hd HB) as (B' & _ & HB'). by eapply wp_mono; [apply (allocate_frame_spec m' B')|]. }
  intros [[pt' m'] [[]|e]] (Hroot & Hh & Hr).
  - destruct Hr as ((l & Hg & Hl) & Hr). split; [by eapply drawn_out, HB; apply got_drawn|]. do 2 (split; [done|]). split; [|done].
    intros n Hn. apply (got_room room n m l m' Hb Hg), (budget_less room (3 - length l)); [done|].
    by replace (3 - length l + (length l + n))%nat with (3 + n)%nat by lia.
  - destruct Hr as (Hs & Hm & He).
    assert (∃ l, drawn allocate_frame m l m') as [l Hd].
    { destruct e; [destruct He as (l & m1 & Hg & _ & En)|destruct He as ((l & Hg & _) & _)..]; exists l;
        [by eapply got_none|by apply got_drawn..]. }
    split; [by eapply drawn_out|]. do 2 (split; [done|]). split; [|done]. destruct e as [| |f].
    + left. destruct He as (l' & m1 & Hg & Hl & En). intros Hr.
      assert (room 1%nat m1) as H1.
      { apply (got_room room 1 m l' m1 Hb Hg), (budget_less room (2 - length l')); [done|].
        by replace (2 - length l' + (length l' + 1))%nat with 3%nat by lia. }
      unfold allocate_frame in En. destruct (page_alloc m1 0 SAFE_KERNEL_PAGES) as [[m3 r]| |] eqn:Ea; [|done..]. cbn [mbind outcome_bind] in En.
      destruct (bu_alloc _ Hb _ _ 0 _ _ H1 ltac:(lia) Ea) as [[x ->] _]. by destruct (assert _).
    + right. left. apply He.
    + right. right. destruct He as (_ & fl & ->). by eexists.
Qed.

Lemma map_to_spec pt m B page frame flags :
  pages_out m B → Z.testbit flags (b_present page_bits) = true →
  wp (map_to allocate_frame pt m page frame flags) (λ '(pt', m', r),
    grown B m' ∧ level_4_table pt' = level_4_table pt ∧
    match r with
    | Ok _ => translate pt page = None ∧ mapped_at pt pt' page frame flags
    | Err e => same_mappings pt pt' ∧ (∀ f fl, translate pt page = Some (f, fl) → e = PageAlreadyMapped f)
    end).
Proof.
  intros HB Hp. eapply wp_mono; [by apply (map_to_room _ pt m B page frame flags no_budget)|].
  by intros [[pt' m'] r] (? & ? & _ & _ & ?).
Qed.

Lemma map_single_page_room room pt m B virt phys flags :
  budget room → pages_out m B → Z.testbit flags (b_present page_bits) = true →
  wp (map_single_page pt m virt phys flags) (λ '(pt', m', r),
    grown B m' ∧ level_4_table pt' = level_4_table pt ∧ (∀ p, huge pt' p ↔ huge pt p) ∧ map_uses room pt m (page_of virt) m' r ∧
    match r with
    | Ok _ => translate pt (page_of virt) = None ∧ mapped_at pt pt' (page_of virt) (page_of phys) flags
    | Err _ => same_mappings pt pt'
    end).
Proof.
  intros Hb HB Hp. unfold map_single_page. rewrite !page_containing_law. fold (page_of virt) (page_of phys).
  apply wp_bind. eapply wp_mono; [by apply (map_to_room room)|].
  intros [[pt' m'] [u|e]] (? & ? & ? & ? & Hr); apply wp_ret; [done|]. by destruct Hr.
Qed.

Lemma map_single_page_spec pt m B virt phys flags :
  pages_out m B → Z.testbit flags (b_present page_bits) = true →
  wp (map_single_page pt m virt phys flags) (λ '(pt', m', r),
    grown B m' ∧ level_4_table pt' = level_4_table pt ∧
    match r with
    | Ok _ => translate pt (page_of virt) = None ∧ mapped_at pt pt' (page_of virt) (page_of phys) flags
    | Err _ => same_mappings pt pt'
    end).
Proof.
  intros HB Hp. eapply wp_mono; [by apply (map_single_page_room _ pt m B virt phys flags no_budget)|].
  by intros [[pt' m'] r] (? & ? & _ & _ & ?).
Qed.

Lemma unmap_single_page_spec pt virt pt' r :
  unmap_single_page pt virt = (pt', r) →
  level_4_table pt' = level_4_table pt ∧
  match translate pt (page_of virt) with
  | Some (f, _) => r = Ok f ∧ unmapped_at pt pt' (page_of virt)
  | None => (∃ e, r = Err e) ∧ same_mappings pt pt'
  end.
Proof.
  unfold unmap_single_page. rewrite page_containing_law. fold (page_of virt).
  destruct (unmap pt (page_of virt)) as [pt1 r1] eqn:E. apply unmap_law in E as [Hroot E].
  destruct (translate pt (page_of virt)) as [[f fl]|].
  - destruct E as [-> E]. intros [= <- <-]. done.
  - destruct E as [[e ->] E]. intros [= <- <-]. split; [done|]. split; [|done]. eauto.
Qed.

(** [MMIO_FLAGS] and the like contain exactly the bits listed. *)
Lemma testbit_flags_of l i : 0 ≤ i → Forall (λ b, 0 ≤ b) l → Z.testbit (flags_of l) i = bool_decide (i ∈ l).
Proof.
  intros Hi. induction 1 as [|b l Hb _ IH]; simpl.
  - apply Z.bits_0.
  - rewrite Z.lor_spec, IH. unfold bit. rewrite Z.pow2_bits_eqb by done.
    destruct (Z.eqb_spec b i) as [->|Hne]; simpl.
    + symmetry. apply bool_decide_eq_true. by left.
    + apply bool_decide_ext. rewrite elem_of_cons. naive_solver.
Qed.
End specs.
