(* ===== verification/PagingRef.v ===== *)
(** * A reference page table

    A concrete instance of the x86_64 interface, a finite map from pages to
    frames and flags, at which the theorems about page tables are applied. *)
From S2P Require Import Prelude Misc Memblock Frame Sparsemem Zones Paging.
#[local] Open Scope Z_scope.

Record ref_pt := mk_ref {
  ref_root : Z;
  ref_map : gmap Z (Z * Z)
}.

Definition ref_virt (a : Z) : outcome Z := if bool_decide (canonical a) then Ret a else Panic PExplicit.
Definition ref_phys (a : Z) : outcome Z := if bool_decide (0 ≤ a < 2 ^ 52) then Ret a else Panic PExplicit.

Definition ref_map_to {M} (allocate_frame : M → outcome (M * option Z)) (pt : ref_pt) (m : M)
    (page frame flags : Z) : outcome (ref_pt * M * result MapToError ()) :=
  match ref_map pt !! page with
  | Some (f, _) => Ret (pt, m, Err (PageAlreadyMapped f))
  | None => Ret (mk_ref (ref_root pt) (<[page:=(frame, flags)]> (ref_map pt)), m, Ok ())
  end.

Definition ref_unmap (pt : ref_pt) (page : Z) : ref_pt * result UnmapError.t Z :=
  match ref_map pt !! page with
  | Some (f, _) => (mk_ref (ref_root pt) (delete page (ref_map pt)), Ok f)
  | None => (pt, Err UnmapError.PageNotMapped)
  end.

#[global] Instance ref_x86 : X86_64 ref_pt := {|
  virt_new := ref_virt;
  phys_new := ref_phys;
  virt_add a n := ref_virt (a + n);
  is_aligned a n := a mod n =? 0;
  page_containing a := a - a mod PAGE_SIZE;
  page_bits := {| b_present := 0; b_writable := 1; b_user := 2; b_no_cache := 4; b_no_execute := 63 |};
  map_to M := ref_map_to;
  unmap := ref_unmap;
  level_4_table := ref_root
|}.

Lemma ref_map_to_law {M} (allocate_frame : M → outcome (M * option Z)) pt m page frame flags :
  (∀ l m', drawn allocate_frame m l m' → wp (allocate_frame m') (λ _, True)) →
  Z.testbit flags (b_present page_bits) = true →
  wp (map_to allocate_frame pt m page frame flags) (λ '(pt', m', r),
    level_4_table pt' = level_4_table pt ∧ (Z → False ↔ False) ∧
    match r with
    | Ok _ => (∃ l, got allocate_frame m l m' ∧ (length l ≤ 3)%nat) ∧ ref_map pt !! page = None ∧
        ∀ p, ref_map pt' !! p = if decide (p = page) then Some (frame, flags) else ref_map pt !! p
    | Err e => (∀ p, ref_map pt' !! p = ref_map pt !! p) ∧
        (∀ f fl, ref_map pt !! page = Some (f, fl) → e = PageAlreadyMapped f) ∧
        match e with
        | FrameAllocationFailed => ∃ l m1, got allocate_frame m l m1 ∧ (length l ≤ 2)%nat ∧ allocate_frame m1 = Ret (m', None)
        | ParentEntryHugePage => (∃ l, got allocate_frame m l m' ∧ (length l ≤ 3)%nat) ∧ False
        | PageAlreadyMapped f => (∃ l, got allocate_frame m l m' ∧ (length l ≤ 3)%nat) ∧ ∃ fl, ref_map pt !! page = Some (f, fl)
        end
    end).
Proof.
  intros _ _. simpl. unfold ref_map_to. destruct (ref_map pt !! page) as [[f fl]|] eqn:E; apply wp_ret; (split; [done|]; split; [done|]).
  - split; [done|]. split; [by intros ? ? [= <- <-]|]. split; [exists []; split; [constructor|simpl; lia]|]. by exists fl.
  - split; [exists []; split; [constructor|simpl; lia]|]. split; [done|]. intros p. simpl.
    case_decide as Ep; [subst; apply lookup_insert_eq|]. by rewrite lookup_insert_ne.
Qed.

Lemma ref_unmap_law pt page pt' r :
  unmap pt page = (pt', r) →
  level_4_table pt' = level_4_table pt ∧
  match ref_map pt !! page with
  | Some (f, _) => r = Ok f ∧ ∀ p, ref_map pt' !! p = if decide (p = page) then None else ref_map pt !! p
  | None => (∃ e, r = Err e) ∧ ∀ p, ref_map pt' !! p = ref_map pt !! p
  end.
Proof.
  simpl. unfold ref_unmap. destruct (ref_map pt !! page) as [[f fl]|]; intros [= <- <-]; simpl.
  - split; [done|]. split; [done|]. intros p. case_decide as Ep; [subst; apply lookup_delete_eq|].
    by rewrite lookup_delete_ne.
  - split; [done|]. eauto.
Qed.

#[global] Instance ref_x86_laws : X86_64Laws ref_pt.
Proof.
  refine {| translate pt p := ref_map pt !! p; huge _ _ := False |}.
  - done.
  - done.
  - done.
  - done.
  - done.
  - split; [repeat (constructor; [set_solver by lia|]); constructor|].
    repeat (constructor; [simpl; lia|]). constructor.
  - intros M. apply ref_map_to_law.
  - apply ref_unmap_law.
Defined.
