(* ===== verification/ZonesSource.v ===== *)
(** * The zone manager as the kernel's page source

    The interface [PageSource] of Paging.v is implemented by
    [alloc_pages_by_order] and [free_pages]; its laws follow from the zone
    manager's theorems.  The clients of the interface (page tables, address
    spaces, stacks) are therefore verified on top of the real allocator. *)
From stdpp Require Import functions.
From S2P Require Import Prelude Misc Memblock Frame Bump Sparsemem SparsememSpec SparsememInit PfnIter.
From S2P Require Import Buddy BuddyLists BuddyBlocks BuddySpec BuddyTheorems Zones ZonesSpec ZonesManager Paging.
#[local] Open Scope Z_scope.

Record zmem := mk_zmem {
  zm_hhdm : Z;
  zm_mgr : ZonesManager;
  zm_sm : SparseMem;
  zm_mem : Z → Z
}.

#[global] Instance zones_source : PageSource zmem := {
  page_alloc m order flags :=
    '(r, mgr, sm, mem) ← alloc_pages_by_order (zm_hhdm m) (zm_mgr m) (zm_sm m) (zm_mem m) order flags;
    Ret (mk_zmem (zm_hhdm m) mgr sm mem, r);
  page_free m p :=
    '(mgr, sm) ← pa_free_pages (zm_mgr m) (zm_sm m) p;
    Ret (mk_zmem (zm_hhdm m) mgr sm (zm_mem m))
}.

(** The blocks handed out, as physical addresses. *)
Definition blocks_out (G : ZoneId.t → blocks) (B : gmap Z nat) : Prop :=
  ∀ p o, B !! p = Some o ↔ ∃ id head, p = phys_of head ∧ G id !! head = Some (BuddyTag.Allocated, o).

Definition zones_out (m : zmem) (B : gmap Z nat) : Prop :=
  ∃ lim G, mgr_inv lim (zm_mgr m) (zm_sm m) G ∧ lim ≤ 2 ^ 40 ∧ 0 ≤ zm_hhdm m ∧
    zm_hhdm m + lim * PAGE_SIZE ≤ u64_max ∧ blocks_out G B.

Lemma phys_of_inj p q : phys_of p = phys_of q → p = q.
Proof. unfold phys_of, PAGE_SIZE. lia. Qed.

Lemma block_bytes_psize o : block_bytes o = psize o * PAGE_SIZE.
Proof. unfold block_bytes, psize. lia. Qed.

Lemma allocated_zone lim mgr s G id head o :
  mgr_inv lim mgr s G → G id !! head = Some (BuddyTag.Allocated, o) →
  ∃ z, mgr !! ZoneId.idx id = Some (Some z) ∧ zone_blocks (z_alloc z) s (G id) ∧
    ∀ q, in_block head o q → in_zone (z_alloc z) q.
Proof.
  intros Hm Hh. destruct (mgr_lookup _ _ _ _ id Hm) as [[z|] Hoz].
  2:{ by rewrite (mi_none _ _ _ _ Hm id Hoz), lookup_empty in Hh. }
  destruct (mi_zone _ _ _ _ Hm _ _ Hoz) as [_ _ _ ([L HR] & _ & _) _].
  pose proof (rep_blocks _ _ _ _ _ HR) as Hb. exists z. split; [done|]. split; [done|].
  intros q Hq. destruct (Hb _ _ _ Hh) as (_ & Hpl & _). exact (place_in_zone _ _ _ _ _ Hpl Hq).
Qed.

(** Two allocated blocks that share a frame are the same, in any zones. *)
Lemma allocated_unique lim mgr s G id head o id' head' o' q :
  mgr_inv lim mgr s G → G id !! head = Some (BuddyTag.Allocated, o) →
  G id' !! head' = Some (BuddyTag.Allocated, o') →
  in_block head o q → in_block head' o' q → id = id' ∧ head = head'.
Proof.
  intros Hm Hh Hh' Hq Hq'.
  destruct (allocated_zone _ _ _ _ _ _ _ Hm Hh) as (z & Hz & Hb & Hin).
  destruct (allocated_zone _ _ _ _ _ _ _ Hm Hh') as (z' & Hz' & Hb' & Hin').
  assert (id = id') as <- by (apply (mi_disj _ _ _ _ Hm id id' z z' q); auto).
  split; [done|]. by eapply (blocks_disjoint _ _ _ _ (G id)).
Qed.

(** A block that was free was not handed out, in any zone. *)
Lemma free_not_out lim mgr s G id head order H' id' o :
  mgr_inv lim mgr s G → allocated (G id) head order H' →
  G id' !! head ≠ Some (BuddyTag.Allocated, o).
Proof.
  intros Hm Ha Hh. pose proof (al_was_free _ _ _ _ Ha head (in_block_head _ _)) as Hf.
  apply free_at_spec in Hf as (p & o' & Hp & Hq).
  destruct (mgr_lookup _ _ _ _ id Hm) as [[z|] Hoz].
  2:{ by rewrite (mi_none _ _ _ _ Hm id Hoz), lookup_empty in Hp. }
  destruct (mi_zone _ _ _ _ Hm _ _ Hoz) as [_ _ _ ([L HR] & _ & _) _].
  pose proof (rep_blocks _ _ _ _ _ HR) as Hb. destruct (Hb _ _ _ Hp) as (_ & Hpl & _).
  destruct (allocated_zone _ _ _ _ _ _ _ Hm Hh) as (z' & Hz' & _ & Hin').
  assert (id = id') as <-.
  { apply (mi_disj _ _ _ _ Hm id id' z z' head); [done|done|exact (place_in_zone _ _ _ _ _ Hpl Hq)|].
    apply Hin', in_block_head. }
  pose proof (blocks_disjoint _ _ _ _ (G id) p _ _ head _ _ head Hb Hp Hh Hq (in_block_head _ _)) as ->.
  congruence.
Qed.

Lemma blocks_out_alloc G B id head o H' :
  blocks_out G B → allocated (G id) head o H' →
  (∀ id' o', G id' !! head ≠ Some (BuddyTag.Allocated, o')) →
  blocks_out (<[id:=H']> G) (<[phys_of head:=o]> B).
Proof.
  intros HB Ha Hnew p o'. rewrite lookup_insert_Some, (HB p o'). split.
  - intros [[<- <-]|(Hne & id' & h & -> & Hh)].
    + exists id, head. split; [done|]. rewrite fn_lookup_insert. apply Ha.
    + exists id', h. split; [done|]. destruct (decide (id = id')) as [<-|Hid].
      * rewrite fn_lookup_insert. apply (al_others _ _ _ _ Ha); [|done]. congruence.
      * by rewrite fn_lookup_insert_ne.
  - intros (id' & h & -> & Hh). destruct (decide (id = id')) as [<-|Hid].
    + rewrite fn_lookup_insert in Hh. destruct (decide (h = head)) as [->|Hne].
      * left. rewrite (al_block _ _ _ _ Ha) in Hh. by simplify_eq.
      * right. split; [by intros ?%phys_of_inj|]. exists id, h. split; [done|].
        by apply (al_others _ _ _ _ Ha).
    + rewrite fn_lookup_insert_ne in Hh by done. right. split; [|eauto].
      intros ->%phys_of_inj. by apply Hnew in Hh.
Qed.

Lemma blocks_out_free lim mgr s G B id head o H' :
  mgr_inv lim mgr s G → G id !! head = Some (BuddyTag.Allocated, o) →
  blocks_out G B → released (G id) head o H' →
  blocks_out (<[id:=H']> G) (delete (phys_of head) B).
Proof.
  intros Hm Hh HB Hr p o'. rewrite lookup_delete_Some, (HB p o'). split.
  - intros (Hne & id' & h & -> & Hh'). exists id', h. split; [done|].
    destruct (decide (id = id')) as [<-|Hid].
    + rewrite fn_lookup_insert. apply (rl_others _ _ _ _ Hr). split; [congruence|done].
    + by rewrite fn_lookup_insert_ne.
  - intros (id' & h & -> & Hh'). destruct (decide (id = id')) as [<-|Hid].
    + rewrite fn_lookup_insert in Hh'. apply (rl_others _ _ _ _ Hr) in Hh' as [Hne Hh'].
      split; [by intros ?%phys_of_inj|]. eauto.
    + rewrite fn_lookup_insert_ne in Hh' by done. split; [|eauto]. intros <-%phys_of_inj.
      destruct (allocated_unique _ _ _ _ _ _ _ _ _ _ head Hm Hh Hh' (in_block_head _ _) (in_block_head _ _)).
      done.
Qed.

Lemma zones_out_aligned m B p o :
  zones_out m B → B !! p = Some o → 0 ≤ p ∧ p mod PAGE_SIZE = 0 ∧ p + block_bytes o ≤ 2 ^ 52.
Proof.
  intros (lim & G & Hm & Hlim & _ & _ & HB) Hp. apply HB in Hp as (id & head & -> & Hh).
  destruct (allocated_place _ _ _ _ _ _ _ Hm Hh) as (H0 & Hle & _ & _).
  rewrite block_bytes_psize. unfold phys_of, PAGE_SIZE. split; [lia|]. split; [apply Z.mod_mul; lia|lia].
Qed.

Lemma zones_out_disjoint m B p o p' o' :
  zones_out m B → B !! p = Some o → B !! p' = Some o' → p ≠ p' →
  p + block_bytes o ≤ p' ∨ p' + block_bytes o' ≤ p.
Proof.
  intros (lim & G & Hm & Hlim & _ & _ & HB) Hp Hp' Hne.
  apply HB in Hp as (id & head & -> & Hh). apply HB in Hp' as (id' & head' & -> & Hh').
  rewrite !block_bytes_psize. unfold phys_of, PAGE_SIZE in *.
  destruct (decide (head + psize o ≤ head')); [left; lia|].
  destruct (decide (head' + psize o' ≤ head)); [right; lia|]. exfalso.
  destruct (allocated_unique _ _ _ _ _ _ _ _ _ _ (Z.max head head') Hm Hh Hh') as [_ ->]; [| |done].
  all: unfold in_block; pose proof (psize_pos o); pose proof (psize_pos o'); lia.
Qed.

Lemma zones_alloc_law m B o :
  zones_out m B →
  wp (page_alloc m o SAFE_KERNEL_PAGES) (λ '(m', r),
    match r with
    | Some p => B !! p = None ∧ zones_out m' (<[p:=o]> B)
    | None => zones_out m' B
    end).
Proof.
  intros (lim & G & Hm & Hlim & Hh0 & Hh & HB). simpl. apply wp_bind.
  eapply wp_mono; [by apply (page_alloc_spec _ lim _ _ G _ _ _ ZoneId.High)|].
  intros [[[[p|] mgr'] s'] mem'] Hr; apply wp_ret.
  - destruct Hr as (_ & _ & (head & H' & -> & Ha & _ & Hm' & _) & _).
    assert (∀ id' o', G id' !! head ≠ Some (BuddyTag.Allocated, o')) as Hnew.
    { intros id' o'. by eapply free_not_out. }
    split.
    + destruct (B !! phys_of head) as [o'|] eqn:E; [|done]. exfalso.
      apply HB in E as (id' & h & E%phys_of_inj & Hh'). subst h. by apply Hnew in Hh'.
    + exists lim, (<[ZoneId.High:=H']> G). do 4 (split; [done|]). by apply blocks_out_alloc.
  - destruct Hr as (-> & -> & -> & _). exists lim, G. done.
Qed.

Lemma zones_free_law m B p o :
  zones_out m B → B !! p = Some o → wp (page_free m p) (λ m', zones_out m' (delete p B)).
Proof.
  intros (lim & G & Hm & Hlim & Hh0 & Hh & HB) Hp.
  pose proof Hp as (id & head & -> & Hhead)%HB. simpl. apply wp_bind.
  eapply wp_mono; [by apply (page_free_spec lim _ _ G id head o)|].
  intros [mgr' s'] (_ & H' & Hr & Hm'). apply wp_ret. exists lim, (<[id:=H']> G).
  do 4 (split; [done|]). by eapply blocks_out_free.
Qed.

#[global] Instance zones_source_laws : PageSourceLaws zmem := {|
  pages_out := zones_out;
  pages_out_aligned := zones_out_aligned;
  pages_out_disjoint := zones_out_disjoint;
  page_alloc_law := zones_alloc_law;
  page_free_law := zones_free_law
|}.

(** After boot nothing has been handed out. *)
Lemma zones_boot_out hhdm s mem :
  iterable s → DMA_LIMIT_PFN ≤ max_present_pfn s ≤ 2 ^ 40 →
  0 ≤ hhdm → hhdm + max_present_pfn s * PAGE_SIZE ≤ u64_max →
  wp (init_zones_manager s) (λ '(mgr, s'), pages_out (mk_zmem hhdm mgr s' mem) ∅).
Proof.
  intros Hit Hmax Hh0 Hh. eapply wp_mono; [by apply init_zones_manager_spec|].
  intros [mgr s'] (_ & _ & G & Hm & Hna & _). exists (max_present_pfn s), G.
  split; [done|]. split; [lia|]. split; [done|]. split; [done|]. intros p o. split; [done|].
  intros (id & head & _ & Hh'). by apply Hna in Hh'.
Qed.

(** The sample machine after handing out one page. *)
Lemma small_machine_page :
  ∃ (m : zmem) (root : Z), pages_out m {[root := 0%nat]} ∧ zm_hhdm m = 0xFFFF800000000000.
Proof.
  destruct (wp_elim _ _ (init_zones_manager_spec small_machine small_machine_iterable small_machine_max))
    as ([mgr0 s0] & E0 & _ & _ & G0 & Hm0 & Hna & _ & HF & _).
  destruct (wp_elim _ _ (mgr_alloc_spec _ mgr0 s0 G0 ZoneId.High 0 Hm0)) as ([[[head|] mgr] s] & _ & Hr).
  - destruct Hr as (_ & _ & H' & Ha & Hm). exists (mk_zmem 0xFFFF800000000000 mgr s (λ _, 0)), (phys_of head).
    split; [|reflexivity]. exists 4208, (<[ZoneId.High:=H']> G0). cbn [zm_hhdm zm_mgr zm_sm].
    split; [exact Hm|]. split; [lia|]. split; [lia|]. split; [unfold PAGE_SIZE, u64_max; lia|].
    rewrite <-insert_empty. apply (blocks_out_alloc G0 ∅); [|exact Ha|intros id' o'; apply Hna].
    intros p o. split; [discriminate|]. intros (id & h & _ & Hh). destruct (Hna id h o Hh).
  - exfalso. destruct Hr as (_ & _ & Hex). apply Hex.
    assert (free_at (G0 ZoneId.High) 4200) as (p & o & Hp & _)%free_at_spec; [|exists p, o; split; [lia|done]].
    apply HF. split; [unfold DMA_LIMIT_PFN; simpl; lia|]. apply small_machine_usable.
Qed.
