(* ===== verification/ByteMem.v ===== *)
(** * Memory as bytes

    Mapped memory is a function from virtual addresses to bytes.  [load] and
    [store] are little-endian accesses of [n] bytes, the raw-pointer reads and
    writes of the kernel; [fill] and [copy_bytes] are [ptr::write_bytes] and
    [ptr::copy_nonoverlapping]. *)
From S2P Require Import Prelude.

Fixpoint load (n : nat) (mem : Z → Z) (a : Z) : Z :=
  match n with
  | O => 0
  | S n => mem a + 256 * load n mem (a + 1)
  end.

Definition store (n : nat) (a v : Z) (mem : Z → Z) : Z → Z :=
  λ x, if (a <=? x) && (x <? a + Z.of_nat n) then (v / 256 ^ (x - a)) mod 256 else mem x.

Definition fill (a n v : Z) (mem : Z → Z) : Z → Z :=
  λ x, if (a <=? x) && (x <? a + n) then v else mem x.

Definition copy_bytes (src dst n : Z) (mem : Z → Z) : Z → Z :=
  λ x, if (dst <=? x) && (x <? dst + n) then mem (src + (x - dst)) else mem x.

(** [range a n x]: the address [x] is one of the [n] bytes from [a]. *)
Definition range (a n x : Z) : Prop := a ≤ x < a + n.
#[global] Instance range_dec a n x : Decision (range a n x).
Proof. unfold range. apply _. Defined.

(** The two ranges share no address. *)
Definition apart (a n b k : Z) : Prop := a + n ≤ b ∨ b + k ≤ a.

Lemma in_range_b a n x : (a <=? x) && (x <? a + n) = bool_decide (range a n x).
Proof.
  apply eq_bool_prop_intro. rewrite bool_decide_spec. unfold range.
  destruct (Z.leb_spec a x), (Z.ltb_spec x (a + n)); simpl; lia.
Qed.

Lemma store_at n a v mem x :
  store n a v mem x =
    if decide (range a (Z.of_nat n) x) then (v / 256 ^ (x - a)) mod 256 else mem x.
Proof. unfold store. rewrite in_range_b. by case_decide; case_bool_decide. Qed.

Lemma fill_at a n v mem x : fill a n v mem x = if decide (range a n x) then v else mem x.
Proof. unfold fill. rewrite in_range_b. by case_decide; case_bool_decide. Qed.

Lemma copy_bytes_at src dst n mem x :
  copy_bytes src dst n mem x = if decide (range dst n x) then mem (src + (x - dst)) else mem x.
Proof. unfold copy_bytes. rewrite in_range_b. by case_decide; case_bool_decide. Qed.

Lemma store_ne n a v mem x : ¬ range a (Z.of_nat n) x → store n a v mem x = mem x.
Proof. intros Hx. by rewrite store_at, decide_False. Qed.

Lemma load_ext n mem mem' a :
  (∀ x, range a (Z.of_nat n) x → mem' x = mem x) → load n mem' a = load n mem a.
Proof.
  revert a. induction n as [|n IH]; intros a Hm; [done|]. cbn [load].
  rewrite Hm by (unfold range; lia). rewrite IH; [done|]. intros x Hx. apply Hm.
  unfold range in *. lia.
Qed.

Lemma load_store_ne n k mem a b v :
  apart a (Z.of_nat n) b (Z.of_nat k) → load n (store k b v mem) a = load n mem a.
Proof.
  intros Ha. apply load_ext. intros x Hx. apply store_ne. unfold apart, range in *. lia.
Qed.

Lemma load_store_part n k mem a v i :
  0 ≤ i → i + Z.of_nat n ≤ Z.of_nat k →
  load n (store k a v mem) (a + i) = (v / 256 ^ i) mod 256 ^ Z.of_nat n.
Proof.
  revert i. induction n as [|n IH]; intros i Hi Hk; cbn [load].
  { by rewrite Z.mod_1_r. }
  rewrite store_at, decide_True by (unfold range; lia).
  replace (a + i - a) with i by lia. rewrite <-Z.add_assoc, IH by lia.
  replace (Z.of_nat (S n)) with (1 + Z.of_nat n) by lia.
  rewrite !Z.pow_add_r by lia. change (256 ^ 1) with 256.
  rewrite (Z.rem_mul_r (v / 256 ^ i) 256) by lia.
  rewrite Z.div_div by lia. done.
Qed.

Lemma load_store_eq n mem a v :
  0 ≤ v < 256 ^ Z.of_nat n → load n (store n a v mem) a = v.
Proof.
  intros Hv. rewrite <-(Z.add_0_r a) at 2. rewrite load_store_part by lia.
  rewrite Z.div_1_r. by apply Z.mod_small.
Qed.

Lemma apart_sym a n b k : apart a n b k → apart b k a n.
Proof. unfold apart. lia. Qed.
