(* ===== verification/Console.v ===== *)
(** * The console

    Models kernel/src/framebuffer/mod.rs and kernel/src/early_print/fb_printer.rs:
    pixels of the linear framebuffer, PC screen fonts and the scrolling text
    renderer.  Video memory is part of the byte memory.  The specification is a
    terminal, a grid of characters with a cursor: what is printed shows on the
    screen as the terminal's grid, pixel by pixel, and nothing outside the
    framebuffer changes. *)
From S2P Require Import Prelude ByteMem.

(** ** [Framebuffer] *)

Record Framebuffer := mk_framebuffer {
  buff_ptr : Z;
  fb_width : Z;
  fb_height : Z;
  fb_pitch : Z;
  fg_color : Z;
  bg_color : Z;
  fb_bpp : Z
}.

Definition framebuffer_init (framebuffer width height pitch bpp : Z) : Framebuffer :=
  mk_framebuffer framebuffer width height pitch 0xFFFFFF 0x000000 bpp.

Definition set_color (fb : Framebuffer) (fg bg : Z) : Framebuffer :=
  mk_framebuffer (buff_ptr fb) (fb_width fb) (fb_height fb) (fb_pitch fb) fg bg (fb_bpp fb).

(** Writing through a [*mut u32] that is not aligned panics in this profile. *)
Definition draw_pixel (fb : Framebuffer) (x y color : Z) (mem : Z → Z) : outcome (Z → Z) :=
  if (fb_width fb <=? x) || (fb_height fb <=? y) then Ret mem
  else
    l ← mul64 y (fb_pitch fb);
    c ← mul64 x (fb_bpp fb / 8);
    offset ← add64 l c;
    let pixel := buff_ptr fb + offset in
    assert (pixel mod 4 =? 0) ;;
    Ret (store 4 pixel color mem).

Definition clear (fb : Framebuffer) (mem : Z → Z) : outcome (Z → Z) :=
  n ← mul64 (fb_pitch fb) (fb_height fb);
  Ret (fill (buff_ptr fb) n 0 mem).

(** [ptr::copy] allows the ranges to overlap: it reads before it writes. *)
Definition scroll (fb : Framebuffer) (pixels : Z) (mem : Z → Z) : outcome (Z → Z) :=
  line_bytes ← mul64 (fb_pitch fb) pixels;
  total_bytes ← mul64 (fb_pitch fb) (fb_height fb);
  if fb_height fb <=? pixels then Ret mem
  else
    let src := buff_ptr fb + line_bytes in
    let dst := buff_ptr fb in
    size ← sub64 total_bytes line_bytes;
    let mem := copy_bytes src dst size mem in
    clear_start ← sub64 total_bytes line_bytes;
    Ret (fill (buff_ptr fb + clear_start) line_bytes 0 mem).

(** ** Fonts *)

Definition flen (data : list Z) : Z := Z.of_nat (length data).

(** The bytes of a font as memory, for the headers read through a pointer. *)
Definition byte_at (data : list Z) (i : Z) : Z := default 0 (data !! Z.to_nat i).

Definition PSF2_MAGIC : list Z := [0x72; 0xb5; 0x4a; 0x86].
Definition PSF1_MAGIC : list Z := [0x36; 0x04].

Definition is_psf2 (data : list Z) : bool := (32 <=? flen data) && bool_decide (take 4 data = PSF2_MAGIC).
Definition is_psf1 (data : list Z) : bool := (4 <=? flen data) && bool_decide (take 2 data = PSF1_MAGIC).

(** [PSF2Header] and [PSF1Header], packed. *)
Definition psf2_headersize (data : list Z) : Z := load 4 (byte_at data) 8.
Definition psf2_bytesperglyph (data : list Z) : Z := load 4 (byte_at data) 20.
Definition psf2_height (data : list Z) : Z := load 4 (byte_at data) 24.
Definition psf2_width (data : list Z) : Z := load 4 (byte_at data) 28.
Definition psf1_charsize (data : list Z) : Z := byte_at data 3.

Definition parse_psf (data : list Z) : Z * Z * Z :=
  if is_psf2 data then (psf2_width data, psf2_height data, psf2_bytesperglyph data)
  else if is_psf1 data then (8, psf1_charsize data, psf1_charsize data)
  else (8, 16, 16).

(** ** [ScrollingFbTextRenderer] *)

Record Renderer := mk_renderer {
  r_x : Z;
  r_y : Z;
  font_data : list Z;
  char_width : Z;
  char_height : Z;
  bytes_per_glyph : Z
}.

Definition set_pos (r : Renderer) (x y : Z) : Renderer :=
  mk_renderer x y (font_data r) (char_width r) (char_height r) (bytes_per_glyph r).

Definition renderer_init (data : list Z) : Renderer :=
  let '(char_width, char_height, bytes_per_glyph) := parse_psf data in
  mk_renderer 0 0 data char_width char_height bytes_per_glyph.

Definition header_size (r : Renderer) : Z :=
  if is_psf2 (font_data r) then psf2_headersize (font_data r) else 4.

(** Integer division panics when the divisor is zero. *)
Definition div64 (x y : Z) : outcome Z := if y =? 0 then Panic PExplicit else Ret (x / y).

Definition get_glyph_offset (r : Renderer) (ch : Z) : outcome Z :=
  n ← sub64 (flen (font_data r)) (header_size r);
  max_glyphs ← div64 n (bytes_per_glyph r);
  let glyph_idx := if ch <? max_glyphs then ch else 0 in
  o ← mul64 glyph_idx (bytes_per_glyph r);
  add64 (header_size r) o.

(** [&data[a..b]]. *)
Definition font_slice (data : list Z) (a b : Z) : outcome (list Z) :=
  if (a <=? b) && (b <=? flen data) then Ret (take (Z.to_nat (b - a)) (drop (Z.to_nat a) data)) else Panic PBounds.

(** One pixel of [draw_char]. *)
Definition draw_dot (r : Renderer) (fb : Framebuffer) (glyph_data : list Z) (x y row line_offset col : Z)
    (mem : Z → Z) : outcome (Z → Z) :=
  byte_idx ← add64 line_offset (col / 8);
  bit_idx ← sub64 7 (col mod 8);
  if byte_idx <? flen glyph_data then
    b ← arr_get glyph_data (Z.to_nat byte_idx);
    let bit := Z.land (Z.shiftr b bit_idx) 1 in
    let color := if bit =? 1 then 0xFFFFFF else 0x000000 in
    px ← add64 x col;
    py ← add64 y row;
    draw_pixel fb px py color mem
  else Ret mem.

Definition draw_char (r : Renderer) (fb : Framebuffer) (ch x y : Z) (mem : Z → Z) : outcome (Z → Z) :=
  glyph_offset ← get_glyph_offset r ch;
  glyph_end ← add64 glyph_offset (bytes_per_glyph r);
  glyph_data ← font_slice (font_data r) glyph_offset glyph_end;
  w ← add64 (char_width r) 7;
  let bytes_per_line := w / 8 in
  for_each (λ row mem,
    line_offset ← mul64 row bytes_per_line;
    for_each (λ col mem, draw_dot r fb glyph_data x y row line_offset col mem) (seqZ 0 (char_width r)) mem)
    (seqZ 0 (char_height r)) mem.

Definition newline (r : Renderer) (fb : Framebuffer) (mem : Z → Z) : outcome (Renderer * (Z → Z)) :=
  y ← add64 (r_y r) (char_height r);
  let r := set_pos r 0 y in
  e ← add64 y (char_height r);
  if fb_height fb <? e then
    mem ← scroll fb (char_height r) mem;
    y ← sub64 y (char_height r);
    Ret (set_pos r 0 y, mem)
  else Ret (r, mem).

Definition write_char (fb : Framebuffer) (ch : Z) (s : Renderer * (Z → Z)) : outcome (Renderer * (Z → Z)) :=
  let '(r, mem) := s in
  if ch =? 10 then newline r fb mem
  else if ch =? 13 then Ret (set_pos r 0 (r_y r), mem)
  else if ch =? 9 then
    tab_width ← mul64 (char_width r) 4;
    t ← add64 (r_x r) tab_width;
    q ← div64 t tab_width;
    x ← mul64 q tab_width;
    let r := set_pos r x (r_y r) in
    if fb_width fb <=? x then newline r fb mem else Ret (r, mem)
  else
    e ← add64 (r_x r) (char_width r);
    '(r, mem) ← (if fb_width fb <? e then newline r fb mem else Ret (r, mem));
    mem ← draw_char r fb ch (r_x r) (r_y r) mem;
    x ← add64 (r_x r) (char_width r);
    Ret (set_pos r x (r_y r), mem).

(** The characters of [s.chars()] are code points. *)
Definition write_str (fb : Framebuffer) (s : list Z) (st : Renderer * (Z → Z)) : outcome (Renderer * (Z → Z)) :=
  for_each (write_char fb) s st.

(** [for i in 0..n]: [I i a] holds when [i] is about to be visited. *)
Lemma wp_for_seqZ {A} (f : Z → A → outcome A) (n : Z) (a : A) (I : Z → A → Prop) (Q : A → Prop) :
  0 ≤ n → I 0 a → (∀ i a, 0 ≤ i < n → I i a → wp (f i a) (I (i + 1))) → (∀ a, I n a → Q a) →
  wp (for_each f (seqZ 0 n) a) Q.
Proof.
  intros Hn H0 Hstep HQ. cut (∀ k lo a, lo + Z.of_nat k = n → 0 ≤ lo → I lo a → wp (for_each f (seqZ lo (Z.of_nat k)) a) Q).
  { intros Hk. specialize (Hk (Z.to_nat n) 0 a). rewrite Z2Nat.id in Hk by lia. by apply Hk. }
  induction k as [|k IH]; intros lo a' Hl Hlo HI.
  { apply wp_ret, HQ. by replace n with lo by lia. }
  rewrite seqZ_cons by lia. cbn [for_each]. apply wp_bind. eapply wp_mono; [apply Hstep; [lia|done]|].
  intros a'' HI'. replace (Z.pred (Z.of_nat (S k))) with (Z.of_nat k) by lia. replace (Z.succ lo) with (lo + 1) by lia.
  apply IH; [lia|lia|done].
Qed.

(** ** Pixels *)

Definition pixel (fb : Framebuffer) (mem : Z → Z) (X Y : Z) : Z :=
  load 4 mem (buff_ptr fb + (Y * fb_pitch fb + X * 4)).

Definition on_screen (fb : Framebuffer) (X Y : Z) : Prop := 0 ≤ X < fb_width fb ∧ 0 ≤ Y < fb_height fb.

(** A framebuffer of 32-bit pixels in addressable, aligned memory. *)
Record fb_ok (fb : Framebuffer) : Prop := {
  fk_bpp : fb_bpp fb = 32;
  fk_ptr : 0 ≤ buff_ptr fb ∧ buff_ptr fb mod 4 = 0;
  fk_size : 0 ≤ fb_width fb ∧ 0 ≤ fb_height fb;
  fk_pitch : fb_width fb * 4 ≤ fb_pitch fb ∧ fb_pitch fb mod 4 = 0;
  fk_end : buff_ptr fb + fb_pitch fb * fb_height fb ≤ u64_max
}.

Definition fb_bytes (fb : Framebuffer) : Z := fb_pitch fb * fb_height fb.

(** Memory outside the framebuffer is the same. *)
Definition outside_kept (fb : Framebuffer) (mem mem' : Z → Z) : Prop :=
  ∀ a, ¬ range (buff_ptr fb) (fb_bytes fb) a → mem' a = mem a.

Lemma outside_kept_trans fb m1 m2 m3 : outside_kept fb m1 m2 → outside_kept fb m2 m3 → outside_kept fb m1 m3.
Proof. intros H1 H2 a Ha. by rewrite H2, H1. Qed.

Section screen.
Context (fb : Framebuffer) (Hfb : fb_ok fb).

Lemma pixel_inside X Y :
  on_screen fb X Y →
  0 ≤ Y * fb_pitch fb + X * 4 ∧ Y * fb_pitch fb + X * 4 + 4 ≤ Y * fb_pitch fb + fb_pitch fb ∧
  Y * fb_pitch fb + fb_pitch fb ≤ fb_bytes fb ∧ 0 ≤ Y * fb_pitch fb.
Proof. intros [HX HY]. destruct Hfb as [_ _ Hs [Hp _] _]. unfold fb_bytes. repeat split; nia. Qed.

Lemma pixels_apart X Y X' Y' :
  on_screen fb X Y → on_screen fb X' Y' → (X, Y) ≠ (X', Y') →
  apart (buff_ptr fb + (Y * fb_pitch fb + X * 4)) 4 (buff_ptr fb + (Y' * fb_pitch fb + X' * 4)) 4.
Proof.
  intros H H' Hne. pose proof (pixel_inside _ _ H). pose proof (pixel_inside _ _ H').
  destruct H as [HX HY], H' as [HX' HY']. unfold apart. destruct (Z.lt_trichotomy Y Y') as [Hl|[->|Hl]].
  - left. nia.
  - destruct (Z.lt_trichotomy X X') as [Hx|[->|Hx]]; [left; lia|done|right; lia].
  - right. nia.
Qed.

Lemma wp_draw_pixel x y color mem (Q : (Z → Z) → Prop) :
  on_screen fb x y → 0 ≤ color < 2 ^ 32 →
  (∀ mem', outside_kept fb mem mem' →
    (∀ X Y, on_screen fb X Y → pixel fb mem' X Y = if decide ((X, Y) = (x, y)) then color else pixel fb mem X Y) →
    Q mem') →
  wp (draw_pixel fb x y color mem) Q.
Proof.
  intros Hon Hc HQ. pose proof (pixel_inside _ _ Hon) as (H0 & H1 & H2 & H3). destruct Hfb as [Hb Hp Hs Ht He].
  fold (fb_bytes fb) in He. destruct Hon as [HX HY] eqn:E. clear E. unfold draw_pixel.
  rewrite (proj2 (Z.leb_gt _ _)), (proj2 (Z.leb_gt _ _)) by lia. cbn [orb]. rewrite Hb. change (32 / 8) with 4.
  apply wp_bind, wp_mul64; [lia|]. apply wp_bind, wp_mul64; [lia|]. apply wp_bind, wp_add64; [lia|].
  apply wp_bind, wp_assert.
  { apply Z.eqb_eq, Z.mod_divide; [lia|]. destruct Hp as [_ Hp], Ht as [_ Ht].
    apply Z.mod_divide in Hp, Ht; [|lia..]. apply Z.divide_add_r; [done|]. apply Z.divide_add_r; [by apply Z.divide_mul_r|].
    by exists x. }
  apply wp_ret, HQ.
  - intros a Ha. apply store_ne. unfold range in *. lia.
  - intros X Y HXY. case_decide as Hd.
    + injection Hd as -> ->. apply load_store_eq. change (256 ^ Z.of_nat 4) with (2 ^ 32). lia.
    + apply load_store_ne. apply pixels_apart; [done|by split|done].
Qed.

Lemma wp_scroll n mem (Q : (Z → Z) → Prop) :
  0 < n < fb_height fb →
  (∀ mem', outside_kept fb mem mem' →
    (∀ X Y, on_screen fb X Y →
      pixel fb mem' X Y = if decide (Y + n < fb_height fb) then pixel fb mem X (Y + n) else 0) →
    Q mem') →
  wp (scroll fb n mem) Q.
Proof.
  intros Hn HQ. destruct Hfb as [Hb Hp Hs Ht He]. assert (fb_pitch fb * n ≤ fb_pitch fb * fb_height fb) by nia.
  assert (0 ≤ fb_pitch fb * n) by nia. unfold scroll.
  apply wp_bind, wp_mul64; [lia|]. apply wp_bind, wp_mul64; [lia|]. rewrite (proj2 (Z.leb_gt _ _)) by lia.
  apply wp_bind, wp_sub64; [lia|]. cbn zeta. apply wp_bind, wp_sub64; [lia|]. apply wp_ret, HQ.
  - intros a Ha. unfold range, fb_bytes in Ha. rewrite fill_at, decide_False, copy_bytes_at, decide_False; [done|unfold range; lia..].
  - intros X Y HXY. pose proof (pixel_inside _ _ HXY) as (H1 & H2 & H3 & H4). destruct HXY as [HX HY].
    unfold fb_bytes in H3. unfold pixel. case_decide as Hd.
    + assert ((Y + n) * fb_pitch fb + fb_pitch fb ≤ fb_pitch fb * fb_height fb) by nia.
      transitivity (load 4 (copy_bytes (buff_ptr fb + fb_pitch fb * n) (buff_ptr fb)
        (fb_pitch fb * fb_height fb - fb_pitch fb * n) mem) (buff_ptr fb + (Y * fb_pitch fb + X * 4))).
      { apply load_ext. intros a Ha. rewrite fill_at, decide_False; [done|]. unfold range in *. lia. }
      cbn [load]. rewrite !copy_bytes_at, !decide_True by (unfold range; lia).
      repeat (f_equal; try lia).
    + assert (fb_pitch fb * fb_height fb - fb_pitch fb * n ≤ Y * fb_pitch fb) by nia.
      cbn [load]. rewrite !fill_at, !decide_True by (unfold range; lia). done.
Qed.

End screen.

(** ** The terminal *)

(** A grid of characters ([None] where nothing was printed) and the cursor. *)
Record term := mk_term { t_row : Z; t_col : Z; t_cell : Z → Z → option Z }.

Definition term_blank : term := mk_term 0 0 (λ _ _, None).

(** The line below becomes the current one; on the last line the grid moves
    up and the first line is lost. *)
Definition term_newline (rows : Z) (t : term) : term :=
  if t_row t + 1 <? rows then mk_term (t_row t + 1) 0 (t_cell t)
  else mk_term (t_row t) 0 (λ i j, if i + 1 <? rows then t_cell t (i + 1) j else None).

(** [width] is that of a line and [cw] that of a character, in pixels.  Tab
    stops are every four characters. *)
Definition term_put (width cw rows : Z) (t : term) (ch : Z) : term :=
  if ch =? 10 then term_newline rows t
  else if ch =? 13 then mk_term (t_row t) 0 (t_cell t)
  else if ch =? 9 then
    let t := mk_term (t_row t) ((t_col t / 4 + 1) * 4) (t_cell t) in
    if width <=? t_col t * cw then term_newline rows t else t
  else
    let t := if width <? (t_col t + 1) * cw then term_newline rows t else t in
    mk_term (t_row t) (t_col t + 1)
      (λ i j, if bool_decide (i = t_row t ∧ j = t_col t) then Some ch else t_cell t i j).

Definition term_show (width cw rows : Z) (s : list Z) : term :=
  fold_left (term_put width cw rows) s term_blank.

(** The glyph of a character: the first one of the font if it has none. *)
Definition glyph_of (r : Renderer) (ch : Z) : Z :=
  if ch <? (flen (font_data r) - header_size r) / bytes_per_glyph r then ch else 0.

Definition glyph_pixel (r : Renderer) (ch i j : Z) : Z :=
  if Z.testbit (byte_at (font_data r)
       (header_size r + glyph_of r ch * bytes_per_glyph r + i * ((char_width r + 7) / 8) + j / 8)) (7 - j mod 8)
  then 0xFFFFFF else 0x000000.

(** The picture of a terminal: characters in their cells, black elsewhere. *)
Definition term_pixel (r : Renderer) (width rows : Z) (t : term) (X Y : Z) : Z :=
  let i := Y / char_height r in
  let j := X / char_width r in
  if (i <? rows) && ((j + 1) * char_width r <=? width) then
    match t_cell t i j with
    | Some ch => glyph_pixel r ch (Y mod char_height r) (X mod char_width r)
    | None => 0
    end
  else 0.

(** A font with a glyph or more, whose glyphs have the bytes of their lines
    and fit on the screen. *)
Record font_ok (fb : Framebuffer) (r : Renderer) : Prop := {
  fo_header : 0 ≤ header_size r;
  fo_glyphs : header_size r + bytes_per_glyph r ≤ flen (font_data r) ≤ 2 ^ 62;
  fo_bytes : 0 < bytes_per_glyph r ∧ char_height r * ((char_width r + 7) / 8) ≤ bytes_per_glyph r;
  fo_width : 0 < char_width r ≤ fb_width fb;
  fo_height : 0 < char_height r < fb_height fb;
  fo_screen : fb_width fb ≤ 2 ^ 60 ∧ fb_height fb ≤ 2 ^ 60
}.

(** The same font, wherever the cursor is. *)
Definition same_font (r r' : Renderer) : Prop :=
  font_data r' = font_data r ∧ char_width r' = char_width r ∧ char_height r' = char_height r ∧
  bytes_per_glyph r' = bytes_per_glyph r.

Section text.
Context (fb : Framebuffer) (Hfb : fb_ok fb).
Context (r0 : Renderer) (Hfont : font_ok fb r0) (mem0 : Z → Z).

Local Notation cw := (char_width r0).
Local Notation ch := (char_height r0).
Local Notation rows := (fb_height fb / ch).
Local Notation width := (fb_width fb).

(** The state of the console shows the terminal [t]. *)
Record shows (t : term) (s : Renderer * (Z → Z)) : Prop := {
  sh_pos : s.1 = set_pos r0 (t_col t * cw) (t_row t * ch);
  sh_row : 0 ≤ t_row t < rows;
  sh_col : 0 ≤ t_col t ∧ t_col t * cw ≤ width;
  sh_kept : outside_kept fb mem0 s.2;
  sh_pixels : ∀ X Y, on_screen fb X Y → pixel fb s.2 X Y = term_pixel r0 width rows t X Y
}.

Lemma rows_bound : rows * ch ≤ fb_height fb < (rows + 1) * ch ∧ 1 ≤ rows.
Proof.
  pose proof Hfont as [_ _ _ _ Hh _]. pose proof (Z.div_mod (fb_height fb) ch ltac:(lia)).
  pose proof (Z.mod_pos_bound (fb_height fb) ch ltac:(lia)).
  assert (1 ≤ rows) by (apply Z.div_le_lower_bound; lia). lia.
Qed.

Lemma div_cell a b n : 0 < n → 0 ≤ b < n → (a * n + b) / n = a ∧ (a * n + b) mod n = b.
Proof.
  intros Hn Hb. rewrite Z.add_comm. split.
  - rewrite Z.div_add, Z.div_small by lia. lia.
  - rewrite Z.mod_add, Z.mod_small by lia. done.
Qed.

(** *** A new line *)

Lemma term_pixel_scrolled t X Y :
  on_screen fb X Y → t_row t + 1 = rows →
  term_pixel r0 width rows (term_newline rows t) X Y =
    if decide (Y + ch < fb_height fb) then term_pixel r0 width rows t X (Y + ch) else 0.
Proof.
  intros [HX HY] Hr. pose proof rows_bound as [Hb1 Hb2]. pose proof Hfont as [_ _ _ _ Hh _].
  unfold term_newline. rewrite (proj2 (Z.ltb_ge _ _)) by lia. unfold term_pixel. cbn [t_cell].
  pose proof (Z.div_mod Y ch ltac:(lia)) as Hdm. pose proof (Z.mod_pos_bound Y ch ltac:(lia)) as Hm.
  set (i := Y / ch) in *. set (k := Y mod ch) in *.
  assert ((Y + ch) / ch = i + 1 ∧ (Y + ch) mod ch = k) as [-> ->].
  { replace (Y + ch) with ((i + 1) * ch + k) by lia. by apply div_cell; lia. }
  destruct (Z.ltb_spec (i + 1) rows) as [Hi|Hi].
  - rewrite (proj2 (Z.ltb_lt i rows)) by lia. rewrite decide_True by nia. done.
  - cbn [andb]. repeat case_decide; by destruct (_ && _).
Qed.

Lemma wp_newline t s x (Q : Renderer * (Z → Z) → Prop) :
  s.1 = set_pos r0 x (t_row t * ch) → 0 ≤ t_row t < rows → outside_kept fb mem0 s.2 →
  (∀ X Y, on_screen fb X Y → pixel fb s.2 X Y = term_pixel r0 width rows t X Y) →
  (∀ s', shows (term_newline rows t) s' → t_col (term_newline rows t) = 0 → Q s') →
  wp (newline s.1 fb s.2) Q.
Proof.
  intros Hp Hr Hk Hpix HQ. pose proof rows_bound as [Hb1 Hb2]. pose proof Hfont as [_ _ _ Hw Hh [Hs1 Hs2]].
  assert (t_col (term_newline rows t) = 0) as Hc by (unfold term_newline; by destruct (_ <? _)).
  unfold newline. rewrite Hp. cbn [set_pos r_x r_y char_height char_width font_data bytes_per_glyph].
  assert ((t_row t + 1) * ch ≤ rows * ch) by nia. apply wp_bind, wp_add64; [unfold u64_max; lia|].
  cbn zeta. cbn [set_pos r_x r_y char_height char_width font_data bytes_per_glyph].
  apply wp_bind, wp_add64; [unfold u64_max; lia|].
  destruct (Z.ltb_spec (t_row t + 1) rows) as [Hl|Hl].
  - assert ((t_row t + 2) * ch ≤ rows * ch) by nia. rewrite (proj2 (Z.ltb_ge _ _)) by lia. apply wp_ret, HQ; [|done].
    unfold term_newline. rewrite (proj2 (Z.ltb_lt _ _)) by lia. split; cbn [fst snd t_row t_col t_cell]; [|lia|lia|done|done].
    unfold set_pos; cbn. f_equal; lia.
  - assert (t_row t = rows - 1) as Hrow by lia. rewrite (proj2 (Z.ltb_lt _ _)) by nia.
    apply wp_bind, wp_scroll; [done|lia|]. intros mem' Hk' Hpix'. apply wp_bind, wp_sub64; [lia|]. apply wp_ret, HQ; [|done].
    split; cbn [fst snd].
    + unfold term_newline. rewrite (proj2 (Z.ltb_ge _ _)) by lia. unfold set_pos; cbn. f_equal; lia.
    + unfold term_newline. rewrite (proj2 (Z.ltb_ge _ _)) by lia. cbn. lia.
    + rewrite Hc. lia.
    + by eapply outside_kept_trans.
    + intros X Y HXY. rewrite Hpix', term_pixel_scrolled by (done || lia). case_decide; [|done].
      apply Hpix. destruct HXY as [??]. split; [done|lia].
Qed.

(** *** A character *)

Lemma glyph_bounds c :
  0 ≤ c → 0 ≤ glyph_of r0 c ∧ header_size r0 + glyph_of r0 c * bytes_per_glyph r0 + bytes_per_glyph r0 ≤ flen (font_data r0) ∧
          0 ≤ glyph_of r0 c * bytes_per_glyph r0.
Proof.
  intros Hc. pose proof Hfont as [Hh Hg [Hb _] _ _ _]. unfold glyph_of.
  pose proof (Z.mul_div_le (flen (font_data r0) - header_size r0) (bytes_per_glyph r0) Hb).
  destruct (Z.ltb_spec c ((flen (font_data r0) - header_size r0) / bytes_per_glyph r0)); repeat split; nia.
Qed.

Lemma wp_get_glyph_offset c (Q : Z → Prop) :
  0 ≤ c → Q (header_size r0 + glyph_of r0 c * bytes_per_glyph r0) → wp (get_glyph_offset r0 c) Q.
Proof.
  intros Hc HQ. pose proof (glyph_bounds c Hc). pose proof Hfont as [Hh Hg [Hb _] _ _ _]. unfold get_glyph_offset.
  apply wp_bind, wp_sub64; [lia|]. apply wp_bind. unfold div64. rewrite (proj2 (Z.eqb_neq _ _)) by lia. apply wp_ret.
  cbn zeta. fold (glyph_of r0 c). apply wp_bind, wp_mul64; [unfold u64_max; lia|]. apply wp_add64; [unfold u64_max; lia|done].
Qed.

Lemma bit_testbit b k : (Z.land (Z.shiftr b k) 1 =? 1) = Z.testbit b k.
Proof.
  rewrite Z.testbit_odd. change 1 with (Z.ones 1) at 1. rewrite Z.land_ones by lia. change (2 ^ 1) with 2.
  rewrite Zmod_odd. by destruct (Z.odd _).
Qed.

Lemma bits_line i j : 0 ≤ i < ch → 0 ≤ j < cw →
  0 ≤ i * ((cw + 7) / 8) ∧ 0 ≤ j / 8 ∧ i * ((cw + 7) / 8) + j / 8 < bytes_per_glyph r0.
Proof.
  intros Hi Hj. pose proof Hfont as [_ _ [_ Hb] _ _ _].
  assert (j / 8 < (cw + 7) / 8). { apply Z.div_lt_upper_bound; [lia|]. pose proof (Z.div_mod (cw + 7) 8 ltac:(lia)).
    pose proof (Z.mod_pos_bound (cw + 7) 8 ltac:(lia)). lia. }
  pose proof (Z.div_pos j 8 ltac:(lia) ltac:(lia)). repeat split; nia.
Qed.

(** What has been drawn of a character when its first [i] lines and the first
    [j] dots of the next are done. *)
Definition drawn (mem : Z → Z) (c x y i j : Z) (mem' : Z → Z) : Prop :=
  outside_kept fb mem mem' ∧
  ∀ X Y, on_screen fb X Y →
    pixel fb mem' X Y =
      if decide (x ≤ X < x + cw ∧ y ≤ Y ∧ (Y < y + i ∨ Y = y + i ∧ X < x + j))
      then glyph_pixel r0 c (Y - y) (X - x) else pixel fb mem X Y.

Lemma wp_draw_dot mem c x y i j m glyph :
  0 ≤ c → 0 ≤ x → x + cw ≤ width → 0 ≤ y → y + ch ≤ fb_height fb → 0 ≤ i < ch → 0 ≤ j < cw →
  font_slice (font_data r0) (header_size r0 + glyph_of r0 c * bytes_per_glyph r0)
    (header_size r0 + glyph_of r0 c * bytes_per_glyph r0 + bytes_per_glyph r0) = Ret glyph →
  drawn mem c x y i j m →
  wp (draw_dot r0 fb glyph x y i (i * ((cw + 7) / 8)) j m) (drawn mem c x y i (j + 1)).
Proof.
  intros Hc Hx Hxw Hy Hyh Hi Hj Hsl [Hk Hpix]. pose proof (glyph_bounds c Hc) as (Hg1 & Hg2 & Hg3).
  pose proof (bits_line i j Hi Hj) as (Hl1 & Hl2 & Hl3). pose proof Hfont as [Hh Hg [Hb _] _ _ [Hs1 Hs2]].
  pose proof (Z.mod_pos_bound j 8 ltac:(lia)).
  revert Hsl. unfold font_slice. rewrite (proj2 (Z.leb_le _ _)), (proj2 (Z.leb_le _ _)) by lia. cbn [andb]. intros [= <-].
  unfold draw_dot. set (o := header_size r0 + glyph_of r0 c * bytes_per_glyph r0) in *.
  apply wp_bind, wp_add64; [unfold u64_max; lia|]. apply wp_bind, wp_sub64; [lia|].
  assert (flen (take (Z.to_nat (o + bytes_per_glyph r0 - o)) (drop (Z.to_nat o) (font_data r0))) = bytes_per_glyph r0) as ->.
  { unfold flen in *. rewrite length_take, length_drop. lia. }
  rewrite (proj2 (Z.ltb_lt _ _)) by lia.
  set (k := i * ((cw + 7) / 8) + j / 8) in *.
  apply wp_bind, (wp_arr_get _ _ (byte_at (font_data r0) (o + k))).
  { rewrite lookup_take_lt by (replace (o + bytes_per_glyph r0 - o) with (bytes_per_glyph r0) by lia; lia). rewrite lookup_drop. unfold byte_at. replace (Z.to_nat (o + k)) with (Z.to_nat o + Z.to_nat k)%nat by lia.
    destruct (lookup_lt_is_Some_2 (font_data r0) (Z.to_nat o + Z.to_nat k)) as [b ->]; [unfold flen in *; lia|done]. }
  cbn zeta. rewrite bit_testbit. replace (o + k) with (o + i * ((cw + 7) / 8) + j / 8) by (unfold k; lia).
  fold (glyph_pixel r0 c i j). apply wp_bind, wp_add64; [unfold u64_max; lia|]. apply wp_bind, wp_add64; [unfold u64_max; lia|].
  apply wp_draw_pixel; [done|split; lia|unfold glyph_pixel; destruct (Z.testbit _ _); lia|].
  intros m' Hk' Hpix'. split; [by eapply outside_kept_trans|]. intros X Y HXY. rewrite Hpix', Hpix by done.
  case_decide as Hd.
  - injection Hd as -> ->. rewrite decide_True by lia.
    replace (y + i - y) with i by lia. by replace (x + j - x) with j by lia.
  - apply decide_ext. split; [lia|]. intros (H1 & H2 & [H3|[H3 H4]]); [lia|].
    assert (X ≠ x + j) by (intros ->; apply Hd; f_equal; lia). lia.
Qed.

Lemma wp_draw_char c x y mem :
  0 ≤ c → 0 ≤ x → x + cw ≤ width → 0 ≤ y → y + ch ≤ fb_height fb →
  wp (draw_char r0 fb c x y mem) (drawn mem c x y ch 0).
Proof.
  intros Hc Hx Hxw Hy Hyh. pose proof (glyph_bounds c Hc) as (Hg1 & Hg2 & Hg3).
  pose proof Hfont as [Hh Hg [Hb Hbl] Hw Hht [Hs1 Hs2]]. unfold draw_char.
  apply wp_bind, wp_get_glyph_offset; [done|]. apply wp_bind, wp_add64; [unfold u64_max; lia|].
  destruct (font_slice (font_data r0) (header_size r0 + glyph_of r0 c * bytes_per_glyph r0)
    (header_size r0 + glyph_of r0 c * bytes_per_glyph r0 + bytes_per_glyph r0)) as [glyph| |] eqn:Hsl;
    [|exfalso; revert Hsl; unfold font_slice; rewrite (proj2 (Z.leb_le _ _)), (proj2 (Z.leb_le _ _)) by lia; done..].
  apply wp_bind, wp_ret, wp_bind, wp_add64; [unfold u64_max; lia|]. cbn zeta.
  apply (wp_for_seqZ _ _ _ (λ i, drawn mem c x y i 0)); [lia| | |done].
  { split; [done|]. intros X Y HXY. rewrite decide_False by lia. done. }
  intros i m Hi Hdr. pose proof (bits_line i 0 Hi ltac:(lia)) as (Hl1 & _ & Hl3).
  apply wp_bind, wp_mul64; [change (0 / 8) with 0 in Hl3; unfold u64_max; lia|].
  apply (wp_for_seqZ _ _ _ (λ j, drawn mem c x y i j)); [lia|done|intros j m' Hj Hd; by apply wp_draw_dot|].
  intros m' [Hk Hpix]. split; [done|]. intros X Y HXY. rewrite Hpix by done. apply decide_ext. lia.
Qed.

Lemma shows_drawn t mem mem' c :
  0 ≤ t_row t < rows → 0 ≤ t_col t → (t_col t + 1) * cw ≤ width →
  (∀ X Y, on_screen fb X Y → pixel fb mem X Y = term_pixel r0 width rows t X Y) →
  drawn mem c (t_col t * cw) (t_row t * ch) ch 0 mem' →
  ∀ X Y, on_screen fb X Y → pixel fb mem' X Y = term_pixel r0 width rows
    (mk_term (t_row t) (t_col t + 1)
       (λ i j, if bool_decide (i = t_row t ∧ j = t_col t) then Some c else t_cell t i j)) X Y.
Proof.
  intros Hr Hc Hw Hpix [_ Hd] X Y HXY. rewrite Hd by done. pose proof Hfont as [_ _ _ Hcw Hch _].
  destruct HXY as [HX HY] eqn:E. clear E.
  pose proof (Z.div_mod X cw ltac:(lia)) as HdX. pose proof (Z.mod_pos_bound X cw ltac:(lia)).
  pose proof (Z.div_mod Y ch ltac:(lia)) as HdY. pose proof (Z.mod_pos_bound Y ch ltac:(lia)).
  unfold term_pixel. cbn [t_cell]. case_decide as Hin.
  - assert (X / cw = t_col t) as Hj by nia. assert (Y / ch = t_row t) as Hi by nia.
    rewrite Hi, Hj, bool_decide_true by done. rewrite (proj2 (Z.ltb_lt _ _)), (proj2 (Z.leb_le _ _)) by lia.
    cbn [andb]. rewrite Hi in HdY. rewrite Hj in HdX. f_equal; lia.
  - rewrite Hpix by done. unfold term_pixel. rewrite (bool_decide_false (Y / ch = t_row t ∧ X / cw = t_col t)); [done|].
    intros [Hi Hj]. rewrite Hi in HdY. rewrite Hj in HdX. apply Hin. lia.
Qed.

Lemma wp_put_char t s c :
  0 ≤ c → shows t s → (t_col t + 1) * cw ≤ width →
  wp (mem ← draw_char s.1 fb c (r_x s.1) (r_y s.1) s.2;
      x ← add64 (r_x s.1) (char_width s.1);
      Ret (set_pos s.1 x (r_y s.1), mem))
     (shows (mk_term (t_row t) (t_col t + 1)
       (λ i j, if bool_decide (i = t_row t ∧ j = t_col t) then Some c else t_cell t i j))).
Proof.
  intros Hc [Hp Hr Hcol Hk Hpix] Hw. rewrite Hp. cbn [set_pos r_x r_y char_width].
  pose proof rows_bound as [Hb1 Hb2]. pose proof Hfont as [_ _ _ Hcw Hch [Hs1 Hs2]].
  apply wp_bind. change (draw_char (set_pos r0 (t_col t * cw) (t_row t * ch))) with (draw_char r0).
  eapply wp_mono; [apply wp_draw_char; [done|nia|lia|nia|nia]|]. intros mem' Hd.
  apply wp_bind, wp_add64; [unfold u64_max; lia|]. apply wp_ret. split; cbn [fst snd t_row t_col].
  - unfold set_pos; cbn. f_equal. lia.
  - done.
  - lia.
  - destruct Hd as [Hk' _]. by eapply outside_kept_trans.
  - apply (shows_drawn t s.2); [done|lia|done..].
Qed.

Lemma tab_stop c : 0 ≤ c → (c * cw + cw * 4) / (cw * 4) * (cw * 4) = (c / 4 + 1) * 4 * cw.
Proof.
  intros Hc. pose proof Hfont as [_ _ _ Hcw _ _]. replace (c * cw + cw * 4) with (c * cw + 1 * (cw * 4)) by lia.
  rewrite Z.div_add by lia. rewrite (Z.mul_comm cw 4), Z.div_mul_cancel_r by lia. lia.
Qed.

Lemma wp_write_char t s c :
  0 ≤ c → shows t s → wp (write_char fb c s) (shows (term_put width cw rows t c)).
Proof.
  intros Hc Hsh. pose proof Hsh as [Hp Hr Hcol Hk Hpix]. pose proof Hfont as [_ _ _ Hcw Hch [Hs1 Hs2]].
  destruct s as [r mem]. cbn [fst snd] in *. unfold write_char, term_put.
  assert (∀ Q, (∀ s', shows (term_newline rows t) s' → t_col (term_newline rows t) = 0 → Q s') → wp (newline r fb mem) Q) as Hnl.
  { intros Q HQ. by apply (wp_newline t (r, mem) (t_col t * cw)). }
  destruct (c =? 10); [apply Hnl; auto|]. destruct (c =? 13).
  { rewrite Hp. apply wp_ret. split; cbn [fst snd t_row t_col]; [done|done|lia|done|done]. }
  destruct (c =? 9).
  - rewrite Hp. cbn [set_pos r_x r_y char_width]. apply wp_bind, wp_mul64; [unfold u64_max; lia|].
    apply wp_bind, wp_add64; [unfold u64_max; lia|]. apply wp_bind. unfold div64. rewrite (proj2 (Z.eqb_neq _ _)) by lia.
    apply wp_ret, wp_bind.
    pose proof (Z.mul_div_le (t_col t * cw + cw * 4) (cw * 4) ltac:(lia)).
    apply wp_mul64; [unfold u64_max; lia|]. cbn zeta. cbn [t_col].
    rewrite <-(tab_stop (t_col t)) by lia.
    set (x := (t_col t * cw + cw * 4) / (cw * 4) * (cw * 4)) in *. destruct (Z.leb_spec width x) as [Hx|Hx].
    + apply (wp_newline (mk_term (t_row t) ((t_col t / 4 + 1) * 4) (t_cell t)) (set_pos r0 x (t_row t * ch), mem) x); auto.
    + apply wp_ret. split; cbn [fst snd t_row t_col]; [|done| |done|done].
      * by rewrite <-tab_stop by lia.
      * rewrite <-tab_stop by lia. fold x. pose proof (Z.div_pos (t_col t) 4 ltac:(lia) ltac:(lia)). lia.
  - rewrite Hp at 1 2. cbn [set_pos r_x r_y char_width]. apply wp_bind, wp_add64; [unfold u64_max; lia|].
    replace (t_col t * cw + cw) with ((t_col t + 1) * cw) by lia. apply wp_bind.
    destruct (Z.ltb_spec width ((t_col t + 1) * cw)) as [Hx|Hx].
    + apply Hnl. intros [r' mem'] Hsh' Hc0. apply (wp_put_char _ _ _ Hc Hsh'). rewrite Hc0. lia.
    + apply wp_ret. by apply (wp_put_char t (r, mem)).
Qed.

Lemma wp_write_str str t s :
  Forall (λ c, 0 ≤ c) str → shows t s →
  wp (write_str fb str s) (shows (fold_left (term_put width cw rows) str t)).
Proof.
  intros Hstr. revert t s. induction Hstr as [|c str Hc Hstr IH]; intros t s Hsh; [done|].
  unfold write_str. cbn [for_each fold_left]. apply wp_bind. eapply wp_mono; [by apply wp_write_char|].
  intros s' Hs'. by apply IH.
Qed.

Lemma shows_blank :
  r_x r0 = 0 → r_y r0 = 0 → outside_kept fb mem0 mem0 →
  (∀ X Y, on_screen fb X Y → pixel fb mem0 X Y = 0) → shows term_blank (r0, mem0).
Proof.
  intros Hx Hy Hk H0. pose proof rows_bound as [Hb1 Hb2]. pose proof Hfont as [_ _ _ Hcw _ _].
  split; cbn [fst snd term_blank t_row t_col]; [|lia|lia|done|].
  - destruct r0 as [x y f w h b] eqn:E. cbn in *. unfold set_pos; cbn. by subst.
  - intros X Y HXY. rewrite H0 by done. unfold term_pixel. cbn. by destruct (_ && _).
Qed.

End text.

Lemma wp_clear fb mem (Q : (Z → Z) → Prop) :
  fb_ok fb →
  (∀ mem', outside_kept fb mem mem' → (∀ X Y, on_screen fb X Y → pixel fb mem' X Y = 0) → Q mem') →
  wp (clear fb mem) Q.
Proof.
  intros Hfb HQ. pose proof (fk_end fb Hfb) as He. pose proof (fk_ptr fb Hfb) as [Hp _]. unfold clear.
  apply wp_bind, wp_mul64; [lia|]. apply wp_ret, HQ.
  - intros a Ha. by rewrite fill_at, decide_False.
  - intros X Y HXY. pose proof (pixel_inside fb Hfb X Y HXY) as (H1 & H2 & H3 & H4). unfold fb_bytes in H3.
    unfold pixel. cbn [load]. by rewrite !fill_at, !decide_True by (unfold range; lia).
Qed.

Lemma init_pos data : r_x (renderer_init data) = 0 ∧ r_y (renderer_init data) = 0.
Proof. unfold renderer_init. by destruct (parse_psf data) as [[??]?]. Qed.

(** C36: text printed on a black screen of 32 bits per pixel, with a font that
    fits it, shows as the terminal does: every pixel
    is that of the glyph in its cell or black, after any text with line breaks,
    tabs and scrolling, and no byte outside the framebuffer is written. *)
Theorem console_shows_text fb data str mem0 :
  fb_ok fb → font_ok fb (renderer_init data) → Forall (λ c, 0 ≤ c) str →
  (∀ X Y, on_screen fb X Y → pixel fb mem0 X Y = 0) →
  let r := renderer_init data in
  let rows := fb_height fb / char_height r in
  let t := term_show (fb_width fb) (char_width r) rows str in
  wp (write_str fb str (r, mem0)) (λ '(r', mem'),
    r' = set_pos r (t_col t * char_width r) (t_row t * char_height r) ∧
    outside_kept fb mem0 mem' ∧
    ∀ X Y, on_screen fb X Y → pixel fb mem' X Y = term_pixel r (fb_width fb) rows t X Y).
Proof.
  intros Hfb Hfont Hstr H0 r rows t. destruct (init_pos data) as [Hx Hy].
  eapply wp_mono; [apply (wp_write_str fb Hfb r Hfont mem0 str term_blank); [done|by apply shows_blank]|].
  intros [r' mem'] [Hp _ _ Hk Hpix]. by split; [|split].
Qed.

(** A font of two glyphs of two lines. *)
Definition sample_font : list Z := [0x36; 0x04; 0; 2; 0xFF; 0x81; 0x18; 0x3C].
Definition sample_fb : Framebuffer := framebuffer_init 4096 17 5 72 32.

Lemma console_shows_text_witness :
  ∃ r mem', write_str sample_fb [1; 10; 0; 9; 1] (renderer_init sample_font, λ _, 0) = Ret (r, mem') ∧
    pixel sample_fb mem' 3 0 = 0xFFFFFF ∧ pixel sample_fb mem' 0 2 = 0.
Proof.
  assert (Forall (λ c, 0 ≤ c) [1; 10; 0; 9; 1]) as Hs by (repeat constructor; lia).
  pose proof (console_shows_text sample_fb sample_font [1; 10; 0; 9; 1] (λ _, 0)) as Ht.
  cbv zeta in Ht. revert Ht. generalize (write_str sample_fb [1; 10; 0; 9; 1] (renderer_init sample_font, λ _, 0)).
  intros o Ht. destruct (wp_elim _ _ (Ht ltac:(split; vm_compute; done) ltac:(split; vm_compute; done) Hs ltac:(reflexivity)))
    as ([r mem'] & Hr & _ & _ & Hp).
  exists r, mem'. split; [exact Hr|]. clear Ht Hr.
  split; (rewrite Hp; [vm_compute; reflexivity|split; vm_compute; done]).
Defined.

(** With three bytes to a pixel the second pixel of the first line is not
    aligned: drawing it panics. *)
Theorem draw_pixel_24bpp_panics fb color mem :
  fb_bpp fb = 24 → buff_ptr fb mod 4 = 0 → 2 ≤ fb_width fb → 1 ≤ fb_height fb → 0 ≤ fb_pitch fb →
  draw_pixel fb 1 0 color mem = Panic PAssert.
Proof.
  intros Hb Hp Hw Hh Hpi. unfold draw_pixel. rewrite (proj2 (Z.leb_gt _ _)), (proj2 (Z.leb_gt _ _)) by lia.
  rewrite Hb. change (mul64 0 (fb_pitch fb)) with (Ret 0). cbn [orb mbind outcome_bind]. change (mul64 1 (24 / 8)) with (Ret 3).
  cbn [mbind outcome_bind]. change (add64 0 3) with (Ret 3). cbn [mbind outcome_bind].
  apply Z.mod_divide in Hp as [k Hk]; [|lia].
  rewrite Hk. replace (k * 4 + 3) with (3 + k * 4) by lia. by rewrite Z.mod_add by lia.
Qed.
