(* ===== verification/Machine.v ===== *)
(** * The processor

    The part of x86-64 that the assembly of the kernel uses: general registers,
    the stack in byte memory, segment selectors, the two GS bases, the page
    table register, [syscall]/[sysretq], interrupt delivery and [iretq].  A
    function of the kernel called from assembly is a function on the state.
    Of the flags that arithmetic sets only ZF is kept, and faults (addresses
    that are not mapped or not canonical) are left out. *)
From S2P Require Import Prelude ByteMem.

Inductive reg :=
  | RAX | RBX | RCX | RDX | RSI | RDI | RBP | RSP
  | R8 | R9 | R10 | R11 | R12 | R13 | R14 | R15.
#[global] Instance reg_eq_dec : EqDecision reg.
Proof. solve_decision. Defined.

Record x86 := mk_x86 {
  regs : reg → Z;
  mem : Z → Z;
  m_rip : Z;
  m_rflags : Z;
  zf : bool;
  m_cs : Z; m_ss : Z; m_ds : Z; m_es : Z;
  m_cr3 : Z;
  gs_base : Z;
  kernel_gs_base : Z
}.

Definition set_reg (r : reg) (v : Z) (m : x86) : x86 :=
  mk_x86 (λ q, if decide (q = r) then v else regs m q) (mem m) (m_rip m) (m_rflags m) (zf m)
    (m_cs m) (m_ss m) (m_ds m) (m_es m) (m_cr3 m) (gs_base m) (kernel_gs_base m).
Definition set_mem (f : Z → Z) (m : x86) : x86 :=
  mk_x86 (regs m) f (m_rip m) (m_rflags m) (zf m)
    (m_cs m) (m_ss m) (m_ds m) (m_es m) (m_cr3 m) (gs_base m) (kernel_gs_base m).
Definition set_rip (v : Z) (m : x86) : x86 :=
  mk_x86 (regs m) (mem m) v (m_rflags m) (zf m)
    (m_cs m) (m_ss m) (m_ds m) (m_es m) (m_cr3 m) (gs_base m) (kernel_gs_base m).
Definition set_rflags (v : Z) (m : x86) : x86 :=
  mk_x86 (regs m) (mem m) (m_rip m) v (zf m)
    (m_cs m) (m_ss m) (m_ds m) (m_es m) (m_cr3 m) (gs_base m) (kernel_gs_base m).
Definition set_zf (b : bool) (m : x86) : x86 :=
  mk_x86 (regs m) (mem m) (m_rip m) (m_rflags m) b
    (m_cs m) (m_ss m) (m_ds m) (m_es m) (m_cr3 m) (gs_base m) (kernel_gs_base m).
Definition set_mode (cs ss : Z) (m : x86) : x86 :=
  mk_x86 (regs m) (mem m) (m_rip m) (m_rflags m) (zf m)
    cs ss (m_ds m) (m_es m) (m_cr3 m) (gs_base m) (kernel_gs_base m).
Definition set_ds (v : Z) (m : x86) : x86 :=
  mk_x86 (regs m) (mem m) (m_rip m) (m_rflags m) (zf m)
    (m_cs m) (m_ss m) v (m_es m) (m_cr3 m) (gs_base m) (kernel_gs_base m).
Definition set_es (v : Z) (m : x86) : x86 :=
  mk_x86 (regs m) (mem m) (m_rip m) (m_rflags m) (zf m)
    (m_cs m) (m_ss m) (m_ds m) v (m_cr3 m) (gs_base m) (kernel_gs_base m).
Definition set_cr3 (v : Z) (m : x86) : x86 :=
  mk_x86 (regs m) (mem m) (m_rip m) (m_rflags m) (zf m)
    (m_cs m) (m_ss m) (m_ds m) (m_es m) v (gs_base m) (kernel_gs_base m).
Definition swapgs (m : x86) : x86 :=
  mk_x86 (regs m) (mem m) (m_rip m) (m_rflags m) (zf m)
    (m_cs m) (m_ss m) (m_ds m) (m_es m) (m_cr3 m) (kernel_gs_base m) (gs_base m).

Inductive instr :=
  | Push (r : reg)
  | PushImm (v : Z)
  | PushGs (sym : Z)
  | Pop (r : reg)
  | Mov (d s : reg)
  | MovImm (d : reg) (v : Z)
  | MovStore (a s : reg)
  | MovFromGs (d : reg) (sym : Z)
  | MovToGs (sym : Z) (s : reg)
  | AddImm (r : reg) (v : Z)
  | MovCr3 (r : reg)
  | MovFromDs (r : reg)
  | MovAx (v : Z)
  | MovDsAx
  | MovEsAx
  | MovAxCs
  | AndAx (v : Z)
  | CmpAx (v : Z)
  | Jne (skip : nat)
  | Swapgs
  | Sti
  | Call
  | RetNear
  | Iretq
  | Sysretq.

Definition push (v : Z) (m : x86) : x86 :=
  let sp := wrap64 (regs m RSP - 8) in
  set_reg RSP sp (set_mem (store 8 sp v (mem m)) m).

(** The word on top of the stack. *)
Definition top (m : x86) : Z := load 8 (mem m) (regs m RSP).
Definition drop_top (m : x86) : x86 := set_reg RSP (wrap64 (regs m RSP + 8)) m.

(** The low 16 bits of [rax]. *)
Definition ax (m : x86) : Z := regs m RAX mod 2 ^ 16.
Definition set_ax (v : Z) (m : x86) : x86 := set_reg RAX (regs m RAX - ax m + v mod 2 ^ 16) m.

(** The selectors of user code and data that [STAR] yields for [sysretq], and
    those of the kernel for [syscall] and for interrupt gates. *)
Definition USER_CS : Z := 0x23.
Definition USER_SS : Z := 0x1b.
Definition KERNEL_CS : Z := 0x08.
Definition KERNEL_SS : Z := 0x10.

(** What [sysretq] makes of [r11]. *)
Definition sysret_flags (f : Z) : Z := Z.lor (Z.land f 0x3C7FD7) 2.

Definition gs_addr (sym : Z) (m : x86) : Z := wrap64 (gs_base m + sym).

Definition exec (i : instr) (m : x86) : x86 :=
  match i with
  | Push r => push (regs m r) m
  | PushImm v => push v m
  | PushGs sym => push (load 8 (mem m) (gs_addr sym m)) m
  | Pop r => set_reg r (top m) (drop_top m)
  | Mov d s => set_reg d (regs m s) m
  | MovImm d v => set_reg d v m
  | MovStore a s => set_mem (store 8 (regs m a) (regs m s) (mem m)) m
  | MovFromGs d sym => set_reg d (load 8 (mem m) (gs_addr sym m)) m
  | MovToGs sym s => set_mem (store 8 (gs_addr sym m) (regs m s) (mem m)) m
  | AddImm r v => set_reg r (wrap64 (regs m r + v)) m
  | MovCr3 r => set_cr3 (regs m r) m
  | MovFromDs r => set_reg r (m_ds m) m
  | MovAx v => set_ax v m
  | MovDsAx => set_ds (ax m) m
  | MovEsAx => set_es (ax m) m
  | MovAxCs => set_ax (m_cs m) m
  | AndAx v => set_ax (Z.land (ax m) v) m
  | CmpAx v => set_zf (ax m =? v) m
  | Swapgs => swapgs m
  | Sti => set_rflags (Z.lor (m_rflags m) 0x200) m
  | RetNear => set_rip (top m) (drop_top m)
  | Iretq =>
      let w i := load 8 (mem m) (regs m RSP + 8 * i) in
      set_reg RSP (w 3) (set_mode (w 1) (w 4) (set_rflags (w 2) (set_rip (w 0) m)))
  | Sysretq =>
      set_mode USER_CS USER_SS (set_rflags (sysret_flags (regs m R11)) (set_rip (regs m RCX) m))
  | Jne _ | Call => m
  end.

(** Code runs to its end; [Jne n] passes over [n] instructions when ZF is
    clear, and [f] is the function that is called. *)
Fixpoint run (f : x86 → x86) (skip : nat) (code : list instr) (m : x86) : x86 :=
  match code with
  | [] => m
  | i :: code =>
      match skip with
      | S k => run f k code m
      | O =>
          match i with
          | Jne n => run f (if zf m then O else n) code m
          | Call => run f O code (f m)
          | _ => run f O code (exec i m)
          end
      end
  end.

(** The [syscall] instruction: [lstar] is the entry point and [sfmask] the
    flags to clear. *)
Definition syscall_instr (lstar sfmask : Z) (m : x86) : x86 :=
  set_mode KERNEL_CS KERNEL_SS
    (set_rflags (Z.land (m_rflags m) (not64 sfmask))
      (set_rip lstar (set_reg R11 (m_rflags m) (set_reg RCX (m_rip m) m)))).

(** *** Interrupts

    The stack the processor switches to: entry [ist] of the interrupt stack
    table when it is not 0, else that for ring 0 when the interrupted code ran
    in ring 3, else the current one; aligned to 16 bytes. *)
Record tss := mk_tss { rsp0 : Z; ist_stack : Z → Z }.

Definition interrupt_stack (t : tss) (ist : Z) (m : x86) : Z :=
  let sp := if negb (ist =? 0) then ist_stack t ist
            else if m_cs m mod 4 =? 3 then rsp0 t else regs m RSP in
  Z.land sp (not64 15).

(** The vectors with an error code. *)
Definition pushes_error (vec : Z) : bool :=
  bool_decide (vec ∈ [8; 10; 11; 12; 13; 14; 17; 21; 29; 30]).

(** An interrupt gate clears IF, TF, NT, RF and VM. *)
Definition gate_flags (f : Z) : Z := Z.land f (not64 0x34300).

Definition deliver (t : tss) (ist vec error handler : Z) (m : x86) : x86 :=
  let m1 := set_reg RSP (interrupt_stack t ist m) m in
  let m1 := push (m_ss m) m1 in
  let m1 := push (regs m RSP) m1 in
  let m1 := push (m_rflags m) m1 in
  let m1 := push (m_cs m) m1 in
  let m1 := push (m_rip m) m1 in
  let m1 := if pushes_error vec then push error m1 else m1 in
  set_rip handler (set_rflags (gate_flags (m_rflags m))
    (set_mode KERNEL_CS (if m_cs m mod 4 =? 3 then 0 else m_ss m) m1)).

(** Decides equations between registers in the goal. *)
Ltac decide_regs :=
  repeat match goal with
  | |- context [decide (?a = ?b)] =>
      first [rewrite (decide_True (P := a = b)) by reflexivity | rewrite (decide_False (P := a = b)) by discriminate]
  end.

(** ** Blocks of pushes and pops *)

Definition stack_at (f : Z → Z) (a : Z) (ws : list Z) : Prop :=
  ∀ i w, ws !! i = Some w → load 8 f (a + 8 * Z.of_nat i) = w.

(** All but the general registers and memory. *)
Record same_env (m m' : x86) : Prop := {
  se_rip : m_rip m' = m_rip m;
  se_rflags : m_rflags m' = m_rflags m;
  se_zf : zf m' = zf m;
  se_cs : m_cs m' = m_cs m;
  se_ss : m_ss m' = m_ss m;
  se_ds : m_ds m' = m_ds m;
  se_es : m_es m' = m_es m;
  se_cr3 : m_cr3 m' = m_cr3 m;
  se_gs : gs_base m' = gs_base m;
  se_kgs : kernel_gs_base m' = kernel_gs_base m
}.

#[global] Instance same_env_refl : Reflexive same_env.
Proof. by split. Qed.
#[global] Instance same_env_trans : Transitive same_env.
Proof. intros m1 m2 m3 [] []. split; congruence. Qed.

(** [m'] is [m] with the words [ws] on the stack, the last pushed first. *)
Record pushed (ws : list Z) (m m' : x86) : Prop := {
  pu_rsp : regs m' RSP = regs m RSP - 8 * Z.of_nat (length ws);
  pu_regs : ∀ r, r ≠ RSP → regs m' r = regs m r;
  pu_stack : stack_at (mem m') (regs m' RSP) ws;
  pu_mem : ∀ x, ¬ range (regs m' RSP) (8 * Z.of_nat (length ws)) x → mem m' x = mem m x;
  pu_env : same_env m m'
}.

(** [m'] is [m] with the words [ws] popped into the registers [rs]. *)
Record popped (rs : list reg) (ws : list Z) (m m' : x86) : Prop := {
  po_rsp : regs m' RSP = regs m RSP + 8 * Z.of_nat (length rs);
  po_regs : ∀ i r w, rs !! i = Some r → ws !! i = Some w → regs m' r = w;
  po_kept : ∀ r, r ≠ RSP → r ∉ rs → regs m' r = regs m r;
  po_mem : mem m' = mem m;
  po_env : same_env m m'
}.

Lemma stack_at_app f a ws1 ws2 :
  stack_at f a (ws1 ++ ws2) ↔ stack_at f a ws1 ∧ stack_at f (a + 8 * Z.of_nat (length ws1)) ws2.
Proof.
  split.
  - intros H. split; intros i w Hi.
    + apply H. by apply lookup_app_l_Some.
    + rewrite <-(H (length ws1 + i)%nat w); [f_equal; lia|]. rewrite lookup_app_r by lia. by replace (length ws1 + i - length ws1)%nat with i by lia.
  - intros [H1 H2] i w Hi. apply lookup_app_Some in Hi as [Hi|[Hl Hi]]; [by apply H1|].
    rewrite <-(H2 _ _ Hi). f_equal. lia.
Qed.

Lemma stack_at_ext f g a ws :
  (∀ x, range a (8 * Z.of_nat (length ws)) x → g x = f x) → stack_at f a ws → stack_at g a ws.
Proof.
  intros Hg H i w Hi. rewrite <-(H i w Hi). apply load_ext. intros x Hx. apply Hg.
  apply lookup_lt_Some in Hi. unfold range in *. lia.
Qed.

Lemma wrap64_id x : is_u64 x → wrap64 x = x.
Proof. intros [??]. unfold wrap64, u64_max in *. apply Z.mod_small. lia. Qed.

Lemma pushed_one v m :
  is_u64 v → 8 ≤ regs m RSP ≤ u64_max → pushed [v] m (push v m).
Proof.
  intros Hv Hs. unfold push. rewrite wrap64_id by (unfold is_u64; lia).
  split; cbn [regs mem set_reg set_mem length].
  - rewrite decide_True by done. lia.
  - intros r Hr. by rewrite decide_False.
  - rewrite decide_True by done. intros [|i] w Hi; [|done]. injection Hi as <-. rewrite Z.add_0_r.
    apply load_store_eq. destruct Hv. unfold u64_max in *. change (256 ^ Z.of_nat 8) with (2 ^ 64). lia.
  - rewrite decide_True by done. intros x Hx. by apply store_ne.
  - by split.
Qed.

Lemma pushed_nil m : pushed [] m m.
Proof. split; [cbn; lia|done| |done|done]. by intros [|i]. Qed.

Lemma pushed_trans ws1 ws2 m m1 m2 :
  pushed ws1 m m1 → pushed ws2 m1 m2 → pushed (ws2 ++ ws1) m m2.
Proof.
  intros [r1 g1 s1 k1 e1] [r2 g2 s2 k2 e2]. rewrite ?length_app. split.
  - rewrite length_app. lia.
  - intros r Hr. by rewrite g2, g1.
  - apply stack_at_app. split; [done|]. replace (regs m2 RSP + 8 * Z.of_nat (length ws2)) with (regs m1 RSP) by lia.
    eapply stack_at_ext; [|exact s1]. intros x Hx. apply k2. unfold range in *. lia.
  - rewrite length_app. intros x Hx. rewrite k2, k1; [done|unfold range in *; lia..].
  - by trans m1.
Qed.

(** Code without calls or jumps. *)
Definition straight (i : instr) : bool :=
  match i with Jne _ | Call => false | _ => true end.

Lemma run_app f a b m : forallb straight a = true → run f 0 (a ++ b) m = run f 0 b (run f 0 a m).
Proof.
  revert m. induction a as [|i a IH]; intros m Ha; [done|]. cbn [forallb] in Ha. apply andb_prop in Ha as [Hi Ha].
  cbn [app run]. destruct i; try done; by apply IH.
Qed.

Lemma run_call_cons f b m : run f 0 (Call :: b) m = run f 0 b (f m).
Proof. done. Qed.

(** Code whose jumps stay inside it. *)
Fixpoint contained (code : list instr) : bool :=
  match code with
  | [] => true
  | i :: code => match i with Jne n => (n <=? length code)%nat | _ => true end && contained code
  end.

Lemma run_app_contained f a b k m :
  contained a = true → (k ≤ length a)%nat → run f k (a ++ b) m = run f 0 b (run f k a m).
Proof.
  revert k m. induction a as [|i a IH]; intros k m Ha Hk.
  { cbn in Hk. by replace k with O by lia. }
  cbn [contained] in Ha. apply andb_prop in Ha as [Hi Ha]. cbn [app run length] in *.
  destruct k as [|k]; [|apply IH; [done|lia]]. destruct i; try (apply IH; [done|lia]).
  apply IH; [done|]. apply Nat.leb_le in Hi. destruct (zf m); lia.
Qed.

Lemma run_app4 f a b c d m :
  forallb straight a = true → forallb straight b = true → forallb straight c = true →
  run f 0 (a ++ b ++ c ++ d) m = run f 0 d (run f 0 c (run f 0 b (run f 0 a m))).
Proof. intros Ha Hb Hc. by rewrite !run_app. Qed.

Lemma run_call f a b m :
  forallb straight a = true → run f 0 (a ++ Call :: b) m = run f 0 b (f (run f 0 a m)).
Proof. intros Ha. by rewrite run_app. Qed.

Lemma run_irrel f g a m : forallb straight a = true → run f 0 a m = run g 0 a m.
Proof.
  revert m. induction a as [|i a IH]; intros m Ha; [done|]. cbn [forallb] in Ha. apply andb_prop in Ha as [Hi Ha].
  cbn [run]. destruct i; try done; by apply IH.
Qed.

Lemma straight_push rs : forallb straight (Push <$> rs) = true.
Proof. by induction rs. Qed.
Lemma straight_pop rs : forallb straight (Pop <$> rs) = true.
Proof. by induction rs. Qed.

Lemma run_push f rs m :
  RSP ∉ rs → (∀ r, is_u64 (regs m r)) → 8 * Z.of_nat (length rs) ≤ regs m RSP →
  pushed (reverse (regs m <$> rs)) m (run f 0 (Push <$> rs) m).
Proof.
  revert m. induction rs as [|r rs IH]; intros m Hr Hu Hs; [apply pushed_nil|].
  apply not_elem_of_cons in Hr as [Hne Hr]. cbn [fmap list_fmap run exec length] in *.
  rewrite reverse_cons. pose proof (Hu RSP) as Hsp. unfold is_u64 in Hsp.
  pose proof (pushed_one (regs m r) m (Hu r) ltac:(lia)) as Hp. eapply pushed_trans; [exact Hp|].
  destruct Hp as [Hp1 Hp2 _ _ _]. change (length [regs m r]) with 1%nat in Hp1.
  replace (regs m <$> rs) with (regs (push (regs m r) m) <$> rs).
  - apply IH; [done| |lia]. intros q. destruct (decide (q = RSP)) as [->|]; [unfold is_u64; lia|]. rewrite Hp2 by done. apply Hu.
  - apply list_fmap_ext. intros i q Hq. apply Hp2. intros ->. apply Hr. by eapply list_elem_of_lookup_2.
Qed.

Lemma run_pop f rs ws m :
  RSP ∉ rs → NoDup rs → length ws = length rs → 0 ≤ regs m RSP → regs m RSP + 8 * Z.of_nat (length rs) ≤ u64_max →
  stack_at (mem m) (regs m RSP) ws →
  popped rs ws m (run f 0 (Pop <$> rs) m).
Proof.
  revert ws m. induction rs as [|r rs IH]; intros ws m Hr Hnd Hl H0 Hs Hst.
  { split; [cbn; lia|by intros [|i]|done..]. }
  destruct ws as [|w ws]; [done|]. apply not_elem_of_cons in Hr as [Hne Hr]. apply NoDup_cons in Hnd as [Hnin Hnd].
  cbn [fmap list_fmap run exec length] in *. set (m1 := set_reg r (top m) (drop_top m)).
  assert (regs m1 RSP = regs m RSP + 8) as Hsp.
  { cbn. rewrite decide_False, decide_True by done. apply wrap64_id. unfold is_u64. lia. }
  assert (regs m1 r = w) as Hw.
  { cbn. rewrite decide_True by done. pose proof (Hst 0%nat w eq_refl) as Ht. by rewrite Z.add_0_r in Ht. }
  destruct (IH ws m1 Hr Hnd ltac:(lia) ltac:(lia) ltac:(lia)) as [p1 p2 p3 p4 p5].
  { rewrite Hsp. apply (stack_at_app _ _ [w] ws) in Hst as [_ Hst]. done. }
  split.
  - etrans; [exact p1|]. cbn [length]. lia.
  - intros [|i] q v Hq Hv; [|by eapply p2]. cbn in Hq, Hv. simplify_eq. rewrite p3 by done. done.
  - intros q Hq Hin. apply not_elem_of_cons in Hin as [Hqr Hin]. rewrite p3 by done. cbn. by rewrite !decide_False.
  - by rewrite p4.
  - trans m1; [by split|done].
Qed.

(** *** The low half of [rax] *)

Lemma ax_set_ax v m : ax (set_ax v m) = v mod 2 ^ 16.
Proof.
  unfold set_ax, ax at 1. cbn [regs set_reg]. rewrite decide_True by done. unfold ax.
  rewrite (Z.mod_eq (regs m RAX)) by lia.
  replace (regs m RAX - (regs m RAX - 2 ^ 16 * (regs m RAX / 2 ^ 16)) + v mod 2 ^ 16)
    with (v mod 2 ^ 16 + regs m RAX / 2 ^ 16 * 2 ^ 16) by lia.
  rewrite Z.mod_add by lia. apply Z.mod_mod. lia.
Qed.

(** Only [rax] differs. *)
Lemma set_ax_kept v m : (∀ r, r ≠ RAX → regs (set_ax v m) r = regs m r) ∧ mem (set_ax v m) = mem m ∧ same_env m (set_ax v m).
Proof. split; [|by split]. intros r Hr. cbn. by rewrite decide_False. Qed.
