(* ===== verification/Idt.v ===== *)
(** * The interrupt table and dispatch

    Models kernel/src/arch/amd64/interrupts (idt.rs, base.rs, tables.rs and the
    two macros) and the interrupt stacks of gdt.rs.  [gate] is what the
    processor reads from a descriptor: the entries of the table decode to the
    stubs, with the privileges and stacks that are asked for. *)
From S2P Require Import Prelude Misc ByteMem Machine.

Definition IDT_COUNT : nat := 256.
Definition ISR_COUNT : Z := 32.

(** ** Descriptors *)

Record IDTEntry := mk_idt_entry {
  handler_low : Z;
  gdt_selector : Z;
  options : Z;
  handler_mid : Z;
  handler_hi : Z;
  idt_reserved : Z
}.

Definition idt_entry_new (handler gdt_selector int_stack_idx : Z) (disable_interrupts : bool) (dpl_priv : Z) : IDTEntry :=
  let options := Z.land int_stack_idx 7 in
  let options := if negb disable_interrupts then Z.lor options (Z.shiftl 1 8) else options in
  let options := Z.lor options (Z.shiftl 1 9) in
  let options := Z.lor options (Z.shiftl 1 10) in
  let options := Z.lor options (Z.shiftl 1 11) in
  let options := Z.lor options (Z.shiftl (Z.land dpl_priv 3) 13) in
  let options := Z.lor options (Z.shiftl 1 15) in
  mk_idt_entry (Z.land handler 0xFFFF) gdt_selector options (Z.land (Z.shiftr handler 16) 0xFFFF)
    (Z.shiftr handler 32 mod 2 ^ 32) 0.

(** [cs] is the selector in the CS register. *)
Definition idt_entry_empty (cs : Z) : IDTEntry := mk_idt_entry 0 cs 0 0 0 0.

(** ** The table *)

Definition DOUBLE_FAULT_IST_INDEX : Z := 0.
Definition PAGE_FAULT_IST_INDEX : Z := 1.

Definition handle_specific_interrupts (cs : Z) (idt_num : nat) (vectors : list IDTEntry) (handler : Z)
    : outcome (bool * list IDTEntry) :=
  if (idt_num =? 3)%nat then
    v ← arr_set vectors idt_num (idt_entry_new handler cs 0 true 3); Ret (true, v)
  else if (idt_num =? 128)%nat then
    v ← arr_set vectors idt_num (idt_entry_new handler cs 0 true 3); Ret (true, v)
  else if (idt_num =? 14)%nat then
    v ← arr_set vectors idt_num (idt_entry_new handler cs PAGE_FAULT_IST_INDEX true 0); Ret (true, v)
  else if (idt_num =? 8)%nat then
    v ← arr_set vectors idt_num (idt_entry_new handler cs DOUBLE_FAULT_IST_INDEX true 0); Ret (true, v)
  else Ret (false, vectors).

(** [stubs] is [interrupts_stub_table]. *)
Definition interrupt_table (cs : Z) (stubs : list Z) : outcome (list IDTEntry) :=
  for_range 0 IDT_COUNT (λ i vectors,
    handler ← arr_get stubs i;
    '(done, vectors) ← handle_specific_interrupts cs i vectors handler;
    if (done : bool) then Ret vectors
    else arr_set vectors i (idt_entry_new handler cs 0 true 0)) (replicate IDT_COUNT (idt_entry_empty cs)).

(** ** Dispatch *)

Section dispatch.
Context {H : Type}.

Record InterruptDescriptor := mk_descriptor { d_vector : Z; d_handler : H }.

Definition HANDLERS : list (option H) := replicate IDT_COUNT None.

Definition register_range (l : list InterruptDescriptor) (handlers : list (option H)) : outcome (list (option H)) :=
  for_each (λ d h, arr_set h (Z.to_nat (d_vector d)) (Some (d_handler d))) l handlers.

(** The tables are the sections that [isr!] and [irq!] fill. *)
Definition init_dispatch_from_sections (isr_table irq_table : list InterruptDescriptor) (handlers : list (option H))
    : outcome (list (option H)) :=
  h ← register_range isr_table handlers;
  register_range irq_table h.

Inductive trap_action :=
  | RunHandler (h : H)
  | HaltsUnhandled
  | EoiUnhandled.

Definition base_trap (handlers : list (option H)) (interrupt : Z) : outcome trap_action :=
  handler ← arr_get handlers (Z.to_nat interrupt);
  match handler with
  | Some h => Ret (RunHandler h)
  | None => if interrupt <? ISR_COUNT then Ret HaltsUnhandled else Ret EoiUnhandled
  end.

(** The compile-time assertions of the macros. *)
Definition isr_ok (d : InterruptDescriptor) : Prop := 0 ≤ d_vector d < ISR_COUNT.
Definition irq_ok (d : InterruptDescriptor) : Prop := ISR_COUNT ≤ d_vector d < Z.of_nat IDT_COUNT.

(** ** The processor's view *)

(** The handler of a vector: that of its last descriptor. *)
Definition handler_for (vec : Z) (l : list InterruptDescriptor) : option H :=
  d_handler <$> last (filter (λ d, d_vector d = vec) l).

Definition range_ok (l : list InterruptDescriptor) : Prop := Forall (λ d, 0 ≤ d_vector d < Z.of_nat IDT_COUNT) l.

Lemma handler_for_snoc vec l d :
  handler_for vec (l ++ [d]) = if decide (d_vector d = vec) then Some (d_handler d) else handler_for vec l.
Proof.
  unfold handler_for. rewrite filter_app. case_decide as Hd.
  - rewrite filter_cons_True, filter_nil by done. by rewrite last_snoc.
  - rewrite filter_cons_False, filter_nil by done. by rewrite app_nil_r.
Qed.

Lemma wp_register_range l handlers :
  range_ok l → length handlers = IDT_COUNT →
  wp (register_range l handlers) (λ h', length h' = IDT_COUNT ∧
    ∀ vec, 0 ≤ vec < Z.of_nat IDT_COUNT →
      h' !! Z.to_nat vec = match handler_for vec l with Some h => Some (Some h) | None => handlers !! Z.to_nat vec end).
Proof.
  intros Hl Hlen. unfold register_range.
  apply (wp_for_each _ _ _ (λ done h', length h' = IDT_COUNT ∧
    ∀ vec, 0 ≤ vec < Z.of_nat IDT_COUNT →
      h' !! Z.to_nat vec = match handler_for vec done with Some h => Some (Some h) | None => handlers !! Z.to_nat vec end)); [done| |done].
  intros done d rest h' -> [Hlh Hh]. apply Forall_app in Hl as [_ Hl]. apply Forall_cons in Hl as [Hd _].
  apply wp_arr_set; [lia|]. split; [by rewrite length_insert|]. intros vec Hv. rewrite handler_for_snoc. case_decide as Hc.
  - rewrite Hc. rewrite list_lookup_insert_eq by lia. done.
  - rewrite list_lookup_insert_ne by lia. by apply Hh.
Qed.

Lemma wp_dispatch isr_table irq_table vec (Q : trap_action → Prop) :
  Forall isr_ok isr_table → Forall irq_ok irq_table → 0 ≤ vec < Z.of_nat IDT_COUNT →
  Q match handler_for vec (if vec <? ISR_COUNT then isr_table else irq_table) with
    | Some h => RunHandler h
    | None => if vec <? ISR_COUNT then HaltsUnhandled else EoiUnhandled
    end →
  wp (h ← init_dispatch_from_sections isr_table irq_table HANDLERS; base_trap h vec) Q.
Proof.
  intros Hi Hq Hv HQ. unfold init_dispatch_from_sections. apply wp_bind, wp_bind.
  eapply wp_mono; [apply wp_register_range; [|apply length_replicate]|].
  { eapply Forall_impl; [exact Hi|]. unfold isr_ok, ISR_COUNT, IDT_COUNT. lia. }
  intros h1 [Hl1 H1]. eapply wp_mono; [apply wp_register_range; [|done]|].
  { eapply Forall_impl; [exact Hq|]. unfold irq_ok, ISR_COUNT. lia. }
  intros h2 [Hl2 H2]. unfold base_trap.
  assert (∀ l, (∀ d, d ∈ l → d_vector d ≠ vec) → handler_for vec l = None) as Hnone.
  { intros l. induction l as [|d l IH]; intros Hn; [done|]. unfold handler_for in *.
    rewrite filter_cons_False by (apply Hn; by left). apply IH. intros d' Hd'. apply Hn. by right. }
  rewrite Forall_forall in Hi, Hq. unfold isr_ok, irq_ok in *.
  assert (h2 !! Z.to_nat vec = Some (handler_for vec (if vec <? ISR_COUNT then isr_table else irq_table))) as Hh.
  { rewrite H2, H1 by done. unfold HANDLERS. rewrite lookup_replicate_2 by lia. destruct (Z.ltb_spec vec ISR_COUNT).
    - rewrite (Hnone irq_table) by (intros d Hd; specialize (Hq d Hd); lia). by destruct (handler_for vec isr_table).
    - rewrite (Hnone isr_table) by (intros d Hd; specialize (Hi d Hd); lia). by destruct (handler_for vec irq_table). }
  apply wp_bind, (wp_arr_get _ _ _ _ Hh).
  destruct (handler_for vec _); [by apply wp_ret|]. destruct (vec <? ISR_COUNT); by apply wp_ret.
Qed.

End dispatch.
Arguments InterruptDescriptor : clear implicits.
Arguments trap_action : clear implicits.

(** What the processor reads from a descriptor. *)
Record gate := mk_gate {
  g_offset : Z;
  g_selector : Z;
  g_ist : Z;
  g_type : Z;
  g_dpl : Z;
  g_present : bool
}.

Definition decode_gate (e : IDTEntry) : gate :=
  mk_gate (handler_low e + handler_mid e * 2 ^ 16 + handler_hi e * 2 ^ 32) (gdt_selector e) (options e mod 8)
    (options e / 2 ^ 8 mod 16) (options e / 2 ^ 13 mod 4) (Z.testbit (options e) 15).

(** An interrupt gate clears the interrupt flag, a trap gate does not. *)
Definition INTERRUPT_GATE : Z := 0xE.
Definition TRAP_GATE : Z := 0xF.

Lemma decode_new handler sel ist disable dpl :
  is_u64 handler → 0 ≤ ist < 8 → 0 ≤ dpl < 4 →
  decode_gate (idt_entry_new handler sel ist disable dpl) =
    mk_gate handler sel ist (if (disable : bool) then INTERRUPT_GATE else TRAP_GATE) dpl true.
Proof.
  intros [Hh0 Hh1] Hi Hd. unfold u64_max in Hh1.
  assert (ist = 0 ∨ ist = 1 ∨ ist = 2 ∨ ist = 3 ∨ ist = 4 ∨ ist = 5 ∨ ist = 6 ∨ ist = 7) as Hi' by lia.
  assert (dpl = 0 ∨ dpl = 1 ∨ dpl = 2 ∨ dpl = 3) as Hd' by lia. unfold decode_gate, idt_entry_new.
  cbn [handler_low handler_mid handler_hi gdt_selector options]. f_equal.
  - change 0xFFFF with (Z.ones 16). rewrite !Z.land_ones, !Z.shiftr_div_pow2 by lia.
    rewrite (Z.mod_small (handler / 2 ^ 32)) by (split; [by apply Z.div_pos|apply Z.div_lt_upper_bound; lia]).
    change (2 ^ 32) with (2 ^ 16 * 2 ^ 16). rewrite <-Z.div_div by lia.
    pose proof (Z.div_mod handler (2 ^ 16) ltac:(lia)). pose proof (Z.div_mod (handler / 2 ^ 16) (2 ^ 16) ltac:(lia)). lia.
  - by destruct disable; destruct_or! Hi'; destruct_or! Hd'; subst.
  - by destruct disable; destruct_or! Hi'; destruct_or! Hd'; subst.
  - by destruct disable; destruct_or! Hi'; destruct_or! Hd'; subst.
  - by destruct disable; destruct_or! Hi'; destruct_or! Hd'; subst.
Qed.

(** The gate of a vector: all are interrupt gates to the stub; [int3] and
    [int 0x80] may come from user mode, and page faults ask for a stack. *)
Definition gate_of (cs : Z) (vec : nat) (stub : Z) : gate :=
  mk_gate stub cs (if decide (vec = 14%nat) then 1 else 0) INTERRUPT_GATE
    (if decide (vec = 3%nat ∨ vec = 128%nat) then 3 else 0) true.

Lemma wp_table_entry cs i vectors stub (Q : list IDTEntry → Prop) :
  is_u64 stub → (i < length vectors)%nat →
  (∀ e, decode_gate e = gate_of cs i stub → Q (<[i:=e]> vectors)) →
  wp ('(done, vectors) ← handle_specific_interrupts cs i vectors stub;
      if (done : bool) then Ret vectors else arr_set vectors i (idt_entry_new stub cs 0 true 0)) Q.
Proof.
  intros Hs Hi HQ. unfold handle_specific_interrupts.
  assert (∀ ist dpl, 0 ≤ ist < 8 → 0 ≤ dpl < 4 →
    mk_gate stub cs ist INTERRUPT_GATE dpl true = gate_of cs i stub → Q (<[i:=idt_entry_new stub cs ist true dpl]> vectors)) as Hnew.
  { intros ist dpl H1 H2 Hg. apply HQ. by rewrite decode_new. }
  unfold gate_of in *.
  destruct (Nat.eqb_spec i 3) as [->|H3]; [apply wp_bind, wp_bind, wp_arr_set, wp_ret, wp_ret; [done|]; by apply Hnew; [lia..|]|].
  destruct (Nat.eqb_spec i 128) as [->|H128]; [apply wp_bind, wp_bind, wp_arr_set, wp_ret, wp_ret; [done|]; by apply Hnew; [lia..|]|].
  destruct (Nat.eqb_spec i 14) as [->|H14]; [apply wp_bind, wp_bind, wp_arr_set, wp_ret, wp_ret; [done|]; by apply Hnew; [done..|]|].
  rewrite (decide_False (P:=i = 14%nat)), (decide_False (P:=i = 3%nat ∨ i = 128%nat)) in Hnew by lia.
  destruct (Nat.eqb_spec i 8) as [->|H8]; [apply wp_bind, wp_bind, wp_arr_set, wp_ret, wp_ret; [done|]; by apply Hnew; [done..|]|].
  apply wp_bind, wp_ret, wp_arr_set; [done|]. by apply Hnew.
Qed.

Lemma wp_interrupt_table cs stubs :
  length stubs = IDT_COUNT → Forall is_u64 stubs →
  wp (interrupt_table cs stubs) (λ t, length t = IDT_COUNT ∧
    ∀ i stub, stubs !! i = Some stub → ∃ e, t !! i = Some e ∧ decode_gate e = gate_of cs i stub).
Proof.
  intros Hl Hu. unfold interrupt_table.
  apply (wp_for_range _ _ _ _ (λ k t, length t = IDT_COUNT ∧
    ∀ i stub, (i < k)%nat → stubs !! i = Some stub → ∃ e, t !! i = Some e ∧ decode_gate e = gate_of cs i stub)).
  - lia.
  - split; [apply length_replicate|]. intros i stub Hi. lia.
  - intros i t Hi [Hlt Ht]. destruct (lookup_lt_is_Some_2 stubs i) as [stub Hst]; [lia|].
    apply wp_bind, (wp_arr_get _ _ _ _ Hst). apply wp_table_entry; [|lia|].
    { rewrite Forall_forall in Hu. apply Hu. by eapply list_elem_of_lookup_2. }
    intros e He. split; [by rewrite length_insert|]. intros j s Hj Hs. destruct (decide (j = i)) as [->|Hne].
    + exists e. rewrite list_lookup_insert_eq by lia. split; [done|]. congruence.
    + rewrite list_lookup_insert_ne by done. apply Ht; [lia|done].
  - intros t [Hlt Ht]. split; [done|]. intros i stub Hi. apply Ht; [|done]. apply lookup_lt_Some in Hi. lia.
Qed.

(** ** Interrupt stacks *)

Definition TSS_STACK_SIZE_BYTES : Z := 4096 * 5.

(** The part of [TaskStateSegment] that is set: [interrupt_stack_table] and
    [privilege_stack_table[0]]. *)
Record TaskStateSegment := mk_task_state_segment { interrupt_stack_table : list Z; privilege_stack : Z }.

Definition tss_new : TaskStateSegment := mk_task_state_segment (replicate 7 0) 0.

(** [setup_gdt_for_local_core]: the stacks are arrays of the CPU's [PercpuGdt]. *)
Definition local_tss (df_stack pgf_stack kernel_stack : Z) : outcome TaskStateSegment :=
  let df_stack_top := df_stack + TSS_STACK_SIZE_BYTES in
  let pgf_stack_top := pgf_stack + TSS_STACK_SIZE_BYTES in
  let kernel_stack_top := kernel_stack + TSS_STACK_SIZE_BYTES in
  l ← arr_set (interrupt_stack_table tss_new) (Z.to_nat DOUBLE_FAULT_IST_INDEX) df_stack_top;
  l ← arr_set l (Z.to_nat PAGE_FAULT_IST_INDEX) pgf_stack_top;
  Ret (mk_task_state_segment l kernel_stack_top).

Definition set_tss_rsp0 (rsp0 : Z) (t : TaskStateSegment) : TaskStateSegment :=
  mk_task_state_segment (interrupt_stack_table t) rsp0.

(** The processor numbers the entries of the table from 1. *)
Definition hw_tss (t : TaskStateSegment) : tss :=
  mk_tss (privilege_stack t) (λ i, default 0 (interrupt_stack_table t !! Z.to_nat (i - 1))).

(** C34: the interrupt table has an interrupt gate to the stub of every vector,
    open to user mode only for [int3] and [int 0x80], and an interrupt runs the
    handler that was registered last for its vector; without one, exceptions
    halt and other interrupts are acknowledged. *)
Theorem interrupts_reach_handlers {H} cs stubs (isr_table irq_table : list (InterruptDescriptor H)) :
  length stubs = IDT_COUNT → Forall is_u64 stubs → Forall isr_ok isr_table → Forall irq_ok irq_table →
  wp (interrupt_table cs stubs) (λ t, length t = IDT_COUNT ∧
    ∀ i stub, stubs !! i = Some stub → ∃ e, t !! i = Some e ∧ decode_gate e = gate_of cs i stub) ∧
  ∀ vec, 0 ≤ vec < Z.of_nat IDT_COUNT →
    wp (h ← init_dispatch_from_sections isr_table irq_table HANDLERS; base_trap h vec) (λ a,
      a = match handler_for vec (if vec <? ISR_COUNT then isr_table else irq_table) with
          | Some h => RunHandler h
          | None => if vec <? ISR_COUNT then HaltsUnhandled else EoiUnhandled
          end).
Proof. intros Hl Hu Hi Hq. split; [by apply wp_interrupt_table|]. intros vec Hv. by apply wp_dispatch. Qed.

(** The three handlers of the kernel: page faults, timer and keyboard. *)
Lemma interrupts_reach_handlers_witness :
  let isr := [mk_descriptor 14 1] in
  let irq := [mk_descriptor 0x30 2; mk_descriptor 150 3] in
  wp (h ← init_dispatch_from_sections isr irq HANDLERS; base_trap h 150) (λ a, a = RunHandler 3) ∧
  wp (h ← init_dispatch_from_sections isr irq HANDLERS; base_trap h 13) (λ a, a = HaltsUnhandled).
Proof.
  intros isr irq.
  destruct (interrupts_reach_handlers 8 (replicate 256 0x1000) isr irq) as [_ Hd]; [reflexivity| | | |].
  - apply Forall_replicate. split; vm_compute; discriminate.
  - apply Forall_cons. split; [split; vm_compute; (reflexivity || discriminate)|constructor].
  - apply Forall_cons. split; [split; vm_compute; (reflexivity || discriminate)|].
    apply Forall_cons. split; [split; vm_compute; (reflexivity || discriminate)|constructor].
  - split; [exact (Hd 150 ltac:(split; vm_compute; (reflexivity || discriminate)))|
      exact (Hd 13 ltac:(split; vm_compute; (reflexivity || discriminate)))].
Defined.

(** Page faults take the stack of double faults, and a double fault in the
    kernel takes the stack it happened on: index 0 of a descriptor means no
    switch, and index 1 is the first entry of the table. *)
Theorem fault_stacks_swapped df pgf kst stub cs u :
  m_cs u mod 4 = 0 →
  wp (local_tss df pgf kst) (λ t,
    interrupt_stack (hw_tss t) (g_ist (gate_of cs 14 stub)) u = Z.land (df + TSS_STACK_SIZE_BYTES) (not64 15) ∧
    interrupt_stack (hw_tss t) (g_ist (gate_of cs 8 stub)) u = Z.land (regs u RSP) (not64 15)).
Proof. intros Hc. unfold interrupt_stack. cbn -[Z.land not64 Z.add]. by rewrite Hc. Qed.
