(* ===== verification/Gdt.v ===== *)
(** * Segments

    Models kernel/src/arch/amd64/gdt.rs: the descriptor tables of the boot CPU
    and of every other, the task state segments and the selectors.  The
    descriptor table and the STAR register are those of the x86_64 crate, whose
    documented behaviour is [GdtLaws]; [after_syscall] and [after_sysret] are
    the selectors the processor loads from STAR.  The theorem connects them to
    the constants the entry code and Machine.v work with. *)
From S2P Require Import Prelude Misc ByteMem Machine Idt.
#[local] Open Scope Z_scope.

(** [Descriptor]: the segments that are used. *)
Inductive Descriptor :=
  | kernel_code_segment
  | kernel_data_segment
  | user_data_segment
  | user_code_segment
  | tss_segment (tss : Z).

(** A selector is its index times 8 and the privilege level. *)
Definition segment_selector (index rpl : Z) : Z := Z.lor (Z.shiftl index 3) rpl.

Definition KERNEL_CODE_SELECTOR : Z := segment_selector 1 0.
Definition KERNEL_DATA_SELECTOR : Z := segment_selector 2 0.
Definition USER_DATA_SELECTOR : Z := segment_selector 3 3.
Definition USER_CODE_SELECTOR : Z := segment_selector 4 3.
Definition TSS_SELECTOR : Z := segment_selector 5 0.

(** [GlobalDescriptorTable] and [Star::write]. *)
Class GdtCrate (G : Type) := {
  gdt_new : G;
  gdt_append : G → Descriptor → outcome (G * Z);
  star_write : Z → Z → Z → Z → result () Z
}.

Definition descriptor_rpl (d : Descriptor) : Z :=
  match d with user_data_segment | user_code_segment => 3 | _ => 0 end.
Definition descriptor_slots (d : Descriptor) : Z := match d with tss_segment _ => 2 | _ => 1 end.

(** A table has eight slots, the first is the null descriptor. *)
Class GdtLaws (G : Type) `{!GdtCrate G} := {
  gdt_length : G → Z;
  descriptor_at : G → Z → option Descriptor;
  gdt_new_law : gdt_length gdt_new = 1;
  gdt_append_law g d :
    gdt_length g + descriptor_slots d ≤ 8 →
    wp (gdt_append g d) (λ '(g', sel), sel = segment_selector (gdt_length g) (descriptor_rpl d) ∧
      gdt_length g' = gdt_length g + descriptor_slots d ∧
      ∀ i, descriptor_at g' i = if decide (i = gdt_length g) then Some d else descriptor_at g i);
  star_write_law cs_sysret ss_sysret cs_syscall ss_syscall :
    cs_sysret = ss_sysret + 8 → ss_syscall = cs_syscall + 8 → ss_sysret mod 4 = 3 → ss_syscall mod 4 = 0 →
    8 ≤ ss_sysret < 2 ^ 16 → 0 ≤ cs_syscall < 2 ^ 16 →
    star_write cs_sysret ss_sysret cs_syscall ss_syscall = Ok (Z.lor (Z.shiftl (ss_sysret - 8) 48) (Z.shiftl cs_syscall 32))
}.

(** The segment registers, the table in use, STAR and the GS base of a CPU. *)
Record segments (G : Type) := mk_segments {
  sg_cs : Z; sg_ds : Z; sg_es : Z; sg_fs : Z; sg_gs : Z; sg_ss : Z; sg_tr : Z;
  sg_gdt : option G; sg_star : Z; sg_gs_base : Z
}.
Arguments mk_segments {G} _ _ _ _ _ _ _ _ _ _.
Arguments sg_cs {G} _. Arguments sg_ds {G} _. Arguments sg_es {G} _. Arguments sg_fs {G} _. Arguments sg_gs {G} _.
Arguments sg_ss {G} _. Arguments sg_tr {G} _. Arguments sg_gdt {G} _. Arguments sg_star {G} _. Arguments sg_gs_base {G} _.

Section gdt.
Context {G : Type} `{!GdtCrate G}.
Implicit Types (c : segments G) (g : G).

(** *** Registers *)

Definition load_gdt g c : segments G :=
  mk_segments (sg_cs c) (sg_ds c) (sg_es c) (sg_fs c) (sg_gs c) (sg_ss c) (sg_tr c) (Some g) (sg_star c) (sg_gs_base c).
Definition set_cs v c : segments G :=
  mk_segments v (sg_ds c) (sg_es c) (sg_fs c) (sg_gs c) (sg_ss c) (sg_tr c) (sg_gdt c) (sg_star c) (sg_gs_base c).
Definition set_ds v c : segments G :=
  mk_segments (sg_cs c) v (sg_es c) (sg_fs c) (sg_gs c) (sg_ss c) (sg_tr c) (sg_gdt c) (sg_star c) (sg_gs_base c).
Definition set_es v c : segments G :=
  mk_segments (sg_cs c) (sg_ds c) v (sg_fs c) (sg_gs c) (sg_ss c) (sg_tr c) (sg_gdt c) (sg_star c) (sg_gs_base c).
Definition set_fs v c : segments G :=
  mk_segments (sg_cs c) (sg_ds c) (sg_es c) v (sg_gs c) (sg_ss c) (sg_tr c) (sg_gdt c) (sg_star c) (sg_gs_base c).
(** Loading GS clears its base. *)
Definition set_gs v c : segments G :=
  mk_segments (sg_cs c) (sg_ds c) (sg_es c) (sg_fs c) v (sg_ss c) (sg_tr c) (sg_gdt c) (sg_star c) 0.
Definition set_ss v c : segments G :=
  mk_segments (sg_cs c) (sg_ds c) (sg_es c) (sg_fs c) (sg_gs c) v (sg_tr c) (sg_gdt c) (sg_star c) (sg_gs_base c).
Definition load_tss v c : segments G :=
  mk_segments (sg_cs c) (sg_ds c) (sg_es c) (sg_fs c) (sg_gs c) (sg_ss c) v (sg_gdt c) (sg_star c) (sg_gs_base c).
Definition set_star v c : segments G :=
  mk_segments (sg_cs c) (sg_ds c) (sg_es c) (sg_fs c) (sg_gs c) (sg_ss c) (sg_tr c) (sg_gdt c) v (sg_gs_base c).

(** *** The boot CPU *)

Definition build_gdt (tss : Z) : outcome G :=
  '(gdt, kernel_code_selector) ← gdt_append gdt_new kernel_code_segment;
  '(gdt, kernel_data_selector) ← gdt_append gdt kernel_data_segment;
  '(gdt, user_data_selector) ← gdt_append gdt user_data_segment;
  '(gdt, user_code_selector) ← gdt_append gdt user_code_segment;
  '(gdt, tss_selector) ← gdt_append gdt (tss_segment tss);
  _ ← assert (kernel_code_selector =? KERNEL_CODE_SELECTOR);
  _ ← assert (kernel_data_selector =? KERNEL_DATA_SELECTOR);
  _ ← assert (user_data_selector =? USER_DATA_SELECTOR);
  _ ← assert (user_code_selector =? USER_CODE_SELECTOR);
  _ ← assert (tss_selector =? TSS_SELECTOR);
  Ret gdt.

(** [Star::write(...).unwrap_or_else(panic)]. *)
Definition write_star (cs_sysret ss_sysret cs_syscall ss_syscall : Z) c : outcome (segments G) :=
  match star_write cs_sysret ss_sysret cs_syscall ss_syscall with
  | Ok v => Ret (set_star v c)
  | Err _ => Panic PExplicit
  end.

Definition load_gdt_and_segments g c : outcome (segments G) :=
  let c := load_gdt g c in
  let c := set_cs KERNEL_CODE_SELECTOR c in
  let c := set_ds KERNEL_DATA_SELECTOR c in
  let c := load_tss TSS_SELECTOR c in
  let c := set_es 0 c in
  let c := set_fs 0 c in
  let c := set_gs 0 c in
  let c := set_ss 0 c in
  write_star USER_CODE_SELECTOR USER_DATA_SELECTOR KERNEL_CODE_SELECTOR KERNEL_DATA_SELECTOR c.

Definition stack_top_ptr_raw (stack : Z) : Z := stack + TSS_STACK_SIZE_BYTES.

Definition create_bootstrap_tss (df_stack pf_stack : Z) : outcome TaskStateSegment :=
  l ← arr_set (interrupt_stack_table tss_new) (Z.to_nat DOUBLE_FAULT_IST_INDEX) (stack_top_ptr_raw df_stack);
  l ← arr_set l (Z.to_nat PAGE_FAULT_IST_INDEX) (stack_top_ptr_raw pf_stack);
  Ret (mk_task_state_segment l (privilege_stack tss_new)).

(** [tss_slot] is where [BOOTSTRAP_TSS] is. *)
Definition init_bootstrap_gdt (df_stack pf_stack tss_slot : Z) c : outcome (TaskStateSegment * segments G) :=
  tss ← create_bootstrap_tss df_stack pf_stack;
  gdt ← build_gdt tss_slot;
  c ← load_gdt_and_segments gdt c;
  Ret (tss, c).

(** *** The other CPUs *)

(** The selectors kept in [PercpuGdt]. *)
Record selectors := mk_selectors { sel_kcode : Z; sel_kdata : Z; sel_ucode : Z; sel_udata : Z; sel_tss : Z }.

Definition setup_gdt_for_local_core (df_stack pgf_stack kernel_stack tss_slot : Z) c
    : outcome (TaskStateSegment * selectors * segments G) :=
  tss ← local_tss df_stack pgf_stack kernel_stack;
  '(gdt, kcode) ← gdt_append gdt_new kernel_code_segment;
  '(gdt, kdata) ← gdt_append gdt kernel_data_segment;
  '(gdt, udata) ← gdt_append gdt user_data_segment;
  '(gdt, ucode) ← gdt_append gdt user_code_segment;
  '(gdt, tss_sel) ← gdt_append gdt (tss_segment tss_slot);
  let s := mk_selectors kcode kdata ucode udata tss_sel in
  let c := load_gdt gdt c in
  let c := set_cs kcode c in
  let c := set_ss kdata c in
  let c := set_ds kdata c in
  let c := set_es kdata c in
  let c := load_tss tss_sel c in
  c ← write_star (sel_ucode s) (sel_udata s) (sel_kcode s) (sel_kdata s) c;
  Ret (tss, s, c).
End gdt.

(** ** What the processor loads from STAR *)

Definition after_syscall (star : Z) : Z * Z :=
  let base := Z.shiftr star 32 mod 2 ^ 16 in (Z.land base 0xFFFC, base + 8).
Definition after_sysret (star : Z) : Z * Z :=
  let base := Z.shiftr star 48 in (Z.lor (base + 16) 3, Z.lor (base + 8) 3).

Section theorem.
Context {G : Type} `{!GdtCrate G, !GdtLaws G}.
Implicit Types (c : segments G) (g : G).

(** The table of the kernel, with the segment [tss]. *)
Definition kernel_gdt (tss : Z) g : Prop :=
  gdt_length g = 7 ∧ descriptor_at g 1 = Some kernel_code_segment ∧ descriptor_at g 2 = Some kernel_data_segment ∧
  descriptor_at g 3 = Some user_data_segment ∧ descriptor_at g 4 = Some user_code_segment ∧
  descriptor_at g 5 = Some (tss_segment tss).

(** The five appends, however the selectors are used afterwards. *)
Lemma appends_spec {A} tss (f : G → Z → Z → Z → Z → Z → outcome A) (Q : A → Prop) :
  (∀ g, kernel_gdt tss g → wp (f g 0x08 0x10 0x1b 0x23 0x28) Q) →
  wp ('(g, s1) ← gdt_append gdt_new kernel_code_segment;
      '(g, s2) ← gdt_append g kernel_data_segment;
      '(g, s3) ← gdt_append g user_data_segment;
      '(g, s4) ← gdt_append g user_code_segment;
      '(g, s5) ← gdt_append g (tss_segment tss);
      f g s1 s2 s3 s4 s5) Q.
Proof.
  intros H. pose proof (gdt_new_law (G:=G)) as L0.
  apply wp_bind. eapply wp_mono; [apply gdt_append_law; rewrite L0; cbn; lia|]. intros [g1 s1] (-> & L1 & D1). rewrite L0 in *. cbn [descriptor_slots] in *.
  apply wp_bind. eapply wp_mono; [apply gdt_append_law; rewrite L1; cbn; lia|]. intros [g2 s2] (-> & L2 & D2). rewrite L1 in *. cbn [descriptor_slots] in *.
  apply wp_bind. eapply wp_mono; [apply gdt_append_law; rewrite L2; cbn; lia|]. intros [g3 s3] (-> & L3 & D3). rewrite L2 in *. cbn [descriptor_slots] in *.
  apply wp_bind. eapply wp_mono; [apply gdt_append_law; rewrite L3; cbn; lia|]. intros [g4 s4] (-> & L4 & D4). rewrite L3 in *. cbn [descriptor_slots] in *.
  apply wp_bind. eapply wp_mono; [apply gdt_append_law; rewrite L4; cbn; lia|]. intros [g5 s5] (-> & L5 & D5). rewrite L4 in *. cbn [descriptor_slots] in *.
  apply H. split; [done|]. by rewrite !D5, !D4, !D3, !D2, !D1.
Qed.

Lemma write_star_spec c :
  wp (write_star 0x23 0x1b 0x08 0x10 c) (λ c', ∃ v, c' = set_star v c ∧
    after_syscall v = (KERNEL_CS, KERNEL_SS) ∧ after_sysret v = (USER_CS, USER_SS)).
Proof. unfold write_star. rewrite star_write_law by done. apply wp_ret. eexists. split; [done|]. split; reflexivity. Qed.

(** The segments of a CPU of the kernel. *)
Definition kernel_segments (tss : Z) c : Prop :=
  sg_cs c = KERNEL_CS ∧ sg_ds c = KERNEL_SS ∧ sg_tr c = 0x28 ∧ (∃ g, sg_gdt c = Some g ∧ kernel_gdt tss g) ∧
  after_syscall (sg_star c) = (KERNEL_CS, KERNEL_SS) ∧ after_sysret (sg_star c) = (USER_CS, USER_SS).

(** C33: on every CPU the segments are those the entry code relies on.  Neither
    the boot CPU nor another fails an assertion; its table holds the kernel's
    and the user's segments and its own task state segment; CS and DS are the
    kernel's; a system call enters and leaves with exactly the selectors that
    the entry code pushes and the interrupt table uses.  The interrupt stacks
    are the tops of the CPU's own; the start of a CPU leaves the GS base, which
    holds its per-CPU region, alone. *)
Theorem segments_agree df pgf kst tss c :
  wp (init_bootstrap_gdt df pgf tss c) (λ '(t, c'), kernel_segments tss c' ∧ sg_ss c' = 0 ∧
    take 2 (interrupt_stack_table t) = [df + TSS_STACK_SIZE_BYTES; pgf + TSS_STACK_SIZE_BYTES]) ∧
  wp (setup_gdt_for_local_core df pgf kst tss c) (λ '(t, s, c'), kernel_segments tss c' ∧ sg_ss c' = KERNEL_SS ∧
    sg_gs_base c' = sg_gs_base c ∧ s = mk_selectors KERNEL_CS KERNEL_SS USER_CS USER_SS 0x28 ∧
    take 2 (interrupt_stack_table t) = [df + TSS_STACK_SIZE_BYTES; pgf + TSS_STACK_SIZE_BYTES] ∧
    privilege_stack t = kst + TSS_STACK_SIZE_BYTES).
Proof.
  split.
  - unfold init_bootstrap_gdt.
    change (create_bootstrap_tss df pgf) with (Ret (mk_task_state_segment [df + TSS_STACK_SIZE_BYTES; pgf + TSS_STACK_SIZE_BYTES; 0; 0; 0; 0; 0] 0)).
    cbn [mbind outcome_bind]. unfold build_gdt. apply wp_bind.
    apply (wp_mono _ (kernel_gdt tss)); [apply appends_spec; intros g Hg; by apply wp_ret|]. intros g Hg.
    apply wp_bind. eapply wp_mono; [apply write_star_spec|]. intros c' (v & -> & H1 & H2). apply wp_ret.
    split; [|done]. do 3 (split; [done|]). split; [by exists g|done].
  - unfold setup_gdt_for_local_core.
    change (local_tss df pgf kst) with
      (Ret (mk_task_state_segment [df + TSS_STACK_SIZE_BYTES; pgf + TSS_STACK_SIZE_BYTES; 0; 0; 0; 0; 0] (kst + TSS_STACK_SIZE_BYTES))).
    cbn [mbind outcome_bind]. apply appends_spec. intros g Hg.
    cbv zeta. cbn [sel_kcode sel_kdata sel_ucode sel_udata]. apply wp_bind. eapply wp_mono; [apply write_star_spec|].
    intros c' (v & -> & H1 & H2). apply wp_ret. split; [|done]. do 3 (split; [done|]). split; [by exists g|done].
Qed.
End theorem.

(** ** A table as a list *)

Notation ref_gdt := (list (option Descriptor)).

#[global] Instance ref_gdt_crate : GdtCrate ref_gdt := {|
  gdt_new := [None];
  gdt_append g d :=
    if decide (Z.of_nat (length g) + descriptor_slots d ≤ 8)
    then Ret (g ++ Some d :: replicate (Z.to_nat (descriptor_slots d - 1)) None, segment_selector (Z.of_nat (length g)) (descriptor_rpl d))
    else Panic PExplicit;
  star_write cs_sysret ss_sysret cs_syscall ss_syscall :=
    if decide (cs_sysret = ss_sysret + 8 ∧ ss_syscall = cs_syscall + 8 ∧ ss_sysret mod 4 = 3 ∧ ss_syscall mod 4 = 0)
    then Ok (Z.lor (Z.shiftl (ss_sysret - 8) 48) (Z.shiftl cs_syscall 32)) else Err ()
|}.

#[global] Program Instance ref_gdt_laws : GdtLaws ref_gdt := {|
  gdt_length g := Z.of_nat (length g);
  descriptor_at g i := if decide (0 ≤ i) then mjoin (g !! Z.to_nat i) else None
|}.
Next Obligation. done. Qed.
Next Obligation.
  intros g d Hl. cbn. rewrite decide_True by done. apply wp_ret. split; [done|]. split.
  - rewrite length_app. cbn [length]. rewrite length_replicate. destruct d; cbn; lia.
  - intros i. destruct (decide (0 ≤ i)) as [Hi|Hi]; [|by rewrite decide_False by lia].
    destruct (decide (i = Z.of_nat (length g))) as [->|Hne]; [rewrite Nat2Z.id, (list_lookup_middle g); [done|done]|].
    destruct (decide (Z.to_nat i < length g)%nat) as [Hlt|Hge]; [by rewrite lookup_app_l by lia|].
    rewrite lookup_app_r by lia. rewrite (lookup_ge_None_2 g) by lia. replace (Z.to_nat i - length g)%nat with (S (Z.to_nat i - length g - 1)) by lia.
    cbn. destruct (replicate _ _ !! _) as [x|] eqn:E; [|done]. by apply lookup_replicate in E as [-> _].
Qed.
Next Obligation. intros cs_sysret ss_sysret cs_syscall ss_syscall H1 H2 H3 H4 _ _. cbn. by rewrite decide_True. Qed.

(** The start of a CPU whose per-CPU region is at 0x9000. *)
Lemma segments_agree_witness :
  wp (setup_gdt_for_local_core (G := ref_gdt) 0x10000 0x20000 0x30000 0x40000 (mk_segments 0 0 0 0 0 0 0 None 0 0x9000))
    (λ '(t, _, c), sg_cs c = 0x08 ∧ sg_ss c = 0x10 ∧ sg_gs_base c = 0x9000 ∧ privilege_stack t = 0x35000).
Proof.
  eapply wp_mono; [exact (proj2 (segments_agree (G := ref_gdt) 0x10000 0x20000 0x30000 0x40000 (mk_segments 0 0 0 0 0 0 0 None 0 0x9000)))|].
  intros [[t s] c] ((H1 & _) & H2 & H3 & _ & _ & H4). split; [exact H1|]. split; [exact H2|]. split; [exact H3|exact H4].
Defined.
