(* ===== verification/Slab.v ===== *)
(** * The slab allocator: operations

    Models kernel/src/arch/amd64/memory/pmm/slab.rs.  Small objects are carved
    out of slabs: blocks of pages that start with a [SlabHeader] and hold
    objects of one size class.  The header and the free list live in the block
    itself, so they are read from and written to the byte memory of ByteMem at
    the offsets the [repr(C)] layout gives them; a slab is found from an object
    through the metadata of its page ([Frame::next_free]).  Pages come from the
    page allocator, through the interface [HeapPages]. *)
From S2P Require Import Memblock Sparsemem Zones Paging.
From S2P Require Import Prelude Misc Frame ByteMem.
#[local] Open Scope Z_scope.

(** ** The page allocator as the slab allocator uses it

    [hp_alloc p mem order flags] is [alloc_pages_by_order], which may clear the
    pages it hands out, and [hp_free] is [free_pages]. *)
Class HeapPages (P : Type) := {
  hp_frames :: FrameStore P;
  hp_alloc : P → (Z → Z) → nat → Z → outcome (P * (Z → Z) * option Z);
  hp_free : P → Z → outcome P
}.

Definition SLAB_MAGIC : Z := 0xC0FFEE42.
Definition SLAB_POISON : Z := 0xDE.
Definition MAX_SLAB_ORDER : nat := 4.
Definition MIN_OBJS_PER_SLAB : Z := 8.
Definition MAX_EMPTY_SLABS : Z := 2.
Definition SLAB_MIN_ALIGN : Z := 16.
Definition SLAB_MAX_ALLOC : Z := 2048.
Definition CLASSES : list Z := [8; 16; 32; 64; 96; 128; 192; 256; 384; 512; 768; 1024; 1536; 2048].
Definition POISON_TAG : Z := 0xDEADBEEFDEADBEEF.

(** [mem::size_of::<FreeNode>()] and [mem::size_of::<SlabHeader>()]. *)
Definition FREE_NODE_BYTES : Z := 16.
Definition SLAB_HEADER_BYTES : Z := 40.

(** ** Free nodes: the first 16 bytes of a free object *)

Definition node_next (mem : Z → Z) (p : Z) : Z := load 8 mem p.
Definition node_poison (mem : Z → Z) (p : Z) : Z := load 8 mem (p + 8).
Definition set_node_next (p v : Z) (mem : Z → Z) : Z → Z := store 8 p v mem.
Definition set_node_poison (p v : Z) (mem : Z → Z) : Z → Z := store 8 (p + 8) v mem.

(** ** Slab headers *)

Module SlabList.
Inductive t := Partial | Full | Empty.
#[export] Instance eq_dec : EqDecision t.
Proof. solve_decision. Defined.

(** The discriminants of [repr(u8)]. *)
Definition byte (l : t) : Z := match l with Partial => 0 | Full => 1 | Empty => 2 end.
Definition of_byte (b : Z) : t := if b =? 0 then Partial else if b =? 1 then Full else Empty.
End SlabList.
Export (hints) SlabList.

Record SlabHeader := mk_header {
  sh_magic : Z;
  sh_class_idx : Z;
  sh_order : Z;
  sh_list : SlabList.t;
  sh_inuse : Z;
  sh_total : Z;
  sh_free : Z;
  sh_prev : Z;
  sh_next : Z
}.

(** Reading and writing a header at the field offsets of [repr(C)]. *)
Definition get_header (mem : Z → Z) (p : Z) : SlabHeader :=
  mk_header (load 4 mem p) (load 2 mem (p + 4)) (load 1 mem (p + 6))
    (SlabList.of_byte (load 1 mem (p + 7))) (load 2 mem (p + 8)) (load 2 mem (p + 10))
    (load 8 mem (p + 16)) (load 8 mem (p + 24)) (load 8 mem (p + 32)).

Definition put_header (p : Z) (h : SlabHeader) (mem : Z → Z) : Z → Z :=
  let mem := store 4 p (sh_magic h) mem in
  let mem := store 2 (p + 4) (sh_class_idx h) mem in
  let mem := store 1 (p + 6) (sh_order h) mem in
  let mem := store 1 (p + 7) (SlabList.byte (sh_list h)) mem in
  let mem := store 2 (p + 8) (sh_inuse h) mem in
  let mem := store 2 (p + 10) (sh_total h) mem in
  let mem := store 8 (p + 16) (sh_free h) mem in
  let mem := store 8 (p + 24) (sh_prev h) mem in
  store 8 (p + 32) (sh_next h) mem.

(** An assignment to fields of [*p]. *)
Definition upd_header (p : Z) (f : SlabHeader → SlabHeader) (mem : Z → Z) : Z → Z :=
  put_header p (f (get_header mem p)) mem.

Definition set_magic (v : Z) (h : SlabHeader) : SlabHeader :=
  mk_header v (sh_class_idx h) (sh_order h) (sh_list h) (sh_inuse h) (sh_total h) (sh_free h) (sh_prev h) (sh_next h).
Definition set_list (v : SlabList.t) (h : SlabHeader) : SlabHeader :=
  mk_header (sh_magic h) (sh_class_idx h) (sh_order h) v (sh_inuse h) (sh_total h) (sh_free h) (sh_prev h) (sh_next h).
Definition set_inuse (v : Z) (h : SlabHeader) : SlabHeader :=
  mk_header (sh_magic h) (sh_class_idx h) (sh_order h) (sh_list h) v (sh_total h) (sh_free h) (sh_prev h) (sh_next h).
Definition set_freelist (v : Z) (h : SlabHeader) : SlabHeader :=
  mk_header (sh_magic h) (sh_class_idx h) (sh_order h) (sh_list h) (sh_inuse h) (sh_total h) v (sh_prev h) (sh_next h).
Definition set_prev_slab (v : Z) (h : SlabHeader) : SlabHeader :=
  mk_header (sh_magic h) (sh_class_idx h) (sh_order h) (sh_list h) (sh_inuse h) (sh_total h) (sh_free h) v (sh_next h).
Definition set_next_slab (v : Z) (h : SlabHeader) : SlabHeader :=
  mk_header (sh_magic h) (sh_class_idx h) (sh_order h) (sh_list h) (sh_inuse h) (sh_total h) (sh_free h) (sh_prev h) v.

(** [PAGE_SIZE << order]. *)
Definition span_bytes (h : SlabHeader) : Z := wrap64 (Z.shiftl PAGE_SIZE (sh_order h)).
Definition objects_start (slab obj_size : Z) : outcome Z :=
  b ← add64 slab SLAB_HEADER_BYTES; align_up b obj_size.
Definition is_full (h : SlabHeader) : bool := sh_inuse h =? sh_total h.
Definition is_empty_slab (h : SlabHeader) : bool := sh_inuse h =? 0.

(** ** Buckets: doubly linked lists of slabs *)

Record SlabBucket := mk_bucket { bk_head : Z; bk_count : Z }.

Definition bucket_empty : SlabBucket := mk_bucket 0 0.
Definition bucket_is_empty (b : SlabBucket) : bool := bk_head b =? 0.
Definition bucket_len (b : SlabBucket) : Z := bk_count b.

Definition bucket_push (b : SlabBucket) (slab : Z) (tag : SlabList.t) (mem : Z → Z)
    : outcome (SlabBucket * (Z → Z)) :=
  let mem := upd_header slab (λ h, set_next_slab (bk_head b) (set_prev_slab 0 (set_list tag h))) mem in
  let mem := if bk_head b =? 0 then mem else upd_header (bk_head b) (set_prev_slab slab) mem in
  count ← add64 (bk_count b) 1;
  Ret (mk_bucket slab count, mem).

Definition bucket_remove (b : SlabBucket) (slab : Z) (mem : Z → Z)
    : outcome (SlabBucket * (Z → Z)) :=
  _ ← assert (0 <? bk_count b);
  let prev := sh_prev (get_header mem slab) in
  let next := sh_next (get_header mem slab) in
  let '(head, mem) := if prev =? 0 then (next, mem)
                      else (bk_head b, upd_header prev (set_next_slab next) mem) in
  let mem := if next =? 0 then mem else upd_header next (set_prev_slab prev) mem in
  let mem := upd_header slab (λ h, set_next_slab 0 (set_prev_slab 0 h)) mem in
  count ← sub64 (bk_count b) 1;
  Ret (mk_bucket head count, mem).

Definition bucket_pop (b : SlabBucket) (mem : Z → Z)
    : outcome (option Z * SlabBucket * (Z → Z)) :=
  if bk_head b =? 0 then Ret (None, b, mem)
  else
    let slab := bk_head b in
    '(b, mem) ← bucket_remove b slab mem;
    Ret (Some slab, b, mem).

(** ** Caches: one per size class *)

Inductive BucketKind := KPartial | KFull | KEmpty.

Record Cache := mk_cache {
  c_obj_size : Z;
  c_order : nat;
  c_objs_per_slab : Z;
  c_partial : SlabBucket;
  c_full : SlabBucket;
  c_empty : SlabBucket
}.

Definition cache_zeroed : Cache := mk_cache 0 0 0 bucket_empty bucket_empty bucket_empty.

(** The body of [init]'s loop. *)
Definition cache_init_step (obj_size : Z) (order : nat) : outcome (nat + nat * Z) :=
  let span := wrap64 (Z.shiftl PAGE_SIZE (Z.of_nat order)) in
  base ← align_up SLAB_HEADER_BYTES obj_size;
  let usable := sat_sub64 span base in
  let n := usable / obj_size in
  if (MIN_OBJS_PER_SLAB <=? n) || (MAX_SLAB_ORDER <=? order)%nat
  then Ret (inr (order, Z.max n 1))
  else Ret (inl (S order)).

Definition cache_init (c : Cache) (size_class : Z) : outcome Cache :=
  let obj_size := Z.max size_class FREE_NODE_BYTES in
  obj_size ← align_up obj_size SLAB_MIN_ALIGN;
  '(order, n) ← iter (S MAX_SLAB_ORDER) (cache_init_step obj_size) O;
  Ret (mk_cache obj_size order n (c_partial c) (c_full c) (c_empty c)).

Definition bucket_of (c : Cache) (kind : BucketKind) : SlabBucket :=
  match kind with KPartial => c_partial c | KFull => c_full c | KEmpty => c_empty c end.
Definition with_bucket (c : Cache) (kind : BucketKind) (b : SlabBucket) : Cache :=
  match kind with
  | KPartial => mk_cache (c_obj_size c) (c_order c) (c_objs_per_slab c) b (c_full c) (c_empty c)
  | KFull => mk_cache (c_obj_size c) (c_order c) (c_objs_per_slab c) (c_partial c) b (c_empty c)
  | KEmpty => mk_cache (c_obj_size c) (c_order c) (c_objs_per_slab c) (c_partial c) (c_full c) b
  end.

Definition move_slab (c : Cache) (slab : Z) (from to : BucketKind) (tag : SlabList.t) (mem : Z → Z)
    : outcome (Cache * (Z → Z)) :=
  '(b, mem) ← bucket_remove (bucket_of c from) slab mem;
  let c := with_bucket c from b in
  '(b, mem) ← bucket_push (bucket_of c to) slab tag mem;
  Ret (with_bucket c to b, mem).

(** ** The allocator *)

Record SlabAllocator := mk_slab_allocator { sa_zone : ZoneId.t; sa_caches : list Cache }.

Definition slab_new (zone : ZoneId.t) : SlabAllocator :=
  mk_slab_allocator zone (replicate (length CLASSES) cache_zeroed).

Definition slab_allocator_init (s : SlabAllocator) : outcome SlabAllocator :=
  caches ← for_range 0 (length (sa_caches s)) (λ i caches,
    size ← arr_get CLASSES i;
    c ← arr_get caches i;
    c ← cache_init c size;
    arr_set caches i c) (sa_caches s);
  Ret (mk_slab_allocator (sa_zone s) caches).

(** [position(|cls| needed <= cls)]. *)
Fixpoint class_position (needed : Z) (l : list Z) (i : nat) : option nat :=
  match l with
  | [] => None
  | cls :: l => if needed <=? cls then Some i else class_position needed l (S i)
  end.

Definition class_index (size : Z) : option nat :=
  class_position (Z.max size FREE_NODE_BYTES) CLASSES 0.

(** Returns the head of the list. *)
Definition build_freelist (slab_virt obj_size count : Z) (mem : Z → Z) : outcome (Z * (Z → Z)) :=
  base ← objects_start slab_virt obj_size;
  for_each (λ i '(cur, mem),
    off ← mul64 i obj_size;
    node ← add64 base off;
    Ret (node, set_node_poison node POISON_TAG (set_node_next node cur mem)))
    (rev (seqZ 0 count)) (0, mem).

Section slab.
Context {P PT : Type} {HP : HeapPages P} {X : X86_64 PT} (hhdm : Z).

(** The state behind [SLAB] and the memory it manages. *)
Record heap := mk_heap {
  h_slab : SlabAllocator;
  h_pages : P;
  h_mem : Z → Z
}.

Definition set_mem (mem : Z → Z) (h : heap) : heap := mk_heap (h_slab h) (h_pages h) mem.
Definition set_pages (p : P) (h : heap) : heap := mk_heap (h_slab h) p (h_mem h).
Definition cache_of (h : heap) (idx : nat) : outcome Cache := arr_get (sa_caches (h_slab h)) idx.
Definition with_cache (h : heap) (idx : nat) (c : Cache) : outcome heap :=
  l ← arr_set (sa_caches (h_slab h)) idx c;
  Ret (mk_heap (mk_slab_allocator (sa_zone (h_slab h)) l) (h_pages h) (h_mem h)).

(** Writing [next_free] of the frames of a slab, where they are present. *)
Definition link_frames (p : P) (head_pfn : Z) (order : nat) (v : Z) : outcome P :=
  for_each (λ i p,
    q ← add64 head_pfn i;
    match fs_get p q with
    | None => Ret p
    | Some f => Ret (fs_set p q (set_next v f))
    end) (seqZ 0 (2 ^ Z.of_nat order)) p.

Definition register_slab_in_sparsemem (p : P) (slab : Z) (order : nat) : outcome P :=
  phys ← virt_to_phys hhdm slab;
  let head_pfn := Z.shiftr phys PAGE_SHIFT in
  link_frames p head_pfn order head_pfn.

Definition release_slab (h : heap) (slab : Z) : outcome heap :=
  let order := Z.to_nat (sh_order (get_header (h_mem h) slab)) in
  base_phys ← virt_to_phys hhdm slab;
  let head_pfn := Z.shiftr base_phys PAGE_SHIFT in
  p ← link_frames (h_pages h) head_pfn order INVALID_PFN;
  let h := set_mem (upd_header slab (set_magic 0) (h_mem h)) (set_pages p h) in
  a ← phys_new base_phys;
  p ← hp_free (h_pages h) a;
  Ret (set_pages p h).

Definition grow (h : heap) (class_idx : nat) : outcome (heap * option Z) :=
  c ← cache_of h class_idx;
  let order := c_order c in
  let obj_size := c_obj_size c in
  let objs_per_slab := c_objs_per_slab c in
  '(p, mem, r) ← hp_alloc (h_pages h) (h_mem h) order KERNEL_PAGES;
  let h := set_mem mem (set_pages p h) in
  match r with
  | None => Ret (h, None)
  | Some phys =>
      virt ← phys_to_virt hhdm phys;
      let slab := virt in
      let mem := upd_header slab (λ sh,
        mk_header SLAB_MAGIC (Z.of_nat class_idx mod 2 ^ 16) (Z.of_nat order mod 2 ^ 8)
          SlabList.Partial 0 (objs_per_slab mod 2 ^ 16)
          (sh_free sh) (sh_prev sh) (sh_next sh)) (h_mem h) in
      '(free, mem) ← build_freelist virt obj_size objs_per_slab mem;
      let mem := upd_header slab (λ sh, set_next_slab 0 (set_prev_slab 0 (set_freelist free sh))) mem in
      p ← register_slab_in_sparsemem (h_pages h) slab order;
      Ret (set_mem mem (set_pages p h), Some slab)
  end.

Definition get_or_grow_partial (h : heap) (idx : nat) : outcome (heap * option Z) :=
  c ← cache_of h idx;
  if negb (bucket_is_empty (c_partial c)) then Ret (h, Some (bk_head (c_partial c)))
  else
    '(r, b, mem) ← bucket_pop (c_empty c) (h_mem h);
    let c := with_bucket c KEmpty b in
    match r with
    | Some slab =>
        '(free, mem) ← build_freelist slab (c_obj_size c) (c_objs_per_slab c) mem;
        let mem := upd_header slab (λ sh, set_inuse 0 (set_freelist free sh)) mem in
        '(b, mem) ← bucket_push (c_partial c) slab SlabList.Partial mem;
        h ← with_cache (set_mem mem h) idx (with_bucket c KPartial b);
        Ret (h, Some slab)
    | None =>
        '(h, r) ← grow h idx;
        match r with
        | None => Ret (h, None)
        | Some slab =>
            c ← cache_of h idx;
            '(b, mem) ← bucket_push (c_partial c) slab SlabList.Partial (h_mem h);
            h ← with_cache (set_mem mem h) idx (with_bucket c KPartial b);
            Ret (h, Some slab)
        end
    end.

(** [inuse] is a [u16]. *)
Definition add16 (x y : Z) : outcome Z := if x + y <? 2 ^ 16 then Ret (x + y) else Panic POverflow.

Definition slab_alloc_object (h : heap) (size : Z) (zeroed : bool) : outcome (heap * option Z) :=
  match class_index size with
  | None => Ret (h, None)
  | Some idx =>
      '(h, r) ← get_or_grow_partial h idx;
      match r with
      | None => Ret (h, None)
      | Some slab =>
          let sh := get_header (h_mem h) slab in
          _ ← assert (bool_decide (sh_list sh = SlabList.Partial));
          _ ← assert (negb (sh_free sh =? 0));
          let node := sh_free sh in
          inuse ← add16 (sh_inuse sh) 1;
          let mem := upd_header slab (λ sh,
            set_inuse inuse (set_freelist (node_next (h_mem h) node) sh)) (h_mem h) in
          let mem := set_node_poison node 0 mem in
          let h := set_mem mem h in
          h ← (if is_full (get_header mem slab) then
                 c ← cache_of h idx;
                 '(c, mem) ← move_slab c slab KPartial KFull SlabList.Full mem;
                 with_cache (set_mem mem h) idx c
               else Ret h);
          let obj := node in
          c ← cache_of h idx;
          let mem := if zeroed then fill obj (c_obj_size c) 0 (h_mem h) else h_mem h in
          Ret (set_mem mem h, Some obj)
      end
  end.

Definition find_slab (h : heap) (ptr_u : Z) : outcome (option Z) :=
  phys ← virt_to_phys hhdm ptr_u;
  let pfn := Z.shiftr phys PAGE_SHIFT in
  match fs_get (h_pages h) pfn with
  | None => Ret None
  | Some frame =>
      let head_pfn := f_next frame in
      if head_pfn =? INVALID_PFN then Ret None
      else
        slab ← phys_to_virt hhdm (wrap64 (Z.shiftl head_pfn PAGE_SHIFT));
        if negb (sh_magic (get_header (h_mem h) slab) =? SLAB_MAGIC) then Ret None
        else Ret (Some slab)
  end.

(** The part of [free] after the checks: the object goes back on the free list
    and its slab to the list it now belongs to. *)
Definition free_object (h : heap) (slab ptr_u : Z) (idx : nat) (obj_size : Z) : outcome heap :=
  let mem := fill ptr_u obj_size SLAB_POISON (h_mem h) in
  let sh := get_header mem slab in
  let mem := set_node_poison ptr_u POISON_TAG (set_node_next ptr_u (sh_free sh) mem) in
  let mem := upd_header slab (set_freelist ptr_u) mem in
  let was_full := bool_decide (sh_list sh = SlabList.Full) in
  inuse ← sub64 (sh_inuse sh) 1;
  let mem := upd_header slab (set_inuse inuse) mem in
  let h := set_mem mem h in
  h ← (if was_full then
         c ← cache_of h idx;
         '(c, mem) ← move_slab c slab KFull KPartial SlabList.Partial (h_mem h);
         with_cache (set_mem mem h) idx c
       else Ret h);
  if is_empty_slab (get_header (h_mem h) slab) then
    c ← cache_of h idx;
    '(c, mem) ← move_slab c slab KPartial KEmpty SlabList.Empty (h_mem h);
    h ← with_cache (set_mem mem h) idx c;
    if MAX_EMPTY_SLABS <? bucket_len (c_empty c) then
      '(r, b, mem) ← bucket_pop (c_empty c) (h_mem h);
      h ← with_cache (set_mem mem h) idx (with_bucket c KEmpty b);
      match r with
      | Some victim => release_slab h victim
      | None => Ret h
      end
    else Ret h
  else Ret h.

Definition slab_free_object (h : heap) (ptr_u : Z) : outcome (heap * bool) :=
  r ← find_slab h ptr_u;
  match r with
  | None => Ret (h, false)
  | Some slab =>
      let sh := get_header (h_mem h) slab in
      let idx := Z.to_nat (sh_class_idx sh) in
      if (length (sa_caches (h_slab h)) <=? idx)%nat then Ret (h, false)
      else
        c ← cache_of h idx;
        let obj_size := c_obj_size c in
        obj_base ← objects_start slab obj_size;
        slab_end ← add64 slab (span_bytes sh);
        if (ptr_u <? obj_base) || (slab_end <=? ptr_u) then Ret (h, false)
        else if negb ((ptr_u - obj_base) mod obj_size =? 0) then Ret (h, false)
        else if sh_inuse sh =? 0 then Ret (h, false)
        else if node_poison (h_mem h) ptr_u =? POISON_TAG then Panic PExplicit
        else
          h ← free_object h slab ptr_u idx obj_size;
          Ret (h, true)
  end.

(** ** The public functions *)

Definition slab_init (h : heap) : outcome heap :=
  s ← slab_allocator_init (h_slab h);
  Ret (mk_heap s (h_pages h) (h_mem h)).

Definition slab_alloc (h : heap) (size : Z) (zeroed : bool) : outcome (heap * option Z) :=
  '(h, r) ← slab_alloc_object h size zeroed;
  match r with
  | None => Ret (h, None)
  | Some p => a ← virt_new p; Ret (h, Some a)
  end.

Definition slab_free (h : heap) (ptr : Z) : outcome (heap * bool) :=
  if ptr =? 0 then Ret (h, false) else slab_free_object h ptr.
End slab.
Arguments heap : clear implicits.
