(* ===== verification/SlabMem.v ===== *)
(** * The slab allocator: what is in memory

    The layout of a slab: its header at the start of the block, read back as
    written, and its objects behind it, at the offsets of its size class.  The
    free list of a slab is a chain of nodes in its free objects ([chain]); the
    slabs of a bucket are a doubly linked list through their headers ([bseg]).
    Each statement comes with the bytes it depends on. *)
From S2P Require Import Memblock Sparsemem Zones Paging.
From S2P Require Import Prelude Misc Frame ByteMem Slab.
#[local] Open Scope Z_scope.

(** ** Headers *)

Record header_ok (h : SlabHeader) : Prop := {
  ho_magic : 0 ≤ sh_magic h < 2 ^ 32;
  ho_class : 0 ≤ sh_class_idx h < 2 ^ 16;
  ho_order : 0 ≤ sh_order h < 2 ^ 8;
  ho_inuse : 0 ≤ sh_inuse h < 2 ^ 16;
  ho_total : 0 ≤ sh_total h < 2 ^ 16;
  ho_free : 0 ≤ sh_free h < 2 ^ 64;
  ho_prev : 0 ≤ sh_prev h < 2 ^ 64;
  ho_next : 0 ≤ sh_next h < 2 ^ 64
}.

Lemma list_byte l : SlabList.of_byte (SlabList.byte l) = l.
Proof. by destruct l. Qed.

Lemma list_byte_range l : 0 ≤ SlabList.byte l < 256.
Proof. destruct l; simpl; lia. Qed.

Lemma get_put_header p h mem : header_ok h → get_header (put_header p h mem) p = h.
Proof.
  intros []. pose proof (list_byte_range (sh_list h)). unfold get_header, put_header.
  repeat first [rewrite load_store_eq by lia | rewrite load_store_ne by (unfold apart; lia)].
  rewrite list_byte. by destruct h.
Qed.

Lemma put_header_ne p h mem x : ¬ range p SLAB_HEADER_BYTES x → put_header p h mem x = mem x.
Proof.
  unfold range, SLAB_HEADER_BYTES. intros Hx. unfold put_header.
  by rewrite !store_ne by (unfold range; lia).
Qed.

Lemma get_header_ext p mem mem' :
  (∀ x, range p SLAB_HEADER_BYTES x → mem' x = mem x) → get_header mem' p = get_header mem p.
Proof.
  intros Hm. unfold range, SLAB_HEADER_BYTES in Hm.
  unfold get_header. f_equal; [..|f_equal|idtac|idtac|idtac|idtac|idtac];
    apply load_ext; unfold range; intros x Hx; apply Hm; lia.
Qed.

(** An update is seen by the next read, and changes only the header's bytes. *)
Lemma upd_header_spec p f mem h :
  get_header mem p = h → header_ok (f h) →
  get_header (upd_header p f mem) p = f h ∧
  ∀ x, ¬ range p SLAB_HEADER_BYTES x → upd_header p f mem x = mem x.
Proof.
  intros <- Hok. split; [by apply get_put_header|]. intros x. apply put_header_ne.
Qed.

(** ** Size classes

    What [Cache::init] computes for each class: object size, order of the slab,
    objects per slab, and the offset of the first object. *)
Record geometry := mk_geom { g_size : Z; g_order : nat; g_count : Z; g_off : Z }.

Definition geometries : list geometry :=
  [mk_geom 16 0 253 48; mk_geom 16 0 253 48; mk_geom 32 0 126 64; mk_geom 64 0 63 64;
   mk_geom 96 0 41 128; mk_geom 128 0 31 128; mk_geom 192 0 21 64; mk_geom 256 0 15 256;
   mk_geom 384 0 10 128; mk_geom 512 1 15 512; mk_geom 768 1 10 256; mk_geom 1024 2 15 1024;
   mk_geom 1536 2 10 512; mk_geom 2048 3 15 2048].

Definition NCLASSES : nat := 14.
Definition geom (i : nat) : geometry := nth i geometries (mk_geom 16 0 253 48).

Record geom_ok (g : geometry) : Prop := {
  go_size : 16 ≤ g_size g ≤ 2048;
  go_align : (16 | g_size g) ∧ (16 | g_off g);
  go_off : SLAB_HEADER_BYTES ≤ g_off g;
  go_fits : g_off g + g_count g * g_size g ≤ block_bytes (g_order g);
  go_count : 8 ≤ g_count g < 2 ^ 16;
  go_order : (g_order g ≤ MAX_SLAB_ORDER)%nat;
  go_start : Z.land (SLAB_HEADER_BYTES + g_size g - 1) (not64 (g_size g - 1)) = g_off g
}.

Lemma geometries_ok : Forall geom_ok geometries.
Proof.
  unfold geometries.
  repeat (apply List.Forall_cons; [|]); [..|constructor];
    (split; cbn [g_size g_off g_count g_order];
     [lia| |unfold SLAB_HEADER_BYTES; lia|unfold block_bytes, PAGE_SIZE; lia|lia
     |unfold MAX_SLAB_ORDER; lia|reflexivity]; split; apply Z.mod_divide; [lia|done|lia|done]).
Qed.

Lemma geom_good i : geom_ok (geom i).
Proof.
  unfold geom. destruct (nth_in_or_default i geometries (mk_geom 16 0 253 48)) as [Hin| ->].
  - apply list_elem_of_In in Hin. eapply Forall_forall; [apply geometries_ok|done].
  - eapply Forall_forall; [apply geometries_ok|]. by left.
Qed.

(** ** Where the objects are *)

Lemma testbit_not64 m k : 0 ≤ m < 2 ^ 64 → 0 ≤ k < 64 → Z.testbit (not64 m) k = negb (Z.testbit m k).
Proof.
  intros Hm Hk. unfold not64. change u64_max with (Z.ones 64).
  rewrite Z.sub_nocarry_ldiff.
  - rewrite Z.ldiff_spec, Z.ones_spec_low by lia. by destruct (Z.testbit m k).
  - destruct (decide (m = 0)) as [->|]; [done|].
    apply Z.ldiff_ones_r_low; [lia|]. apply Z.log2_lt_pow2; lia.
Qed.

Lemma testbit_page b k : (PAGE_SIZE | b) → 0 ≤ k < 12 → Z.testbit b k = false.
Proof.
  intros [q ->] Hk. change PAGE_SIZE with (2 ^ 12). rewrite <-Z.shiftl_mul_pow2 by lia.
  apply Z.shiftl_spec_low. lia.
Qed.

Lemma testbit_small y k : 0 ≤ y < PAGE_SIZE → 12 ≤ k → Z.testbit y k = false.
Proof.
  intros Hy Hk. destruct (decide (y = 0)) as [->|]; [apply Z.testbit_0_l|].
  apply Z.bits_above_log2; [lia|]. assert (Z.log2 y < 12); [|lia].
  apply Z.log2_lt_pow2; [lia|]. exact (proj2 Hy).
Qed.

Lemma page_add_lor b y : (PAGE_SIZE | b) → 0 ≤ y < PAGE_SIZE → b + y = Z.lor b y.
Proof.
  intros Hb Hy. rewrite <-(Z.lxor_lor b y); [apply Z.add_nocarry_lxor|];
    apply Z.bits_inj'; intros k Hk; rewrite Z.land_spec, Z.testbit_0_l;
    (destruct (decide (k < 12)); [by rewrite testbit_page by (done || lia)|]);
    rewrite (testbit_small y) by (done || lia); apply andb_false_r.
Qed.

(** Alignment within a page ignores the page's address. *)
Lemma land_page_base b y m :
  0 ≤ b < 2 ^ 64 → (PAGE_SIZE | b) → 0 ≤ y < PAGE_SIZE → 0 ≤ m < PAGE_SIZE →
  Z.land (b + y) (not64 m) = b + Z.land y (not64 m).
Proof.
  intros Hb Hpb Hy Hm.
  assert (0 ≤ Z.land y (not64 m) < PAGE_SIZE) as Hl.
  { split; [apply Z.land_nonneg; lia|].
    destruct (decide (Z.land y (not64 m) = 0)) as [->|]; [done|].
    change PAGE_SIZE with (2 ^ 12). apply Z.log2_lt_pow2; [pose proof (proj2 (Z.land_nonneg y (not64 m))); lia|].
    eapply Z.le_lt_trans; [apply Z.log2_land; [lia|unfold not64, u64_max, PAGE_SIZE in *; lia]|].
    destruct (decide (y = 0)) as [->|]; [rewrite Z.land_0_l in *; done|].
    eapply Z.le_lt_trans; [apply Z.le_min_l|]. apply Z.log2_lt_pow2; [lia|exact (proj2 Hy)]. }
  rewrite !page_add_lor by done. rewrite Z.land_lor_distr_l. f_equal.
  apply Z.bits_inj'. intros k Hk. rewrite Z.land_spec.
  destruct (decide (k < 12)); [by rewrite testbit_page by (done || lia)|].
  destruct (decide (k < 64)).
  - rewrite testbit_not64 by (unfold PAGE_SIZE in *; lia). rewrite (testbit_small m) by (done || lia).
    apply andb_true_r.
  - destruct (decide (b = 0)) as [->|]; [by rewrite Z.testbit_0_l|].
    rewrite (Z.bits_above_log2 b); [done|lia|]. apply Z.lt_le_trans with 64; [|lia].
    apply Z.log2_lt_pow2; lia.
Qed.

Definition obj_addr (i : nat) (base k : Z) : Z := base + g_off (geom i) + k * g_size (geom i).
Definition is_object (i : nat) (base x : Z) : Prop := ∃ k, 0 ≤ k < g_count (geom i) ∧ x = obj_addr i base k.
Definition span (i : nat) : Z := block_bytes (g_order (geom i)).

(** A place for a slab of class [i]. *)
Record site (i : nat) (base : Z) : Prop := {
  st_align : (PAGE_SIZE | base);
  st_pos : 0 < base;
  st_end : base + span i < 2 ^ 64
}.

Lemma page_le_span i : PAGE_SIZE ≤ span i.
Proof.
  unfold span, block_bytes. pose proof (Z.pow_pos_nonneg 2 (Z.of_nat (g_order (geom i))) ltac:(lia) ltac:(lia)).
  unfold PAGE_SIZE. lia.
Qed.

Lemma objects_start_spec i base :
  site i base → objects_start base (g_size (geom i)) = Ret (base + g_off (geom i)).
Proof.
  intros [Ha Hp He]. destruct (geom_good i) as [Hs _ _ _ _ _ Hst]. pose proof (page_le_span i) as Hsp.
  unfold objects_start, align_up, SLAB_HEADER_BYTES, PAGE_SIZE in *.
  cut (wp (objects_start base (g_size (geom i))) (λ r, r = base + g_off (geom i))).
  { unfold objects_start, align_up, SLAB_HEADER_BYTES. intros (r & E & Hr)%wp_elim. by rewrite E, Hr. }
  unfold objects_start, align_up, SLAB_HEADER_BYTES.
  apply wp_bind, wp_add64; [unfold u64_max; lia|]. apply wp_bind, wp_add64; [unfold u64_max; lia|].
  apply wp_bind, wp_sub64; [lia|]. apply wp_bind, wp_sub64; [lia|]. apply wp_ret.
  replace (base + 40 + g_size (geom i) - 1) with (base + (40 + g_size (geom i) - 1)) by lia.
  rewrite land_page_base; [by rewrite Hst|lia|done|unfold PAGE_SIZE; lia|unfold PAGE_SIZE; lia].
Qed.

Lemma object_bounds i base x :
  is_object i base x → base + SLAB_HEADER_BYTES ≤ x ∧ x + g_size (geom i) ≤ base + span i.
Proof.
  intros (k & Hk & ->). destruct (geom_good i) as [Hs _ Ho Hf Hc _ _]. unfold obj_addr, span. split; [nia|nia].
Qed.

Lemma objects_apart i base x y :
  is_object i base x → is_object i base y → x ≠ y → apart x (g_size (geom i)) y (g_size (geom i)).
Proof.
  intros (k & Hk & ->) (l & Hl & ->) Hne. destruct (geom_good i) as [Hs _ _ _ _ _ _].
  unfold apart, obj_addr in *. assert (k ≠ l) by congruence. nia.
Qed.

Lemma object_align i base x : (16 | base) → is_object i base x → (16 | x).
Proof.
  intros Hb (k & Hk & ->). destruct (geom_good i) as [_ [H1 H2] _ _ _ _ _]. unfold obj_addr.
  apply Z.divide_add_r; [by apply Z.divide_add_r|]. by apply Z.divide_mul_r.
Qed.

(** ** Free lists *)

Definition hd0 (l : list Z) : Z := match l with [] => 0 | x :: _ => x end.

Fixpoint chain (mem : Z → Z) (l : list Z) : Prop :=
  match l with
  | [] => True
  | x :: l => node_next mem x = hd0 l ∧ node_poison mem x = POISON_TAG ∧ chain mem l
  end.

Lemma chain_ext mem mem' l :
  (∀ x a, x ∈ l → range x FREE_NODE_BYTES a → mem' a = mem a) → chain mem l → chain mem' l.
Proof.
  induction l as [|x l IH]; [done|]. intros Hm (Hn & Hp & Hc). cbn [chain].
  unfold node_next, node_poison in *. split; [|split].
  - rewrite (load_ext 8 mem); [done|]. intros a Ha. apply (Hm x); [by left|].
    unfold range, FREE_NODE_BYTES in *. lia.
  - rewrite (load_ext 8 mem); [done|]. intros a Ha. apply (Hm x); [by left|].
    unfold range, FREE_NODE_BYTES in *. lia.
  - apply IH; [|done]. intros y a Hy. apply Hm. by right.
Qed.

(** Writing a node in front of a chain. *)
Lemma chain_cons mem x l :
  chain mem l → 0 ≤ hd0 l < 2 ^ 64 →
  (∀ y, y ∈ l → apart x FREE_NODE_BYTES y FREE_NODE_BYTES) →
  chain (set_node_poison x POISON_TAG (set_node_next x (hd0 l) mem)) (x :: l).
Proof.
  intros Hc Hl Ha. unfold set_node_poison, set_node_next. cbn [chain]. unfold node_next, node_poison.
  split; [|split].
  - rewrite load_store_ne by (unfold apart; lia). by apply load_store_eq.
  - by apply load_store_eq.
  - eapply chain_ext; [|exact Hc]. intros y a Hy Hr. specialize (Ha y Hy).
    unfold apart, range, FREE_NODE_BYTES in *. rewrite !store_ne; [done|unfold range; lia|unfold range; lia].
Qed.

(** The bytes [set_node_*] writes. *)
Lemma set_node_ne x v w mem a :
  ¬ range x FREE_NODE_BYTES a → set_node_poison x v (set_node_next x w mem) a = mem a.
Proof.
  unfold range, FREE_NODE_BYTES, set_node_poison, set_node_next. intros Ha.
  rewrite !store_ne; [done|unfold range; lia|unfold range; lia].
Qed.

Lemma node_in_object i base x a :
  is_object i base x → range x FREE_NODE_BYTES a → range x (g_size (geom i)) a.
Proof. intros _. destruct (geom_good i). unfold range, FREE_NODE_BYTES. lia. Qed.

(** The list [build_freelist] makes: every object, in address order. *)
Definition all_objects (i : nat) (base : Z) : list Z := obj_addr i base <$> seqZ 0 (g_count (geom i)).

Lemma elem_of_all_objects i base x : x ∈ all_objects i base ↔ is_object i base x.
Proof.
  unfold all_objects, is_object. rewrite list_elem_of_fmap. split.
  - intros (k & -> & Hk%elem_of_seqZ). exists k. split; [lia|done].
  - intros (k & Hk & ->). exists k. split; [done|]. apply elem_of_seqZ. lia.
Qed.

Lemma obj_addr_inj i base k l : obj_addr i base k = obj_addr i base l → k = l.
Proof. unfold obj_addr. destruct (geom_good i). nia. Qed.

Lemma all_objects_nodup i base : NoDup (all_objects i base).
Proof.
  apply NoDup_fmap_2; [intros k l; apply obj_addr_inj|apply NoDup_seqZ].
Qed.

Lemma all_objects_length i base : Z.of_nat (length (all_objects i base)) = g_count (geom i).
Proof. unfold all_objects. rewrite length_fmap, length_seqZ. destruct (geom_good i). lia. Qed.

Lemma build_freelist_spec i base mem :
  site i base →
  wp (build_freelist base (g_size (geom i)) (g_count (geom i)) mem) (λ '(cur, mem'),
    cur = hd0 (all_objects i base) ∧ chain mem' (all_objects i base) ∧
    ∀ a, (∀ x, is_object i base x → ¬ range x (g_size (geom i)) a) → mem' a = mem a).
Proof.
  intros Hst. pose proof Hst as [Ha Hp He]. unfold build_freelist. rewrite objects_start_spec by done.
  apply wp_bind, wp_ret. set (n := g_count (geom i)).
  apply (wp_for_each _ _ _ (λ done '(cur, mem'),
    let l := obj_addr i base <$> rev done in
    cur = hd0 l ∧ chain mem' l ∧
    ∀ a, (∀ x, is_object i base x → ¬ range x (g_size (geom i)) a) → mem' a = mem a)).
  - split; [done|]. split; [done|]. done.
  - intros done k rest [cur m1] Heq (-> & Hc & Hf).
    assert (∀ k', k' ∈ done ++ [k] → 0 ≤ k' < n) as Hin.
    { intros k' Hk'. assert (k' ∈ rev (seqZ 0 n)) as Hr%list_elem_of_In%in_rev%list_elem_of_In%elem_of_seqZ; [|lia].
      rewrite Heq. rewrite (assoc_L _ done [k] rest : done ++ k :: rest = _). apply elem_of_app. by left. }
    assert (0 ≤ k < n) as Hk by (apply Hin, elem_of_app; right; by left).
    assert (is_object i base (obj_addr i base k)) as Hobj by (exists k; split; [done|done]).
    assert (k ∉ done) as Hnk.
    { assert (NoDup (rev (seqZ 0 n))) as Hnd by (apply NoDup_ListNoDup, NoDup_rev, NoDup_ListNoDup, NoDup_seqZ).
      rewrite Heq in Hnd. apply NoDup_app in Hnd as (_ & Hd & _). intros Hd'. apply (Hd k Hd'). by left. }
    destruct (object_bounds _ _ _ Hobj) as [Hb1 Hb2]. unfold obj_addr in Hb2.
    destruct (geom_good i) as [Hs _ Hof _ _ _ _].
    apply wp_bind, wp_mul64; [unfold u64_max, SLAB_HEADER_BYTES in *; nia|].
    apply wp_bind, wp_add64; [unfold u64_max, SLAB_HEADER_BYTES in *; nia|].
    apply wp_ret. fold (obj_addr i base k). rewrite rev_app_distr. cbn [rev app fmap list_fmap].
    assert (∀ y, y ∈ obj_addr i base <$> rev done → is_object i base y ∧ y ≠ obj_addr i base k) as Hl.
    { intros y (k' & -> & Hk'%list_elem_of_In%in_rev%list_elem_of_In)%list_elem_of_fmap. split.
      - exists k'. split; [|done]. apply Hin, elem_of_app. by left.
      - intros ?%obj_addr_inj. by subst. }
    split; [done|]. split.
    + apply chain_cons; [done| |].
      * destruct (obj_addr i base <$> rev done) as [|y l] eqn:E; cbn [hd0]; [lia|].
        destruct (Hl y) as [Hy _]; [by left|]. destruct (object_bounds _ _ _ Hy). unfold SLAB_HEADER_BYTES in *. lia.
      * intros y Hy. destruct (Hl y Hy) as [Hyo Hne].
        pose proof (objects_apart _ _ _ _ Hobj Hyo (not_eq_sym Hne)). unfold apart, FREE_NODE_BYTES in *. lia.
    + intros a Ha'. rewrite set_node_ne; [by apply Hf|]. intros Hr.
      by apply (Ha' _ Hobj), (node_in_object i base).
  - intros [cur m1] (-> & Hc & Hf). rewrite rev_involutive in *. done.
Qed.
