(* ===== verification/SlabLists.v ===== *)
(** * The slab allocator: buckets

    The slabs of a bucket form a doubly linked list through their headers.
    [bucket_rep] ties a bucket to the list of its slabs; pushing and removing
    work on that list and write nothing but headers. *)
From S2P Require Import Memblock Sparsemem Zones Paging.
From S2P Require Import Prelude Misc Frame ByteMem Slab SlabMem.
#[local] Open Scope Z_scope.

(** A slab: its address and its free objects, in list order. *)
Record slab := mk_slab { s_base : Z; s_free : list Z }.

#[global] Instance slab_eq_dec : EqDecision slab.
Proof. solve_decision. Defined.

(** A slab of class [i]: at a possible place, with distinct objects of its own
    on its free list. *)
Record slab_ok (i : nat) (s : slab) : Prop := {
  so_site : site i (s_base s);
  so_nodup : NoDup (s_free s);
  so_objs : ∀ x, x ∈ s_free s → is_object i (s_base s) x
}.

(** What its header says. *)
Definition slab_header (i : nat) (tag : SlabList.t) (prev next : Z) (s : slab) : SlabHeader :=
  mk_header SLAB_MAGIC (Z.of_nat i) (Z.of_nat (g_order (geom i))) tag
    (g_count (geom i) - Z.of_nat (length (s_free s))) (g_count (geom i)) (hd0 (s_free s)) prev next.

Definition hd_base (l : list slab) (d : Z) : Z := match l with [] => d | s :: _ => s_base s end.
Definition last_base (d : Z) (l : list slab) : Z := default d (s_base <$> last l).

Fixpoint bseg (mem : Z → Z) (i : nat) (tag : SlabList.t) (prev : Z) (l : list slab) (next : Z) : Prop :=
  match l with
  | [] => True
  | s :: l =>
      get_header mem (s_base s) = slab_header i tag prev (hd_base l next) s ∧
      chain mem (s_free s) ∧ bseg mem i tag (s_base s) l next
  end.

Record bucket_rep (mem : Z → Z) (i : nat) (tag : SlabList.t) (b : SlabBucket) (l : list slab) : Prop := {
  br_head : bk_head b = hd_base l 0;
  br_count : bk_count b = Z.of_nat (length l);
  br_seg : bseg mem i tag 0 l 0
}.

(** The slabs of class [i] are well formed and do not overlap. *)
Record spread (i : nat) (l : list slab) : Prop := {
  sp_ok : ∀ s, s ∈ l → slab_ok i s;
  sp_nodup : NoDup (s_base <$> l);
  sp_apart : ∀ s s', s ∈ l → s' ∈ l → s_base s ≠ s_base s' →
    apart (s_base s) (span i) (s_base s') (span i)
}.

(** Only the bytes of headers of these slabs differ. *)
Definition only_headers (l : list slab) (mem mem' : Z → Z) : Prop :=
  ∀ x, (∀ s, s ∈ l → ¬ range (s_base s) SLAB_HEADER_BYTES x) → mem' x = mem x.

Lemma only_headers_refl l mem : only_headers l mem mem.
Proof. by intros x. Qed.

Lemma only_headers_trans l m1 m2 m3 :
  only_headers l m1 m2 → only_headers l m2 m3 → only_headers l m1 m3.
Proof. intros H1 H2 x Hx. by rewrite H2, H1. Qed.

Lemma only_headers_incl l l' m1 m2 :
  (∀ s, s ∈ l → ∃ s', s' ∈ l' ∧ s_base s' = s_base s) → only_headers l m1 m2 → only_headers l' m1 m2.
Proof.
  intros Hl H1 x Hx. apply H1. intros s Hs. destruct (Hl s Hs) as (s' & Hs' & <-). auto.
Qed.

(** ** Headers of slabs *)

Lemma slab_free_length i s : slab_ok i s → 0 ≤ Z.of_nat (length (s_free s)) ≤ g_count (geom i).
Proof.
  intros [_ Hnd Ho]. split; [lia|]. rewrite <-(all_objects_length i (s_base s)).
  apply Nat2Z.inj_le, submseteq_length, NoDup_submseteq; [done|].
  intros x Hx. apply elem_of_all_objects. auto.
Qed.

Lemma header_bytes_span i : SLAB_HEADER_BYTES ≤ span i.
Proof. pose proof (page_le_span i). unfold SLAB_HEADER_BYTES, PAGE_SIZE in *. lia. Qed.

Lemma slab_hd0 i s : slab_ok i s → 0 ≤ hd0 (s_free s) < 2 ^ 64.
Proof.
  intros [[_ Hp He] _ Ho]. destruct (s_free s) as [|x l]; cbn [hd0]; [lia|].
  destruct (object_bounds i (s_base s) x) as [H1 H2]; [apply Ho; by left|].
  destruct (geom_good i). unfold SLAB_HEADER_BYTES in *. lia.
Qed.

Lemma slab_header_ok i tag prev next s :
  (i < NCLASSES)%nat → slab_ok i s → 0 ≤ prev < 2 ^ 64 → 0 ≤ next < 2 ^ 64 →
  header_ok (slab_header i tag prev next s).
Proof.
  intros Hi Hs Hp Hn. pose proof (slab_free_length i s Hs). pose proof (slab_hd0 i s Hs).
  destruct (geom_good i). unfold NCLASSES, MAX_SLAB_ORDER in *.
  split; cbn [slab_header sh_magic sh_class_idx sh_order sh_inuse sh_total sh_free sh_prev sh_next];
    unfold SLAB_MAGIC; lia.
Qed.

(** ** Segments *)

Lemma hd_base_app l1 l2 d : hd_base (l1 ++ l2) d = hd_base l1 (hd_base l2 d).
Proof. by destruct l1. Qed.

Lemma last_base_cons d s l : last_base d (s :: l) = last_base (s_base s) l.
Proof. unfold last_base. rewrite last_cons. by destruct (last l). Qed.

Lemma last_base_snoc d l s : last_base d (l ++ [s]) = s_base s.
Proof. unfold last_base. by rewrite last_snoc. Qed.

Lemma bseg_app mem i tag prev l1 l2 next :
  bseg mem i tag prev (l1 ++ l2) next ↔
  bseg mem i tag prev l1 (hd_base l2 next) ∧ bseg mem i tag (last_base prev l1) l2 next.
Proof.
  revert prev. induction l1 as [|s l1 IH]; intros prev; cbn [app bseg]; [tauto|].
  rewrite IH, hd_base_app, last_base_cons. tauto.
Qed.

Lemma bseg_ext mem mem' i tag prev l next :
  (∀ s, s ∈ l → slab_ok i s) →
  (∀ s a, s ∈ l → range (s_base s) (span i) a → mem' a = mem a) →
  bseg mem i tag prev l next → bseg mem' i tag prev l next.
Proof.
  revert prev. induction l as [|s l IH]; intros prev Hok Hm; [done|]. intros (Hh & Hc & Hs). cbn [bseg].
  assert (slab_ok i s) as Hso by (apply Hok; by left). split; [|split].
  - rewrite (get_header_ext _ mem); [done|]. intros a Ha. apply (Hm s); [by left|].
    pose proof (header_bytes_span i). unfold range in *. lia.
  - eapply chain_ext; [|done]. intros x a Hx Ha. apply (Hm s); [by left|].
    destruct (object_bounds i (s_base s) x) as [H1 H2]; [by apply Hso|].
    destruct (geom_good i). unfold range, FREE_NODE_BYTES, SLAB_HEADER_BYTES in *. lia.
  - apply IH; [|intros s' a Hs'; apply Hm; by right|done]. intros s' Hs'. apply Hok. by right.
Qed.

(** A header update on one slab leaves every other slab as it was. *)
Lemma chain_header i s mem mem' :
  slab_ok i s → (∀ a, ¬ range (s_base s) SLAB_HEADER_BYTES a → mem' a = mem a) →
  chain mem (s_free s) → chain mem' (s_free s).
Proof.
  intros Hs Hm. apply chain_ext. intros x a Hx Ha. apply Hm.
  destruct (object_bounds i (s_base s) x) as [H1 H2]; [by apply Hs|]. unfold range in *. lia.
Qed.

Lemma header_apart i s s' a :
  apart (s_base s) (span i) (s_base s') (span i) →
  range (s_base s') (span i) a → ¬ range (s_base s) SLAB_HEADER_BYTES a.
Proof. pose proof (header_bytes_span i). unfold apart, range. lia. Qed.

(** Replacing one slab of a segment by one with the same address. *)
Lemma bseg_replace mem mem' i tag prev l1 s s' l2 next :
  spread i (l1 ++ s :: l2) → s_base s' = s_base s →
  (∀ a, ¬ range (s_base s) (span i) a → mem' a = mem a) →
  (∀ p n, get_header mem (s_base s) = slab_header i tag p n s →
          get_header mem' (s_base s) = slab_header i tag p n s') →
  chain mem' (s_free s') →
  bseg mem i tag prev (l1 ++ s :: l2) next → bseg mem' i tag prev (l1 ++ s' :: l2) next.
Proof.
  intros [Hok Hnd Hap] Hb Hm Hh Hc. rewrite !bseg_app. cbn [bseg hd_base]. rewrite Hb.
  rewrite fmap_app in Hnd. cbn [fmap list_fmap] in Hnd.
  apply NoDup_app in Hnd as (_ & Hd1 & [Hd2 _]%NoDup_cons).
  assert (∀ s2, s2 ∈ l1 ++ l2 → ∀ a, range (s_base s2) (span i) a → mem' a = mem a) as Hother.
  { intros s2 Hs2 a Ha. apply Hm.
    assert (s2 ∈ l1 ++ s :: l2 ∧ s_base s2 ≠ s_base s) as [Hin Hne].
    { apply elem_of_app in Hs2 as [Hs2|Hs2].
      - split; [apply elem_of_app; by left|]. intros E. apply (Hd1 (s_base s)); [|by left].
        rewrite <-E. by apply list_elem_of_fmap_2.
      - split; [apply elem_of_app; right; by right|]. intros E. apply Hd2. rewrite <-E. by apply list_elem_of_fmap_2. }
    assert (apart (s_base s2) (span i) (s_base s) (span i)) as Hx.
    { apply Hap; [done| |done]. apply elem_of_app. right. by left. }
    unfold apart, range in *. lia. }
  intros (H1 & H2 & H2c & H3). split; [|split; [|split]].
  - eapply bseg_ext; [| |exact H1].
    + intros s2 Hs2. apply Hok, elem_of_app. by left.
    + intros s2 a Hs2. apply Hother, elem_of_app. by left.
  - by apply Hh.
  - done.
  - eapply bseg_ext; [| |exact H3].
    + intros s2 Hs2. apply Hok, elem_of_app. right. by right.
    + intros s2 a Hs2. apply Hother, elem_of_app. by right.
Qed.

(** ** Updating the links of a slab *)

Lemma base_range i s : slab_ok i s → 0 < s_base s < 2 ^ 64.
Proof. intros [[_ Hp He] _ _]. pose proof (page_le_span i). unfold PAGE_SIZE in *. lia. Qed.

Lemma hd_base_range i l d :
  (∀ s, s ∈ l → slab_ok i s) → 0 ≤ d < 2 ^ 64 → 0 ≤ hd_base l d < 2 ^ 64.
Proof. intros Hl Hd. destruct l as [|s l]; [done|]. cbn. pose proof (base_range i s (Hl s ltac:(by left))). lia. Qed.

Lemma last_base_range i l d :
  (∀ s, s ∈ l → slab_ok i s) → 0 ≤ d < 2 ^ 64 → 0 ≤ last_base d l < 2 ^ 64.
Proof.
  intros Hl Hd. unfold last_base. destruct (last l) as [s|] eqn:E; [|done]. cbn.
  apply last_Some in E as [l' ->]. pose proof (base_range i s (Hl s ltac:(apply elem_of_app; right; by left))). lia.
Qed.

Lemma upd_slab i s tag p n tag' p' n' f mem :
  (i < NCLASSES)%nat → slab_ok i s → 0 ≤ p' < 2 ^ 64 → 0 ≤ n' < 2 ^ 64 →
  get_header mem (s_base s) = slab_header i tag p n s →
  f (slab_header i tag p n s) = slab_header i tag' p' n' s →
  get_header (upd_header (s_base s) f mem) (s_base s) = slab_header i tag' p' n' s ∧
  (∀ a, ¬ range (s_base s) SLAB_HEADER_BYTES a → upd_header (s_base s) f mem a = mem a).
Proof.
  intros Hi Hs Hp Hn Hh Hf. rewrite <-Hf. apply upd_header_spec; [done|]. rewrite Hf.
  by apply slab_header_ok.
Qed.

Lemma spread_sub i l l' : spread i l → (∀ s, s ∈ l' → s ∈ l) → NoDup (s_base <$> l') → spread i l'.
Proof. intros [H1 H2 H3] Hl Hnd. split; [auto|done|]. auto. Qed.

Lemma spread_ne i l1 s l2 s' : spread i (l1 ++ s :: l2) → s' ∈ l1 ++ l2 → s_base s' ≠ s_base s.
Proof.
  intros [_ Hnd _]. rewrite fmap_app in Hnd. cbn [fmap list_fmap] in Hnd.
  apply NoDup_app in Hnd as (_ & Hd1 & [Hd2 _]%NoDup_cons).
  intros [Hs|Hs]%elem_of_app E.
  - apply (Hd1 (s_base s)); [rewrite <-E; by apply list_elem_of_fmap_2|by left].
  - apply Hd2. rewrite <-E. by apply list_elem_of_fmap_2.
Qed.

Lemma elem_of_mid {A} (x : A) l1 y l2 : x ∈ l1 ++ y :: l2 ↔ x = y ∨ x ∈ l1 ++ l2.
Proof. rewrite !elem_of_app, elem_of_cons. tauto. Qed.

(** The bytes of the other slabs survive a header update of [s]. *)
Lemma spread_frame i l1 s l2 s' a :
  spread i (l1 ++ s :: l2) → s' ∈ l1 ++ l2 → range (s_base s') (span i) a →
  ¬ range (s_base s) SLAB_HEADER_BYTES a.
Proof.
  intros Hsp Hs'. apply header_apart. apply (sp_apart _ _ Hsp).
  - apply elem_of_mid. by left.
  - apply elem_of_mid. by right.
  - apply not_eq_sym. by eapply spread_ne.
Qed.

(** Setting [prev] of the first slab, if there is one. *)
Lemma relink_prev_slab i tag l prev p mem :
  (i < NCLASSES)%nat → spread i l → 0 ≤ p < 2 ^ 64 → bseg mem i tag prev l 0 →
  let mem' := if hd_base l 0 =? 0 then mem else upd_header (hd_base l 0) (set_prev_slab p) mem in
  bseg mem' i tag p l 0 ∧ only_headers l mem mem'.
Proof.
  intros Hi Hsp Hp. destruct l as [|s l]; [done|]. intros (Hh & Hc & Hs). cbn [hd_base].
  assert (slab_ok i s) as Hok by (apply Hsp; by left). pose proof (base_range i s Hok).
  destruct (Z.eqb_spec (s_base s) 0); [lia|]. cbv zeta.
  destruct (upd_slab i s tag prev (hd_base l 0) tag p (hd_base l 0) (set_prev_slab p) mem) as [Hh' Hf]; [done..| |done|done|].
  { apply (hd_base_range i); [|lia]. intros s' Hs'. apply Hsp. by right. }
  split; [cbn [bseg]; split; [done|split]|].
  - by eapply chain_header.
  - eapply bseg_ext; [| |exact Hs].
    + intros s' Hs'. apply Hsp. by right.
    + intros s' a Hs' Ha. apply Hf. by apply (spread_frame i [] s l s').
  - intros a Ha. apply Hf, Ha. by left.
Qed.

(** Setting [next] of the last slab of a segment. *)
Lemma relink_next_slab i tag l next n mem :
  (i < NCLASSES)%nat → spread i l → 0 ≤ n < 2 ^ 64 → l ≠ [] → bseg mem i tag 0 l next →
  let mem' := upd_header (last_base 0 l) (set_next_slab n) mem in
  bseg mem' i tag 0 l n ∧ only_headers l mem mem'.
Proof.
  intros Hi Hsp Hn Hne. destruct l as [|s l _] using rev_ind; [done|].
  cbv zeta. rewrite last_base_snoc, !bseg_app. cbn [bseg hd_base]. intros (Hs & Hh & Hc & _).
  assert (slab_ok i s) as Hok by (apply Hsp, elem_of_app; right; by left).
  destruct (upd_slab i s tag (last_base 0 l) next tag (last_base 0 l) n (set_next_slab n) mem)
    as [Hh' Hf]; [done..| |done|done|done|].
  { apply (last_base_range i); [|lia]. intros s' Hs'. apply Hsp, elem_of_app. by left. }
  split; [split; [|split; [done|split; [|done]]]|].
  - eapply bseg_ext; [| |exact Hs].
    + intros s' Hs'. apply Hsp, elem_of_app. by left.
    + intros s' a Hs' Ha. apply Hf. apply (spread_frame i l s [] s'); [done| |done].
      by rewrite app_nil_r.
  - by eapply chain_header.
  - intros a Ha. apply Hf, Ha, elem_of_app. right. by left.
Qed.

(** ** Push and remove *)

Lemma bucket_push_spec i tag b l s tag0 p0 n0 mem :
  (i < NCLASSES)%nat → spread i (s :: l) → bucket_rep mem i tag b l →
  get_header mem (s_base s) = slab_header i tag0 p0 n0 s → chain mem (s_free s) →
  Z.of_nat (length l) < u64_max →
  wp (bucket_push b (s_base s) tag mem) (λ '(b', mem'),
    bucket_rep mem' i tag b' (s :: l) ∧ only_headers (s :: l) mem mem').
Proof.
  intros Hi Hsp [Hhd Hcnt Hseg] Hh Hc Hlen. pose proof (sp_ok _ _ Hsp s ltac:(by left)) as Hok.
  pose proof (base_range i s Hok). unfold bucket_push. rewrite Hhd.
  assert (∀ s', s' ∈ l → slab_ok i s') as Hokl by (intros s' Hs'; apply Hsp; by right).
  assert (spread i l) as Hspl.
  { eapply spread_sub; [done|intros; by right|]. by destruct (proj1 (NoDup_cons _ _) (sp_nodup _ _ Hsp)). }
  destruct (upd_slab i s tag0 p0 n0 tag 0 (hd_base l 0)
    (λ h, set_next_slab (hd_base l 0) (set_prev_slab 0 (set_list tag h))) mem) as [Hh1 Hf1];
    [done|done|lia|by apply (hd_base_range i)|done|done|].
  set (mem1 := upd_header _ _ _) in *. clearbody mem1.
  assert (bseg mem1 i tag 0 l 0) as Hseg1.
  { eapply bseg_ext; [done| |done]. intros s' a Hs' Ha. apply Hf1. by apply (spread_frame i [] s l s'). }
  destruct (relink_prev_slab i tag l 0 (s_base s) mem1) as [Hseg2 Hf2]; [done|done|lia|done|].
  set (mem2 := if hd_base l 0 =? 0 then _ else _) in *. clearbody mem2.
  assert (∀ a, range (s_base s) (span i) a → mem2 a = mem1 a) as Hs2.
  { intros a Ha. apply Hf2. intros s' Hs'. apply (header_apart i s' s); [|done].
    apply (sp_apart _ _ Hsp); [by right|by left|]. by eapply (spread_ne i [] s l). }
  apply wp_bind, wp_add64; [lia|]. apply wp_ret. split.
  - split; [done|cbn; lia|]. cbn [bseg]. split; [|split; [|done]].
    + rewrite (get_header_ext _ mem1); [done|]. intros a Ha. apply Hs2.
      pose proof (header_bytes_span i). unfold range in *. lia.
    + eapply (chain_ext mem); [|done]. intros x a Hx Ha.
      destruct (object_bounds i (s_base s) x) as [H1 H2]; [by apply Hok|].
      destruct (geom_good i). unfold FREE_NODE_BYTES, SLAB_HEADER_BYTES in *.
      rewrite Hs2, Hf1; [done|unfold range, SLAB_HEADER_BYTES in *; lia|unfold range in *; lia].
  - intros a Ha. rewrite Hf2, Hf1; [done|apply Ha; by left|]. intros s' Hs'. apply Ha. by right.
Qed.

Lemma spread_split i l1 s l2 :
  spread i (l1 ++ s :: l2) → slab_ok i s ∧ spread i l1 ∧ spread i l2 ∧ spread i (l1 ++ l2).
Proof.
  intros Hsp. pose proof (sp_nodup _ _ Hsp) as Hnd. rewrite fmap_app in Hnd. cbn [fmap list_fmap] in Hnd.
  pose proof Hnd as (H1 & H2 & [H3 H4]%NoDup_cons)%NoDup_app.
  split; [apply Hsp, elem_of_mid; by left|]. split; [|split]; (eapply spread_sub; [exact Hsp| |]).
  - intros s' Hs'. apply elem_of_app. by left.
  - done.
  - intros s' Hs'. apply elem_of_app. right. by right.
  - done.
  - intros s' Hs'. apply elem_of_mid. by right.
  - rewrite fmap_app. apply NoDup_app. split; [done|]. split; [|done].
    intros x Hx Hx'. apply (H2 x Hx). by right.
Qed.

(** A segment keeps its slabs when only headers of others are written. *)
Lemma bseg_only_headers i tag prev l next L mem mem' :
  (∀ s, s ∈ l → slab_ok i s) →
  (∀ s s', s ∈ l → s' ∈ L → apart (s_base s') (span i) (s_base s) (span i)) →
  only_headers L mem mem' → bseg mem i tag prev l next → bseg mem' i tag prev l next.
Proof.
  intros Hok Hap Hm. apply bseg_ext; [done|]. intros s a Hs Ha. apply Hm.
  intros s' Hs'. apply (header_apart i s' s); auto.
Qed.

Lemma sides_apart i l1 s l2 s1 s2 :
  spread i (l1 ++ s :: l2) → s1 ∈ l1 → s2 ∈ l2 → apart (s_base s1) (span i) (s_base s2) (span i).
Proof.
  intros Hsp H1 H2. pose proof (sp_nodup _ _ Hsp) as Hnd. rewrite fmap_app in Hnd. cbn [fmap list_fmap] in Hnd.
  apply NoDup_app in Hnd as (_ & Hd & _). apply (sp_apart _ _ Hsp).
  - apply elem_of_app. by left.
  - apply elem_of_app. right. by right.
  - intros E. apply (Hd (s_base s1)); [by apply list_elem_of_fmap_2|]. right.
    rewrite E. by apply list_elem_of_fmap_2.
Qed.

Lemma mid_apart i l1 s l2 s' :
  spread i (l1 ++ s :: l2) → s' ∈ l1 ++ l2 → apart (s_base s') (span i) (s_base s) (span i).
Proof.
  intros Hsp Hs'. apply (sp_apart _ _ Hsp); [apply elem_of_mid; by right|apply elem_of_mid; by left|].
  by eapply spread_ne.
Qed.

(** The first half of [remove]: unlinking from the predecessor. *)
Lemma remove_pred i tag l1 s l2 b mem :
  (i < NCLASSES)%nat → spread i (l1 ++ s :: l2) → bk_head b = hd_base (l1 ++ s :: l2) 0 →
  bseg mem i tag 0 l1 (s_base s) →
  let '(head, mem') := if last_base 0 l1 =? 0 then (hd_base l2 0, mem)
                       else (bk_head b, upd_header (last_base 0 l1) (set_next_slab (hd_base l2 0)) mem) in
  head = hd_base (l1 ++ l2) 0 ∧ bseg mem' i tag 0 l1 (hd_base l2 0) ∧ only_headers l1 mem mem'.
Proof.
  intros Hi Hsp Hb Hs1. destruct (spread_split _ _ _ _ Hsp) as (Hok & Hsp1 & Hsp2 & _).
  destruct (decide (l1 = [])) as [->|Hne]; [by cbn|].
  assert (0 < last_base 0 l1) as Hpos.
  { destruct l1 as [|s1 l1 _] using rev_ind; [done|]. rewrite last_base_snoc.
    apply (base_range i). apply Hsp1, elem_of_app. right. by left. }
  destruct (Z.eqb_spec (last_base 0 l1) 0); [lia|].
  split; [rewrite Hb; by destruct l1|].
  apply (relink_next_slab i tag l1 (s_base s)); [done|done| |done|done].
  apply (hd_base_range i); [apply Hsp2|lia].
Qed.

Lemma bucket_remove_spec i tag b l1 s l2 mem :
  (i < NCLASSES)%nat → spread i (l1 ++ s :: l2) → bucket_rep mem i tag b (l1 ++ s :: l2) →
  Z.of_nat (length (l1 ++ s :: l2)) ≤ u64_max →
  wp (bucket_remove b (s_base s) mem) (λ '(b', mem'),
    bucket_rep mem' i tag b' (l1 ++ l2) ∧
    get_header mem' (s_base s) = slab_header i tag 0 0 s ∧ chain mem' (s_free s) ∧
    only_headers (l1 ++ s :: l2) mem mem').
Proof.
  intros Hi Hsp [Hhd Hcnt Hseg] Hlen. destruct (spread_split _ _ _ _ Hsp) as (Hok & Hsp1 & Hsp2 & Hsp12).
  rewrite bseg_app in Hseg. cbn [hd_base bseg] in Hseg. destruct Hseg as (Hs1 & Hh & Hc & Hs2).
  pose proof (base_range i s Hok). rewrite length_app in *. cbn [length] in *.
  unfold bucket_remove. apply wp_bind, wp_assert; [apply Z.ltb_lt; lia|].
  rewrite Hh. cbn [slab_header sh_prev sh_next].
  pose proof (remove_pred i tag l1 s l2 b mem Hi Hsp Hhd Hs1) as Hpred.
  destruct (if last_base 0 l1 =? 0 then _ else _) as [head mem1]. destruct Hpred as (-> & Hs1' & Hf1).
  assert (bseg mem1 i tag (s_base s) l2 0) as Hs2'.
  { eapply bseg_only_headers; [apply Hsp2| |exact Hf1|exact Hs2]. intros s2 s1 H2 H1. by eapply sides_apart. }
  destruct (relink_prev_slab i tag l2 (s_base s) (last_base 0 l1) mem1) as [Hs2'' Hf2]; [done|done| |done|].
  { apply (last_base_range i); [apply Hsp1|lia]. }
  set (mem2 := if hd_base l2 0 =? 0 then _ else _) in *. clearbody mem2.
  assert (bseg mem2 i tag 0 l1 (hd_base l2 0)) as Hs1''.
  { eapply bseg_only_headers; [apply Hsp1| |exact Hf2|exact Hs1']. intros s1 s2 H1 H2.
    apply apart_sym. by eapply sides_apart. }
  assert (∀ a, range (s_base s) (span i) a → mem2 a = mem a) as Hsame.
  { intros a Ha. rewrite Hf2, Hf1; [done| |]; intros s' Hs'; apply (header_apart i s' s); try done;
      (eapply mid_apart; [exact Hsp|apply elem_of_app; auto]). }
  assert (get_header mem2 (s_base s) = slab_header i tag (last_base 0 l1) (hd_base l2 0) s) as Hh2.
  { rewrite (get_header_ext _ mem); [done|]. intros a Ha. apply Hsame.
    pose proof (header_bytes_span i). unfold range in *. lia. }
  destruct (upd_slab i s tag (last_base 0 l1) (hd_base l2 0) tag 0 0
    (λ h, set_next_slab 0 (set_prev_slab 0 h)) mem2) as [Hh3 Hf3]; [done|done|lia|lia|done|done|].
  set (mem3 := upd_header _ _ mem2) in *. clearbody mem3.
  apply wp_bind, wp_sub64; [lia|]. apply wp_ret. split; [|split; [done|split]].
  - split; [done|cbn; rewrite length_app; lia|].
    eapply bseg_ext; [apply Hsp12| |].
    + intros s' a Hs' Ha. apply Hf3. by eapply (spread_frame i l1 s l2 s').
    + apply bseg_app. done.
  - eapply (chain_header i); [done|exact Hf3|]. eapply chain_ext; [|exact Hc]. intros x a Hx Ha. apply Hsame.
    destruct (object_bounds i (s_base s) x) as [H1 H2]; [by apply Hok|].
    destruct (geom_good i). unfold range, FREE_NODE_BYTES, SLAB_HEADER_BYTES in *. lia.
  - intros a Ha. rewrite Hf3, Hf2, Hf1; [done|..].
    + intros s' Hs'. apply Ha, elem_of_app. by left.
    + intros s' Hs'. apply Ha, elem_of_app. right. by right.
    + apply Ha, elem_of_mid. by left.
Qed.

Lemma bucket_pop_spec i tag b l mem :
  (i < NCLASSES)%nat → spread i l → bucket_rep mem i tag b l → Z.of_nat (length l) ≤ u64_max →
  wp (bucket_pop b mem) (λ '(r, b', mem'),
    match l with
    | [] => r = None ∧ b' = b ∧ mem' = mem
    | s :: l => r = Some (s_base s) ∧ bucket_rep mem' i tag b' l ∧
        get_header mem' (s_base s) = slab_header i tag 0 0 s ∧ chain mem' (s_free s) ∧
        only_headers (s :: l) mem mem'
    end).
Proof.
  intros Hi Hsp Hrep Hlen. unfold bucket_pop. rewrite (br_head _ _ _ _ _ Hrep).
  destruct l as [|s l]; cbn [hd_base]; [by apply wp_ret|].
  pose proof (base_range i s (sp_ok _ _ Hsp s ltac:(by left))).
  destruct (Z.eqb_spec (s_base s) 0); [lia|].
  apply wp_bind. eapply wp_mono; [by apply (bucket_remove_spec i tag b [] s l mem)|].
  intros [b' mem'] H1. by apply wp_ret.
Qed.
