(* ===== verification/SlabCaches.v ===== *)
(** * The slab allocator: caches

    A cache holds the slabs of one size class in three buckets.  [cache_mem]
    ties it to the lists of its slabs; a view [v] gives the list of each
    bucket.  The lemmas move slabs between buckets, take an object off the free
    list of a slab and put one back. *)
From stdpp Require Import functions.
From S2P Require Import Memblock Sparsemem Zones Paging.
From S2P Require Import Prelude Misc Frame ByteMem Slab SlabMem SlabLists.
#[local] Open Scope Z_scope.

#[global] Instance kind_eq_dec : EqDecision BucketKind.
Proof. solve_decision. Defined.

Definition tag_of (k : BucketKind) : SlabList.t :=
  match k with KPartial => SlabList.Partial | KFull => SlabList.Full | KEmpty => SlabList.Empty end.

Notation view := (BucketKind → list slab).

Definition slabs (v : view) : list slab := v KPartial ++ v KFull ++ v KEmpty.

Lemma elem_of_slabs (v : view) s : s ∈ slabs v ↔ ∃ k, s ∈ v k.
Proof.
  unfold slabs. rewrite !elem_of_app. split.
  - intros [?|[?|?]]; eauto.
  - intros [[] ?]; tauto.
Qed.

Record cache_mem (mem : Z → Z) (i : nat) (c : Cache) (v : view) : Prop := {
  cm_size : c_obj_size c = g_size (geom i);
  cm_order : c_order c = g_order (geom i);
  cm_count : c_objs_per_slab c = g_count (geom i);
  cm_bucket : ∀ k, bucket_rep mem i (tag_of k) (bucket_of c k) (v k);
  cm_spread : spread i (slabs v)
}.

(** How full the slabs of each bucket are. *)
Definition kind_use (i : nat) (k : BucketKind) (s : slab) : Prop :=
  match k with
  | KPartial => s_free s ≠ [] ∧ Z.of_nat (length (s_free s)) < g_count (geom i)
  | KFull => s_free s = []
  | KEmpty => Z.of_nat (length (s_free s)) = g_count (geom i)
  end.

Record cache_use (i : nat) (v : view) : Prop := {
  cu_kind : ∀ k s, s ∈ v k → kind_use i k s;
  cu_empty : Z.of_nat (length (v KEmpty)) ≤ MAX_EMPTY_SLABS
}.

(** Only bytes inside these slabs differ. *)
Definition only_slabs (i : nat) (l : list slab) (mem mem' : Z → Z) : Prop :=
  ∀ a, (∀ s, s ∈ l → ¬ range (s_base s) (span i) a) → mem' a = mem a.

Lemma only_headers_slabs i l mem mem' : only_headers l mem mem' → only_slabs i l mem mem'.
Proof.
  intros Hm a Ha. apply Hm. intros s Hs Hr. apply (Ha s Hs).
  pose proof (header_bytes_span i). unfold range in *. lia.
Qed.

Lemma spread_length i l : spread i l → Z.of_nat (length l) ≤ u64_max.
Proof.
  intros [Hok Hnd _]. rewrite <-(length_fmap s_base).
  assert (s_base <$> l ⊆+ seqZ 1 u64_max) as Hsub.
  { apply NoDup_submseteq; [done|]. intros x (s & -> & Hs)%list_elem_of_fmap.
    pose proof (base_range i s (Hok s Hs)). apply elem_of_seqZ. unfold u64_max. lia. }
  apply submseteq_length in Hsub. rewrite length_seqZ in Hsub. unfold u64_max in *. lia.
Qed.

Lemma spread_perm i l l' : l ≡ₚ l' → spread i l → spread i l'.
Proof.
  intros Hp Hsp. eapply spread_sub; [done|intros s; by rewrite Hp|].
  rewrite <-Hp. apply Hsp.
Qed.

(** ** Views *)

Lemma bucket_other c k k' b : k ≠ k' → bucket_of (with_bucket c k b) k' = bucket_of c k'.
Proof. by destruct k, k'. Qed.
Lemma bucket_same c k b : bucket_of (with_bucket c k b) k = b.
Proof. by destruct k. Qed.

Lemma slabs_insert (v : view) k l l1 l2 :
  v k = l1 → l1 ≡ₚ l2 ++ l → slabs v ≡ₚ l2 ++ slabs (<[k:=l]> v).
Proof.
  intros Hk Hp. unfold slabs. destruct k; rewrite ?fn_lookup_insert, ?fn_lookup_insert_ne by done;
    rewrite Hk, Hp; solve_Permutation.
Qed.

Lemma spread_kind i (v : view) k : spread i (slabs v) → spread i (v k).
Proof.
  intros Hsp. pose proof (sp_nodup _ _ Hsp) as Hnd. unfold slabs in Hnd. rewrite !fmap_app in Hnd.
  apply NoDup_app in Hnd as (H1 & _ & (H2 & _ & H3)%NoDup_app).
  eapply spread_sub; [done|intros s Hs; apply elem_of_slabs; eauto|by destruct k].
Qed.

(** The slabs of different buckets are different. *)
Lemma kinds_apart i (v : view) k k' s s' :
  spread i (slabs v) → k ≠ k' → s ∈ v k → s' ∈ v k' → apart (s_base s) (span i) (s_base s') (span i).
Proof.
  intros Hsp Hne Hs Hs'. apply (sp_apart _ _ Hsp); [apply elem_of_slabs; eauto..|].
  pose proof (sp_nodup _ _ Hsp) as Hnd. unfold slabs in Hnd. rewrite !fmap_app in Hnd.
  apply NoDup_app in Hnd as (_ & H1 & (_ & H2 & _)%NoDup_app).
  apply (list_elem_of_fmap_2 s_base) in Hs, Hs'.
  intros E. rewrite E in Hs. destruct k, k'; try done.
  - apply (H1 _ Hs). apply elem_of_app. by left.
  - apply (H1 _ Hs). apply elem_of_app. by right.
  - apply (H1 _ Hs'). apply elem_of_app. by left.
  - by apply (H2 _ Hs).
  - apply (H1 _ Hs'). apply elem_of_app. by right.
  - by apply (H2 _ Hs').
Qed.

Lemma bucket_rep_ext i tag b l mem mem' :
  (∀ s, s ∈ l → slab_ok i s) →
  (∀ s a, s ∈ l → range (s_base s) (span i) a → mem' a = mem a) →
  bucket_rep mem i tag b l → bucket_rep mem' i tag b l.
Proof. intros Hok Hm [H1 H2 H3]. split; [done|done|]. by eapply bseg_ext. Qed.

(** A bucket is not affected by what happens in the slabs of others. *)
Lemma bucket_rep_other i (v : view) k k' l b mem mem' :
  spread i (slabs v) → k ≠ k' → (∀ s, s ∈ l → s ∈ v k) → only_slabs i l mem mem' →
  bucket_rep mem i (tag_of k') b (v k') → bucket_rep mem' i (tag_of k') b (v k').
Proof.
  intros Hsp Hne Hl Hm. apply bucket_rep_ext.
  - intros s Hs. apply Hsp, elem_of_slabs. eauto.
  - intros s a Hs Ha. apply Hm. intros s' Hs' Hr.
    pose proof (kinds_apart i v k k' s' s Hsp Hne (Hl _ Hs') Hs). unfold apart, range in *. lia.
Qed.

(** ** Moving a slab to another bucket *)

Definition moved (v : view) (from to : BucketKind) (l1 : list slab) (s : slab) (l2 : list slab) : view :=
  <[to:=s :: v to]> (<[from:=l1 ++ l2]> v).

Lemma moved_slabs v from to l1 s l2 :
  from ≠ to → v from = l1 ++ s :: l2 → slabs (moved v from to l1 s l2) ≡ₚ slabs v.
Proof.
  intros Hne Hv. unfold moved.
  rewrite (slabs_insert v from (l1 ++ l2) _ [s] Hv) by solve_Permutation.
  set (v1 := <[from:=l1 ++ l2]> v).
  assert (v1 to = v to) as Hto by (unfold v1; by rewrite fn_lookup_insert_ne).
  pose proof (slabs_insert (<[to:=s :: v to]> v1) to (v to) _ [s] (fn_lookup_insert _ _ _)) as Hp.
  cbn [app] in *. rewrite Hp by done.
  apply Permutation_skip. unfold slabs.
  destruct to; rewrite ?fn_lookup_insert, ?fn_lookup_insert_ne by done; by rewrite ?Hto.
Qed.

(** A slab of another bucket joins a bucket. *)
Lemma spread_join i (v : view) k k' s :
  spread i (slabs v) → k ≠ k' → s ∈ v k → spread i (s :: v k').
Proof.
  intros Hsp Hne Hs. pose proof (spread_kind i v k' Hsp) as Hspk. split.
  - intros s' [->|Hs']%elem_of_cons; apply Hsp, elem_of_slabs; eauto.
  - apply NoDup_cons. split; [|apply Hspk]. intros (s' & E & Hs')%list_elem_of_fmap.
    pose proof (kinds_apart i v k k' s s' Hsp Hne Hs Hs') as Hap.
    pose proof (page_le_span i). unfold apart, PAGE_SIZE in *. lia.
  - intros s1 s2 [->|H1]%elem_of_cons [->|H2]%elem_of_cons; [done|..]; intros Hd.
    + by apply (kinds_apart i v k k').
    + by apply apart_sym, (kinds_apart i v k k').
    + by apply (sp_apart _ _ Hspk).
Qed.

(** Pushing [s] on the bucket [to] writes no byte of a slab elsewhere. *)
Lemma push_elsewhere i (v : view) from to s k s' mem mem' a :
  spread i (slabs v) → s ∈ v from → k ≠ to → s' ∈ v k → s_base s' ≠ s_base s →
  only_headers (s :: v to) mem mem' → range (s_base s') (span i) a → mem' a = mem a.
Proof.
  intros Hsp Hs Hk Hs' Hne Hm Ha. apply Hm. intros s2 [->|H2]%elem_of_cons; apply (header_apart i _ s'); try done.
  - apply (sp_apart _ _ Hsp); [apply elem_of_slabs; eauto..|done].
  - by apply (kinds_apart i v to k).
Qed.

Lemma move_slab_spec mem i c v from to l1 s l2 :
  (i < NCLASSES)%nat → cache_mem mem i c v → from ≠ to → v from = l1 ++ s :: l2 →
  wp (move_slab c (s_base s) from to (tag_of to) mem) (λ '(c', mem'),
    cache_mem mem' i c' (moved v from to l1 s l2) ∧ only_headers (slabs v) mem mem').
Proof.
  intros Hi [Hsz Ho Hn Hb Hsp] Hne Hv. unfold move_slab.
  pose proof (Hb from) as Hbf. rewrite Hv in Hbf.
  pose proof (spread_kind i v from Hsp) as Hspf. rewrite Hv in Hspf.
  assert (s ∈ v from) as Hs by (rewrite Hv; apply elem_of_mid; by left).
  destruct (spread_split _ _ _ _ Hspf) as (Hok & _ & _ & Hspf').
  apply wp_bind. eapply wp_mono.
  { apply (bucket_remove_spec i (tag_of from) (bucket_of c from) l1 s l2 mem); [done|done|exact Hbf|].
    by eapply spread_length. }
  intros [b1 mem1] (Hb1 & Hh1 & Hc1 & Hf1). rewrite bucket_other by done.
  assert (∀ k, k ≠ from → bucket_rep mem1 i (tag_of k) (bucket_of c k) (v k)) as Hother.
  { intros k Hk. eapply (bucket_rep_other i v from); [done|done| |by apply only_headers_slabs|apply Hb].
    intros s' Hs'. by rewrite Hv. }
  pose proof (spread_join i v from to s Hsp Hne Hs) as Hspt.
  apply wp_bind. eapply wp_mono.
  { apply (bucket_push_spec i (tag_of to) (bucket_of c to) (v to) s (tag_of from) 0 0);
      [done|done|by apply Hother|done|done|]. pose proof (spread_length _ _ Hspt) as Hlen. cbn in Hlen. lia. }
  intros [b2 mem2] (Hb2 & Hf2). apply wp_ret. split.
  - split; [by destruct from, to|by destruct from, to|by destruct from, to| |].
    2:{ eapply spread_perm; [|exact Hsp]. symmetry. by apply moved_slabs. }
    intros k. unfold moved. destruct (decide (k = to)) as [->|Hkt].
    { by rewrite bucket_same, fn_lookup_insert. }
    rewrite bucket_other, fn_lookup_insert_ne by done. destruct (decide (k = from)) as [->|Hkf].
    + rewrite bucket_same, fn_lookup_insert. eapply bucket_rep_ext; [apply Hspf'| |exact Hb1].
      intros s' a Hs'. apply (push_elsewhere i v from to s from s'); [done..| | |done].
      * rewrite Hv. apply elem_of_mid. by right.
      * by eapply spread_ne.
    + rewrite bucket_other, fn_lookup_insert_ne by done.
      eapply bucket_rep_ext; [| |by apply Hother].
      * intros s' Hs'. apply Hsp, elem_of_slabs. eauto.
      * intros s' a Hs'. apply (push_elsewhere i v from to s k s'); [done..| |done].
        pose proof (kinds_apart i v from k s s' Hsp (not_eq_sym Hkf) Hs Hs') as Hap.
        pose proof (page_le_span i). unfold apart, PAGE_SIZE in *. lia.
  - eapply only_headers_trans; (eapply only_headers_incl; [|eassumption]); intros s' Hs'; exists s';
      (split; [|done]); apply elem_of_slabs.
    + exists from. by rewrite Hv.
    + apply elem_of_cons in Hs' as [->|Hs']; eauto.
Qed.

(** ** Taking and returning objects *)

(** The objects of class [i] that are handed out. *)
Definition live_in (i : nat) (v : view) (x : Z) : Prop :=
  ∃ s, s ∈ slabs v ∧ is_object i (s_base s) x ∧ x ∉ s_free s.

Lemma live_in_perm i v v' x : slabs v ≡ₚ slabs v' → live_in i v x ↔ live_in i v' x.
Proof. intros Hp. unfold live_in. by setoid_rewrite Hp. Qed.

Lemma slab_unique i v s s' : spread i (slabs v) → s ∈ slabs v → s' ∈ slabs v → s_base s = s_base s' → s = s'.
Proof.
  intros [_ Hnd _] (n & Hn)%list_elem_of_lookup (m & Hm)%list_elem_of_lookup E.
  assert (n = m) as <-; [|congruence].
  eapply (NoDup_lookup (s_base <$> slabs v)); [done|by rewrite list_lookup_fmap, Hn|].
  rewrite list_lookup_fmap, Hm. cbn. by rewrite E.
Qed.

(** An object belongs to one slab. *)
Lemma object_slab i v s s' x :
  spread i (slabs v) → s ∈ slabs v → s' ∈ slabs v →
  is_object i (s_base s) x → is_object i (s_base s') x → s = s'.
Proof.
  intros Hsp Hs Hs' Ho Ho'. apply (slab_unique i v); [done..|].
  destruct (decide (s_base s = s_base s')) as [|Hne]; [done|]. exfalso.
  pose proof (sp_apart _ _ Hsp s s' Hs Hs' Hne) as Hap.
  destruct (object_bounds _ _ _ Ho) as [H1 H2]. destruct (object_bounds _ _ _ Ho') as [H3 H4].
  destruct (geom_good i). unfold apart, SLAB_HEADER_BYTES in *. lia.
Qed.

Lemma replaced_slabs (v : view) k l1 s s' l2 :
  v k = l1 ++ s :: l2 →
  ∃ l, slabs v ≡ₚ s :: l ∧ slabs (<[k:=l1 ++ s' :: l2]> v) ≡ₚ s' :: l.
Proof.
  intros Hv. exists (slabs (<[k:=l1 ++ l2]> v)). split.
  - apply (slabs_insert v k (l1 ++ l2) _ [s] Hv). solve_Permutation.
  - pose proof (slabs_insert (<[k:=l1 ++ s' :: l2]> v) k (l1 ++ l2) _ [s'] (fn_lookup_insert _ _ _)) as Hp.
    cbn [app] in *. rewrite Hp by solve_Permutation. apply Permutation_skip. unfold slabs.
    destruct k; rewrite ?fn_lookup_insert, ?fn_lookup_insert_ne by done; done.
Qed.

Lemma spread_replace i l s s' :
  slab_ok i s' → s_base s' = s_base s → spread i (s :: l) → spread i (s' :: l).
Proof.
  intros Hok Hb [H1 H2 H3]. split.
  - intros s2 [->|Hs]%elem_of_cons; [done|]. apply H1. by right.
  - cbn in *. by rewrite Hb.
  - assert (∀ s2, s2 ∈ s' :: l → ∃ s3, s3 ∈ s :: l ∧ s_base s3 = s_base s2) as Hx.
    { intros s2 [->|Hs]%elem_of_cons; [exists s|exists s2]; split; try done; [by left|by right]. }
    intros s2 s3 (s2' & Hs2 & <-)%Hx (s3' & Hs3 & <-)%Hx. by apply H3.
Qed.

(** A slab's free list changes in place. *)
Lemma cache_replace mem mem' i c v k l1 s s' l2 :
  cache_mem mem i c v → v k = l1 ++ s :: l2 → slab_ok i s' → s_base s' = s_base s →
  (∀ a, ¬ range (s_base s) (span i) a → mem' a = mem a) →
  (∀ p n, get_header mem (s_base s) = slab_header i (tag_of k) p n s →
          get_header mem' (s_base s) = slab_header i (tag_of k) p n s') →
  chain mem' (s_free s') →
  cache_mem mem' i c (<[k:=l1 ++ s' :: l2]> v).
Proof.
  intros [Hsz Ho Hn Hb Hsp] Hv Hok Hbase Hm Hh Hc. split; [done|done|done| |].
  - intros k'. destruct (decide (k = k')) as [<-|Hne].
    + rewrite fn_lookup_insert. pose proof (Hb k) as [H1 H2 H3]. rewrite Hv in *. split.
      * rewrite H1, !hd_base_app. cbn [hd_base]. by rewrite Hbase.
      * rewrite H2, !length_app. cbn. lia.
      * eapply bseg_replace; [|done|exact Hm|exact Hh|done|exact H3].
        rewrite <-Hv. by apply spread_kind.
    + rewrite fn_lookup_insert_ne by done.
      eapply (bucket_rep_other i v k k' [s]); [done|done| | |apply Hb].
      * intros s2 ->%list_elem_of_singleton. rewrite Hv. apply elem_of_mid. by left.
      * intros a Ha. apply Hm, Ha. by left.
  - destruct (replaced_slabs v k l1 s s' l2 Hv) as (l & Hp & Hp').
    apply (spread_perm i (s' :: l)); [done|]. apply (spread_replace i l s); [done|done|].
    by apply (spread_perm i (slabs v)).
Qed.

Lemma live_replaced i v k l1 s s' l2 y :
  v k = l1 ++ s :: l2 → s_base s' = s_base s →
  live_in i (<[k:=l1 ++ s' :: l2]> v) y ↔
    (is_object i (s_base s) y ∧ y ∉ s_free s') ∨
    (∃ s2, s2 ∈ slabs (<[k:=l1 ++ l2]> v) ∧ is_object i (s_base s2) y ∧ y ∉ s_free s2).
Proof.
  intros Hv Hb. unfold live_in.
  pose proof (slabs_insert (<[k:=l1 ++ s' :: l2]> v) k (l1 ++ l2) _ [s'] (fn_lookup_insert _ _ _)
    ltac:(solve_Permutation)) as Hp.
  assert (slabs (<[k:=l1 ++ l2]> (<[k:=l1 ++ s' :: l2]> v)) = slabs (<[k:=l1 ++ l2]> v)) as E.
  { unfold slabs. destruct k; rewrite ?fn_lookup_insert, ?fn_lookup_insert_ne by done; done. }
  rewrite E in Hp. cbn [app] in Hp. setoid_rewrite Hp. setoid_rewrite elem_of_cons. rewrite <-Hb. split.
  - intros (s2 & [->|Hs2] & Ho & Hn); [by left|right; eauto].
  - intros [[Ho Hn]|(s2 & Hs2 & Ho & Hn)]; eauto 10.
Qed.

(** What memory holds for a slab of a bucket. *)
Lemma cache_slab mem i c v k l1 s l2 :
  cache_mem mem i c v → v k = l1 ++ s :: l2 →
  slab_ok i s ∧ chain mem (s_free s) ∧
  ∃ p n, get_header mem (s_base s) = slab_header i (tag_of k) p n s ∧
    0 ≤ p < 2 ^ 64 ∧ 0 ≤ n < 2 ^ 64.
Proof.
  intros [_ _ _ Hb Hsp] Hv. pose proof (spread_kind i v k Hsp) as Hspk. rewrite Hv in Hspk.
  destruct (spread_split _ _ _ _ Hspk) as (Hok & Hsp1 & Hsp2 & _).
  pose proof (Hb k) as [_ _ Hseg]. rewrite Hv, bseg_app in Hseg. cbn [bseg] in Hseg.
  destruct Hseg as (_ & Hh & Hc & _). split; [done|]. split; [done|]. eexists _, _. split; [exact Hh|]. split.
  - apply (last_base_range i); [apply Hsp1|lia].
  - apply (hd_base_range i); [apply Hsp2|lia].
Qed.

(** An object's bytes are inside its slab, away from the header and from the
    free nodes of other objects. *)
Lemma object_range i base x a :
  is_object i base x → range x (g_size (geom i)) a →
  range base (span i) a ∧ ¬ range base SLAB_HEADER_BYTES a.
Proof.
  intros [H1 H2]%object_bounds. unfold range, SLAB_HEADER_BYTES in *. lia.
Qed.

Lemma other_object i base x y a :
  is_object i base x → is_object i base y → x ≠ y →
  range y FREE_NODE_BYTES a → ¬ range x (g_size (geom i)) a.
Proof.
  intros Hx Hy Hne Ha%(node_in_object i base) Hr; [|done].
  pose proof (objects_apart _ _ _ _ Hx Hy Hne). unfold apart, range in *. lia.
Qed.

(** [alloc] takes the first free object of a slab. *)
Definition take_mem (slab x inuse : Z) (mem : Z → Z) : Z → Z :=
  set_node_poison x 0 (upd_header slab (λ sh, set_inuse inuse (set_freelist (node_next mem x) sh)) mem).

Lemma take_spec mem i c v k l1 s x fl l2 :
  (i < NCLASSES)%nat → cache_mem mem i c v → v k = l1 ++ s :: l2 → s_free s = x :: fl →
  let s' := mk_slab (s_base s) fl in
  let mem' := take_mem (s_base s) x (g_count (geom i) - Z.of_nat (length fl)) mem in
  cache_mem mem' i c (<[k:=l1 ++ s' :: l2]> v) ∧
  (∀ a, ¬ range (s_base s) SLAB_HEADER_BYTES a → ¬ range x (g_size (geom i)) a → mem' a = mem a).
Proof.
  intros Hi Hcm Hv Hx s' mem'.
  destruct (cache_slab _ _ _ _ _ _ _ _ Hcm Hv) as (Hok & Hc & p & n & Hh & Hp & Hn).
  pose proof Hok as [Hsite Hnd Hobj]. rewrite Hx in Hnd, Hobj, Hc. apply NoDup_cons in Hnd as [Hnx Hnd].
  destruct Hc as (Hnext & _ & Hcl).
  assert (slab_ok i s') as Hok' by (split; [done|done|]; intros y Hy; apply Hobj; by right).
  assert (is_object i (s_base s) x) as Hox by (apply Hobj; by left).
  unfold take_mem in mem'. set (f := λ sh, set_inuse _ _) in mem'.
  assert (f (slab_header i (tag_of k) p n s) = slab_header i (tag_of k) p n s') as Hf by (unfold f; by rewrite Hnext).
  destruct (upd_header_spec (s_base s) f mem _ Hh) as [Hh1 Hm1].
  { rewrite Hf. by apply slab_header_ok. }
  rewrite Hf in Hh1. set (mem1 := upd_header (s_base s) f mem) in *.
  assert (∀ a, ¬ range x (g_size (geom i)) a → mem' a = mem1 a) as Hm2.
  { intros a Ha. apply store_ne. intros Hr. apply Ha, (node_in_object i (s_base s)); [done|].
    unfold range, FREE_NODE_BYTES in *. lia. }
  assert (∀ a, ¬ range (s_base s) SLAB_HEADER_BYTES a → ¬ range x (g_size (geom i)) a → mem' a = mem a) as Hm.
  { intros a Ha1 Ha2. by rewrite Hm2, Hm1. }
  split; [|done]. apply (cache_replace mem mem' i c v k l1 s s' l2); [done..| | |].
  - intros a Ha. apply Hm; [|by intros [? _]%(object_range i (s_base s))].
    pose proof (header_bytes_span i). unfold range in *. lia.
  - intros p' n' Hh'. rewrite Hh in Hh'. injection Hh' as -> ->. rewrite <-Hh1. apply get_header_ext.
    intros a Ha. apply Hm2. by intros [_ ?]%(object_range i (s_base s)).
  - cbn [s_free s']. eapply chain_ext; [|exact Hcl]. intros y a Hy Ha.
    assert (is_object i (s_base s) y) as Hoy by (apply Hobj; by right).
    apply Hm; [by eapply object_range, node_in_object|]. eapply other_object; [done|done|by intros ->|done].
Qed.

(** [free] puts an object in front of the free list of its slab. *)
Definition put_mem (slab x size inuse : Z) (mem : Z → Z) : Z → Z :=
  let mem := fill x size SLAB_POISON mem in
  let mem := set_node_poison x POISON_TAG (set_node_next x (sh_free (get_header mem slab)) mem) in
  upd_header slab (set_inuse inuse) (upd_header slab (set_freelist x) mem).

Lemma put_spec mem i c v k l1 s x l2 :
  (i < NCLASSES)%nat → cache_mem mem i c v → v k = l1 ++ s :: l2 →
  is_object i (s_base s) x → x ∉ s_free s →
  let s' := mk_slab (s_base s) (x :: s_free s) in
  let mem' := put_mem (s_base s) x (g_size (geom i)) (g_count (geom i) - Z.of_nat (length (x :: s_free s))) mem in
  cache_mem mem' i c (<[k:=l1 ++ s' :: l2]> v) ∧
  (∀ a, ¬ range (s_base s) SLAB_HEADER_BYTES a → ¬ range x (g_size (geom i)) a → mem' a = mem a).
Proof.
  intros Hi Hcm Hv Hox Hnx s' mem'.
  destruct (cache_slab _ _ _ _ _ _ _ _ Hcm Hv) as (Hok & Hc & p & n & Hh & Hp & Hn).
  pose proof Hok as [Hsite Hnd Hobj].
  assert (slab_ok i s') as Hok'.
  { split; [done|by constructor|]. intros y [->|Hy]%elem_of_cons; auto. }
  set (mem0 := fill x (g_size (geom i)) SLAB_POISON mem).
  assert (∀ a, ¬ range x (g_size (geom i)) a → mem0 a = mem a) as Hm0.
  { intros a Ha. unfold mem0. by rewrite fill_at, decide_False. }
  assert (get_header mem0 (s_base s) = slab_header i (tag_of k) p n s) as Hh0.
  { rewrite <-Hh. apply get_header_ext. intros a Ha. apply Hm0. by intros [_ ?]%(object_range i (s_base s)). }
  set (mem1 := set_node_poison x POISON_TAG (set_node_next x (hd0 (s_free s)) mem0)).
  assert (mem' = upd_header (s_base s) (set_inuse (g_count (geom i) - Z.of_nat (length (x :: s_free s))))
    (upd_header (s_base s) (set_freelist x) mem1)) as Emem.
  { unfold mem', put_mem. fold mem0. by rewrite Hh0. }
  clearbody mem'.
  assert (∀ a, ¬ range x (g_size (geom i)) a → mem1 a = mem a) as Hm1.
  { intros a Ha. unfold mem1. rewrite set_node_ne; [auto|]. by intros ?%(node_in_object i (s_base s)). }
  assert (chain mem1 (s_free s')) as Hc1.
  { apply chain_cons.
    - eapply chain_ext; [|exact Hc]. intros y a Hy Ha. apply Hm0. eapply other_object; [done|by apply Hobj|by intros ->|done].
    - by eapply slab_hd0.
    - intros y Hy. pose proof (objects_apart _ _ _ _ Hox (Hobj y Hy) ltac:(by intros ->)).
      destruct (geom_good i). unfold apart, FREE_NODE_BYTES in *. lia. }
  assert (get_header mem1 (s_base s) = slab_header i (tag_of k) p n s) as Hh1.
  { rewrite <-Hh. apply get_header_ext. intros a Ha. apply Hm1. by intros [_ ?]%(object_range i (s_base s)). }
  destruct (upd_header_spec (s_base s) (set_freelist x) mem1 _ Hh1) as [Hh2 Hm2].
  { pose proof (slab_hd0 i s' Hok') as Hx. cbn in Hx.
    destruct (slab_header_ok i (tag_of k) p n s Hi Hok Hp Hn). by split. }
  destruct (upd_header_spec (s_base s) (set_inuse (g_count (geom i) - Z.of_nat (length (x :: s_free s)))) _ _ Hh2)
    as [Hh3 Hm3]; [exact (slab_header_ok i (tag_of k) p n s' Hi Hok' Hp Hn)|].
  assert (∀ a, ¬ range (s_base s) SLAB_HEADER_BYTES a → mem' a = mem1 a) as Hm'.
  { intros a Ha. by rewrite Emem, Hm3, Hm2. }
  assert (∀ a, ¬ range (s_base s) SLAB_HEADER_BYTES a → ¬ range x (g_size (geom i)) a → mem' a = mem a) as Hm.
  { intros a Ha1 Ha2. by rewrite Hm', Hm1. }
  split; [|done]. apply (cache_replace mem mem' i c v k l1 s s' l2); [done..| | |].
  - intros a Ha. apply Hm; [|by intros [? _]%(object_range i (s_base s))].
    pose proof (header_bytes_span i). unfold range in *. lia.
  - intros p' n' Hh'. rewrite Hh in Hh'. injection Hh' as -> ->. rewrite Emem. exact Hh3.
  - by eapply (chain_header i s').
Qed.

(** An object's bytes are in no header. *)
Lemma object_no_header i l s x a s' :
  spread i l → s ∈ l → is_object i (s_base s) x → range x (g_size (geom i)) a →
  s' ∈ l → ¬ range (s_base s') SLAB_HEADER_BYTES a.
Proof.
  intros Hsp Hs Ho Hr Hs' Hr'. destruct (object_range _ _ _ _ Ho Hr) as [Hr1 Hr2].
  destruct (decide (s_base s' = s_base s)) as [E|Hd]; [by rewrite E in Hr'|].
  pose proof (sp_apart _ _ Hsp s' s Hs' Hs Hd). pose proof (header_bytes_span i). unfold apart, range in *. lia.
Qed.

Lemma outside_header i s a : ¬ range (s_base s) (span i) a → ¬ range (s_base s) SLAB_HEADER_BYTES a.
Proof. pose proof (header_bytes_span i). unfold range. lia. Qed.

Lemma cache_mem_view mem i c (v v' : view) :
  (∀ k, v k = v' k) → cache_mem mem i c v → cache_mem mem i c v'.
Proof.
  intros Hv [H1 H2 H3 H4 H5]. split; [done..| |].
  - intros k. rewrite <-Hv. apply H4.
  - unfold slabs in *. by rewrite <-!Hv.
Qed.

(** Clients may write to the objects they hold. *)
Lemma cache_mem_object mem mem' i c v x :
  cache_mem mem i c v → live_in i v x →
  (∀ a, ¬ range x (g_size (geom i)) a → mem' a = mem a) → cache_mem mem' i c v.
Proof.
  intros Hc (s & Hs & Ho & Hn) Hm. apply elem_of_slabs in Hs as [k Hs].
  apply list_elem_of_split in Hs as (l1 & l2 & Hv).
  destruct (cache_slab _ _ _ _ _ _ _ _ Hc Hv) as (Hok & Hch & p & n & Hh & _).
  apply (cache_mem_view _ _ _ (<[k:=l1 ++ s :: l2]> v)).
  { intros k'. destruct (decide (k = k')) as [<-|]; [by rewrite fn_lookup_insert|by rewrite fn_lookup_insert_ne]. }
  apply (cache_replace mem mem' i c v k l1 s s l2); [done|done|done|done| | |].
  - intros a Ha. apply Hm. by intros [? _]%(object_range i (s_base s)).
  - intros p' n' <-. apply get_header_ext. intros a Ha. apply Hm. by intros [_ ?]%(object_range i (s_base s)).
  - eapply chain_ext; [|exact Hch]. intros y a Hy Ha. apply Hm.
    eapply other_object; [done|by apply Hok|by intros ->|done].
Qed.

(** ** Slabs joining and leaving a cache *)

Lemma slabs_cons (v : view) k s : slabs (<[k:=s :: v k]> v) ≡ₚ s :: slabs v.
Proof.
  unfold slabs. destruct k; rewrite ?fn_lookup_insert, ?fn_lookup_insert_ne by done; solve_Permutation.
Qed.

Lemma cache_push mem i c v k s t p n :
  (i < NCLASSES)%nat → cache_mem mem i c v → spread i (s :: slabs v) →
  get_header mem (s_base s) = slab_header i t p n s → chain mem (s_free s) →
  wp (bucket_push (bucket_of c k) (s_base s) (tag_of k) mem) (λ '(b, mem'),
    cache_mem mem' i (with_bucket c k b) (<[k:=s :: v k]> v) ∧ only_headers (s :: v k) mem mem').
Proof.
  intros Hi [Hsz Ho Hn Hb Hsp] Hsps Hh Hc.
  assert (spread i (s :: v k)) as Hspk.
  { eapply spread_sub; [exact Hsps| |].
    - intros s' [->|Hs']%elem_of_cons; [by left|]. right. apply elem_of_slabs. eauto.
    - cbn. apply NoDup_cons. split; [|by apply (spread_kind i v k Hsp)].
      pose proof (sp_nodup _ _ Hsps) as [Hn' _]%NoDup_cons. intros (s' & E & Hs')%list_elem_of_fmap. apply Hn'.
      rewrite E. apply list_elem_of_fmap_2, elem_of_slabs. eauto. }
  eapply wp_mono.
  { eapply (bucket_push_spec i (tag_of k) (bucket_of c k) (v k) s t p n); [done|done|apply Hb|done|done|].
    pose proof (spread_length _ _ Hspk) as Hl. cbn in Hl. lia. }
  intros [b mem'] [Hb' Hm]. split; [|done]. split; [by destruct k|by destruct k|by destruct k| |].
  - intros k'. destruct (decide (k = k')) as [<-|Hne].
    { by rewrite bucket_same, fn_lookup_insert. }
    rewrite bucket_other, fn_lookup_insert_ne by done. eapply bucket_rep_ext; [| |apply Hb].
    + intros s' Hs'. apply Hsp, elem_of_slabs. eauto.
    + intros s' a Hs' Ha. apply Hm. intros s2 [->|H2]%elem_of_cons; apply (header_apart i _ s'); try done.
      * apply (sp_apart _ _ Hsps); [by left|right; apply elem_of_slabs; eauto|].
        intros E. pose proof (sp_nodup _ _ Hsps) as [Hn' _]%NoDup_cons. apply Hn'. rewrite E.
        apply list_elem_of_fmap_2, elem_of_slabs. eauto.
      * by apply (kinds_apart i v k k').
  - eapply spread_perm; [|exact Hsps]. symmetry. apply slabs_cons.
Qed.

Lemma cache_pop mem i c v k :
  (i < NCLASSES)%nat → cache_mem mem i c v →
  wp (bucket_pop (bucket_of c k) mem) (λ '(r, b, mem'),
    match v k with
    | [] => r = None ∧ b = bucket_of c k ∧ mem' = mem
    | s :: l => r = Some (s_base s) ∧ cache_mem mem' i (with_bucket c k b) (<[k:=l]> v) ∧
        get_header mem' (s_base s) = slab_header i (tag_of k) 0 0 s ∧ chain mem' (s_free s) ∧
        only_headers (v k) mem mem'
    end).
Proof.
  intros Hi [Hsz Ho Hn Hb Hsp]. pose proof (spread_kind i v k Hsp) as Hspk.
  eapply wp_mono; [by apply (bucket_pop_spec i (tag_of k) _ (v k)), (spread_length i)|].
  intros [[r b] mem']. destruct (v k) as [|s l] eqn:Hv; [done|]. intros (-> & Hb' & Hh & Hc & Hm).
  split; [done|]. split; [|done]. split; [by destruct k|by destruct k|by destruct k| |].
  - intros k'. destruct (decide (k = k')) as [<-|Hne].
    { by rewrite bucket_same, fn_lookup_insert. }
    rewrite bucket_other, fn_lookup_insert_ne by done.
    eapply (bucket_rep_other i v k k' (s :: l)); [done|done| |by apply only_headers_slabs|apply Hb].
    intros s'. by rewrite Hv.
  - assert (slabs v ≡ₚ s :: slabs (<[k:=l]> v)) as Hp by (by apply (slabs_insert v k l _ [s] Hv)).
    apply (spread_split i [] s). by apply (spread_perm i (slabs v)).
Qed.
