(* ===== verification/SlabHeap.v ===== *)
(** * The slab allocator: the heap invariant

    [heap_rep h B V] ties the allocator to what it stands for: [V] gives the
    slabs of every size class, and [B] the blocks of pages handed out by the
    page allocator.  Every slab is one of those blocks and is registered in the
    metadata of its frames; the other blocks are registered nowhere.
    [heap_step] says what an operation does to the objects in use and to their
    bytes. *)
From stdpp Require Import functions.
From S2P Require Import Memblock Sparsemem Zones Paging.
From S2P Require Import Prelude Misc Frame ByteMem Slab SlabMem SlabLists SlabCaches.
#[local] Open Scope Z_scope.

(** ** What the slab allocator relies on

    [hp_out p B]: the blocks handed out are [B], from physical address to
    order; [hp_none p o]: no block of that order is left. *)
Definition block_frame (a : Z) (o : nat) (q : Z) : Prop :=
  a / PAGE_SIZE ≤ q < a / PAGE_SIZE + 2 ^ Z.of_nat o.

(** The list link in the metadata of a frame. *)
Definition frame_link {P} `{FrameStore P} (p : P) (q v : Z) : Prop :=
  ∃ f, fs_get p q = Some f ∧ f_next f = v.

Definition frames_same {P} `{FrameStore P} (B : gmap Z nat) (p p' : P) : Prop :=
  ∀ a o q, B !! a = Some o → block_frame a o q → fs_get p' q = fs_get p q.

Class HeapPagesLaws (P : Type) `{HP : HeapPages P} (hhdm : Z) := {
  hp_out : P → gmap Z nat → Prop;
  hp_none : P → nat → Prop;
  hp_out_place p B a o : hp_out p B → B !! a = Some o →
    0 ≤ a ∧ (block_bytes o | a) ∧ a + block_bytes o ≤ 2 ^ 52 ∧ hhdm + a + block_bytes o < 2 ^ 64;
  hp_out_hhdm p B a o : hp_out p B → B !! a = Some o → (block_bytes o | hhdm);
  hp_out_disjoint p B a o a' o' : hp_out p B → B !! a = Some o → B !! a' = Some o' → a ≠ a' →
    apart a (block_bytes o) a' (block_bytes o');
  hp_out_frames p B a o q : hp_out p B → B !! a = Some o → block_frame a o q → is_Some (fs_get p q);
  hp_alloc_law p mem B o flags :
    hp_out p B → flags = KERNEL_PAGES ∨ flags = SAFE_KERNEL_PAGES →
    wp (hp_alloc p mem o flags) (λ '(p', mem', r),
      match r with
      | None => p' = p ∧ mem' = mem ∧ hp_none p o
      | Some a => B !! a = None ∧ hp_out p' (<[a:=o]> B) ∧
          frame_link p' (a / PAGE_SIZE) INVALID_PFN ∧ frames_same B p p' ∧
          ∀ x, mem' x = if decide (flags = SAFE_KERNEL_PAGES ∧ range (a + hhdm) (block_bytes o) x)
                        then 0 else mem x
      end);
  hp_free_law p B a o :
    hp_out p B → B !! a = Some o →
    wp (hp_free p a) (λ p', hp_out p' (delete a B) ∧ frames_same (delete a B) p p');
  hp_link_law p B a o q f v :
    hp_out p B → B !! a = Some o → block_frame a o q → fs_get p q = Some f →
    hp_out (fs_set p q (set_next v f)) B
}.

Notation views := (nat → view).

(** The address [b] is a slab of class [i]. *)
Definition slab_at (V : views) (i : nat) (b : Z) : Prop :=
  (i < NCLASSES)%nat ∧ ∃ s, s ∈ slabs (V i) ∧ s_base s = b.

(** The object [x] of class [i] is handed out. *)
Definition live (V : views) (i : nat) (x : Z) : Prop := (i < NCLASSES)%nat ∧ live_in i (V i) x.

Section definitions.
Context {P : Type} {HP : HeapPages P} (hhdm : Z) {HL : HeapPagesLaws P hhdm}.
Implicit Types (h : heap P) (B : gmap Z nat) (V : views).

(** The block at [b] is a registered slab of class [i]. *)
Record placed (p : P) B (i : nat) (b : Z) : Prop := {
  pd_block : B !! (b - hhdm) = Some (g_order (geom i));
  pd_frames : ∀ q, block_frame (b - hhdm) (g_order (geom i)) q → frame_link p q ((b - hhdm) / PAGE_SIZE)
}.

Record heap_rep h B V : Prop := {
  hr_pages : hp_out (h_pages h) B;
  hr_len : length (sa_caches (h_slab h)) = NCLASSES;
  hr_cache : ∀ i c, sa_caches (h_slab h) !! i = Some c → cache_mem (h_mem h) i c (V i);
  hr_place : ∀ i b, slab_at V i b → placed (h_pages h) B i b;
  hr_unique : ∀ i j b, slab_at V i b → slab_at V j b → i = j;
  hr_block : ∀ a o, B !! a = Some o →
    (∃ i, slab_at V i (a + hhdm)) ∨ frame_link (h_pages h) (a / PAGE_SIZE) INVALID_PFN
}.

Definition heap_inv h B V : Prop :=
  heap_rep h B V ∧ ∀ i, (i < NCLASSES)%nat → cache_use i (V i).

(** A block handed out to a client as pages. *)
Definition page_block V B (a : Z) (o : nat) : Prop := B !! a = Some o ∧ ∀ i, ¬ slab_at V i (a + hhdm).

(** What an operation does; [after j y] says that the object [y] of class [j]
    is in use afterwards. *)
Record heap_step V B (mem : Z → Z) V' B' (mem' : Z → Z) (after : nat → Z → Prop) : Prop := {
  hs_live : ∀ j y, live V' j y ↔ after j y;
  hs_pages : ∀ a o, page_block V' B' a o ↔ page_block V B a o;
  hs_kept : ∀ j y a, live V j y → after j y → range y (g_size (geom j)) a → mem' a = mem a;
  hs_out : ∀ a, (∀ j b, slab_at V j b ∨ slab_at V' j b → ¬ range b (span j) a) → mem' a = mem a
}.

End definitions.
Arguments pd_block {P HP hhdm p B i b}.
Arguments pd_frames {P HP hhdm p B i b}.
Arguments hr_pages {P HP hhdm HL h B V}.
Arguments hr_len {P HP hhdm HL h B V}.
Arguments hr_cache {P HP hhdm HL h B V}.
Arguments hr_place {P HP hhdm HL h B V}.
Arguments hr_unique {P HP hhdm HL h B V}.
Arguments hr_block {P HP hhdm HL h B V}.
Arguments hs_live {hhdm V B mem V' B' mem' after}.
Arguments hs_pages {hhdm V B mem V' B' mem' after}.
Arguments hs_kept {hhdm V B mem V' B' mem' after}.
Arguments hs_out {hhdm V B mem V' B' mem' after}.

Section heap.
Context {P : Type} {HP : HeapPages P} {hhdm : Z} {HL : HeapPagesLaws P hhdm}.
Implicit Types (h : heap P) (B : gmap Z nat) (V : views).
#[local] Notation heap_rep := (heap_rep hhdm).
#[local] Notation heap_step := (heap_step hhdm).

Hypothesis hhdm_pos : 0 < hhdm.
Hypothesis hhdm_align : (PAGE_SIZE | hhdm).

Lemma cache_lookup h B V i :
  heap_rep h B V → (i < NCLASSES)%nat →
  ∃ c, sa_caches (h_slab h) !! i = Some c ∧ cache_mem (h_mem h) i c (V i).
Proof.
  intros Hh Hi. destruct (lookup_lt_is_Some_2 (sa_caches (h_slab h)) i) as [c Hc].
  { by rewrite (hr_len Hh). }
  exists c. split; [done|]. by apply (hr_cache Hh).
Qed.

Lemma block_site p B i b :
  hp_out p B → B !! (b - hhdm) = Some (g_order (geom i)) → site i b.
Proof.
  intros Hp Hb. destruct (hp_out_place _ _ _ _ Hp Hb) as (H0 & Hdiv & _ & Hend). fold (span i) in *. split.
  - replace b with ((b - hhdm) + hhdm) by lia. apply Z.divide_add_r; [|done].
    etrans; [|exact Hdiv]. unfold span, block_bytes. apply Z.divide_factor_l.
  - lia.
  - lia.
Qed.

(** Slabs are disjoint, in one class or in several. *)
Lemma slabs_apart h B V i j b b' :
  heap_rep h B V → slab_at V i b → slab_at V j b' → b ≠ b' → apart b (span i) b' (span j).
Proof.
  intros Hh Hb Hb' Hne. pose proof (hr_place Hh _ _ Hb) as [H1 _].
  pose proof (hr_place Hh _ _ Hb') as [H2 _].
  pose proof (hp_out_disjoint _ _ _ _ _ _ (hr_pages Hh) H1 H2 ltac:(lia)) as Hd.
  unfold apart, span in *. lia.
Qed.

Lemma cache_mem_ext i c v mem mem' :
  (∀ s a, s ∈ slabs v → range (s_base s) (span i) a → mem' a = mem a) →
  cache_mem mem i c v → cache_mem mem' i c v.
Proof.
  intros Hm [H1 H2 H3 H4 H5]. split; [done..| |done]. intros k. eapply bucket_rep_ext; [| |apply H4].
  - intros s Hs. apply H5, elem_of_slabs. eauto.
  - intros s a Hs. apply Hm, elem_of_slabs. eauto.
Qed.

Lemma slab_at_elem V i s : (i < NCLASSES)%nat → s ∈ slabs (V i) → slab_at V i (s_base s).
Proof. intros Hi Hs. split; [done|]. eauto. Qed.

(** The other classes do not notice what happens in the slabs of class [i]. *)
Lemma cache_mem_other h B V i j c mem' :
  heap_rep h B V → (i < NCLASSES)%nat → (j < NCLASSES)%nat → i ≠ j →
  only_slabs i (slabs (V i)) (h_mem h) mem' →
  cache_mem (h_mem h) j c (V j) → cache_mem mem' j c (V j).
Proof.
  intros Hh Hi Hj Hne Hm. apply cache_mem_ext. intros s a Hs Ha. apply Hm. intros s' Hs' Ha'.
  pose proof (slab_at_elem V j s Hj Hs) as H1. pose proof (slab_at_elem V i s' Hi Hs') as H2.
  assert (s_base s' ≠ s_base s) as Hd.
  { intros E. rewrite E in H2. by destruct Hne; apply (hr_unique Hh _ _ _ H2 H1). }
  pose proof (slabs_apart _ _ _ _ _ _ _ Hh H2 H1 Hd). unfold apart, range in *. lia.
Qed.

(** ** Changes inside one class *)

Definition same_bases (v v' : view) : Prop := ∀ b, (∃ s, s ∈ slabs v ∧ s_base s = b) ↔ (∃ s, s ∈ slabs v' ∧ s_base s = b).

Definition set_cache h (i : nat) (c : Cache) (mem : Z → Z) : heap P :=
  mk_heap (mk_slab_allocator (sa_zone (h_slab h)) (<[i:=c]> (sa_caches (h_slab h)))) (h_pages h) mem.

Lemma slab_at_local V i v j b : same_bases (V i) v → slab_at (<[i:=v]> V) j b ↔ slab_at V j b.
Proof.
  intros Hb. unfold slab_at. destruct (decide (i = j)) as [<-|Hne].
  - rewrite fn_lookup_insert. specialize (Hb b). tauto.
  - by rewrite fn_lookup_insert_ne.
Qed.

Lemma heap_rep_local h B V i c v mem' :
  heap_rep h B V → (i < NCLASSES)%nat → same_bases (V i) v →
  cache_mem mem' i c v → only_slabs i (slabs (V i)) (h_mem h) mem' →
  heap_rep (set_cache h i c mem') B (<[i:=v]> V).
Proof.
  intros Hh Hi Hb Hc Hm. pose proof Hh as [H1 H2 H3 H4 H5 H6]. split; cbn [set_cache h_slab h_pages h_mem sa_caches].
  - done.
  - by rewrite length_insert.
  - intros j cj Hcj. destruct (decide (i = j)) as [<-|Hne].
    + rewrite fn_lookup_insert. rewrite list_lookup_insert_eq in Hcj by lia. by injection Hcj as <-.
    + rewrite fn_lookup_insert_ne by done. rewrite list_lookup_insert_ne in Hcj by done.
      assert (j < NCLASSES)%nat by (rewrite <-H2; by eapply lookup_lt_Some).
      apply (cache_mem_other h B V i j); [done..|]. by apply H3.
  - intros j b. rewrite slab_at_local by done. apply H4.
  - intros j k b. rewrite !slab_at_local by done. apply H5.
  - intros a o Ha. destruct (H6 a o Ha) as [[j Hj]|Hl]; [left|by right]. exists j. by rewrite slab_at_local.
Qed.

(** ** What an operation does *)

Lemma heap_step_trans V B mem V1 B1 mem1 V2 B2 mem2 after :
  heap_step V B mem V1 B1 mem1 (live V) → heap_step V1 B1 mem1 V2 B2 mem2 after →
  (∀ j b, slab_at V1 j b → slab_at V j b ∨ slab_at V2 j b) →
  heap_step V B mem V2 B2 mem2 after.
Proof.
  intros [L1 P1 K1 O1] [L2 P2 K2 O2] Hs. split.
  - done.
  - intros a o. by rewrite P2.
  - intros j y a Hy Ha Hr. rewrite (K2 j y a), (K1 j y a); [done..|by apply L1|done|done].
  - intros a Ha. rewrite O2, O1; [done|..]; intros j b Hb; apply Ha.
    + destruct Hb as [Hb|Hb]; [by left|auto].
    + destruct Hb as [Hb|Hb]; [auto|by right].
Qed.

(** The effect of changing one class, with its slabs where they were. *)
Lemma heap_step_local V B i v mem mem' (after : nat → Z → Prop) :
  (i < NCLASSES)%nat → same_bases (V i) v → only_slabs i (slabs (V i)) mem mem' →
  (∀ j y, j ≠ i → after j y ↔ live V j y) →
  (∀ y, live_in i v y ↔ after i y) →
  (∀ y a, live_in i (V i) y → after i y → range y (g_size (geom i)) a → mem' a = mem a) →
  (∀ j y a, j ≠ i → live V j y → range y (g_size (geom j)) a →
     ∀ s, s ∈ slabs (V i) → ¬ range (s_base s) (span i) a) →
  heap_step V B mem (<[i:=v]> V) B mem' after.
Proof.
  intros Hi Hb Hm Hother Hlive Hkept Hap. split.
  - intros j y. unfold live. destruct (decide (i = j)) as [<-|Hne].
    + rewrite fn_lookup_insert, Hlive. tauto.
    + rewrite fn_lookup_insert_ne by done. symmetry. by apply Hother.
  - intros a o. unfold page_block. split; intros [Ha Hn]; (split; [done|]); intros j Hj;
      [rewrite <-(slab_at_local V i v) in Hj by done|rewrite (slab_at_local V i v) in Hj by done]; by apply (Hn j).
  - intros j y a Hy Ha Hr. destruct (decide (j = i)) as [->|Hne].
    + by apply (Hkept y); [apply Hy|..].
    + apply Hm. by apply (Hap j y).
  - intros a Ha. apply Hm. intros s Hs. apply (Ha i). left. by apply slab_at_elem.
Qed.

Lemma live_apart h B V i j y a s :
  heap_rep h B V → (i < NCLASSES)%nat → j ≠ i → live V j y → range y (g_size (geom j)) a →
  s ∈ slabs (V i) → ¬ range (s_base s) (span i) a.
Proof.
  intros Hh Hi Hne [Hj (s' & Hs' & Ho & _)] Hr Hs Hr'.
  destruct (object_range j (s_base s') y a Ho Hr) as [Hr2 _].
  pose proof (slab_at_elem V i s Hi Hs) as H1. pose proof (slab_at_elem V j s' Hj Hs') as H2.
  assert (s_base s ≠ s_base s') as Hd.
  { intros E. rewrite E in H1. by destruct Hne; apply (hr_unique Hh _ _ _ H2 H1). }
  pose proof (slabs_apart _ _ _ _ _ _ _ Hh H1 H2 Hd). unfold apart, range in *. lia.
Qed.
End heap.
