(* ===== verification/SlabGrow.v ===== *)
(** * The slab allocator: adding and removing slabs

    The size classes after [slab_init]; [grow] turns a fresh block of pages
    into a registered slab with every object free; [release_slab] undoes it. *)
From stdpp Require Import functions.
From S2P Require Import Memblock Sparsemem Zones Paging.
From S2P Require Import Prelude Misc Frame ByteMem Slab SlabMem SlabLists SlabCaches SlabHeap.
#[local] Open Scope Z_scope.

(** ** Initialisation *)

(** [Cache::init] computes the geometry of the class. *)
Lemma cache_init_spec i c size :
  CLASSES !! i = Some size →
  cache_init c size =
    Ret (mk_cache (g_size (geom i)) (g_order (geom i)) (g_count (geom i)) (c_partial c) (c_full c) (c_empty c)).
Proof.
  intros Hi. do 14 (destruct i as [|i]; [injection Hi as <-; vm_compute; reflexivity|]).
  by destruct i.
Qed.

Definition fresh_cache (i : nat) : Cache :=
  mk_cache (g_size (geom i)) (g_order (geom i)) (g_count (geom i)) bucket_empty bucket_empty bucket_empty.

Lemma slab_init_caches zone :
  slab_allocator_init (slab_new zone) = Ret (mk_slab_allocator zone (fresh_cache <$> seq 0 NCLASSES)).
Proof. vm_compute. reflexivity. Qed.

(** Objects fit their class. *)
Lemma class_position_spec needed l i0 i :
  class_position needed l i0 = Some i →
  ∃ j cls, i = (i0 + j)%nat ∧ l !! j = Some cls ∧ needed ≤ cls.
Proof.
  revert i0. induction l as [|cls l IH]; intros i0; [done|]. cbn [class_position].
  destruct (Z.leb_spec needed cls) as [Hle|Hgt].
  - intros [= <-]. exists 0%nat, cls. split; [lia|done].
  - intros (j & c & -> & Hj & Hc)%IH. exists (S j), c. split; [lia|done].
Qed.

Lemma class_geom : ∀ i cls, CLASSES !! i = Some cls → cls ≤ g_size (geom i).
Proof.
  intros i cls Hi. do 14 (destruct i as [|i]; [injection Hi as <-; vm_compute; discriminate|]).
  by destruct i.
Qed.

Lemma class_index_spec size i :
  class_index size = Some i → (i < NCLASSES)%nat ∧ size ≤ g_size (geom i).
Proof.
  intros (j & cls & -> & Hj & Hc)%class_position_spec. cbn [Nat.add].
  pose proof (class_geom _ _ Hj). apply lookup_lt_Some in Hj. unfold NCLASSES. cbn in Hj. lia.
Qed.

(** Every size up to [SLAB_MAX_ALLOC] has a class. *)
Lemma class_index_total size : size ≤ SLAB_MAX_ALLOC → is_Some (class_index size).
Proof.
  intros Hs. unfold class_index, SLAB_MAX_ALLOC, FREE_NODE_BYTES in *.
  set (n := size `max` 16). assert (n ≤ 2048) as Hn by lia. clearbody n. cbn [class_position CLASSES].
  repeat (case_match; [by eexists|]). lia.
Qed.

Section grow.
Context {P PT : Type} {HP : HeapPages P} {X : X86_64 PT} {XL : X86_64Laws PT}
  {hhdm : Z} {HL : HeapPagesLaws P hhdm}.
Implicit Types (h : heap P) (B : gmap Z nat) (V : views).
#[local] Notation heap_rep := (heap_rep hhdm).
#[local] Notation placed := (placed hhdm).
#[local] Notation heap_step := (heap_step hhdm).

Hypothesis hhdm_pos : 0 < hhdm.
Hypothesis hhdm_align : (PAGE_SIZE | hhdm).

(** ** Registering the frames of a block *)

Lemma link_frames_spec (p : P) B a o v :
  hp_out p B → B !! a = Some o →
  wp (link_frames p (a / PAGE_SIZE) o v) (λ p', hp_out p' B ∧
    (∀ q, block_frame a o q → frame_link p' q v) ∧
    (∀ q, ¬ block_frame a o q → fs_get p' q = fs_get p q)).
Proof.
  intros Hp Ha. destruct (hp_out_place _ _ _ _ Hp Ha) as (H0 & _ & Hend & _).
  assert (0 ≤ a / PAGE_SIZE) as Hd0 by (apply Z.div_pos; [done|unfold PAGE_SIZE; lia]).
  assert (a / PAGE_SIZE ≤ a) as Hd1 by (apply Z.div_le_upper_bound; unfold PAGE_SIZE; lia).
  unfold link_frames. unfold block_bytes, PAGE_SIZE in Hend.
  apply (wp_for_each _ _ _ (λ done p', hp_out p' B ∧
    (∀ i, i ∈ done → frame_link p' (a / PAGE_SIZE + i) v) ∧
    (∀ q, ¬ block_frame a o q → fs_get p' q = fs_get p q))).
  - split; [done|]. split; [by intros i ?%elem_of_nil|done].
  - intros done i rest p1 Heq (Hp1 & Hdone & Hout).
    assert (i ∈ seqZ 0 (2 ^ Z.of_nat o)) as Hi%elem_of_seqZ by (rewrite Heq; apply elem_of_mid; by left).
    apply wp_bind, wp_add64; [unfold u64_max; lia|].
    assert (block_frame a o (a / PAGE_SIZE + i)) as Hb by (unfold block_frame; lia).
    destruct (hp_out_frames _ _ _ _ _ Hp1 Ha Hb) as [f Hf]. rewrite Hf. apply wp_ret.
    split; [by eapply hp_link_law|]. split.
    + intros j [Hj|Hj%list_elem_of_singleton]%elem_of_app; unfold frame_link.
      * destruct (decide (j = i)) as [->|Hne]; [rewrite fs_get_set_eq by eauto; eauto|].
        rewrite fs_get_set_ne by lia. by apply Hdone.
      * subst j. rewrite fs_get_set_eq by eauto. eauto.
    + intros q Hq. rewrite fs_get_set_ne; [by apply Hout|]. by intros <-.
  - intros p' (Hp' & Hall & Hout). split; [done|]. split; [|done].
    intros q Hq. replace q with (a / PAGE_SIZE + (q - a / PAGE_SIZE)) by lia. apply Hall, elem_of_seqZ.
    unfold block_frame in Hq. lia.
Qed.

Lemma shift_page a : Z.shiftr a PAGE_SHIFT = a / PAGE_SIZE.
Proof. by rewrite Z.shiftr_div_pow2. Qed.

(** Frames of different blocks are different. *)
Lemma block_frames_apart (p : P) B a o a' o' q :
  hp_out p B → B !! a = Some o → B !! a' = Some o' → a ≠ a' →
  block_frame a o q → ¬ block_frame a' o' q.
Proof.
  intros Hp Ha Ha' Hne Hq Hq'. pose proof (hp_out_disjoint _ _ _ _ _ _ Hp Ha Ha' Hne) as Hd.
  assert (∀ b k, B !! b = Some k → b = PAGE_SIZE * (b / PAGE_SIZE)) as Hm.
  { intros b k Hb. destruct (hp_out_place _ _ _ _ Hp Hb) as (_ & [c Hc] & _).
    assert (b mod PAGE_SIZE = 0) as Hz.
    { rewrite Hc. unfold block_bytes. replace (c * (PAGE_SIZE * 2 ^ Z.of_nat k)) with (c * 2 ^ Z.of_nat k * PAGE_SIZE) by lia.
      apply Z.mod_mul. done. }
    pose proof (Z.div_mod b PAGE_SIZE). unfold PAGE_SIZE in *. lia. }
  pose proof (Hm _ _ Ha) as E. pose proof (Hm _ _ Ha') as E'. clear Hm.
  unfold apart, block_bytes, block_frame, PAGE_SIZE in *.
  set (k := a / 4096) in *. set (k' := a' / 4096) in *. clearbody k k'. subst a a'. lia.
Qed.

Lemma frame_in_block (p : P) B a o x :
  hp_out p B → B !! a = Some o → range a (block_bytes o) x → block_frame a o (x / PAGE_SIZE).
Proof.
  intros Hp Ha Hx. destruct (hp_out_place _ _ _ _ Hp Ha) as (_ & [c Hc] & _).
  unfold block_frame, range, block_bytes, PAGE_SIZE in *. split; [apply Z.div_le_mono; lia|].
  apply Z.div_lt_upper_bound; [lia|].
  assert (a = 4096 * (a / 4096)) as E; [|lia].
  rewrite Hc. replace (c * (4096 * 2 ^ Z.of_nat o)) with (c * 2 ^ Z.of_nat o * 4096) by lia.
  rewrite Z.div_mul by lia. lia.
Qed.

(** ** A new slab *)

Definition new_slab (i : nat) (b : Z) : slab := mk_slab b (all_objects i b).

Lemma new_slab_ok i b : site i b → slab_ok i (new_slab i b).
Proof.
  intros Hb. split; [done|apply all_objects_nodup|]. intros x. apply elem_of_all_objects.
Qed.

Lemma new_slab_inuse i b : g_count (geom i) - Z.of_nat (length (s_free (new_slab i b))) = 0.
Proof. cbn [new_slab s_free]. rewrite all_objects_length. lia. Qed.

Definition init_header (i : nat) (sh : SlabHeader) : SlabHeader :=
  mk_header SLAB_MAGIC (Z.of_nat i mod 2 ^ 16) (Z.of_nat (g_order (geom i)) mod 2 ^ 8)
    SlabList.Partial 0 (g_count (geom i) mod 2 ^ 16) (sh_free sh) (sh_prev sh) (sh_next sh).

(** What a write of the leading fields leaves for the rest. *)
Lemma init_header_fields b i mem :
  (i < NCLASSES)%nat →
  let sh := get_header (upd_header b (init_header i) mem) b in
  (sh_magic sh, sh_class_idx sh, sh_order sh, sh_list sh, sh_inuse sh, sh_total sh) =
  (SLAB_MAGIC, Z.of_nat i, Z.of_nat (g_order (geom i)), SlabList.Partial, 0, g_count (geom i)).
Proof.
  intros Hi. destruct (geom_good i). unfold NCLASSES, MAX_SLAB_ORDER in *.
  unfold upd_header, init_header, get_header, put_header.
  cbn [sh_magic sh_class_idx sh_order sh_list sh_inuse sh_total sh_free sh_prev sh_next].
  rewrite !Z.mod_small by lia. cbn [SlabList.byte]. unfold SLAB_MAGIC.
  repeat first [rewrite load_store_eq by lia | rewrite load_store_ne by (unfold apart; lia)]. done.
Qed.

Lemma init_header_ne b i mem a :
  ¬ range b SLAB_HEADER_BYTES a → upd_header b (init_header i) mem a = mem a.
Proof. apply put_header_ne. Qed.

(** The bytes [grow] writes: a header with every object on the free list. *)
Lemma format_spec i b mem :
  (i < NCLASSES)%nat → site i b →
  wp (build_freelist b (g_size (geom i)) (g_count (geom i)) (upd_header b (init_header i) mem))
    (λ '(free, mem1),
      let mem' := upd_header b (λ sh, set_next_slab 0 (set_prev_slab 0 (set_freelist free sh))) mem1 in
      get_header mem' b = slab_header i SlabList.Partial 0 0 (new_slab i b) ∧
      chain mem' (all_objects i b) ∧
      ∀ a, ¬ range b (span i) a → mem' a = mem a).
Proof.
  intros Hi Hb. pose proof (init_header_fields b i mem Hi) as Hf. cbv zeta in Hf.
  set (mem0 := upd_header b (init_header i) mem) in *.
  assert (∀ a, ¬ range b SLAB_HEADER_BYTES a → mem0 a = mem a) as Hm0 by apply init_header_ne.
  clearbody mem0. eapply wp_mono; [by apply build_freelist_spec|].
  intros [free mem1] (-> & Hc & Hm1). cbv zeta.
  assert (∀ a, range b SLAB_HEADER_BYTES a → mem1 a = mem0 a) as Hm1h.
  { intros a Ha. apply Hm1. intros x Hx Hr. by destruct (object_range i b x a Hx Hr). }
  rewrite <-(get_header_ext b mem0 mem1 Hm1h) in Hf.
  set (f := λ sh, set_next_slab 0 (set_prev_slab 0 (set_freelist (hd0 (all_objects i b)) sh))).
  assert (f (get_header mem1 b) = slab_header i SlabList.Partial 0 0 (new_slab i b)) as Hfh.
  { unfold f, slab_header. rewrite new_slab_inuse. destruct (get_header mem1 b). cbn in *. by simplify_eq. }
  pose proof (new_slab_ok i b Hb) as Hok.
  destruct (upd_header_spec b f mem1 _ eq_refl) as [Hh Hm2].
  { rewrite Hfh. apply slab_header_ok; [done|done|lia|lia]. }
  rewrite Hfh in Hh. split; [exact Hh|]. split.
  - apply (chain_header i (new_slab i b) mem1); [done|exact Hm2|exact Hc].
  - intros a Ha. pose proof (header_bytes_span i). assert (¬ range b SLAB_HEADER_BYTES a) by (unfold range in *; lia).
    rewrite Hm2, Hm1, Hm0; [done|done| |done].
    intros x Hx Hr. by destruct (object_range i b x a Hx Hr).
Qed.

(** [grow] returns a registered slab in a fresh block, or nothing when no block
    is left. *)
Lemma grow_spec h B V i :
  heap_rep h B V → (i < NCLASSES)%nat →
  wp (grow hhdm h i) (λ '(h', r),
    match r with
    | None => h' = h ∧ hp_none (h_pages h) (g_order (geom i))
    | Some b => let B' := <[b - hhdm:=g_order (geom i)]> B in
        B !! (b - hhdm) = None ∧ h_slab h' = h_slab h ∧ hp_out (h_pages h') B' ∧
        placed (h_pages h') B' i b ∧ frames_same B (h_pages h) (h_pages h') ∧
        get_header (h_mem h') b = slab_header i SlabList.Partial 0 0 (new_slab i b) ∧
        chain (h_mem h') (all_objects i b) ∧
        ∀ a, ¬ range b (span i) a → h_mem h' a = h_mem h a
    end).
Proof.
  intros Hh Hi. pose proof (hr_pages Hh) as Hp.
  destruct (cache_lookup _ _ _ _ Hh Hi) as (c & Hc & [Hsz Ho Hn _ _]).
  unfold grow, cache_of. apply wp_bind. eapply wp_arr_get; [exact Hc|]. cbv zeta. rewrite Hsz, Ho, Hn.
  apply wp_bind. eapply wp_mono; [apply (hp_alloc_law _ (h_mem h) B _ KERNEL_PAGES Hp); by left|].
  intros [[p mem] [a|]]; [|intros (-> & -> & Hnone); apply wp_ret; by destruct h].
  intros (Ha & Hp1 & _ & Hsame & Hmem).
  assert (<[a:=g_order (geom i)]> B !! a = Some (g_order (geom i))) as Hba by apply lookup_insert_eq.
  destruct (hp_out_place _ _ _ _ Hp1 Hba) as (H0 & _ & H52 & Hend).
  assert (0 < block_bytes (g_order (geom i))) as Hbb by (pose proof (page_le_span i); unfold span, PAGE_SIZE in *; lia).
  unfold phys_to_virt. apply wp_bind, wp_add64; [unfold u64_max; lia|].
  set (b := a + hhdm). assert (b - hhdm = a) as Eb by (unfold b; lia).
  assert (site i b) as Hsite by (eapply block_site; [done..|by rewrite Eb]).
  change (λ sh, mk_header SLAB_MAGIC _ _ _ _ _ _ _ _) with (init_header i). cbn [h_mem set_mem set_pages].
  apply wp_bind. eapply wp_mono; [by apply format_spec|]. intros [free mem1] (Hhd & Hch & Hm1).
  set (mem2 := upd_header b _ mem1) in *. clearbody mem2.
  unfold register_slab_in_sparsemem, virt_to_phys. apply wp_bind, wp_bind, wp_sub64; [unfold b; lia|].
  rewrite Eb, shift_page. cbn [h_pages set_mem set_pages].
  eapply wp_mono; [by apply (link_frames_spec p (<[a:=g_order (geom i)]> B) a (g_order (geom i)))|].
  intros p2 (Hp2 & Hl2 & Hf2). apply wp_ret. cbv zeta. rewrite Eb. cbn [h_slab h_pages h_mem set_mem set_pages].
  split; [done|]. split; [done|]. split; [done|]. split; [|split; [|split; [done|split; [done|]]]].
  - split; [by rewrite Eb|]. by rewrite Eb.
  - intros a' o' q Ha' Hq. rewrite Hf2; [by eapply Hsame|].
    apply (block_frames_apart _ _ a' o' a (g_order (geom i)) q Hp1); [|done|congruence|done].
    by rewrite lookup_insert_ne by congruence.
  - intros x Hx. rewrite Hm1, Hmem by done. by rewrite decide_False by (intros [? _]; done).
Qed.

(** ** The invariant with a slab more *)

Definition with_slab V (i : nat) (k : BucketKind) (s : slab) : views := <[i:=<[k:=s :: V i k]> (V i)]> V.

Lemma slab_at_with V i k s j b :
  (i < NCLASSES)%nat → slab_at (with_slab V i k s) j b ↔ slab_at V j b ∨ (j = i ∧ b = s_base s).
Proof.
  intros Hi. unfold slab_at, with_slab. destruct (decide (i = j)) as [<-|Hne].
  - rewrite fn_lookup_insert. setoid_rewrite slabs_cons. setoid_rewrite elem_of_cons. split.
    + intros (_ & s' & [->|Hs'] & <-); [by right|left; eauto].
    + intros [(_ & s' & Hs' & <-)|[_ ->]]; eauto 10.
  - rewrite fn_lookup_insert_ne by done. naive_solver.
Qed.

Lemma live_with V i k b j y :
  (i < NCLASSES)%nat → live (with_slab V i k (new_slab i b)) j y ↔ live V j y.
Proof.
  intros Hi. unfold live, with_slab. destruct (decide (i = j)) as [<-|Hne].
  - rewrite fn_lookup_insert. unfold live_in. setoid_rewrite slabs_cons. setoid_rewrite elem_of_cons.
    split; intros [Hj (s & Hs & Ho & Hn)]; (split; [done|]); exists s; [|by auto].
    destruct Hs as [->|Hs]; [|done]. by destruct Hn; apply elem_of_all_objects.
  - by rewrite fn_lookup_insert_ne by done.
Qed.

Lemma first_frame (p : P) B a o : hp_out p B → B !! a = Some o → block_frame a o (a / PAGE_SIZE).
Proof.
  intros _ _. unfold block_frame. pose proof (Z.pow_pos_nonneg 2 (Z.of_nat o) ltac:(lia) ltac:(lia)). lia.
Qed.

(** A fresh block overlaps no slab. *)
Lemma fresh_apart h B V (p : P) i b j b' :
  heap_rep h B V → B !! (b - hhdm) = None → hp_out p (<[b - hhdm:=g_order (geom i)]> B) →
  slab_at V j b' → b ≠ b' ∧ apart b (span i) b' (span j).
Proof.
  intros Hh Hb Hp Hb'. pose proof (pd_block (hr_place Hh _ _ Hb')) as Hl.
  assert (b ≠ b') as Hne by (intros ->; congruence). split; [done|].
  pose proof (hp_out_disjoint _ _ (b - hhdm) (g_order (geom i)) (b' - hhdm) (g_order (geom j)) Hp) as Hd.
  rewrite lookup_insert_eq, lookup_insert_ne in Hd by lia.
  specialize (Hd eq_refl Hl ltac:(lia)). unfold apart, span in *. lia.
Qed.

Lemma placed_more (p p' : P) B a o i b :
  B !! a = None → frames_same B p p' → placed p B i b → placed p' (<[a:=o]> B) i b.
Proof.
  intros Ha Hs [Hb Hf]. split.
  - rewrite lookup_insert_ne; [done|]. congruence.
  - intros q Hq. destruct (Hf q Hq) as (f & Hfq & Hn). exists f. split; [|done]. by rewrite (Hs _ _ _ Hb Hq).
Qed.

Lemma heap_rep_with h B V i b k p c mem' :
  heap_rep h B V → (i < NCLASSES)%nat → B !! (b - hhdm) = None →
  hp_out p (<[b - hhdm:=g_order (geom i)]> B) → placed p (<[b - hhdm:=g_order (geom i)]> B) i b →
  frames_same B (h_pages h) p →
  cache_mem mem' i c (<[k:=new_slab i b :: V i k]> (V i)) →
  only_slabs i (new_slab i b :: slabs (V i)) (h_mem h) mem' →
  heap_rep (set_cache (mk_heap (h_slab h) p (h_mem h)) i c mem')
    (<[b - hhdm:=g_order (geom i)]> B) (with_slab V i k (new_slab i b)).
Proof.
  intros Hh Hi Hb Hp Hpl Hfs Hc Hm.
  assert (∀ j b', slab_at V j b' → b ≠ b' ∧ apart b (span i) b' (span j)) as Hfresh by (intros j b'; by eapply fresh_apart).
  split; cbn [set_cache h_slab h_pages h_mem sa_caches].
  - done.
  - rewrite length_insert. apply (hr_len Hh).
  - intros j cj Hcj. unfold with_slab. destruct (decide (i = j)) as [<-|Hne].
    + rewrite fn_lookup_insert. rewrite list_lookup_insert_eq in Hcj; [by injection Hcj as <-|].
      by rewrite (hr_len Hh).
    + rewrite fn_lookup_insert_ne by done. rewrite list_lookup_insert_ne in Hcj by done.
      assert (j < NCLASSES)%nat as Hj by (rewrite <-(hr_len Hh); by eapply lookup_lt_Some).
      eapply cache_mem_ext; [|by apply (hr_cache Hh)]. intros s a Hs Ha. apply Hm.
      pose proof (slab_at_elem V j s Hj Hs) as Hs'.
      intros s2 [->|Hs2]%elem_of_cons.
      * destruct (Hfresh _ _ Hs') as [_ Hap]. cbn [new_slab s_base]. unfold apart, range in *. lia.
      * intros Hr. pose proof (slab_at_elem V i s2 Hi Hs2) as Hs2'.
        assert (s_base s2 ≠ s_base s) as Hd.
        { intros E. rewrite E in Hs2'. by destruct Hne; apply (hr_unique Hh _ _ _ Hs2' Hs'). }
        pose proof (slabs_apart _ _ _ _ _ _ _ Hh Hs2' Hs' Hd). unfold apart, range in *. lia.
  - intros j b' [Hb'|[-> ->]]%slab_at_with; [|done|done]. apply (placed_more (h_pages h)); [done|done|]. by apply (hr_place Hh).
  - intros j j' b' [H1|[-> ->]]%slab_at_with [H2|[-> H2]]%slab_at_with; try done.
    + by apply (hr_unique Hh _ _ b').
    + subst b'. by destruct (Hfresh _ _ H1).
    + by destruct (Hfresh _ _ H2).
  - intros a o [[<- <-]|[Hne Ha]]%lookup_insert_Some.
    + left. exists i. apply slab_at_with; [done|]. right. split; [done|]. cbn. lia.
    + destruct (hr_block Hh a o Ha) as [[j Hj]|(f & Hf & Hn)].
      * left. exists j. apply slab_at_with; auto.
      * right. exists f. split; [|done]. rewrite (Hfs _ _ _ Ha); [done|]. by apply (first_frame (h_pages h) B); [apply Hh|].
Qed.

(** Growing changes no object in use and no block of pages. *)
Lemma heap_step_with h B V i b k mem' :
  heap_rep h B V → (i < NCLASSES)%nat → B !! (b - hhdm) = None →
  (∀ j b', slab_at V j b' → b ≠ b' ∧ apart b (span i) b' (span j)) →
  (∀ a, ¬ range b (span i) a → (∀ s, s ∈ slabs (V i) → ¬ range (s_base s) SLAB_HEADER_BYTES a) → mem' a = h_mem h a) →
  heap_step V B (h_mem h) (with_slab V i k (new_slab i b)) (<[b - hhdm:=g_order (geom i)]> B) mem' (live V).
Proof.
  intros Hh Hi Hb Hfresh Hm. split.
  - intros j y. by apply live_with.
  - intros a o. unfold page_block. split.
    + intros [[[<- <-]|[Hne Ha]]%lookup_insert_Some Hn].
      * destruct (Hn i). apply slab_at_with; [done|]. right. split; [done|]. cbn. lia.
      * split; [done|]. intros j Hj. apply (Hn j), slab_at_with; auto.
    + intros [Ha Hn]. split; [rewrite lookup_insert_ne; [done|congruence]|].
      intros j [Hj|[-> E]]%slab_at_with; [by apply (Hn j)| |done]. cbn in E. subst b.
      replace (a + hhdm - hhdm) with a in Hb by lia. congruence.
  - intros j y a Hy _ Hr. pose proof Hy as [Hj (s & Hs & Ho & _)].
    destruct (object_range j (s_base s) y a Ho Hr) as [Hr1 Hr2].
    pose proof (slab_at_elem V j s Hj Hs) as Hs'. apply Hm.
    + destruct (Hfresh _ _ Hs') as [_ Hap]. unfold apart, range in *. lia.
    + intros s2 Hs2 Hr3. pose proof (slab_at_elem V i s2 Hi Hs2) as Hs2'.
      destruct (decide (s_base s2 = s_base s)) as [E|Hd]; [by rewrite E in Hr3|].
      pose proof (slabs_apart _ _ _ _ _ _ _ Hh Hs2' Hs' Hd). pose proof (header_bytes_span i). unfold apart, range in *. lia.
  - intros a Ha. apply Hm.
    + apply Ha. right. apply slab_at_with; [done|]. by right.
    + intros s Hs Hr. apply (Ha i (s_base s)); [left; by apply slab_at_elem|].
      pose proof (header_bytes_span i). unfold range in *. lia.
Qed.
End grow.
