(* ===== verification/SlabOps.v ===== *)
(** * The slab allocator: allocation and release

    Specifications of [SlabAllocator::alloc] and [SlabAllocator::free] against
    the heap invariant: which object is handed out or taken back, what happens
    to the other objects, to the blocks of pages and to the bytes of memory,
    and when the operations fail or panic. *)
From stdpp Require Import functions.
From S2P Require Import Memblock Sparsemem Zones Paging.
From S2P Require Import Prelude Misc Frame ByteMem Slab SlabMem SlabLists SlabCaches SlabHeap SlabGrow.
#[local] Open Scope Z_scope.

Section ops.
Context {P PT : Type} {HP : HeapPages P} {X : X86_64 PT} {XL : X86_64Laws PT}
  {hhdm : Z} {HL : HeapPagesLaws P hhdm}.
Implicit Types (h : heap P) (B : gmap Z nat) (V : views).
#[local] Notation heap_rep := (heap_rep hhdm).
#[local] Notation heap_inv := (heap_inv hhdm).
#[local] Notation placed := (placed hhdm).
#[local] Notation heap_step := (heap_step hhdm).

Hypothesis hhdm_pos : 0 < hhdm.
Hypothesis hhdm_align : (PAGE_SIZE | hhdm).

Lemma heap_step_refl V B mem : heap_step V B mem V B mem (live V).
Proof. by split. Qed.

Lemma same_bases_perm (v v' : view) : s_base <$> slabs v ≡ₚ s_base <$> slabs v' → same_bases v v'.
Proof.
  intros Hp b. assert (∀ w : view, (∃ s, s ∈ slabs w ∧ s_base s = b) ↔ b ∈ s_base <$> slabs w) as Hx.
  { intros w. rewrite list_elem_of_fmap. naive_solver. }
  by rewrite !Hx, Hp.
Qed.

(** A slab with as many free objects as it has objects has them all free. *)
Lemma empty_all i s x :
  slab_ok i s → Z.of_nat (length (s_free s)) = g_count (geom i) → is_object i (s_base s) x → x ∈ s_free s.
Proof.
  intros [_ Hnd Ho] Hl Hx%elem_of_all_objects. pose proof (all_objects_length i (s_base s)) as Hn.
  assert (s_free s ≡ₚ all_objects i (s_base s)) as ->; [|done].
  apply submseteq_length_Permutation; [|lia]. apply NoDup_submseteq; [done|].
  intros y Hy. by apply elem_of_all_objects, Ho.
Qed.

(** ** A slab with a free object *)

(** What [get_or_grow_partial] leaves: a slab with a free object at the front
    of the partial bucket, the rest as in [V]. *)
Record ready h B V h' B' V' (i : nat) (s : slab) (l : list slab) : Prop := {
  rd_rep : heap_rep h' B' V';
  rd_head : V' i KPartial = s :: l;
  rd_free : s_free s ≠ [];
  rd_step : heap_step V B (h_mem h) V' B' (h_mem h') (live V);
  rd_bases : ∀ j b, slab_at V j b → slab_at V' j b;
  rd_other : ∀ j, j ≠ i → V' j = V j;
  rd_full : V' i KFull = V i KFull;
  rd_partial : ∀ s', s' ∈ l → s' ∈ V i KPartial;
  rd_empty : V' i KEmpty = V i KEmpty ∨ ∃ s', V i KEmpty = s' :: V' i KEmpty
}.

(** Formatting the free list of an empty slab again. *)
Lemma reformat_spec i s t mem :
  (i < NCLASSES)%nat → site i (s_base s) →
  Z.of_nat (length (s_free s)) = g_count (geom i) →
  get_header mem (s_base s) = slab_header i t 0 0 s →
  wp (build_freelist (s_base s) (g_size (geom i)) (g_count (geom i)) mem) (λ '(free, mem1),
    let mem' := upd_header (s_base s) (λ sh, set_inuse 0 (set_freelist free sh)) mem1 in
    get_header mem' (s_base s) = slab_header i t 0 0 (new_slab i (s_base s)) ∧
    chain mem' (all_objects i (s_base s)) ∧
    ∀ a, ¬ range (s_base s) (span i) a → mem' a = mem a).
Proof.
  intros Hi Hb Hlen Hh. eapply wp_mono; [by apply build_freelist_spec|].
  intros [free mem1] (-> & Hc & Hm1). cbv zeta. set (b := s_base s) in *.
  assert (get_header mem1 b = slab_header i t 0 0 s) as Hh1.
  { rewrite <-Hh. apply get_header_ext. intros a Ha. apply Hm1. intros x Hx Hr. by destruct (object_range i b x a Hx Hr). }
  set (f := λ sh, set_inuse 0 (set_freelist (hd0 (all_objects i b)) sh)).
  assert (f (slab_header i t 0 0 s) = slab_header i t 0 0 (new_slab i b)) as Hf.
  { unfold f, slab_header. by rewrite new_slab_inuse. }
  pose proof (new_slab_ok i b Hb) as Hok.
  destruct (upd_header_spec b f mem1 _ Hh1) as [Hh2 Hm2].
  { rewrite Hf. apply slab_header_ok; [done|done|lia|lia]. }
  rewrite Hf in Hh2. split; [exact Hh2|]. split.
  - apply (chain_header i (new_slab i b) mem1); [done|exact Hm2|exact Hc].
  - intros a Ha. pose proof (header_bytes_span i).
    rewrite Hm2, Hm1; [done| |unfold range in *; lia].
    intros x Hx Hr. by destruct (object_range i b x a Hx Hr).
Qed.

Lemma all_objects_nonempty i b : all_objects i b ≠ [].
Proof.
  intros E. pose proof (all_objects_length i b) as Hl. rewrite E in Hl. cbn [length] in Hl. destruct (geom_good i). lia.
Qed.

(** An empty slab is put to use again. *)
Lemma reuse_empty h B V i c s l :
  heap_rep h B V → (i < NCLASSES)%nat → sa_caches (h_slab h) !! i = Some c →
  V i KPartial = [] → V i KEmpty = s :: l → Z.of_nat (length (s_free s)) = g_count (geom i) →
  wp ('(r, b, mem) ← bucket_pop (c_empty c) (h_mem h);
      let c := with_bucket c KEmpty b in
      match r with
      | Some slab =>
          '(free, mem) ← build_freelist slab (c_obj_size c) (c_objs_per_slab c) mem;
          let mem := upd_header slab (λ sh, set_inuse 0 (set_freelist free sh)) mem in
          '(b, mem) ← bucket_push (c_partial c) slab SlabList.Partial mem;
          h ← with_cache (set_mem mem h) i (with_bucket c KPartial b);
          Ret (h, Some slab)
      | None => Panic PExplicit
      end) (λ '(h', r), ∃ V' s' l', r = Some (s_base s') ∧ ready h B V h' B V' i s' l').
Proof.
  intros Hh Hi Hci Hp He Hlen. pose proof (hr_cache Hh _ _ Hci) as Hc.
  pose proof Hc as [Hsz _ Hn _ Hsp].
  assert (slabs (V i) ≡ₚ s :: slabs (<[KEmpty:=l]> (V i))) as Hperm by (by apply (slabs_insert (V i) KEmpty l _ [s] He)).
  apply wp_bind. eapply wp_mono; [by apply (cache_pop (h_mem h) i c (V i) KEmpty)|].
  intros [[r b] mem1]. rewrite He. intros (-> & Hc1 & Hh1 & _ & Hm1). cbv zeta.
  assert (slab_ok i s) as Hok by (apply Hsp, elem_of_slabs; exists KEmpty; rewrite He; by left).
  replace (c_obj_size (with_bucket c KEmpty b)) with (g_size (geom i)) by done.
  replace (c_objs_per_slab (with_bucket c KEmpty b)) with (g_count (geom i)) by done.
  apply wp_bind. eapply wp_mono; [apply reformat_spec; [done|apply Hok|done|exact Hh1]|].
  intros [free mem2] (Hh2 & Hch2 & Hm2). set (mem3 := upd_header _ _ mem2) in *. clearbody mem3.
  set (v1 := <[KEmpty:=l]> (V i)) in *. set (s' := new_slab i (s_base s)).
  assert (spread i (s :: slabs v1)) as Hsps by (by apply (spread_perm i (slabs (V i)))).
  assert (cache_mem mem3 i (with_bucket c KEmpty b) v1) as Hc3.
  { eapply cache_mem_ext; [|exact Hc1]. intros s2 a Hs2 Ha. apply Hm2.
    pose proof (mid_apart i [] s (slabs v1) s2 Hsps Hs2). unfold apart, range in *. lia. }
  assert (spread i (s' :: slabs v1)) as Hsps'.
  { apply (spread_replace i _ s); [|done|done]. apply new_slab_ok, Hok. }
  apply wp_bind. eapply wp_mono.
  { apply (cache_push mem3 i (with_bucket c KEmpty b) v1 KPartial s' SlabList.Empty 0 0); done. }
  intros [b2 mem4] [Hc4 Hm4]. set (v2 := <[KPartial:=s' :: v1 KPartial]> v1) in *.
  assert (slabs v2 ≡ₚ s' :: slabs v1) as Hperm2 by apply slabs_cons.
  assert (same_bases (V i) v2) as Hsb.
  { apply same_bases_perm. rewrite Hperm, Hperm2. done. }
  assert (∀ a, (∀ s2, s2 ∈ slabs (V i) → ¬ range (s_base s2) SLAB_HEADER_BYTES a) →
    ¬ range (s_base s) (span i) a → mem4 a = h_mem h a) as Hout.
  { intros a Ha Hs. rewrite Hm4, Hm2, Hm1; [done| |done|].
    - intros s2 Hs2. apply Ha, elem_of_slabs. exists KEmpty. by rewrite He.
    - intros s2 [->|Hs2]%elem_of_cons; [apply (Ha s); rewrite Hperm; by left|].
      apply Ha. rewrite Hperm. right. apply elem_of_slabs. eauto. }
  assert (only_slabs i (slabs (V i)) (h_mem h) mem4) as Hm.
  { intros a Ha. apply Hout; [|apply Ha; rewrite Hperm; by left].
    intros s2 Hs2. by apply (outside_header i), Ha. }
  unfold with_cache. apply wp_bind, wp_bind, wp_arr_set; [by eapply lookup_lt_Some|]. apply wp_ret.
  apply wp_ret. exists (<[i:=v2]> V), s', []. split; [done|].
  pose proof (heap_rep_local h B V i (with_bucket (with_bucket c KEmpty b) KPartial b2) v2 mem4 Hh Hi Hsb Hc4 Hm) as Hh'.
  split.
  - exact Hh'.
  - rewrite fn_lookup_insert. unfold v2. rewrite fn_lookup_insert. unfold v1. by rewrite fn_lookup_insert_ne, Hp.
  - apply all_objects_nonempty.
  - apply heap_step_local; [done|done|done|done| | |].
    + intros y. unfold live, live_in. setoid_rewrite Hperm2. setoid_rewrite Hperm. setoid_rewrite elem_of_cons.
      split.
      * intros (s2 & [->|Hs2] & Ho & Hnf); [by destruct Hnf; apply elem_of_all_objects|]. split; [done|]. eauto.
      * intros (_ & s2 & [->|Hs2] & Ho & Hnf); [|eauto]. by destruct Hnf; apply (empty_all i).
    + intros y a (s2 & Hs2 & Ho & Hnf) _ Hr. destruct (object_range _ _ _ _ Ho Hr) as [Hr1 _].
      assert (s2 ∈ slabs v1) as Hs2'.
      { rewrite Hperm in Hs2. apply elem_of_cons in Hs2 as [->|?]; [|done]. by destruct Hnf; apply (empty_all i). }
      apply Hout; [intros s3; by eapply object_no_header|].
      pose proof (mid_apart i [] s (slabs v1) s2 Hsps Hs2'). unfold apart, range in *. lia.
    + intros j y a Hne Hy Hr s2 Hs2. by eapply (live_apart h B V i j y a s2).
  - intros j b'. by rewrite slab_at_local.
  - intros j Hne. by rewrite fn_lookup_insert_ne.
  - rewrite fn_lookup_insert. done.
  - by intros s2 ?%elem_of_nil.
  - right. exists s. rewrite fn_lookup_insert. done.
Qed.

(** A new slab is put to use. *)
Lemma grow_partial h B V i :
  heap_rep h B V → (i < NCLASSES)%nat →
  wp ('(h, r) ← grow hhdm h i;
      match r with
      | None => Ret (h, None)
      | Some slab =>
          c ← cache_of h i;
          '(b, mem) ← bucket_push (c_partial c) slab SlabList.Partial (h_mem h);
          h ← with_cache (set_mem mem h) i (with_bucket c KPartial b);
          Ret (h, Some slab)
      end) (λ '(h', r),
    match r with
    | None => h' = h ∧ hp_none (h_pages h) (g_order (geom i))
    | Some b => ∃ B' V' s, b = s_base s ∧ ready h B V h' B' V' i s (V i KPartial)
    end).
Proof.
  intros Hh Hi. apply wp_bind. eapply wp_mono; [by apply (grow_spec hhdm_pos hhdm_align h B V)|]. intros [h1 [b|]]; [|intros Hn; by apply wp_ret].
  cbv zeta. intros (Hb & Hsl & Hp1 & Hpl & Hfs & Hhd & Hch & Hm1).
  destruct (cache_lookup _ _ _ _ Hh Hi) as (c & Hci & Hc).
  unfold cache_of. rewrite Hsl. apply wp_bind. eapply wp_arr_get; [exact Hci|].
  assert (∀ j b', slab_at V j b' → b ≠ b' ∧ apart b (span i) b' (span j)) as Hfresh.
  { intros j b'. by eapply fresh_apart. }
  assert (cache_mem (h_mem h1) i c (V i)) as Hc1.
  { eapply cache_mem_ext; [|exact Hc]. intros s a Hs Ha. apply Hm1.
    destruct (Hfresh i (s_base s)) as [_ Hap]; [by apply slab_at_elem|]. unfold apart, range in *. lia. }
  assert (site i b) as Hsite by (eapply block_site; [done|done|exact Hp1|apply Hpl]).
  assert (spread i (new_slab i b :: slabs (V i))) as Hsps.
  { pose proof (cm_spread _ _ _ _ Hc) as Hsp. split.
    - intros s [->|Hs]%elem_of_cons; [by apply new_slab_ok|by apply Hsp].
    - cbn. apply NoDup_cons. split; [|apply Hsp]. intros (s & -> & Hs)%list_elem_of_fmap.
      by destruct (Hfresh i (s_base s)) as [? _]; [apply slab_at_elem|].
    - intros s s' [->|Hs]%elem_of_cons [->|Hs']%elem_of_cons Hne; [done|..].
      + apply (Hfresh i). by apply slab_at_elem.
      + apply apart_sym, (Hfresh i). by apply slab_at_elem.
      + by apply (sp_apart _ _ Hsp). }
  apply wp_bind. eapply wp_mono.
  { by apply (cache_push (h_mem h1) i c (V i) KPartial (new_slab i b) SlabList.Partial 0 0). }
  intros [b2 mem2] [Hc2 Hm2]. unfold with_cache. cbn [h_slab set_mem]. rewrite Hsl.
  apply wp_bind, wp_bind, wp_arr_set; [by eapply lookup_lt_Some|]. apply wp_ret, wp_ret.
  assert (∀ a, ¬ range b (span i) a → (∀ s, s ∈ slabs (V i) → ¬ range (s_base s) SLAB_HEADER_BYTES a) →
    mem2 a = h_mem h a) as Hm.
  { intros a Ha Hs. rewrite Hm2, Hm1; [done|done|].
    intros s [->|Hs']%elem_of_cons; [by apply (outside_header i (new_slab i b))|]. apply Hs, elem_of_slabs. eauto. }
  exists (<[b - hhdm:=g_order (geom i)]> B), (with_slab V i KPartial (new_slab i b)), (new_slab i b).
  split; [done|]. split.
  - apply (heap_rep_with h B V i b KPartial (h_pages h1)); try done.
    intros a Ha. apply Hm; [apply (Ha (new_slab i b)); by left|]. intros s Hs. apply (outside_header i), Ha. by right.
  - unfold with_slab. by rewrite !fn_lookup_insert.
  - apply all_objects_nonempty.
  - by apply heap_step_with.
  - intros j b' Hb'. apply slab_at_with; auto.
  - intros j Hne. unfold with_slab. by rewrite fn_lookup_insert_ne.
  - unfold with_slab. by rewrite fn_lookup_insert.
  - done.
  - left. unfold with_slab. by rewrite fn_lookup_insert.
Qed.

Lemma get_or_grow_spec h B V i :
  heap_inv h B V → (i < NCLASSES)%nat →
  wp (get_or_grow_partial hhdm h i) (λ '(h', r),
    match r with
    | None => h' = h ∧ hp_none (h_pages h) (g_order (geom i))
    | Some b => ∃ B' V' s l, b = s_base s ∧ ready h B V h' B' V' i s l
    end).
Proof.
  intros [Hh Hu] Hi. destruct (cache_lookup _ _ _ _ Hh Hi) as (c & Hci & Hc).
  unfold get_or_grow_partial, cache_of at 1. apply wp_bind. eapply wp_arr_get; [exact Hci|].
  pose proof (cm_bucket _ _ _ _ Hc KPartial) as [Hhd _ _]. cbn [bucket_of] in Hhd.
  unfold bucket_is_empty. rewrite Hhd. destruct (V i KPartial) as [|s l] eqn:Hp; cbn [hd_base].
  - cbn [Z.eqb negb]. destruct (V i KEmpty) as [|s l] eqn:He.
    + apply wp_bind. eapply wp_mono; [by apply (cache_pop (h_mem h) i c (V i) KEmpty)|].
      intros [[r b] mem]. rewrite He. intros (-> & _ & _). eapply wp_mono; [by apply (grow_partial h B V)|].
      intros [h' [b'|]]; [|done]. intros (B' & V' & s & Hr). eauto.
    + pose proof (reuse_empty h B V i c s l Hh Hi Hci Hp He) as Hre.
      assert (Z.of_nat (length (s_free s)) = g_count (geom i)) as Hlen.
      { apply (cu_kind _ _ (Hu i Hi) KEmpty). rewrite He. by left. }
      specialize (Hre Hlen).
      destruct (wp_elim _ _ (cache_pop (h_mem h) i c (V i) KEmpty Hi Hc)) as ([[r b] mem] & E & Hr).
      cbn [bucket_of] in E. rewrite He in Hr. destruct Hr as (-> & _). rewrite E in Hre |- *.
      eapply wp_mono; [exact Hre|]. intros [h' r] (V' & s' & l' & -> & Hrd). by exists B, V', s', l'.
  - pose proof (base_range i s) as Hb. destruct (Z.eqb_spec (s_base s) 0) as [E|Hne].
    { assert (slab_ok i s) as ?%Hb; [|lia]. apply (cm_spread _ _ _ _ Hc), elem_of_slabs. exists KPartial. rewrite Hp. by left. }
    apply wp_ret. exists B, V, s, l. split; [done|]. split; try done; [| |by left].
    + apply (cu_kind _ _ (Hu i Hi) KPartial). rewrite Hp. by left.
    + intros s' Hs'. rewrite Hp. by right.
Qed.

(** ** Allocation *)

Lemma heap_step_ext V B mem V' B' mem' (after after' : nat → Z → Prop) :
  (∀ j y, after j y ↔ after' j y) → heap_step V B mem V' B' mem' after → heap_step V B mem V' B' mem' after'.
Proof.
  intros He [H1 H2 H3 H4]. split; [intros j y; by rewrite H1|done| |done].
  intros j y a Hy Ha%He. by apply H3.
Qed.

(** The view after taking the first object [x] of the first slab, which leaves
    the partial bucket when it was the last one. *)
Definition taken_view (v : view) (b : Z) (fl : list Z) (l : list slab) : view :=
  match fl with
  | [] => moved (<[KPartial:=mk_slab b [] :: l]> v) KPartial KFull [] (mk_slab b []) l
  | _ => <[KPartial:=mk_slab b fl :: l]> v
  end.

Lemma taken_view_slabs v s x fl l :
  v KPartial = s :: l → s_free s = x :: fl →
  ∃ R, slabs v ≡ₚ s :: R ∧ slabs (taken_view v (s_base s) fl l) ≡ₚ mk_slab (s_base s) fl :: R.
Proof.
  intros Hv _. destruct (replaced_slabs v KPartial [] s (mk_slab (s_base s) fl) l Hv) as (R & H1 & H2).
  exists R. split; [done|]. cbn [app] in H2. unfold taken_view. destruct fl as [|y fl]; [|done].
  rewrite moved_slabs; [done|done|]. by rewrite fn_lookup_insert.
Qed.

Lemma taken_view_live i v s x fl l y :
  spread i (slabs v) → v KPartial = s :: l → s_free s = x :: fl →
  live_in i (taken_view v (s_base s) fl l) y ↔ live_in i v y ∨ y = x.
Proof.
  intros Hsp Hv Hf. destruct (taken_view_slabs v s x fl l Hv Hf) as (R & H1 & H2).
  assert (s ∈ slabs v) as Hs by (rewrite H1; by left). pose proof (sp_ok _ _ Hsp s Hs) as [_ Hnd Ho].
  rewrite Hf in Hnd, Ho. apply NoDup_cons in Hnd as [Hx _].
  unfold live_in. setoid_rewrite H1. setoid_rewrite H2. setoid_rewrite elem_of_cons. split.
  - intros (s2 & [->|Hs2] & Hos & Hn); [|left; eauto].
    cbn in *. destruct (decide (y = x)) as [|Hne]; [by right|]. left. exists s. rewrite Hf, not_elem_of_cons. eauto.
  - intros [(s2 & [->|Hs2] & Hos & Hn)| ->].
    + exists (mk_slab (s_base s) fl). rewrite Hf, not_elem_of_cons in Hn. cbn. split; [by left|]. tauto.
    + eauto.
    + exists (mk_slab (s_base s) fl). cbn. split; [by left|]. split; [|done]. apply Ho. by left.
Qed.

Lemma taken_view_use i v s x fl l :
  slab_ok i s → v KPartial = s :: l → s_free s = x :: fl →
  (∀ s', s' ∈ l → kind_use i KPartial s') → (∀ k s', k ≠ KPartial → s' ∈ v k → kind_use i k s') →
  Z.of_nat (length (v KEmpty)) ≤ MAX_EMPTY_SLABS →
  cache_use i (taken_view v (s_base s) fl l).
Proof.
  intros Hok Hv Hf Hl Ho He. pose proof (slab_free_length i s Hok) as Hlen. rewrite Hf in Hlen. cbn [length] in Hlen.
  unfold taken_view. destruct fl as [|y fl].
  - split; [|exact He]. unfold moved. intros [] s'.
    + rewrite fn_lookup_insert_ne, fn_lookup_insert by done. cbn [app]. apply Hl.
    + rewrite fn_lookup_insert, fn_lookup_insert_ne by done.
      intros [->|Hs']%elem_of_cons; [done|by apply (Ho KFull)].
    + rewrite !fn_lookup_insert_ne by done. by apply (Ho KEmpty).
  - split; [|exact He]. intros [] s'.
    + rewrite fn_lookup_insert. intros [->|Hs']%elem_of_cons; [|by apply Hl]. cbn [kind_use s_free length] in *. split; [done|lia].
    + rewrite fn_lookup_insert_ne by done. by apply (Ho KFull).
    + rewrite fn_lookup_insert_ne by done. by apply (Ho KEmpty).
Qed.

(** The allocation proper, from a ready slab. *)
Lemma take_object_spec h B V i c s x fl l :
  heap_rep h B V → (i < NCLASSES)%nat → sa_caches (h_slab h) !! i = Some c →
  V i KPartial = s :: l → s_free s = x :: fl →
  let mem := take_mem (s_base s) x (g_count (geom i) - Z.of_nat (length fl)) (h_mem h) in
  wp (if is_full (get_header mem (s_base s)) then
        c ← cache_of (set_mem mem h) i;
        '(c, mem) ← move_slab c (s_base s) KPartial KFull SlabList.Full mem;
        with_cache (set_mem mem (set_mem mem h)) i c
      else Ret (set_mem mem h)) (λ h',
    ∃ c', h' = set_cache h i c' (h_mem h') ∧
      cache_mem (h_mem h') i c' (taken_view (V i) (s_base s) fl l) ∧
      ∀ a, (∀ s', s' ∈ slabs (V i) → ¬ range (s_base s') SLAB_HEADER_BYTES a) →
           ¬ range x (g_size (geom i)) a → h_mem h' a = h_mem h a).
Proof.
  intros Hh Hi Hci Hv Hf mem. pose proof (hr_cache Hh _ _ Hci) as Hc.
  destruct (take_spec (h_mem h) i c (V i) KPartial [] s x fl l Hi Hc Hv Hf) as [Hc1 Hm1]. fold mem in Hc1, Hm1.
  clearbody mem. cbn [app] in Hc1. set (s' := mk_slab (s_base s) fl) in *. set (v1 := <[KPartial:=s' :: l]> (V i)) in *.
  assert (v1 KPartial = [] ++ s' :: l) as Hv1 by (unfold v1; by rewrite fn_lookup_insert).
  destruct (cache_slab _ _ _ _ _ _ _ _ Hc1 Hv1) as (_ & _ & p & n & Hh1 & _). cbn [s_base s'] in Hh1.
  assert (s ∈ slabs (V i)) as Hs by (apply elem_of_slabs; exists KPartial; rewrite Hv; by left).
  rewrite Hh1. unfold is_full. cbn [slab_header sh_inuse sh_total].
  destruct fl as [|y fl].
  - replace (g_count (geom i) - _ =? _) with true by (symmetry; apply Z.eqb_eq; cbn; lia).
    unfold cache_of. apply wp_bind. eapply wp_arr_get; [exact Hci|].
    apply wp_bind. eapply wp_mono; [by apply (move_slab_spec mem i c v1 KPartial KFull [] s' l)|].
    intros [c' mem2] [Hc2 Hm2]. unfold with_cache. apply wp_bind, wp_arr_set; [by eapply lookup_lt_Some|].
    apply wp_ret. exists c'. split; [done|]. split; [exact Hc2|]. intros a Ha Hx.
    cbn [h_mem]. rewrite Hm2, Hm1; [done|by apply Ha|done|].
    destruct (replaced_slabs (V i) KPartial [] s s' l Hv) as (R & H1 & H2). cbn [app] in H2. fold v1 in H2.
    intros s2. rewrite H2. intros [->|Hs2]%elem_of_cons; [by apply (Ha s)|]. apply Ha. rewrite H1. by right.
  - replace (g_count (geom i) - _ =? _) with false by (symmetry; apply Z.eqb_neq; cbn [length s_free s']; lia).
    apply wp_ret. exists c. split.
    + unfold set_cache, set_mem. cbn [h_mem]. rewrite list_insert_id by done. by destruct h as [[] ? ?].
    + split; [exact Hc1|]. intros a Ha Hx. apply Hm1; [by apply Ha|done].
Qed.

(** The objects in use once [x] is handed out, or taken back. *)
Definition plus V (i : nat) (x : Z) (j : nat) (y : Z) : Prop := live V j y ∨ (j = i ∧ y = x).
Definition minus V (i : nat) (x : Z) (j : nat) (y : Z) : Prop := live V j y ∧ ¬ (j = i ∧ y = x).

Lemma taken_same_bases v s x fl l :
  v KPartial = s :: l → s_free s = x :: fl → same_bases v (taken_view v (s_base s) fl l).
Proof.
  intros Hv Hf. destruct (taken_view_slabs v s x fl l Hv Hf) as (R & H1 & H2).
  apply same_bases_perm. by rewrite H1, H2.
Qed.

(** Taking the object and clearing it, in a ready heap. *)
Lemma take_step h1 B1 V1 i c' s x fl l mem :
  heap_rep h1 B1 V1 → (i < NCLASSES)%nat → V1 i KPartial = s :: l → s_free s = x :: fl →
  cache_mem mem i c' (taken_view (V1 i) (s_base s) fl l) →
  (∀ a, (∀ s', s' ∈ slabs (V1 i) → ¬ range (s_base s') SLAB_HEADER_BYTES a) →
        ¬ range x (g_size (geom i)) a → mem a = h_mem h1 a) →
  let V2 := <[i:=taken_view (V1 i) (s_base s) fl l]> V1 in
  heap_rep (set_cache h1 i c' mem) B1 V2 ∧ heap_step V1 B1 (h_mem h1) V2 B1 mem (plus V1 i x) ∧ ¬ live V1 i x.
Proof.
  intros Hh Hi Hv Hf Hc Hm V2. destruct (cache_lookup _ _ _ _ Hh Hi) as (c & Hci & Hc0).
  pose proof (cm_spread _ _ _ _ Hc0) as Hsp.
  assert (s ∈ slabs (V1 i)) as Hs by (apply elem_of_slabs; exists KPartial; rewrite Hv; by left).
  assert (is_object i (s_base s) x) as Hox by (apply (sp_ok _ _ Hsp s Hs); rewrite Hf; by left).
  assert (¬ live_in i (V1 i) x) as Hnl.
  { intros (s2 & Hs2 & Ho2 & Hn2). rewrite <-(object_slab i (V1 i) s s2 x), Hf in Hn2 by done. apply Hn2. by left. }
  assert (only_slabs i (slabs (V1 i)) (h_mem h1) mem) as Hos.
  { intros a Ha. apply Hm; [intros s' Hs'; by apply (outside_header i), Ha|].
    intros [Hr _]%(object_range i (s_base s)); [|done]. by apply (Ha s). }
  pose proof (taken_same_bases (V1 i) s x fl l Hv Hf) as Hsb.
  split; [by apply heap_rep_local|]. split; [|by intros [_ ?]].
  apply heap_step_local; [done|done|done| | | |].
  - intros j y Hne. unfold plus. naive_solver.
  - intros y. rewrite (taken_view_live i (V1 i) s x fl l y) by done. unfold plus, live. naive_solver.
  - intros y a Hy _ Hr. pose proof Hy as (s2 & Hs2 & Ho2 & _). apply Hm.
    + intros s' Hs'. by eapply (object_no_header i (slabs (V1 i)) s2 y).
    + intros Hr'. assert (x ≠ y) as Hxy by (by intros ->).
      destruct (decide (s_base s = s_base s2)) as [E|Hd].
      * rewrite <-E in Ho2. pose proof (objects_apart _ _ _ _ Hox Ho2 Hxy). unfold apart, range in *. lia.
      * destruct (object_range _ _ _ _ Ho2 Hr) as [H1 _]. destruct (object_range _ _ _ _ Hox Hr') as [H2 _].
        pose proof (sp_apart _ _ Hsp s s2 Hs Hs2 Hd). unfold apart, range in *. lia.
  - intros j y a Hne Hy Hr s2 Hs2. by eapply (live_apart h1 B1 V1 i j y a s2).
Qed.

(** Allocation: fails only when the size has no class or no pages are left, and
    then changes nothing; otherwise returns an object that was free, cleared
    if asked for. *)
Lemma slab_alloc_spec h B V size zeroed :
  heap_inv h B V →
  wp (slab_alloc_object hhdm h size zeroed) (λ '(h', r),
    match r with
    | None => h' = h ∧ ∀ i, class_index size = Some i → hp_none (h_pages h) (g_order (geom i))
    | Some x => ∃ i B' V', class_index size = Some i ∧ heap_inv h' B' V' ∧ ¬ live V i x ∧
        heap_step V B (h_mem h) V' B' (h_mem h') (plus V i x) ∧
        (zeroed = true → ∀ a, range x (g_size (geom i)) a → h_mem h' a = 0)
    end).
Proof.
  intros Hinv. unfold slab_alloc_object. destruct (class_index size) as [i|] eqn:Hci; [|by apply wp_ret].
  destruct (class_index_spec _ _ Hci) as [Hi _].
  apply wp_bind. eapply wp_mono; [by apply (get_or_grow_spec h B V i)|].
  intros [h1 [b|]]; [|intros [-> Hn]; apply wp_ret; split; [done|]; by intros ? [= <-]].
  intros (B1 & V1 & s & l & -> & [Hh1 Hhd Hfree Hst Hbs Hoth Hfull Hpart Hemp]).
  destruct (cache_lookup _ _ _ _ Hh1 Hi) as (c & Hcl & Hc).
  destruct (cache_slab _ _ _ _ KPartial [] s l Hc Hhd) as (Hok & _ & p & n & Hhdr & _).
  rewrite Hhdr. cbn [slab_header sh_list sh_free sh_inuse tag_of].
  destruct (s_free s) as [|x fl] eqn:Hf; [done|]. cbn [hd0 length].
  assert (is_object i (s_base s) x) as Hox by (apply Hok; rewrite Hf; by left).
  pose proof (object_bounds _ _ _ Hox) as [Hb1 _]. pose proof (base_range i s Hok) as Hbr.
  pose proof (slab_free_length i s Hok) as Hlen. rewrite Hf in Hlen. cbn [length] in Hlen. destruct (geom_good i) as [_ _ _ _ Hcnt _ _].
  unfold SLAB_HEADER_BYTES in Hb1.
  apply wp_bind, wp_assert; [done|]. apply wp_bind, wp_assert; [by rewrite (proj2 (Z.eqb_neq x 0)) by lia|].
  unfold add16. rewrite (proj2 (Z.ltb_lt _ _)) by lia.
  replace (g_count (geom i) - Z.of_nat (S (length fl)) + 1) with (g_count (geom i) - Z.of_nat (length fl)) by lia.
  apply wp_bind, wp_ret. apply wp_bind.
  eapply wp_mono; [by apply (take_object_spec h1 B1 V1 i c s x fl l)|].
  intros h2 (c2 & Eh2 & Hc2 & Hm2).
  assert (sa_caches (h_slab h2) !! i = Some c2) as Hcl2.
  { rewrite Eh2. cbn. apply list_lookup_insert_eq. by rewrite (hr_len Hh1). }
  unfold cache_of. apply wp_bind. eapply wp_arr_get; [exact Hcl2|]. apply wp_ret.
  rewrite (cm_size _ _ _ _ Hc2). set (mem3 := if zeroed then _ else _).
  assert (∀ a, ¬ range x (g_size (geom i)) a → mem3 a = h_mem h2 a) as Hm3.
  { intros a Ha. unfold mem3. destruct zeroed; [|done]. by rewrite fill_at, decide_False. }
  assert (zeroed = true → ∀ a, range x (g_size (geom i)) a → mem3 a = 0) as Hz.
  { intros -> a Ha. unfold mem3. by rewrite fill_at, decide_True. }
  clearbody mem3. pose proof (cm_spread _ _ _ _ Hc) as Hsp.
  assert (cache_mem mem3 i c2 (taken_view (V1 i) (s_base s) fl l)) as Hc3.
  { eapply cache_mem_object; [exact Hc2| |exact Hm3]. apply (taken_view_live i (V1 i) s x fl l x); auto. }
  destruct (take_step h1 B1 V1 i c2 s x fl l mem3) as (Hh3 & Hst3 & Hnl); [done..| |].
  { intros a Ha Hx. rewrite Hm3 by done. auto. }
  set (V2 := <[i:=_]> V1) in *. exists i, B1, V2. split; [done|].
  assert (∀ j y, live V1 j y ↔ live V j y) as Hlv by apply (hs_live Hst).
  split; [|split; [by rewrite <-Hlv|split; [|exact Hz]]].
  - split.
    + rewrite Eh2. exact Hh3.
    + destruct Hinv as [_ Hu]. intros j Hj. unfold V2. destruct (decide (i = j)) as [<-|Hne].
      2:{ rewrite fn_lookup_insert_ne, Hoth by done. by apply Hu. }
      rewrite fn_lookup_insert. destruct (Hu i Hi) as [Huk Hue]. eapply taken_view_use; [done|done|done| | |].
      * intros s' Hs'. apply (Huk KPartial); auto.
      * intros k s' Hk Hs'. apply Huk. destruct k; [done|by rewrite <-Hfull|].
        destruct Hemp as [<-|[s2 ->]]; [done|by right].
      * destruct Hemp as [->|[s2 E]]; [done|]. rewrite E in Hue. cbn [length] in Hue. lia.
  - cbn [h_mem set_mem]. eapply heap_step_trans; [exact Hst| |].
    + eapply heap_step_ext; [|exact Hst3]. intros j y. unfold plus. by rewrite Hlv.
    + intros j b Hb. right. unfold V2. apply slab_at_local; [|done]. by eapply taken_same_bases.
Qed.
End ops.
