(* ===== verification/SlabFree.v ===== *)
(** * The slab allocator: release

    [find_slab] recognises exactly the pointers into slabs; [free] returns an
    object to its slab and gives back the pages of slabs that are no longer
    needed. *)
From stdpp Require Import functions.
From S2P Require Import Memblock Sparsemem Zones Paging.
From S2P Require Import Prelude Misc Frame ByteMem Slab SlabMem SlabLists SlabCaches SlabHeap SlabGrow SlabOps.
#[local] Open Scope Z_scope.

Section free.
Context {P PT : Type} {HP : HeapPages P} {X : X86_64 PT} {XL : X86_64Laws PT}
  {hhdm : Z} {HL : HeapPagesLaws P hhdm}.
Implicit Types (h : heap P) (B : gmap Z nat) (V : views).
#[local] Notation heap_rep := (heap_rep hhdm).
#[local] Notation heap_inv := (heap_inv hhdm).
#[local] Notation placed := (placed hhdm).
#[local] Notation heap_step := (heap_step hhdm).

Hypothesis hhdm_pos : 0 < hhdm.
Hypothesis hhdm_align : (PAGE_SIZE | hhdm).

(** ** Finding the slab of a pointer *)

Lemma wrap_page b a o (p : P) B :
  hp_out p B → B !! a = Some o → b = a → wrap64 (Z.shiftl (a / PAGE_SIZE) PAGE_SHIFT) = b.
Proof.
  intros Hp Ha ->. destruct (hp_out_place _ _ _ _ Hp Ha) as (H0 & Hdiv & Hend & _).
  assert (PAGE_SIZE | a) as [q Hq].
  { etrans; [|exact Hdiv]. unfold block_bytes. apply Z.divide_factor_l. }
  assert (0 ≤ block_bytes o) by (unfold block_bytes, PAGE_SIZE; lia).
  rewrite Z.shiftl_mul_pow2 by done. change (2 ^ PAGE_SHIFT) with PAGE_SIZE.
  rewrite Hq, Z.div_mul, <-Hq by done. unfold wrap64. apply Z.mod_small. lia.
Qed.

(** A pointer into a slab leads to its header. *)
Lemma find_slab_in h B V i s x :
  heap_rep h B V → (i < NCLASSES)%nat → s ∈ slabs (V i) → is_object i (s_base s) x →
  find_slab hhdm h x = Ret (Some (s_base s)).
Proof.
  intros Hh Hi Hs Hx. pose proof (hr_place Hh i (s_base s) (slab_at_elem V i s Hi Hs)) as [Hb Hf].
  pose proof (hr_pages Hh) as Hp. destruct (hp_out_place _ _ _ _ Hp Hb) as (H0 & _ & H52 & Hend). fold (span i) in *.
  destruct (object_bounds _ _ _ Hx) as [Hx1 Hx2]. destruct (geom_good i) as [Hgs _ _ _ _ _ _].
  unfold SLAB_HEADER_BYTES in Hx1.
  assert (block_frame (s_base s - hhdm) (g_order (geom i)) ((x - hhdm) / PAGE_SIZE)) as Hfr.
  { eapply frame_in_block; [exact Hp|exact Hb|]. unfold range. fold (span i). lia. }
  destruct (Hf _ Hfr) as (f & Hfq & Hnext).
  cut (wp (find_slab hhdm h x) (λ r, r = Some (s_base s))).
  { intros (r & E & ->)%wp_elim. done. }
  unfold find_slab, virt_to_phys. apply wp_bind, wp_sub64; [lia|]. rewrite shift_page, Hfq, Hnext.
  assert ((s_base s - hhdm) / PAGE_SIZE < u64_max) as Hlt.
  { apply Z.div_lt_upper_bound; unfold u64_max, PAGE_SIZE; lia. }
  rewrite (proj2 (Z.eqb_neq _ _)) by (unfold INVALID_PFN; lia).
  rewrite (wrap_page (s_base s - hhdm) _ _ _ _ Hp Hb eq_refl).
  unfold phys_to_virt. apply wp_bind, wp_add64; [unfold u64_max; lia|].
  replace (s_base s - hhdm + hhdm) with (s_base s) by lia.
  destruct (cache_lookup _ _ _ _ Hh Hi) as (c & _ & Hc).
  apply elem_of_slabs in Hs as [k Hs]. apply list_elem_of_split in Hs as (l1 & l2 & Hv).
  destruct (cache_slab _ _ _ _ _ _ _ _ Hc Hv) as (_ & _ & pr & n & -> & _). by apply wp_ret.
Qed.

(** A pointer to a block of pages leads to no slab. *)
Lemma find_slab_page h B V a o :
  heap_rep h B V → page_block hhdm V B a o → find_slab hhdm h (a + hhdm) = Ret None.
Proof.
  intros Hh [Ha Hn]. destruct (hp_out_place _ _ _ _ (hr_pages Hh) Ha) as (H0 & _ & H52 & Hend).
  assert (0 ≤ block_bytes o) by (unfold block_bytes, PAGE_SIZE; lia).
  destruct (hr_block Hh a o Ha) as [[i Hi]|(f & Hf & Hnext)]; [by destruct (Hn i)|].
  cut (wp (find_slab hhdm h (a + hhdm)) (λ r, r = None)).
  { intros (r & E & ->)%wp_elim. done. }
  unfold find_slab, virt_to_phys. apply wp_bind, wp_sub64; [lia|].
  replace (a + hhdm - hhdm) with a by lia. rewrite shift_page, Hf, Hnext. by apply wp_ret.
Qed.

(** ** Giving back a slab *)

Lemma release_slab_spec h B i b t p n s :
  hp_out (h_pages h) B → B !! (b - hhdm) = Some (g_order (geom i)) →
  get_header (h_mem h) b = slab_header i t p n s →
  wp (release_slab hhdm h b) (λ h', h_slab h' = h_slab h ∧
    hp_out (h_pages h') (delete (b - hhdm) B) ∧
    frames_same (delete (b - hhdm) B) (h_pages h) (h_pages h') ∧
    ∀ a, ¬ range b SLAB_HEADER_BYTES a → h_mem h' a = h_mem h a).
Proof.
  intros Hp Hb Hh. destruct (hp_out_place _ _ _ _ Hp Hb) as (H0 & _ & H52 & Hend).
  assert (0 < block_bytes (g_order (geom i))) as Hpos by (pose proof (page_le_span i); unfold span, PAGE_SIZE in *; lia).
  unfold release_slab. rewrite Hh. cbn [slab_header sh_order]. rewrite Nat2Z.id.
  unfold virt_to_phys. apply wp_bind, wp_sub64; [lia|]. rewrite shift_page.
  apply wp_bind. eapply wp_mono; [by apply (link_frames_spec (h_pages h) B)|].
  intros p1 (Hp1 & Hl1 & Hf1). cbn [h_pages h_mem set_mem set_pages].
  rewrite (phys_new_law (PT:=PT)), bool_decide_eq_true_2 by lia. apply wp_bind, wp_ret.
  apply wp_bind. eapply wp_mono; [by apply (hp_free_law p1 B _ (g_order (geom i)))|]. intros p2 [Hp2 Hf2]. apply wp_ret.
  cbn [h_slab h_pages h_mem set_mem set_pages]. split; [done|]. split; [done|]. split.
  - intros a o q Ha Hq. rewrite (Hf2 a o q Ha Hq). apply Hf1.
    apply lookup_delete_Some in Ha as [Hne Ha]. by apply (block_frames_apart (h_pages h) B a o).
  - intros a. apply put_header_ne.
Qed.

Lemma heap_step_quiet V B mem V1 B1 mem1 V2 B2 mem2 after :
  heap_step V B mem V1 B1 mem1 after → heap_step V1 B1 mem1 V2 B2 mem2 (live V1) →
  (∀ j b, slab_at V1 j b → slab_at V j b ∨ slab_at V2 j b) →
  heap_step V B mem V2 B2 mem2 after.
Proof.
  intros [L1 P1 K1 O1] [L2 P2 K2 O2] Hs. split.
  - intros j y. by rewrite L2.
  - intros a o. by rewrite P2.
  - intros j y a Hy Ha Hr. rewrite (K2 j y a), (K1 j y a); [done..| | |done]; by apply L1.
  - intros a Ha. rewrite O2, O1; [done|..]; intros j b Hb; apply Ha.
    + destruct Hb as [Hb|Hb]; [by left|auto].
    + destruct Hb as [Hb|Hb]; [auto|by right].
Qed.

(** ** The invariant with a slab less *)

Definition without V (i : nat) (k : BucketKind) (l : list slab) : views := <[i:=<[k:=l]> (V i)]> V.

Lemma slab_at_without h B V i k s l j b :
  heap_rep h B V → (i < NCLASSES)%nat → V i k = s :: l →
  slab_at (without V i k l) j b ↔ slab_at V j b ∧ b ≠ s_base s.
Proof.
  intros Hh Hi Hv. destruct (cache_lookup _ _ _ _ Hh Hi) as (c & _ & Hc).
  assert (slabs (V i) ≡ₚ s :: slabs (<[k:=l]> (V i))) as Hp by (by apply (slabs_insert (V i) k l _ [s] Hv)).
  assert (spread i (s :: slabs (<[k:=l]> (V i)))) as Hsp by (apply (spread_perm i (slabs (V i))); [done|apply Hc]).
  unfold slab_at, without. destruct (decide (i = j)) as [<-|Hne].
  - rewrite fn_lookup_insert. setoid_rewrite Hp. setoid_rewrite elem_of_cons. split.
    + intros (_ & s2 & Hs2 & <-). split; [eauto 10|]. by apply (spread_ne i [] s (slabs (<[k:=l]> (V i)))).
    + intros [(_ & s2 & [->|Hs2] & <-) Hb]; [done|eauto].
  - rewrite fn_lookup_insert_ne by done. split; [|tauto]. intros Hj. split; [done|]. intros ->.
    destruct Hne. apply (hr_unique Hh i j (s_base s)); [|done]. apply slab_at_elem; [done|]. rewrite Hp. by left.
Qed.

Lemma heap_rep_without h B V i k s l c p mem' :
  heap_rep h B V → (i < NCLASSES)%nat → V i k = s :: l →
  cache_mem mem' i c (<[k:=l]> (V i)) → only_slabs i (slabs (V i)) (h_mem h) mem' →
  hp_out p (delete (s_base s - hhdm) B) → frames_same (delete (s_base s - hhdm) B) (h_pages h) p →
  heap_rep (set_cache (mk_heap (h_slab h) p (h_mem h)) i c mem') (delete (s_base s - hhdm) B) (without V i k l).
Proof.
  intros Hh Hi Hv Hc Hm Hp Hfs. split; cbn [set_cache h_slab h_pages h_mem sa_caches].
  - done.
  - rewrite length_insert. apply (hr_len Hh).
  - intros j cj Hcj. unfold without. destruct (decide (i = j)) as [<-|Hne].
    + rewrite fn_lookup_insert. rewrite list_lookup_insert_eq in Hcj; [by injection Hcj as <-|]. by rewrite (hr_len Hh).
    + rewrite fn_lookup_insert_ne by done. rewrite list_lookup_insert_ne in Hcj by done.
      assert (j < NCLASSES)%nat by (rewrite <-(hr_len Hh); by eapply lookup_lt_Some).
      apply (cache_mem_other h B V i j); [done..|]. by apply (hr_cache Hh).
  - intros j b [Hb Hne]%(slab_at_without h B V i k s l); [|done..]. pose proof (hr_place Hh _ _ Hb) as [Hbl Hf].
    assert (delete (s_base s - hhdm) B !! (b - hhdm) = Some (g_order (geom j))) as Hd.
    { rewrite lookup_delete_ne; [done|]. lia. }
    split; [done|]. intros q Hq. destruct (Hf q Hq) as (f & Hfq & Hn). exists f. split; [|done].
    by rewrite (Hfs _ _ _ Hd Hq).
  - intros j j' b [H1 _]%(slab_at_without h B V i k s l) [H2 _]%(slab_at_without h B V i k s l); try done.
    by apply (hr_unique Hh _ _ b).
  - intros a o Ha. pose proof Ha as [Hne Ha']%lookup_delete_Some.
    destruct (hr_block Hh a o Ha') as [[j Hj]|(f & Hf & Hn)].
    + left. exists j. apply (slab_at_without h B V i k s l); [done..|]. split; [done|]. lia.
    + right. exists f. split; [|done]. rewrite (Hfs _ _ _ Ha); [done|].
      by apply (first_frame (hhdm:=hhdm) (h_pages h) B); [apply Hh|].
Qed.

(** Dropping a slab without objects in use is not noticed by clients. *)
Lemma heap_step_without h B V i k s l mem' :
  heap_rep h B V → (i < NCLASSES)%nat → V i k = s :: l →
  Z.of_nat (length (s_free s)) = g_count (geom i) →
  (∀ a, (∀ s', s' ∈ slabs (V i) → ¬ range (s_base s') SLAB_HEADER_BYTES a) → mem' a = h_mem h a) →
  heap_step V B (h_mem h) (without V i k l) (delete (s_base s - hhdm) B) mem' (live V).
Proof.
  intros Hh Hi Hv Hlen Hm. destruct (cache_lookup _ _ _ _ Hh Hi) as (c & _ & Hc).
  assert (slabs (V i) ≡ₚ s :: slabs (<[k:=l]> (V i))) as Hp by (by apply (slabs_insert (V i) k l _ [s] Hv)).
  pose proof (cm_spread _ _ _ _ Hc) as Hsp.
  assert (s ∈ slabs (V i)) as Hs by (rewrite Hp; by left).
  pose proof (pd_block (hr_place Hh i (s_base s) (slab_at_elem V i s Hi Hs))) as Hb.
  split.
  - intros j y. unfold live, without. destruct (decide (i = j)) as [<-|Hne].
    + rewrite fn_lookup_insert. unfold live_in. setoid_rewrite Hp. setoid_rewrite elem_of_cons.
      split; intros [Hj (s2 & Hs2 & Ho & Hn)]; (split; [done|]); exists s2; [by auto|].
      destruct Hs2 as [->|Hs2]; [|done]. destruct Hn. apply (empty_all i); [by apply Hsp|done|done].
    + by rewrite fn_lookup_insert_ne.
  - intros a o. unfold page_block. setoid_rewrite (slab_at_without h B V i k s l); [|done..].
    rewrite lookup_delete_Some. split.
    + intros [[Hne Ha] Hn]. split; [done|]. intros j Hj. apply (Hn j). split; [done|]. lia.
    + intros [Ha Hn]. split; [split; [|done]|].
      * intros E. apply (Hn i). replace (a + hhdm) with (s_base s) by lia. by apply slab_at_elem.
      * intros j [Hj _]. by apply (Hn j).
  - intros j y a [Hj (s2 & Hs2 & Ho & _)] _ Hr. apply Hm. intros s' Hs' Hr'.
    destruct (decide (i = j)) as [<-|Hne]; [by eapply (object_no_header i (slabs (V i)) s2 y a s')|].
    destruct (object_range _ _ _ _ Ho Hr) as [Hr1 _].
    pose proof (slab_at_elem V i s' Hi Hs') as H1. pose proof (slab_at_elem V j s2 Hj Hs2) as H2.
    assert (s_base s' ≠ s_base s2) as Hd.
    { intros E. rewrite E in H1. by destruct Hne; apply (hr_unique Hh _ _ _ H1 H2). }
    pose proof (slabs_apart _ _ _ _ _ _ _ Hh H1 H2 Hd). pose proof (header_bytes_span i). unfold apart, range in *. lia.
  - intros a Ha. apply Hm. intros s' Hs'. apply (outside_header i), (Ha i). left. by apply slab_at_elem.
Qed.

(** ** Returning an object *)

(** Putting the object back, wherever the slab ends up. *)
Lemma put_step h B V i c' s x R v' mem :
  heap_rep h B V → (i < NCLASSES)%nat → slabs (V i) ≡ₚ s :: R →
  slabs v' ≡ₚ mk_slab (s_base s) (x :: s_free s) :: R →
  is_object i (s_base s) x → x ∉ s_free s → cache_mem mem i c' v' →
  (∀ a, (∀ s', s' ∈ slabs (V i) → ¬ range (s_base s') SLAB_HEADER_BYTES a) →
        ¬ range x (g_size (geom i)) a → mem a = h_mem h a) →
  heap_rep (set_cache h i c' mem) B (<[i:=v']> V) ∧
  heap_step V B (h_mem h) (<[i:=v']> V) B mem (minus V i x).
Proof.
  intros Hh Hi H1 H2 Hox Hnx Hc Hm. destruct (cache_lookup _ _ _ _ Hh Hi) as (c & Hci & Hc0).
  pose proof (cm_spread _ _ _ _ Hc0) as Hsp. assert (s ∈ slabs (V i)) as Hs by (rewrite H1; by left).
  assert (only_slabs i (slabs (V i)) (h_mem h) mem) as Hos.
  { intros a Ha. apply Hm; [intros s' Hs'; by apply (outside_header i), Ha|].
    intros [Hr _]%(object_range i (s_base s)); [|done]. by apply (Ha s). }
  assert (same_bases (V i) v') as Hsb by (apply same_bases_perm; by rewrite H1, H2).
  split; [by apply heap_rep_local|]. apply heap_step_local; [done|done|done| | | |].
  - intros j y Hne. unfold minus. naive_solver.
  - intros y. unfold minus, live, live_in. setoid_rewrite H1. setoid_rewrite H2. setoid_rewrite elem_of_cons. split.
    + intros (s2 & [->|Hs2] & Ho & Hn); (split; [split; [done|]|]).
      * exists s. cbn in *. rewrite not_elem_of_cons in Hn. naive_solver.
      * intros [_ ->]. cbn in Hn. apply Hn. by left.
      * eauto.
      * intros [_ ->]. assert (s2 = s) as ->; [|].
        { apply (object_slab i (V i) _ _ x); [done|rewrite H1; by right|done|done|done]. }
        apply (spread_ne i [] s R s); [by apply (spread_perm i (slabs (V i)))|done|done].
    + intros [[_ (s2 & [->|Hs2] & Ho & Hn)] Hne]; [|eauto].
      exists (mk_slab (s_base s) (x :: s_free s)). cbn. rewrite not_elem_of_cons. naive_solver.
  - intros y a Hy [_ Hne] Hr. pose proof Hy as (s2 & Hs2 & Ho2 & _). apply Hm.
    + intros s' Hs'. by eapply (object_no_header i (slabs (V i)) s2 y).
    + intros Hr'. assert (x ≠ y) as Hxy by naive_solver.
      destruct (decide (s_base s = s_base s2)) as [E|Hd].
      * rewrite <-E in Ho2. pose proof (objects_apart _ _ _ _ Hox Ho2 Hxy). unfold apart, range in *. lia.
      * destruct (object_range _ _ _ _ Ho2 Hr) as [Hr1 _]. destruct (object_range _ _ _ _ Hox Hr') as [Hr2 _].
        pose proof (sp_apart _ _ Hsp s s2 Hs Hs2 Hd). unfold apart, range in *. lia.
  - intros j y a Hne Hy Hr s2 Hs2. by eapply (live_apart h B V i j y a s2).
Qed.

(** A full slab becomes partial when an object returns. *)
Lemma unfull_spec h i c v k l1 s l2 mem :
  (i < NCLASSES)%nat → sa_caches (h_slab h) !! i = Some c → k ≠ KEmpty →
  v k = l1 ++ s :: l2 → cache_mem mem i c v →
  wp (if bool_decide (tag_of k = SlabList.Full) then
        c ← cache_of (set_mem mem h) i;
        '(c, mem) ← move_slab c (s_base s) KFull KPartial SlabList.Partial (h_mem (set_mem mem h));
        with_cache (set_mem mem (set_mem mem h)) i c
      else Ret (set_mem mem h)) (λ h2, ∃ c2 v2 l1' l2', h2 = set_cache h i c2 (h_mem h2) ∧
    cache_mem (h_mem h2) i c2 v2 ∧ v2 KPartial = l1' ++ s :: l2' ∧ slabs v2 ≡ₚ slabs v ∧
    v2 KEmpty = v KEmpty ∧
    (∀ s', s' ∈ v2 KFull → s' ∈ v KFull ∧ (k = KFull → s' ∈ l1 ++ l2)) ∧
    (∀ s', s' ∈ l1' ++ l2' → s' ∈ v KPartial ∧ (k = KPartial → s' ∈ l1 ++ l2)) ∧
    only_headers (slabs v) mem (h_mem h2)).
Proof.
  intros Hi Hci Hk Hv Hc. destruct k; [| |done].
  - rewrite bool_decide_eq_false_2 by done. apply wp_ret. exists c, v, l1, l2. split.
    { unfold set_cache, set_mem. cbn [h_mem]. rewrite list_insert_id by done. by destruct h as [[] ? ?]. }
    do 4 (split; [done|]). split; [done|]. split; [|apply only_headers_refl].
    intros s' Hs'. split; [|done]. rewrite Hv. apply elem_of_mid. by right.
  - rewrite bool_decide_eq_true_2 by done. unfold cache_of. apply wp_bind. eapply wp_arr_get; [exact Hci|].
    apply wp_bind. eapply wp_mono; [by apply (move_slab_spec mem i c v KFull KPartial l1 s l2)|].
    intros [c2 mem2] [Hc2 Hm2]. unfold with_cache. apply wp_bind, wp_arr_set; [by eapply lookup_lt_Some|]. apply wp_ret.
    exists c2, (moved v KFull KPartial l1 s l2), [], (v KPartial). split; [done|]. split; [done|].
    unfold moved at 1. rewrite fn_lookup_insert. split; [done|]. split; [by apply moved_slabs|].
    split; [done|]. split; [|split; [|exact Hm2]].
    + unfold moved. rewrite fn_lookup_insert_ne, fn_lookup_insert by done. intros s' Hs'. split; [|done].
      rewrite Hv. apply elem_of_mid. by right.
    + intros s' Hs'. by split.
Qed.

(** The other half of the invariant, when only the bucket of [s] may be wrong. *)
Record use_but V (i : nat) (s : slab) (l1 l2 : list slab) : Prop := {
  ub_other : ∀ j, (j < NCLASSES)%nat → j ≠ i → cache_use j (V j);
  ub_slab : V i KPartial = l1 ++ s :: l2;
  ub_free : s_free s ≠ [];
  ub_partial : ∀ s', s' ∈ l1 ++ l2 → kind_use i KPartial s';
  ub_rest : ∀ k s', k ≠ KPartial → s' ∈ V i k → kind_use i k s';
  ub_empty : Z.of_nat (length (V i KEmpty)) ≤ MAX_EMPTY_SLABS
}.

(** Popping the slab that was just emptied and releasing its pages. *)
Lemma drop_empty h B V i c s l :
  heap_rep h B V → (i < NCLASSES)%nat → sa_caches (h_slab h) !! i = Some c →
  V i KEmpty = s :: l → Z.of_nat (length (s_free s)) = g_count (geom i) →
  wp ('(r, b, mem) ← bucket_pop (c_empty c) (h_mem h);
      h ← with_cache (set_mem mem h) i (with_bucket c KEmpty b);
      match r with
      | Some victim => release_slab hhdm h victim
      | None => Ret h
      end) (λ h', heap_rep h' (delete (s_base s - hhdm) B) (without V i KEmpty l) ∧
    heap_step V B (h_mem h) (without V i KEmpty l) (delete (s_base s - hhdm) B) (h_mem h') (live V)).
Proof.
  intros Hh Hi Hci Hv Hlen. pose proof (hr_cache Hh _ _ Hci) as Hc.
  assert (s ∈ slabs (V i)) as Hs by (apply elem_of_slabs; exists KEmpty; rewrite Hv; by left).
  pose proof (pd_block (hr_place Hh i (s_base s) (slab_at_elem V i s Hi Hs))) as Hb.
  apply wp_bind. eapply wp_mono; [by apply (cache_pop (h_mem h) i c (V i) KEmpty)|].
  intros [[r b] mem1]. rewrite Hv. intros (-> & Hc1 & Hh1 & _ & Hm1).
  unfold with_cache. apply wp_bind, wp_bind, wp_arr_set; [by eapply lookup_lt_Some|]. apply wp_ret.
  eapply wp_mono.
  { apply (release_slab_spec _ B i (s_base s) SlabList.Empty 0 0 s); [apply (hr_pages Hh)|done|done]. }
  cbn [h_slab h_pages h_mem set_mem]. intros h' (Hsl & Hp' & Hfs & Hm').
  assert (∀ a, (∀ s', s' ∈ slabs (V i) → ¬ range (s_base s') SLAB_HEADER_BYTES a) → h_mem h' a = h_mem h a) as Hm.
  { intros a Ha. rewrite Hm', Hm1; [done| |by apply Ha]. intros s' Hs'. apply Ha, elem_of_slabs. exists KEmpty. by rewrite Hv. }
  assert (slabs (V i) ≡ₚ s :: slabs (<[KEmpty:=l]> (V i))) as Hp by (by apply (slabs_insert (V i) KEmpty l _ [s] Hv)).
  split; [|by apply (heap_step_without h)].
  replace h' with (set_cache (mk_heap (h_slab h) (h_pages h') (h_mem h)) i (with_bucket c KEmpty b) (h_mem h')).
  2:{ destruct h' as [sl p mem]. cbn in Hsl. subst sl. done. }
  apply heap_rep_without; [done|done|done| | |done|done].
  - eapply cache_mem_ext; [|exact Hc1]. intros s' a Hs' Ha. apply Hm'.
    apply (spread_frame i [] s (slabs (<[KEmpty:=l]> (V i))) s'); [|done|done].
    apply (spread_perm i (slabs (V i))); [done|apply Hc].
  - intros a Ha. apply Hm. intros s' Hs'. by apply (outside_header i), Ha.
Qed.

Lemma retire_spec h B V i s l1 l2 :
  heap_rep h B V → (i < NCLASSES)%nat → use_but V i s l1 l2 →
  wp (if is_empty_slab (get_header (h_mem h) (s_base s)) then
        c ← cache_of h i;
        '(c, mem) ← move_slab c (s_base s) KPartial KEmpty SlabList.Empty (h_mem h);
        h ← with_cache (set_mem mem h) i c;
        if MAX_EMPTY_SLABS <? bucket_len (c_empty c) then
          '(r, b, mem) ← bucket_pop (c_empty c) (h_mem h);
          h ← with_cache (set_mem mem h) i (with_bucket c KEmpty b);
          match r with
          | Some victim => release_slab hhdm h victim
          | None => Ret h
          end
        else Ret h
      else Ret h) (λ h', ∃ B' V', heap_inv h' B' V' ∧ heap_step V B (h_mem h) V' B' (h_mem h') (live V)).
Proof.
  intros Hh Hi [Hoth Hv Hfree Hpart Hrest Hemp]. destruct (cache_lookup _ _ _ _ Hh Hi) as (c & Hci & Hc).
  destruct (cache_slab _ _ _ _ _ _ _ _ Hc Hv) as (Hok & _ & p & n & Hhdr & _).
  pose proof (cm_spread _ _ _ _ Hc) as Hsp.
  rewrite Hhdr. unfold is_empty_slab. cbn [slab_header sh_inuse].
  destruct (Z.eqb_spec (g_count (geom i) - Z.of_nat (length (s_free s))) 0) as [E|Hne].
  2:{ apply wp_ret. exists B, V. split; [|apply heap_step_refl]. split; [done|]. intros j Hj.
      destruct (decide (j = i)) as [->|Hji]; [|by apply Hoth]. split; [|done]. intros k s' Hs'.
      destruct (decide (k = KPartial)) as [->|Hk]; [|by apply Hrest].
      rewrite Hv in Hs'. apply elem_of_mid in Hs' as [->|Hs']; [|by apply Hpart].
      pose proof (slab_free_length i s Hok). split; [done|lia]. }
  assert (Z.of_nat (length (s_free s)) = g_count (geom i)) as Hlen by lia.
  unfold cache_of. apply wp_bind. eapply wp_arr_get; [exact Hci|].
  apply wp_bind. eapply wp_mono; [by apply (move_slab_spec (h_mem h) i c (V i) KPartial KEmpty l1 s l2)|].
  intros [c3 mem3] [Hc3 Hm3]. set (v3 := moved (V i) KPartial KEmpty l1 s l2) in *.
  assert (slabs v3 ≡ₚ slabs (V i)) as Hp3 by (by apply moved_slabs).
  assert (v3 KEmpty = s :: V i KEmpty) as Hv3 by (unfold v3, moved; by rewrite fn_lookup_insert).
  assert (same_bases (V i) v3) as Hsb by (apply same_bases_perm; by rewrite Hp3).
  pose proof (heap_rep_local h B V i c3 v3 mem3 Hh Hi Hsb Hc3 (only_headers_slabs i _ _ _ Hm3)) as Hh3.
  set (V3 := <[i:=v3]> V) in *. set (h3 := set_cache h i c3 mem3) in *.
  assert (heap_step V B (h_mem h) V3 B mem3 (live V)) as Hst3.
  { apply heap_step_local; [done|done|by apply only_headers_slabs|done| | |].
    - intros y. unfold live. rewrite (live_in_perm i v3 (V i)) by done. tauto.
    - intros y a (s2 & Hs2 & Ho2 & _) _ Hr. apply Hm3. intros s' Hs'. by eapply (object_no_header i (slabs (V i)) s2 y).
    - intros j y a Hji Hy Hr s2 Hs2. by eapply (live_apart h B V i j y a s2). }
  unfold with_cache at 1. apply wp_bind, wp_bind, wp_arr_set; [by eapply lookup_lt_Some|]. apply wp_ret.
  cbn [h_slab h_pages h_mem set_mem].
  change (mk_heap (mk_slab_allocator (sa_zone (h_slab h)) (<[i:=c3]> (sa_caches (h_slab h)))) (h_pages h) mem3) with h3.
  assert (∀ v' : view, (∀ s', s' ∈ v' KPartial → s' ∈ l1 ++ l2) → v' KFull = V i KFull →
    (∀ s', s' ∈ v' KEmpty → s' ∈ s :: V i KEmpty) → Z.of_nat (length (v' KEmpty)) ≤ MAX_EMPTY_SLABS →
    cache_use i v') as Huse.
  { intros v' H1 H2 H3 H4. split; [|done]. intros [] s' Hs'.
    - by apply Hpart, H1.
    - rewrite H2 in Hs'. by apply (Hrest KFull s').
    - apply H3, elem_of_cons in Hs' as [->|Hs']; [done|by apply (Hrest KEmpty s')]. }
  assert (∀ s', s' ∈ v3 KPartial → s' ∈ l1 ++ l2) as Hv3p.
  { unfold v3, moved. by rewrite fn_lookup_insert_ne, fn_lookup_insert. }
  unfold bucket_len. pose proof (br_count _ _ _ _ _ (cm_bucket _ _ _ _ Hc3 KEmpty)) as Hcnt. cbn [bucket_of] in Hcnt.
  rewrite Hcnt, Hv3. destruct (Z.ltb_spec MAX_EMPTY_SLABS (Z.of_nat (length (s :: V i KEmpty)))) as [Hgt|Hle].
  - assert (sa_caches (h_slab h3) !! i = Some c3) as Hci3.
    { cbn. apply list_lookup_insert_eq. by rewrite (hr_len Hh). }
    eapply wp_mono.
    { apply (drop_empty h3 B V3 i c3 s (V i KEmpty)); [done|done|done| |done]. unfold V3. by rewrite fn_lookup_insert. }
    intros h' [Hh' Hst']. eexists _, _. split; [split; [exact Hh'|]|].
    + intros j Hj. unfold without. destruct (decide (i = j)) as [<-|Hji].
      * rewrite fn_lookup_insert. unfold V3. rewrite fn_lookup_insert. apply Huse.
        -- rewrite fn_lookup_insert_ne by done. exact Hv3p.
        -- done.
        -- rewrite fn_lookup_insert. intros s' Hs'. by right.
        -- by rewrite fn_lookup_insert.
      * unfold V3. rewrite !fn_lookup_insert_ne by done. by apply Hoth.
    + eapply heap_step_trans; [exact Hst3| |].
      * eapply heap_step_ext; [|exact Hst']. exact (hs_live Hst3).
      * intros j b Hb. left. unfold V3 in Hb. by apply slab_at_local in Hb.
  - apply wp_ret. exists B, V3. split; [|exact Hst3]. split; [exact Hh3|]. intros j Hj. unfold V3.
    destruct (decide (i = j)) as [<-|Hji]; [|rewrite fn_lookup_insert_ne by done; by apply Hoth].
    rewrite fn_lookup_insert. apply Huse; [done|done|by rewrite Hv3|by rewrite Hv3].
Qed.

(** An object in use leaves its slab with one free object less than it has. *)
Lemma live_free_length i s x :
  slab_ok i s → is_object i (s_base s) x → x ∉ s_free s →
  Z.of_nat (length (s_free s)) + 1 ≤ g_count (geom i).
Proof.
  intros [Hs Hnd Ho] Hx Hn.
  assert (slab_ok i (mk_slab (s_base s) (x :: s_free s))) as Hok.
  { split; [done|by constructor|]. intros y [->|Hy]%elem_of_cons; auto. }
  pose proof (slab_free_length i _ Hok) as Hl. cbn [s_free length] in Hl. lia.
Qed.

Lemma free_object_spec h B V i c s x :
  heap_inv h B V → (i < NCLASSES)%nat → sa_caches (h_slab h) !! i = Some c →
  s ∈ slabs (V i) → is_object i (s_base s) x → x ∉ s_free s →
  wp (free_object hhdm h (s_base s) x i (g_size (geom i))) (λ h',
    ∃ B' V', heap_inv h' B' V' ∧ heap_step V B (h_mem h) V' B' (h_mem h') (minus V i x)).
Proof.
  intros [Hh Hu] Hi Hci Hs Hox Hnx. pose proof (hr_cache Hh _ _ Hci) as Hc.
  apply elem_of_slabs in Hs as [k Hs]. pose proof Hs as (l1 & l2 & Hv)%list_elem_of_split.
  destruct (cache_slab _ _ _ _ _ _ _ _ Hc Hv) as (Hok & _ & p & n & Hhdr & _).
  pose proof (live_free_length i s x Hok Hox Hnx) as Hlen.
  assert (k ≠ KEmpty) as Hk.
  { intros ->. pose proof (cu_kind _ _ (Hu i Hi) KEmpty s Hs) as He. cbn [kind_use] in He. lia. }
  destruct (put_spec (h_mem h) i c (V i) k l1 s x l2 Hi Hc Hv Hox Hnx) as [Hc1 Hm1].
  unfold free_object. set (mem0 := fill x _ _ _).
  assert (get_header mem0 (s_base s) = slab_header i (tag_of k) p n s) as Hh0.
  { rewrite <-Hhdr. apply get_header_ext. intros a Ha. unfold mem0. rewrite fill_at, decide_False; [done|].
    by intros [_ ?]%(object_range i (s_base s)). }
  rewrite Hh0. cbn [slab_header sh_free sh_list sh_inuse].
  apply wp_bind, wp_sub64; [lia|].
  set (mem1 := put_mem _ _ _ _ _) in Hc1, Hm1.
  match goal with |- context [set_mem ?m h] => assert (m = mem1) as -> end.
  { unfold mem1, put_mem. fold mem0. rewrite Hh0. cbn [slab_header sh_free length].
    do 2 f_equal. lia. }
  clearbody mem1. set (s' := mk_slab (s_base s) (x :: s_free s)) in *.
  set (v1 := <[k:=l1 ++ s' :: l2]> (V i)) in *.
  assert (v1 k = l1 ++ s' :: l2) as Hv1 by (unfold v1; by rewrite fn_lookup_insert).
  apply wp_bind. eapply wp_mono; [by apply (unfull_spec h i c v1 k l1 s' l2 mem1)|].
  intros h2 (c2 & v2 & l1' & l2' & Eh2 & Hc2 & Hv2 & Hp2 & He2 & Hfu & Hpa & Hm2).
  destruct (replaced_slabs (V i) k l1 s s' l2 Hv) as (R & H1 & H2). fold v1 in H2.
  destruct (put_step h B V i c2 s x R v2 (h_mem h2)) as [Hh3 Hst3]; [done|done|done|by rewrite Hp2|done|done|done| |].
  { intros a Ha Hx. rewrite Hm2, Hm1; [done| |done|].
    - apply Ha. rewrite H1. by left.
    - intros s2. rewrite H2. intros [->|Hs2]%elem_of_cons; [apply (Ha s); rewrite H1; by left|].
      apply Ha. rewrite H1. by right. }
  set (V2 := <[i:=v2]> V) in *. rewrite <-Eh2 in Hh3.
  eapply wp_mono; [apply (retire_spec h2 B V2 i s' l1' l2'); [done|done|]|].
  - assert (∀ k', k' ≠ k → v1 k' = V i k') as Hv1o by (intros k' Hk'; unfold v1; by rewrite fn_lookup_insert_ne).
    assert (∀ s2, s2 ∈ l1 ++ l2 → s2 ∈ V i k) as Hll by (intros s2 Hs2; rewrite Hv; apply elem_of_mid; by right).
    destruct (Hu i Hi) as [Huk Hue]. unfold V2. split.
    + intros j Hj Hji. rewrite fn_lookup_insert_ne by done. by apply Hu.
    + by rewrite fn_lookup_insert.
    + done.
    + intros s2 Hs2. destruct (Hpa s2 Hs2) as [Hs2' Hk2]. apply (Huk KPartial).
      destruct (decide (k = KPartial)) as [->|Hkp]; [auto|by rewrite <-Hv1o].
    + rewrite fn_lookup_insert. intros k' s2 Hk' Hs2. destruct k'; [done| |].
      * destruct (Hfu s2 Hs2) as [Hs2' Hk2]. apply (Huk KFull).
        destruct (decide (k = KFull)) as [->|Hkf]; [auto|by rewrite <-Hv1o].
      * apply (Huk KEmpty). by rewrite <-Hv1o, <-He2.
    + rewrite fn_lookup_insert, He2, Hv1o by done. done.
  - intros h' (B' & V' & Hinv' & Hst'). exists B', V'. split; [done|].
    eapply heap_step_quiet; [exact Hst3|exact Hst'|]. intros j b Hb. left.
    apply (slab_at_local V i v2); [|done]. apply same_bases_perm. by rewrite Hp2, H1, H2.
Qed.

(** [free] on an object in use: it is taken back, unless its second word
    happens to hold the poison, which the check mistakes for a double free. *)
Lemma slab_free_spec h B V i x :
  heap_inv h B V → live V i x →
  if decide (node_poison (h_mem h) x = POISON_TAG)
  then slab_free_object hhdm h x = Panic PExplicit
  else wp (slab_free_object hhdm h x) (λ '(h', r), r = true ∧
    ∃ B' V', heap_inv h' B' V' ∧ heap_step V B (h_mem h) V' B' (h_mem h') (minus V i x)).
Proof.
  intros Hinv [Hi (s & Hs & Hox & Hnx)]. pose proof Hinv as [Hh _].
  destruct (cache_lookup _ _ _ _ Hh Hi) as (c & Hci & Hc).
  pose proof Hs as [k Hk]%elem_of_slabs. apply list_elem_of_split in Hk as (l1 & l2 & Hv).
  destruct (cache_slab _ _ _ _ _ _ _ _ Hc Hv) as (Hok & _ & p & n & Hhdr & _).
  pose proof Hok as [Hsite _ _]. pose proof (so_site _ _ Hok) as [_ Hbp Hbe].
  pose proof (live_free_length i s x Hok Hox Hnx) as Hlen. pose proof (page_le_span i) as Hps. unfold PAGE_SIZE in Hps.
  unfold slab_free_object. rewrite (find_slab_in h B V i s x) by done. cbn [mbind outcome_bind].
  rewrite Hhdr. cbn [slab_header sh_class_idx sh_inuse]. rewrite Nat2Z.id.
  rewrite (proj2 (Nat.leb_gt _ _)) by (by rewrite (hr_len Hh)).
  assert (cache_of h i = Ret c) as ->. { unfold cache_of, arr_get. by rewrite Hci. }
  cbn [mbind outcome_bind]. rewrite (cm_size _ _ _ _ Hc), objects_start_spec by done. cbn [mbind outcome_bind].
  assert (span_bytes (slab_header i (tag_of k) p n s) = span i) as ->.
  { unfold span_bytes, span, block_bytes, wrap64. cbn [slab_header sh_order].
    rewrite Z.shiftl_mul_pow2 by lia. apply Z.mod_small. fold (block_bytes (g_order (geom i))). fold (span i). lia. }
  assert (add64 (s_base s) (span i) = Ret (s_base s + span i)) as ->.
  { unfold add64. by rewrite (proj2 (Z.leb_le _ _)) by (unfold u64_max; lia). }
  cbn [mbind outcome_bind]. pose proof Hox as (j & Hj & Ex). destruct (geom_good i) as [Hgs _ _ _ _ _ _].
  destruct (object_bounds _ _ _ Hox) as [_ Hx2]. unfold obj_addr in Ex.
  rewrite (proj2 (Z.ltb_ge x _)) by nia. rewrite (proj2 (Z.leb_gt _ x)) by lia. cbn [orb].
  replace (x - (s_base s + g_off (geom i))) with (j * g_size (geom i)) by lia.
  rewrite Z.mod_mul by lia. cbn [Z.eqb negb].
  rewrite (proj2 (Z.eqb_neq _ 0)) by lia.
  case_decide as Hp; [by rewrite (proj2 (Z.eqb_eq _ _) Hp)|]. rewrite (proj2 (Z.eqb_neq _ _) Hp).
  eapply wp_bind, wp_mono; [by apply (free_object_spec h B V i c s x)|].
  intros h' Hr. by apply wp_ret.
Qed.
End free.
