(* ===== verification/Kmalloc.v ===== *)
(** * The kernel heap: operations

    Models kernel/src/arch/amd64/memory/pmm/physical_alloc.rs: [kmalloc] and
    [kfree], and the kernel's global allocator behind [alloc::alloc].  Small
    requests go to the slab allocator, the others to whole pages. *)
From S2P Require Import Memblock Sparsemem Zones Paging.
From S2P Require Import Prelude Misc Frame ByteMem Slab.
#[local] Open Scope Z_scope.

Definition KM_ZEROED : Z := 1.
Definition KM_KERNEL : Z := 2.
Definition km_contains (flags f : Z) : bool := Z.land flags f =? f.

(** [core::alloc::Layout]. *)
Record Layout := mk_layout { l_size : Z; l_align : Z }.

(** [NonNull::<u8>::dangling()]. *)
Definition dangling : Z := 1.

Section kmalloc.
Context {P PT : Type} {HP : HeapPages P} {X : X86_64 PT} (hhdm : Z).

Definition kmalloc (h : heap P) (bytes flags : Z) : outcome (heap P * option Z) :=
  if bytes =? 0 then Ret (h, None)
  else
    let zeroed := km_contains flags KM_ZEROED in
    if bytes <=? SLAB_MAX_ALLOC then slab_alloc (X:=X) hhdm h bytes zeroed
    else
      aligned ← align_up bytes PAGE_SIZE;
      order ← pages_to_order (aligned / PAGE_SIZE);
      let pflags := if zeroed then SAFE_KERNEL_PAGES else KERNEL_PAGES in
      '(p, mem, r) ← hp_alloc (h_pages h) (h_mem h) (Z.to_nat order) pflags;
      let h := set_mem mem (set_pages p h) in
      match r with
      | None => Ret (h, None)
      | Some phys =>
          virt ← phys_to_virt hhdm phys;
          a ← virt_new virt;
          Ret (h, Some a)
      end.

Definition kfree (h : heap P) (ptr : Z) : outcome (heap P) :=
  if ptr =? 0 then Ret h
  else
    '(h, freed) ← slab_free (X:=X) hhdm h ptr;
    match freed with
    | true => Ret h
    | false =>
        phys ← virt_to_phys hhdm ptr;
        a ← phys_new phys;
        p ← hp_free (h_pages h) a;
        Ret (set_pages p h)
    end.

Definition alloc_for_layout (h : heap P) (layout : Layout) (zeroed : bool) : outcome (heap P * Z) :=
  let size := l_size layout in
  let align := l_align layout in
  if size =? 0 then Ret (h, dangling)
  else if (size <=? SLAB_MAX_ALLOC) && (align <=? SLAB_MIN_ALIGN) then
    '(h, r) ← slab_alloc (X:=X) hhdm h size zeroed;
    match r with
    | Some va => Ret (h, va)
    | None => Ret (h, 0)
    end
  else
    s ← align_up size PAGE_SIZE;
    let size_pages := s / PAGE_SIZE in
    a ← align_up align PAGE_SIZE;
    let align_pages := a / PAGE_SIZE in
    o1 ← pages_to_order size_pages;
    o2 ← pages_to_order (Z.max 1 align_pages);
    let order := Z.max o1 o2 in
    let pflags := if zeroed then SAFE_KERNEL_PAGES else KERNEL_PAGES in
    '(p, mem, r) ← hp_alloc (h_pages h) (h_mem h) (Z.to_nat order) pflags;
    let h := set_mem mem (set_pages p h) in
    match r with
    | Some phys => virt ← phys_to_virt hhdm phys; Ret (h, virt)
    | None => Ret (h, 0)
    end.

(** ** [impl GlobalAlloc for KernelAllocator] *)

Definition ga_alloc (h : heap P) (layout : Layout) : outcome (heap P * Z) :=
  alloc_for_layout h layout false.

Definition ga_alloc_zeroed (h : heap P) (layout : Layout) : outcome (heap P * Z) :=
  alloc_for_layout h layout true.

Definition ga_dealloc (h : heap P) (ptr : Z) (layout : Layout) : outcome (heap P) :=
  if (l_size layout =? 0) || (ptr =? 0) then Ret h
  else
    a ← virt_new ptr;
    kfree h a.

Definition ga_realloc (h : heap P) (ptr : Z) (old_layout : Layout) (new_size : Z)
    : outcome (heap P * Z) :=
  if l_size old_layout =? 0 then ga_alloc h (mk_layout new_size (l_align old_layout))
  else if new_size =? 0 then
    h ← ga_dealloc h ptr old_layout;
    Ret (h, dangling)
  else
    let new_layout := mk_layout new_size (l_align old_layout) in
    '(h, new_ptr) ← ga_alloc h new_layout;
    if new_ptr =? 0 then Ret (h, 0)
    else
      let to_copy := Z.min (l_size old_layout) new_size in
      let h := set_mem (copy_bytes ptr new_ptr to_copy (h_mem h)) h in
      h ← ga_dealloc h ptr old_layout;
      Ret (h, new_ptr).
End kmalloc.
