(* ===== verification/HeapSpec.v ===== *)
(** * The kernel heap: specifications

    To a client the heap is a set of cells: objects of slabs and blocks of
    pages, each an address and a capacity.  [grant] and [revoke] say what an
    allocation and a release do to the cells and to their bytes; the
    specifications of [kmalloc], [kfree] and the global allocator are in these
    terms. *)
From stdpp Require Import functions.
From S2P Require Import Memblock Sparsemem Zones Paging.
From S2P Require Import Prelude Misc Frame ByteMem Slab SlabMem SlabLists SlabCaches SlabHeap SlabGrow SlabOps SlabFree Kmalloc.
#[local] Open Scope Z_scope.

(** A slab object of a class, or a block of pages. *)
Inductive room := RObject (i : nat) | RPages (o : nat).

#[global] Instance room_eq_dec : EqDecision room.
Proof. solve_decision. Defined.

Definition capacity (r : room) : Z :=
  match r with
  | RObject i => g_size (geom i)
  | RPages o => block_bytes o
  end.

Section cells.
Context (hhdm : Z).
Implicit Types (B : gmap Z nat) (V : views).

(** The memory behind the pointer [p] is [r]. *)
Definition cell V B (p : Z) (r : room) : Prop :=
  match r with
  | RObject i => live V i p
  | RPages o => page_block hhdm V B (p - hhdm) o
  end.

Record grant V B (mem : Z → Z) V' B' (mem' : Z → Z) (p : Z) (r : room) : Prop := {
  gr_fresh : ∀ r', ¬ cell V B p r';
  gr_cells : ∀ q r', cell V' B' q r' ↔ cell V B q r' ∨ (q = p ∧ r' = r);
  gr_mem : ∀ q r' a, cell V B q r' → range q (capacity r') a → mem' a = mem a
}.

Record revoke V B (mem : Z → Z) V' B' (mem' : Z → Z) (p : Z) : Prop := {
  rv_cells : ∀ q r, cell V' B' q r ↔ cell V B q r ∧ q ≠ p;
  rv_mem : ∀ q r a, cell V B q r → q ≠ p → range q (capacity r) a → mem' a = mem a
}.
End cells.
Arguments gr_fresh {hhdm V B mem V' B' mem' p r}.
Arguments gr_cells {hhdm V B mem V' B' mem' p r}.
Arguments gr_mem {hhdm V B mem V' B' mem' p r}.
Arguments rv_cells {hhdm V B mem V' B' mem' p}.
Arguments rv_mem {hhdm V B mem V' B' mem' p}.

(** What [Layout] guarantees. *)
Record layout_ok (l : Layout) : Prop := {
  lo_size : 0 ≤ l_size l;
  lo_align : ∃ k, 0 ≤ k ∧ l_align l = 2 ^ k;
  lo_max : l_size l + l_align l - 1 ≤ 2 ^ 63 - 1
}.

Section spec.
Context {P PT : Type} {HP : HeapPages P} {X : X86_64 PT} {XL : X86_64Laws PT}
  {hhdm : Z} {HL : HeapPagesLaws P hhdm}.
Implicit Types (h : heap P) (B : gmap Z nat) (V : views).
#[local] Notation heap_rep := (heap_rep hhdm).
#[local] Notation heap_inv := (heap_inv hhdm).
#[local] Notation heap_step := (heap_step hhdm).
#[local] Notation cell := (cell hhdm).
#[local] Notation grant := (grant hhdm).
#[local] Notation revoke := (revoke hhdm).
#[local] Notation page_block := (page_block hhdm).

(** ** Cells do not overlap *)

Lemma page_block_slab h B V a o j b :
  heap_rep h B V → page_block V B a o → slab_at V j b →
  apart (a + hhdm) (block_bytes o) b (span j).
Proof.
  intros Hh [Ha Hn] Hb. pose proof (pd_block (hr_place Hh _ _ Hb)) as Hbl.
  assert (a ≠ b - hhdm) as Hne.
  { intros ->. apply (Hn j). by replace (b - hhdm + hhdm) with b by lia. }
  pose proof (hp_out_disjoint _ _ _ _ _ _ (hr_pages Hh) Ha Hbl Hne). unfold apart, span in *. lia.
Qed.

Lemma block_bytes_pos o : 0 < block_bytes o.
Proof. unfold block_bytes, PAGE_SIZE. pose proof (Z.pow_pos_nonneg 2 (Z.of_nat o)). lia. Qed.

Lemma capacity_pos r : 0 < capacity r.
Proof. destruct r as [i|o]; [destruct (geom_good i); unfold capacity; lia|apply block_bytes_pos]. Qed.

Lemma live_bounds h B V i x :
  heap_rep h B V → live V i x → ∃ b, slab_at V i b ∧ is_object i b x ∧
    b + SLAB_HEADER_BYTES ≤ x ∧ x + g_size (geom i) ≤ b + span i.
Proof.
  intros Hh [Hi (s & Hs & Ho & _)]. exists (s_base s). split; [by apply slab_at_elem|]. split; [done|].
  by apply object_bounds.
Qed.

Lemma live_class h B V i j x : heap_rep h B V → live V i x → live V j x → i = j.
Proof.
  intros Hh Hi Hj. destruct (live_bounds _ _ _ _ _ Hh Hi) as (b & Hb & _ & Hlo & Hhi).
  destruct (live_bounds _ _ _ _ _ Hh Hj) as (b' & Hb' & _ & Hlo' & Hhi').
  destruct (decide (b = b')) as [->|Hne]; [by eapply (hr_unique Hh)|].
  pose proof (slabs_apart _ _ _ _ _ _ _ Hh Hb Hb' Hne). destruct (geom_good i), (geom_good j).
  unfold apart, SLAB_HEADER_BYTES in *. lia.
Qed.

(** The cells of different pointers are disjoint. *)
Lemma cells_apart h B V p r q r' :
  heap_rep h B V → cell V B p r → cell V B q r' → p ≠ q → apart p (capacity r) q (capacity r').
Proof.
  intros Hh Hp Hq Hne. destruct r as [i|o], r' as [j|o']; cbn [HeapSpec.cell capacity] in *.
  - destruct (live_bounds _ _ _ _ _ Hh Hp) as (b & Hb & Ho & Hlo & Hhi).
    destruct (live_bounds _ _ _ _ _ Hh Hq) as (b' & Hb' & Ho' & Hlo' & Hhi').
    destruct (decide (b = b')) as [<-|Hd].
    + pose proof (hr_unique Hh _ _ _ Hb Hb') as ->. by apply (objects_apart j b).
    + pose proof (slabs_apart _ _ _ _ _ _ _ Hh Hb Hb' Hd). unfold apart, SLAB_HEADER_BYTES in *. lia.
  - destruct (live_bounds _ _ _ _ _ Hh Hp) as (b & Hb & _ & Hlo & Hhi).
    pose proof (page_block_slab _ _ _ _ _ _ _ Hh Hq Hb). unfold apart, SLAB_HEADER_BYTES in *. lia.
  - destruct (live_bounds _ _ _ _ _ Hh Hq) as (b & Hb & _ & Hlo & Hhi).
    pose proof (page_block_slab _ _ _ _ _ _ _ Hh Hp Hb). unfold apart, SLAB_HEADER_BYTES in *. lia.
  - destruct Hp as [Hp _], Hq as [Hq _].
    pose proof (hp_out_disjoint _ _ _ _ _ _ (hr_pages Hh) Hp Hq ltac:(lia)). unfold apart in *. lia.
Qed.

Lemma live_not_page h B V i x o : heap_rep h B V → live V i x → ¬ page_block V B (x - hhdm) o.
Proof.
  intros Hh Hx Ha. destruct (live_bounds _ _ _ _ _ Hh Hx) as (b & Hb & _ & Hlo & Hhi).
  pose proof (page_block_slab _ _ _ _ _ _ _ Hh Ha Hb) as Hap.
  pose proof (block_bytes_pos o). destruct (geom_good i). unfold apart, SLAB_HEADER_BYTES in *. lia.
Qed.

(** A pointer has one cell. *)
Lemma cell_unique h B V p r r' : heap_rep h B V → cell V B p r → cell V B p r' → r = r'.
Proof.
  intros Hh Hp Hq. destruct r as [i|o], r' as [j|o']; cbn [HeapSpec.cell] in *.
  - by rewrite (live_class _ _ _ _ _ _ Hh Hp Hq).
  - by destruct (live_not_page _ _ _ _ _ _ Hh Hp Hq).
  - by destruct (live_not_page _ _ _ _ _ _ Hh Hq Hp).
  - destruct Hp as [Hp _], Hq as [Hq _]. by simplify_eq.
Qed.

(** Where cells are. *)
Lemma cell_bounds h B V p r :
  heap_rep h B V → cell V B p r → hhdm ≤ p ∧ p + capacity r < 2 ^ 64 ∧ p + capacity r ≤ hhdm + 2 ^ 52.
Proof.
  intros Hh Hp. destruct r as [i|o]; cbn [HeapSpec.cell capacity] in *.
  - destruct (live_bounds _ _ _ _ _ Hh Hp) as (b & Hb & _ & Hlo & Hhi).
    destruct (hp_out_place _ _ _ _ (hr_pages Hh) (pd_block (hr_place Hh _ _ Hb))) as (H0 & _ & H52 & Hend).
    fold (span i) in *. unfold SLAB_HEADER_BYTES in *. lia.
  - destruct Hp as [Hp _]. destruct (hp_out_place _ _ _ _ (hr_pages Hh) Hp) as (H0 & _ & H52 & Hend). lia.
Qed.

(** ** Steps of the slab allocator as grants *)

Lemma step_page_kept h B V h' B' V' after a o x :
  heap_rep h B V → heap_rep h' B' V' → heap_step V B (h_mem h) V' B' (h_mem h') after →
  page_block V B a o → range (a + hhdm) (block_bytes o) x → h_mem h' x = h_mem h x.
Proof.
  intros Hh Hh' Hst Ha Hx. apply (hs_out Hst). intros j b [Hb|Hb] Hr.
  - pose proof (page_block_slab _ _ _ _ _ _ _ Hh Ha Hb). unfold apart, range in *. lia.
  - apply (hs_pages Hst) in Ha. pose proof (page_block_slab _ _ _ _ _ _ _ Hh' Ha Hb). unfold apart, range in *. lia.
Qed.

Lemma step_cell_kept h B V h' B' V' after q r a :
  heap_rep h B V → heap_rep h' B' V' → heap_step V B (h_mem h) V' B' (h_mem h') after →
  cell V B q r → (∀ j, r = RObject j → after j q) → range q (capacity r) a → h_mem h' a = h_mem h a.
Proof.
  intros Hh Hh' Hst Hq Haf Hr. destruct r as [j|o]; cbn [HeapSpec.cell capacity] in *.
  - apply (hs_kept Hst j q); auto.
  - replace q with (q - hhdm + hhdm) in Hr by lia. by eapply step_page_kept.
Qed.

Lemma step_grant h B V h' B' V' i x :
  heap_rep h B V → heap_rep h' B' V' → ¬ live V i x →
  heap_step V B (h_mem h) V' B' (h_mem h') (plus V i x) →
  grant V B (h_mem h) V' B' (h_mem h') x (RObject i).
Proof.
  intros Hh Hh' Hn Hst.
  assert (live V' i x) as Hx by (apply (hs_live Hst); by right).
  split.
  - intros [j|o] Hj; cbn [HeapSpec.cell] in *.
    + assert (live V' j x) as Hj' by (apply (hs_live Hst); by left).
      by rewrite (live_class _ _ _ _ _ _ Hh' Hj' Hx) in Hj.
    + apply (hs_pages Hst) in Hj. by destruct (live_not_page _ _ _ _ _ _ Hh' Hx Hj).
  - intros q [j|o]; cbn [HeapSpec.cell].
    + rewrite (hs_live Hst). unfold plus. naive_solver.
    + rewrite (hs_pages Hst). naive_solver.
  - intros q r a Hq Hr. eapply step_cell_kept; try done. intros j ->. by left.
Qed.

Lemma step_revoke h B V h' B' V' i x :
  heap_rep h B V → heap_rep h' B' V' → live V i x →
  heap_step V B (h_mem h) V' B' (h_mem h') (minus V i x) →
  revoke V B (h_mem h) V' B' (h_mem h') x.
Proof.
  intros Hh Hh' Hx Hst. split.
  - intros q [j|o]; cbn [HeapSpec.cell].
    + rewrite (hs_live Hst). unfold minus. split; intros [Hj Hne]; (split; [done|]).
      * intros ->. apply Hne. split; [|done]. by apply (live_class _ _ _ _ _ _ Hh Hj Hx).
      * by intros [_ ?].
    + rewrite (hs_pages Hst). split; [|by intros [? _]]. intros Hp. split; [done|]. intros ->.
      by apply (live_not_page _ _ _ _ _ _ Hh Hx Hp).
  - intros q r a Hq Hne Hr. eapply step_cell_kept; try done. intros j ->. split; [done|]. by intros [_ ?].
Qed.

(** ** Blocks of pages *)

Lemma page_alloc_heap h B V o flags :
  heap_inv h B V → flags = KERNEL_PAGES ∨ flags = SAFE_KERNEL_PAGES →
  wp (hp_alloc (h_pages h) (h_mem h) o flags) (λ '(p, mem, r),
    match r with
    | None => set_mem mem (set_pages p h) = h ∧ hp_none (h_pages h) o
    | Some a => let B' := <[a:=o]> B in
        heap_inv (set_mem mem (set_pages p h)) B' V ∧ page_block V B' a o ∧
        grant V B (h_mem h) V B' mem (a + hhdm) (RPages o) ∧
        (flags = SAFE_KERNEL_PAGES → ∀ x, range (a + hhdm) (block_bytes o) x → mem x = 0)
    end).
Proof.
  intros [Hh Hu] Hfl. eapply wp_mono; [by apply (hp_alloc_law (h_pages h) (h_mem h) B o flags), Hfl; apply Hh|].
  intros [[p mem] [a|]]; [|intros (-> & -> & Hn); by destruct h].
  intros (Ha & Hp & Hl & Hfs & Hm). cbv zeta.
  assert (∀ j b, slab_at V j b → apart (a + hhdm) (block_bytes o) b (span j)) as Hap.
  { intros j b Hb. pose proof (pd_block (hr_place Hh _ _ Hb)) as Hbl.
    pose proof (hp_out_disjoint _ _ a o (b - hhdm) (g_order (geom j)) Hp) as Hd.
    rewrite lookup_insert_eq, lookup_insert_ne in Hd by congruence.
    specialize (Hd eq_refl Hbl ltac:(congruence)). unfold apart, span in *. lia. }
  pose proof (block_bytes_pos o) as Hpos.
  assert (∀ j, ¬ slab_at V j (a + hhdm)) as Hns.
  { intros j Hj. pose proof (Hap _ _ Hj). pose proof (page_le_span j). unfold apart, PAGE_SIZE in *. lia. }
  assert (∀ x, ¬ range (a + hhdm) (block_bytes o) x → mem x = h_mem h x) as Hout.
  { intros x Hx. rewrite Hm, decide_False; [done|]. by intros [_ ?]. }
  split; [split; [split|done]|split; [|split; [split|]]]; cbn [h_slab h_pages h_mem set_mem set_pages].
  - done.
  - apply (hr_len Hh).
  - intros j c Hc. eapply cache_mem_ext; [|by apply (hr_cache Hh)]. intros s x Hs Hx. apply Hout. intros Hr.
    assert (j < NCLASSES)%nat as Hj by (rewrite <-(hr_len Hh); by eapply lookup_lt_Some).
    pose proof (Hap _ _ (slab_at_elem V j s Hj Hs)). unfold apart, range in *. lia.
  - intros j b Hb. apply (placed_more (hhdm:=hhdm) (h_pages h)); [done|done|]. by apply (hr_place Hh).
  - apply (hr_unique Hh).
  - intros a' o' [[<- <-]|[Hne Ha']]%lookup_insert_Some; [by right|].
    destruct (hr_block Hh a' o' Ha') as [?|(f & Hf & Hn)]; [by left|right]. exists f. split; [|done].
    rewrite (Hfs _ _ _ Ha'); [done|]. by apply (first_frame (hhdm:=hhdm) (h_pages h) B); [apply Hh|].
  - split; [apply lookup_insert_eq|done].
  - intros [i|o']; cbn [HeapSpec.cell]; [intros Hx|intros [Hx _]].
    + destruct (live_bounds _ _ _ _ _ Hh Hx) as (b & Hb & _ & Hlo & Hhi). destruct (geom_good i).
      pose proof (Hap _ _ Hb). unfold apart, span, SLAB_HEADER_BYTES in *. lia.
    + replace (a + hhdm - hhdm) with a in Hx by lia. congruence.
  - intros q [i|o']; cbn [HeapSpec.cell]; [naive_solver|]. unfold SlabHeap.page_block.
    rewrite lookup_insert_Some. split.
    + intros [[[E <-]|[_ Hq]] Hn]; [right; split; [lia|done]|by left].
    + intros [[Hq Hn]|[-> [= ->]]]; [split; [right; split; [congruence|done]|done]|].
      replace (a + hhdm - hhdm) with a by lia. split; [by left|done].
  - intros q r x Hq Hx. apply Hout. intros Hr. destruct r as [i|o']; cbn [HeapSpec.cell capacity] in *.
    + destruct (live_bounds _ _ _ _ _ Hh Hq) as (b & Hb & _ & Hlo & Hhi).
      pose proof (Hap _ _ Hb). unfold apart, range, SLAB_HEADER_BYTES in *. lia.
    + destruct Hq as [Hq _]. pose proof (hp_out_disjoint _ _ a o (q - hhdm) o' Hp) as Hd.
      rewrite lookup_insert_eq, lookup_insert_ne in Hd by congruence.
      specialize (Hd eq_refl Hq ltac:(congruence)). unfold apart, range in *. lia.
  - intros -> x Hx. by rewrite Hm, decide_True.
Qed.

Lemma page_free_heap h B V a o :
  heap_inv h B V → page_block V B a o →
  wp (hp_free (h_pages h) a) (λ p,
    heap_inv (set_pages p h) (delete a B) V ∧ revoke V B (h_mem h) V (delete a B) (h_mem h) (a + hhdm)).
Proof.
  intros [Hh Hu] Ha. pose proof Ha as [Hal Hn].
  eapply wp_mono; [apply (hp_free_law (h_pages h) B a o); [apply Hh|done]|].
  intros p [Hp Hfs]. split; [split; [split|done]|split]; cbn [h_slab h_pages h_mem set_pages].
  - done.
  - apply (hr_len Hh).
  - apply (hr_cache Hh).
  - intros j b Hb. pose proof (hr_place Hh _ _ Hb) as [Hbl Hf].
    assert (delete a B !! (b - hhdm) = Some (g_order (geom j))) as Hd.
    { rewrite lookup_delete_ne; [done|]. intros ->. apply (Hn j). by replace (b - hhdm + hhdm) with b by lia. }
    split; [done|]. intros q Hq. destruct (Hf q Hq) as (f & Hfq & Hx). exists f. split; [|done].
    by rewrite (Hfs _ _ _ Hd Hq).
  - apply (hr_unique Hh).
  - intros a' o' Ha'. pose proof Ha' as [_ Ha'']%lookup_delete_Some.
    destruct (hr_block Hh a' o' Ha'') as [?|(f & Hf & Hx)]; [by left|right]. exists f. split; [|done].
    rewrite (Hfs _ _ _ Ha'); [done|]. by apply (first_frame (hhdm:=hhdm) (h_pages h) B); [apply Hh|].
  - intros q [i|o']; cbn [HeapSpec.cell].
    + split; [|by intros [? _]]. intros Hi. split; [done|]. intros ->.
      apply (live_not_page _ _ _ _ _ o Hh Hi). by replace (a + hhdm - hhdm) with a by lia.
    + unfold SlabHeap.page_block. rewrite lookup_delete_Some. split; intros Hq.
      * destruct Hq as [[Hne Hq] Hq']. split; [done|]. intros ->. apply Hne. lia.
      * destruct Hq as [[Hq Hq'] Hne]. split; [split; [lia|done]|done].
  - done.
Qed.
End spec.
