(* ===== verification/HeapOps.v ===== *)
(** * The kernel heap: specifications of the operations

    [alloc_for_layout], [dealloc], [realloc], [kmalloc] and [kfree] in terms of
    the cells of HeapSpec.v.  A layout decides which kind of cell it gets. *)
From stdpp Require Import functions.
From S2P Require Import Memblock Sparsemem Zones Paging.
From S2P Require Import Prelude Misc Frame ByteMem Slab SlabMem SlabLists SlabCaches SlabHeap SlabGrow SlabOps SlabFree Kmalloc HeapSpec.
#[local] Open Scope Z_scope.

(** The layouts served by the slab allocator. *)
Definition small (l : Layout) : bool := (l_size l <=? SLAB_MAX_ALLOC) && (l_align l <=? SLAB_MIN_ALIGN).

(** The room [r] is of the kind that [l] asks for, and large enough. *)
Definition suits (l : Layout) (r : room) : Prop :=
  l_size l ≤ capacity r ∧
  match r with
  | RObject _ => small l = true
  | RPages _ => small l = false
  end.

(** ** The order of a request *)

Lemma page_order size :
  0 < size ≤ 2 ^ 63 →
  wp (pages_to_order (align_up_to size PAGE_SIZE / PAGE_SIZE)) (λ o, 0 ≤ o ∧
    size ≤ block_bytes (Z.to_nat o) ≤ Z.max PAGE_SIZE (2 * size)).
Proof.
  intros Hs. destruct (align_up_to_spec size PAGE_SIZE) as [Hb Hm]; [done|].
  apply Z.mod_divide in Hm as [n Hn]; [|done].
  assert (align_up_to size PAGE_SIZE / PAGE_SIZE = n) as -> by (rewrite Hn; by apply Z.div_mul).
  rewrite Hn in Hb. unfold PAGE_SIZE in *.
  eapply wp_mono; [apply pages_to_order_spec; lia|]. intros o (Ho & Hle & Hmin).
  unfold block_bytes, PAGE_SIZE. rewrite Z2Nat.id by lia. split; [lia|]. split; [lia|].
  destruct (decide (o = 0)) as [->|Ho0]; [cbn; lia|].
  specialize (Hmin (o - 1) ltac:(lia)).
  replace o with (1 + (o - 1)) by lia. rewrite Z.pow_add_r by lia. lia.
Qed.

Lemma pow2_divide k n : 0 ≤ k → 0 ≤ n → 2 ^ k ≤ 2 ^ n → (2 ^ k | 2 ^ n).
Proof.
  intros Hk Hn Hle. apply Z.pow_le_mono_r_iff in Hle; [|lia|lia]. exists (2 ^ (n - k)).
  rewrite <-Z.pow_add_r by lia. f_equal. lia.
Qed.

Lemma pow2_divide_block a o : (∃ k, 0 ≤ k ∧ a = 2 ^ k) → a ≤ block_bytes o → (a | block_bytes o).
Proof.
  intros (k & Hk & ->). unfold block_bytes. change PAGE_SIZE with (2 ^ 12). rewrite <-Z.pow_add_r by lia.
  apply pow2_divide; lia.
Qed.

Lemma block_bytes_max o1 o2 :
  0 ≤ o1 → 0 ≤ o2 →
  block_bytes (Z.to_nat (Z.max o1 o2)) = Z.max (block_bytes (Z.to_nat o1)) (block_bytes (Z.to_nat o2)).
Proof.
  intros H1 H2. unfold block_bytes. rewrite !Z2Nat.id by lia. rewrite Z.mul_max_distr_nonneg_l by done. f_equal.
  destruct (Z.max_spec o1 o2) as [[Hl ->]|[Hl ->]].
  - rewrite Z.max_r; [done|]. apply Z.pow_le_mono_r; lia.
  - rewrite Z.max_l; [done|]. apply Z.pow_le_mono_r; lia.
Qed.

Section ops.
Context {P PT : Type} {HP : HeapPages P} {X : X86_64 PT} {XL : X86_64Laws PT}
  {hhdm : Z} {HL : HeapPagesLaws P hhdm}.
Implicit Types (h : heap P) (B : gmap Z nat) (V : views).
#[local] Notation heap_rep := (heap_rep hhdm).
#[local] Notation heap_inv := (heap_inv hhdm).
#[local] Notation cell := (cell hhdm).
#[local] Notation grant := (grant hhdm).
#[local] Notation revoke := (revoke hhdm).

Hypothesis hhdm_high : 2 ^ 64 - 2 ^ 47 ≤ hhdm.
Hypothesis hhdm_align : (PAGE_SIZE | hhdm).

#[local] Lemma hhdm_pos : 0 < hhdm.
Proof using hhdm_high. lia. Qed.

(** The page allocator has no block for such a request. *)
Definition no_pages (p : P) (l : Layout) : Prop :=
  ∃ o, hp_none p o ∧ block_bytes o ≤ Z.max (2 ^ 16) (2 * Z.max (l_size l) (l_align l)).

(** What an allocation returns. *)
Definition allocated h B V (l : Layout) (zeroed : bool) h' (p : Z) : Prop :=
  if decide (p = 0) then h' = h ∧ no_pages (h_pages h) l
  else ∃ B' V' r, heap_inv h' B' V' ∧ grant V B (h_mem h) V' B' (h_mem h') p r ∧
    suits l r ∧ (l_align l | p) ∧ (zeroed = true → ∀ a, range p (l_size l) a → h_mem h' a = 0).

Lemma wp_canonical h B V p r (Q : Z → Prop) : heap_rep h B V → cell V B p r → Q p → wp (virt_new p) Q.
Proof using hhdm_high XL.
  intros Hh Hp HQ. pose proof (cell_bounds _ _ _ _ _ Hh Hp). pose proof (capacity_pos r).
  rewrite virt_new_law, bool_decide_true; [by apply wp_ret|]. unfold canonical. lia.
Qed.

Lemma grant_cell V B mem V' B' mem' p r : grant V B mem V' B' mem' p r → cell V' B' p r.
Proof using. intros Hg. apply (gr_cells Hg). by right. Qed.

Lemma live_align h B V i x : heap_rep h B V → live V i x → (SLAB_MIN_ALIGN | x).
Proof using hhdm_align.
  intros Hh Hx. destruct (live_bounds _ _ _ _ _ Hh Hx) as (b & Hb & Ho & _).
  apply (object_align i b); [|done]. pose proof (pd_block (hr_place Hh _ _ Hb)) as Hbl.
  destruct (hp_out_place _ _ _ _ (hr_pages Hh) Hbl) as (_ & Hdiv & _). replace b with ((b - hhdm) + hhdm) by lia.
  apply Z.divide_add_r.
  - etrans; [|exact Hdiv]. unfold block_bytes, PAGE_SIZE. apply Z.divide_mul_l. by exists 256.
  - etrans; [|exact hhdm_align]. by exists 256.
Qed.

Lemma slab_path h B V l zeroed :
  heap_inv h B V → layout_ok l → small l = true →
  wp (slab_alloc (X:=X) hhdm h (l_size l) zeroed) (λ '(h', r),
    r ≠ Some 0 ∧ allocated h B V l zeroed h' (default 0 r)).
Proof using hhdm_align hhdm_high XL.
  intros Hinv [Hsz (k & Hk & Hal) _] Hsm. pose proof Hsm as [Hle Hle2]%andb_prop.
  apply Z.leb_le in Hle, Hle2. unfold slab_alloc. apply wp_bind.
  eapply wp_mono; [by apply (slab_alloc_spec hhdm_pos hhdm_align h B V)|].
  intros [h' [x|]].
  - intros (i & B' & V' & Hci & Hinv' & Hn & Hst & Hz). pose proof Hinv as [Hh _]. pose proof Hinv' as [Hh' _].
    pose proof (step_grant h B V h' B' V' i x Hh Hh' Hn Hst) as Hg. pose proof (grant_cell _ _ _ _ _ _ _ _ Hg) as Hc.
    destruct (class_index_spec _ _ Hci) as [_ Hfit].
    apply wp_bind. apply (wp_canonical h' B' V' x (RObject i)); [done|done|]. apply wp_ret. change (default 0 (Some x)) with x.
    pose proof (cell_bounds _ _ _ _ _ Hh' Hc) as [Hx _].
    assert (x ≠ 0) as Hx0 by lia. split; [congruence|].
    unfold allocated. rewrite decide_False by done. exists B', V', (RObject i). do 2 (split; [done|]).
    split; [by split|]. split.
    + etrans; [|apply (live_align _ _ _ _ _ Hh' Hc)]. rewrite Hal in *. apply (pow2_divide k 4); unfold SLAB_MIN_ALIGN in *; lia.
    + intros Hz' a Ha. apply Hz; [done|]. unfold range in *. lia.
  - intros [-> Hnone]. apply wp_ret. split; [done|]. unfold allocated. rewrite decide_True by done. split; [done|].
    destruct (class_index_total (l_size l)) as [i Hi]; [done|]. exists (g_order (geom i)). split; [auto|].
    destruct (geom_good i) as [_ _ _ _ _ Ho _]. unfold block_bytes, MAX_SLAB_ORDER, PAGE_SIZE in *.
    assert (2 ^ Z.of_nat (g_order (geom i)) ≤ 2 ^ 4) by (apply Z.pow_le_mono_r; lia). lia.
Qed.

(** The part of [alloc_for_layout] behind the choice of the order. *)
Lemma page_path h B V l (zeroed : bool) o :
  heap_inv h B V → layout_ok l → small l = false → l_size l ≤ block_bytes o → l_align l ≤ block_bytes o →
  block_bytes o ≤ Z.max (2 ^ 16) (2 * Z.max (l_size l) (l_align l)) →
  wp (hp_alloc (h_pages h) (h_mem h) o (if zeroed then SAFE_KERNEL_PAGES else KERNEL_PAGES))
    (λ '(p, mem, r), let h' := set_mem mem (set_pages p h) in
      match r with
      | Some phys => phys_to_virt hhdm phys = Ret (phys + hhdm) ∧ virt_new (phys + hhdm) = Ret (phys + hhdm) ∧
          phys + hhdm ≠ 0 ∧ allocated h B V l zeroed h' (phys + hhdm)
      | None => allocated h B V l zeroed h' 0
      end).
Proof using hhdm_high XL.
  intros Hinv [Hsz Hal _] Hsm Hs Ha Hb.
  eapply wp_mono; [apply (page_alloc_heap h B V); [done|by destruct zeroed; [right|left]]|].
  intros [[p mem] [a|]]; cbv zeta; [|intros [-> Hn]; unfold allocated; rewrite decide_True by done; split; [done|by exists o]].
  intros (Hinv' & Hpb & Hg & Hz). set (h' := set_mem mem (set_pages p h)) in *.
  pose proof Hinv' as [Hh' _]. pose proof (grant_cell _ _ _ _ _ _ _ _ Hg) as Hc.
  pose proof (cell_bounds _ _ _ _ _ Hh' Hc) as [Hlo [Hhi _]]. pose proof (block_bytes_pos o).
  cbn [capacity] in *. split.
  { destruct (wp_elim _ _ (wp_add64 a hhdm (λ x, x = a + hhdm) ltac:(unfold u64_max; lia) eq_refl)) as (? & E & ->). exact E. }
  split.
  { destruct (wp_elim _ _ (wp_canonical h' _ V (a + hhdm) (RPages o) (λ x, x = a + hhdm) Hh' Hc eq_refl)) as (? & E & ->). exact E. }
  split; [lia|]. unfold allocated. rewrite decide_False by lia.
  exists (<[a:=o]> B), V, (RPages o). do 2 (split; [done|]). split; [by split|]. split.
  - destruct Hpb as [Hpb _]. etrans; [by apply (pow2_divide_block _ o)|]. apply Z.divide_add_r.
    + by destruct (hp_out_place _ _ _ _ (hr_pages Hh') Hpb) as (_ & ? & _).
    + exact (hp_out_hhdm _ _ _ _ (hr_pages Hh') Hpb).
  - intros -> x Hx. apply Hz; [done|]. unfold range in *. lia.
Qed.

(** An allocation: a cell of its own of the right size and alignment, cleared
    if asked for; or null, and then no pages are left and nothing changed. *)
Lemma alloc_for_layout_spec h B V l zeroed :
  heap_inv h B V → layout_ok l → l_size l ≠ 0 →
  wp (alloc_for_layout (X:=X) hhdm h l zeroed) (λ '(h', p), allocated h B V l zeroed h' p).
Proof using hhdm_align hhdm_high XL.
  intros Hinv Hl Hne. pose proof Hl as [Hsz (k & Hk & Hal) Hmax]. unfold alloc_for_layout.
  pose proof (Z.pow_pos_nonneg 2 k ltac:(lia) Hk) as Hpos.
  rewrite (proj2 (Z.eqb_neq _ _) Hne). fold (small l). destruct (small l) eqn:Hsm.
  { apply wp_bind. eapply wp_mono; [by apply (slab_path h B V)|]. intros [h' [x|]] [_ Hr]; by apply wp_ret. }
  assert (PAGE_SIZE = 2 ^ 12) as E12 by done.
  apply wp_bind. rewrite E12. apply wp_align_up; [lia|lia|unfold u64_max; lia|]. rewrite <-E12.
  apply wp_bind. rewrite E12. apply wp_align_up; [lia|lia|unfold u64_max; lia|]. rewrite <-E12.
  apply wp_bind. eapply wp_mono; [apply page_order; lia|]. intros o1 [Ho1 Hb1].
  assert (0 < align_up_to (l_align l) PAGE_SIZE / PAGE_SIZE) as Hpg.
  { destruct (align_up_to_spec (l_align l) PAGE_SIZE) as [Hb [n Hn]%Z.mod_divide]; [done| |done].
    rewrite Hn, Z.div_mul by done. unfold PAGE_SIZE in *. lia. }
  rewrite Z.max_r by lia. apply wp_bind. eapply wp_mono; [apply page_order; lia|]. intros o2 [Ho2 Hb2].
  apply wp_bind. eapply wp_mono.
  { apply (page_path h B V l zeroed); [done|done|done|..]; rewrite block_bytes_max by done; unfold PAGE_SIZE in *; lia. }
  intros [[p mem] [a|]]; cbv zeta; [|by intros; apply wp_ret].
  intros (-> & _ & _ & Hr). by apply wp_ret.
Qed.

(** ** Release *)

(** The second word of the object holds the poison of free objects. *)
Definition poisoned (h : heap P) (p : Z) : bool := node_poison (h_mem h) p =? POISON_TAG.

(** [kfree] and [dealloc] on an allocated pointer take it back, unless it is a
    slab object that looks like a free one. *)
Lemma kfree_spec h B V p r :
  heap_inv h B V → cell V B p r →
  match r with
  | RObject _ => if poisoned h p then kfree (X:=X) hhdm h p = Panic PExplicit else
      wp (kfree (X:=X) hhdm h p) (λ h', ∃ B' V', heap_inv h' B' V' ∧ revoke V B (h_mem h) V' B' (h_mem h') p)
  | RPages _ => wp (kfree (X:=X) hhdm h p) (λ h', ∃ B', heap_inv h' B' V ∧ revoke V B (h_mem h) V B' (h_mem h') p)
  end.
Proof using hhdm_align hhdm_high XL.
  intros Hinv Hp. pose proof Hinv as [Hh _]. pose proof (cell_bounds _ _ _ _ _ Hh Hp) as (Hlo & Hhi & H52).
  pose proof (capacity_pos r). unfold kfree, slab_free. rewrite (proj2 (Z.eqb_neq p 0)) by lia.
  destruct r as [i|o]; cbn [HeapSpec.cell capacity] in *.
  - pose proof (slab_free_spec (X:=X) h B V i p Hinv Hp) as Hf. unfold poisoned. case_decide as Hd.
    + rewrite (proj2 (Z.eqb_eq _ _) Hd). by rewrite Hf.
    + rewrite (proj2 (Z.eqb_neq _ _) Hd). apply wp_bind. eapply wp_mono; [exact Hf|].
      intros [h' b] (-> & B' & V' & Hinv' & Hst). apply wp_ret. exists B', V'. split; [done|].
      by eapply step_revoke; [done|apply Hinv'|..].
  - unfold slab_free_object. replace p with (p - hhdm + hhdm) at 1 by lia.
    rewrite (find_slab_page h B V (p - hhdm) o) by done. cbn [mbind outcome_bind].
    apply wp_bind. apply wp_sub64; [lia|]. apply wp_bind. rewrite phys_new_law, bool_decide_true by lia. apply wp_ret.
    apply wp_bind. eapply wp_mono; [by apply (page_free_heap h B V (p - hhdm) o)|].
    intros q [Hinv' Hrv]. apply wp_ret. exists (delete (p - hhdm) B). split; [done|].
    by replace (p - hhdm + hhdm) with p in Hrv by lia.
Qed.

Lemma ga_dealloc_kfree h B V p r l :
  heap_inv h B V → cell V B p r → l_size l ≠ 0 → ga_dealloc (X:=X) hhdm h p l = kfree (X:=X) hhdm h p.
Proof using hhdm_high XL.
  intros [Hh _] Hp Hl. pose proof (cell_bounds _ _ _ _ _ Hh Hp) as [Hlo _]. unfold ga_dealloc.
  rewrite (proj2 (Z.eqb_neq _ _) Hl), (proj2 (Z.eqb_neq p 0)) by lia. cbn [orb].
  by destruct (wp_elim _ _ (wp_canonical h B V p r (λ x, x = p) Hh Hp eq_refl)) as (? & -> & ->).
Qed.

(** ** Clients writing to their memory *)

Lemma write_cell h B V p r mem' :
  heap_inv h B V → cell V B p r → (∀ a, ¬ range p (capacity r) a → mem' a = h_mem h a) →
  heap_inv (set_mem mem' h) B V.
Proof using.
  intros [Hh Hu] Hp Hm. split; [|done]. split; cbn [h_slab h_pages h_mem set_mem]; try apply Hh.
  intros i c Hc. pose proof (hr_cache Hh _ _ Hc) as Hcm.
  assert (i < NCLASSES)%nat as Hi by (rewrite <-(hr_len Hh); by eapply lookup_lt_Some).
  destruct (decide (r = RObject i)) as [->|Hne].
  { eapply cache_mem_object; [exact Hcm|apply Hp|done]. }
  eapply cache_mem_ext; [|exact Hcm]. intros s x Hs Hx. apply Hm. intros Hr.
  pose proof (slab_at_elem V i s Hi Hs) as Hb. destruct r as [j|o]; cbn [HeapSpec.cell capacity] in *.
  - destruct (live_bounds _ _ _ _ _ Hh Hp) as (b & Hb' & _ & Hlo & Hhi).
    destruct (decide (s_base s = b)) as [<-|Hd].
    + pose proof (hr_unique Hh _ _ _ Hb Hb'). naive_solver.
    + pose proof (slabs_apart _ _ _ _ _ _ _ Hh Hb Hb' Hd). unfold apart, range, SLAB_HEADER_BYTES in *. lia.
  - pose proof (page_block_slab _ _ _ _ _ _ _ Hh Hp Hb). unfold apart, range in *. lia.
Qed.

(** ** Reallocation *)

(** What [realloc] returns when both sizes are positive. *)
Definition reallocated h B V (p : Z) (l : Layout) (n : Z) h' (p' : Z) : Prop :=
  let l' := mk_layout n (l_align l) in
  if decide (p' = 0) then h' = h ∧ no_pages (h_pages h) l'
  else ∃ B' V' r, heap_inv h' B' V' ∧ suits l' r ∧ (l_align l | p') ∧
    (∀ r', ¬ cell V B p' r') ∧
    (∀ q r', cell V' B' q r' ↔ (cell V B q r' ∧ q ≠ p) ∨ (q = p' ∧ r' = r)) ∧
    (∀ q r' a, cell V B q r' → q ≠ p → range q (capacity r') a → h_mem h' a = h_mem h a) ∧
    (∀ k, 0 ≤ k < Z.min (l_size l) n → h_mem h' (p' + k) = h_mem h (p + k)).

Lemma poisoned_ext h h' B V i p :
  cell V B p (RObject i) → (∀ a, range p (g_size (geom i)) a → h_mem h' a = h_mem h a) →
  poisoned h' p = poisoned h p.
Proof using.
  intros _ Hm. unfold poisoned, node_poison. destruct (geom_good i) as [Hs _ _ _ _ _ _].
  rewrite (load_ext 8 (h_mem h) (h_mem h')); [done|]. intros x Hx. apply Hm. unfold range in *. lia.
Qed.

(** Filling the new cell leaves the others alone. *)
Lemma grant_copy h B V h1 B1 V1 p p' r n :
  heap_inv h1 B1 V1 → grant V B (h_mem h) V1 B1 (h_mem h1) p' r → n ≤ capacity r →
  let mem := copy_bytes p p' n (h_mem h1) in
  heap_inv (set_mem mem h1) B1 V1 ∧ grant V B (h_mem h) V1 B1 mem p' r.
Proof using.
  intros Hinv1 Hg Hn mem. pose proof Hinv1 as [Hh1 _]. pose proof (grant_cell _ _ _ _ _ _ _ _ Hg) as Hc'.
  assert (∀ a, ¬ range p' (capacity r) a → mem a = h_mem h1 a) as Hcopy.
  { intros a Hna. unfold mem. rewrite copy_bytes_at, decide_False; [done|]. intros Hr. apply Hna.
    unfold range in *. lia. }
  split; [by apply (write_cell h1 B1 V1 p' r)|].
  split; [apply (gr_fresh Hg)|apply (gr_cells Hg)|].
  intros q r' a Hq Hr. rewrite Hcopy; [by apply (gr_mem Hg q r')|].
  assert (cell V1 B1 q r') as Hq' by (apply (gr_cells Hg); by left).
  assert (q ≠ p') as Hqp by (intros ->; by apply (gr_fresh Hg) in Hq).
  pose proof (cells_apart _ _ _ _ _ _ _ Hh1 Hq' Hc' Hqp). unfold apart, range in *. lia.
Qed.

(** Releasing the old cell after the new one was granted. *)
Lemma realloc_release h B V h1 B1 V1 p r p' r1 l :
  heap_inv h1 B1 V1 → grant V B (h_mem h) V1 B1 (h_mem h1) p' r1 → cell V B p r → suits l r → l_size l ≠ 0 →
  post (ga_dealloc (X:=X) hhdm h1 p l)
    (λ h', ∃ B' V', heap_inv h' B' V' ∧ revoke V1 B1 (h_mem h1) V' B' (h_mem h') p)
    (λ e, e = PExplicit ∧ small l = true ∧ poisoned h p = true).
Proof using hhdm_align hhdm_high XL.
  intros Hinv1 Hg Hp Hsu Hl. assert (cell V1 B1 p r) as Hc by (apply (gr_cells Hg); by left).
  rewrite (ga_dealloc_kfree _ B1 V1 p r) by done. pose proof (kfree_spec h1 B1 V1 p r Hinv1 Hc) as Hf.
  destruct r as [i|o].
  - rewrite (poisoned_ext h _ B V i p) in Hf; [|done|intros a Ha; by apply (gr_mem Hg p (RObject i))].
    destruct Hsu as [_ Hsm]. destruct (poisoned h p) eqn:Hpo; [by rewrite Hf|].
    destruct (wp_elim _ _ Hf) as (h' & -> & Hr). done.
  - destruct (wp_elim _ _ Hf) as (h' & -> & B' & Hr). by exists B', V1.
Qed.

Lemma ga_realloc_spec h B V p r l n :
  heap_inv h B V → cell V B p r → suits l r → layout_ok (mk_layout n (l_align l)) →
  l_size l ≠ 0 → n ≠ 0 →
  post (ga_realloc (X:=X) hhdm h p l n) (λ '(h', p'), reallocated h B V p l n h' p')
    (λ e, e = PExplicit ∧ small l = true ∧ poisoned h p = true).
Proof using hhdm_align hhdm_high XL.
  intros Hinv Hp Hsu Hlo Hl Hn. unfold ga_realloc. rewrite (proj2 (Z.eqb_neq _ _) Hl), (proj2 (Z.eqb_neq _ _) Hn).
  eapply post_bind; [by apply (alloc_for_layout_spec h B V)|]. intros [h1 p'] Ha. cbv zeta. unfold allocated in Ha.
  unfold reallocated. destruct (decide (p' = 0)) as [->|Hp0]; [by rewrite Z.eqb_refl|].
  rewrite (proj2 (Z.eqb_neq _ _) Hp0). destruct Ha as (B1 & V1 & r1 & Hinv1 & Hg1 & Hsu1 & Hal & _).
  pose proof (proj1 Hsu) as Hs. pose proof (proj1 Hsu1) as Hs1. cbn [l_size] in Hs1.
  destruct (grant_copy h B V h1 B1 V1 p p' r1 (Z.min (l_size l) n) Hinv1 Hg1) as [Hinv2 Hg]; [lia|].
  set (mem2 := copy_bytes p p' (Z.min (l_size l) n) (h_mem h1)) in *.
  assert (p ≠ p') as Hne by (intros ->; by apply (gr_fresh Hg) in Hp).
  eapply post_bind_post; [by apply (realloc_release h B V (set_mem mem2 h1) B1 V1 p r p' r1)|].
  intros h' (B' & V' & Hinv' & Hrv). cbn [post]. rewrite decide_False by done.
  exists B', V', r1. do 3 (split; [done|]). split; [apply (gr_fresh Hg)|]. split; [|split].
  - intros q r'. rewrite (rv_cells Hrv), (gr_cells Hg). naive_solver.
  - intros q r' a Hq Hqp Hr. rewrite (rv_mem Hrv q r' a); [by apply (gr_mem Hg q r')|by apply (gr_cells Hg); left|done|done].
  - intros k Hk. rewrite (rv_mem Hrv p' r1); [|by apply (grant_cell _ _ _ _ _ _ _ _ Hg)|congruence|unfold range; lia].
    cbn [h_mem set_mem]. unfold mem2. rewrite copy_bytes_at, decide_True by (unfold range; lia).
    replace (p + (p' + k - p')) with (p + k) by lia. apply (gr_mem Hg1 p r); [done|unfold range; lia].
Qed.

(** ** [kmalloc] is [alloc_for_layout] at the alignment of slab objects *)

Lemma kmalloc_alloc h B V bytes flags :
  heap_inv h B V → layout_ok (mk_layout bytes SLAB_MIN_ALIGN) → bytes ≠ 0 →
  kmalloc (X:=X) hhdm h bytes flags =
    ('(h', p) ← alloc_for_layout (X:=X) hhdm h (mk_layout bytes SLAB_MIN_ALIGN) (km_contains flags KM_ZEROED);
     Ret (h', if p =? 0 then None else Some p)).
Proof using hhdm_align hhdm_high XL.
  intros Hinv Hl Hne. pose proof Hl as [Hsz _ Hmax]. cbn [l_size l_align] in *. unfold kmalloc, alloc_for_layout.
  cbn [l_size l_align]. rewrite (proj2 (Z.eqb_neq _ _) Hne). set (zeroed := km_contains flags KM_ZEROED).
  rewrite Z.leb_refl, andb_true_r. destruct (Z.leb_spec bytes SLAB_MAX_ALLOC) as [Hle|Hgt].
  { assert (small (mk_layout bytes SLAB_MIN_ALIGN) = true) as Hsm.
    { unfold small. cbn [l_size l_align]. rewrite Z.leb_refl, andb_true_r. by apply Z.leb_le. }
    destruct (wp_elim _ _ (slab_path h B V _ zeroed Hinv Hl Hsm)) as ([h' r] & E & Hr0 & _).
    cbn [l_size] in E. rewrite E. cbn [mbind outcome_bind]. destruct r as [x|]; cbn [mbind outcome_bind]; [|done].
    rewrite (proj2 (Z.eqb_neq x 0)) by congruence. done. }
  assert (small (mk_layout bytes SLAB_MIN_ALIGN) = false) as Hsm.
  { unfold small. cbn [l_size l_align]. rewrite Z.leb_refl, andb_true_r. by apply Z.leb_gt. }
  assert (PAGE_SIZE = 2 ^ 12) as E12 by done. unfold SLAB_MAX_ALLOC, SLAB_MIN_ALIGN in *.
  destruct (wp_elim _ _ (wp_align_up bytes 12 (λ s, s = align_up_to bytes PAGE_SIZE) ltac:(lia) ltac:(lia) ltac:(unfold u64_max; lia) eq_refl))
    as (s & Es & ->). rewrite <-E12 in Es. rewrite Es. cbn [mbind outcome_bind].
  change (align_up 16 PAGE_SIZE) with (Ret PAGE_SIZE). cbn [mbind outcome_bind].
  destruct (wp_elim _ _ (page_order bytes ltac:(lia))) as (o & Eo & Ho & Hbo). rewrite Eo. cbn [mbind outcome_bind].
  change (pages_to_order (1 `max` (PAGE_SIZE / PAGE_SIZE))) with (Ret 0). cbn [mbind outcome_bind].
  rewrite Z.max_l by lia. set (o' := Z.to_nat o) in *.
  destruct (wp_elim _ _ (page_path h B V (mk_layout bytes 16) zeroed o' Hinv Hl Hsm
    ltac:(cbn; lia) ltac:(cbn [l_align]; unfold PAGE_SIZE in *; lia) ltac:(cbn [l_size l_align]; unfold PAGE_SIZE in *; lia)))
    as ([[p mem] [a|]] & E & Hr); cbv zeta in Hr; rewrite E; cbn [mbind outcome_bind]; [|done].
  destruct Hr as (E1 & E2 & H0 & _). rewrite E1. cbn [mbind outcome_bind]. rewrite E2. cbn [mbind outcome_bind].
  by rewrite (proj2 (Z.eqb_neq _ _) H0).
Qed.
End ops.
