(* ===== verification/HeapMachine.v ===== *)
(** * The kernel heap and its clients

    The heap together with the record of what its clients hold: every pointer
    that was handed out and not yet given back, by the global allocator, by
    [kmalloc] or directly by the page allocator.  [heap_do] runs one request of
    a client and keeps the record; [allowed] is what Rust's [GlobalAlloc] and
    the kernel ask of the callers.  The invariant [heap_ok] is kept by every
    request. *)
From stdpp Require Import functions.
From S2P Require Import Memblock Sparsemem Zones Paging.
From S2P Require Import Prelude Misc Frame ByteMem Slab SlabMem SlabLists SlabCaches SlabHeap SlabGrow SlabOps SlabFree Kmalloc HeapSpec HeapOps.
#[local] Open Scope Z_scope.

(** Who holds a pointer: a client of the heap, or of the page allocator. *)
Inductive owner := OHeap (l : Layout) | OPages (o : nat).

Definition o_size (w : owner) : Z :=
  match w with
  | OHeap l => l_size l
  | OPages o => block_bytes o
  end.

Definition o_align (w : owner) : Z :=
  match w with
  | OHeap l => l_align l
  | OPages o => block_bytes o
  end.

Notation ledger := (gmap Z owner).

Inductive heap_op :=
  | HAlloc (l : Layout) (zeroed : bool)
  | HDealloc (p : Z) (l : Layout)
  | HRealloc (p : Z) (l : Layout) (n : Z)
  | HKmalloc (bytes flags : Z)
  | HKfree (p : Z)
  | HPages (o : nat) (zeroed : bool)
  | HFreePages (a : Z)
  | HWrite (x v : Z).

(** Requests of size zero return a dangling pointer that owns nothing. *)
Definition record (p : Z) (l : Layout) (L : ledger) : ledger :=
  if l_size l =? 0 then L else <[p:=OHeap l]> L.
Definition forget (p : Z) (l : Layout) (L : ledger) : ledger :=
  if l_size l =? 0 then L else delete p L.

Section machine.
Context {P PT : Type} {HP : HeapPages P} {X : X86_64 PT} (hhdm : Z).

Definition heap_do (h : heap P) (L : ledger) (op : heap_op) : outcome (heap P * ledger * Z) :=
  match op with
  | HAlloc l zeroed =>
      '(h, p) ← (if zeroed then ga_alloc_zeroed (X:=X) hhdm h l else ga_alloc (X:=X) hhdm h l);
      Ret (h, if p =? 0 then L else record p l L, p)
  | HDealloc p l =>
      h ← ga_dealloc (X:=X) hhdm h p l;
      Ret (h, forget p l L, 0)
  | HRealloc p l n =>
      '(h, p') ← ga_realloc (X:=X) hhdm h p l n;
      Ret (h, if p' =? 0 then L else record p' (mk_layout n (l_align l)) (forget p l L), p')
  | HKmalloc bytes flags =>
      '(h, r) ← kmalloc (X:=X) hhdm h bytes flags;
      Ret (h, match r with Some p => record p (mk_layout bytes SLAB_MIN_ALIGN) L | None => L end, default 0 r)
  | HKfree p =>
      h ← kfree (X:=X) hhdm h p;
      Ret (h, delete p L, 0)
  | HPages o zeroed =>
      '(p, mem, r) ← hp_alloc (h_pages h) (h_mem h) o (if zeroed then SAFE_KERNEL_PAGES else KERNEL_PAGES);
      Ret (set_mem mem (set_pages p h),
           match r with Some a => <[a + hhdm:=OPages o]> L | None => L end,
           match r with Some a => a + hhdm | None => 0 end)
  | HFreePages a =>
      p ← hp_free (h_pages h) a;
      Ret (set_pages p h, delete (a + hhdm) L, 0)
  | HWrite x v => Ret (set_mem (store 1 x v (h_mem h)) h, L, 0)
  end.

(** What the callers must respect. *)
Definition allowed (L : ledger) (op : heap_op) : Prop :=
  match op with
  | HAlloc l _ => layout_ok l
  | HDealloc p l => l_size l = 0 ∨ L !! p = Some (OHeap l)
  | HRealloc p l n => (l_size l = 0 ∨ L !! p = Some (OHeap l)) ∧ layout_ok (mk_layout n (l_align l))
  | HKmalloc bytes _ => layout_ok (mk_layout bytes SLAB_MIN_ALIGN)
  | HKfree p => is_Some (L !! p)
  | HPages _ _ => True
  | HFreePages a => ∃ o, L !! (a + hhdm) = Some (OPages o)
  | HWrite x _ => ∃ p w, L !! p = Some w ∧ range p (o_size w) x
  end.

(** The pointer that an operation gives up or writes to. *)
Definition touches (op : heap_op) (q : Z) (w : owner) : Prop :=
  match op with
  | HDealloc p l | HRealloc p l _ => l_size l ≠ 0 ∧ q = p
  | HKfree p => q = p
  | HFreePages a => q = a + hhdm
  | HWrite x _ => range q (o_size w) x
  | HAlloc _ _ | HKmalloc _ _ | HPages _ _ => False
  end.

(** The small object an operation releases. *)
Definition releases (L : ledger) (op : heap_op) (q : Z) : Prop :=
  ∃ l, L !! q = Some (OHeap l) ∧ small l = true ∧
    match op with
    | HDealloc p l' | HRealloc p l' _ => q = p ∧ l' = l
    | HKfree p => q = p
    | _ => False
    end.
End machine.

(** ** The invariant *)

Section invariant.
Context {P PT : Type} {HP : HeapPages P} {X : X86_64 PT} {XL : X86_64Laws PT}
  {hhdm : Z} {HL : HeapPagesLaws P hhdm}.
Implicit Types (h : heap P) (B : gmap Z nat) (V : views) (L : ledger).
#[local] Notation heap_inv := (heap_inv hhdm).
#[local] Notation cell := (cell hhdm).

(** The owner [w] of the pointer [p] got the right room. *)
Definition fits (p : Z) (w : owner) (r : room) : Prop :=
  match w with
  | OHeap l => l_size l ≠ 0 ∧ layout_ok l ∧ suits l r ∧ (l_align l | p)
  | OPages o => r = RPages o
  end.

Record holds L B V : Prop := {
  ho_cell : ∀ p w, L !! p = Some w → ∃ r, cell V B p r ∧ fits p w r;
  ho_all : ∀ p r, cell V B p r → is_Some (L !! p)
}.

Definition heap_ok h L : Prop := ∃ B V, heap_inv h B V ∧ holds L B V.

(** The contents of what [op] does not touch. *)
Definition keeps h L (op : heap_op) h' L' : Prop :=
  ∀ q w, L !! q = Some w → ¬ touches hhdm op q w →
    L' !! q = Some w ∧ ∀ a, range q (o_size w) a → h_mem h' a = h_mem h a.

Lemma fits_size p w r : fits p w r → o_size w ≤ capacity r.
Proof. destruct w as [l|o]; [by intros (_ & _ & [? _] & _)|intros ->]. done. Qed.

(** Where the memory of an owner is. *)
Lemma owner_place h L p w :
  heap_ok h L → L !! p = Some w →
  hhdm ≤ p ∧ p + o_size w < 2 ^ 64 ∧ (o_align w | p).
Proof using.
  intros (B & V & [Hh _] & Hho) Hw. destruct (ho_cell _ _ _ Hho _ _ Hw) as (r & Hc & Hf).
  destruct (cell_bounds _ _ _ _ _ Hh Hc) as (Hlo & Hhi & _). pose proof (fits_size _ _ _ Hf).
  split; [done|]. split; [lia|]. destruct w as [l|o]; [apply Hf|]. cbn [fits] in Hf. subst r.
  destruct Hc as [Hc _]. cbn [o_align]. replace p with ((p - hhdm) + hhdm) by lia. apply Z.divide_add_r.
  - by destruct (hp_out_place _ _ _ _ (hr_pages Hh) Hc) as (_ & ? & _).
  - exact (hp_out_hhdm _ _ _ _ (hr_pages Hh) Hc).
Qed.

(** What two owners hold does not overlap. *)
Lemma owners_apart h L p w q w' :
  heap_ok h L → L !! p = Some w → L !! q = Some w' → p ≠ q → apart p (o_size w) q (o_size w').
Proof using.
  intros (B & V & [Hh _] & Hho) Hw Hw' Hne. destruct (ho_cell _ _ _ Hho _ _ Hw) as (r & Hc & Hf).
  destruct (ho_cell _ _ _ Hho _ _ Hw') as (r' & Hc' & Hf').
  pose proof (cells_apart _ _ _ _ _ _ _ Hh Hc Hc' Hne). pose proof (fits_size _ _ _ Hf). pose proof (fits_size _ _ _ Hf').
  unfold apart in *. lia.
Qed.

(** A grant recorded in the ledger. *)
Lemma holds_grant L B V mem V' B' mem' p r w :
  holds L B V → grant hhdm V B mem V' B' mem' p r → fits p w r →
  L !! p = None ∧ holds (<[p:=w]> L) B' V' ∧
  ∀ q w', L !! q = Some w' → ∀ a, range q (o_size w') a → mem' a = mem a.
Proof.
  intros [Hc Ha] Hg Hf.
  assert (L !! p = None) as Hnone.
  { destruct (L !! p) as [w'|] eqn:E; [|done]. destruct (Hc _ _ E) as (r' & Hr' & _). by apply (gr_fresh Hg) in Hr'. }
  split; [done|]. split; [split|].
  - intros q w' [[<- <-]|[Hne Hq]]%lookup_insert_Some.
    + exists r. split; [|done]. apply (gr_cells Hg). by right.
    + destruct (Hc _ _ Hq) as (r' & Hr' & Hf'). exists r'. split; [|done]. apply (gr_cells Hg). by left.
  - intros q r' [Hq|[-> ->]]%(gr_cells Hg); [|rewrite lookup_insert_eq; eauto].
    destruct (Ha _ _ Hq) as [w' Hw]. exists w'. rewrite lookup_insert_ne; [done|]. intros ->. congruence.
  - intros q w' Hq a Hr. destruct (Hc _ _ Hq) as (r' & Hr' & Hf'). apply (gr_mem Hg q r'); [done|].
    pose proof (fits_size _ _ _ Hf'). unfold range in *. lia.
Qed.

Lemma holds_revoke L B V mem V' B' mem' p :
  holds L B V → revoke hhdm V B mem V' B' mem' p →
  holds (delete p L) B' V' ∧
  ∀ q w', L !! q = Some w' → q ≠ p → ∀ a, range q (o_size w') a → mem' a = mem a.
Proof.
  intros [Hc Ha] Hv. split; [split|].
  - intros q w [Hne Hq]%lookup_delete_Some. destruct (Hc _ _ Hq) as (r & Hr & Hf). exists r. split; [|done].
    apply (rv_cells Hv). split; [done|congruence].
  - intros q r [Hq Hne]%(rv_cells Hv). rewrite lookup_delete_ne by congruence. eauto.
  - intros q w Hq Hne a Hr. destruct (Hc _ _ Hq) as (r & Hr' & Hf). apply (rv_mem Hv q r); [done|done|].
    pose proof (fits_size _ _ _ Hf). unfold range in *. lia.
Qed.

Hypothesis hhdm_high : 2 ^ 64 - 2 ^ 47 ≤ hhdm.
Hypothesis hhdm_align : (PAGE_SIZE | hhdm).

(** ** Allocations *)

(** The outcome of an allocation for [l], in terms of the ledger. *)
Definition gets h L (l : Layout) (zeroed : bool) h' L' (p : Z) : Prop :=
  if decide (l_size l = 0) then h' = h ∧ L' = L
  else if decide (p = 0) then h' = h ∧ L' = L ∧ no_pages (h_pages h) l
  else L !! p = None ∧ L' = <[p:=OHeap l]> L ∧
    (zeroed = true → ∀ a, range p (l_size l) a → h_mem h' a = 0).

Lemma alloc_ok h L l zeroed :
  heap_ok h L → layout_ok l →
  wp (alloc_for_layout (X:=X) hhdm h l zeroed) (λ '(h', p),
    let L' := if p =? 0 then L else record p l L in
    heap_ok h' L' ∧ (∀ op, keeps h L op h' L') ∧ gets h L l zeroed h' L' p ∧ (l_size l = 0 → p ≠ 0)).
Proof using hhdm_align hhdm_high XL.
  intros (B & V & Hinv & Hho) Hl. unfold gets, record. destruct (decide (l_size l = 0)) as [E|Hne].
  { unfold alloc_for_layout. rewrite E. cbn. split; [by exists B, V|]. split; [|done]. by intros op q w Hq _. }
  eapply wp_mono; [by apply (alloc_for_layout_spec hhdm_high hhdm_align h B V)|].
  intros [h' p] Ha. cbv zeta. unfold allocated in Ha. rewrite (proj2 (Z.eqb_neq _ _) Hne).
  destruct (decide (p = 0)) as [->|Hp].
  { destruct Ha as [-> Hn]. cbn. split; [by exists B, V|]. split; [|done]. by intros op q w Hq _. }
  rewrite (proj2 (Z.eqb_neq _ _) Hp). destruct Ha as (B' & V' & r & Hinv' & Hg & Hsu & Hal & Hz).
  destruct (holds_grant L B V _ V' B' _ p r (OHeap l) Hho Hg) as (Hnone & Hho' & Hk); [done|].
  split; [by exists B', V'|]. split; [|done]. intros op q w Hq _. split; [|by eapply Hk].
  rewrite lookup_insert_ne; [done|]. intros ->. congruence.
Qed.

Lemma pages_ok h L o zeroed :
  heap_ok h L →
  wp (heap_do (X:=X) hhdm h L (HPages o zeroed)) (λ '(h', L', p),
    heap_ok h' L' ∧ keeps h L (HPages o zeroed) h' L' ∧
    if decide (p = 0) then h' = h ∧ L' = L ∧ hp_none (h_pages h) o
    else L !! p = None ∧ L' = <[p:=OPages o]> L ∧
      (zeroed = true → ∀ a, range p (block_bytes o) a → h_mem h' a = 0)).
Proof using hhdm_high.
  intros (B & V & Hinv & Hho). cbn [heap_do]. apply wp_bind.
  eapply wp_mono; [apply (page_alloc_heap h B V); [done|by destruct zeroed; [right|left]]|].
  intros [[p mem] [a|]]; cbv zeta.
  - intros (Hinv' & _ & Hg & Hz). apply wp_ret. pose proof Hinv' as [Hh' _].
    destruct (cell_bounds _ _ _ _ _ Hh' (grant_cell _ _ _ _ _ _ _ _ Hg)) as [Hlo _].
    rewrite decide_False by lia.
    destruct (holds_grant L B V _ V _ _ _ _ (OPages o) Hho Hg) as (Hnone & Hho' & Hk); [done|].
    split; [by exists (<[a:=o]> B), V|]. split.
    + intros q w Hq _. split; [|by eapply Hk]. rewrite lookup_insert_ne; [done|]. intros <-. congruence.
    + split; [done|]. split; [done|]. intros ->. by apply Hz.
  - intros [E Hn]. apply wp_ret. rewrite E. split; [by exists B, V|]. split; [|done]. by intros q w Hq _.
Qed.

(** ** Releases *)

Lemma cell_owner L B V p w : holds L B V → L !! p = Some w → ∃ r, cell V B p r ∧ fits p w r.
Proof using. intros [Hc _]. apply Hc. Qed.

Lemma kfree_ok h L p w :
  heap_ok h L → L !! p = Some w →
  let P := ∃ l, w = OHeap l ∧ small l = true ∧ poisoned h p = true in
  post (kfree (X:=X) hhdm h p)
    (λ h', ¬ P ∧ heap_ok h' (delete p L) ∧ keeps h L (HKfree p) h' (delete p L)) (λ e, e = PExplicit ∧ P).
Proof using hhdm_align hhdm_high XL.
  intros (B & V & Hinv & Hho) Hw Pz. destruct (ho_cell _ _ _ Hho _ _ Hw) as (r & Hc & Hf).
  pose proof (kfree_spec hhdm_high hhdm_align h B V p r Hinv Hc) as Hk.
  assert (∀ h' B' V', heap_inv h' B' V' → revoke hhdm V B (h_mem h) V' B' (h_mem h') p →
    heap_ok h' (delete p L) ∧ keeps h L (HKfree p) h' (delete p L)) as Hdone.
  { intros h' B' V' Hinv' Hrv. destruct (holds_revoke L B V _ V' B' _ p Hho Hrv) as [Hho' Hkept].
    split; [by exists B', V'|]. intros q w' Hq Hne. cbn [touches] in Hne. split; [by rewrite lookup_delete_ne|].
    by eapply Hkept. }
  destruct r as [i|o].
  - destruct w as [l|o]; [|done]. destruct Hf as (_ & _ & [_ Hsm] & _). destruct (poisoned h p) eqn:Hpo.
    + rewrite Hk. split; [done|]. by exists l.
    + destruct (wp_elim _ _ Hk) as (h' & -> & B' & V' & Hinv' & Hrv). split; [|by eapply Hdone].
      intros (l' & _ & _ & ?). done.
  - destruct (wp_elim _ _ Hk) as (h' & -> & B' & Hinv' & Hrv). split; [|by eapply Hdone].
    intros (l' & -> & Hsm & _). destruct Hf as (_ & _ & [_ Hsm'] & _). congruence.
Qed.

Lemma free_pages_ok h L a o :
  heap_ok h L → L !! (a + hhdm) = Some (OPages o) →
  wp (heap_do (X:=X) hhdm h L (HFreePages a)) (λ '(h', L', _),
    heap_ok h' L' ∧ L' = delete (a + hhdm) L ∧ keeps h L (HFreePages a) h' L').
Proof using hhdm_high.
  intros (B & V & Hinv & Hho) Hw. destruct (ho_cell _ _ _ Hho _ _ Hw) as (r & Hc & Hf). cbn [fits] in Hf. subst r.
  cbn [HeapSpec.cell] in Hc. replace (a + hhdm - hhdm) with a in Hc by lia. cbn [heap_do]. apply wp_bind.
  eapply wp_mono; [by apply (page_free_heap h B V a o)|]. intros p [Hinv' Hrv]. apply wp_ret.
  destruct (holds_revoke L B V _ V _ _ _ Hho Hrv) as [Hho' Hkept]. split; [by exists (delete a B), V|]. split; [done|].
  intros q w Hq Hne. cbn [touches] in Hne. split; [by rewrite lookup_delete_ne|]. by eapply Hkept.
Qed.

Lemma write_ok h L x v :
  heap_ok h L → allowed hhdm L (HWrite x v) →
  heap_ok (set_mem (store 1 x v (h_mem h)) h) L ∧ keeps h L (HWrite x v) (set_mem (store 1 x v (h_mem h)) h) L.
Proof using.
  intros (B & V & Hinv & Hho) (p & w & Hw & Hx). destruct (ho_cell _ _ _ Hho _ _ Hw) as (r & Hc & Hf).
  pose proof (fits_size _ _ _ Hf). split.
  - exists B, V. split; [|done]. apply (write_cell h B V p r); [done|done|]. intros a Ha. apply store_ne.
    unfold range in *. lia.
  - intros q w' Hq Ht. cbn [touches h_mem set_mem] in *. split; [done|]. intros a Ha. apply store_ne.
    unfold range in *. lia.
Qed.

(** ** Reallocation *)

Lemma holds_move L B V B' V' p p' r l :
  holds L B V → (∀ r', ¬ cell V B p' r') →
  (∀ q r', cell V' B' q r' ↔ (cell V B q r' ∧ q ≠ p) ∨ (q = p' ∧ r' = r)) → fits p' (OHeap l) r →
  L !! p' = None ∧ holds (<[p':=OHeap l]> (delete p L)) B' V'.
Proof using.
  intros [Hc Ha] Hfresh Hcells Hf. split.
  { destruct (L !! p') as [w'|] eqn:E; [|done]. destruct (Hc _ _ E) as (r' & Hr' & _). by apply Hfresh in Hr'. }
  split.
  - intros q w' [[<- <-]|[Hne [Hne' Hq]%lookup_delete_Some]]%lookup_insert_Some.
    + exists r. split; [|done]. apply Hcells. by right.
    + destruct (Hc _ _ Hq) as (r' & Hr' & Hf'). exists r'. split; [|done]. apply Hcells. left. split; [done|congruence].
  - intros q r' [[Hq Hne]|[-> ->]]%Hcells; [|rewrite lookup_insert_eq; eauto].
    destruct (Ha _ _ Hq) as [w' Hw]. exists w'.
    rewrite lookup_insert_ne, lookup_delete_ne; [done|congruence|intros ->; by apply Hfresh in Hq].
Qed.

(** The outcome of [realloc], in terms of the ledger. *)
Definition regets h L (p : Z) (l : Layout) (n : Z) h' L' (p' : Z) : Prop :=
  let l' := mk_layout n (l_align l) in
  if decide (l_size l = 0) then gets h L l' false h' L' p'
  else if decide (n = 0) then L' = delete p L
  else if decide (p' = 0) then h' = h ∧ L' = L ∧ no_pages (h_pages h) l'
  else L !! p' = None ∧ L' = <[p':=OHeap l']> (delete p L) ∧
    ∀ k, 0 ≤ k < Z.min (l_size l) n → h_mem h' (p' + k) = h_mem h (p + k).

Lemma realloc_moves h L p l n :
  heap_ok h L → L !! p = Some (OHeap l) → layout_ok (mk_layout n (l_align l)) → n ≠ 0 →
  post (ga_realloc (X:=X) hhdm h p l n) (λ '(h', p'),
    let L' := if p' =? 0 then L else record p' (mk_layout n (l_align l)) (forget p l L) in
    heap_ok h' L' ∧ keeps h L (HRealloc p l n) h' L' ∧ regets h L p l n h' L' p')
    (λ e, e = PExplicit ∧ small l = true ∧ poisoned h p = true).
Proof using hhdm_align hhdm_high XL.
  intros (B & V & Hinv & Hho) Hw Hl' Hn. destruct (ho_cell _ _ _ Hho _ _ Hw) as (r & Hc & Hl & Hl0 & Hsu & Hal).
  eapply post_mono; [by apply (ga_realloc_spec hhdm_high hhdm_align h B V p r l n)|].
  intros [h' p'] Hr. cbv zeta. unfold regets, record, forget. cbn [l_size].
  rewrite (proj2 (Z.eqb_neq _ _) Hl), (proj2 (Z.eqb_neq _ _) Hn), !(decide_False _ _ Hl), !(decide_False _ _ Hn).
  unfold reallocated in Hr. destruct (decide (p' = 0)) as [->|Hp].
  { destruct Hr as [-> Hnp]. cbn. split; [by exists B, V|]. split; [|done]. by intros q w Hq _. }
  rewrite (proj2 (Z.eqb_neq _ _) Hp). destruct Hr as (B' & V' & r' & Hinv' & Hsu' & Hal' & Hfresh & Hcells & Hkept & Hcopy).
  destruct (holds_move L B V B' V' p p' r' (mk_layout n (l_align l)) Hho Hfresh Hcells) as [Hnone Hho']; [done|].
  split; [by exists B', V'|]. split; [|done]. intros q w Hq Ht. cbn [touches] in Ht.
  assert (q ≠ p) as Hqp by tauto. split.
  - rewrite lookup_insert_ne, lookup_delete_ne; [done|congruence|congruence].
  - intros a Ha. destruct (ho_cell _ _ _ Hho _ _ Hq) as (r0 & Hr0 & Hf0). apply (Hkept q r0); [done|done|].
    pose proof (fits_size _ _ _ Hf0). unfold range in *. lia.
Qed.

(** ** Every request *)

(** What the operation returned and did to the ledger. *)
Definition served h L (op : heap_op) h' L' (p : Z) : Prop :=
  match op with
  | HAlloc l zeroed => gets h L l zeroed h' L' p
  | HDealloc q l => L' = forget q l L ∧ ∀ q, releases L op q → poisoned h q = false
  | HRealloc q l n => regets h L q l n h' L' p
  | HKmalloc bytes flags => gets h L (mk_layout bytes SLAB_MIN_ALIGN) (km_contains flags KM_ZEROED) h' L' p
  | HKfree q => L' = delete q L ∧ ∀ q, releases L op q → poisoned h q = false
  | HPages o zeroed =>
      if decide (p = 0) then h' = h ∧ L' = L ∧ hp_none (h_pages h) o
      else L !! p = None ∧ L' = <[p:=OPages o]> L ∧
        (zeroed = true → ∀ a, range p (block_bytes o) a → h_mem h' a = 0)
  | HFreePages a => L' = delete (a + hhdm) L
  | HWrite x v => h' = set_mem (store 1 x v (h_mem h)) h ∧ L' = L
  end.

Definition stops h L (op : heap_op) (e : panic) : Prop :=
  e = PExplicit ∧ ∃ q, releases L op q ∧ poisoned h q = true.

Lemma dealloc_do h L p l :
  heap_ok h L → allowed hhdm L (HDealloc p l) →
  post (ga_dealloc (X:=X) hhdm h p l) (λ h', heap_ok h' (forget p l L) ∧
    keeps h L (HDealloc p l) h' (forget p l L) ∧ ∀ q, releases L (HDealloc p l) q → poisoned h q = false)
    (stops h L (HDealloc p l)).
Proof using hhdm_align hhdm_high XL.
  intros Hok Hall. pose proof Hok as (B & V & Hinv & Hho). unfold forget. destruct (Z.eqb_spec (l_size l) 0) as [E|Hne].
  { unfold ga_dealloc. rewrite E. cbn. split; [done|]. split; [by intros q w Hq _|].
    intros q (l' & Hw & _ & -> & ->). by destruct (ho_cell _ _ _ Hho _ _ Hw) as (r & _ & Hl & _). }
  destruct Hall as [?|Hw]; [done|]. destruct (ho_cell _ _ _ Hho _ _ Hw) as (r & Hc & Hf).
  rewrite (ga_dealloc_kfree hhdm_high h B V p r l) by done.
  eapply post_weaken; [eapply post_mono; [by apply (kfree_ok h L p (OHeap l))|]|].
  - cbv zeta. intros h' (Hnp & Hok' & Hk). split; [done|]. split.
    + intros q w Hq Ht. apply Hk; [done|]. cbn [touches] in *. tauto.
    + intros q (l' & _ & Hsm & -> & <-). destruct (poisoned h p) eqn:Hpo; [|done]. destruct Hnp. eauto.
  - intros e [-> (l' & [= <-] & Hsm & Hpo)]. split; [done|]. exists p. split; [|done]. by exists l.
Qed.

Lemma realloc_do h L p l n :
  heap_ok h L → allowed hhdm L (HRealloc p l n) →
  post (heap_do (X:=X) hhdm h L (HRealloc p l n)) (λ '(h', L', p'),
    heap_ok h' L' ∧ keeps h L (HRealloc p l n) h' L' ∧ regets h L p l n h' L' p') (stops h L (HRealloc p l n)).
Proof using hhdm_align hhdm_high XL.
  intros Hok [Hall Hl]. cbn [heap_do]. destruct (decide (l_size l = 0)) as [E|Hne].
  { unfold ga_realloc. rewrite E. cbn [Z.eqb].
    eapply post_bind; [by apply (alloc_ok h L (mk_layout n (l_align l)) false)|]. intros [h' p'] (Hok' & Hk & Hg & _).
    unfold forget. rewrite E. cbn [Z.eqb post]. split; [done|]. split; [apply Hk|]. unfold regets.
    by rewrite decide_True. }
  destruct Hall as [?|Hw]; [done|]. destruct (decide (n = 0)) as [->|Hn].
  - unfold ga_realloc. rewrite (proj2 (Z.eqb_neq _ _) Hne). cbn [Z.eqb].
    pose proof (dealloc_do h L p l Hok (or_intror Hw)) as Hd.
    destruct (ga_dealloc (X:=X) hhdm h p l) as [h'|e|]; [|done|done].
    destruct Hd as (Hok' & Hk & _). cbn [mbind outcome_bind Z.eqb dangling post record l_size].
    unfold regets. rewrite decide_False, decide_True by done. split; [done|]. split; [done|].
    unfold forget. by rewrite (proj2 (Z.eqb_neq _ _) Hne).
  - eapply post_bind_post.
    + eapply post_weaken; [by apply (realloc_moves h L p l n)|]. intros e (-> & Hsm & Hpo). split; [done|].
      exists p. split; [|done]. by exists l.
    + intros [h' p'] Hr. exact Hr.
Qed.

Lemma kmalloc_do h L bytes flags :
  heap_ok h L → allowed hhdm L (HKmalloc bytes flags) →
  wp (heap_do (X:=X) hhdm h L (HKmalloc bytes flags)) (λ '(h', L', p),
    heap_ok h' L' ∧ keeps h L (HKmalloc bytes flags) h' L' ∧ served h L (HKmalloc bytes flags) h' L' p).
Proof using hhdm_align hhdm_high XL.
  intros Hok Hl. pose proof Hok as (B & V & Hinv & Hho). cbn [heap_do allowed served] in *.
  destruct (decide (bytes = 0)) as [->|Hne].
  { unfold kmalloc. cbn. split; [done|]. split; [by intros q w Hq _|done]. }
  rewrite (kmalloc_alloc hhdm_high hhdm_align h B V) by done.
  set (l := mk_layout bytes SLAB_MIN_ALIGN) in *.
  destruct (wp_elim _ _ (alloc_ok h L l (km_contains flags KM_ZEROED) Hok Hl)) as ([h' p] & E & Hok' & Hk & Hg & _).
  rewrite E. cbn [mbind outcome_bind]. apply wp_ret. destruct (Z.eqb_spec p 0) as [->|Hp]; (split; [done|split; [apply Hk|done]]).
Qed.

(** Every request of a well-behaved client does what it should. *)
Lemma heap_do_spec h L op :
  heap_ok h L → allowed hhdm L op →
  post (heap_do (X:=X) hhdm h L op) (λ '(h', L', p), heap_ok h' L' ∧ keeps h L op h' L' ∧ served h L op h' L' p)
    (stops h L op).
Proof using hhdm_align hhdm_high XL.
  intros Hok Hall. destruct op as [l zeroed|p l|p l n|bytes flags|p|o zeroed|a|x v].
  - apply post_wp. cbn [heap_do allowed] in *. unfold ga_alloc, ga_alloc_zeroed.
    replace (if zeroed then alloc_for_layout (X:=X) hhdm h l true else alloc_for_layout (X:=X) hhdm h l false)
      with (alloc_for_layout (X:=X) hhdm h l zeroed) by (by destruct zeroed).
    apply wp_bind. eapply wp_mono; [by apply (alloc_ok h L l zeroed)|]. intros [h' p] (Hok' & Hk & Hg & _).
    apply wp_ret. split; [done|]. split; [apply Hk|done].
  - cbn [heap_do]. eapply post_bind_post; [by apply (dealloc_do h L p l)|]. intros h' (Hok' & Hk & Hr). done.
  - by apply realloc_do.
  - apply post_wp. by apply kmalloc_do.
  - destruct Hall as [w Hw]. cbn [heap_do]. eapply post_bind_post.
    + eapply post_weaken; [by apply (kfree_ok h L p w)|]. intros e [-> (l & -> & Hsm & Hpo)]. split; [done|].
      exists p. split; [|done]. by exists l.
    + intros h' (Hnp & Hok' & Hk). split; [done|]. split; [done|]. split; [done|].
      intros q (l & Hl & Hsm & ->). destruct (poisoned h p) eqn:Hpo; [|done]. destruct Hnp. exists l. naive_solver.
  - apply post_wp. eapply wp_mono; [by apply (pages_ok h L o zeroed)|]. by intros [[h' L'] p].
  - destruct Hall as [o Ho]. apply post_wp. eapply wp_mono; [by apply (free_pages_ok h L a o)|].
    intros [[h' L'] p] (Hok' & -> & Hk). done.
  - cbn [heap_do]. destruct (write_ok h L x v Hok Hall) as [Hok' Hk]. done.
Qed.
End invariant.
