(* ===== verification/ZonesHeap.v ===== *)
(** * The zone manager as the heap's page allocator

    The interface [HeapPages] of Slab.v is implemented by
    [alloc_pages_by_order], [free_pages] and the frame metadata of the sparse
    memory map; its laws follow from the zone manager's theorems.  The slab
    allocator keeps its own data in the [next_free] field of the frames of the
    blocks it holds, which the buddy allocators do not use while a block is
    out. *)
From stdpp Require Import functions.
From S2P Require Import Prelude Misc Memblock Frame Bump Sparsemem SparsememSpec SparsememInit PfnIter.
From S2P Require Import Buddy BuddyLists BuddyBlocks BuddySpec BuddyTheorems Zones ZonesSpec ZonesManager Paging ZonesSource.
From S2P Require Import ByteMem Slab SlabMem SlabLists SlabCaches SlabHeap.
#[local] Open Scope Z_scope.

Record zpages := mk_zpages {
  zp_hhdm : Z;
  zp_mgr : ZonesManager;
  zp_sm : SparseMem
}.

Definition zp_set_sm (p : zpages) (sm : SparseMem) : zpages := mk_zpages (zp_hhdm p) (zp_mgr p) sm.

#[global] Instance zpages_frames : FrameStore zpages := {|
  fs_get p := fs_get (zp_sm p);
  fs_set p q f := zp_set_sm p (fs_set (zp_sm p) q f);
  fs_layout p := fs_layout (zp_sm p);
  fs_layout_set p := fs_layout_set (zp_sm p);
  fs_get_set_eq p := fs_get_set_eq (zp_sm p);
  fs_get_set_ne p := fs_get_set_ne (zp_sm p)
|}.

#[global] Instance zones_pages : HeapPages zpages := {
  hp_frames := zpages_frames;
  hp_alloc p mem order flags :=
    '(r, mgr, sm, mem) ← alloc_pages_by_order (zp_hhdm p) (zp_mgr p) (zp_sm p) mem order flags;
    Ret (mk_zpages (zp_hhdm p) mgr sm, mem, r);
  hp_free p a :=
    '(mgr, sm) ← pa_free_pages (zp_mgr p) (zp_sm p) a;
    Ret (mk_zpages (zp_hhdm p) mgr sm)
}.

(** The largest block. *)
Definition MAX_BLOCK : Z := psize MAX_ORDER * PAGE_SIZE.

Definition zpages_out (hhdm : Z) (p : zpages) (B : gmap Z nat) : Prop :=
  zp_hhdm p = hhdm ∧ (MAX_BLOCK | hhdm) ∧ 0 ≤ hhdm ∧
  ∃ lim G, mgr_inv lim (zp_mgr p) (zp_sm p) G ∧ lim ≤ 2 ^ 40 ∧ hhdm + lim * PAGE_SIZE ≤ u64_max ∧ blocks_out G B.

(** No block of order [o] is free in the zone of the kernel's pages. *)
Definition zpages_none (p : zpages) (o : nat) : Prop :=
  ∃ lim G, mgr_inv lim (zp_mgr p) (zp_sm p) G ∧ exhausted (G ZoneId.High) o.

(** ** Relinking the frames of a block that is out *)

Lemma inv_relink {M} {FS : FrameStore M} b m H q f v :
  inv b m H → fs_get m q = Some f → (∀ o, H !! q ≠ Some (BuddyTag.Free, o)) →
  inv b (fs_set m q (set_next v f)) H.
Proof.
  intros [[L [Hz [Hlen Hhd Hseg Hnd] Hm Hh Hb]] Hrest] Hf Hq. split; [|done]. exists L.
  assert (∀ p, cores (fs_set m q (set_next v f)) p = cores m p) as Hcores.
  { intros p. unfold cores. rewrite fs_layout_set, (fs_get_set _ _ _ _ _ Hf). case_decide as E; [|done]. subst p.
    by rewrite Hf. }
  split; [done| |done| |].
  - split; [done|done| |done]. intros o. eapply seg_frame; [|apply Hseg]. intros p Hp. rewrite fs_get_set_ne; [done|].
    intros <-. by apply (Hq o), Hm.
  - intros p Hp HX. rewrite <-(Hh p Hp HX). apply cores_heads, Hcores.
  - by eapply zone_blocks_kept; [apply cores_kept|].
Qed.

(** A frame of a block that is out is free in no zone. *)
Lemma out_not_free lim mgr s G id head o id' q :
  mgr_inv lim mgr s G → G id !! head = Some (BuddyTag.Allocated, o) → in_block head o q → ¬ free_at (G id') q.
Proof.
  intros Hm Hh Hq Hf. destruct (allocated_zone _ _ _ _ _ _ _ Hm Hh) as (z & Hz & Hb & Hin).
  apply free_at_spec in Hf as (p & o' & Hp & Hpq). destruct (mgr_lookup _ _ _ _ id' Hm) as [[z'|] Hoz].
  2:{ by rewrite (mi_none _ _ _ _ Hm id' Hoz), lookup_empty in Hp. }
  destruct (mi_zone _ _ _ _ Hm _ _ Hoz) as [_ _ _ ([L HR] & _ & _) _].
  pose proof (rep_blocks _ _ _ _ _ HR) as Hb'. destruct (Hb' _ _ _ Hp) as (_ & Hpl & _).
  assert (id = id') as <-.
  { apply (mi_disj _ _ _ _ Hm id id' z z' q); [done|done|by apply Hin|exact (place_in_zone _ _ _ _ _ Hpl Hpq)]. }
  pose proof (blocks_disjoint _ _ _ _ (G id) p _ _ head _ _ q Hb' Hp Hh Hpq Hq) as ->. congruence.
Qed.

Lemma mgr_relink lim mgr s G id head o q f v :
  mgr_inv lim mgr s G → G id !! head = Some (BuddyTag.Allocated, o) → in_block head o q → fs_get s q = Some f →
  mgr_inv lim mgr (fs_set s q (set_next v f)) G.
Proof.
  intros Hm Hh Hq Hf. pose proof Hm as [Hlen Hz Hn Hd]. split; [done| |done|done].
  intros id' z' Hz'. destruct (Hz _ _ Hz') as [Hi1 Hi2 Hi3 Hi4 Hi5]. split; [done|done|done| |].
  - apply inv_relink; [done|done|]. intros o' Hfree. apply (out_not_free _ _ _ _ _ _ _ id' q Hm Hh Hq).
    apply free_at_spec. exists q, o'. split; [done|]. apply in_block_head.
  - intros p Hp f' Hf' Hu. change (fs_get (fs_set s q (set_next v f)) p = Some f') in Hf'.
    rewrite (fs_get_set _ _ _ _ _ Hf) in Hf'. case_decide as E; [|by apply (Hi5 p)]. injection Hf' as <-. subst p.
    by apply (Hi5 q Hp f).
Qed.

(** ** The laws *)

Lemma block_frame_in head o q : block_frame (phys_of head) o q ↔ in_block head o q.
Proof. unfold block_frame, in_block, phys_of, psize. by rewrite Z.div_mul. Qed.

Section laws.
Context (hhdm : Z).

Lemma zpages_block p B a o :
  zpages_out hhdm p B → B !! a = Some o →
  ∃ head, a = phys_of head ∧ 0 ≤ head ∧ (o ≤ MAX_ORDER)%nat ∧ (psize o | head) ∧
    head + psize o ≤ 2 ^ 40 ∧ hhdm + (head + psize o) * PAGE_SIZE ≤ u64_max ∧
    ∀ q, in_block head o q → is_Some (fs_get (zp_sm p) q).
Proof.
  intros (_ & _ & _ & lim & G & Hm & Hlim & Hh & HB) Ha. apply HB in Ha as (id & head & -> & Hhd).
  destruct (allocated_place _ _ _ _ _ _ _ Hm Hhd) as (H0 & Hle & Ho & Hdiv & Hu).
  exists head. do 4 (split; [done|]). split; [lia|]. split; [unfold PAGE_SIZE in *; lia|].
  intros q Hq. destruct (Hu q Hq) as (f & Hf & _). by exists f.
Qed.

Lemma zpages_place p B a o :
  zpages_out hhdm p B → B !! a = Some o →
  0 ≤ a ∧ (block_bytes o | a) ∧ a + block_bytes o ≤ 2 ^ 52 ∧ hhdm + a + block_bytes o < 2 ^ 64.
Proof.
  intros Hp Ha. destruct (zpages_block _ _ _ _ Hp Ha) as (head & -> & H0 & _ & Hdiv & Hle & Hh & _).
  rewrite block_bytes_psize. unfold phys_of, PAGE_SIZE, u64_max in *. split; [lia|]. split; [by apply Z.mul_divide_mono_r|]. lia.
Qed.

Lemma zpages_hhdm p B a o : zpages_out hhdm p B → B !! a = Some o → (block_bytes o | hhdm).
Proof.
  intros Hp Ha. destruct (zpages_block _ _ _ _ Hp Ha) as (head & _ & _ & Ho & _).
  destruct Hp as (_ & Hd & _). etrans; [|exact Hd]. rewrite block_bytes_psize. unfold MAX_BLOCK.
  apply Z.mul_divide_mono_r. by apply psize_divide.
Qed.

Lemma zpages_disjoint p B a o a' o' :
  zpages_out hhdm p B → B !! a = Some o → B !! a' = Some o' → a ≠ a' → apart a (block_bytes o) a' (block_bytes o').
Proof.
  intros (Eh & _ & H0 & lim & G & Hm & Hlim & Hh & HB) Ha Ha' Hne. unfold apart.
  apply (zones_out_disjoint (mk_zmem hhdm (zp_mgr p) (zp_sm p) (λ _, 0)) B a o a' o'); [|done|done|done].
  by exists lim, G.
Qed.

Lemma zpages_frame p B a o q :
  zpages_out hhdm p B → B !! a = Some o → block_frame a o q → is_Some (fs_get p q).
Proof.
  intros Hp Ha Hq. destruct (zpages_block _ _ _ _ Hp Ha) as (head & -> & _ & _ & _ & _ & _ & Hf).
  apply Hf. by apply block_frame_in.
Qed.

(** What an operation leaves alone. *)
Lemma kept_same lim mgr s G B p p' (F : Z → Prop) :
  mgr_inv lim mgr s G → zp_sm p = s → blocks_out G B → frames_kept F s (zp_sm p') →
  ∀ B', (∀ a o, B' !! a = Some o → B !! a = Some o) →
  (∀ id head o q, G id !! head = Some (BuddyTag.Allocated, o) → is_Some (B' !! phys_of head) →
     in_block head o q → ¬ F q) → frames_same B' p p'.
Proof.
  intros Hm <- HB [_ Hk] B' Hsub HF a o q Ha Hq. apply Hk.
  pose proof (Hsub _ _ Ha) as (id & head & -> & Hhd)%HB. eapply HF; [done|by eexists|]. by apply block_frame_in.
Qed.

Lemma zpages_alloc p mem B o flags :
  zpages_out hhdm p B → flags = KERNEL_PAGES ∨ flags = SAFE_KERNEL_PAGES →
  wp (hp_alloc p mem o flags) (λ '(p', mem', r),
    match r with
    | None => p' = p ∧ mem' = mem ∧ zpages_none p o
    | Some a => B !! a = None ∧ zpages_out hhdm p' (<[a:=o]> B) ∧
        frame_link p' (a / PAGE_SIZE) INVALID_PFN ∧ frames_same B p p' ∧
        ∀ x, mem' x = if decide (flags = SAFE_KERNEL_PAGES ∧ range (a + hhdm) (block_bytes o) x)
                      then 0 else mem x
    end).
Proof.
  intros (Eh & Hd & H0 & lim & G & Hm & Hlim & Hh & HB) Hfl. cbn [hp_alloc zones_pages]. rewrite Eh. apply wp_bind.
  assert (flags_to_zone flags = Ret ZoneId.High ∧
    (flags_contain flags PA_ZEROED = true ↔ flags = SAFE_KERNEL_PAGES)) as [Hz Hzero].
  { destruct Hfl as [->| ->]; (split; [done|]); vm_compute; split; congruence. }
  eapply wp_mono; [by apply (page_alloc_spec _ lim _ _ G _ _ _ ZoneId.High)|].
  intros [[[[a|] mgr'] s'] mem'] Hr; apply wp_ret.
  2:{ destruct Hr as (-> & -> & -> & Hex). split; [by destruct p; cbn in *; subst|]. split; [done|]. by exists lim, G. }
  destruct Hr as (Hk & _ & (head & H' & -> & Ha & Hl & Hm' & _) & Hmem).
  assert (∀ id' o', G id' !! head ≠ Some (BuddyTag.Allocated, o')) as Hnew by (intros id' o'; by eapply free_not_out).
  split; [|split; [|split; [|split]]].
  - destruct (B !! phys_of head) as [o'|] eqn:E; [|done]. exfalso.
    apply HB in E as (id' & h & E%phys_of_inj & Hh'). subst h. by apply Hnew in Hh'.
  - split; [done|]. split; [done|]. split; [done|]. exists lim, (<[ZoneId.High:=H']> G). do 3 (split; [done|]).
    by apply blocks_out_alloc.
  - unfold phys_of. by rewrite Z.div_mul.
  - eapply (kept_same lim _ _ G B); [exact Hm|done|done|exact Hk|done|].
    intros id h o' q Hh' _ Hq. by eapply out_not_free.
  - intros x. rewrite Hmem, block_bytes_psize. unfold range. by apply decide_ext; rewrite Hzero.
Qed.

Lemma zpages_free p B a o :
  zpages_out hhdm p B → B !! a = Some o →
  wp (hp_free p a) (λ p', zpages_out hhdm p' (delete a B) ∧ frames_same (delete a B) p p').
Proof.
  intros (Eh & Hd & H0 & lim & G & Hm & Hlim & Hh & HB) Ha. pose proof Ha as (id & head & -> & Hhd)%HB.
  cbn [hp_free zones_pages]. rewrite Eh. apply wp_bind.
  eapply wp_mono; [by apply (page_free_spec lim _ _ G id head o)|].
  intros [mgr' s'] (Hk & H' & Hr & Hm'). apply wp_ret. split.
  - split; [done|]. split; [done|]. split; [done|]. exists lim, (<[id:=H']> G). do 3 (split; [done|]).
    by eapply blocks_out_free.
  - eapply (kept_same lim _ _ G B); [exact Hm|done|done|exact Hk|by intros ? ? [_ ?]%lookup_delete_Some|].
    intros id' h o' q Hh' [o2 [Hne _]%lookup_delete_Some] Hq [Hf|Hin].
    + exact (out_not_free _ _ _ _ _ _ _ id q Hm Hh' Hq Hf).
    + apply Hne. f_equal. by destruct (allocated_unique _ _ _ _ _ _ _ _ _ _ q Hm Hhd Hh' Hin Hq).
Qed.

Lemma zpages_link p B a o q f v :
  zpages_out hhdm p B → B !! a = Some o → block_frame a o q → fs_get p q = Some f →
  zpages_out hhdm (fs_set p q (set_next v f)) B.
Proof.
  intros (Eh & Hd & H0 & lim & G & Hm & Hlim & Hh & HB) Ha Hq Hf. pose proof Ha as (id & head & -> & Hhd)%HB.
  split; [done|]. split; [done|]. split; [done|]. exists lim, G. split; [|done].
  eapply mgr_relink; [exact Hm|exact Hhd|by apply block_frame_in|exact Hf].
Qed.

#[global] Instance zones_pages_laws : HeapPagesLaws zpages hhdm := {|
  hp_out := zpages_out hhdm;
  hp_none := zpages_none;
  hp_out_place := zpages_place;
  hp_out_hhdm := zpages_hhdm;
  hp_out_disjoint := zpages_disjoint;
  hp_out_frames := zpages_frame;
  hp_alloc_law := zpages_alloc;
  hp_free_law := zpages_free;
  hp_link_law := zpages_link
|}.
End laws.
