(* ===== verification/PhysMem.v ===== *)
(** * Starting the physical memory manager

    Models kernel/src/arch/amd64/memory/pmm/mod.rs and pmm_tests.rs, which the
    default build runs at every boot: [init_physical_memory] runs
    the bootloader's memory map through the region tables, the frame metadata,
    the zones and the slab caches, and then the tests.  Before the tests the
    heap is empty and ready: nothing is handed out and every size class has
    empty lists. *)
From stdpp Require Import functions.
From S2P Require Import Prelude Misc Memblock Frame Bump Sparsemem SparsememSpec SparsememInit PfnIter.
From S2P Require Import Buddy BuddyLists BuddyBlocks BuddySpec BuddyTheorems Zones ZonesSpec ZonesManager Paging ZonesSource.
From S2P Require Import ByteMem Slab SlabMem SlabLists SlabCaches SlabHeap SlabGrow SlabOps SlabFree Kmalloc HeapSpec HeapOps HeapMachine ZonesHeap.
#[local] Open Scope Z_scope.

(** ** The tests

    pmm_tests.rs: requests to the heap, writes to the memory they return and
    checks of its contents.  Whatever the state of the heap, the only way to
    fail is to get no memory; a test leaves the heap as it found it, except for
    the page that [test_page_alloc] never gives back. *)

(** [fill] is [ByteMem.fill]: [write_bytes]. *)
Definition check (ptr size val : Z) (mem : Z → Z) : outcome () :=
  for_each (λ i _, assert (mem (ptr + i) =? val)) (seqZ 0 size) ().
Definition assert_zeroed (ptr size : Z) (mem : Z → Z) : outcome () :=
  for_each (λ i _, assert (mem (ptr + i) =? 0)) (seqZ 0 size) ().

Section tests.
Context {P PT : Type} {HP : HeapPages P} {X : X86_64 PT} (hhdm : Z).

Definition test_basic_alloc (h : heap P) : outcome (heap P) :=
  '(h, r) ← kmalloc (X:=X) hhdm h 64 KM_ZEROED;
  p ← unwrap r;
  let h := set_mem (fill p 64 0xAA (h_mem h)) h in
  _ ← check p 64 0xAA (h_mem h);
  kfree (X:=X) hhdm h p.

Definition test_zeroed_alloc (h : heap P) : outcome (heap P) :=
  '(h, r) ← kmalloc (X:=X) hhdm h 128 KM_ZEROED;
  p ← unwrap r;
  _ ← assert_zeroed p 128 (h_mem h);
  kfree (X:=X) hhdm h p.

Definition test_small_alloc (h : heap P) : outcome (heap P) :=
  '(h, r) ← kmalloc (X:=X) hhdm h 15 KM_ZEROED;
  p ← unwrap r;
  let h := set_mem (fill p 15 0x11 (h_mem h)) h in
  _ ← check p 15 0x11 (h_mem h);
  kfree (X:=X) hhdm h p.

(** The second result is the address of the page that stays allocated. *)
Definition test_page_alloc (h : heap P) : outcome (heap P * Z) :=
  '(h, r) ← kmalloc (X:=X) hhdm h PAGE_SIZE KM_ZEROED;
  p ← unwrap r;
  '(pages, mem, r) ← hp_alloc (h_pages h) (h_mem h) 0 KERNEL_PAGES;
  phys ← unwrap r;
  virt ← phys_to_virt hhdm phys;
  let h := set_mem mem (set_pages pages h) in
  _ ← assert_zeroed p PAGE_SIZE (h_mem h);
  h ← kfree (X:=X) hhdm h p;
  Ret (h, virt).

Definition run_all (h : heap P) : outcome (heap P * Z) :=
  h ← test_basic_alloc h;
  h ← test_zeroed_alloc h;
  h ← test_small_alloc h;
  test_page_alloc h.
End tests.

(** *** The tests pass *)

Lemma check_ok ptr size val mem : (∀ x, range ptr size x → mem x = val) → check ptr size val mem = Ret ().
Proof.
  intros H. assert (wp (check ptr size val mem) (λ _, True)) as Hw.
  { unfold check. apply (wp_for_each _ _ _ (λ _ _, True)); [done| |done].
    intros done i rest _ Hl _. assert (i ∈ seqZ 0 size) as Hi by (rewrite Hl; set_solver).
    apply elem_of_seqZ in Hi. rewrite H by (unfold range; lia). by rewrite Z.eqb_refl. }
  by destruct (wp_elim _ _ Hw) as ([] & -> & _).
Qed.

Lemma assert_zeroed_ok ptr size mem : (∀ x, range ptr size x → mem x = 0) → assert_zeroed ptr size mem = Ret ().
Proof. apply (check_ok ptr size 0). Qed.

Section proofs.
Context {P PT : Type} {HP : HeapPages P} {X : X86_64 PT} {XL : X86_64Laws PT}
  {hhdm : Z} {HL : HeapPagesLaws P hhdm}.
Implicit Types (h : heap P) (L : ledger).
#[local] Notation heap_ok := (heap_ok (hhdm:=hhdm)).

Hypothesis hhdm_high : 2 ^ 64 - 2 ^ 47 ≤ hhdm.
Hypothesis hhdm_align : (PAGE_SIZE | hhdm).

(** What other clients hold, with its contents. *)
Definition same_for L h h' : Prop := ∀ q w, L !! q = Some w → ∀ a, range q (o_size w) a → h_mem h' a = h_mem h a.

(** The pages that a request for [n] bytes may need are used up. *)
Definition no_memory h (n : Z) : Prop := no_pages (hhdm:=hhdm) (h_pages h) (mk_layout n SLAB_MIN_ALIGN).

Lemma kmalloc_cleared h L n :
  heap_ok h L → 0 < n ≤ 2 ^ 62 →
  wp (kmalloc (X:=X) hhdm h n KM_ZEROED) (λ '(h', r), match r with
    | Some p => L !! p = None ∧ heap_ok h' (<[p:=OHeap (mk_layout n SLAB_MIN_ALIGN)]> L) ∧ same_for L h h' ∧
        ∀ a, range p n a → h_mem h' a = 0
    | None => no_memory h n
    end).
Proof using hhdm_align hhdm_high XL.
  intros Hok Hn. pose proof Hok as (B & V & Hinv & _). set (l := mk_layout n SLAB_MIN_ALIGN).
  assert (layout_ok l) as Hl by (split; cbn [l_size l_align l]; [lia|by exists 4|unfold SLAB_MIN_ALIGN; lia]).
  rewrite (kmalloc_alloc hhdm_high hhdm_align h B V n KM_ZEROED Hinv Hl) by lia.
  destruct (wp_elim _ _ (alloc_ok hhdm_high hhdm_align h L l (km_contains KM_ZEROED KM_ZEROED) Hok Hl))
    as ([h' p] & E & Hok' & Hk & Hg & _).
  fold l. rewrite E. cbn [mbind outcome_bind]. apply wp_ret. unfold gets, record in *. cbn [l_size l] in *.
  rewrite (proj2 (Z.eqb_neq n 0)) in Hok' by lia. rewrite (decide_False (P := n = 0)) in Hg by lia.
  destruct (Z.eqb_spec p 0) as [->|Hp]; [by destruct Hg as (_ & _ & ?)|]. rewrite decide_False in Hg by done.
  destruct Hg as (Hnone & _ & Hz). split; [done|]. split; [done|]. split; [|by apply Hz].
  intros q w Hq. by destruct (Hk (HPages 0 true) q w Hq ltac:(by intros [])) as [_ H].
Qed.

(** Writing to memory one holds. *)
Lemma write_owned h L p w mem' :
  heap_ok h (<[p:=w]> L) → L !! p = None → (∀ x, ¬ range p (o_size w) x → mem' x = h_mem h x) →
  heap_ok (set_mem mem' h) (<[p:=w]> L) ∧ same_for L h (set_mem mem' h).
Proof using.
  intros Hok Hn Hm. split.
  - destruct Hok as (B & V & Hinv & Hho). destruct (ho_cell _ _ _ Hho p w (lookup_insert_eq _ _ _)) as (r & Hc & Hf).
    pose proof (fits_size _ _ _ Hf). exists B, V. split; [|done]. apply (write_cell h B V p r); [done|done|].
    intros a Ha. apply Hm. unfold range in *. lia.
  - intros q w' Hq a Ha. apply Hm. intros Hr. assert (p ≠ q) as Hne by congruence.
    pose proof (owners_apart h _ p w q w' Hok (lookup_insert_eq _ _ _) ltac:(by rewrite lookup_insert_ne) Hne).
    unfold apart, range in *. lia.
Qed.

(** An object whose ninth byte is not that of the poison. *)
Lemma not_poisoned h p v : h_mem h (p + 8) = v → 0 ≤ v < 256 → v ≠ 0xEF → poisoned h p = false.
Proof using.
  intros Hv Hr Hne. unfold poisoned, node_poison. apply Z.eqb_neq. intros E. apply Hne.
  apply (f_equal (λ x, x mod 256)) in E. change (load 8 (h_mem h) (p + 8)) with (h_mem h (p + 8) + 256 * load 7 (h_mem h) (p + 8 + 1)) in E.
  rewrite (Z.mul_comm 256), Z.mod_add, Hv, Z.mod_small in E by done. exact E.
Qed.

Lemma kfree_owned h L p l :
  heap_ok h (<[p:=OHeap l]> L) → L !! p = None → small l = false ∨ poisoned h p = false →
  wp (kfree (X:=X) hhdm h p) (λ h', heap_ok h' L ∧ same_for L h h').
Proof using hhdm_align hhdm_high XL.
  intros Hok Hn Hs. pose proof (kfree_ok hhdm_high hhdm_align h _ p (OHeap l) Hok (lookup_insert_eq _ _ _)) as Hk.
  rewrite delete_insert_id in Hk by done. cbv zeta in Hk.
  destruct (kfree (X:=X) hhdm h p) as [h'|e|]; [|destruct Hk as (_ & l' & [= <-] & H1 & H2); destruct Hs; congruence|done].
  destruct Hk as (_ & Hok' & Hkeep). split; [done|]. intros q w Hq.
  apply (Hkeep q w); [|cbn [touches]; congruence]. rewrite lookup_insert_ne; [done|congruence].
Qed.

Lemma same_for_trans L h1 h2 h3 : same_for L h1 h2 → same_for L h2 h3 → same_for L h1 h3.
Proof. intros H1 H2 q w Hq a Ha. by rewrite (H2 q w), (H1 q w). Qed.

(** A test returns with the same owners and their contents, or gets no memory
    for [n] bytes. *)
Definition test_ok h L (n : Z) (t : outcome (heap P)) : Prop :=
  post t (λ h', heap_ok h' L ∧ same_for L h h') (λ e, e = PUnwrap ∧ no_memory h n).

(** Allocate, fill, check, release. *)
Lemma fill_test h L n v :
  heap_ok h L → 9 ≤ n ≤ 2 ^ 62 → 0 ≤ v < 256 → v ≠ 0xEF →
  test_ok h L n (
    '(h, r) ← kmalloc (X:=X) hhdm h n KM_ZEROED;
    p ← unwrap r;
    let h := set_mem (fill p n v (h_mem h)) h in
    _ ← check p n v (h_mem h);
    kfree (X:=X) hhdm h p).
Proof using hhdm_align hhdm_high XL.
  intros Hok Hn Hv Hne. unfold test_ok. eapply post_bind; [apply (kmalloc_cleared h L n Hok); lia|]. intros [h1 [p|]] Hp; [|done].
  destruct Hp as (Hnone & Hok1 & Hs1 & _). cbn [unwrap mbind outcome_bind]. set (w := OHeap _) in Hok1.
  destruct (write_owned h1 L p w (fill p n v (h_mem h1)) Hok1 Hnone) as [Hok2 Hs2].
  { intros x Hx. by rewrite fill_at, decide_False. }
  set (h2 := set_mem _ h1) in *. assert (∀ x, range p n x → h_mem h2 x = v) as Hm by (intros x Hx; unfold h2; cbn [h_mem set_mem]; by rewrite fill_at, decide_True).
  rewrite check_ok by done. cbn [mbind outcome_bind]. apply post_wp.
  eapply wp_mono; [apply (kfree_owned h2 L p _ Hok2 Hnone); right; apply (not_poisoned h2 p v); [|done|done]|].
  - apply Hm. unfold range. lia.
  - intros h3 [Hok3 Hs3]. split; [done|]. by do 2 (eapply same_for_trans; [done|]).
Qed.

(** Allocate, check, release. *)
Lemma zeroed_test h L n :
  heap_ok h L → 9 ≤ n ≤ 2 ^ 62 →
  test_ok h L n (
    '(h, r) ← kmalloc (X:=X) hhdm h n KM_ZEROED;
    p ← unwrap r;
    _ ← assert_zeroed p n (h_mem h);
    kfree (X:=X) hhdm h p).
Proof using hhdm_align hhdm_high XL.
  intros Hok Hn. unfold test_ok. eapply post_bind; [apply (kmalloc_cleared h L n Hok); lia|]. intros [h1 [p|]] Hp; [|done].
  destruct Hp as (Hnone & Hok1 & Hs1 & Hz). cbn [unwrap mbind outcome_bind].
  rewrite assert_zeroed_ok by done. cbn [mbind outcome_bind]. apply post_wp.
  eapply wp_mono; [apply (kfree_owned h1 L p _ Hok1 Hnone); right; apply (not_poisoned h1 p 0); [|done|done]|].
  - apply Hz. unfold range. lia.
  - intros h3 [Hok3 Hs3]. split; [done|]. by eapply same_for_trans.
Qed.

(** Why the test of a page may stop: no memory for either of its requests. *)
Definition page_test_stops h : Prop :=
  no_memory h PAGE_SIZE ∨
  ∃ h1 p, kmalloc (X:=X) hhdm h PAGE_SIZE KM_ZEROED = Ret (h1, Some p) ∧ hp_none (hhdm:=hhdm) (h_pages h1) 0.

(** The test of a page keeps one page for itself. *)
Lemma test_page_alloc_spec h L :
  heap_ok h L →
  post (test_page_alloc (X:=X) hhdm h) (λ '(h', q), L !! q = None ∧ heap_ok h' (<[q:=OPages 0]> L) ∧ same_for L h h')
    (λ e, e = PUnwrap ∧ page_test_stops h).
Proof using hhdm_align hhdm_high XL.
  intros Hok. unfold test_page_alloc, page_test_stops.
  destruct (wp_elim _ _ (kmalloc_cleared h L PAGE_SIZE Hok ltac:(done))) as ([h1 [p|]] & E & Hp); rewrite E; cbn [unwrap mbind outcome_bind];
    [|by split; [|left]].
  destruct Hp as (Hnone & Hok1 & Hs1 & Hz).
  pose proof (pages_ok (X:=X) hhdm_high h1 _ 0 false Hok1) as Ha. cbn [heap_do] in Ha.
  destruct (hp_alloc (h_pages h1) (h_mem h1) 0 KERNEL_PAGES) as [[[pages mem] [a|]]| |]; cbn [mbind outcome_bind unwrap]; try done.
  2:{ cbn [mbind outcome_bind wp] in Ha. destruct Ha as (_ & _ & Hr). rewrite decide_True in Hr by done.
      split; [done|]. right. exists h1, p. split; [done|apply Hr]. }
  cbn [mbind outcome_bind wp] in Ha. destruct Ha as (Hok2 & Hk & Hr). set (L1 := <[p:=_]> L) in *. set (h2 := set_mem _ _) in *.
  destruct (owner_place h2 _ _ _ Hok2 (lookup_insert_eq _ _ _)) as (Hlo & Hhi & _). pose proof (block_bytes_pos 0).
  cbn [o_size] in Hhi. rewrite decide_False in Hr by lia. destruct Hr as (Hn2 & _ & _).
  unfold L1 in Hn2. apply lookup_insert_None in Hn2 as [Hn2 Hne].
  unfold phys_to_virt, add64. rewrite (proj2 (Z.leb_le _ _)) by (unfold u64_max; lia). cbn [mbind outcome_bind].
  assert (same_for L1 h1 h2) as Hs2 by (intros q w Hq; apply (Hk q w Hq); by intros []).
  rewrite assert_zeroed_ok.
  2:{ intros x Hx. fold h2. rewrite (Hs2 p _ (lookup_insert_eq _ _ _)); [by apply Hz|done]. }
  cbn [mbind outcome_bind]. fold h2. unfold L1 in Hok2. rewrite insert_insert_ne in Hok2 by done.
  eapply post_bind; [apply (kfree_owned h2 _ p _ Hok2); [by rewrite lookup_insert_ne|by left]|]. intros h3 [Hok3 Hs3].
  cbn [post]. split; [done|]. split; [done|]. eapply same_for_trans; [exact Hs1|]. eapply same_for_trans.
  - intros q w Hq. apply (Hs2 q w). unfold L1. rewrite lookup_insert_ne; [done|congruence].
  - intros q w Hq. apply (Hs3 q w). rewrite lookup_insert_ne; [done|congruence].
Qed.

(** Why the tests may stop: one of them, in the state the ones before it leave,
    gets no memory. *)
Definition run_all_stops h : Prop :=
  no_memory h 64 ∨
  ∃ h1, test_basic_alloc (X:=X) hhdm h = Ret h1 ∧ (no_memory h1 128 ∨
  ∃ h2, test_zeroed_alloc (X:=X) hhdm h1 = Ret h2 ∧ (no_memory h2 15 ∨
  ∃ h3, test_small_alloc (X:=X) hhdm h2 = Ret h3 ∧ page_test_stops h3)).

(** Whatever the state of the heap, the tests pass or get no memory. *)
Lemma run_all_spec h L :
  heap_ok h L →
  post (run_all (X:=X) hhdm h) (λ '(h', q), L !! q = None ∧ heap_ok h' (<[q:=OPages 0]> L) ∧ same_for L h h')
    (λ e, e = PUnwrap ∧ run_all_stops h).
Proof using hhdm_align hhdm_high XL.
  intros Hok. unfold run_all, run_all_stops.
  assert (test_ok h L 64 (test_basic_alloc (X:=X) hhdm h)) as T1 by by apply (fill_test h L 64 0xAA).
  destruct (test_basic_alloc hhdm h) as [h1| |]; [|split; [apply T1|left; apply T1]|done]. destruct T1 as [Hok1 Hs1].
  cbn [mbind outcome_bind]. assert (test_ok h1 L 128 (test_zeroed_alloc (X:=X) hhdm h1)) as T2 by by apply (zeroed_test h1 L 128).
  destruct (test_zeroed_alloc hhdm h1) as [h2| |] eqn:E2; [|split; [apply T2|right; exists h1; split; [done|left; apply T2]]|done].
  destruct T2 as [Hok2 Hs2]. cbn [mbind outcome_bind].
  assert (test_ok h2 L 15 (test_small_alloc (X:=X) hhdm h2)) as T3 by by apply (fill_test h2 L 15 0x11).
  destruct (test_small_alloc hhdm h2) as [h3| |] eqn:E3;
    [|split; [apply T3|right; exists h1; split; [done|right; exists h2; split; [done|left; apply T3]]]|done].
  destruct T3 as [Hok3 Hs3]. cbn [mbind outcome_bind].
  eapply post_weaken; [eapply post_mono; [by apply test_page_alloc_spec|]|].
  - intros [h4 q] (Hn & Hok4 & Hs4). split; [done|]. split; [done|]. by do 3 (eapply same_for_trans; [done|]).
  - intros e [-> Hs]. split; [done|]. right. exists h1. split; [done|]. right. exists h2. split; [done|]. right. by exists h3.
Qed.
End proofs.

(** ** The start *)

(** [static SLAB] before [slab_init]. *)
Definition SLAB : SlabAllocator := slab_new ZoneId.High.

(** [init_physical_memory] up to the tests. *)
Definition init_allocators (hhdm : Z) (mmap : list Entry) (mem : Z → Z) : outcome (heap zpages) :=
  r ← initialize_memblock_from_mm mmap;
  memblock ← expect_ok r;
  '(_, sm) ← init_sparsemem_layer hhdm memblock;
  '(mgr, sm) ← init_zones_manager sm;
  slab_init (mk_heap SLAB (mk_zpages hhdm mgr sm) mem).

(** The feature [pmm_tests] decides about the tests; the default build has it.
    The second result records the page that they keep. *)
Definition init_physical_memory {PT} {X : X86_64 PT} (pmm_tests : bool) (hhdm : Z) (mmap : list Entry) (mem : Z → Z)
    : outcome (heap zpages * ledger) :=
  h ← init_allocators hhdm mmap mem;
  if pmm_tests then
    '(h, page) ← run_all (X:=X) hhdm h;
    Ret (h, {[page := OPages 0]})
  else Ret (h, ∅).

(** Maps the development covers: well-formed, usable memory below 512 GiB. *)
Record bootable (mmap : list Entry) : Prop := {
  bo_ok : mmap_ok mmap;
  bo_low : ∀ e, e ∈ mmap → entry_type e = EntryType.USABLE →
    entry_base e + entry_length e ≤ MAX_SECTIONS * SECTION_SIZE;
  bo_usable : ∃ e, e ∈ mmap ∧ entry_type e = EntryType.USABLE
}.

(** The direct map is at the top half and aligned to the largest block. *)
Record hhdm_ok (hhdm : Z) : Prop := {
  hh_high : 2 ^ 64 - 2 ^ 47 ≤ hhdm;
  hh_room : hhdm + 2 ^ 40 ≤ u64_max;
  hh_align : (MAX_BLOCK | hhdm)
}.

(** The heap after boot. *)
Definition fresh_heap (hhdm : Z) (h : heap zpages) : Prop :=
  hp_out (hhdm:=hhdm) (h_pages h) ∅ ∧ sa_caches (h_slab h) = fresh_cache <$> seq 0 NCLASSES.

(** Why boot may stop. *)
Definition boot_panic (hhdm : Z) (mmap : list Entry) (p : panic) : Prop :=
  initialize_memblock_from_mm mmap = Ret (Err OutOfSlots) ∧ p = PUnwrap ∨
  ∃ mb, initialize_memblock_from_mm mmap = Ret (Ok mb) ∧
    (expected_panic mb p ∨
     p = PAssert ∧ ∃ mb' sm, init_sparsemem_layer hhdm mb = Ret (mb', sm) ∧ max_present_pfn sm < DMA_LIMIT_PFN).

Lemma built_iterable mb s : built mb s → iterable s.
Proof. intros [_ Hc _ _ [Hm Hall] _]. by split. Qed.

(** Frames exist only below 512 GiB. *)
Lemma built_limit mb s : mb_ready mb → built mb s → max_present_pfn s ≤ 2 ^ 27.
Proof.
  intros Hrd Hbt. destruct (bt_max_pfn _ _ Hbt) as (_ & _ & [Hz|(f & Hf & _)]); unfold max_present_pfn in *; [lia|].
  assert (pfn_present s (cached_max_pfn s - 1) = true) as [H0 Hsec]%pfn_present_spec by (apply pfn_to_frame_present; eauto).
  apply (bt_present _ _ Hbt) in Hsec as (q & Hq & Eq).
  pose proof (mem_page_section mb q (ready_tables mb Hrd) Hq) as Hb. rewrite Eq, pfn_to_section_div in Hb.
  destruct (ready_max_phys mb Hrd) as (Hmp & _).
  assert (sections_for (max_phys_addr mb) ≤ 4096) as Hs.
  { unfold sections_for. assert ((max_phys_addr mb - 1) / SECTION_SIZE < 4096); [|lia].
    apply Z.div_lt_upper_bound; unfold MAX_SECTIONS in *; [done|lia]. }
  pose proof (Z.mul_succ_div_gt (cached_max_pfn s - 1) PAGES_PER_SECTION ltac:(done)).
  unfold PAGES_PER_SECTION in *. lia.
Qed.

Lemma init_zones_small s : max_present_pfn s < DMA_LIMIT_PFN → init_zones_manager s = Panic PAssert.
Proof.
  intros Hlt. unfold init_zones_manager. destruct (Z.ltb_spec 0 (max_present_pfn s)); [|done]. cbn [assert mbind outcome_bind].
  by rewrite (proj2 (Z.leb_gt _ _) Hlt).
Qed.

(** From a well-formed memory map the allocators either start with a heap that
    has handed out nothing, every size class empty, or stop for one of three
    reasons: a region table is full, no region can hold the frame metadata, or
    there is no memory above 16 MiB. *)
Lemma init_allocators_spec hhdm mmap mem :
  bootable mmap → hhdm_ok hhdm →
  post (init_allocators hhdm mmap mem) (fresh_heap hhdm) (boot_panic hhdm mmap).
Proof.
  intros [Hmm Hlow Hex] [Hhigh Hroom Hal]. unfold init_allocators.
  destruct (wp_elim _ _ (initialize_spec mmap Hmm)) as (r & E & Hr). rewrite E. cbn [mbind outcome_bind].
  destruct r as [mb|e]; [|subst e; by left]. pose proof (boot_ready mmap mb Hmm Hlow Hex E) as Hrd.
  apply (post_bind _ _ (λ x, x = mb)); [done|]. intros ? ->.
  pose proof (init_sparsemem_layer_spec hhdm mb Hrd ltac:(lia) Hroom) as Hs.
  destruct (init_sparsemem_layer hhdm mb) as [[mb' s]|p|] eqn:Es; [| |done].
  2:{ right. exists mb. split; [done|]. by left. }
  destruct Hs as (Hrd' & Hbt & _). pose proof (built_limit _ _ Hrd' Hbt) as Hlim. cbn [mbind outcome_bind].
  pose proof (bt_max_pfn _ _ Hbt) as (Hmx & _ & _). change (cached_max_pfn s) with (max_present_pfn s) in Hmx.
  destruct (decide (DMA_LIMIT_PFN ≤ max_present_pfn s)) as [Hdma|Hdma].
  - destruct (wp_elim _ _ (init_zones_manager_spec s (built_iterable _ _ Hbt) ltac:(lia)))
      as ([mgr s'] & Ez & _ & _ & G & Hm & Hna & _). rewrite Ez. cbn [mbind outcome_bind].
    unfold slab_init. cbn [h_slab h_pages h_mem]. unfold SLAB. rewrite slab_init_caches. cbn [mbind outcome_bind post].
    split; [|done]. split; [done|]. split; [done|]. split; [lia|]. exists (max_present_pfn s), G.
    split; [done|]. split; [lia|]. split; [unfold PAGE_SIZE, u64_max in *; lia|]. intros p o. split; [done|].
    intros (id & head & _ & Hh'). by apply Hna in Hh'.
  - rewrite init_zones_small by lia. right. exists mb. split; [done|]. right. split; [done|].
    exists mb', s. split; [done|]. lia.
Qed.

(** ** A sample machine: 32 MiB from 1 MiB on *)

Definition boot_mmap : list Entry := [mk_entry 0x100000 0x2000000 EntryType.USABLE].
Definition BOOT_HHDM : Z := 0xFFFF800000000000.

Lemma boot_mmap_bootable : bootable boot_mmap.
Proof.
  split.
  - split; [|vm_compute; lia..]. apply Forall_cons. split; [unfold PHYS_LIMIT; simpl; lia|]. by apply Forall_nil.
  - intros e ->%list_elem_of_singleton _. vm_compute. done.
  - eexists. split; [by left|done].
Qed.

Lemma boot_hhdm_ok : hhdm_ok BOOT_HHDM.
Proof. split; [vm_compute; done|vm_compute; done|]. exists (BOOT_HHDM / MAX_BLOCK). vm_compute. reflexivity. Qed.

Definition boot_memblock : Memblock :=
  match initialize_memblock_from_mm boot_mmap with
  | Ret (Ok mb) => mb
  | _ => memblock_new
  end.

Lemma boot_memblock_eq : initialize_memblock_from_mm boot_mmap = Ret (Ok boot_memblock).
Proof. vm_compute. reflexivity. Qed.

Lemma boot_regions : memory_regions boot_memblock = [mk_region 0x100000 0x2000000 MemblockType.Usable] ∧
  reserved_regions boot_memblock = [].
Proof. vm_compute. done. Qed.

Lemma boot_metadata : metadata_bytes boot_memblock < 0x200000.
Proof. vm_compute. done. Qed.

Lemma boot_covers a : 0x100000 ≤ a < 0x2100000 → covers (memory_regions boot_memblock) a.
Proof.
  intros Ha. destruct boot_regions as [-> _]. eexists. split; [by left|]. unfold in_region.
  change (mr_end (mk_region 0x100000 0x2000000 MemblockType.Usable)) with 0x2100000. cbn [mr_base]. lia.
Qed.

(** The metadata finds room. *)
Lemma boot_no_panic p : ¬ expected_panic boot_memblock p.
Proof.
  intros [_ [Hno|(rb & rs & mb' & Hf & Hr)]].
  - specialize (Hno (mk_region 0x100000 0x2000000 MemblockType.Usable)). destruct boot_regions as [E _].
    rewrite E in Hno. specialize (Hno ltac:(by left)). pose proof boot_metadata as Hmd.
    assert (align_up_to 0x100000 PAGE_SIZE = 0x100000) as Ea by done. cbn [mr_base] in Hno. rewrite Ea in Hno.
    unfold mr_end, sat_add64 in Hno. cbn [mr_base mr_size] in Hno. unfold u64_max in Hno. lia.
  - assert (find_suitable_region boot_memblock (metadata_bytes boot_memblock) = Ret (Some (0x100000, 0x2000000))) as Hf'
      by (vm_compute; reflexivity). rewrite Hf' in Hf. injection Hf as <- <-.
    revert Hr. vm_compute. congruence.
Qed.

(** A usable frame above 16 MiB. *)
Lemma boot_usable mb0 mb s base :
  metadata_bytes mb0 < 0x200000 → (∀ a, 0x100000 ≤ a < 0x2100000 → covers (memory_regions mb0) a) →
  reserved_regions mb0 = [] → mb_ready mb → built mb s → metadata_at mb0 mb base →
  ∃ q, DMA_LIMIT_PFN ≤ q < max_present_pfn s ∧ usable s q.
Proof.
  intros Hmd Hcov Er Hrd Hbt [_ Hm Hr].
  assert (∃ q, 4200 ≤ q < 32768 ∧ (∀ a, a / PAGE_SIZE = q → ¬ (base ≤ a < base + metadata_bytes mb0)) ∧
    q * PAGE_SIZE < 0x2100000) as (q & Hq & Hno & Hlt).
  { destruct (decide (base - 4096 < 4200 * 4096 < base + metadata_bytes mb0)) as [Hd|Hd]; [exists 8000|exists 4200];
      (split; [lia|]); (split; [|unfold PAGE_SIZE; lia]); intros a Ha Hin;
      pose proof (Z.div_mod a PAGE_SIZE ltac:(done)); pose proof (Z.mod_pos_bound a PAGE_SIZE ltac:(done));
      unfold PAGE_SIZE in *; lia. }
  assert (q * PAGE_SIZE / PAGE_SIZE = q) as Eq by (by rewrite Z.div_mul).
  assert (SparsememSpec.page_of (memory_regions mb) q) as Hpq.
  { rewrite <-Eq. apply covers_page; [apply (norm_memory _ (rd_norm _ Hrd))|]. apply Hm. split; [|split].
    - apply Hcov. unfold PAGE_SIZE in *. lia.
    - rewrite Er. by intros (? & ?%elem_of_nil & _).
    - by apply Hno. }
  assert (¬ SparsememSpec.page_of (reserved_regions mb) q) as Hnr.
  { intros (a & Ha & Hca)%page_covers; [|apply (norm_reserved _ (rd_norm _ Hrd))]. apply Hr in Hca as [Hc|Hc].
    - rewrite Er in Hc. by destruct Hc as (? & ?%elem_of_nil & _).
    - by apply (Hno a). }
  assert (pfn_present s q = true) as (f & Hf)%pfn_to_frame_present.
  { apply pfn_present_spec. split; [lia|]. apply (bt_present _ _ Hbt). by exists q. }
  assert (f_state f = FrameState.Usable) as Hu.
  { rewrite (bt_state _ _ Hbt q f Hf), decide_False, decide_True by done. done. }
  exists q. split; [|by exists f]. destruct (bt_max_pfn _ _ Hbt) as (_ & Hmax & _). split; [unfold DMA_LIMIT_PFN; lia|].
  apply Hmax. exists f. split; [done|]. by rewrite Hu.
Qed.

Lemma boot_never_stops p : ¬ boot_panic BOOT_HHDM boot_mmap p.
Proof.
  intros [[E _]|(mb & E & Hp)]; rewrite boot_memblock_eq in E; [discriminate E|]. injection E as <-.
  destruct Hp as [Hp|(_ & mb' & s & Es & Hlt)]; [exact (boot_no_panic _ Hp)|].
  destruct boot_mmap_bootable as [Hmm Hlow Hex]. pose proof (boot_ready _ _ Hmm Hlow Hex boot_memblock_eq) as Hrd.
  destruct boot_hhdm_ok as [_ Hroom _].
  pose proof (init_sparsemem_layer_spec BOOT_HHDM boot_memblock Hrd eq_refl Hroom) as Hs. rewrite Es in Hs.
  destruct Hs as (Hrd' & Hbt & base & _ & Hmd). destruct (boot_usable _ _ _ _ boot_metadata boot_covers (proj2 boot_regions) Hrd' Hbt Hmd) as (q & Hq & _).
  clear -Hq Hlt. lia.
Qed.

Lemma boot_runs mem : ∃ h, init_allocators BOOT_HHDM boot_mmap mem = Ret h.
Proof.
  pose proof (init_allocators_spec BOOT_HHDM boot_mmap mem boot_mmap_bootable boot_hhdm_ok) as Hp.
  destruct (init_allocators BOOT_HHDM boot_mmap mem) as [h|p|]; [by exists h| |done]. by destruct (boot_never_stops p).
Qed.

(** ** Its first page *)

Lemma boot_state hhdm mmap mem h :
  bootable mmap → hhdm_ok hhdm → init_allocators hhdm mmap mem = Ret h →
  ∃ mb mb' s base mgr s', initialize_memblock_from_mm mmap = Ret (Ok mb) ∧ mb_ready mb' ∧ built mb' s ∧
    metadata_at mb mb' base ∧ init_zones_manager s = Ret (mgr, s') ∧ h_pages h = mk_zpages hhdm mgr s'.
Proof.
  intros [Hmm Hlow Hex] [Hhigh Hroom _]. unfold init_allocators.
  destruct (initialize_memblock_from_mm mmap) as [[mb|e]| |] eqn:E; try discriminate. cbn [mbind outcome_bind expect_ok].
  pose proof (boot_ready _ _ Hmm Hlow Hex E) as Hrd.
  pose proof (init_sparsemem_layer_spec hhdm mb Hrd ltac:(lia) Hroom) as Hs.
  destruct (init_sparsemem_layer hhdm mb) as [[mb' s]|p|]; try discriminate. cbn [mbind outcome_bind].
  destruct Hs as (Hrd' & Hbt & base & _ & Hmd).
  destruct (init_zones_manager s) as [[mgr s']| |] eqn:Ez; try discriminate. cbn [mbind outcome_bind].
  unfold slab_init, SLAB. cbn [h_slab h_pages h_mem]. rewrite slab_init_caches. cbn [mbind outcome_bind].
  intros [= <-]. by exists mb, mb', s, base, mgr, s'.
Qed.

Lemma free_block_unique lim lim' mgr s G G' id p o :
  mgr_inv lim mgr s G → mgr_inv lim' mgr s G' →
  G id !! p = Some (BuddyTag.Free, o) → G' id !! p = Some (BuddyTag.Free, o).
Proof.
  intros Hm Hm' Hp. destruct (mgr_lookup _ _ _ _ id Hm) as [[z|] Hz].
  2:{ by rewrite (mi_none _ _ _ _ Hm id Hz), lookup_empty in Hp. }
  destruct (mi_zone _ _ _ _ Hm _ _ Hz) as [_ _ _ ([L HR] & _ & _) _].
  destruct (mi_zone _ _ _ _ Hm' _ _ Hz) as [_ _ _ ([L' HR'] & _ & _) _].
  assert (in_zone (z_alloc z) p) as Hin.
  { apply (block_in_zone (FS:=sparse_store) (z_alloc z) s (G id) p BuddyTag.Free o);
      [exact (rep_blocks _ _ _ _ _ HR)|exact Hp|apply in_block_head]. }
  rewrite <-(rep_heads _ _ _ _ _ HR' p Hin) by tauto. by rewrite (rep_heads _ _ _ _ _ HR p Hin) by tauto.
Qed.


Lemma zones_have_pages mb s mgr s' q hhdm :
  built mb s → init_zones_manager s = Ret (mgr, s') → DMA_LIMIT_PFN ≤ q < max_present_pfn s → usable s q →
  ¬ zpages_none (mk_zpages hhdm mgr s') 0.
Proof.
  intros Hbt Ez Hq Hu. pose proof (bt_max_pfn _ _ Hbt) as (Hmx & _ & _).
  change (cached_max_pfn s) with (max_present_pfn s) in Hmx.
  destruct (wp_elim _ _ (init_zones_manager_spec s (built_iterable _ _ Hbt) ltac:(lia))) as ([? ?] & Ez' & Hbo).
  rewrite Ez in Ez'. injection Ez' as <- <-. destruct Hbo as (_ & _ & G & Hm & _ & _ & HF & _).
  assert (free_at (G ZoneId.High) q) as (p & o & Hp & _)%free_at_spec by by apply HF.
  intros (lim & G' & Hm' & Hno). apply Hno. exists p, o. split; [lia|].
  exact (free_block_unique _ _ _ _ _ _ _ _ _ Hm Hm' Hp).
Qed.

Lemma boot_has_pages mem h :
  init_allocators BOOT_HHDM boot_mmap mem = Ret h → ¬ zpages_none (h_pages h) 0.
Proof.
  intros E. destruct (boot_state _ _ _ _ boot_mmap_bootable boot_hhdm_ok E)
    as (mb & mb' & s & base & mgr & s' & Emb & Hrd & Hbt & Hmd & Ez & ->).
  rewrite boot_memblock_eq in Emb. injection Emb as <-.
  destruct (boot_usable _ _ _ _ boot_metadata boot_covers (proj2 boot_regions) Hrd Hbt Hmd) as (q & Hq & Hu).
  exact (zones_have_pages mb' s mgr s' q _ Hbt Ez Hq Hu).
Qed.
