(* ===== verification/PerCpu.v ===== *)
(** * Per-CPU memory

    Models kernel/src/arch/amd64/cpu/smp: percpu.rs (a region of memory for
    every CPU, filled from the [.percpu] section), the accessors that macros.rs
    generates, which address a variable relative to the GS base, and the
    preemption guard of preempt.rs.  The pages come from the interface
    [HeapPages], and the symbols of the linker script are a record. *)
From S2P Require Import Memblock Sparsemem Zones Paging.
From S2P Require Import Prelude Misc Frame ByteMem Slab SlabHeap ZonesHeap PhysMem PagingRef.
#[local] Open Scope Z_scope.

(** The symbols that linker-x86_64.ld defines around the section. *)
Record linker := mk_linker {
  percpu_start : Z;
  percpu_data_end : Z;
  percpu_end : Z;
  percpu_load : Z;
  percpu_vma_base : Z
}.

Record PerCpuTemplate := mk_template { data_size : Z; bss_size : Z; total_size : Z; load_ptr : Z }.

Definition align_up_usize (x align : Z) : outcome Z :=
  s ← add64 x align;
  s ← sub64 s 1;
  m ← sub64 align 1;
  Ret (Z.land s (not64 m)).

Definition percpu_template (ls : linker) : outcome PerCpuTemplate :=
  data_size ← sub64 (percpu_data_end ls) (percpu_start ls);
  bss_size ← sub64 (percpu_end ls) (percpu_data_end ls);
  s ← add64 data_size bss_size;
  total_size ← align_up_usize s PAGE_SIZE;
  Ret (mk_template data_size bss_size total_size (percpu_load ls)).

Definition construct_region_from_template (dst : Z) (tpl : PerCpuTemplate) (mem : Z → Z) : Z → Z :=
  let mem := copy_bytes (load_ptr tpl) dst (data_size tpl) mem in
  fill (dst + data_size tpl) (bss_size tpl) 0 mem.

(** [usize::next_power_of_two]. *)
Definition next_power_of_two (x : Z) : outcome Z :=
  let p := 2 ^ Z.log2_up x in
  if p <=? u64_max then Ret p else Panic POverflow.

Section regions.
Context {P PT : Type} {HP : HeapPages P} `{!X86_64 PT} (hhdm : Z) (ls : linker).

Definition alloc_percpu_region (p : P) (mem : Z → Z) (total_size : Z) : outcome (P * (Z → Z) * Z) :=
  s ← add64 total_size PAGE_SIZE;
  s ← sub64 s 1;
  let pages := s / PAGE_SIZE in
  if pages =? 1 then
    '(p, mem, r) ← hp_alloc p mem 0 SAFE_KERNEL_PAGES;
    phys ← unwrap r;
    va ← phys_to_virt hhdm phys;
    va ← virt_new va;
    Ret (p, mem, va)
  else
    n ← next_power_of_two pages;
    let order := Z.to_nat (trailing_zeros n) in
    '(p, mem, r) ← hp_alloc p mem order SAFE_KERNEL_PAGES;
    phys ← unwrap r;
    va ← phys_to_virt hhdm phys;
    va ← virt_new va;
    Ret (p, mem, va).

(** [cpu_count] is the number of CPUs in the ACPI tables; the regions are
    their base addresses. *)
Definition init_percpu_regions (cpu_count : nat) (p : P) (mem : Z → Z) : outcome (P * (Z → Z) * list Z) :=
  tpl ← percpu_template ls;
  for_range 0 cpu_count (λ _ '(p, mem, regions),
    '(p, mem, base) ← alloc_percpu_region p mem (total_size tpl);
    let mem := construct_region_from_template base tpl mem in
    Ret (p, mem, regions ++ [base])) (p, mem, []).

(** The value written to both GS base registers. *)
Definition set_gsbase_for_percpu_region (region_base : Z) : outcome Z :=
  let kgs_delta := wrap64 (region_base - percpu_vma_base ls) in
  let hi := Z.shiftr kgs_delta 48 in
  if negb (hi =? 0) && negb (hi =? 0xFFFF) then Panic PExplicit
  else Ret kgs_delta.

End regions.

(** ** The accessors *)

(** [gs] is the GS base of the CPU, [sym] the address of the variable and [n]
    its size in bytes. *)
Definition percpu_ptr (gs sym : Z) : Z := wrap64 (gs + sym).
Definition get_per_cpu (n : nat) (gs sym : Z) (mem : Z → Z) : Z := load n mem (percpu_ptr gs sym).
Definition set_per_cpu (n : nat) (gs sym v : Z) (mem : Z → Z) : Z → Z := store n (percpu_ptr gs sym) v mem.
Definition inc_per_cpu (n : nat) (gs sym : Z) (mem : Z → Z) : Z → Z :=
  let p := percpu_ptr gs sym in
  store n p ((load n mem p + 1) mod 256 ^ Z.of_nat n) mem.
Definition dec_per_cpu (n : nat) (gs sym : Z) (mem : Z → Z) : Z → Z :=
  let p := percpu_ptr gs sym in
  store n p ((load n mem p - 1) mod 256 ^ Z.of_nat n) mem.

(** [PreemptGuard::new] and its [drop] around [f]; [count] is the address of
    [PREEMPT_COUNT]. *)
Definition with_guard (gs count : Z) (f : (Z → Z) → (Z → Z)) (mem : Z → Z) : Z → Z :=
  let mem := inc_per_cpu 8 gs count mem in
  let mem := f mem in
  dec_per_cpu 8 gs count mem.

(** ** Regions *)

(** The section as linker-x86_64.ld lays it out. *)
Record linker_ok (l : linker) : Prop := {
  lk_order : 0 ≤ percpu_start l ≤ percpu_data_end l ∧ percpu_data_end l ≤ percpu_end l ≤ u64_max;
  lk_size : percpu_end l - percpu_start l ≤ 2 ^ 48;
  lk_base : percpu_vma_base l = percpu_start l
}.

Definition section_size (l : linker) : Z := percpu_end l - percpu_start l.
Definition data_bytes (l : linker) : Z := percpu_data_end l - percpu_start l.

Lemma percpu_template_spec l :
  linker_ok l →
  wp (percpu_template l) (λ t, data_size t = data_bytes l ∧ bss_size t = section_size l - data_bytes l ∧
    load_ptr t = percpu_load l ∧ section_size l ≤ total_size t ≤ 2 ^ 49 ∧ (PAGE_SIZE | total_size t)).
Proof.
  intros [Ho Hs _]. unfold percpu_template, section_size, data_bytes. apply wp_bind, wp_sub64; [lia|].
  apply wp_bind, wp_sub64; [lia|]. apply wp_bind, wp_add64; [lia|]. apply wp_bind.
  set (x := percpu_data_end l - percpu_start l + (percpu_end l - percpu_data_end l)). assert (0 ≤ x ≤ 2 ^ 48) as Hx by (unfold x; lia).
  change (align_up_usize x PAGE_SIZE) with (align_up x (2 ^ 12)).
  pose proof (align_up_to_spec x (2 ^ 12) ltac:(lia)) as [Ha Hm].
  apply wp_align_up; [lia|lia|unfold u64_max; lia|]. apply wp_ret. cbn [data_size bss_size total_size load_ptr].
  split; [done|]. split; [lia|]. split; [done|]. split; [unfold x in *; lia|]. by apply Z.mod_divide.
Qed.

Lemma trailing_zeros_pow2 k : 0 ≤ k → trailing_zeros (2 ^ k) = k.
Proof.
  intros Hk. pattern k. apply natlike_ind; [done| |done]. clear k Hk. intros k Hk IH. rewrite Z.pow_succ_r by done.
  pose proof (Z.pow_pos_nonneg 2 k ltac:(lia) Hk). destruct (2 ^ k) as [|q|q]; [lia| |lia].
  change (2 * Z.pos q) with (Z.pos (xO q)). unfold trailing_zeros in *. cbn [pos_trailing_zeros]. lia.
Qed.

Lemma wp_next_power_of_two x (Q : Z → Prop) :
  0 ≤ x ≤ 2 ^ 60 → (∀ k, 0 ≤ k → x ≤ 2 ^ k → Q (2 ^ k)) → wp (next_power_of_two x) Q.
Proof.
  intros Hx HQ. unfold next_power_of_two. pose proof (Z.log2_up_nonneg x).
  assert (Z.log2_up x ≤ 60) by (destruct (decide (x = 0)) as [->|]; [done|]; apply Z.log2_up_le_pow2; lia).
  assert (2 ^ Z.log2_up x ≤ 2 ^ 60) by (apply Z.pow_le_mono_r; lia).
  rewrite (proj2 (Z.leb_le _ _)) by (unfold u64_max; lia). apply wp_ret, HQ; [done|].
  destruct (decide (x ≤ 1)) as [Hs|Hs]; [|apply Z.log2_up_spec; lia].
  pose proof (Z.pow_pos_nonneg 2 (Z.log2_up x)). lia.
Qed.

Section percpu.
Context {P PT : Type} {HP : HeapPages P} `{!X86_64 PT} {XL : X86_64Laws PT} (hhdm : Z) {HL : HeapPagesLaws P hhdm}.
Context (ls : linker) (Hls : linker_ok ls).
Implicit Types (B : gmap Z nat).

(** The direct map is in the upper half of the address space, and the image of
    the section is not in pages that the allocator hands out. *)
Context (Hhigh : 2 ^ 64 - 2 ^ 47 ≤ hhdm).
Context (Himage : ∀ p B a o, hp_out p B → B !! a = Some o → apart (a + hhdm) (block_bytes o) (percpu_load ls) (data_bytes ls)).

Lemma alloc_order_spec p mem B o T :
  hp_out p B → 0 ≤ T ≤ block_bytes o →
  post ('(p, mem, r) ← hp_alloc p mem o SAFE_KERNEL_PAGES;
        phys ← unwrap r;
        va ← phys_to_virt hhdm phys;
        va ← virt_new va;
        Ret (p, mem, va))
    (λ '(p', mem', base), ∃ a o', base = a + hhdm ∧ B !! a = None ∧ hp_out p' (<[a:=o']> B) ∧ T ≤ block_bytes o' ∧
       ∀ x, mem' x = if decide (range (a + hhdm) (block_bytes o') x) then 0 else mem x)
    (λ e, e = PUnwrap).
Proof.
  intros Hout HT. eapply post_bind; [by apply (hp_alloc_law p mem B o SAFE_KERNEL_PAGES); [|right]|].
  intros [[p' mem'] [a|]]; [|done]. intros (Hn & Hout' & _ & _ & Hmem). cbn [unwrap]. eapply post_bind; [by apply wp_ret with (Q := λ x, x = a)|].
  intros ? ->. destruct (hp_out_place p' _ a o Hout' (lookup_insert_eq _ _ _)) as (Ha & _ & _ & Hend).
  assert (0 < block_bytes o) by (unfold block_bytes, PAGE_SIZE; lia).
  eapply post_bind; [apply (wp_add64 a hhdm (λ x, x = a + hhdm)); [unfold u64_max; lia|done]|]. intros ? ->.
  eapply post_bind; [rewrite virt_new_law, bool_decide_true by (right; lia); by apply wp_ret with (Q := λ x, x = a + hhdm)|].
  intros ? ->. exists a, o. repeat split; try done; [lia|]. intros x. rewrite Hmem. repeat case_decide; naive_solver.
Qed.

Lemma alloc_region_spec p mem B T :
  hp_out p B → 0 ≤ T ≤ 2 ^ 49 → (PAGE_SIZE | T) →
  post (alloc_percpu_region (PT:=PT) hhdm p mem T)
    (λ '(p', mem', base), ∃ a o, base = a + hhdm ∧ B !! a = None ∧ hp_out p' (<[a:=o]> B) ∧ T ≤ block_bytes o ∧
       ∀ x, mem' x = if decide (range (a + hhdm) (block_bytes o) x) then 0 else mem x)
    (λ e, e = PUnwrap).
Proof.
  intros Hout HT [n Hn]. unfold alloc_percpu_region.
  eapply post_bind; [apply (wp_add64 _ _ (λ x, x = T + PAGE_SIZE)); [unfold PAGE_SIZE, u64_max; lia|done]|]. intros ? ->.
  eapply post_bind; [apply (wp_sub64 _ _ (λ x, x = T + PAGE_SIZE - 1)); [unfold PAGE_SIZE; lia|done]|]. intros ? ->.
  assert ((T + PAGE_SIZE - 1) / PAGE_SIZE = n) as ->.
  { replace (T + PAGE_SIZE - 1) with (PAGE_SIZE - 1 + n * PAGE_SIZE) by lia. rewrite Z.div_add by done. done. }
  assert (0 ≤ n ≤ 2 ^ 37) as Hnb by (unfold PAGE_SIZE in *; lia).
  destruct (Z.eqb_spec n 1) as [->|_]; [apply alloc_order_spec; [done|unfold block_bytes; lia]|].
  eapply post_bind; [apply (wp_next_power_of_two n (λ x, ∃ k, 0 ≤ k ∧ n ≤ 2 ^ k ∧ x = 2 ^ k)); [lia|eauto]|].
  intros ? (k & Hk & Hle & ->). rewrite trailing_zeros_pow2 by done. cbv zeta. apply alloc_order_spec; [done|].
  unfold block_bytes. rewrite Z2Nat.id by done. unfold PAGE_SIZE in *. nia.
Qed.

(** The region at [base] is a copy of the section: data from the image, and
    zeros. *)
Definition fresh_copy (mem0 mem : Z → Z) (base : Z) : Prop :=
  ∀ k, 0 ≤ k < section_size ls → mem (base + k) = if decide (k < data_bytes ls) then mem0 (percpu_load ls + k) else 0.

(** The blocks [Bn] are [B] and those of the regions. *)
Record regions_ok (B : gmap Z nat) (mem0 : Z → Z) (p : P) (mem : Z → Z) (regions : list Z) (Bn : gmap Z nat) : Prop := {
  ro_out : hp_out p Bn;
  ro_old : B ⊆ Bn;
  ro_blocks : ∀ i base, regions !! i = Some base →
    ∃ o, Bn !! (base - hhdm) = Some o ∧ B !! (base - hhdm) = None ∧ section_size ls ≤ block_bytes o;
  ro_nodup : NoDup regions;
  ro_copies : ∀ i base, regions !! i = Some base → fresh_copy mem0 mem base;
  ro_mem : ∀ x, (∀ a o, Bn !! a = Some o → B !! a = None → ¬ range (a + hhdm) (block_bytes o) x) → mem x = mem0 x
}.

Lemma construct_at base tpl mem x :
  0 ≤ data_size tpl → 0 ≤ bss_size tpl →
  construct_region_from_template base tpl mem x =
    if decide (range base (data_size tpl) x) then mem (load_ptr tpl + (x - base))
    else if decide (range (base + data_size tpl) (bss_size tpl) x) then 0 else mem x.
Proof.
  intros Hd Hb. unfold construct_region_from_template. rewrite fill_at, copy_bytes_at.
  repeat case_decide; try done. unfold range in *. lia.
Qed.

Lemma regions_add B mem0 p mem regions Bn tpl p' mem' a o :
  data_size tpl = data_bytes ls → bss_size tpl = section_size ls - data_bytes ls → load_ptr tpl = percpu_load ls →
  regions_ok B mem0 p mem regions Bn → Bn !! a = None → hp_out p' (<[a:=o]> Bn) → section_size ls ≤ block_bytes o →
  (∀ x, mem' x = if decide (range (a + hhdm) (block_bytes o) x) then 0 else mem x) →
  regions_ok B mem0 p' (construct_region_from_template (a + hhdm) tpl mem') (regions ++ [a + hhdm]) (<[a:=o]> Bn).
Proof.
  intros Hd Hb Hl [r1 r2 r3 r4 r5 r6] Hn Hout Hsz Hmem. pose proof Hls as [Hlo _ _].
  assert (0 ≤ data_bytes ls ≤ section_size ls) as Hds by (unfold data_bytes, section_size; lia).
  assert (∀ x, construct_region_from_template (a + hhdm) tpl mem' x =
    if decide (range (a + hhdm) (data_bytes ls) x) then mem' (percpu_load ls + (x - (a + hhdm)))
    else if decide (range (a + hhdm) (block_bytes o) x) then 0 else mem x) as Hc.
  { intros x. rewrite construct_at by lia. rewrite Hd, Hb, Hl, (Hmem x). repeat case_decide; try done; unfold range in *; lia. }
  assert (∀ x, ¬ range (a + hhdm) (block_bytes o) x → construct_region_from_template (a + hhdm) tpl mem' x = mem x) as Hk.
  { intros x Hx. rewrite Hc, !decide_False; [done|done|unfold range in *; lia]. }
  assert (B !! a = None) as HBa by (eapply lookup_weaken_None; eauto).
  split; [done| | | | |].
  - by apply insert_subseteq_r.
  - intros i base Hi. apply lookup_app_Some in Hi as [Hi|[_ Hi]].
    + destruct (r3 i base Hi) as (o' & H1 & H2 & H3). exists o'. rewrite lookup_insert_ne by congruence. done.
    + apply list_lookup_singleton_Some in Hi as [_ <-]. replace (a + hhdm - hhdm) with a by lia. exists o. by rewrite lookup_insert_eq.
  - apply NoDup_app. split; [done|]. split; [|apply NoDup_singleton]. intros x Hx ->%list_elem_of_singleton.
    apply list_elem_of_lookup_1 in Hx as [i Hi]. destruct (r3 i _ Hi) as (o' & H1 & _). replace (a + hhdm - hhdm) with a in H1 by lia. congruence.
  - intros i base Hi k Hk0. apply lookup_app_Some in Hi as [Hi|[_ Hi]].
    + rewrite Hk; [by apply (r5 i)|]. destruct (r3 i base Hi) as (o' & H1 & _ & H3). assert (base - hhdm ≠ a) as Hne by congruence.
      pose proof (hp_out_disjoint p' _ a o (base - hhdm) o' Hout (lookup_insert_eq _ _ _) ltac:(by rewrite lookup_insert_ne) ltac:(done)).
      unfold apart, range in *. lia.
    + apply list_lookup_singleton_Some in Hi as [_ <-]. rewrite Hc.
      destruct (decide (k < data_bytes ls)) as [Hkd|Hkd];
        [|rewrite decide_False, decide_True by (unfold range; lia); done]. rewrite decide_True by (unfold range; lia).
      replace (percpu_load ls + (a + hhdm + k - (a + hhdm))) with (percpu_load ls + k) by lia.
      pose proof (Himage p' _ a o Hout (lookup_insert_eq _ _ _)) as Hap. rewrite Hmem, decide_False by (unfold range, apart in *; lia).
      apply r6. intros a' o' H3 _ H4. pose proof (Himage p _ a' o' r1 H3). unfold range, apart in *. lia.
  - intros x Hx. rewrite Hk by (apply (Hx a o); [by rewrite lookup_insert_eq|done]).
    apply r6. intros a' o' H1 H2. apply (Hx a' o'); [|done]. rewrite lookup_insert_ne; [done|]. congruence.
Qed.

Lemma init_regions_spec n p mem B :
  hp_out p B →
  post (init_percpu_regions (PT:=PT) hhdm ls n p mem)
    (λ '(p', mem', regions), length regions = n ∧ ∃ Bn, regions_ok B mem p' mem' regions Bn)
    (λ e, e = PUnwrap).
Proof.
  intros Hout. unfold init_percpu_regions. eapply post_bind; [by apply percpu_template_spec|].
  intros tpl (Hd & Hb & Hl & Ht & Hdiv). unfold for_range. replace (n - 0)%nat with n by lia.
  apply (post_for_each _ _ _ (λ done '(p', mem', regions), length regions = length done ∧ ∃ Bn, regions_ok B mem p' mem' regions Bn)).
  - split; [done|]. exists B. split; try done. constructor.
  - intros done x rest [[p' mem'] regions] _ [Hlen (Bn & Hro)]. pose proof Hls as [Hlo _ _].
    eapply post_bind_post; [apply (alloc_region_spec p' mem' Bn); [apply Hro|unfold section_size in *; lia|done]|].
    intros [[p1 mem1] base] (a & o & -> & Hn & Hout1 & Hsz & Hmem). cbn [post]. split; [rewrite !length_app; cbn; lia|].
    exists (<[a:=o]> Bn). eapply regions_add; [done..|lia|done].
  - intros [[p' mem'] regions] [Hlen Hr]. rewrite length_seq in Hlen. done.
Qed.

(** *** Variables *)

(** A variable of [w] bytes at [sym] is in the section. *)
Definition in_section (sym : Z) (w : nat) : Prop := percpu_start ls ≤ sym ∧ sym + Z.of_nat w ≤ percpu_end ls.

Lemma percpu_ptr_spec base gs sym :
  set_gsbase_for_percpu_region ls base = Ret gs → 0 ≤ base + (sym - percpu_start ls) < 2 ^ 64 →
  percpu_ptr gs sym = base + (sym - percpu_start ls).
Proof.
  unfold set_gsbase_for_percpu_region. destruct (_ && _); [done|]. intros [= <-] Hb. unfold percpu_ptr, wrap64.
  rewrite (lk_base ls Hls). rewrite Z.add_mod_idemp_l by lia. rewrite Z.mod_small; lia.
Qed.

Lemma region_place B mem0 p mem regions Bn i base :
  regions_ok B mem0 p mem regions Bn → regions !! i = Some base →
  0 ≤ base ∧ base + section_size ls < 2 ^ 64.
Proof.
  intros Hr Hi. destruct (ro_blocks _ _ _ _ _ _ Hr i base Hi) as (o & Hb & _ & Hs).
  destruct (hp_out_place p Bn _ o (ro_out _ _ _ _ _ _ Hr) Hb) as (H1 & _ & _ & H2). lia.
Qed.

(** The variable of the CPU is in its region. *)
Lemma variable_place B mem0 p mem regions Bn i base gs sym w :
  regions_ok B mem0 p mem regions Bn → regions !! i = Some base → set_gsbase_for_percpu_region ls base = Ret gs →
  in_section sym w →
  percpu_ptr gs sym = base + (sym - percpu_start ls) ∧ 0 ≤ sym - percpu_start ls ∧
  sym - percpu_start ls + Z.of_nat w ≤ section_size ls.
Proof.
  intros Hr Hi Hg [Hs1 Hs2]. pose proof (region_place _ _ _ _ _ _ _ _ Hr Hi) as [H1 H2]. unfold section_size in *.
  split; [|lia]. apply percpu_ptr_spec; [done|]. lia.
Qed.

Lemma regions_apart B mem0 p mem regions Bn i j bi bj :
  regions_ok B mem0 p mem regions Bn → regions !! i = Some bi → regions !! j = Some bj → i ≠ j →
  apart bi (section_size ls) bj (section_size ls).
Proof.
  intros Hr Hi Hj Hne. destruct (ro_blocks _ _ _ _ _ _ Hr i bi Hi) as (oi & Hbi & _ & Hsi).
  destruct (ro_blocks _ _ _ _ _ _ Hr j bj Hj) as (oj & Hbj & _ & Hsj).
  assert (bi ≠ bj) by (intros ->; apply Hne; eapply NoDup_lookup; [apply Hr|done|done]).
  pose proof (hp_out_disjoint p Bn _ _ _ _ (ro_out _ _ _ _ _ _ Hr) Hbi Hbj ltac:(lia)). unfold apart in *. lia.
Qed.

(** The section as it is in the image: what a variable holds before it is
    first written. *)
Definition section_image (mem : Z → Z) (x : Z) : Z :=
  if decide (x < percpu_data_end ls) then mem (percpu_load ls + (x - percpu_start ls)) else 0.

Lemma initial_value B mem0 p mem regions Bn i base gs sym w :
  regions_ok B mem0 p mem regions Bn → regions !! i = Some base → set_gsbase_for_percpu_region ls base = Ret gs →
  in_section sym w → get_per_cpu w gs sym mem = load w (section_image mem0) sym.
Proof.
  intros Hr Hi Hg Hs. destruct (variable_place _ _ _ _ _ _ _ _ _ _ _ Hr Hi Hg Hs) as (Hp & H0 & H1). unfold get_per_cpu. rewrite Hp.
  cut (∀ k, (k ≤ w)%nat → load k mem (base + (sym - percpu_start ls) + (Z.of_nat w - Z.of_nat k)) =
    load k (section_image mem0) (sym + (Z.of_nat w - Z.of_nat k))).
  { intros Hc. specialize (Hc w ltac:(lia)). rewrite Z.sub_diag, !Z.add_0_r in Hc. done. }
  induction k as [|k IH]; intros Hk; [done|]. cbn [load]. f_equal.
  - set (d := sym - percpu_start ls + (Z.of_nat w - Z.of_nat (S k))).
    replace (base + (sym - percpu_start ls) + (Z.of_nat w - Z.of_nat (S k))) with (base + d) by (unfold d; lia).
    rewrite (ro_copies _ _ _ _ _ _ Hr i base Hi) by (unfold d, section_size in *; lia). unfold section_image, data_bytes, d.
    repeat case_decide; try done; try lia. f_equal. lia.
  - f_equal. replace (base + (sym - percpu_start ls) + (Z.of_nat w - Z.of_nat (S k)) + 1)
      with (base + (sym - percpu_start ls) + (Z.of_nat w - Z.of_nat k)) by lia.
    replace (sym + (Z.of_nat w - Z.of_nat (S k)) + 1) with (sym + (Z.of_nat w - Z.of_nat k)) by lia. apply IH. lia.
Qed.

Lemma other_variable B mem0 p mem regions Bn i j bi bj gi gj si sj wi wj v f :
  regions_ok B mem0 p mem regions Bn → regions !! i = Some bi → regions !! j = Some bj →
  set_gsbase_for_percpu_region ls bi = Ret gi → set_gsbase_for_percpu_region ls bj = Ret gj →
  in_section si wi → in_section sj wj → i ≠ j ∨ apart si (Z.of_nat wi) sj (Z.of_nat wj) →
  get_per_cpu wj gj sj (set_per_cpu wi gi si v f) = get_per_cpu wj gj sj f.
Proof.
  intros Hr Hi Hj Hgi Hgj Hsi Hsj Hne. destruct (variable_place _ _ _ _ _ _ _ _ _ _ _ Hr Hi Hgi Hsi) as (Hpi & H0i & H1i).
  destruct (variable_place _ _ _ _ _ _ _ _ _ _ _ Hr Hj Hgj Hsj) as (Hpj & H0j & H1j). unfold get_per_cpu, set_per_cpu. rewrite Hpi, Hpj.
  apply load_store_ne. destruct (decide (i = j)) as [->|Hij].
  - rewrite Hi in Hj. injection Hj as <-. destruct Hne as [|Hne]; [done|]. unfold apart in *. lia.
  - pose proof (regions_apart _ _ _ _ _ _ _ _ _ _ Hr Hi Hj Hij). unfold apart in *. lia.
Qed.

(** C26: every CPU has its own per-CPU variables: the start of the system gives
    each a region with the values of the section, or stops for want of pages;
    through the GS base of its region a CPU reads the initial value of each
    variable, then the value it wrote last, and what it writes changes no other
    variable of its own and none of another CPU.  Pages handed out before keep
    their contents. *)
Theorem percpu_variables_private n p mem B :
  hp_out p B →
  post (init_percpu_regions (PT:=PT) hhdm ls n p mem)
    (λ '(p', mem', regions), length regions = n ∧
      (∀ i base gs sym w, regions !! i = Some base → set_gsbase_for_percpu_region ls base = Ret gs → in_section sym w →
        get_per_cpu w gs sym mem' = load w (section_image mem) sym) ∧
      (∀ gs sym w v f, 0 ≤ v < 256 ^ Z.of_nat w → get_per_cpu w gs sym (set_per_cpu w gs sym v f) = v) ∧
      (∀ i j bi bj gi gj si sj wi wj v f, regions !! i = Some bi → regions !! j = Some bj →
        set_gsbase_for_percpu_region ls bi = Ret gi → set_gsbase_for_percpu_region ls bj = Ret gj →
        in_section si wi → in_section sj wj → i ≠ j ∨ apart si (Z.of_nat wi) sj (Z.of_nat wj) →
        get_per_cpu wj gj sj (set_per_cpu wi gi si v f) = get_per_cpu wj gj sj f) ∧
      (∀ a o x, B !! a = Some o → range (a + hhdm) (block_bytes o) x → mem' x = mem x))
    (λ e, e = PUnwrap).
Proof.
  intros Hout. eapply post_mono; [by apply init_regions_spec|]. intros [[p' mem'] regions] [Hlen (Bn & Hr)].
  split; [done|]. split; [|split; [|split]].
  - intros i base gs sym w Hi Hg Hs. exact (initial_value _ _ _ _ _ _ _ _ _ _ _ Hr Hi Hg Hs).
  - intros gs sym w v f Hv. by apply load_store_eq.
  - intros i j bi bj gi gj si sj wi wj v f Hi Hj Hgi Hgj Hsi Hsj Hne. exact (other_variable _ _ _ _ _ _ _ _ _ _ _ _ _ _ _ _ _ _ Hr Hi Hj Hgi Hgj Hsi Hsj Hne).
  - intros a o x Ha Hx. apply Hr. intros a' o' Ha' Hn Hx'. assert (Bn !! a = Some o) as Ha2 by (eapply lookup_weaken; [done|apply Hr]).
    pose proof (hp_out_disjoint p' Bn a o a' o' (ro_out _ _ _ _ _ _ Hr) Ha2 Ha' ltac:(congruence)). unfold apart, range in *. lia.
Qed.

End percpu.

(** The guard leaves the count as it was when the guarded code does. *)
Lemma guard_balanced gs count f mem :
  (∀ x, 0 ≤ mem x < 256) →
  get_per_cpu 8 gs count (f (inc_per_cpu 8 gs count mem)) = get_per_cpu 8 gs count (inc_per_cpu 8 gs count mem) →
  get_per_cpu 8 gs count (with_guard gs count f mem) = get_per_cpu 8 gs count mem.
Proof.
  intros Hm Hf. unfold with_guard, get_per_cpu in *. unfold dec_per_cpu. cbv zeta.
  assert (0 ≤ load 8 mem (percpu_ptr gs count) < 256 ^ Z.of_nat 8) as Hl.
  { generalize (percpu_ptr gs count). intros a. change (256 ^ Z.of_nat 8) with (256 * (256 * (256 * (256 * (256 * (256 * (256 * 256))))))).
    cbn [load]. pose proof (Hm a). pose proof (Hm (a + 1)). pose proof (Hm (a + 1 + 1)). pose proof (Hm (a + 1 + 1 + 1)).
    pose proof (Hm (a + 1 + 1 + 1 + 1)). pose proof (Hm (a + 1 + 1 + 1 + 1 + 1)). pose proof (Hm (a + 1 + 1 + 1 + 1 + 1 + 1)).
    pose proof (Hm (a + 1 + 1 + 1 + 1 + 1 + 1 + 1)). lia. }
  rewrite load_store_eq by (apply Z.mod_pos_bound; lia). rewrite Hf. unfold inc_per_cpu. cbv zeta.
  rewrite load_store_eq by (apply Z.mod_pos_bound; lia). rewrite Zminus_mod_idemp_l.
  replace (load 8 mem (percpu_ptr gs count) + 1 - 1) with (load 8 mem (percpu_ptr gs count)) by lia. by apply Z.mod_small.
Qed.

(** With the direct map at the bottom of the upper half and the kernel in the
    last two gigabytes the check of the GS base passes. *)
Lemma gsbase_in_layout ls base :
  2 ^ 64 - 2 ^ 47 ≤ base < percpu_vma_base ls → percpu_vma_base ls < 2 ^ 64 →
  wp (set_gsbase_for_percpu_region ls base) (λ gs, canonical gs).
Proof.
  intros Hb Hv. unfold set_gsbase_for_percpu_region.
  assert (wrap64 (base - percpu_vma_base ls) = base - percpu_vma_base ls + 2 ^ 64) as ->.
  { unfold wrap64. replace (base - percpu_vma_base ls) with (base - percpu_vma_base ls + 2 ^ 64 + (-1) * 2 ^ 64) at 1 by lia.
    rewrite Z.mod_add, Z.mod_small; lia. }
  rewrite Z.shiftr_div_pow2 by lia.
  assert ((base - percpu_vma_base ls + 2 ^ 64) / 2 ^ 48 = 0xFFFF) as ->.
  { symmetry. apply (Z.div_unique _ _ _ (base - percpu_vma_base ls + 2 ^ 48)); lia. }
  cbn [negb andb Z.eqb Pos.eqb]. apply wp_ret. right. lia.
Qed.

(** The check lets addresses pass that are not canonical. *)
Theorem gsbase_check_weak vma :
  0 ≤ vma < 2 ^ 48 →
  let ls := mk_linker vma vma vma vma vma in
  wp (set_gsbase_for_percpu_region ls (0xFFFF000000000000 + vma)) (λ gs, ¬ canonical gs).
Proof.
  intros Hv ls. unfold set_gsbase_for_percpu_region. cbn [percpu_vma_base ls].
  replace (0xFFFF000000000000 + vma - vma) with 0xFFFF000000000000 by lia. apply wp_ret. vm_compute. intros [[? ?]|[H ?]]; [done|by apply H].
Qed.

(** *** Two CPUs on the sample machine *)

Lemma booted_pages : ∃ p : zpages, hp_out (hhdm:=BOOT_HHDM) p ∅.
Proof.
  destruct (boot_runs (λ _, 0)) as [h E].
  pose proof (init_allocators_spec BOOT_HHDM boot_mmap (λ _, 0) boot_mmap_bootable boot_hhdm_ok) as Hp.
  rewrite E in Hp. destruct Hp as [Hp _]. exists (h_pages h). exact Hp.
Qed.

(** Data of 256 bytes and zeros to 1024, with the image elsewhere. *)
Definition sample_linker : linker := mk_linker 0x200000 0x200100 0x200400 0x300000 0x200000.

Lemma percpu_variables_private_witness :
  ∃ p : zpages, post (init_percpu_regions (PT:=ref_pt) BOOT_HHDM sample_linker 2 p (λ _, 7))
    (λ '(_, mem', regions), length regions = 2%nat ∧
      ∀ i base gs, regions !! i = Some base → set_gsbase_for_percpu_region sample_linker base = Ret gs →
        get_per_cpu 1 gs 0x200010 mem' = 7 ∧ get_per_cpu 4 gs 0x200100 mem' = 0)
    (λ e, e = PUnwrap).
Proof.
  destruct booted_pages as [p Hp]. exists p.
  assert (linker_ok sample_linker) as Hl by (split; [split; split; vm_compute; discriminate|vm_compute; discriminate|reflexivity]).
  assert (∀ p' B a o, hp_out (hhdm:=BOOT_HHDM) p' B → B !! a = Some o →
    apart (a + BOOT_HHDM) (block_bytes o) (percpu_load sample_linker) (data_bytes sample_linker)) as Him.
  { intros p' B a o Ho Ha. destruct (hp_out_place p' B a o Ho Ha) as (Ha0 & _). right.
    change (percpu_load sample_linker + data_bytes sample_linker) with 0x300100. unfold BOOT_HHDM. lia. }
  eapply post_mono; [exact (percpu_variables_private (PT:=ref_pt) BOOT_HHDM sample_linker Hl ltac:(vm_compute; discriminate) Him 2 p (λ _, 7) ∅ Hp)|].
  intros [[p' mem'] regions] (Hlen & Hinit & _). split; [exact Hlen|]. intros i base gs Hi Hg.
  split; (rewrite (Hinit i base gs _ _ Hi Hg); [vm_compute; reflexivity|split; vm_compute; discriminate]).
Defined.
