(* ===== verification/HeapTheorems.v ===== *)
(** * Theorems about the kernel heap

    The heap on the real page allocator, from the bootloader's memory map on,
    under any sequence of requests its clients may make. *)
From stdpp Require Import functions.
From S2P Require Import Memblock Sparsemem Zones Paging.
From S2P Require Import Prelude Misc Frame ByteMem Slab SlabMem SlabLists SlabCaches SlabHeap SlabGrow SlabOps SlabFree Kmalloc HeapSpec HeapOps HeapMachine ZonesHeap PhysMem PagingRef.
#[local] Open Scope Z_scope.

(** ** The heap after boot *)

Lemma fresh_heap_ok hhdm h : fresh_heap hhdm h → heap_ok (hhdm:=hhdm) h ∅.
Proof.
  intros [Hp Hc]. exists ∅, (λ _ _, []). split; [split|].
  - assert (∀ i b, ¬ slab_at (λ _ _, []) i b) as Hno.
    { intros i b (_ & s & Hs & _). by apply elem_of_slabs in Hs as [k ?%elem_of_nil]. }
    split; [done|by rewrite Hc, length_fmap, length_seq| |by intros ? ? ?%Hno|by intros ? ? ? ?%Hno|by intros ? ? ?].
    intros i c. rewrite Hc, list_lookup_fmap. intros (j & Hj & ->)%fmap_Some.
    apply lookup_seq in Hj as [-> Hj]. split; [done|done|done|by destruct k|].
    split; [by intros s ?%elem_of_nil|by apply NoDup_nil|by intros s s' ?%elem_of_nil].
  - intros i _. split; [by intros k s ?%elem_of_nil|done].
  - split; [done|]. intros p [i|o]; cbn [cell].
    + intros (_ & s & Hs & _). by apply elem_of_slabs in Hs as [k ?%elem_of_nil].
    + by intros [? _].
Qed.

(** ** How much memory the heap holds on to *)

Lemma size_related (X Y : gset Z) (R : Z → Z → Prop) :
  (∀ a, a ∈ X → ∃ y, y ∈ Y ∧ R a y) →
  (∀ a a' y, a ∈ X → a' ∈ X → R a y → R a' y → a = a') → (size X ≤ size Y)%nat.
Proof.
  revert Y. induction X as [|a X Ha IH] using set_ind_L; intros Y Hex Hinj; [rewrite size_empty; lia|].
  destruct (Hex a) as (y & Hy & Hr); [set_solver|].
  rewrite size_union, size_singleton by set_solver.
  assert (size X ≤ size (Y ∖ {[y]}))%nat as Hle.
  { apply IH; [|intros b b' z Hb Hb'; apply Hinj; set_solver].
    intros b Hb. destruct (Hex b) as (z & Hz & Hrz); [set_solver|]. exists z. split; [|done].
    apply elem_of_difference. split; [done|]. intros ->%elem_of_singleton. apply Ha.
    rewrite (Hinj a b y); [done|set_solver|set_solver|done|done]. }
  rewrite size_difference, size_singleton in Hle by set_solver.
  assert (size Y ≠ 0)%nat by (intros ?%size_empty_inv; set_solver). lia.
Qed.

(** A slab with an object in use. *)
Lemma used_object i s :
  slab_ok i s → Z.of_nat (length (s_free s)) < g_count (geom i) → ∃ x, is_object i (s_base s) x ∧ x ∉ s_free s.
Proof.
  intros Hok Hlt. destruct (decide (Forall (λ x, x ∈ s_free s) (all_objects i (s_base s)))) as [Hall|Hno].
  - exfalso. rewrite Forall_forall in Hall.
    pose proof (submseteq_length _ _ (NoDup_submseteq _ _ (all_objects_nodup i (s_base s)) Hall)).
    pose proof (all_objects_length i (s_base s)). lia.
  - apply not_Forall_Exists in Hno; [|apply _]. apply Exists_exists in Hno as (x & Hx & Hn).
    exists x. split; [by apply elem_of_all_objects|done].
Qed.

Lemma list_to_set_size (l : list Z) : (size (list_to_set (C:=gset Z) l) ≤ length l)%nat.
Proof.
  induction l as [|x l IH]; [done|]. rewrite list_to_set_cons, size_union_alt, size_singleton. cbn [length].
  pose proof (subseteq_size (list_to_set (C:=gset Z) l ∖ {[x]}) (list_to_set l) ltac:(set_solver)). lia.
Qed.

Lemma length_bind_le {A B} (f : A → list B) (n : nat) l :
  (∀ x, x ∈ l → (length (f x) ≤ n)%nat) → (length (l ≫= f) ≤ n * length l)%nat.
Proof.
  induction l as [|x l IH]; intros Hf; [cbn; lia|]. rewrite bind_cons, length_app. cbn [length].
  pose proof (Hf x ltac:(by left)). specialize (IH (λ y Hy, Hf y (list_elem_of_further _ _ _ Hy))). lia.
Qed.

(** The empty slabs kept in reserve. *)
Definition spares (hhdm : Z) (V : views) : gset Z :=
  list_to_set (seq 0 NCLASSES ≫= λ i, (λ s, s_base s - hhdm) <$> V i KEmpty).

Lemma elem_of_spares hhdm V i s :
  (i < NCLASSES)%nat → s ∈ V i KEmpty → s_base s - hhdm ∈ spares hhdm V.
Proof.
  intros Hi Hs. apply elem_of_list_to_set, list_elem_of_bind. exists i. split; [|apply elem_of_seq; lia].
  apply list_elem_of_fmap. by exists s.
Qed.

Lemma spares_size hhdm V :
  (∀ i, (i < NCLASSES)%nat → cache_use i (V i)) → (size (spares hhdm V) ≤ 2 * NCLASSES)%nat.
Proof.
  intros Hu. unfold spares. etrans; [apply list_to_set_size|]. etrans; [apply (length_bind_le _ 2)|by rewrite length_seq].
  intros i Hi%elem_of_seq. rewrite length_fmap. pose proof (cu_empty _ _ (Hu i ltac:(lia))) as He.
  unfold MAX_EMPTY_SLABS in He. lia.
Qed.

Section footprint.
Context {P : Type} {HP : HeapPages P} {hhdm : Z} {HL : HeapPagesLaws P hhdm}.

(** Every other block serves some client. *)
Lemma block_serves (h : heap P) B V L a o :
  heap_inv hhdm h B V → holds (hhdm:=hhdm) L B V → B !! a = Some o → a ∉ spares hhdm V →
  ∃ p, p ∈ dom L ∧ range (a + hhdm) (block_bytes o) p.
Proof.
  intros [Hh Hu] Hho Ha Hns.
  assert (∀ p r, cell hhdm V B p r → p ∈ dom L) as Hdom.
  { intros p r Hp. apply elem_of_dom. by apply (ho_all _ _ _ Hho p r). }
  destruct (hr_block Hh a o Ha) as [(i & Hsa)|(f & Hf & Hn)].
  - pose proof (hr_place Hh _ _ Hsa) as [Hb _]. replace (a + hhdm - hhdm) with a in Hb by lia.
    assert (o = g_order (geom i)) as -> by congruence. fold (span i).
    pose proof Hsa as (Hi & s & Hs & Eb). pose proof Hs as [k Hk]%elem_of_slabs.
    assert (k ≠ KEmpty) as Hke.
    { intros ->. apply Hns. replace a with (s_base s - hhdm) by lia. by apply (elem_of_spares hhdm V i). }
    assert (slab_ok i s) as Hok.
    { destruct (cache_lookup _ _ _ _ Hh Hi) as (c & _ & Hc). by apply (sp_ok _ _ (cm_spread _ _ _ _ Hc)). }
    destruct (used_object i s Hok) as (x & Hx & Hnx).
    { pose proof (cu_kind _ _ (Hu i Hi) k s Hk) as Hku. destruct (geom_good i) as [_ _ _ _ Hc _ _].
      destruct k; cbn [kind_use] in Hku; [lia|rewrite Hku; cbn [length]; lia|done]. }
    exists x. split; [apply (Hdom x (RObject i)); split; [done|by exists s]|].
    destruct (object_bounds _ _ _ Hx) as [Hlo Hhi]. destruct (geom_good i) as [Hsz _ _ _ _ _ _].
    rewrite Eb in *. unfold range, SLAB_HEADER_BYTES in *. lia.
  - exists (a + hhdm). split; [|pose proof (block_bytes_pos o); unfold range; lia].
    apply (Hdom _ (RPages o)). cbn [cell]. replace (a + hhdm - hhdm) with a by lia. split; [done|].
    intros i Hsa. pose proof (hr_place Hh _ _ Hsa) as [Hb Hl]. replace (a + hhdm - hhdm) with a in * by lia.
    destruct (Hl (a / PAGE_SIZE)) as (f' & Hf' & Hn').
    { apply (first_frame (hhdm:=hhdm) (h_pages h) B); [apply Hh|done]. }
    assert (f' = f) as -> by congruence. rewrite Hn in Hn'.
    destruct (hp_out_place _ _ _ _ (hr_pages Hh) Ha) as (H0 & _ & H52 & _). pose proof (block_bytes_pos o).
    assert (a / PAGE_SIZE < 2 ^ 52) by (apply Z.div_lt_upper_bound; unfold PAGE_SIZE; lia).
    unfold INVALID_PFN, u64_max in Hn'. lia.
Qed.

Lemma footprint_bound (h : heap P) L :
  heap_ok (hhdm:=hhdm) h L → ∃ B, hp_out (hhdm:=hhdm) (h_pages h) B ∧ (size B ≤ size L + 2 * NCLASSES)%nat.
Proof.
  intros (B & V & Hinv & Hho). exists B. pose proof Hinv as [Hh Hu]. split; [apply Hh|].
  pose proof (spares_size hhdm V Hu) as Hsp. rewrite <-!(size_dom (D:=gset Z)).
  assert (size (dom B ∖ spares hhdm V) ≤ size (dom L))%nat as Hle.
  { apply (size_related _ _ (λ a p, ∃ o, B !! a = Some o ∧ range (a + hhdm) (block_bytes o) p)).
    - intros a [[o Ho]%elem_of_dom Hn]%elem_of_difference.
      destruct (block_serves h B V L a o Hinv Hho Ho Hn) as (p & Hp & Hr). eauto.
    - intros a a' p _ _ (o & Ho & Hr) (o' & Ho' & Hr'). destruct (decide (a = a')) as [|Hne]; [done|].
      pose proof (hp_out_disjoint _ _ _ _ _ _ (hr_pages Hh) Ho Ho' Hne). unfold apart, range in *. lia. }
  pose proof (subseteq_size (dom B) (spares hhdm V ∪ (dom B ∖ spares hhdm V))) as Hs.
  rewrite size_union in Hs by set_solver.
  assert (dom B ⊆ spares hhdm V ∪ (dom B ∖ spares hhdm V)) as Hsub; [|specialize (Hs Hsub); lia].
  intros a Ha. destruct (decide (a ∈ spares hhdm V)); set_solver.
Qed.
End footprint.

(** ** The heap in use *)

Section heap.
Context {PT : Type} {X : X86_64 PT} {XL : X86_64Laws PT} (hhdm : Z).

(** The states of the heap and of its clients' record, from boot on. *)
Inductive heap_reach : heap zpages → ledger → Prop :=
  | heap_reach_boot tests mmap mem h L :
      bootable mmap → hhdm_ok hhdm → init_physical_memory (X:=X) tests hhdm mmap mem = Ret (h, L) → heap_reach h L
  | heap_reach_do h L op h' L' p :
      heap_reach h L → allowed hhdm L op → heap_do (X:=X) hhdm h L op = Ret (h', L', p) → heap_reach h' L'.

Lemma hhdm_page : hhdm_ok hhdm → (PAGE_SIZE | hhdm).
Proof. intros [_ _ Hd]. etrans; [|exact Hd]. unfold MAX_BLOCK. apply Z.divide_factor_r. Qed.

(** Booting gives a heap in order, with the tests or without. *)
Lemma init_physical_memory_spec tests mmap mem :
  bootable mmap → hhdm_ok hhdm →
  post (init_physical_memory (X:=X) tests hhdm mmap mem)
    (λ '(h, L), heap_ok (hhdm:=hhdm) h L ∧ if tests then ∃ page, L = {[page:=OPages 0]} else fresh_heap hhdm h ∧ L = ∅)
    (λ e, boot_panic hhdm mmap e ∨
       tests = true ∧ e = PUnwrap ∧ ∃ h, init_allocators hhdm mmap mem = Ret h ∧ run_all_stops (X:=X) (hhdm:=hhdm) h).
Proof using XL.
  intros Hb Hhh. unfold init_physical_memory.
  pose proof (init_allocators_spec hhdm mmap mem Hb Hhh) as Hi.
  destruct (init_allocators hhdm mmap mem) as [h| |]; [|by left|done]. cbn [mbind outcome_bind].
  destruct tests; [|split; [by apply fresh_heap_ok|done]].
  eapply post_bind_post; [eapply post_weaken; [apply (run_all_spec (hh_high _ Hhh) (hhdm_page Hhh) h ∅), fresh_heap_ok, Hi|]|].
  { intros e [-> Hs]. right. do 2 (split; [done|]). by exists h. }
  intros [h' page] (_ & Hok & _). split; [exact Hok|]. by exists page.
Qed.

Lemma heap_do_ok h L op h' L' p :
  hhdm_ok hhdm → heap_ok (hhdm:=hhdm) h L → allowed hhdm L op → heap_do (X:=X) hhdm h L op = Ret (h', L', p) →
  heap_ok (hhdm:=hhdm) h' L' ∧ keeps (hhdm:=hhdm) h L op h' L'.
Proof using XL.
  intros Hhh Hok Hall E. pose proof (heap_do_spec (X:=X) (hh_high _ Hhh) (hhdm_page Hhh) h L op Hok Hall) as Hp.
  rewrite E in Hp. by destruct Hp as (? & ? & _).
Qed.

Lemma reach_ok h L : heap_reach h L → hhdm_ok hhdm ∧ heap_ok (hhdm:=hhdm) h L.
Proof using XL.
  induction 1 as [tests mmap mem h L Hb Hhh E|h L op h' L' p Hr [Hhh Hok] Hall E].
  - split; [done|]. pose proof (init_physical_memory_spec tests mmap mem Hb Hhh) as Hp. rewrite E in Hp. apply Hp.
  - split; [done|]. by apply (heap_do_ok h L op h' L' p).
Qed.

(** C4: the memory of the heap's clients is theirs.  From any memory map and
    after any requests, what two clients hold does not overlap, is aligned and
    in the direct map, and a request changes no byte of what it does not name. *)
Theorem heap_isolation h L :
  heap_reach h L →
  (∀ p w, L !! p = Some w → hhdm ≤ p ∧ p + o_size w < 2 ^ 64 ∧ (o_align w | p)) ∧
  (∀ p w q w', L !! p = Some w → L !! q = Some w' → p ≠ q → apart p (o_size w) q (o_size w')) ∧
  (∀ op h' L' x, allowed hhdm L op → heap_do (X:=X) hhdm h L op = Ret (h', L', x) →
     ∀ q w, L !! q = Some w → ¬ touches hhdm op q w →
       L' !! q = Some w ∧ ∀ a, range q (o_size w) a → h_mem h' a = h_mem h a).
Proof.
  intros [Hhh Hok]%reach_ok. split; [by intros; apply (owner_place (hhdm:=hhdm) h L)|].
  split; [by intros; apply (owners_apart (hhdm:=hhdm) h L)|]. intros op h' L' x Hall E. by apply (heap_do_ok h L op h' L' x).
Qed.

(** C6: every request is served.  It returns: an allocation gives fresh memory,
    cleared on request, or null when the pages for it are used up and then
    changes nothing; a reallocation copies; a release takes the pointer back.
    The only panic is the release of a small object whose second word holds the
    poison of free objects. *)
Theorem heap_requests_served h L op :
  heap_reach h L → allowed hhdm L op →
  post (heap_do (X:=X) hhdm h L op) (λ '(h', L', p), served (hhdm:=hhdm) h L op h' L' p) (stops h L op).
Proof.
  intros [Hhh Hok]%reach_ok Hall.
  eapply post_mono; [by apply (heap_do_spec (hh_high _ Hhh) (hhdm_page Hhh))|]. by intros [[h' L'] p] (_ & _ & ?).
Qed.

(** C15: the heap does not hoard.  The blocks of pages that are handed out are at
    most as many as the pointers clients hold, plus two empty slabs for each of
    the 14 size classes. *)
Theorem heap_footprint h L :
  heap_reach h L → ∃ B, hp_out (hhdm:=hhdm) (h_pages h) B ∧ (size B ≤ size L + 28)%nat.
Proof. intros [_ Hok]%reach_ok. by apply footprint_bound. Qed.

(** C40: [kmalloc] is the global allocator at the alignment of slab objects: for
    1 to [2^62] bytes the same memory, the same state afterwards, null for
    [None]. *)
Theorem kmalloc_is_alloc h L bytes flags :
  heap_reach h L → 0 < bytes ≤ 2 ^ 62 →
  kmalloc (X:=X) hhdm h bytes flags =
    ('(h', p) ← alloc_for_layout (X:=X) hhdm h (mk_layout bytes SLAB_MIN_ALIGN) (km_contains flags KM_ZEROED);
     Ret (h', if p =? 0 then None else Some p)).
Proof.
  intros [Hhh (B & V & Hinv & _)]%reach_ok Hb. apply (kmalloc_alloc (hh_high _ Hhh) (hhdm_page Hhh) h B V); [done| |lia].
  split; cbn [l_size l_align]; [lia|by exists 4|unfold SLAB_MIN_ALIGN; lia].
Qed.
End heap.

(** ** A sample run: boot, then one page *)

Lemma sample_boot :
  ∃ h, heap_reach (X:=ref_x86) BOOT_HHDM h ∅ ∧ ¬ hp_none (hhdm:=BOOT_HHDM) (h_pages h) 0.
Proof.
  destruct (boot_runs (λ _, 0)) as [h0 E0]. exists h0. split; [|exact (boot_has_pages (λ _, 0) h0 E0)].
  apply (heap_reach_boot (X:=ref_x86) BOOT_HHDM false boot_mmap (λ _, 0) h0 ∅ boot_mmap_bootable boot_hhdm_ok).
  unfold init_physical_memory. by rewrite E0.
Qed.

Lemma sample_first_page :
  ∃ h p, heap_reach (X:=ref_x86) BOOT_HHDM h {[p:=OPages 0]}.
Proof.
  destruct sample_boot as (h0 & Hr & Hsome). destruct (reach_ok _ _ _ Hr) as [Hhh Hok].
  destruct (wp_elim _ _ (pages_ok (X:=ref_x86) (hh_high _ Hhh) h0 ∅ 0 true Hok)) as ([[h1 L1] p] & E & _ & _ & Hres).
  exists h1, p. destruct (decide (p = 0)) as [->|Hp].
  - destruct Hres as (_ & _ & Hno). destruct (Hsome Hno).
  - destruct Hres as (_ & -> & _). rewrite insert_empty in E. exact (heap_reach_do BOOT_HHDM h0 ∅ (HPages 0 true) h1 _ p Hr I E).
Qed.

Lemma heap_isolation_witness :
  ∃ h p, heap_reach (X:=ref_x86) BOOT_HHDM h {[p:=OPages 0]} ∧
    BOOT_HHDM ≤ p ∧ p + PAGE_SIZE < 2 ^ 64 ∧ (PAGE_SIZE | p) ∧
    ∀ h' L' x, heap_do (X:=ref_x86) BOOT_HHDM h {[p:=OPages 0]} (HAlloc (mk_layout 100 16) true) = Ret (h', L', x) →
      ∀ a, range p PAGE_SIZE a → h_mem h' a = h_mem h a.
Proof.
  destruct sample_first_page as (h & p & Hr). exists h, p.
  destruct (heap_isolation (X:=ref_x86) BOOT_HHDM h _ Hr) as (Hplace & _ & Hkeep).
  split; [exact Hr|]. destruct (Hplace p (OPages 0) (lookup_singleton_eq _ _)) as (Hlo & Hhi & Hal).
  split; [exact Hlo|]. split; [exact Hhi|]. split; [exact Hal|].
  intros h' L' x E a Ha. refine (proj2 (Hkeep _ h' L' x _ E p (OPages 0) (lookup_singleton_eq _ _) _) a Ha); [|tauto].
  split; [done|by exists 4|done].
Defined.

Lemma heap_requests_served_witness :
  ∃ h p, post (heap_do (X:=ref_x86) BOOT_HHDM h {[p:=OPages 0]} (HAlloc (mk_layout 100 16) true))
    (λ '(h', L', q), served (hhdm:=BOOT_HHDM) h {[p:=OPages 0]} (HAlloc (mk_layout 100 16) true) h' L' q)
    (stops h {[p:=OPages 0]} (HAlloc (mk_layout 100 16) true)).
Proof.
  destruct sample_first_page as (h & p & Hr). exists h, p.
  refine (heap_requests_served (X:=ref_x86) BOOT_HHDM h _ (HAlloc (mk_layout 100 16) true) Hr _).
  split; [done|by exists 4|done].
Defined.

Lemma heap_footprint_witness :
  ∃ h p B, heap_reach (X:=ref_x86) BOOT_HHDM h {[p:=OPages 0]} ∧
    hp_out (hhdm:=BOOT_HHDM) (h_pages h) B ∧ (size B ≤ 29)%nat.
Proof.
  destruct sample_first_page as (h & p & Hr).
  destruct (heap_footprint (X:=ref_x86) BOOT_HHDM h _ Hr) as (B & Hout & Hsz). exists h, p, B.
  split; [exact Hr|]. split; [exact Hout|]. rewrite map_size_singleton in Hsz. exact Hsz.
Defined.

Lemma kmalloc_is_alloc_witness :
  ∃ h, heap_reach (X:=ref_x86) BOOT_HHDM h ∅ ∧
    kmalloc (X:=ref_x86) BOOT_HHDM h 5000 KM_ZEROED =
    ('(h', p) ← alloc_for_layout (X:=ref_x86) BOOT_HHDM h (mk_layout 5000 SLAB_MIN_ALIGN) true;
     Ret (h', if p =? 0 then None else Some p)).
Proof.
  destruct sample_boot as (h & Hr & _). exists h. split; [exact Hr|].
  exact (kmalloc_is_alloc (X:=ref_x86) BOOT_HHDM h ∅ 5000 KM_ZEROED Hr ltac:(lia)).
Defined.
