(* ===== verification/AddrSpace.v ===== *)
(** * Address spaces

    Models kernel/src/arch/amd64/scheduler/addr_space.rs (the regions of a
    task's address space and their page-table mappings) and the page-fault
    handler of kernel/src/arch/amd64/memory/vmm/pf_handler.rs, which fills
    reserved regions on demand. *)
From stdpp Require Import sorting.
From S2P Require Import Prelude Misc Memblock Frame Sparsemem Zones Paging.
#[local] Open Scope Z_scope.

(** ** Map flags *)

Definition MF_READ : Z := 1.
Definition MF_WRITE : Z := 2.
Definition MF_EXEC : Z := 4.
Definition MF_USER : Z := 8.
Definition MF_NOCACHE : Z := 16.

Definition mf_contains (f b : Z) : bool := Z.land f b =? b.

(** [MapFlags::from_bits_truncate]. *)
Definition mf_from_bits_truncate (bits : Z) : Z := Z.land bits 31.

Inductive VmaBacking :=
  | Physical (phys_addr : Z)
  | Device (phys_addr : Z)
  | Reserved.

Record Vma := mk_vma {
  v_vaddr : Z;
  v_size : Z;
  v_flags : Z;
  v_backing : VmaBacking
}.

Definition with_flags (v : Vma) (flags : Z) : Vma := mk_vma (v_vaddr v) (v_size v) flags (v_backing v).

Inductive VmaError :=
  | NotAligned
  | Overlap
  | NotFound
  | PageTableError (e : string).

(** ** Ordered maps

    [BTreeMap<u64, Vma>] is a finite map whose entries are visited by
    increasing key. *)
Definition key_le (x y : Z * Vma) : Prop := x.1 ≤ y.1.
#[global] Instance key_le_dec x y : Decision (key_le x y).
Proof. unfold key_le. apply _. Defined.

Definition entries (m : gmap Z Vma) : list (Z * Vma) := merge_sort key_le (map_to_list m).

(** [range(..).next_back()] for the keys satisfying [p]. *)
Definition last_entry (p : Z → bool) (m : gmap Z Vma) : option (Z * Vma) :=
  last (filter (λ kv, p kv.1 = true) (entries m)).

Section addr_space.
Context {PT M : Type} `{!X86_64 PT} `{!PageSource M}.

Definition to_page_table_flags (f : Z) : Z :=
  let g := bit (b_present page_bits) in
  let g := if mf_contains f MF_WRITE then Z.lor g (bit (b_writable page_bits)) else g in
  let g := if mf_contains f MF_USER then Z.lor g (bit (b_user page_bits)) else g in
  let g := if mf_contains f MF_NOCACHE then Z.lor g (bit (b_no_cache page_bits)) else g in
  if mf_contains f MF_EXEC then g else Z.lor g (bit (b_no_execute page_bits)).

Definition vma_end (v : Vma) : outcome Z :=
  e ← add64 (v_vaddr v) (v_size v);
  virt_new e.

Definition vma_contains (v : Vma) (addr : Z) : outcome bool :=
  if v_vaddr v <=? addr then
    e ← vma_end v;
    Ret (addr <? e)
  else Ret false.

Definition vma_overlaps (v other : Vma) : outcome bool :=
  oe ← vma_end other;
  if v_vaddr v <? oe then
    e ← vma_end v;
    Ret (v_vaddr other <? e)
  else Ret false.

Record AddrSpace := mk_as {
  vmas : gmap Z Vma;
  page_table : PT
}.

Definition as_new (pt : PT) : AddrSpace := mk_as ∅ pt.

Definition get_page_table_phys (hhdm : Z) (a : AddrSpace) : outcome Z :=
  p ← virt_to_phys hhdm (level_4_table (page_table a));
  phys_new p.

(** The address of a region's [i]-th page, and of its frame. *)
Definition nth_page (base : Z) (i : nat) : outcome Z :=
  off ← mul64 (Z.of_nat i) PAGE_SIZE;
  add64 base off.

Definition page_va (v : Vma) (i : nat) : outcome Z :=
  va ← nth_page (v_vaddr v) i;
  virt_new va.

Definition page_pa (phys_addr : Z) (i : nat) : outcome Z :=
  pa ← nth_page phys_addr i;
  phys_new pa.

Definition vma_pages (v : Vma) : list nat := seq 0 (Z.to_nat (v_size v / PAGE_SIZE)).

Definition find_overlapping (a : AddrSpace) (new : Vma) : outcome (option Vma) :=
  e ← vma_end new;
  match last_entry (λ k, k <? e) (vmas a) with
  | None => Ret None
  | Some (_, v) =>
      o ← vma_overlaps v new;
      Ret (if o : bool then Some v else None)
  end.

Definition map_in_page_table (pt : PT) (m : M) (v : Vma) : outcome (PT * M * result string ()) :=
  let pt_flags := to_page_table_flags (v_flags v) in
  r ← for_each_ret (λ i '(pt, m),
    va ← page_va v i;
    match v_backing v with
    | Physical phys_addr | Device phys_addr =>
        pa ← page_pa phys_addr i;
        '(pt, m, r) ← map_single_page pt m va pa pt_flags;
        match r with
        | Ok _ => Ret (inl (pt, m))
        | Err e => Ret (inr (pt, m, e))
        end
    | Reserved => Ret (inl (pt, m))
    end) (vma_pages v) (pt, m);
  match r with
  | inl (pt, m) => Ret (pt, m, Ok ())
  | inr (pt, m, e) => Ret (pt, m, Err e)
  end.

Definition as_map (a : AddrSpace) (m : M) (vaddr size : Z) (backing : VmaBacking) (flags : Z)
    : outcome (AddrSpace * M * result VmaError ()) :=
  if negb (is_aligned vaddr PAGE_SIZE) || negb (size mod PAGE_SIZE =? 0) then Ret (a, m, Err NotAligned)
  else
    let vma := mk_vma vaddr size flags backing in
    o ← find_overlapping a vma;
    match o with
    | Some _ => Ret (a, m, Err Overlap)
    | None =>
        '(pt, m, r) ← map_in_page_table (page_table a) m vma;
        match r with
        | Err e => Ret (mk_as (vmas a) pt, m, Err (PageTableError e))
        | Ok _ => Ret (mk_as (<[vaddr:=vma]> (vmas a)) pt, m, Ok ())
        end
    end.

Definition as_unmap (a : AddrSpace) (vaddr : Z) : outcome (AddrSpace * result VmaError ()) :=
  match vmas a !! vaddr with
  | None => Ret (a, Err NotFound)
  | Some v =>
      let rest := delete vaddr (vmas a) in
      r ← for_each_ret (λ i pt,
        va ← page_va v i;
        let '(pt, r) := unmap_single_page pt va in
        match v_backing v, r with
        | Reserved, _ => Ret (inl pt)
        | _, Ok _ => Ret (inl pt)
        | _, Err e => Ret (inr (pt, e))
        end) (vma_pages v) (page_table a);
      match r with
      | inl pt => Ret (mk_as rest pt, Ok ())
      | inr (pt, e) => Ret (mk_as rest pt, Err (PageTableError e))
      end
  end.

Definition as_protect (a : AddrSpace) (m : M) (vaddr flags : Z)
    : outcome (AddrSpace * M * result VmaError ()) :=
  match vmas a !! vaddr with
  | None => Ret (a, m, Err NotFound)
  | Some v =>
      let pt_flags := to_page_table_flags flags in
      r ← for_each_ret (λ i '(pt, m),
        va ← page_va v i;
        match v_backing v with
        | Reserved => Ret (inl (pt, m))
        | Physical phys_addr | Device phys_addr =>
            phys ← page_pa phys_addr i;
            let '(pt, r) := unmap_single_page pt va in
            match r with
            | Err e => Ret (inr (pt, m, e))
            | Ok _ =>
                '(pt, m, r) ← map_single_page pt m va phys pt_flags;
                match r with
                | Err e => Ret (inr (pt, m, e))
                | Ok _ => Ret (inl (pt, m))
                end
            end
        end) (vma_pages v) (page_table a, m);
      match r with
      | inl (pt, m) => Ret (mk_as (<[vaddr:=with_flags v flags]> (vmas a)) pt, m, Ok ())
      | inr (pt, m, e) => Ret (mk_as (vmas a) pt, m, Err (PageTableError e))
      end
  end.

Definition as_find (a : AddrSpace) (addr : Z) : outcome (option Vma) :=
  match last_entry (λ k, k <=? addr) (vmas a) with
  | None => Ret None
  | Some (_, v) =>
      c ← vma_contains v addr;
      Ret (if c : bool then Some v else None)
  end.

(** [Drop for AddrSpace]: the pages of one region, then every region, then the
    top-level table. *)
Definition drop_vma (pt : PT) (m : M) (v : Vma) : outcome (PT * M) :=
  for_each (λ i '(pt, m),
    va ← page_va v i;
    let '(pt, r) := unmap_single_page pt va in
    match v_backing v, r with
    | Device _, _ => Ret (pt, m)
    | _, Ok pa => m ← page_free m pa; Ret (pt, m)
    | _, Err _ => Ret (pt, m)
    end) (vma_pages v) (pt, m).

Definition as_drop (hhdm : Z) (a : AddrSpace) (m : M) : outcome (AddrSpace * M) :=
  let vaddrs := (entries (vmas a)).*1 in
  '(a, m) ← for_each (λ vaddr '(a, m),
    v ← unwrap (vmas a !! vaddr);
    '(pt, m) ← drop_vma (page_table a) m v;
    Ret (mk_as (delete vaddr (vmas a)) pt, m)) vaddrs (a, m);
  pt_phys ← get_page_table_phys hhdm a;
  m ← page_free m pt_phys;
  Ret (a, m).

(** ** The page-fault handler

    [Halted] stands for [hlt_loop()], which never returns. *)
Inductive fault_result :=
  | Resumed
  | Halted.

Definition page_fault (a : AddrSpace) (m : M) (fault_addr error : Z)
    : outcome (AddrSpace * M * fault_result) :=
  let is_write := negb (Z.land error 2 =? 0) in
  let is_user := negb (Z.land error 4 =? 0) in
  if negb is_user then Ret (a, m, Halted)
  else
    ov ← as_find a fault_addr;
    match ov with
    | None => Ret (a, m, Halted)
    | Some v =>
        if is_write && negb (mf_contains (v_flags v) MF_WRITE) then Ret (a, m, Halted)
        else
          match v_backing v with
          | Physical _ | Device _ => Ret (a, m, Halted)
          | Reserved =>
              '(m, r) ← page_alloc m 0 SAFE_KERNEL_PAGES;
              phys ← unwrap r;
              page_vaddr ← virt_new (Z.land fault_addr (not64 (PAGE_SIZE - 1)));
              '(pt, m, r) ← map_single_page (page_table a) m page_vaddr phys (to_page_table_flags (v_flags v));
              _ ← expect r;
              Ret (mk_as (vmas a) pt, m, Resumed)
          end
    end.
End addr_space.
Arguments AddrSpace : clear implicits.
