(* ===== verification/AddrSpaceSpec.v ===== *)
(** * Address spaces: properties

    Regions stay aligned and disjoint under every operation, lookups find the
    region an address belongs to, mapping and unmapping change exactly the
    pages of the region, faults fill reserved pages on demand, and dropping an
    address space returns its frames to the page allocator. *)
From stdpp Require Import sorting.
From S2P Require Import Prelude Misc Memblock Frame Sparsemem Zones Paging AddrSpace.
#[local] Open Scope Z_scope.

(** ** Ordered maps *)

#[global] Instance key_le_trans : Transitive key_le.
Proof. intros x y z. unfold key_le. lia. Qed.
#[global] Instance key_le_total : Total key_le.
Proof. intros x y. unfold key_le. lia. Qed.

Lemma elem_of_entries m k v : (k, v) ∈ entries m ↔ m !! k = Some v.
Proof. unfold entries. by rewrite (merge_sort_Permutation key_le), elem_of_map_to_list. Qed.

Lemma entries_sorted m : StronglySorted key_le (entries m).
Proof. apply Sorted_StronglySorted; [apply _|]. apply Sorted_merge_sort, _. Qed.

Lemma StronglySorted_filter {A} (R : relation A) (P : A → Prop) `{∀ x, Decision (P x)} l :
  StronglySorted R l → StronglySorted R (filter P l).
Proof.
  induction 1 as [|x l _ IH Hx]; [constructor|]. rewrite filter_cons. case_decide; [|done].
  constructor; [done|]. rewrite Forall_forall in *. intros y [_ Hy]%list_elem_of_filter. by apply Hx.
Qed.

Lemma StronglySorted_last {A} (R : relation A) l x y :
  StronglySorted R l → last l = Some x → y ∈ l → y = x ∨ R y x.
Proof.
  induction 1 as [|z l _ IH Hz]; [done|]. intros Hl Hy. destruct l as [|z' l].
  - injection Hl as ->. apply list_elem_of_singleton in Hy. by left.
  - rewrite last_cons_cons in Hl. apply elem_of_cons in Hy as [->|Hy]; [|by apply IH].
    right. rewrite Forall_forall in Hz. apply Hz. by apply last_Some_elem_of.
Qed.

Lemma last_entry_Some p m k v :
  last_entry p m = Some (k, v) →
  m !! k = Some v ∧ p k = true ∧ ∀ k' v', m !! k' = Some v' → p k' = true → k' ≤ k.
Proof.
  unfold last_entry. intros Hl. pose proof (last_Some_elem_of _ _ Hl) as Hin.
  apply list_elem_of_filter in Hin as [Hp Hin%elem_of_entries]. split; [done|]. split; [done|].
  intros k' v' Hk' Hp'.
  destruct (StronglySorted_last key_le _ _ (k', v') (StronglySorted_filter _ _ _ (entries_sorted m)) Hl)
    as [[= -> ->]|Hle]; [|lia|done].
  apply list_elem_of_filter. split; [done|]. by apply elem_of_entries.
Qed.

Lemma last_entry_None p m :
  last_entry p m = None → ∀ k v, m !! k = Some v → p k = false.
Proof.
  unfold last_entry. rewrite last_None. intros Hl k v Hk. destruct (p k) eqn:Hp; [|done]. exfalso.
  assert ((k, v) ∈ filter (λ kv : Z * Vma, p kv.1 = true) (entries m)) as Hin.
  { apply list_elem_of_filter. split; [done|]. by apply elem_of_entries. }
  rewrite Hl in Hin. by apply not_elem_of_nil in Hin.
Qed.

(** ** Well-formed regions *)

(** Both ends in the same half of the canonical address range. *)
Definition in_half (a b : Z) : Prop := (0 ≤ a ∧ b < 2 ^ 47) ∨ (2 ^ 64 - 2 ^ 47 ≤ a ∧ b < 2 ^ 64).

Lemma in_half_canonical a b x : in_half a b → a ≤ x ≤ b → canonical x.
Proof. unfold in_half, canonical. lia. Qed.

Record region_ok (k : Z) (v : Vma) : Prop := {
  ro_key : v_vaddr v = k;
  ro_vaddr : k mod PAGE_SIZE = 0;
  ro_size : 0 ≤ v_size v ∧ v_size v mod PAGE_SIZE = 0;
  ro_half : in_half k (k + v_size v)
}.

(** Physical addresses the region is backed by are addresses. *)
Definition backing_ok (v : Vma) : Prop :=
  match v_backing v with
  | Physical p | Device p => 0 ≤ p ∧ p mod PAGE_SIZE = 0 ∧ p + v_size v ≤ 2 ^ 52
  | Reserved => True
  end.

(** Regions do not overlap: each ends before the next one begins. *)
Record regions_inv (m : gmap Z Vma) : Prop := {
  ri_ok : ∀ k v, m !! k = Some v → region_ok k v ∧ backing_ok v;
  ri_ordered : ∀ k k' v v', m !! k = Some v → m !! k' = Some v' → k < k' → k + v_size v ≤ k'
}.

Definition inside (v : Vma) (x : Z) : Prop := v_vaddr v ≤ x < v_vaddr v + v_size v.

Section regions.
Context {PT M : Type} `{!X86_64 PT} `{!X86_64Laws PT} `{!PageSource M} `{!PageSourceLaws M}.

Lemma wp_virt_new a (Q : Z → Prop) : canonical a → Q a → wp (virt_new a) Q.
Proof. intros Ha HQ. rewrite virt_new_law. by rewrite bool_decide_true. Qed.

Lemma wp_phys_new a (Q : Z → Prop) : 0 ≤ a < 2 ^ 52 → Q a → wp (phys_new a) Q.
Proof. intros Ha HQ. rewrite phys_new_law. by rewrite bool_decide_true. Qed.

Lemma wp_vma_end k v (Q : Z → Prop) :
  region_ok k v → Q (k + v_size v) → wp (vma_end (PT:=PT) v) Q.
Proof.
  intros [<- _ Hs Hh] HQ. unfold vma_end. apply wp_bind, wp_add64.
  - unfold in_half, u64_max in *. lia.
  - apply wp_virt_new; [|done]. eapply in_half_canonical; [done|lia].
Qed.

Lemma wp_vma_contains k v x (Q : bool → Prop) :
  region_ok k v → Q (bool_decide (inside v x)) → wp (vma_contains (PT:=PT) v x) Q.
Proof.
  intros Hv HQ. unfold vma_contains. pose proof (ro_key _ _ Hv) as <-.
  destruct (Z.leb_spec (v_vaddr v) x).
  - apply wp_bind. eapply wp_vma_end; [done|]. apply wp_ret.
    destruct (Z.ltb_spec x (v_vaddr v + v_size v)).
    + by rewrite bool_decide_true in HQ by (unfold inside; lia).
    + by rewrite bool_decide_false in HQ by (unfold inside; lia).
  - apply wp_ret. by rewrite bool_decide_false in HQ by (unfold inside; lia).
Qed.

Lemma wp_vma_overlaps k v k' v' (Q : bool → Prop) :
  region_ok k v → region_ok k' v' →
  Q (bool_decide (k < k' + v_size v' ∧ k' < k + v_size v)) → wp (vma_overlaps (PT:=PT) v v') Q.
Proof.
  intros Hv Hv' HQ. unfold vma_overlaps. apply wp_bind. eapply wp_vma_end; [done|].
  rewrite (ro_key _ _ Hv), (ro_key _ _ Hv').
  destruct (Z.ltb_spec k (k' + v_size v')).
  - apply wp_bind. eapply wp_vma_end; [done|]. apply wp_ret.
    destruct (Z.ltb_spec k' (k + v_size v)).
    + by rewrite bool_decide_true in HQ by lia.
    + by rewrite bool_decide_false in HQ by lia.
  - apply wp_ret. by rewrite bool_decide_false in HQ by lia.
Qed.

(** ** Lookups *)

Lemma find_overlapping_spec a new k :
  regions_inv (vmas a) → region_ok k new →
  wp (find_overlapping (PT:=PT) a new) (λ r,
    match r with
    | Some v => ∃ k', vmas a !! k' = Some v ∧ k' < k + v_size new ∧ k < k' + v_size v
    | None => ∀ k' v, vmas a !! k' = Some v → k' < k + v_size new → k' + v_size v ≤ k
    end).
Proof.
  intros [Hok Hord] Hnew. unfold find_overlapping. apply wp_bind. eapply wp_vma_end; [done|].
  destruct (last_entry _ (vmas a)) as [[K V]|] eqn:El.
  - apply last_entry_Some in El as (HK & Hlt%Z.ltb_lt & Hmax). destruct (Hok _ _ HK) as [HV _].
    apply wp_bind. eapply wp_vma_overlaps; [done..|]. apply wp_ret. case_bool_decide as Ho.
    + exists K. tauto.
    + intros k' v Hk' Hlt'. pose proof (Hmax k' v Hk' (proj2 (Z.ltb_lt _ _) Hlt')).
      destruct (decide (k' = K)) as [->|Hne]; [simplify_eq; lia|].
      pose proof (Hord _ _ _ _ Hk' HK ltac:(lia)). pose proof (ro_size _ _ HV). lia.
  - apply wp_ret. intros k' v Hk' Hlt. pose proof (last_entry_None _ _ El _ _ Hk') as Hf. simpl in Hf. lia.
Qed.

Lemma regions_insert m k v :
  regions_inv m → region_ok k v → backing_ok v →
  (∀ k' v', m !! k' = Some v' → k' < k + v_size v → k' + v_size v' ≤ k) →
  regions_inv (<[k:=v]> m).
Proof.
  intros [Hok Hord] Hv Hb Hfree. pose proof (ro_size _ _ Hv). split.
  - intros k' v' [[<- <-]|[_ Hk']]%lookup_insert_Some; [done|by apply Hok].
  - intros k1 k2 v1 v2 [[<- <-]|[Hn1 H1]]%lookup_insert_Some [[<- <-]|[Hn2 H2]]%lookup_insert_Some Hlt.
    + lia.
    + destruct (decide (k2 < k + v_size v)) as [Hlt'|]; [|lia].
      pose proof (Hfree _ _ H2 Hlt'). pose proof (ro_size _ _ (proj1 (Hok _ _ H2))). lia.
    + apply (Hfree k1 v1 H1). lia.
    + by apply (Hord k1 k2 v1 v2).
Qed.

Lemma regions_delete m k : regions_inv m → regions_inv (delete k m).
Proof.
  intros [Hok Hord]. split.
  - intros k' v' [_ Hk']%lookup_delete_Some. by apply Hok.
  - intros k1 k2 v1 v2 [_ H1]%lookup_delete_Some [_ H2]%lookup_delete_Some. by apply (Hord k1 k2 v1 v2).
Qed.

Lemma regions_with_flags m k v flags :
  regions_inv m → m !! k = Some v → regions_inv (<[k:=with_flags v flags]> m).
Proof.
  intros Hm Hk. pose proof (ri_ok _ Hm _ _ Hk) as [Hv Hb].
  assert (∀ k' v', <[k:=with_flags v flags]> m !! k' = Some v' →
    ∃ w, m !! k' = Some w ∧ v_size w = v_size v' ∧ (v' = w ∨ v' = with_flags w flags)) as Hold.
  { intros k' v' [[<- <-]|[_ Hk']]%lookup_insert_Some; eauto. }
  split.
  - intros k' v' (w & Hw & _ & [->| ->])%Hold; [by apply (ri_ok _ Hm)|].
    destruct (ri_ok _ Hm _ _ Hw) as [[? ? ? ?] ?]. done.
  - intros k1 k2 v1 v2 (w1 & Hw1 & <- & _)%Hold (w2 & Hw2 & _)%Hold. by apply (ri_ordered _ Hm _ _ _ w2).
Qed.

Lemma as_find_spec a x :
  regions_inv (vmas a) →
  wp (as_find (PT:=PT) a x) (λ r, ∀ v, r = Some v ↔ ∃ k, vmas a !! k = Some v ∧ inside v x).
Proof.
  intros [Hok Hord]. unfold as_find. destruct (last_entry _ (vmas a)) as [[K V]|] eqn:El.
  - apply last_entry_Some in El as (HK & Hle%Z.leb_le & Hmax). destruct (Hok _ _ HK) as [HV _].
    apply wp_bind. eapply wp_vma_contains; [done|]. apply wp_ret. intros v.
    assert (∀ k, vmas a !! k = Some v → inside v x → k = K ∧ v = V) as Huniq.
    { intros k Hk Hin. destruct (Hok _ _ Hk) as [Hv _]. unfold inside in Hin. rewrite (ro_key _ _ Hv) in Hin.
      assert (k ≤ K) by (apply (Hmax k v Hk), Z.leb_le; lia).
      destruct (decide (k = K)) as [->|Hne]; [by simplify_eq|].
      pose proof (Hord _ _ _ _ Hk HK ltac:(lia)). lia. }
    case_bool_decide as Hin; split.
    + intros [= <-]. eauto.
    + intros (k & Hk & Hv). by destruct (Huniq k Hk Hv) as [_ ->].
    + done.
    + intros (k & Hk & Hv). by destruct (Huniq k Hk Hv) as [_ ->].
  - apply wp_ret. intros v. split; [done|]. intros (k & Hk & Hv).
    pose proof (last_entry_None _ _ El _ _ Hk) as Hf. simpl in Hf.
    unfold inside in Hv. rewrite (ro_key _ _ (proj1 (Hok _ _ Hk))) in Hv. lia.
Qed.
End regions.

(** ** The pages of a region *)

Definition npages (v : Vma) : nat := Z.to_nat (v_size v / PAGE_SIZE).

(** [p] is one of the first [n] pages from [k]. *)
Definition covered (k : Z) (n : nat) (p : Z) : Prop :=
  k ≤ p < k + Z.of_nat n * PAGE_SIZE ∧ p mod PAGE_SIZE = 0.
#[global] Instance covered_dec k n p : Decision (covered k n p).
Proof. unfold covered. apply _. Defined.

Lemma npages_size k v : region_ok k v → Z.of_nat (npages v) * PAGE_SIZE = v_size v.
Proof.
  intros [_ _ [Hs Hm] _]. unfold npages, PAGE_SIZE in *.
  pose proof (Z.div_mod (v_size v) 4096 ltac:(lia)). rewrite Z2Nat.id; [lia|]. apply Z.div_pos; lia.
Qed.

Lemma covered_0 k p : ¬ covered k 0 p.
Proof. unfold covered. lia. Qed.

Lemma mod_page_add k i : k mod PAGE_SIZE = 0 → (k + i * PAGE_SIZE) mod PAGE_SIZE = 0.
Proof. intros Hk. unfold PAGE_SIZE in *. by rewrite Z.mod_add by lia. Qed.

Lemma covered_S k n p :
  k mod PAGE_SIZE = 0 → covered k (S n) p ↔ covered k n p ∨ p = k + Z.of_nat n * PAGE_SIZE.
Proof.
  intros Hk. unfold covered. split.
  - intros [Hp Hm]. destruct (decide (p < k + Z.of_nat n * PAGE_SIZE)); [left; lia|right].
    pose proof (Z.div_mod p PAGE_SIZE ltac:(done)). pose proof (Z.div_mod k PAGE_SIZE ltac:(done)).
    unfold PAGE_SIZE in *. lia.
  - intros [[Hp Hm]| ->]; [split; [unfold PAGE_SIZE in *; lia|done]|].
    split; [unfold PAGE_SIZE in *; lia|]. by apply mod_page_add.
Qed.

Lemma not_covered_end k n : ¬ covered k n (k + Z.of_nat n * PAGE_SIZE).
Proof. unfold covered. lia. Qed.

Lemma covered_inside k v p : region_ok k v → covered k (npages v) p ↔ inside v p ∧ p mod PAGE_SIZE = 0.
Proof.
  intros Hv. unfold covered, inside. rewrite (npages_size _ _ Hv), (ro_key _ _ Hv). done.
Qed.

Section pages.
Context {PT M : Type} `{!X86_64 PT} `{!X86_64Laws PT} `{!PageSource M} `{!PageSourceLaws M}.

Lemma wp_nth_page base i (Q : Z → Prop) :
  0 ≤ base → base + Z.of_nat i * PAGE_SIZE ≤ u64_max → Q (base + Z.of_nat i * PAGE_SIZE) →
  wp (nth_page base i) Q.
Proof.
  intros Hb Hi HQ. unfold nth_page. apply wp_bind, wp_mul64; [lia|]. by apply wp_add64.
Qed.

Lemma wp_page_va k v i (Q : Z → Prop) :
  region_ok k v → (i < npages v)%nat → Q (k + Z.of_nat i * PAGE_SIZE) → wp (page_va (PT:=PT) v i) Q.
Proof.
  intros Hv Hi HQ. pose proof (npages_size _ _ Hv) as Hn. destruct Hv as [<- Hk _ Hh].
  assert (v_vaddr v ≤ v_vaddr v + Z.of_nat i * PAGE_SIZE ≤ v_vaddr v + v_size v).
  { rewrite <-Hn. unfold PAGE_SIZE. lia. }
  unfold page_va. apply wp_bind, wp_nth_page.
  - unfold in_half in Hh. lia.
  - unfold in_half, u64_max in *. lia.
  - apply wp_virt_new; [|done]. by eapply in_half_canonical.
Qed.

Lemma wp_page_pa phys v k i (Q : Z → Prop) :
  region_ok k v → 0 ≤ phys → phys + v_size v ≤ 2 ^ 52 → (i < npages v)%nat →
  Q (phys + Z.of_nat i * PAGE_SIZE) → wp (page_pa (PT:=PT) phys i) Q.
Proof.
  intros Hv Hp Hs Hi HQ. pose proof (npages_size _ _ Hv) as Hn. unfold PAGE_SIZE in *.
  unfold page_pa. apply wp_bind, wp_nth_page; [done|unfold u64_max, PAGE_SIZE; lia|].
  apply wp_phys_new; [unfold PAGE_SIZE; lia|done].
Qed.

(** The first [n] pages from [k] are mapped to consecutive frames. *)
Definition mapped_run (pt pt' : PT) (k : Z) (n : nat) (phys flags : Z) : Prop :=
  ∀ p, translate pt' p = if decide (covered k n p) then Some (phys + (p - k), flags) else translate pt p.
Definition unmapped_run (pt pt' : PT) (k : Z) (n : nat) : Prop :=
  ∀ p, translate pt' p = if decide (covered k n p) then None else translate pt p.

Lemma mapped_run_0 pt k phys flags : mapped_run pt pt k 0 phys flags.
Proof. intros p. rewrite decide_False; [done|apply covered_0]. Qed.

Lemma unmapped_run_0 pt k : unmapped_run pt pt k 0.
Proof. intros p. rewrite decide_False; [done|apply covered_0]. Qed.

Lemma mapped_run_S pt pt' pt'' k n phys flags :
  k mod PAGE_SIZE = 0 → mapped_run pt pt' k n phys flags →
  mapped_at pt' pt'' (k + Z.of_nat n * PAGE_SIZE) (phys + Z.of_nat n * PAGE_SIZE) flags →
  mapped_run pt pt'' k (S n) phys flags.
Proof.
  intros Hk Hr Ha p. rewrite Ha. case_decide as E.
  - subst. rewrite decide_True; [do 2 f_equal; lia|]. apply covered_S; [done|]. by right.
  - rewrite Hr. apply decide_ext. rewrite covered_S by done. tauto.
Qed.

Lemma unmapped_run_S pt pt' pt'' k n :
  k mod PAGE_SIZE = 0 → unmapped_run pt pt' k n →
  unmapped_at pt' pt'' (k + Z.of_nat n * PAGE_SIZE) → unmapped_run pt pt'' k (S n).
Proof.
  intros Hk Hr Ha p. rewrite Ha. case_decide as E.
  - subst. rewrite decide_True; [done|]. apply covered_S; [done|]. by right.
  - rewrite Hr. apply decide_ext. rewrite covered_S by done. tauto.
Qed.

(** The rights of a mapping are exactly those of the region. *)
Definition rights_match (f g : Z) : Prop :=
  Z.testbit g (b_present page_bits) = true ∧
  Z.testbit g (b_writable page_bits) = mf_contains f MF_WRITE ∧
  Z.testbit g (b_user page_bits) = mf_contains f MF_USER ∧
  Z.testbit g (b_no_cache page_bits) = mf_contains f MF_NOCACHE ∧
  Z.testbit g (b_no_execute page_bits) = negb (mf_contains f MF_EXEC).

Lemma page_table_flags_rights f : rights_match f (to_page_table_flags (PT:=PT) f).
Proof.
  destruct page_bits_law as [Hd Hb]. unfold rights_match, to_page_table_flags, bit. cbv zeta.
  destruct page_bits as [p w u c x]. simpl in *.
  rewrite !Forall_cons in Hb. destruct Hb as (? & ? & ? & ? & ? & _).
  rewrite !NoDup_cons, !elem_of_cons in Hd.
  repeat split; repeat case_match; rewrite ?Z.lor_spec, ?Z.pow2_bits_eqb by lia;
    repeat match goal with |- context [?a =? ?b] => destruct (Z.eqb_spec a b); subst end; simpl; try done;
    exfalso; tauto.
Qed.

Lemma bits_present_flags f : Z.testbit (to_page_table_flags (PT:=PT) f) (b_present page_bits) = true.
Proof. apply page_table_flags_rights. Qed.

(** ** Mapping and unmapping regions *)

(** What [map_in_page_table] leaves of the page table when it fails: the pages
    before the failing one are mapped. *)
Definition backed_by (v : Vma) : option Z :=
  match v_backing v with Physical p | Device p => Some p | Reserved => None end.

Definition region_mapped (pt pt' : PT) (v : Vma) (n : nat) : Prop :=
  match backed_by v with
  | Some phys => mapped_run pt pt' (v_vaddr v) n phys (to_page_table_flags (PT:=PT) (v_flags v))
  | None => same_mappings pt pt'
  end.

Lemma region_mapped_0 pt v : region_mapped pt pt v 0.
Proof. unfold region_mapped. case_match; [apply mapped_run_0|done]. Qed.

(** One iteration, for a region backed by [phys]. *)
Lemma map_nth_page pt B k v pt1 m1 n phys :
  region_ok k v → 0 ≤ phys ∧ phys mod PAGE_SIZE = 0 ∧ phys + v_size v ≤ 2 ^ 52 →
  (n < npages v)%nat → grown B m1 → level_4_table pt1 = level_4_table pt →
  mapped_run pt pt1 (v_vaddr v) n phys (to_page_table_flags (PT:=PT) (v_flags v)) →
  (∀ p, covered k n p → translate pt p = None) →
  wp (pa ← page_pa (PT:=PT) phys n;
      '(pt, m, r) ← map_single_page pt1 m1 (k + Z.of_nat n * PAGE_SIZE) pa
         (to_page_table_flags (PT:=PT) (v_flags v));
      match r with Ok _ => Ret (inl (pt, m)) | Err e => Ret (inr (pt, m, e)) end)
    (λ r, match r with
      | inl (pt', m') => grown B m' ∧ level_4_table pt' = level_4_table pt ∧
          mapped_run pt pt' (v_vaddr v) (S n) phys (to_page_table_flags (PT:=PT) (v_flags v)) ∧
          ∀ p, covered k (S n) p → translate pt p = None
      | inr (pt', m', _) => grown B m' ∧ level_4_table pt' = level_4_table pt ∧
          mapped_run pt pt' (v_vaddr v) n phys (to_page_table_flags (PT:=PT) (v_flags v))
      end).
Proof.
  intros Hv (Hp & Hpm & Hps) Hn (B1 & HB1 & Hout1) Hroot Hrun Hf.
  pose proof (ro_vaddr _ _ Hv) as Hk. pose proof (ro_key _ _ Hv) as Ek.
  apply wp_bind. eapply wp_page_pa; [done..|]. apply wp_bind.
  eapply wp_mono; [apply (map_single_page_spec pt1 m1 B1); [done|apply bits_present_flags]|].
  rewrite !page_of_aligned by by apply mod_page_add.
  intros [[pt2 m2] [u|e]] (Hg2 & Hroot2 & Hr); apply wp_ret;
    (split; [by eapply grown_trans|]; split; [congruence|]).
  - destruct Hr as [Hnone Hat]. subst k. split; [by eapply mapped_run_S|].
    intros p [Hc| ->]%covered_S; [by apply Hf| |done]. rewrite <-Hnone, Hrun.
    by rewrite decide_False by apply not_covered_end.
  - intros p. by rewrite Hr.
Qed.

Lemma map_in_page_table_spec pt m B k v :
  region_ok k v → backing_ok v → pages_out m B →
  wp (map_in_page_table pt m v) (λ '(pt', m', r),
    grown B m' ∧ level_4_table pt' = level_4_table pt ∧
    match r with
    | Ok _ => region_mapped pt pt' v (npages v) ∧
        (backed_by v ≠ None → ∀ p, covered k (npages v) p → translate pt p = None)
    | Err _ => ∃ n, (n < npages v)%nat ∧ region_mapped pt pt' v n
    end).
Proof.
  intros Hv Hb HB. pose proof (ro_vaddr _ _ Hv) as Hk. pose proof (ro_key _ _ Hv) as Ek.
  unfold map_in_page_table. apply wp_bind.
  apply (wp_for_each_ret _ _ _ (λ done '(pt', m'),
    grown B m' ∧ level_4_table pt' = level_4_table pt ∧ region_mapped pt pt' v (length done) ∧
    (backed_by v ≠ None → ∀ p, covered k (length done) p → translate pt p = None))).
  - split; [by apply grown_refl|]. split; [done|]. split; [apply region_mapped_0|].
    intros _ p Hp. by apply covered_0 in Hp.
  - intros done_ i rest [pt1 m1] Hl (Hg & Hroot & Hm & Hfree).
    assert (i = length done_ ∧ (i < npages v)%nat) as [-> Hi].
    { pose proof (f_equal (.!! length done_) Hl) as E. rewrite list_lookup_middle in E by done.
      apply lookup_seq in E. unfold npages. lia. }
    rewrite length_app. simpl. rewrite Nat.add_1_r.
    apply wp_bind. eapply wp_page_va; [done|done|].
    unfold region_mapped, backed_by, backing_ok in *.
    destruct (v_backing v) as [phys|phys|]; [| |apply wp_ret; naive_solver].
    all: eapply wp_mono; [apply (map_nth_page pt B k v); [done..|naive_solver]|].
    all: intros [[pt2 m2]|[[pt2 m2] e]]; [naive_solver|].
    all: intros (? & ? & ?); apply wp_ret; split; [done|]; split; [done|]; eauto.
  - intros [pt1 m1] (Hg & Hroot & Hm & Hfree). unfold vma_pages in *. rewrite length_seq in *.
    apply wp_ret. done.
Qed.
End pages.

Section operations.
Context {PT M : Type} `{!X86_64 PT} `{!X86_64Laws PT} `{!PageSource M} `{!PageSourceLaws M}.

Lemma vma_pages_step v done_ i rest :
  vma_pages v = done_ ++ i :: rest → i = length done_ ∧ (i < npages v)%nat.
Proof.
  intros Hl. pose proof (f_equal (.!! length done_) Hl) as E. rewrite list_lookup_middle in E by done.
  apply lookup_seq in E. unfold npages. lia.
Qed.

Lemma length_vma_pages v : length (vma_pages v) = npages v.
Proof. apply length_seq. Qed.

(** Outcomes of [map], with the region it was asked for. *)
Definition map_result (a a' : AddrSpace PT) (v : Vma) (r : result VmaError ()) : Prop :=
  match r with
  | Ok _ => vmas a' = <[v_vaddr v:=v]> (vmas a) ∧
      region_mapped (page_table a) (page_table a') v (npages v) ∧
      ∀ k' v' x, vmas a !! k' = Some v' → inside v' x → ¬ inside v x
  | Err NotAligned => a' = a ∧ (v_vaddr v mod PAGE_SIZE ≠ 0 ∨ v_size v mod PAGE_SIZE ≠ 0)
  | Err Overlap => a' = a ∧ ∃ k' v', vmas a !! k' = Some v' ∧
      v_vaddr v < k' + v_size v' ∧ k' < v_vaddr v + v_size v
  | Err NotFound => False
  | Err (PageTableError _) => vmas a' = vmas a ∧
      ∃ n, (n < npages v)%nat ∧ region_mapped (page_table a) (page_table a') v n
  end.

Lemma as_map_spec a m B v :
  regions_inv (vmas a) → pages_out m B →
  0 ≤ v_size v → in_half (v_vaddr v) (v_vaddr v + v_size v) → backing_ok v →
  wp (as_map a m (v_vaddr v) (v_size v) (v_backing v) (v_flags v)) (λ '(a', m', r),
    grown B m' ∧ regions_inv (vmas a') ∧
    level_4_table (page_table a') = level_4_table (page_table a) ∧ map_result a a' v r).
Proof.
  intros Hinv HB Hs Hh Hb. unfold as_map. rewrite is_aligned_law.
  destruct (Z.eqb_spec (v_vaddr v mod PAGE_SIZE) 0) as [Ea|Ea]; simpl.
  2:{ apply wp_ret. simpl. split; [by apply grown_refl|]. naive_solver. }
  destruct (Z.eqb_spec (v_size v mod PAGE_SIZE) 0) as [Es|Es]; simpl.
  2:{ apply wp_ret. simpl. split; [by apply grown_refl|]. naive_solver. }
  replace (mk_vma (v_vaddr v) (v_size v) (v_flags v) (v_backing v)) with v by by destruct v.
  assert (region_ok (v_vaddr v) v) as Hv by done.
  apply wp_bind. eapply wp_mono; [by apply (find_overlapping_spec a v)|]. intros [w|].
  - intros (k' & Hk' & Hlt & Hlt'). apply wp_ret. split; [by apply grown_refl|].
    do 2 (split; [done|]). split; [done|]. eauto.
  - intros Hfree. apply wp_bind. eapply wp_mono; [by apply map_in_page_table_spec|].
    intros [[pt' m'] [u|e]] (Hg & Hroot & Hr); apply wp_ret; simpl.
    + split; [done|]. split; [by apply regions_insert|]. split; [done|]. split; [done|].
      split; [apply Hr|]. intros k' v' x Hk' Hx' Hx. unfold inside in *.
      rewrite (ro_key _ _ (proj1 (ri_ok _ Hinv _ _ Hk'))) in Hx'.
      pose proof (Hfree _ _ Hk' ltac:(lia)). lia.
    + done.
Qed.

Definition unmap_result (a a' : AddrSpace PT) (v : Vma) (r : result VmaError ()) : Prop :=
  vmas a' = delete (v_vaddr v) (vmas a) ∧
  match r with
  | Ok _ => unmapped_run (page_table a) (page_table a') (v_vaddr v) (npages v)
  | Err (PageTableError _) => v_backing v ≠ Reserved ∧
      ∃ n, (n < npages v)%nat ∧ translate (page_table a) (v_vaddr v + Z.of_nat n * PAGE_SIZE) = None ∧
        unmapped_run (page_table a) (page_table a') (v_vaddr v) n
  | Err _ => False
  end.

(** Unmapping a page that is not mapped leaves it so. *)
Lemma unmapped_run_none pt pt' pt'' k n :
  k mod PAGE_SIZE = 0 → unmapped_run pt pt' k n → same_mappings pt' pt'' →
  translate pt' (k + Z.of_nat n * PAGE_SIZE) = None → unmapped_run pt pt'' k (S n).
Proof.
  intros Hk Hr Hs Hn. eapply unmapped_run_S; [done|done|]. intros p. rewrite Hs. case_decide; [by subst|done].
Qed.

Lemma as_unmap_spec a k v :
  regions_inv (vmas a) → vmas a !! k = Some v →
  wp (as_unmap a k) (λ '(a', r),
    regions_inv (vmas a') ∧ level_4_table (page_table a') = level_4_table (page_table a) ∧
    unmap_result a a' v r).
Proof.
  intros Hinv Hk. destruct (ri_ok _ Hinv _ _ Hk) as [Hv _].
  pose proof (ro_vaddr _ _ Hv) as Hal. pose proof (ro_key _ _ Hv) as Ek.
  unfold as_unmap. rewrite Hk. apply wp_bind.
  apply (wp_for_each_ret _ _ _ (λ done pt',
    level_4_table pt' = level_4_table (page_table a) ∧
    unmapped_run (page_table a) pt' k (length done))).
  - split; [done|]. apply unmapped_run_0.
  - intros done_ i rest pt1 Hl (Hroot & Hun). apply vma_pages_step in Hl as [-> Hi].
    rewrite length_app. simpl. rewrite Nat.add_1_r.
    apply wp_bind. eapply wp_page_va; [done|done|].
    destruct (unmap_single_page pt1 _) as [pt2 r] eqn:Eu. apply unmap_single_page_spec in Eu as [Hroot2 Eu].
    rewrite page_of_aligned in Eu by by apply mod_page_add.
    destruct (translate pt1 _) as [[f fl]|] eqn:Et.
    + destruct Eu as [-> Hat]. destruct (v_backing v); apply wp_ret.
      all: split; [congruence|by eapply unmapped_run_S].
    + destruct Eu as [[e ->] Hat]. destruct (v_backing v) eqn:Hb; apply wp_ret.
      3: by split; [congruence|eapply unmapped_run_none].
      all: apply wp_ret; split; [by apply regions_delete|]; split; [simpl; congruence|];
        unfold unmap_result; rewrite Ek; split; [done|]; split; [congruence|];
        exists (length done_); split; [done|]; split;
        [by rewrite Hun, decide_False in Et by apply not_covered_end|].
      all: intros p; simpl; rewrite Hat; apply Hun.
  - intros pt' [Hroot Hun]. rewrite length_vma_pages in Hun. apply wp_ret.
    split; [by apply regions_delete|]. split; [done|]. unfold unmap_result. by rewrite Ek.
Qed.

Lemma as_unmap_not_found a k : vmas a !! k = None → as_unmap (PT:=PT) a k = Ret (a, Err NotFound).
Proof. unfold as_unmap. by intros ->. Qed.

Definition protect_result (a a' : AddrSpace PT) (v : Vma) (flags : Z) (r : result VmaError ()) : Prop :=
  match r with
  | Ok _ => vmas a' = <[v_vaddr v:=with_flags v flags]> (vmas a) ∧
      region_mapped (page_table a) (page_table a') (with_flags v flags) (npages v)
  | Err (PageTableError _) => vmas a' = vmas a ∧ v_backing v ≠ Reserved ∧
      ∀ p, ¬ covered (v_vaddr v) (npages v) p →
        translate (page_table a') p = translate (page_table a) p
  | Err _ => False
  end.

(** One page of a backed region is unmapped and mapped again. *)
Lemma protect_nth_page pt B k v pt1 m1 n phys flags :
  region_ok k v → 0 ≤ phys ∧ phys mod PAGE_SIZE = 0 ∧ phys + v_size v ≤ 2 ^ 52 →
  (n < npages v)%nat → grown B m1 → level_4_table pt1 = level_4_table pt →
  mapped_run pt pt1 k n phys (to_page_table_flags (PT:=PT) flags) →
  wp (phys ← page_pa (PT:=PT) phys n;
      let '(pt, r) := unmap_single_page pt1 (k + Z.of_nat n * PAGE_SIZE) in
      match r with
      | Err e => Ret (inr (pt, m1, e))
      | Ok _ =>
          '(pt, m, r) ← map_single_page pt m1 (k + Z.of_nat n * PAGE_SIZE) phys
             (to_page_table_flags (PT:=PT) flags);
          match r with Err e => Ret (inr (pt, m, e)) | Ok _ => Ret (inl (pt, m)) end
      end)
    (λ r, match r with
      | inl (pt', m') => grown B m' ∧ level_4_table pt' = level_4_table pt ∧
          mapped_run pt pt' k (S n) phys (to_page_table_flags (PT:=PT) flags)
      | inr (pt', m', _) => grown B m' ∧ level_4_table pt' = level_4_table pt ∧
          ∀ p, ¬ covered k (S n) p → translate pt' p = translate pt p
      end).
Proof.
  intros Hv (Hp & Hpm & Hps) Hn Hg Hroot Hrun. pose proof (ro_vaddr _ _ Hv) as Hk.
  assert (∀ pt', (∀ p, p ≠ k + Z.of_nat n * PAGE_SIZE → translate pt' p = translate pt1 p) →
    ∀ p, ¬ covered k (S n) p → translate pt' p = translate pt p) as Hout.
  { intros pt' E p Hc. rewrite covered_S in Hc by done. rewrite E by tauto. rewrite Hrun.
    by rewrite decide_False by tauto. }
  apply wp_bind. eapply wp_page_pa; [done..|].
  destruct (unmap_single_page pt1 _) as [pt2 r] eqn:Eu. apply unmap_single_page_spec in Eu as [Hroot2 Eu].
  rewrite page_of_aligned in Eu by by apply mod_page_add.
  destruct (translate pt1 _) as [[f fl]|] eqn:Et.
  2:{ destruct Eu as [[e ->] Hs]. apply wp_ret. split; [done|]. split; [congruence|].
      apply Hout. intros p _. apply Hs. }
  destruct Eu as [-> Hat]. apply wp_bind. destruct Hg as (B1 & HB1 & Hout1).
  eapply wp_mono; [apply (map_single_page_spec pt2 m1 B1); [done|apply bits_present_flags]|].
  rewrite !page_of_aligned by by apply mod_page_add.
  intros [[pt3 m3] [u|e]] (Hg3 & Hroot3 & Hr); apply wp_ret;
    (split; [by eapply grown_trans|]; split; [congruence|]).
  - destruct Hr as [_ Hat3]. eapply (mapped_run_S pt pt1); [done|done|].
    intros p. rewrite Hat3. case_decide; [done|]. rewrite Hat. by rewrite decide_False.
  - apply Hout. intros p Hne. rewrite Hr, Hat. by rewrite decide_False.
Qed.

Lemma as_protect_spec a m B k v flags :
  regions_inv (vmas a) → pages_out m B → vmas a !! k = Some v →
  wp (as_protect a m k flags) (λ '(a', m', r),
    grown B m' ∧ regions_inv (vmas a') ∧
    level_4_table (page_table a') = level_4_table (page_table a) ∧ protect_result a a' v flags r).
Proof.
  intros Hinv HB Hk. destruct (ri_ok _ Hinv _ _ Hk) as [Hv Hb]. pose proof (ro_key _ _ Hv) as Ek.
  unfold as_protect. rewrite Hk. apply wp_bind.
  apply (wp_for_each_ret _ _ _ (λ done '(pt', m'), grown B m' ∧
    level_4_table pt' = level_4_table (page_table a) ∧
    region_mapped (page_table a) pt' (with_flags v flags) (length done))).
  - split; [by apply grown_refl|]. split; [done|]. apply region_mapped_0.
  - intros done_ i rest [pt1 m1] Hl (Hg & Hroot & Hm). apply vma_pages_step in Hl as [-> Hi].
    rewrite length_app. simpl. rewrite Nat.add_1_r. apply wp_bind. eapply wp_page_va; [done|done|].
    unfold region_mapped, backed_by, backing_ok, protect_result in *. simpl in *. rewrite Ek in *.
    destruct (v_backing v) as [phys|phys|]; [| |apply wp_ret; naive_solver].
    all: eapply wp_mono; [by apply (protect_nth_page (page_table a) B k v)|].
    all: intros [[pt2 m2]|[[pt2 m2] e]] (? & ? & Hr); [naive_solver|]; apply wp_ret;
      split; [done|]; split; [done|]; split; [done|]; split; [done|]; split; [done|].
    all: intros p Hp; apply Hr; intros [? ?]; apply Hp; split; [unfold PAGE_SIZE in *; lia|done].
  - intros [pt' m'] (Hg & Hroot & Hm). rewrite length_vma_pages in Hm. apply wp_ret.
    split; [done|]. split; [by apply regions_with_flags|]. split; [done|]. simpl. by rewrite Ek.
Qed.

Lemma as_protect_not_found a m k flags :
  vmas a !! k = None → as_protect a m k flags = Ret (a, m, Err NotFound).
Proof. unfold as_protect. by intros ->. Qed.

(** ** Page faults *)

Lemma land_page a : 0 ≤ a ≤ u64_max → Z.land a (not64 (PAGE_SIZE - 1)) = page_of a.
Proof.
  intros Ha. change (PAGE_SIZE - 1) with (2 ^ 12 - 1). rewrite land_not64_low by lia.
  unfold page_of, PAGE_SIZE. pose proof (Z.div_mod a (2 ^ 12) ltac:(lia)). change (2 ^ 12) with 4096 in *. lia.
Qed.

Lemma page_of_range a : page_of a ≤ a < page_of a + PAGE_SIZE.
Proof. unfold page_of, PAGE_SIZE. pose proof (Z.mod_pos_bound a 4096 ltac:(lia)). lia. Qed.

Lemma page_of_covered k v x : region_ok k v → inside v x → covered k (npages v) (page_of x).
Proof.
  intros Hv Hx. apply (covered_inside k v); [done|]. split; [|apply page_of_mod].
  pose proof (page_of_range x). unfold inside in *. split; [|lia]. rewrite (ro_key _ _ Hv) in *.
  pose proof (ro_vaddr _ _ Hv). pose proof (page_of_mod x).
  pose proof (Z.div_mod k PAGE_SIZE ltac:(done)). pose proof (Z.div_mod (page_of x) PAGE_SIZE ltac:(done)).
  unfold PAGE_SIZE in *. lia.
Qed.

(** The page that the fault handler may fill. *)
Definition fillable (a : AddrSpace PT) (addr error : Z) (v : Vma) : Prop :=
  (∃ k, vmas a !! k = Some v) ∧ inside v addr ∧ v_backing v = Reserved ∧
  Z.land error 4 ≠ 0 ∧ (Z.land error 2 ≠ 0 → mf_contains (v_flags v) MF_WRITE = true).

Definition fault_outcome (a a' : AddrSpace PT) (B : gmap Z nat) (m' : M) (addr error : Z)
    (r : fault_result) : Prop :=
  match r with
  | Halted => a' = a ∧ pages_out m' B ∧ ¬ ∃ v, fillable a addr error v
  | Resumed => vmas a' = vmas a ∧ level_4_table (page_table a') = level_4_table (page_table a) ∧
      ∃ v f, fillable a addr error v ∧ translate (page_table a) (page_of addr) = None ∧
        mapped_at (page_table a) (page_table a') (page_of addr) f (to_page_table_flags (PT:=PT) (v_flags v)) ∧
        B !! f = None ∧ grown (<[f:=0%nat]> B) m'
  end.

(** Why the fault handler may panic: at a page it may fill, when it gets no
    frame or cannot map it. *)
Definition fault_stops (a : AddrSpace PT) (m : M) (addr error : Z) (p : panic) : Prop :=
  p = PUnwrap ∧ ∃ v, fillable a addr error v ∧
    ((∃ m1, page_alloc m 0 SAFE_KERNEL_PAGES = Ret (m1, None)) ∨
     ∃ m1 f pt' m' s, page_alloc m 0 SAFE_KERNEL_PAGES = Ret (m1, Some f) ∧
       map_single_page (page_table a) m1 (page_of addr) f (to_page_table_flags (PT:=PT) (v_flags v)) = Ret (pt', m', Err s)).

Lemma fill_spec a m B addr error v :
  regions_inv (vmas a) → pages_out m B → canonical addr → fillable a addr error v →
  post ('(m, r) ← page_alloc m 0 SAFE_KERNEL_PAGES;
        phys ← unwrap r;
        page_vaddr ← virt_new (Z.land addr (not64 (PAGE_SIZE - 1)));
        '(pt, m, r) ← map_single_page (page_table a) m page_vaddr phys (to_page_table_flags (PT:=PT) (v_flags v));
        _ ← expect r;
        Ret (mk_as (vmas a) pt, m, Resumed))
    (λ '(a', m', r), fault_outcome a a' B m' addr error r) (fault_stops a m addr error).
Proof.
  intros Hinv HB Hc Hf. destruct (wp_elim _ _ (page_alloc_law m B 0 HB)) as ([m1 [f|]] & Ea & Hr); rewrite Ea; simpl.
  2:{ split; [done|]. exists v. split; [done|]. left. by exists m1. }
  destruct Hr as [Hnew Hout].
  rewrite land_page by (unfold canonical, u64_max in *; lia).
  assert (canonical (page_of addr)) as Hcp.
  { destruct Hf as ([k Hk] & Hx & _). destruct (ri_ok _ Hinv _ _ Hk) as [Hv _].
    pose proof (page_of_range addr). pose proof (page_of_covered _ _ _ Hv Hx) as [Hp _].
    eapply in_half_canonical; [apply (ro_half _ _ Hv)|]. rewrite (npages_size _ _ Hv) in Hp. lia. }
  eapply post_bind; [by apply (wp_virt_new _ (λ x, x = page_of addr))|]. intros ? ->.
  destruct (wp_elim _ _ (map_single_page_spec (page_table a) m1 (<[f:=0%nat]> B) (page_of addr) f
    (to_page_table_flags (PT:=PT) (v_flags v)) Hout (bits_present_flags _))) as ([[pt m2] [u|e]] & Em & Hg & Hroot & Hr); rewrite Em; simpl.
  2:{ split; [done|]. exists v. split; [done|]. right. by exists m1, f, pt, m2, e. }
  destruct Hr as [Hnone Hat]. rewrite page_of_aligned in Hnone, Hat by apply page_of_mod.
  assert (page_of f = f) as Ef.
  { apply page_of_aligned. eapply pages_out_aligned; [done|apply lookup_insert_eq]. }
  rewrite Ef in Hat. split; [done|]. split; [done|]. exists v, f. done.
Qed.

Lemma page_fault_spec a m B addr error :
  regions_inv (vmas a) → pages_out m B → canonical addr →
  post (page_fault a m addr error) (λ '(a', m', r), fault_outcome a a' B m' addr error r)
    (fault_stops a m addr error).
Proof.
  intros Hinv HB Hc. unfold page_fault.
  destruct (Z.eqb_spec (Z.land error 4) 0) as [Eu|Eu]; simpl.
  { split; [done|]. split; [done|]. intros (v & _ & _ & _ & Hu & _). done. }
  eapply post_bind; [by apply as_find_spec|]. intros ov Hov.
  destruct ov as [v|].
  2:{ split; [done|]. split; [done|]. intros (v & Hk & Hx & _). destruct Hk as [k Hk].
      assert (None = Some v) by (apply Hov; eauto). done. }
  destruct (proj1 (Hov v) eq_refl) as (k & Hk & Hx).
  assert (∀ w, fillable a addr error w → w = v) as Huniq.
  { intros w ([k' Hk'] & Hx' & _). assert (Some v = Some w) by (apply Hov; eauto). congruence. }
  destruct (negb (Z.land error 2 =? 0) && negb (mf_contains (v_flags v) MF_WRITE)) eqn:Ew.
  { split; [done|]. split; [done|]. intros (w & Hw). pose proof (Huniq _ Hw) as ->.
    destruct Hw as (_ & _ & _ & _ & Hw). apply andb_prop in Ew as [E1 E2].
    rewrite Hw in E2 by lia. done. }
  destruct (v_backing v) eqn:Hb.
  1,2: split; [done|]; split; [done|]; intros (w & Hw); pose proof (Huniq _ Hw) as ->;
    destruct Hw as (_ & _ & Hw & _); congruence.
  apply fill_spec; [done..|]. split; [by exists k|]. do 2 (split; [done|]). split; [done|].
  intros Hw. rewrite (proj2 (Z.eqb_neq _ _)) in Ew by done. simpl in Ew.
  by destruct (mf_contains (v_flags v) MF_WRITE).
Qed.
End operations.
