(* ===== verification/AddrSpaceLife.v ===== *)
(** * The life of an address space

    From creation through any sequence of system calls and page faults to its
    destruction: user pages are mapped only inside regions, each to a frame of
    its own, and dropping the address space returns all of those frames. *)
From stdpp Require Import sorting.
From S2P Require Import Prelude Misc Memblock Frame Sparsemem Zones Paging AddrSpace AddrSpaceSpec.
#[local] Open Scope Z_scope.

(** ** Returning frames *)

(** [B'] is [B] without the blocks in [F]. *)
Definition returned (F : Z → Prop) (B B' : gmap Z nat) : Prop :=
  ∀ f, (F f → B' !! f = None) ∧ (¬ F f → B' !! f = B !! f).

Lemma returned_none B : returned (λ _, False) B B.
Proof. by intros f. Qed.

Lemma returned_app F1 F2 B B1 B2 :
  returned F1 B B1 → returned F2 B1 B2 → returned (λ f, F1 f ∨ F2 f) B B2.
Proof.
  intros H1 H2 f. split.
  - intros [Hf|Hf]; [|by apply (H2 f)]. destruct (B2 !! f) eqn:E; [|done]. exfalso.
    assert (¬ F2 f) as Hn by (intros Hn; apply (H2 f) in Hn; congruence).
    apply (H2 f) in Hn. apply (H1 f) in Hf. congruence.
  - intros Hn. rewrite (proj2 (H2 f)) by tauto. apply (H1 f). tauto.
Qed.

Lemma returned_delete B f : returned (λ f', f' = f) B (delete f B).
Proof.
  intros f'. split; [intros ->; apply lookup_delete_eq|]. intros Hne. by apply lookup_delete_ne.
Qed.

Lemma returned_ext F F' B B' : (∀ f, F f ↔ F' f) → returned F B B' → returned F' B B'.
Proof. intros HF Hr f. destruct (Hr f). specialize (HF f). tauto. Qed.

Section life.
Context {PT M : Type} `{!X86_64 PT} `{!X86_64Laws PT} `{!PageSource M} `{!PageSourceLaws M}.

(** ** Dropping one region *)

Definition frame_in (pt : PT) (k : Z) (n : nat) (f : Z) : Prop :=
  ∃ p fl, covered k n p ∧ translate pt p = Some (f, fl).

Lemma frame_in_S pt k n f :
  k mod PAGE_SIZE = 0 →
  frame_in pt k (S n) f ↔
  frame_in pt k n f ∨ ∃ fl, translate pt (k + Z.of_nat n * PAGE_SIZE) = Some (f, fl).
Proof.
  intros Hk. unfold frame_in. split.
  - intros (p & fl & [Hc| ->]%covered_S & Ht); [left; eauto|right; eauto|done].
  - intros [(p & fl & Hc & Ht)|[fl Ht]]; eexists _, fl; (split; [|done]); apply covered_S; eauto.
Qed.

(** Every mapped page of the region has an order-0 block of its own. *)
Record frames_held (pt : PT) (B : gmap Z nat) (k : Z) (n : nat) : Prop := {
  fh_out : ∀ p f fl, covered k n p → translate pt p = Some (f, fl) → B !! f = Some 0%nat;
  fh_inj : ∀ p p' f fl fl', covered k n p → covered k n p' →
    translate pt p = Some (f, fl) → translate pt p' = Some (f, fl') → p = p'
}.

Lemma drop_vma_spec pt m B k v :
  region_ok k v → v_backing v = Reserved → pages_out m B → frames_held pt B k (npages v) →
  wp (drop_vma pt m v) (λ '(pt', m'), level_4_table pt' = level_4_table pt ∧
    unmapped_run pt pt' k (npages v) ∧
    ∃ B', pages_out m' B' ∧ returned (frame_in pt k (npages v)) B B').
Proof.
  intros Hv Hb HB [Hout Hinj]. pose proof (ro_vaddr _ _ Hv) as Hk. unfold drop_vma.
  apply (wp_for_each _ _ _ (λ done '(pt', m'), level_4_table pt' = level_4_table pt ∧
    unmapped_run pt pt' k (length done) ∧
    ∃ B', pages_out m' B' ∧ returned (frame_in pt k (length done)) B B')).
  - split; [done|]. split; [apply unmapped_run_0|]. exists B. split; [done|].
    eapply returned_ext; [|apply returned_none]. intros f. split; [done|].
    intros (p & fl & Hc & _). by apply covered_0 in Hc.
  - intros done_ i rest [pt1 m1] Hl (Hroot & Hun & B1 & HB1 & Hr). apply vma_pages_step in Hl as [-> Hi].
    rewrite length_app. simpl. rewrite Nat.add_1_r. apply wp_bind. eapply wp_page_va; [done|done|].
    destruct (unmap_single_page pt1 _) as [pt2 r] eqn:Eu. apply unmap_single_page_spec in Eu as [Hroot2 Eu].
    rewrite page_of_aligned in Eu by by apply mod_page_add. rewrite Hb.
    set (p := k + Z.of_nat (length done_) * PAGE_SIZE) in *.
    assert (translate pt1 p = translate pt p) as Ep.
    { rewrite Hun. by rewrite decide_False by apply not_covered_end. }
    assert (covered k (npages v) p) as Hp.
    { split; [|by apply mod_page_add]. unfold p, PAGE_SIZE. lia. }
    rewrite Ep in Eu. destruct (translate pt p) as [[f fl]|] eqn:Et.
    + destruct Eu as [-> Hat]. apply wp_bind.
      assert (B1 !! f = Some 0%nat) as Hf.
      { rewrite (proj2 (Hr f)); [by eapply Hout|]. intros (p' & fl' & Hc & Ht').
        assert (p' = p) as ->.
        { eapply Hinj; [|done..]. split; [|apply Hc]. destruct Hc. unfold PAGE_SIZE in *. lia. }
        by apply not_covered_end in Hc. }
      eapply wp_mono; [by apply (page_free_law m1 B1 f 0)|]. intros m2 Hm2. apply wp_ret.
      split; [congruence|]. split; [by eapply unmapped_run_S|]. exists (delete f B1). split; [done|].
      eapply returned_ext; [|eapply returned_app; [done|apply returned_delete]].
      intros f'. rewrite frame_in_S by done. fold p. rewrite Et. naive_solver.
    + destruct Eu as [[e ->] Hat]. apply wp_ret. split; [congruence|].
      split; [by eapply unmapped_run_none|]. exists B1. split; [done|].
      eapply returned_ext; [|done]. intros f'. rewrite frame_in_S by done. fold p. rewrite Et. naive_solver.
  - intros [pt' m']. by rewrite length_vma_pages.
Qed.

(** ** The invariant *)

Definition user_half (p : Z) : Prop := 0 ≤ p < 2 ^ 47.

Definition region_page (rs : gmap Z Vma) (p : Z) : Prop :=
  ∃ k v, rs !! k = Some v ∧ covered k (npages v) p.

(** [root] is the physical address of the top-level table. *)
Record life_inv (root : Z) (a : AddrSpace PT) (B : gmap Z nat) : Prop := {
  li_regions : regions_inv (vmas a);
  li_reserved : ∀ k v, vmas a !! k = Some v → v_backing v = Reserved ∧ k + v_size v < 2 ^ 47;
  li_outside : ∀ p, user_half p → ¬ region_page (vmas a) p → translate (page_table a) p = None;
  li_held : ∀ p f fl, region_page (vmas a) p → translate (page_table a) p = Some (f, fl) →
    B !! f = Some 0%nat ∧ f ≠ root;
  li_inj : ∀ p p' f fl fl', region_page (vmas a) p → region_page (vmas a) p' →
    translate (page_table a) p = Some (f, fl) → translate (page_table a) p' = Some (f, fl') → p = p';
  li_root : B !! root = Some 0%nat
}.

Lemma region_page_user root a B p : life_inv root a B → region_page (vmas a) p → user_half p.
Proof.
  intros Hl (k & v & Hk & Hc). pose proof (li_reserved _ _ _ Hl _ _ Hk) as [_ Hlt].
  destruct (ri_ok _ (li_regions _ _ _ Hl) _ _ Hk) as [Hv _]. apply (covered_inside _ _ _ Hv) in Hc as [Hin _].
  unfold inside, user_half in *. rewrite (ro_key _ _ Hv) in Hin. destruct (ro_half _ _ Hv); lia.
Qed.

Lemma life_grow root a B B' : B ⊆ B' → life_inv root a B → life_inv root a B'.
Proof.
  intros Hsub [? ? ? Hh ? Hr]. split; try done.
  - intros p f fl Hp Ht. destruct (Hh p f fl Hp Ht). split; [by eapply lookup_weaken|done].
  - by eapply lookup_weaken.
Qed.

(** Same mappings, and regions covering the same pages. *)
Lemma life_same root a a' B :
  life_inv root a B → regions_inv (vmas a') →
  (∀ k v, vmas a' !! k = Some v → v_backing v = Reserved ∧ k + v_size v < 2 ^ 47) →
  (∀ p, region_page (vmas a) p → region_page (vmas a') p) →
  (∀ p, user_half p → translate (page_table a') p = translate (page_table a) p) →
  life_inv root a' B.
Proof.
  intros Hl Hinv Hres Hpages Hpt. pose proof Hl as [_ _ Hout Hh Hi Hr].
  assert (∀ p, region_page (vmas a') p → user_half p) as Huser.
  { intros p (k & v & Hk & Hc). destruct (Hres _ _ Hk) as [_ Hlt].
    destruct (ri_ok _ Hinv _ _ Hk) as [Hv _]. apply (covered_inside _ _ _ Hv) in Hc as [Hin _].
    unfold inside, user_half in *. rewrite (ro_key _ _ Hv) in Hin. destruct (ro_half _ _ Hv); lia. }
  assert (∀ p f fl, user_half p → translate (page_table a) p = Some (f, fl) →
    region_page (vmas a) p) as Hold.
  { intros p f fl Hu Ht. destruct (decide (Exists (λ '(k, v), covered k (npages v) p) (map_to_list (vmas a))))
      as [HE|HE].
    - apply Exists_exists in HE as ([k v] & Hin%elem_of_map_to_list & Hc). by exists k, v.
    - rewrite Hout in Ht; [done|done|]. intros (k & v & Hk & Hc). apply HE, Exists_exists.
      exists (k, v). split; [by apply elem_of_map_to_list|done]. }
  split; try done.
  - intros p Hu Hn. rewrite Hpt by done. apply Hout; [done|]. auto.
  - intros p f fl Hp. rewrite Hpt by auto. intros Ht. apply (Hh p f fl); eauto.
  - intros p p' f fl fl' Hp Hp'. rewrite !Hpt by auto. intros Ht Ht'.
    apply (Hi p p' f fl fl'); eauto.
Qed.

(** [m] has handed out at least the blocks the address space relies on; its
    top-level table is at the virtual address [table]. *)
Definition alive (root table : Z) (a : AddrSpace PT) (m : M) : Prop :=
  level_4_table (page_table a) = table ∧ ∃ B, pages_out m B ∧ life_inv root a B.

Lemma alive_grown root table a B m :
  level_4_table (page_table a) = table → life_inv root a B → grown B m → alive root table a m.
Proof. intros Ht Hl (B' & Hsub & HB'). split; [done|]. exists B'. split; [done|]. by eapply life_grow. Qed.

Lemma in_half_user k n : 0 ≤ k → k + n < 2 ^ 47 → in_half k (k + n).
Proof. left. lia. Qed.

Lemma alive_map root table a m vaddr size flags :
  alive root table a m → 0 ≤ vaddr → 0 < size → vaddr + size < 2 ^ 47 →
  wp (as_map a m vaddr size Reserved flags) (λ '(a', m', _), alive root table a' m').
Proof.
  intros (Htab & B & HB & Hl) Hv Hs Hlt. set (v := mk_vma vaddr size flags Reserved).
  eapply wp_mono; [apply (as_map_spec a m B v); [apply Hl|done|simpl; lia|by apply in_half_user|done]|].
  intros [[a' m'] r] (Hg & Hinv & Hroot & Hr). apply (alive_grown root table a' B m'); [congruence| |done].
  destruct r as [u|[| | |e]].
  - destruct Hr as (Ev & Hsame & Hdisj). change (v_vaddr v) with vaddr in Ev.
    apply (life_same root a); [done|done|rewrite Ev..|intros; apply Hsame].
    + intros k w [[<- <-]|[_ Hk]]%lookup_insert_Some; [done|by apply (li_reserved _ _ _ Hl)].
    + intros p (k & w & Hk & Hc). exists k, w. split; [|done]. apply lookup_insert_Some. right.
      split; [|done]. intros <-. destruct (ri_ok _ (li_regions _ _ _ Hl) _ _ Hk) as [Hw _].
      apply (covered_inside _ _ _ Hw) in Hc as [Hin _]. unfold inside in Hin. rewrite (ro_key _ _ Hw) in Hin.
      apply (Hdisj vaddr w vaddr Hk); unfold inside; rewrite ?(ro_key _ _ Hw); simpl; lia.
  - by destruct Hr as [-> _].
  - by destruct Hr as [-> _].
  - done.
  - destruct Hr as (Ev & n & _ & Hsame). apply (life_same root a); [done|done|rewrite Ev..|intros; apply Hsame].
    + apply Hl.
    + done.
Qed.

Lemma regions_not_covered rs k v k' v' p :
  regions_inv rs → rs !! k = Some v → rs !! k' = Some v' → k ≠ k' →
  covered k (npages v) p → ¬ covered k' (npages v') p.
Proof.
  intros Hinv Hk Hk' Hne Hc Hc'.
  destruct (ri_ok _ Hinv _ _ Hk) as [Hv _]. destruct (ri_ok _ Hinv _ _ Hk') as [Hv' _].
  apply (covered_inside _ _ _ Hv) in Hc as [Hc _]. apply (covered_inside _ _ _ Hv') in Hc' as [Hc' _].
  unfold inside in *. rewrite (ro_key _ _ Hv) in Hc. rewrite (ro_key _ _ Hv') in Hc'.
  destruct (decide (k < k')) as [Hlt|].
  - pose proof (ri_ordered _ Hinv _ _ _ _ Hk Hk' Hlt). lia.
  - pose proof (ri_ordered _ Hinv _ _ _ _ Hk' Hk ltac:(lia)). lia.
Qed.

Lemma life_unmap root a a' B k v :
  life_inv root a B → vmas a !! k = Some v → regions_inv (vmas a') → vmas a' = delete k (vmas a) →
  unmapped_run (page_table a) (page_table a') k (npages v) → life_inv root a' B.
Proof.
  intros Hl Hk Hinv Ev Hun. pose proof Hl as [Hreg Hres Hout Hh Hi Hr].
  assert (∀ p, region_page (vmas a') p → region_page (vmas a) p ∧
    translate (page_table a') p = translate (page_table a) p) as Hold.
  { rewrite Ev. intros p (k' & w & [Hne Hk']%lookup_delete_Some & Hc). split; [by exists k', w|].
    rewrite Hun, decide_False; [done|]. by apply (regions_not_covered (vmas a) k' w k v). }
  split; try done.
  - rewrite Ev. intros k' w [_ Hk']%lookup_delete_Some. by apply Hres.
  - intros p Hu Hn. rewrite Hun. case_decide as Hc; [done|]. apply Hout; [done|].
    intros (k' & w & Hk' & Hc'). apply Hn. rewrite Ev. exists k', w. split; [|done].
    apply lookup_delete_Some. split; [|done]. intros <-. by simplify_eq.
  - intros p f fl [Hp E]%Hold. rewrite E. by apply Hh.
  - intros p p' f fl fl' [Hp E]%Hold [Hp' E']%Hold. rewrite E, E'. by apply Hi.
Qed.

Lemma alive_unmap root table a m k :
  alive root table a m → wp (as_unmap a k) (λ '(a', _), alive root table a' m).
Proof.
  intros (Htab & B & HB & Hl). destruct (vmas a !! k) as [v|] eqn:Hk.
  2:{ rewrite as_unmap_not_found by done. split; [done|]. by exists B. }
  eapply wp_mono; [by apply (as_unmap_spec a k v), Hk; apply Hl|].
  intros [a' r] (Hinv & Hroot & Ev & Hr). split; [congruence|]. exists B. split; [done|].
  destruct (ri_ok _ (li_regions _ _ _ Hl) _ _ Hk) as [Hv _]. rewrite (ro_key _ _ Hv) in *.
  destruct r as [u|[| | |e]]; try done.
  - by apply (life_unmap root a a' B k v).
  - destruct Hr as [Hb _]. by destruct (li_reserved _ _ _ Hl _ _ Hk).
Qed.

Lemma alive_protect root table a m k flags :
  alive root table a m → wp (as_protect a m k flags) (λ '(a', m', _), alive root table a' m').
Proof.
  intros (Htab & B & HB & Hl). destruct (vmas a !! k) as [v|] eqn:Hk.
  2:{ rewrite as_protect_not_found by done. split; [done|]. by exists B. }
  eapply wp_mono; [by apply (as_protect_spec a m B k v flags), Hk; [apply Hl|]|].
  intros [[a' m'] r] (Hg & Hinv & Hroot & Hr). apply (alive_grown root table a' B m'); [congruence| |done].
  destruct (ri_ok _ (li_regions _ _ _ Hl) _ _ Hk) as [Hv _].
  destruct (li_reserved _ _ _ Hl _ _ Hk) as [Hb Hlt]. unfold protect_result in Hr.
  rewrite (ro_key _ _ Hv) in *. destruct r as [u|[| | |e]]; try done.
  - destruct Hr as [Ev Hsame]. unfold region_mapped, backed_by in Hsame. simpl in Hsame. rewrite Hb in Hsame.
    apply (life_same root a); [done|done|rewrite Ev..|intros; apply Hsame].
    + intros k' w [[<- <-]|[_ Hk']]%lookup_insert_Some; [done|by apply (li_reserved _ _ _ Hl)].
    + intros p (k' & w & Hk' & Hc). destruct (decide (k = k')) as [<-|Hne].
      * simplify_eq. exists k, (with_flags v flags). split; [apply lookup_insert_eq|done].
      * exists k', w. split; [by rewrite lookup_insert_ne|done].
  - by destruct Hr as (_ & Hb' & _).
Qed.

Lemma life_fault root a a' B B' p0 f v :
  life_inv root a B → vmas a' = vmas a → region_page (vmas a) p0 →
  mapped_at (page_table a) (page_table a') p0 f v → B !! f = None → <[f:=0%nat]> B ⊆ B' →
  life_inv root a' B'.
Proof.
  intros Hl Ev Hp0 Hat Hnew Hsub. assert (B ⊆ B') as HB by (etransitivity; [|done]; by apply insert_subseteq).
  pose proof Hl as [Hreg Hres Hout Hh Hi Hr].
  assert (f ≠ root) as Hne by congruence.
  assert (B' !! f = Some 0%nat) as Hf by (eapply lookup_weaken; [apply lookup_insert_eq|done]).
  assert (∀ p fl, p ≠ p0 → region_page (vmas a) p → translate (page_table a) p ≠ Some (f, fl)) as Hfresh.
  { intros p fl _ Hp Ht. destruct (Hh _ _ _ Hp Ht). congruence. }
  split; rewrite ?Ev; try done.
  - intros p Hu Hn. rewrite Hat. case_decide as E; [by subst|]. by apply Hout.
  - intros p g fl Hp. rewrite Hat. case_decide as E; [by intros [= <- <-]|]. intros Ht.
    destruct (Hh _ _ _ Hp Ht). split; [by eapply lookup_weaken|done].
  - intros p p' g fl fl' Hp Hp'. rewrite !Hat. case_decide as E; case_decide as E'; [congruence|..].
    + intros [= <- <-] Ht. by apply Hfresh in Ht.
    + intros Ht [= <- <-]. by apply Hfresh in Ht.
    + by apply Hi.
  - by eapply lookup_weaken.
Qed.

Lemma alive_fault root table a m addr error a' m' r :
  alive root table a m → user_half addr → page_fault a m addr error = Ret (a', m', r) → alive root table a' m'.
Proof.
  intros (Htab & B & HB & Hl) Hu E.
  pose proof (page_fault_spec a m B addr error (li_regions _ _ _ Hl) HB) as Hp.
  specialize (Hp ltac:(left; apply Hu)). rewrite E in Hp. simpl in Hp. destruct r.
  - destruct Hp as (Ev & Hroot & v & f & ([k Hk] & Hx & _) & _ & Hat & Hnew & B' & Hsub & HB').
    split; [congruence|]. exists B'. split; [done|]. eapply life_fault; [done|done| |done|done|done].
    exists k, v. split; [done|]. by apply page_of_covered, Hx; apply (li_regions _ _ _ Hl).
  - destruct Hp as (-> & HB' & _). split; [done|]. by exists B.
Qed.

(** ** Dropping the address space *)

Definition user_frame (rs : gmap Z Vma) (pt : PT) (f : Z) : Prop :=
  ∃ p fl, region_page rs p ∧ translate pt p = Some (f, fl).

(** The state after the regions at the keys [ks] have been dropped. *)
Definition dropped (a : AddrSpace PT) (ks : list Z) (a' : AddrSpace PT) : Prop :=
  vmas a' = filter (λ '(k, _), k ∉ ks) (vmas a) ∧
  level_4_table (page_table a') = level_4_table (page_table a) ∧
  ∀ p, translate (page_table a') p =
    if decide (Exists (λ '(k, v), k ∈ ks ∧ covered k (npages v) p) (map_to_list (vmas a)))
    then None else translate (page_table a) p.

Definition frame_of_keys (a : AddrSpace PT) (ks : list Z) (f : Z) : Prop :=
  ∃ k v, k ∈ ks ∧ vmas a !! k = Some v ∧ frame_in (page_table a) k (npages v) f.

Lemma exists_covered (rs : gmap Z Vma) (ks : list Z) p :
  Exists (λ '(k, v), k ∈ ks ∧ covered k (npages v) p) (map_to_list rs) ↔
  ∃ k v, k ∈ ks ∧ rs !! k = Some v ∧ covered k (npages v) p.
Proof.
  rewrite Exists_exists. split.
  - intros ([k v] & Hk%elem_of_map_to_list & ? & ?). eauto.
  - intros (k & v & ? & ? & ?). exists (k, v). by rewrite elem_of_map_to_list.
Qed.

Lemma drop_step root a B ks k a1 m1 B1 :
  life_inv root a B → k ∉ ks → is_Some (vmas a !! k) →
  dropped a ks a1 → pages_out m1 B1 → returned (frame_of_keys a ks) B B1 →
  wp (v ← unwrap (vmas a1 !! k);
      '(pt, m) ← drop_vma (page_table a1) m1 v;
      Ret (mk_as (delete k (vmas a1)) pt, m))
    (λ '(a2, m2), dropped a (ks ++ [k]) a2 ∧
      ∃ B2, pages_out m2 B2 ∧ returned (frame_of_keys a (ks ++ [k])) B B2).
Proof.
  intros Hl Hnk [v Hk] (Ev & Hroot & Hpt) HB1 Hret.
  destruct (ri_ok _ (li_regions _ _ _ Hl) _ _ Hk) as [Hv _].
  apply wp_bind. eapply (wp_unwrap _ v).
  { rewrite Ev. apply map_lookup_filter_Some. done. }
  assert (∀ p, covered k (npages v) p → translate (page_table a1) p = translate (page_table a) p) as Hsame.
  { intros p Hc. rewrite Hpt, decide_False; [done|]. rewrite exists_covered. intros (k' & w & Hin & Hk' & Hc').
    apply (regions_not_covered (vmas a) k v k' w p); try done; [apply Hl|]. by intros ->. }
  assert (∀ f, frame_in (page_table a1) k (npages v) f ↔ frame_in (page_table a) k (npages v) f) as Hfr.
  { intros f. unfold frame_in. split; intros (p & fl & Hc & Ht); exists p, fl; rewrite Hsame in * by done; done. }
  apply wp_bind. eapply wp_mono.
  - apply (drop_vma_spec _ m1 B1 k v); [done|apply (li_reserved _ _ _ Hl _ _ Hk)|done|]. split.
    + intros p f fl Hc. rewrite Hsame by done. intros Ht. rewrite (proj2 (Hret f)).
      * apply (li_held _ _ _ Hl p f fl); [by exists k, v|done].
      * intros (k' & w & Hin & Hk' & p' & fl' & Hc' & Ht').
        assert (p = p') as <-.
        { apply (li_inj _ _ _ Hl p p' f fl fl'); [by exists k, v|by exists k', w|done|done]. }
        apply (regions_not_covered (vmas a) k v k' w p); try done; [apply Hl|]. by intros ->.
    + intros p p' f fl fl' Hc Hc'. rewrite !Hsame by done.
      apply (li_inj _ _ _ Hl); by exists k, v.
  - intros [pt2 m2] (Hroot2 & Hun & B2 & HB2 & Hret2). apply wp_ret. split.
    + split; [|split; [simpl; congruence|]]; simpl.
      * rewrite Ev. apply map_eq. intros k'. apply option_eq. intros w.
        rewrite lookup_delete_Some, !map_lookup_filter_Some, elem_of_app, list_elem_of_singleton. naive_solver.
      * intros p. rewrite Hun, Hpt. destruct (decide (covered k (npages v) p)) as [Hc|Hc].
        -- rewrite decide_True; [done|]. apply exists_covered. exists k, v. set_solver.
        -- apply decide_ext. rewrite !exists_covered. split.
           ++ intros (k' & w & ? & ? & ?). exists k', w. set_solver.
           ++ intros (k' & w & [Hin| ->%list_elem_of_singleton]%elem_of_app & Hk' & Hc'); [eauto|].
              by simplify_eq.
    + exists B2. split; [done|]. eapply returned_ext; [|by eapply returned_app].
      intros f. simpl. rewrite Hfr. unfold frame_of_keys. split.
      * intros [(k' & w & ? & ? & ?)|Hf]; [exists k', w; set_solver|exists k, v; set_solver].
      * intros (k' & w & [Hin| ->%list_elem_of_singleton]%elem_of_app & Hk' & Hf); [left; eauto|].
        right. by simplify_eq.
Qed.

Lemma dropped_nil a : dropped a [] a.
Proof.
  split; [|split; [done|]].
  - rewrite map_filter_id; [done|]. intros k v _. apply not_elem_of_nil.
  - intros p. rewrite decide_False; [done|]. rewrite exists_covered.
    intros (k & v & Hk & _). by apply not_elem_of_nil in Hk.
Qed.

Lemma entries_keys (rs : gmap Z Vma) :
  NoDup (entries rs).*1 ∧ ∀ k, k ∈ (entries rs).*1 ↔ is_Some (rs !! k).
Proof.
  split.
  - unfold entries. rewrite merge_sort_Permutation. apply NoDup_fst_map_to_list.
  - intros k. rewrite list_elem_of_fmap. split.
    + intros ([k' v] & -> & Hk%elem_of_entries). by exists v.
    + intros [v Hk]. exists (k, v). split; [done|]. by apply elem_of_entries.
Qed.

Lemma as_drop_spec hhdm root a m B :
  0 ≤ hhdm → level_4_table (page_table a) = root + hhdm →
  pages_out m B → life_inv root a B →
  wp (as_drop hhdm a m) (λ '(a', m'), vmas a' = ∅ ∧
    (∀ p, user_half p → translate (page_table a') p = None) ∧
    ∃ B', pages_out m' B' ∧ returned (λ f, user_frame (vmas a) (page_table a) f ∨ f = root) B B').
Proof.
  intros Hh Htab HB Hl. unfold as_drop. cbv zeta.
  destruct (entries_keys (vmas a)) as [Hnd Hin].
  apply wp_bind. eapply (wp_for_each _ _ _ (λ ks '(a1, m1), dropped a ks a1 ∧
    ∃ B1, pages_out m1 B1 ∧ returned (frame_of_keys a ks) B B1)).
  - split; [apply dropped_nil|]. exists B. split; [done|].
    eapply returned_ext; [|apply returned_none]. intros f. split; [done|].
    intros (k & v & Hk & _). by apply not_elem_of_nil in Hk.
  - intros ks k rest [a1 m1] Hks (Hd & B1 & HB1 & Hr).
    apply (drop_step root a B ks k a1 m1 B1); [done| |apply Hin; rewrite Hks; set_solver|done..].
    rewrite Hks in Hnd. apply NoDup_app in Hnd as (_ & Hd' & _). intros Hk. apply (Hd' k Hk). by left.
  - intros [a1 m1] ((Ev & Hroot & Hpt) & B1 & HB1 & Hr).
    assert (B1 !! root = Some 0%nat) as Hrt.
    { rewrite (proj2 (Hr root)); [apply Hl|]. intros (k & v & _ & Hk & p & fl & Hc & Ht).
      destruct (li_held _ _ _ Hl p root fl); [by exists k, v|done|done]. }
    destruct (pages_out_aligned _ _ _ _ HB1 Hrt) as (Hr0 & _ & Hr1).
    unfold get_page_table_phys, virt_to_phys. rewrite Hroot, Htab.
    apply wp_bind, wp_bind, wp_sub64; [lia|]. rewrite Z.add_simpl_r.
    apply wp_phys_new; [unfold block_bytes, PAGE_SIZE in Hr1; lia|].
    apply wp_bind. eapply wp_mono; [by apply (page_free_law m1 B1 root 0)|]. intros m2 HB2. apply wp_ret.
    split; [|split; [|exists (delete root B1); split; [done|]]].
    + rewrite Ev. apply map_empty. intros k. apply map_lookup_filter_None. right. intros v Hk Hn.
      apply Hn, Hin. eauto.
    + intros p Hu. rewrite Hpt. case_decide as HE; [done|]. apply (li_outside _ _ _ Hl); [done|].
      intros (k & v & Hk & Hc). apply HE, exists_covered. exists k, v. split; [apply Hin; eauto|done].
    + eapply returned_ext; [|eapply returned_app; [done|apply returned_delete]].
      intros f. simpl. apply or_iff_compat_r. split.
      * intros (k & v & _ & Hk & p & fl & Hc & Ht). exists p, fl. split; [by exists k, v|done].
      * intros (p & fl & (k & v & Hk & Hc) & Ht). exists k, v. split; [apply Hin; eauto|]. split; [done|].
        by exists p, fl.
Qed.
End life.
