(* ===== verification/AddrSpaceTheorems.v ===== *)
(** * Address spaces: theorems

    The claims about address spaces, proved against the interfaces of the page
    allocator and of the x86_64 crate and applied to the zone manager and the
    reference page table. *)
From S2P Require Import Prelude Misc Memblock Frame Bump Sparsemem SparsememSpec SparsememInit PfnIter.
From S2P Require Import Buddy BuddyLists BuddyBlocks BuddySpec BuddyTheorems Zones ZonesSpec ZonesManager.
From S2P Require Import Paging PagingRef ZonesSource AddrSpace AddrSpaceSpec AddrSpaceLife.
#[local] Open Scope Z_scope.

(** ** Sequences of operations *)



Section theorems.
Context {PT M : Type} `{!X86_64 PT} `{!X86_64Laws PT} `{!PageSource M} `{!PageSourceLaws M}.











(** A request to map a region returns, whatever the page allocator and the
    page tables answer, and exactly one of these happens: it is refused as
    misaligned or because a region overlaps it, with nothing changed; a page
    cannot be mapped, and no region is recorded; or the region is recorded,
    disjoint from all others, and its pages map to their consecutive frames
    with exactly the requested rights, all other pages being unchanged. *)
Theorem map_request_outcomes a m B v :
  regions_inv (vmas a) → pages_out m B →
  0 ≤ v_size v → in_half (v_vaddr v) (v_vaddr v + v_size v) → backing_ok v →
  wp (as_map a m (v_vaddr v) (v_size v) (v_backing v) (v_flags v)) (λ '(a', m', r),
    grown B m' ∧ regions_inv (vmas a') ∧ map_result a a' v r ∧
    rights_match (v_flags v) (to_page_table_flags (PT:=PT) (v_flags v))).
Proof.
  intros Hinv HB Hs Hh Hb. eapply wp_mono; [by apply (as_map_spec a m B v)|].
  intros [[a' m'] r] (Hg & Hinv' & _ & Hr). split; [done|]. split; [done|]. split; [done|].
  apply page_table_flags_rights.
Qed.


(** Mapping an empty region at the address of an existing one succeeds and
    forgets that region while its pages stay mapped. *)
Theorem empty_map_forgets_region a m B k v flags :
  regions_inv (vmas a) → pages_out m B → vmas a !! k = Some v →
  wp (as_map a m k 0 Reserved flags) (λ '(a', _, r), r = Ok () ∧
    vmas a' !! k = Some (mk_vma k 0 flags Reserved) ∧
    ∀ p, translate (page_table a') p = translate (page_table a) p).
Proof.
  intros Hinv HB Hk. destruct (ri_ok _ Hinv _ _ Hk) as [Hv _]. pose proof (ro_size _ _ Hv).
  set (w := mk_vma k 0 flags Reserved).
  assert (in_half k (k + 0)) as Hh.
  { pose proof (ro_half _ _ Hv). unfold in_half in *. lia. }
  eapply wp_mono; [apply (as_map_spec a m B w); [done|done|done|done|done]|].
  intros [[a' m'] r] (_ & _ & _ & Hr). destruct r as [[]|[| | |e]].
  - destruct Hr as (Ev & Hs & _). rewrite Ev. split; [done|]. split; [apply lookup_insert_eq|done].
  - destruct Hr as [_ [Hr|Hr]]; simpl in Hr; [|done]. by rewrite (ro_vaddr _ _ Hv) in Hr.
  - destruct Hr as (_ & k' & v' & Hk' & Hlt & Hlt'). simpl in *.
    pose proof (ri_ordered _ Hinv _ _ _ _ Hk' Hk ltac:(lia)). lia.
  - done.
  - destruct Hr as (_ & n & Hn & _). change (npages w) with 0%nat in Hn. lia.
Qed.

End theorems.

(** ** The theorems at the sample machine *)



Lemma map_request_outcomes_witness :
  ∃ (m : zmem) (root : Z),
    wp (as_map (as_new (mk_ref root ∅)) m 0x400000 8192 (Device 0xFEE00000) 11) (λ '(_, _, r), True) ∧
    in_half 0x400000 (0x400000 + 8192).
Proof.
  destruct small_machine_page as (m & root & Hout & _). exists m, root.
  assert (in_half 0x400000 (0x400000 + 8192)) as Hh by (unfold in_half; lia).
  split; [|exact Hh].
  eapply wp_mono; [apply (map_request_outcomes (as_new (mk_ref root ∅)) m {[root := 0%nat]}
    (mk_vma 0x400000 8192 11 (Device 0xFEE00000))); [|exact Hout|simpl; lia|exact Hh|]|].
  - split; intros *; simpl; by rewrite lookup_empty.
  - unfold backing_ok. simpl. split; [lia|]. split; [reflexivity|lia].
  - intros [[a' m'] r] _. exact I.
Defined.

