(* ===== verification/Devices.v ===== *)
(** * Devices

    Models kernel/src/misc/registers.rs (typed memory-mapped registers),
    arch/amd64/ports.rs, apic/lapic.rs, apic/ioapic.rs, apic/mod.rs and
    timer/mod.rs.  A device is anything that answers reads and writes of a
    number of bytes at an address, or at a port; a read may change it.  The
    hardware itself is modelled in DevicesSpec.v. *)
From S2P Require Import Prelude Misc Memblock Frame Sparsemem Zones Paging.
#[local] Open Scope Z_scope.

Class Mmio (D : Type) := {
  mmio_read : nat → Z → D → D * Z;
  mmio_write : nat → Z → Z → D → D
}.

Class PortIo (D : Type) := {
  port_in : nat → Z → D → D * Z;
  port_out : nat → Z → Z → D → D
}.

(** ** Registers *)

(** A register of [n] bytes at an address: [RegisterRW], [RegisterRO],
    [RegisterROSideEffect] and [RegisterWO]. *)
Record RegisterRW (n : nat) := mk_rw { rw_address : Z }.
Record RegisterRO (n : nat) := mk_ro { ro_address : Z }.
Record RegisterROSideEffect (n : nat) := mk_ros { ros_address : Z }.
Record RegisterWO (n : nat) := mk_wo { wo_address : Z }.
Arguments mk_rw n rw_address : assert.
Arguments mk_ro n ro_address : assert.
Arguments mk_ros n ros_address : assert.
Arguments mk_wo n wo_address : assert.
Arguments rw_address {n}.
Arguments ro_address {n}.
Arguments ros_address {n}.
Arguments wo_address {n}.

Section registers.
Context {D : Type} `{!Mmio D}.

Definition rw_read {n} (r : RegisterRW n) (d : D) : D * Z := mmio_read n (rw_address r) d.
Definition rw_write {n} (r : RegisterRW n) (val : Z) (d : D) : D := mmio_write n (rw_address r) val d.
Definition rw_modify {n} (r : RegisterRW n) (f : Z → Z) (d : D) : D :=
  let '(d, val) := rw_read r d in rw_write r (f val) d.
Definition ro_read {n} (r : RegisterRO n) (d : D) : D * Z := mmio_read n (ro_address r) d.
Definition ros_read {n} (r : RegisterROSideEffect n) (d : D) : D * Z := mmio_read n (ros_address r) d.
Definition wo_write {n} (r : RegisterWO n) (val : Z) (d : D) : D := mmio_write n (wo_address r) val d.

(** The accessors of [register_struct!]: a register at an offset. *)
Definition field_rw (n : nat) (address offset : Z) : outcome (RegisterRW n) := a ← add64 address offset; Ret (mk_rw n a).
Definition field_ro (n : nat) (address offset : Z) : outcome (RegisterRO n) := a ← add64 address offset; Ret (mk_ro n a).
Definition field_wo (n : nat) (address offset : Z) : outcome (RegisterWO n) := a ← add64 address offset; Ret (mk_wo n a).
End registers.

(** ** The local APIC *)

Definition SVR_ENABLE : Z := 0x100.
Definition SPURIOUS_VECTOR : Z := 0xEF.

Inductive LapicTimerDivide := Div1 | Div2 | Div4 | Div8 | Div16 | Div32 | Div64 | Div128.

(** The discriminants of [repr(u32)]. *)
Definition divide_bits (d : LapicTimerDivide) : Z :=
  match d with
  | Div1 => 0xB | Div2 => 0 | Div4 => 1 | Div8 => 2 | Div16 => 3 | Div32 => 8 | Div64 => 9 | Div128 => 10
  end.

(** The address of the registers. *)
Record Lapic := mk_lapic { lapic_address : Z }.

Section lapic.
Context {D : Type} `{!Mmio D}.
Implicit Types (l : Lapic) (d : D).

(** [LAPICRegisters]. *)
Definition lapic_id l : outcome (RegisterRO 4) := field_ro 4 (lapic_address l) 0x020.
Definition lapic_tpr l : outcome (RegisterRW 4) := field_rw 4 (lapic_address l) 0x080.
Definition lapic_eoi_reg l : outcome (RegisterWO 4) := field_wo 4 (lapic_address l) 0x0B0.
Definition lapic_svr l : outcome (RegisterRW 4) := field_rw 4 (lapic_address l) 0x0F0.
Definition lapic_timer l : outcome (RegisterRW 4) := field_rw 4 (lapic_address l) 0x320.
Definition lapic_timer_init l : outcome (RegisterRW 4) := field_rw 4 (lapic_address l) 0x380.
Definition lapic_timer_curr l : outcome (RegisterRW 4) := field_rw 4 (lapic_address l) 0x390.
Definition lapic_timer_div l : outcome (RegisterRW 4) := field_rw 4 (lapic_address l) 0x3E0.

Definition eoi l d : outcome D := r ← lapic_eoi_reg l; Ret (wo_write r 0 d).

Definition id_of l d : outcome (D * Z) :=
  r ← lapic_id l;
  let '(d, v) := ro_read r d in
  Ret (d, Z.shiftr v 24).

Definition enable l d : outcome D :=
  r ← lapic_svr l;
  let '(d, svr) := rw_read r d in
  let svr := Z.land svr (u32_max - 0xFF) in
  let svr := Z.lor svr SPURIOUS_VECTOR in
  let svr := Z.lor svr SVR_ENABLE in
  r ← lapic_svr l;
  let d := rw_write r svr d in
  r ← lapic_svr l;
  let '(d, _) := rw_read r d in
  Ret d.

Definition set_task_priority l (priority : Z) d : outcome D := r ← lapic_tpr l; Ret (rw_write r priority d).
Definition stop_timer l d : outcome D := r ← lapic_timer_init l; Ret (rw_write r 0 d).
Definition set_timer_divide l (div : LapicTimerDivide) d : outcome D :=
  r ← lapic_timer_div l; Ret (rw_write r (divide_bits div) d).

Definition set_lvt_timer l (vector : Z) (periodic : bool) d : outcome D :=
  let value := if periodic then Z.lor vector (Z.shiftl 1 17) else vector in
  r ← lapic_timer l;
  Ret (rw_write r value d).

Definition set_timer_initial l (count : Z) d : outcome D := r ← lapic_timer_init l; Ret (rw_write r count d).
Definition read_timer_current l d : outcome (D * Z) := r ← lapic_timer_curr l; Ret (rw_read r d).

Definition setup_timer_periodic l (vector : Z) (div : LapicTimerDivide) (initial_count : Z) d : outcome D :=
  d ← set_timer_divide l div d;
  d ← set_lvt_timer l vector true d;
  set_timer_initial l initial_count d.

Definition is_initialized l : bool := negb (lapic_address l =? 0).
End lapic.

(** [Lapic::new] maps the page of the registers. *)
Section mapping.
Context {PT M : Type} `{!X86_64 PT} `{!PageSource M}.

Definition DEVICE_FLAGS : Z := flags_of [b_present page_bits; b_writable page_bits; b_no_cache page_bits].

Definition lapic_new (pt : PT) (m : M) (phys_addr virt_addr : Z) : outcome (PT * M * Lapic) :=
  let aligned_virt_addr := page_containing virt_addr in
  '(pt, m) ← kmap_mmio_page pt m aligned_virt_addr phys_addr DEVICE_FLAGS;
  Ret (pt, m, mk_lapic aligned_virt_addr).
End mapping.

(** ** The I/O APIC *)

Definition IOAPIC_ID_REGISTER_OFFSET : Z := 0x00.
Definition IOAPIC_REDIRECTION_TABLE_REGISTER_OFFSET : Z := 0x10.

(** [IOAPICID::id]: bits 24 to 27. *)
Definition ioapicid_id (raw : Z) : Z := Z.land (Z.shiftr raw 24) 0xF.

(** [IOAPICRedirectionTableRegister]. *)
Record Redirection := mk_redirection {
  interrupt_vector : Z;
  delivery_mode : Z;
  destination_mode : bool;
  delivery_status : bool;
  interrupt_input_pin_polarity : bool;
  remote_irr : bool;
  trigger_mode : bool;
  interrupt_mask : bool;
  destination_field : Z
}.

Definition bit_at (b : bool) (i : Z) : Z := Z.shiftl (Z.b2z b) i.

(** Its [u64], in the order of the fields. *)
Definition redirection_bits (r : Redirection) : Z :=
  Z.lor (interrupt_vector r)
    (Z.lor (Z.shiftl (delivery_mode r) 8)
      (Z.lor (bit_at (destination_mode r) 11)
        (Z.lor (bit_at (delivery_status r) 12)
          (Z.lor (bit_at (interrupt_input_pin_polarity r) 13)
            (Z.lor (bit_at (remote_irr r) 14)
              (Z.lor (bit_at (trigger_mode r) 15)
                (Z.lor (bit_at (interrupt_mask r) 16)
                  (Z.shiftl (destination_field r) 56)))))))).

Record IOApic := mk_ioapic { ioapic_id_field : Z; gsi_base : Z; ioapic_address : Z }.

(** Arithmetic on [u8]. *)
Definition add8 (x y : Z) : outcome Z := if x + y <=? 255 then Ret (x + y) else Panic POverflow.
Definition mul8 (x y : Z) : outcome Z := if x * y <=? 255 then Ret (x * y) else Panic POverflow.

Section ioapic.
Context {D : Type} `{!Mmio D}.
Implicit Types (io : IOApic) (d : D).

Definition io_reg_select io : outcome (RegisterRW 1) := field_rw 1 (ioapic_address io) 0x00.
Definition io_window io : outcome (RegisterRW 4) := field_rw 4 (ioapic_address io) 0x10.

Definition read_32b_from_reg io (reg : Z) d : outcome (D * Z) :=
  r ← io_reg_select io;
  let d := rw_write r reg d in
  r ← io_window io;
  Ret (rw_read r d).

Definition read_64b_from_reg io (reg : Z) d : outcome (D * Z) :=
  '(d, low) ← read_32b_from_reg io reg d;
  reg' ← add8 reg 1;
  '(d, hight) ← read_32b_from_reg io reg' d;
  Ret (d, Z.lor (Z.shiftl hight 32) low).

Definition write_32b_to_reg io (register value : Z) d : outcome D :=
  r ← io_reg_select io;
  let d := rw_write r register d in
  r ← io_window io;
  Ret (rw_write r value d).

Definition write_64b_to_reg io (register value : Z) d : outcome D :=
  let low := value mod 2 ^ 32 in
  let high := Z.shiftr value 32 mod 2 ^ 32 in
  d ← write_32b_to_reg io register low d;
  register' ← add8 register 1;
  write_32b_to_reg io register' high d.

(** The id of the returned [IOAPICID]. *)
Definition ioapic_id io d : outcome (D * Z) :=
  '(d, raw) ← read_32b_from_reg io IOAPIC_ID_REGISTER_OFFSET d;
  Ret (d, ioapicid_id raw).

Definition write_ioredtbl io (entry : Z) (value : Redirection) d : outcome D :=
  _ ← assert (entry <? 24);
  e ← mul8 entry 2;
  offset ← add8 IOAPIC_REDIRECTION_TABLE_REGISTER_OFFSET e;
  write_64b_to_reg io offset (redirection_bits value) d.

Definition install_ioapic_irq (ioapic : option IOApic) (irq_num vector_num : Z) d : outcome D :=
  io ← unwrap ioapic;
  '(d, id) ← ioapic_id io d;
  write_ioredtbl io irq_num (mk_redirection vector_num 0 false false false false false false id) d.
End ioapic.

(** ** The HPET *)

Definition HPET_CFG_ENABLE : Z := Z.shiftl 1 0.
Definition HPET_CFG_LEGACY : Z := Z.shiftl 1 1.

Record HPET := mk_hpet { hpet_regs : Z; period_fs : Z }.

(** Offsets in [HpetRegisters] and its size. *)
Definition general_cap_id : Z := 0x000.
Definition general_config : Z := 0x010.
Definition main_counter : Z := 0x0F0.
Definition HPET_REGISTERS_BYTES : Z := 0x0F8.

Section hpet.
Context {D : Type} `{!Mmio D}.
Implicit Types (h : HPET) (d : D).

Definition hpet_init h (enable_legacy : bool) d : HPET * D :=
  let r := hpet_regs h in
  let d := mmio_write 8 (r + general_config) 0 d in
  let '(d, caps) := mmio_read 8 (r + general_cap_id) d in
  let h := mk_hpet r (Z.shiftr caps 32) in
  let d := mmio_write 8 (r + main_counter) 0 d in
  let cfg := if enable_legacy then Z.lor HPET_CFG_ENABLE HPET_CFG_LEGACY else HPET_CFG_ENABLE in
  let d := mmio_write 8 (r + general_config) cfg d in
  (h, d).

Definition read_counter h d : D * Z := mmio_read 8 (hpet_regs h + main_counter) d.

Definition is_ticking h (spins : nat) d : outcome (D * bool) :=
  let '(d, a) := read_counter h d in
  r ← for_each_ret (λ _ d,
    let '(d, b) := read_counter h d in
    Ret (if b =? a then inl d else inr d)) (seq 0 spins) d;
  match r with
  | inr d => Ret (d, true)
  | inl d => Ret (d, false)
  end.

(** ** Calibrating the timer of the local APIC *)

Definition TIMER_VECTOR : Z := 0x30.
Definition CALIBRATION_MS : Z := 10.

(** One round of the wait: [inr] when the time has passed. *)
Definition wait_step h (hpet_start hpet_ticks_target : Z) d : outcome (D + D) :=
  let '(d, c) := read_counter h d in
  Ret (if wrap64 (c - hpet_start) <? hpet_ticks_target then inl d else inr d).

Definition calibrate_lapic_timer (fuel : nat) h (lapic : Lapic) d : outcome (D * Z) :=
  n ← mul64 CALIBRATION_MS 1000000000000;
  _ ← (if period_fs h =? 0 then Panic PExplicit else Ret ());
  let hpet_ticks_target := n / period_fs h in
  d ← set_timer_divide lapic Div16 d;
  d ← set_lvt_timer lapic TIMER_VECTOR false d;
  d ← set_timer_initial lapic u32_max d;
  let '(d, hpet_start) := read_counter h d in
  '(d, lapic_start) ← read_timer_current (D := D) lapic d;
  d ← Prelude.iter fuel (wait_step h hpet_start hpet_ticks_target) d;
  '(d, lapic_end) ← read_timer_current (D := D) lapic d;
  Ret (d, (lapic_start - lapic_end) mod 2 ^ 32).

Definition start_timer (fuel : nat) h (lapic : Lapic) d : outcome D :=
  '(d, ticks_10ms) ← calibrate_lapic_timer fuel h lapic d;
  let ticks_1ms := ticks_10ms / 10 in
  setup_timer_periodic lapic TIMER_VECTOR Div16 ticks_1ms d.
End hpet.

Section setup.
Context {PT M D : Type} `{!X86_64 PT} `{!PageSource M} `{!Mmio D}.

(** [init_lapic_percpu] with the address of the local APIC. *)
Definition init_lapic (hhdm lapic_addr : Z) (pt : PT) (m : M) (d : D) : outcome (PT * M * D * Lapic) :=
  a ← phys_to_virt hhdm lapic_addr;
  lapic_virt ← virt_new a;
  '(pt, m, l) ← lapic_new pt m lapic_addr lapic_virt;
  d ← enable l d;
  d ← set_task_priority l 0 d;
  Ret (pt, m, d, l).

Definition initialize_hpet (hpet_phys_base : Z) (pt : PT) (m : M) (d : D) : outcome (PT * M * D * HPET) :=
  '(pt, m, hpet_virt) ← map_mmio_region pt m hpet_phys_base HPET_REGISTERS_BYTES;
  _ ← (if hpet_virt =? 0 then Panic PUnwrap else Ret ());
  let '(h, d) := hpet_init (mk_hpet hpet_virt 0) true d in
  '(d, _) ← is_ticking h (Z.to_nat 50000000) d;
  Ret (pt, m, d, h).
End setup.

Definition PIC_MASTER_PORT : Z := 0x20.
Definition PIC_SLAVE_PORT : Z := 0xA0.

Definition disable_pic {D} `{!PortIo D} (d : D) : D :=
  let d := port_out 1 (PIC_MASTER_PORT + 1) 0xFF d in
  port_out 1 (PIC_SLAVE_PORT + 1) 0xFF d.

(** [lapic_eoi]: the GS base decides between the local APIC of the CPU and the
    one set up at boot. *)
Definition lapic_eoi {D} `{!Mmio D} (gsbase : Z) (percpu : Lapic) (boot : option Lapic) (d : D) : outcome D :=
  if negb (gsbase =? 0) then eoi percpu d
  else l ← unwrap boot; eoi l d.
