(* ===== verification/DevicesSpec.v ===== *)
(** * Devices: what the drivers achieve on the hardware

    The I/O APIC and the two timers as the hardware manuals describe them, and
    the drivers of Devices.v on top: an interrupt line is routed as asked and
    no other line changes; the periodic interrupt of the local APIC comes every
    millisecond, up to an error that depends on the resolution of the timers
    and the time an access takes. *)
From S2P Require Import Prelude Misc Memblock Frame Sparsemem Zones Paging Devices.
#[local] Open Scope Z_scope.

(** ** The I/O APIC *)

(** The index register and the 32-bit registers behind the window. *)
Record ioapic_hw := mk_ioapic_hw { ih_select : Z; ih_reg : Z → Z }.

Definition ih_set (i v : Z) (f : Z → Z) : Z → Z := λ j, if decide (j = i) then v else f j.

Section ioapic.
Context (base : Z).

#[local] Instance ioapic_mmio : Mmio ioapic_hw := {|
  mmio_read n a d :=
    if decide (a = base + 0x10) then (d, ih_reg d (ih_select d))
    else if decide (a = base) then (d, ih_select d) else (d, 0);
  mmio_write n a v d :=
    if decide (a = base + 0x10) then mk_ioapic_hw (ih_select d) (ih_set (ih_select d) v (ih_reg d))
    else if decide (a = base) then mk_ioapic_hw v (ih_reg d) else d
|}.

(** How the hardware reads the 64 bits of a redirection entry. *)
Definition decode_redirection (v : Z) : Redirection :=
  mk_redirection (Z.land v 0xFF) (Z.land (Z.shiftr v 8) 7) (Z.testbit v 11) (Z.testbit v 12) (Z.testbit v 13)
    (Z.testbit v 14) (Z.testbit v 15) (Z.testbit v 16) (Z.shiftr v 56).

Definition entry_bits (d : ioapic_hw) (i : Z) : Z := Z.lor (Z.shiftl (ih_reg d (0x10 + 2 * i + 1)) 32) (ih_reg d (0x10 + 2 * i)).

Definition redirection_ok (r : Redirection) : Prop :=
  0 ≤ interrupt_vector r < 256 ∧ 0 ≤ delivery_mode r < 8 ∧ 0 ≤ destination_field r < 256.

Lemma testbit_above v n i : 0 ≤ v < 2 ^ n → 0 ≤ n ≤ i → Z.testbit v i = false.
Proof.
  intros Hv Hi. destruct (decide (v = 0)) as [->|Hne]; [apply Z.bits_0|].
  apply Z.bits_above_log2; [lia|]. apply (Z.lt_le_trans _ n); [|lia]. apply Z.log2_lt_pow2; lia.
Qed.

(** The bits of an entry. *)
Lemma redirection_testbit r i :
  0 ≤ i →
  Z.testbit (redirection_bits r) i =
    Z.testbit (interrupt_vector r) i || (Z.testbit (delivery_mode r) (i - 8) ||
    (destination_mode r && (i =? 11) || (delivery_status r && (i =? 12) ||
    (interrupt_input_pin_polarity r && (i =? 13) || (remote_irr r && (i =? 14) ||
    (trigger_mode r && (i =? 15) || (interrupt_mask r && (i =? 16) || Z.testbit (destination_field r) (i - 56)))))))).
Proof.
  intros Hi. unfold redirection_bits, bit_at. rewrite !Z.lor_spec, !Z.shiftl_spec by done.
  assert (∀ b k, Z.testbit (Z.b2z b) (i - k) = b && (i =? k)) as Hb.
  { intros b k. destruct (Z.eqb_spec i k) as [->|Hne]; [rewrite Z.sub_diag; destruct b; reflexivity|].
    rewrite andb_false_r. destruct b; [|apply Z.bits_0]. change (Z.b2z true) with (2 ^ 0). apply Z.pow2_bits_false. lia. }
  by rewrite !Hb.
Qed.

(** Evaluates the disjunction at an index that is known well enough. *)
#[local] Ltac known_bits Tv Tm Td :=
  rewrite redirection_testbit by lia; cbn [interrupt_vector delivery_mode destination_mode delivery_status
    interrupt_input_pin_polarity remote_irr trigger_mode interrupt_mask destination_field];
  repeat match goal with |- context [?x =? ?y] =>
    first [destruct (Z.eqb_spec x y); [lia|]|destruct (Z.eqb_spec x y); [|lia]] end;
  repeat first [rewrite Tv by lia|rewrite Tm by lia|rewrite Td by lia];
  rewrite ?andb_false_r, ?orb_false_r, ?orb_false_l, ?andb_true_r.

Lemma decode_bits r : redirection_ok r → decode_redirection (redirection_bits r) = r ∧ 0 ≤ redirection_bits r < 2 ^ 64.
Proof.
  intros (Hv & Hm & Hd). destruct r as [v m b1 b2 b3 b4 b5 b6 d]. cbn [interrupt_vector delivery_mode destination_field] in *.
  assert (∀ i, 8 ≤ i → Z.testbit v i = false) as Tv by (intros i Hi; apply (testbit_above v 8); lia).
  assert (∀ i, i < 0 ∨ 3 ≤ i → Z.testbit m i = false) as Tm.
  { intros i [Hi|Hi]; [by apply Z.testbit_neg_r|apply (testbit_above m 3); lia]. }
  assert (∀ i, i < 0 ∨ 8 ≤ i → Z.testbit d i = false) as Td.
  { intros i [Hi|Hi]; [by apply Z.testbit_neg_r|apply (testbit_above d 8); lia]. }
  set (r := mk_redirection v m b1 b2 b3 b4 b5 b6 d).
  assert (Z.land (redirection_bits r) 0xFF = v) as E1.
  { apply Z.bits_inj'. intros i Hi. change 0xFF with (Z.ones 8). rewrite Z.land_spec, Z.testbit_ones_nonneg by lia.
    destruct (Z.ltb_spec i 8); [by known_bits Tv Tm Td|]. rewrite andb_false_r. symmetry. by apply Tv. }
  assert (Z.land (Z.shiftr (redirection_bits r) 8) 7 = m) as E2.
  { apply Z.bits_inj'. intros i Hi. change 7 with (Z.ones 3). rewrite Z.land_spec, Z.testbit_ones_nonneg, Z.shiftr_spec by lia.
    destruct (Z.ltb_spec i 3); [known_bits Tv Tm Td; f_equal; lia|]. rewrite andb_false_r. symmetry. apply Tm. lia. }
  assert (Z.shiftr (redirection_bits r) 56 = d) as E3.
  { apply Z.bits_inj'. intros i Hi. rewrite Z.shiftr_spec by lia. known_bits Tv Tm Td. f_equal. lia. }
  split.
  - unfold decode_redirection. rewrite E1, E2, E3. unfold r. f_equal; by known_bits Tv Tm Td.
  - replace (redirection_bits r) with (redirection_bits r mod 2 ^ 64); [apply Z.mod_pos_bound; lia|].
    apply Z.bits_inj'. intros i Hi. destruct (Z.lt_ge_cases i 64) as [Hlt|Hge]; [by rewrite Z.mod_pow2_bits_low|].
    rewrite Z.mod_pow2_bits_high by lia. known_bits Tv Tm Td. done.
Qed.

Context (Hroom : base + 0x10 ≤ u64_max).
Implicit Types (d : ioapic_hw).
#[local] Notation io id gsi := (mk_ioapic id gsi base).

Lemma read_32b_spec id gsi reg d :
  read_32b_from_reg (io id gsi) reg d = Ret (mk_ioapic_hw reg (ih_reg d), ih_reg d reg).
Proof.
  unfold read_32b_from_reg, io_reg_select, io_window, field_rw, add64. cbn [ioapic_address].
  rewrite (proj2 (Z.leb_le (base + 0) u64_max)), (proj2 (Z.leb_le (base + 0x10) u64_max)) by lia. cbn -[Z.add].
  rewrite (decide_False (P := base + 0 = base + 16)), (decide_True (P := base + 0 = base)) by lia. cbn -[Z.add].
  by rewrite decide_True.
Qed.

Lemma write_32b_spec id gsi reg v d :
  write_32b_to_reg (io id gsi) reg v d = Ret (mk_ioapic_hw reg (ih_set reg v (ih_reg d))).
Proof.
  unfold write_32b_to_reg, io_reg_select, io_window, field_rw, add64. cbn [ioapic_address].
  rewrite (proj2 (Z.leb_le (base + 0) u64_max)), (proj2 (Z.leb_le (base + 0x10) u64_max)) by lia. cbn -[Z.add].
  rewrite (decide_False (P := base + 0 = base + 16)), (decide_True (P := base + 0 = base)) by lia. cbn -[Z.add].
  by rewrite decide_True.
Qed.

Lemma write_64b_spec id gsi reg v d :
  reg < 255 →
  write_64b_to_reg (io id gsi) reg v d =
    Ret (mk_ioapic_hw (reg + 1) (ih_set (reg + 1) (Z.shiftr v 32 mod 2 ^ 32) (ih_set reg (v mod 2 ^ 32) (ih_reg d)))).
Proof.
  intros Hr. unfold write_64b_to_reg. rewrite write_32b_spec. cbn [mbind outcome_bind]. unfold add8.
  rewrite (proj2 (Z.leb_le (reg + 1) 255)) by lia. cbn [mbind outcome_bind]. apply write_32b_spec.
Qed.

(** Both halves of a 64-bit value. *)
Lemma halves v : 0 ≤ v < 2 ^ 64 → Z.lor (Z.shiftl (Z.shiftr v 32 mod 2 ^ 32) 32) (v mod 2 ^ 32) = v.
Proof.
  intros Hv. apply Z.bits_inj'. intros i Hi. rewrite Z.lor_spec, Z.shiftl_spec by lia.
  destruct (Z.lt_ge_cases i 32) as [Hlt|Hge].
  - by rewrite (Z.mod_pow2_bits_low v), (Z.testbit_neg_r _ (i - 32)) by lia.
  - rewrite (Z.mod_pow2_bits_high v) by lia. rewrite orb_false_r. destruct (Z.lt_ge_cases i 64) as [Hlt|Hge'].
    + rewrite Z.mod_pow2_bits_low, Z.shiftr_spec by lia. f_equal. lia.
    + rewrite Z.mod_pow2_bits_high by lia. symmetry. apply (testbit_above v 64); lia.
Qed.

Lemma write_ioredtbl_spec id gsi i r d :
  redirection_ok r → 0 ≤ i < 24 →
  wp (write_ioredtbl (io id gsi) i r d) (λ d',
    decode_redirection (entry_bits d' i) = r ∧
    ∀ j, j ≠ 0x10 + 2 * i → j ≠ 0x10 + 2 * i + 1 → ih_reg d' j = ih_reg d j).
Proof.
  intros Hr Hi. destruct (decode_bits r Hr) as [Hdec Hrange]. unfold write_ioredtbl.
  rewrite (proj2 (Z.ltb_lt i 24)) by lia. cbn [mbind outcome_bind Prelude.assert]. unfold mul8, add8 at 1.
  rewrite (proj2 (Z.leb_le (i * 2) 255)) by lia. cbn [mbind outcome_bind].
  unfold IOAPIC_REDIRECTION_TABLE_REGISTER_OFFSET. rewrite (proj2 (Z.leb_le (0x10 + i * 2) 255)) by lia. cbn [mbind outcome_bind].
  replace (0x10 + i * 2) with (0x10 + 2 * i) by lia. rewrite write_64b_spec by lia. apply wp_ret. split.
  - unfold entry_bits. cbn [ih_reg]. unfold ih_set at 1. rewrite decide_True by done.
    unfold ih_set at 1. rewrite decide_False by lia. unfold ih_set. rewrite decide_True by done. by rewrite halves.
  - intros j H1 H2. cbn [ih_reg]. unfold ih_set. by rewrite !decide_False.
Qed.

(** A 64-bit register reads as it was written. *)
Lemma ioapic_64b_roundtrip id gsi reg v d :
  reg < 255 → 0 ≤ v < 2 ^ 64 →
  wp (d' ← write_64b_to_reg (io id gsi) reg v d; read_64b_from_reg (io id gsi) reg d') (λ '(_, v'), v' = v).
Proof.
  intros Hr Hv. rewrite write_64b_spec by done. cbn [mbind outcome_bind]. unfold read_64b_from_reg. rewrite read_32b_spec.
  cbn [mbind outcome_bind ih_reg]. unfold add8. rewrite (proj2 (Z.leb_le (reg + 1) 255)) by lia. cbn [mbind outcome_bind].
  rewrite read_32b_spec. apply wp_ret. cbn [ih_reg]. unfold ih_set at 1. rewrite decide_True by done.
  unfold ih_set at 1. rewrite decide_False by lia. unfold ih_set. rewrite decide_True by done. by apply halves.
Qed.

(** C38: on an I/O APIC whose registers are reached through the index and the
    window, installing an interrupt line below 24 leaves the line's
    redirection entry, as the hardware decodes it, unmasked with the vector
    asked for, fixed delivery and physical destination; the destination is the
    id the I/O APIC reports for itself; no register of another line changes. A
    line of 24 or more fails the assertion, and nothing else panics. *)
Theorem ioapic_routes id gsi irq vec d :
  0 ≤ vec < 256 → 0 ≤ irq →
  post (install_ioapic_irq (Some (io id gsi)) irq vec d)
    (λ d', irq < 24 ∧
      decode_redirection (entry_bits d' irq) =
        mk_redirection vec 0 false false false false false false (ioapicid_id (ih_reg d 0)) ∧
      ∀ j, j ≠ 0x10 + 2 * irq → j ≠ 0x10 + 2 * irq + 1 → ih_reg d' j = ih_reg d j)
    (λ e, 24 ≤ irq ∧ e = PAssert).
Proof.
  intros Hv Hi. unfold install_ioapic_irq, ioapic_id. cbn [unwrap mbind outcome_bind].
  unfold IOAPIC_ID_REGISTER_OFFSET. rewrite read_32b_spec. cbn [mbind outcome_bind].
  destruct (Z.lt_ge_cases irq 24) as [Hlt|Hge].
  2:{ unfold write_ioredtbl. rewrite (proj2 (Z.ltb_ge irq 24)) by lia. by split. }
  apply post_wp. eapply wp_mono; [apply write_ioredtbl_spec; [|lia]|].
  - split; [done|]. split; [cbn; lia|]. cbn [destination_field]. unfold ioapicid_id.
    change 0xF with (Z.ones 4). rewrite Z.land_ones by lia. pose proof (Z.mod_pos_bound (Z.shiftr (ih_reg d 0) 24) (2 ^ 4) ltac:(lia)). lia.
  - intros d' [H1 H2]. by split.
Qed.
End ioapic.

Lemma ioapic_routes_witness :
  post (install_ioapic_irq (Mmio0 := ioapic_mmio 0xFEC00000) (Some (mk_ioapic 0 0 0xFEC00000)) 1 0x31 (mk_ioapic_hw 0 (λ _, 0)))
    (λ d', 1 < 24 ∧
      decode_redirection (entry_bits d' 1) = mk_redirection 0x31 0 false false false false false false 0 ∧
      ∀ j, j ≠ 0x10 + 2 * 1 → j ≠ 0x10 + 2 * 1 + 1 → ih_reg d' j = 0)
    (λ e, 24 ≤ 1 ∧ e = PAssert).
Proof. apply (ioapic_routes 0xFEC00000); done. Defined.

(** ** The timers *)

(** Time in femtoseconds; the HPET's configuration, the value of its main
    counter when it was last halted or written, and when it was started; the
    local APIC's timer registers and when the initial count was written;
    the number of accesses so far. *)
Record timers := mk_timers {
  tm_now : Z; tm_cfg : Z; tm_count : Z; tm_since : Z;
  tm_lvt : Z; tm_div : Z; tm_init : Z; tm_start : Z; tm_accesses : nat
}.

(** What the divide configuration register stands for: bits 0, 1 and 3. *)
Definition divisor (v : Z) : Z :=
  let k := Z.lor (Z.land v 3) (Z.shiftl (Z.b2z (Z.testbit v 3)) 2) in
  if k =? 7 then 1 else 2 ^ (k + 1).

Section timers.
(** Where the registers are, the HPET's capabilities (the upper half is its
    period), the period of the local APIC's clock, and how long the accesses
    take. *)
Context (hb lb caps bus : Z) (delay : nat → Z).
Implicit Types (d : timers).

Definition hpet_period : Z := Z.shiftr caps 32.

(** The main counter of the HPET, before it wraps. *)
Definition hpet_ticks d : Z :=
  if Z.testbit (tm_cfg d) 0 then tm_count d + (tm_now d - tm_since d) / hpet_period else tm_count d.

(** One step of the local APIC's counter. *)
Definition lapic_tick d : Z := bus * divisor (tm_div d).

Definition lapic_current d : Z :=
  let n := (tm_now d - tm_start d) / lapic_tick d in
  if tm_init d =? 0 then 0
  else if Z.testbit (tm_lvt d) 17 then tm_init d - n mod tm_init d
  else Z.max 0 (tm_init d - n).

(** An access takes effect when its time has passed. *)
Definition pass d : timers :=
  mk_timers (tm_now d + delay (tm_accesses d)) (tm_cfg d) (tm_count d) (tm_since d)
    (tm_lvt d) (tm_div d) (tm_init d) (tm_start d) (S (tm_accesses d)).

Definition timers_load (a : Z) d : Z :=
  if decide (a = hb + 0x000) then caps
  else if decide (a = hb + 0x010) then tm_cfg d
  else if decide (a = hb + 0x0F0) then hpet_ticks d mod 2 ^ 64
  else if decide (a = lb + 0x320) then tm_lvt d
  else if decide (a = lb + 0x380) then tm_init d
  else if decide (a = lb + 0x390) then lapic_current d
  else if decide (a = lb + 0x3E0) then tm_div d
  else 0.

Definition timers_store (a v : Z) d : timers :=
  let 'mk_timers now cfg count since lvt div init start n := d in
  if decide (a = hb + 0x010) then mk_timers now v (hpet_ticks d) now lvt div init start n
  else if decide (a = hb + 0x0F0) then mk_timers now cfg v now lvt div init start n
  else if decide (a = lb + 0x320) then mk_timers now cfg count since v div init start n
  else if decide (a = lb + 0x380) then mk_timers now cfg count since lvt div v now n
  else if decide (a = lb + 0x3E0) then mk_timers now cfg count since lvt v init start n
  else d.

#[local] Instance timers_mmio : Mmio timers := {|
  mmio_read n a d := let d := pass d in (d, timers_load a d);
  mmio_write n a v d := timers_store a v (pass d)
|}.

(** How often the local APIC interrupts. *)
Definition interrupt_period d : Z := tm_init d * lapic_tick d.

Context (lo δ : Z) (Hdelay : ∀ n, lo ≤ delay n ≤ δ) (Hlo : 0 < lo) (Hδ : δ ≤ 10 ^ 12).
Context (Hroom : lb + 0x400 ≤ u64_max) (Hapart : hb + 0xF8 ≤ lb ∨ lb + 0x400 ≤ hb).
Context (Hp : 0 < hpet_period) (Hbus : 0 < bus).

Lemma passed d : tm_now d + lo ≤ tm_now (pass d) ≤ tm_now d + δ.
Proof. cbn. specialize (Hdelay (tm_accesses d)). lia. Qed.

Ltac at_address :=
  repeat (first [rewrite decide_False by lia | rewrite decide_True by lia]).

Ltac field_at :=
  unfold field_rw, add64; cbn [lapic_address];
  rewrite (proj2 (Z.leb_le _ _)) by lia; cbn [mbind outcome_bind]; unfold rw_write, rw_read; cbn [rw_address mmio_write mmio_read timers_mmio].

Lemma set_timer_divide_spec div d :
  set_timer_divide (mk_lapic lb) div d = Ret (timers_store (lb + 0x3E0) (divide_bits div) (pass d)).
Proof. unfold set_timer_divide, lapic_timer_div. by field_at. Qed.
Lemma set_lvt_timer_spec v periodic d :
  set_lvt_timer (mk_lapic lb) v periodic d =
    Ret (timers_store (lb + 0x320) (if periodic then Z.lor v (Z.shiftl 1 17) else v) (pass d)).
Proof. unfold set_lvt_timer, lapic_timer. by field_at. Qed.
Lemma set_timer_initial_spec c d :
  set_timer_initial (mk_lapic lb) c d = Ret (timers_store (lb + 0x380) c (pass d)).
Proof. unfold set_timer_initial, lapic_timer_init. by field_at. Qed.
Lemma read_timer_current_spec d :
  read_timer_current (mk_lapic lb) d = Ret (pass d, timers_load (lb + 0x390) (pass d)).
Proof. unfold read_timer_current, lapic_timer_curr. by field_at. Qed.

Lemma load_current d : timers_load (lb + 0x390) d = lapic_current d.
Proof. unfold timers_load. by at_address. Qed.
Lemma load_counter d : timers_load (hb + 0x0F0) d = hpet_ticks d mod 2 ^ 64.
Proof. unfold timers_load. by at_address. Qed.

(** The counter of a running HPET at a time. *)
Definition ticks_at d (t : Z) : Z := tm_count d + (t - tm_since d) / hpet_period.

(** Between two times the counter advances as the time does, up to a tick. *)
Lemma ticks_between d t t' :
  (ticks_at d t' - ticks_at d t - 1) * hpet_period < t' - t < (ticks_at d t' - ticks_at d t + 1) * hpet_period.
Proof.
  unfold ticks_at.
  pose proof (Z.div_mod (t - tm_since d) hpet_period ltac:(lia)). pose proof (Z.mod_pos_bound (t - tm_since d) hpet_period Hp).
  pose proof (Z.div_mod (t' - tm_since d) hpet_period ltac:(lia)). pose proof (Z.mod_pos_bound (t' - tm_since d) hpet_period Hp).
  nia.
Qed.

(** Only time has passed. *)
Definition later d d' : Prop :=
  tm_now d ≤ tm_now d' ∧ d' = mk_timers (tm_now d') (tm_cfg d) (tm_count d) (tm_since d) (tm_lvt d) (tm_div d) (tm_init d) (tm_start d) (tm_accesses d').

Lemma later_pass d d' : later d d' → later d (pass d').
Proof.
  intros [H1 H2]. pose proof (passed d'). split; [lia|]. unfold pass. rewrite H2. reflexivity.
Qed.

Lemma later_ticks d d' : Z.testbit (tm_cfg d) 0 = true → later d d' → hpet_ticks d' = ticks_at d (tm_now d').
Proof. intros Hr [_ ->]. unfold hpet_ticks. cbn [tm_cfg tm_count tm_now tm_since]. by rewrite Hr. Qed.

(** What the wait compares, without the wrap-around. *)
Lemma elapsed_ticks d t t' :
  t ≤ t' → t' ≤ t + 10 ^ 13 + 2 * δ →
  wrap64 (ticks_at d t' mod 2 ^ 64 - ticks_at d t mod 2 ^ 64) = ticks_at d t' - ticks_at d t.
Proof.
  intros H1 H2. unfold wrap64. rewrite <-Zminus_mod. apply Z.mod_small. pose proof (ticks_between d t t').
  split; [unfold ticks_at; pose proof (Z.div_le_mono (t - tm_since d) (t' - tm_since d) hpet_period Hp ltac:(lia)); lia|]. nia.
Qed.

Lemma wait_spec fuel d t0 target :
  Z.testbit (tm_cfg d) 0 = true → t0 ≤ tm_now d ≤ t0 + δ → 0 < target → target * hpet_period ≤ 10 ^ 13 →
  10 ^ 13 ≤ (Z.of_nat fuel - 1) * lo →
  wp (Prelude.iter fuel (wait_step (mk_hpet hb hpet_period) (ticks_at d t0 mod 2 ^ 64) target) d)
    (λ d', later d d' ∧ target ≤ ticks_at d (tm_now d') - ticks_at d t0 ∧
           tm_now d' < t0 + 10 ^ 13 + 2 * δ).
Proof.
  intros Hrun Ht0 Htarget Hten Hfuel.
  apply (wp_iter_var _ _ _ (λ n d1, later d d1 ∧ t0 + 10 ^ 13 ≤ tm_now d1 + Z.of_nat n * lo ∧
    ∃ t, t ≤ tm_now d1 ≤ t + δ ∧ ticks_at d t - ticks_at d t0 < target) (fuel - 1)).
  - split; [split; [lia|by destruct d]|]. split; [nia|]. exists t0. lia.
  - destruct fuel; lia.
  - intros n d1 (Hl & Hn & t & Ht & Hbelow). pose proof (passed d1) as Hpass. pose proof (later_pass _ _ Hl) as Hl'.
    assert (∀ x, ticks_at d x - ticks_at d t0 < target → x < t0 + 10 ^ 13) as Hshorter.
    { intros x Hx. pose proof (ticks_between d t0 x) as Hb.
      pose proof (Z.mul_le_mono_nonneg_r (ticks_at d x - ticks_at d t0 + 1) target hpet_period ltac:(lia) ltac:(lia)). lia. }
    pose proof (Hshorter t Hbelow) as Hshort.
    unfold wait_step, read_counter. cbn [mmio_read timers_mmio hpet_regs]. unfold main_counter. rewrite load_counter.
    rewrite (later_ticks d) by done. destruct Hl as [Hle _]. rewrite elapsed_ticks by lia. apply wp_ret.
    destruct (Z.ltb_spec (ticks_at d (tm_now (pass d1)) - ticks_at d t0) target) as [Hlt|Hge].
    + pose proof (ticks_between d t0 (tm_now (pass d1))) as Hb'.
      set (Δ := ticks_at d (tm_now (pass d1)) - ticks_at d t0) in *.
      pose proof (Z.mul_le_mono_nonneg_r (Δ + 1) target hpet_period ltac:(lia) ltac:(lia)).
      assert (tm_now (pass d1) < t0 + 10 ^ 13) by lia. destruct n as [|n]; [exfalso; lia|].
      rewrite Nat2Z.inj_succ, Z.mul_succ_l in Hn. exists n. split; [lia|]. split; [done|]. split; [lia|].
      exists (tm_now (pass d1)). lia.
    + split; [done|]. lia.
Qed.

Lemma store_div v d :
  timers_store (lb + 0x3E0) v d =
    mk_timers (tm_now d) (tm_cfg d) (tm_count d) (tm_since d) (tm_lvt d) v (tm_init d) (tm_start d) (tm_accesses d).
Proof. destruct d. unfold timers_store. by at_address. Qed.
Lemma store_lvt v d :
  timers_store (lb + 0x320) v d =
    mk_timers (tm_now d) (tm_cfg d) (tm_count d) (tm_since d) v (tm_div d) (tm_init d) (tm_start d) (tm_accesses d).
Proof. destruct d. unfold timers_store. by at_address. Qed.
Lemma store_init v d :
  timers_store (lb + 0x380) v d =
    mk_timers (tm_now d) (tm_cfg d) (tm_count d) (tm_since d) (tm_lvt d) (tm_div d) v (tm_now d) (tm_accesses d).
Proof. destruct d. unfold timers_store. by at_address. Qed.

(** The local APIC's counter of a timer that runs once, until it reaches 0. *)
Lemma lapic_counts d d' :
  later d d' → Z.testbit (tm_lvt d) 17 = false → tm_init d = u32_max → tm_start d ≤ tm_now d →
  tm_now d' - tm_start d < u32_max * lapic_tick d → 0 < lapic_tick d →
  lapic_current d' = u32_max - (tm_now d' - tm_start d) / lapic_tick d ∧ 0 ≤ (tm_now d' - tm_start d) / lapic_tick d < u32_max.
Proof.
  intros [Hle ->] Hlvt Hinit Hs Hlt Hpos. cbn [tm_now].
  assert (0 ≤ (tm_now d' - tm_start d) / lapic_tick d < u32_max) as Hq.
  { split; [apply Z.div_pos; lia|]. apply Z.div_lt_upper_bound; [done|]. by rewrite Z.mul_comm. }
  split; [|done]. unfold lapic_current, lapic_tick in *. cbn [tm_now tm_init tm_lvt tm_div tm_start].
  rewrite Hlvt, Hinit. change (u32_max =? 0) with false. cbv beta iota zeta. lia.
Qed.

(** The ticks of the local APIC in a span of time. *)
Lemma lapic_span s t t' lp :
  0 < lp → ((t' - s) / lp - (t - s) / lp - 1) * lp < t' - t < ((t' - s) / lp - (t - s) / lp + 1) * lp.
Proof.
  intros Hlp.
  pose proof (Z.div_mod (t - s) lp ltac:(lia)). pose proof (Z.mod_pos_bound (t - s) lp Hlp).
  pose proof (Z.div_mod (t' - s) lp ltac:(lia)). pose proof (Z.mod_pos_bound (t' - s) lp Hlp). nia.
Qed.

Context (Hcoarse : hpet_period ≤ 10 ^ 13) (Hfast : 10 ^ 13 + 4 * δ < u32_max * (bus * 16)).

(** Ten milliseconds, measured in ticks of the local APIC. *)
Definition ten_ms (n : Z) : Prop :=
  10 ^ 13 - (2 * hpet_period + δ + bus * 16) < n * (bus * 16) < 10 ^ 13 + 3 * δ + bus * 16.

Lemma calibrate_spec fuel d :
  Z.testbit (tm_cfg d) 0 = true → 10 ^ 13 ≤ (Z.of_nat fuel - 1) * lo →
  wp (calibrate_lapic_timer fuel (mk_hpet hb hpet_period) (mk_lapic lb) d) (λ '(_, n), 0 ≤ n < 2 ^ 32 ∧ ten_ms n).
Proof.
  intros Hrun Hfuel. unfold calibrate_lapic_timer. change (mul64 CALIBRATION_MS 1000000000000) with (Ret (10 ^ 13)).
  cbn [mbind outcome_bind period_fs]. rewrite (proj2 (Z.eqb_neq hpet_period 0)) by lia. cbn [mbind outcome_bind].
  rewrite set_timer_divide_spec. cbn [mbind outcome_bind]. rewrite set_lvt_timer_spec. cbn [mbind outcome_bind].
  rewrite set_timer_initial_spec. cbn [mbind outcome_bind].
  rewrite store_div, store_lvt, store_init.
  match goal with |- context [read_counter _ ?x] => set (d3 := x) end.
  assert (tm_init d3 = u32_max ∧ Z.testbit (tm_lvt d3) 17 = false ∧ lapic_tick d3 = bus * 16 ∧ tm_start d3 = tm_now d3 ∧
    Z.testbit (tm_cfg d3) 0 = true) as (Hinit & Hlvt & Htick & Hstart & Hrun3) by done.
  clearbody d3. unfold read_counter. cbn [mmio_read timers_mmio hpet_regs]. unfold main_counter. rewrite load_counter.
  assert (later d3 d3) as Hl3 by (split; [lia|by destruct d3]).
  pose proof (later_pass _ _ Hl3) as Hl4. pose proof (later_pass _ _ Hl4) as Hl5.
  rewrite (later_ticks d3), read_timer_current_spec by done. cbn [mbind outcome_bind]. rewrite load_current.
  pose proof (passed d3) as Hp3. pose proof (passed (pass d3)) as Hp4. set (t0 := tm_now (pass d3)) in *.
  set (d5 := pass (pass d3)) in *. assert (ticks_at d3 t0 = ticks_at d5 t0) as -> by (destruct Hl5 as [_ ->]; done).
  apply wp_bind. eapply wp_mono; [apply (wait_spec fuel d5 t0 (10 ^ 13 / hpet_period)); [by destruct Hl5 as [_ ->]|lia|..|done]|].
  { apply Z.div_str_pos. lia. }
  { rewrite Z.mul_comm. apply Z.mul_div_le. lia. }
  intros d6 (Hl6 & Hticks & Htime). rewrite read_timer_current_spec. cbn [mbind outcome_bind]. rewrite load_current.
  apply wp_ret. pose proof (passed d6) as Hp6.
  assert (later d3 (pass d6)) as Hl7.
  { apply later_pass. destruct Hl5 as [H1 H2], Hl6 as [H3 H4]. split; [lia|]. rewrite H4, H2. done. }
  destruct (lapic_counts d3 d5) as [-> Hr5]; [done..|lia|rewrite Htick; destruct Hl6 as [? _]; lia|lia|].
  destruct (lapic_counts d3 (pass d6)) as [-> Hr7]; [done..|lia|rewrite Htick; lia|lia|].
  rewrite Htick in *. destruct Hl6 as [H56 _].
  pose proof (lapic_span (tm_start d3) (tm_now d5) (tm_now (pass d6)) (bus * 16) ltac:(lia)) as Hspan.
  pose proof (ticks_between d5 t0 (tm_now d6)) as Hb. pose proof (Z.mul_div_le (10 ^ 13) hpet_period ltac:(lia)).
  pose proof (Z.mod_pos_bound (10 ^ 13) hpet_period ltac:(lia)). pose proof (Z.div_mod (10 ^ 13) hpet_period ltac:(lia)).
  pose proof (Z.div_le_mono (tm_now d5 - tm_start d3) (tm_now (pass d6) - tm_start d3) (bus * 16) ltac:(lia) ltac:(lia)) as Hmono.
  rewrite Z.mod_small by (unfold u32_max in *; lia). split; [unfold u32_max in *; lia|]. unfold ten_ms.
  pose proof (Z.mul_le_mono_nonneg_r (10 ^ 13 / hpet_period) (ticks_at d5 (tm_now d6) - ticks_at d5 t0) hpet_period ltac:(lia) Hticks).
  assert (10 ^ 13 - 2 * hpet_period < tm_now d6 - t0) by lia. lia.
Qed.

Lemma hpet_init_spec r legacy d :
  let '(h, d') := hpet_init (mk_hpet hb r) legacy d in h = mk_hpet hb hpet_period ∧ Z.testbit (tm_cfg d') 0 = true.
Proof.
  unfold hpet_init. cbn [mmio_write mmio_read timers_mmio hpet_regs]. unfold general_cap_id, general_config.
  unfold timers_load at 1. rewrite decide_True by done. split; [done|].
  match goal with |- context [timers_store _ _ (pass ?x)] => generalize (pass x) end. intros x. destruct x. unfold timers_store.
  rewrite decide_True by done. cbn [tm_cfg]. by destruct legacy.
Qed.

Lemma start_timer_spec fuel d :
  Z.testbit (tm_cfg d) 0 = true → 10 ^ 13 ≤ (Z.of_nat fuel - 1) * lo →
  wp (start_timer fuel (mk_hpet hb hpet_period) (mk_lapic lb) d) (λ d',
    Z.land (tm_lvt d') 0xFF = 0x30 ∧ Z.testbit (tm_lvt d') 16 = false ∧ Z.testbit (tm_lvt d') 17 = true ∧
    0 ≤ tm_init d' < 2 ^ 32 ∧ lapic_tick d' = bus * 16 ∧
    10 ^ 13 - (2 * hpet_period + δ + 10 * (bus * 16)) < 10 * interrupt_period d' < 10 ^ 13 + 3 * δ + bus * 16).
Proof.
  intros Hrun Hfuel. unfold start_timer. apply wp_bind. eapply wp_mono; [by apply calibrate_spec|].
  intros [d1 n] [Hn Hten]. unfold setup_timer_periodic. rewrite set_timer_divide_spec. cbn [mbind outcome_bind].
  rewrite set_lvt_timer_spec. cbn [mbind outcome_bind]. rewrite set_timer_initial_spec. apply wp_ret.
  rewrite store_div, store_lvt, store_init. unfold interrupt_period, lapic_tick, ten_ms in *. cbn [tm_lvt tm_init tm_div pass].
  change (divisor (divide_bits Div16)) with 16. do 3 (split; [reflexivity|]).
  pose proof (Z.div_mod n 10 ltac:(lia)). pose proof (Z.mod_pos_bound n 10 ltac:(lia)). split; [lia|]. split; [done|]. nia.
Qed.

(** C32: with accesses that take between [lo] and [δ] femtoseconds, an HPET of
    any legal period and a local APIC clock slow enough for its counter to last
    ten milliseconds, starting the HPET and then the timer returns, for every
    number of iterations that lasts ten milliseconds. The local timer is then
    periodic, unmasked, on vector 0x30, and ten of its periods are ten
    milliseconds: short by less than two HPET periods, one access and ten local
    ticks, long by less than three accesses and a local tick. The counter of
    the HPET may wrap during the measurement. *)
Theorem timer_period_accurate fuel r legacy d :
  10 ^ 13 ≤ (Z.of_nat fuel - 1) * lo →
  wp (let '(h, d) := hpet_init (mk_hpet hb r) legacy d in start_timer fuel h (mk_lapic lb) d) (λ d',
    Z.land (tm_lvt d') 0xFF = 0x30 ∧ Z.testbit (tm_lvt d') 16 = false ∧ Z.testbit (tm_lvt d') 17 = true ∧
    0 ≤ tm_init d' < 2 ^ 32 ∧ lapic_tick d' = bus * 16 ∧
    10 ^ 13 - (2 * hpet_period + δ + 10 * (bus * 16)) < 10 * interrupt_period d' < 10 ^ 13 + 3 * δ + bus * 16).
Proof.
  intros Hfuel. pose proof (hpet_init_spec r legacy d) as Hh. destruct (hpet_init _ _ _) as [h d1]. destruct Hh as [-> Hrun].
  by apply start_timer_spec.
Qed.
End timers.

(** Registers of a PC, an HPET of 100 MHz, a local APIC clock of 1 GHz and
    accesses of half a microsecond. *)
Definition pc_delay (n : nat) : Z := 500000000.
Definition pc_timers : timers := mk_timers 0 0 0 0 0 0 0 0 0.

Definition pc_caps : Z := Z.shiftl 10000000 32.

Lemma timer_period_accurate_witness :
  wp (let '(h, d) := hpet_init (Mmio0 := timers_mmio 0xFED00000 0xFEE00000 pc_caps 1000000 pc_delay)
        (mk_hpet 0xFED00000 0) true pc_timers in
      start_timer (Mmio0 := timers_mmio 0xFED00000 0xFEE00000 pc_caps 1000000 pc_delay)
        (Z.to_nat 20001) h (mk_lapic 0xFEE00000) d) (λ d',
    Z.land (tm_lvt d') 0xFF = 0x30 ∧ Z.testbit (tm_lvt d') 16 = false ∧ Z.testbit (tm_lvt d') 17 = true ∧
    0 ≤ tm_init d' < 2 ^ 32 ∧ lapic_tick 1000000 d' = 1000000 * 16 ∧
    10 ^ 13 - (2 * hpet_period pc_caps + 500000000 + 10 * (1000000 * 16)) < 10 * interrupt_period 1000000 d'
      < 10 ^ 13 + 3 * 500000000 + 1000000 * 16).
Proof.
  refine (timer_period_accurate 0xFED00000 0xFEE00000 pc_caps 1000000 pc_delay 500000000 500000000
    _ _ _ _ _ _ _ _ _ (Z.to_nat 20001) 0 true pc_timers _).
  - intros n. unfold pc_delay. lia.
  - lia.
  - lia.
  - done.
  - left. lia.
  - done.
  - lia.
  - done.
  - unfold u32_max. lia.
  - lia.
Defined.
