(* ===== verification/Acpi.v ===== *)
(** * ACPI tables and the start of the devices

    Models kernel/src/arch/amd64/acpi/ (the tables the kernel keeps, mapping
    the regions they are in, the memory accesses of the table parser), the
    start of the interrupt controllers from them (apic/mod.rs, apic/ioapic.rs)
    and of the timer (timer/mod.rs).  The acpi crate walks the tables; what it
    finds is an argument.  Page tables and the page allocator are those of
    Paging.v, device registers those of Devices.v. *)
From S2P Require Import Prelude Misc Memblock Frame Sparsemem Zones Paging AddrSpace AddrSpaceSpec Devices.
#[local] Open Scope Z_scope.

(** ** The tables the kernel keeps *)

Record MadtCpuInfo := mk_cpu_info { lapic_id_field : Z }.
Record MadtIoApicInfo := mk_ioapic_info { io_id : Z; io_address : Z; io_gsi_base : Z }.
Record MadtIrqOverride := mk_override { ov_irq : Z; ov_gsi : Z; ov_flags : Z }.

Record MadTable := mk_madt {
  lapic_addr : Z;
  madt_cpus : list MadtCpuInfo;
  madt_ioapics : list MadtIoApicInfo;
  irq_overrides : list MadtIrqOverride
}.

Record HpetTableParsed := mk_hpet_table {
  base_address : Z;
  clock_tick_unit : Z;
  page_protection : Z;
  hpet_number : Z
}.

(** The entries of a MADT, as the acpi crate gives them. *)
Inductive MadtEntry :=
  | LocalApic (apic_id flags : Z)
  | LocalX2Apic (x2apic_id flags : Z)
  | IoApicEntry (io_apic_id io_apic_address global_system_interrupt_base : Z)
  | InterruptSourceOverride (irq global_system_interrupt flags : Z)
  | OtherEntry.

Record Madt := mk_raw_madt { local_apic_address : Z; madt_entries : list MadtEntry }.
Record HpetTable := mk_raw_hpet { gas_address : Z; raw_hpet_number : Z; raw_clock_tick_unit : Z; page_protection_and_oem : Z }.

Section parse.
Context {PT : Type} `{!X86_64 PT}.

Definition parse_entry (e : MadtEntry) (t : list MadtCpuInfo * list MadtIoApicInfo * list MadtIrqOverride)
    : outcome (list MadtCpuInfo * list MadtIoApicInfo * list MadtIrqOverride) :=
  let '(cpus, ioapics, overrides) := t in
  match e with
  | LocalApic apic_id flags =>
      Ret (if negb (Z.land flags 1 =? 0) then (cpus ++ [mk_cpu_info apic_id], ioapics, overrides) else t)
  | LocalX2Apic x2apic_id flags =>
      Ret (if negb (Z.land flags 1 =? 0) then (cpus ++ [mk_cpu_info (x2apic_id mod 2 ^ 8)], ioapics, overrides) else t)
  | IoApicEntry id address gsi_base =>
      a ← phys_new address;
      Ret (cpus, ioapics ++ [mk_ioapic_info id a gsi_base], overrides)
  | InterruptSourceOverride irq gsi flags => Ret (cpus, ioapics, overrides ++ [mk_override irq gsi flags])
  | OtherEntry => Ret t
  end.

(** [MadTable::parse]. *)
Definition parse_madt (m : Madt) : outcome MadTable :=
  '(cpus, ioapics, overrides) ← for_each parse_entry (madt_entries m) ([], [], []);
  a ← phys_new (local_apic_address m);
  Ret (mk_madt a cpus ioapics overrides).

(** [HpetTableParsed::parse]. *)
Definition parse_hpet (t : HpetTable) : outcome HpetTableParsed :=
  phys ← phys_new (gas_address t);
  _ ← assert (Z.land phys 0x7 =? 0);
  Ret (mk_hpet_table phys (raw_clock_tick_unit t) (Z.land (page_protection_and_oem t) 0x1F) (raw_hpet_number t)).
End parse.

(** [AcpiContext]: the tables by their type. *)
Record AcpiContext := mk_acpi { ctx_madt : option MadTable; ctx_hpet : option HpetTableParsed }.

(** What the acpi crate found behind the root pointer. *)
Record AcpiTables := mk_tables { found_madt : option Madt; found_hpet : option HpetTable }.

Section context.
Context {PT : Type} `{!X86_64 PT}.

(** [load_table], for either table. *)
Definition load_table {Raw T} (found : option Raw) (parse : Raw → outcome T) (insert : T → AcpiContext → AcpiContext)
    (ctx : AcpiContext) : outcome AcpiContext :=
  match found with
  | Some raw => parsed ← parse raw; Ret (insert parsed ctx)
  | None => Ret ctx
  end.

(** [AcpiContext::new]; [acpi] is the result of [AcpiTables::from_rsdp]. *)
Definition acpi_new (acpi : option AcpiTables) : outcome AcpiContext :=
  acpi ← unwrap acpi;
  let ctx := mk_acpi None None in
  ctx ← load_table (found_madt acpi) parse_madt (λ t c, mk_acpi (Some t) (ctx_hpet c)) ctx;
  load_table (found_hpet acpi) parse_hpet (λ t c, mk_acpi (ctx_madt c) (Some t)) ctx.
End context.

(** ** The regions of the tables *)

Section mapping.
Context {PT M : Type} `{!X86_64 PT} `{!PageSource M} (hhdm : Z).

Definition ACPI_FLAGS : Z := flags_of [b_present page_bits; b_writable page_bits; b_no_execute page_bits].

Definition is_acpi (t : EntryType.t) : bool :=
  match t with EntryType.ACPI_RECLAIMABLE | EntryType.ACPI_NVS => true | _ => false end.

(** A page of a region: the body of the inner loop. *)
Definition map_acpi_page (end_ : Z) (s : Z * PT * M) : outcome (Z * PT * M + PT * M) :=
  let '(p, pt, m) := s in
  if p <? end_ then
    va ← add64 hhdm p;
    v ← virt_new va;
    a ← phys_new p;
    '(pt, m) ← kmap_page pt m v a ACPI_FLAGS;
    p ← add64 p PAGE_SIZE;
    Ret (inl (p, pt, m))
  else Ret (inr (pt, m)).

Definition map_acpi_entry (e : Entry) (s : PT * M) : outcome (PT * M) :=
  if negb (is_acpi (entry_type e)) then Ret s
  else
    start ← align_down (entry_base e) PAGE_SIZE;
    last ← add64 (entry_base e) (entry_length e);
    end_ ← align_up last PAGE_SIZE;
    Prelude.iter (S (Z.to_nat ((end_ - start) / PAGE_SIZE))) (map_acpi_page end_) (start, s.1, s.2).

Definition map_acpi_regions (memmap : list Entry) (pt : PT) (m : M) : outcome (PT * M) :=
  for_each map_acpi_entry memmap (pt, m).

(** [init_acpi] with the cell of [ACPI_CTX]. *)
Definition init_acpi (acpi : option AcpiTables) (memmap : list Entry) (ctx : option AcpiContext) (pt : PT) (m : M)
    : outcome (PT * M * option AcpiContext) :=
  '(pt, m) ← map_acpi_regions memmap pt m;
  match ctx with
  | Some c => Ret (pt, m, Some c)
  | None => c ← acpi_new (PT := PT) acpi; Ret (pt, m, Some c)
  end.

(** [get_acpi_tables().read().get_table::<MadTable>().unwrap()]. *)
Definition get_madt (ctx : option AcpiContext) : outcome MadTable := c ← unwrap ctx; unwrap (ctx_madt c).
Definition get_hpet_table (ctx : option AcpiContext) : outcome HpetTableParsed := c ← unwrap ctx; unwrap (ctx_hpet c).
End mapping.

(** ** The memory accesses of the table parser *)

(** [PhysicalMapping], without the handler. *)
Record PhysicalMapping := mk_mapping { physical_start : Z; virtual_start : Z; region_length : Z; mapped_length : Z }.

Section handler.
Context {D : Type} `{!Mmio D} `{!PortIo D} (hhdm : Z).
Implicit Types (d : D).

Definition map_physical_region (physical_address size : Z) : outcome PhysicalMapping :=
  va ← phys_to_virt hhdm physical_address;
  _ ← (if va =? 0 then Panic PUnwrap else Ret ());
  Ret (mk_mapping physical_address va size size).

(** [read_u8] to [read_u64] and [write_u8] to [write_u64]: accesses of [n]
    bytes. *)
Definition acpi_read (n : nat) (address : Z) d : outcome (D * Z) :=
  va ← phys_to_virt hhdm address;
  Ret (mmio_read n va d).
Definition acpi_write (n : nat) (address value : Z) d : outcome D :=
  va ← phys_to_virt hhdm address;
  Ret (mmio_write n va value d).

(** [Port::read] and [Port::write], and the accesses to ports with them. *)
Definition read_io (n : nat) (port : Z) d : D * Z := port_in n port d.
Definition write_io (n : nat) (port value : Z) d : D := port_out n port value d.

(** The accesses to PCI and [acquire] are left to do. *)
Definition acpi_todo {A} : outcome A := Panic PExplicit.
Definition nanos_since_boot : Z := 0.
End handler.

(** ** Starting the devices from the tables *)

Section devices.
Context {PT M D : Type} `{!X86_64 PT} `{!PageSource M} `{!Mmio D} `{!PortIo D} (hhdm : Z).
Implicit Types (ctx : option AcpiContext) (pt : PT) (m : M) (d : D).

(** [IOApic::new]. *)
Definition ioapic_new ctx pt m : outcome (PT * M * IOApic) :=
  madt ← get_madt ctx;
  ioapic ← unwrap (madt_ioapics madt !! 0%nat);
  a ← phys_to_virt hhdm (io_address ioapic);
  ioapic_converted ← virt_new a;
  let aligned_virt_addr := page_containing ioapic_converted in
  '(pt, m) ← kmap_mmio_page pt m aligned_virt_addr (io_address ioapic) DEVICE_FLAGS;
  Ret (pt, m, mk_ioapic (io_id ioapic) (io_gsi_base ioapic) aligned_virt_addr).

(** [init_ioapic], without the decoder of key codes; [ioapic] is the cell of
    [IOAPIC]. *)
Definition init_ioapic ctx (ioapic : option IOApic) pt m d : outcome (PT * M * D * option IOApic) :=
  '(pt, m, io) ← match ioapic with
                 | Some io => Ret (pt, m, io)
                 | None => ioapic_new ctx pt m
                 end;
  d ← install_ioapic_irq (Some io) 1 150 d;
  Ret (pt, m, d, Some io).

Definition init_lapic_percpu ctx pt m d : outcome (PT * M * D * Lapic) :=
  madt ← get_madt ctx;
  init_lapic hhdm (lapic_addr madt) pt m d.

(** [lapic] is the cell of [LAPIC]; the id is read to print it. *)
Definition init_bootstrap_lapic ctx (lapic : option Lapic) pt m d : outcome (PT * M * D * option Lapic) :=
  let d := disable_pic d in
  madt ← get_madt ctx;
  match lapic with
  | Some l => Ret (pt, m, d, Some l)
  | None =>
      a ← phys_to_virt hhdm (lapic_addr madt);
      lapic_virt ← virt_new a;
      '(pt, m, l) ← lapic_new pt m (lapic_addr madt) lapic_virt;
      '(d, _) ← id_of l d;
      d ← enable l d;
      d ← set_task_priority l 0 d;
      Ret (pt, m, d, Some l)
  end.

(** [initialize_hpet] with the cell of [HPET_GLOBAL]. *)
Definition start_hpet ctx (hpet : option HPET) pt m d : outcome (PT * M * D * option HPET) :=
  t ← get_hpet_table ctx;
  '(pt, m, d, h) ← initialize_hpet (base_address t) pt m d;
  Ret (pt, m, d, match hpet with Some h0 => Some h0 | None => Some h end).
End devices.
