(* ===== verification/AcpiSpec.v ===== *)
(** * ACPI tables: the regions are mapped and the processors found

    Every page of a region with ACPI tables is in the direct map once the
    regions are mapped, at its physical address, and no other page changes; the
    processors kept from the MADT are the enabled ones in order. *)
From S2P Require Import Prelude Misc Memblock Frame Sparsemem Zones Paging PagingRef ZonesSource AddrSpace AddrSpaceSpec Devices Acpi.
#[local] Open Scope Z_scope.

(** The rule of [wp_iter_var] for code that may panic. *)
Lemma post_iter_var {A B} (fuel : nat) (f : A → outcome (A + B)) (a : A) (I : nat → A → Prop) (n : nat) (Q : B → Prop) (P : panic → Prop) :
  I n a → (n < fuel)%nat →
  (∀ n a, I n a → post (f a) (λ r, match r with
                                   | inl a' => ∃ n', (n' < n)%nat ∧ I n' a'
                                   | inr b => Q b
                                   end) P) →
  post (Prelude.iter fuel f a) Q P.
Proof.
  intros H0 Hn Hstep. revert n a H0 Hn. induction fuel as [|fuel IH]; intros n a H0 Hn; [lia|]. cbn [Prelude.iter].
  eapply post_bind_post; [by apply (Hstep n)|]. intros [a'|b]; [|done]. intros (n' & Hlt & HI). apply (IH n'); [done|lia].
Qed.

Section regions.
Context {PT M : Type} `{!X86_64 PT} `{!X86_64Laws PT} `{!PageSource M} `{!PageSourceLaws M}.
Context (hhdm : Z) (Hhhdm : 2 ^ 64 - 2 ^ 47 ≤ hhdm) (Haligned : hhdm mod PAGE_SIZE = 0).
Implicit Types (pt : PT) (m : M).

(** The region fits into the direct map. *)
Definition acpi_entry_ok (e : Entry) : Prop :=
  0 ≤ entry_base e ∧ 0 ≤ entry_length e ∧ hhdm + entry_base e + entry_length e + PAGE_SIZE ≤ 2 ^ 64.

Definition first_page (e : Entry) : Z := page_of (entry_base e).
Definition page_count (e : Entry) : nat := Z.to_nat ((align_up_to (entry_base e + entry_length e) PAGE_SIZE - first_page e) / PAGE_SIZE).

(** The pages of the ACPI regions, in the direct map. *)
Definition entry_pages (e : Entry) : list Z :=
  if is_acpi (entry_type e) then (λ i, hhdm + first_page e + Z.of_nat i * PAGE_SIZE) <$> seq 0 (page_count e) else [].

(** [l] was mapped on top of [pt]. *)
Definition direct_mapped pt (l : list Z) pt' : Prop :=
  (∀ page, translate pt' page = if decide (page ∈ l) then Some (page - hhdm, ACPI_FLAGS (PT:=PT)) else translate pt page) ∧
  (∀ page, page ∈ l → translate pt page = None) ∧ NoDup l.

Lemma direct_mapped_snoc pt l pt1 pt2 page :
  direct_mapped pt l pt1 → translate pt1 page = None → mapped_at pt1 pt2 page (page - hhdm) (ACPI_FLAGS (PT:=PT)) →
  direct_mapped pt (l ++ [page]) pt2.
Proof.
  intros (H1 & H2 & H3) Hn Hm. assert (page ∉ l ∧ translate pt page = None) as [Hnl Hnp].
  { rewrite H1 in Hn. case_decide; done. }
  split; [|split].
  - intros x. rewrite Hm, H1. case_decide as Hx; [subst; by rewrite decide_True by set_solver|].
    destruct (decide (x ∈ l)); [by rewrite decide_True by set_solver|by rewrite decide_False by set_solver].
  - intros x [Hx|Hx%list_elem_of_singleton]%elem_of_app; [by apply H2|by subst].
  - apply NoDup_app. split; [done|]. split; [|apply NoDup_singleton]. intros x Hx ->%list_elem_of_singleton. done.
Qed.

Lemma acpi_present : Z.testbit (ACPI_FLAGS (PT:=PT)) (b_present page_bits) = true.
Proof.
  destruct page_bits_law as [_ Hb]. rewrite !Forall_cons in Hb. unfold ACPI_FLAGS.
  rewrite testbit_flags_of; [apply bool_decide_eq_true; left|lia|]. repeat (constructor; [lia|]). constructor.
Qed.

Lemma end_page e :
  0 ≤ entry_length e →
  align_up_to (entry_base e + entry_length e) PAGE_SIZE = first_page e + Z.of_nat (page_count e) * PAGE_SIZE ∧
  first_page e mod PAGE_SIZE = 0 ∧ first_page e ≤ entry_base e < first_page e + PAGE_SIZE.
Proof.
  intros Hl. unfold page_count. pose proof (page_of_range (entry_base e)) as Hr. pose proof (page_of_mod (entry_base e)) as Hm.
  fold (first_page e) in Hr, Hm. destruct (align_up_to_spec (entry_base e + entry_length e) PAGE_SIZE ltac:(done)) as [Ha Ham].
  set (a := align_up_to _ _) in *. split; [|done].
  pose proof (Z.div_mod a PAGE_SIZE ltac:(done)). pose proof (Z.div_mod (first_page e) PAGE_SIZE ltac:(done)). unfold PAGE_SIZE in *.
  assert (a - first_page e = (a / 4096 - first_page e / 4096) * 4096) as E by lia. rewrite E, Z.div_mul by lia. lia.
Qed.

(** One page. *)
Lemma kmap_acpi_page pt l pt1 m B page :
  direct_mapped pt l pt1 → grown B m → page mod PAGE_SIZE = 0 →
  post (kmap_page pt1 m (hhdm + page) page (ACPI_FLAGS (PT:=PT))) (λ '(pt2, m2), direct_mapped pt (l ++ [hhdm + page]) pt2 ∧ grown B m2)
    (λ e, e = PUnwrap).
Proof.
  intros Hd (B1 & HB1 & Hm) Hp. unfold kmap_page. eapply post_bind; [apply (map_single_page_spec pt1 m B1); [done|apply acpi_present]|].
  assert ((hhdm + page) mod PAGE_SIZE = 0) as Hv by (rewrite Z.add_mod, Haligned, Hp by done; reflexivity).
  rewrite !page_of_aligned by done. intros [[pt2 m2] [u|e]] (Hg & _ & Hr); cbn [expect mbind outcome_bind post]; [|done].
  destruct Hr as [Hn Hm2]. split; [|by eapply grown_trans].
  apply (direct_mapped_snoc pt l pt1); [done|done|]. by replace (hhdm + page - hhdm) with page by lia.
Qed.

Lemma map_acpi_entry_spec pt l pt1 m B e :
  acpi_entry_ok e → direct_mapped pt l pt1 → grown B m →
  post (map_acpi_entry hhdm e (pt1, m)) (λ '(pt2, m2), direct_mapped pt (l ++ entry_pages e) pt2 ∧ grown B m2) (λ e, e = PUnwrap).
Proof.
  intros (H0 & Hl & Hend) Hd Hg. unfold map_acpi_entry, entry_pages. destruct (is_acpi (entry_type e)); cbn [negb].
  2:{ cbn. by rewrite app_nil_r. }
  destruct (end_page e Hl) as (Eend & Hmod & Hfirst).
  destruct (align_up_to_spec (entry_base e + entry_length e) PAGE_SIZE ltac:(done)) as [Hup _].
  eapply post_bind; [apply (wp_align_down (entry_base e) 12 (λ x, x = first_page e)); [unfold is_u64, u64_max; lia|lia|]|].
  { unfold first_page, page_of, PAGE_SIZE. change (2 ^ 12) with 4096. pose proof (Z.div_mod (entry_base e) 4096 ltac:(lia)). lia. }
  intros start ->. eapply post_bind; [apply (wp_add64 _ _ (λ x, x = entry_base e + entry_length e)); [unfold u64_max, PAGE_SIZE in *; lia|done]|].
  intros last ->. eapply post_bind; [apply (wp_align_up _ 12 (λ x, x = first_page e + Z.of_nat (page_count e) * PAGE_SIZE));
    [lia|lia|unfold u64_max, PAGE_SIZE in *; lia|exact Eend]|].
  intros end_ ->. set (n := page_count e) in *. set (pages := λ j : nat, (λ i, hhdm + first_page e + Z.of_nat i * PAGE_SIZE) <$> seq 0 j).
  apply (post_iter_var _ _ _ (λ k '(p, pt', m'), (k ≤ n)%nat ∧ p = first_page e + Z.of_nat (n - k) * PAGE_SIZE ∧
    direct_mapped pt (l ++ pages (n - k)%nat) pt' ∧ grown B m') n).
  - split; [done|]. rewrite Nat.sub_diag. split; [cbn; lia|]. cbn. by rewrite app_nil_r.
  - replace (first_page e + Z.of_nat n * PAGE_SIZE - first_page e) with (Z.of_nat n * PAGE_SIZE) by lia. rewrite Z.div_mul by done. lia.
  - intros k [[p pt'] m'] (Hk & -> & Hd' & Hg'). unfold map_acpi_page. destruct k as [|k].
    { rewrite Nat.sub_0_r in *. rewrite Z.ltb_irrefl. done. }
    rewrite (proj2 (Z.ltb_lt _ _)) by (unfold PAGE_SIZE; lia). set (j := (n - S k)%nat) in *.
    set (p := first_page e + Z.of_nat j * PAGE_SIZE).
    assert (0 ≤ p ∧ p + PAGE_SIZE ≤ first_page e + Z.of_nat n * PAGE_SIZE) as [Hp0 Hp1]
      by (unfold p, first_page, page_of, PAGE_SIZE in *; pose proof (Z.mod_pos_bound (entry_base e) 4096 ltac:(lia)); pose proof (Z.mod_le (entry_base e) 4096 ltac:(lia) ltac:(lia)); lia).
    eapply post_bind; [apply (wp_add64 _ _ (λ x, x = hhdm + p)); [unfold u64_max, PAGE_SIZE in *; lia|done]|]. intros va ->.
    eapply post_bind; [apply (wp_virt_new _ (λ x, x = hhdm + p)); [right; unfold PAGE_SIZE in *; lia|done]|]. intros v ->.
    eapply post_bind; [apply (wp_phys_new _ (λ x, x = p)); [unfold PAGE_SIZE in *; lia|done]|]. intros a ->.
    eapply post_bind_post; [apply (kmap_acpi_page pt _ pt' m' B p Hd' Hg'); by apply mod_page_add|]. intros [pt2 m2] [Hd2 Hg2].
    eapply post_bind; [apply (wp_add64 _ _ (λ x, x = p + PAGE_SIZE)); [unfold u64_max, PAGE_SIZE in *; lia|done]|]. intros p' ->.
    exists k. split; [lia|]. split; [lia|]. replace (n - k)%nat with (S j) by lia. split; [unfold p; lia|]. split; [|done].
    unfold pages. rewrite seq_S, fmap_app, app_assoc. unfold p in Hd2. rewrite Z.add_assoc in Hd2. exact Hd2.
Qed.

Lemma map_acpi_regions_spec pt m B memmap :
  Forall acpi_entry_ok memmap → pages_out m B →
  post (map_acpi_regions hhdm memmap pt m) (λ '(pt', m'), direct_mapped pt (memmap ≫= entry_pages) pt' ∧ grown B m') (λ e, e = PUnwrap).
Proof.
  intros Hok HB. unfold map_acpi_regions.
  apply (post_for_each _ _ _ (λ done_ '(pt', m'), direct_mapped pt (done_ ≫= entry_pages) pt' ∧ grown B m')).
  - split; [|by apply grown_refl]. split; [intros page; by rewrite decide_False by set_solver|]. split; [set_solver|constructor].
  - intros done_ e rest [pt1 m1] -> [Hd Hg]. rewrite bind_app. cbn [mbind list_bind]. rewrite app_nil_r.
    apply map_acpi_entry_spec; [|done|done]. apply Forall_app in Hok as [_ Hok]. by inversion Hok.
  - done.
Qed.

(** The bytes of a region are in its pages. *)
Lemma entry_pages_byte e x :
  is_acpi (entry_type e) = true → 0 ≤ entry_base e → entry_base e ≤ x < entry_base e + entry_length e → hhdm + page_of x ∈ entry_pages e.
Proof.
  intros Ht H0 Hx. destruct (end_page e ltac:(lia)) as (Eend & Hmod & Hfirst).
  destruct (align_up_to_spec (entry_base e + entry_length e) PAGE_SIZE ltac:(done)) as [Hup _].
  unfold entry_pages. rewrite Ht. apply list_elem_of_fmap. exists (Z.to_nat ((page_of x - first_page e) / PAGE_SIZE)).
  pose proof (page_of_range x). pose proof (page_of_mod x) as Hm.
  pose proof (Z.div_mod (page_of x) PAGE_SIZE ltac:(done)). pose proof (Z.div_mod (first_page e) PAGE_SIZE ltac:(done)). unfold PAGE_SIZE in *.
  assert (page_of x - first_page e = (page_of x / 4096 - first_page e / 4096) * 4096) as E by lia. rewrite E, Z.div_mul by lia.
  split; [lia|]. apply elem_of_seq. lia.
Qed.

(** C35: after the ACPI regions of the memory map, which fit into the direct
    map, were mapped, every byte of
    such a region is in the direct map at its physical address, present,
    writable and not executable, and every page outside of the regions is
    mapped as before.  The kernel gets there only when no two regions share a
    page and none of the pages was mapped: otherwise, and when memory for page
    tables is used up, it panics in [expect] and nowhere else. *)
Theorem acpi_regions_mapped pt m B memmap :
  Forall acpi_entry_ok memmap → pages_out m B →
  post (map_acpi_regions hhdm memmap pt m)
    (λ '(pt', m'),
      (∀ e x, e ∈ memmap → is_acpi (entry_type e) = true → entry_base e ≤ x < entry_base e + entry_length e →
        translate pt' (page_of (hhdm + x)) = Some (page_of x, ACPI_FLAGS (PT:=PT))) ∧
      (∀ page, page ∉ memmap ≫= entry_pages → translate pt' page = translate pt page) ∧
      NoDup (memmap ≫= entry_pages) ∧ (∀ page, page ∈ memmap ≫= entry_pages → translate pt page = None) ∧ grown B m')
    (λ e, e = PUnwrap).
Proof.
  intros Hok HB. eapply post_mono; [by apply (map_acpi_regions_spec pt m B)|]. intros [pt' m'] [(H1 & H2 & H3) Hg].
  split; [|split; [|done]].
  - intros e x He Ht Hx. assert (page_of (hhdm + x) = hhdm + page_of x) as E.
    { unfold page_of, PAGE_SIZE in *. rewrite Z.add_mod, Haligned, Z.add_0_l, Z.mod_mod by lia. lia. }
    rewrite H1, E, decide_True; [do 2 f_equal; lia|]. apply list_elem_of_bind. exists e. split; [|done].
    apply entry_pages_byte; [done| |done]. apply (proj1 (Forall_forall _ _) Hok e He).
  - intros page Hp. rewrite H1. by rewrite decide_False.
Qed.
End regions.

Lemma acpi_regions_mapped_witness :
  ∃ (m : zmem), post (map_acpi_regions 0xFFFF800000000000
      [mk_entry 0x100000 0x1000 EntryType.USABLE; mk_entry 0x7FE1234 0x2000 EntryType.ACPI_RECLAIMABLE] (mk_ref 0x1000 ∅) m)
    (λ '(pt', _), translate pt' 0xFFFF800007FE2000 = Some (0x7FE2000, ACPI_FLAGS (PT:=ref_pt))) (λ e, e = PUnwrap).
Proof.
  destruct small_machine_page as (m & root & Hout & _). exists m.
  pose proof (acpi_regions_mapped 0xFFFF800000000000 ltac:(lia) ltac:(done) (mk_ref 0x1000 ∅) m {[root := 0%nat]}
    [mk_entry 0x100000 0x1000 EntryType.USABLE; mk_entry 0x7FE1234 0x2000 EntryType.ACPI_RECLAIMABLE]
    ltac:(repeat (apply Forall_cons_2; [unfold acpi_entry_ok, PAGE_SIZE; cbn; lia|]); apply Forall_nil_2) Hout) as H.
  revert H. generalize (map_acpi_regions 0xFFFF800000000000 [mk_entry 0x100000 0x1000 EntryType.USABLE;
    mk_entry 0x7FE1234 0x2000 EntryType.ACPI_RECLAIMABLE] (mk_ref 0x1000 ∅) m).
  intros [[pt' m']|e|] H; [|exact H|exact H]. destruct H as (H & _).
  exact (H (mk_entry 0x7FE1234 0x2000 EntryType.ACPI_RECLAIMABLE) 0x7FE2000 ltac:(by right; left) eq_refl ltac:(cbn; lia)).
Defined.

(** ** The processors *)

Section madt.
Context {PT : Type} `{!X86_64 PT} `{!X86_64Laws PT}.

(** The id of an enabled processor, as the kernel keeps it. *)
Definition enabled_cpu (e : MadtEntry) : option Z :=
  match e with
  | LocalApic id flags => if Z.testbit flags 0 then Some id else None
  | LocalX2Apic id flags => if Z.testbit flags 0 then Some (id mod 2 ^ 8) else None
  | _ => None
  end.

Definition entry_ok (e : MadtEntry) : Prop :=
  match e with IoApicEntry _ a _ => 0 ≤ a < 2 ^ 32 | _ => True end.

Lemma land_1 x : (Z.land x 1 =? 0) = negb (Z.testbit x 0).
Proof.
  change 1 with (Z.ones 1). rewrite Z.land_ones by lia. change (2 ^ 1) with 2. rewrite Z.bit0_odd, Zmod_odd. by destruct (Z.odd x).
Qed.

Lemma parse_madt_spec t :
  0 ≤ local_apic_address t < 2 ^ 32 → Forall entry_ok (madt_entries t) →
  wp (parse_madt (PT:=PT) t) (λ r, lapic_addr r = local_apic_address t ∧
    lapic_id_field <$> madt_cpus r = omap enabled_cpu (madt_entries t)).
Proof.
  intros Ha Hes. unfold parse_madt. apply wp_bind.
  apply (wp_for_each _ _ _ (λ done_ '(cpus, _, _), lapic_id_field <$> cpus = omap enabled_cpu done_)).
  - done.
  - intros done_ e rest [[cpus ios] ovs] E Hc. rewrite omap_app, <-Hc. cbn [omap list_omap]. rewrite E in Hes.
    apply Forall_app in Hes as [_ Hes]. inversion Hes as [|?? He _]; subst. unfold parse_entry.
    destruct e as [id fl|id fl|id a g|i g f|]; cbn [enabled_cpu].
    1,2: rewrite land_1, negb_involutive; apply wp_ret; destruct (Z.testbit fl 0); [by rewrite fmap_app|by rewrite app_nil_r].
    1: apply wp_bind, wp_phys_new; [cbn in He; lia|]; apply wp_ret; by rewrite app_nil_r.
    1,2: apply wp_ret; by rewrite app_nil_r.
  - intros [[cpus ios] ovs] Hc. apply wp_bind, wp_phys_new; [lia|]. by apply wp_ret.
Qed.

(** Two processors whose ids differ above the low byte get the same id. *)
Lemma x2apic_ids_collide :
  enabled_cpu (LocalX2Apic 0x101 1) = enabled_cpu (LocalApic 1 1).
Proof. reflexivity. Qed.
End madt.
