(* ===== verification/KernelStacks.v ===== *)
(** * Kernel stacks and vmalloc

    Models kernel/src/arch/amd64/scheduler/stack.rs (kernel stacks with guard
    pages) and kernel/src/arch/amd64/memory/vmm/v_allocator.rs (virtually
    contiguous kernel memory).  Both take frames from the page allocator one
    by one and map them in the kernel page table. *)
From stdpp Require Import sorting.
From S2P Require Import Prelude Misc Memblock Frame Sparsemem Zones Paging.
#[local] Open Scope Z_scope.

Definition DEFAULT_KERNEL_STACK_SIZE : Z := 16 * PAGE_SIZE.
Definition KERNEL_STACKS_VA_BASE : Z := 0xFFFFC00000000000.
Definition KERNEL_STACKS_VA_SIZE : Z := 256 * 1024 * 1024 * 1024.

Record KernelStack := mk_stack {
  ks_bottom : Z;
  ks_top : Z;
  ks_pages : list Z
}.

Section stacks.
Context {PT M : Type} `{!X86_64 PT} `{!PageSource M}.

(** [STACK_VA_BUMP] is threaded as [bump]; [fetch_add] wraps. *)
Definition reserve_stack_va (bump : Z) (pages : Z) : outcome (Z * Z) :=
  size ← mul64 pages PAGE_SIZE;
  let base := bump in
  let bump := wrap64 (bump + size) in
  e ← add64 base size;
  _ ← assert (e <=? KERNEL_STACKS_VA_BASE + KERNEL_STACKS_VA_SIZE);
  va ← virt_new base;
  Ret (va, bump).

Definition STACK_FLAGS : Z :=
  flags_of [b_present page_bits; b_writable page_bits; b_no_execute page_bits].

(** [page_count] single frames; when one is missing the others are freed and
    the kernel panics. *)
Definition alloc_stack_frames (m : M) (page_count : nat) : outcome (M * list Z) :=
  for_range 0 page_count (λ _ '(m, phys_pages),
    '(m, r) ← page_alloc m 0 SAFE_KERNEL_PAGES;
    match r with
    | Some phys => Ret (m, phys_pages ++ [phys])
    | None =>
        _ ← for_each (λ p m, page_free m p) phys_pages m;
        Panic PExplicit
    end) (m, []).

(** The pages are mapped in order; on failure the mappings and frames are
    given back and the kernel panics. *)
Definition map_stack_pages (pt : PT) (m : M) (stack_va : Z) (phys_pages : list Z) : outcome (PT * M) :=
  for_each (λ '(i, phys) '(pt, m),
    off ← mul64 (Z.of_nat i) PAGE_SIZE;
    virt ← virt_add stack_va off;
    '(pt, m, r) ← map_single_page pt m virt phys STACK_FLAGS;
    match r with
    | Ok _ => Ret (pt, m)
    | Err _ =>
        _ ← for_range 0 i (λ j pt,
          off ← mul64 (Z.of_nat j) PAGE_SIZE;
          v ← virt_add stack_va off;
          Ret (unmap_single_page pt v).1) pt;
        _ ← for_each (λ p m, page_free m p) phys_pages m;
        Panic PExplicit
    end) (imap pair phys_pages) (pt, m).

Definition allocate_kernel_stack (bump : Z) (pt : PT) (m : M) (size : Z)
    : outcome (Z * PT * M * KernelStack) :=
  _ ← assert ((0 <? size) && (size mod PAGE_SIZE =? 0));
  let page_count := size / PAGE_SIZE in
  '(m, phys_pages) ← alloc_stack_frames m (Z.to_nat page_count);
  n ← add64 1 page_count;
  '(va_base, bump) ← reserve_stack_va bump n;
  stack_va ← virt_add va_base PAGE_SIZE;
  '(pt, m) ← map_stack_pages pt m stack_va phys_pages;
  top ← virt_add stack_va size;
  Ret (bump, pt, m, mk_stack stack_va top phys_pages).

(** [self.bottom - PAGE_SIZE], an address subtraction of the x86_64 crate. *)
Definition guard_page_va (s : KernelStack) : outcome Z := virt_add (ks_bottom s) (- PAGE_SIZE).

Definition deallocate_kernel_stack (pt : PT) (m : M) (s : KernelStack) : outcome (PT * M) :=
  for_each (λ '(i, phys) '(pt, m),
    off ← mul64 (Z.of_nat i) PAGE_SIZE;
    virt ← virt_add (ks_bottom s) off;
    let '(pt, r) := unmap_single_page pt virt in
    _ ← expect r;
    m ← page_free m phys;
    Ret (pt, m)) (imap pair (ks_pages s)) (pt, m).

(** ** vmalloc *)

Record VmallocRegion := mk_region {
  vr_base : Z;
  vr_size : Z;
  vr_pages : list Z
}.

(** [BTreeMap<VirtAddr, VmallocRegion>] by increasing key. *)
Notation VmallocManager := (gmap Z VmallocRegion).

Definition region_le (x y : Z * VmallocRegion) : Prop := x.1 ≤ y.1.
#[global] Instance region_le_dec x y : Decision (region_le x y).
Proof. unfold region_le. apply _. Defined.
Definition regions_of (vm : VmallocManager) : list VmallocRegion :=
  (merge_sort region_le (map_to_list vm)).*2.

Definition VMALLOC_START : Z := 0xffffffffc0000000.
Definition VMALLOC_END : Z := 0xfffffffff0000000.

Definition find_free_range (vm : VmallocManager) (size : Z) : outcome (option Z) :=
  r ← for_each_ret (λ region cursor,
    e ← add64 cursor size;
    if e <=? vr_base region then Ret (inr cursor)
    else
      region_end ← add64 (vr_base region) (vr_size region);
      cursor ← virt_new region_end;
      Ret (inl cursor)) (regions_of vm) VMALLOC_START;
  match r with
  | inr cursor => Ret (Some cursor)
  | inl cursor =>
      e ← add64 cursor size;
      Ret (if e <=? VMALLOC_END then Some cursor else None)
  end.

Definition VMALLOC_FLAGS : Z :=
  flags_of [b_present page_bits; b_writable page_bits; b_no_execute page_bits; b_no_cache page_bits].

Definition vmalloc (vm : VmallocManager) (pt : PT) (m : M) (size : Z)
    : outcome (VmallocManager * PT * M * option Z) :=
  size ← align_up size PAGE_SIZE;
  ob ← find_free_range vm size;
  match ob with
  | None => Ret (vm, pt, m, None)
  | Some base =>
      r ← for_each_ret (λ i '(pt, m, pages),
        let off := Z.of_nat i * PAGE_SIZE in
        '(m, r) ← page_alloc m 0 SAFE_KERNEL_PAGES;
        match r with
        | None => Ret (inr (pt, m))
        | Some phys =>
            va ← virt_add base off;
            '(pt, m) ← kmap_page pt m va phys VMALLOC_FLAGS;
            Ret (inl (pt, m, pages ++ [phys]))
        end) (seq 0 (Z.to_nat (size / PAGE_SIZE))) (pt, m, []);
      match r with
      | inr (pt, m) => Ret (vm, pt, m, None)
      | inl (pt, m, pages) => Ret (<[base:=mk_region base size pages]> vm, pt, m, Some base)
      end
  end.

Definition vfree (vm : VmallocManager) (pt : PT) (m : M) (ptr : Z)
    : outcome (VmallocManager * PT * M) :=
  region ← unwrap (vm !! ptr);
  '(pt, m) ← for_each (λ '(i, phys) '(pt, m),
    off ← mul64 (Z.of_nat i) PAGE_SIZE;
    virt ← virt_add (vr_base region) off;
    pt ← kunmap_page pt virt;
    m ← page_free m phys;
    Ret (pt, m)) (imap pair (vr_pages region)) (pt, m);
  Ret (delete ptr vm, pt, m).
End stacks.
