(* ===== verification/KernelStacksSpec.v ===== *)
(** * Kernel stacks: properties

    Stacks never overlap, have an unmapped guard page below them, and own the
    frames their pages are mapped to; releasing a stack unmaps it and returns
    exactly its frames. *)
From S2P Require Import Prelude Misc Memblock Frame Sparsemem Zones Paging PagingRef ZonesSource.
From S2P Require Import AddrSpace AddrSpaceSpec KernelStacks.
#[local] Open Scope Z_scope.

(** ** Lists of frames *)

Lemma imap_pair_split {A} (l : list A) done i x rest :
  imap pair l = done ++ (i, x) :: rest →
  i = length done ∧ l !! i = Some x ∧ (length done < length l)%nat.
Proof.
  intros Hl. pose proof (f_equal (.!! length done) Hl) as E. rewrite list_lookup_middle in E by done.
  rewrite list_lookup_imap in E. destruct (l !! length done) as [y|] eqn:Ey; [|done]. simpl in E. simplify_eq.
  split; [done|]. split; [done|]. by eapply lookup_lt_Some.
Qed.

Definition add_frames (l : list Z) (B : gmap Z nat) : gmap Z nat := foldr (λ f, <[f:=0%nat]>) B l.
Definition del_frames (l : list Z) (B : gmap Z nat) : gmap Z nat := foldr delete B l.

Lemma lookup_add_frames l B f : add_frames l B !! f = if decide (f ∈ l) then Some 0%nat else B !! f.
Proof.
  induction l as [|x l IH]; simpl.
  - done.
  - destruct (decide (x = f)) as [->|Hne].
    + rewrite lookup_insert_eq, decide_True; [done|]. by left.
    + rewrite lookup_insert_ne, IH by done. apply decide_ext. set_solver.
Qed.

Lemma lookup_del_frames l B f : del_frames l B !! f = if decide (f ∈ l) then None else B !! f.
Proof.
  induction l as [|x l IH]; simpl.
  - done.
  - destruct (decide (x = f)) as [->|Hne].
    + rewrite lookup_delete_eq, decide_True; [done|]. by left.
    + rewrite lookup_delete_ne, IH by done. apply decide_ext. set_solver.
Qed.

Section frames.
Context {PT M : Type} `{!X86_64 PT} `{!X86_64Laws PT} `{!PageSource M} `{!PageSourceLaws M}.

Lemma free_all_spec (l : list Z) m B :
  pages_out m B → NoDup l → (∀ f, f ∈ l → B !! f = Some 0%nat) →
  wp (for_each (λ p m, page_free m p) l m) (λ m', pages_out m' (del_frames l B)).
Proof.
  intros HB Hnd Hin.
  apply (wp_for_each _ _ _ (λ done m', pages_out m' (del_frames done B))); [done| |done].
  intros done f rest m1 Hl HB1. rewrite Hl in Hnd. apply NoDup_app in Hnd as (_ & Hd & _).
  eapply wp_mono; [apply (page_free_law m1 _ f 0 HB1)|].
  - rewrite lookup_del_frames, decide_False; [apply Hin; rewrite Hl; set_solver|].
    intros Hf. apply (Hd f Hf). by left.
  - intros m2 HB2. replace (del_frames (done ++ [f]) B) with (delete f (del_frames done B)); [done|].
    apply map_eq. intros g. rewrite lookup_delete, !lookup_del_frames.
    repeat case_decide; set_solver.
Qed.

(** [n] new frames. *)
Definition fresh_frames (B : gmap Z nat) (l : list Z) : Prop := NoDup l ∧ ∀ f, f ∈ l → B !! f = None.

Lemma alloc_stack_frames_room room m B n :
  budget room → pages_out m B →
  post (alloc_stack_frames m n)
    (λ '(m', l), length l = n ∧ fresh_frames B l ∧ pages_out m' (add_frames l B) ∧ ∀ k, room (n + k)%nat m → room k m')
    (λ p, p = PExplicit ∧ ¬ room n m).
Proof.
  intros Hb HB. unfold alloc_stack_frames, for_range.
  apply (post_for_each _ _ _ (λ done '(m', l), length l = length done ∧ fresh_frames B l ∧
    pages_out m' (add_frames l B) ∧ ∀ k, room (length done + k)%nat m → room k m')).
  - split; [done|]. split; [|done]. split; [constructor|]. set_solver.
  - intros done i rest [m1 l] Hl (Hlen & [Hnd Hnew] & HB1 & Hroom).
    destruct (wp_elim _ _ (page_alloc_law m1 _ 0 HB1)) as ([m2 [f|]] & Ea & Hr); rewrite Ea; cbn [mbind outcome_bind].
    + destruct Hr as [Hf HB2]. rewrite lookup_add_frames in Hf. case_decide as Hin; [done|]. simpl.
      rewrite !length_app, Hlen. split; [done|]. split; [split|split].
      * apply NoDup_app. split; [done|]. split; [set_solver|]. apply NoDup_singleton.
      * intros g [Hg| ->%list_elem_of_singleton]%elem_of_app; [by apply Hnew|done].
      * replace (add_frames (l ++ [f]) B) with (<[f:=0%nat]> (add_frames l B)); [done|].
        apply map_eq. intros g. rewrite lookup_insert, !lookup_add_frames. repeat case_decide; set_solver.
      * intros k Hk. rewrite <-Nat.add_assoc in Hk. by apply (bu_alloc _ Hb _ _ 0 _ _ (Hroom _ Hk) ltac:(lia) Ea).
    + eapply post_bind; [apply (free_all_spec l m2 _ Hr); [done|]|].
      { intros f Hf. rewrite lookup_add_frames. by rewrite decide_True. }
      intros m3 _. split; [done|]. intros Hn. apply (f_equal length) in Hl. rewrite length_seq, length_app, Nat.sub_0_r in Hl. cbn [length] in Hl.
      rewrite Hl in Hn. destruct (bu_alloc _ Hb _ _ 0 _ _ (Hroom _ Hn) ltac:(lia) Ea) as [[x Hx] _]. done.
  - intros [m1 l]. by rewrite length_seq, Nat.sub_0_r.
Qed.

(** ** Mapping a list of frames at consecutive pages *)

Definition frame_at (base : Z) (l : list Z) (p : Z) : option Z :=
  if decide (covered base (length l) p) then l !! Z.to_nat ((p - base) / PAGE_SIZE) else None.

Definition mapped_list (pt pt' : PT) (base : Z) (l : list Z) (flags : Z) : Prop :=
  ∀ p, translate pt' p =
    match frame_at base l p with Some f => Some (f, flags) | None => translate pt p end.

Lemma frame_at_nil base p : frame_at base [] p = None.
Proof. unfold frame_at. rewrite decide_False; [done|apply covered_0]. Qed.

Lemma page_index base n : (base + Z.of_nat n * PAGE_SIZE - base) / PAGE_SIZE = Z.of_nat n.
Proof. replace (_ - base) with (Z.of_nat n * PAGE_SIZE) by lia. by apply Z.div_mul. Qed.

Lemma frame_at_nth base l n f :
  base mod PAGE_SIZE = 0 → l !! n = Some f → frame_at base l (base + Z.of_nat n * PAGE_SIZE) = Some f.
Proof.
  intros Hb Hn. unfold frame_at. rewrite decide_True.
  - by rewrite page_index, Nat2Z.id.
  - apply lookup_lt_Some in Hn. split; [unfold PAGE_SIZE; lia|by apply mod_page_add].
Qed.

Lemma covered_nth base n p :
  base mod PAGE_SIZE = 0 → covered base n p → ∃ i, (i < n)%nat ∧ p = base + Z.of_nat i * PAGE_SIZE.
Proof.
  intros Hb. induction n as [|n IH]; intros Hc; [by apply covered_0 in Hc|].
  apply covered_S in Hc as [Hc| ->]; [|eauto|done]. destruct (IH Hc) as (i & Hi & ->). exists i. split; [lia|done].
Qed.

Lemma frame_at_snoc base l f p :
  base mod PAGE_SIZE = 0 →
  frame_at base (l ++ [f]) p =
    if decide (p = base + Z.of_nat (length l) * PAGE_SIZE) then Some f else frame_at base l p.
Proof.
  intros Hb. case_decide as E.
  - subst. apply frame_at_nth; [done|]. by apply list_lookup_middle.
  - unfold frame_at. rewrite length_app. simpl. rewrite Nat.add_1_r.
    destruct (decide (covered base (length l) p)) as [Hc|Hc].
    + rewrite decide_True by (apply covered_S; [done|by left]).
      destruct (covered_nth _ _ _ Hb Hc) as (i & Hi & ->). rewrite page_index, Nat2Z.id.
      by rewrite lookup_app_l.
    + rewrite decide_False; [done|]. rewrite covered_S by done. tauto.
Qed.

(** Addresses of the pages of a stack. *)
Record va_ok (base : Z) (n : nat) : Prop := {
  vo_aligned : base mod PAGE_SIZE = 0;
  vo_low : KERNEL_STACKS_VA_BASE ≤ base;
  vo_high : base + Z.of_nat n * PAGE_SIZE ≤ KERNEL_STACKS_VA_BASE + KERNEL_STACKS_VA_SIZE
}.

Lemma wp_virt_add a n (Q : Z → Prop) : canonical (a + n) → Q (a + n) → wp (virt_add a n) Q.
Proof. intros Hc HQ. rewrite virt_add_law. by rewrite bool_decide_true. Qed.

Lemma va_canonical x :
  KERNEL_STACKS_VA_BASE ≤ x ≤ KERNEL_STACKS_VA_BASE + KERNEL_STACKS_VA_SIZE → canonical x.
Proof. unfold KERNEL_STACKS_VA_BASE, KERNEL_STACKS_VA_SIZE, canonical. lia. Qed.

(** The address computation at the head of each loop body. *)
Lemma wp_stack_page {A} base n i (f : Z → outcome A) (Q : A → Prop) :
  va_ok base n → (i ≤ n)%nat →
  wp (f (base + Z.of_nat i * PAGE_SIZE)) Q →
  wp (off ← mul64 (Z.of_nat i) PAGE_SIZE; virt ← virt_add base off; f virt) Q.
Proof.
  intros [_ Hlo Hhi] Hi HQ. apply wp_bind, wp_mul64.
  { unfold KERNEL_STACKS_VA_BASE, KERNEL_STACKS_VA_SIZE, PAGE_SIZE, u64_max in *. lia. }
  apply wp_bind, wp_virt_add; [|done]. apply va_canonical. unfold PAGE_SIZE in *. lia.
Qed.

Lemma post_stack_page {A} base n i (f : Z → outcome A) (Q : A → Prop) (P : panic → Prop) :
  va_ok base n → (i ≤ n)%nat →
  post (f (base + Z.of_nat i * PAGE_SIZE)) Q P →
  post (off ← mul64 (Z.of_nat i) PAGE_SIZE; virt ← virt_add base off; f virt) Q P.
Proof.
  intros Hv Hi HQ.
  pose proof (wp_stack_page base n i (λ v, Ret v) (λ v, v = base + Z.of_nat i * PAGE_SIZE) Hv Hi (wp_ret _ _ eq_refl)) as Hw.
  destruct (mul64 _ _) as [off| |]; simpl in *; try done.
  destruct (virt_add base off) as [v| |]; simpl in *; try done. by rewrite Hw.
Qed.

Lemma stack_flags_present : Z.testbit STACK_FLAGS (b_present page_bits) = true.
Proof.
  destruct page_bits_law as [_ Hb]. rewrite !Forall_cons in Hb. destruct Hb as (? & ? & ? & ? & ? & _).
  unfold STACK_FLAGS. rewrite testbit_flags_of; [|lia|repeat (constructor; [lia|]); constructor].
  apply bool_decide_eq_true. by left.
Qed.

(** The pages can be mapped: they are free, and there are frames for the
    tables. *)
Definition can_map (room : nat → M → Prop) (pt : PT) (m : M) (base : Z) (n : nat) : Prop :=
  room (3 * n)%nat m ∧ ∀ p, covered base n p → ¬ huge pt p ∧ translate pt p = None.

Lemma map_stack_pages_room room pt m B base l :
  budget room → pages_out m B → NoDup l → (∀ f, f ∈ l → B !! f = Some 0%nat) → va_ok base (length l) →
  post (map_stack_pages pt m base l)
    (λ '(pt', m'), grown B m' ∧ mapped_list pt pt' base l STACK_FLAGS ∧
      (∀ p, covered base (length l) p → translate pt p = None) ∧ ∀ k, room (3 * length l + k)%nat m → room k m')
    (λ p, p = PExplicit ∧ ¬ can_map room pt m base (length l)).
Proof.
  intros Hb HB Hnd Hin Hva. pose proof (vo_aligned _ _ Hva) as Hal. unfold map_stack_pages.
  apply (post_for_each _ _ _ (λ done '(pt', m'), grown B m' ∧
    mapped_list pt pt' base (take (length done) l) STACK_FLAGS ∧
    (∀ p, covered base (length done) p → translate pt p = None) ∧
    (∀ p, huge pt' p ↔ huge pt p) ∧ ∀ k, room (3 * length done + k)%nat m → room k m')).
  - split; [by apply grown_refl|]. split; [|split; [|done]].
    + intros p. by rewrite frame_at_nil.
    + intros p Hc. by apply covered_0 in Hc.
  - intros done [i f] rest [pt1 m1] Hl (Hg & Hm & Hfree & Hh & Hroom).
    apply imap_pair_split in Hl as (-> & Hf & Hlt). rewrite length_app. simpl length. rewrite Nat.add_1_r.
    eapply post_stack_page; [done|lia|]. destruct Hg as (B1 & Hsub & HB1).
    eapply post_bind; [apply (map_single_page_room room pt1 m1 B1); [done|done|apply stack_flags_present]|].
    rewrite page_of_aligned by by apply mod_page_add.
    assert (page_of f = f) as ->.
    { apply page_of_aligned. eapply (pages_out_aligned m B); [done|]. apply Hin. by eapply list_elem_of_lookup_2. }
    assert (translate pt1 (base + Z.of_nat (length done) * PAGE_SIZE) = translate pt (base + Z.of_nat (length done) * PAGE_SIZE)) as Hsame.
    { rewrite Hm. unfold frame_at. rewrite length_take_le by lia. by rewrite decide_False by apply not_covered_end. }
    intros [[pt2 m2] [u|e]] ((B2 & Hsub2 & HB2) & _ & Hh2 & Hu & Hr).
    + destruct Hr as [Hnone Hat]. split; [exists B2; split; [by etransitivity|done]|]. split; [|split; [|split]].
      * intros p. rewrite (take_S_r _ _ _ Hf), frame_at_snoc by done. rewrite length_take_le by lia.
        rewrite Hat. case_decide; [done|]. apply Hm.
      * intros p [Hc| ->]%covered_S; [by apply Hfree|by rewrite <-Hsame|done].
      * intros p. by rewrite Hh2.
      * intros k Hk. apply Hu, Hroom. by replace (3 * length done + (3 + k))%nat with (3 * S (length done) + k)%nat by lia.
    + cbn [mbind outcome_bind]. eapply (post_bind _ _ (λ _, True)).
      { apply (wp_for_range _ _ _ _ (λ _ _, True)); [lia|done| |done].
        intros j pt3 Hj _. apply (wp_stack_page base (length l)); [done|lia|]. by apply wp_ret. }
      intros pt3 _. eapply post_bind; [apply (free_all_spec l m2 B2 HB2 Hnd)|].
      { intros g Hg. eapply lookup_weaken; [by apply Hin|]. by etransitivity. }
      intros m3 _. split; [done|]. intros [Hn Hpg].
      destruct (Hpg (base + Z.of_nat (length done) * PAGE_SIZE)) as [H1 H2].
      { split; [unfold PAGE_SIZE; lia|by apply mod_page_add]. }
      destruct Hu as [Hu|[Hu|Hu]].
      * apply Hu, Hroom, (budget_less room (3 * (length l - S (length done)))); [done|].
        by replace (3 * (length l - S (length done)) + (3 * length done + 3))%nat with (3 * length l)%nat by lia.
      * by apply H1, Hh.
      * rewrite Hsame, H2 in Hu. by destruct Hu.
  - intros [pt1 m1]. rewrite length_imap, firstn_all. intros (? & ? & ? & _ & ?). done.
Qed.

(** ** The live stacks *)

Record stack_ok (bump : Z) (pt : PT) (B : gmap Z nat) (s : KernelStack) : Prop := {
  so_pages : (0 < length (ks_pages s))%nat;
  so_va : va_ok (ks_bottom s) (length (ks_pages s));
  so_guard_va : KERNEL_STACKS_VA_BASE ≤ ks_bottom s - PAGE_SIZE;
  so_top : ks_top s = ks_bottom s + Z.of_nat (length (ks_pages s)) * PAGE_SIZE;
  so_below : ks_top s ≤ bump;
  so_nodup : NoDup (ks_pages s);
  so_frames : ∀ f, f ∈ ks_pages s → B !! f = Some 0%nat;
  so_mapped : ∀ p f, frame_at (ks_bottom s) (ks_pages s) p = Some f → translate pt p = Some (f, STACK_FLAGS);
  so_guard : translate pt (ks_bottom s - PAGE_SIZE) = None
}.

(** Neither addresses (guard page included) nor frames in common. *)
Definition apart (s s' : KernelStack) : Prop :=
  (ks_top s ≤ ks_bottom s' - PAGE_SIZE ∨ ks_top s' ≤ ks_bottom s - PAGE_SIZE) ∧
  ∀ f, f ∈ ks_pages s → f ∉ ks_pages s'.

Record stacks_inv (bump : Z) (pt : PT) (B : gmap Z nat) (ss : list KernelStack) : Prop := {
  si_bump : bump mod PAGE_SIZE = 0 ∧
    KERNEL_STACKS_VA_BASE ≤ bump ≤ KERNEL_STACKS_VA_BASE + KERNEL_STACKS_VA_SIZE;
  si_stack : ∀ s, s ∈ ss → stack_ok bump pt B s;
  si_apart : ∀ i j s s', ss !! i = Some s → ss !! j = Some s' → i ≠ j → apart s s';
  si_above : ∀ p, bump ≤ p < KERNEL_STACKS_VA_BASE + KERNEL_STACKS_VA_SIZE → translate pt p = None
}.

Lemma stacks_apart_sym s s' : apart s s' → apart s' s.
Proof. intros [Hv Hf]. split; [tauto|]. intros f H1 H2. by apply (Hf f). Qed.

Lemma reserve_stack_va_spec bump n :
  bump mod PAGE_SIZE = 0 → KERNEL_STACKS_VA_BASE ≤ bump ≤ KERNEL_STACKS_VA_BASE + KERNEL_STACKS_VA_SIZE →
  0 ≤ n → n * PAGE_SIZE ≤ 2 * KERNEL_STACKS_VA_SIZE →
  post (reserve_stack_va bump n) (λ '(va, bump'), va = bump ∧ bump' = bump + n * PAGE_SIZE ∧
    bump' ≤ KERNEL_STACKS_VA_BASE + KERNEL_STACKS_VA_SIZE)
    (λ p, p = PAssert ∧ KERNEL_STACKS_VA_BASE + KERNEL_STACKS_VA_SIZE < bump + n * PAGE_SIZE).
Proof.
  intros Hal Hb Hn Hs. unfold reserve_stack_va.
  assert (bump + n * PAGE_SIZE ≤ u64_max ∧ n * PAGE_SIZE ≤ u64_max) as [H1 H2].
  { unfold KERNEL_STACKS_VA_BASE, KERNEL_STACKS_VA_SIZE, PAGE_SIZE, u64_max in *. lia. }
  unfold mul64, add64. rewrite (proj2 (Z.leb_le (n * PAGE_SIZE) _)) by done. simpl.
  rewrite (proj2 (Z.leb_le (bump + n * PAGE_SIZE) u64_max)) by done. simpl.
  destruct (Z.leb_spec (bump + n * PAGE_SIZE) (KERNEL_STACKS_VA_BASE + KERNEL_STACKS_VA_SIZE)) as [Hle|]; [|done].
  simpl. rewrite virt_new_law, bool_decide_true by by apply va_canonical. simpl. split; [done|].
  unfold wrap64. rewrite Z.mod_small; [done|]. unfold KERNEL_STACKS_VA_BASE, PAGE_SIZE, u64_max in *. lia.
Qed.

(** A stack that was live before stays so when only pages from [bump] on and
    new frames are used. *)
Lemma stack_ok_kept bump bump' pt pt' B B' s :
  stack_ok bump pt B s → bump ≤ bump' → B ⊆ B' →
  (∀ p, p < bump → translate pt' p = translate pt p) → stack_ok bump' pt' B' s.
Proof.
  intros [Hn Hva Hg Ht Hb Hnd Hf Hm Hgd] Hle Hsub Hpt. pose proof (vo_low _ _ Hva).
  split; try done; [lia| | |].
  - intros f Hin. eapply lookup_weaken; [by apply Hf|done].
  - intros p f Hp. rewrite Hpt; [by apply Hm|]. unfold frame_at in Hp. case_decide as Hc; [|done].
    destruct Hc. lia.
  - rewrite Hpt; [done|]. unfold PAGE_SIZE in *. lia.
Qed.

Lemma add_frames_sub l B : fresh_frames B l → B ⊆ add_frames l B.
Proof.
  intros [_ Hf]. apply map_subseteq_spec. intros k v Hk. rewrite lookup_add_frames, decide_False; [done|].
  intros Hin. rewrite Hf in Hk by done. done.
Qed.

Lemma stacks_inv_add bump pt pt' B B' ss l :
  stacks_inv bump pt B ss → B ⊆ B' → fresh_frames B l → (∀ f, f ∈ l → B' !! f = Some 0%nat) →
  (0 < length l)%nat → va_ok (bump + PAGE_SIZE) (length l) →
  mapped_list pt pt' (bump + PAGE_SIZE) l STACK_FLAGS →
  (∀ p, p < bump → translate pt' p = translate pt p) ∧
  stacks_inv (bump + PAGE_SIZE + Z.of_nat (length l) * PAGE_SIZE) pt' B'
    (ss ++ [mk_stack (bump + PAGE_SIZE) (bump + PAGE_SIZE + Z.of_nat (length l) * PAGE_SIZE) l]).
Proof.
  intros [[Hbal Hbr] Hst Hap Hab] Hsub Hfresh HB' Hl Hva Hmap. set (e := bump + PAGE_SIZE + _).
  assert (PAGE_SIZE < e - bump) as He by (unfold e, PAGE_SIZE; lia).
  assert (∀ p, p < bump + PAGE_SIZE ∨ e ≤ p → translate pt' p = translate pt p) as Hout.
  { intros p Hp. rewrite Hmap. unfold frame_at. rewrite decide_False; [done|]. unfold covered. fold e. lia. }
  split; [intros p Hp; apply Hout; unfold PAGE_SIZE; lia|].
  assert (∀ s, s ∈ ss → apart s (mk_stack (bump + PAGE_SIZE) e l)) as Hnew.
  { intros s Hs. pose proof (so_below _ _ _ _ (Hst s Hs)). split; [left; simpl; lia|]. simpl. intros f Hf Hf'.
    pose proof (so_frames _ _ _ _ (Hst s Hs) f Hf). pose proof (proj2 Hfresh f Hf'). congruence. }
  split.
  - destruct Hva as [Hal Hlo Hhi]. split; [by apply mod_page_add|]. unfold PAGE_SIZE in *. lia.
  - intros s [Hs| ->%list_elem_of_singleton]%elem_of_app.
    + eapply stack_ok_kept; [by apply Hst|unfold PAGE_SIZE in *; lia|done|].
      intros p Hp. apply Hout. unfold PAGE_SIZE. lia.
    + split; simpl; try done; [lia|apply Hfresh| |].
      * intros p f Hf. by rewrite Hmap, Hf.
      * replace (bump + PAGE_SIZE - PAGE_SIZE) with bump by lia. rewrite Hout by (unfold PAGE_SIZE; lia).
        apply Hab. destruct Hva. unfold PAGE_SIZE in *. lia.
  - intros i j s s' Hi Hj Hne. apply lookup_app_Some in Hi as [Hi|[Hi Ei]], Hj as [Hj|[Hj Ej]].
    + by apply (Hap i j).
    + apply list_lookup_singleton_Some in Ej as [_ <-]. apply Hnew. by eapply list_elem_of_lookup_2.
    + apply list_lookup_singleton_Some in Ei as [_ <-]. apply stacks_apart_sym, Hnew. by eapply list_elem_of_lookup_2.
    + apply list_lookup_singleton_Some in Ei as [Ei _], Ej as [Ej _]. lia.
  - intros p Hp. rewrite Hout by lia. apply Hab. unfold PAGE_SIZE in *. lia.
Qed.

(** There are frames and addresses for a stack of [n] pages, and no huge page is
    where it goes. *)
Definition stack_room (room : nat → M → Prop) (bump : Z) (pt : PT) (m : M) (n : nat) : Prop :=
  room (4 * n)%nat m ∧ bump + (1 + Z.of_nat n) * PAGE_SIZE ≤ KERNEL_STACKS_VA_BASE + KERNEL_STACKS_VA_SIZE ∧
  ∀ p, bump ≤ p < bump + (1 + Z.of_nat n) * PAGE_SIZE → ¬ huge pt p.

Lemma allocate_kernel_stack_room room bump pt m B ss size :
  budget room → pages_out m B → stacks_inv bump pt B ss →
  0 < size ≤ KERNEL_STACKS_VA_SIZE → size mod PAGE_SIZE = 0 →
  post (allocate_kernel_stack bump pt m size)
    (λ '(bump', pt', m', s), ks_top s - ks_bottom s = size ∧
      (∀ p, p < bump → translate pt' p = translate pt p) ∧
      (∃ B', B ⊆ B' ∧ pages_out m' B' ∧ stacks_inv bump' pt' B' (ss ++ [s])) ∧
      ∀ k, room (4 * Z.to_nat (size / PAGE_SIZE) + k)%nat m → room k m')
    (λ p, (p = PExplicit ∨ p = PAssert) ∧ ¬ stack_room room bump pt m (Z.to_nat (size / PAGE_SIZE))).
Proof.
  intros Hbu HB Hinv Hs Hm. unfold allocate_kernel_stack.
  rewrite (proj2 (Z.ltb_lt 0 size)), (proj2 (Z.eqb_eq _ 0)) by (lia || done). simpl.
  set (n := Z.to_nat (size / PAGE_SIZE)).
  assert (Z.of_nat n * PAGE_SIZE = size ∧ size / PAGE_SIZE = Z.of_nat n) as [Hn Hdiv].
  { unfold n, PAGE_SIZE in *. pose proof (Z.div_mod size 4096 ltac:(lia)).
    pose proof (Z.div_pos size 4096 ltac:(lia) ltac:(lia)). lia. }
  fold n. eapply post_bind_post; [eapply post_weaken; [by apply (alloc_stack_frames_room room)|]|].
  { intros p [-> Hp]. split; [by left|]. intros [Hr _]. apply Hp, (budget_less room (3 * n)); [done|].
    by replace (3 * n + n)%nat with (4 * n)%nat by lia. }
  intros [m1 l] (Hlen & Hfresh & HB1 & Hroom1). pose proof (add_frames_sub _ _ Hfresh) as HsubB.
  destruct (si_bump _ _ _ _ Hinv) as [Hbal Hbr].
  assert (1 + size / PAGE_SIZE ≤ u64_max) as Hov.
  { unfold KERNEL_STACKS_VA_SIZE, PAGE_SIZE, u64_max in *. lia. }
  unfold add64. rewrite (proj2 (Z.leb_le _ _)) by done. simpl.
  eapply post_bind_post; [eapply post_weaken; [apply reserve_stack_va_spec; [done|done|lia|]|]|].
  2:{ intros p [-> Hp]. split; [by right|]. intros (_ & Hr & _). rewrite Hdiv in Hp. lia. }
  { rewrite Hdiv. unfold KERNEL_STACKS_VA_SIZE, PAGE_SIZE in *. lia. }
  intros [va bump'] (-> & Eb & Hb').
  assert (bump' = bump + PAGE_SIZE + size) as Eb' by (rewrite Hdiv in Eb; unfold PAGE_SIZE in *; lia).
  assert (va_ok (bump + PAGE_SIZE) (length l)) as Hva.
  { split; [|unfold PAGE_SIZE; lia|rewrite Hlen; lia]. rewrite <-(Z.mul_1_l PAGE_SIZE) at 1. by apply mod_page_add. }
  rewrite virt_add_law, bool_decide_true by (apply va_canonical; unfold PAGE_SIZE in *; lia). simpl.
  eapply post_bind_post.
  { eapply post_weaken; [apply (map_stack_pages_room room pt m1 (add_frames l B) _ l Hbu HB1); [apply Hfresh| |done]|].
    - intros f Hf. rewrite lookup_add_frames. by rewrite decide_True.
    - intros p [-> Hp]. split; [by left|]. intros (Hr & Hbd & Hh). apply Hp. rewrite Hlen. split.
      + apply Hroom1. by replace (n + 3 * n)%nat with (4 * n)%nat by lia.
      + intros q Hq. destruct Hq as [Hq _]. split; [apply Hh; unfold PAGE_SIZE in *; lia|].
        apply (si_above _ _ _ _ Hinv). unfold PAGE_SIZE in *. lia. }
  intros [pt' m'] ((B' & Hsub' & HB') & Hmap & Hfree & Hroom2). rewrite Hlen in Hroom2.
  rewrite virt_add_law, bool_decide_true by (apply va_canonical; unfold PAGE_SIZE in *; lia). simpl.
  assert (∀ f, f ∈ l → B' !! f = Some 0%nat) as HinB'.
  { intros f Hf. eapply lookup_weaken; [|done]. rewrite lookup_add_frames. by rewrite decide_True. }
  destruct (stacks_inv_add bump pt pt' B B' ss l) as [Hkeep Hinv']; try done; [by etransitivity|lia|].
  rewrite Hlen, Hn in Hinv'. rewrite Eb'. split; [lia|]. split; [done|]. split; [exists B'; split; [by etransitivity|done]|].
  intros k Hk. apply Hroom2, Hroom1. by replace (n + (3 * n + k))%nat with (4 * n + k)%nat by lia.
Qed.

Lemma allocate_kernel_stack_spec bump pt m B ss size :
  pages_out m B → stacks_inv bump pt B ss →
  0 < size ≤ KERNEL_STACKS_VA_SIZE → size mod PAGE_SIZE = 0 →
  post (allocate_kernel_stack bump pt m size)
    (λ '(bump', pt', m', s), ks_top s - ks_bottom s = size ∧
      (∀ p, p < bump → translate pt' p = translate pt p) ∧
      ∃ B', B ⊆ B' ∧ pages_out m' B' ∧ stacks_inv bump' pt' B' (ss ++ [s]))
    (λ p, p = PExplicit ∨ p = PAssert).
Proof.
  intros HB Hinv Hs Hm. eapply post_weaken; [eapply post_mono; [by apply (allocate_kernel_stack_room _ bump pt m B ss size no_budget)|]|].
  - by intros [[[bump' pt'] m'] s] (? & ? & ? & _).
  - by intros p [? _].
Qed.

(** ** Releasing a stack *)

Lemma deallocate_kernel_stack_loop bump pt m B s :
  pages_out m B → stack_ok bump pt B s →
  wp (deallocate_kernel_stack pt m s) (λ '(pt', m'),
    unmapped_run pt pt' (ks_bottom s) (length (ks_pages s)) ∧ pages_out m' (del_frames (ks_pages s) B)).
Proof.
  intros HB [Hn Hva Hg Ht Hb Hnd Hf Hm Hgd]. pose proof (vo_aligned _ _ Hva) as Hal.
  unfold deallocate_kernel_stack.
  apply (wp_for_each _ _ _ (λ done '(pt', m'), unmapped_run pt pt' (ks_bottom s) (length done) ∧
    pages_out m' (del_frames (take (length done) (ks_pages s)) B))).
  - split; [apply unmapped_run_0|done].
  - intros done [i f] rest [pt1 m1] Hl (Hun & HB1).
    apply imap_pair_split in Hl as (-> & Hi & Hlt). rewrite length_app. simpl. rewrite Nat.add_1_r.
    apply (wp_stack_page (ks_bottom s) (length (ks_pages s))); [done|lia|].
    destruct (unmap_single_page pt1 _) as [pt2 r] eqn:Eu. apply unmap_single_page_spec in Eu as [_ Eu].
    rewrite page_of_aligned in Eu by by apply mod_page_add.
    rewrite Hun, decide_False, (Hm _ f) in Eu by (apply not_covered_end || by apply frame_at_nth).
    destruct Eu as [-> Hat]. apply wp_bind, wp_ret, wp_bind.
    assert (f ∉ take (length done) (ks_pages s)) as Hnew.
    { intros (j & Hj)%list_elem_of_lookup. apply lookup_take_Some in Hj as [Hj Hlt'].
      pose proof (NoDup_lookup _ _ _ _ Hnd Hi Hj). lia. }
    eapply wp_mono; [apply (page_free_law m1 _ f 0 HB1)|].
    { rewrite lookup_del_frames, decide_False by done. apply Hf. by eapply list_elem_of_lookup_2. }
    intros m2 HB2. apply wp_ret. split; [by eapply unmapped_run_S|].
    rewrite (take_S_r _ _ _ Hi).
    replace (del_frames (take (length done) (ks_pages s) ++ [f]) B)
      with (delete f (del_frames (take (length done) (ks_pages s)) B)); [done|].
    apply map_eq. intros g. rewrite lookup_delete, !lookup_del_frames. repeat case_decide; set_solver.
  - intros [pt1 m1]. by rewrite length_imap, firstn_all.
Qed.

Lemma lookup_delete_other {A} (l : list A) i j x :
  delete i l !! j = Some x → ∃ k, k ≠ i ∧ l !! k = Some x ∧ (j < i → k = j)%nat ∧ (i ≤ j → k = S j)%nat.
Proof.
  intros Hj. destruct (decide (j < i)%nat).
  - rewrite list_lookup_delete_lt in Hj by lia. exists j. repeat split; (done || lia).
  - rewrite list_lookup_delete_ge in Hj by lia. exists (S j). repeat split; (done || lia).
Qed.

Lemma stacks_inv_remove bump pt pt' B ss i s :
  stacks_inv bump pt B ss → ss !! i = Some s →
  unmapped_run pt pt' (ks_bottom s) (length (ks_pages s)) →
  stacks_inv bump pt' (del_frames (ks_pages s) B) (delete i ss).
Proof.
  intros [Hb Hst Hap Hab] Hi Hun.
  pose proof (Hst s ltac:(by eapply list_elem_of_lookup_2)) as Hs.
  assert (∀ j s', delete i ss !! j = Some s' → stack_ok bump pt B s' ∧ apart s s') as Hold.
  { intros j s' (k & Hne & Hk & _)%lookup_delete_other. split; [apply Hst; by eapply list_elem_of_lookup_2|].
    by apply (Hap i k). }
  split; [done| | |].
  - intros s' (j & Hj)%list_elem_of_lookup. destruct (Hold _ _ Hj) as [Hs' [Hv Hfr]].
    pose proof (so_top _ _ _ _ Hs). pose proof (so_top _ _ _ _ Hs').
    assert (∀ p, ks_bottom s' - PAGE_SIZE ≤ p < ks_top s' → translate pt' p = translate pt p) as Hsame.
    { intros p Hp. rewrite Hun, decide_False; [done|]. unfold covered, PAGE_SIZE in *. lia. }
    destruct Hs' as [Hn Hva Hg Ht Hbl Hnd Hf Hm Hgd]. split; try done.
    + intros f Hin. rewrite lookup_del_frames, decide_False; [by apply Hf|]. intros Hin'. by apply (Hfr f).
    + intros p f Hp. rewrite Hsame; [by apply Hm|]. unfold frame_at in Hp. case_decide as Hc; [|done].
      destruct Hc. unfold PAGE_SIZE in *. lia.
    + rewrite Hsame; [done|]. unfold PAGE_SIZE in *. lia.
  - intros j k s1 s2 (j' & _ & Hj & Hj1 & Hj2)%lookup_delete_other (k' & _ & Hk & Hk1 & Hk2)%lookup_delete_other Hne.
    apply (Hap j' k'); [done|done|]. lia.
  - intros p Hp. rewrite Hun. case_decide; [done|]. by apply Hab.
Qed.

Lemma deallocate_kernel_stack_spec bump pt m B ss i s :
  pages_out m B → stacks_inv bump pt B ss → ss !! i = Some s →
  wp (deallocate_kernel_stack pt m s) (λ '(pt', m'),
    unmapped_run pt pt' (ks_bottom s) (length (ks_pages s)) ∧
    pages_out m' (del_frames (ks_pages s) B) ∧
    stacks_inv bump pt' (del_frames (ks_pages s) B) (delete i ss)).
Proof.
  intros HB Hinv Hi. eapply wp_mono.
  - apply (deallocate_kernel_stack_loop bump pt m B s); [done|]. apply (si_stack _ _ _ _ Hinv).
    by eapply list_elem_of_lookup_2.
  - intros [pt' m'] [Hun HB']. split; [done|]. split; [done|]. by eapply stacks_inv_remove.
Qed.
End frames.

(** ** Sequences of operations *)

Inductive stack_op :=
  | StackAlloc (size : Z)
  | StackFree (i : nat).

Section sequences.
Context {PT M : Type} `{!X86_64 PT} `{!X86_64Laws PT} `{!PageSource M} `{!PageSourceLaws M}.

Definition stack_state : Type := Z * PT * M * list KernelStack.

Definition run_stack_op (op : stack_op) (st : stack_state) : outcome stack_state :=
  let '(bump, pt, m, ss) := st in
  match op with
  | StackAlloc size =>
      '(bump, pt, m, s) ← allocate_kernel_stack bump pt m size;
      Ret (bump, pt, m, ss ++ [s])
  | StackFree i =>
      match ss !! i with
      | None => Ret st
      | Some s =>
          '(pt, m) ← deallocate_kernel_stack pt m s;
          Ret (bump, pt, m, delete i ss)
      end
  end.

Definition stack_op_ok (op : stack_op) : Prop :=
  match op with
  | StackAlloc size => 0 < size ≤ KERNEL_STACKS_VA_SIZE ∧ size mod PAGE_SIZE = 0
  | StackFree _ => True
  end.

Definition stacks_good (st : stack_state) : Prop :=
  let '(bump, pt, m, ss) := st in ∃ B, pages_out m B ∧ stacks_inv bump pt B ss.

Lemma run_stack_op_good op st :
  stack_op_ok op → stacks_good st →
  post (run_stack_op op st) stacks_good (λ p, p = PExplicit ∨ p = PAssert).
Proof.
  destruct st as [[[bump pt] m] ss]. intros Hop (B & HB & Hinv). destruct op as [size|i]; simpl in *.
  - destruct Hop as [Hs Hm]. eapply post_bind_post; [by apply (allocate_kernel_stack_spec bump pt m B ss)|].
    intros [[[bump' pt'] m'] s] (_ & _ & B' & _ & HB' & Hinv'). by exists B'.
  - destruct (ss !! i) as [s|] eqn:Hi; [|by exists B].
    eapply post_bind; [by apply (deallocate_kernel_stack_spec bump pt m B ss i s)|].
    intros [pt' m'] (_ & HB' & Hinv'). by exists (del_frames (ks_pages s) B).
Qed.

(** C23: whatever kernel stacks are allocated and released, the only panics are
    for lack of memory or of stack addresses; live stacks never share an
    address or a frame, each is mapped writable and not executable over its
    whole length with an unmapped guard page below, and releasing any of them
    succeeds, unmaps it and returns exactly its frames. *)
Theorem kernel_stacks_isolated pt m B ops :
  pages_out m B →
  (∀ p, KERNEL_STACKS_VA_BASE ≤ p < KERNEL_STACKS_VA_BASE + KERNEL_STACKS_VA_SIZE → translate pt p = None) →
  Forall stack_op_ok ops →
  post (for_each run_stack_op ops (KERNEL_STACKS_VA_BASE, pt, m, []))
    (λ '(bump, pt', m', ss), ∃ B', pages_out m' B' ∧ stacks_inv bump pt' B' ss ∧
      ∀ i s, ss !! i = Some s → wp (deallocate_kernel_stack pt' m' s) (λ '(pt'', m''),
        unmapped_run pt' pt'' (ks_bottom s) (length (ks_pages s)) ∧
        pages_out m'' (del_frames (ks_pages s) B')))
    (λ p, p = PExplicit ∨ p = PAssert).
Proof.
  intros HB Hpt Hops. apply (post_for_each _ _ _ (λ _ st, stacks_good st)).
  - exists B. split; [done|]. split; [|set_solver|done|done].
    unfold KERNEL_STACKS_VA_BASE, KERNEL_STACKS_VA_SIZE. split; [done|lia].
  - intros done op rest st Hl Hst. apply run_stack_op_good; [|done].
    rewrite Forall_forall in Hops. apply Hops. rewrite Hl. set_solver.
  - intros [[[bump pt'] m'] ss] (B' & HB' & Hinv). exists B'. split; [done|]. split; [done|].
    intros i s Hi. eapply wp_mono; [by apply (deallocate_kernel_stack_spec bump pt' m' B' ss i s)|].
    intros [pt'' m''] (? & ? & _). done.
Qed.
End sequences.

Lemma kernel_stacks_isolated_witness :
  ∃ (m : zmem) (root : Z),
    post (for_each run_stack_op [StackAlloc DEFAULT_KERNEL_STACK_SIZE; StackFree 0]
            (KERNEL_STACKS_VA_BASE, mk_ref root ∅, m, []))
      (λ '(bump, pt', m', ss), ∃ B', pages_out m' B' ∧ stacks_inv bump pt' B' ss)
      (λ p, p = PExplicit ∨ p = PAssert).
Proof.
  destruct small_machine_page as (m & root & Hout & _). exists m, root.
  eapply post_mono; [apply (kernel_stacks_isolated (mk_ref root ∅) m {[root := 0%nat]}); [exact Hout| |]|].
  - intros p _. apply lookup_empty.
  - repeat constructor; simpl; unfold KERNEL_STACKS_VA_SIZE, DEFAULT_KERNEL_STACK_SIZE, PAGE_SIZE; lia.
  - intros [[[bump pt'] m'] ss] (B' & HB' & Hinv & _). exists B'. split; [exact HB'|exact Hinv].
Defined.
