(* ===== verification/Objects.v ===== *)
(** * Kernel objects, capabilities and messages

    Models kernel/src/arch/amd64/ipc/object_table.rs, message.rs, cnode.rs and
    notification.rs: the table of kernel objects behind generation-checked
    handles, capabilities with their rights, the capability slots of a task,
    the fixed-size message and the badge notification.  A mutex or an atomic
    makes each operation of the table, a [CNode] and a [Notification] atomic,
    so their states are passed explicitly. *)
From S2P Require Import Prelude.

(** ** Kernel objects *)

Module KernelObjType.
Inductive t := VSpace | Endpoint | Frame | Thread | Irq | CNode.
#[export] Instance eq_dec : EqDecision t.
Proof. solve_decision. Defined.
End KernelObjType.
Export (hints) KernelObjType.

Module ObjData.
Inductive t :=
  | VSpace (task : Z)
  | Endpoint (id : Z)
  | CNode (task : Z)
  | Thread (task : Z).
End ObjData.

Record KernelObject := mk_object {
  obj_type : KernelObjType.t;
  refcount : Z;
  obj_data : ObjData.t
}.

(** [KernelObject::new]. *)
Definition object_new (ty : KernelObjType.t) (data : ObjData.t) : KernelObject :=
  mk_object ty 1 data.

Definition set_refcount (n : Z) (o : KernelObject) : KernelObject :=
  mk_object (obj_type o) n (obj_data o).

Definition wrap32 (x : Z) : Z := x mod 2 ^ 32.

(** [fetch_add]/[fetch_sub] wrap and return the old value. *)
Definition inc_ref (o : KernelObject) : Z * KernelObject :=
  (refcount o, set_refcount (wrap32 (refcount o + 1)) o).
Definition dec_ref (o : KernelObject) : bool * KernelObject :=
  (refcount o =? 1, set_refcount (wrap32 (refcount o - 1)) o).

(** ** The object table *)

Definition MAX_OBJECTS : nat := 4096.
#[global] Arguments MAX_OBJECTS : simpl never.

Record Slot := mk_slot {
  slot_gen : Z;
  slot_obj : option KernelObject
}.

Record ObjectTable := mk_table {
  ot_slots : list Slot;
  free_head : nat
}.

Record HandleRef := mk_handle {
  h_index : Z;
  h_gen : Z
}.

#[global] Instance handle_eq_dec : EqDecision HandleRef.
Proof. solve_decision. Defined.
#[global] Program Instance handle_countable : Countable HandleRef :=
  inj_countable' (λ h, (h_index h, h_gen h)) (λ x, mk_handle x.1 x.2) _.
Next Obligation. by intros []. Qed.

Definition table_new : ObjectTable := mk_table (replicate MAX_OBJECTS (mk_slot 0 None)) 0.

Definition insert_step (obj : KernelObject) (i : nat) (t : ObjectTable)
    : outcome (ObjectTable + (ObjectTable * HandleRef)) :=
  s ← arr_get (ot_slots t) i;
  match slot_obj s with
  | None =>
      l ← arr_set (ot_slots t) i (mk_slot (slot_gen s) (Some obj));
      Ret (inr (mk_table l (i + 1)%nat, mk_handle (Z.of_nat i mod 2 ^ 16) (slot_gen s)))
  | Some _ => Ret (inl t)
  end.

Definition obj_insert (t : ObjectTable) (obj : KernelObject)
    : outcome (ObjectTable * result unit HandleRef) :=
  r ← for_each_ret (insert_step obj) (seq (free_head t) (MAX_OBJECTS - free_head t)) t;
  match r with
  | inr (t, h) => Ret (t, Ok h)
  | inl t => Ret (t, Err ())
  end.

Definition obj_get (t : ObjectTable) (h : HandleRef) : outcome (option KernelObject) :=
  s ← arr_get (ot_slots t) (Z.to_nat (h_index h));
  if slot_gen s =? h_gen h then Ret (slot_obj s) else Ret None.

Definition obj_remove (t : ObjectTable) (h : HandleRef)
    : outcome (ObjectTable * option KernelObject) :=
  let i := Z.to_nat (h_index h) in
  s ← arr_get (ot_slots t) i;
  match slot_obj s with
  | Some o =>
      if slot_gen s =? h_gen h then
        l ← arr_set (ot_slots t) i (mk_slot (wrap32 (slot_gen s + 1)) None);
        Ret (mk_table l (if (i <=? free_head t)%nat then i else free_head t), Some o)
      else Ret (t, None)
  | None => Ret (t, None)
  end.

(** [with_object]: read access. *)
Definition with_object {R} (t : ObjectTable) (h : HandleRef) (f : KernelObject → R)
    : outcome (option R) :=
  o ← obj_get t h;
  Ret (fmap (M:=option) f o).

(** [with_object_mut]; also [with_object] when the closure changes the
    reference count through the atomic. *)
Definition with_object_mut {R} (t : ObjectTable) (h : HandleRef) (f : KernelObject → R * KernelObject)
    : outcome (ObjectTable * option R) :=
  let i := Z.to_nat (h_index h) in
  s ← arr_get (ot_slots t) i;
  match slot_obj s with
  | Some o =>
      if slot_gen s =? h_gen h then
        let '(r, o) := f o in
        l ← arr_set (ot_slots t) i (mk_slot (slot_gen s) (Some o));
        Ret (mk_table l (free_head t), Some r)
      else Ret (t, None)
  | None => Ret (t, None)
  end.

(** ** Rights and capabilities *)

Notation Rights := Z (only parsing).
Definition R_NONE : Rights := 0.
Definition R_READ : Rights := 1.
Definition R_WRITE : Rights := 2.
Definition R_EXEC : Rights := 4.
Definition R_GRANT : Rights := 8.
Definition R_ALL : Rights := 15.

Definition rights_contain (a b : Rights) : bool := Z.land a b =? b.
Definition rights_intersect (a b : Rights) : Rights := Z.land a b.

Record Capability := mk_cap {
  cap_handle : HandleRef;
  cap_rights : Rights;
  cap_depth : Z
}.
#[global] Instance cap_eq_dec : EqDecision Capability.
Proof. solve_decision. Defined.

Definition cap_null : Capability := mk_cap (mk_handle 0 0) R_NONE 0.
Definition cap_new (h : HandleRef) (r : Rights) : Capability := mk_cap h r 0.
Definition cap_is_null (c : Capability) : bool := cap_rights c =? R_NONE.

Definition cap_obj_type (t : ObjectTable) (c : Capability) : outcome (option KernelObjType.t) :=
  with_object t (cap_handle c) obj_type.

(** [u32] addition. *)
Definition add32 (x y : Z) : outcome Z := if x + y <=? u32_max then Ret (x + y) else Panic POverflow.

Definition cap_derive (c : Capability) (requested : Rights) : outcome (option Capability) :=
  if negb (rights_contain (cap_rights c) R_GRANT) then Ret None
  else
    let child_rights := rights_intersect (cap_rights c) requested in
    d ← add32 (cap_depth c) 1;
    Ret (Some (mk_cap (cap_handle c) child_rights d)).

(** ** The capability slots of a task *)

Definition CAPABILITY_MAX : nat := 50.

Notation CNode := (list Capability) (only parsing).

Definition cnode_new : CNode := replicate CAPABILITY_MAX cap_null.

Definition cnode_insert_at (n : CNode) (idx : Z) (c : Capability) : outcome CNode :=
  arr_set n (Z.to_nat idx) c.

Definition cnode_get (n : CNode) (idx : Z) : outcome (option Capability) :=
  if Z.of_nat CAPABILITY_MAX <=? idx then Ret None
  else
    c ← arr_get n (Z.to_nat idx);
    Ret (if cap_is_null c then None else Some c).

Definition cnode_find_free (n : CNode) : option Z :=
  (λ x, Z.of_nat x.1) <$> list_find (λ c, cap_is_null c = true) n.

Definition cnode_alloc (n : CNode) (c : Capability) : outcome (CNode * option Z) :=
  match cnode_find_free n with
  | None => Ret (n, None)
  | Some idx =>
      n ← arr_set n (Z.to_nat idx) c;
      Ret (n, Some idx)
  end.

Definition cnode_delete (n : CNode) (idx : Z) : outcome CNode :=
  arr_set n (Z.to_nat idx) cap_null.

(** ** Messages *)

Definition MAX_CAPS_PER_MSG : nat := 4.
Definition MSG_DATA_WORDS : nat := 4.

(** [MsgLabel]. *)
Definition L_INVALID : Z := 0.
Definition L_REPLY_OK : Z := 1.
Definition L_REPLY_ERR : Z := 2.
Definition L_NOTIFY : Z := 3.
Definition L_CALL : Z := 4.
Definition L_USER_BASE : Z := 0x1000.

Record FastMessage := mk_msg {
  msg_label : Z;
  msg_data : list Z;
  msg_caps : list Capability;
  n_caps : nat
}.

Definition msg_empty (label : Z) : FastMessage :=
  mk_msg label (replicate MSG_DATA_WORDS 0) (replicate MAX_CAPS_PER_MSG cap_null) 0.
Definition msg_default : FastMessage := msg_empty L_INVALID.
Definition msg_with_data (label : Z) (data : list Z) : FastMessage :=
  mk_msg label data (replicate MAX_CAPS_PER_MSG cap_null) 0.

Definition msg_add_cap (m : FastMessage) (c : Capability) : outcome (FastMessage * bool) :=
  if (MAX_CAPS_PER_MSG <=? n_caps m)%nat then Ret (m, false)
  else
    l ← arr_set (msg_caps m) (n_caps m) c;
    Ret (mk_msg (msg_label m) (msg_data m) l (S (n_caps m)), true).

(** [&self.caps[..self.n_caps]]. *)
Definition caps_of (m : FastMessage) : outcome (list Capability) :=
  if (n_caps m <=? length (msg_caps m))%nat then Ret (take (n_caps m) (msg_caps m)) else Panic PBounds.

(** ** Notifications *)

Record Notification := mk_notif {
  nt_badges : Z;
  nt_waiter : option Z
}.

Definition notif_new : Notification := mk_notif 0 None.

Definition notif_signal (n : Notification) (badge : Z) : Notification * option Z :=
  (mk_notif (Z.lor (nt_badges n) badge) None, nt_waiter n).

Definition notif_wait (n : Notification) (thread : Z) : Notification * option Z :=
  if negb (nt_badges n =? 0) then (mk_notif 0 (nt_waiter n), Some (nt_badges n))
  else (mk_notif 0 (Some thread), None).

Definition notif_poll (n : Notification) : Z := nt_badges n.

Definition notif_clear (n : Notification) (mask : Z) : Notification :=
  mk_notif (Z.land (nt_badges n) (not64 mask)) (nt_waiter n).
