(* ===== verification/ObjectsSpec.v ===== *)
(** * Kernel objects and capabilities: properties

    Handles are never confused, capabilities never gain rights, capability
    slots behave as a partial map, and badges are not lost. *)
From S2P Require Import Prelude Objects.

(** ** The object table under any history of insertions and removals *)

(** [live] maps each handle handed out and not yet removed to its object;
    [dead] lists the handles that were removed. *)
Record table_inv (t : ObjectTable) (live : gmap HandleRef KernelObject) (dead : list HandleRef) : Prop := {
  ti_len : length (ot_slots t) = MAX_OBJECTS;
  ti_head : (free_head t ≤ MAX_OBJECTS)%nat;
  ti_full : ∀ i, (i < free_head t)%nat → ∃ g o, ot_slots t !! i = Some (mk_slot g (Some o));
  ti_gen : ∀ i s, ot_slots t !! i = Some s → 0 ≤ slot_gen s ≤ Z.of_nat (length dead);
  ti_live : ∀ h o, live !! h = Some o ↔
    0 ≤ h_index h ∧ ot_slots t !! Z.to_nat (h_index h) = Some (mk_slot (h_gen h) (Some o));
  ti_dead : ∀ h, h ∈ dead → 0 ≤ h_index h ∧
    ∃ s, ot_slots t !! Z.to_nat (h_index h) = Some s ∧ h_gen h < slot_gen s
}.

Lemma table_inv_new : table_inv table_new ∅ [].
Proof.
  unfold table_new. split; cbn [ot_slots free_head].
  - apply length_replicate.
  - lia.
  - lia.
  - intros i s [-> _]%lookup_replicate. cbn. lia.
  - intros h o. rewrite lookup_empty. split; [done|]. intros [_ [[= _ ?] _]%lookup_replicate].
  - by intros h ?%elem_of_nil.
Qed.

(** The search of [insert]: every slot before the one found is occupied. *)
Lemma obj_insert_spec t obj :
  length (ot_slots t) = MAX_OBJECTS → (free_head t ≤ MAX_OBJECTS)%nat →
  wp (obj_insert t obj) (λ '(t', r),
    match r with
    | Ok h => ∃ i g, (free_head t ≤ i < MAX_OBJECTS)%nat ∧ h = mk_handle (Z.of_nat i) g ∧
        ot_slots t !! i = Some (mk_slot g None) ∧
        t' = mk_table (<[i:=mk_slot g (Some obj)]> (ot_slots t)) (i + 1) ∧
        ∀ j, (free_head t ≤ j < i)%nat → ∃ g o, ot_slots t !! j = Some (mk_slot g (Some o))
    | Err _ => t' = t ∧
        ∀ j, (free_head t ≤ j < MAX_OBJECTS)%nat → ∃ g o, ot_slots t !! j = Some (mk_slot g (Some o))
    end).
Proof.
  intros Hlen Hh. unfold obj_insert. apply wp_bind.
  set (Q := λ x : ObjectTable * result unit HandleRef, _).
  apply (wp_for_each_ret _ _ _ (λ done t', t' = t ∧ ∀ j, j ∈ done →
    ∃ g o, ot_slots t !! j = Some (mk_slot g (Some o)))).
  - split; [done|]. by intros j ?%elem_of_nil.
  - intros done i rest t' Hseq [-> Hdone].
    assert (done = seq (free_head t) (length done) ∧ i = (free_head t + length done)%nat ∧
      (i < MAX_OBJECTS)%nat) as (Hd & Hi & Hlt).
    { pose proof (f_equal length Hseq) as Hl. rewrite length_seq, length_app in Hl. simpl in Hl.
      assert (MAX_OBJECTS - free_head t = length done + S (length rest))%nat as E by lia.
      rewrite E, seq_app in Hseq. apply app_inj_1 in Hseq as [Hd Hs]; [|by rewrite length_seq].
      simpl in Hs. injection Hs as Hs _. split; [done|]. lia. }
    destruct (lookup_lt_is_Some_2 (ot_slots t) i) as [[g o] Hs]; [lia|].
    unfold insert_step. apply wp_bind. eapply wp_arr_get; [done|]. simpl. destruct o as [o|].
    + apply wp_ret. split; [done|]. intros j [Hj|Hj%list_elem_of_singleton]%elem_of_app; [by apply Hdone|].
      subst j. eauto.
    + apply wp_bind, wp_arr_set; [lia|]. apply wp_ret. apply wp_ret. exists i, g.
      split; [lia|]. split.
      { f_equal. apply Z.mod_small. unfold MAX_OBJECTS in *. lia. }
      do 2 (split; [done|]). intros j Hj. apply Hdone. rewrite Hd. apply elem_of_seq. lia.
  - intros t' [-> Hall]. apply wp_ret. split; [done|]. intros j Hj. apply Hall, elem_of_seq. lia.
Qed.

(** Occupying slot [i]. *)
Lemma table_inv_insert t live dead obj i g :
  table_inv t live dead → (free_head t ≤ i < MAX_OBJECTS)%nat →
  ot_slots t !! i = Some (mk_slot g None) →
  (∀ j, (free_head t ≤ j < i)%nat → ∃ g o, ot_slots t !! j = Some (mk_slot g (Some o))) →
  let h := mk_handle (Z.of_nat i) g in
  live !! h = None ∧ h ∉ dead ∧
  table_inv (mk_table (<[i:=mk_slot g (Some obj)]> (ot_slots t)) (i + 1)) (<[h:=obj]> live) dead.
Proof.
  intros [Hlen Hh Hf Hg Hl Hd] Hi Hs Hbelow h.
  assert (∀ j, j ≠ i → <[i:=mk_slot g (Some obj)]> (ot_slots t) !! j = ot_slots t !! j) as Hne.
  { intros j Hj. by apply list_lookup_insert_ne. }
  assert (<[i:=mk_slot g (Some obj)]> (ot_slots t) !! i = Some (mk_slot g (Some obj))) as Heq.
  { apply list_lookup_insert_eq. lia. }
  split; [|split; [|split]]; simpl.
  - destruct (live !! h) as [o|] eqn:E; [|done]. apply Hl in E as [_ E]. simpl in E.
    rewrite Nat2Z.id in E. congruence.
  - intros (_ & s & Hs' & Hlt)%Hd. simpl in *. rewrite Nat2Z.id in Hs'.
    rewrite Hs in Hs'. injection Hs' as <-. simpl in Hlt. lia.
  - by rewrite length_insert.
  - lia.
  - intros j Hj. destruct (decide (j = i)) as [->|]; [eauto|]. rewrite Hne by done.
    destruct (decide (j < free_head t)%nat); [by apply Hf|apply Hbelow; lia].
  - intros j s. destruct (decide (j = i)) as [->|]; [|rewrite Hne by done; apply Hg].
    rewrite Heq. intros [= <-]. simpl. by apply (Hg i (mk_slot g None)).
  - intros h' o. destruct (decide (h' = h)) as [->|Hh'].
    + rewrite lookup_insert_eq. simpl. rewrite Nat2Z.id, Heq. split; [intros [= ->]; split; [lia|done]|].
      intros [_ [= ->]]. done.
    + rewrite lookup_insert_ne by done. rewrite Hl. destruct h' as [hi hg]; simpl.
      destruct (decide (0 ≤ hi ∧ Z.to_nat hi = i)) as [[Hhi Ei]|Hn].
      * rewrite Ei, Heq, Hs. split; [intros [_ ?]; done|]. intros [_ [= <- <-]]. destruct Hh'.
        unfold h. f_equal. lia.
      * split; intros [? E]; (split; [done|]); [rewrite Hne by naive_solver|rewrite Hne in E by naive_solver]; done.
  - intros h' Hh'. destruct (Hd h' Hh') as (Hi0 & s & Hs' & Hlt). split; [done|].
    destruct (decide (Z.to_nat (h_index h') = i)) as [E|]; [|rewrite Hne by done; eauto].
    rewrite E in Hs' |- *. rewrite Heq. rewrite Hs in Hs'. injection Hs' as <-. eauto.
Qed.

(** Freeing the slot of a live handle; the generation does not wrap. *)
Lemma table_inv_remove t live dead h o :
  table_inv t live dead → live !! h = Some o → Z.of_nat (length dead) < u32_max →
  let i := Z.to_nat (h_index h) in
  table_inv (mk_table (<[i:=mk_slot (wrap32 (h_gen h + 1)) None]> (ot_slots t))
                      (if (i <=? free_head t)%nat then i else free_head t))
            (delete h live) (h :: dead).
Proof.
  intros [Hlen Hh Hf Hg Hl Hd] Hlive Hmax i. pose proof (proj1 (Hl h o) Hlive) as [Hi0 Hs].
  fold i in Hs. pose proof (lookup_lt_Some _ _ _ Hs) as Hi.
  pose proof (Hg _ _ Hs) as Hgen. simpl in Hgen.
  assert (wrap32 (h_gen h + 1) = h_gen h + 1) as Ew.
  { unfold wrap32, u32_max in *. apply Z.mod_small. lia. }
  rewrite Ew. set (l := <[i:=_]> (ot_slots t)).
  assert (∀ j, j ≠ i → l !! j = ot_slots t !! j) as Hne.
  { intros j Hj. by apply list_lookup_insert_ne. }
  assert (l !! i = Some (mk_slot (h_gen h + 1) None)) as Heq by by apply list_lookup_insert_eq.
  split; simpl.
  - unfold l. by rewrite length_insert.
  - case_match; lia.
  - intros j Hj. assert (j ≠ i ∧ (j < free_head t)%nat) as [? ?].
    { destruct (Nat.leb_spec i (free_head t)); lia. }
    rewrite Hne by done. by apply Hf.
  - intros j s. destruct (decide (j = i)) as [->|Hj].
    + rewrite Heq. intros [= <-]. simpl. lia.
    + rewrite Hne by done. intros Hj'%Hg. lia.
  - intros h' o'. rewrite lookup_delete_Some, Hl. destruct (decide (Z.to_nat (h_index h') = i)) as [E|E].
    + rewrite E, Heq, Hs. split; [|intros [_ ?]; done]. intros (Hn & ? & [= Eg _]). destruct Hn.
      destruct h as [hi hg], h' as [hi' hg']. simpl in *. f_equal; [unfold i in *; lia|done].
    + rewrite Hne by done. split; [naive_solver|]. intros [? ?]. split; [|done]. intros <-. done.
  - intros h' [->|Hh']%elem_of_cons.
    + split; [done|]. exists (mk_slot (h_gen h + 1) None). split; [done|]. simpl. lia.
    + destruct (Hd h' Hh') as (? & s & Hs' & Hlt). split; [done|].
      destruct (decide (Z.to_nat (h_index h') = i)) as [E|]; [|rewrite Hne by done; eauto].
      rewrite E in Hs' |- *. rewrite Hs in Hs'. injection Hs' as <-. rewrite Heq. eexists. split; [done|].
      simpl in *. lia.
Qed.

(** Changing an object in place. *)
Lemma table_inv_update t live dead h o o' :
  table_inv t live dead → live !! h = Some o →
  table_inv (mk_table (<[Z.to_nat (h_index h):=mk_slot (h_gen h) (Some o')]> (ot_slots t)) (free_head t))
            (<[h:=o']> live) dead.
Proof.
  intros [Hlen Hh Hf Hg Hl Hd] Hlive. pose proof (proj1 (Hl h o) Hlive) as [Hi0 Hs].
  set (i := Z.to_nat (h_index h)) in *. pose proof (lookup_lt_Some _ _ _ Hs) as Hi.
  set (l := <[i:=_]> (ot_slots t)).
  assert (∀ j, j ≠ i → l !! j = ot_slots t !! j) as Hne.
  { intros j Hj. by apply list_lookup_insert_ne. }
  assert (l !! i = Some (mk_slot (h_gen h) (Some o'))) as Heq by by apply list_lookup_insert_eq.
  split; simpl.
  - unfold l. by rewrite length_insert.
  - done.
  - intros j Hj. destruct (decide (j = i)) as [->|]; [eauto|]. rewrite Hne by done. by apply Hf.
  - intros j s. destruct (decide (j = i)) as [->|Hj]; [|rewrite Hne by done; apply Hg].
    rewrite Heq. intros [= <-]. simpl. by apply (Hg _ _ Hs).
  - intros h' o1. destruct (decide (h' = h)) as [->|Hh'].
    + rewrite lookup_insert_eq. fold i. rewrite Heq. naive_solver.
    + rewrite lookup_insert_ne by done. rewrite Hl.
      destruct (decide (Z.to_nat (h_index h') = i)) as [E|E]; [|by rewrite Hne].
      rewrite E, Heq, Hs. split; intros [? [= Eg Eo]]; destruct Hh'; destruct h, h'; simpl in *;
        (f_equal; [unfold i in *; lia|done]).
  - intros h' Hh'. destruct (Hd h' Hh') as (? & s & Hs' & Hlt). split; [done|].
    destruct (decide (Z.to_nat (h_index h') = i)) as [E|]; [|rewrite Hne by done; eauto].
    rewrite E in Hs' |- *. rewrite Hs in Hs'. injection Hs' as <-. rewrite Heq. eauto.
Qed.

Lemma table_inv_get t live dead h :
  table_inv t live dead → 0 ≤ h_index h < Z.of_nat MAX_OBJECTS → obj_get t h = Ret (live !! h).
Proof.
  intros [Hlen _ _ _ Hl _] Hh. unfold obj_get, arr_get.
  destruct (lookup_lt_is_Some_2 (ot_slots t) (Z.to_nat (h_index h))) as [[g o] Hs]; [lia|].
  rewrite Hs. simpl. destruct (live !! h) as [o'|] eqn:E.
  - apply Hl in E as [_ E]. rewrite Hs in E. injection E as -> ->. by rewrite Z.eqb_refl.
  - destruct (Z.eqb_spec g (h_gen h)) as [->|]; [|done]. f_equal. destruct o as [o|]; [|done].
    rewrite (proj2 (Hl h o)) in E; [done|]. split; [lia|done].
Qed.

Lemma obj_remove_spec t live dead h :
  table_inv t live dead → 0 ≤ h_index h < Z.of_nat MAX_OBJECTS → Z.of_nat (length dead) < u32_max →
  wp (obj_remove t h) (λ '(t', r), r = live !! h ∧
    table_inv t' (delete h live) (match r with Some _ => h :: dead | None => dead end)).
Proof.
  intros Hinv Hh Hmax. unfold obj_remove.
  destruct (lookup_lt_is_Some_2 (ot_slots t) (Z.to_nat (h_index h))) as [[g o] Hs].
  { rewrite (ti_len _ _ _ Hinv). lia. }
  apply wp_bind. eapply wp_arr_get; [done|]. simpl.
  destruct o as [o|]; [destruct (Z.eqb_spec g (h_gen h)) as [->|Hg]|].
  - assert (live !! h = Some o) as Hlive by (apply (ti_live _ _ _ Hinv); split; [lia|done]).
    apply wp_bind, wp_arr_set; [by eapply lookup_lt_Some|]. apply wp_ret. split; [done|].
    by apply (table_inv_remove t live dead h o).
  - assert (live !! h = None) as Hn.
    { destruct (live !! h) as [o'|] eqn:E; [|done]. apply (ti_live _ _ _ Hinv) in E as [_ E]. congruence. }
    apply wp_ret. rewrite Hn, delete_id by done. done.
  - assert (live !! h = None) as Hn.
    { destruct (live !! h) as [o'|] eqn:E; [|done]. apply (ti_live _ _ _ Hinv) in E as [_ E]. congruence. }
    apply wp_ret. rewrite Hn, delete_id by done. done.
Qed.

Lemma with_object_mut_spec {R} t live dead h (f : KernelObject → R * KernelObject) :
  table_inv t live dead → 0 ≤ h_index h < Z.of_nat MAX_OBJECTS →
  wp (with_object_mut t h f) (λ '(t', r), r = fst ∘ f <$> live !! h ∧
    table_inv t' (alter (λ o, (f o).2) h live) dead).
Proof.
  intros Hinv Hh. unfold with_object_mut.
  pose proof (table_inv_get t live dead h Hinv Hh) as Hget. unfold obj_get in Hget.
  destruct (lookup_lt_is_Some_2 (ot_slots t) (Z.to_nat (h_index h))) as [[g o] Hs].
  { rewrite (ti_len _ _ _ Hinv). lia. }
  unfold arr_get in *. rewrite Hs in *. simpl in *.
  destruct (Z.eqb_spec g (h_gen h)) as [->|Hg]; injection Hget as Hget; [|].
  - rewrite <-Hget. destruct o as [o|]; simpl.
    + destruct (f o) as [r o'] eqn:Ef. apply wp_bind, wp_arr_set; [by eapply lookup_lt_Some|]. apply wp_ret.
      simpl. split; [by rewrite ?Ef|].
      replace (alter _ h live) with (<[h:=o']> live); [by eapply table_inv_update|].
      apply map_eq. intros h'. destruct (decide (h' = h)) as [->|].
      * rewrite lookup_insert_eq, lookup_alter_eq, <-Hget. simpl. by rewrite ?Ef.
      * by rewrite lookup_insert_ne, lookup_alter_ne.
    + apply wp_ret. split; [done|]. rewrite alter_id; [done|]. intros x Hx. congruence.
  - assert (live = alter (λ o, (f o).2) h live) as Ea.
    { rewrite alter_id; [done|]. intros x Hx. congruence. }
    rewrite <-Hget. destruct o; apply wp_ret; (split; [done|]); by rewrite <-Ea.
Qed.

(** *** Histories *)

Notation history := (ObjectTable * gmap HandleRef KernelObject * list HandleRef)%type.

(** One operation on the table; the ghost state follows the results returned.
    Handles come from the table, so their index is in range. *)
Inductive table_step : history → history → Prop :=
  | step_insert t live dead o t' h :
      obj_insert t o = Ret (t', Ok h) → table_step (t, live, dead) (t', <[h:=o]> live, dead)
  | step_full t live dead o t' :
      obj_insert t o = Ret (t', Err ()) → table_step (t, live, dead) (t', live, dead)
  | step_remove t live dead h t' o :
      0 ≤ h_index h < Z.of_nat MAX_OBJECTS → obj_remove t h = Ret (t', Some o) →
      table_step (t, live, dead) (t', delete h live, h :: dead)
  | step_stale t live dead h t' :
      0 ≤ h_index h < Z.of_nat MAX_OBJECTS → obj_remove t h = Ret (t', None) →
      table_step (t, live, dead) (t', live, dead)
  | step_update t live dead h (f : KernelObject → bool * KernelObject) t' r :
      0 ≤ h_index h < Z.of_nat MAX_OBJECTS → with_object_mut t h f = Ret (t', r) →
      table_step (t, live, dead) (t', alter (λ o, (f o).2) h live, dead).

Lemma table_step_inv t live dead t' live' dead' :
  table_step (t, live, dead) (t', live', dead') → Z.of_nat (length dead') ≤ u32_max →
  table_inv t live dead → table_inv t' live' dead'.
Proof.
  intros Hstep. inversion Hstep; subst; intros Hmax Hinv.
  - pose proof (obj_insert_spec t o (ti_len _ _ _ Hinv) (ti_head _ _ _ Hinv)) as Hw.
    match goal with E : obj_insert _ _ = _ |- _ => rewrite E in Hw end.
    destruct Hw as (i & g & Hi & -> & Hs & -> & Hb).
    by apply (table_inv_insert t live dead' o i g).
  - pose proof (obj_insert_spec t o (ti_len _ _ _ Hinv) (ti_head _ _ _ Hinv)) as Hw.
    match goal with E : obj_insert _ _ = _ |- _ => rewrite E in Hw end. by destruct Hw as [-> _].
  - pose proof (obj_remove_spec t live dead h Hinv) as Hw.
    match goal with E : obj_remove _ _ = _ |- _ => rewrite E in Hw end.
    simpl in Hmax. destruct Hw as [_ ?]; [done|lia|done].
  - pose proof (obj_remove_spec t live' dead' h Hinv) as Hw.
    match goal with E : obj_remove _ _ = _ |- _ => rewrite E in Hw end.
    destruct (decide (Z.of_nat (length dead') = u32_max)) as [Em|Hn].
    + match goal with E : obj_remove _ _ = _ |- _ => revert E end. unfold obj_remove, arr_get, arr_set.
      destruct (ot_slots t !! _) as [[g [o|]]|]; simpl; [case_match|..]; simpl; intros; by simplify_eq.
    + destruct Hw as [Hn' Hi]; [done|lia|]. by rewrite delete_id in Hi.
  - pose proof (with_object_mut_spec t live dead' h f Hinv ltac:(done)) as Hw.
    match goal with E : with_object_mut _ _ _ = _ |- _ => rewrite E in Hw end. by destruct Hw.
Qed.

Lemma table_step_dead x y : table_step x y → (length x.2 ≤ length y.2)%nat.
Proof. intros []; simpl; lia. Qed.

Lemma table_reachable t live dead :
  rtc table_step (table_new, ∅, []) (t, live, dead) → Z.of_nat (length dead) ≤ u32_max →
  table_inv t live dead.
Proof.
  intros Hsteps.
  refine (rtc_ind_r (λ y, Z.of_nat (length y.2) ≤ u32_max → table_inv y.1.1 y.1.2 y.2)
            (table_new, ∅, []) (λ _, table_inv_new) _ (t, live, dead) Hsteps).
  intros [[t1 live1] dead1] [[t2 live2] dead2] _ Hstep IH Hmax.
  pose proof (table_step_dead _ _ Hstep) as Hd. simpl in *.
  eapply table_step_inv; [done|done|]. apply IH. lia.
Qed.

(** C11: handles are never confused.  After any history of insertions, removals
    and updates (with fewer than [2^32] removals), a handle that was issued and
    not removed yields exactly its object, a removed handle yields nothing even
    when its slot was reused, a new handle differs from every handle ever
    issued, and insertion is refused only when all 4096 slots are occupied. *)
Theorem handles_never_confused t live dead :
  rtc table_step (table_new, ∅, []) (t, live, dead) → Z.of_nat (length dead) ≤ u32_max →
  (∀ h o, live !! h = Some o → obj_get t h = Ret (Some o)) ∧
  (∀ h, h ∈ dead → obj_get t h = Ret None) ∧
  (∀ obj, wp (obj_insert t obj) (λ '(t', r),
     match r with
     | Ok h => live !! h = None ∧ h ∉ dead ∧ obj_get t' h = Ret (Some obj)
     | Err _ => t' = t ∧ ∀ i, 0 ≤ i < Z.of_nat MAX_OBJECTS → ∃ g, is_Some (live !! mk_handle i g)
     end)).
Proof.
  intros Hsteps Hmax. pose proof (table_reachable _ _ _ Hsteps Hmax) as Hinv.
  pose proof Hinv as [Hlen Hh Hf _ Hl Hd].
  assert (∀ i s, 0 ≤ i → ot_slots t !! Z.to_nat i = Some s → i < Z.of_nat MAX_OBJECTS) as Hlt.
  { intros i s Hi Hs%lookup_lt_Some. lia. }
  split; [|split].
  - intros h o Ho. rewrite (table_inv_get t live dead); [by rewrite Ho|done|].
    apply Hl in Ho as [? ?]. split; [done|]. by eapply Hlt.
  - intros h Hh'. destruct (Hd h Hh') as (? & s & Hs & Hg).
    rewrite (table_inv_get t live dead); [|done|split; [done|by eapply Hlt]].
    destruct (live !! h) as [o|] eqn:Ho; [|done]. apply Hl in Ho as [_ Ho].
    rewrite Hs in Ho. injection Ho as ->. simpl in Hg. lia.
  - intros obj. eapply wp_mono; [by apply obj_insert_spec|]. intros [t' [h|[]]].
    + intros (i & g & Hi & -> & Hs & -> & Hb).
      destruct (table_inv_insert t live dead obj i g Hinv Hi Hs Hb) as (? & ? & Hinv').
      do 2 (split; [done|]). rewrite (table_inv_get _ _ _ _ Hinv') by (simpl; lia). by rewrite lookup_insert_eq.
    + intros [-> Hb]. split; [done|]. intros i Hi.
      assert (∃ g o, ot_slots t !! Z.to_nat i = Some (mk_slot g (Some o))) as (g & o & Hs).
      { destruct (decide (Z.to_nat i < free_head t)%nat); [by apply Hf|apply Hb; lia]. }
      exists g, o. apply Hl. simpl. split; [lia|done].
Qed.

(** A table in which the first slot was reused. *)
Definition sample_object (n : Z) : KernelObject :=
  object_new KernelObjType.Endpoint (ObjData.Endpoint n).

Lemma handles_never_confused_witness :
  ∃ t live, rtc table_step (table_new, ∅, []) (t, live, [mk_handle 0 0]) ∧
    obj_get t (mk_handle 0 0) = Ret None ∧ obj_get t (mk_handle 0 1) = Ret (Some (sample_object 8)).
Proof.
  destruct (obj_insert table_new (sample_object 7)) as [[t1 r1]|?|] eqn:E1; [|by vm_compute in E1..].
  pose proof E1 as E1'. vm_compute in E1'. injection E1' as Et1 Er1. clear Et1.
  destruct (obj_remove t1 (mk_handle 0 0)) as [[t2 r2]|?|] eqn:E2.
  2-3: exfalso; revert E2; pose proof E1 as E1'; vm_compute in E1'; injection E1' as <- _; by vm_compute.
  assert (r2 = Some (sample_object 7)) as ->.
  { pose proof E1 as E1'. vm_compute in E1'. injection E1' as <- _. vm_compute in E2. by injection E2. }
  destruct (obj_insert t2 (sample_object 8)) as [[t3 r3]|?|] eqn:E3.
  2-3: exfalso; revert E3; pose proof E1 as E1'; vm_compute in E1'; injection E1' as <- _;
    vm_compute in E2; injection E2 as <-; by vm_compute.
  assert (r3 = Ok (mk_handle 0 1)) as ->.
  { pose proof E1 as E1'. vm_compute in E1'. injection E1' as <- _. vm_compute in E2. injection E2 as <-.
    vm_compute in E3. by injection E3. }
  subst r1. eexists t3, _. assert (rtc table_step (table_new, ∅, []) (t3,
    <[mk_handle 0 1:=sample_object 8]> (delete (mk_handle 0 0) (<[mk_handle 0 0:=sample_object 7]> ∅)),
    [mk_handle 0 0])) as Hsteps.
  { eapply rtc_l; [by eapply step_insert|]. eapply rtc_l; [eapply (step_remove _ _ _ (mk_handle 0 0)); [split; by vm_compute|exact E2]|].
    eapply rtc_l; [by eapply step_insert|]. apply rtc_refl. }
  split; [exact Hsteps|].
  destruct (handles_never_confused _ _ _ Hsteps ltac:(simpl; unfold u32_max; lia)) as (Hl & Hd & _).
  split; [apply Hd; by left|]. apply Hl. by rewrite lookup_insert_eq.
Defined.

(** ** Capabilities *)

(** Deriving repeatedly, with the rights requested at each step. *)
Fixpoint derive_chain (c : Capability) (requests : list Z) : outcome (option Capability) :=
  match requests with
  | [] => Ret (Some c)
  | r :: requests =>
      o ← cap_derive c r;
      match o with
      | None => Ret None
      | Some c => derive_chain c requests
      end
  end.

Lemma land_contained a b : rights_contain a (Z.land a b) = true ∧ rights_contain b (Z.land a b) = true.
Proof.
  unfold rights_contain. split; apply Z.eqb_eq.
  - by rewrite Z.land_assoc, Z.land_diag.
  - by rewrite (Z.land_comm a b), Z.land_assoc, Z.land_diag.
Qed.

Lemma rights_contain_trans a b c :
  rights_contain a b = true → rights_contain b c = true → rights_contain a c = true.
Proof.
  unfold rights_contain. rewrite !Z.eqb_eq. intros Hab Hbc.
  by rewrite <-Hbc, Z.land_assoc, Hab.
Qed.

Lemma rights_contain_refl a : rights_contain a a = true.
Proof. unfold rights_contain. by rewrite Z.land_diag, Z.eqb_refl. Qed.

(** Deriving capabilities never amplifies rights.  However many steps it
    takes, a derived capability names the same object, has at most the rights
    of the original and at most those requested at each step, its depth counts
    the steps, and the original held the grant right. *)
Theorem derive_never_amplifies c requests c' :
  derive_chain c requests = Ret (Some c') →
  cap_handle c' = cap_handle c ∧
  rights_contain (cap_rights c) (cap_rights c') = true ∧
  (∀ r, r ∈ requests → rights_contain r (cap_rights c') = true) ∧
  cap_depth c' = cap_depth c + Z.of_nat (length requests) ∧
  (requests ≠ [] → rights_contain (cap_rights c) R_GRANT = true).
Proof.
  revert c. induction requests as [|r requests IH]; intros c; simpl.
  { intros [= <-]. split; [done|]. split; [apply rights_contain_refl|].
    split; [by intros r ?%elem_of_nil|]. split; [lia|done]. }
  unfold cap_derive. destruct (rights_contain (cap_rights c) R_GRANT) eqn:Hg; simpl; [|done].
  unfold add32. destruct (Z.leb_spec (cap_depth c + 1) u32_max); simpl; [|done].
  intros (Eh & Hr & Hall & Ed & _)%IH. simpl in *.
  destruct (land_contained (cap_rights c) r) as [H1 H2]. split; [done|].
  split; [by eapply rights_contain_trans|]. split; [|split; [lia|done]].
  intros r' [->|Hr']%elem_of_cons; [by eapply rights_contain_trans|by apply Hall].
Qed.

Lemma derive_never_amplifies_witness :
  derive_chain (cap_new (mk_handle 3 1) R_ALL) [11; 7] = Ret (Some (mk_cap (mk_handle 3 1) 3 2)) ∧
  rights_contain R_ALL 3 = true.
Proof.
  assert (derive_chain (cap_new (mk_handle 3 1) R_ALL) [11; 7] = Ret (Some (mk_cap (mk_handle 3 1) 3 2))) as E
    by (vm_compute; reflexivity).
  split; [exact E|]. destruct (derive_never_amplifies _ _ _ E) as (_ & H & _). exact H.
Defined.

(** ** Capability slots *)

Lemma cnode_get_lookup n i :
  length n = CAPABILITY_MAX → 0 ≤ i →
  cnode_get n i = Ret (c ← n !! Z.to_nat i; if cap_is_null c then None else Some c).
Proof.
  intros Hlen Hi. unfold cnode_get. destruct (Z.leb_spec (Z.of_nat CAPABILITY_MAX) i).
  - rewrite lookup_ge_None_2 by lia. done.
  - unfold arr_get. destruct (lookup_lt_is_Some_2 n (Z.to_nat i)) as [c ->]; [lia|]. done.
Qed.

(** The slots of a task form a partial map.  Looking up never panics,
    [alloc] stores the capability at the lowest free index and leaves all other
    slots alone, and it is refused only when every slot is in use; [delete]
    empties exactly the given slot. *)
Theorem cnode_partial_map n c :
  length n = CAPABILITY_MAX → cap_is_null c = false →
  wp (cnode_alloc n c) (λ '(n', r), length n' = CAPABILITY_MAX ∧
    match r with
    | Some i => 0 ≤ i < Z.of_nat CAPABILITY_MAX ∧ cnode_get n i = Ret None ∧
        (∀ j, 0 ≤ j < i → ∃ c', cnode_get n j = Ret (Some c')) ∧
        ∀ j, 0 ≤ j → cnode_get n' j = if decide (j = i) then Ret (Some c) else cnode_get n j
    | None => n' = n ∧ ∀ j, 0 ≤ j < Z.of_nat CAPABILITY_MAX → ∃ c', cnode_get n j = Ret (Some c')
    end) ∧
  ∀ i, 0 ≤ i < Z.of_nat CAPABILITY_MAX →
    wp (cnode_delete n i) (λ n', length n' = CAPABILITY_MAX ∧
      ∀ j, 0 ≤ j → cnode_get n' j = if decide (j = i) then Ret None else cnode_get n j).
Proof.
  intros Hlen Hc. split.
  - unfold cnode_alloc, cnode_find_free. destruct (list_find _ n) as [[i c0]|] eqn:Hf; simpl.
    + apply list_find_Some in Hf as (Hi & Hnull & Hbefore). pose proof (lookup_lt_Some _ _ _ Hi).
      rewrite Nat2Z.id. apply wp_bind, wp_arr_set; [done|]. apply wp_ret.
      split; [by rewrite length_insert|]. split; [lia|]. split; [|split].
      * rewrite cnode_get_lookup, Nat2Z.id, Hi by (done || lia). simpl. by rewrite Hnull.
      * intros j Hj. destruct (lookup_lt_is_Some_2 n (Z.to_nat j)) as [cj Hcj]; [lia|]. exists cj.
        rewrite cnode_get_lookup, Hcj by (done || lia). simpl.
        specialize (Hbefore _ _ Hcj ltac:(lia)). by destruct (cap_is_null cj).
      * intros j Hj. rewrite !cnode_get_lookup by (rewrite ?length_insert; done). case_decide as Ej.
        -- subst j. rewrite Nat2Z.id, list_lookup_insert_eq by done. simpl. by rewrite Hc.
        -- rewrite list_lookup_insert_ne by lia. done.
    + apply wp_ret. split; [done|]. split; [done|]. intros j Hj. apply list_find_None in Hf.
      destruct (lookup_lt_is_Some_2 n (Z.to_nat j)) as [cj Hcj]; [lia|]. exists cj.
      rewrite cnode_get_lookup, Hcj by (done || lia). simpl.
      rewrite Forall_lookup in Hf. specialize (Hf _ _ Hcj). by destruct (cap_is_null cj).
  - intros i Hi. unfold cnode_delete. apply wp_arr_set; [lia|]. split; [by rewrite length_insert|].
    intros j Hj. rewrite !cnode_get_lookup by (rewrite ?length_insert; done). case_decide as Ej.
    + subst j. rewrite list_lookup_insert_eq by lia. done.
    + rewrite list_lookup_insert_ne by lia. done.
Qed.

Lemma cnode_partial_map_witness :
  length cnode_new = CAPABILITY_MAX ∧
  wp (cnode_alloc cnode_new (cap_new (mk_handle 1 0) R_ALL)) (λ '(n', r), length n' = CAPABILITY_MAX).
Proof.
  split; [reflexivity|].
  eapply wp_mono; [apply (cnode_partial_map cnode_new (cap_new (mk_handle 1 0) R_ALL)); reflexivity|].
  intros [n' r] [H _]. exact H.
Defined.

(** ** Notifications *)

Inductive notif_op := NSignal (badge : Z) | NWait (thread : Z).

(** Running a sequence of operations; the badges returned by [wait]. *)
Fixpoint notif_run (n : Notification) (ops : list notif_op) : Notification * list Z :=
  match ops with
  | [] => (n, [])
  | NSignal b :: ops => notif_run (notif_signal n b).1 ops
  | NWait t :: ops =>
      let '(n, r) := notif_wait n t in
      let '(n, l) := notif_run n ops in
      (n, match r with Some b => b :: l | None => l end)
  end.

Definition signalled (ops : list notif_op) : list Z :=
  omap (λ o, match o with NSignal b => Some b | NWait _ => None end) ops.

Definition or_all (l : list Z) : Z := foldr Z.lor 0 l.

(** Badges are never lost or invented: after any sequence of signals and
    waits, the badges still pending together with those delivered are exactly
    the badges signalled; and a thread is left waiting only when no badge is
    pending. *)
Theorem notification_no_loss ops :
  let '(n, delivered) := notif_run notif_new ops in
  Z.lor (nt_badges n) (or_all delivered) = or_all (signalled ops) ∧
  (nt_waiter n ≠ None → nt_badges n = 0).
Proof.
  cut (∀ n0, (nt_waiter n0 ≠ None → nt_badges n0 = 0) →
    let '(n, delivered) := notif_run n0 ops in
    Z.lor (nt_badges n) (or_all delivered) = Z.lor (nt_badges n0) (or_all (signalled ops)) ∧
    (nt_waiter n ≠ None → nt_badges n = 0)).
  { intros H. specialize (H notif_new ltac:(done)). by destruct (notif_run _ _). }
  induction ops as [|[b|t] ops IH]; intros n0 Hw; simpl.
  - done.
  - specialize (IH (mk_notif (Z.lor (nt_badges n0) b) None) ltac:(done)).
    destruct (notif_run _ _) as [n l]. simpl in IH. destruct IH as [E ?]. split; [|done].
    rewrite E. by rewrite Z.lor_assoc.
  - unfold notif_wait. destruct (Z.eqb_spec (nt_badges n0) 0) as [E0|Hne]; simpl.
    + specialize (IH (mk_notif 0 (Some t)) ltac:(done)). destruct (notif_run _ _) as [n l].
      simpl in IH. destruct IH as [E ?]. split; [|done]. by rewrite E, E0.
    + specialize (IH (mk_notif 0 (nt_waiter n0)) ltac:(done)). destruct (notif_run _ _) as [n l].
      simpl in IH. destruct IH as [E ?]. split; [|done].
      change (or_all (nt_badges n0 :: l)) with (Z.lor (nt_badges n0) (or_all l)).
      rewrite Z.lor_assoc, (Z.lor_comm (nt_badges n)), <-Z.lor_assoc, E. done.
Qed.

(** A notification remembers one waiter only: when a second thread waits
    before a signal arrives, the first is forgotten and the signal wakes the
    second alone. *)
Theorem notification_second_waiter_wins t1 t2 badge :
  let n := (notif_wait (notif_wait notif_new t1).1 t2).1 in
  (notif_signal n badge).2 = Some t2 ∧ nt_waiter (notif_signal n badge).1 = None.
Proof. done. Qed.
