(* ===== verification/Endpoints.v ===== *)
(** * Endpoints and the IPC manager: operations

    Models kernel/src/arch/amd64/ipc/endpoint.rs and ipc/mod.rs: the ring
    buffer of waiting receivers, endpoints, the endpoint table and the manager
    that pairs senders with receivers.  The queue's spin lock and the manager's
    mutex make each operation atomic. *)
From S2P Require Import Prelude Objects.

(** ** The queue of waiting receivers *)

Definition WQ_CAP : nat := 16.

Record WaitQueue := mk_wq {
  wq_buf : list (option Z);
  wq_head : nat;
  wq_tail : nat;
  wq_count : nat
}.

Definition wq_new : WaitQueue := mk_wq (replicate WQ_CAP None) 0 0 0.

Definition wq_enqueue (q : WaitQueue) (id : Z) : outcome (WaitQueue * bool) :=
  if (wq_count q <? WQ_CAP)%nat then
    buf ← arr_set (wq_buf q) (wq_tail q) (Some id);
    Ret (mk_wq buf (wq_head q) ((wq_tail q + 1) mod WQ_CAP) (wq_count q + 1), true)
  else Ret (q, false).

Definition dequeue_step (q : WaitQueue) : outcome (WaitQueue + (WaitQueue * option Z)) :=
  if (wq_count q =? 0)%nat then Ret (inr (q, None))
  else
    id ← arr_get (wq_buf q) (wq_head q);
    buf ← arr_set (wq_buf q) (wq_head q) None;
    let q := mk_wq buf ((wq_head q + 1) mod WQ_CAP) (wq_tail q) (wq_count q - 1) in
    match id with
    | Some _ => Ret (inr (q, id))
    | None => Ret (inl q)
    end.

Definition wq_dequeue (q : WaitQueue) : outcome (WaitQueue * option Z) :=
  iter (S (wq_count q)) dequeue_step q.

Definition cancel_step (q : WaitQueue) (id : Z) (i : nat) : outcome (nat + WaitQueue) :=
  x ← arr_get (wq_buf q) i;
  if bool_decide (x = Some id) then
    buf ← arr_set (wq_buf q) i None;
    Ret (inr (mk_wq buf (wq_head q) (wq_tail q) (wq_count q)))
  else Ret (inl ((i + 1) mod WQ_CAP)%nat).

Definition wq_cancel (q : WaitQueue) (id : Z) : outcome (WaitQueue * bool) :=
  r ← for_each_ret (λ _, cancel_step q id) (seq 0 (wq_count q)) (wq_head q);
  match r with
  | inl _ => Ret (q, false)
  | inr q => Ret (q, true)
  end.

Definition wq_is_empty (q : WaitQueue) : bool := (wq_count q =? 0)%nat.

(** ** Endpoints *)

Module IpcError.
Inductive t :=
  | InvalidEndpoint
  | NoPermission
  | NotReady
  | Blocked
  | NoGrant
  | TooManyCaps
  | EndpointClosed
  | Timeout.
#[export] Instance eq_dec : EqDecision t.
Proof. solve_decision. Defined.
End IpcError.
Export (hints) IpcError.

Record Endpoint := mk_ep {
  ep_id : Z;
  recv_queue : WaitQueue;
  ep_closed : bool
}.

(** [EndpointId::alloc] on the global counter. *)
Definition ep_id_alloc (next : Z) : Z * Z := (next, wrap64 (next + 1)).

Definition endpoint_new_with_id (id : Z) : Endpoint := mk_ep id wq_new false.
Definition endpoint_new (next : Z) : Endpoint * Z :=
  let '(id, next) := ep_id_alloc next in (endpoint_new_with_id id, next).

Definition ep_close (e : Endpoint) : Endpoint := mk_ep (ep_id e) (recv_queue e) true.

Definition with_queue (e : Endpoint) (q : WaitQueue) : Endpoint := mk_ep (ep_id e) q (ep_closed e).

Definition try_send (e : Endpoint) (_msg : FastMessage)
    : outcome (Endpoint * result IpcError.t (option Z)) :=
  if ep_closed e then Ret (e, Err IpcError.EndpointClosed)
  else
    '(q, r) ← wq_dequeue (recv_queue e);
    Ret (with_queue e q, Ok r).

Definition try_recv (e : Endpoint) (receiver : Z) : outcome (Endpoint * result IpcError.t unit) :=
  if ep_closed e then Ret (e, Err IpcError.EndpointClosed)
  else
    '(q, ok) ← wq_enqueue (recv_queue e) receiver;
    Ret (with_queue e q, if ok : bool then Ok () else Err IpcError.NotReady).

Definition cancel_recv (e : Endpoint) (id : Z) : outcome (Endpoint * bool) :=
  '(q, r) ← wq_cancel (recv_queue e) id;
  Ret (with_queue e q, r).

Definition has_waiting_receiver (e : Endpoint) : bool := negb (wq_is_empty (recv_queue e)).

(** ** The endpoint table *)

Definition MAX_ENDPOINTS : nat := 256.
Definition MAX_NOTIFICATIONS : nat := 256.

Record EndpointTable := mk_eptable {
  endpoints : list (option Endpoint);
  notifications : list (option Notification)
}.

Definition eptable_new : EndpointTable :=
  mk_eptable (replicate MAX_ENDPOINTS None) (replicate MAX_NOTIFICATIONS None).

Definition set_endpoints (l : list (option Endpoint)) (t : EndpointTable) : EndpointTable :=
  mk_eptable l (notifications t).

(** The first empty slot receives the endpoint, whose id is the task's. *)
Definition create_endpoint (t : EndpointTable) (task_id : Z) : EndpointTable * option Z :=
  match list_find (λ s, s = None) (endpoints t) with
  | Some (i, _) =>
      let ep := endpoint_new_with_id task_id in
      (set_endpoints (<[i:=Some ep]> (endpoints t)) t, Some (ep_id ep))
  | None => (t, None)
  end.

Definition has_id (id : Z) (s : option Endpoint) : Prop :=
  match s with Some ep => ep_id ep = id | None => False end.
#[global] Instance has_id_dec id s : Decision (has_id id s).
Proof. destruct s; simpl; apply _. Defined.

(** [get_endpoint]: the position and value of the first endpoint with the id. *)
Definition get_endpoint (t : EndpointTable) (id : Z) : option (nat * Endpoint) :=
  match list_find (has_id id) (endpoints t) with
  | Some (i, Some ep) => Some (i, ep)
  | _ => None
  end.

(** Writing through the reference [get_endpoint] returned. *)
Definition put_endpoint (t : EndpointTable) (i : nat) (ep : Endpoint) : EndpointTable :=
  set_endpoints (<[i:=Some ep]> (endpoints t)) t.

Definition destroy_endpoint (t : EndpointTable) (id : Z) : EndpointTable :=
  match list_find (has_id id) (endpoints t) with
  | Some (i, _) => set_endpoints (<[i:=None]> (endpoints t)) t
  | None => t
  end.

(** ** The IPC manager *)

Inductive IpcResult :=
  | WakeReceiver (receiver : Z)
  | BlockCurrent
  | RNotReady
  | RDone
  | RError (e : IpcError.t).

Record IpcManager := mk_ipc {
  ipc_table : EndpointTable;
  pending_messages : gmap Z FastMessage
}.

Definition ipc_new : IpcManager := mk_ipc eptable_new ∅.

Definition ipc_create_endpoint (m : IpcManager) (task_id : Z) : IpcManager * option Z :=
  let '(t, r) := create_endpoint (ipc_table m) task_id in (mk_ipc t (pending_messages m), r).

Definition ipc_destroy_endpoint (m : IpcManager) (id : Z) : IpcManager :=
  mk_ipc (destroy_endpoint (ipc_table m) id) (pending_messages m).

Definition store_pending_message (m : IpcManager) (task : Z) (msg : FastMessage) : IpcManager :=
  mk_ipc (ipc_table m) (<[task:=msg]> (pending_messages m)).

Definition take_pending_message (m : IpcManager) (task : Z) : IpcManager * option FastMessage :=
  (mk_ipc (ipc_table m) (delete task (pending_messages m)), pending_messages m !! task).

Definition handle_send (m : IpcManager) (sender ep : Z) (msg : FastMessage)
    : outcome (IpcManager * IpcResult) :=
  match get_endpoint (ipc_table m) ep with
  | None => Ret (m, RError IpcError.InvalidEndpoint)
  | Some (i, e) =>
      '(e, r) ← try_send e msg;
      let m := mk_ipc (put_endpoint (ipc_table m) i e) (pending_messages m) in
      match r with
      | Ok (Some receiver) => Ret (store_pending_message m receiver msg, WakeReceiver receiver)
      | Ok None => Ret (m, RNotReady)
      | Err err => Ret (m, RError err)
      end
  end.

Definition handle_recv (m : IpcManager) (receiver ep : Z) : outcome (IpcManager * IpcResult) :=
  match get_endpoint (ipc_table m) ep with
  | None => Ret (m, RError IpcError.InvalidEndpoint)
  | Some (i, e) =>
      '(e, r) ← try_recv e receiver;
      let m := mk_ipc (put_endpoint (ipc_table m) i e) (pending_messages m) in
      match r with
      | Ok _ => Ret (m, BlockCurrent)
      | Err err => Ret (m, RError err)
      end
  end.

Definition handle_call (m : IpcManager) (caller ep : Z) (msg : FastMessage)
    : outcome (IpcManager * IpcResult) :=
  handle_send m caller ep msg.

Definition handle_reply (m : IpcManager) (caller : Z) (reply : FastMessage) : IpcManager * IpcResult :=
  (store_pending_message m caller reply, WakeReceiver caller).

Definition validate_cap (sender_caps : list Capability) (cap : Capability)
    : outcome (unit + result IpcError.t unit) :=
  if cap_is_null cap then Ret (inl ())
  else
    match list_find (λ c, cap_handle c = cap_handle cap) sender_caps with
    | None => Ret (inr (Err IpcError.NoPermission))
    | Some (_, owned) =>
        if negb (rights_contain (cap_rights owned) R_GRANT) then Ret (inr (Err IpcError.NoGrant))
        else if negb (rights_contain (cap_rights owned) (cap_rights cap))
        then Ret (inr (Err IpcError.NoPermission))
        else Ret (inl ())
    end.

Definition validate_caps (msg : FastMessage) (sender_caps : list Capability)
    : outcome (result IpcError.t unit) :=
  caps ← caps_of msg;
  r ← for_each_ret (λ cap _, validate_cap sender_caps cap) caps ();
  match r with
  | inl _ => Ret (Ok ())
  | inr e => Ret e
  end.
