(* ===== verification/EndpointsSpec.v ===== *)
(** * Endpoints and the IPC manager: properties

    The ring buffer implements a queue of tickets, receivers are served in the
    order in which they blocked, and no message is lost or duplicated. *)
From S2P Require Import Prelude Objects ObjectsSpec Endpoints.

#[local] Arguments Nat.modulo : simpl never.

(** ** The ring buffer as a list *)

(** The entry [k] places after the head. *)
Definition wq_at (q : WaitQueue) (k : nat) : option Z :=
  default None (wq_buf q !! ((wq_head q + k) mod WQ_CAP)%nat).

(** The tickets in the queue, oldest first; a cancelled ticket is [None]. *)
Definition tickets (q : WaitQueue) : list (option Z) := wq_at q <$> seq 0 (wq_count q).

Record wq_ok (q : WaitQueue) : Prop := {
  wo_len : length (wq_buf q) = WQ_CAP;
  wo_head : (wq_head q < WQ_CAP)%nat;
  wo_count : (wq_count q ≤ WQ_CAP)%nat;
  wo_tail : wq_tail q = ((wq_head q + wq_count q) mod WQ_CAP)%nat
}.

Lemma wq_new_ok : wq_ok wq_new.
Proof. split; vm_compute; try done; lia. Qed.

Lemma tickets_length q : length (tickets q) = wq_count q.
Proof. unfold tickets. by rewrite length_fmap, length_seq. Qed.

Lemma mod_lt x : (x mod WQ_CAP < WQ_CAP)%nat.
Proof. apply Nat.mod_upper_bound. done. Qed.

(** Distinct places of the window are distinct places of the buffer. *)
Lemma mod_window h a b :
  (a < WQ_CAP)%nat → (b < WQ_CAP)%nat → ((h + a) mod WQ_CAP = (h + b) mod WQ_CAP)%nat → a = b.
Proof.
  unfold WQ_CAP. intros Ha Hb E.
  pose proof (Nat.div_mod (h + a) 16 ltac:(done)). pose proof (Nat.div_mod (h + b) 16 ltac:(done)). lia.
Qed.

Lemma mod_succ h k : (((h + 1) mod WQ_CAP + k) mod WQ_CAP = (h + S k) mod WQ_CAP)%nat.
Proof. unfold WQ_CAP. rewrite Nat.Div0.add_mod_idemp_l. f_equal. lia. Qed.

Lemma tickets_cons q :
  (0 < wq_count q)%nat →
  tickets q = wq_at q 0 :: (wq_at q ∘ S <$> seq 0 (wq_count q - 1)).
Proof.
  intros Hc. unfold tickets. destruct (wq_count q) as [|c]; [lia|].
  simpl. f_equal. rewrite <-seq_shift, <-list_fmap_compose. by rewrite Nat.sub_0_r.
Qed.

(** Writing one ticket of the window. *)
Lemma wq_at_insert q k x j :
  wq_ok q → (k < WQ_CAP)%nat → (j < WQ_CAP)%nat →
  default None (<[((wq_head q + k) mod WQ_CAP)%nat:=x]> (wq_buf q) !! ((wq_head q + j) mod WQ_CAP)%nat) =
  if decide (j = k) then x else wq_at q j.
Proof.
  intros Hq Hk Hj. case_decide as E.
  - subst j. rewrite list_lookup_insert_eq; [done|]. rewrite (wo_len _ Hq). apply mod_lt.
  - rewrite list_lookup_insert_ne; [done|]. intros E'%mod_window; done || congruence.
Qed.

Lemma wq_enqueue_spec q id :
  wq_ok q → wp (wq_enqueue q id) (λ '(q', ok), wq_ok q' ∧
    if decide (length (tickets q) < WQ_CAP)%nat
    then ok = true ∧ tickets q' = tickets q ++ [Some id]
    else ok = false ∧ q' = q).
Proof.
  intros Hq. rewrite tickets_length. unfold wq_enqueue.
  destruct (Nat.ltb_spec (wq_count q) WQ_CAP) as [Hlt|Hge].
  2:{ apply wp_ret. rewrite decide_False by lia. done. }
  rewrite (wo_tail _ Hq). apply wp_bind, wp_arr_set; [rewrite (wo_len _ Hq); apply mod_lt|].
  apply wp_ret. rewrite decide_True by done. pose proof Hq as [Hlen Hh Hc Ht]. split; [|split; [done|]].
  - split; cbn [wq_buf wq_head wq_tail wq_count]; [by rewrite length_insert|done|lia|]. unfold WQ_CAP.
    rewrite Nat.Div0.add_mod_idemp_l. f_equal. lia.
  - unfold tickets. cbn [wq_buf wq_head wq_tail wq_count]. rewrite (Nat.add_1_r (wq_count q)), seq_S, fmap_app. simpl. f_equal.
    + apply list_fmap_ext. intros k j Hk%lookup_seq. unfold wq_at at 1. cbn [wq_buf wq_head].
      rewrite wq_at_insert by (done || lia). rewrite decide_False by lia. done.
    + f_equal. unfold wq_at. cbn [wq_buf wq_head]. rewrite wq_at_insert by (done || lia). by rewrite decide_True.
Qed.

(** Consuming the oldest ticket. *)
Lemma dequeue_step_spec q :
  wq_ok q → wp (dequeue_step q) (λ r,
    match r with
    | inl q' => wq_ok q' ∧ tickets q = None :: tickets q' ∧ (wq_count q' < wq_count q)%nat
    | inr (q', Some id) => wq_ok q' ∧ tickets q = Some id :: tickets q'
    | inr (q', None) => q' = q ∧ tickets q = []
    end).
Proof.
  intros Hq. pose proof Hq as [Hlen Hh Hc Ht]. unfold dequeue_step.
  destruct (Nat.eqb_spec (wq_count q) 0) as [E|Hne].
  { apply wp_ret. split; [done|]. apply nil_length_inv. by rewrite tickets_length. }
  destruct (lookup_lt_is_Some_2 (wq_buf q) (wq_head q)) as [x Hx]; [lia|].
  apply wp_bind. eapply wp_arr_get; [done|]. apply wp_bind, wp_arr_set; [lia|].
  set (q' := mk_wq _ _ _ _).
  assert (wq_ok q') as Hq'.
  { split; cbn [q' wq_buf wq_head wq_tail wq_count]; [by rewrite length_insert|apply mod_lt|lia|]. rewrite Ht.
    destruct (wq_count q) as [|c]; [done|]. replace (S c - 1)%nat with c by lia. by rewrite mod_succ. }
  assert (tickets q = x :: tickets q') as E.
  { rewrite tickets_cons by lia. f_equal.
    - unfold wq_at. rewrite Nat.add_0_r, Nat.mod_small by done. by rewrite Hx.
    - unfold tickets. cbn [q' wq_count]. apply list_fmap_ext. intros k j Hk%lookup_seq.
      unfold compose, wq_at at 2. cbn [q' wq_buf wq_head].
      rewrite mod_succ. pose proof (wq_at_insert q 0 None (S j) Hq) as Hi.
      rewrite Nat.add_0_r, (Nat.mod_small (wq_head q)) in Hi by done. rewrite Hi by (unfold WQ_CAP in *; lia).
      by rewrite decide_False by lia. }
  destruct x as [id|]; apply wp_ret; [done|]. split; [done|]. split; [done|]. simpl. lia.
Qed.

(** The live waiters. *)
Definition waiters (l : list (option Z)) : list Z := omap id l.

Lemma wq_dequeue_spec q :
  wq_ok q → wp (wq_dequeue q) (λ '(q', r), wq_ok q' ∧
    match r with
    | Some id => ∃ n, tickets q = replicate n None ++ Some id :: tickets q'
    | None => tickets q' = [] ∧ ∃ n, tickets q = replicate n None
    end).
Proof.
  intros Hq. unfold wq_dequeue.
  apply (wp_iter _ _ _ (λ q', wq_ok q' ∧ ∃ n, tickets q = replicate n None ++ tickets q')
    (λ q', wq_count q')).
  - split; [done|]. by exists 0%nat.
  - lia.
  - intros q1 [Hq1 [n Hn]]. eapply wp_mono; [by apply dequeue_step_spec|].
    intros [q2|[q2 [id|]]].
    + intros (Hq2 & E & Hlt). split; [|done]. split; [done|]. exists (S n).
      rewrite Hn, E. by rewrite (replicate_S_end n), <-app_assoc.
    + intros [Hq2 E]. split; [done|]. exists n. by rewrite Hn, E.
    + intros [-> E]. split; [done|]. split; [done|]. exists n. by rewrite Hn, E, app_nil_r.
Qed.

Lemma waiters_nones n : waiters (replicate n None) = [].
Proof. unfold waiters. by induction n. Qed.

Lemma waiters_app l1 l2 : waiters (l1 ++ l2) = waiters l1 ++ waiters l2.
Proof. unfold waiters. by rewrite omap_app. Qed.

(** Cancelling replaces the oldest ticket of the task. *)
Fixpoint cancel_ticket (id : Z) (l : list (option Z)) : list (option Z) * bool :=
  match l with
  | [] => ([], false)
  | x :: l =>
      if decide (x = Some id) then (None :: l, true)
      else let '(l, b) := cancel_ticket id l in (x :: l, b)
  end.

Lemma cancel_ticket_found id l k :
  l !! k = Some (Some id) → (∀ j, (j < k)%nat → l !! j ≠ Some (Some id)) →
  cancel_ticket id l = (<[k:=None]> l, true).
Proof.
  revert k. induction l as [|x l IH]; intros k Hk Hbefore; [done|]. simpl. destruct k as [|k].
  - simpl in Hk. injection Hk as ->. by rewrite decide_True.
  - rewrite decide_False; [|intros ->; by apply (Hbefore 0%nat); [lia|]].
    simpl in Hk. rewrite (IH k); [done|done|]. intros j Hj. apply (Hbefore (S j)). lia.
Qed.

Lemma cancel_ticket_none id l :
  (∀ j, l !! j ≠ Some (Some id)) → cancel_ticket id l = (l, false).
Proof.
  induction l as [|x l IH]; intros Hn; [done|]. simpl. rewrite decide_False.
  - rewrite IH; [done|]. intros j. apply (Hn (S j)).
  - intros ->. by apply (Hn 0%nat).
Qed.

Lemma tickets_lookup q k : (k < wq_count q)%nat → tickets q !! k = Some (wq_at q k).
Proof. intros Hk. unfold tickets. rewrite list_lookup_fmap, lookup_seq_lt by done. done. Qed.

Lemma tickets_insert q k x :
  wq_ok q → (k < wq_count q)%nat →
  let q' := mk_wq (<[((wq_head q + k) mod WQ_CAP)%nat:=x]> (wq_buf q)) (wq_head q) (wq_tail q) (wq_count q) in
  wq_ok q' ∧ tickets q' = <[k:=x]> (tickets q).
Proof.
  intros Hq Hk q'. pose proof Hq as [Hlen Hh Hc Ht]. split.
  - split; simpl; [by rewrite length_insert|done..].
  - apply list_eq. intros j. destruct (decide (j < wq_count q)%nat) as [Hj|Hj].
    + rewrite tickets_lookup by done. unfold wq_at. cbn [q' wq_buf wq_head].
      rewrite wq_at_insert by (done || lia). case_decide as E.
      * subst j. rewrite list_lookup_insert_eq; [done|]. by rewrite tickets_length.
      * rewrite list_lookup_insert_ne by done. by rewrite tickets_lookup.
    + rewrite !lookup_ge_None_2; [done|rewrite length_insert, tickets_length; lia|].
      rewrite tickets_length. simpl. lia.
Qed.

Lemma wq_cancel_spec q id :
  wq_ok q → wp (wq_cancel q id) (λ '(q', r), wq_ok q' ∧ (tickets q', r) = cancel_ticket id (tickets q)).
Proof.
  intros Hq. pose proof Hq as [Hlen Hh Hc Ht]. unfold wq_cancel. apply wp_bind.
  apply (wp_for_each_ret _ _ _ (λ done i, i = ((wq_head q + length done) mod WQ_CAP)%nat ∧
    ∀ j, (j < length done)%nat → tickets q !! j ≠ Some (Some id))).
  - split; [|simpl; lia]. simpl. rewrite Nat.add_0_r. by rewrite Nat.mod_small.
  - intros done x rest i Hseq [-> Hno].
    assert (length done < wq_count q)%nat as Hk.
    { apply (f_equal length) in Hseq. rewrite length_seq, length_app in Hseq. simpl in Hseq. lia. }
    unfold cancel_step. pose proof (tickets_lookup q (length done) Hk) as Ht'. unfold wq_at in Ht'.
    destruct (lookup_lt_is_Some_2 (wq_buf q) ((wq_head q + length done) mod WQ_CAP)%nat) as [y Hy].
    { rewrite Hlen. apply mod_lt. }
    rewrite Hy in Ht'. simpl in Ht'. apply wp_bind. eapply wp_arr_get; [done|].
    case_bool_decide as Ey.
    + subst y. apply wp_bind, wp_arr_set; [rewrite Hlen; apply mod_lt|]. apply wp_ret. apply wp_ret.
      destruct (tickets_insert q (length done) None Hq Hk) as [Hq' E]. split; [done|].
      rewrite E. symmetry. by apply cancel_ticket_found.
    + apply wp_ret. rewrite length_app. simpl. split.
      * unfold WQ_CAP. rewrite Nat.Div0.add_mod_idemp_l. f_equal. lia.
      * intros j Hj. destruct (decide (j = length done)) as [->|]; [congruence|]. apply Hno. lia.
  - intros i [_ Hno]. apply wp_ret. split; [done|]. symmetry. apply cancel_ticket_none. intros j Hj.
    pose proof (lookup_lt_Some _ _ _ Hj) as Hlt. rewrite tickets_length in Hlt.
    by apply (Hno j); [rewrite length_seq|].
Qed.

(** ** Refinement: the ring buffer implements a list of tickets *)

Inductive wq_op := WEnqueue (id : Z) | WDequeue | WCancel (id : Z).
Inductive wq_res := WBool (b : bool) | WTask (r : option Z).

Definition wq_exec (q : WaitQueue) (op : wq_op) : outcome (WaitQueue * wq_res) :=
  match op with
  | WEnqueue id => '(q, b) ← wq_enqueue q id; Ret (q, WBool b)
  | WDequeue => '(q, r) ← wq_dequeue q; Ret (q, WTask r)
  | WCancel id => '(q, b) ← wq_cancel q id; Ret (q, WBool b)
  end.

Fixpoint wq_run (q : WaitQueue) (ops : list wq_op) : outcome (WaitQueue * list wq_res) :=
  match ops with
  | [] => Ret (q, [])
  | op :: ops =>
      '(q, r) ← wq_exec q op;
      '(q, l) ← wq_run q ops;
      Ret (q, r :: l)
  end.

(** The specification: a bounded list of tickets served from the front. *)
Fixpoint serve (l : list (option Z)) : list (option Z) * option Z :=
  match l with
  | [] => ([], None)
  | Some id :: l => (l, Some id)
  | None :: l => serve l
  end.

Definition spec_exec (l : list (option Z)) (op : wq_op) : list (option Z) * wq_res :=
  match op with
  | WEnqueue id => if decide (length l < WQ_CAP)%nat then (l ++ [Some id], WBool true) else (l, WBool false)
  | WDequeue => let '(l, r) := serve l in (l, WTask r)
  | WCancel id => let '(l, b) := cancel_ticket id l in (l, WBool b)
  end.

Fixpoint spec_run (l : list (option Z)) (ops : list wq_op) : list (option Z) * list wq_res :=
  match ops with
  | [] => (l, [])
  | op :: ops =>
      let '(l, r) := spec_exec l op in
      let '(l, rs) := spec_run l ops in
      (l, r :: rs)
  end.

Lemma serve_nones n l : serve (replicate n None ++ l) = serve l.
Proof. by induction n. Qed.

Lemma wq_exec_spec q op :
  wq_ok q → wp (wq_exec q op) (λ '(q', r), wq_ok q' ∧ (tickets q', r) = spec_exec (tickets q) op).
Proof.
  intros Hq. destruct op as [id| |id]; simpl; apply wp_bind.
  - eapply wp_mono; [by apply wq_enqueue_spec|]. intros [q' b] [Hq' H]. apply wp_ret. split; [done|].
    case_decide; destruct H as [-> H]; by rewrite H.
  - eapply wp_mono; [by apply wq_dequeue_spec|]. intros [q' r] [Hq' H]. apply wp_ret. split; [done|].
    destruct r as [id|]; [destruct H as [n ->]|destruct H as [E [n ->]]].
    + by rewrite serve_nones.
    + rewrite <-(app_nil_r (replicate n None)), serve_nones. simpl. by rewrite E.
  - eapply wp_mono; [by apply wq_cancel_spec|]. intros [q' b] [Hq' H]. apply wp_ret. split; [done|].
    by rewrite <-H.
Qed.

(** C14: the ring buffer of receivers refines a bounded list of tickets: for any
    sequence of enqueue, dequeue and cancel operations it never panics, returns
    the results of the list and holds its tickets. *)
Theorem wait_queue_refines ops :
  wp (wq_run wq_new ops) (λ '(q, rs), (tickets q, rs) = spec_run [] ops).
Proof.
  cut (∀ q, wq_ok q → wp (wq_run q ops) (λ '(q', rs), (tickets q', rs) = spec_run (tickets q) ops)).
  { intros H. apply (H wq_new wq_new_ok). }
  induction ops as [|op ops IH]; intros q Hq; simpl; [by apply wp_ret|].
  apply wp_bind. eapply wp_mono; [by apply wq_exec_spec|]. intros [q1 r] [Hq1 <-].
  apply wp_bind. eapply wp_mono; [by apply IH|]. intros [q2 rs] <-. by apply wp_ret.
Qed.

(** Cancelled receivers keep their place: after sixteen receivers enqueue
    and all cancel, nobody waits, yet a new receiver is refused and the queue
    reports a waiting receiver. *)
Theorem cancelled_slots_refuse_receivers :
  ∃ q, wq_run wq_new ((WEnqueue <$> seqZ 1 16) ++ (WCancel <$> seqZ 1 16)) =
         Ret (q, replicate 32 (WBool true)) ∧
    waiters (tickets q) = [] ∧ wq_is_empty q = false ∧
    wq_enqueue q 99 = Ret (q, false).
Proof. eexists. split; [vm_compute; reflexivity|]. vm_compute. done. Qed.

(** ** The endpoint table *)

Definition ep_ok (e : Endpoint) : Prop := wq_ok (recv_queue e) ∧ ep_closed e = false.

Definition eptable_ok (t : EndpointTable) : Prop :=
  ∀ i e, endpoints t !! i = Some (Some e) → ep_ok e.

Lemma list_find_insert {A} (P : A → Prop) `{∀ x, Decision (P x)} (l : list A) i x y :
  l !! i = Some x → (P x ↔ P y) →
  list_find P (<[i:=y]> l) = (λ '(j, z), (j, if decide (j = i) then y else z)) <$> list_find P l.
Proof.
  intros Hi HP. revert i Hi. induction l as [|a l IH]; intros i Hi; [done|]. destruct i as [|i]; simpl in *.
  - injection Hi as ->. destruct (decide (P x)) as [Hx|Hx], (decide (P y)) as [Hy|Hy]; try tauto.
    rewrite <-option_fmap_compose. destruct (list_find P l) as [[j z]|]; done.
  - destruct (decide (P a)); [done|]. rewrite (IH i Hi), <-!option_fmap_compose.
    destruct (list_find P l) as [[j z]|]; simpl; [|done]. do 2 f_equal. repeat case_decide; (done || lia).
Qed.

Lemma get_endpoint_Some t id i e :
  get_endpoint t id = Some (i, e) → endpoints t !! i = Some (Some e) ∧ ep_id e = id.
Proof.
  unfold get_endpoint. destruct (list_find _ _) as [[j [e'|]]|] eqn:E; intros [= -> ->].
  by apply list_find_Some in E as (? & ? & _).
Qed.

(** Writing back the endpoint found. *)
Lemma get_put_endpoint t id i e e' id' :
  get_endpoint t id = Some (i, e) → ep_id e' = id →
  get_endpoint (put_endpoint t i e') id' = if decide (id' = id) then Some (i, e') else get_endpoint t id'.
Proof.
  intros Hg He'. destruct (get_endpoint_Some _ _ _ _ Hg) as [Hi He]. unfold get_endpoint, put_endpoint in *. simpl.
  rewrite (list_find_insert (has_id id') (endpoints t) i (Some e)) by (first [done|simpl; by rewrite He, He']).
  case_decide as Eid.
  - subst id'. destruct (list_find _ _) as [[j [e0|]]|]; simplify_eq/=. by rewrite decide_True.
  - destruct (list_find (has_id id') (endpoints t)) as [[j [e0|]]|] eqn:El; simpl; [|..|done].
    + apply list_find_Some in El as (Hj & Hp & _). rewrite decide_False; [done|]. intros ->.
      rewrite Hi in Hj. injection Hj as <-. simpl in Hp. congruence.
    + apply list_find_Some in El as (_ & [] & _).
Qed.

Lemma eptable_ok_put t i e : eptable_ok t → ep_ok e → eptable_ok (put_endpoint t i e).
Proof.
  intros Ht He j e'. simpl. intros [(_ & [= <-] & _)|[_ Hj]]%list_lookup_insert_Some; [|by apply (Ht j)].
  done.
Qed.

(** The receivers waiting at an endpoint. *)
Definition queue_of (e : Endpoint) : list Z := waiters (tickets (recv_queue e)).
Definition waiting (m : IpcManager) (id : Z) : list Z :=
  match get_endpoint (ipc_table m) id with Some (_, e) => queue_of e | None => [] end.

Definition has_endpoint (m : IpcManager) (id : Z) : Prop := is_Some (get_endpoint (ipc_table m) id).

(** All receivers waiting anywhere. *)
Definition slot_queue (s : option Endpoint) : list Z :=
  match s with Some e => queue_of e | None => [] end.
Definition all_waiting (m : IpcManager) : list Z := concat (slot_queue <$> endpoints (ipc_table m)).

Lemma concat_insert {A} (f : A → list Z) (l : list A) i x y :
  l !! i = Some x → concat (f <$> <[i:=y]> l) ++ f x ≡ₚ concat (f <$> l) ++ f y.
Proof.
  revert i. induction l as [|a l IH]; intros i Hi; [done|]. destruct i as [|i]; simpl in *.
  - injection Hi as ->. by rewrite (Permutation_app_comm (f y)), (Permutation_app_comm (f x)), <-!app_assoc,
      (Permutation_app_comm (f y)).
  - rewrite <-!app_assoc. by rewrite IH.
Qed.

(** Replacing the queue of the endpoint found. *)
Record endpoint_updated (m m' : IpcManager) (id : Z) (before after : list Z) : Prop := {
  eu_before : waiting m id = before;
  eu_after : waiting m' id = after;
  eu_other : ∀ id', id' ≠ id → waiting m' id' = waiting m id';
  eu_has : ∀ id', has_endpoint m' id' ↔ has_endpoint m id';
  eu_all : all_waiting m' ++ before ≡ₚ all_waiting m ++ after
}.

Lemma put_endpoint_updated m id i e e' pend :
  get_endpoint (ipc_table m) id = Some (i, e) → ep_id e' = id →
  endpoint_updated m (mk_ipc (put_endpoint (ipc_table m) i e') pend) id (queue_of e) (queue_of e').
Proof.
  intros Hg He'. pose proof (λ id', get_put_endpoint (ipc_table m) id i e e' id' Hg He') as Hp.
  destruct (get_endpoint_Some _ _ _ _ Hg) as [Hi He]. split.
  - unfold waiting. by rewrite Hg.
  - unfold waiting. simpl. by rewrite Hp, decide_True.
  - intros id' Hne. unfold waiting. simpl. by rewrite Hp, decide_False.
  - intros id'. unfold has_endpoint. simpl. rewrite Hp. case_decide; [|done]. subst id'. rewrite Hg.
    split; eauto.
  - unfold all_waiting. simpl. by apply (concat_insert slot_queue _ i (Some e) (Some e')).
Qed.

Definition mgr_ok (m : IpcManager) : Prop := eptable_ok (ipc_table m).

(** A rendezvous wakes the receiver that has waited longest. *)
Lemma handle_send_spec m sender id msg :
  mgr_ok m → wp (handle_send m sender id msg) (λ '(m', r), mgr_ok m' ∧
    match r with
    | WakeReceiver t => pending_messages m' = <[t:=msg]> (pending_messages m) ∧
        ∃ l, endpoint_updated m m' id (t :: l) l
    | RNotReady => pending_messages m' = pending_messages m ∧ endpoint_updated m m' id [] []
    | RError e => e = IpcError.InvalidEndpoint ∧ m' = m ∧ ¬ has_endpoint m id
    | _ => False
    end).
Proof.
  intros Hm. unfold handle_send. destruct (get_endpoint (ipc_table m) id) as [[i e]|] eqn:Hg.
  2:{ apply wp_ret. split; [done|]. do 2 (split; [done|]). intros [x Hx]. congruence. }
  destruct (get_endpoint_Some _ _ _ _ Hg) as [Hi He]. destruct (Hm i e Hi) as [Hq Hcl].
  unfold try_send. rewrite Hcl. apply wp_bind, wp_bind. eapply wp_mono; [by apply wq_dequeue_spec|].
  intros [q' r] [Hq' Hr]. apply wp_ret. set (e' := with_queue e q').
  pose proof (put_endpoint_updated m id i e e' (pending_messages m) Hg He) as Hu.
  assert (mgr_ok (mk_ipc (put_endpoint (ipc_table m) i e') (pending_messages m))) as Hok.
  { apply eptable_ok_put; [done|]. done. }
  destruct r as [t|].
  - destruct Hr as [n Hn]. apply wp_ret. split; [done|]. split; [done|]. exists (queue_of e').
    unfold queue_of in Hu at 1. rewrite Hn, waiters_app, waiters_nones in Hu. destruct Hu as [E1 E2 E3 E4 E5].
    split; done.
  - destruct Hr as [E [n Hn]]. apply wp_ret. split; [done|]. split; [done|].
    unfold queue_of in Hu. rewrite Hn, waiters_nones in Hu. cbn [e' with_queue recv_queue] in Hu. by rewrite E in Hu.
Qed.

Lemma handle_recv_spec m t id :
  mgr_ok m → wp (handle_recv m t id) (λ '(m', r), mgr_ok m' ∧
    pending_messages m' = pending_messages m ∧
    match r with
    | BlockCurrent => ∃ l, endpoint_updated m m' id l (l ++ [t])
    | RError IpcError.NotReady => ∃ l, endpoint_updated m m' id l l
    | RError e => e = IpcError.InvalidEndpoint ∧ m' = m ∧ ¬ has_endpoint m id
    | _ => False
    end).
Proof.
  intros Hm. unfold handle_recv. destruct (get_endpoint (ipc_table m) id) as [[i e]|] eqn:Hg.
  2:{ apply wp_ret. split; [done|]. do 3 (split; [done|]). intros [x Hx]. congruence. }
  destruct (get_endpoint_Some _ _ _ _ Hg) as [Hi He]. destruct (Hm i e Hi) as [Hq Hcl].
  unfold try_recv. rewrite Hcl. apply wp_bind, wp_bind. eapply wp_mono; [by apply wq_enqueue_spec|].
  intros [q' ok] [Hq' Hr]. apply wp_ret. set (e' := with_queue e q').
  pose proof (put_endpoint_updated m id i e e' (pending_messages m) Hg He) as Hu.
  assert (mgr_ok (mk_ipc (put_endpoint (ipc_table m) i e') (pending_messages m))) as Hok.
  { apply eptable_ok_put; [done|]. done. }
  case_decide.
  - destruct Hr as [-> E]. apply wp_ret. do 2 (split; [done|]). exists (queue_of e).
    unfold queue_of in Hu at 2. cbn [e' with_queue recv_queue] in Hu. rewrite E, waiters_app in Hu. exact Hu.
  - destruct Hr as [-> ->]. apply wp_ret. do 2 (split; [done|]). exists (queue_of e).
    unfold queue_of in Hu at 2. exact Hu.
Qed.

(** ** Traces of the manager *)

Inductive ipc_op :=
  | IRecv (task ep : Z)
  | ISend (task ep : Z) (msg : FastMessage)
  | ITake (task : Z).

Inductive ipc_event :=
  | EBlock (ep task : Z)
  | EWake (ep task : Z)
  | EOther.

Definition ipc_exec (m : IpcManager) (op : ipc_op) : outcome (IpcManager * ipc_event) :=
  match op with
  | IRecv t ep =>
      '(m, r) ← handle_recv m t ep;
      Ret (m, match r with BlockCurrent => EBlock ep t | _ => EOther end)
  | ISend t ep msg =>
      '(m, r) ← handle_send m t ep msg;
      Ret (m, match r with WakeReceiver x => EWake ep x | _ => EOther end)
  | ITake t => Ret ((take_pending_message m t).1, EOther)
  end.

Fixpoint ipc_run (m : IpcManager) (ops : list ipc_op) : outcome (IpcManager * list ipc_event) :=
  match ops with
  | [] => Ret (m, [])
  | op :: ops =>
      '(m, e) ← ipc_exec m op;
      '(m, l) ← ipc_run m ops;
      Ret (m, e :: l)
  end.

Definition blocked_on (ep : Z) (evs : list ipc_event) : list Z :=
  omap (λ e, match e with EBlock ep' t => if decide (ep' = ep) then Some t else None | _ => None end) evs.
Definition woken_on (ep : Z) (evs : list ipc_event) : list Z :=
  omap (λ e, match e with EWake ep' t => if decide (ep' = ep) then Some t else None | _ => None end) evs.

(** An operation changes the queues as its event says. *)
Lemma ipc_exec_spec m op :
  mgr_ok m → wp (ipc_exec m op) (λ '(m', e), mgr_ok m' ∧
    ∀ ep, woken_on ep [e] ++ waiting m' ep = waiting m ep ++ blocked_on ep [e]).
Proof.
  intros Hm. destruct op as [t ep|t ep msg|t]; simpl; [apply wp_bind..|].
  - eapply wp_mono; [by apply handle_recv_spec|]. intros [m' r] (Hm' & _ & Hr). apply wp_ret.
    split; [done|]. intros id. destruct r as [| | | |err]; try done.
    + destruct Hr as [l [E1 E2 E3 _ _]]. simpl. case_decide as E; [by rewrite <-E, E1, E2|].
      by rewrite E3, app_nil_r.
    + simpl. rewrite app_nil_r. destruct err; try (destruct Hr as (? & -> & _); done).
      destruct Hr as [l [E1 E2 E3 _ _]]. destruct (decide (id = ep)) as [->|]; [congruence|by apply E3].
  - eapply wp_mono; [by apply handle_send_spec|]. intros [m' r] (Hm' & Hr). apply wp_ret.
    split; [done|]. intros id. destruct r as [x| | | |err]; try done.
    + destruct Hr as [_ [l [E1 E2 E3 _ _]]]. simpl. rewrite app_nil_r.
      case_decide as E; [by rewrite <-E, E1, E2|]. by apply E3.
    + destruct Hr as [_ [E1 E2 E3 _ _]]. simpl. rewrite app_nil_r.
      destruct (decide (id = ep)) as [->|]; [congruence|by apply E3].
    + destruct Hr as (_ & -> & _). simpl. by rewrite app_nil_r.
  - apply wp_ret. split; [done|]. intros id. simpl. by rewrite app_nil_r.
Qed.

Lemma woken_on_cons ep e l : woken_on ep (e :: l) = woken_on ep [e] ++ woken_on ep l.
Proof. unfold woken_on. by rewrite <-omap_app. Qed.
Lemma blocked_on_cons ep e l : blocked_on ep (e :: l) = blocked_on ep [e] ++ blocked_on ep l.
Proof. unfold blocked_on. by rewrite <-omap_app. Qed.

(** C9: no sequence of send, receive and take operations panics, and at every
    endpoint receivers are served strictly in the order in which they blocked:
    the receivers woken, followed by those still waiting, are those that were
    waiting at the start followed by those that blocked since. *)
Theorem receivers_served_in_order m ops :
  mgr_ok m → wp (ipc_run m ops) (λ '(m', evs), mgr_ok m' ∧
    ∀ ep, woken_on ep evs ++ waiting m' ep = waiting m ep ++ blocked_on ep evs).
Proof.
  revert m. induction ops as [|op ops IH]; intros m Hm; simpl.
  { apply wp_ret. split; [done|]. intros ep. simpl. by rewrite app_nil_r. }
  apply wp_bind. eapply wp_mono; [by apply ipc_exec_spec|]. intros [m1 e] [Hm1 H1].
  apply wp_bind. eapply wp_mono; [by apply IH|]. intros [m2 evs] [Hm2 H2]. apply wp_ret. split; [done|].
  intros ep. rewrite woken_on_cons, blocked_on_cons, <-app_assoc, H2, app_assoc, H1. by rewrite app_assoc.
Qed.

(** A manager with one endpoint, that of task 1. *)
Definition one_endpoint : IpcManager := (ipc_create_endpoint ipc_new 1).1.

Lemma eptable_ok_create t task : eptable_ok t → eptable_ok (create_endpoint t task).1.
Proof.
  intros Ht. unfold create_endpoint. destruct (list_find _ _) as [[i s]|]; [|done]. simpl.
  intros j e [(_ & [= <-] & _)|[_ Hj]]%list_lookup_insert_Some; [|by apply (Ht j)].
  split; [apply wq_new_ok|done].
Qed.

Lemma eptable_new_ok : eptable_ok eptable_new.
Proof. intros i e [[=] _]%lookup_replicate. Qed.

Lemma one_endpoint_ok : mgr_ok one_endpoint.
Proof. apply (eptable_ok_create eptable_new 1), eptable_new_ok. Qed.

Lemma receivers_served_in_order_witness :
  mgr_ok one_endpoint ∧
  ∃ m evs, ipc_run one_endpoint [IRecv 5 1; IRecv 6 1; ISend 7 1 msg_default] = Ret (m, evs) ∧
    woken_on 1 evs ++ waiting m 1 = waiting one_endpoint 1 ++ blocked_on 1 evs.
Proof.
  split; [apply one_endpoint_ok|].
  destruct (wp_elim _ _ (receivers_served_in_order one_endpoint
    [IRecv 5 1; IRecv 6 1; ISend 7 1 msg_default] one_endpoint_ok)) as ([m evs] & E & _ & H).
  exists m, evs. split; [exact E|]. apply H.
Defined.

(** ** No message is lost

    Tasks follow the protocol of the system calls: a task that is waiting does
    nothing, and a task with a message in its mailbox takes it before it
    receives again.  [sent] lists the messages handed over with their
    receivers, [taken] those the receivers collected. *)
Notation letter := (Z * FastMessage)%type.
Notation ipc_state := (IpcManager * list letter * list letter)%type.

Inductive ipc_step : ipc_state → ipc_state → Prop :=
  | ipc_recv m sent taken t ep m' r :
      t ∉ all_waiting m → pending_messages m !! t = None → handle_recv m t ep = Ret (m', r) →
      ipc_step (m, sent, taken) (m', sent, taken)
  | ipc_send m sent taken t ep msg m' r :
      handle_send m t ep msg = Ret (m', r) →
      ipc_step (m, sent, taken)
               (m', match r with WakeReceiver x => (x, msg) :: sent | _ => sent end, taken)
  | ipc_take m sent taken t :
      t ∉ all_waiting m →
      ipc_step (m, sent, taken)
               ((take_pending_message m t).1, sent,
                match (take_pending_message m t).2 with Some msg => (t, msg) :: taken | None => taken end)
  | ipc_create m sent taken t :
      ipc_step (m, sent, taken) ((ipc_create_endpoint m t).1, sent, taken)
  | ipc_destroy m sent taken id :
      ipc_step (m, sent, taken) (ipc_destroy_endpoint m id, sent, taken).

Record mail_inv (st : ipc_state) : Prop := {
  mv_ok : mgr_ok st.1.1;
  mv_once : NoDup (all_waiting st.1.1);
  mv_empty : ∀ t, t ∈ all_waiting st.1.1 → pending_messages st.1.1 !! t = None;
  mv_conserved : st.1.2 ≡ₚ st.2 ++ map_to_list (pending_messages st.1.1)
}.

Lemma all_waiting_create m t : all_waiting (ipc_create_endpoint m t).1 ≡ₚ all_waiting m.
Proof.
  unfold all_waiting, ipc_create_endpoint, create_endpoint.
  destruct (list_find _ _) as [[i s]|] eqn:E; [|done]. simpl.
  apply list_find_Some in E as (Hi & -> & _).
  pose proof (concat_insert slot_queue _ i None (Some (endpoint_new_with_id t)) Hi) as Hc. simpl in Hc.
  change (queue_of (endpoint_new_with_id t)) with (@nil Z) in Hc. by rewrite !app_nil_r in Hc.
Qed.

Lemma all_waiting_destroy m id : ∃ l, all_waiting (ipc_destroy_endpoint m id) ++ l ≡ₚ all_waiting m.
Proof.
  unfold all_waiting, ipc_destroy_endpoint, destroy_endpoint. simpl.
  destruct (list_find _ _) as [[i s]|] eqn:E; [|exists []; by rewrite app_nil_r]. simpl.
  apply list_find_Some in E as (Hi & _ & _). exists (slot_queue s).
  rewrite (concat_insert slot_queue _ i s None Hi). simpl. by rewrite app_nil_r.
Qed.

Lemma eptable_ok_destroy t id : eptable_ok t → eptable_ok (destroy_endpoint t id).
Proof.
  intros Ht. unfold destroy_endpoint. destruct (list_find (has_id id) (endpoints t)) as [[j s]|]; [|done].
  intros i e. simpl. intros [(_ & ? & _)|[_ Hj]]%list_lookup_insert_Some; [done|by apply (Ht i)].
Qed.

Lemma mail_inv_recv m sent taken t ep m' r :
  mail_inv (m, sent, taken) → t ∉ all_waiting m → pending_messages m !! t = None →
  handle_recv m t ep = Ret (m', r) → mail_inv (m', sent, taken).
Proof.
  intros [Hok Hnd He Hc] Ht Hp E. simpl in *.
  pose proof (handle_recv_spec m t ep Hok) as Hw. rewrite E in Hw. destruct Hw as (Hok' & Ep & Hr).
  assert (all_waiting m' ≡ₚ all_waiting m ∨ all_waiting m' ≡ₚ t :: all_waiting m) as Ha.
  { destruct r as [| | | |err]; try done.
    - right. destruct Hr as [l [_ _ _ _ Ha]]. apply (Permutation_app_inv_r l).
      rewrite Ha, app_assoc. by rewrite <-Permutation_cons_append.
    - left. destruct err; try (destruct Hr as (? & -> & _); done).
      destruct Hr as [l [_ _ _ _ Ha]]. by apply (Permutation_app_inv_r l). }
  split; simpl; [done| | |by rewrite Ep].
  - destruct Ha as [->| ->]; [done|]. by constructor.
  - intros x. rewrite Ep. destruct Ha as [->| ->]; [by apply He|].
    intros [->|?]%elem_of_cons; [done|by apply He].
Qed.

Lemma mail_inv_send m sent taken t ep msg m' r :
  mail_inv (m, sent, taken) → handle_send m t ep msg = Ret (m', r) →
  mail_inv (m', match r with WakeReceiver x => (x, msg) :: sent | _ => sent end, taken) ∧
  ∀ x, r = WakeReceiver x → pending_messages m !! x = None.
Proof.
  intros [Hok Hnd He Hc] E. simpl in *.
  pose proof (handle_send_spec m t ep msg Hok) as Hw. rewrite E in Hw. destruct Hw as (Hok' & Hr).
  destruct r as [x| | | |err]; try done.
  - destruct Hr as [Ep [l [_ _ _ _ Ha]]].
    assert (all_waiting m ≡ₚ x :: all_waiting m') as Hperm.
    { apply (Permutation_app_inv_r l). rewrite <-Ha. simpl. by rewrite Permutation_middle. }
    rewrite Hperm in Hnd. apply NoDup_cons in Hnd as [Hx Hnd].
    assert (pending_messages m !! x = None) as Hpx by (apply He; rewrite Hperm; by left).
    split; [|by intros y [= <-]]. split; simpl; [done|done| |].
    + intros y Hy. rewrite Ep, lookup_insert_ne by (by intros ->). apply He. rewrite Hperm. by right.
    + rewrite Ep, map_to_list_insert by done. rewrite Hc. by rewrite Permutation_middle.
  - destruct Hr as [Ep [_ _ _ _ Ha]]. rewrite !app_nil_r in Ha. split; [|done].
    split; simpl; [done|by rewrite Ha| |by rewrite Ep]. intros y. rewrite Ha, Ep. apply He.
  - destruct Hr as (_ & -> & _). split; [|done]. by split.
Qed.

Lemma mail_inv_step x y : ipc_step x y → mail_inv x → mail_inv y.
Proof.
  intros [m sent taken t ep m' r Ht Hp E|m sent taken t ep msg m' r E|m sent taken t Ht
         |m sent taken t|m sent taken id] Hinv.
  - by eapply mail_inv_recv.
  - by eapply mail_inv_send.
  - destruct Hinv as [Hok Hnd He Hc]. simpl in *. split; simpl; [done|done| |].
    + intros w Hw. rewrite lookup_delete_ne by (by intros ->). by apply He.
    + destruct (pending_messages m !! t) as [msg|] eqn:Hm.
      * rewrite <-(map_to_list_delete _ _ _ Hm) in Hc. rewrite Hc. symmetry. apply Permutation_middle.
      * by rewrite delete_id.
  - destruct Hinv as [Hok Hnd He Hc]. pose proof (all_waiting_create m t) as Ha.
    assert (mgr_ok (ipc_create_endpoint m t).1) as Hok'.
    { unfold mgr_ok, ipc_create_endpoint. pose proof (eptable_ok_create (ipc_table m) t Hok).
      by destruct (create_endpoint _ _). }
    assert (pending_messages (ipc_create_endpoint m t).1 = pending_messages m) as Ep.
    { unfold ipc_create_endpoint. by destruct (create_endpoint _ _). }
    split; simpl; [done|by rewrite Ha| |by rewrite Ep]. intros w. rewrite Ha, Ep. apply He.
  - destruct Hinv as [Hok Hnd He Hc]. destruct (all_waiting_destroy m id) as [l Ha]. simpl in *.
    split; simpl; [| | |done].
    + by apply eptable_ok_destroy.
    + rewrite <-Ha in Hnd. by apply NoDup_app in Hnd as [? _].
    + intros w Hw. apply He. rewrite <-Ha. apply elem_of_app. by left.
Qed.

Lemma mail_inv_new : mail_inv (ipc_new, [], []).
Proof.
  assert (all_waiting ipc_new = []) as E by (vm_compute; reflexivity).
  split; cbn [fst snd]; [apply eptable_new_ok| | |]; rewrite ?E.
  - constructor.
  - by intros t ?%elem_of_nil.
  - cbn [ipc_new pending_messages]. by rewrite map_to_list_empty.
Qed.

(** C8: messages are neither lost, duplicated nor overwritten.  In every state
    the tasks can reach, the messages handed over are exactly those already
    taken by their receivers together with those in the mailboxes; no task
    waits twice; and the next send can only address an empty mailbox. *)
Theorem messages_conserved m sent taken :
  rtc ipc_step (ipc_new, [], []) (m, sent, taken) →
  sent ≡ₚ taken ++ map_to_list (pending_messages m) ∧
  NoDup (all_waiting m) ∧
  ∀ t ep msg, wp (handle_send m t ep msg) (λ '(_, r),
    ∀ x, r = WakeReceiver x → pending_messages m !! x = None).
Proof.
  intros Hsteps.
  assert (mail_inv (m, sent, taken)) as Hinv.
  { refine (rtc_ind_r mail_inv (ipc_new, [], []) mail_inv_new _ (m, sent, taken) Hsteps).
    intros x y _ Hstep. by apply mail_inv_step. }
  split; [apply Hinv|]. split; [apply Hinv|]. intros t ep msg.
  destruct (wp_elim _ _ (handle_send_spec m t ep msg (mv_ok _ Hinv))) as ([m' r] & E & _).
  rewrite E. apply wp_ret. by apply (mail_inv_send m sent taken t ep msg m').
Qed.

Lemma messages_conserved_witness :
  ∃ m, rtc ipc_step (ipc_new, [], []) (m, [(5, msg_default)], []) ∧
    [(5, msg_default)] ≡ₚ map_to_list (pending_messages m).
Proof.
  destruct (wp_elim _ _ (handle_recv_spec one_endpoint 5 1 one_endpoint_ok)) as ([m1 r1] & E1 & Hok1 & _).
  destruct (wp_elim _ _ (handle_send_spec m1 7 1 msg_default Hok1)) as ([m2 r2] & E2 & _).
  assert (r2 = WakeReceiver 5) as ->.
  { pose proof E1 as E1'. vm_compute in E1'. injection E1' as Em _. subst m1.
    vm_compute in E2. by injection E2. }
  assert (rtc ipc_step (ipc_new, [], []) (m2, [(5, msg_default)], [])) as Hsteps.
  { eapply rtc_l; [apply (ipc_create ipc_new [] [] 1)|].
    eapply rtc_l.
    { eapply (ipc_recv one_endpoint [] [] 5 1); [| |exact E1].
      - assert (all_waiting one_endpoint = []) as -> by (vm_compute; reflexivity). by intros ?%elem_of_nil.
      - done. }
    eapply rtc_l; [exact (ipc_send m1 [] [] 7 1 msg_default m2 _ E2)|]. apply rtc_refl. }
  exists m2. split; [exact Hsteps|]. destruct (messages_conserved _ _ _ Hsteps) as [H _]. exact H.
Defined.

(** ** Transferring capabilities *)

(** The sender may pass [cap] on: the first capability it holds for the object
    includes the grant right and the rights passed. *)
Definition may_pass (owned : list Capability) (cap : Capability) : Prop :=
  cap_is_null cap = true ∨
  ∃ i c, list_find (λ c, cap_handle c = cap_handle cap) owned = Some (i, c) ∧
    rights_contain (cap_rights c) R_GRANT = true ∧ rights_contain (cap_rights c) (cap_rights cap) = true.

Lemma validate_cap_spec owned cap :
  wp (validate_cap owned cap) (λ r,
    match r with
    | inl _ => may_pass owned cap
    | inr e => ∃ err, e = Err err ∧ ¬ may_pass owned cap
    end).
Proof.
  unfold validate_cap, may_pass. destruct (cap_is_null cap) eqn:Hn; [apply wp_ret; by left|].
  destruct (list_find _ owned) as [[i c]|] eqn:Hf.
  - destruct (rights_contain (cap_rights c) R_GRANT) eqn:Hg; simpl.
    + destruct (rights_contain (cap_rights c) (cap_rights cap)) eqn:Hr; simpl; apply wp_ret.
      * right. eauto.
      * eexists. split; [done|]. intros [?|(? & ? & [= <- <-] & _ & ?)]; congruence.
    + apply wp_ret. eexists. split; [done|]. intros [?|(? & ? & [= <- <-] & ? & _)]; congruence.
  - apply wp_ret. eexists. split; [done|]. intros [?|(? & ? & ? & _)]; congruence.
Qed.

(** A message is accepted exactly when the sender may pass on every
    capability in it: each non-null one is covered, with its rights and the
    grant right, by the first capability the sender holds for that object. *)
Theorem validate_caps_exact msg owned :
  (n_caps msg ≤ length (msg_caps msg))%nat →
  wp (validate_caps msg owned) (λ r,
    match r with
    | Ok _ => Forall (may_pass owned) (take (n_caps msg) (msg_caps msg))
    | Err _ => ¬ Forall (may_pass owned) (take (n_caps msg) (msg_caps msg))
    end).
Proof.
  intros Hn. unfold validate_caps, caps_of. rewrite (proj2 (Nat.leb_le _ _)) by done.
  apply wp_bind, wp_ret. apply wp_bind. set (l := take _ _).
  apply (wp_for_each_ret _ _ _ (λ done _, Forall (may_pass owned) done)).
  - by apply Forall_nil.
  - intros done cap rest [] Hl Hdone. eapply wp_mono; [apply validate_cap_spec|].
    intros [[]|e]; [intros Hc; apply Forall_app; split; [done|by apply Forall_singleton]|].
    intros (err & -> & Hno). apply wp_ret. rewrite Hl, Forall_app, Forall_cons. tauto.
  - intros [] Hall. by apply wp_ret.
Qed.

Definition granting_msg : FastMessage :=
  mk_msg L_CALL [0; 0; 0; 0]
    (<[0%nat:=mk_cap (mk_handle 3 0) R_READ 0]> (replicate MAX_CAPS_PER_MSG cap_null)) 1.

Lemma validate_caps_exact_witness :
  validate_caps granting_msg [cap_new (mk_handle 3 0) R_READ] = Ret (Err IpcError.NoGrant) ∧
  ¬ Forall (may_pass [cap_new (mk_handle 3 0) R_READ]) (take 1 (msg_caps granting_msg)).
Proof.
  pose proof (validate_caps_exact granting_msg [cap_new (mk_handle 3 0) R_READ]) as H.
  assert (validate_caps granting_msg [cap_new (mk_handle 3 0) R_READ] = Ret (Err IpcError.NoGrant)) as E
    by (vm_compute; reflexivity).
  split; [exact E|]. rewrite E in H. apply H. simpl. lia.
Defined.

(** Endpoints are named by the task that creates them, so two endpoints of
    one task share their id: the second creation succeeds with the same id, but
    every lookup, and so every send, receive or destroy, reaches the first. *)
Theorem second_endpoint_unreachable task :
  let '(m1, r1) := ipc_create_endpoint ipc_new task in
  let '(m2, r2) := ipc_create_endpoint m1 task in
  r1 = Some task ∧ r2 = Some task ∧
  endpoints (ipc_table m2) !! 1%nat = Some (Some (endpoint_new_with_id task)) ∧
  get_endpoint (ipc_table m2) task = Some (0%nat, endpoint_new_with_id task).
Proof.
  unfold ipc_create_endpoint, create_endpoint, ipc_new, eptable_new. simpl.
  split_and!; try done. unfold get_endpoint. simpl. by rewrite decide_True.
Qed.
