(* ===== verification/Runqueue.v ===== *)
(** * The per-CPU run queue: a work-stealing deque

    Models [Runqueue] of kernel/src/arch/amd64/scheduler/cpu_local.rs.  The
    owning CPU pushes and pops at the bottom while other CPUs steal at the top,
    without locks.  Each operation is a sequence of atomic accesses to the
    shared words; [owner_exec] and [thief_exec] perform one access and move to
    the next program point, so that every interleaving can be considered.
    Running an operation without interruption gives the sequential behaviour
    the scheduler model uses.  Accesses are sequentially consistent: the effect
    of the weaker orderings of the source is not modelled. *)
From S2P Require Import Prelude.

Definition RQ_CAP : Z := 1024.

(** Task pointers are integers; [0] is null. *)
Record Runqueue := mk_rq {
  rq_top : Z;
  rq_bottom : Z;
  rq_buf : list Z
}.

Definition rq_new : Runqueue := mk_rq 0 0 (replicate (Z.to_nat RQ_CAP) 0).

Definition set_top (t : Z) (q : Runqueue) : Runqueue := mk_rq t (rq_bottom q) (rq_buf q).
Definition set_bottom (b : Z) (q : Runqueue) : Runqueue := mk_rq (rq_top q) b (rq_buf q).
Definition set_buf (l : list Z) (q : Runqueue) : Runqueue := mk_rq (rq_top q) (rq_bottom q) l.

Definition slot (i : Z) : nat := Z.to_nat (i mod RQ_CAP).

(** ** The owner's program points *)

Inductive owner :=
  | OIdle
  | OPush1 (p : Z)
  | OPush2 (p b : Z)
  | OPush3 (p b t : Z)
  | OPush4 (b : Z)
  | OPop1
  | OPop2 (b_orig : Z)
  | OPop3 (b : Z)
  | OPop4 (b : Z)
  | OPop5 (b t : Z)
  | OPop6 (b t p : Z)
  | OPop7 (b : Z) (won : bool) (p : Z).

(** The pointer is checked and returned. *)
Definition pop_return (q : Runqueue) (p : Z) : outcome (Runqueue * (owner + option Z)) :=
  _ ← assert (negb (p =? 0));
  Ret (q, inr (Some p)).

Definition owner_exec (q : Runqueue) (o : owner) : outcome (Runqueue * (owner + option Z)) :=
  match o with
  | OIdle => Ret (q, inl OIdle)
  (* push *)
  | OPush1 p => Ret (q, inl (OPush2 p (rq_bottom q)))
  | OPush2 p b => Ret (q, inl (OPush3 p b (rq_top q)))
  | OPush3 p b t =>
      if RQ_CAP <=? wrap64 (b - t) then Panic PExplicit
      else
        l ← arr_set (rq_buf q) (slot b) p;
        Ret (set_buf l q, inl (OPush4 b))
  | OPush4 b => Ret (set_bottom (wrap64 (b + 1)) q, inr None)
  (* pop *)
  | OPop1 => Ret (q, inl (OPop2 (rq_bottom q)))
  | OPop2 b_orig =>
      if b_orig =? rq_top q then Ret (q, inr None)
      else Ret (q, inl (OPop3 (wrap64 (b_orig - 1))))
  | OPop3 b => Ret (set_bottom b q, inl (OPop4 b))
  | OPop4 b => Ret (q, inl (OPop5 b (rq_top q)))
  | OPop5 b t =>
      if t <=? b then
        p ← arr_get (rq_buf q) (slot b);
        if t =? b then Ret (q, inl (OPop6 b t p)) else pop_return q p
      else Ret (set_bottom (wrap64 (b + 1)) q, inr None)
  | OPop6 b t p =>
      if rq_top q =? t then Ret (set_top (wrap64 (t + 1)) q, inl (OPop7 b true p))
      else Ret (q, inl (OPop7 b false p))
  | OPop7 b won p =>
      let q := set_bottom (wrap64 (b + 1)) q in
      if won then pop_return q p else Ret (q, inr None)
  end.

(** ** A thief's program points *)

Inductive thief :=
  | TIdle
  | TSteal1
  | TSteal2 (t : Z)
  | TSteal3 (t b : Z)
  | TSteal4 (t p : Z).

Definition thief_exec (q : Runqueue) (s : thief) : outcome (Runqueue * (thief + option Z)) :=
  match s with
  | TIdle => Ret (q, inl TIdle)
  | TSteal1 => Ret (q, inl (TSteal2 (rq_top q)))
  | TSteal2 t => Ret (q, inl (TSteal3 t (rq_bottom q)))
  | TSteal3 t b =>
      if b <=? t then Ret (q, inr None)
      else
        p ← arr_get (rq_buf q) (slot t);
        Ret (q, inl (TSteal4 t p))
  | TSteal4 t p =>
      if rq_top q =? t then
        let q := set_top (wrap64 (t + 1)) q in
        if p =? 0 then Ret (q, inl TSteal1) else Ret (q, inr (Some p))
      else Ret (q, inl TSteal1)
  end.

(** ** Uninterrupted operations *)

Definition run_owner (fuel : nat) (q : Runqueue) (o : owner) : outcome (Runqueue * option Z) :=
  iter fuel (λ '(q, o),
    '(q, r) ← owner_exec q o;
    match r with inl o => Ret (inl (q, o)) | inr x => Ret (inr (q, x)) end) (q, o).

Definition rq_push (q : Runqueue) (p : Z) : outcome Runqueue :=
  '(q, _) ← run_owner 8 q (OPush1 p);
  Ret q.

Definition rq_pop (q : Runqueue) : outcome (Runqueue * option Z) := run_owner 8 q OPop1.

(** Without interference the loop of [steal] repeats only to skip null
    pointers, of which there are at most as many as entries. *)
Definition run_thief (fuel : nat) (q : Runqueue) (s : thief) : outcome (Runqueue * option Z) :=
  iter fuel (λ '(q, s),
    '(q, r) ← thief_exec q s;
    match r with inl s => Ret (inl (q, s)) | inr x => Ret (inr (q, x)) end) (q, s).

Definition rq_steal (q : Runqueue) : outcome (Runqueue * option Z) :=
  run_thief (Z.to_nat (4 * (RQ_CAP + 1))) q TSteal1.

Fixpoint rq_steal_n (q : Runqueue) (n : nat) : outcome (Runqueue * list Z) :=
  match n with
  | O => Ret (q, [])
  | S n =>
      '(q, r) ← rq_steal q;
      match r with
      | None => Ret (q, [])
      | Some p =>
          '(q, l) ← rq_steal_n q n;
          Ret (q, p :: l)
      end
  end.

Definition rq_len (q : Runqueue) : Z := wrap64 (rq_bottom q - rq_top q).

(** ** Interleavings of one owner and any number of thieves

    [sys_pushed] lists the tasks given to [push], [sys_taken] those returned by
    [pop] and [steal]. *)
Record sys := mk_sys {
  sys_rq : Runqueue;
  sys_owner : owner;
  sys_thieves : gmap nat thief;
  sys_pushed : list Z;
  sys_taken : list Z
}.

Definition got (r : option Z) (l : list Z) : list Z := match r with Some p => p :: l | None => l end.

Inductive sys_step : sys → sys → Prop :=
  | begin_push q ths pushed taken p :
      p ≠ 0 →
      sys_step (mk_sys q OIdle ths pushed taken) (mk_sys q (OPush1 p) ths (p :: pushed) taken)
  | begin_pop q ths pushed taken :
      sys_step (mk_sys q OIdle ths pushed taken) (mk_sys q OPop1 ths pushed taken)
  | owner_runs q o ths pushed taken q' o' :
      owner_exec q o = Ret (q', inl o') →
      sys_step (mk_sys q o ths pushed taken) (mk_sys q' o' ths pushed taken)
  | owner_returns q o ths pushed taken q' r :
      owner_exec q o = Ret (q', inr r) →
      sys_step (mk_sys q o ths pushed taken) (mk_sys q' OIdle ths pushed (got r taken))
  | begin_steal q o ths pushed taken i :
      ths !! i = None ∨ ths !! i = Some TIdle →
      sys_step (mk_sys q o ths pushed taken) (mk_sys q o (<[i:=TSteal1]> ths) pushed taken)
  | thief_runs q o ths pushed taken i s q' s' :
      ths !! i = Some s → thief_exec q s = Ret (q', inl s') →
      sys_step (mk_sys q o ths pushed taken) (mk_sys q' o (<[i:=s']> ths) pushed taken)
  | thief_returns q o ths pushed taken i s q' r :
      ths !! i = Some s → thief_exec q s = Ret (q', inr r) →
      sys_step (mk_sys q o ths pushed taken) (mk_sys q' o (<[i:=TIdle]> ths) pushed (got r taken)).

Definition sys_init : sys := mk_sys rq_new OIdle ∅ [] [].
