(* ===== verification/RunqueueSpec.v ===== *)
(** * The run queue: properties

    Under every interleaving of the owner and the thieves the deque hands out
    each task exactly once; each operation takes effect atomically at one of
    its accesses, on the abstract sequence of tasks [content]. *)
From S2P Require Import Prelude Runqueue.

(** ** The abstract sequence *)

Definition elem (q : Runqueue) (i : Z) : Z := default 0 (rq_buf q !! slot i).

(** Tasks below [lim] can be stolen or belong to nobody yet; the owner's
    program point says where it stops. *)
Definition lim (q : Runqueue) (o : owner) : Z :=
  match o with
  | OPop4 b | OPop6 b _ _ | OPop7 b _ _ => b + 1
  | OPop5 b t => if t <? b then b else b + 1
  | _ => rq_bottom q
  end.

Definition content (q : Runqueue) (o : owner) : list Z :=
  elem q <$> seqZ (rq_top q) (lim q o - rq_top q).

(** Tasks in the owner's hands: being pushed, or popped and not yet returned. *)
Definition held (q : Runqueue) (o : owner) : list Z :=
  match o with
  | OPush1 p | OPush2 p _ | OPush3 p _ _ => [p]
  | OPush4 b => [elem q b]
  | OPop5 b t => if t <? b then [elem q b] else []
  | OPop7 _ true p => [p]
  | _ => []
  end.

Definition owner_ok (q : Runqueue) (o : owner) : Prop :=
  match o with
  | OIdle | OPush1 _ | OPop1 => True
  | OPush2 _ b => b = rq_bottom q
  | OPush3 _ b t => b = rq_bottom q ∧ 0 ≤ t ≤ rq_top q
  | OPush4 b => b = rq_bottom q ∧ b - rq_top q < RQ_CAP
  | OPop2 b_orig => b_orig = rq_bottom q
  | OPop3 b => b + 1 = rq_bottom q ∧ 0 ≤ b
  | OPop4 b => rq_bottom q = b ∧ 0 ≤ b
  | OPop5 b t => rq_bottom q = b ∧ 0 ≤ b ∧ 0 ≤ t ≤ rq_top q ∧ (t < b → b - rq_top q < RQ_CAP)
  | OPop6 b t p => rq_bottom q = b ∧ 0 ≤ b ∧ t = b ∧ t ≤ rq_top q ∧ (rq_top q = t → p = elem q b)
  | OPop7 b _ _ => rq_bottom q = b ∧ 0 ≤ b ∧ rq_top q = b + 1
  end.

(** A thief's snapshot is either stale or still designates a task. *)
Definition thief_ok (q : Runqueue) (o : owner) (s : thief) : Prop :=
  match s with
  | TIdle | TSteal1 => True
  | TSteal2 t => 0 ≤ t ≤ rq_top q
  | TSteal3 t b => 0 ≤ t ≤ rq_top q ∧ (t < b → rq_top q = t → t < lim q o)
  | TSteal4 t p => 0 ≤ t ≤ rq_top q ∧ (rq_top q = t → t < lim q o ∧ p = elem q t)
  end.

(** A task being pushed has no index yet. *)
Definition unpublished (o : owner) : Z :=
  match o with OPush1 _ | OPush2 _ _ | OPush3 _ _ _ | OPush4 _ => 1 | _ => 0 end.

Record sys_inv (s : sys) : Prop := {
  sv_len : length (rq_buf (sys_rq s)) = Z.to_nat RQ_CAP;
  sv_top : 0 ≤ rq_top (sys_rq s) ≤ lim (sys_rq s) (sys_owner s);
  sv_cap : lim (sys_rq s) (sys_owner s) - rq_top (sys_rq s) ≤ RQ_CAP;
  sv_max : lim (sys_rq s) (sys_owner s) + unpublished (sys_owner s) ≤ Z.of_nat (length (sys_pushed s));
  sv_owner : owner_ok (sys_rq s) (sys_owner s);
  sv_thieves : map_Forall (λ _, thief_ok (sys_rq s) (sys_owner s)) (sys_thieves s);
  sv_nonnull : Forall (λ p, p ≠ 0) (sys_pushed s);
  sv_conserved : sys_pushed s ≡ₚ
    sys_taken s ++ content (sys_rq s) (sys_owner s) ++ held (sys_rq s) (sys_owner s)
}.

(** ** The sequence under the three kinds of change *)

Lemma slot_lt i : (slot i < Z.to_nat RQ_CAP)%nat.
Proof. unfold slot, RQ_CAP. pose proof (Z.mod_pos_bound i 1024 ltac:(lia)). lia. Qed.

Lemma slot_inj i j : Z.abs (i - j) < RQ_CAP → slot i = slot j → i = j.
Proof.
  unfold slot, RQ_CAP. intros Hij E.
  pose proof (Z.mod_pos_bound i 1024 ltac:(lia)). pose proof (Z.mod_pos_bound j 1024 ltac:(lia)).
  pose proof (Z.div_mod i 1024 ltac:(lia)). pose proof (Z.div_mod j 1024 ltac:(lia)). lia.
Qed.

Lemma elem_store q b p i :
  length (rq_buf q) = Z.to_nat RQ_CAP → Z.abs (i - b) < RQ_CAP →
  elem (set_buf (<[slot b:=p]> (rq_buf q)) q) i = if decide (i = b) then p else elem q i.
Proof.
  intros Hlen Hd. unfold elem. simpl. case_decide as E.
  - subst. rewrite list_lookup_insert_eq; [done|]. rewrite Hlen. apply slot_lt.
  - rewrite list_lookup_insert_ne; [done|]. intros E'%slot_inj; lia.
Qed.

Lemma range_snoc (f : Z → Z) a n : 0 ≤ n → f <$> seqZ a (n + 1) = (f <$> seqZ a n) ++ [f (a + n)].
Proof. intros Hn. by rewrite seqZ_app, fmap_app by lia. Qed.

Lemma range_cons (f : Z → Z) a n : 0 < n → f <$> seqZ a n = f a :: (f <$> seqZ (a + 1) (n - 1)).
Proof. intros Hn. rewrite seqZ_cons by lia. rewrite fmap_cons. by rewrite <-Z.sub_1_r, Z.add_1_r. Qed.

(** Taking the oldest task. *)
Lemma content_take_top q o :
  rq_top q < lim q o → lim (set_top (rq_top q + 1) q) o = lim q o →
  content q o = elem q (rq_top q) :: content (set_top (rq_top q + 1) q) o.
Proof.
  intros Hlt El. unfold content. rewrite El. rewrite range_cons by lia. simpl.
  f_equal. change (elem (set_top (rq_top q + 1) q)) with (elem q). f_equal. f_equal. lia.
Qed.

Lemma content_nonnull s p :
  sys_inv s → p ∈ content (sys_rq s) (sys_owner s) ∨ p ∈ held (sys_rq s) (sys_owner s) → p ≠ 0.
Proof.
  intros Hinv Hp. pose proof (sv_nonnull _ Hinv) as Hn. rewrite Forall_forall in Hn. apply Hn.
  rewrite (sv_conserved _ Hinv), !elem_of_app. tauto.
Qed.

Lemma wrap64_small x : 0 ≤ x ≤ u64_max → wrap64 x = x.
Proof. intros Hx. apply Z.mod_small. unfold u64_max in *. lia. Qed.

(** ** The owner's steps *)

Lemma thief_ok_same q o q' o' s :
  rq_top q' = rq_top q → rq_buf q' = rq_buf q → lim q' o' = lim q o → thief_ok q o s → thief_ok q' o' s.
Proof.
  intros Et Eb El. unfold thief_ok. assert (∀ i, elem q' i = elem q i) as Ee by (intros i; unfold elem; by rewrite Eb).
  destruct s; rewrite ?Et, ?El, ?Ee; done.
Qed.

(** A step that leaves the sequence alone. *)
Lemma sys_inv_move q o q' o' ths pushed taken taken' :
  sys_inv (mk_sys q o ths pushed taken) →
  rq_top q' = rq_top q → rq_buf q' = rq_buf q → lim q' o' = lim q o →
  unpublished o' ≤ unpublished o → owner_ok q' o' →
  taken' ++ held q' o' ≡ₚ taken ++ held q o →
  sys_inv (mk_sys q' o' ths pushed taken').
Proof.
  intros [Hlen Ht Hc Hm Ho Hth Hn Hp] Et Eb El Hu Ho' Hh. simpl in *.
  split; simpl; rewrite ?Et, ?Eb, ?El; try done; [lia| |].
  - intros i s Hs. eapply thief_ok_same; [done..|]. by apply (Hth i s).
  - assert (content q' o' = content q o) as ->.
    { unfold content. rewrite Et, El. apply list_fmap_ext. intros k x _. unfold elem. by rewrite Eb. }
    rewrite Hp. rewrite (Permutation_app_comm (content q o) (held q o)), app_assoc, <-Hh.
    by rewrite <-app_assoc, (Permutation_app_comm (held q' o')).
Qed.

(** Writing the task to be pushed. *)
Lemma sys_inv_store q p b t ths pushed taken :
  sys_inv (mk_sys q (OPush3 p b t) ths pushed taken) → b - t < RQ_CAP →
  sys_inv (mk_sys (set_buf (<[slot b:=p]> (rq_buf q)) q) (OPush4 b) ths pushed taken).
Proof.
  intros [Hlen Ht Hc Hm [Eb Hts] Hth Hn Hp] Hlt. simpl in *.
  assert (∀ i, rq_top q ≤ i < rq_bottom q → elem (set_buf (<[slot b:=p]> (rq_buf q)) q) i = elem q i) as He.
  { intros i Hi. rewrite elem_store by (done || lia). by rewrite decide_False by lia. }
  split; simpl; try done; try lia.
  - by rewrite length_insert.
  - intros i s Hs. specialize (Hth i s Hs). destruct s as [| | |t' b'|t' p']; try done. simpl in *.
    split; [apply Hth|]. intros E. destruct Hth as [_ [Hl ->]]; [done|]. split; [done|]. rewrite He by lia. done.
  - assert (content (set_buf (<[slot b:=p]> (rq_buf q)) q) (OPush4 b) = content q (OPush3 p b t)) as ->.
    { unfold content. simpl. apply list_fmap_ext. intros k x Hx%lookup_seqZ. apply He. lia. }
    rewrite elem_store by (done || lia). by rewrite decide_True.
Qed.

(** Publishing it. *)
Lemma sys_inv_publish q b ths pushed taken :
  sys_inv (mk_sys q (OPush4 b) ths pushed taken) →
  sys_inv (mk_sys (set_bottom (b + 1) q) OIdle ths pushed taken).
Proof.
  intros [Hlen Ht Hc Hm [Eb Hlt] Hth Hn Hp]. simpl in *.
  split; simpl; try done; try lia.
  - intros i s Hs. specialize (Hth i s Hs). destruct s as [| | |t' b'|t' p']; try done; simpl in *.
    + split; [apply Hth|]. intros. destruct Hth as [_ Hl]. specialize (Hl ltac:(done) ltac:(done)). lia.
    + split; [apply Hth|]. intros E. destruct Hth as [_ [Hl ->]]; [done|]. split; [lia|done].
  - rewrite app_nil_r. rewrite Hp. f_equiv. unfold content. simpl.
    replace (b + 1 - rq_top q) with ((rq_bottom q - rq_top q) + 1) by lia. rewrite range_snoc by lia.
    replace (rq_top q + (rq_bottom q - rq_top q)) with b by lia. done.
Qed.

(** Claiming the newest task while older ones remain. *)
Lemma sys_inv_claim q b ths pushed taken :
  sys_inv (mk_sys q (OPop4 b) ths pushed taken) → rq_top q < b →
  sys_inv (mk_sys q (OPop5 b (rq_top q)) ths pushed taken) ∧
  content q (OPop4 b) = content q (OPop5 b (rq_top q)) ++ [elem q b].
Proof.
  intros [Hlen Ht Hc Hm [Eb Hb] Hth Hn Hp] Hlt. simpl in *.
  assert (content q (OPop4 b) = content q (OPop5 b (rq_top q)) ++ [elem q b]) as Hcont.
  { unfold content. simpl. rewrite (proj2 (Z.ltb_lt _ _)) by done.
    replace (b + 1 - rq_top q) with ((b - rq_top q) + 1) by lia. rewrite range_snoc by lia.
    by replace (rq_top q + (b - rq_top q)) with b by lia. }
  split; [|done]. split; simpl; rewrite ?(proj2 (Z.ltb_lt _ _)) by done; try done; try lia.
  - intros i s Hs. specialize (Hth i s Hs). destruct s as [| | |t' b'|t' p']; try done; simpl in *;
      rewrite ?(proj2 (Z.ltb_lt _ _)) by done; (split; [apply Hth|]); intros; [lia|].
    destruct Hth as [_ [_ ->]]; [done|]. split; [lia|done].
  - rewrite Hp, app_nil_r, Hcont. done.
Qed.

(** Advancing the top takes the oldest task. *)
Lemma sys_inv_take_top q o o' ths pushed taken taken' :
  sys_inv (mk_sys q o ths pushed taken) → rq_top q < lim q o →
  lim (set_top (rq_top q + 1) q) o' = lim q o → unpublished o' = unpublished o →
  owner_ok (set_top (rq_top q + 1) q) o' →
  taken' ++ held (set_top (rq_top q + 1) q) o' ≡ₚ elem q (rq_top q) :: taken ++ held q o →
  sys_inv (mk_sys (set_top (rq_top q + 1) q) o' ths pushed taken').
Proof.
  intros [Hlen Ht Hc Hm Ho Hth Hn Hp] Hlt El Eu Ho' Hh. simpl in *.
  split; simpl; rewrite ?El, ?Eu; try done; try lia.
  - intros i s Hs. specialize (Hth i s Hs). destruct s as [| | |t' b'|t' p']; simpl in *; try done; lia.
  - assert (content q o = elem q (rq_top q) :: content (set_top (rq_top q + 1) q) o') as Hcont.
    { unfold content. rewrite El. rewrite range_cons by lia. simpl. f_equal.
      change (elem (set_top (rq_top q + 1) q)) with (elem q). f_equal. f_equal. lia. }
    rewrite Hp, Hcont. set (c := content _ o'). set (h' := held _ o') in *.
    transitivity ((taken' ++ h') ++ c); [|by rewrite <-app_assoc, (Permutation_app_comm h')].
    rewrite Hh. simpl. rewrite <-Permutation_middle. constructor.
    rewrite <-app_assoc. f_equiv. apply Permutation_app_comm.
Qed.

Definition next_owner (r : owner + option Z) : owner := match r with inl o => o | inr _ => OIdle end.
Definition owner_took (r : owner + option Z) (taken : list Z) : list Z :=
  match r with inl _ => taken | inr x => got x taken end.

(** What an access of the owner does to the sequence: nothing, append the task
    being pushed, or remove the newest task, which it then holds. *)
Definition owner_effect (q : Runqueue) (o : owner) (q' : Runqueue) (o' : owner) : Prop :=
  content q' o' = content q o ∨
  (∃ p, held q o = [p] ∧ content q' o' = content q o ++ [p]) ∨
  (∃ p, held q' o' = [p] ∧ content q o = content q' o' ++ [p]).

Lemma content_same q o q' o' :
  rq_top q' = rq_top q → rq_buf q' = rq_buf q → lim q' o' = lim q o → content q' o' = content q o.
Proof.
  intros Et Eb El. unfold content. rewrite Et, El. apply list_fmap_ext. intros k x _. unfold elem. by rewrite Eb.
Qed.

(** A quiet step: [sys_inv_move] with its effect. *)
Lemma owner_quiet q o q' r ths pushed taken :
  sys_inv (mk_sys q o ths pushed taken) →
  rq_top q' = rq_top q → rq_buf q' = rq_buf q → lim q' (next_owner r) = lim q o →
  unpublished (next_owner r) ≤ unpublished o → owner_ok q' (next_owner r) →
  owner_took r taken ++ held q' (next_owner r) ≡ₚ taken ++ held q o →
  sys_inv (mk_sys q' (next_owner r) ths pushed (owner_took r taken)) ∧
  owner_effect q o q' (next_owner r).
Proof. intros. split; [by eapply sys_inv_move|]. left. by apply content_same. Qed.

Definition overflow_panic (o : owner) (e : panic) : Prop :=
  e = PExplicit ∧ ∃ p b t, o = OPush3 p b t ∧ RQ_CAP ≤ b - t.

Section owner.
Context (q : Runqueue) (ths : gmap nat thief) (pushed taken : list Z).
Context (Hmax : Z.of_nat (length pushed) ≤ u64_max).

Definition owner_step_ok (o : owner) : Prop :=
  sys_inv (mk_sys q o ths pushed taken) →
  post (owner_exec q o) (λ '(q', r),
    sys_inv (mk_sys q' (next_owner r) ths pushed (owner_took r taken)) ∧
    owner_effect q o q' (next_owner r)) (overflow_panic o).

Lemma push_store_ok p b t : owner_step_ok (OPush3 p b t).
Proof.
  intros Hinv. pose proof Hinv as [Hlen Ht Hc Hm [Eb Hts] _ _ _]. simpl in *.
  assert (wrap64 (b - t) = b - t) as -> by (apply wrap64_small; lia).
  destruct (Z.leb_spec RQ_CAP (b - t)); [split; [done|]; by exists p, b, t|].
  apply post_wp. apply wp_bind, wp_arr_set; [rewrite Hlen; apply slot_lt|]. apply wp_ret. split.
  - by apply (sys_inv_store q p b t).
  - left. unfold content. simpl. apply list_fmap_ext. intros k x Hx%lookup_seqZ.
    rewrite elem_store by (done || lia). by rewrite decide_False by lia.
Qed.

Lemma push_publish_ok b : owner_step_ok (OPush4 b).
Proof.
  intros Hinv. pose proof Hinv as [Hlen Ht Hc Hm [Eb Hlt] _ _ _]. simpl in *.
  rewrite wrap64_small by lia. split; [by apply sys_inv_publish|]. right. left. exists (elem q b). split; [done|].
  unfold content. simpl. replace (b + 1 - rq_top q) with ((rq_bottom q - rq_top q) + 1) by lia.
  rewrite range_snoc by lia. by replace (rq_top q + (rq_bottom q - rq_top q)) with b by lia.
Qed.

Lemma pop_claim_ok b : owner_step_ok (OPop4 b).
Proof.
  intros Hinv. pose proof Hinv as [Hlen Ht Hc Hm [Eb Hb] _ _ _]. simpl in *.
  destruct (Z_lt_le_dec (rq_top q) b) as [Hlt|Hge].
  - destruct (sys_inv_claim _ _ _ _ _ Hinv Hlt) as [? E]. split; [done|]. right. right.
    exists (elem q b). split; [|done]. simpl. by rewrite (proj2 (Z.ltb_lt _ _)).
  - apply (owner_quiet q (OPop4 b) q (inl (OPop5 b (rq_top q)))); simpl;
      rewrite ?(proj2 (Z.ltb_ge _ _)) by done; try done; try lia.
Qed.

Lemma pop_read_ok b t : owner_step_ok (OPop5 b t).
Proof.
  intros Hinv. pose proof Hinv as [Hlen Ht Hc Hm (Eb & Hb & Hts & Hcap) _ _ _]. simpl in *.
  destruct (Z.leb_spec t b) as [Hle|Hgt].
  - destruct (lookup_lt_is_Some_2 (rq_buf q) (slot b)) as [p Hp]; [rewrite Hlen; apply slot_lt|].
    assert (elem q b = p) as Ep by (unfold elem; by rewrite Hp).
    unfold arr_get. rewrite Hp. simpl. destruct (Z.eqb_spec t b) as [->|Hne].
    + rewrite Z.ltb_irrefl in *.
      apply (owner_quiet q (OPop5 b b) q (inl (OPop6 b b p))); simpl; rewrite ?Z.ltb_irrefl; try done. split_and!; done || lia.
    + assert (t <? b = true) as Hlt by (apply Z.ltb_lt; lia). rewrite Hlt in *.
      assert (p ≠ 0) as Hp0.
      { apply (content_nonnull _ p Hinv). right. simpl. rewrite Hlt, Ep. by left. }
      unfold pop_return, assert. rewrite (proj2 (Z.eqb_neq _ _)) by done. simpl.
      apply (owner_quiet q (OPop5 b t) q (inr (Some p))); simpl; rewrite ?Hlt, ?Ep; try done.
      rewrite app_nil_r. apply Permutation_cons_append.
  - assert (rq_top q = b + 1) as Et.
    { rewrite (proj2 (Z.ltb_ge _ _)) in Ht by lia. lia. }
    rewrite wrap64_small by (rewrite (proj2 (Z.ltb_ge _ _)) in Hm by lia; lia).
    apply (owner_quiet q (OPop5 b t) (set_bottom (b + 1) q) (inr None)); simpl;
      rewrite ?(proj2 (Z.ltb_ge _ _)) by lia; try done.
Qed.

Lemma pop_cas_ok b t p : owner_step_ok (OPop6 b t p).
Proof.
  intros Hinv. pose proof Hinv as [Hlen Ht Hc Hm (Eb & Hb & -> & Htop & Hel) _ _ _]. simpl in *.
  destruct (Z.eqb_spec (rq_top q) b) as [E|Hne].
  - specialize (Hel E). subst p. rewrite <-E in *. rewrite wrap64_small by lia. split.
    + apply (sys_inv_take_top q (OPop6 (rq_top q) (rq_top q) (elem q (rq_top q)))
        (OPop7 (rq_top q) true (elem q (rq_top q))) ths pushed taken); simpl; try done; try lia.
      rewrite app_nil_r. by rewrite <-Permutation_cons_append.
    + right. right. exists (elem q (rq_top q)). split; [done|]. unfold content. simpl.
      replace (rq_top q + 1 - rq_top q) with (0 + 1) by lia. rewrite range_snoc by lia. simpl.
      rewrite Z.add_0_r. by replace (rq_top q + 1 - (rq_top q + 1)) with 0 by lia.
  - apply (owner_quiet q (OPop6 b b p) q (inl (OPop7 b false p))); simpl; try done. lia.
Qed.

Lemma pop_restore_ok b won p : owner_step_ok (OPop7 b won p).
Proof.
  intros Hinv. pose proof Hinv as [Hlen Ht Hc Hm (Eb & Hb & Htop) _ _ _]. simpl in *.
  rewrite wrap64_small by lia. destruct won.
  - assert (p ≠ 0) as Hp0 by (apply (content_nonnull _ p Hinv); right; simpl; by left).
    unfold pop_return, assert. rewrite (proj2 (Z.eqb_neq _ _)) by done. simpl.
    apply (owner_quiet q (OPop7 b true p) (set_bottom (b + 1) q) (inr (Some p))); simpl; try done.
    rewrite app_nil_r. apply Permutation_cons_append.
  - by apply (owner_quiet q (OPop7 b false p) (set_bottom (b + 1) q) (inr None)).
Qed.

Lemma owner_exec_ok o : owner_step_ok o.
Proof.
  destruct o as [|p|p b|p b t|b| |b_orig|b|b|b t|b t p|b won p];
    [..|apply pop_claim_ok|apply pop_read_ok|apply pop_cas_ok|apply pop_restore_ok];
    try (apply push_store_ok || apply push_publish_ok).
  - intros Hinv. by apply (owner_quiet q OIdle q (inl OIdle)).
  - intros Hinv. by apply (owner_quiet q (OPush1 p) q (inl (OPush2 p (rq_bottom q)))).
  - intros Hinv. pose proof Hinv as [_ Ht _ _ Eb _ _ _]. simpl in *.
    apply (owner_quiet q (OPush2 p b) q (inl (OPush3 p b (rq_top q)))); try done. split; [done|]. lia.
  - intros Hinv. by apply (owner_quiet q OPop1 q (inl (OPop2 (rq_bottom q)))).
  - intros Hinv. pose proof Hinv as [_ Ht _ Hm Eb _ _ _]. simpl in *. subst b_orig.
    destruct (Z.eqb_spec (rq_bottom q) (rq_top q)) as [E|Hne].
    + by apply (owner_quiet q (OPop2 (rq_bottom q)) q (inr None)).
    + rewrite wrap64_small by lia.
      apply (owner_quiet q (OPop2 (rq_bottom q)) q (inl (OPop3 (rq_bottom q - 1)))); try done. simpl. lia.
  - intros Hinv. pose proof Hinv as [_ Ht _ Hm [Eb Hb] _ _ _]. simpl in *.
    by apply (owner_quiet q (OPop3 b) (set_bottom b q) (inl (OPop4 b))).
Qed.
End owner.

(** ** The thieves' steps *)

Definition next_thief (r : thief + option Z) : thief := match r with inl s => s | inr _ => TIdle end.
Definition thief_took (r : thief + option Z) (taken : list Z) : list Z :=
  match r with inl _ => taken | inr x => got x taken end.

(** What an access of a thief does to the sequence: nothing, or remove the
    oldest task, which it returns at once. *)
Definition thief_effect (q q' : Runqueue) (o : owner) (r : thief + option Z) : Prop :=
  match r with
  | inr (Some p) => content q o = p :: content q' o
  | _ => content q' o = content q o
  end.

Lemma sys_inv_thief q o ths pushed taken i s :
  sys_inv (mk_sys q o ths pushed taken) → thief_ok q o s →
  sys_inv (mk_sys q o (<[i:=s]> ths) pushed taken).
Proof.
  intros [Hlen Ht Hc Hm Ho Hth Hn Hp] Hs. simpl in *. split; simpl; try done.
  by apply map_Forall_insert_2.
Qed.

Lemma owner_ok_top q o :
  owner_ok q o → 0 ≤ rq_top q < lim q o → owner_ok (set_top (rq_top q + 1) q) o.
Proof. destruct o as [| | | | | | | | |b t| |]; simpl; try lia; try tauto. Qed.

Lemma lim_top t q o : lim (set_top t q) o = lim q o.
Proof. by destruct o. Qed.

Lemma held_top t q o : held (set_top t q) o = held q o.
Proof. by destruct o. Qed.

Lemma thief_exec_ok q o ths pushed taken i s :
  Z.of_nat (length pushed) ≤ u64_max →
  sys_inv (mk_sys q o ths pushed taken) → ths !! i = Some s →
  wp (thief_exec q s) (λ '(q', r),
    sys_inv (mk_sys q' o (<[i:=next_thief r]> ths) pushed (thief_took r taken)) ∧ thief_effect q q' o r).
Proof.
  intros Hmax Hinv Hs. pose proof Hinv as [Hlen Ht Hc Hm Ho Hth Hn Hp]. simpl in *.
  pose proof (Hth i s Hs) as Hok. destruct s as [| |t|t b|t p]; simpl in *.
  - apply wp_ret. split; [by apply sys_inv_thief|done].
  - apply wp_ret. split; [|done]. apply sys_inv_thief; [done|]. simpl. lia.
  - apply wp_ret. split; [|done]. apply sys_inv_thief; [done|]. simpl. split; [done|]. intros Hlt E.
    destruct o as [| | | | | | | |b|b t'|b t' p|b won p]; simpl in *; try lia. case_match; lia.
  - destruct Hok as [Htt Hl]. destruct (Z.leb_spec b t).
    { apply wp_ret. split; [by apply sys_inv_thief|done]. }
    destruct (lookup_lt_is_Some_2 (rq_buf q) (slot t)) as [p Hpt]; [rewrite Hlen; apply slot_lt|].
    apply wp_bind. eapply wp_arr_get; [done|]. apply wp_ret. split; [|done].
    apply sys_inv_thief; [done|]. simpl. split; [done|]. intros E. split; [by apply Hl|].
    unfold elem. by rewrite Hpt.
  - destruct Hok as [Htt Hl]. destruct (Z.eqb_spec (rq_top q) t) as [E|Hne].
    2:{ apply wp_ret. split; [by apply sys_inv_thief|done]. }
    destruct (Hl E) as [Hlt ->]. subst t. rewrite wrap64_small by (destruct o; simpl in *; lia).
    assert (content q o = elem q (rq_top q) :: content (set_top (rq_top q + 1) q) o) as Hcont.
    { apply content_take_top; [done|apply lim_top]. }
    assert (elem q (rq_top q) ≠ 0) as Hp0.
    { apply (content_nonnull _ _ Hinv). left. simpl. rewrite Hcont. by left. }
    rewrite (proj2 (Z.eqb_neq _ _)) by done. apply wp_ret. split; [|done].
    apply sys_inv_thief; [|done]. apply (sys_inv_take_top q o o ths pushed taken); simpl; try done.
    + apply owner_ok_top; [done|lia].
Qed.

(** ** Reachable states *)

Lemma sys_init_inv : sys_inv sys_init.
Proof.
  split; unfold sys_init, rq_new;
    cbn [sys_rq sys_owner sys_thieves sys_pushed sys_taken rq_top rq_bottom rq_buf lim unpublished owner_ok].
  - apply length_replicate.
  - lia.
  - unfold RQ_CAP. lia.
  - simpl. lia.
  - done.
  - apply map_Forall_empty.
  - by apply Forall_nil.
  - done.
Qed.

Lemma sys_step_inv s s' :
  sys_step s s' → Z.of_nat (length (sys_pushed s')) ≤ u64_max → sys_inv s → sys_inv s'.
Proof.
  intros Hstep Hmax Hinv. destruct Hstep as [q ths pushed taken p Hp|q ths pushed taken
    |q o ths pushed taken q' o' E|q o ths pushed taken q' r E|q o ths pushed taken i Hi
    |q o ths pushed taken i s q' s' Hs E|q o ths pushed taken i s q' r Hs E]; simpl in Hmax.
  - destruct Hinv as [Hlen Ht Hc Hm Ho Hth Hn Hcons]. simpl in *. split; simpl; try done; try lia.
    + by constructor.
    + rewrite Hcons. rewrite app_nil_r. change (content q (OPush1 p)) with (content q OIdle).
      by rewrite app_assoc, <-Permutation_cons_append.
  - by apply (sys_inv_move q OIdle q OPop1 ths pushed taken taken).
  - pose proof (owner_exec_ok q ths pushed taken Hmax o Hinv) as Hw. rewrite E in Hw. apply Hw.
  - pose proof (owner_exec_ok q ths pushed taken Hmax o Hinv) as Hw. rewrite E in Hw. apply Hw.
  - by apply sys_inv_thief.
  - pose proof (thief_exec_ok q o ths pushed taken i s Hmax Hinv Hs) as Hw. rewrite E in Hw. apply Hw.
  - pose proof (thief_exec_ok q o ths pushed taken i s Hmax Hinv Hs) as Hw. rewrite E in Hw. apply Hw.
Qed.

Lemma sys_step_pushed s s' : sys_step s s' → (length (sys_pushed s) ≤ length (sys_pushed s'))%nat.
Proof. intros []; simpl; lia. Qed.

Lemma sys_reachable s :
  rtc sys_step sys_init s → Z.of_nat (length (sys_pushed s)) ≤ u64_max → sys_inv s.
Proof.
  intros Hsteps.
  refine (rtc_ind_r (λ s, Z.of_nat (length (sys_pushed s)) ≤ u64_max → sys_inv s)
            sys_init (λ _, sys_init_inv) _ s Hsteps).
  intros s1 s2 _ Hstep IH Hmax. pose proof (sys_step_pushed _ _ Hstep).
  eapply sys_step_inv; [done|done|]. apply IH. lia.
Qed.

(** C3: under every interleaving of pushes and pops by the owning CPU with any
    number of concurrent steals, no task is lost or handed out twice: the tasks
    pushed are exactly those handed out, those in the queue and the one in the
    owner's hands.  No thief ever panics, and the owner panics only when a push
    finds 1024 entries. *)
Theorem runqueue_no_loss s :
  rtc sys_step sys_init s → Z.of_nat (length (sys_pushed s)) ≤ u64_max →
  sys_pushed s ≡ₚ sys_taken s ++ content (sys_rq s) (sys_owner s) ++ held (sys_rq s) (sys_owner s) ∧
  post (owner_exec (sys_rq s) (sys_owner s)) (λ _, True) (overflow_panic (sys_owner s)) ∧
  ∀ i th, sys_thieves s !! i = Some th → wp (thief_exec (sys_rq s) th) (λ _, True).
Proof.
  intros Hsteps Hmax. pose proof (sys_reachable s Hsteps Hmax) as Hinv.
  destruct s as [q o ths pushed taken]. simpl in *. split; [apply Hinv|]. split.
  - pose proof (owner_exec_ok q ths pushed taken Hmax o Hinv) as Hw. by destruct (owner_exec q o).
  - intros i th Hi. eapply wp_mono; [by apply (thief_exec_ok q o ths pushed taken i th)|done].
Qed.

(** The lock-free deque refines a sequence of tasks on which every
    operation acts atomically: in any reachable state one access of the owner
    leaves the sequence alone, appends the task being pushed, or removes the
    newest task, which the owner then holds; one access of a thief leaves it
    alone or removes the oldest task, which it returns. *)
Theorem runqueue_refines_sequence s :
  rtc sys_step sys_init s → Z.of_nat (length (sys_pushed s)) ≤ u64_max →
  (∀ q' r, owner_exec (sys_rq s) (sys_owner s) = Ret (q', r) →
     owner_effect (sys_rq s) (sys_owner s) q' (next_owner r)) ∧
  (∀ i th q' r, sys_thieves s !! i = Some th → thief_exec (sys_rq s) th = Ret (q', r) →
     thief_effect (sys_rq s) q' (sys_owner s) r).
Proof.
  intros Hsteps Hmax. pose proof (sys_reachable s Hsteps Hmax) as Hinv.
  destruct s as [q o ths pushed taken]. simpl in *. split.
  - intros q' r E. pose proof (owner_exec_ok q ths pushed taken Hmax o Hinv) as Hw. rewrite E in Hw. apply Hw.
  - intros i th q' r Hi E. pose proof (thief_exec_ok q o ths pushed taken i th Hmax Hinv Hi) as Hw.
    rewrite E in Hw. apply Hw.
Qed.

(** ** A run to apply the theorems to: one task pushed, then a pop and a steal begun *)

Definition sample_rq : Runqueue := mk_rq 0 1 (<[0%nat:=7]> (replicate (Z.to_nat RQ_CAP) 0)).
Definition sample_sys : sys := mk_sys sample_rq OPop1 {[1%nat := TSteal1]} [7] [].

Lemma sample_reachable : rtc sys_step sys_init sample_sys.
Proof.
  eapply rtc_l; [by apply (begin_push _ _ _ _ 7)|].
  eapply rtc_l; [apply owner_runs; reflexivity|].
  eapply rtc_l; [apply owner_runs; reflexivity|].
  eapply rtc_l; [apply owner_runs; vm_compute; reflexivity|].
  eapply rtc_l; [apply owner_returns; reflexivity|].
  eapply rtc_l; [apply begin_pop|].
  eapply rtc_l; [by apply (begin_steal _ _ _ _ _ 1); left|].
  reflexivity.
Qed.

Lemma runqueue_no_loss_witness :
  [7] ≡ₚ [] ++ content sample_rq OPop1 ++ held sample_rq OPop1 ∧ content sample_rq OPop1 = [7].
Proof.
  split; [|reflexivity].
  refine (proj1 (runqueue_no_loss sample_sys sample_reachable _)). cbn. unfold u64_max. lia.
Defined.

(** ** Uninterrupted operations on the sequence *)

Record rq_seq (q : Runqueue) (l : list Z) : Prop := {
  rs_len : length (rq_buf q) = Z.to_nat RQ_CAP;
  rs_top : 0 ≤ rq_top q ≤ rq_bottom q;
  rs_cap : rq_bottom q - rq_top q ≤ RQ_CAP;
  rs_max : rq_bottom q ≤ u64_max;
  rs_content : content q OIdle = l;
  rs_nonnull : Forall (λ p, p ≠ 0) l
}.

Lemma rq_seq_length q l : rq_seq q l → rq_bottom q - rq_top q = Z.of_nat (length l).
Proof.
  intros [_ Ht _ _ Hc _]. subst l. unfold content. simpl. rewrite length_fmap, length_seqZ. lia.
Qed.

Lemma rq_new_seq : rq_seq rq_new [].
Proof.
  split; unfold rq_new, RQ_CAP, u64_max; cbn [rq_top rq_bottom rq_buf]; try lia; try done.
Qed.

Lemma rq_len_spec q l : rq_seq q l → rq_len q = Z.of_nat (length l).
Proof.
  intros Hs. unfold rq_len. rewrite (rq_seq_length _ _ Hs). pose proof (rq_seq_length _ _ Hs).
  destruct Hs as [_ ? ? ? _ _]. unfold RQ_CAP, u64_max in *. apply Z.mod_small. lia.
Qed.

Lemma run_owner_step n q o q' o' :
  owner_exec q o = Ret (q', inl o') → run_owner (S n) q o = run_owner n q' o'.
Proof. intros E. unfold run_owner. simpl. by rewrite E. Qed.

Lemma run_owner_return n q o q' r :
  owner_exec q o = Ret (q', inr r) → run_owner (S n) q o = Ret (q', r).
Proof. intros E. unfold run_owner. simpl. by rewrite E. Qed.

Lemma run_thief_step n q s q' s' :
  thief_exec q s = Ret (q', inl s') → run_thief (S n) q s = run_thief n q' s'.
Proof. intros E. unfold run_thief. simpl. by rewrite E. Qed.

Lemma run_thief_return n q s q' r :
  thief_exec q s = Ret (q', inr r) → run_thief (S n) q s = Ret (q', r).
Proof. intros E. unfold run_thief. simpl. by rewrite E. Qed.

Lemma arr_get_elem q i : length (rq_buf q) = Z.to_nat RQ_CAP → arr_get (rq_buf q) (slot i) = Ret (elem q i).
Proof.
  intros Hlen. destruct (lookup_lt_is_Some_2 (rq_buf q) (slot i)) as [p Hp]; [rewrite Hlen; apply slot_lt|].
  unfold arr_get, elem. by rewrite Hp.
Qed.

Lemma arr_set_slot q i p :
  length (rq_buf q) = Z.to_nat RQ_CAP → arr_set (rq_buf q) (slot i) p = Ret (<[slot i:=p]> (rq_buf q)).
Proof.
  intros Hlen. destruct (lookup_lt_is_Some_2 (rq_buf q) (slot i)) as [x Hx]; [rewrite Hlen; apply slot_lt|].
  unfold arr_set. by rewrite Hx.
Qed.

Lemma content_seq_snoc q n :
  rq_top q ≤ n → n + 1 = rq_bottom q →
  content q OIdle = content (set_bottom n q) OIdle ++ [elem q n].
Proof.
  intros Hn E. unfold content. simpl. replace (rq_bottom q - rq_top q) with (n - rq_top q + 1) by lia.
  rewrite range_snoc by lia. do 3 f_equal. lia.
Qed.

(** Pushing appends; a full queue panics. *)
Lemma rq_push_seq q l p :
  rq_seq q l → p ≠ 0 → (length l < Z.to_nat RQ_CAP)%nat → rq_bottom q < u64_max →
  wp (rq_push q p) (λ q', rq_seq q' (l ++ [p]) ∧ rq_bottom q' = rq_bottom q + 1).
Proof.
  intros Hs Hp Hl Hb. pose proof (rq_seq_length _ _ Hs) as Hlen. destruct Hs as [Hbuf Ht Hc Hm Hcont Hn].
  assert (wrap64 (rq_bottom q - rq_top q) = rq_bottom q - rq_top q) as Ew.
  { apply wrap64_small. lia. }
  unfold rq_push. erewrite run_owner_step by reflexivity. erewrite run_owner_step by reflexivity.
  erewrite run_owner_step.
  2:{ cbn [owner_exec]. rewrite Ew. destruct (Z.leb_spec RQ_CAP (rq_bottom q - rq_top q)); [lia|].
      rewrite arr_set_slot by done. reflexivity. }
  erewrite run_owner_return by reflexivity. rewrite wrap64_small by lia.
  simpl. split; [|done]. split; simpl; try done; try lia.
  - by rewrite length_insert.
  - rewrite (content_seq_snoc _ (rq_bottom q)); simpl; try lia. f_equal.
    + subst l. apply list_fmap_ext. simpl. intros k i [-> Hk]%lookup_seqZ.
      unfold elem. simpl. rewrite list_lookup_insert_ne; [done|]. intros E%slot_inj; lia.
    + f_equal. unfold elem. simpl. rewrite list_lookup_insert_eq; [done|]. rewrite Hbuf. apply slot_lt.
  - apply Forall_app. split; [done|]. by constructor.
Qed.

Lemma rq_push_full q l p :
  rq_seq q l → length l = Z.to_nat RQ_CAP → rq_push q p = Panic PExplicit.
Proof.
  intros Hs Hl. pose proof (rq_seq_length _ _ Hs) as Hlen. destruct Hs as [Hbuf Ht Hc Hm Hcont Hn].
  unfold rq_push. erewrite run_owner_step by reflexivity. erewrite run_owner_step by reflexivity.
  unfold run_owner. cbn [iter owner_exec]. rewrite wrap64_small by lia.
  destruct (Z.leb_spec RQ_CAP (rq_bottom q - rq_top q)); [done|]. unfold RQ_CAP in *. lia.
Qed.

(** Popping takes the newest task. *)
Lemma rq_pop_nil q : rq_seq q [] → rq_pop q = Ret (q, None).
Proof.
  intros Hs. pose proof (rq_seq_length _ _ Hs) as Hlen. simpl in Hlen.
  unfold rq_pop. erewrite run_owner_step by reflexivity. erewrite run_owner_return; [done|].
  cbn [owner_exec]. by rewrite (proj2 (Z.eqb_eq _ _)) by lia.
Qed.

Lemma rq_pop_seq q l p :
  rq_seq q (l ++ [p]) →
  wp (rq_pop q) (λ '(q', r), r = Some p ∧ rq_seq q' l ∧ rq_bottom q' ≤ rq_bottom q).
Proof.
  intros Hs. pose proof (rq_seq_length _ _ Hs) as Hlen. rewrite length_app in Hlen. simpl in Hlen.
  destruct Hs as [Hbuf Ht Hc Hm Hcont Hn]. apply Forall_app in Hn as [Hn [Hp _]%Forall_cons].
  set (b := rq_bottom q - 1). rewrite (content_seq_snoc q b) in Hcont by lia.
  apply app_inj_tail in Hcont as [Hcont Ep].
  assert (∀ q', rq_buf q' = rq_buf q → arr_get (rq_buf q') (slot b) = Ret p) as Eg.
  { intros q' ->. by rewrite arr_get_elem, Ep by done. }
  unfold rq_pop. erewrite run_owner_step by reflexivity.
  erewrite run_owner_step. 2:{ cbn [owner_exec]. rewrite (proj2 (Z.eqb_neq _ _)) by lia. reflexivity. }
  rewrite wrap64_small by lia. fold b.
  erewrite run_owner_step by reflexivity. erewrite run_owner_step by reflexivity.
  destruct (Z.eqb_spec (rq_top q) b) as [E|E].
  - erewrite run_owner_step.
    2:{ cbn [owner_exec]. simpl rq_top. rewrite (proj2 (Z.leb_le _ _)) by lia. rewrite Eg by done.
        cbn [mbind outcome_bind]. rewrite (proj2 (Z.eqb_eq _ _)) by done. reflexivity. }
    erewrite run_owner_step. 2:{ cbn [owner_exec]. simpl. rewrite Z.eqb_refl. reflexivity. }
    erewrite run_owner_return.
    2:{ cbn [owner_exec]. unfold pop_return. rewrite (proj2 (Z.eqb_neq p 0)) by done. reflexivity. }
    subst b. rewrite E, !wrap64_small by lia. simpl. split; [done|]. split; [|simpl; lia]. split; simpl; try done; try lia.
    unfold content in *. simpl in *. rewrite <-Hcont. by rewrite !seqZ_nil by lia.
  - erewrite run_owner_return.
    2:{ cbn [owner_exec]. simpl rq_top. rewrite (proj2 (Z.leb_le _ _)) by lia. rewrite Eg by done.
        cbn [mbind outcome_bind]. rewrite (proj2 (Z.eqb_neq _ _)) by done.
        unfold pop_return. rewrite (proj2 (Z.eqb_neq p 0)) by done. reflexivity. }
    simpl. split; [done|]. split; [|simpl; lia]. split; simpl; try done; lia.
Qed.

(** Stealing takes the oldest task. *)
Lemma rq_steal_nil q : rq_seq q [] → rq_steal q = Ret (q, None).
Proof.
  intros Hs. pose proof (rq_seq_length _ _ Hs) as Hlen. simpl in Hlen. unfold rq_steal.
  change (Z.to_nat (4 * (RQ_CAP + 1))) with (S (S (S (Z.to_nat 4097)))).
  erewrite run_thief_step by reflexivity. erewrite run_thief_step by reflexivity.
  erewrite run_thief_return; [done|]. cbn [thief_exec]. by rewrite (proj2 (Z.leb_le _ _)) by lia.
Qed.

Lemma rq_steal_seq q l p :
  rq_seq q (p :: l) →
  wp (rq_steal q) (λ '(q', r), r = Some p ∧ rq_seq q' l ∧ rq_bottom q' = rq_bottom q).
Proof.
  intros Hs. pose proof (rq_seq_length _ _ Hs) as Hlen. simpl in Hlen.
  destruct Hs as [Hbuf Ht Hc Hm Hcont Hn]. apply Forall_cons in Hn as [Hp Hn].
  rewrite content_take_top in Hcont; [|simpl; lia|done]. injection Hcont as Ep Hcont.
  unfold rq_steal. change (Z.to_nat (4 * (RQ_CAP + 1))) with (S (S (S (S (Z.to_nat 4096))))).
  erewrite run_thief_step by reflexivity. erewrite run_thief_step by reflexivity.
  erewrite run_thief_step.
  2:{ cbn [thief_exec]. rewrite (proj2 (Z.leb_gt _ _)) by lia. rewrite arr_get_elem, Ep by done. reflexivity. }
  erewrite run_thief_return.
  2:{ cbn [thief_exec]. rewrite Z.eqb_refl, (proj2 (Z.eqb_neq p 0)) by done. reflexivity. }
  rewrite wrap64_small by lia. simpl. split; [done|]. split; [|done]. split; simpl; try done; lia.
Qed.

(** ** Any sequence of uninterrupted operations

    [rq_do] runs an operation of the queue, [deque_do] the same operation on a
    list, oldest task first; both return the tasks handed out, or the length.
    [None] is the panic of a push to a full queue. *)

Inductive rq_op := RPush (p : Z) | RPop | RSteal | RStealN (n : nat) | RLen.

Definition rq_do (q : Runqueue) (op : rq_op) : outcome (Runqueue * list Z) :=
  match op with
  | RPush p => q ← rq_push q p; Ret (q, [])
  | RPop => '(q, r) ← rq_pop q; Ret (q, option_list r)
  | RSteal => '(q, r) ← rq_steal q; Ret (q, option_list r)
  | RStealN n => rq_steal_n q n
  | RLen => Ret (q, [rq_len q])
  end.

Definition deque_do (l : list Z) (op : rq_op) : option (list Z * list Z) :=
  match op with
  | RPush p => if decide (length l < Z.to_nat RQ_CAP)%nat then Some (l ++ [p], []) else None
  | RPop => Some (take (pred (length l)) l, option_list (last l))
  | RSteal => Some (drop 1 l, take 1 l)
  | RStealN n => Some (drop n l, take n l)
  | RLen => Some (l, [Z.of_nat (length l)])
  end.

Fixpoint rq_run (q : Runqueue) (ops : list rq_op) : outcome (Runqueue * list (list Z)) :=
  match ops with
  | [] => Ret (q, [])
  | op :: ops =>
      '(q, r) ← rq_do q op;
      '(q, rs) ← rq_run q ops;
      Ret (q, r :: rs)
  end.

Fixpoint deque_run (l : list Z) (ops : list rq_op) : option (list Z * list (list Z)) :=
  match ops with
  | [] => Some (l, [])
  | op :: ops =>
      '(l, r) ← deque_do l op;
      '(l, rs) ← deque_run l ops;
      Some (l, r :: rs)
  end.

(** Tasks are not null. *)
Definition rq_op_ok (op : rq_op) : Prop := match op with RPush p => p ≠ 0 | _ => True end.

Lemma rq_steal_any q l :
  rq_seq q l → ∃ q', rq_steal q = Ret (q', head l) ∧ rq_seq q' (drop 1 l) ∧ rq_bottom q' = rq_bottom q.
Proof.
  intros Hs. destruct l as [|p l]; [exists q; by rewrite rq_steal_nil|].
  destruct (wp_elim _ _ (rq_steal_seq q l p Hs)) as ([q' r] & E & -> & Hs' & Hb). by exists q'.
Qed.

Lemma rq_steal_n_seq n q l :
  rq_seq q l → ∃ q', rq_steal_n q n = Ret (q', take n l) ∧ rq_seq q' (drop n l) ∧ rq_bottom q' = rq_bottom q.
Proof.
  revert q l. induction n as [|n IH]; intros q l Hs; [by exists q|]. cbn [rq_steal_n].
  destruct (rq_steal_any q l Hs) as (q1 & -> & Hs1 & Hb1). cbn [mbind outcome_bind].
  destruct l as [|p l]; [by exists q1|]. cbn [head drop] in *.
  destruct (IH q1 l Hs1) as (q2 & -> & Hs2 & Hb2). exists q2. split; [done|]. split; [done|congruence].
Qed.

Lemma rq_pop_any q l :
  rq_seq q l → ∃ q', rq_pop q = Ret (q', last l) ∧ rq_seq q' (take (pred (length l)) l) ∧ rq_bottom q' ≤ rq_bottom q.
Proof.
  intros Hs. destruct l as [|p l _] using rev_ind; [exists q; by rewrite rq_pop_nil|].
  destruct (wp_elim _ _ (rq_pop_seq q l p Hs)) as ([q' r] & E & -> & Hs' & Hb). exists q'.
  rewrite last_snoc, length_app, Nat.add_1_r. cbn [pred]. by rewrite take_app_length.
Qed.

(** One operation; [bottom] grows by at most one. *)
Lemma rq_do_seq q l op :
  rq_seq q l → rq_op_ok op → rq_bottom q < u64_max →
  match deque_do l op with
  | Some (l', r) => ∃ q', rq_do q op = Ret (q', r) ∧ rq_seq q' l' ∧ rq_bottom q' ≤ rq_bottom q + 1
  | None => rq_do q op = Panic PExplicit
  end.
Proof.
  intros Hs Hop Hb. destruct op as [p| | |n|]; cbn [deque_do rq_do].
  - case_decide as Hl.
    + destruct (wp_elim _ _ (rq_push_seq q l p Hs Hop Hl Hb)) as (q' & -> & Hs' & Hb'). exists q'. split; [done|]. split; [done|lia].
    + rewrite (rq_push_full q l p Hs); [done|]. pose proof (rq_seq_length _ _ Hs). destruct Hs as [_ _ Hc _ _ _]. unfold RQ_CAP in *. lia.
  - destruct (rq_pop_any q l Hs) as (q' & -> & Hs' & Hb'). exists q'. split; [done|]. split; [done|lia].
  - destruct (rq_steal_any q l Hs) as (q' & -> & Hs' & Hb'). exists q'. split; [by destruct l|]. split; [done|lia].
  - destruct (rq_steal_n_seq n q l Hs) as (q' & -> & Hs' & Hb'). exists q'. split; [done|]. split; [done|lia].
  - exists q. rewrite (rq_len_spec q l Hs). split; [done|]. split; [done|lia].
Qed.

(** C37: without interference the run queue is a double-ended queue of at most
    1024 tasks.  Any sequence of pushes, pops, steals and queries of the length
    on a new queue returns exactly what the list returns: a pop the newest task,
    a steal the oldest, a steal of several the oldest ones in order, nothing when
    it is empty; the queue then holds the list's tasks.  It panics exactly when a
    task is pushed to a full queue. *)
Theorem runqueue_is_deque ops :
  Forall rq_op_ok ops → Z.of_nat (length ops) ≤ u64_max →
  match deque_run [] ops with
  | Some (l, rs) => ∃ q, rq_run rq_new ops = Ret (q, rs) ∧ content q OIdle = l
  | None => rq_run rq_new ops = Panic PExplicit
  end.
Proof.
  intros Hok Hlen. assert (∀ q l, rq_seq q l → rq_bottom q + Z.of_nat (length ops) ≤ u64_max →
    match deque_run l ops with
    | Some (l', rs) => ∃ q', rq_run q ops = Ret (q', rs) ∧ content q' OIdle = l'
    | None => rq_run q ops = Panic PExplicit
    end) as H; [|by apply (H rq_new []); [apply rq_new_seq|]].
  clear Hlen. induction Hok as [|op ops Hop Hok IH]; intros q l Hs Hb; cbn [deque_run rq_run length] in *.
  - exists q. split; [done|apply Hs].
  - pose proof (rq_do_seq q l op Hs Hop ltac:(lia)) as Hd. destruct (deque_do l op) as [[l1 r]|]; [|by rewrite Hd].
    destruct Hd as (q1 & -> & Hs1 & Hb1). cbn [mbind option_bind outcome_bind]. specialize (IH q1 l1 Hs1 ltac:(lia)).
    destruct (deque_run l1 ops) as [[l2 rs]|]; [|by rewrite IH]. destruct IH as (q2 & -> & Hc). by exists q2.
Qed.

(** Three tasks pushed, one popped, one stolen, the length, and the rest. *)
Lemma runqueue_is_deque_witness :
  ∃ q, rq_run rq_new [RPush 7; RPush 8; RPush 9; RPop; RSteal; RLen; RStealN 5; RPop] =
         Ret (q, [[]; []; []; [9]; [7]; [1]; [8]; []]) ∧ content q OIdle = [].
Proof.
  refine (runqueue_is_deque [RPush 7; RPush 8; RPush 9; RPop; RSteal; RLen; RStealN 5; RPop] _ _).
  - repeat (apply Forall_cons_2; [done|]). apply Forall_nil_2.
  - done.
Defined.
