(* ===== verification/Sched.v ===== *)
(** * Tasks and the scheduler

    Models kernel/src/arch/amd64/scheduler/task.rs, task_storage.rs, mod.rs
    and [ExecCpu] of cpu_local.rs.  An [Arc<Task>] is a pointer into a heap of
    tasks; the task table, the global queue, the per-CPU run queues and the
    current-task fields hold such pointers.  Every operation is executed by
    the CPU [me] and is one atomic step: interrupts are disabled while they
    run, and the interference of other CPUs with a run queue is the subject of
    RunqueueSpec.v. *)
From stdpp Require Import sorting.
From S2P Require Import Prelude Misc Memblock Frame Sparsemem Zones Paging AddrSpace KernelStacks.
From S2P Require Import Objects Runqueue.
#[local] Open Scope Z_scope.

(** Entries of the task table are visited by increasing id. *)
Definition id_le (x y : Z * Z) : Prop := x.1 ≤ y.1.
#[global] Instance id_le_dec x y : Decision (id_le x y).
Proof. unfold id_le. apply _. Defined.

(** ** Tasks *)

Module TaskState.
Inductive t := Running | Ready | Exiting | Sleep.
#[global] Instance eq_dec : EqDecision t.
Proof. solve_decision. Defined.
End TaskState.

Record TaskRegisters := mk_regs {
  r15 : Z; r14 : Z; r13 : Z; r12 : Z; rbp : Z; rbx : Z;
  r11 : Z; r10 : Z; r9 : Z; r8 : Z; rax : Z; rcx : Z; rdx : Z; rsi : Z; rdi : Z;
  syscall_number_or_irq_or_error_code : Z;
  rip : Z; cs : Z; rflags : Z; rsp : Z; ss : Z
}.

(** [TaskRegisters::default()]. *)
Definition regs_default : TaskRegisters :=
  mk_regs 0 0 0 0 0 0 0 0 0 0 0 0 0 0 0 0 0 0 0 0 0.

Definition with_rsp (v : Z) (r : TaskRegisters) : TaskRegisters :=
  mk_regs (r15 r) (r14 r) (r13 r) (r12 r) (rbp r) (rbx r) (r11 r) (r10 r) (r9 r) (r8 r) (rax r)
    (rcx r) (rdx r) (rsi r) (rdi r) (syscall_number_or_irq_or_error_code r) (rip r) (cs r) (rflags r) v (ss r).

Section sched.
Context {PT : Type} `{!X86_64 PT}.

Record Task := mk_task {
  t_id : Z;
  t_registers : TaskRegisters;
  wake_at_tick : Z;
  addr_space : AddrSpace PT;
  kernel_stack : KernelStack;
  cnode : CNode;
  task_state : TaskState.t
}.

Definition with_state (s : TaskState.t) (t : Task) : Task :=
  mk_task (t_id t) (t_registers t) (wake_at_tick t) (addr_space t) (kernel_stack t) (cnode t) s.
Definition with_wake (w : Z) (t : Task) : Task :=
  mk_task (t_id t) (t_registers t) w (addr_space t) (kernel_stack t) (cnode t) (task_state t).
Definition with_saved_rsp (v : Z) (t : Task) : Task :=
  mk_task (t_id t) (with_rsp v (t_registers t)) (wake_at_tick t) (addr_space t) (kernel_stack t) (cnode t) (task_state t).
Definition with_space (a : AddrSpace PT) (t : Task) : Task :=
  mk_task (t_id t) (t_registers t) (wake_at_tick t) a (kernel_stack t) (cnode t) (task_state t).
Definition with_cnode (c : CNode) (t : Task) : Task :=
  mk_task (t_id t) (t_registers t) (wake_at_tick t) (addr_space t) (kernel_stack t) c (task_state t).

(** ** CPUs *)

(** [curr_task] is null ([0]) while the CPU is idle.  The last four fields are
    the registers the scheduler loads: the stack pointer, [cr3] and the two
    places that hold the kernel stack for system calls and interrupts. *)
Record ExecCpu := mk_cpu {
  rq : Runqueue;
  curr_task : Z;
  idle_task : Task;
  curr_task_id : Z;
  in_rescheduling : bool;
  cpu_rsp : Z;
  cpu_cr3 : Z;
  top_of_kernel_stack : Z;
  tss_rsp0 : Z
}.

Definition cpu_with_rq (q : Runqueue) (c : ExecCpu) : ExecCpu :=
  mk_cpu q (curr_task c) (idle_task c) (curr_task_id c) (in_rescheduling c) (cpu_rsp c) (cpu_cr3 c)
    (top_of_kernel_stack c) (tss_rsp0 c).
Definition set_curr_task (p id : Z) (c : ExecCpu) : ExecCpu :=
  mk_cpu (rq c) p (idle_task c) id (in_rescheduling c) (cpu_rsp c) (cpu_cr3 c)
    (top_of_kernel_stack c) (tss_rsp0 c).
Definition set_curr_task_id (id : Z) (c : ExecCpu) : ExecCpu :=
  mk_cpu (rq c) (curr_task c) (idle_task c) id (in_rescheduling c) (cpu_rsp c) (cpu_cr3 c)
    (top_of_kernel_stack c) (tss_rsp0 c).
Definition set_rescheduling (b : bool) (c : ExecCpu) : ExecCpu :=
  mk_cpu (rq c) (curr_task c) (idle_task c) (curr_task_id c) b (cpu_rsp c) (cpu_cr3 c)
    (top_of_kernel_stack c) (tss_rsp0 c).
Definition set_stack_top (top : Z) (c : ExecCpu) : ExecCpu :=
  mk_cpu (rq c) (curr_task c) (idle_task c) (curr_task_id c) (in_rescheduling c) (cpu_rsp c) (cpu_cr3 c) top top.
Definition load_context (rsp cr3 : Z) (c : ExecCpu) : ExecCpu :=
  mk_cpu (rq c) (curr_task c) (idle_task c) (curr_task_id c) (in_rescheduling c) rsp cr3
    (top_of_kernel_stack c) (tss_rsp0 c).
Definition save_idle_rsp (v : Z) (c : ExecCpu) : ExecCpu :=
  mk_cpu (rq c) (curr_task c) (with_saved_rsp v (idle_task c)) (curr_task_id c) (in_rescheduling c)
    (cpu_rsp c) (cpu_cr3 c) (top_of_kernel_stack c) (tss_rsp0 c).

(** [ExecCpu::new], with the fields of [PerCpuSchedulerData] as
    [init_scheduler_percpu] sets them. *)
Definition cpu_new (idle : Task) : ExecCpu := mk_cpu rq_new 0 idle (t_id idle) false 0 0 0 0.

(** ** The kernel's scheduling state *)

Record Sched := mk_sched {
  heap : gmap Z Task;
  task_table : gmap Z Z;
  global_queue : list Z;
  cpus : list ExecCpu;
  TICK_COUNT : Z
}.

Definition with_heap (h : gmap Z Task) (s : Sched) : Sched :=
  mk_sched h (task_table s) (global_queue s) (cpus s) (TICK_COUNT s).
Definition with_queue (q : list Z) (s : Sched) : Sched :=
  mk_sched (heap s) (task_table s) q (cpus s) (TICK_COUNT s).
Definition with_cpus (l : list ExecCpu) (s : Sched) : Sched :=
  mk_sched (heap s) (task_table s) (global_queue s) l (TICK_COUNT s).

Definition deref (s : Sched) (p : Z) : outcome Task := unwrap (heap s !! p).
Definition store (p : Z) (t : Task) (s : Sched) : Sched := with_heap (<[p:=t]> (heap s)) s.
Definition update (p : Z) (f : Task → Task) (s : Sched) : outcome Sched :=
  t ← deref s p;
  Ret (store p (f t) s).

Definition cpu (s : Sched) (i : nat) : outcome ExecCpu := arr_get (cpus s) i.
Definition set_cpu (i : nat) (c : ExecCpu) (s : Sched) : Sched := with_cpus (<[i:=c]> (cpus s)) s.

(** *** Task storage *)

(** The table maps an id to the task inserted last with it. *)
Definition table_insert (s : Sched) (p : Z) : outcome Sched :=
  t ← deref s p;
  Ret (mk_sched (heap s) (<[t_id t:=p]> (task_table s)) (global_queue s) (cpus s) (TICK_COUNT s)).

Definition get_task_by_index (s : Sched) (idx : Z) : option Z := task_table s !! idx.

Definition remove_task (s : Sched) (idx : Z) : Sched :=
  mk_sched (heap s) (delete idx (task_table s)) (global_queue s) (cpus s) (TICK_COUNT s).

Definition queue_push (s : Sched) (p : Z) : Sched := with_queue (global_queue s ++ [p]) s.
Definition queue_pop (s : Sched) : Sched * option Z :=
  match global_queue s with
  | [] => (s, None)
  | p :: q => (with_queue q s, Some p)
  end.
Definition global_queue_empty (s : Sched) : bool :=
  match global_queue s with [] => true | _ => false end.

Definition add_task_to_execute (s : Sched) (p : Z) : outcome Sched :=
  s ← table_insert s p;
  Ret (queue_push s p).

Definition inject_sleeping_task (s : Sched) (idx : Z) : Sched :=
  match get_task_by_index s idx with
  | Some p => queue_push s p
  | None => s
  end.

(** Up to [n] tasks from the front of the queue. *)
Fixpoint steal_from_global (s : Sched) (n : nat) : Sched * list Z :=
  match n with
  | O => (s, [])
  | S n =>
      match queue_pop s with
      | (s, Some p) => let '(s, l) := steal_from_global s n in (s, p :: l)
      | (s, None) => (s, [])
      end
  end.

(** *** Context switches

    [switch_to_task] saves the stack pointer [sp] of the interrupted context
    (after pushing its registers) where the caller says, and loads the next
    stack pointer and page table. *)
Inductive saved_at :=
  | SaveDummy
  | SaveIdle
  | SaveTask (p : Z).

Definition switch_to_task (me : nat) (prev : saved_at) (sp next_rsp next_cr3 : Z) (s : Sched) : outcome Sched :=
  s ← match prev with
      | SaveDummy => Ret s
      | SaveIdle => c ← cpu s me; Ret (set_cpu me (save_idle_rsp sp c) s)
      | SaveTask p => update p (with_saved_rsp sp) s
      end;
  c ← cpu s me;
  Ret (set_cpu me (load_context next_rsp next_cr3 c) s).

(** A CPU enters the scheduler: it takes the next free descriptor and loads
    its idle task.  [cpu_num] is the counter [CPU_NUM]. *)
Definition init_scheduler_percpu (hhdm cpu_num sp : Z) (s : Sched) : outcome (Z * Sched) :=
  let me := Z.to_nat cpu_num in
  c ← cpu s me;
  let c := set_rescheduling false (set_curr_task_id (t_id (idle_task c)) c) in
  let s := set_cpu me c s in
  let idle_rsp := rsp (t_registers (idle_task c)) in
  idle_cr3 ← get_page_table_phys hhdm (addr_space (idle_task c));
  s ← switch_to_task me SaveDummy sp idle_rsp idle_cr3 s;
  Ret (wrap64 (cpu_num + 1), s).

(** The idle task becomes current: the common end of [block_current_on_ipc]
    and [sleep]. *)
Definition switch_to_idle (hhdm : Z) (me : nat) (curr : Z) (sp : Z) (s : Sched) : outcome Sched :=
  c ← cpu s me;
  let s := set_cpu me (set_curr_task 0 (t_id (idle_task c)) c) s in
  let idle_rsp := rsp (t_registers (idle_task c)) in
  idle_cr3 ← get_page_table_phys hhdm (addr_space (idle_task c));
  switch_to_task me (SaveTask curr) sp idle_rsp idle_cr3 s.

(** The task [next] becomes current: the common end of the two cases of
    [process_tick] that switch. *)
Definition switch_to_next (hhdm : Z) (me : nat) (next : Z) (prev : saved_at) (sp : Z) (s : Sched) : outcome Sched :=
  s ← update next (with_state TaskState.Running) s;
  t ← deref s next;
  c ← cpu s me;
  let top := ks_top (kernel_stack t) in
  let s := set_cpu me (set_stack_top top (set_curr_task next (t_id t) c)) s in
  let next_rsp := rsp (t_registers t) in
  next_cr3 ← get_page_table_phys hhdm (addr_space t);
  switch_to_task me prev sp next_rsp next_cr3 s.

Definition block_current_on_ipc (hhdm : Z) (me : nat) (sp : Z) (s : Sched) : outcome Sched :=
  c ← cpu s me;
  if curr_task c =? 0 then Panic PExplicit
  else
    s ← update (curr_task c) (with_state TaskState.Sleep) s;
    switch_to_idle hhdm me (curr_task c) sp s.

Definition sleep (hhdm : Z) (me : nat) (ns sp : Z) (s : Sched) : outcome Sched :=
  c ← cpu s me;
  t ← add64 ns 999999;
  let ticks := t / 1000000 in
  if ticks =? 0 then Ret s
  else
    wake_at ← add64 (TICK_COUNT s) ticks;
    s ← update (curr_task c) (with_wake wake_at) s;
    s ← update (curr_task c) (with_state TaskState.Sleep) s;
    switch_to_idle hhdm me (curr_task c) sp s.

Definition awaken_task (p : Z) (s : Sched) : outcome Sched :=
  s ← update p (with_state TaskState.Ready) s;
  add_task_to_execute s p.

(** Tasks of the table, by increasing id. *)
Definition table_values (s : Sched) : list Z := (merge_sort id_le (map_to_list (task_table s))).*2.

Definition due (now : Z) (t : Task) : bool :=
  bool_decide (task_state t = TaskState.Sleep) && negb (wake_at_tick t =? 0) && (wake_at_tick t <=? now).

Definition wake_sleeping_tasks (me : nat) (s : Sched) : outcome Sched :=
  if negb (me =? 0)%nat then Ret s
  else
    let now := TICK_COUNT s in
    to_wake ← for_each (λ p acc,
      t ← deref s p;
      Ret (if due now t then acc ++ [t_id t] else acc)) (table_values s) [];
    for_each (λ idx s,
      match get_task_by_index s idx with
      | None => Ret s
      | Some p =>
          s ← update p (with_wake 0) s;
          s ← update p (with_state TaskState.Ready) s;
          awaken_task p s
      end) to_wake s.

(** *** The idle loop *)

Definition STEAL_BATCH : nat := 4.

(** One victim per iteration; the buffer holds [n] tasks. *)
Definition try_to_steal_into (me n : nat) (s : Sched) : outcome (Sched * list Z) :=
  r ← for_each_ret (λ idx '(s, buf),
    if (idx =? me)%nat then Ret (inl (s, buf))
    else
      c ← cpu s idx;
      if rq_len (rq c) <? Z.of_nat n then Ret (inl (s, buf))
      else
        '(q, stolen) ← rq_steal_n (rq c) 1;
        let s := set_cpu idx (cpu_with_rq q c) s in
        for_each_ret (λ task '(s, buf),
          if (n <=? length buf)%nat then Ret (inr (s, buf))
          else Ret (inl (s, buf ++ [task]))) stolen (s, buf))
    (seq 0 (length (cpus s))) (s, []);
  Ret (match r with inl r => r | inr r => r end).

Definition push_all (me : nat) (l : list Z) (s : Sched) : outcome Sched :=
  for_each (λ p s,
    c ← cpu s me;
    q ← rq_push (rq c) p;
    Ret (set_cpu me (cpu_with_rq q c) s)) l s.

(** [ExecCpu::accept_n_tasks]. *)
Definition accept_n_tasks (c : ExecCpu) (l : list Z) : outcome ExecCpu :=
  q ← for_each (λ p q, rq_push q p) l (rq c);
  Ret (cpu_with_rq q c).

(** One iteration, up to [hlt]. *)
Definition idle_iteration (me : nat) (s : Sched) : outcome Sched :=
  c ← cpu s me;
  let s := set_cpu me (set_rescheduling true c) s in
  '(s, steal_buf) ← try_to_steal_into me STEAL_BATCH s;
  s ← match steal_buf with
      | _ :: _ => push_all me steal_buf s
      | [] => let '(s, global_buf) := steal_from_global s STEAL_BATCH in push_all me global_buf s
      end;
  c ← cpu s me;
  Ret (set_cpu me (set_rescheduling false c) s).

(** *** The timer tick *)

Definition process_tick (hhdm : Z) (me : nat) (sp : Z) (s : Sched) : outcome Sched :=
  c ← cpu s me;
  if in_rescheduling c then Ret s
  else
    '(q, next_task) ← rq_pop (rq c);
    let curr := curr_task c in
    let s := set_cpu me (cpu_with_rq q c) s in
    match curr =? 0, next_task with
    | true, None => Ret s
    | false, None => Ret s
    | true, Some next => switch_to_next hhdm me next SaveIdle sp s
    | false, Some next =>
        s ← update curr (with_state TaskState.Ready) s;
        c ← cpu s me;
        q ← rq_push (rq c) curr;
        let s := set_cpu me (cpu_with_rq q c) s in
        switch_to_next hhdm me next (SaveTask curr) sp s
    end.

Definition scheduler_tick_irq (hhdm : Z) (me : nat) (sp : Z) (s : Sched) : outcome Sched :=
  let s := mk_sched (heap s) (task_table s) (global_queue s) (cpus s) (wrap64 (TICK_COUNT s + 1)) in
  s ← wake_sleeping_tasks me s;
  process_tick hhdm me sp s.
End sched.
Arguments Task : clear implicits.
Arguments ExecCpu : clear implicits.
Arguments Sched : clear implicits.
