(* ===== verification/SchedSpec.v ===== *)
(** * The scheduler: invariant

    Every task is in exactly one place: a runnable task is in the global queue
    or in one run queue, a running task is the current task of one CPU, and a
    sleeping task is nowhere.  The operations preserve this; in particular no
    task is lost or scheduled twice. *)
From stdpp Require Import sorting.
From S2P Require Import Prelude Misc Memblock Frame Sparsemem Zones Paging AddrSpace KernelStacks.
From S2P Require Import Objects Runqueue RunqueueSpec Sched.
#[local] Open Scope Z_scope.

(** ** Where tasks are *)

Section places.
Context {PT : Type} `{!X86_64 PT}.
Implicit Types (t : Task PT) (s : Sched PT) (c : ExecCpu PT).

Definition cpu_tasks c : list Z := content (rq c) OIdle.
Definition cpu_curr c : list Z := if curr_task c =? 0 then [] else [curr_task c].
Definition runnable s : list Z := global_queue s ++ concat (cpu_tasks <$> cpus s).
Definition currents s : list Z := concat (cpu_curr <$> cpus s).

(** The state field says where the task is. *)
Definition state_ok (st : TaskState.t) (p : Z) (R C : list Z) : Prop :=
  match st with
  | TaskState.Running => p ∈ C
  | TaskState.Ready => p ∈ R
  | TaskState.Sleep => p ∉ R ∧ p ∉ C
  | TaskState.Exiting => False
  end.

Definition cr3_of (hhdm : Z) t (cr3 : Z) : Prop := get_page_table_phys hhdm (addr_space t) = Ret cr3.

Record core_inv (hhdm : Z) (h : gmap Z (Task PT)) (tbl : gmap Z Z) (R C : list Z) : Prop := {
  co_nodup : NoDup (R ++ C);
  co_alive : ∀ p, p ∈ R ++ C → is_Some (h !! p);
  co_state : ∀ p t, h !! p = Some t → state_ok (task_state t) p R C;
  co_ptr : h !! 0 = None;
  co_cr3 : ∀ p t, h !! p = Some t → ∃ cr3, cr3_of hhdm t cr3;
  co_table : ∀ p t, h !! p = Some t → tbl !! t_id t = Some p;
  co_named : ∀ i p, tbl !! i = Some p → ∃ t, h !! p = Some t ∧ t_id t = i
}.

Lemma state_ok_perm st p R R' C C' : R ≡ₚ R' → C ≡ₚ C' → state_ok st p R C → state_ok st p R' C'.
Proof. intros HR HC. destruct st; simpl; rewrite ?HR, ?HC; done. Qed.

Lemma core_perm hhdm h tbl R R' C C' :
  R ≡ₚ R' → C ≡ₚ C' → core_inv hhdm h tbl R C → core_inv hhdm h tbl R' C'.
Proof.
  intros HR HC [H1 H2 H3 H4 H5 H6 H7]. split; try done.
  - by rewrite <-HR, <-HC.
  - intros p. rewrite <-HR, <-HC. apply H2.
  - intros p t Hp. eapply state_ok_perm; [done|done|]. by apply H3.
Qed.

(** Fields that do not matter for scheduling. *)
Definition same_task t t' : Prop :=
  t_id t' = t_id t ∧ kernel_stack t' = kernel_stack t ∧
  level_4_table (page_table (addr_space t')) = level_4_table (page_table (addr_space t)).

Lemma same_task_cr3 hhdm t t' cr3 : same_task t t' → cr3_of hhdm t cr3 → cr3_of hhdm t' cr3.
Proof. intros (_ & _ & E). unfold cr3_of, get_page_table_phys. by rewrite E. Qed.

Lemma core_update hhdm h tbl R C R' C' p t t' :
  core_inv hhdm h tbl R C → h !! p = Some t → same_task t t' →
  R' ++ C' ⊆ p :: R ++ C → NoDup (R' ++ C') →
  state_ok (task_state t') p R' C' →
  (∀ q u, q ≠ p → h !! q = Some u → state_ok (task_state u) q R C → state_ok (task_state u) q R' C') →
  core_inv hhdm (<[p:=t']> h) tbl R' C'.
Proof.
  intros [H1 H2 H3 H4 H5 H6 H7] Hp Hsame Hsub Hnd Hst Hoth. pose proof Hsame as (Ei & _). split; try done.
  - intros q Hq. destruct (decide (q = p)) as [->|Hne]; [by rewrite lookup_insert_eq|].
    rewrite lookup_insert_ne by done. apply H2. apply Hsub in Hq. set_solver.
  - intros q u [[<- <-]|[Hne Hq]]%lookup_insert_Some; [done|]. apply Hoth; [done|done|]. by apply H3.
  - rewrite lookup_insert_ne; [done|]. intros ->. congruence.
  - intros q u [[<- <-]|[Hne Hq]]%lookup_insert_Some; [|by eapply H5].
    destruct (H5 _ _ Hp) as [cr3 Hcr]. exists cr3. by eapply same_task_cr3.
  - intros q u [[<- <-]|[Hne Hq]]%lookup_insert_Some; [rewrite Ei; by apply H6|by apply H6].
  - intros i q (u & Hq & Hu)%H7. destruct (decide (q = p)) as [->|Hne].
    + exists t'. rewrite lookup_insert_eq. split; [done|]. rewrite Ei. congruence.
    + exists u. by rewrite lookup_insert_ne.
Qed.

(** A task changes places: the four transitions. *)
Lemma core_run hhdm h tbl R C p t :
  core_inv hhdm h tbl (p :: R) C → h !! p = Some t →
  core_inv hhdm (<[p:=with_state TaskState.Running t]> h) tbl R (p :: C).
Proof.
  intros Hc Hp. pose proof (co_nodup _ _ _ _ _ Hc) as Hnd. simpl in Hnd.
  eapply core_update; [done|done|done|set_solver| |set_solver|].
  - by rewrite <-Permutation_middle.
  - intros q u Hne _. destruct (task_state u); simpl; set_solver.
Qed.

Lemma core_preempt hhdm h tbl R C p t :
  core_inv hhdm h tbl R (p :: C) → h !! p = Some t →
  core_inv hhdm (<[p:=with_state TaskState.Ready t]> h) tbl (p :: R) C.
Proof.
  intros Hc Hp. pose proof (co_nodup _ _ _ _ _ Hc) as Hnd.
  eapply core_update; [done|done|done|set_solver| |set_solver|].
  - simpl. by rewrite Permutation_middle.
  - intros q u Hne _. destruct (task_state u); simpl; set_solver.
Qed.

Lemma core_sleep hhdm h tbl R C p t :
  core_inv hhdm h tbl R (p :: C) → h !! p = Some t →
  core_inv hhdm (<[p:=with_state TaskState.Sleep t]> h) tbl R C.
Proof.
  intros Hc Hp. pose proof (co_nodup _ _ _ _ _ Hc) as Hnd. rewrite <-Permutation_middle in Hnd.
  apply NoDup_cons in Hnd as [Hn Hnd].
  eapply core_update; [done|done|done|set_solver|done|simpl; set_solver|].
  intros q u Hne _. destruct (task_state u); simpl; set_solver.
Qed.

Lemma core_wake hhdm h tbl R C p t :
  core_inv hhdm h tbl R C → h !! p = Some t → task_state t = TaskState.Sleep →
  core_inv hhdm (<[p:=with_state TaskState.Ready t]> h) tbl (p :: R) C.
Proof.
  intros Hc Hp Hs. pose proof (co_state _ _ _ _ _ Hc _ _ Hp) as Hn. rewrite Hs in Hn. destruct Hn as [HnR HnC].
  eapply core_update; [done|done|done|set_solver| |simpl; set_solver|].
  - simpl. apply NoDup_cons. split; [set_solver|]. apply Hc.
  - intros q u Hne _. destruct (task_state u); simpl; set_solver.
Qed.

(** Changing other fields. *)
Lemma core_same hhdm h tbl R C p t t' :
  core_inv hhdm h tbl R C → h !! p = Some t → same_task t t' → task_state t' = task_state t →
  core_inv hhdm (<[p:=t']> h) tbl R C.
Proof.
  intros Hc Hp Hs Est. eapply core_update; [done|done|done|set_solver|apply Hc| |done].
  rewrite Est. by apply (co_state _ _ _ _ _ Hc).
Qed.

Lemma core_spawn hhdm h tbl R C p t :
  core_inv hhdm h tbl R C → h !! p = None → p ≠ 0 → tbl !! t_id t = None →
  task_state t = TaskState.Ready → (∃ cr3, cr3_of hhdm t cr3) →
  core_inv hhdm (<[p:=t]> h) (<[t_id t:=p]> tbl) (p :: R) C.
Proof.
  intros [H1 H2 H3 H4 H5 H6 H7] Hp Hp0 Hid Hst Hcr.
  assert (p ∉ R ++ C) as Hnew by (intros Hin; apply H2 in Hin as [? ?]; congruence).
  split.
  - simpl. by apply NoDup_cons.
  - intros q Hq. destruct (decide (q = p)) as [->|Hne]; [by rewrite lookup_insert_eq|].
    rewrite lookup_insert_ne by done. apply H2. set_solver.
  - intros q u [[<- <-]|[Hne Hq]]%lookup_insert_Some; [rewrite Hst; by left|].
    specialize (H3 _ _ Hq). destruct (task_state u); simpl in *; set_solver.
  - by rewrite lookup_insert_ne.
  - intros q u [[<- <-]|[Hne Hq]]%lookup_insert_Some; [done|by eapply H5].
  - intros q u [[<- <-]|[Hne Hq]]%lookup_insert_Some; [apply lookup_insert_eq|].
    rewrite lookup_insert_ne; [by apply H6|]. intros E. rewrite E in Hid. rewrite (H6 _ _ Hq) in Hid. done.
  - intros i q [[<- <-]|[Hne Hq]]%lookup_insert_Some; [exists t; by rewrite lookup_insert_eq|].
    destruct (H7 _ _ Hq) as (u & Hu & Eu). exists u. rewrite lookup_insert_ne; [done|]. congruence.
Qed.

(** ** CPUs *)

(** The queue is well formed and the idle task has a page table. *)
Record cpu_ok (hhdm n : Z) c : Prop := {
  cp_rq : rq_seq (rq c) (cpu_tasks c);
  cp_bottom : rq_bottom (rq c) ≤ n;
  cp_idle : ∃ cr3, cr3_of hhdm (idle_task c) cr3
}.

(** While a task is current its own page table and kernel stack are loaded. *)
Definition context_ok (hhdm : Z) (h : gmap Z (Task PT)) c : Prop :=
  if curr_task c =? 0 then curr_task_id c = t_id (idle_task c)
  else ∃ t, h !! curr_task c = Some t ∧ curr_task_id c = t_id t ∧ cr3_of hhdm t (cpu_cr3 c) ∧
    top_of_kernel_stack c = ks_top (kernel_stack t) ∧ tss_rsp0 c = ks_top (kernel_stack t).

Record sched_inv (hhdm n : Z) s : Prop := {
  sc_core : core_inv hhdm (heap s) (task_table s) (runnable s) (currents s);
  sc_cpus : Forall (cpu_ok hhdm n) (cpus s);
  sc_context : Forall (context_ok hhdm (heap s)) (cpus s);
  sc_tick : 0 ≤ TICK_COUNT s
}.

Definition heap_kept (h h' : gmap Z (Task PT)) : Prop :=
  ∀ p t, h !! p = Some t → ∃ t', h' !! p = Some t' ∧ same_task t t'.

Lemma heap_kept_refl h : heap_kept h h.
Proof. intros p t Hp. by exists t. Qed.

Lemma heap_kept_insert h p t t' : h !! p = Some t → same_task t t' → heap_kept h (<[p:=t']> h).
Proof.
  intros Hp Hs q u Hq. destruct (decide (q = p)) as [->|Hne].
  - exists t'. rewrite lookup_insert_eq. by simplify_eq.
  - exists u. by rewrite lookup_insert_ne.
Qed.

Lemma heap_kept_trans h h' h'' : heap_kept h h' → heap_kept h' h'' → heap_kept h h''.
Proof.
  intros H1 H2 p t Hp. destruct (H1 _ _ Hp) as (t' & Hp' & Ei & Ea & Ek).
  destruct (H2 _ _ Hp') as (t'' & Hp'' & Ei' & Ea' & Ek'). exists t''. split; [done|].
  repeat split; congruence.
Qed.

(** What the scheduler's own activity preserves of a task: besides its
    identity, its capabilities, its wake-up time and whether it sleeps. *)
Definition undisturbed t t' : Prop :=
  same_task t t' ∧ cnode t' = cnode t ∧ wake_at_tick t' = wake_at_tick t ∧
  (task_state t' = TaskState.Sleep ↔ task_state t = TaskState.Sleep).

Definition heap_quiet (h h' : gmap Z (Task PT)) : Prop :=
  ∀ p, option_Forall2 undisturbed (h !! p) (h' !! p).

#[global] Instance undisturbed_preorder : PreOrder undisturbed.
Proof.
  split; [done|]. intros t1 t2 t3 ((? & ? & ?) & ? & ? & Ha) ((? & ? & ?) & ? & ? & Hb).
  split; [split_and!; congruence|]. split; [congruence|]. split; [congruence|]. by rewrite Hb.
Qed.

#[global] Instance heap_quiet_preorder : PreOrder heap_quiet.
Proof.
  split.
  - intros h p. destruct (h !! p); constructor. done.
  - intros h1 h2 h3 Ha Hb p. specialize (Ha p). specialize (Hb p).
    destruct Ha; inversion Hb; subst; constructor. by etrans.
Qed.

Lemma heap_quiet_insert h p t t' : h !! p = Some t → undisturbed t t' → heap_quiet h (<[p:=t']> h).
Proof.
  intros Hp Hs q. destruct (decide (q = p)) as [->|Hne].
  - rewrite lookup_insert_eq, Hp. by constructor.
  - rewrite lookup_insert_ne by done. destruct (h !! q); constructor. done.
Qed.

Lemma heap_quiet_kept h h' : heap_quiet h h' → heap_kept h h'.
Proof. intros H p t Hp. specialize (H p). rewrite Hp in H. inversion H as [? t' [Hs _]|]; subst. eauto. Qed.

Lemma context_kept hhdm h h' c : heap_kept h h' → context_ok hhdm h c → context_ok hhdm h' c.
Proof.
  intros Hk. unfold context_ok. case_match; [done|]. intros (t & Ht & Ei & Ec & Et & Es).
  destruct (Hk _ _ Ht) as (t' & Ht' & Hs). pose proof Hs as (Ei' & Ek & _). exists t'. split; [done|].
  split; [congruence|]. split; [by eapply same_task_cr3|]. by rewrite Ek.
Qed.

Lemma context_keep hhdm h h' (l : list (ExecCpu PT)) :
  heap_kept h h' → Forall (context_ok hhdm h) l → Forall (context_ok hhdm h') l.
Proof. intros Hk Hl. eapply Forall_impl; [done|]. intros c. by apply context_kept. Qed.

Lemma cpu_ok_le hhdm n n' c : n ≤ n' → cpu_ok hhdm n c → cpu_ok hhdm n' c.
Proof. intros Hn [? ? ?]. split; try done. lia. Qed.

Lemma sched_inv_le hhdm n n' s : n ≤ n' → sched_inv hhdm n s → sched_inv hhdm n' s.
Proof. intros Hn [? Hc ? ?]. split; try done. eapply Forall_impl; [exact Hc|]. intros c. by apply cpu_ok_le. Qed.

Lemma concat_split {A} (f : ExecCpu PT → list A) l i c :
  l !! i = Some c → concat (f <$> l) ≡ₚ f c ++ concat (f <$> delete i l).
Proof.
  intros Hi. rewrite <-(take_drop_middle l i c Hi) at 1. rewrite delete_take_drop, !fmap_app, !concat_app.
  simpl. rewrite !app_assoc. by rewrite (Permutation_app_comm (concat _) (f c)).
Qed.

Lemma concat_cpus_insert {A} (f : ExecCpu PT → list A) l i c c' :
  l !! i = Some c → concat (f <$> <[i:=c']> l) ≡ₚ f c' ++ concat (f <$> delete i l).
Proof.
  intros Hi. rewrite (concat_split f _ i c').
  - by rewrite !delete_take_drop, take_insert_ge, drop_insert_lt by lia.
  - apply list_lookup_insert_eq. by eapply lookup_lt_Some.
Qed.

(** The runnable tasks outside one CPU's queue, the current tasks of others. *)
Definition others s (i : nat) : list Z := global_queue s ++ concat (cpu_tasks <$> delete i (cpus s)).
Definition other_currents s (i : nat) : list Z := concat (cpu_curr <$> delete i (cpus s)).

Lemma runnable_split s i c : cpus s !! i = Some c → runnable s ≡ₚ cpu_tasks c ++ others s i.
Proof.
  intros Hi. unfold runnable, others. rewrite (concat_split cpu_tasks _ i c Hi).
  by rewrite !app_assoc, (Permutation_app_comm (global_queue s)).
Qed.

Lemma currents_split s i c : cpus s !! i = Some c → currents s ≡ₚ cpu_curr c ++ other_currents s i.
Proof. intros Hi. by apply concat_split. Qed.

(** A new state in which the CPU [i] is replaced. *)
Lemma runnable_set h tbl tick s i c c' :
  cpus s !! i = Some c →
  runnable (mk_sched h tbl (global_queue s) (<[i:=c']> (cpus s)) tick) ≡ₚ cpu_tasks c' ++ others s i.
Proof.
  intros Hi. unfold runnable, others. simpl. rewrite (concat_cpus_insert cpu_tasks _ i c c' Hi).
  by rewrite !app_assoc, (Permutation_app_comm (global_queue s)).
Qed.

Lemma currents_set h tbl q tick s i c c' :
  cpus s !! i = Some c →
  currents (mk_sched h tbl q (<[i:=c']> (cpus s)) tick) ≡ₚ cpu_curr c' ++ other_currents s i.
Proof. intros Hi. unfold currents, other_currents. simpl. by apply (concat_cpus_insert cpu_curr _ i c). Qed.
End places.
