(* ===== verification/SchedOps.v ===== *)
(** * The scheduler's operations preserve its invariant *)
From stdpp Require Import sorting.
From S2P Require Import Prelude Misc Memblock Frame Sparsemem Zones Paging AddrSpace KernelStacks.
From S2P Require Import Objects Runqueue RunqueueSpec Sched SchedSpec.
#[local] Open Scope Z_scope.

Section ops.
Context {PT : Type} `{!X86_64 PT}.
Implicit Types (t : Task PT) (s : Sched PT) (c : ExecCpu PT).

(** ** Replacing one CPU and some tasks *)

Lemma core_at hhdm n s i c :
  sched_inv hhdm n s → cpus s !! i = Some c →
  core_inv hhdm (heap s) (task_table s) (cpu_tasks c ++ others s i) (cpu_curr c ++ other_currents s i).
Proof.
  intros [Hc _ _ _] Hi. eapply core_perm; [by apply runnable_split|by apply currents_split|done].
Qed.

Lemma sched_inv_set hhdm n n' s i c c' h' tick :
  sched_inv hhdm n s → cpus s !! i = Some c → n ≤ n' →
  core_inv hhdm h' (task_table s) (cpu_tasks c' ++ others s i) (cpu_curr c' ++ other_currents s i) →
  heap_kept (heap s) h' → cpu_ok hhdm n' c' → context_ok hhdm h' c' → 0 ≤ tick →
  sched_inv hhdm n' (mk_sched h' (task_table s) (global_queue s) (<[i:=c']> (cpus s)) tick).
Proof.
  intros [_ Hcpus Hctx _] Hi Hn Hcore Hk Hc' Hx' Htick. split; simpl; [..|done].
  - eapply core_perm; [symmetry; by apply (runnable_set _ _ _ s i c c')
      |symmetry; by apply (currents_set _ _ _ _ s i c c')|done].
  - apply Forall_insert; [|done]. eapply Forall_impl; [exact Hcpus|]. intros c0. by apply cpu_ok_le.
  - apply Forall_insert; [|done]. by eapply context_keep.
Qed.

Lemma cpu_at hhdm n s i c :
  sched_inv hhdm n s → cpus s !! i = Some c → cpu_ok hhdm n c ∧ context_ok hhdm (heap s) c.
Proof.
  intros [_ H1 H2 _] Hi. rewrite Forall_lookup in H1, H2. split; [by eapply H1|by eapply H2].
Qed.

(** The current task, when there is one. *)
Lemma current_at hhdm n s i c :
  sched_inv hhdm n s → cpus s !! i = Some c → curr_task c ≠ 0 →
  cpu_curr c = [curr_task c] ∧ ∃ t, heap s !! curr_task c = Some t ∧ curr_task_id c = t_id t ∧
    task_state t = TaskState.Running.
Proof.
  intros Hs Hi Hc. destruct (cpu_at _ _ _ _ _ Hs Hi) as [_ Hx].
  unfold context_ok in Hx. unfold cpu_curr. rewrite (proj2 (Z.eqb_neq _ _)) in * by done. split; [done|].
  destruct Hx as (t & Ht & Hid & _). exists t. split; [done|]. split; [done|].
  pose proof (core_at _ _ _ _ _ Hs Hi) as Hcore. unfold cpu_curr in Hcore.
  rewrite (proj2 (Z.eqb_neq _ _)) in Hcore by done.
  pose proof (co_state _ _ _ _ _ Hcore _ _ Ht) as Hst. pose proof (co_nodup _ _ _ _ _ Hcore) as Hnd.
  apply NoDup_app in Hnd as (_ & Hd & _).
  destruct (task_state t); simpl in Hst; [done| |done|set_solver].
  exfalso. apply (Hd _ Hst). by left.
Qed.

(** ** Blocking the current task *)

Lemma update_eq p f s t : heap s !! p = Some t → update p f s = Ret (store p (f t) s).
Proof. intros Hp. unfold update, deref. by rewrite Hp. Qed.

Lemma cpu_eq s i c : cpus s !! i = Some c → cpu s i = Ret c.
Proof. intros Hi. unfold cpu, arr_get. by rewrite Hi. Qed.

Lemma cpus_set_eq (l : list (ExecCpu PT)) i c c' : l !! i = Some c → <[i:=c']> l !! i = Some c'.
Proof. intros Hi. apply list_lookup_insert_eq. by eapply lookup_lt_Some. Qed.

(** Every CPU may enter the scheduler, in any order with what the CPUs that
    are already running do; it then runs its idle task. *)
Lemma init_scheduler_percpu_spec hhdm n s me c cpu_num sp :
  sched_inv hhdm n s → cpus s !! me = Some c → cpu_num = Z.of_nat me → curr_task c = 0 →
  wp (init_scheduler_percpu hhdm cpu_num sp s) (λ '(num', s'),
    num' = wrap64 (cpu_num + 1) ∧ sched_inv hhdm n s' ∧ length (cpus s') = length (cpus s) ∧
    heap s' = heap s ∧ task_table s' = task_table s ∧
    ∃ c' cr3, cpus s' !! me = Some c' ∧ curr_task c' = 0 ∧ cr3_of hhdm (idle_task c) cr3 ∧
      cpu_cr3 c' = cr3 ∧ cpu_rsp c' = rsp (t_registers (idle_task c))).
Proof.
  intros Hs Hi -> Hc. destruct (cpu_at _ _ _ _ _ Hs Hi) as [Hok _].
  destruct (cp_idle _ _ _ Hok) as [cr3 Hcr].
  unfold init_scheduler_percpu, switch_to_task. rewrite Nat2Z.id, (cpu_eq _ _ _ Hi). simpl. rewrite Hcr. simpl.
  erewrite cpu_eq by by eapply cpus_set_eq. simpl.
  apply wp_ret. split; [done|]. unfold set_cpu, with_cpus. simpl. rewrite list_insert_insert_eq.
  split; [|split; [apply length_insert|split; [done|split; [done|]]]].
  - eapply sched_inv_set; [done|done|done| |by apply heap_kept_refl| | |apply Hs].
    + exact (core_at _ _ _ _ _ Hs Hi).
    + destruct Hok. by split.
    + unfold context_ok. simpl. by rewrite Hc.
  - eexists _, cr3. rewrite list_lookup_insert_eq by by eapply lookup_lt_Some. done.
Qed.

Lemma switch_to_idle_eq hhdm me sp s c p t cr3 :
  cpus s !! me = Some c → heap s !! p = Some t → cr3_of hhdm (idle_task c) cr3 →
  switch_to_idle hhdm me p sp s =
    Ret (mk_sched (<[p:=with_saved_rsp sp t]> (heap s)) (task_table s) (global_queue s)
      (<[me:=load_context (rsp (t_registers (idle_task c))) cr3 (set_curr_task 0 (t_id (idle_task c)) c)]> (cpus s))
      (TICK_COUNT s)).
Proof.
  intros Hi Hp Hcr. unfold switch_to_idle, switch_to_task. rewrite (cpu_eq _ _ _ Hi). simpl.
  rewrite Hcr. simpl. rewrite (update_eq _ _ _ t) by done. simpl.
  rewrite (cpu_eq _ me (set_curr_task 0 (t_id (idle_task c)) c)); [|by eapply cpus_set_eq].
  unfold set_cpu, with_cpus, store, with_heap. simpl. by rewrite list_insert_insert_eq.
Qed.

(** The blocked task is in state [Sleep] and nowhere; its context is saved. *)
Lemma blocked_inv hhdm n s me c t w sp cr3 :
  sched_inv hhdm n s → cpus s !! me = Some c → curr_task c ≠ 0 → heap s !! curr_task c = Some t →
  cr3_of hhdm (idle_task c) cr3 →
  sched_inv hhdm n (mk_sched
    (<[curr_task c:=with_saved_rsp sp (with_state TaskState.Sleep (with_wake w t))]> (heap s))
    (task_table s) (global_queue s)
    (<[me:=load_context (rsp (t_registers (idle_task c))) cr3 (set_curr_task 0 (t_id (idle_task c)) c)]> (cpus s))
    (TICK_COUNT s)).
Proof.
  intros Hs Hi Hc Ht Hcr. destruct (cpu_at _ _ _ _ _ Hs Hi) as [[Hrq Hb Hid] _].
  destruct (current_at _ _ _ _ _ Hs Hi Hc) as [Ecur _].
  pose proof (core_at _ _ _ _ _ Hs Hi) as Hcore. rewrite Ecur in Hcore.
  eapply sched_inv_set; [done|done|lia| | |done|done|apply Hs].
  - unfold cpu_tasks, cpu_curr. simpl.
    pose proof (core_sleep _ _ _ _ _ _ _ Hcore Ht) as Hcore'.
    pose proof (core_same _ _ _ _ _ (curr_task c) _ (with_saved_rsp sp (with_state TaskState.Sleep (with_wake w t)))
      Hcore' (lookup_insert_eq _ _ _)) as Hcore''.
    rewrite insert_insert_eq in Hcore''. by apply Hcore''.
  - by eapply heap_kept_insert.
Qed.

Lemma block_current_on_ipc_spec hhdm n s me c sp :
  sched_inv hhdm n s → cpus s !! me = Some c → curr_task c ≠ 0 →
  wp (block_current_on_ipc hhdm me sp s) (λ s', sched_inv hhdm n s' ∧
    ∃ t, heap s !! curr_task c = Some t ∧
      heap s' = <[curr_task c:=with_saved_rsp sp (with_state TaskState.Sleep t)]> (heap s) ∧
      task_table s' = task_table s ∧ length (cpus s') = length (cpus s)).
Proof.
  intros Hs Hi Hc. destruct (current_at _ _ _ _ _ Hs Hi Hc) as [_ (t & Ht & _)].
  destruct (cpu_at _ _ _ _ _ Hs Hi) as [[_ _ [cr3 Hcr]] _].
  unfold block_current_on_ipc. rewrite (cpu_eq _ _ _ Hi). simpl.
  rewrite (proj2 (Z.eqb_neq _ _)) by done. rewrite (update_eq _ _ _ t) by done. simpl.
  erewrite switch_to_idle_eq; [|done|apply lookup_insert_eq|done]. simpl.
  rewrite insert_insert_eq. split.
  - pose proof (blocked_inv hhdm n s me c t (wake_at_tick t) sp cr3 Hs Hi Hc Ht Hcr) as Hb.
    by destruct t.
  - exists t. simpl. by rewrite length_insert.
Qed.

Lemma sleep_spec hhdm n s me c ns sp :
  sched_inv hhdm n s → cpus s !! me = Some c → curr_task c ≠ 0 → 0 ≤ ns →
  post (sleep hhdm me ns sp s) (λ s', sched_inv hhdm n s' ∧ length (cpus s') = length (cpus s) ∧
    (s' = s ∨ ∃ t w c', heap s !! curr_task c = Some t ∧ w ≠ 0 ∧
      heap s' = <[curr_task c:=with_saved_rsp sp (with_state TaskState.Sleep (with_wake w t))]> (heap s) ∧
      task_table s' = task_table s ∧ cpus s' !! me = Some c' ∧ curr_task c' = 0))
    (λ p, p = POverflow).
Proof.
  intros Hs Hi Hc Hns. destruct (current_at _ _ _ _ _ Hs Hi Hc) as [_ (t & Ht & _)].
  destruct (cpu_at _ _ _ _ _ Hs Hi) as [[_ _ [cr3 Hcr]] _].
  unfold sleep, add64. rewrite (cpu_eq _ _ _ Hi). cbn [mbind outcome_bind].
  destruct (ns + 999999 <=? u64_max); cbn [mbind outcome_bind]; [|done].
  destruct (Z.eqb_spec ((ns + 999999) / 1000000) 0) as [|Hticks]; [split; [done|]; split; [done|by left]|].
  pose proof (Z.div_pos (ns + 999999) 1000000 ltac:(lia) ltac:(lia)) as Hpos.
  destruct (_ <=? u64_max); cbn [mbind outcome_bind]; [|done].
  rewrite (update_eq _ _ _ t) by done. cbn [mbind outcome_bind]. erewrite update_eq by apply lookup_insert_eq. simpl.
  erewrite switch_to_idle_eq; [|done|apply lookup_insert_eq|done]. simpl. rewrite !insert_insert_eq.
  split; [by apply blocked_inv|]. split; [apply length_insert|]. right.
  eexists t, _, _. split; [done|]. split; [|split; [done|split; [done|split; [by eapply cpus_set_eq|done]]]].
  pose proof (sc_tick _ _ _ Hs). lia.
Qed.

(** ** Waking a task *)

Lemma sched_inv_enqueue hhdm n s p h' tbl' tick :
  core_inv hhdm h' tbl' (p :: runnable s) (currents s) →
  heap_kept (heap s) h' → sched_inv hhdm n s → 0 ≤ tick →
  sched_inv hhdm n (mk_sched h' tbl' (global_queue s ++ [p]) (cpus s) tick).
Proof.
  intros Hcore Hk [_ Hcp Hx _] Htick. split; simpl; [|done|by eapply context_keep|done].
  eapply core_perm; [|done|exact Hcore]. unfold runnable. simpl. rewrite <-app_assoc. simpl.
  by rewrite <-Permutation_middle.
Qed.

Lemma awaken_task_eq s p t :
  heap s !! p = Some t → task_table s !! t_id t = Some p →
  awaken_task p s = Ret (mk_sched (<[p:=with_state TaskState.Ready t]> (heap s)) (task_table s)
    (global_queue s ++ [p]) (cpus s) (TICK_COUNT s)).
Proof.
  intros Hp Ht. unfold awaken_task, add_task_to_execute, table_insert, deref.
  rewrite (update_eq _ _ _ t) by done. simpl. rewrite lookup_insert_eq. simpl.
  unfold queue_push, with_queue. simpl. by rewrite (insert_id (task_table s)).
Qed.

Lemma awaken_task_spec hhdm n s p t :
  sched_inv hhdm n s → heap s !! p = Some t → task_state t = TaskState.Sleep →
  ∃ s', awaken_task p s = Ret s' ∧ sched_inv hhdm n s' ∧
    heap s' = <[p:=with_state TaskState.Ready t]> (heap s) ∧ task_table s' = task_table s ∧
    global_queue s' = global_queue s ++ [p] ∧ cpus s' = cpus s.
Proof.
  intros Hs Hp Hst. pose proof (co_table _ _ _ _ _ (sc_core _ _ _ Hs) _ _ Hp) as Ht.
  eexists. split; [by apply awaken_task_eq|]. split; [|done].
  apply sched_inv_enqueue; [|by eapply heap_kept_insert|done|apply Hs].
  by apply core_wake; [apply Hs|..].
Qed.

Lemma spawn_spec hhdm n s p t :
  sched_inv hhdm n s → heap s !! p = None → p ≠ 0 → task_table s !! t_id t = None →
  task_state t = TaskState.Ready → (∃ cr3, cr3_of hhdm t cr3) →
  wp (add_task_to_execute (store p t s) p) (λ s', sched_inv hhdm n s' ∧ cpus s' = cpus s ∧
    heap s' = <[p:=t]> (heap s) ∧ task_table s' = <[t_id t:=p]> (task_table s)).
Proof.
  intros Hs Hp Hp0 Hid Hst Hcr. unfold add_task_to_execute, table_insert, deref. simpl.
  rewrite lookup_insert_eq. simpl. apply wp_ret. unfold queue_push, with_queue. simpl. split; [|done].
  apply sched_inv_enqueue; [|intros q u Hq; exists u; rewrite lookup_insert_ne; [done|congruence]|done|apply Hs].
  by apply core_spawn; [apply Hs|..].
Qed.

(** ** The timer tick *)

Lemma switch_from_idle_eq hhdm me next sp s c t cr3 :
  cpus s !! me = Some c → heap s !! next = Some t → cr3_of hhdm t cr3 →
  switch_to_next hhdm me next SaveIdle sp s =
    Ret (mk_sched (<[next:=with_state TaskState.Running t]> (heap s)) (task_table s) (global_queue s)
      (<[me:=load_context (rsp (t_registers t)) cr3 (save_idle_rsp sp
               (set_stack_top (ks_top (kernel_stack t)) (set_curr_task next (t_id t) c)))]> (cpus s))
      (TICK_COUNT s)).
Proof.
  intros Hi Hp Hcr. unfold switch_to_next, switch_to_task, deref. rewrite (update_eq _ _ _ t) by done. simpl.
  rewrite lookup_insert_eq. simpl. rewrite (cpu_eq _ me c) by done. simpl.
  rewrite Hcr. simpl. unfold set_cpu, with_cpus, store, with_heap. simpl.
  erewrite cpu_eq by by eapply cpus_set_eq. simpl.
  erewrite cpu_eq by (eapply cpus_set_eq; by eapply cpus_set_eq). simpl.
  by rewrite !list_insert_insert_eq.
Qed.

Lemma switch_from_task_eq hhdm me next p sp s c t u cr3 :
  cpus s !! me = Some c → heap s !! next = Some t → cr3_of hhdm t cr3 →
  p ≠ next → heap s !! p = Some u →
  switch_to_next hhdm me next (SaveTask p) sp s =
    Ret (mk_sched (<[p:=with_saved_rsp sp u]> (<[next:=with_state TaskState.Running t]> (heap s)))
      (task_table s) (global_queue s)
      (<[me:=load_context (rsp (t_registers t)) cr3
               (set_stack_top (ks_top (kernel_stack t)) (set_curr_task next (t_id t) c))]> (cpus s))
      (TICK_COUNT s)).
Proof.
  intros Hi Hp Hcr Hne Hu. unfold switch_to_next, switch_to_task, deref. rewrite (update_eq _ _ _ t) by done. simpl.
  rewrite lookup_insert_eq. simpl. rewrite (cpu_eq _ me c) by done. simpl.
  rewrite Hcr. simpl. unfold set_cpu, with_cpus, store, with_heap. simpl.
  rewrite (update_eq _ _ _ u) by (simpl; by rewrite lookup_insert_ne). simpl.
  erewrite cpu_eq by by eapply cpus_set_eq. simpl.
  unfold set_cpu, with_cpus, store, with_heap. simpl. by rewrite !list_insert_insert_eq.
Qed.

(** The context of a CPU whose new current task is [next]. *)
Lemma context_next hhdm h next t rs cr3 c :
  next ≠ 0 → cr3_of hhdm t cr3 →
  (∃ t', h !! next = Some t' ∧ same_task t t') →
  context_ok hhdm h (load_context rs cr3 (set_stack_top (ks_top (kernel_stack t)) (set_curr_task next (t_id t) c))).
Proof.
  intros Hn Hcr (t' & Ht' & Hs). pose proof Hs as (Ei & Ek & _).
  unfold context_ok. simpl. rewrite (proj2 (Z.eqb_neq _ _)) by done.
  exists t'. split; [done|]. rewrite Ei, Ek. split; [done|]. split; [by eapply same_task_cr3|done].
Qed.

(** Tasks in queues and current tasks do not sleep. *)
Lemma runnable_not_asleep hhdm h tbl R C p t :
  core_inv hhdm h tbl R C → p ∈ R → h !! p = Some t → task_state t ≠ TaskState.Sleep.
Proof. intros Hc Hp Ht E. pose proof (co_state _ _ _ _ _ Hc _ _ Ht) as H. rewrite E in H. destruct H. contradiction. Qed.

Lemma current_not_asleep hhdm h tbl R C p t :
  core_inv hhdm h tbl R C → p ∈ C → h !! p = Some t → task_state t ≠ TaskState.Sleep.
Proof. intros Hc Hp Ht E. pose proof (co_state _ _ _ _ _ Hc _ _ Ht) as H. rewrite E in H. destruct H. contradiction. Qed.

Lemma last_task (l : list Z) : l = [] ∨ ∃ l' p, l = l' ++ [p].
Proof. induction l as [|x l _] using rev_ind; eauto. Qed.

Lemma cpu_with_rq_ok hhdm n c q l :
  cpu_ok hhdm n c → rq_seq q l → rq_bottom q ≤ n →
  cpu_ok hhdm n (cpu_with_rq q c) ∧ cpu_tasks (cpu_with_rq q c) = l.
Proof.
  intros [_ _ Hid] Hq Hb. assert (cpu_tasks (cpu_with_rq q c) = l) as E by apply Hq.
  split; [|done]. split; [by rewrite E|done|done].
Qed.

(** What a step on one CPU leaves alone. *)
Definition local_step s s' : Prop :=
  global_queue s' = global_queue s ∧ task_table s' = task_table s ∧
  length (cpus s') = length (cpus s) ∧ heap_quiet (heap s) (heap s').

(** The effect on the CPU itself: the newest task of the queue becomes
    current, and the task that was current takes its place. *)
Definition ticked c c' : Prop :=
  in_rescheduling c' = in_rescheduling c ∧
  if in_rescheduling c then curr_task c' = curr_task c ∧ cpu_tasks c' = cpu_tasks c
  else match cpu_tasks c with
  | [] => curr_task c' = curr_task c ∧ cpu_tasks c' = []
  | _ => ∃ l, cpu_tasks c = l ++ [curr_task c'] ∧ cpu_tasks c' = l ++ cpu_curr c
  end.

(** An idle CPU takes the newest task of its queue. *)
Lemma tick_idle_inv hhdm n s me c q l next sp :
  sched_inv hhdm n s → cpus s !! me = Some c → curr_task c = 0 →
  cpu_tasks c = l ++ [next] → rq_seq q l → rq_bottom q ≤ n →
  wp (switch_to_next hhdm me next SaveIdle sp (set_cpu me (cpu_with_rq q c) s))
    (λ s', sched_inv hhdm n s' ∧ local_step s s' ∧
      ∃ c', cpus s' !! me = Some c' ∧ in_rescheduling c' = in_rescheduling c ∧ curr_task c' = next ∧
        cpu_tasks c' = l ++ cpu_curr c).
Proof.
  intros Hs Hi Hc El Hq Hb. destruct (cpu_at _ _ _ _ _ Hs Hi) as [Hcok _].
  pose proof (core_at _ _ _ _ _ Hs Hi) as Hcore. rewrite El in Hcore.
  assert (cpu_curr c = []) as Ecur by (unfold cpu_curr; by rewrite Hc). rewrite Ecur in Hcore.
  assert (core_inv hhdm (heap s) (task_table s) (next :: l ++ others s me) ([] ++ other_currents s me)) as Hcore'.
  { eapply core_perm; [|done|exact Hcore]. rewrite <-app_assoc. symmetry. apply Permutation_middle. }
  destruct (co_alive _ _ _ _ _ Hcore' next) as [t Ht]; [by left|].
  destruct (co_cr3 _ _ _ _ _ Hcore' _ _ Ht) as [cr3 Hcr].
  assert (next ≠ 0) as Hn0 by (intros ->; pose proof (co_ptr _ _ _ _ _ Hcore'); congruence).
  erewrite switch_from_idle_eq; [|by eapply cpus_set_eq|done|done]. simpl. apply wp_ret.
  rewrite list_insert_insert_eq. destruct (cpu_with_rq_ok hhdm n c q l Hcok Hq Hb) as [[Hr' Hb' [cr3' Hid']] Et].
  pose proof (runnable_not_asleep _ _ _ _ _ _ _ Hcore' (list_elem_of_here _ _) Ht) as Hns.
  split; [|split; [split; [done|split; [done|split; [apply length_insert|]]]|]].
  2:{ eapply heap_quiet_insert; [done|]. by split. }
  2:{ eexists. split; [by eapply cpus_set_eq|]. rewrite Ecur, app_nil_r. repeat split. exact Et. }
  eapply sched_inv_set; [done|done|lia| | | | |apply Hs].
  - unfold cpu_curr. simpl. rewrite (proj2 (Z.eqb_neq _ _)) by done.
    replace (cpu_tasks _) with l by (symmetry; exact Et). by apply core_run.
  - by eapply heap_kept_insert.
  - split; [exact Hr'|exact Hb'|by exists cr3'].
  - apply (context_next hhdm _ next t _ _ (save_idle_rsp sp (cpu_with_rq q c))); [done|done|].
    exists (with_state TaskState.Running t). by rewrite lookup_insert_eq.
Qed.

Lemma heap_quiet_swap (h : gmap Z (Task PT)) p next t0 t sp :
  next ≠ p → h !! p = Some t0 → h !! next = Some t →
  task_state t0 ≠ TaskState.Sleep → task_state t ≠ TaskState.Sleep →
  heap_quiet h (<[p:=with_saved_rsp sp (with_state TaskState.Ready t0)]>
    (<[next:=with_state TaskState.Running t]> (<[p:=with_state TaskState.Ready t0]> h))).
Proof.
  intros Hne Hp Ht Hs0 Hs. etrans; [apply (heap_quiet_insert _ p t0 (with_state TaskState.Ready t0) Hp)|].
  { by split. }
  etrans; [apply (heap_quiet_insert _ next t (with_state TaskState.Running t)); [by rewrite lookup_insert_ne|]|].
  { by split. }
  apply (heap_quiet_insert _ p (with_state TaskState.Ready t0)); [|done].
  by rewrite lookup_insert_ne, lookup_insert_eq.
Qed.

(** A busy CPU exchanges its task with the newest of its queue. *)
Lemma tick_busy_inv hhdm n s me c q q' l next sp t0 :
  sched_inv hhdm n s → cpus s !! me = Some c → curr_task c ≠ 0 → heap s !! curr_task c = Some t0 →
  cpu_tasks c = l ++ [next] → rq_seq q' (l ++ [curr_task c]) → rq_bottom q' ≤ n + 1 →
  wp (switch_to_next hhdm me next (SaveTask (curr_task c)) sp
       (set_cpu me (cpu_with_rq q' (cpu_with_rq q c))
          (store (curr_task c) (with_state TaskState.Ready t0) (set_cpu me (cpu_with_rq q c) s))))
    (λ s', sched_inv hhdm (n + 1) s' ∧ local_step s s' ∧
      ∃ c', cpus s' !! me = Some c' ∧ in_rescheduling c' = in_rescheduling c ∧ curr_task c' = next ∧
        cpu_tasks c' = l ++ cpu_curr c).
Proof.
  intros Hs Hi Hc Ht0 El Hq Hb. set (p := curr_task c) in *.
  destruct (cpu_at _ _ _ _ _ Hs Hi) as [Hcok _]. destruct (current_at _ _ _ _ _ Hs Hi Hc) as [Ecur _].
  pose proof (core_at _ _ _ _ _ Hs Hi) as Hcore. rewrite El, Ecur in Hcore. fold p in Hcore. simpl in Hcore.
  assert (next ≠ p) as Hne.
  { pose proof (co_nodup _ _ _ _ _ Hcore) as Hnd. apply NoDup_app in Hnd as (_ & Hd & _). intros ->.
    apply (Hd p); set_solver. }
  destruct (co_alive _ _ _ _ _ Hcore next) as [t Ht]; [set_solver|].
  destruct (co_cr3 _ _ _ _ _ Hcore _ _ Ht) as [cr3 Hcr].
  assert (next ≠ 0) as Hn0 by (intros ->; pose proof (co_ptr _ _ _ _ _ Hcore); congruence).
  erewrite (switch_from_task_eq _ _ _ _ _ _ (cpu_with_rq q' (cpu_with_rq q c)) t (with_state TaskState.Ready t0));
    [|eapply cpus_set_eq; by eapply cpus_set_eq|simpl; by rewrite lookup_insert_ne|done|done
     |simpl; by rewrite lookup_insert_eq]. simpl. apply wp_ret.
  rewrite !list_insert_insert_eq.
  pose proof (core_preempt _ _ _ _ _ _ _ Hcore Ht0) as Hcore1.
  assert (core_inv hhdm (<[p:=with_state TaskState.Ready t0]> (heap s)) (task_table s)
    (next :: (l ++ [p]) ++ others s me) (other_currents s me)) as Hcore2.
  { eapply core_perm; [|done|exact Hcore1]. rewrite <-!app_assoc. simpl.
    rewrite <-(Permutation_middle l (others s me) next), <-(Permutation_middle l (others s me) p).
    apply Permutation_swap. }
  pose proof (core_run _ _ _ _ _ _ t Hcore2) as Hcore3. rewrite lookup_insert_ne in Hcore3 by done.
  specialize (Hcore3 Ht).
  pose proof (core_same _ _ _ _ _ p (with_state TaskState.Ready t0) (with_saved_rsp sp (with_state TaskState.Ready t0)) Hcore3) as Hcore4.
  rewrite lookup_insert_ne, lookup_insert_eq in Hcore4 by done. specialize (Hcore4 eq_refl).
  destruct (cpu_with_rq_ok hhdm (n + 1) c q' (l ++ [p]) (cpu_ok_le hhdm n (n + 1) c ltac:(lia) Hcok) Hq Hb) as [[Hr' Hb' Hid'] Et].
  assert (next ∈ (l ++ [next]) ++ others s me) as Hnext by set_solver.
  pose proof (runnable_not_asleep _ _ _ _ _ _ _ Hcore Hnext Ht) as Hns.
  pose proof (current_not_asleep _ _ _ _ _ _ _ Hcore (list_elem_of_here _ _) Ht0) as Hns0.
  pose proof (heap_quiet_swap (heap s) p next t0 t sp Hne Ht0 Ht Hns0 Hns) as Hk.
  split; [|split; [split; [done|split; [done|split; [apply length_insert|done]]]|]].
  2:{ eexists. split; [by eapply cpus_set_eq|]. rewrite Ecur. repeat split. exact Et. }
  eapply sched_inv_set; [done|done|lia| | | | |apply Hs].
  - unfold cpu_curr. simpl. rewrite (proj2 (Z.eqb_neq _ _)) by done.
    replace (cpu_tasks _) with (l ++ [p]) by (symmetry; exact Et). by apply Hcore4.
  - by apply heap_quiet_kept.
  - split; [exact Hr'|exact Hb'|exact Hid'].
  - apply (context_next hhdm _ next t _ _ (cpu_with_rq q' (cpu_with_rq q c))); [done|done|].
    exists (with_state TaskState.Running t). rewrite lookup_insert_ne by done. by rewrite lookup_insert_eq.
Qed.

Lemma ticked_intro c c' l next :
  in_rescheduling c = false → in_rescheduling c' = in_rescheduling c → cpu_tasks c = l ++ [next] →
  curr_task c' = next → cpu_tasks c' = l ++ cpu_curr c → ticked c c'.
Proof.
  intros Er Er' El Ec Et. unfold ticked. rewrite Er', Er. split; [done|].
  destruct (cpu_tasks c) as [|x l0] eqn:E; [by destruct l|]. exists l. by rewrite Ec.
Qed.

Lemma process_tick_spec hhdm n s me c sp :
  sched_inv hhdm n s → cpus s !! me = Some c → n < u64_max →
  wp (process_tick hhdm me sp s) (λ s', sched_inv hhdm (n + 1) s' ∧ local_step s s' ∧
    ∃ c', cpus s' !! me = Some c' ∧ ticked c c').
Proof.
  intros Hs Hi Hn. destruct (cpu_at _ _ _ _ _ Hs Hi) as [[Hrq Hb _] _].
  assert (sched_inv hhdm (n + 1) s ∧ local_step s s) as [Hs1 Hl1].
  { split; [eapply sched_inv_le; [|done]; lia|]. repeat split; done. }
  unfold process_tick. rewrite (cpu_eq _ _ _ Hi). cbn [mbind outcome_bind].
  destruct (in_rescheduling c) eqn:Er.
  { apply wp_ret. split; [done|]. split; [done|]. exists c. unfold ticked. by rewrite Er. }
  destruct (last_task (cpu_tasks c)) as [El|(l & next & El)]; rewrite El in Hrq.
  - rewrite rq_pop_nil by done. cbn [mbind outcome_bind].
    assert (set_cpu me (cpu_with_rq (rq c) c) s = s) as ->.
    { destruct s, c. unfold set_cpu, with_cpus, cpu_with_rq. simpl in *. by rewrite list_insert_id. }
    assert (ticked c c) by (unfold ticked; by rewrite Er, El).
    destruct (curr_task c =? 0); apply wp_ret; eauto.
  - apply wp_bind. eapply wp_mono; [by apply rq_pop_seq|]. intros [q r] (-> & Hq & Hqb).
    destruct (Z.eqb_spec (curr_task c) 0) as [E|E].
    + eapply wp_mono; [apply (tick_idle_inv hhdm n s me c q l); try done; lia|].
      intros s' (Hs' & Hl & c' & Hc' & Er' & Ec' & Et'). split; [eapply sched_inv_le; [|done]; lia|].
      split; [done|]. exists c'. split; [done|]. by apply (ticked_intro _ _ l next).
    + destruct (current_at _ _ _ _ _ Hs Hi E) as [_ (t0 & Ht0 & _)].
      rewrite (update_eq _ _ _ t0) by done. cbn [mbind outcome_bind].
      erewrite cpu_eq by (simpl; by eapply cpus_set_eq). cbn [mbind outcome_bind].
      apply wp_bind. eapply wp_mono.
      * apply (rq_push_seq q l (curr_task c)); [done|done| |lia].
        pose proof (rq_seq_length _ _ Hrq) as Hlen. rewrite length_app in Hlen. simpl in Hlen.
        destruct Hrq. unfold RQ_CAP in *. lia.
      * intros q' [Hq' Hb']. eapply wp_mono.
        { apply (tick_busy_inv hhdm n s me c q q' l next sp t0); try done. simpl in Hb'. lia. }
        intros s' (Hs' & Hl & c' & Hc' & Er' & Ec' & Et'). split; [done|]. split; [done|].
        exists c'. split; [done|]. by apply (ticked_intro _ _ l next).
Qed.
End ops.
