(* ===== verification/SchedLoops.v ===== *)
(** * The scheduler's loops: waking sleepers and the idle loop *)
From stdpp Require Import sorting.
From S2P Require Import Prelude Misc Memblock Frame Sparsemem Zones Paging AddrSpace KernelStacks.
From S2P Require Import Objects Runqueue RunqueueSpec Sched SchedSpec SchedOps.
#[local] Open Scope Z_scope.

Section loops.
Context {PT : Type} `{!X86_64 PT}.
Implicit Types (t : Task PT) (s : Sched PT) (c : ExecCpu PT).

(** ** Waking sleeping tasks *)

Lemma elem_of_table_values s p : p ∈ table_values s ↔ ∃ i, task_table s !! i = Some p.
Proof.
  unfold table_values. rewrite list_elem_of_fmap. split.
  - intros ([i q] & -> & Hin). rewrite merge_sort_Permutation in Hin.
    exists i. by apply elem_of_map_to_list.
  - intros [i Hi]. exists (i, p). split; [done|]. rewrite merge_sort_Permutation.
    by apply elem_of_map_to_list.
Qed.

Lemma table_values_nodup hhdm n s : sched_inv hhdm n s → NoDup (table_values s).
Proof.
  intros Hs. unfold table_values. rewrite merge_sort_Permutation. apply NoDup_fmap_2_strong.
  - intros [i p] [j q] Hi Hj Heq. simpl in Heq. subst q.
    apply elem_of_map_to_list in Hi, Hj.
    destruct (co_named _ _ _ _ _ (sc_core _ _ _ Hs) _ _ Hi) as (t & Ht & <-).
    destruct (co_named _ _ _ _ _ (sc_core _ _ _ Hs) _ _ Hj) as (t' & Ht' & <-). by simplify_eq.
  - apply NoDup_map_to_list.
Qed.

Lemma id_unique hhdm n s p q t u :
  sched_inv hhdm n s → heap s !! p = Some t → heap s !! q = Some u → t_id t = t_id u → p = q.
Proof.
  intros Hs Ht Hu E. pose proof (co_table _ _ _ _ _ (sc_core _ _ _ Hs) _ _ Ht) as E1.
  pose proof (co_table _ _ _ _ _ (sc_core _ _ _ Hs) _ _ Hu) as E2. congruence.
Qed.

Definition due_id s (now i : Z) : Prop :=
  ∃ p t, heap s !! p = Some t ∧ t_id t = i ∧ due now t = true.

(** The identifiers collected by the first loop. *)
Lemma collect_due_spec hhdm n s now :
  sched_inv hhdm n s →
  wp (for_each (λ p acc, t ← deref s p; Ret (if due now t then acc ++ [t_id t] else acc)) (table_values s) [])
    (λ l, NoDup l ∧ ∀ i, i ∈ l ↔ due_id s now i).
Proof.
  intros Hs. pose proof (table_values_nodup _ _ _ Hs) as Hnd. pose proof (sc_core _ _ _ Hs) as Hcore.
  apply (wp_for_each _ _ _ (λ done acc, NoDup acc ∧
    ∀ i, i ∈ acc ↔ ∃ p t, p ∈ done ∧ heap s !! p = Some t ∧ t_id t = i ∧ due now t = true)).
  - split; [constructor|]. intros i. split; [by intros ?%not_elem_of_nil|].
    intros (p & t & Hp & _). by apply not_elem_of_nil in Hp.
  - intros done p rest acc Hl [Hacc Hin].
    assert (p ∉ done) as Hp.
    { rewrite Hl in Hnd. apply NoDup_app in Hnd as (_ & Hd & _). intros Hp. apply (Hd p Hp). by left. }
    assert (∃ i, task_table s !! i = Some p) as [i Hi].
    { apply elem_of_table_values. rewrite Hl. set_solver. }
    destruct (co_named _ _ _ _ _ Hcore _ _ Hi) as (t & Ht & <-).
    unfold deref. rewrite Ht. cbn [unwrap mbind outcome_bind]. apply wp_ret. destruct (due now t) eqn:Hdue.
    + split.
      * apply NoDup_app. split; [done|]. split; [|apply NoDup_singleton].
        intros j (p' & t' & Hp' & Ht' & Ej & _)%Hin Hj%list_elem_of_singleton. subst j.
        by rewrite (id_unique _ _ _ _ _ _ _ Hs Ht' Ht Hj) in Hp'.
      * intros j. rewrite elem_of_app, list_elem_of_singleton, Hin. split.
        -- intros [(p' & t' & ? & ?)| ->]; [exists p', t'; set_solver|exists p, t; set_solver].
        -- intros (p' & t' & [Hp'| ->%list_elem_of_singleton]%elem_of_app & Ht' & Ej & Hd'); [left; eauto 10|].
           right. by simplify_eq.
    + split; [done|]. intros j. rewrite Hin. split.
      * intros (p' & t' & ? & ?). exists p', t'. set_solver.
      * intros (p' & t' & [Hp'| ->%list_elem_of_singleton]%elem_of_app & Ht' & Ej & Hd'); [eauto 10|]. congruence.
  - intros l [Hl Hin]. split; [done|]. intros i. rewrite Hin. split.
    + intros (p & t & _ & ?). by exists p, t.
    + intros (p & t & Hp & Ei & Hd). exists p, t. split; [|done]. apply elem_of_table_values.
      exists (t_id t). by apply (co_table _ _ _ _ _ Hcore).
Qed.

Definition woken t : Task PT := with_state TaskState.Ready (with_wake 0 t).

(** The state after the tasks with identifiers in [l] have been woken. *)
Record woke hhdm n s (l : list Z) s' : Prop := {
  wk_inv : sched_inv hhdm n s';
  wk_table : task_table s' = task_table s;
  wk_cpus : cpus s' = cpus s;
  wk_heap : ∀ p, heap s' !! p = (λ t, if decide (t_id t ∈ l) then woken t else t) <$> heap s !! p;
  wk_queue : ∃ q, global_queue s' = global_queue s ++ q ∧
    ∀ p, p ∈ q ↔ ∃ t, heap s !! p = Some t ∧ t_id t ∈ l
}.

Lemma wake_one hhdm n s l i s' p t :
  sched_inv hhdm n s → woke hhdm n s l s' → i ∉ l → heap s !! p = Some t → t_id t = i →
  task_state t = TaskState.Sleep →
  wp (s ← update p (with_wake 0) s'; s ← update p (with_state TaskState.Ready) s; awaken_task p s)
    (woke hhdm n s (l ++ [i])).
Proof.
  intros Hs0 [Hs Et Ec Eh Eq] Hi Ht Hid Hst.
  assert (heap s' !! p = Some t) as Hp.
  { rewrite Eh, Ht. simpl. by rewrite decide_False by congruence. }
  assert (∀ q u, heap s !! q = Some u → t_id u ∈ l ++ [i] ↔ t_id u ∈ l ∨ q = p) as Hl.
  { intros q u Hu. rewrite elem_of_app, list_elem_of_singleton. split; intros [?|E]; try tauto.
    - right. apply (id_unique _ _ _ _ _ _ _ Hs0 Hu Ht). congruence.
    - right. subst q. congruence. }
  rewrite (update_eq _ _ _ t) by done. cbn [mbind outcome_bind].
  erewrite update_eq by (simpl; apply lookup_insert_eq). cbn [mbind outcome_bind].
  pose proof (co_table _ _ _ _ _ (sc_core _ _ _ Hs) _ _ Hp) as Htab.
  erewrite awaken_task_eq; [|simpl; apply lookup_insert_eq|done]. simpl.
  rewrite !insert_insert_eq. change (with_state TaskState.Ready (with_state TaskState.Ready (with_wake 0 t)))
    with (woken t). apply wp_ret.
  pose proof (core_same _ _ _ _ _ p t (with_wake 0 t) (sc_core _ _ _ Hs) Hp) as Hcore.
  pose proof (core_wake _ _ _ _ _ p (with_wake 0 t) (Hcore ltac:(done) ltac:(done)) (lookup_insert_eq _ _ _) Hst) as Hcore'.
  rewrite insert_insert_eq in Hcore'. fold (woken t) in Hcore'. split; simpl; try done.
  - apply sched_inv_enqueue; [done| |done|apply Hs]. by eapply heap_kept_insert.
  - intros q. destruct (decide (q = p)) as [->|Hne].
    + rewrite lookup_insert_eq, Ht. simpl. rewrite decide_True; [done|]. apply (Hl p); auto.
    + rewrite lookup_insert_ne, Eh by done. destruct (heap s !! q) as [u|] eqn:Hu; [|done]. simpl. f_equal.
      apply decide_ext. rewrite (Hl q u Hu). tauto.
  - destruct Eq as (q & Eq & Hq). exists (q ++ [p]). rewrite Eq, app_assoc. split; [done|].
    intros x. rewrite elem_of_app, list_elem_of_singleton, Hq. split.
    + intros [(u & Hu & ?)| ->]; [exists u; split; [done|]; apply (Hl x); auto|].
      exists t. split; [done|]. apply (Hl p); auto.
    + intros (u & Hu & [?|?]%(Hl x u Hu)); eauto.
Qed.

Lemma wake_sleeping_tasks_spec hhdm n s me :
  sched_inv hhdm n s →
  wp (wake_sleeping_tasks me s) (λ s', ∃ l, woke hhdm n s l s' ∧
    (∀ i, i ∈ l ↔ me = 0%nat ∧ due_id s (TICK_COUNT s) i)).
Proof.
  intros Hs. unfold wake_sleeping_tasks.
  assert (woke hhdm n s [] s) as H0.
  { split; try done.
    - intros p. destruct (heap s !! p); done.
    - exists []. rewrite app_nil_r. split; [done|]. intros p.
      split; [by intros ?%not_elem_of_nil|intros (t & _ & ?%not_elem_of_nil)]. done. }
  destruct (Nat.eqb_spec me 0) as [->|Hme]; simpl.
  2:{ apply wp_ret. exists []. split; [done|]. intros i. split; [by intros ?%not_elem_of_nil|naive_solver]. }
  apply wp_bind. eapply wp_mono; [by apply (collect_due_spec hhdm n)|]. intros l [Hnd Hl].
  apply (wp_for_each _ _ _ (λ done s', woke hhdm n s done s')); [done| |].
  - intros done i rest s' El Hw.
    assert (due_id s (TICK_COUNT s) i) as (p & t & Ht & Hid & Hd) by (apply Hl; rewrite El; set_solver).
    unfold get_task_by_index. rewrite (wk_table _ _ _ _ _ Hw), <-Hid, (co_table _ _ _ _ _ (sc_core _ _ _ Hs) _ _ Ht).
    rewrite Hid. apply (wake_one hhdm n s done i s' p t); try done.
    + rewrite El in Hnd. apply NoDup_app in Hnd as (_ & Hdj & _). intros Hi. apply (Hdj i Hi). by left.
    + unfold due in Hd. rewrite !andb_true_iff, bool_decide_eq_true in Hd. tauto.
  - intros s' Hw. exists l. split; [done|]. intros i. rewrite Hl. naive_solver.
Qed.

(** ** The timer interrupt *)

Lemma runnable_ready hhdm n s p t :
  sched_inv hhdm n s → p ∈ runnable s → heap s !! p = Some t → task_state t = TaskState.Ready.
Proof.
  intros Hs Hp Ht. pose proof (co_state _ _ _ _ _ (sc_core _ _ _ Hs) _ _ Ht) as Hst.
  pose proof (co_nodup _ _ _ _ _ (sc_core _ _ _ Hs)) as Hnd. apply NoDup_app in Hnd as (_ & Hd & _).
  specialize (Hd p Hp). destruct (task_state t); simpl in Hst; tauto.
Qed.

Definition next_tick s : Z := wrap64 (TICK_COUNT s + 1).

(** The tasks after CPU 0 has woken those that are due. *)
Definition wake_due (me : nat) (now : Z) t : Task PT :=
  if (me =? 0)%nat && due now t then woken t else t.

Lemma scheduler_tick_spec hhdm n s me c sp :
  sched_inv hhdm n s → cpus s !! me = Some c → n < u64_max →
  wp (scheduler_tick_irq hhdm me sp s) (λ s', sched_inv hhdm (n + 1) s' ∧
    task_table s' = task_table s ∧ length (cpus s') = length (cpus s) ∧
    heap_quiet (wake_due me (next_tick s) <$> heap s) (heap s') ∧
    (me = 0%nat → ∀ p t, heap s !! p = Some t → due (next_tick s) t = true →
      p ∈ global_queue s' ∧ ∃ t', heap s' !! p = Some t' ∧ task_state t' = TaskState.Ready)).
Proof.
  intros Hs Hi Hn. unfold scheduler_tick_irq.
  assert (sched_inv hhdm n (mk_sched (heap s) (task_table s) (global_queue s) (cpus s) (next_tick s))) as Hs1.
  { destruct Hs. split; try done. apply Z.mod_pos_bound. lia. }
  apply wp_bind. eapply wp_mono; [by apply wake_sleeping_tasks_spec|].
  intros s2 (l & [Hs2 Et Ec Eh (q & Eq & Hq)] & Hl). simpl in *.
  eapply wp_mono; [apply (process_tick_spec hhdm n s2 me c sp); [done|by rewrite Ec|done]|].
  intros s3 (Hs3 & (Eq3 & Et3 & El3 & Hk3) & _). split; [done|]. split; [congruence|]. split; [congruence|].
  split.
  { replace (wake_due me (next_tick s) <$> heap s) with (heap s2); [done|]. apply map_eq. intros p.
    rewrite Eh, lookup_fmap. destruct (heap s !! p) as [t|] eqn:Hp; [|done]. simpl. f_equal. unfold wake_due.
    destruct (Nat.eqb_spec me 0) as [->|Hme]; simpl.
    - destruct (due (next_tick s) t) eqn:Hd.
      + rewrite decide_True; [done|]. apply Hl. split; [done|]. by exists p, t.
      + rewrite decide_False; [done|]. intros (_ & p' & t' & Hp' & Eid & Hd')%Hl. simpl in Hp'.
        rewrite (id_unique _ _ _ _ _ _ _ Hs Hp' Hp Eid) in Hp'. simplify_eq. unfold next_tick in Hd. congruence.
    - rewrite decide_False; [done|]. by intros [? _]%Hl. }
  intros -> p t Ht Hd.
  assert (p ∈ global_queue s3) as Hin.
  { rewrite Eq3, Eq, elem_of_app. right. apply Hq. exists t. split; [done|]. apply Hl. split; [done|].
    exists p, t. done. }
  split; [done|].
  assert (is_Some (heap s3 !! p)) as [t' Ht'].
  { apply (co_alive _ _ _ _ _ (sc_core _ _ _ Hs3)). unfold runnable. rewrite !elem_of_app. auto. }
  exists t'. split; [done|]. eapply runnable_ready; [done| |done]. unfold runnable. rewrite elem_of_app. auto.
Qed.

(** ** Tasks in transit between queues *)

Record transit hhdm n (buf : list Z) s : Prop := {
  tr_core : core_inv hhdm (heap s) (task_table s) (buf ++ runnable s) (currents s);
  tr_cpus : Forall (cpu_ok hhdm n) (cpus s);
  tr_context : Forall (context_ok hhdm (heap s)) (cpus s);
  tr_tick : 0 ≤ TICK_COUNT s
}.

Lemma transit_nil hhdm n s : transit hhdm n [] s ↔ sched_inv hhdm n s.
Proof. split; intros [? ? ? ?]; done. Qed.

Lemma transit_nonnull hhdm n buf s p : transit hhdm n buf s → p ∈ buf → p ≠ 0.
Proof.
  intros Ht Hp ->. destruct (co_alive _ _ _ _ _ (tr_core _ _ _ _ Ht) 0) as [t Hz]; [set_solver|].
  by rewrite (co_ptr _ _ _ _ _ (tr_core _ _ _ _ Ht)) in Hz.
Qed.

(** A CPU's queue is replaced by one holding [l']. *)
Lemma transit_set_rq hhdm n n' buf buf' s i c q l' :
  transit hhdm n buf s → cpus s !! i = Some c → n ≤ n' → rq_seq q l' → rq_bottom q ≤ n' →
  buf' ++ l' ++ others s i ≡ₚ buf ++ cpu_tasks c ++ others s i →
  transit hhdm n' buf' (set_cpu i (cpu_with_rq q c) s).
Proof.
  intros [Hcore Hcp Hx Htick] Hi Hn Hq Hb Hperm. rewrite Forall_lookup in Hcp, Hx. pose proof (Hcp _ _ Hi) as Hc.
  destruct (cpu_with_rq_ok hhdm n' c q l' (cpu_ok_le hhdm n n' c Hn Hc) Hq Hb) as [Hok El].
  split; simpl.
  - eapply core_perm; [| |exact Hcore].
    + rewrite (runnable_split s i c Hi). etransitivity; [symmetry; exact Hperm|].
      apply Permutation_app_head. symmetry. rewrite <-El. by apply (runnable_set _ _ _ s i c).
    + rewrite (currents_split s i c Hi). change (cpu_curr c) with (cpu_curr (cpu_with_rq q c)). symmetry. by apply (currents_set _ _ _ _ s i c).
  - apply Forall_insert; [|done]. rewrite Forall_lookup. intros j c' Hj. apply (cpu_ok_le hhdm n n' c' Hn); by eapply Hcp.
  - apply Forall_insert; [by rewrite Forall_lookup|]. apply (Hx _ _ Hi).
  - done.
Qed.

(** Only queues and CPUs change. *)
Definition same_tasks s s' : Prop := heap s' = heap s ∧ task_table s' = task_table s.


Lemma push_all_spec hhdm n me l s :
  transit hhdm n l s → (me < length (cpus s))%nat → n + Z.of_nat (length l) ≤ u64_max →
  post (push_all me l s) (λ s', sched_inv hhdm (n + Z.of_nat (length l)) s' ∧
    length (cpus s') = length (cpus s) ∧ same_tasks s s') (λ p, p = PExplicit).
Proof.
  intros Ht Hme Hn. unfold push_all.
  apply (post_for_each _ _ _ (λ done s', ∃ rest, l = done ++ rest ∧
    transit hhdm (n + Z.of_nat (length done)) rest s' ∧ length (cpus s') = length (cpus s) ∧ same_tasks s s')).
  - exists l. split; [done|]. simpl. by rewrite Z.add_0_r.
  - intros done p rest s1 El (rest' & El' & Ht1 & Hlen & Hsame). rewrite El in El'.
    apply (inj (app done)) in El'. subst rest'.
    destruct (lookup_lt_is_Some_2 (cpus s1) me) as [c Hc]; [lia|].
    rewrite (cpu_eq _ _ _ Hc). cbn [mbind outcome_bind].
    pose proof (tr_cpus _ _ _ _ Ht1) as Hcp. rewrite Forall_lookup in Hcp. destruct (Hcp _ _ Hc) as [Hrq Hb _].
    rewrite El, length_app in Hn. simpl in Hn.
    destruct (decide (length (cpu_tasks c) < Z.to_nat RQ_CAP)%nat) as [Hroom|Hfull].
    + eapply post_bind; [apply (rq_push_seq _ _ p Hrq)|]; [|done|lia|].
      { eapply transit_nonnull; [done|by left]. }
      intros q [Hq Eb]. exists rest. split; [by rewrite <-app_assoc|]. split.
      * rewrite length_app. simpl. eapply (transit_set_rq _ _ _ (p :: rest) rest); [done|done|lia|done|lia|].
        rewrite <-app_assoc. simpl. rewrite app_assoc, <-Permutation_middle. by rewrite <-app_assoc.
      * simpl. by rewrite length_insert.
    + rewrite (rq_push_full _ _ p Hrq); [done|]. pose proof (rq_seq_length _ _ Hrq). destruct Hrq. unfold RQ_CAP in *. lia.
  - intros s' (rest & El & Ht' & Hlen & Hsame). split; [|done].
    assert (rest = []) as -> by (apply (inj (app l)); by rewrite app_nil_r). by apply transit_nil.
Qed.

(** ** Stealing *)

Lemma rq_steal_one q p l :
  rq_seq q (p :: l) →
  wp (rq_steal_n q 1) (λ '(q', r), r = [p] ∧ rq_seq q' l ∧ rq_bottom q' = rq_bottom q).
Proof.
  intros Hq. simpl. apply wp_bind. eapply wp_mono; [by apply rq_steal_seq|].
  intros [q' r] (-> & Hq' & Hb). cbn [mbind outcome_bind]. by apply wp_ret.
Qed.

(** The number of CPUs other than [me] among those visited. *)
Definition victims (me : nat) (l : list nat) : nat := length (filter (λ i, i ≠ me) l).

Lemma victims_snoc me l i : victims me (l ++ [i]) = (victims me l + if decide (i ≠ me) then 1 else 0)%nat.
Proof. unfold victims. rewrite filter_app, length_app, filter_cons, filter_nil. by repeat case_decide. Qed.

Lemma victims_all me n : (me < n)%nat → victims me (seq 0 n) = (n - 1)%nat.
Proof.
  intros Hme. unfold victims. replace n with (me + S (n - me - 1))%nat at 1 by lia.
  rewrite seq_app, filter_app. simpl. rewrite filter_cons_False by naive_solver.
  rewrite !filter_all by (intros x Hx%elem_of_seq; lia). rewrite length_app, !length_seq. lia.
Qed.

(** As long as the buffer has room for one task per victim, stealing moves
    tasks from the other queues into the buffer and loses none. *)
Lemma try_to_steal_into_spec hhdm n me room s :
  sched_inv hhdm n s → (me < length (cpus s))%nat → (length (cpus s) ≤ S room)%nat → (0 < room)%nat →
  wp (try_to_steal_into me room s) (λ '(s', buf), transit hhdm n buf s' ∧
    length (cpus s') = length (cpus s) ∧ (length buf ≤ room)%nat ∧ same_tasks s s').
Proof.
  intros Hs Hme Hroom Hr0. unfold try_to_steal_into. apply wp_bind.
  pose proof (victims_all me (length (cpus s)) Hme) as Hall.
  apply (wp_for_each_ret _ _ _ (λ done '(s', buf), transit hhdm n buf s' ∧
    length (cpus s') = length (cpus s) ∧ (length buf ≤ victims me done)%nat ∧ same_tasks s s')).
  - split; [by apply transit_nil|]. split; [done|]. split; [simpl; lia|done].
  - intros done i rest [s1 buf] El (Ht & Hlen & Hbuf & Hsame). rewrite victims_snoc.
    assert (victims me done + (if decide (i ≠ me) then 1 else 0) ≤ length (cpus s) - 1)%nat as Hv.
    { rewrite <-Hall, El. unfold victims. rewrite filter_app, length_app, filter_cons. case_decide; simpl; lia. }
    destruct (Nat.eqb_spec i me) as [->|Hne].
    { apply wp_ret. split; [done|]. split; [done|]. split; [lia|done]. }
    rewrite (decide_True (P:=i ≠ me)) in * by done.
    destruct (lookup_lt_is_Some_2 (cpus s1) i) as [c Hc].
    { pose proof (f_equal (.!! length done) El) as E. rewrite list_lookup_middle in E by done.
      apply lookup_seq in E. lia. }
    rewrite (cpu_eq _ _ _ Hc). cbn [mbind outcome_bind].
    pose proof (tr_cpus _ _ _ _ Ht) as Hcp. rewrite Forall_lookup in Hcp. destruct (Hcp _ _ Hc) as [Hrq Hb _].
    rewrite (rq_len_spec _ _ Hrq). destruct (Z.ltb_spec (Z.of_nat (length (cpu_tasks c))) (Z.of_nat room)).
    { apply wp_ret. split; [done|]. split; [done|]. split; [lia|done]. }
    destruct (cpu_tasks c) as [|p l] eqn:Et; [simpl in *; lia|].
    apply wp_bind. eapply wp_mono; [by apply (rq_steal_one _ p l)|]. intros [q r] (-> & Hq & Hqb).
    cbn [for_each_ret]. destruct (Nat.leb_spec room (length buf)); [lia|]. cbn [mbind outcome_bind].
    apply wp_ret. split; [|split; [|split; [|done]]].
    + eapply (transit_set_rq _ _ _ buf); [done|done|lia|done|lia|]. rewrite Et, <-app_assoc. done.
    + simpl. by rewrite length_insert.
    + rewrite length_app. simpl. lia.
  - intros [s' buf] (Ht & Hlen & Hbuf & Hsame). apply wp_ret. split; [done|]. split; [done|]. split; [lia|done].
Qed.

Lemma steal_from_global_spec s k :
  let '(s', l) := steal_from_global s k in
  global_queue s = l ++ global_queue s' ∧ s' = with_queue (global_queue s') s ∧ (length l ≤ k)%nat.
Proof.
  revert s. induction k as [|k IH]; intros s; simpl.
  - split; [done|]. split; [by destruct s|lia].
  - unfold queue_pop. destruct (global_queue s) as [|p q] eqn:Eq; simpl.
    + split; [by rewrite Eq|]. split; [by destruct s|lia].
    + specialize (IH (with_queue q s)). destruct (steal_from_global (with_queue q s) k) as [s' l].
      destruct IH as (E & Es & Hl). simpl in E. rewrite E. split; [done|]. split; [by rewrite Es|simpl; lia].
Qed.

Lemma transit_global hhdm n s k :
  sched_inv hhdm n s → let '(s', l) := steal_from_global s k in
  transit hhdm n l s' ∧ cpus s' = cpus s ∧ (length l ≤ k)%nat ∧ same_tasks s s'.
Proof.
  intros [Hcore Hcp Hx Htick]. pose proof (steal_from_global_spec s k) as Hst.
  destruct (steal_from_global s k) as [s' l]. destruct Hst as (E & Es & Hl).
  assert (cpus s' = cpus s ∧ heap s' = heap s ∧ task_table s' = task_table s ∧
    TICK_COUNT s' = TICK_COUNT s) as (Ec & Eh & Et & Ek) by by rewrite Es.
  split; [|done]. split; rewrite ?Ec, ?Eh, ?Et, ?Ek; try done.
  eapply core_perm; [| |exact Hcore].
  - unfold runnable. rewrite Ec, E. by rewrite app_assoc.
  - unfold currents. by rewrite Ec.
Qed.

Lemma sched_inv_rescheduling hhdm n s me c b :
  sched_inv hhdm n s → cpus s !! me = Some c → sched_inv hhdm n (set_cpu me (set_rescheduling b c) s).
Proof.
  intros Hs Hi. destruct (cpu_at _ _ _ _ _ Hs Hi) as [Hc Hx]. pose proof (core_at _ _ _ _ _ Hs Hi) as Hcore.
  apply (sched_inv_set hhdm n n s me c); [done|done|lia|done|apply heap_kept_refl| |done|apply Hs].
  by destruct Hc.
Qed.

Lemma idle_iteration_spec hhdm n s me :
  sched_inv hhdm n s → (me < length (cpus s))%nat → (length (cpus s) ≤ 5)%nat → n + 4 ≤ u64_max →
  post (idle_iteration me s) (λ s', sched_inv hhdm (n + 4) s' ∧ length (cpus s') = length (cpus s) ∧
    same_tasks s s') (λ p, p = PExplicit).
Proof.
  intros Hs Hme Hcpus Hn. destruct (lookup_lt_is_Some_2 (cpus s) me Hme) as [c Hc].
  unfold idle_iteration. rewrite (cpu_eq _ _ _ Hc). cbn [mbind outcome_bind].
  pose proof (sched_inv_rescheduling _ _ _ _ _ true Hs Hc) as Hs1. set (s1 := set_cpu me _ s) in *.
  assert (length (cpus s1) = length (cpus s)) as E1 by (simpl; by rewrite length_insert).
  eapply post_bind; [apply (try_to_steal_into_spec hhdm n me STEAL_BATCH s1); [done|lia|unfold STEAL_BATCH; lia|unfold STEAL_BATCH; lia]|].
  intros [s2 buf] (Ht & El & Hbuf & [Eh Et]). unfold STEAL_BATCH in Hbuf.
  eapply (post_bind_post _ _ (λ s', sched_inv hhdm (n + 4) s' ∧ length (cpus s') = length (cpus s) ∧ same_tasks s s')).
  - destruct buf as [|p buf].
    + apply transit_nil in Ht. pose proof (transit_global _ _ _ STEAL_BATCH Ht) as Hg.
      destruct (steal_from_global s2 STEAL_BATCH) as [s3 l]. destruct Hg as (Ht3 & Ec & Hl & [Eh3 Et3]). unfold STEAL_BATCH in Hl.
      eapply post_mono; [apply (push_all_spec hhdm n me l s3 Ht3); [rewrite Ec; lia|lia]|].
      intros s4 (Hs4 & El4 & [Eh4 Et4]). split; [eapply sched_inv_le; [|done]; lia|].
      split; [rewrite El4, Ec; lia|]. split; [by rewrite Eh4, Eh3|by rewrite Et4, Et3].
    + eapply post_mono; [apply (push_all_spec hhdm n me _ s2 Ht); [lia|simpl in *; lia]|].
      intros s4 (Hs4 & El4 & [Eh4 Et4]). split; [eapply sched_inv_le; [|done]; simpl in *; lia|].
      split; [lia|]. split; [by rewrite Eh4|by rewrite Et4].
  - intros s4 (Hs4 & El4 & Hsame). destruct (lookup_lt_is_Some_2 (cpus s4) me) as [c4 Hc4]; [lia|].
    rewrite (cpu_eq _ _ _ Hc4). cbn [mbind outcome_bind]. split; [by apply sched_inv_rescheduling|].
    simpl. by rewrite length_insert.
Qed.
End loops.
