(* ===== verification/SchedTheorems.v ===== *)
(** * The scheduler: theorems

    The invariant holds in every state the scheduler can reach; the timer
    interrupt wakes the sleepers whose time has come; and two consequences of
    taking the newest task first and of the fixed steal buffer. *)
From stdpp Require Import sorting.
From S2P Require Import Prelude Misc Memblock Frame Sparsemem Zones Paging PagingRef AddrSpace KernelStacks.
From S2P Require Import Objects Runqueue RunqueueSpec Sched SchedSpec SchedOps SchedLoops.
#[local] Open Scope Z_scope.

Section theorems.
Context {PT : Type} `{!X86_64 PT}.
Implicit Types (t : Task PT) (s : Sched PT) (c : ExecCpu PT).

(** ** Runs of the scheduler *)

Definition sched_init (idles : list (Task PT)) : Sched PT :=
  mk_sched ∅ ∅ [] (cpu_new <$> idles) 0.

(** What can happen: a task is created; a CPU enters the scheduler, takes a timer interrupt, runs
    its idle loop, or its current task blocks on IPC or goes to sleep; a
    blocked task is woken by a message.  [sp] is the stack pointer of the
    interrupted context. *)
Inductive sched_step (hhdm : Z) : Sched PT → Sched PT → Prop :=
  | step_spawn p t s s' :
      heap s !! p = None → p ≠ 0 → task_table s !! t_id t = None →
      task_state t = TaskState.Ready → (∃ cr3, cr3_of hhdm t cr3) →
      add_task_to_execute (store p t s) p = Ret s' → sched_step hhdm s s'
  | step_start me c sp num' s s' :
      cpus s !! me = Some c → curr_task c = 0 →
      init_scheduler_percpu hhdm (Z.of_nat me) sp s = Ret (num', s') → sched_step hhdm s s'
  | step_tick me sp s s' :
      (me < length (cpus s))%nat → scheduler_tick_irq hhdm me sp s = Ret s' → sched_step hhdm s s'
  | step_idle me s s' :
      (me < length (cpus s))%nat → idle_iteration me s = Ret s' → sched_step hhdm s s'
  | step_block me sp c s s' :
      cpus s !! me = Some c → curr_task c ≠ 0 →
      block_current_on_ipc hhdm me sp s = Ret s' → sched_step hhdm s s'
  | step_sleep me ns sp c s s' :
      cpus s !! me = Some c → curr_task c ≠ 0 → 0 ≤ ns →
      sleep hhdm me ns sp s = Ret s' → sched_step hhdm s s'
  | step_wake p t s s' :
      heap s !! p = Some t → task_state t = TaskState.Sleep →
      awaken_task p s = Ret s' → sched_step hhdm s s'.

Lemma sched_init_inv hhdm idles :
  Forall (λ t, ∃ cr3, cr3_of hhdm t cr3) idles → sched_inv hhdm 0 (sched_init idles).
Proof.
  intros Hid. unfold sched_init.
  assert (concat (cpu_tasks <$> (cpu_new <$> idles)) = []) as E1.
  { clear Hid. induction idles as [|t l IH]; [done|]. rewrite !fmap_cons. cbn [concat]. rewrite IH, app_nil_r. apply rq_new_seq. }
  assert (concat (cpu_curr <$> (cpu_new <$> idles)) = []) as E2.
  { clear Hid. induction idles as [|t l IH]; [done|]. rewrite !fmap_cons. cbn [concat]. by rewrite IH. }
  split; simpl.
  - unfold runnable, currents. simpl. rewrite E1, E2.
    split; simpl; try done; [constructor|intros p Hp; by apply not_elem_of_nil in Hp].
  - apply Forall_fmap. eapply Forall_impl; [exact Hid|]. intros t Ht. split; [apply rq_new_seq|done|done].
  - apply Forall_fmap. apply Forall_true. done.
  - done.
Qed.

Lemma sched_step_inv hhdm n s s' :
  sched_step hhdm s s' → sched_inv hhdm n s → n + 4 ≤ u64_max → (length (cpus s) ≤ 5)%nat →
  sched_inv hhdm (n + 4) s' ∧ length (cpus s') = length (cpus s).
Proof.
  intros Hst Hs Hn Hc.
  assert (∀ n', n' ≤ n + 4 → sched_inv hhdm n' s' → sched_inv hhdm (n + 4) s') as Hle.
  { intros n' Hn'. by apply sched_inv_le. }
  destruct Hst as [p t s s' Hp Hp0 Hid Hr Hcr E
    |me c sp num' s s' Hi Hc0 E|me sp s s' Hme E|me s s' Hme E|me sp c s s' Hi Hcur E
    |me ns sp c s s' Hi Hcur Hns E|p t s s' Hp Hsl E].
  - pose proof (wp_inv _ _ _ E (spawn_spec hhdm n s p t Hs Hp Hp0 Hid Hr Hcr)) as (H & Ec & _).
    rewrite Ec. split; [apply (Hle n); [lia|done]|done].
  - pose proof (wp_inv _ _ _ E (init_scheduler_percpu_spec hhdm n s me c _ sp Hs Hi eq_refl Hc0)) as (_ & H & Ec & _).
    split; [apply (Hle n); [lia|done]|done].
  - destruct (lookup_lt_is_Some_2 (cpus s) me Hme) as [c Hi].
    pose proof (wp_inv _ _ _ E (scheduler_tick_spec hhdm n s me c sp Hs Hi ltac:(lia))) as (H & _ & Ec & _).
    split; [apply (Hle (n + 1)); [lia|done]|done].
  - pose proof (idle_iteration_spec hhdm n s me Hs Hme Hc Hn) as Hw. rewrite E in Hw. destruct Hw as (? & ? & _). done.
  - pose proof (wp_inv _ _ _ E (block_current_on_ipc_spec hhdm n s me c sp Hs Hi Hcur)) as (H & t & _ & _ & _ & Ec).
    split; [apply (Hle n); [lia|done]|done].
  - pose proof (sleep_spec hhdm n s me c ns sp Hs Hi Hcur Hns) as Hw. rewrite E in Hw. destruct Hw as (H & Ec & _).
    split; [apply (Hle n); [lia|done]|done].
  - destruct (awaken_task_spec hhdm n s p t Hs Hp Hsl) as (s1 & E1 & H & _ & _ & _ & Ec).
    rewrite E1 in E. injection E as ->. rewrite Ec. split; [apply (Hle n); [lia|done]|done].
Qed.

Lemma sched_reachable hhdm idles k s :
  Forall (λ t, ∃ cr3, cr3_of hhdm t cr3) idles → (length idles ≤ 5)%nat → 4 * Z.of_nat k ≤ u64_max →
  nsteps (sched_step hhdm) k (sched_init idles) s →
  sched_inv hhdm (4 * Z.of_nat k) s ∧ length (cpus s) = length idles.
Proof.
  intros Hid Hlen Hk Hsteps. revert s Hk Hsteps. induction k as [|k IH]; intros s Hk Hsteps.
  - inversion Hsteps; subst. split; [by apply sched_init_inv|]. simpl. by rewrite length_fmap.
  - apply nsteps_inv_r in Hsteps as (s1 & Hsteps & Hst). destruct (IH s1) as [Hs1 Hl1]; [lia|done|].
    destruct (sched_step_inv _ _ _ _ Hst Hs1) as [Hs Hl]; [lia|lia|].
    split; [|congruence]. by replace (4 * Z.of_nat (S k)) with (4 * Z.of_nat k + 4) by lia.
Qed.

(** Where a task is: how often its pointer occurs in queues and as the current
    task of a CPU. *)
Definition occurrences s (p : Z) : nat :=
  length (filter (λ q, q = p) (runnable s)) + length (filter (λ q, q = p) (currents s)).

Lemma filter_nodup (l : list Z) p : NoDup l → length (filter (λ q, q = p) l) = if decide (p ∈ l) then 1%nat else 0%nat.
Proof.
  induction 1 as [|x l Hx _ IH]; [done|]. destruct (decide (x = p)) as [->|Hne].
  - rewrite filter_cons_True by done. simpl. rewrite IH, decide_False by done. rewrite decide_True; [done|]. by left.
  - rewrite filter_cons_False by done. rewrite IH. apply decide_ext. set_solver.
Qed.

Lemma placed_once hhdm n s p t :
  sched_inv hhdm n s → heap s !! p = Some t →
  occurrences s p = (if decide (task_state t = TaskState.Sleep) then 0 else 1)%nat.
Proof.
  intros Hs Ht. pose proof (sc_core _ _ _ Hs) as Hcore. pose proof (co_state _ _ _ _ _ Hcore _ _ Ht) as Hst.
  pose proof (co_nodup _ _ _ _ _ Hcore) as Hnd. apply NoDup_app in Hnd as (H1 & Hd & H2).
  unfold occurrences. rewrite !filter_nodup by done. specialize (Hd p).
  destruct (task_state t); simpl in Hst; repeat case_decide; try done; tauto.
Qed.

Lemma placed_alive hhdm n s p : sched_inv hhdm n s → occurrences s p ≠ 0%nat → is_Some (heap s !! p).
Proof.
  intros Hs Ho. pose proof (sc_core _ _ _ Hs) as Hcore. apply (co_alive _ _ _ _ _ Hcore).
  pose proof (co_nodup _ _ _ _ _ Hcore) as Hnd. apply NoDup_app in Hnd as (H1 & _ & H2).
  unfold occurrences in Ho. rewrite !filter_nodup in Ho by done. rewrite elem_of_app.
  repeat case_decide; try tauto.
Qed.

(** C7: in every state reachable on a machine of at most five CPUs by scheduler
    operations, each an atomic step, each task is in exactly one place: once in
    the queues or as the current task of a CPU if it is ready or running, and
    nowhere if it sleeps.  Only live tasks are queued, every CPU runs its
    current task with that task's page table and kernel stack, and the next
    timer interrupt on any CPU returns. *)
Theorem no_task_lost_or_duplicated hhdm idles k s :
  Forall (λ t, ∃ cr3, cr3_of hhdm t cr3) idles → (length idles ≤ 5)%nat →
  4 * Z.of_nat k < u64_max → nsteps (sched_step hhdm) k (sched_init idles) s →
  (∀ p t, heap s !! p = Some t →
     occurrences s p = (if decide (task_state t = TaskState.Sleep) then 0 else 1)%nat) ∧
  (∀ p, occurrences s p ≠ 0%nat → is_Some (heap s !! p)) ∧
  Forall (context_ok hhdm (heap s)) (cpus s) ∧
  ∀ me sp, (me < length (cpus s))%nat → wp (scheduler_tick_irq hhdm me sp s) (λ _, True).
Proof.
  intros Hid Hlen Hk Hsteps. destruct (sched_reachable hhdm idles k s Hid Hlen ltac:(lia) Hsteps) as [Hs Hl].
  split; [intros p t; by eapply placed_once|]. split; [intros p; by eapply placed_alive|].
  split; [apply Hs|]. intros me sp Hme. destruct (lookup_lt_is_Some_2 (cpus s) me Hme) as [c Hi].
  eapply wp_mono; [by apply (scheduler_tick_spec hhdm _ s me c sp Hs Hi)|done].
Qed.

(** C31: the timer interrupt of CPU 0 makes every sleeping task whose wake-up
    time has come ready and puts it on the global queue. *)
Theorem expired_sleepers_woken hhdm n s c sp :
  sched_inv hhdm n s → cpus s !! 0%nat = Some c → n < u64_max →
  wp (scheduler_tick_irq hhdm 0 sp s) (λ s', ∀ p t, heap s !! p = Some t →
    task_state t = TaskState.Sleep → wake_at_tick t ≠ 0 → wake_at_tick t ≤ next_tick s →
    p ∈ global_queue s' ∧ ∃ t', heap s' !! p = Some t' ∧ task_state t' = TaskState.Ready).
Proof.
  intros Hs Hi Hn. eapply wp_mono; [by apply (scheduler_tick_spec hhdm n s 0 c sp)|].
  intros s' (_ & _ & _ & _ & Hw) p t Ht Hst Hw0 Hle. apply (Hw eq_refl p t Ht). unfold due.
  rewrite bool_decide_true by done. rewrite (proj2 (Z.eqb_neq _ _)), (proj2 (Z.leb_le _ _)) by done. done.
Qed.

(** ** Older tasks starve *)

Lemma tick_swaps c c' l a :
  in_rescheduling c = false → curr_task c ≠ 0 → cpu_tasks c = l ++ [a] → ticked c c' →
  in_rescheduling c' = false ∧ curr_task c' = a ∧ cpu_tasks c' = l ++ [curr_task c].
Proof.
  intros Er Hc El [Er' Ht]. rewrite Er in *. split; [done|].
  assert (∃ l0, cpu_tasks c = l0 ++ [curr_task c'] ∧ cpu_tasks c' = l0 ++ cpu_curr c) as (l0 & E1 & E2).
  { destruct (cpu_tasks c); [by destruct l|done]. }
  rewrite El in E1. apply app_inj_tail in E1 as [<- <-]. split; [done|]. rewrite E2. unfold cpu_curr.
  by rewrite (proj2 (Z.eqb_neq _ _)).
Qed.

(** A CPU with at least one queued task gives its time to only two tasks.
    However many timer interrupts it handles, its current task is always the
    one it started with or the newest of its queue; the older tasks of the
    queue keep their places and never run. *)
Theorem older_tasks_starve hhdm n s me c l next sps :
  sched_inv hhdm n s → cpus s !! me = Some c → in_rescheduling c = false → curr_task c ≠ 0 →
  cpu_tasks c = l ++ [next] → n + Z.of_nat (length sps) ≤ u64_max →
  wp (for_each (λ sp s, process_tick hhdm me sp s) sps s) (λ s',
    ∃ c' a, cpus s' !! me = Some c' ∧ cpu_tasks c' = l ++ [a] ∧
      (curr_task c' = curr_task c ∨ curr_task c' = next)).
Proof.
  intros Hs Hi Hr Hc El Hn.
  apply (wp_for_each _ _ _ (λ done s', sched_inv hhdm (n + Z.of_nat (length done)) s' ∧
    ∃ c', cpus s' !! me = Some c' ∧ in_rescheduling c' = false ∧ curr_task c' ≠ 0 ∧
      ((curr_task c' = curr_task c ∧ cpu_tasks c' = l ++ [next]) ∨
       (curr_task c' = next ∧ cpu_tasks c' = l ++ [curr_task c])))).
  - simpl. rewrite Z.add_0_r. split; [done|]. exists c. do 3 (split; [done|]). by left.
  - intros done sp rest s1 E (Hs1 & c1 & Hi1 & Hr1 & Hc1 & Hcase).
    rewrite E, length_app in Hn. simpl in Hn.
    eapply wp_mono; [apply (process_tick_spec hhdm _ s1 me c1 sp Hs1 Hi1); lia|].
    intros s2 (Hs2 & _ & c2 & Hi2 & Ht). rewrite length_app. simpl. split.
    { by replace (n + Z.of_nat (length done + 1)) with (n + Z.of_nat (length done) + 1) by lia. }
    exists c2. split; [done|].
    assert (∃ a, cpu_tasks c1 = l ++ [a]) as [a Ea] by naive_solver.
    destruct (tick_swaps _ _ _ _ Hr1 Hc1 Ea Ht) as (Hr2 & Ec2 & Et2). split; [done|].
    destruct (cpu_at _ _ _ _ _ Hs1 Hi1) as [[Hrq _ _] _]. pose proof (rs_nonnull _ _ Hrq) as Hnn.
    rewrite Ea in Hnn. apply Forall_app in Hnn as [_ [Ha _]%Forall_cons]. split; [congruence|].
    destruct Hcase as [[E1 E2]|[E1 E2]]; [right|left]; rewrite E2 in Ea; apply app_inj_tail in Ea as [_ Ea];
      split; congruence.
  - intros s' (_ & c' & Hi' & _ & _ & Hcase). exists c'. naive_solver.
Qed.
End theorems.

(** ** A small machine *)

Definition sample_idle : Task ref_pt :=
  mk_task 0 regs_default 0 (as_new (mk_ref 0xFFFF800000001000 ∅)) (mk_stack 0 0 []) cnode_new TaskState.Ready.
Definition sample_task (id : Z) : Task ref_pt :=
  mk_task id regs_default 0 (as_new (mk_ref 0xFFFF800000002000 ∅)) (mk_stack 0 0x5000 []) cnode_new TaskState.Ready.
Definition sample_hhdm : Z := 0xFFFF800000000000.

Lemma sample_idles_ok : Forall (λ t, ∃ cr3, cr3_of sample_hhdm t cr3) [sample_idle; sample_idle].
Proof. repeat constructor; by exists 0x1000. Qed.

(** Three tasks are created, CPU 0 fetches them and takes a timer
    interrupt; the task it then runs goes to sleep. *)
Definition after (m : outcome (Sched ref_pt)) : Sched ref_pt := default (sched_init []) (match m with Ret s => Some s | _ => None end).
Definition sample1 := after (add_task_to_execute (store 7 (sample_task 1) (sched_init [sample_idle; sample_idle])) 7).
Definition sample2 := after (add_task_to_execute (store 8 (sample_task 2) sample1) 8).
Definition sample3 := after (add_task_to_execute (store 9 (sample_task 3) sample2) 9).
Definition sample4 := after (idle_iteration 0 sample3).
Definition sample5 := after (scheduler_tick_irq sample_hhdm 0 0x4000 sample4).
Definition sample6 := after (sleep sample_hhdm 0 1 0x4800 sample5).

Lemma sample5_steps : nsteps (sched_step sample_hhdm) 5 (sched_init [sample_idle; sample_idle]) sample5.
Proof.
  eapply nsteps_l; [apply (step_spawn _ 7 (sample_task 1)); try done; by exists 0x2000|].
  eapply nsteps_l; [apply (step_spawn _ 8 (sample_task 2)); try done; by exists 0x2000|].
  eapply nsteps_l; [apply (step_spawn _ 9 (sample_task 3)); try done; by exists 0x2000|].
  eapply nsteps_l; [apply (step_idle _ 0 _ sample4); [simpl; lia|vm_compute; reflexivity]|].
  apply nsteps_once. apply (step_tick _ 0 0x4000); [vm_compute; lia|vm_compute; reflexivity].
Qed.

Lemma sample6_steps : nsteps (sched_step sample_hhdm) 6 (sched_init [sample_idle; sample_idle]) sample6.
Proof.
  eapply nsteps_r; [apply sample5_steps|].
  eapply (step_sleep _ 0 1 0x4800); [vm_compute; reflexivity|vm_compute; discriminate|lia|vm_compute; reflexivity].
Qed.

Lemma no_task_lost_or_duplicated_witness :
  occurrences sample6 9 = 0%nat ∧ occurrences sample6 8 = 1%nat ∧ occurrences sample6 7 = 1%nat ∧
  wp (scheduler_tick_irq sample_hhdm 1 0x4000 sample6) (λ _, True).
Proof.
  destruct (no_task_lost_or_duplicated sample_hhdm [sample_idle; sample_idle] 6 sample6 sample_idles_ok
    ltac:(simpl; lia) ltac:(unfold u64_max; lia) sample6_steps) as (H & _ & _ & Hw).
  do 3 (split; [eapply eq_trans; [eapply H; vm_compute; reflexivity|reflexivity]|]).
  apply Hw. vm_compute. lia.
Defined.

Lemma expired_sleepers_woken_witness :
  wp (scheduler_tick_irq sample_hhdm 0 0x4000 sample6) (λ s', 9 ∈ global_queue s').
Proof.
  destruct (sched_reachable sample_hhdm [sample_idle; sample_idle] 6 sample6 sample_idles_ok
    ltac:(simpl; lia) ltac:(unfold u64_max; lia) sample6_steps) as [Hs _].
  eapply wp_mono; [eapply (expired_sleepers_woken sample_hhdm _ sample6 _ 0x4000 Hs);
    [vm_compute; reflexivity|unfold u64_max; lia]|].
  intros s' H. eapply (H 9); [vm_compute; reflexivity|vm_compute; reflexivity|vm_compute; discriminate|].
  vm_compute. discriminate.
Defined.

(** CPU 0 runs task 9 with 7 and 8 queued; task 7 stays where it is. *)
Lemma older_tasks_starve_witness :
  wp (for_each (λ sp s, process_tick sample_hhdm 0 sp s) [0x4000; 0x4100; 0x4200] sample5) (λ s',
    ∃ c' a, cpus s' !! 0%nat = Some c' ∧ cpu_tasks c' = [7; a] ∧ (curr_task c' = 9 ∨ curr_task c' = 8)).
Proof.
  destruct (sched_reachable sample_hhdm [sample_idle; sample_idle] 5 sample5 sample_idles_ok
    ltac:(simpl; lia) ltac:(unfold u64_max; lia) sample5_steps) as [Hs _].
  set (c := default (cpu_new sample_idle) (cpus sample5 !! 0%nat)).
  assert (curr_task c = 9) as Ec by (vm_compute; reflexivity).
  eapply wp_mono; [apply (older_tasks_starve sample_hhdm _ sample5 0 c [7] 8 [0x4000; 0x4100; 0x4200] Hs)|].
  - vm_compute. reflexivity.
  - vm_compute. reflexivity.
  - rewrite Ec. discriminate.
  - vm_compute. reflexivity.
  - unfold u64_max. simpl. lia.
  - cbv beta. rewrite Ec. intros s' H. exact H.
Defined.

(** ** More than five CPUs

    Six CPUs, five of them with four queued tasks each: the idle CPU 0 takes
    one task from each of the others, but its buffer holds four. *)
Definition loaded_cpu (base : Z) : ExecCpu ref_pt :=
  let q := for_each (λ p q, rq_push q p) [base; base + 1; base + 2; base + 3] rq_new in
  cpu_with_rq (match q with Ret q => q | _ => rq_new end) (cpu_new sample_idle).

Definition six_cpus : Sched ref_pt :=
  mk_sched ∅ ∅ [] (cpu_new sample_idle :: (loaded_cpu <$> [10; 20; 30; 40; 50])) 0.

(** The task stolen last is in no queue afterwards: it is dropped. *)
Theorem fifth_stolen_task_lost :
  occurrences six_cpus 50 = 1%nat ∧
  ∃ s', idle_iteration 0 six_cpus = Ret s' ∧ occurrences s' 50 = 0%nat ∧
    (∀ p, p ∈ [10; 20; 30; 40] → occurrences s' p = 1%nat).
Proof.
  split; [vm_compute; reflexivity|].
  eexists. split; [vm_compute; reflexivity|]. split; [vm_compute; reflexivity|].
  intros p Hp. repeat (apply elem_of_cons in Hp as [->|Hp]; [vm_compute; reflexivity|]).
  by apply not_elem_of_nil in Hp.
Qed.
