(* ===== verification/Syscalls.v ===== *)
(** * System calls

    Models kernel/src/arch/amd64/scheduler/syscall: cap_check.rs,
    ipc_handlers.rs, memory_handler.rs, thread_handler.rs and the dispatcher of
    mod.rs, and the capabilities the first task gets (make_init_caps of
    scheduler/exec_loader.rs).  The kernel's state puts the scheduler, the object table, the IPC
    manager and the page allocator together.

    A handler runs on the CPU [me] with interrupts masked, up to the end of the
    system call or up to the context switch inside [block_current_on_ipc] or
    [sleep], where the task is suspended in the kernel; [resume] is the rest of
    the handler, which runs when the task is scheduled again.  [sp] is the
    stack pointer that the context switch saves. *)
From S2P Require Import Prelude Misc Memblock Frame Sparsemem Zones Paging AddrSpace KernelStacks.
From S2P Require Import Objects Endpoints Runqueue Sched.
#[local] Open Scope Z_scope.

Module CapError.
Inductive t := InvalidIdx | WrongType | WrongOwner | InsufficientRights.
End CapError.

Definition as_syscall_err (e : CapError.t) : Z :=
  match e with
  | CapError.InvalidIdx => u64_max
  | CapError.WrongType => u64_max - 1
  | CapError.WrongOwner => u64_max - 2
  | CapError.InsufficientRights => u64_max - 3
  end.

Inductive IpcSyscallRetCodes :=
  | IpcOk | IpcNotReady | IpcInvalidEp | IpcInvalidCap | IpcPermissionDenied | IpcUnknown.

(** [code as u64]. *)
Definition ret_code (c : IpcSyscallRetCodes) : Z :=
  match c with
  | IpcOk => 0
  | IpcNotReady => 17
  | IpcInvalidEp => 10
  | IpcInvalidCap => 11
  | IpcPermissionDenied => 12
  | IpcUnknown => 32
  end.

(** System call numbers. *)
Definition SYS_DEBUG_PRINT : Z := 0x10.
Definition IpcSend : Z := 0x60.
Definition IpcRecv : Z := 0x61.
Definition IpcCall : Z := 0x62.
Definition IpcReply : Z := 0x63.
Definition IpcEpCreate : Z := 0x64.
Definition IpcEpDestroy : Z := 0x65.
Definition FrameAlloc : Z := 0x2.
Definition VmaMap : Z := 0x3.
Definition VmaUnmap : Z := 0x4.
Definition Mprotect : Z := 0x5.
Definition ThreadSleep : Z := 0x99.

Record IpcSyscallArguments := mk_ipc_args {
  ipc_ep_id : Z;
  ipc_msg : list Z
}.

(** Where a suspended task continues. *)
Inductive after := AfterRecv | AfterSleep.

Inductive verdict :=
  | Returns (v : Z)
  | Suspends (a : after).

Definition returns (c : IpcSyscallRetCodes) : verdict := Returns (ret_code c).

Section syscalls.
Context {PT M : Type} `{!X86_64 PT} `{!PageSource M}.

Record Kernel := mk_kernel {
  k_sched : Sched PT;
  k_objects : ObjectTable;
  k_ipc : IpcManager;
  k_mem : M;
  k_console : list Z
}.

Definition with_sched (s : Sched PT) (k : Kernel) : Kernel :=
  mk_kernel s (k_objects k) (k_ipc k) (k_mem k) (k_console k).
Definition with_objects (o : ObjectTable) (k : Kernel) : Kernel :=
  mk_kernel (k_sched k) o (k_ipc k) (k_mem k) (k_console k).
Definition with_ipc (m : IpcManager) (k : Kernel) : Kernel :=
  mk_kernel (k_sched k) (k_objects k) m (k_mem k) (k_console k).
Definition with_mem (m : M) (k : Kernel) : Kernel :=
  mk_kernel (k_sched k) (k_objects k) (k_ipc k) m (k_console k).

(** The task with an id: its pointer and value. *)
Definition lookup_task (k : Kernel) (idx : Z) : outcome (option (Z * Task PT)) :=
  match get_task_by_index (k_sched k) idx with
  | None => Ret None
  | Some p => t ← deref (k_sched k) p; Ret (Some (p, t))
  end.

(** [PerCpuSchedulerData::get().curr_task_id.id()]. *)
Definition current_id (k : Kernel) (me : nat) : outcome Z :=
  c ← cpu (k_sched k) me;
  Ret (curr_task_id c).

(** ** Capabilities *)

Definition resolve_cap (k : Kernel) (t : Task PT) (cap_idx : Z) (expected_type : KernelObjType.t)
    (required_rights : Z) : outcome (result CapError.t (HandleRef * Z)) :=
  oc ← cnode_get (cnode t) (wrap32 cap_idx);
  match oc with
  | None => Ret (Err CapError.InvalidIdx)
  | Some cap =>
      if negb (rights_contain (cap_rights cap) required_rights) then Ret (Err CapError.InsufficientRights)
      else
        valid ← with_object (k_objects k) (cap_handle cap) (λ o, bool_decide (obj_type o = expected_type));
        if negb (default false valid) then Ret (Err CapError.WrongType)
        else Ret (Ok (cap_handle cap, cap_rights cap))
  end.

(** [cap_idx] is a [u32]. *)
Definition resolve_endpoint_cap (k : Kernel) (t : Task PT) (cap_idx required_rights : Z)
    : outcome (result IpcSyscallRetCodes Z) :=
  r ← resolve_cap k t cap_idx KernelObjType.Endpoint required_rights;
  match r with
  | Err _ => Ret (Err IpcInvalidCap)
  | Ok (handle, _) =>
      r ← with_object (k_objects k) handle (λ o,
        match obj_data o with ObjData.Endpoint ep_id => Some ep_id | _ => None end);
      match mjoin r with
      | Some ep_id => Ret (Ok ep_id)
      | None => Ret (Err IpcInvalidCap)
      end
  end.

(** ** IPC *)

Definition handle_ipc_ep_create (k : Kernel) (curr_task_id : Z) : outcome (Kernel * Z) :=
  let '(m, r) := ipc_create_endpoint (k_ipc k) curr_task_id in
  ep_id ← unwrap r;
  let k := with_ipc m k in
  '(o, r) ← obj_insert (k_objects k) (object_new KernelObjType.Endpoint (ObjData.Endpoint (wrap32 ep_id)));
  handle ← expect r;
  let k := with_objects o k in
  let cap := cap_new handle R_ALL in
  r ← lookup_task k curr_task_id;
  '(p, t) ← unwrap r;
  '(n, r) ← cnode_alloc (cnode t) cap;
  cap_idx ← unwrap r;
  Ret (with_sched (store p (with_cnode n t) (k_sched k)) k, cap_idx).

Definition handle_ipc_ep_destroy (k : Kernel) (curr_task_id cap_idx : Z)
    : outcome (Kernel * IpcSyscallRetCodes) :=
  r ← lookup_task k curr_task_id;
  match r with
  | None => Ret (k, IpcInvalidCap)
  | Some (p, t) =>
      r ← resolve_endpoint_cap k t (wrap32 cap_idx) R_ALL;
      match r with
      | Err e => Ret (k, e)
      | Ok ep_id =>
          oc ← cnode_get (cnode t) (wrap32 cap_idx);
          cap ← unwrap oc;
          let k := with_ipc (ipc_destroy_endpoint (k_ipc k) ep_id) k in
          n ← cnode_delete (cnode t) (wrap32 cap_idx);
          let k := with_sched (store p (with_cnode n t) (k_sched k)) k in
          '(o, _) ← with_object_mut (k_objects k) (cap_handle cap) dec_ref;
          Ret (with_objects o k, IpcOk)
      end
  end.

(** Handing a message to an endpoint and waking its receiver: the common part
    of send, call and reply.  [None] when the message was handed over or there
    is nothing to report, otherwise the code returned to the caller. *)
Definition send_message (k : Kernel) (curr_task_id ep_id : Z) (msg : FastMessage)
    : outcome (Kernel * option IpcSyscallRetCodes) :=
  '(m, r) ← handle_send (k_ipc k) curr_task_id ep_id msg;
  let k := with_ipc m k in
  match r with
  | WakeReceiver receiver =>
      s ← match get_task_by_index (k_sched k) receiver with
          | Some p => awaken_task p (k_sched k)
          | None => Ret (k_sched k)
          end;
      Ret (with_sched s k, None)
  | RNotReady => Ret (k, Some IpcNotReady)
  | RError IpcError.InvalidEndpoint => Ret (k, Some IpcInvalidEp)
  | RError _ => Ret (k, Some IpcUnknown)
  | _ => Ret (k, None)
  end.

(** [handle_ipc_send] and [handle_ipc_reply] differ in the label only. *)
Definition send_labelled (label : Z) (k : Kernel) (curr_task_id : Z) (ipc : IpcSyscallArguments)
    : outcome (Kernel * IpcSyscallRetCodes) :=
  r ← lookup_task k curr_task_id;
  match r with
  | None => Ret (k, IpcInvalidCap)
  | Some (_, t) =>
      r ← resolve_endpoint_cap k t (wrap32 (ipc_ep_id ipc)) R_WRITE;
      match r with
      | Err e => Ret (k, e)
      | Ok ep_id =>
          '(k, r) ← send_message k curr_task_id ep_id (msg_with_data label (ipc_msg ipc));
          Ret (k, default IpcOk r)
      end
  end.

Definition handle_ipc_send := send_labelled L_NOTIFY.
Definition handle_ipc_reply := send_labelled L_REPLY_OK.

(** Queueing the current task at an endpoint; [true] when it must block. *)
Definition recv_enqueue (k : Kernel) (curr_task_id ep_id : Z)
    : outcome (Kernel * result IpcSyscallRetCodes bool) :=
  '(m, r) ← handle_recv (k_ipc k) curr_task_id ep_id;
  let k := with_ipc m k in
  match r with
  | BlockCurrent => Ret (k, Ok true)
  | RError _ => Ret (k, Err IpcUnknown)
  | _ => Ret (k, Ok false)
  end.

Definition recv_message (hhdm : Z) (me : nat) (sp : Z) (k : Kernel) (curr_task_id ep_id : Z)
    : outcome (Kernel * verdict) :=
  '(k, r) ← recv_enqueue k curr_task_id ep_id;
  match r with
  | Ok true =>
      s ← block_current_on_ipc hhdm me sp (k_sched k);
      Ret (with_sched s k, Suspends AfterRecv)
  | Ok false => Ret (k, returns IpcOk)
  | Err e => Ret (k, returns e)
  end.

Definition handle_ipc_recv (hhdm : Z) (me : nat) (sp : Z) (k : Kernel) (curr_task_id cap_idx_raw : Z)
    : outcome (Kernel * verdict) :=
  r ← lookup_task k curr_task_id;
  match r with
  | None => Ret (k, returns IpcInvalidCap)
  | Some (_, t) =>
      r ← resolve_endpoint_cap k t (wrap32 cap_idx_raw) R_READ;
      match r with
      | Err e => Ret (k, returns e)
      | Ok ep_id => recv_message hhdm me sp k curr_task_id ep_id
      end
  end.

Definition handle_ipc_call (hhdm : Z) (me : nat) (sp : Z) (k : Kernel) (curr_task_id : Z)
    (ipc : IpcSyscallArguments) : outcome (Kernel * verdict) :=
  r ← lookup_task k curr_task_id;
  match r with
  | None => Ret (k, returns IpcInvalidCap)
  | Some (_, t) =>
      r ← resolve_endpoint_cap k t (wrap32 (ipc_ep_id ipc)) R_WRITE;
      match r with
      | Err e => Ret (k, returns e)
      | Ok server_ep =>
          m0 ← arr_get (ipc_msg ipc) 0;
          r ← resolve_endpoint_cap k t (wrap32 m0) R_READ;
          match r with
          | Err e => Ret (k, returns e)
          | Ok reply_ep =>
              m1 ← arr_get (ipc_msg ipc) 1;
              m2 ← arr_get (ipc_msg ipc) 2;
              m3 ← arr_get (ipc_msg ipc) 3;
              '(k, r) ← send_message k curr_task_id server_ep (msg_with_data L_CALL [m1; m2; m3; 0]);
              match r with
              | Some e => Ret (k, returns e)
              | None => recv_message hhdm me sp k curr_task_id reply_ep
              end
          end
      end
  end.

(** ** Memory *)

Definition frame_alloc (k : Kernel) : outcome (Kernel * Z) :=
  '(m, r) ← page_alloc (k_mem k) 0 SAFE_KERNEL_PAGES;
  phys ← unwrap r;
  Ret (with_mem m k, phys).

(** The task whose address space the capability denotes: the common start of
    the three calls. *)
Definition target_vspace (k : Kernel) (me : nat) (vspace_cap_idx : Z)
    : outcome (result Z (Z * Task PT)) :=
  curr_task_id ← current_id k me;
  r ← lookup_task k curr_task_id;
  '(_, curr) ← unwrap r;
  r ← resolve_cap k curr vspace_cap_idx KernelObjType.VSpace R_WRITE;
  match r with
  | Err e => Ret (Err (as_syscall_err e))
  | Ok (handle, _) =>
      r ← with_object (k_objects k) handle (λ o,
        match obj_data o with ObjData.VSpace task_id => Some task_id | _ => None end);
      match mjoin r with
      | None => Ret (Err (as_syscall_err CapError.WrongType))
      | Some target_task_id =>
          r ← lookup_task k target_task_id;
          target ← unwrap r;
          Ret (Ok target)
      end
  end.

Definition put_space (p : Z) (t : Task PT) (a : AddrSpace PT) (k : Kernel) : Kernel :=
  with_sched (store p (with_space a t) (k_sched k)) k.

Definition vma_map (k : Kernel) (me : nat) (vspace_cap_idx vaddr size flags : Z) : outcome (Kernel * Z) :=
  r ← target_vspace k me vspace_cap_idx;
  match r with
  | Err e => Ret (k, e)
  | Ok (p, t) =>
      let map_flags := mf_from_bits_truncate flags in
      va ← virt_new vaddr;
      '(a, m, r) ← as_map (addr_space t) (k_mem k) va size Reserved map_flags;
      _ ← expect r;
      Ret (with_mem m (put_space p t a k), 0)
  end.

Definition vma_unmap (k : Kernel) (me : nat) (vspace_cap_idx vaddr : Z) : outcome (Kernel * Z) :=
  r ← target_vspace k me vspace_cap_idx;
  match r with
  | Err e => Ret (k, e)
  | Ok (p, t) =>
      va ← virt_new vaddr;
      '(a, r) ← as_unmap (addr_space t) va;
      _ ← expect r;
      Ret (put_space p t a k, 0)
  end.

Definition mprotect (k : Kernel) (me : nat) (vspace_cap_idx vaddr flags : Z) : outcome (Kernel * Z) :=
  r ← target_vspace k me vspace_cap_idx;
  match r with
  | Err e => Ret (k, e)
  | Ok (p, t) =>
      let map_flags := mf_from_bits_truncate flags in
      va ← virt_new vaddr;
      '(a, m, r) ← as_protect (addr_space t) (k_mem k) va map_flags;
      _ ← expect r;
      Ret (with_mem m (put_space p t a k), 0)
  end.

(** ** The dispatcher *)

(** [sleep] returns at once when the time rounds to no tick; otherwise the CPU
    has left the task. *)
Definition thread_sleep (hhdm : Z) (me : nat) (sp : Z) (k : Kernel) (ns : Z) : outcome (Kernel * verdict) :=
  c ← cpu (k_sched k) me;
  s ← sleep hhdm me ns sp (k_sched k);
  c' ← cpu s me;
  Ret (with_sched s k, if curr_task c' =? curr_task c then Returns 0 else Suspends AfterSleep).

(** The debugging output: the bytes of a user buffer up to the first zero.
    [user] gives the bytes of the current address space. *)
Fixpoint until_zero (l : list Z) : list Z :=
  match l with
  | [] => []
  | b :: l => if b =? 0 then [] else b :: until_zero l
  end.

Definition debug_print (user : Z → Z) (k : Kernel) (arg1 len : Z) : Kernel * Z :=
  if (arg1 <? 0x1000) || (0x00007FFFFFFFFFFF <? arg1) then (k, 1)
  else if 4096 <? len then (k, 1)
  else
    let slice := (λ i, user (arg1 + i)) <$> seqZ 0 len in
    (mk_kernel (k_sched k) (k_objects k) (k_ipc k) (k_mem k) (k_console k ++ until_zero slice), 0).

Definition ok_ret (r : outcome (Kernel * Z)) : outcome (Kernel * verdict) :=
  '(k, v) ← r;
  Ret (k, Returns v).
Definition ok_code (r : outcome (Kernel * IpcSyscallRetCodes)) : outcome (Kernel * verdict) :=
  '(k, c) ← r;
  Ret (k, returns c).

(** The arguments are the registers of the interrupted task. *)
Definition syscall_dispatcher (hhdm : Z) (me : nat) (sp : Z) (user : Z → Z) (k : Kernel)
    (r : TaskRegisters) : outcome (Kernel * verdict) :=
  let nr := syscall_number_or_irq_or_error_code r in
  let arg1 := rdi r in
  let arg2 := rsi r in
  let arg3 := rdx r in
  let arg4 := r10 r in
  let arg5 := r8 r in
  if nr =? SYS_DEBUG_PRINT then ok_ret (Ret (debug_print user k arg1 arg2))
  else
    curr_task_id ← current_id k me;
    let ipc := mk_ipc_args arg1 [arg2; arg3; arg4; arg5] in
    if nr =? IpcEpCreate then ok_ret (handle_ipc_ep_create k curr_task_id)
    else if nr =? IpcEpDestroy then ok_code (handle_ipc_ep_destroy k curr_task_id arg1)
    else if nr =? IpcSend then ok_code (handle_ipc_send k curr_task_id ipc)
    else if nr =? IpcRecv then handle_ipc_recv hhdm me sp k curr_task_id arg1
    else if nr =? IpcCall then handle_ipc_call hhdm me sp k curr_task_id ipc
    else if nr =? IpcReply then ok_code (handle_ipc_reply k curr_task_id ipc)
    else if nr =? FrameAlloc then ok_ret (frame_alloc k)
    else if nr =? VmaMap then ok_ret (vma_map k me arg1 arg2 arg3 (wrap32 arg4))
    else if nr =? VmaUnmap then ok_ret (vma_unmap k me arg1 arg2)
    else if nr =? Mprotect then ok_ret (mprotect k me arg1 arg2 (wrap32 arg3))
    else if nr =? ThreadSleep then thread_sleep hhdm me sp k arg1
    else Ret (k, Returns 0).

Definition with_result (v : Z) (r : TaskRegisters) : TaskRegisters :=
  mk_regs (r15 r) (r14 r) (r13 r) (r12 r) (rbp r) (rbx r) (r11 r) (r10 r) (r9 r) (r8 r) (rax r)
    (rcx r) (rdx r) (rsi r) (rdi r) v (rip r) (cs r) (rflags r) (rsp r) (ss r).

(** The frame to return to user mode with, or where the task is suspended. *)
Definition syscall_handler_inner (hhdm : Z) (me : nat) (sp : Z) (user : Z → Z) (k : Kernel)
    (r : TaskRegisters) : outcome (Kernel * (TaskRegisters + after)) :=
  '(k, v) ← syscall_dispatcher hhdm me sp user k r;
  match v with
  | Returns v => Ret (k, inl (with_result v r))
  | Suspends a => Ret (k, inr a)
  end.

(** The registers a received message is put into. *)
Definition with_message (msg : FastMessage) (r : TaskRegisters) : outcome TaskRegisters :=
  d0 ← arr_get (msg_data msg) 0;
  d1 ← arr_get (msg_data msg) 1;
  d2 ← arr_get (msg_data msg) 2;
  d3 ← arr_get (msg_data msg) 3;
  Ret (mk_regs (r15 r) (r14 r) (r13 r) (r12 r) (rbp r) (rbx r) (r11 r) d2 (r9 r) d3 (rax r)
    (rcx r) d1 d0 (msg_label msg) (syscall_number_or_irq_or_error_code r) (rip r) (cs r) (rflags r) (rsp r) (ss r)).

(** The rest of the handler of a suspended task. *)
Definition resume (a : after) (k : Kernel) (curr_task_id : Z) (r : TaskRegisters)
    : outcome (Kernel * TaskRegisters) :=
  match a with
  | AfterRecv =>
      let '(m, om) := take_pending_message (k_ipc k) curr_task_id in
      r ← match om with Some msg => with_message msg r | None => Ret r end;
      Ret (with_ipc m k, with_result (ret_code IpcOk) r)
  | AfterSleep => Ret (k, with_result 0 r)
  end.

(** The page fault handler on the task that is current on [me]. *)
Definition handle_page_fault (k : Kernel) (me : nat) (fault_addr error : Z)
    : outcome (Kernel * fault_result) :=
  if Z.land error 4 =? 0 then Ret (k, Halted)
  else
    curr_task_id ← current_id k me;
    r ← lookup_task k curr_task_id;
    '(p, t) ← unwrap r;
    '(a, m, r) ← page_fault (addr_space t) (k_mem k) fault_addr error;
    Ret (with_mem m (put_space p t a k), r).
End syscalls.
Arguments Kernel : clear implicits.

(** ** The capabilities of the first task *)

Record InitSvrsBootInfo := mk_bootinfo {
  self_tcb_cap : Z;
  self_vspace_cap : Z;
  self_cnode_cap : Z;
  cpio_base_addr : Z
}.

Definition make_init_caps (o : ObjectTable) (task_id : Z) (cnode : CNode)
    : outcome (ObjectTable * CNode * InitSvrsBootInfo) :=
  '(o, r) ← obj_insert o (object_new KernelObjType.Thread (ObjData.Thread task_id));
  tcb_handle ← expect r;
  '(o, r) ← obj_insert o (object_new KernelObjType.VSpace (ObjData.VSpace task_id));
  vspace_handle ← expect r;
  '(o, r) ← obj_insert o (object_new KernelObjType.CNode (ObjData.CNode task_id));
  cnode_handle ← expect r;
  '(cnode, r) ← cnode_alloc cnode (cap_new tcb_handle R_ALL);
  self_tcb_cap ← unwrap r;
  '(cnode, r) ← cnode_alloc cnode (cap_new vspace_handle R_ALL);
  self_vspace_cap ← unwrap r;
  '(cnode, r) ← cnode_alloc cnode (cap_new cnode_handle R_ALL);
  self_cnode_cap ← unwrap r;
  Ret (o, cnode, mk_bootinfo self_tcb_cap self_vspace_cap self_cnode_cap 0).

(** The capabilities denote three new objects, all named after the task. *)
Definition names_task (id : Z) (d : ObjData.t) : Prop :=
  match d with
  | ObjData.Thread i | ObjData.VSpace i | ObjData.CNode i => i = id
  | ObjData.Endpoint i => i = wrap32 id
  end.
