(* ===== verification/Entry.v ===== *)
(** * Entering and leaving the kernel

    Models the assembly of the kernel on the processor of [Machine]: the system
    call entry (scheduler/syscall/mod.rs), the interrupt stubs
    (interrupts/interrupt_trap.asm), the context switch (scheduler/mod.rs), the
    first stacks of tasks and the trampoline into user mode
    (scheduler/exec_loader.rs). *)
From S2P Require Import Prelude Misc Paging PagingRef AddrSpace KernelStacks Objects Endpoints Sched Syscalls.
From S2P Require Import ByteMem Machine.
#[local] Open Scope Z_scope.

Local Notation bstore := ByteMem.store.

(** ** The context switch *)

Definition switch_to_task_code : list instr :=
  [Push RAX; Push RBX; Push RCX; Push RDX; Push RBP; Push RSI; Push RDI; Push R8; Push R9; Push R10; Push R11;
   Push R12; Push R13; Push R14; Push R15;
   MovStore RDI RSP; Mov RSP RSI; MovCr3 RDX;
   Pop R15; Pop R14; Pop R13; Pop R12; Pop R11; Pop R10; Pop R9; Pop R8; Pop RDI; Pop RSI; Pop RBP; Pop RDX;
   Pop RCX; Pop RBX; Pop RAX;
   RetNear].

(** No function is called by it. *)
Definition do_switch (m : x86) : x86 := run id 0 switch_to_task_code m.

(** ** The first stacks of tasks *)

(** [for i in lo..=hi { top.sub(i).write(0) }]. *)
Definition write_zeros (top lo hi : Z) (f : Z → Z) : Z → Z :=
  fold_left (λ f i, bstore 8 (top - 8 * i) 0 f) (seqZ lo (hi - lo + 1)) f.

(** The stack of [make_kernel_task] and its stack pointer; [trampoline] is the
    address of [kernel_task_trampoline]. *)
Definition kernel_task_stack (trampoline entry_point top : Z) (f : Z → Z) : (Z → Z) * Z :=
  let f := bstore 8 (top - 8 * 1) trampoline f in
  let f := write_zeros top 2 16 f in
  let f := bstore 8 (top - 8 * 8) entry_point f in
  (f, top - 8 * 16).

Definition USER_STACK_TOP_VIRT_ADDR : Z := 0x7FFFFFFF0000.
Definition USER_ENTRY_VADDR : Z := 0x400000.
Definition BOOTINFO_VADDR : Z := 0x1000.
Definition RFLAGS_WITH_IR : Z := 0x202.

(** The stack of [make_init_task]. *)
Definition init_task_stack (trampoline top : Z) (f : Z → Z) : (Z → Z) * Z :=
  let f := bstore 8 (top - 8 * 1) (USER_STACK_TOP_VIRT_ADDR - 8) f in
  let f := bstore 8 (top - 8 * 2) USER_ENTRY_VADDR f in
  let f := bstore 8 (top - 8 * 3) trampoline f in
  let f := write_zeros top 4 18 f in
  let f := bstore 8 (top - 8 * 10) BOOTINFO_VADDR f in
  (f, top - 8 * 18).

Definition user_task_trampoline : list instr :=
  [Sti; Pop RCX; Pop RSP; MovImm R11 RFLAGS_WITH_IR; Swapgs; Sysretq].

(** ** System calls *)

Section syscall_code.
Context (TOP_OF_KERNEL_STACK USER_STACK_SCRATCH : Z).

Definition syscall_enter : list instr :=
  [Swapgs; MovToGs USER_STACK_SCRATCH RSP; MovFromGs RSP TOP_OF_KERNEL_STACK;
   PushImm USER_SS; PushGs USER_STACK_SCRATCH; Push R11; PushImm USER_CS; Push RCX;
   Push RAX;
   Push RDI; Push RSI; Push RDX; Push RCX; Push RAX; Push R8; Push R9; Push R10; Push R11; Push RBX; Push RBP;
   Push R12; Push R13; Push R14; Push R15;
   Mov RDI RSP].

Definition syscall_leave : list instr :=
  [Pop R15; Pop R14; Pop R13; Pop R12; Pop RBP; Pop RBX; Pop R11; Pop R10; Pop R9; Pop R8; Pop RAX; Pop RCX;
   Pop RDX; Pop RSI; Pop RDI;
   Pop RAX;
   Pop RCX; AddImm RSP 8; Pop R11; Pop RSP;
   Swapgs; Sysretq].

Definition syscall_handler : list instr := syscall_enter ++ Call :: syscall_leave.
End syscall_code.

(** A [TaskRegisters] in memory. *)
Definition frame_words (r : TaskRegisters) : list Z :=
  [r15 r; r14 r; r13 r; r12 r; rbp r; rbx r; r11 r; r10 r; r9 r; r8 r; rax r; rcx r; rdx r; rsi r; rdi r;
   syscall_number_or_irq_or_error_code r; rip r; cs r; rflags r; rsp r; ss r].

(** The frame of a user state that executes [syscall]. *)
Definition syscall_frame (u : x86) : TaskRegisters :=
  mk_regs (regs u R15) (regs u R14) (regs u R13) (regs u R12) (regs u RBP) (regs u RBX) (m_rflags u) (regs u R10)
    (regs u R9) (regs u R8) (regs u RAX) (m_rip u) (regs u RDX) (regs u RSI) (regs u RDI) (regs u RAX)
    (m_rip u) USER_CS (m_rflags u) (regs u RSP) USER_SS.

(** ** Interrupts *)

Definition common_save : list instr :=
  [Push RAX; Push RBX; Push RCX; Push RDX; Push RSI; Push RDI; Push RBP; Push R8; Push R9; Push R10; Push R11;
   Push R12; Push R13; Push R14; Push R15;
   MovFromDs RAX; Push RAX;
   MovAx 0x10; MovDsAx; MovEsAx;
   MovAxCs; AndAx 3; CmpAx 3; Jne 1; Swapgs;
   Mov RDI RSP].

Definition common_restore : list instr :=
  [Pop RAX; MovDsAx; MovEsAx;
   Pop R15; Pop R14; Pop R13; Pop R12; Pop R11; Pop R10; Pop R9; Pop R8; Pop RBP; Pop RDI; Pop RSI; Pop RDX;
   Pop RCX; Pop RBX; Pop RAX;
   AddImm RSP 16; Iretq].

Definition common_stub : list instr := common_save ++ Call :: common_restore.

(** The vectors for which [INTERRUPT_ERR_STUB] is used. *)
Definition err_stub (vec : Z) : bool :=
  (vec <? 32) &&
  ((vec =? 8) || (vec =? 10) || (vec =? 11) || (vec =? 12) || (vec =? 13) || (vec =? 14) || (vec =? 17) ||
   (vec =? 21) || (vec =? 29) || (vec =? 30)).

Definition stub_head (vec : Z) : list instr :=
  if err_stub vec then [PushImm vec] else [PushImm 0; PushImm vec].

Definition interrupt_stub (vec : Z) : list instr := stub_head vec ++ common_stub.

(** [InterruptFrame] of cpu/frames.rs. *)
Record InterruptFrame := mk_iframe {
  if_ds : Z; if_r15 : Z; if_r14 : Z; if_r13 : Z; if_r12 : Z; if_r11 : Z; if_r10 : Z; if_r9 : Z; if_r8 : Z;
  if_rbp : Z; if_rdi : Z; if_rsi : Z; if_rdx : Z; if_rcx : Z; if_rbx : Z; if_rax : Z;
  if_interrupt : Z; if_error : Z;
  if_rip : Z; if_cs : Z; if_rflags : Z; if_rsp : Z; if_ss : Z
}.

Definition iframe_words (i : InterruptFrame) : list Z :=
  [if_ds i; if_r15 i; if_r14 i; if_r13 i; if_r12 i; if_r11 i; if_r10 i; if_r9 i; if_r8 i; if_rbp i; if_rdi i;
   if_rsi i; if_rdx i; if_rcx i; if_rbx i; if_rax i; if_interrupt i; if_error i; if_rip i; if_cs i; if_rflags i;
   if_rsp i; if_ss i].

(** The frame of an interrupted state. *)
Definition interrupt_frame (vec error : Z) (u : x86) : InterruptFrame :=
  mk_iframe (m_ds u) (regs u R15) (regs u R14) (regs u R13) (regs u R12) (regs u R11) (regs u R10) (regs u R9)
    (regs u R8) (regs u RBP) (regs u RDI) (regs u RSI) (regs u RDX) (regs u RCX) (regs u RBX) (regs u RAX)
    vec (if pushes_error vec then error else 0) (m_rip u) (m_cs u) (m_rflags u) (regs u RSP) (m_ss u).

(** ** The context switch: lemmas *)

Definition SAVED : list reg := [RAX; RBX; RCX; RDX; RBP; RSI; RDI; R8; R9; R10; R11; R12; R13; R14; R15].

Lemma switch_shape :
  switch_to_task_code = (Push <$> SAVED) ++ [MovStore RDI RSP; Mov RSP RSI; MovCr3 RDX] ++ (Pop <$> reverse SAVED) ++ [RetNear].
Proof. done. Qed.

Lemma saved_all r : r ≠ RSP → r ∈ SAVED.
Proof. intros Hr. destruct r; try done; by apply (bool_decide_unpack _). Qed.

Lemma saved_nodup : NoDup SAVED ∧ RSP ∉ SAVED.
Proof. by apply (bool_decide_unpack _). Qed.

(** What a switch from [m] to a stack with the words [ws] and the return
    address [ret] does. *)
Record switched (ws : list Z) (ret : Z) (m m' : x86) : Prop := {
  sw_regs : ∀ i r w, reverse SAVED !! i = Some r → ws !! i = Some w → regs m' r = w;
  sw_rsp : regs m' RSP = regs m RSI + 128;
  sw_rip : m_rip m' = ret;
  sw_cr3 : m_cr3 m' = regs m RDX;
  sw_saved : load 8 (mem m') (regs m RDI) = regs m RSP - 120;
  sw_frame : stack_at (mem m') (regs m RSP - 120) (reverse (regs m <$> SAVED) ++ [top m]);
  sw_mem : ∀ x, ¬ range (regs m RSP - 120) 120 x → ¬ range (regs m RDI) 8 x → mem m' x = mem m x;
  sw_mode : m_cs m' = m_cs m ∧ m_ss m' = m_ss m ∧ m_rflags m' = m_rflags m;
  sw_gs : gs_base m' = gs_base m ∧ kernel_gs_base m' = kernel_gs_base m
}.

(** A state that may call [switch_to_task]: room for the registers below the
    stack pointer, and the places written apart from each other and from the
    stack that is switched to. *)
Record may_switch (m : x86) : Prop := {
  ms_regs : ∀ r, is_u64 (regs m r);
  ms_room : 120 ≤ regs m RSP;
  ms_next : regs m RSI + 128 ≤ u64_max;
  ms_apart : apart (regs m RSI) 128 (regs m RSP - 120) 120;
  ms_slot : apart (regs m RSI) 128 (regs m RDI) 8;
  ms_slot' : apart (regs m RDI) 8 (regs m RSP - 120) 128
}.

Lemma switch_spec m ws ret :
  may_switch m → length ws = 15%nat → stack_at (mem m) (regs m RSI) (ws ++ [ret]) → switched ws ret m (do_switch m).
Proof.
  intros [Hu Hroom Hnext Ha Hs Hs'] Hl Hst. destruct saved_nodup as [Hnd Hrsp]. unfold do_switch. rewrite switch_shape.
  rewrite run_app4 by (done || apply straight_push || apply straight_pop).
  pose proof (run_push id SAVED m Hrsp Hu ltac:(cbn; lia)) as Hp.
  generalize dependent (run id 0 (Push <$> SAVED) m). intros m1 [p1 p2 p3 p4 p5].
  rewrite length_reverse, length_fmap in p1, p4. change (8 * Z.of_nat (length SAVED)) with 120 in *.
  set (m2 := run id 0 [MovStore RDI RSP; Mov RSP RSI; MovCr3 RDX] m1).
  assert (mem m2 = bstore 8 (regs m RDI) (regs m RSP - 120) (mem m1)) as Hm2 by (cbn; by rewrite p1, p2).
  assert (regs m2 RSP = regs m RSI) as Hsp2 by (cbn; by rewrite decide_True, p2).
  pose proof (Hu RSI) as [Hsi _]. pose proof (Hu RDI) as [Hdi _]. pose proof (Hu RSP) as [_ Hspm].
  assert (stack_at (mem m2) (regs m2 RSP) (ws ++ [ret])) as Hst2.
  { rewrite Hsp2. eapply stack_at_ext; [|exact Hst]. rewrite length_app, Hl. cbn [length]. intros x Hx. rewrite Hm2, store_ne.
    - apply p4. unfold range, apart in *. lia.
    - unfold range, apart in *. lia. }
  apply stack_at_app in Hst2 as Hst2'. destruct Hst2' as [Hw Hr].
  rewrite Hl in Hr. change (8 * Z.of_nat 15) with 120 in Hr.
  pose proof (run_pop id (reverse SAVED) ws m2) as Hq. rewrite length_reverse in Hq.
  specialize (Hq ltac:(by rewrite elem_of_reverse) ltac:(by apply (bool_decide_unpack _)) Hl ltac:(lia)
    ltac:(change (8 * Z.of_nat (length SAVED)) with 120; lia) Hw).
  generalize dependent (run id 0 (Pop <$> reverse SAVED) m2). intros m3 [q1 q2 q3 q4 q5]. rewrite length_reverse in q1.
  change (8 * Z.of_nat (length SAVED)) with 120 in q1. cbn [run exec].
  assert (∀ x, range (regs m RSP - 120) 128 x → mem m2 x = mem m1 x) as Hfr.
  { intros x Hx. rewrite Hm2. apply store_ne. unfold range, apart in *. lia. }
  split; cbn [m_rip m_cr3 m_cs m_ss m_rflags gs_base kernel_gs_base mem regs set_rip drop_top set_reg].
  - intros i r w Hi Hwi. rewrite decide_False; [by eapply q2|]. intros ->. apply Hrsp.
    rewrite <-elem_of_reverse. by eapply list_elem_of_lookup_2.
  - rewrite decide_True by done. rewrite wrap64_id; unfold is_u64; lia.
  - unfold top. rewrite q1, q4. specialize (Hr 0%nat ret eq_refl). rewrite <-Hr. f_equal. lia.
  - rewrite (se_cr3 _ _ q5). cbn. by rewrite decide_False, p2.
  - rewrite q4, Hm2. apply load_store_eq. change (256 ^ Z.of_nat 8) with (2 ^ 64). unfold u64_max in *. lia.
  - rewrite q4. apply stack_at_app. rewrite length_reverse, length_fmap. change (8 * Z.of_nat (length SAVED)) with 120. split.
    + rewrite p1 in p3. eapply stack_at_ext; [|exact p3]. rewrite length_reverse, length_fmap. intros x Hx.
      apply Hfr. unfold range in *. cbn in Hx. lia.
    + intros [|i] w Hi; [|done]. injection Hi as <-. unfold top. replace (regs m RSP - 120 + 120 + 8 * Z.of_nat 0) with (regs m RSP) by lia.
      apply load_ext. intros x Hx. rewrite Hfr by (unfold range in *; lia). apply p4. unfold range in *. lia.
  - intros x Hx1 Hx2. rewrite q4, Hm2, store_ne by done. apply p4. by rewrite p1.
  - rewrite (se_cs _ _ q5), (se_ss _ _ q5), (se_rflags _ _ q5). cbn. by destruct p5.
  - rewrite (se_gs _ _ q5), (se_kgs _ _ q5). cbn. by destruct p5.
Qed.

(** The words that are popped go where they came from. *)
Lemma saved_regs ws m m' r :
  (∀ i r w, reverse SAVED !! i = Some r → ws !! i = Some w → regs m' r = w) →
  ws = reverse (regs m <$> SAVED) → r ≠ RSP → regs m' r = regs m r.
Proof.
  intros H -> Hr. apply saved_all in Hr. rewrite <-elem_of_reverse in Hr. apply list_elem_of_lookup_1 in Hr as [i Hi].
  apply (H i r); [done|]. rewrite <-fmap_reverse, list_lookup_fmap, Hi. done.
Qed.

(** ** The first stacks: lemmas *)

(** A word of a block that was filled with zeros. *)
Lemma load_zeros top lo hi f i :
  0 ≤ lo → lo ≤ i ≤ hi → load 8 (write_zeros top lo hi f) (top - 8 * i) = 0.
Proof.
  intros Hlo Hi. unfold write_zeros.
  cut (∀ n k f, 0 ≤ k → (k ≤ i < k + Z.of_nat n ∨ load 8 f (top - 8 * i) = 0) →
    load 8 (fold_left (λ f i, bstore 8 (top - 8 * i) 0 f) (seqZ k (Z.of_nat n)) f) (top - 8 * i) = 0).
  { intros H. specialize (H (Z.to_nat (hi - lo + 1)) lo f Hlo). rewrite Z2Nat.id in H by lia. apply H. left. lia. }
  intros n. induction n as [|n IH]; intros k g Hk Hor; [destruct Hor; [lia|done]|].
  rewrite seqZ_cons by lia. cbn [fold_left]. replace (Z.pred (Z.of_nat (S n))) with (Z.of_nat n) by lia.
  apply IH; [lia|]. destruct (decide (k = i)) as [->|Hne]; [right; by rewrite load_store_eq|].
  destruct Hor as [Hor|H0]; [left; lia|right]. rewrite load_store_ne; [done|]. unfold apart. lia.
Qed.

(** Other words stay as they were. *)
Lemma load_write_zeros top lo hi f i :
  i < lo ∨ hi < i → load 8 (write_zeros top lo hi f) (top - 8 * i) = load 8 f (top - 8 * i).
Proof.
  intros Hi. unfold write_zeros.
  cut (∀ n k f, i < k ∨ k + Z.of_nat n ≤ i →
    load 8 (fold_left (λ f i, bstore 8 (top - 8 * i) 0 f) (seqZ k (Z.of_nat n)) f) (top - 8 * i) = load 8 f (top - 8 * i)).
  { intros H. destruct (decide (lo ≤ hi)) as [Hl|Hl].
    - specialize (H (Z.to_nat (hi - lo + 1)) lo f). rewrite Z2Nat.id in H by lia. apply H. lia.
    - by rewrite seqZ_nil by lia. }
  intros n. induction n as [|n IH]; intros k g Hk; [done|].
  rewrite seqZ_cons by lia. cbn [fold_left]. replace (Z.pred (Z.of_nat (S n))) with (Z.of_nat n) by lia.
  rewrite IH by lia. apply load_store_ne. unfold apart. lia.
Qed.

(** The words of the registers when [rdi] is [v] and the others are 0. *)
Definition zero_regs_but_rdi (v : Z) : list Z := [0; 0; 0; 0; 0; 0; 0; 0; v; 0; 0; 0; 0; 0; 0].

(** Reading a stack word by word, with its index counted from the top. *)
Lemma stack_at_below f top n ws :
  (∀ i w, ws !! i = Some w → load 8 f (top - 8 * (n - Z.of_nat i)) = w) → stack_at f (top - 8 * n) ws.
Proof. intros H i w Hi. rewrite <-(H i w Hi). f_equal. lia. Qed.

Ltac stack_words :=
  let i := fresh "i" in let w := fresh "w" in let Hi := fresh "Hi" in
  intros i w Hi; do 25 (try (destruct i as [|i]; [injection Hi as <-|])); try done.

Lemma kernel_stack_words tramp entry top f :
  is_u64 tramp → is_u64 entry →
  let s := kernel_task_stack tramp entry top f in
  stack_at s.1 s.2 (zero_regs_but_rdi entry ++ [tramp]).
Proof.
  intros Ht He s. unfold s, kernel_task_stack. cbn [fst snd]. apply stack_at_below. stack_words;
    (rewrite load_store_ne by (unfold apart; lia)) || (apply load_store_eq; change (256 ^ Z.of_nat 8) with (2 ^ 64); unfold is_u64, u64_max in *; lia).
  all: try (apply load_zeros; lia).
  rewrite load_write_zeros by lia. apply load_store_eq. change (256 ^ Z.of_nat 8) with (2 ^ 64). unfold is_u64, u64_max in *. lia.
Qed.

Lemma init_stack_words tramp top f :
  is_u64 tramp →
  let s := init_task_stack tramp top f in
  stack_at s.1 s.2 ((zero_regs_but_rdi BOOTINFO_VADDR ++ [tramp]) ++ [USER_ENTRY_VADDR; USER_STACK_TOP_VIRT_ADDR - 8]).
Proof.
  intros Ht s. unfold s, init_task_stack. cbn [fst snd]. apply stack_at_below. stack_words;
    (rewrite load_store_ne by (unfold apart; lia)) || (by apply load_store_eq).
  all: try (apply load_zeros; lia).
  all: rewrite load_write_zeros by lia.
  all: repeat rewrite load_store_ne by (unfold apart; lia).
  all: apply load_store_eq; change (256 ^ Z.of_nat 8) with (2 ^ 64);
    unfold is_u64, u64_max, USER_ENTRY_VADDR, USER_STACK_TOP_VIRT_ADDR in *; lia.
Qed.

(** The registers of a task that starts. *)
Definition starts_with (rdi_value : Z) (m : x86) : Prop :=
  regs m RDI = rdi_value ∧ ∀ r, r ≠ RSP → r ≠ RDI → regs m r = 0.

Lemma starts_with_words v m :
  (∀ i r w, reverse SAVED !! i = Some r → zero_regs_but_rdi v !! i = Some w → regs m r = w) → starts_with v m.
Proof.
  intros H. split; [by apply (H 8%nat)|]. intros r Hs Hd.
  destruct r; try done; [eapply (H 14%nat)|eapply (H 13%nat)|eapply (H 12%nat)|eapply (H 11%nat)|eapply (H 9%nat)|
    eapply (H 10%nat)|eapply (H 7%nat)|eapply (H 6%nat)|eapply (H 5%nat)|eapply (H 4%nat)|eapply (H 3%nat)|
    eapply (H 2%nat)|eapply (H 1%nat)|eapply (H 0%nat)]; done.
Qed.

(** C18: a task that is switched away comes back as if [switch_to_task] were a
    function that returns: when the scheduler later switches, from any state
    [m2], to its saved stack pointer with its stack left alone, every register,
    the stack pointer and the return address are those of the call.  The page
    table is the one that is asked for; when that is the table of the task's
    address space, which the task ran on ([a] when it left and [a'] when it
    comes back have the same root), it is the one it had. *)
Theorem switch_round_trip {PT} `{!X86_64 PT} hhdm (a a' : AddrSpace PT) m1 m2 :
  may_switch m1 → may_switch m2 →
  (∃ ws ret, length ws = 15%nat ∧ stack_at (mem m1) (regs m1 RSI) (ws ++ [ret])) →
  regs m2 RSI = load 8 (mem (do_switch m1)) (regs m1 RDI) →
  (∀ x, range (regs m1 RSP - 120) 128 x → mem m2 x = mem (do_switch m1) x) →
  get_page_table_phys hhdm a = Ret (m_cr3 m1) →
  level_4_table (page_table a') = level_4_table (page_table a) →
  get_page_table_phys hhdm a' = Ret (regs m2 RDX) →
  let m3 := do_switch m2 in
  (∀ r, r ≠ RSP → regs m3 r = regs m1 r) ∧ regs m3 RSP = regs m1 RSP + 8 ∧ m_rip m3 = top m1 ∧
  m_cr3 m3 = regs m2 RDX ∧ m_cr3 m3 = m_cr3 m1.
Proof.
  intros H1 H2 (ws & ret & Hl & Hst) Hsi Hmem Ha Haa Ha' m3. pose proof (switch_spec m1 ws ret H1 Hl Hst) as S1.
  rewrite (sw_saved _ _ _ _ S1) in Hsi.
  assert (switched (reverse (regs m1 <$> SAVED)) (top m1) m2 m3) as S2.
  { apply switch_spec; [done|by rewrite length_reverse, length_fmap|]. rewrite Hsi.
    eapply stack_at_ext; [|exact (sw_frame _ _ _ _ S1)]. rewrite length_app, length_reverse, length_fmap. exact Hmem. }
  assert (regs m2 RDX = m_cr3 m1) as Hcr3.
  { unfold get_page_table_phys in Ha, Ha'. rewrite Haa, Ha in Ha'. by injection Ha'. }
  split; [|split; [|split; [|split]]].
  - intros r Hr. by apply (saved_regs _ m1 m3 r (sw_regs _ _ _ _ S2)).
  - rewrite (sw_rsp _ _ _ _ S2). lia.
  - exact (sw_rip _ _ _ _ S2).
  - exact (sw_cr3 _ _ _ _ S2).
  - by rewrite (sw_cr3 _ _ _ _ S2).
Qed.

(** A call of [switch_to_task] on the stack [sp] that saves the stack pointer
    in [slot] and loads [next] and the page table [table]; the task runs on
    [cr3]. *)
Definition sample_call (cr3 table sp slot next : Z) (f : Z → Z) : x86 :=
  mk_x86 (λ r, match r with RSP => sp | RSI => next | RDI => slot | RDX => table | RBX => 7 | _ => 1 end)
    f 0 2 false KERNEL_CS KERNEL_SS 0 0 cr3 0 0.

Lemma sample_may_switch cr3 table sp slot next f :
  is_u64 table → 120 ≤ sp ≤ u64_max → 0 ≤ next → next + 128 ≤ u64_max → 0 ≤ slot ≤ u64_max →
  apart next 128 (sp - 120) 120 → apart next 128 slot 8 → apart slot 8 (sp - 120) 128 →
  may_switch (sample_call cr3 table sp slot next f).
Proof.
  intros Ht Hsp Hn Hn' Hs H1 H2 H3. split; cbn; try done; try lia.
  intros r. unfold is_u64, u64_max in *. destruct r; lia.
Qed.

Lemma mem_sample cr3 table sp slot next f : mem (sample_call cr3 table sp slot next f) = f.
Proof. done. Qed.

#[local] Opaque do_switch.

(** Away to a fresh stack at 0xA000 and another page table, and back. *)
Lemma switch_round_trip_witness :
  let m1 := sample_call 0x4000 0x5000 0x9000 0x100 0xA000 (λ _, 0) in
  let m2 := sample_call 0x5000 0x4000 0xB000 0x200 (0x9000 - 120) (mem (do_switch m1)) in
  regs (do_switch m2) R12 = 1 ∧ regs (do_switch m2) RBX = 7 ∧ m_cr3 (do_switch m1) = 0x5000 ∧ m_cr3 (do_switch m2) = 0x4000.
Proof.
  assert (∀ f, may_switch (sample_call 0x4000 0x5000 0x9000 0x100 0xA000 f)) as H1.
  { intros f. apply sample_may_switch; try (vm_compute; done); unfold apart, is_u64, u64_max; lia. }
  assert (∀ f, may_switch (sample_call 0x5000 0x4000 0xB000 0x200 (0x9000 - 120) f)) as H2.
  { intros f. apply sample_may_switch; try (vm_compute; done); unfold apart, is_u64, u64_max; lia. }
  intros m1 m2.
  assert (∃ ws ret, length ws = 15%nat ∧ stack_at (mem m1) (regs m1 RSI) (ws ++ [ret])) as Hn.
  { exists (replicate 15 0), 0. split; [done|]. intros i w Hi.
    change (replicate 15 0 ++ [0]) with (replicate 16 0) in Hi. apply lookup_replicate_1 in Hi as [-> _]. reflexivity. }
  assert (regs m2 RSI = load 8 (mem (do_switch m1)) (regs m1 RDI)) as Hs by (vm_compute; reflexivity).
  assert (∀ x, range (regs m1 RSP - 120) 128 x → mem m2 x = mem (do_switch m1) x) as Hm.
  { intros x _. unfold m2. rewrite mem_sample. reflexivity. }
  specialize (H1 (λ _, 0)). specialize (H2 (mem (do_switch m1))). fold m1 in H1. fold m2 in H2.
  pose (a := as_new (mk_ref 0xFFFF800000004000 ∅)).
  assert (get_page_table_phys 0xFFFF800000000000 a = Ret 0x4000) as Ha by (vm_compute; reflexivity).
  pose proof (switch_round_trip 0xFFFF800000000000 a a m1 m2 H1 H2 Hn Hs Hm Ha eq_refl Ha) as (Hr & _ & _ & _ & Hc).
  split; [exact (Hr R12 ltac:(discriminate))|]. split; [exact (Hr RBX ltac:(discriminate))|].
  split; [vm_compute; reflexivity|exact Hc].
Defined.

(** Switching to a task that [make_kernel_task] has just built enters its
    trampoline with the entry point as argument, on an empty stack and the
    page table asked for; all other registers are 0. *)
Theorem new_kernel_task_starts tramp entry stack_top f m :
  is_u64 tramp → is_u64 entry → may_switch m →
  let s := kernel_task_stack tramp entry stack_top f in
  regs m RSI = s.2 → (∀ x, range s.2 128 x → mem m x = s.1 x) →
  let m' := do_switch m in
  m_rip m' = tramp ∧ starts_with entry m' ∧ regs m' RSP = stack_top ∧ m_cr3 m' = regs m RDX.
Proof.
  intros Ht He Hm s Hsi Hmem m'.
  assert (switched (zero_regs_but_rdi entry) tramp m m') as S.
  { apply switch_spec; [done|done|]. rewrite Hsi. eapply stack_at_ext; [|by apply kernel_stack_words]. exact Hmem. }
  split; [exact (sw_rip _ _ _ _ S)|split; [exact (starts_with_words _ _ (sw_regs _ _ _ _ S))|]].
  split; [|exact (sw_cr3 _ _ _ _ S)]. rewrite (sw_rsp _ _ _ _ S), Hsi. unfold s, kernel_task_stack. cbn [snd]. lia.
Qed.

Lemma new_kernel_task_starts_witness :
  let s := kernel_task_stack 0xFFFFFFFF80001000 0xFFFFFFFF80002000 0xC000 (λ _, 0) in
  let m' := do_switch (sample_call 0x4000 0x5000 0x9000 0x100 (0xC000 - 128) s.1) in
  m_rip m' = 0xFFFFFFFF80001000 ∧ regs m' RDI = 0xFFFFFFFF80002000.
Proof.
  assert (∀ f, may_switch (sample_call 0x4000 0x5000 0x9000 0x100 (0xC000 - 128) f)) as H1.
  { intros f. apply sample_may_switch; try (vm_compute; done); unfold apart, is_u64, u64_max; lia. }
  intros s m'.
  assert (∀ x, range s.2 128 x → mem (sample_call 0x4000 0x5000 0x9000 0x100 (0xC000 - 128) s.1) x = s.1 x) as Hm.
  { intros x _. rewrite mem_sample. reflexivity. }
  destruct (new_kernel_task_starts 0xFFFFFFFF80001000 0xFFFFFFFF80002000 0xC000 (λ _, 0)
    (sample_call 0x4000 0x5000 0x9000 0x100 (0xC000 - 128) s.1) ltac:(split; vm_compute; discriminate) ltac:(split; vm_compute; discriminate)
    (H1 _) eq_refl Hm) as (H2 & [H3 _] & _).
  split; [exact H2|exact H3].
Defined.

Lemma trampoline_spec m entry sp :
  stack_at (mem m) (regs m RSP) [entry; sp] → 0 ≤ regs m RSP → regs m RSP + 8 ≤ u64_max →
  let m' := run id 0 user_task_trampoline m in
  m_rip m' = entry ∧ regs m' RSP = sp ∧ m_cs m' = USER_CS ∧ m_ss m' = USER_SS ∧
  m_rflags m' = sysret_flags RFLAGS_WITH_IR ∧
  (∀ r, r ≠ RSP → r ≠ RCX → r ≠ R11 → regs m' r = regs m r) ∧ m_cr3 m' = m_cr3 m ∧
  gs_base m' = kernel_gs_base m ∧ kernel_gs_base m' = gs_base m.
Proof.
  intros Hst H0 Hsp m'. assert (wrap64 (regs m RSP + 8) = regs m RSP + 8) as Hwr by (apply wrap64_id; unfold is_u64; lia).
  pose proof (Hst 0%nat _ eq_refl) as Hw0. pose proof (Hst 1%nat _ eq_refl) as Hw1. rewrite Z.add_0_r in Hw0.
  change (8 * Z.of_nat 1) with 8 in Hw1. unfold m', user_task_trampoline, RFLAGS_WITH_IR.
  cbn -[load wrap64]. unfold top. cbn -[load wrap64]. decide_regs. rewrite Hwr, Hw0, Hw1.
  repeat split; try done. intros r Hr1 Hr2 Hr3. by rewrite !decide_False.
Qed.

(** Switching to the first task that [make_init_task] has just built, and
    running its trampoline, enters user mode at the entry point, with the
    address of the boot information as argument, the stack pointer a word below
    the top of the user stack, interrupts on and all other registers but the
    two that [sysretq] uses 0. *)
Theorem init_task_starts tramp stack_top f m :
  is_u64 tramp → may_switch m →
  let s := init_task_stack tramp stack_top f in
  regs m RSI = s.2 → 0 ≤ s.2 → stack_top ≤ u64_max → (∀ x, range s.2 144 x → mem m x = s.1 x) →
  apart s.2 144 (regs m RSP - 120) 120 → apart s.2 144 (regs m RDI) 8 →
  let m1 := do_switch m in
  let m2 := run id 0 user_task_trampoline m1 in
  m_rip m1 = tramp ∧ m_rip m2 = USER_ENTRY_VADDR ∧ m_cs m2 = USER_CS ∧ m_ss m2 = USER_SS ∧
  regs m2 RSP = USER_STACK_TOP_VIRT_ADDR - 8 ∧ regs m2 RDI = BOOTINFO_VADDR ∧ m_rflags m2 = RFLAGS_WITH_IR ∧
  (∀ r, r ≠ RSP → r ≠ RDI → r ≠ RCX → r ≠ R11 → regs m2 r = 0) ∧ m_cr3 m2 = regs m RDX ∧
  gs_base m2 = kernel_gs_base m ∧ kernel_gs_base m2 = gs_base m.
Proof.
  intros Ht Hm s Hsi H0 Htop Hmem Ha1 Ha2 m1 m2. pose proof (init_stack_words tramp stack_top f Ht) as Hw.
  fold s in Hw. apply stack_at_app in Hw as [Hw Hu]. change (8 * Z.of_nat (length (zero_regs_but_rdi BOOTINFO_VADDR ++ [tramp]))) with 128 in Hu.
  assert (switched (zero_regs_but_rdi BOOTINFO_VADDR) tramp m m1) as S.
  { apply switch_spec; [done|done|]. rewrite Hsi. eapply stack_at_ext; [|exact Hw]. intros x Hx. apply Hmem.
    unfold range in *. change (8 * Z.of_nat (length (zero_regs_but_rdi BOOTINFO_VADDR ++ [tramp]))) with 128 in Hx. lia. }
  destruct (starts_with_words _ _ (sw_regs _ _ _ _ S)) as [Hdi Hz].
  assert (s.2 = stack_top - 144) as Hs2 by (unfold s, init_task_stack; cbn [snd]; lia).
  assert (stack_at (mem m1) (regs m1 RSP) [USER_ENTRY_VADDR; USER_STACK_TOP_VIRT_ADDR - 8]) as Hst.
  { rewrite (sw_rsp _ _ _ _ S), Hsi. eapply stack_at_ext; [|exact Hu]. intros x Hx. cbn in Hx. rewrite (sw_mem _ _ _ _ S).
    - apply Hmem. unfold range in *. lia.
    - unfold range, apart in *. lia.
    - unfold range, apart in *. lia. }
  pose proof (sw_rsp _ _ _ _ S) as Hsp. pose proof (sw_rip _ _ _ _ S). pose proof (sw_cr3 _ _ _ _ S). pose proof (sw_gs _ _ _ _ S) as [Hg Hk].
  destruct (trampoline_spec m1 _ _ Hst ltac:(lia) ltac:(lia)) as (T1 & T2 & T3 & T4 & T5 & T6 & T7 & T8 & T9).
  fold m2 in T1, T2, T3, T4, T5, T6, T7, T8, T9.
  split; [done|]. split; [exact T1|]. split; [exact T3|]. split; [exact T4|]. split; [exact T2|].
  split; [rewrite T6 by done; exact Hdi|]. split; [rewrite T5; reflexivity|].
  split; [intros r Hr1 Hr2 Hr3 Hr4; rewrite T6 by done; by apply Hz|].
  split; [congruence|]. split; congruence.
Qed.

Lemma init_task_starts_witness :
  let s := init_task_stack 0xFFFFFFFF80003000 0xC000 (λ _, 0) in
  let m2 := run id 0 user_task_trampoline (do_switch (sample_call 0x4000 0x5000 0x9000 0x100 (0xC000 - 144) s.1)) in
  m_rip m2 = USER_ENTRY_VADDR ∧ regs m2 RDI = BOOTINFO_VADDR.
Proof.
  assert (∀ f, may_switch (sample_call 0x4000 0x5000 0x9000 0x100 (0xC000 - 144) f)) as H1.
  { intros f. apply sample_may_switch; try (vm_compute; done); unfold apart, is_u64, u64_max; lia. }
  intros s m2.
  assert (∀ x, range s.2 144 x → mem (sample_call 0x4000 0x5000 0x9000 0x100 (0xC000 - 144) s.1) x = s.1 x) as Hm.
  { intros x _. rewrite mem_sample. reflexivity. }
  assert (s.2 = 0xC000 - 144) as Hs2 by (vm_compute; reflexivity).
  destruct (init_task_starts 0xFFFFFFFF80003000 0xC000 (λ _, 0) (sample_call 0x4000 0x5000 0x9000 0x100 (0xC000 - 144) s.1)
    ltac:(split; vm_compute; discriminate) (H1 _) eq_refl ltac:(vm_compute; discriminate) ltac:(vm_compute; discriminate) Hm
    ltac:(right; vm_compute; discriminate) ltac:(right; vm_compute; discriminate)) as (_ & T1 & _ & _ & _ & T2 & _).
  split; [exact T1|exact T2].
Defined.

(** The trampoline turns interrupts on before it leaves the kernel: from its
    third instruction on, an interrupt in ring 0 takes the user's stack
    pointer for the kernel's. *)
Theorem trampoline_interrupted m entry sp t :
  stack_at (mem m) (regs m RSP) [entry; sp] → 0 ≤ regs m RSP → regs m RSP + 8 ≤ u64_max → m_cs m = KERNEL_CS →
  let m' := run id 0 (take 3 user_task_trampoline) m in
  Z.testbit (m_rflags m') 9 = true ∧ interrupt_stack t 0 m' = Z.land sp (not64 15).
Proof.
  intros Hst H0 Hsp Hcs m'. assert (wrap64 (regs m RSP + 8) = regs m RSP + 8) as Hwr by (apply wrap64_id; unfold is_u64; lia).
  pose proof (Hst 1%nat _ eq_refl) as Hw1. change (8 * Z.of_nat 1) with 8 in Hw1. unfold m', user_task_trampoline, interrupt_stack.
  cbn -[load wrap64 Z.testbit Z.lor not64]. unfold top. cbn -[load wrap64 Z.testbit Z.lor not64]. decide_regs. rewrite Hwr, Hw1, Hcs.
  split; [|done]. rewrite Z.lor_spec. apply orb_true_r.
Qed.
