(* ===== verification/Traps.v ===== *)
(** * System calls and interrupts as the user sees them

    The entry and exit paths of [Entry], composed: a system call is a function
    call that keeps the caller's registers, and an interrupt is not noticed by
    the code it interrupts. *)
From S2P Require Import Prelude Misc Paging PagingRef AddrSpace KernelStacks Objects Endpoints Sched Syscalls.
From S2P Require Import ByteMem Machine Entry.
#[local] Open Scope Z_scope.

Local Notation bstore := ByteMem.store.

(** ** System calls *)

Section syscalls.
Context (TOP SCRATCH : Z).

(** A user state and what the processor finds on a system call: the kernel
    stack of the task, with room for the frame, apart from the slots that hold
    its top and the user's stack pointer. *)
Record may_call (u : x86) (stack : Z) : Prop := {
  mc_regs : ∀ r, is_u64 (regs u r);
  mc_rip : is_u64 (m_rip u);
  mc_flags : is_u64 (m_rflags u);
  mc_top : load 8 (mem u) (wrap64 (kernel_gs_base u + TOP)) = stack;
  mc_room : 168 ≤ stack ≤ u64_max;
  mc_slots : apart (wrap64 (kernel_gs_base u + TOP)) 8 (wrap64 (kernel_gs_base u + SCRATCH)) 8;
  mc_slot : apart (wrap64 (kernel_gs_base u + SCRATCH)) 8 (stack - 168) 168
}.

(** [m] with the kernel's GS base and stack. *)
Record on_kernel_stack (u : x86) (stack : Z) (m : x86) : Prop := {
  ok_rsp : regs m RSP = stack;
  ok_regs : ∀ r, r ≠ RSP → regs m r = regs u r;
  ok_scratch : load 8 (mem m) (wrap64 (kernel_gs_base u + SCRATCH)) = regs u RSP;
  ok_mem : ∀ x, ¬ range (wrap64 (kernel_gs_base u + SCRATCH)) 8 x → mem m x = mem u x;
  ok_gs : gs_base m = kernel_gs_base u ∧ kernel_gs_base m = gs_base u;
  ok_cr3 : m_cr3 m = m_cr3 u
}.

Lemma enter_stack u stack :
  is_u64 (regs u RSP) → load 8 (mem u) (wrap64 (kernel_gs_base u + TOP)) = stack →
  apart (wrap64 (kernel_gs_base u + TOP)) 8 (wrap64 (kernel_gs_base u + SCRATCH)) 8 →
  on_kernel_stack u stack (run id 0 [Swapgs; MovToGs SCRATCH RSP; MovFromGs RSP TOP] u).
Proof.
  intros Hsp Ht Ha. cbn -[load wrap64 bstore]. unfold gs_addr. cbn -[load wrap64 bstore].
  split; cbn -[load wrap64 bstore].
  - decide_regs. rewrite load_store_ne; [done|]. exact Ha.
  - intros r Hr. by rewrite decide_False.
  - apply load_store_eq. change (256 ^ Z.of_nat 8) with (2 ^ 64). unfold is_u64, u64_max in *. lia.
  - intros x Hx. by apply store_ne.
  - done.
  - done.
Qed.

Definition FRAME_REGS : list reg :=
  [RAX; RDI; RSI; RDX; RCX; RAX; R8; R9; R10; R11; RBX; RBP; R12; R13; R14; R15].

Lemma enter_shape :
  syscall_enter TOP SCRATCH =
    [Swapgs; MovToGs SCRATCH RSP; MovFromGs RSP TOP] ++
    [PushImm USER_SS; PushGs SCRATCH; Push R11; PushImm USER_CS; Push RCX] ++ (Push <$> FRAME_REGS) ++ [Mov RDI RSP].
Proof. done. Qed.

(** The five words that [iretq] would take. *)
Lemma push_iret_words m usp :
  is_u64 (regs m R11) → is_u64 (regs m RCX) → is_u64 usp → 40 ≤ regs m RSP ≤ u64_max →
  load 8 (mem m) (gs_addr SCRATCH m) = usp → apart (gs_addr SCRATCH m) 8 (regs m RSP - 40) 40 →
  pushed [regs m RCX; USER_CS; regs m R11; usp; USER_SS] m
    (run id 0 [PushImm USER_SS; PushGs SCRATCH; Push R11; PushImm USER_CS; Push RCX] m).
Proof.
  intros H11 Hcx Hu Hr Hl Ha. cbn [run exec]. assert (is_u64 USER_SS ∧ is_u64 USER_CS) as [Hss Hcs] by (split; split; done).
  pose proof (pushed_one USER_SS m Hss ltac:(lia)) as P1. generalize dependent (push USER_SS m). intros m1 P1.
  pose proof (pu_rsp _ _ _ P1) as S1. cbn [length] in S1.
  assert (load 8 (mem m1) (gs_addr SCRATCH m1) = usp) as Hl1.
  { rewrite <-Hl. unfold gs_addr. rewrite (se_gs _ _ (pu_env _ _ _ P1)). apply load_ext. intros x Hx. apply (pu_mem _ _ _ P1).
    unfold range, apart, gs_addr in *. cbn [length]. lia. }
  rewrite Hl1. pose proof (pushed_one usp m1 Hu ltac:(lia)) as P2. pose proof (pushed_trans _ _ _ _ _ P1 P2) as Q2.
  generalize dependent (push usp m1). intros m2 P2 Q2. pose proof (pu_rsp _ _ _ Q2) as S2. cbn [length app] in S2.
  rewrite (pu_regs _ _ _ Q2 R11) by done.
  pose proof (pushed_one (regs m R11) m2 H11 ltac:(lia)) as P3. pose proof (pushed_trans _ _ _ _ _ Q2 P3) as Q3.
  generalize dependent (push (regs m R11) m2). intros m3 P3 Q3. pose proof (pu_rsp _ _ _ Q3) as S3. cbn [length app] in S3.
  pose proof (pushed_one USER_CS m3 Hcs ltac:(lia)) as P4. pose proof (pushed_trans _ _ _ _ _ Q3 P4) as Q4.
  generalize dependent (push USER_CS m3). intros m4 P4 Q4. pose proof (pu_rsp _ _ _ Q4) as S4. cbn [length app] in S4.
  rewrite (pu_regs _ _ _ Q4 RCX) by done.
  exact (pushed_trans _ _ _ _ _ Q4 (pushed_one (regs m RCX) m4 Hcx ltac:(lia))).
Qed.

(** The state in which [syscall_handler_inner] is called. *)
Record at_handler (u : x86) (stack : Z) (m : x86) : Prop := {
  ah_rsp : regs m RSP = stack - 168;
  ah_rdi : regs m RDI = stack - 168;
  ah_frame : stack_at (mem m) (stack - 168) (frame_words (syscall_frame u));
  ah_mem : ∀ x, ¬ range (stack - 168) 168 x → ¬ range (wrap64 (kernel_gs_base u + SCRATCH)) 8 x → mem m x = mem u x;
  ah_gs : gs_base m = kernel_gs_base u ∧ kernel_gs_base m = gs_base u;
  ah_cr3 : m_cr3 m = m_cr3 u
}.

Lemma frame_of_pushes (g : reg → Z) (u : x86) :
  g RCX = m_rip u → g R11 = m_rflags u → (∀ r, r ≠ RCX → r ≠ R11 → r ≠ RSP → g r = regs u r) →
  frame_words (syscall_frame u) = reverse (g <$> FRAME_REGS) ++ [m_rip u; USER_CS; m_rflags u; regs u RSP; USER_SS].
Proof. intros Hc Hf Hr. unfold frame_words, syscall_frame, FRAME_REGS. cbn. rewrite Hc, Hf, !Hr by done. done. Qed.

Lemma syscall_enter_spec u stack lstar sfmask :
  may_call u stack →
  at_handler u stack (run id 0 (syscall_enter TOP SCRATCH) (syscall_instr lstar sfmask u)).
Proof.
  intros [Hu Hrip Hfl Htop Hroom Hslots Hslot]. rewrite enter_shape, run_app4 by (done || apply straight_push).
  assert (on_kernel_stack (syscall_instr lstar sfmask u) stack
    (run id 0 [Swapgs; MovToGs SCRATCH RSP; MovFromGs RSP TOP] (syscall_instr lstar sfmask u))) as K.
  { apply enter_stack; [apply Hu|exact Htop|exact Hslots]. }
  generalize dependent (run id 0 [Swapgs; MovToGs SCRATCH RSP; MovFromGs RSP TOP] (syscall_instr lstar sfmask u)).
  intros m1 [k1 k2 k3 k4 [k5 k5'] k6]. cbn -[load wrap64] in k3, k4, k5, k5', k6.
  assert (regs m1 RCX = m_rip u ∧ regs m1 R11 = m_rflags u ∧ ∀ r, r ≠ RCX → r ≠ R11 → r ≠ RSP → regs m1 r = regs u r)
    as (Hcx & H11 & Hr).
  { split; [rewrite k2 by done; reflexivity|]. split; [rewrite k2 by done; reflexivity|].
    intros r H1 H2 H3. rewrite k2 by done. cbn. by rewrite !decide_False. }
  assert (gs_addr SCRATCH m1 = wrap64 (kernel_gs_base u + SCRATCH)) as Hga by (unfold gs_addr; by rewrite k5).
  pose proof (push_iret_words m1 (regs u RSP)) as P. rewrite Hga, Hcx, H11, k1 in P.
  specialize (P Hfl Hrip (Hu RSP) ltac:(lia) k3 ltac:(unfold apart in *; lia)).
  generalize dependent (run id 0 [PushImm USER_SS; PushGs SCRATCH; Push R11; PushImm USER_CS; Push RCX] m1). intros m2 P.
  pose proof (pu_rsp _ _ _ P) as S2. cbn [length] in S2. rewrite k1 in S2.
  assert (∀ r, is_u64 (regs m2 r)) as Hu2.
  { intros r. destruct (decide (r = RSP)) as [->|Hn]; [unfold is_u64; lia|]. rewrite (pu_regs _ _ _ P) by done.
    destruct (decide (r = RCX)) as [->|]; [by rewrite Hcx|]. destruct (decide (r = R11)) as [->|]; [by rewrite H11|].
    rewrite Hr by done. apply Hu. }
  pose proof (run_push id FRAME_REGS m2 ltac:(by apply (bool_decide_unpack _)) Hu2 ltac:(cbn; lia)) as Q.
  pose proof (pushed_trans _ _ _ _ _ P Q) as R. generalize dependent (run id 0 (Push <$> FRAME_REGS) m2). intros m3 Q R.
  pose proof (pu_rsp _ _ _ R) as S3. rewrite length_app, length_reverse, length_fmap, k1 in S3.
  change (8 * Z.of_nat (length FRAME_REGS + length [m_rip u; USER_CS; m_rflags u; regs u RSP; USER_SS])) with 168 in S3.
  assert (frame_words (syscall_frame u) =
    reverse (regs m2 <$> FRAME_REGS) ++ [m_rip u; USER_CS; m_rflags u; regs u RSP; USER_SS]) as Hfw.
  { apply frame_of_pushes; [rewrite (pu_regs _ _ _ P) by done; done..|]. intros r H1 H2 H3. rewrite (pu_regs _ _ _ P) by done. auto. }
  destruct (pu_env _ _ _ R) as [_ _ _ _ _ _ _ e1 e2 e3].
  split; cbn [run exec set_reg regs mem gs_base kernel_gs_base m_cr3].
  - by decide_regs.
  - by decide_regs.
  - rewrite Hfw, <-S3. apply R.
  - intros x H1 H2. rewrite (pu_mem _ _ _ R), k4; [done|done|]. rewrite S3, length_app, length_reverse, length_fmap. exact H1.
  - by rewrite e2, e3.
  - by rewrite e1.
Qed.

(** The addresses of user memory. *)
Definition user_addr (x : Z) : Prop := 0 ≤ x < 2 ^ 47.

(** [inner] called in [m] leaves the registers [r] in the frame: it returns on
    the same stack and page table, keeps the GS bases and writes no user
    memory. *)
Record leaves (inner : x86 → x86) (m : x86) (r : TaskRegisters) : Prop := {
  lv_rsp : regs (inner m) RSP = regs m RSP;
  lv_frame : stack_at (mem (inner m)) (regs m RSP) (frame_words r);
  lv_gs : gs_base (inner m) = gs_base m ∧ kernel_gs_base (inner m) = kernel_gs_base m;
  lv_mem : ∀ x, user_addr x → mem (inner m) x = mem m x;
  lv_cr3 : m_cr3 (inner m) = m_cr3 m
}.

(** The user state that returns with the registers [r]. *)
Record returns_with (r : TaskRegisters) (u m : x86) : Prop := {
  rw_rip : m_rip m = rip r;
  rw_flags : m_rflags m = sysret_flags (rflags r);
  rw_mode : m_cs m = USER_CS ∧ m_ss m = USER_SS;
  rw_rsp : regs m RSP = rsp r;
  rw_rax : regs m RAX = syscall_number_or_irq_or_error_code r;
  rw_args : regs m RDI = rdi r ∧ regs m RSI = rsi r ∧ regs m RDX = rdx r ∧ regs m R10 = r10 r ∧ regs m R8 = r8 r;
  rw_saved : regs m RBX = rbx r ∧ regs m RBP = rbp r ∧ regs m R9 = r9 r ∧ regs m R12 = r12 r ∧ regs m R13 = r13 r ∧
             regs m R14 = r14 r ∧ regs m R15 = r15 r;
  rw_gs : gs_base m = gs_base u ∧ kernel_gs_base m = kernel_gs_base u
}.

Definition POP_REGS : list reg := [R15; R14; R13; R12; RBP; RBX; R11; R10; R9; R8; RAX; RCX; RDX; RSI; RDI].

Lemma leave_shape :
  syscall_leave = (Pop <$> POP_REGS) ++ [Pop RAX; Pop RCX; AddImm RSP 8; Pop R11; Pop RSP; Swapgs; Sysretq].
Proof. done. Qed.

(** The end of the exit path, on the last six words of the frame. *)
Lemma leave_tail m nr ip c fl sp s :
  stack_at (mem m) (regs m RSP) [nr; ip; c; fl; sp; s] → 0 ≤ regs m RSP → regs m RSP + 48 ≤ u64_max →
  let m' := run id 0 [Pop RAX; Pop RCX; AddImm RSP 8; Pop R11; Pop RSP; Swapgs; Sysretq] m in
  m_rip m' = ip ∧ m_rflags m' = sysret_flags fl ∧ m_cs m' = USER_CS ∧ m_ss m' = USER_SS ∧ regs m' RSP = sp ∧
  regs m' RAX = nr ∧ gs_base m' = kernel_gs_base m ∧ kernel_gs_base m' = gs_base m ∧
  mem m' = mem m ∧ m_cr3 m' = m_cr3 m ∧
  ∀ r, r ≠ RAX → r ≠ RCX → r ≠ R11 → r ≠ RSP → regs m' r = regs m r.
Proof.
  intros Hst H0 H1. cbv zeta.
  change [Pop RAX; Pop RCX; AddImm RSP 8; Pop R11; Pop RSP; Swapgs; Sysretq]
    with ((Pop <$> [RAX; RCX]) ++ [AddImm RSP 8] ++ (Pop <$> [R11]) ++ [Pop RSP; Swapgs; Sysretq]).
  rewrite run_app4 by done. apply (stack_at_app _ _ [nr; ip] [c; fl; sp; s]) in Hst as [Ha Hb].
  apply (stack_at_app _ _ [c] [fl; sp; s]) in Hb as [_ Hb]. apply (stack_at_app _ _ [fl] [sp; s]) in Hb as [Hb Hc].
  cbn [length] in Hb, Hc. apply (stack_at_app _ _ [sp] [s]) in Hc as [Hc _].
  pose proof (run_pop id [RAX; RCX] [nr; ip] m ltac:(by apply (bool_decide_unpack _)) ltac:(by apply (bool_decide_unpack _))
    eq_refl H0 ltac:(cbn [length]; lia) Ha) as P1.
  generalize dependent (run id 0 (Pop <$> [RAX; RCX]) m). intros m1 [p1 p2 p3 p4 p5]. cbn [length] in p1.
  assert (regs (run id 0 [AddImm RSP 8] m1) RSP = regs m RSP + 24) as S2.
  { cbn -[wrap64]. decide_regs. rewrite p1, wrap64_id; unfold is_u64; lia. }
  pose proof (run_pop id [R11] [fl] (run id 0 [AddImm RSP 8] m1) ltac:(by apply (bool_decide_unpack _)) ltac:(by apply (bool_decide_unpack _))
    eq_refl ltac:(lia) ltac:(cbn [length]; lia)) as P2.
  assert (mem (run id 0 [AddImm RSP 8] m1) = mem m ∧ same_env m (run id 0 [AddImm RSP 8] m1) ∧
    ∀ r, r ≠ RSP → regs (run id 0 [AddImm RSP 8] m1) r = regs m1 r) as (M2 & E2 & R2).
  { split; [exact p4|]. split; [by destruct p5; split|]. intros r Hr. cbn. by rewrite decide_False. }
  generalize dependent (run id 0 [AddImm RSP 8] m1). intros m2 S2 P2 M2 E2 R2.
  specialize (P2 ltac:(rewrite M2, S2; eapply stack_at_ext; [done|]; replace (regs m RSP + 24) with (regs m RSP + 8 * Z.of_nat 2 + 8 * Z.of_nat 1) by lia; exact Hb)).
  generalize dependent (run id 0 (Pop <$> [R11]) m2). intros m3 [q1 q2 q3 q4 q5]. cbn [length] in q1.
  assert (top m3 = sp) as Ht.
  { unfold top. rewrite q1, q4, M2, S2. rewrite <-(Hc 0%nat sp eq_refl). f_equal. lia. }
  cbn -[top wrap64]. rewrite Ht. decide_regs. destruct q5 as [_ _ _ _ _ _ _ g0 g1 g2]. destruct E2 as [_ _ _ _ _ _ _ e0 e1 e2].
  rewrite (q3 RCX), (R2 RCX), (p2 1%nat RCX ip), (q2 0%nat R11 fl), (q3 RAX), (R2 RAX), (p2 0%nat RAX nr) by (done || by apply (bool_decide_unpack _)).
  repeat split; try congruence. intros r Hr1 Hr2 Hr3 Hr4. rewrite !decide_False by done.
  rewrite q3, R2, p3; [done|done|set_solver..].
Qed.

Lemma handler_run inner u :
  run inner 0 (syscall_handler TOP SCRATCH) u =
    run id 0 syscall_leave (inner (run id 0 (syscall_enter TOP SCRATCH) u)).
Proof.
  unfold syscall_handler. rewrite run_call by done. rewrite (run_irrel inner id) by done.
  by rewrite (run_irrel inner id (syscall_enter TOP SCRATCH)).
Qed.

Lemma syscall_leave_spec u m r :
  0 ≤ regs m RSP → regs m RSP + 168 ≤ u64_max → stack_at (mem m) (regs m RSP) (frame_words r) →
  gs_base m = kernel_gs_base u → kernel_gs_base m = gs_base u →
  returns_with r u (run id 0 syscall_leave m) ∧ mem (run id 0 syscall_leave m) = mem m ∧
  m_cr3 (run id 0 syscall_leave m) = m_cr3 m.
Proof.
  intros H0 H1 Hst Hg Hk. rewrite leave_shape, run_app by apply straight_pop.
  apply (stack_at_app _ _ (take 15 (frame_words r)) (drop 15 (frame_words r))) in Hst as [Ha Hb].
  pose proof (run_pop id POP_REGS (take 15 (frame_words r)) m ltac:(by apply (bool_decide_unpack _)) ltac:(by apply (bool_decide_unpack _))
    eq_refl H0 ltac:(cbn; lia) Ha) as P.
  generalize dependent (run id 0 (Pop <$> POP_REGS) m). intros m1 [p1 p2 p3 p4 p5].
  change (8 * Z.of_nat (length POP_REGS)) with 120 in p1. change (8 * Z.of_nat (length (take 15 (frame_words r)))) with 120 in Hb.
  rewrite <-p4, <-p1 in Hb. destruct p5 as [_ _ _ _ _ _ _ g0 g1 g2].
  destruct (leave_tail m1 _ _ _ _ _ _ Hb ltac:(lia) ltac:(lia)) as (T1 & T2 & T3 & T4 & T5 & T6 & T7 & T8 & Tm & Tc & T9).
  generalize dependent (run id 0 [Pop RAX; Pop RCX; AddImm RSP 8; Pop R11; Pop RSP; Swapgs; Sysretq] m1).
  intros m2 T1 T2 T3 T4 T5 T6 T7 T8 Tm Tc T9. split; [|split; congruence].
  split; [done|done|done|done|done| | |split; congruence]; repeat split; rewrite T9 by done.
  - by apply (p2 14%nat).
  - by apply (p2 13%nat).
  - by apply (p2 12%nat).
  - by apply (p2 7%nat).
  - by apply (p2 9%nat).
  - by apply (p2 5%nat).
  - by apply (p2 4%nat).
  - by apply (p2 8%nat).
  - by apply (p2 3%nat).
  - by apply (p2 2%nat).
  - by apply (p2 1%nat).
  - by apply (p2 0%nat).
Qed.

Lemma syscall_spec inner u stack lstar sfmask r :
  may_call u stack →
  let m := run id 0 (syscall_enter TOP SCRATCH) (syscall_instr lstar sfmask u) in
  leaves inner m r →
  let m' := run inner 0 (syscall_handler TOP SCRATCH) (syscall_instr lstar sfmask u) in
  returns_with r u m' ∧ m_cr3 m' = m_cr3 u ∧
  ∀ x, user_addr x → ¬ range (stack - 168) 168 x → ¬ range (wrap64 (kernel_gs_base u + SCRATCH)) 8 x → mem m' x = mem u x.
Proof.
  intros Hu m [l1 l2 [l3 l4] l5 l6] m'. pose proof (mc_room _ _ Hu) as Hroom. destruct (syscall_enter_spec u stack lstar sfmask Hu) as [a1 a2 a3 a4 [a5 a6] a7].
  fold m in a1, a2, a3, a4, a5, a6, a7. unfold m'. rewrite handler_run. fold m. clearbody m.
  destruct (syscall_leave_spec u (inner m) r) as (H & Hm & Hc); [lia|lia|by rewrite l1|congruence|congruence|].
  split; [done|]. split; [congruence|]. intros x Hx H1 H2. by rewrite Hm, l5, a4.
Qed.

End syscalls.

(** ** The whole system call *)

Section kernel.
Context {PT M : Type} `{!X86_64 PT} `{!PageSource M}.

(** How a system call ends, with its result, the message it received and the
    registers it leaves in the frame: at once, after its task slept, or after
    its task was suspended in a receive and then took the message that was
    pending for it, if there was one. *)
Inductive handled (hhdm : Z) (me : nat) (sp : Z) (user : Z → Z) (k : Kernel PT M) (r : TaskRegisters)
    : Z → option FastMessage → TaskRegisters → Prop :=
  | handled_at_once k1 v k' r' :
      syscall_dispatcher hhdm me sp user k r = Ret (k1, Returns v) →
      syscall_handler_inner hhdm me sp user k r = Ret (k', inl r') → handled hhdm me sp user k r v None r'
  | handled_slept k' (k1 : Kernel PT M) id k2 r' :
      syscall_handler_inner hhdm me sp user k r = Ret (k', inr AfterSleep) →
      resume AfterSleep k1 id r = Ret (k2, r') → handled hhdm me sp user k r 0 None r'
  | handled_received k' (k1 : Kernel PT M) id k2 r' :
      syscall_handler_inner hhdm me sp user k r = Ret (k', inr AfterRecv) →
      resume AfterRecv k1 id r = Ret (k2, r') →
      handled hhdm me sp user k r (ret_code IpcOk) (take_pending_message (k_ipc k1) id).2 r'.

(** The argument registers afterwards: the message, or what they were. *)
Definition args_after (om : option FastMessage) (r r' : TaskRegisters) : Prop :=
  match om with
  | Some msg => rdi r' = msg_label msg ∧ take 4 (msg_data msg) = [rsi r'; rdx r'; r10 r'; r8 r']
  | None => rdi r' = rdi r ∧ rsi r' = rsi r ∧ rdx r' = rdx r ∧ r10 r' = r10 r ∧ r8 r' = r8 r
  end.

(** What stays the same in the frame. *)
Definition same_saved (r r' : TaskRegisters) : Prop :=
  rip r' = rip r ∧ rflags r' = rflags r ∧ rsp r' = rsp r ∧ rbx r' = rbx r ∧ rbp r' = rbp r ∧ r9 r' = r9 r ∧
  r12 r' = r12 r ∧ r13 r' = r13 r ∧ r14 r' = r14 r ∧ r15 r' = r15 r.

Lemma with_message_spec msg r r' :
  with_message msg r = Ret r' → same_saved r r' ∧ args_after (Some msg) r r'.
Proof.
  unfold with_message, arr_get, args_after. destruct (msg_data msg) as [|d0 [|d1 [|d2 [|d3 l]]]]; try done.
  cbn. intros [= <-]. done.
Qed.

Lemma handled_frame hhdm me sp user k r v om r' :
  handled hhdm me sp user k r v om r' →
  same_saved r r' ∧ args_after om r r' ∧ syscall_number_or_irq_or_error_code r' = v.
Proof.
  intros [k1 v' k' r1 Hd H|k' k1 id k2 r1 _ Hr|k' k1 id k2 r1 _ Hr].
  - unfold syscall_handler_inner in H. rewrite Hd in H. cbn in H. by injection H as <- <-.
  - cbn [resume] in Hr. by injection Hr as <- <-.
  - cbn [resume] in Hr. destruct (take_pending_message (k_ipc k1) id) as [m [msg|]]; cbn [snd].
    + destruct (with_message msg r) as [r2| |] eqn:E; [|done..]. cbn in Hr. injection Hr as <- <-.
      by destruct (with_message_spec _ _ _ E).
    + cbn in Hr. by injection Hr as <- <-.
Qed.

(** C12: a system call is a function call that keeps the user's state: when the
    kernel has handled it with the result [v] and the received message [om] and
    left the registers in the frame, the user goes on after the [syscall] with
    the same stack, flags, page table, GS base, registers and memory; only
    [rcx], [r11] and the result in [rax] differ, and a received message, if
    there is one, is in [rdi], [rsi], [rdx], [r10] and [r8]. *)
Theorem syscall_keeps_user TOP SCRATCH inner u stack lstar sfmask hhdm me sp k v om r :
  may_call TOP SCRATCH u stack → sysret_flags (m_rflags u) = m_rflags u →
  2 ^ 47 ≤ stack - 168 → 2 ^ 47 ≤ wrap64 (kernel_gs_base u + SCRATCH) →
  handled hhdm me sp (mem u) k (syscall_frame u) v om r →
  let u' := syscall_instr lstar sfmask u in
  leaves inner (run id 0 (syscall_enter TOP SCRATCH) u') r →
  let m := run inner 0 (syscall_handler TOP SCRATCH) u' in
  m_rip m = m_rip u ∧ m_rflags m = m_rflags u ∧ m_cs m = USER_CS ∧ m_ss m = USER_SS ∧
  (∀ q, q ∈ [RSP; RBX; RBP; R9; R12; R13; R14; R15] → regs m q = regs u q) ∧
  gs_base m = gs_base u ∧ kernel_gs_base m = kernel_gs_base u ∧
  m_cr3 m = m_cr3 u ∧ (∀ x, user_addr x → mem m x = mem u x) ∧
  regs m RAX = v ∧
  match om with
  | None => ∀ q, q ∈ [RDI; RSI; RDX; R10; R8] → regs m q = regs u q
  | Some msg => regs m RDI = msg_label msg ∧ take 4 (msg_data msg) = regs m <$> [RSI; RDX; R10; R8]
  end.
Proof.
  intros Hu Hfl Hst Hsl Hh u' Hl m. destruct (syscall_spec TOP SCRATCH inner u stack lstar sfmask r Hu Hl) as (W & Hc & Hm).
  fold u' in W, Hc, Hm. fold m in W, Hc, Hm. clearbody m.
  destruct W as [w1 w2 [w3 w3'] w4 w5 (a1 & a2 & a3 & a4 & a5) (s1 & s2 & s3 & s4 & s5 & s6 & s7) [w8 w9]].
  destruct (handled_frame _ _ _ _ _ _ _ _ _ Hh) as ((f1 & f2 & f3 & f4 & f5 & f6 & f7 & f8 & f9 & f10) & Ha & Hv).
  cbn in f1, f2, f3, f4, f5, f6, f7, f8, f9, f10.
  split; [congruence|]. split; [congruence|]. split; [done|]. split; [done|]. split.
  { intros q Hq. repeat (apply elem_of_cons in Hq as [->|Hq]; [congruence|]). by apply elem_of_nil in Hq. }
  split; [done|]. split; [done|]. split; [done|]. split.
  { intros x Hx. apply Hm; [done|unfold user_addr, range in *; lia..]. }
  split; [congruence|]. destruct om as [msg|].
  - cbn. by rewrite a1, a2, a3, a4, a5.
  - destruct Ha as (b1 & b2 & b3 & b4 & b5). intros q Hq. cbn in b1, b2, b3, b4, b5.
    repeat (apply elem_of_cons in Hq as [->|Hq]; [congruence|]). by apply elem_of_nil in Hq.
Qed.

End kernel.

(** A user at 0x400000 that prints from a bad address, on a machine without
    pages to give; the kernel stack ends at 0xFFFF800000008000. *)
Definition sample_user : x86 :=
  mk_x86 (λ r, match r with RAX => SYS_DEBUG_PRINT | RSP => 0x7000 | RBX => 5 | RDI => 1 | _ => 0 end)
    (bstore 8 0xFFFF800000001000 0xFFFF800000008000 (λ x, x mod 256)) 0x400000 0x202 false USER_CS USER_SS 0 0 0x4000 0x1000
    0xFFFF800000001000.

Definition no_pages : PageSource unit := {| page_alloc _ _ _ := Ret (tt, None); page_free _ _ := Ret tt |}.

Definition sample_kernel : Kernel ref_pt unit :=
  mk_kernel (mk_sched ∅ ∅ [] [] 0) table_new ipc_new tt [].

(** The handler stores the result in the frame. *)
Definition sample_inner (m : x86) : x86 := set_mem (bstore 8 (regs m RSP + 120) 1 (mem m)) m.

Lemma syscall_keeps_user_witness :
  let u' := syscall_instr 0xFFFFFFFF80004000 0x200 sample_user in
  let m := run sample_inner 0 (syscall_handler 0 8) u' in
  m_rip m = 0x400000 ∧ regs m RSP = 0x7000 ∧ regs m RBX = 5 ∧ regs m RDI = 1 ∧ regs m RAX = 1 ∧ mem m 0x6005 = 5.
Proof.
  assert (may_call 0 8 sample_user 0xFFFF800000008000) as Hu.
  { split; [intros r; destruct r; split; vm_compute; discriminate|split; vm_compute; discriminate..| | | |].
    - vm_compute. reflexivity.
    - split; vm_compute; discriminate.
    - left. vm_compute. discriminate.
    - left. vm_compute. discriminate. }
  intros u' m.
  assert (handled (PageSource0:=no_pages) 0 0 0 (mem sample_user) sample_kernel (syscall_frame sample_user) 1 None
    (with_result 1 (syscall_frame sample_user))) as Hh by (eapply handled_at_once; reflexivity).
  assert (leaves sample_inner (run id 0 (syscall_enter 0 8) u') (with_result 1 (syscall_frame sample_user))) as Hl.
  { split; [vm_compute; reflexivity| |split; vm_compute; reflexivity| |vm_compute; reflexivity].
    - intros i w Hi. do 21 (destruct i as [|i]; [injection Hi as <-; vm_compute; reflexivity|]). done.
    - intros x Hx. unfold sample_inner. cbn [mem set_mem].
      replace (regs (run id 0 (syscall_enter 0 8) u') RSP) with 0xFFFF800000007F58 by (vm_compute; reflexivity).
      apply store_ne. unfold user_addr, range in *. lia. }
  assert (2 ^ 47 ≤ wrap64 (kernel_gs_base sample_user + 8)) as Hs by (vm_compute; discriminate).
  destruct (syscall_keeps_user 0 8 sample_inner sample_user 0xFFFF800000008000 0xFFFFFFFF80004000 0x200 0 0 0 sample_kernel
    1 None (with_result 1 (syscall_frame sample_user)) Hu eq_refl ltac:(lia) Hs Hh Hl)
    as (H1 & _ & _ & _ & H2 & _ & _ & _ & H3 & H4 & H5).
  split; [exact H1|]. split; [exact (H2 RSP ltac:(by apply (bool_decide_unpack _)))|].
  split; [exact (H2 RBX ltac:(by apply (bool_decide_unpack _)))|].
  split; [exact (H5 RDI ltac:(by apply (bool_decide_unpack _)))|]. split; [exact H4|].
  refine (eq_trans (H3 0x6005 _) _); [split; vm_compute; [discriminate|reflexivity]|vm_compute; reflexivity].
Defined.

(** ** Interrupts *)

Lemma err_stub_cpu vec : err_stub vec = pushes_error vec.
Proof.
  unfold err_stub, pushes_error. apply eq_bool_prop_intro. rewrite bool_decide_spec, !elem_of_cons, elem_of_nil.
  rewrite andb_True, !orb_True, !Is_true_true, Z.ltb_lt, !Z.eqb_eq. lia.
Qed.

(** A state that may be interrupted, and the stack the processor goes to. *)
Record may_interrupt (u : x86) (S vec error : Z) : Prop := {
  mi_regs : ∀ r, is_u64 (regs u r);
  mi_env : is_u64 (m_rip u) ∧ is_u64 (m_rflags u) ∧ is_u64 (m_cs u) ∧ is_u64 (m_ss u);
  mi_ds : 0 ≤ m_ds u < 2 ^ 16;
  mi_vec : 0 ≤ vec < 256;
  mi_error : is_u64 error;
  mi_room : 184 ≤ S ≤ u64_max
}.

Definition iret_words (u : x86) : list Z := [m_rip u; m_cs u; m_rflags u; regs u RSP; m_ss u].

(** Interrupt delivery and the head of the stub, as pushes on the new stack. *)
Definition pushed_head (vec error : Z) (u m0 : x86) : x86 :=
  push vec (push (if pushes_error vec then error else 0)
    (push (m_rip u) (push (m_cs u) (push (m_rflags u) (push (regs u RSP) (push (m_ss u) m0)))))).

Lemma push_gate v h fl c s m :
  push v (set_rip h (set_rflags fl (set_mode c s m))) = set_rip h (set_rflags fl (set_mode c s (push v m))).
Proof. done. Qed.

Lemma deliver_head f t ist vec error handler u :
  run f 0 (stub_head vec) (deliver t ist vec error handler u) =
    set_rip handler (set_rflags (gate_flags (m_rflags u))
      (set_mode KERNEL_CS (if m_cs u mod 4 =? 3 then 0 else m_ss u)
        (pushed_head vec error u (set_reg RSP (interrupt_stack t ist u) u)))).
Proof.
  unfold stub_head, deliver, pushed_head. rewrite err_stub_cpu. cbv zeta.
  destruct (pushes_error vec); cbn [run exec]; rewrite !push_gate; reflexivity.
Qed.

Lemma pushed_more v ws m m' :
  is_u64 v → pushed ws m m' → 8 * Z.of_nat (length ws) + 8 ≤ regs m RSP ≤ u64_max → pushed (v :: ws) m (push v m').
Proof.
  intros Hv Hp Hr. eapply (pushed_trans ws [v]); [exact Hp|]. apply pushed_one; [done|]. rewrite (pu_rsp _ _ _ Hp). lia.
Qed.

Lemma pushed_head_spec u S vec error m0 :
  may_interrupt u S vec error → regs m0 RSP = S →
  pushed (vec :: (if pushes_error vec then error else 0) :: iret_words u) m0 (pushed_head vec error u m0).
Proof.
  intros [Hr (H1 & H2 & H3 & H4) _ Hv He Hs] HS. unfold pushed_head, iret_words.
  assert (is_u64 vec) by (unfold is_u64, u64_max; lia).
  assert (is_u64 (if pushes_error vec then error else 0)) by (destruct (pushes_error vec); [done|split; done]).
  repeat (apply pushed_more; [done|  |cbn [length]; lia]). apply pushed_nil.
Qed.

Definition INT_REGS : list reg := [RAX; RBX; RCX; RDX; RSI; RDI; RBP; R8; R9; R10; R11; R12; R13; R14; R15].
Definition SELECT_CODE : list instr :=
  [MovAx 0x10; MovDsAx; MovEsAx; MovAxCs; AndAx 3; CmpAx 3; Jne 1; Swapgs; Mov RDI RSP].

Lemma save_shape :
  common_save = (Push <$> INT_REGS) ++ [MovFromDs RAX; Push RAX] ++ SELECT_CODE.
Proof. done. Qed.

(** The selectors: the code segment is the kernel's by now, so the GS bases are
    never swapped. *)
Lemma select_spec f m :
  m_cs m mod 4 = 0 → 0 ≤ m_cs m < 2 ^ 16 →
  let m' := run f 0 SELECT_CODE m in
  regs m' RDI = regs m RSP ∧ (∀ r, r ≠ RAX → r ≠ RDI → regs m' r = regs m r) ∧ mem m' = mem m ∧
  gs_base m' = gs_base m ∧ kernel_gs_base m' = kernel_gs_base m ∧ m_cr3 m' = m_cr3 m ∧ m_cs m' = m_cs m.
Proof.
  intros Hc Hc'. unfold SELECT_CODE. cbn [run exec].
  pose proof (set_ax_kept 0x10 m) as (a1 & a2 & [_ _ _ a3 _ _ _ a4 a5 a6]). generalize dependent (set_ax 0x10 m). intros m1 a1 a2 a3 a4 a5 a6.
  set (m2 := set_es (ax (set_ds (ax m1) m1)) (set_ds (ax m1) m1)).
  assert ((∀ r, regs m2 r = regs m1 r) ∧ mem m2 = mem m1 ∧ m_cs m2 = m_cs m1 ∧ m_cr3 m2 = m_cr3 m1 ∧ gs_base m2 = gs_base m1 ∧
    kernel_gs_base m2 = kernel_gs_base m1) as (b1 & b2 & b3 & b4 & b5 & b6) by done. clearbody m2.
  pose proof (set_ax_kept (m_cs m2) m2) as (c1 & c2 & [_ _ _ c3 _ _ _ c4 c5 c6]). pose proof (ax_set_ax (m_cs m2) m2) as c7.
  generalize dependent (set_ax (m_cs m2) m2). intros m3 c1 c2 c3 c4 c5 c6 c7.
  pose proof (set_ax_kept (Z.land (ax m3) 3) m3) as (d1 & d2 & [_ _ _ d3 _ _ _ d4 d5 d6]). pose proof (ax_set_ax (Z.land (ax m3) 3) m3) as d7.
  generalize dependent (set_ax (Z.land (ax m3) 3) m3). intros m4 d1 d2 d3 d4 d5 d6 d7.
  assert (ax m4 =? 3 = false) as Hz.
  { rewrite d7, c7, b3, a3, (Z.mod_small (m_cs m)) by lia. change 3 with (Z.ones 2). rewrite Z.land_ones by lia.
    change (2 ^ 2) with 4. by rewrite Hc. }
  cbn. rewrite Hz. cbn. decide_regs. repeat split; try congruence.
  - rewrite d1, c1, b1, a1; done.
  - intros r H1 H2. rewrite decide_False by done. rewrite d1, c1, b1, a1; done.
Qed.

(** The state in which [base_trap] is called. *)
Record at_trap (u : x86) (S vec error : Z) (m : x86) : Prop := {
  at_rsp : regs m RSP = S - 184;
  at_rdi : regs m RDI = S - 184;
  at_frame : stack_at (mem m) (S - 184) (iframe_words (interrupt_frame vec error u));
  at_mem : ∀ x, ¬ range (S - 184) 184 x → mem m x = mem u x;
  at_gs : gs_base m = gs_base u ∧ kernel_gs_base m = kernel_gs_base u;
  at_cr3 : m_cr3 m = m_cr3 u
}.

Lemma iframe_of_pushes vec error u :
  iframe_words (interrupt_frame vec error u) =
    ([m_ds u] ++ reverse (regs u <$> INT_REGS)) ++ vec :: (if pushes_error vec then error else 0) :: iret_words u.
Proof. done. Qed.

(** Saving the registers on a stack that has the head of the frame. *)
Lemma save_spec f u S vec error m :
  may_interrupt u S vec error →
  regs m RSP = S - 56 → (∀ r, r ≠ RSP → regs m r = regs u r) →
  stack_at (mem m) (S - 56) (vec :: (if pushes_error vec then error else 0) :: iret_words u) →
  (∀ x, ¬ range (S - 56) 56 x → mem m x = mem u x) →
  gs_base m = gs_base u → kernel_gs_base m = kernel_gs_base u → m_cr3 m = m_cr3 u → m_ds m = m_ds u → m_cs m = KERNEL_CS →
  at_trap u S vec error (run f 0 common_save m).
Proof.
  intros [Hr _ Hds _ _ Hs] Hsp Hreg Hst Hmem Hg Hk Hc3 Hds' Hcs. rewrite save_shape, run_app by apply straight_push.
  rewrite run_app by done. rewrite (run_irrel f id (Push <$> INT_REGS)) by apply straight_push.
  assert (∀ r, is_u64 (regs m r)) as Hu.
  { intros r. destruct (decide (r = RSP)) as [->|]; [unfold is_u64; lia|rewrite Hreg by done; apply Hr]. }
  pose proof (run_push id INT_REGS m ltac:(by apply (bool_decide_unpack _)) Hu ltac:(cbn; lia)) as P.
  generalize dependent (run id 0 (Push <$> INT_REGS) m). intros m1 P.
  assert (reverse (regs m <$> INT_REGS) = reverse (regs u <$> INT_REGS)) as Hw by (cbn; by rewrite !Hreg by done).
  rewrite Hw in P. pose proof (pu_rsp _ _ _ P) as S1. rewrite length_reverse, length_fmap in S1. change (8 * Z.of_nat (length INT_REGS)) with 120 in S1.
  destruct (pu_env _ _ _ P) as [_ _ _ e1 _ e2 _ e3 e4 e5].
  set (m2 := run f 0 [MovFromDs RAX; Push RAX] m1).
  assert (m2 = push (m_ds m1) (set_reg RAX (m_ds m1) m1)) as Hm2 by (unfold m2; cbn [run exec]; f_equal; cbn; by decide_regs).
  assert (pushed [m_ds u] (set_reg RAX (m_ds m1) m1) m2) as P2.
  { rewrite Hm2, e2, Hds'. apply pushed_one; [unfold is_u64, u64_max; lia|]. cbn. decide_regs. lia. }
  clearbody m2. destruct P2 as [q1 q2 q3 q4 q5]. cbn [length] in q1, q4. change (regs (set_reg RAX (m_ds m1) m1) RSP) with (regs m1 RSP) in q1.
  destruct q5 as [_ _ _ g1 _ _ _ g3 g4 g5]. cbn in g1, g3, g4, g5, q4.
  destruct (select_spec f m2) as (t1 & t2 & t3 & t4 & t5 & t6 & _); [rewrite g1, e1, Hcs; done|rewrite g1, e1, Hcs; done|].
  generalize dependent (run f 0 SELECT_CODE m2). intros m3 t1 t2 t3 t4 t5 t6.
  assert (regs m2 RSP = S - 184) as S2 by lia.
  assert (∀ x, range (S - 176) 176 x → mem m2 x = mem m1 x) as K2 by (intros x Hx; apply q4; unfold range in *; lia).
  assert (∀ x, range (S - 56) 56 x → mem m1 x = mem m x) as K1.
  { intros x Hx. apply (pu_mem _ _ _ P). rewrite length_reverse, length_fmap, S1. change (8 * Z.of_nat (length INT_REGS)) with 120.
    unfold range in *. lia. }
  split.
  - rewrite t2 by done. exact S2.
  - rewrite t1. exact S2.
  - rewrite t3, iframe_of_pushes. apply stack_at_app. split; [apply stack_at_app; split|].
    + rewrite <-S2. exact q3.
    + cbn [length]. replace (S - 184 + 8 * Z.of_nat 1) with (regs m1 RSP) by lia.
      eapply stack_at_ext; [|exact (pu_stack _ _ _ P)]. rewrite length_reverse, length_fmap. intros x Hx. apply K2.
      change (8 * Z.of_nat (length INT_REGS)) with 120 in Hx. unfold range in *. lia.
    + rewrite length_app, length_reverse, length_fmap. change (S - 184 + 8 * Z.of_nat (length [m_ds u] + length INT_REGS)) with (S - 184 + 128).
      replace (S - 184 + 128) with (S - 56) by lia. eapply stack_at_ext; [|exact Hst].
      change (8 * Z.of_nat (length (vec :: (if pushes_error vec then error else 0) :: iret_words u))) with 56.
      intros x Hx. rewrite K2, K1; [done|done|unfold range in *; lia].
  - intros x Hx. rewrite t3, q4 by (rewrite S2; unfold range in *; lia). rewrite (pu_mem _ _ _ P).
    + apply Hmem. unfold range in *. lia.
    + rewrite length_reverse, length_fmap, S1. change (8 * Z.of_nat (length INT_REGS)) with 120. unfold range in *. lia.
  - split; congruence.
  - congruence.
Qed.

Lemma trap_entry_spec f t ist vec error handler u S :
  S = interrupt_stack t ist u → may_interrupt u S vec error →
  at_trap u S vec error (run f 0 common_save (run f 0 (stub_head vec) (deliver t ist vec error handler u))).
Proof.
  intros HS Hm. rewrite deliver_head, <-HS.
  pose proof (pushed_head_spec u S vec error (set_reg RSP S u) Hm) as P. cbn [regs set_reg] in P. rewrite decide_True in P by done.
  specialize (P eq_refl). generalize dependent (pushed_head vec error u (set_reg RSP S u)). intros m P.
  pose proof (pu_rsp _ _ _ P) as S1. change (8 * Z.of_nat (length (vec :: (if pushes_error vec then error else 0) :: iret_words u))) with 56 in S1.
  cbn [regs set_reg] in S1. rewrite decide_True in S1 by done. pose proof (pu_mem _ _ _ P) as Hmem. pose proof (pu_stack _ _ _ P) as Hst.
  change (8 * Z.of_nat (length (vec :: (if pushes_error vec then error else 0) :: iret_words u))) with 56 in Hmem.
  rewrite S1 in Hmem, Hst. destruct (pu_env _ _ _ P) as [_ _ _ e1 _ e2 _ e3 e4 e5].
  apply save_spec; try done. intros r Hr. cbn. rewrite (pu_regs _ _ _ P) by done. cbn. by rewrite decide_False.
Qed.

(** [m] is the interrupted state again, with the memory [f]. *)
Record resumed (u : x86) (f : Z → Z) (m : x86) : Prop := {
  re_regs : ∀ r, regs m r = regs u r;
  re_env : m_rip m = m_rip u ∧ m_rflags m = m_rflags u ∧ m_cs m = m_cs u ∧ m_ss m = m_ss u;
  re_segs : m_ds m = m_ds u ∧ m_es m = m_ds u;
  re_mem : mem m = f;
  re_gs : gs_base m = gs_base u ∧ kernel_gs_base m = kernel_gs_base u;
  re_cr3 : m_cr3 m = m_cr3 u
}.

Lemma restore_shape :
  common_restore = (Pop <$> [RAX]) ++ [MovDsAx; MovEsAx] ++ (Pop <$> reverse INT_REGS) ++ [AddImm RSP 16; Iretq].
Proof. done. Qed.

Lemma int_regs_all r : r ≠ RSP → r ∈ reverse INT_REGS.
Proof. intros Hr. destruct r; try done; by apply (bool_decide_unpack _). Qed.

(** The end of the stub: vector and error code are dropped, and [iretq] takes
    the rest. *)
Lemma iret_spec m v e ws0 ws1 ws2 ws3 ws4 :
  stack_at (mem m) (regs m RSP) [v; e; ws0; ws1; ws2; ws3; ws4] → 0 ≤ regs m RSP → regs m RSP + 56 ≤ u64_max →
  let m' := run id 0 [AddImm RSP 16; Iretq] m in
  m_rip m' = ws0 ∧ m_cs m' = ws1 ∧ m_rflags m' = ws2 ∧ regs m' RSP = ws3 ∧ m_ss m' = ws4 ∧
  (∀ r, r ≠ RSP → regs m' r = regs m r) ∧ mem m' = mem m ∧ m_ds m' = m_ds m ∧ m_es m' = m_es m ∧ m_cr3 m' = m_cr3 m ∧
  gs_base m' = gs_base m ∧ kernel_gs_base m' = kernel_gs_base m.
Proof.
  intros Hst H0 H1 m'. apply (stack_at_app _ _ [v; e]) in Hst as [_ Hst]. cbn [length] in Hst.
  set (m1 := exec (AddImm RSP 16) m). assert (m' = exec Iretq m1) as -> by done.
  assert (regs m1 RSP = regs m RSP + 8 * Z.of_nat 2) as Hs.
  { unfold m1. cbn -[wrap64 Z.mul]. decide_regs. rewrite wrap64_id; [lia|unfold is_u64; lia]. }
  assert (mem m1 = mem m ∧ m_ds m1 = m_ds m ∧ m_es m1 = m_es m ∧ m_cr3 m1 = m_cr3 m ∧ gs_base m1 = gs_base m ∧
    kernel_gs_base m1 = kernel_gs_base m) as (E1 & E2) by done.
  assert (∀ r, r ≠ RSP → regs m1 r = regs m r) as Hr by (intros r Hr; unfold m1; cbn; by rewrite decide_False).
  clearbody m1. rewrite <-Hs, <-E1 in Hst. cbn -[load Z.mul]. decide_regs.
  split; [exact (Hst 0%nat _ eq_refl)|]. split; [exact (Hst 1%nat _ eq_refl)|]. split; [exact (Hst 2%nat _ eq_refl)|].
  split; [exact (Hst 3%nat _ eq_refl)|]. split; [exact (Hst 4%nat _ eq_refl)|]. split; [|done].
  intros r Hne. rewrite decide_False by done. by apply Hr.
Qed.

Lemma restore_spec u S vec error m :
  may_interrupt u S vec error → regs m RSP = S - 184 →
  stack_at (mem m) (S - 184) (iframe_words (interrupt_frame vec error u)) →
  gs_base m = gs_base u → kernel_gs_base m = kernel_gs_base u → m_cr3 m = m_cr3 u →
  resumed u (mem m) (run id 0 common_restore m).
Proof.
  intros [Hr _ Hds _ _ Hs] Hsp Hst Hg Hk Hc3. rewrite restore_shape, run_app4 by (done || apply straight_pop).
  rewrite iframe_of_pushes in Hst. rewrite <-app_assoc in Hst. apply stack_at_app in Hst as [W1 W23].
  apply stack_at_app in W23 as [W2 W3]. rewrite length_reverse, length_fmap in W3. cbn [length] in W2, W3.
  change (Z.of_nat (length INT_REGS)) with 15 in W3. rewrite <-Hsp in W1.
  pose proof (run_pop id [RAX] [m_ds u] m ltac:(by apply (bool_decide_unpack _)) ltac:(by apply (bool_decide_unpack _)) eq_refl
    ltac:(lia) ltac:(cbn [length]; lia) W1) as P1.
  generalize dependent (run id 0 (Pop <$> [RAX]) m). intros m1 [p1 p2 _ p4 [_ _ _ _ _ _ _ p5 p6 p7]].
  specialize (p2 0%nat RAX _ eq_refl eq_refl). cbn [length] in p1.
  set (m2 := run id 0 [MovDsAx; MovEsAx] m1).
  assert (m_ds m2 = m_ds u ∧ m_es m2 = m_ds u) as [D1 D2].
  { unfold m2. cbn. unfold ax. cbn. rewrite p2, Z.mod_small by lia. done. }
  assert ((∀ r, regs m2 r = regs m1 r) ∧ mem m2 = mem m1 ∧ m_cr3 m2 = m_cr3 m1 ∧ gs_base m2 = gs_base m1 ∧
    kernel_gs_base m2 = kernel_gs_base m1) as (R2 & M2 & C2 & G2 & K2) by done. clearbody m2.
  pose proof (run_pop id (reverse INT_REGS) (reverse (regs u <$> INT_REGS)) m2) as P2. rewrite R2, p1, M2, p4 in P2.
  specialize (P2 ltac:(by apply (bool_decide_unpack _)) ltac:(by apply (bool_decide_unpack _)) eq_refl ltac:(lia) ltac:(cbn; lia)).
  replace (regs m RSP + 8 * Z.of_nat 1) with (S - 184 + 8 * Z.of_nat 1) in P2 by lia. specialize (P2 W2).
  generalize dependent (run id 0 (Pop <$> reverse INT_REGS) m2). intros m3 [q1 q2 _ q4 [_ _ _ _ _ q5 q6 q7 q8 q9]].
  change (Z.of_nat (length (reverse INT_REGS))) with 15 in q1. rewrite R2, p1 in q1.
  assert (stack_at (mem m3) (regs m3 RSP) (vec :: (if pushes_error vec then error else 0) :: iret_words u)) as Ht.
  { rewrite q4, M2, p4. replace (regs m3 RSP) with (S - 184 + 8 * Z.of_nat 1 + 8 * 15) by lia. exact W3. }
  destruct (iret_spec m3 _ _ _ _ _ _ _ Ht ltac:(lia) ltac:(lia)) as (i1 & i2 & i3 & i4 & i5 & i6 & i7 & i8 & i9 & i10 & i11 & i12).
  generalize dependent (run id 0 [AddImm RSP 16; Iretq] m3). intros m4 i1 i2 i3 i4 i5 i6 i7 i8 i9 i10 i11 i12.
  split; [|done|split; congruence|congruence|split; congruence|congruence].
  intros r. destruct (decide (r = RSP)) as [->|Hne]; [done|]. rewrite i6 by done.
  apply int_regs_all in Hne. apply list_elem_of_lookup_1 in Hne as [i Hi]. apply (q2 i r); [done|].
  rewrite <-fmap_reverse, list_lookup_fmap, Hi. done.
Qed.

(** C13: an interrupt is not noticed.  From any state and for every vector the
    stub calls [base_trap] with an [InterruptFrame] of the interrupted
    registers, the vector and the error code (0 where the processor pushes
    none); when the handler returns and has left the frame alone, the
    interrupted code goes on with the registers, flags, stack, segments, GS
    bases and page table it had. *)
Theorem interrupt_transparent base_trap t ist vec error handler u :
  let S := interrupt_stack t ist u in
  may_interrupt u S vec error →
  let m := run base_trap 0 common_save (run base_trap 0 (stub_head vec) (deliver t ist vec error handler u)) in
  at_trap u S vec error m ∧
  (regs (base_trap m) RSP = regs m RSP →
   stack_at (mem (base_trap m)) (regs m RSP) (iframe_words (interrupt_frame vec error u)) →
   gs_base (base_trap m) = gs_base m → kernel_gs_base (base_trap m) = kernel_gs_base m → m_cr3 (base_trap m) = m_cr3 m →
   resumed u (mem (base_trap m)) (run base_trap 0 (interrupt_stub vec) (deliver t ist vec error handler u))).
Proof.
  intros S Hm m. pose proof (trap_entry_spec base_trap t ist vec error handler u S eq_refl Hm) as At. fold m in At. split; [done|].
  intros Hsp Hst Hg Hk Hc. unfold interrupt_stub, common_stub.
  assert (forallb straight (stub_head vec) = true) by (unfold stub_head; by destruct (err_stub vec)).
  rewrite run_app, (run_app_contained _ common_save) by (done || cbn; lia).
  rewrite run_call_cons. fold m.
  destruct At as [a1 _ _ _ [a2 a3] a4]. rewrite (run_irrel base_trap id) by done. clearbody m.
  apply (restore_spec u S vec error); [done|congruence|by rewrite <-a1|congruence..].
Qed.

(** The timer interrupts the user of [sample_user] between two instructions. *)
Lemma interrupt_transparent_witness :
  let t := mk_tss 0x8000 (λ _, 0) in
  let m := run id 0 (interrupt_stub 0x30) (deliver t 0 0x30 0 0xFFFFFFFF80005000 sample_user) in
  m_rip m = 0x400000 ∧ regs m RAX = SYS_DEBUG_PRINT ∧ m_cs m = USER_CS.
Proof.
  set (t := mk_tss 0x8000 (λ _, 0)).
  assert (may_interrupt sample_user (interrupt_stack t 0 sample_user) 0x30 0) as Hm.
  { split; [intros r; destruct r; split; vm_compute; discriminate| | | | |]; repeat split; vm_compute; (reflexivity || discriminate). }
  pose proof (interrupt_transparent id t 0 0x30 0 0xFFFFFFFF80005000 sample_user Hm) as H. cbv zeta in H. revert H.
  generalize (run id 0 common_save (run id 0 (stub_head 0x30) (deliver t 0 0x30 0 0xFFFFFFFF80005000 sample_user))).
  intros m0 [[a1 _ a3 _ _ _] H]. rewrite <-a1 in a3. destruct (H eq_refl a3 eq_refl eq_refl eq_refl) as [r1 (r2 & _ & r3 & _) _ _ _ _].
  split; [exact r2|]. split; [rewrite r1; reflexivity|exact r3].
Defined.
