(* ===== verification/Loader.v ===== *)
(** * Building tasks

    Models [make_init_task] and [make_kernel_task] of
    kernel/src/arch/amd64/scheduler/exec_loader.rs, and [init_virtual_memory]
    and [create_new_pt4_from_kernel_pt4] of memory/vmm/mod.rs.  Pages come from
    [HeapPages], page tables from the x86_64 crate; a page table lives in the
    page-table value, the pages it maps in the memory behind the direct map at
    [hhdm]. *)
From S2P Require Import Prelude Misc Memblock Frame Sparsemem Zones Paging AddrSpace AddrSpaceSpec.
From S2P Require Import KernelStacks KernelStacksSpec Objects ObjectsSpec Endpoints Sched Syscalls.
From S2P Require Import ByteMem Slab SlabHeap Machine Entry.
#[local] Open Scope Z_scope.

Local Notation bstore := ByteMem.store.

Definition USER_STACK_PAGES_COUNT : Z := 4.
Definition USER_LOAD_VADDR : Z := 0x400000.

(** [Page::range_inclusive(a, b)]. *)
Definition page_range_inclusive (a b : Z) : list Z :=
  (λ i, a + Z.of_nat i * PAGE_SIZE) <$> seq 0 (Z.to_nat ((b - a) / PAGE_SIZE + 1)).

(** [copy_nonoverlapping] from a slice: the bytes [l] go to [a]. *)
Definition put_bytes (a : Z) (l : list Z) (mem : Z → Z) : Z → Z :=
  λ x, if decide (range a (Z.of_nat (length l)) x) then default 0 (l !! Z.to_nat (x - a)) else mem x.

(** An [InitSvrsBootInfo] in memory. *)
Definition bootinfo_words (b : InitSvrsBootInfo) : list Z :=
  [self_tcb_cap b; self_vspace_cap b; self_cnode_cap b; cpio_base_addr b].
Definition put_bootinfo (a : Z) (b : InitSvrsBootInfo) (mem : Z → Z) : Z → Z :=
  fold_left (λ mem '(i, w), bstore 8 (a + 8 * Z.of_nat i) w mem) (imap pair (bootinfo_words b)) mem.

(** The index of a page in the level 4 table. *)
Definition l4_index (page : Z) : Z := page / 2 ^ 39 mod 512.

(** [OffsetPageTable::new]: the page table whose level 4 table is at the
    virtual address [table]. *)
Class OffsetPageTable (PT : Type) := offset_page_table_new : (Z → Z) → Z → Z → PT.

(** What is documented of it: an entry that is zero maps nothing, and what a
    page maps to is decided by the entry of the level 4 table above it. *)
Class OffsetPageTableLaws (PT : Type) `{!X86_64 PT, !X86_64Laws PT, !OffsetPageTable PT} := {
  opt_table mem table off : level_4_table (offset_page_table_new mem table off) = table;
  opt_zero mem table off page :
    load 8 mem (table + 8 * l4_index page) = 0 →
    translate (offset_page_table_new mem table off) page = None ∧ ¬ huge (offset_page_table_new mem table off) page;
  opt_same mem table table' off page :
    load 8 mem (table + 8 * l4_index page) = load 8 mem (table' + 8 * l4_index page) →
    translate (offset_page_table_new mem table off) page = translate (offset_page_table_new mem table' off) page
}.

(** The page allocator with the memory it clears. *)
#[global] Instance heap_source {P} {HP : HeapPages P} : PageSource (P * (Z → Z)) := {|
  page_alloc '(p, mem) order flags :=
    '(p, mem, r) ← hp_alloc p mem order flags;
    Ret ((p, mem), r);
  page_free '(p, mem) a :=
    p ← hp_free p a;
    Ret (p, mem)
|}.

Section loader.
Context {P PT : Type} {HP : HeapPages P} `{!X86_64 PT} {XL : X86_64Laws PT} `{!OffsetPageTable PT} (hhdm : Z).

(** [cr3] is the physical address of the active level 4 table. *)
Definition get_active_pml4 (cr3 : Z) : outcome Z := phys_to_virt hhdm cr3.

Definition init_virtual_memory (cr3 hhdm_offset : Z) (mem : Z → Z) : outcome PT :=
  lvl4 ← get_active_pml4 cr3;
  off ← virt_new hhdm_offset;
  Ret (offset_page_table_new mem lvl4 off).

Definition create_new_pt4_from_kernel_pt4 (cr3 : Z) (m : P * (Z → Z)) : outcome (P * (Z → Z) * Z) :=
  '(p, mem, r) ← page_alloc m 0 SAFE_KERNEL_PAGES;
  new_phys ← unwrap r;
  new_virt ← phys_to_virt hhdm new_phys;
  cur_virt ← get_active_pml4 cr3;
  let mem := copy_bytes (cur_virt + 8 * 256) (new_virt + 8 * 256) (8 * 256) mem in
  Ret (p, mem, new_phys).

(** The kernel page table was made with the offset [hhdm]. *)
Definition phys_to_offset_page_table (table : Z) (mem : Z → Z) : outcome PT :=
  virt ← virt_add hhdm table;
  Ret (offset_page_table_new mem virt hhdm).

Definition IMAGE_FLAGS : Z := flags_of [b_present page_bits; b_user page_bits; b_writable page_bits].
Definition USER_STACK_FLAGS : Z :=
  flags_of [b_present page_bits; b_user page_bits; b_writable page_bits; b_no_execute page_bits].
Definition BOOTINFO_FLAGS : Z := flags_of [b_present page_bits; b_user page_bits].

(** A page of the image: a new frame gets its bytes and is mapped. *)
Definition load_page (bytes : list Z) (i : nat) (st : PT * (P * (Z → Z))) : outcome (PT * (P * (Z → Z))) :=
  let '(pt, m) := st in
  off ← mul64 (Z.of_nat i) PAGE_SIZE;
  a ← add64 USER_LOAD_VADDR off;
  va ← virt_new a;
  let page := page_containing va in
  '(p, mem, r) ← page_alloc m 0 SAFE_KERNEL_PAGES;
  phys ← unwrap r;
  let frame := page_containing phys in
  let src_offset := off in
  e ← add64 src_offset PAGE_SIZE;
  let src_end := e `min` Z.of_nat (length bytes) in
  copy_len ← sub64 src_end src_offset;
  dst ← phys_to_virt hhdm phys;
  let mem := put_bytes dst (take (Z.to_nat copy_len) (drop (Z.to_nat src_offset) bytes)) mem in
  '(pt, m, r) ← map_to allocate_frame pt (p, mem) page frame IMAGE_FLAGS;
  _ ← expect r;
  Ret (pt, m).

Definition load_image (bytes : list Z) (pt : PT) (m : P * (Z → Z)) : outcome (PT * (P * (Z → Z))) :=
  let page_count := (Z.of_nat (length bytes) + PAGE_SIZE - 1) / PAGE_SIZE in
  for_range 0 (Z.to_nat page_count) (load_page bytes) (pt, m).

(** The pages of the user stack are those of one block. *)
Definition make_user_stack (pt : PT) (m : P * (Z → Z)) : outcome (PT * (P * (Z → Z))) :=
  order ← pages_to_order USER_STACK_PAGES_COUNT;
  '(m, r) ← page_alloc m (Z.to_nat order) SAFE_KERNEL_PAGES;
  stack_bottom_phys ← unwrap r;
  stack_size ← mul64 PAGE_SIZE USER_STACK_PAGES_COUNT;
  let stack_top_va := USER_STACK_TOP_VIRT_ADDR in
  stack_bot_va ← sub64 stack_top_va stack_size;
  bot ← virt_new stack_bot_va;
  last ← sub64 stack_top_va 1;
  last ← virt_new last;
  '(pt, m, _) ← for_each (λ page '(pt, m, curr_phys),
    c ← phys_new curr_phys;
    let frame := page_containing c in
    curr_phys ← add64 curr_phys PAGE_SIZE;
    '(pt, m, r) ← map_to allocate_frame pt m page frame USER_STACK_FLAGS;
    _ ← expect r;
    Ret (pt, m, curr_phys))
    (page_range_inclusive (page_containing bot) (page_containing last)) (pt, m, stack_bottom_phys);
  Ret (pt, m).

(** A word written by the kernel at the virtual address [va]. *)
Definition vwrite (pt : PT) (va v : Z) (mem : Z → Z) : outcome (Z → Z) :=
  match translate pt (page_of va) with
  | Some (frame, flags) =>
      if Z.testbit flags (b_writable page_bits) then Ret (bstore 8 (hhdm + frame + va mod PAGE_SIZE) v mem)
      else Panic PExplicit
  | None => Panic PExplicit
  end.

(** The first stack of [make_init_task] ... *)
Definition write_init_stack (pt : PT) (trampoline top : Z) (mem : Z → Z) : outcome ((Z → Z) * Z) :=
  mem ← vwrite pt (top - 8 * 1) (USER_STACK_TOP_VIRT_ADDR - 8) mem;
  mem ← vwrite pt (top - 8 * 2) USER_ENTRY_VADDR mem;
  mem ← vwrite pt (top - 8 * 3) trampoline mem;
  mem ← for_each (λ i mem, vwrite pt (top - 8 * i) 0 mem) (seqZ 4 (18 - 4 + 1)) mem;
  mem ← vwrite pt (top - 8 * 10) BOOTINFO_VADDR mem;
  Ret (mem, top - 8 * 18).

(** ... and of [make_kernel_task]. *)
Definition write_kernel_stack (pt : PT) (trampoline entry_point top : Z) (mem : Z → Z) : outcome ((Z → Z) * Z) :=
  mem ← vwrite pt (top - 8 * 1) trampoline mem;
  mem ← for_each (λ i mem, vwrite pt (top - 8 * i) 0 mem) (seqZ 2 (16 - 2 + 1)) mem;
  mem ← vwrite pt (top - 8 * 8) entry_point mem;
  Ret (mem, top - 8 * 16).

(** The kernel's data that creating a task changes: the page allocator and
    memory, the kernel page table, [STACK_VA_BUMP] and the object table. *)
Record kdata := mk_kdata {
  kd_pages : P * (Z → Z);
  kd_pt : PT;
  kd_bump : Z;
  kd_objects : ObjectTable
}.

Definition with_rdi (v : Z) (r : TaskRegisters) : TaskRegisters :=
  mk_regs (r15 r) (r14 r) (r13 r) (r12 r) (rbp r) (rbx r) (r11 r) (r10 r) (r9 r) (r8 r) (rax r) (rcx r) (rdx r)
    (rsi r) v (syscall_number_or_irq_or_error_code r) (rip r) (cs r) (rflags r) (rsp r) (ss r).

(** [trampoline] is the address of [user_task_trampoline]; the image [bytes]
    is the slice of the archive. *)
Definition make_init_task (cr3 trampoline : Z) (bytes : list Z) (task_id cpio_baddr : Z) (k : kdata)
    : outcome (kdata * result string (Task PT)) :=
  '(m, new_pml4_phys) ← create_new_pt4_from_kernel_pt4 cr3 (kd_pages k);
  pt ← phys_to_offset_page_table new_pml4_phys m.2;
  '(pt, m) ← load_image bytes pt m;
  '(pt, m) ← make_user_stack pt m;
  '(p, mem, r) ← page_alloc m 0 SAFE_KERNEL_PAGES;
  bootinfo_phys ← unwrap r;
  '(o, cnode, info) ← make_init_caps (kd_objects k) task_id cnode_new;
  let info := mk_bootinfo (self_tcb_cap info) (self_vspace_cap info) (self_cnode_cap info) cpio_baddr in
  dst ← phys_to_virt hhdm bootinfo_phys;
  let mem := put_bootinfo dst info mem in
  va ← virt_new BOOTINFO_VADDR;
  '(pt, m, r) ← map_to allocate_frame pt (p, mem) (page_containing va) (page_containing bootinfo_phys) BOOTINFO_FLAGS;
  _ ← expect r;
  '(bump, kpt, m, kernel_stack) ← allocate_kernel_stack (kd_bump k) (kd_pt k) m DEFAULT_KERNEL_STACK_SIZE;
  '(mem, initial_rsp) ← write_init_stack kpt trampoline (ks_top kernel_stack) m.2;
  Ret (mk_kdata (m.1, mem) kpt bump o,
    Ok (mk_task task_id (with_rdi BOOTINFO_VADDR (with_rsp initial_rsp regs_default)) 0 (as_new pt) kernel_stack cnode
      TaskState.Ready)).

(** [trampoline] is the address of [kernel_task_trampoline]. *)
Definition make_kernel_task (cr3 trampoline id entry_point : Z) (k : kdata) : outcome (kdata * Task PT) :=
  hhdm_offset ← virt_new hhdm;
  virt ← phys_to_virt hhdm cr3;
  let page_table := offset_page_table_new (kd_pages k).2 virt hhdm_offset in
  '(bump, kpt, m, kernel_stack) ← allocate_kernel_stack (kd_bump k) (kd_pt k) (kd_pages k) DEFAULT_KERNEL_STACK_SIZE;
  '(mem, initial_rsp) ← write_kernel_stack kpt trampoline entry_point (ks_top kernel_stack) m.2;
  Ret (mk_kdata (m.1, mem) kpt bump (kd_objects k),
    mk_task id (with_rsp initial_rsp regs_default) 0 (as_new page_table) kernel_stack cnode_new TaskState.Ready).

End loader.

(** ** Bytes *)

Lemma put_bytes_in a l mem i : 0 ≤ i < Z.of_nat (length l) → put_bytes a l mem (a + i) = default 0 (l !! Z.to_nat i).
Proof. intros Hi. unfold put_bytes. rewrite decide_True by (unfold range; lia). do 3 f_equal. lia. Qed.

Lemma put_bytes_out a l mem x : ¬ range a (Z.of_nat (length l)) x → put_bytes a l mem x = mem x.
Proof. intros Hx. unfold put_bytes. by rewrite decide_False. Qed.

Lemma put_bootinfo_out a b mem x : ¬ range a 32 x → put_bootinfo a b mem x = mem x.
Proof.
  intros Hx. unfold put_bootinfo. cbn. rewrite !store_ne; [done|..]; unfold range in *; lia.
Qed.

(** ** The allocator, relative to a point in time

    [B0] are the blocks that were out at that point and [mem0] the memory; the
    blocks of the interface are those handed out since, and the bytes of the
    older blocks are as they were. *)
Section relative.
Context {P : Type} {HP : HeapPages P} (hhdm : Z) {HL : HeapPagesLaws P hhdm}.

Definition kept (B : gmap Z nat) (mem mem' : Z → Z) : Prop :=
  ∀ a o x, B !! a = Some o → range (a + hhdm) (block_bytes o) x → mem' x = mem x.

Lemma kept_refl B mem : kept B mem mem.
Proof. done. Qed.

Lemma kept_trans B B' mem mem' mem'' : B ⊆ B' → kept B mem mem' → kept B' mem' mem'' → kept B mem mem''.
Proof.
  intros HB H1 H2 a o x Ha Hx. rewrite (H2 a o x); [by apply (H1 a o)| |done]. by eapply lookup_weaken.
Qed.

(** Writing in a block that is not in [B] keeps it. *)
Lemma kept_other p B B' a o mem mem' :
  hp_out p B' → B ⊆ B' → B !! a = None → B' !! a = Some o →
  (∀ x, ¬ range (a + hhdm) (block_bytes o) x → mem' x = mem x) → kept B mem mem'.
Proof.
  intros Hp HB Hn Ha Hm b o' x Hb Hx. apply Hm. intros Hx'.
  assert (B' !! b = Some o') as Hb' by by eapply lookup_weaken.
  assert (a ≠ b) as Hab by congruence.
  pose proof (hp_out_disjoint p B' a o b o' Hp Ha Hb' Hab). unfold ByteMem.apart, range in *. lia.
Qed.

Definition since (B0 : gmap Z nat) (mem0 : Z → Z) (m : P * (Z → Z)) (B : gmap Z nat) : Prop :=
  B0 ##ₘ B ∧ hp_out m.1 (B0 ∪ B) ∧ kept B0 mem0 m.2.

Lemma since_refl p mem B : hp_out p B → since B mem (p, mem) ∅.
Proof. intros Hp. split; [apply map_disjoint_empty_r|]. by rewrite map_union_empty. Qed.

Lemma since_alloc B0 mem0 p mem B o :
  since B0 mem0 (p, mem) B →
  wp (page_alloc (p, mem) o SAFE_KERNEL_PAGES) (λ '(m', r),
    match r with
    | Some a => B !! a = None ∧ since B0 mem0 m' (<[a:=o]> B)
    | None => since B0 mem0 m' B
    end).
Proof.
  intros (Hd & Hp & Hk). unfold page_alloc, heap_source. cbn [fst snd] in *. apply wp_bind.
  eapply wp_mono; [by apply (hp_alloc_law p mem (B0 ∪ B) o); [|right]|]. intros [[p' mem'] [a|]]; cbn [mbind outcome_bind].
  - intros (Hn & Hp' & _ & _ & Hm). apply lookup_union_None in Hn as [Hn0 Hn]. split; [done|].
    split; [by apply map_disjoint_insert_r|]. cbn [fst snd]. rewrite <-insert_union_r by done. split; [done|].
    eapply (kept_trans B0 (B0 ∪ B)); [by apply map_union_subseteq_l|done|].
    eapply (kept_other p' _ (<[a:=o]> (B0 ∪ B)) a o); [done| | |by apply lookup_insert_eq|].
    + apply insert_subseteq. by apply lookup_union_None.
    + by apply lookup_union_None.
    + intros x Hx. rewrite Hm, decide_False; [done|]. tauto.
  - by intros (-> & -> & _).
Qed.

Definition relative_laws (B0 : gmap Z nat) (mem0 : Z → Z) : PageSourceLaws (P * (Z → Z)).
Proof.
  refine {| pages_out := since B0 mem0 |}.
  - intros m B a o (Hd & Hp & _) Ha. assert ((B0 ∪ B) !! a = Some o) as Ha' by by apply lookup_union_Some_r.
    destruct (hp_out_place _ _ a o Hp Ha') as (H0 & Hal & Hle & _). split; [done|]. split; [|done].
    apply Z.mod_divide; [done|]. etransitivity; [|exact Hal]. unfold block_bytes. apply Z.divide_factor_l.
  - intros m B a o a' o' (Hd & Hp & _) Ha Ha' Hne. apply (hp_out_disjoint _ _ a o a' o' Hp); [| |done]; by apply lookup_union_Some_r.
  - intros [p mem] B o Hs. by apply since_alloc.
  - intros [p mem] B a o (Hd & Hp & Hk) Ha. cbn [fst snd] in *. unfold page_free, heap_source. apply wp_bind.
    eapply wp_mono; [apply (hp_free_law p _ a o Hp); by apply lookup_union_Some_r|]. intros p' [Hp' _].
    apply wp_ret. split; [by apply map_disjoint_delete_r|]. split; [|done]. cbn [fst].
    rewrite delete_union, (delete_id B0) in Hp'; [done|]. by eapply map_disjoint_Some_l.
Defined.

(** The next [n] requests, of at most four pages each, are served. *)
Fixpoint supplies (n : nat) (p : P) : Prop :=
  match n with
  | O => True
  | S n => ∀ mem o p' mem' r, (o ≤ 2)%nat → hp_alloc p mem o SAFE_KERNEL_PAGES = Ret (p', mem', r) → is_Some r ∧ supplies n p'
  end.

Definition room (n : nat) (m : P * (Z → Z)) : Prop := supplies n m.1.

Lemma supplies_less n p : supplies (S n) p → supplies n p.
Proof.
  revert p. induction n as [|n IH]; intros p Hp; [done|]. intros mem o p' mem' r Ho E.
  destruct (Hp mem o p' mem' r Ho E) as [Hr Hp']. split; [done|]. by apply IH.
Qed.

Lemma room_budget : budget room.
Proof.
  split.
  - intros n [p mem] o [p' mem'] r Hr Ho E. unfold page_alloc, heap_source in E.
    destruct (hp_alloc p mem o SAFE_KERNEL_PAGES) as [[[p1 mem1] r1]| |] eqn:Ea; [|done..]. injection E as <- <- <-.
    by apply (Hr mem o p1 mem1 r1).
  - intros n m. apply supplies_less.
Qed.

(** What costs at most [c] requests. *)
Definition uses (c : nat) (m m' : P * (Z → Z)) : Prop := ∀ n, room (c + n) m → room n m'.

Lemma uses_0 m : uses 0 m m.
Proof. by intros n. Qed.

Lemma uses_trans c c' m1 m2 m3 : uses c m1 m2 → uses c' m2 m3 → uses (c + c') m1 m3.
Proof. intros H1 H2 n Hn. apply H2, H1. by rewrite Nat.add_assoc. Qed.

Lemma uses_room c n m m' : uses c m m' → room (c + n) m → room n m'.
Proof. intros Hu. apply Hu. Qed.

Lemma room_le n n' m : (n' ≤ n)%nat → room n m → room n' m.
Proof. intros Hn Hr. apply (budget_less room (n - n')); [apply room_budget|]. by replace (n - n' + n')%nat with n by lia. Qed.

Lemma uses_le c c' m m' : (c ≤ c')%nat → uses c m m' → uses c' m m'.
Proof. intros Hc Hu n Hn. apply Hu, (room_le (c' + n)); [lia|done]. Qed.
End relative.

(** ** The lower half of a new address space *)

Section space.
Context {P PT : Type} {HP : HeapPages P} `{!X86_64 PT} {XL : X86_64Laws PT} {hhdm : Z} {HL : HeapPagesLaws P hhdm}.
Implicit Types (m : P * (Z → Z)) (pt : PT) (T : gmap Z (Z * Z)) (B : gmap Z nat).

Definition low (page : Z) : Prop := 0 ≤ page < 2 ^ 47.

(** The frames of [T] lie in blocks handed out after [B0]; every user page
    shows the bytes of [C]; the rest of the address space is as at [pt0], and
    the blocks of [B0] have the bytes of [mem0]. *)
Record user_space (B0 : gmap Z nat) (mem0 C : Z → Z) (pt0 pt : PT) m T B : Prop := {
  us_out : hp_out m.1 B;
  us_sub : B0 ⊆ B;
  us_table : ∀ page, low page → translate pt page = T !! page;
  us_upper : ∀ page, ¬ low page → translate pt page = translate pt0 page;
  us_root : level_4_table pt = level_4_table pt0;
  us_frame : ∀ page f fl, T !! page = Some (f, fl) →
    ∃ a o, B !! a = Some o ∧ B0 !! a = None ∧ a ≤ f ∧ f + PAGE_SIZE ≤ a + block_bytes o;
  us_inj : ∀ page page' f fl fl', T !! page = Some (f, fl) → T !! page' = Some (f, fl') → page = page';
  us_bytes : ∀ page f fl i, T !! page = Some (f, fl) → 0 ≤ i < PAGE_SIZE → m.2 (f + hhdm + i) = C (page + i);
  us_kept : kept hhdm B0 mem0 m.2;
  us_huge : ∀ page, low page → ¬ huge pt page
}.

Context (B0 : gmap Z nat) (mem0 C : Z → Z) (pt0 : PT).
#[local] Notation uspace := (user_space B0 mem0 C pt0).

(** No page is mapped to the block. *)
Definition unused T (a : Z) (o : nat) : Prop := ∀ page f fl, T !! page = Some (f, fl) → ¬ range a (block_bytes o) f.

(** Other blocks grow and memory outside the blocks that are out may change. *)
Lemma us_grow pt m m' T B B' :
  uspace pt m T B → B ⊆ B' → hp_out m'.1 B' → kept hhdm B m.2 m'.2 → uspace pt m' T B'.
Proof.
  intros [] HB Hout Hk. split; try done.
  - by etransitivity.
  - intros page f fl Hp. destruct (us_frame0 _ _ _ Hp) as (a & o & Ha & H). exists a, o. split; [by eapply lookup_weaken|done].
  - intros page f fl i Hp Hi. destruct (us_frame0 _ _ _ Hp) as (a & o & Ha & _ & H1 & H2).
    rewrite (Hk a o); [by eapply us_bytes0|done|]. unfold range. lia.
  - by eapply kept_trans.
Qed.

Lemma us_alloc pt m T B o :
  uspace pt m T B → (o ≤ 2)%nat →
  wp (page_alloc m o SAFE_KERNEL_PAGES) (λ '(m', r),
    match r with
    | Some a => uses 1 m m' ∧ uspace pt m' T (<[a:=o]> B) ∧ B !! a = None ∧ B0 !! a = None ∧ unused T a o ∧
        ∀ x, range (a + hhdm) (block_bytes o) x → m'.2 x = 0
    | None => ¬ room 1 m
    end).
Proof.
  intros Hs Ho. destruct m as [p mem].
  destruct (wp_elim _ _ (hp_alloc_law p mem B o SAFE_KERNEL_PAGES (us_out _ _ _ _ _ _ _ _ Hs) ltac:(by right))) as ([[p' mem'] r] & E0 & Hr).
  assert (page_alloc (p, mem) o SAFE_KERNEL_PAGES = Ret ((p', mem'), r)) as Ea by (unfold page_alloc, heap_source; by rewrite E0).
  rewrite Ea. apply wp_ret. destruct r as [a|].
  2:{ intros Hroom. by destruct (bu_alloc _ room_budget _ _ _ _ _ Hroom Ho Ea) as [[x Hx] _]. }
  destruct Hr as (Hn & Hp' & _ & _ & Hm).
  assert (uspace pt (p', mem') T (<[a:=o]> B)) as Hs'.
  { eapply us_grow; [exact Hs|by apply insert_subseteq|done|].
    eapply (kept_other hhdm p' B (<[a:=o]> B) a o); [done|by apply insert_subseteq|done|by apply lookup_insert_eq|].
    intros x Hx. cbn [snd]. rewrite Hm, decide_False; [done|]. tauto. }
  split; [intros n Hr; by apply (bu_alloc _ room_budget _ _ _ _ _ Hr Ho Ea)|].
  split; [done|]. split; [done|]. split; [|split].
  - destruct (B0 !! a) as [o0|] eqn:E; [|done]. pose proof (lookup_weaken _ _ _ _ E (us_sub _ _ _ _ _ _ _ _ Hs)). congruence.
  - intros page f fl Hpg Hr. destruct (us_frame _ _ _ _ _ _ _ _ Hs _ _ _ Hpg) as (b & o' & Hb & _ & H1 & H2).
    assert (a ≠ b) as Hab by congruence.
    pose proof (hp_out_disjoint p' _ a o b o' Hp' ltac:(by apply lookup_insert_eq) ltac:(by rewrite lookup_insert_ne) Hab).
    unfold ByteMem.apart, range, PAGE_SIZE in *. lia.
  - intros x Hx. cbn [snd]. by rewrite Hm, decide_True.
Qed.

Lemma us_write pt p mem mem' T B a o :
  uspace pt (p, mem) T B → B !! a = Some o → B0 !! a = None → unused T a o →
  (∀ x, ¬ range (a + hhdm) (block_bytes o) x → mem' x = mem x) → uspace pt (p, mem') T B.
Proof.
  intros [] Ha Hn Hu Hm. split; try done.
  - intros page f fl i Hp Hi. cbn [snd] in *. rewrite Hm; [by eapply us_bytes0|].
    destruct (us_frame0 _ _ _ Hp) as (b & o' & Hb & _ & H1 & H2). intros Hr. destruct (decide (a = b)) as [<-|Hab].
    + apply (Hu _ _ _ Hp). rewrite Ha in Hb. injection Hb as <-. unfold range in *. unfold PAGE_SIZE in *. lia.
    + pose proof (hp_out_disjoint p _ a o b o' us_out0 Ha Hb Hab). unfold ByteMem.apart, range in *. lia.
  - cbn [snd] in *. apply (kept_trans hhdm B0 B0 mem0 mem mem'); [done|done|].
    by apply (kept_other hhdm p B0 B a o mem mem').
Qed.

(** Mapping a page of a block that the lower half does not use yet. *)
Lemma us_map pt m T B a o page f flags :
  uspace pt m T B → B !! a = Some o → B0 !! a = None → a ≤ f → f + PAGE_SIZE ≤ a + block_bytes o → low page →
  (∀ page' fl, T !! page' ≠ Some (f, fl)) → (∀ i, 0 ≤ i < PAGE_SIZE → m.2 (f + hhdm + i) = C (page + i)) →
  Z.testbit flags (b_present page_bits) = true →
  wp (map_to allocate_frame pt m page f flags) (λ '(pt', m', r),
    match r with
    | Ok _ => uses 3 m m' ∧ T !! page = None ∧ ∃ B', B ⊆ B' ∧ uspace pt' m' (<[page:=(f, flags)]> T) B' ∧ kept hhdm B m.2 m'.2
    | Err _ => ¬ room 3 m ∨ is_Some (T !! page)
    end).
Proof.
  intros Hs Ha Hn Hf1 Hf2 Hlow Hnew Hc Hpr.
  pose proof (since_refl hhdm m.1 m.2 B (us_out _ _ _ _ _ _ _ _ Hs)) as H0. rewrite <-(surjective_pairing m) in H0.
  eapply wp_mono; [apply (map_to_room (PageSourceLaws0 := relative_laws hhdm B m.2) room pt m ∅ page f flags room_budget H0 Hpr)|].
  intros [[pt' m'] [[]|e]].
  2:{ intros (_ & _ & _ & Hu & _). destruct Hu as [Hu|[Hu|Hu]]; [by left|by destruct (us_huge _ _ _ _ _ _ _ _ Hs page Hlow)|].
      right. by rewrite <-(us_table _ _ _ _ _ _ _ _ Hs page Hlow). }
  intros ((D & _ & (Hd & HD & Hk)) & Hroot & Hhuge & Hu & Hnone & Hmap). split; [exact Hu|].
  assert (uspace pt m' T (B ∪ D)) as [].
  { eapply us_grow; [exact Hs|by apply map_union_subseteq_l|done|exact Hk]. }
  rewrite us_table0 in Hnone by done. split; [done|]. exists (B ∪ D). split; [by apply map_union_subseteq_l|]. split; [|exact Hk].
  split; try done.
  - intros p Hp. rewrite Hmap. case_decide as E; [subst; by rewrite lookup_insert_eq|]. rewrite lookup_insert_ne by done. by apply us_table0.
  - intros p Hp. rewrite Hmap. case_decide as E; [by subst|]. by apply us_upper0.
  - by rewrite Hroot.
  - intros p g fl [[<- [= <- <-]]|[_ Hp]]%lookup_insert_Some; [|by eapply us_frame0].
    exists a, o. split; [by apply lookup_union_Some_l|done].
  - intros p p' g fl fl' [[<- E]|[_ Hp]]%lookup_insert_Some [[<- E']|[_ Hp']]%lookup_insert_Some; simplify_eq; try done.
    + by apply Hnew in Hp'.
    + by apply Hnew in Hp.
    + by eapply us_inj0.
  - intros p g fl i [[<- [= <- <-]]|[_ Hp]]%lookup_insert_Some Hi; [|by eapply us_bytes0].
    rewrite (Hk a o); [by apply Hc|done|]. unfold range. lia.
  - intros p Hp. rewrite Hhuge. by apply us_huge0.
Qed.
End space.

(** ** Steps that may panic *)

Section steps.
Context {A : Type} {Q : A → Prop} {R : panic → Prop}.

Lemma post_add64 x y (f : Z → outcome A) : x + y ≤ u64_max → post (f (x + y)) Q R → post (add64 x y ≫= f) Q R.
Proof. intros H Hf. unfold add64. by rewrite (proj2 (Z.leb_le (x + y) u64_max) H). Qed.

Lemma post_sub64 x y (f : Z → outcome A) : y ≤ x → post (f (x - y)) Q R → post (sub64 x y ≫= f) Q R.
Proof. intros H Hf. unfold sub64. by rewrite (proj2 (Z.leb_le y x) H). Qed.

Lemma post_mul64 x y (f : Z → outcome A) : x * y ≤ u64_max → post (f (x * y)) Q R → post (mul64 x y ≫= f) Q R.
Proof. intros H Hf. unfold mul64. by rewrite (proj2 (Z.leb_le (x * y) u64_max) H). Qed.
End steps.

(** ** The stages of [make_init_task] *)

Section stages.
Context {P PT : Type} {HP : HeapPages P} `{!X86_64 PT} {XL : X86_64Laws PT} {hhdm : Z} {HL : HeapPagesLaws P hhdm}.
Context (B0 : gmap Z nat) (mem0 C : Z → Z) (pt0 : PT).
Implicit Types (m : P * (Z → Z)) (pt : PT) (T : gmap Z (Z * Z)) (B : gmap Z nat).
#[local] Notation uspace := (user_space B0 mem0 C pt0).

Definition USER_STACK_BOTTOM : Z := USER_STACK_TOP_VIRT_ADDR - USER_STACK_PAGES_COUNT * PAGE_SIZE.

(** The flags of the lower half when [n] pages of the image, [k] pages of the
    stack and possibly the page of the boot information are mapped. *)
Definition layout (n k : nat) (info : bool) (page : Z) : option Z :=
  if decide (covered USER_LOAD_VADDR n page) then Some IMAGE_FLAGS
  else if decide (covered USER_STACK_BOTTOM k page) then Some USER_STACK_FLAGS
  else if info && bool_decide (page = BOOTINFO_VADDR) then Some BOOTINFO_FLAGS
  else None.

Definition laid_out (n k : nat) (info : bool) (pt : PT) (m : P * (Z → Z)) (B : gmap Z nat) : Prop :=
  ∃ T B', B ⊆ B' ∧ uspace pt m T B' ∧ ∀ page, snd <$> T !! page = layout n k info page.

Lemma page_flags_present l b : b ∈ l → Forall (λ i, 0 ≤ i < 64) l → Z.testbit (flags_of l) b = true.
Proof.
  intros Hb Hl. induction l as [|c l IH]; [by apply not_elem_of_nil in Hb|]. apply Forall_cons in Hl as [Hc Hl].
  change (flags_of (c :: l)) with (Z.lor (bit c) (flags_of l)). rewrite Z.lor_spec. apply elem_of_cons in Hb as [->|Hb].
  - unfold bit. by rewrite Z.pow2_bits_true by lia.
  - rewrite IH by done. apply orb_true_r.
Qed.

Lemma present_flags : Forall (λ fl, Z.testbit fl (b_present page_bits) = true) [IMAGE_FLAGS; USER_STACK_FLAGS; BOOTINFO_FLAGS].
Proof.
  pose proof (proj2 page_bits_law) as Hr. rewrite !Forall_cons in Hr. destruct Hr as (? & ? & ? & ? & ? & _).
  assert (∀ l, Forall (λ i, 0 ≤ i < 64) l → Z.testbit (flags_of (b_present page_bits :: l)) (b_present page_bits) = true) as Hf.
  { intros l Hl. apply page_flags_present; [by left|by constructor]. }
  rewrite !Forall_cons. repeat split; try done; apply Hf; repeat (constructor; [done|]); constructor.
Qed.

(** A stage maps one more page. *)
Lemma lay_page n k info n' k' info' pt m T B a o page f flags :
  uspace pt m T B → (∀ p, snd <$> T !! p = layout n k info p) →
  (layout n k info page = None → ∀ p, layout n' k' info' p = if decide (p = page) then Some flags else layout n k info p) →
  B !! a = Some o → B0 !! a = None → a ≤ f → f + PAGE_SIZE ≤ a + block_bytes o → low page →
  (∀ page' fl, T !! page' ≠ Some (f, fl)) → (∀ i, 0 ≤ i < PAGE_SIZE → m.2 (f + hhdm + i) = C (page + i)) →
  Z.testbit flags (b_present page_bits) = true →
  wp (map_to allocate_frame pt m page f flags) (λ '(pt', m', r),
    match r with
    | Ok _ => uses 3 m m' ∧ ∃ B', B ⊆ B' ∧ uspace pt' m' (<[page:=(f, flags)]> T) B' ∧ kept hhdm B m.2 m'.2 ∧
        ∀ p, snd <$> <[page:=(f, flags)]> T !! p = layout n' k' info' p
    | Err _ => ¬ room 3 m ∨ layout n k info page ≠ None
    end).
Proof.
  intros Hs HT Hl Ha Hn H1 H2 Hlow Hnew Hc Hpr.
  eapply wp_mono; [by apply (us_map B0 mem0 C pt0 pt m T B a o page f flags)|].
  intros [[pt' m'] [[]|e]].
  2:{ intros [Hr|[x Hx]]; [by left|]. right. by rewrite <-HT, Hx. }
  intros (Hu & Hnone & B' & HB & Hs' & Hk). split; [done|]. exists B'. do 3 (split; [done|]).
  intros p. rewrite Hl by (rewrite <-HT, Hnone; done). case_decide as E; [subst; by rewrite lookup_insert_eq|]. rewrite lookup_insert_ne by done. apply HT.
Qed.

(** The first [n] pages of the image hold its bytes, and zeros after its end. *)
Definition shows_image (bytes : list Z) : Prop :=
  ∀ i, 0 ≤ i < (Z.of_nat (length bytes) + PAGE_SIZE - 1) / PAGE_SIZE * PAGE_SIZE →
    C (USER_LOAD_VADDR + i) = default 0 (bytes !! Z.to_nat i).

Lemma layout_image n p :
  layout (S n) 0 false p =
    if decide (p = USER_LOAD_VADDR + Z.of_nat n * PAGE_SIZE) then Some IMAGE_FLAGS else layout n 0 false p.
Proof.
  unfold layout. pose proof (covered_S USER_LOAD_VADDR n p eq_refl) as Hc. repeat case_decide; try done; tauto.
Qed.

(** Pages of the image are below the stack and not mapped yet. *)
Lemma layout_image_new n : layout n 0 false (USER_LOAD_VADDR + Z.of_nat n * PAGE_SIZE) = None.
Proof.
  unfold layout. rewrite decide_False by apply not_covered_end. by rewrite decide_False by apply covered_0.
Qed.

Lemma load_page_spec bytes i pt m T B :
  USER_LOAD_VADDR + Z.of_nat (length bytes) ≤ USER_STACK_BOTTOM → shows_image bytes → Z.of_nat i < (Z.of_nat (length bytes) + PAGE_SIZE - 1) / PAGE_SIZE →
  uspace pt m T B → (∀ p, snd <$> T !! p = layout i 0 false p) →
  post (load_page hhdm bytes i (pt, m)) (λ '(pt', m'), laid_out (S i) 0 false pt' m' B ∧ uses 4 m m') (λ _, ¬ room 4 m).
Proof.
  intros Hfit HC Hi Hs HT. set (off := Z.of_nat i * PAGE_SIZE).
  assert (Z.of_nat (length bytes) < 2 ^ 47 - 0x400000) as Hlen
    by (change USER_STACK_BOTTOM with 140737488273408 in Hfit; unfold USER_LOAD_VADDR in Hfit; lia).
  assert (0 ≤ off < Z.of_nat (length bytes) ∧ off + PAGE_SIZE ≤ (Z.of_nat (length bytes) + PAGE_SIZE - 1) / PAGE_SIZE * PAGE_SIZE) as [Hoff Hend].
  { unfold off, PAGE_SIZE in *. pose proof (Z.mul_div_le (Z.of_nat (length bytes) + 4096 - 1) 4096 ltac:(lia)). lia. }
  unfold load_page. fold off. apply post_mul64; [unfold u64_max; lia|]. fold off.
  apply post_add64; [unfold USER_LOAD_VADDR, u64_max in *; lia|]. rewrite virt_new_law, bool_decide_true by (left; unfold USER_LOAD_VADDR in *; lia). cbn [mbind outcome_bind].
  eapply post_bind; [apply (us_alloc B0 mem0 C pt0 _ _ _ _ 0 Hs); lia|]. intros [[p mem] [a|]] Hr.
  2:{ intros Hr4. apply Hr. apply (room_le 4); [lia|done]. }
  destruct Hr as (Hu1 & Hs1 & HBa & Ha0 & Hu & Hz). cbn [snd unwrap mbind outcome_bind] in Hz |- *.
  pose proof (lookup_insert_eq B a 0%nat) as Ha. destruct (hp_out_place p _ a 0%nat (us_out _ _ _ _ _ _ _ _ Hs1) Ha) as (Hp0 & Hal & _ & Hp1).
  change (block_bytes 0) with PAGE_SIZE in *.
  apply post_add64; [unfold PAGE_SIZE, u64_max; lia|]. apply post_sub64; [unfold PAGE_SIZE; lia|].
  unfold phys_to_virt. apply post_add64; [unfold PAGE_SIZE, u64_max in *; lia|].
  set (n := Z.to_nat (Z.min (off + PAGE_SIZE) (Z.of_nat (length bytes)) - off)).
  set (chunk := take n (drop (Z.to_nat off) bytes)).
  assert (length chunk = n) as Hchunk by (unfold chunk; rewrite length_take, length_drop; unfold n, PAGE_SIZE in *; lia).
  assert (page_containing (USER_LOAD_VADDR + off) = USER_LOAD_VADDR + off ∧ page_containing a = a) as [-> ->].
  { rewrite !page_containing_law. split; [|apply Z.mod_divide in Hal; [lia|done]].
    unfold off. rewrite (Zdiv.Z_mod_plus_full USER_LOAD_VADDR (Z.of_nat i) PAGE_SIZE). change (USER_LOAD_VADDR mod PAGE_SIZE) with 0. lia. }
  eapply post_bind; [eapply (lay_page i 0 false (S i) 0 false pt _ T (<[a:=0%nat]> B) a 0 _ a IMAGE_FLAGS)|].
  - eapply us_write; [exact Hs1|exact Ha|done|done|]. intros x Hx. apply put_bytes_out. rewrite Hchunk.
    change (block_bytes 0) with PAGE_SIZE in Hx. unfold range, n, PAGE_SIZE in *. lia.
  - exact HT.
  - intros _ q. apply layout_image.
  - exact Ha.
  - done.
  - lia.
  - change (block_bytes 0) with PAGE_SIZE. lia.
  - unfold low, USER_LOAD_VADDR in *. lia.
  - intros page' fl Hp. apply (Hu _ _ _ Hp). change (block_bytes 0) with PAGE_SIZE. unfold range, PAGE_SIZE. lia.
  - intros j Hj. cbn [snd]. replace (USER_LOAD_VADDR + off + j) with (USER_LOAD_VADDR + (off + j)) by lia. rewrite HC by lia.
    destruct (decide (j < Z.of_nat n)) as [Hjn|Hjn].
    + rewrite put_bytes_in by lia. unfold chunk. rewrite lookup_take_lt, lookup_drop by lia. do 2 f_equal. lia.
    + rewrite put_bytes_out by (unfold range; lia). rewrite Hz by (unfold range; lia).
      rewrite lookup_ge_None_2; [done|]. unfold n in Hjn. lia.
  - by apply (Forall_inv present_flags).
  - intros [[pt' m'] [[]|e]].
    2:{ intros [Hr|Hr]; [|by destruct Hr; apply layout_image_new]. intros H4. apply Hr. by apply (uses_room 1 3 m). }
    intros (Hu3 & B' & HB & Hs' & _ & HT'). cbn [expect mbind outcome_bind post]. split; [|by apply (uses_trans 1 3 m _ m' Hu1)].
    exists (<[USER_LOAD_VADDR + off:=(a, IMAGE_FLAGS)]> T), B'. split; [|done]. etransitivity; [|exact HB]. by apply insert_subseteq.
Qed.

Lemma load_image_spec bytes pt m B :
  USER_LOAD_VADDR + Z.of_nat (length bytes) ≤ USER_STACK_BOTTOM → shows_image bytes → laid_out 0 0 false pt m B →
  let n := Z.to_nat ((Z.of_nat (length bytes) + PAGE_SIZE - 1) / PAGE_SIZE) in
  post (load_image hhdm bytes pt m) (λ '(pt', m'), laid_out n 0 false pt' m' B ∧ uses (4 * n) m m') (λ _, ¬ room (4 * n) m).
Proof.
  intros Hlen HC H0 n. unfold load_image, for_range. fold n.
  apply (post_for_each _ _ _ (λ done '(pt', m'), laid_out (length done) 0 false pt' m' B ∧ uses (4 * length done) m m')).
  - split; [exact H0|apply uses_0].
  - intros done i rest [pt1 m1] Hl ((T & B1 & HB & Hs & HT) & Hu).
    pose proof (f_equal (.!! length done) Hl) as E. rewrite list_lookup_middle in E by done.
    apply lookup_seq in E as [-> Hi]. cbn in Hs, HT |- *.
    eapply post_weaken; [eapply post_mono; [apply (load_page_spec bytes (length done) pt1 m1 T B1); try done|]|].
    { unfold n in Hi. lia. }
    { intros [pt2 m2] ((T' & B2 & HB2 & H) & Hu2). rewrite length_app, Nat.add_1_r. split; [exists T', B2; split; [by etransitivity|done]|].
      apply (uses_le (4 * length done + 4)); [lia|by eapply uses_trans]. }
    intros e Hr Hn. apply Hr, (uses_room (4 * length done) 4 m m1 Hu), (room_le (4 * n)); [lia|done].
  - intros [pt1 m1]. by rewrite length_seq, Nat.sub_0_r.
Qed.

(** ** The user stack *)

Definition shows_stack : Prop := ∀ i, 0 ≤ i < USER_STACK_PAGES_COUNT * PAGE_SIZE → C (USER_STACK_BOTTOM + i) = 0.

(** [k] pages of the block [a] are mapped. *)
Record stack_begun (n k : nat) (a : Z) pt m T B : Prop := {
  sb_space : uspace pt m T B;
  sb_layout : ∀ p, snd <$> T !! p = layout n k false p;
  sb_block : B !! a = Some 2%nat;
  sb_new : B0 !! a = None;
  sb_used : ∀ page f fl, T !! page = Some (f, fl) → range a (block_bytes 2) f → f < a + Z.of_nat k * PAGE_SIZE;
  sb_zero : ∀ x, range (a + hhdm) (block_bytes 2) x → m.2 x = 0
}.

Lemma layout_stack n k :
  let page := USER_STACK_BOTTOM + Z.of_nat k * PAGE_SIZE in
  layout n k false page = None →
  ∀ p, layout n (S k) false p = if decide (p = page) then Some USER_STACK_FLAGS else layout n k false p.
Proof.
  intros page Hn p. unfold layout in *. pose proof (covered_S USER_STACK_BOTTOM k p eq_refl) as Hc. fold page in Hc.
  repeat case_decide; subst; try done; tauto.
Qed.

Lemma layout_stack_new n k :
  USER_LOAD_VADDR + Z.of_nat n * PAGE_SIZE ≤ USER_STACK_BOTTOM → layout n k false (USER_STACK_BOTTOM + Z.of_nat k * PAGE_SIZE) = None.
Proof.
  intros Hn. unfold layout. rewrite decide_False; [by rewrite decide_False by apply not_covered_end|].
  intros [[_ H] _]. unfold PAGE_SIZE in *. lia.
Qed.

Lemma stack_page_spec n k a pt m T B :
  USER_LOAD_VADDR + Z.of_nat n * PAGE_SIZE ≤ USER_STACK_BOTTOM →
  shows_stack → (k < 4)%nat → stack_begun n k a pt m T B →
  let page := USER_STACK_BOTTOM + Z.of_nat k * PAGE_SIZE in
  let f := a + Z.of_nat k * PAGE_SIZE in
  wp (map_to allocate_frame pt m page f USER_STACK_FLAGS) (λ '(pt', m', r),
    match r with
    | Ok _ => uses 3 m m' ∧ ∃ T' B', B ⊆ B' ∧ stack_begun n (S k) a pt' m' T' B'
    | Err _ => ¬ room 3 m
    end).
Proof.
  intros Hfit HC Hk [Hs HT Ha Hn Hu Hz] page f.
  assert (block_bytes 2 = 4 * PAGE_SIZE) as Hb by done.
  eapply wp_mono; [apply (lay_page n k false n (S k) false pt m T B a 2 page f USER_STACK_FLAGS); try done|].
  - apply layout_stack.
  - unfold f, PAGE_SIZE. lia.
  - unfold f. rewrite Hb. unfold PAGE_SIZE. lia.
  - unfold low, page, USER_STACK_BOTTOM, USER_STACK_TOP_VIRT_ADDR, USER_STACK_PAGES_COUNT, PAGE_SIZE. lia.
  - intros p fl Hp. pose proof (Hu _ _ _ Hp) as H. rewrite Hb in H. unfold f, range, PAGE_SIZE in *. lia.
  - intros i Hi. unfold page. rewrite <-(Z.add_assoc USER_STACK_BOTTOM), HC, Hz; [done| |].
    + rewrite Hb. unfold f, range, PAGE_SIZE in *. lia.
    + unfold USER_STACK_PAGES_COUNT, PAGE_SIZE in *. lia.
  - pose proof present_flags as Hf. rewrite !Forall_cons in Hf. tauto.
  - intros [[pt' m'] [[]|e]].
    2:{ intros [Hr|Hr]; [done|]. by destruct Hr; apply layout_stack_new. }
    intros (Hu3 & B' & HB & Hs' & Hk' & HT'). split; [done|]. exists (<[page:=(f, USER_STACK_FLAGS)]> T), B'.
    split; [done|]. split; try done.
    + by eapply lookup_weaken.
    + intros p g fl [[<- [= <- <-]]|[_ Hp]]%lookup_insert_Some Hr; [unfold f, PAGE_SIZE; lia|].
      pose proof (Hu _ _ _ Hp Hr). unfold PAGE_SIZE in *. lia.
    + intros x Hx. rewrite (Hk' a 2%nat); [by apply Hz|done|done].
Qed.

Lemma make_user_stack_spec n pt m B :
  USER_LOAD_VADDR + Z.of_nat n * PAGE_SIZE ≤ USER_STACK_BOTTOM → shows_stack → laid_out n 0 false pt m B →
  post (make_user_stack pt m) (λ '(pt', m'), laid_out n 4 false pt' m' B ∧ uses 13 m m') (λ _, ¬ room 13 m).
Proof.
  intros Hfit HC (T & B1 & HB & Hs & HT). unfold make_user_stack.
  change (pages_to_order USER_STACK_PAGES_COUNT) with (Ret 2). cbn [mbind outcome_bind].
  eapply post_bind; [apply (us_alloc B0 mem0 C pt0 _ _ _ _ (Z.to_nat 2) Hs); cbn; lia|]. change (Z.to_nat 2) with 2%nat.
  intros [[p mem] [a|]] Hr.
  2:{ intros Hr13. apply Hr. apply (room_le 13); [lia|done]. }
  cbn [unwrap mbind outcome_bind]. destruct Hr as (Hu1 & Hs1 & HBa & Ha0 & Hu & Hz).
  pose proof (lookup_insert_eq B1 a 2%nat) as Ha.
  destruct (hp_out_place p _ a 2%nat (us_out _ _ _ _ _ _ _ _ Hs1) Ha) as (Hp0 & Hal & Hp1 & _).
  change (mul64 PAGE_SIZE USER_STACK_PAGES_COUNT) with (Ret 16384). cbn [mbind outcome_bind].
  change (sub64 USER_STACK_TOP_VIRT_ADDR 16384) with (Ret USER_STACK_BOTTOM). cbn [mbind outcome_bind].
  rewrite virt_new_law. rewrite bool_decide_true by (apply (bool_decide_unpack _); done). cbn [mbind outcome_bind].
  change (sub64 USER_STACK_TOP_VIRT_ADDR 1) with (Ret (USER_STACK_TOP_VIRT_ADDR - 1)). cbn [mbind outcome_bind].
  rewrite virt_new_law. rewrite bool_decide_true by (apply (bool_decide_unpack _); done). cbn [mbind outcome_bind].
  rewrite !page_containing_law.
  change (page_range_inclusive _ _) with ((λ i, USER_STACK_BOTTOM + Z.of_nat i * PAGE_SIZE) <$> seq 0 4).
  eapply post_bind_post; [apply (post_for_each _ _ _ (λ done '(pt', m', curr),
    curr = a + Z.of_nat (length done) * PAGE_SIZE ∧ uses (1 + 3 * length done) m m' ∧ ∃ T' B', <[a:=2%nat]> B1 ⊆ B' ∧ stack_begun n (length done) a pt' m' T' B')
    (λ '(pt', m', _), laid_out n 4 false pt' m' B ∧ uses 13 m m'))|].
  - split; [unfold PAGE_SIZE; cbn; lia|]. split; [exact Hu1|]. exists T, (<[a:=2%nat]> B1). split; [done|]. split; try done.
    intros page f fl Hp Hr. by apply Hu in Hp.
  - intros done page rest [[pt1 m1] curr] Hl (-> & Hu2 & T1 & B2 & HB2 & Hst).
    pose proof (f_equal (.!! length done) Hl) as E. rewrite list_lookup_middle, list_lookup_fmap in E by done.
    destruct (seq 0 4 !! length done) as [k|] eqn:Ek; [|done]. apply lookup_seq in Ek as [-> Hk]. injection E as E.
    change (block_bytes 2) with (4 * PAGE_SIZE) in *.
    assert ((a + Z.of_nat (length done) * PAGE_SIZE) mod PAGE_SIZE = 0) as Hmod.
    { rewrite Zdiv.Z_mod_plus_full. apply Z.mod_divide; [done|]. etransitivity; [|exact Hal]. apply Z.divide_factor_r. }
    assert (0 ≤ a + Z.of_nat (length done) * PAGE_SIZE < 2 ^ 52) as Hph by (unfold PAGE_SIZE in *; lia).
    rewrite phys_new_law, bool_decide_true by done. cbn [mbind outcome_bind]. apply post_add64; [unfold PAGE_SIZE, u64_max in *; lia|].
    rewrite page_containing_law, Hmod, Z.sub_0_r, <-E. cbn [Nat.add].
    eapply post_bind; [apply (stack_page_spec n (length done) a pt1 m1 T1 B2 Hfit HC Hk Hst)|].
    intros [[pt2 m2] [[]|e]].
    2:{ intros Hr Hr13. apply Hr, (uses_room _ _ _ _ Hu2), (room_le 13); [lia|done]. }
    intros (Hu3 & T2 & B3 & HB3 & Hst2). cbn [expect mbind outcome_bind post].
    rewrite length_app, Nat.add_1_r. split; [unfold PAGE_SIZE; lia|]. split.
    { apply (uses_le (1 + 3 * length done + 3)); [lia|by eapply uses_trans]. }
    exists T2, B3. split; [by etransitivity|done].
  - intros [[pt1 m1] curr] (_ & Hu2 & T1 & B2 & HB2 & [Hs2 HT2 _ _ _ _]). split; [|exact Hu2]. exists T1, B2. split; [|done].
    etransitivity; [exact HB|]. etransitivity; [|exact HB2]. by apply insert_subseteq.
  - by intros [[pt1 m1] curr].
Qed.

(** ** The boot information *)

Lemma put_bootinfo_shift a b info mem mem' i :
  mem (a + i) = mem' (b + i) → put_bootinfo a info mem (a + i) = put_bootinfo b info mem' (b + i).
Proof.
  intros Hm.
  assert (∀ k w g g', g (a + i) = g' (b + i) →
    bstore 8 (a + 8 * Z.of_nat k) w g (a + i) = bstore 8 (b + 8 * Z.of_nat k) w g' (b + i)) as Hst.
  { intros k w g g' Hg. rewrite !store_at. unfold range. replace (a + i - (a + 8 * Z.of_nat k)) with (b + i - (b + 8 * Z.of_nat k)) by lia.
    repeat case_decide; try done; lia. }
  unfold put_bootinfo. cbn [imap bootinfo_words fold_left]. repeat apply Hst. exact Hm.
Qed.

Definition shows_info (info : InitSvrsBootInfo) : Prop :=
  ∀ i, 0 ≤ i < PAGE_SIZE → C (BOOTINFO_VADDR + i) = put_bootinfo BOOTINFO_VADDR info (λ _, 0) (BOOTINFO_VADDR + i).

Lemma layout_info n k :
  layout n k false BOOTINFO_VADDR = None →
  ∀ p, layout n k true p = if decide (p = BOOTINFO_VADDR) then Some BOOTINFO_FLAGS else layout n k false p.
Proof.
  intros Hn p. unfold layout in *. repeat case_decide; subst; try done; cbn; by rewrite bool_decide_false.
Qed.

Lemma layout_info_new n k :
  USER_LOAD_VADDR + Z.of_nat n * PAGE_SIZE ≤ USER_STACK_BOTTOM → layout n k false BOOTINFO_VADDR = None.
Proof.
  intros Hn. unfold layout. rewrite decide_False by (intros [[H _] _]; unfold USER_LOAD_VADDR, BOOTINFO_VADDR in H; lia).
  by rewrite decide_False by (intros [[H _] _]; change USER_STACK_BOTTOM with 140737488273408 in H; unfold BOOTINFO_VADDR in H; lia).
Qed.

Lemma map_bootinfo_spec n pt p mem T B a info :
  USER_LOAD_VADDR + Z.of_nat n * PAGE_SIZE ≤ USER_STACK_BOTTOM → shows_info info → uspace pt (p, mem) T B → (∀ p, snd <$> T !! p = layout n 4 false p) →
  B !! a = Some 0%nat → B0 !! a = None → unused T a 0 → (∀ x, range (a + hhdm) (block_bytes 0) x → mem x = 0) →
  wp (map_to allocate_frame pt (p, put_bootinfo (a + hhdm) info mem) (page_containing BOOTINFO_VADDR) (page_containing a)
    BOOTINFO_FLAGS) (λ '(pt', m', r), match r with
      | Ok _ => laid_out n 4 true pt' m' B ∧ uses 3 (p, mem) m'
      | Err _ => ¬ room 3 (p, mem)
      end).
Proof.
  intros Hfit HC Hs HT Ha Hn Hu Hz. change (block_bytes 0) with PAGE_SIZE in Hz.
  destruct (hp_out_place p _ a 0%nat (us_out _ _ _ _ _ _ _ _ Hs) Ha) as (_ & Hal & _).
  assert (page_containing BOOTINFO_VADDR = BOOTINFO_VADDR ∧ page_containing a = a) as [-> ->].
  { rewrite !page_containing_law. split; [done|]. apply Z.mod_divide in Hal; [|done]. change (block_bytes 0) with PAGE_SIZE in Hal. lia. }
  eapply wp_mono; [apply (lay_page n 4 false n 4 true pt _ T B a 0 BOOTINFO_VADDR a BOOTINFO_FLAGS); try done|].
  - eapply us_write; [exact Hs|done|done|done|]. intros x Hx. apply put_bootinfo_out.
    change (block_bytes 0) with PAGE_SIZE in Hx. unfold range, PAGE_SIZE in *. lia.
  - apply layout_info.
  - intros page' fl Hp. apply (Hu _ _ _ Hp). change (block_bytes 0) with PAGE_SIZE. unfold range, PAGE_SIZE. lia.
  - intros i Hi. cbn [snd]. rewrite HC by done. apply put_bootinfo_shift. apply Hz. unfold range. lia.
  - pose proof present_flags as Hf. rewrite !Forall_cons in Hf. tauto.
  - intros [[pt' m'] [[]|e]].
    2:{ intros [Hr|Hr]; [done|]. by destruct Hr; apply layout_info_new. }
    intros (Hu3 & B' & HB & Hs' & _ & HT'). split; [by eexists _, B'|done].
Qed.
End stages.

(** ** Writing to a kernel stack *)

Section stack.
Context {P PT : Type} {HP : HeapPages P} `{!X86_64 PT} {XL : X86_64Laws PT} {hhdm : Z} {HL : HeapPagesLaws P hhdm}.
Context (p : P) (B D : gmap Z nat) (bump : Z) (pt : PT) (s : KernelStack).
Context (Hout : hp_out p B) (HD : D ⊆ B) (Hs : stack_ok bump pt D s).

(** The byte that the page table shows at an address. *)
Definition kview (pt : PT) (mem : Z → Z) (va : Z) : Z :=
  match translate pt (page_of va) with Some (f, _) => mem (hhdm + f + va mod PAGE_SIZE) | None => 0 end.

Definition in_stack (va : Z) : Prop := ks_bottom s ≤ va < ks_top s.

Lemma stack_frame va :
  in_stack va → ∃ f, f ∈ ks_pages s ∧ frame_at (ks_bottom s) (ks_pages s) (page_of va) = Some f ∧
    translate pt (page_of va) = Some (f, STACK_FLAGS).
Proof.
  intros Hva. pose proof (so_top _ _ _ _ Hs) as Ht. pose proof (vo_aligned _ _ (so_va _ _ _ _ Hs)) as Hal.
  assert (covered (ks_bottom s) (length (ks_pages s)) (page_of va)) as Hc.
  { split; [|apply page_of_mod]. unfold in_stack, page_of, PAGE_SIZE in *.
    pose proof (Z.mod_pos_bound va 4096 ltac:(lia)).
    assert ((va - ks_bottom s) mod 4096 = va mod 4096) as Hm.
    { rewrite Zminus_mod, Hal, Z.sub_0_r. apply Z.mod_mod. lia. }
    pose proof (Z.mod_le (va - ks_bottom s) 4096 ltac:(lia) ltac:(lia)). lia. }
  destruct (covered_nth _ _ _ Hal Hc) as (i & Hi & Ei). destruct (lookup_lt_is_Some_2 (ks_pages s) i Hi) as [f Hf].
  exists f. split; [by eapply list_elem_of_lookup_2|].
  assert (frame_at (ks_bottom s) (ks_pages s) (page_of va) = Some f) as Hfa by (rewrite Ei; by apply frame_at_nth).
  split; [done|]. by apply (so_mapped _ _ _ _ Hs).
Qed.

(** Two addresses of the stack with the same frame are on the same page. *)
Lemma stack_frame_inj x y f :
  frame_at (ks_bottom s) (ks_pages s) (page_of x) = Some f → frame_at (ks_bottom s) (ks_pages s) (page_of y) = Some f →
  page_of x = page_of y.
Proof.
  unfold frame_at. pose proof (vo_aligned _ _ (so_va _ _ _ _ Hs)) as Hal.
  case_decide as Hx; [|done]. case_decide as Hy; [|done]. intros H1 H2.
  destruct (covered_nth _ _ _ Hal Hx) as (i & _ & Ei), (covered_nth _ _ _ Hal Hy) as (j & _ & Ej).
  rewrite Ei, page_index, Nat2Z.id in H1. rewrite Ej, page_index, Nat2Z.id in H2.
  rewrite Ei, Ej. by rewrite (NoDup_lookup _ _ _ _ (so_nodup _ _ _ _ Hs) H1 H2).
Qed.

(** No byte outside the frames of the stack changes. *)
Definition stack_only (mem mem' : Z → Z) : Prop :=
  ∀ x, (∀ f, f ∈ ks_pages s → ¬ range (f + hhdm) PAGE_SIZE x) → mem' x = mem x.

(** The memory shows [g] on the stack. *)
Definition stack_shows (mem g : Z → Z) : Prop := ∀ x, in_stack x → kview pt mem x = g x.

Lemma stack_flags_writable : Z.testbit STACK_FLAGS (b_writable page_bits) = true.
Proof.
  pose proof (proj2 page_bits_law) as Hr. rewrite !Forall_cons in Hr. destruct Hr as (? & ? & ? & ? & ? & _).
  apply page_flags_present; [by right; left|]. repeat (constructor; [done|]). constructor.
Qed.

Lemma vwrite_spec va v mem g :
  in_stack va → va mod 8 = 0 → stack_shows mem g →
  wp (vwrite hhdm pt va v mem) (λ mem', stack_shows mem' (bstore 8 va v g) ∧ stack_only mem mem').
Proof.
  intros Hva H8 Hg. destruct (stack_frame va Hva) as (f & Hf & Hfa & Htr). unfold vwrite.
  rewrite Htr, stack_flags_writable. apply wp_ret.
  pose proof (Z.mod_pos_bound va 4096 ltac:(lia)) as Hb.
  assert (va mod 4096 + 8 ≤ 4096) as Hroom.
  { assert ((va mod 4096) mod 8 = 0) as Hm.
    { rewrite <-(Znumtheory.Zmod_div_mod 8 4096 va); [done|lia|lia|by exists 512]. }
    apply Z.mod_divide in Hm as [q Hq]; [|done]. lia. }
  assert (∀ x f', f' ∈ ks_pages s → f' ≠ f → ¬ range (f + hhdm) PAGE_SIZE (hhdm + f' + x mod PAGE_SIZE)) as Hdisj.
  { intros x f' Hf' Hne Hr. pose proof (so_frames _ _ _ _ Hs _ Hf) as E. pose proof (so_frames _ _ _ _ Hs _ Hf') as E'.
    pose proof (hp_out_disjoint p B f 0%nat f' 0%nat Hout (lookup_weaken _ _ _ _ E HD) (lookup_weaken _ _ _ _ E' HD) ltac:(done)) as Ha.
    change (block_bytes 0) with PAGE_SIZE in Ha. pose proof (Z.mod_pos_bound x 4096 ltac:(lia)).
    unfold ByteMem.apart, range, PAGE_SIZE in *. lia. }
  split.
  - intros x Hx. destruct (stack_frame x Hx) as (f' & Hf' & Hfa' & Htr'). unfold kview. rewrite Htr', store_at.
    specialize (Hg x Hx). unfold kview in Hg. rewrite Htr' in Hg. rewrite (store_at 8 va).
    destruct (decide (f' = f)) as [->|Hne].
    + pose proof (stack_frame_inj _ _ _ Hfa Hfa') as Hpg. unfold page_of, PAGE_SIZE in *.
      replace (hhdm + f + x mod 4096 - (hhdm + f + va mod 4096)) with (x - va) by lia.
      rewrite (decide_ext _ (range va (Z.of_nat 8) x)) by (unfold range; lia). case_decide; [done|exact Hg].
    + rewrite decide_False.
      * rewrite decide_False; [exact Hg|]. intros Hr. apply Hne.
        assert (page_of x = page_of va) as Hpg.
        { unfold page_of, PAGE_SIZE, range in *. pose proof (Z.div_mod va 4096 ltac:(lia)).
          assert (x / 4096 = va / 4096) as Hq by (symmetry; apply (Z.div_unique x 4096 _ (va mod 4096 + (x - va))); lia).
          pose proof (Z.div_mod x 4096 ltac:(lia)). lia. }
        rewrite Hpg in Hfa'. congruence.
      * intros Hr. apply (Hdisj x f' Hf' Hne). unfold range, PAGE_SIZE in *. lia.
  - intros x Hx. apply store_ne. intros Hr. apply (Hx f Hf). unfold range, PAGE_SIZE in *. lia.
Qed.

Lemma stack_only_trans mem mem' mem'' : stack_only mem mem' → stack_only mem' mem'' → stack_only mem mem''.
Proof. intros H1 H2 x Hx. rewrite H2 by done. by apply H1. Qed.

(** A word of the stack, counted from the top. *)
Definition stack_slot (i : Z) : Prop := 1 ≤ i ≤ 512.

Lemma slot_in_stack i : stack_slot i → in_stack (ks_top s - 8 * i) ∧ (ks_top s - 8 * i) mod 8 = 0.
Proof.
  intros Hi. pose proof (so_pages _ _ _ _ Hs). pose proof (so_top _ _ _ _ Hs) as Ht.
  pose proof (vo_aligned _ _ (so_va _ _ _ _ Hs)) as Hal. unfold in_stack, stack_slot, PAGE_SIZE in *. split; [lia|].
  apply Z.mod_divide in Hal as [q Hq]; [|done]. apply Z.mod_divide; [done|].
  exists (512 * (q + Z.of_nat (length (ks_pages s))) - i). lia.
Qed.

Lemma slot_write_spec i v mem0 mem g :
  stack_slot i → stack_shows mem g → stack_only mem0 mem →
  wp (vwrite hhdm pt (ks_top s - 8 * i) v mem) (λ mem', stack_shows mem' (bstore 8 (ks_top s - 8 * i) v g) ∧ stack_only mem0 mem').
Proof.
  intros Hi Hg Ho. destruct (slot_in_stack i Hi) as [H1 H2]. eapply wp_mono; [by apply vwrite_spec|].
  intros mem' [H3 H4]. split; [done|]. by eapply stack_only_trans.
Qed.

Lemma write_zeros_spec lo hi mem0 mem g :
  1 ≤ lo → hi ≤ 512 → stack_shows mem g → stack_only mem0 mem →
  wp (for_each (λ i mem, vwrite hhdm pt (ks_top s - 8 * i) 0 mem) (seqZ lo (hi - lo + 1)) mem)
    (λ mem', stack_shows mem' (write_zeros (ks_top s) lo hi g) ∧ stack_only mem0 mem').
Proof.
  intros Hlo Hhi Hg Ho. unfold write_zeros.
  apply (wp_for_each _ _ _ (λ done mem', stack_shows mem' (fold_left (λ f i, bstore 8 (ks_top s - 8 * i) 0 f) done g) ∧
    stack_only mem0 mem')); [done| |done].
  intros done i rest mem1 Hl [Hg1 Ho1]. assert (i ∈ seqZ lo (hi - lo + 1)) as Hi by (rewrite Hl; set_solver).
  apply elem_of_seqZ in Hi. rewrite fold_left_app. apply slot_write_spec; [unfold stack_slot; lia|done|done].
Qed.

Lemma write_init_stack_spec tramp mem g :
  stack_shows mem g →
  wp (write_init_stack hhdm pt tramp (ks_top s) mem) (λ '(mem', sp),
    stack_shows mem' (init_task_stack tramp (ks_top s) g).1 ∧ sp = (init_task_stack tramp (ks_top s) g).2 ∧ stack_only mem mem').
Proof.
  intros Hg. unfold write_init_stack.
  do 3 (apply wp_bind; eapply wp_mono; [apply slot_write_spec; [unfold stack_slot; lia|eassumption|done || eassumption]|];
    cbn beta; intros ? [? ?]).
  apply wp_bind. eapply wp_mono; [apply write_zeros_spec; [lia|lia|eassumption|eassumption]|]. intros ? [? ?].
  apply wp_bind. eapply wp_mono; [apply slot_write_spec; [unfold stack_slot; lia|eassumption|eassumption]|]. intros ? [? ?].
  by apply wp_ret.
Qed.

Lemma write_kernel_stack_spec tramp entry mem g :
  stack_shows mem g →
  wp (write_kernel_stack hhdm pt tramp entry (ks_top s) mem) (λ '(mem', sp),
    stack_shows mem' (kernel_task_stack tramp entry (ks_top s) g).1 ∧ sp = (kernel_task_stack tramp entry (ks_top s) g).2 ∧
    stack_only mem mem').
Proof.
  intros Hg. unfold write_kernel_stack.
  apply wp_bind. eapply wp_mono; [apply slot_write_spec; [unfold stack_slot; lia|eassumption|done]|]. intros ? [? ?].
  apply wp_bind. eapply wp_mono; [apply write_zeros_spec; [lia|lia|eassumption|eassumption]|]. intros ? [? ?].
  apply wp_bind. eapply wp_mono; [apply slot_write_spec; [unfold stack_slot; lia|eassumption|eassumption]|]. intros ? [? ?].
  by apply wp_ret.
Qed.
End stack.

(** ** A new level 4 table *)

Section table.
Context {P PT : Type} {HP : HeapPages P} `{!X86_64 PT} {XL : X86_64Laws PT} {OT : OffsetPageTable PT} {OL : OffsetPageTableLaws PT}.
Context {hhdm : Z} {HL : HeapPagesLaws P hhdm}.

(** The page of the active table is never handed out by the allocator. *)
Definition active_reserved (p : P) (mem : Z → Z) (cr3 : Z) : Prop :=
  ∀ p' mem' a, hp_alloc p mem 0 SAFE_KERNEL_PAGES = Ret (p', mem', Some a) → ByteMem.apart a PAGE_SIZE cr3 PAGE_SIZE.

(** The lower half of the table at [root] is empty and the upper half is that
    of the active table. *)
Record half_copied (mem : Z → Z) (root cr3 : Z) : Prop := {
  hc_low : ∀ i, 0 ≤ i < 256 → load 8 mem (root + hhdm + 8 * i) = 0;
  hc_high : ∀ i, 256 ≤ i < 512 → load 8 mem (root + hhdm + 8 * i) = load 8 mem (cr3 + hhdm + 8 * i)
}.

Lemma load_zero_bytes mem a n : (∀ x, range a (Z.of_nat n) x → mem x = 0) → load n mem a = 0.
Proof.
  intros Hz. rewrite (load_ext n (λ _, 0) mem a Hz). clear Hz. revert a. induction n as [|n IH]; intros a; [done|]. cbn. by rewrite IH.
Qed.

Lemma load_shift n mem mem' a b : (∀ i, 0 ≤ i < Z.of_nat n → mem (a + i) = mem' (b + i)) → load n mem a = load n mem' b.
Proof.
  revert a b. induction n as [|n IH]; intros a b Hm; [done|]. cbn [load]. f_equal.
  - specialize (Hm 0). rewrite !Z.add_0_r in Hm. apply Hm. lia.
  - rewrite (IH (a + 1) (b + 1)); [done|]. intros i Hi. rewrite <-!Z.add_assoc. apply Hm. lia.
Qed.

Lemma create_pt4_spec cr3 p mem B :
  hp_out p B → active_reserved p mem cr3 → cr3 + hhdm ≤ u64_max →
  post (create_new_pt4_from_kernel_pt4 hhdm cr3 (p, mem)) (λ '(p', mem', root),
    B !! root = None ∧ hp_out p' (<[root:=0%nat]> B) ∧ half_copied mem' root cr3 ∧
    (∀ x, ¬ range (root + hhdm) PAGE_SIZE x → mem' x = mem x) ∧ uses 1 (p, mem) (p', mem') ∧ root + hhdm ≤ u64_max)
    (λ _, ¬ room 1 (p, mem)).
Proof.
  intros Hp Hact Hcr. unfold create_new_pt4_from_kernel_pt4.
  pose proof (hp_alloc_law p mem B 0%nat SAFE_KERNEL_PAGES Hp ltac:(by right)) as Ha.
  unfold page_alloc, heap_source. destruct (hp_alloc p mem 0 SAFE_KERNEL_PAGES) as [[[p' mem'] [a|]]|e|] eqn:E; [| |done|done].
  2:{ intros Hr. by destruct (Hr mem 0%nat p' mem' None ltac:(lia) E) as [[x Hx] _]. }
  apply (wp_inv _ (p', mem', Some a)) in Ha; [|done]. destruct Ha as (Hn & Hp' & _ & _ & Hm).
  specialize (Hact _ _ _ E). change (block_bytes 0) with PAGE_SIZE in Hm. cbn [mbind outcome_bind unwrap].
  destruct (hp_out_place p' _ a 0%nat Hp' ltac:(by apply lookup_insert_eq)) as (Ha0 & _ & _ & Ha1).
  change (block_bytes 0) with PAGE_SIZE in Ha1. unfold get_active_pml4, phys_to_virt.
  apply post_add64; [unfold PAGE_SIZE, u64_max in *; lia|]. apply post_add64; [done|].
  set (src := cr3 + hhdm + 8 * 256). set (dst := a + hhdm + 8 * 256).
  assert (∀ x, ¬ range (a + hhdm) PAGE_SIZE x → copy_bytes src dst (8 * 256) mem' x = mem x) as Hout.
  { intros x Hx. rewrite copy_bytes_at, decide_False by (unfold dst, range, PAGE_SIZE in *; lia).
    rewrite Hm, decide_False; [done|tauto]. }
  split; [done|]. split; [done|]. split; [split|split; [exact Hout|]].
  3:{ split; [|unfold PAGE_SIZE, u64_max in *; lia]. intros n Hr. by apply (Hr mem 0%nat p' mem' (Some a) ltac:(lia) E). }
  - intros i Hi. apply load_zero_bytes. intros x Hx. rewrite copy_bytes_at, decide_False by (unfold dst, range in *; lia).
    rewrite Hm, decide_True; [done|]. split; [done|]. unfold range, PAGE_SIZE in *. lia.
  - intros i Hi. apply load_shift. intros j Hj. rewrite (copy_bytes_at src dst _ mem' (a + hhdm + 8 * i + j)), decide_True
      by (unfold dst, range in *; lia).
    rewrite Hout by (unfold ByteMem.apart, range, PAGE_SIZE in *; lia).
    rewrite Hm, decide_False by (unfold ByteMem.apart, range, src, dst, PAGE_SIZE in *; lia). f_equal. unfold src, dst. lia.
Qed.

Lemma l4_low page : low page → 0 ≤ l4_index page < 256.
Proof.
  unfold low, l4_index. intros H. assert (0 ≤ page / 2 ^ 39 < 256) as Hd.
  { split; [apply Z.div_pos; lia|]. apply Z.div_lt_upper_bound; lia. }
  rewrite Z.mod_small; lia.
Qed.

Lemma l4_high page : canonical page → ¬ low page → 256 ≤ l4_index page < 512.
Proof.
  unfold low, canonical, l4_index. intros [H|H] Hn; [lia|].
  assert (2 ^ 25 - 256 ≤ page / 2 ^ 39 < 2 ^ 25) as Hd.
  { split; [apply Z.div_le_lower_bound; lia|]. apply Z.div_lt_upper_bound; lia. }
  rewrite (Z.mod_eq (page / 2 ^ 39) 512) by lia. Z.div_mod_to_equations. lia.
Qed.

Lemma half_copied_table mem root cr3 off page :
  half_copied mem root cr3 →
  (low page → translate (offset_page_table_new mem (root + hhdm) off) page = None ∧
    ¬ huge (offset_page_table_new mem (root + hhdm) off) page) ∧
  (canonical page → ¬ low page →
    translate (offset_page_table_new mem (root + hhdm) off) page =
    translate (offset_page_table_new mem (cr3 + hhdm) off) page).
Proof.
  intros [Hl Hh]. split.
  - intros Hp. apply opt_zero. by apply Hl, l4_low.
  - intros Hc Hp. apply opt_same. by apply Hh, l4_high.
Qed.
End table.
