(* ===== verification/PagesRef.v ===== *)
(** * A reference page allocator

    A concrete instance of the interface [HeapPages] that hands out aligned
    blocks one after the other, and of [OffsetPageTable] on the reference page
    table, at which the theorems about task creation are applied. *)
From S2P Require Import Prelude Misc Memblock Frame Sparsemem Zones Paging PagingRef ByteMem Slab SlabHeap Loader.
#[local] Open Scope Z_scope.

(** ** Pages *)

Record ref_pages := mk_ref_pages { rp_next : Z; rp_frames : Z → Frame }.

#[global] Instance ref_frames : FrameStore ref_pages.
Proof.
  refine {| fs_shape := Z; fs_get p q := Some (rp_frames p q);
    fs_set p q f := mk_ref_pages (rp_next p) (λ x, if decide (x = q) then f else rp_frames p x); fs_layout := rp_next |}.
  - done.
  - intros p q f _. simpl. by rewrite decide_True.
  - intros p q q' f Hne. simpl. by rewrite decide_False.
Defined.

Definition REF_HHDM : Z := 0xFFFF800000000000.
Definition REF_LIMIT : Z := 2 ^ 40.

(** The next multiple of the block's size. *)
Definition ref_place (p : ref_pages) (o : nat) : Z :=
  (rp_next p + block_bytes o - 1) / block_bytes o * block_bytes o.

Definition ref_alloc (p : ref_pages) (mem : Z → Z) (o : nat) (flags : Z) : outcome (ref_pages * (Z → Z) * option Z) :=
  let a := ref_place p o in
  if a + block_bytes o <=? REF_LIMIT then
    let frames x := if decide (x = a / PAGE_SIZE) then set_next INVALID_PFN (rp_frames p x) else rp_frames p x in
    let mem := if flags =? SAFE_KERNEL_PAGES then fill (a + REF_HHDM) (block_bytes o) 0 mem else mem in
    Ret (mk_ref_pages (a + block_bytes o) frames, mem, Some a)
  else Ret (p, mem, None).

#[global] Instance ref_heap : HeapPages ref_pages := {|
  hp_alloc := ref_alloc;
  hp_free p _ := Ret p
|}.

Record ref_out (p : ref_pages) (B : gmap Z nat) : Prop := {
  ro_next : 0 ≤ rp_next p ≤ REF_LIMIT;
  ro_place : ∀ a o, B !! a = Some o → 0 ≤ a ∧ (block_bytes o | a) ∧ a + block_bytes o ≤ rp_next p;
  ro_disjoint : ∀ a o a' o', B !! a = Some o → B !! a' = Some o' → a ≠ a' → apart a (block_bytes o) a' (block_bytes o')
}.

Lemma block_bytes_positive o : 0 < block_bytes o.
Proof. unfold block_bytes, PAGE_SIZE. lia. Qed.

Lemma ref_place_spec p o : 0 ≤ rp_next p → rp_next p ≤ ref_place p o ∧ (block_bytes o | ref_place p o).
Proof.
  intros Hp. pose proof (block_bytes_positive o). unfold ref_place. split; [|apply Z.divide_factor_r].
  pose proof (Z.mod_pos_bound (rp_next p + block_bytes o - 1) (block_bytes o) ltac:(lia)).
  pose proof (Z.div_mod (rp_next p + block_bytes o - 1) (block_bytes o) ltac:(lia)). lia.
Qed.

Lemma ref_out_sub p p' B B' :
  ref_out p B → rp_next p' = rp_next p → B' ⊆ B → ref_out p' B'.
Proof.
  intros [Hn Hp Hd] E HB. split.
  - by rewrite E.
  - intros a o Ha. rewrite E. apply Hp. by eapply lookup_weaken.
  - intros a o a' o' Ha Ha'. apply Hd; by eapply lookup_weaken.
Qed.

Lemma ref_alloc_out p B o frames :
  ref_out p B → ref_place p o + block_bytes o ≤ REF_LIMIT →
  B !! ref_place p o = None ∧ ref_out (mk_ref_pages (ref_place p o + block_bytes o) frames) (<[ref_place p o:=o]> B).
Proof.
  intros [Hn Hp Hd] Hl. destruct (ref_place_spec p o ltac:(lia)) as [H1 H2]. pose proof (block_bytes_positive o) as Hb.
  assert (∀ a o', B !! a = Some o' → a + block_bytes o' ≤ ref_place p o) as Hbelow.
  { intros a o' Ha. destruct (Hp a o' Ha) as (_ & _ & Ha'). lia. }
  split.
  { destruct (B !! ref_place p o) as [o'|] eqn:E; [|done]. pose proof (Hbelow _ _ E). pose proof (block_bytes_positive o'). lia. }
  split; cbn [rp_next].
  - lia.
  - intros a o' [[<- <-]|[_ Ha]]%lookup_insert_Some; [split; [lia|]; done|].
    destruct (Hp a o' Ha) as (? & ? & ?). split; [done|]. split; [done|lia].
  - intros a o1 a' o2 [[<- <-]|[_ Ha]]%lookup_insert_Some [[<- <-]|[_ Ha']]%lookup_insert_Some Hne; [done| | |by apply Hd].
    + right. by apply Hbelow.
    + left. by apply Hbelow.
Qed.

(** A block within the limit divides the offset of the direct map. *)
Lemma block_hhdm o : block_bytes o ≤ REF_LIMIT → (block_bytes o | REF_HHDM).
Proof.
  intros Ho. assert (Z.of_nat o ≤ 28) as Hn.
  { destruct (decide (Z.of_nat o ≤ 28)) as [|Hn]; [done|]. exfalso.
    pose proof (Z.pow_le_mono_r 2 29 (Z.of_nat o) ltac:(lia) ltac:(lia)). unfold block_bytes, PAGE_SIZE, REF_LIMIT in *. lia. }
  unfold block_bytes, PAGE_SIZE. exists (0x1FFFF * 2 ^ (35 - Z.of_nat o)).
  change REF_HHDM with (0x1FFFF * 2 ^ 47). rewrite <-Z.mul_assoc. f_equal.
  change 4096 with (2 ^ 12). rewrite <-!Z.pow_add_r by lia. f_equal. lia.
Qed.

Lemma ref_alloc_law p mem B o flags :
  ref_out p B → flags = KERNEL_PAGES ∨ flags = SAFE_KERNEL_PAGES →
  wp (hp_alloc p mem o flags) (λ '(p', mem', r),
    match r with
    | None => p' = p ∧ mem' = mem ∧ ref_place p o + block_bytes o > REF_LIMIT
    | Some a => B !! a = None ∧ ref_out p' (<[a:=o]> B) ∧
        frame_link p' (a / PAGE_SIZE) INVALID_PFN ∧ frames_same B p p' ∧
        ∀ x, mem' x = if decide (flags = SAFE_KERNEL_PAGES ∧ range (a + REF_HHDM) (block_bytes o) x)
                      then 0 else mem x
    end).
Proof.
  intros Hout Hfl. cbn [hp_alloc ref_heap]. unfold ref_alloc. set (a := ref_place p o).
  destruct (Z.leb_spec (a + block_bytes o) REF_LIMIT) as [Hle|Hgt]; apply wp_ret; [|split; [done|]; split; [done|lia]].
  destruct (ref_alloc_out p B o (λ x, if decide (x = a / PAGE_SIZE) then set_next INVALID_PFN (rp_frames p x) else rp_frames p x)
    Hout Hle) as [Hn Hout']. fold a in Hn, Hout'. split; [done|]. split; [done|]. split; [|split].
  - eexists. split; [reflexivity|]. cbn. by rewrite decide_True.
  - intros b o' q Hb Hq. cbn. rewrite decide_False; [done|]. intros ->.
    destruct (ro_place _ _ Hout b o' Hb) as (_ & Hal & Hlt). destruct (ref_place_spec p o ltac:(by apply (ro_next _ _ Hout))) as [H1 _].
    fold a in H1. destruct Hq as [_ Hq]. assert (b + block_bytes o' ≤ a) as Hba by lia.
    pose proof (Z.div_le_mono _ _ PAGE_SIZE ltac:(done) Hba) as Hdiv. unfold block_bytes in Hdiv.
    rewrite (Z.mul_comm PAGE_SIZE), Z.div_add in Hdiv by done. lia.
  - intros x. destruct (Z.eqb_spec flags SAFE_KERNEL_PAGES) as [->|Hne].
    + rewrite fill_at. apply decide_ext. tauto.
    + rewrite decide_False; [done|tauto].
Qed.

#[global] Instance ref_heap_laws : HeapPagesLaws ref_pages REF_HHDM.
Proof.
  refine {| hp_out := ref_out; hp_none p o := ref_place p o + block_bytes o > REF_LIMIT |}.
  - intros p B a o [Hn Hp _] Ha. destruct (Hp a o Ha) as (H0 & Hal & Hle). split; [done|]. split; [done|].
    unfold REF_LIMIT, REF_HHDM in *. lia.
  - intros p B a o [Hn Hp _] Ha. destruct (Hp a o Ha) as (H0 & Hal & Hle). apply block_hhdm. lia.
  - intros p B a o a' o' [_ _ Hd]. apply Hd.
  - intros p B a o q _ _ _. by eexists.
  - apply ref_alloc_law.
  - intros p B a o Hout Ha. apply wp_ret. split; [|done]. eapply ref_out_sub; [done|done|apply delete_subseteq].
  - intros p B a o q f v Hout _ _ _. by eapply ref_out_sub.
Defined.

(** As long as there is space below the limit, requests are served. *)
Lemma ref_supplies n p :
  0 ≤ rp_next p → rp_next p + Z.of_nat n * (2 * block_bytes 2) ≤ REF_LIMIT → supplies n p.
Proof.
  revert p. induction n as [|n IH]; intros p H0 Hl; [done|]. intros mem o p' mem' r Ho E.
  destruct (ref_place_spec p o H0) as [H1 _]. pose proof (block_bytes_positive o).
  assert (block_bytes o ≤ block_bytes 2 ∧ ref_place p o < rp_next p + block_bytes o) as [Hb Hp].
  { split; [unfold block_bytes, PAGE_SIZE; pose proof (Z.pow_le_mono_r 2 (Z.of_nat o) (Z.of_nat 2) ltac:(lia) ltac:(lia)); lia|].
    unfold ref_place. rewrite Z.mul_comm. pose proof (Z.mul_div_le (rp_next p + block_bytes o - 1) (block_bytes o) ltac:(done)). lia. }
  change (block_bytes 2) with 16384 in *. cbn [hp_alloc ref_heap] in E. unfold ref_alloc in E. rewrite (proj2 (Z.leb_le _ _)) in E by lia. injection E as <- _ <-.
  split; [by eexists|]. apply IH; cbn [rp_next]; lia.
Qed.

(** ** Page tables

    An entry of the level 4 table maps the first page of its range. *)

Definition l4_base (i : Z) : Z := if i <? 256 then i * 2 ^ 39 else 2 ^ 64 - 2 ^ 48 + i * 2 ^ 39.

Lemma l4_base_index i : 0 ≤ i < 512 → l4_index (l4_base i) = i.
Proof.
  intros Hi. unfold l4_index, l4_base. destruct (Z.ltb_spec i 256).
  - rewrite Z.div_mul by lia. apply Z.mod_small. lia.
  - replace (2 ^ 64 - 2 ^ 48 + i * 2 ^ 39) with ((2 ^ 25 - 2 ^ 9 + i) * 2 ^ 39) by lia. rewrite Z.div_mul by lia.
    replace (2 ^ 25 - 2 ^ 9 + i) with (i + (2 ^ 16 - 1) * 512) by lia. rewrite Z.mod_add by lia. apply Z.mod_small. lia.
Qed.

Definition l4_entry (mem : Z → Z) (table i : Z) : Z := load 8 mem (table + 8 * i).
Definition l4_maps (mem : Z → Z) (table : Z) : list (Z * (Z * Z)) :=
  (λ i, (l4_base i, (page_of (l4_entry mem table i), l4_entry mem table i mod PAGE_SIZE))) <$>
    filter (λ i, l4_entry mem table i ≠ 0) (seqZ 0 512).

#[global] Instance ref_offset : OffsetPageTable ref_pt := λ mem table _, mk_ref table (list_to_map (l4_maps mem table)).

Lemma l4_maps_lookup mem table page v :
  (list_to_map (l4_maps mem table) : gmap Z (Z * Z)) !! page = Some v ↔
  page = l4_base (l4_index page) ∧ l4_entry mem table (l4_index page) ≠ 0 ∧
  v = (page_of (l4_entry mem table (l4_index page)), l4_entry mem table (l4_index page) mod PAGE_SIZE).
Proof.
  assert (NoDup (l4_maps mem table).*1) as Hnd.
  { unfold l4_maps. rewrite <-list_fmap_compose. apply NoDup_fmap_2_strong; [|by apply NoDup_filter, NoDup_seqZ].
    intros i j [_ Hi]%list_elem_of_filter [_ Hj]%list_elem_of_filter E. apply elem_of_seqZ in Hi, Hj. cbn in E.
    rewrite <-(l4_base_index i), <-(l4_base_index j), E by lia. done. }
  rewrite <-elem_of_list_to_map by done. unfold l4_maps. rewrite list_elem_of_fmap. split.
  - intros (i & [= -> ->] & [He Hi]%list_elem_of_filter). apply elem_of_seqZ in Hi. by rewrite l4_base_index by lia.
  - intros (E & He & ->). exists (l4_index page). split; [by rewrite <-E|]. apply list_elem_of_filter. split; [done|].
    apply elem_of_seqZ. unfold l4_index. pose proof (Z.mod_pos_bound (page / 2 ^ 39) 512 ltac:(lia)). lia.
Qed.

#[global] Instance ref_offset_laws : OffsetPageTableLaws ref_pt.
Proof.
  split.
  - done.
  - intros mem table off page He. split; [|by intros []]. cbn [translate ref_x86_laws]. unfold offset_page_table_new, ref_offset. cbn [ref_map].
    apply eq_None_not_Some. intros [v Hv]. by apply l4_maps_lookup in Hv as (_ & Hne & _).
  - intros mem table table' off page He. cbn [translate ref_x86_laws]. unfold offset_page_table_new, ref_offset. cbn [ref_map].
    apply option_eq. intros v. rewrite !l4_maps_lookup. unfold l4_entry. by rewrite He.
Qed.
