(* ===== verification/SyscallsSpec.v ===== *)
(** * System calls: capabilities and what each handler does

    A capability is an index into the caller's slots; it denotes an object of
    the table.  The first part shows what resolving a capability guarantees,
    the second gives the effect of each handler. *)
From S2P Require Import Prelude Misc Memblock Frame Sparsemem Zones Paging AddrSpace KernelStacks.
From S2P Require Import Objects ObjectsSpec Endpoints EndpointsSpec Runqueue RunqueueSpec Sched SchedSpec SchedOps.
From S2P Require Import Syscalls.
#[local] Open Scope Z_scope.

(** ** Objects and capabilities *)

(** The object a handle denotes. *)
Definition object_at (o : ObjectTable) (h : HandleRef) : option KernelObject :=
  match obj_get o h with Ret r => r | _ => None end.

Definition table_ok (o : ObjectTable) : Prop := ∃ live dead, table_inv o live dead.

Lemma live_index o live dead h x :
  table_inv o live dead → live !! h = Some x → 0 ≤ h_index h < Z.of_nat MAX_OBJECTS.
Proof.
  intros Hi Hx. apply (ti_live _ _ _ Hi) in Hx as [H0 Hs]. apply lookup_lt_Some in Hs.
  rewrite (ti_len _ _ _ Hi) in Hs. lia.
Qed.

Lemma object_at_live o live dead h : table_inv o live dead → 0 ≤ h_index h → object_at o h = live !! h.
Proof.
  intros Hi H0. unfold object_at. destruct (decide (h_index h < Z.of_nat MAX_OBJECTS)) as [Hlt|Hge].
  - by rewrite (table_inv_get _ _ _ _ Hi).
  - unfold obj_get, arr_get. rewrite lookup_ge_None_2 by (rewrite (ti_len _ _ _ Hi); lia). simpl.
    destruct (live !! h) as [x|] eqn:Hx; [|done]. pose proof (live_index _ _ _ _ _ Hi Hx). lia.
Qed.

(** Objects are never taken away or replaced; at most their count changes. *)
Definition objects_grow (o o' : ObjectTable) : Prop :=
  ∀ h x, 0 ≤ h_index h → object_at o h = Some x → ∃ x', object_at o' h = Some x' ∧
    obj_type x' = obj_type x ∧ obj_data x' = obj_data x.

#[global] Instance objects_grow_preorder : PreOrder objects_grow.
Proof.
  split; [intros o h x _ Hx; by exists x|]. intros o1 o2 o3 H1 H2 h x H0 Hx.
  destruct (H1 h x H0 Hx) as (x' & Hx' & E1 & E2). destruct (H2 h x' H0 Hx') as (x'' & Hx'' & E3 & E4).
  exists x''. split; [done|]. split; congruence.
Qed.

Lemma obj_insert_grow o x :
  table_ok o → wp (obj_insert o x) (λ '(o', r), table_ok o' ∧ objects_grow o o' ∧
    match r with
    | Ok h => 0 ≤ h_index h < Z.of_nat MAX_OBJECTS ∧ object_at o h = None ∧ object_at o' h = Some x
    | Err _ => o' = o
    end).
Proof.
  intros (live & dead & Hi). eapply wp_mono; [apply obj_insert_spec; apply Hi|].
  intros [o' [h|u]]; [|intros [-> _]; split; [by exists live, dead|done]].
  intros (i & g & Hlt & -> & Hs & -> & Hbelow).
  destruct (table_inv_insert o live dead x i g Hi Hlt Hs Hbelow) as (Hnew & Hdead & Hi').
  split; [by eexists _, _|]. split.
  - intros h y H0. rewrite (object_at_live _ _ _ _ Hi H0), (object_at_live _ _ _ _ Hi' H0). intros Hy. exists y.
    rewrite lookup_insert_ne; [done|]. intros <-. congruence.
  - split; [simpl; lia|]. rewrite (object_at_live _ _ _ _ Hi), (object_at_live _ _ _ _ Hi') by (simpl; lia).
    by rewrite lookup_insert_eq.
Qed.

Lemma obj_dec_ref_grow o h :
  table_ok o → 0 ≤ h_index h < Z.of_nat MAX_OBJECTS →
  wp (with_object_mut o h dec_ref) (λ '(o', _), table_ok o' ∧ objects_grow o o').
Proof.
  intros (live & dead & Hi) Hh. eapply wp_mono; [by apply (with_object_mut_spec o live dead)|].
  intros [o' r] [_ Hi']. split; [by eexists _, _|]. intros h' y H0.
  rewrite (object_at_live _ _ _ _ Hi H0), (object_at_live _ _ _ _ Hi' H0). intros Hy.
  destruct (decide (h' = h)) as [->|Hne].
  - rewrite lookup_alter_eq, Hy. by eexists.
  - rewrite lookup_alter_ne by done. by exists y.
Qed.

(** A task's slots: a fixed number, and every capability in them denotes an
    object. *)
Record cnode_ok (o : ObjectTable) (n : CNode) : Prop := {
  cn_len : length n = CAPABILITY_MAX;
  cn_live : ∀ i cap, n !! i = Some cap → cap_is_null cap = false →
    0 ≤ h_index (cap_handle cap) < Z.of_nat MAX_OBJECTS ∧ is_Some (object_at o (cap_handle cap))
}.

Lemma cnode_ok_grow o o' n : objects_grow o o' → cnode_ok o n → cnode_ok o' n.
Proof.
  intros Hg [Hl Hc]. split; [done|]. intros i cap Hi Hn. destruct (Hc i cap Hi Hn) as [Hh [x Hx]].
  split; [done|]. destruct (Hg (cap_handle cap) x ltac:(lia) Hx) as (x' & Hx' & _). by exists x'.
Qed.

Lemma cnode_ok_new o : cnode_ok o cnode_new.
Proof.
  split; [apply length_replicate|]. intros i cap [-> _]%lookup_replicate Hn. done.
Qed.

Lemma cnode_ok_set o n i cap :
  cnode_ok o n →
  (cap_is_null cap = false → 0 ≤ h_index (cap_handle cap) < Z.of_nat MAX_OBJECTS ∧ is_Some (object_at o (cap_handle cap))) →
  cnode_ok o (<[i:=cap]> n).
Proof.
  intros [Hl Hc] Hcap. split; [by rewrite length_insert|].
  intros j c [(-> & <- & _)|[_ Hj]]%list_lookup_insert_Some; [done|by apply (Hc j)].
Qed.

(** [holds o n ty d r]: among the capabilities [n] is one for an object of type
    [ty] with content [d] that includes the rights [r]. *)
Definition holds (o : ObjectTable) (n : CNode) (ty : KernelObjType.t) (d : ObjData.t) (r : Z) : Prop :=
  ∃ i cap x, n !! i = Some cap ∧ cap_is_null cap = false ∧ rights_contain (cap_rights cap) r = true ∧
    object_at o (cap_handle cap) = Some x ∧ obj_type x = ty ∧ obj_data x = d.

(** Growing the object table changes nobody's authority. *)
Lemma holds_grow o o' n ty d r :
  objects_grow o o' → cnode_ok o n → holds o' n ty d r ↔ holds o n ty d r.
Proof.
  intros Hg [_ Hc]. split; intros (i & cap & x & Hi & Hn & Hr & Hx & Ht & Hd);
    destruct (Hc i cap Hi Hn) as [Hh [y Hy]]; destruct (Hg (cap_handle cap) y ltac:(lia) Hy) as (y' & Hy' & E1 & E2).
  - exists i, cap, y. simplify_eq. done.
  - exists i, cap, y'. simplify_eq. rewrite E1, E2. done.
Qed.

Lemma wrap32_nonneg x : 0 ≤ wrap32 x.
Proof. apply Z.mod_pos_bound. lia. Qed.

Section handlers.
Context {PT M : Type} `{!X86_64 PT} `{!PageSource M}.
Implicit Types (k : Kernel PT M) (t u : Task PT).

Lemma with_object_at k h {R} (f : KernelObject → R) :
  table_ok (k_objects k) → 0 ≤ h_index h < Z.of_nat MAX_OBJECTS →
  with_object (k_objects k) h f = Ret (f <$> object_at (k_objects k) h).
Proof.
  intros (live & dead & Hi) Hh. unfold with_object, object_at. by rewrite (table_inv_get _ _ _ _ Hi Hh).
Qed.

(** The capability in a slot, with the checks [resolve_cap] makes on it. *)
Definition cap_granting (o : ObjectTable) (n : CNode) (idx : Z) (ty : KernelObjType.t) (r : Z)
    (cap : Capability) (x : KernelObject) : Prop :=
  n !! Z.to_nat (wrap32 idx) = Some cap ∧ cap_is_null cap = false ∧
  rights_contain (cap_rights cap) r = true ∧
  0 ≤ h_index (cap_handle cap) < Z.of_nat MAX_OBJECTS ∧
  object_at o (cap_handle cap) = Some x ∧ obj_type x = ty.

Lemma resolve_cap_spec k t idx ty r :
  table_ok (k_objects k) → cnode_ok (k_objects k) (cnode t) →
  wp (resolve_cap k t idx ty r) (λ res,
    match res with
    | Ok (h, rt) => ∃ cap x, cap_granting (k_objects k) (cnode t) idx ty r cap x ∧
        h = cap_handle cap ∧ rt = cap_rights cap
    | Err e => e = match (c ← cnode t !! Z.to_nat (wrap32 idx); if cap_is_null c then None else Some c) with
        | None => CapError.InvalidIdx
        | Some cap => if rights_contain (cap_rights cap) r then CapError.WrongType
            else CapError.InsufficientRights
        end ∧ ¬ ∃ cap x, cap_granting (k_objects k) (cnode t) idx ty r cap x
    end).
Proof.
  intros Ho Hn. unfold resolve_cap. rewrite cnode_get_lookup by (apply Hn || apply wrap32_nonneg).
  cbn [mbind outcome_bind]. unfold cap_granting.
  destruct (cnode t !! Z.to_nat (wrap32 idx)) as [cap|] eqn:Hi; simpl.
  2:{ apply wp_ret. split; [done|]. naive_solver. }
  destruct (cap_is_null cap) eqn:Hnull; simpl.
  { apply wp_ret. split; [done|]. intros (? & ? & ? & ? & _). simplify_eq. congruence. }
  destruct (rights_contain (cap_rights cap) r) eqn:Hr; simpl.
  2:{ apply wp_ret. split; [done|]. intros (? & ? & ? & ? & ? & _). simplify_eq. congruence. }
  destruct (cn_live _ _ Hn _ _ Hi Hnull) as [Hh [x Hx]]. rewrite with_object_at by done.
  cbn [mbind outcome_bind]. rewrite Hx. simpl. case_bool_decide as Hty; simpl; apply wp_ret.
  - exists cap, x. done.
  - split; [done|]. intros (? & ? & ? & _ & _ & _ & ? & ?). simplify_eq.
Qed.

Lemma resolve_endpoint_cap_spec k t idx r :
  table_ok (k_objects k) → cnode_ok (k_objects k) (cnode t) →
  wp (resolve_endpoint_cap k t (wrap32 idx) r) (λ res,
    match res with
    | Ok ep => ∃ cap x, cap_granting (k_objects k) (cnode t) idx KernelObjType.Endpoint r cap x ∧
        obj_data x = ObjData.Endpoint ep
    | Err e => e = IpcInvalidCap
    end).
Proof.
  intros Ho Hn. unfold resolve_endpoint_cap. apply wp_bind.
  eapply wp_mono; [by apply resolve_cap_spec|]. intros [[h rt]|e]; [|by intros; apply wp_ret].
  intros (cap & x & (Hi & Hnull & Hr & Hh & Hx & Hty) & -> & ->). unfold wrap32 in Hi.
  rewrite Z.mod_mod in Hi by lia. fold (wrap32 idx) in Hi.
  rewrite with_object_at by done. cbn [mbind outcome_bind]. rewrite Hx. simpl.
  destruct (obj_data x) as [|ep| |] eqn:Hd; simpl; apply wp_ret; try done.
  exists cap, x. done.
Qed.

Lemma granting_holds o n idx ty r cap x : cap_granting o n idx ty r cap x → holds o n ty (obj_data x) r.
Proof. intros (? & ? & ? & _ & ? & ?). by eexists _, cap, x. Qed.
End handlers.
