(* ===== verification/Userland.v ===== *)
(** * User programs

    Models userland/init_service/shared.h, the header user programs are
    compiled with.  [vsnprintf_simple] works on the memory of the
    program, a function from addresses to bytes; its variable arguments are the
    64-bit words the caller passed.  What C leaves undefined (a missing
    argument, overflow of an [int], the absolute value of the smallest [long], a
    write outside of [tmp]) is a panic of the model.  The system call wrappers
    give the registers with which the program executes [syscall]. *)
From Stdlib Require Import Ascii.
From S2P Require Import Prelude Misc Memblock Frame Sparsemem Zones Paging AddrSpace AddrSpaceSpec.
From S2P Require Import KernelStacks KernelStacksSpec Objects ObjectsSpec Endpoints Sched Syscalls.
#[local] Open Scope Z_scope.

(** ** System calls *)

Definition SYS_PRINT : Z := 0x10.
Definition SYS_ALLOC_FRAME : Z := 0x2.
Definition SYS_VMA_MAP : Z := 0x3.
Definition SYS_VMA_UNMAP : Z := 0x4.
Definition SYS_MPROTECT : Z := 0x5.
Definition SYS_IPC_SEND : Z := 0x60.
Definition SYS_IPC_RECV : Z := 0x61.
Definition SYS_IPC_CALL : Z := 0x62.
Definition SYS_IPC_REPLY : Z := 0x63.
Definition SYS_IPC_EP_CREATE : Z := 0x64.
Definition SYS_IPC_EP_DESTROY : Z := 0x65.
Definition SYS_THREAD_SLEEP : Z := 0x99.

Definition MAP_READ : Z := Z.shiftl 1 0.
Definition MAP_WRITE : Z := Z.shiftl 1 1.
Definition MAP_EXEC : Z := Z.shiftl 1 2.
Definition MAP_USER : Z := Z.shiftl 1 3.

(** The registers at a [syscall] instruction; the others are as the compiler
    left them. *)
Definition sys_regs (number arg1 arg2 arg3 arg4 arg5 : Z) (r : TaskRegisters) : TaskRegisters :=
  mk_regs (r15 r) (r14 r) (r13 r) (r12 r) (rbp r) (rbx r) (r11 r) arg4 (r9 r) arg5 number (rcx r) arg3 arg2 arg1
    number (rip r) (cs r) (rflags r) (rsp r) (ss r).

Definition syscall0 (number : Z) (r : TaskRegisters) : TaskRegisters :=
  sys_regs number (rdi r) (rsi r) (rdx r) (r10 r) (r8 r) r.
Definition syscall1 (number arg1 : Z) (r : TaskRegisters) : TaskRegisters :=
  sys_regs number arg1 (rsi r) (rdx r) (r10 r) (r8 r) r.
Definition syscall2 (number arg1 arg2 : Z) (r : TaskRegisters) : TaskRegisters :=
  sys_regs number arg1 arg2 (rdx r) (r10 r) (r8 r) r.
Definition syscall3 (number arg1 arg2 arg3 : Z) (r : TaskRegisters) : TaskRegisters :=
  sys_regs number arg1 arg2 arg3 (r10 r) (r8 r) r.
Definition syscall4 (number arg1 arg2 arg3 arg4 : Z) (r : TaskRegisters) : TaskRegisters :=
  sys_regs number arg1 arg2 arg3 arg4 (r8 r) r.
Definition syscall5 (number arg1 arg2 arg3 arg4 arg5 : Z) (r : TaskRegisters) : TaskRegisters :=
  sys_regs number arg1 arg2 arg3 arg4 arg5 r.

Definition u_ipc_ep_create := syscall1 SYS_IPC_EP_CREATE 0.
Definition u_ipc_ep_destroy (ep_id : Z) := syscall1 SYS_IPC_EP_DESTROY ep_id.
Definition u_ipc_send (ep_id msg0 msg1 msg2 msg3 : Z) := syscall5 SYS_IPC_SEND ep_id msg0 msg1 msg2 msg3.
Definition u_ipc_try_recv (ep_id : Z) := syscall1 SYS_IPC_RECV ep_id.
Definition u_ipc_call (ep_id req0 req1 req2 req3 : Z) := syscall5 SYS_IPC_CALL ep_id req0 req1 req2 req3.
Definition u_ipc_reply (ep_id resp0 resp1 resp2 resp3 : Z) := syscall5 SYS_IPC_REPLY ep_id resp0 resp1 resp2 resp3.
Definition u_alloc_frame := syscall0 SYS_ALLOC_FRAME.
Definition u_vma_map (vspace_cap_idx vaddr size flags : Z) := syscall4 SYS_VMA_MAP vspace_cap_idx vaddr size flags.
Definition u_vma_unmap (vspace_cap_idx vaddr : Z) := syscall2 SYS_VMA_UNMAP vspace_cap_idx vaddr.
Definition u_mprotect (vspace_cap_idx vaddr flags : Z) := syscall3 SYS_MPROTECT vspace_cap_idx vaddr flags.
Definition u_sleep (ns : Z) := syscall1 SYS_THREAD_SLEEP ns.

(** [inl]: the result without a call; [inr]: the registers of the call. *)
Definition sys_print (str len : Z) (r : TaskRegisters) : Z + TaskRegisters :=
  if (str <? 0x1000) || (0x00007FFFFFFFFFFF <? str) then inl 1
  else if 4096 <? len then inl 1
  else inr (syscall2 SYS_PRINT str len r).

Record ipc_msg_t := mk_ipc_msg { im_label : Z; im_data : list Z }.

(** [ipc_recv_msg]: the call, and what it reads from the registers after it. *)
Definition u_ipc_recv (ep_id : Z) := syscall1 SYS_IPC_RECV ep_id.
Definition ipc_recv_out (r : TaskRegisters) : Z * ipc_msg_t :=
  (syscall_number_or_irq_or_error_code r, mk_ipc_msg (rdi r) [rsi r; rdx r; r10 r; r8 r]).

(** ** Formatted output *)

Definition chr (a : ascii) : Z := Z.of_N (N_of_ascii a).
Definition text (s : string) : list Z := chr <$> String.list_ascii_of_string s.

Definition INT_MAX : Z := 2 ^ 31 - 1.
Definition LONG_MIN : Z := - 2 ^ 63.
Definition int_ok (x : Z) : outcome Z := if (- INT_MAX - 1 <=? x) && (x <=? INT_MAX) then Ret x else Panic POverflow.

(** A word read as a [long]. *)
Definition as_long (w : Z) : Z := if w <? 2 ^ 63 then w else w - 2 ^ 64.

Definition va_arg (ap : list Z) : outcome (Z * list Z) :=
  match ap with
  | w :: ap => Ret (w, ap)
  | [] => Panic PExplicit
  end.

(** The memory and [pos]. *)
Record out := mk_out { o_mem : Z → Z; o_pos : Z }.

Section vsnprintf.
Context (buf size : Z).

Definition PUT (c : Z) (o : out) : out :=
  if o_pos o <? size - 1
  then mk_out (λ x, if decide (x = buf + o_pos o) then c else o_mem o x) (o_pos o + 1)
  else o.

Definition PUTs (l : list Z) (o : out) : out := fold_left (λ o c, PUT c o) l o.

(** [tmp[i--] = c]: [tmp] holds the characters from [i + 1] to 30. *)
Definition tmp_push (c : Z) (tmp : list Z) : outcome (list Z) :=
  if Z.of_nat (length tmp) <=? 30 then Ret (c :: tmp) else Panic PBounds.

Definition dec_step (s : list Z * Z) : outcome (list Z * Z + list Z) :=
  let '(tmp, val) := s in
  if 0 <? val then
    tmp ← tmp_push (chr "0" + val mod 10) tmp;
    Ret (inl (tmp, val / 10))
  else Ret (inr tmp).

Definition hex_step (hex : list Z) (s : list Z * Z) : outcome (list Z * Z + list Z) :=
  let '(tmp, val) := s in
  if 0 <? val then
    c ← arr_get hex (Z.to_nat (Z.land val 0xf));
    tmp ← tmp_push c tmp;
    Ret (inl (tmp, Z.shiftr val 4))
  else Ret (inr tmp).

(** The digits of a number: a [long] has at most 64. *)
Definition DIGITS_FUEL : nat := 65.
Definition number (step : list Z * Z → outcome (list Z * Z + list Z)) (val : Z) : outcome (list Z) :=
  tmp ← (if val =? 0 then tmp_push (chr "0") [] else Ret []);
  Prelude.iter DIGITS_FUEL step (tmp, val).

Definition hex_digits : list Z := text "0123456789abcdef".
Definition HEX_digits : list Z := text "0123456789ABCDEF".

(** Padding to the width, then the characters. *)
Definition padded (c : Z) (width len : Z) (s : list Z) (o : out) : out :=
  PUTs s (PUTs (replicate (Z.to_nat (width - len)) c) o).

Definition put_number (zero_pad : bool) (width : Z) (tmp : list Z) (o : out) : out :=
  padded (if zero_pad then chr "0" else chr " ") width (Z.of_nat (length tmp)) tmp o.

(** [while ( *t++) len++]. *)
Definition strlen_step (mem : Z → Z) (s : Z * Z) : outcome (Z * Z + Z) :=
  let '(t, len) := s in
  if mem t =? 0 then Ret (inr len) else len ← int_ok (len + 1); Ret (inl (t + 1, len)).

(** [while ( *s) PUT( *s++)]. *)
Definition puts_step (s : Z * out) : outcome (Z * out + out) :=
  let '(p, o) := s in
  let c := o_mem o p in
  if c =? 0 then Ret (inr o) else Ret (inl (p + 1, PUT c o)).

(** The characters of ["(null)"] are not in the program's memory. *)
Definition put_cstring (fuel : nat) (width : Z) (s : Z) (o : out) : outcome out :=
  if s =? 0 then Ret (padded (chr " ") width 6 (text "(null)") o)
  else
    len ← Prelude.iter fuel (strlen_step (o_mem o)) (s, 0);
    Prelude.iter fuel puts_step (s, PUTs (replicate (Z.to_nat (width - len)) (chr " ")) o).

Definition conversion (fuel : nat) (c : Z) (zero_pad : bool) (width : Z) (ap : list Z) (o : out)
    : outcome (list Z * out) :=
  if (c =? chr "d") || (c =? chr "i") then
    '(w, ap) ← va_arg ap;
    let val := as_long w in
    val' ← (if val <? 0 then if val =? LONG_MIN then Panic POverflow else Ret (- val) else Ret val);
    tmp ← number dec_step val';
    tmp ← (if val <? 0 then tmp_push (chr "-") tmp else Ret tmp);
    Ret (ap, put_number zero_pad width tmp o)
  else if c =? chr "u" then
    '(val, ap) ← va_arg ap;
    tmp ← number dec_step val;
    Ret (ap, put_number zero_pad width tmp o)
  else if (c =? chr "x") || (c =? chr "X") then
    '(val, ap) ← va_arg ap;
    tmp ← number (hex_step (if c =? chr "X" then HEX_digits else hex_digits)) val;
    Ret (ap, put_number zero_pad width tmp o)
  else if c =? chr "s" then
    '(s, ap) ← va_arg ap;
    o ← put_cstring fuel width s o;
    Ret (ap, o)
  else if c =? chr "c" then
    '(w, ap) ← va_arg ap;
    Ret (ap, PUT (w mod 2 ^ 8) o)
  else if c =? chr "p" then
    '(val, ap) ← va_arg ap;
    let o := PUT (chr "x") (PUT (chr "0") o) in
    tmp ← number (hex_step hex_digits) val;
    Ret (ap, PUTs tmp o)
  else if c =? chr "%" then Ret (ap, PUT (chr "%") o)
  else Ret (ap, PUT (chr "?") o).

Definition is_digit (c : Z) : bool := (chr "0" <=? c) && (c <=? chr "9").

Definition width_step (mem : Z → Z) (s : Z * Z) : outcome (Z * Z + Z * Z) :=
  let '(width, fmt) := s in
  let c := mem fmt in
  if is_digit c then
    w ← int_ok (width * 10);
    w ← int_ok (w + (c - chr "0"));
    Ret (inl (w, fmt + 1))
  else Ret (inr (width, fmt)).

Definition fmt_step (fuel : nat) (s : Z * list Z * out) : outcome (Z * list Z * out + out) :=
  let '(fmt, ap, o) := s in
  let c := o_mem o fmt in
  if c =? 0 then Ret (inr o)
  else if negb (c =? chr "%") then Ret (inl (fmt + 1, ap, PUT c o))
  else
    let fmt := fmt + 1 in
    let zero_pad := o_mem o fmt =? chr "0" in
    let fmt := if zero_pad then fmt + 1 else fmt in
    '(width, fmt) ← Prelude.iter fuel (width_step (o_mem o)) (0, fmt);
    '(ap, o) ← conversion fuel (o_mem o fmt) zero_pad width ap o;
    Ret (inl (fmt + 1, ap, o)).

Definition vsnprintf_simple (fuel : nat) (fmt : Z) (ap : list Z) (mem : Z → Z) : outcome ((Z → Z) * Z) :=
  o ← Prelude.iter fuel (fmt_step fuel) (fmt, ap, mk_out mem 0);
  Ret ((λ x, if decide (x = buf + o_pos o) then 0 else o_mem o x), o_pos o).
End vsnprintf.

(** [printf] with its buffer at [buf]: the memory at the system call. *)
Definition printf (fuel : nat) (buf fmt : Z) (ap : list Z) (r : TaskRegisters) (mem : Z → Z)
    : outcome ((Z → Z) * (Z + TaskRegisters)) :=
  '(mem, len) ← vsnprintf_simple buf 1024 fuel fmt ap mem;
  Ret (mem, sys_print buf len r).
