(* ===== verification/UserlandSpec.v ===== *)
(** * User programs: what formatted output means

    A declarative meaning of format strings ([formats]: literal characters,
    and directives with their flag, width and conversion; a number stands for a
    numeral of its value without leading zeros), and the proof that
    [vsnprintf_simple] computes it within its buffer; then [printf] on top of
    the kernel's system call. *)
From Stdlib Require Import Ascii.
From S2P Require Import Prelude Misc Memblock Frame Sparsemem Zones Paging PagingRef ZonesSource AddrSpace AddrSpaceSpec.
From S2P Require Import KernelStacks KernelStacksSpec Objects ObjectsSpec Endpoints Sched Syscalls Userland.
#[local] Open Scope Z_scope.

(** ** Numerals *)

Definition DEC_digits : list Z := text "0123456789".

(** The value of digits, the most significant first. *)
Fixpoint value (base : Z) (vs : list Z) : Z :=
  match vs with
  | [] => 0
  | v :: vs => v * base ^ Z.of_nat (length vs) + value base vs
  end.

Definition shows (alphabet : list Z) (v c : Z) : Prop := 0 ≤ v ∧ alphabet !! Z.to_nat v = Some c.

(** [ds] is [n] in positional notation, without leading zeros. *)
Definition numeral (alphabet : list Z) (n : Z) (ds : list Z) : Prop :=
  ∃ vs, Forall2 (shows alphabet) vs ds ∧ value (Z.of_nat (length alphabet)) vs = n ∧
    (vs = [0] ∨ ∃ v vs', vs = v :: vs' ∧ 0 < v).

Lemma value_bound base vs : 1 < base → Forall (λ v, 0 ≤ v < base) vs → 0 ≤ value base vs < base ^ Z.of_nat (length vs).
Proof.
  intros Hb. induction 1 as [|v vs Hv _ IH]; [cbn; lia|]. cbn [value length].
  rewrite Nat2Z.inj_succ, Z.pow_succ_r by lia. nia.
Qed.

Lemma value_inj base vs vs' :
  1 < base → length vs = length vs' → Forall (λ v, 0 ≤ v < base) vs → Forall (λ v, 0 ≤ v < base) vs' →
  value base vs = value base vs' → vs = vs'.
Proof.
  intros Hb Hl Hvs. revert vs' Hl. induction Hvs as [|v vs Hv Hvs IH]; intros vs' Hl Hvs' E; [by destruct vs'|].
  destruct Hvs' as [|v' vs' Hv' Hvs']; [done|]. cbn [length] in Hl. injection Hl as Hl. cbn [value] in E. rewrite Hl in E.
  pose proof (value_bound base vs Hb Hvs) as B1. pose proof (value_bound base vs' Hb Hvs') as B2. rewrite Hl in B1.
  assert (v = v') as -> by nia. f_equal. apply IH; [done..|]. lia.
Qed.

Lemma shows_range alphabet v c : shows alphabet v c → 0 ≤ v < Z.of_nat (length alphabet).
Proof. intros [H1 H2]. apply lookup_lt_Some in H2. lia. Qed.

Lemma shows_all_range alphabet vs ds : Forall2 (shows alphabet) vs ds → Forall (λ v, 0 ≤ v < Z.of_nat (length alphabet)) vs.
Proof. intros H. eapply Forall2_Forall_l; [exact H|]. apply Forall_true. intros c v. apply shows_range. Qed.

(** Leading digits fix the number of digits. *)
Lemma value_length base v vs vs' :
  1 < base → 0 < v → Forall (λ v, 0 ≤ v < base) vs' → value base (v :: vs) = value base vs' → Forall (λ v, 0 ≤ v < base) vs →
  (length (v :: vs) ≤ length vs')%nat.
Proof.
  intros Hb Hv Hvs' E Hvs. destruct (decide (length (v :: vs) ≤ length vs')%nat) as [|Hn]; [done|exfalso].
  pose proof (value_bound base vs Hb Hvs). pose proof (value_bound base vs' Hb Hvs') as B2. cbn [value length] in *.
  pose proof (Z.pow_le_mono_r base (Z.of_nat (length vs')) (Z.of_nat (length vs)) ltac:(lia) ltac:(lia)). nia.
Qed.

(** A number has one numeral. *)
Lemma numeral_unique alphabet n ds ds' :
  (2 ≤ length alphabet)%nat → numeral alphabet n ds → numeral alphabet n ds' → ds = ds'.
Proof.
  intros Ha (vs & H1 & E1 & L1) (vs' & H2 & E2 & L2). set (b := Z.of_nat (length alphabet)) in *.
  assert (1 < b) as Hb by lia. pose proof (shows_all_range _ _ _ H1) as R1. pose proof (shows_all_range _ _ _ H2) as R2. fold b in R1, R2.
  assert (∀ v vs, 0 < v → Forall (λ v, 0 ≤ v < b) vs → 0 < value b (v :: vs)) as Hpos.
  { intros v l Hv Hl. pose proof (value_bound b l Hb Hl). cbn [value]. pose proof (Z.pow_pos_nonneg b (Z.of_nat (length l)) ltac:(lia) ltac:(lia)). nia. }
  assert (vs = vs') as ->.
  { destruct L1 as [->|(v & l & -> & Hv)], L2 as [->|(v' & l' & -> & Hv')].
    - done.
    - pose proof (Hpos v' l' Hv' ltac:(by inversion R2)). cbn in E1. lia.
    - pose proof (Hpos v l Hv ltac:(by inversion R1)). cbn in E2. lia.
    - apply (value_inj b); [done| |done..|congruence]. apply Nat.le_antisymm.
      + apply (value_length b); [done..|congruence|by inversion R1].
      + apply (value_length b); [done..|congruence|by inversion R2]. }
  clear -H1 H2. revert ds' H2. induction H1 as [|v c vs ds Hv _ IH]; intros ds' H2; inversion H2 as [|? c' ? ? Hc']; subst; [done|].
  destruct Hv as [_ Hv], Hc' as [_ Hc]. f_equal; [congruence|by apply IH].
Qed.

(** *** The conversion loops *)

(** The steps divide by the number of digits and show the remainder. *)
Definition converts_with (alphabet : list Z) (step : list Z * Z → outcome (list Z * Z + list Z)) : Prop :=
  ∀ tmp val, 0 ≤ val → step (tmp, val) =
    if 0 <? val then
      c ← arr_get alphabet (Z.to_nat (val mod Z.of_nat (length alphabet)));
      tmp ← tmp_push c tmp;
      Ret (inl (tmp, val / Z.of_nat (length alphabet)))
    else Ret (inr tmp).

Lemma dec_step_converts : converts_with DEC_digits dec_step.
Proof.
  intros tmp val Hv. unfold dec_step. change (Z.of_nat (length DEC_digits)) with 10. destruct (Z.ltb_spec 0 val); [|done].
  pose proof (Z.mod_pos_bound val 10 ltac:(lia)) as Hm.
  assert (DEC_digits !! Z.to_nat (val mod 10) = Some (chr "0" + val mod 10)) as E.
  { assert (∃ k : nat, (k < 10)%nat ∧ val mod 10 = Z.of_nat k) as (k & Hk & ->) by (exists (Z.to_nat (val mod 10)); lia).
    rewrite Nat2Z.id. do 10 (destruct k as [|k]; [reflexivity|]). lia. }
  unfold arr_get. by rewrite E.
Qed.

Lemma hex_step_converts hex : length hex = 16%nat → converts_with hex (hex_step hex).
Proof.
  intros Hl tmp val Hv. unfold hex_step. rewrite Hl. change (Z.of_nat 16) with 16.
  change 0xf with (Z.ones 4). rewrite Z.land_ones, Z.shiftr_div_pow2 by lia. done.
Qed.

Lemma wp_tmp_push c tmp (Q : list Z → Prop) : (length tmp ≤ 30)%nat → Q (c :: tmp) → wp (tmp_push c tmp) Q.
Proof. intros Hl HQ. unfold tmp_push. rewrite (proj2 (Z.leb_le _ _)) by lia. by apply wp_ret. Qed.

Lemma number_spec alphabet step n :
  converts_with alphabet step → (10 ≤ length alphabet)%nat → alphabet !! 0%nat = Some (chr "0") → 0 ≤ n < 2 ^ 64 →
  wp (number step n) (λ ds, numeral alphabet n ds ∧ (length ds ≤ 20)%nat).
Proof.
  intros Hstep Hal Hzero Hn. unfold number. set (b := Z.of_nat (length alphabet)) in *. assert (10 ≤ b) as Hb by lia.
  apply wp_bind.
  assert (wp (if n =? 0 then tmp_push (chr "0") [] else Ret []) (λ tmp, (n = 0 ∧ tmp = [chr "0"]) ∨ (0 < n ∧ tmp = []))) as Hi.
  { destruct (Z.eqb_spec n 0); [apply wp_tmp_push; [cbn; lia|]; by left|]. apply wp_ret. right. split; [lia|done]. }
  eapply wp_mono; [exact Hi|]. intros tmp0 Htmp0.
  apply (wp_iter_var _ _ _ (λ k '(tmp, val), 0 ≤ val < 2 ^ Z.of_nat k ∧ (length tmp ≤ 20)%nat ∧
    ∃ vs, Forall2 (shows alphabet) vs tmp ∧ val * b ^ Z.of_nat (length vs) + value b vs = n ∧ 0 ≤ value b vs ∧
      (val = 0 → vs = [0] ∨ ∃ v vs', vs = v :: vs' ∧ 0 < v)) 64).
  - destruct Htmp0 as [[-> ->]|[Hpos ->]].
    + split; [cbn; lia|]. split; [cbn; lia|]. exists [0]. split; [by repeat constructor|]. cbn. split; [lia|]. split; [lia|]. by left.
    + split; [change (Z.of_nat 64) with 64; lia|]. split; [cbn; lia|]. exists []. split; [constructor|]. cbn. split; [lia|]. split; [lia|]. intros ?. lia.
  - unfold DIGITS_FUEL. lia.
  - intros k [tmp val] (Hval & Hlen & vs & Hvs & E & Hnn & Hlead). rewrite Hstep by lia.
    destruct (Z.ltb_spec 0 val) as [Hp|Hz].
    2:{ apply wp_ret. assert (val = 0) as -> by lia. split; [|done]. exists vs. split; [done|]. split; [fold b; lia|]. by apply Hlead. }
    pose proof (Z.mod_pos_bound val b ltac:(lia)) as Hm. fold b.
    destruct (lookup_lt_is_Some_2 alphabet (Z.to_nat (val mod b))) as [c Hc]; [lia|].
    unfold arr_get. rewrite Hc. apply wp_bind, wp_ret, wp_bind.
    apply wp_tmp_push; [lia|]. apply wp_ret. pose proof (Z.div_mod val b ltac:(lia)) as Hdm.
    assert (length vs ≤ 19)%nat as Hlen'.
    { destruct (decide (length vs ≤ 19)%nat) as [|Hn']; [done|exfalso].
      pose proof (Z.pow_le_mono_r b 20 (Z.of_nat (length vs)) ltac:(lia) ltac:(lia)).
      pose proof (Z.pow_le_mono_l 10 b 20 ltac:(lia)). nia. }
    assert (0 < k)%nat as Hk by (destruct k; [cbn in Hval; lia|lia]).
    exists (k - 1)%nat. split; [lia|]. split.
    + split; [apply Z.div_pos; lia|]. apply Z.div_lt_upper_bound; [lia|].
      replace (2 ^ Z.of_nat k) with (2 * 2 ^ Z.of_nat (k - 1)) in Hval by (rewrite <-Z.pow_succ_r by lia; f_equal; lia). nia.
    + split; [cbn [length]; rewrite <-(Forall2_length _ _ _ Hvs); lia|]. exists (val mod b :: vs).
      split; [constructor; [split; [lia|done]|done]|]. cbn [value length]. rewrite Nat2Z.inj_succ, Z.pow_succ_r by lia.
      pose proof (Z.pow_pos_nonneg b (Z.of_nat (length vs)) ltac:(lia) ltac:(lia)).
      split; [nia|]. split; [nia|]. intros Hd. right. exists (val mod b), vs. split; [done|]. lia.
Qed.

(** ** Format strings *)

(** The bytes of [l] at [a], and a zero. *)
Definition cstring (mem : Z → Z) (a : Z) (l : list Z) : Prop :=
  (∀ i c, l !! i = Some c → mem (a + Z.of_nat i) = c ∧ c ≠ 0) ∧ mem (a + Z.of_nat (length l)) = 0.

Definition pad (c width : Z) (l : list Z) : list Z := replicate (Z.to_nat (width - Z.of_nat (length l))) c ++ l.
Definition pad_char (zero : bool) : Z := if zero then chr "0" else chr " ".

(** A [long] in decimal. *)
Definition signed_numeral (v : Z) (l : list Z) : Prop :=
  if v <? 0 then ∃ ds, numeral DEC_digits (- v) ds ∧ l = chr "-" :: ds else numeral DEC_digits v l.

Section formats.
(** The memory of the program, and a bound on the length of strings. *)
Context (mem : Z → Z) (buf size : Z) (fuel : nat).

(** A string in the program's memory, apart from the buffer. *)
Definition user_string (a : Z) (l : list Z) : Prop :=
  cstring mem a l ∧ (length l < fuel)%nat ∧ Z.of_nat (length l) ≤ INT_MAX ∧
  (a + Z.of_nat (length l) < buf ∨ buf + size ≤ a).

(** The text a conversion stands for, with the arguments before and after. *)
Inductive converts (zero : bool) (width : Z) : Z → list Z → list Z → list Z → Prop :=
  | conv_d c w ap l :
      c = chr "d" ∨ c = chr "i" → 0 ≤ w < 2 ^ 64 → as_long w ≠ LONG_MIN → signed_numeral (as_long w) l →
      converts zero width c (w :: ap) ap (pad (pad_char zero) width l)
  | conv_u w ap l :
      0 ≤ w < 2 ^ 64 → numeral DEC_digits w l →
      converts zero width (chr "u") (w :: ap) ap (pad (pad_char zero) width l)
  | conv_x w ap l :
      0 ≤ w < 2 ^ 64 → numeral hex_digits w l →
      converts zero width (chr "x") (w :: ap) ap (pad (pad_char zero) width l)
  | conv_X w ap l :
      0 ≤ w < 2 ^ 64 → numeral HEX_digits w l →
      converts zero width (chr "X") (w :: ap) ap (pad (pad_char zero) width l)
  | conv_s a ap l :
      a ≠ 0 → user_string a l → converts zero width (chr "s") (a :: ap) ap (pad (chr " ") width l)
  | conv_null ap : converts zero width (chr "s") (0 :: ap) ap (pad (chr " ") width (text "(null)"))
  | conv_c w ap : converts zero width (chr "c") (w :: ap) ap [w mod 2 ^ 8]
  | conv_p w ap l :
      0 ≤ w < 2 ^ 64 → numeral hex_digits w l → converts zero width (chr "p") (w :: ap) ap (text "0x" ++ l)
  | conv_percent ap : converts zero width (chr "%") ap ap (text "%")
  | conv_other c ap : c ∉ text "diuxXscp%" → converts zero width c ap ap (text "?").

(** The text a format string stands for. *)
Inductive formats : list Z → list Z → list Z → Prop :=
  | fmt_end ap : formats [] ap []
  | fmt_char c l ap t : c ≠ chr "%" → formats l ap t → formats (c :: l) ap (c :: t)
  | fmt_directive zero vs ds c l ap ap' t t' :
      Forall2 (shows DEC_digits) vs ds → value 10 vs ≤ INT_MAX → is_digit c = false →
      (zero = false → head ds ≠ Some (chr "0")) →
      converts zero (value 10 vs) c ap ap' t → formats l ap' t' →
      formats (chr "%" :: (if zero then text "0" else []) ++ ds ++ c :: l) ap (t ++ t').

(** *** The buffer *)

(** [t] was put into the buffer as far as it fits; nothing else changed. *)
Record printed (t : list Z) (o : out) : Prop := {
  pr_pos : o_pos o = Z.min (size - 1) (Z.of_nat (length t));
  pr_in i c : t !! i = Some c → Z.of_nat i < size - 1 → o_mem o (buf + Z.of_nat i) = c;
  pr_out x : ¬ (buf ≤ x < buf + o_pos o) → o_mem o x = mem x
}.

Context (Hsize : 1 ≤ size).

Lemma printed_start : printed [] (mk_out mem 0).
Proof. split; cbn; [lia|done|done]. Qed.

Lemma printed_PUT t c o : printed t o → printed (t ++ [c]) (PUT buf size c o).
Proof.
  intros [H1 H2 H3]. unfold PUT. destruct (Z.ltb_spec (o_pos o) (size - 1)) as [Hlt|Hge].
  - split; cbn [o_pos o_mem]; rewrite ?length_app; cbn [length].
    + lia.
    + intros i x Hi Hb. destruct (decide (i = length t)) as [->|Hne].
      * rewrite list_lookup_middle in Hi by done. rewrite decide_True by lia. by injection Hi.
      * assert (i < length t)%nat as Hl by (apply lookup_lt_Some in Hi; rewrite length_app in Hi; cbn in Hi; lia).
        rewrite lookup_app_l in Hi by done. rewrite decide_False by lia. by apply H2.
    + intros x Hx. rewrite decide_False by lia. apply H3. lia.
  - split; rewrite ?length_app; cbn [length]; [lia| |done].
    intros i x Hi Hb. rewrite lookup_app_l in Hi by lia. by apply H2.
Qed.

Lemma printed_PUTs t l o : printed t o → printed (t ++ l) (PUTs buf size l o).
Proof.
  revert t o. induction l as [|c l IH]; intros t o Ho; [by rewrite app_nil_r|].
  rewrite cons_middle, app_assoc. apply (IH (t ++ [c])). by apply printed_PUT.
Qed.

Lemma printed_padded t c width l o :
  printed t o → printed (t ++ pad c width l) (padded buf size c width (Z.of_nat (length l)) l o).
Proof. intros Ho. unfold pad, padded. rewrite app_assoc. by apply printed_PUTs, printed_PUTs. Qed.

(** Strings apart from the buffer stay. *)
Lemma printed_string t o a l : printed t o → user_string a l → cstring (o_mem o) a l.
Proof.
  intros [H1 _ H3] ((Hs & He) & _ & _ & Hap). assert (o_pos o ≤ size) as Hp by lia. split.
  - intros i c Hi. pose proof (lookup_lt_Some _ _ _ Hi). rewrite H3 by lia. by apply Hs.
  - rewrite H3 by lia. done.
Qed.

(** *** The loops over strings *)

Lemma strlen_spec m a l :
  cstring m a l → (length l < fuel)%nat → Z.of_nat (length l) ≤ INT_MAX →
  wp (Prelude.iter fuel (strlen_step m) (a, 0)) (λ n, n = Z.of_nat (length l)).
Proof.
  intros [Hs He] Hf Hm.
  apply (wp_iter_var _ _ _ (λ k '(t, n), (k ≤ length l)%nat ∧ n = Z.of_nat (length l - k) ∧ t = a + n) (length l)).
  - split; [done|]. split; lia.
  - done.
  - intros k [t n] (Hk & -> & ->). unfold strlen_step. destruct k as [|k].
    + rewrite Nat.sub_0_r, He. by apply wp_ret.
    + destruct (lookup_lt_is_Some_2 l (length l - S k)) as [c Hc]; [lia|]. destruct (Hs _ _ Hc) as [-> Hc0].
      rewrite (proj2 (Z.eqb_neq c 0)) by done. unfold int_ok, INT_MAX in *.
      rewrite (proj2 (Z.leb_le _ _)), (proj2 (Z.leb_le _ _)) by lia. apply wp_bind, wp_ret, wp_ret.
      exists k. split; [lia|]. split; [lia|]. lia.
Qed.

Lemma puts_spec t0 a l o :
  user_string a l → printed t0 o →
  wp (Prelude.iter fuel (puts_step buf size) (a, o)) (λ o', printed (t0 ++ l) o').
Proof.
  intros Hu Ho. destruct Hu as (Hs & Hf & Hrest) eqn:E; clear E.
  apply (wp_iter_var _ _ _ (λ k '(p, o), (k ≤ length l)%nat ∧ p = a + Z.of_nat (length l - k) ∧ printed (t0 ++ take (length l - k) l) o) (length l)).
  - split; [done|]. split; [lia|]. by rewrite Nat.sub_diag, app_nil_r.
  - done.
  - intros k [p o1] (Hk & -> & Ho1). unfold puts_step. destruct (printed_string _ _ _ _ Ho1 Hu) as [Hs1 He1]. destruct k as [|k].
    + rewrite Nat.sub_0_r in *. rewrite He1. apply wp_ret. by rewrite firstn_all in Ho1.
    + destruct (lookup_lt_is_Some_2 l (length l - S k)) as [c Hc]; [lia|]. destruct (Hs1 _ _ Hc) as [-> Hc0].
      rewrite (proj2 (Z.eqb_neq c 0)) by done. apply wp_ret. exists k. split; [lia|]. split; [lia|]. split; [lia|].
      replace (length l - k)%nat with (S (length l - S k)) by lia. rewrite (take_S_r _ _ _ Hc), app_assoc. by apply printed_PUT.
Qed.

Lemma put_cstring_spec t0 width a l o :
  a ≠ 0 → user_string a l → printed t0 o →
  wp (put_cstring buf size fuel width a o) (λ o', printed (t0 ++ pad (chr " ") width l) o').
Proof.
  intros Ha Hu Ho. unfold put_cstring. rewrite (proj2 (Z.eqb_neq a 0)) by done. destruct Hu as (Hs & Hf & Hm & Hap) eqn:E; clear E.
  apply wp_bind. eapply wp_mono; [apply (strlen_spec _ a l); [by eapply printed_string|done..]|].
  intros n ->. unfold pad. rewrite app_assoc. apply puts_spec; [done|]. by apply printed_PUTs.
Qed.

Lemma number_is alphabet step n l (Q : list Z → Prop) :
  converts_with alphabet step → (10 ≤ length alphabet)%nat → alphabet !! 0%nat = Some (chr "0") → 0 ≤ n < 2 ^ 64 →
  numeral alphabet n l → ((length l ≤ 20)%nat → Q l) → wp (number step n) Q.
Proof.
  intros H1 H2 H3 H4 Hl HQ. eapply wp_mono; [by apply (number_spec alphabet)|]. intros l' [Hl' Hlen].
  assert (l' = l) as -> by (apply (numeral_unique alphabet n); [lia|done..]). by apply HQ.
Qed.

Ltac decide_chars :=
  repeat match goal with
  | |- context [chr ?a =? chr ?b] => let v := eval vm_compute in (chr a =? chr b) in change (chr a =? chr b) with v
  end; cbn [orb mbind outcome_bind va_arg].

Lemma conversion_signed zero width w l t0 ap o c :
  c = chr "d" ∨ c = chr "i" → 0 ≤ w < 2 ^ 64 → as_long w ≠ LONG_MIN → signed_numeral (as_long w) l → printed t0 o →
  wp (conversion buf size fuel c zero width (w :: ap) o) (λ '(ap1, o1), ap1 = ap ∧ printed (t0 ++ pad (pad_char zero) width l) o1).
Proof.
  intros Hc Hw Hmin Hl Ho. assert ((c =? chr "d") || (c =? chr "i") = true) as Hdi by (destruct Hc as [-> | ->]; reflexivity).
  unfold conversion. rewrite Hdi. cbn [va_arg mbind outcome_bind]. unfold signed_numeral in Hl.
  assert (- 2 ^ 63 ≤ as_long w < 2 ^ 63) as Hr by (unfold as_long; destruct (Z.ltb_spec w (2 ^ 63)); lia). unfold LONG_MIN in *.
  destruct (Z.ltb_spec (as_long w) 0) as [Hneg|Hpos].
  - rewrite (proj2 (Z.eqb_neq _ _) Hmin). cbn [mbind outcome_bind]. destruct Hl as (ds & Hds & ->).
    apply wp_bind. apply (number_is DEC_digits _ _ ds); [apply dec_step_converts|cbn; lia|done|lia|done|]. intros Hlen.
    apply wp_bind, wp_tmp_push; [lia|]. apply wp_ret. split; [done|]. by apply printed_padded.
  - cbn [mbind outcome_bind].
    apply wp_bind. apply (number_is DEC_digits _ _ l); [apply dec_step_converts|cbn; lia|done|lia|done|]. intros Hlen.
    apply wp_ret. split; [done|]. by apply printed_padded.
Qed.

Lemma conversion_spec zero width c ap ap' t t0 o :
  converts zero width c ap ap' t → printed t0 o →
  wp (conversion buf size fuel c zero width ap o) (λ '(ap1, o1), ap1 = ap' ∧ printed (t0 ++ t) o1).
Proof.
  intros Hc Ho. destruct Hc as [c w ap l Hc Hw Hmin Hl|w ap l Hw Hl|w ap l Hw Hl|w ap l Hw Hl|a ap l Ha Hu|ap|w ap|w ap l Hw Hl|ap|c ap Hc].
  - by apply conversion_signed.
  - unfold conversion. decide_chars. apply wp_bind.
    apply (number_is DEC_digits _ _ l); [apply dec_step_converts|cbn; lia|done|done|done|]. intros _.
    apply wp_ret. split; [done|]. by apply printed_padded.
  - unfold conversion. decide_chars. apply wp_bind.
    apply (number_is hex_digits _ _ l); [by apply hex_step_converts|cbn; lia|done|done|done|]. intros _.
    apply wp_ret. split; [done|]. by apply printed_padded.
  - unfold conversion. decide_chars. apply wp_bind.
    apply (number_is HEX_digits _ _ l); [by apply hex_step_converts|cbn; lia|done|done|done|]. intros _.
    apply wp_ret. split; [done|]. by apply printed_padded.
  - unfold conversion. decide_chars. apply wp_bind. eapply wp_mono; [by apply put_cstring_spec|]. intros o1 Ho1. by apply wp_ret.
  - unfold conversion. decide_chars. unfold put_cstring. cbn [Z.eqb mbind outcome_bind]. apply wp_ret. split; [done|].
    by apply (printed_padded t0 (chr " ") width (text "(null)")).
  - unfold conversion. decide_chars. apply wp_ret. split; [done|]. by apply printed_PUT.
  - unfold conversion. decide_chars. apply wp_bind.
    apply (number_is hex_digits _ _ l); [by apply hex_step_converts|cbn; lia|done|done|done|]. intros _.
    apply wp_ret. split; [done|]. rewrite app_assoc. apply printed_PUTs. by apply (printed_PUTs t0 (text "0x")).
  - unfold conversion. decide_chars. apply wp_ret. split; [done|]. by apply printed_PUT.
  - unfold conversion. assert (∀ b, b ∈ String.list_ascii_of_string "diuxXscp%" → (c =? chr b) = false) as Hb.
    { intros b Hb. apply Z.eqb_neq. intros ->. apply Hc. by apply list_elem_of_fmap_2. }
    rewrite !Hb by (by apply (bool_decide_unpack _)). cbn [orb]. apply wp_ret. split; [done|]. by apply printed_PUT.
Qed.

(** *** Directives *)

Lemma value_app base l l' : 0 < base → value base (l ++ l') = value base l * base ^ Z.of_nat (length l') + value base l'.
Proof.
  intros Hb. induction l as [|v l IH]; cbn [app value]; [lia|]. rewrite IH, length_app, Nat2Z.inj_add, Z.pow_add_r by lia. lia.
Qed.

Lemma shown_digit v c : shows DEC_digits v c → is_digit c = true ∧ c - chr "0" = v ∧ 0 ≤ v < 10 ∧ c ≠ 0.
Proof.
  intros H. pose proof (shows_range _ _ _ H) as Hr. destruct H as [H0 H]. change (Z.of_nat (length DEC_digits)) with 10 in Hr.
  assert (∃ k : nat, (k < 10)%nat ∧ v = Z.of_nat k) as (k & Hk & ->) by (exists (Z.to_nat v); lia). rewrite Nat2Z.id in H.
  do 10 (destruct k as [|k]; [injection H as <-; split; [reflexivity|]; split; [reflexivity|]; split; [lia|done]|]). lia.
Qed.

Lemma width_spec m a vs ds c :
  (∀ i x, ds !! i = Some x → m (a + Z.of_nat i) = x) → m (a + Z.of_nat (length ds)) = c → is_digit c = false →
  Forall2 (shows DEC_digits) vs ds → value 10 vs ≤ INT_MAX → (length ds < fuel)%nat →
  wp (Prelude.iter fuel (width_step m) (0, a)) (λ '(w, p), w = value 10 vs ∧ p = a + Z.of_nat (length ds)).
Proof.
  intros Hds Hc Hnd Hvs Hmax Hf. pose proof (Forall2_length _ _ _ Hvs) as Hlen. pose proof (shows_all_range _ _ _ Hvs) as Hrange.
  change (Z.of_nat (length DEC_digits)) with 10 in Hrange.
  apply (wp_iter_var _ _ _ (λ k '(w, p), (k ≤ length ds)%nat ∧ w = value 10 (take (length ds - k) vs) ∧ p = a + Z.of_nat (length ds - k)) (length ds)).
  - split; [done|]. rewrite Nat.sub_diag. split; [done|lia].
  - done.
  - intros k [w p] (Hk & -> & ->). unfold width_step. destruct k as [|k].
    + rewrite Nat.sub_0_r, Hc, Hnd. apply wp_ret. split; [|done]. by rewrite <-Hlen, firstn_all.
    + set (i := (length ds - S k)%nat). destruct (lookup_lt_is_Some_2 ds i) as [x Hx]; [lia|].
      destruct (Forall2_lookup_r _ _ _ _ _ Hvs Hx) as (v & Hv & Hsh). rewrite (Hds _ _ Hx).
      destruct (shown_digit _ _ Hsh) as (-> & -> & Hv10 & _).
      assert (0 ≤ value 10 (take i vs) ∧ value 10 (take i vs) * 10 + v = value 10 (take (S i) vs) ∧ value 10 (take (S i) vs) ≤ INT_MAX) as (Hp & E & Hle).
      { rewrite (take_S_r _ _ _ Hv), value_app by lia. cbn [value length]. change (10 ^ Z.of_nat 1) with 10. change (10 ^ Z.of_nat 0) with 1.
        pose proof (value_bound 10 (take i vs) ltac:(lia) (Forall_take _ _ _ Hrange)). split; [lia|]. split; [lia|].
        rewrite <-(take_drop (S i) vs), value_app in Hmax by lia. pose proof (value_bound 10 (drop (S i) vs) ltac:(lia) (Forall_drop _ _ _ Hrange)).
        rewrite (take_S_r _ _ _ Hv), value_app in Hmax by lia. cbn [value length] in Hmax.
        change (10 ^ Z.of_nat 1) with 10 in Hmax. change (10 ^ Z.of_nat 0) with 1 in Hmax.
        pose proof (Z.pow_pos_nonneg 10 (Z.of_nat (length (drop (S i) vs))) ltac:(lia) ltac:(lia)). nia. }
      unfold int_ok, INT_MAX in *. rewrite !(proj2 (Z.leb_le _ _)) by lia. cbn [andb mbind outcome_bind].
      rewrite !(proj2 (Z.leb_le _ _)) by lia. cbn [andb mbind outcome_bind]. apply wp_ret.
      exists k. split; [lia|]. replace (length ds - k)%nat with (S i) by lia. split; [lia|]. split; [done|]. lia.
Qed.

(** A directive, up to its conversion. *)
Lemma directive_spec t0 fmt (zero : bool) vs ds c l ap ap' t o :
  cstring (o_mem o) fmt (chr "%" :: (if zero then text "0" else []) ++ ds ++ c :: l) →
  Forall2 (shows DEC_digits) vs ds → value 10 vs ≤ INT_MAX → is_digit c = false → (zero = false → head ds ≠ Some (chr "0")) →
  (length ds < fuel)%nat → converts zero (value 10 vs) c ap ap' t → printed t0 o →
  wp (fmt_step buf size fuel (fmt, ap, o)) (λ r, ∃ o', r = inl (fmt + Z.of_nat (1 + length (if zero then text "0" else []) + length ds + 1), ap', o') ∧
    printed (t0 ++ t) o').
Proof.
  intros [Hs _] Hvs Hmax Hnd Hz Hf Hconv Ho. unfold fmt_step. set (z := if zero then text "0" else []) in *.
  assert (∀ i x, (z ++ ds ++ c :: l) !! i = Some x → o_mem o (fmt + 1 + Z.of_nat i) = x) as Hr.
  { intros i x Hi. destruct (Hs (S i) x Hi) as [<- _]. f_equal. lia. }
  replace (o_mem o fmt) with (chr "%") by (destruct (Hs 0%nat (chr "%") eq_refl) as [H _]; rewrite Z.add_0_r in H; done).
  change (chr "%" =? 0) with false. change (chr "%" =? chr "%") with true. cbn [negb].
  assert ((o_mem o (fmt + 1) =? chr "0") = zero ∧ (if zero then fmt + 1 + 1 else fmt + 1) = fmt + 1 + Z.of_nat (length z)) as [-> ->].
  { destruct zero; subst z; cbn [app] in Hr.
    - split; [|cbn; lia]. apply Z.eqb_eq. rewrite <-(Hr 0%nat (chr "0") eq_refl). f_equal. lia.
    - split; [|cbn; lia]. apply Z.eqb_neq. replace (fmt + 1) with (fmt + 1 + Z.of_nat 0) by lia. destruct ds as [|x ds].
      + rewrite (Hr 0%nat c eq_refl). intros ->. done.
      + rewrite (Hr 0%nat x eq_refl). intros ->. by apply Hz. }
  apply wp_bind. eapply wp_mono; [apply (width_spec _ _ vs ds c); [|..|done|done|done|done]|].
  - intros i x Hi. rewrite <-Z.add_assoc, <-Nat2Z.inj_add. apply Hr. rewrite lookup_app_r by lia.
    replace (length z + i - length z)%nat with i by lia. by apply lookup_app_l_Some.
  - rewrite <-Z.add_assoc, <-Nat2Z.inj_add. apply Hr. rewrite app_assoc. apply list_lookup_middle. by rewrite length_app.
  - intros [w p] [-> ->].
    replace (o_mem o (fmt + 1 + Z.of_nat (length z) + Z.of_nat (length ds))) with c.
    2:{ symmetry. rewrite <-Z.add_assoc, <-Nat2Z.inj_add. apply Hr. rewrite app_assoc. apply list_lookup_middle. by rewrite length_app. }
    apply wp_bind. eapply wp_mono; [by apply conversion_spec|]. intros [ap1 o1] [-> Ho1]. apply wp_ret. exists o1. split; [|done].
    do 3 f_equal. lia.
Qed.

Lemma cstring_drop m a pre l : cstring m a (pre ++ l) → cstring m (a + Z.of_nat (length pre)) l.
Proof.
  intros [Hs He]. split.
  - intros i c Hi. destruct (Hs (length pre + i)%nat c) as [H1 H2]; [by rewrite lookup_app_r, Nat.add_comm, Nat.add_sub by lia|].
    split; [|done]. rewrite <-H1. f_equal. lia.
  - rewrite length_app in He. rewrite <-He. f_equal. lia.
Qed.

Lemma vsnprintf_spec fmt l ap t :
  user_string fmt l → formats l ap t →
  wp (vsnprintf_simple buf size fuel fmt ap mem) (λ '(mem', n),
    n = Z.min (size - 1) (Z.of_nat (length t)) ∧
    (∀ i c, t !! i = Some c → Z.of_nat i < size - 1 → mem' (buf + Z.of_nat i) = c) ∧
    mem' (buf + n) = 0 ∧ ∀ x, ¬ (buf ≤ x ≤ buf + n) → mem' x = mem x).
Proof.
  intros Hu Ht. unfold vsnprintf_simple. apply wp_bind.
  apply (wp_mono _ (printed t)).
  2:{ intros o [H1 H2 H3]. apply wp_ret. split; [done|]. split; [|split].
      - intros i c Hi Hs. pose proof (lookup_lt_Some _ _ _ Hi). rewrite decide_False by lia. by apply H2.
      - by rewrite decide_True.
      - intros x Hx. rewrite decide_False by lia. apply H3. lia. }
  apply (wp_iter_var _ _ _ (λ k '(p, ap, o), ∃ pre l0 t0 t', l = pre ++ l0 ∧ k = length l0 ∧ p = fmt + Z.of_nat (length pre) ∧
    formats l0 ap t' ∧ printed t0 o ∧ t = t0 ++ t') (length l)).
  - exists [], l, [], t. split; [done|]. split; [done|]. split; [cbn; lia|]. split; [done|]. split; [apply printed_start|done].
  - apply Hu.
  - intros k [[p ap0] o] (pre & l0 & t0 & t' & -> & -> & -> & Hf & Ho & ->).
    pose proof (cstring_drop _ _ _ _ (printed_string _ _ _ _ Ho Hu)) as Hs. pose proof (proj1 (proj2 Hu)) as Hlen. rewrite length_app in Hlen.
    destruct Hf as [ap0|c l0 ap0 t' Hc Hf|zero vs ds c l0 ap0 ap' t1 t' Hvs Hmax Hnd Hz Hconv Hf].
    + unfold fmt_step. destruct Hs as [_ Hs]. cbn [length] in Hs. rewrite Z.add_0_r in Hs. rewrite Hs. apply wp_ret. by rewrite app_nil_r.
    + unfold fmt_step. destruct Hs as [Hs _]. destruct (Hs 0%nat c eq_refl) as [H1 H2]. rewrite Z.add_0_r in H1. rewrite H1.
      rewrite (proj2 (Z.eqb_neq c 0)), (proj2 (Z.eqb_neq c (chr "%"))) by done. apply wp_ret.
      exists (length l0). split; [cbn; lia|]. exists (pre ++ [c]), l0, (t0 ++ [c]), t'. rewrite <-!app_assoc. split; [done|]. split; [done|].
      split; [rewrite length_app; cbn; lia|]. split; [done|]. split; [by apply printed_PUT|done].
    + eapply wp_mono; [eapply (directive_spec t0 _ zero vs ds c l0); [exact Hs|done..| |done|done]|].
      { cbn [length] in Hlen. rewrite !length_app in Hlen. lia. }
      intros ? (o' & -> & Ho'). exists (length l0). split; [cbn [length]; rewrite !length_app; cbn [length]; lia|].
      exists (pre ++ chr "%" :: (if zero then text "0" else []) ++ ds ++ [c]), l0, (t0 ++ t1), t'.
      split; [by rewrite <-!app_assoc; cbn [app]; rewrite <-!app_assoc|]. split; [done|]. split.
      { rewrite length_app. cbn [length]. rewrite !length_app. cbn [length]. lia. }
      split; [done|]. split; [done|]. by rewrite app_assoc.
Qed.
End formats.

(** ** Printing through the kernel *)

Lemma until_zero_all l : 0 ∉ l → until_zero l = l.
Proof.
  induction l as [|b l IH]; intros H; [done|]. apply not_elem_of_cons in H as [H1 H2]. cbn [until_zero].
  rewrite (proj2 (Z.eqb_neq b 0)) by done. by rewrite IH.
Qed.

Section kernel.
Context {PT M : Type} `{!X86_64 PT} `{!PageSource M}.

(** A program calls [printf]; when it makes the system call, the kernel runs. *)
Definition run_printf (hhdm : Z) (me : nat) (sp : Z) (fuel : nat) (buf fmt : Z) (ap : list Z) (r : TaskRegisters) (mem : Z → Z)
    (k : Kernel PT M) : outcome ((Z → Z) * Kernel PT M * (Z + after)) :=
  '(mem, c) ← printf fuel buf fmt ap r mem;
  match c with
  | inl v => Ret (mem, k, inl v)
  | inr r =>
      '(k, res) ← syscall_handler_inner hhdm me sp mem k r;
      Ret (mem, k, match res with inl r => inl (syscall_number_or_irq_or_error_code r) | inr a => inr a end)
  end.

Lemma run_printf_spec hhdm me sp fuel buf fmt l ap t r mem k :
  0x1000 ≤ buf → buf ≤ 0x00007FFFFFFFFFFF →
  user_string mem buf 1024 fuel fmt l → formats mem buf 1024 fuel l ap t → 0 ∉ t →
  wp (run_printf hhdm me sp fuel buf fmt ap r mem k) (λ '(mem', k', res),
    res = inl 0 ∧
    k' = mk_kernel (k_sched k) (k_objects k) (k_ipc k) (k_mem k) (k_console k ++ take 1023 t) ∧
    ∀ x, ¬ (buf ≤ x < buf + 1024) → mem' x = mem x).
Proof.
  intros Hb1 Hb2 Hu Hf Hz. unfold run_printf, printf. apply wp_bind, wp_bind.
  eapply wp_mono; [by apply (vsnprintf_spec mem buf 1024 fuel ltac:(lia) fmt l ap t)|]. intros [mem' n] (Hn & Hin & _ & Hout).
  apply wp_ret. unfold sys_print. rewrite (proj2 (Z.ltb_ge buf 0x1000)), (proj2 (Z.ltb_ge 0x00007FFFFFFFFFFF buf)) by lia.
  rewrite (proj2 (Z.ltb_ge 4096 n)) by lia. cbn [orb]. unfold syscall_handler_inner, syscall_dispatcher, syscall2, sys_regs.
  cbn [syscall_number_or_irq_or_error_code rdi rsi mbind outcome_bind]. change (SYS_PRINT =? SYS_DEBUG_PRINT) with true.
  unfold debug_print. rewrite (proj2 (Z.ltb_ge buf 0x1000)), (proj2 (Z.ltb_ge 0x00007FFFFFFFFFFF buf)) by lia.
  rewrite (proj2 (Z.ltb_ge 4096 n)) by lia. cbn [orb ok_ret mbind outcome_bind with_result syscall_number_or_irq_or_error_code].
  apply wp_ret. split; [done|]. split; [|intros x Hx; apply Hout; lia]. do 2 f_equal.
  assert ((λ i, mem' (buf + i)) <$> seqZ 0 n = take 1023 t) as ->.
  { apply list_eq. intros i. rewrite list_lookup_fmap. destruct (decide (Z.of_nat i < n)) as [Hi|Hi].
    - rewrite lookup_seqZ_lt by lia. cbn [fmap option_fmap option_map]. rewrite lookup_take_lt by lia.
      destruct (lookup_lt_is_Some_2 t i) as [c Hc]; [lia|]. rewrite Hc. f_equal. rewrite <-(Hin i c); [f_equal; lia|done|lia].
    - rewrite lookup_seqZ_ge by lia. symmetry. apply lookup_ge_None_2. rewrite length_take. lia. }
  apply until_zero_all. intros H. apply Hz. by eapply elem_of_take in H as (i & ? & ?); apply list_elem_of_lookup_2 in H.
Qed.

(** C24: what a program prints arrives on the console.  For every format string
    and arguments with the meaning [t] of [formats] (numbers as numerals of
    their value, strings and padding, up to 1023 characters), whose strings are
    apart from the buffer, [printf] with its buffer in user memory returns, the
    system call succeeds and the console grows by exactly the first 1023
    characters of [t]; nothing else in the kernel changes, and no byte of the
    program's memory outside of the buffer. *)
Theorem printf_on_console hhdm me sp fuel buf fmt l ap t r mem (k : Kernel PT M) :
  0x1000 ≤ buf → buf ≤ 0x00007FFFFFFFFFFF →
  user_string mem buf 1024 fuel fmt l → formats mem buf 1024 fuel l ap t → 0 ∉ t →
  wp (run_printf hhdm me sp fuel buf fmt ap r mem k) (λ '(mem', k', res),
    res = inl 0 ∧
    k' = mk_kernel (k_sched k) (k_objects k) (k_ipc k) (k_mem k) (k_console k ++ take 1023 t) ∧
    ∀ x, ¬ (buf ≤ x < buf + 1024) → mem' x = mem x).
Proof. apply run_printf_spec. Qed.
End kernel.

(** ** Examples *)

(** A string in memory. *)
Definition with_string (a : Z) (l : list Z) (mem : Z → Z) : Z → Z :=
  λ x, if decide (a ≤ x < a + Z.of_nat (length l)) then default 0 (l !! Z.to_nat (x - a))
       else if decide (x = a + Z.of_nat (length l)) then 0 else mem x.

(** What the buffer holds after [vsnprintf_simple]. *)
Definition shown (size : Z) (fmt : string) (ap : list Z) (mem : Z → Z) : option (list Z) :=
  match vsnprintf_simple 5000 size 100 1000 ap (with_string 1000 (text fmt) mem) with
  | Ret (mem, n) => Some ((λ i, mem (5000 + i)) <$> seqZ 0 n)
  | _ => None
  end.

(** Zeros are put before the sign ... *)
Lemma zero_padding_before_sign : shown 100 "%05d" [2 ^ 64 - 42] (λ _, 0) = Some (text "00-42").
Proof. vm_compute. reflexivity. Qed.

(** ... and a format string that ends in a percent sign is read past its end. *)
Lemma trailing_percent_overread :
  shown 100 "50%" [] (with_string 1004 (text "secret") (λ _, 0)) = Some (text "50?secret").
Proof. vm_compute. reflexivity. Qed.

Definition hello : string := "n=%03u".

Definition no_source : PageSource unit := {| page_alloc _ _ _ := Ret (tt, None); page_free _ _ := Ret tt |}.
Definition quiet_kernel : Kernel ref_pt unit := mk_kernel (mk_sched ∅ ∅ [] [] 0) table_new ipc_new tt [].

Lemma printf_on_console_witness :
  wp (run_printf (PageSource0 := no_source) 0 0 0 50 0x5000 0x2000 [7] regs_default (with_string 0x2000 (text hello) (λ _, 0)) quiet_kernel)
    (λ '(mem', k', res), res = inl 0 ∧
      k' = mk_kernel (k_sched quiet_kernel) (k_objects quiet_kernel) (k_ipc quiet_kernel) tt (text "n=007") ∧
      ∀ x, ¬ (0x5000 ≤ x < 0x5000 + 1024) → mem' x = with_string 0x2000 (text hello) (λ _, 0) x).
Proof.
  assert (user_string (with_string 0x2000 (text hello) (λ _, 0)) 0x5000 1024 50 0x2000 (text hello)) as Hu.
  { split; [split; [|reflexivity]|].
    - intros i c Hi. do 6 (destruct i as [|i]; [injection Hi as <-; split; [reflexivity|discriminate]|]). discriminate Hi.
    - split; [apply (bool_decide_unpack _); reflexivity|]. split; [discriminate|]. left. reflexivity. }
  assert (formats (with_string 0x2000 (text hello) (λ _, 0)) 0x5000 1024 50 (text hello) [7] (text "n=007")) as Hf.
  { apply (fmt_char _ _ _ _ (chr "n")); [discriminate|]. apply (fmt_char _ _ _ _ (chr "=")); [discriminate|].
    apply (fmt_directive _ _ _ _ true [3] (text "3") (chr "u") [] [7] [] (text "007") []).
    - repeat constructor; discriminate.
    - discriminate.
    - reflexivity.
    - discriminate.
    - apply (conv_u _ _ _ _ true 3 7 [] (text "7")); [lia|].
      exists [7]. split; [repeat constructor; discriminate|]. split; [reflexivity|]. right. exists 7, []. split; [reflexivity|lia].
    - constructor. }
  pose proof (printf_on_console (PageSource0 := no_source) 0 0 0 50 0x5000 0x2000 (text hello) [7] (text "n=007") regs_default
    (with_string 0x2000 (text hello) (λ _, 0)) quiet_kernel ltac:(lia) ltac:(lia) Hu Hf
    ltac:(apply (bool_decide_unpack _); reflexivity)) as H.
  exact H.
Defined.
