(* ===== verification/InitServer.v ===== *)
(** * The init service

    Models [_start] of userland/init_service/server.c on the kernel: its
    system calls go through the dispatcher, its messages through [printf] and
    the system call for output, its accesses to the page it asks for through the
    page table and the page fault handler to physical memory.  The theorem
    follows the service from a kernel in which it is the current task to its
    final loop. *)
From Stdlib Require Import Ascii.
From S2P Require Import Prelude Misc Memblock Frame Sparsemem Zones Paging PagingRef ZonesSource AddrSpace AddrSpaceSpec.
From S2P Require Import KernelStacks KernelStacksSpec Objects ObjectsSpec Endpoints Sched Syscalls SyscallsSpec ByteMem Slab SlabHeap Loader PagesRef.
From S2P Require Import Userland UserlandSpec.
#[local] Open Scope Z_scope.

(** The two loops a run ends in, or the processor halted by a fault. *)
Inductive server_end := Served | Killed | Stopped.

(** A string literal that ends in a newline. *)
Definition line (s : string) : list Z := text s ++ [10].

(** [mem] is the memory of the program as it was loaded, its image and stack, by
    virtual address; [ram] is physical memory, where the page it asks for is.
    [lit] gives the addresses of the string literals and [buf] that of the
    buffer of [printf]; [rs] are the registers the calls leave alone. *)
Section server.
Context {PT M : Type} `{!X86_64 PT} `{!X86_64Laws PT} `{!PageSource M}.
Context (hhdm : Z) (me : nat) (sp : Z) (fuel : nat) (buf : Z) (lit : list Z → Z) (rs : nat → TaskRegisters).
Implicit Types (k : Kernel PT M).

(** A call of [printf]. *)
Definition say (fmt : list Z) (args : list Z) (mem : Z → Z) k : outcome ((Z → Z) * Kernel PT M) :=
  '(mem, k, res) ← run_printf hhdm me sp fuel buf (lit fmt) args (rs 0%nat) mem k;
  match res with
  | inl _ => Ret (mem, k)
  | inr _ => NoFuel
  end.

(** A system call that returns at once. *)
Definition call (user : Z → Z) (r : TaskRegisters) k : outcome (Kernel PT M * Z) :=
  '(k, res) ← syscall_handler_inner hhdm me sp user k r;
  match res with
  | inl r => Ret (k, syscall_number_or_irq_or_error_code r)
  | inr _ => NoFuel
  end.

Definition permits (write : bool) (flags : Z) : bool :=
  Z.testbit flags (b_user page_bits) && (negb write || Z.testbit flags (b_writable page_bits)).

(** An access of the current task: it reaches a physical address, or faults and
    is tried again; [None] when the fault stops the processor. *)
Definition access_step (write : bool) (addr : Z) k : outcome (Kernel PT M + Kernel PT M * option Z) :=
  id ← current_id k me;
  r ← lookup_task k id;
  '(_, t) ← unwrap r;
  match translate (page_table (addr_space t)) (page_of addr) with
  | Some (frame, flags) =>
      if permits write flags then Ret (inr (k, Some (frame + addr mod PAGE_SIZE)))
      else
        '(k, f) ← handle_page_fault k me addr (Z.lor 4 (Z.lor (if write then 2 else 0) 1));
        Ret (match f with Resumed => inl k | Halted => inr (k, None) end)
  | None =>
      '(k, f) ← handle_page_fault k me addr (Z.lor 4 (if write then 2 else 0));
      Ret (match f with Resumed => inl k | Halted => inr (k, None) end)
  end.

Definition touch (write : bool) (addr : Z) k : outcome (Kernel PT M * option Z) := Prelude.iter 2 (access_step write addr) k.

Definition server_start (boot_info : Z) (mem ram : Z → Z) k : outcome ((Z → Z) * (Z → Z) * Kernel PT M * server_end) :=
  '(mem, k) ← say (line "Init process started!") [] mem k;
  let self_tcb_cap := load 8 mem boot_info in
  let self_vspace_cap := load 8 mem (boot_info + 8) in
  let self_cnode_cap := load 8 mem (boot_info + 16) in
  '(mem, k) ← say (line "Got initial boot info. TCB CAP: %d | vspace CAP: %d | cnode CAP: %d")
    [self_tcb_cap; self_vspace_cap; self_cnode_cap] mem k;
  '(k, addr) ← call mem (u_alloc_frame (rs 1%nat)) k;
  '(mem, k) ← say (line "Server: allocated frame. Addr: 0x%x") [addr] mem k;
  '(k, ret) ← call mem (u_vma_map (load 8 mem (boot_info + 8)) 0x5000 4096 (Z.lor MAP_READ (Z.lor MAP_WRITE MAP_USER)) (rs 2%nat)) k;
  if negb (wrap32 ret =? 0) then
    '(mem, k) ← say (line "Server: invalid capability provided for map!") [] mem k;
    Ret (mem, ram, k, Killed)
  else
    '(mem, k) ← say (line "Server: mapped page with addr: 0x5000") [] mem k;
    '(k, at_w) ← touch true 0x5000 k;
    match at_w with
    | None => Ret (mem, ram, k, Stopped)
    | Some w =>
        let ram := ByteMem.store 8 w 0xDEADBEEF ram in
        '(k, at_r) ← touch false 0x5000 k;
        match at_r with
        | None => Ret (mem, ram, k, Stopped)
        | Some r =>
            '(mem, k) ← say (line "wrote: 0x%x") [load 8 ram r] mem k;
            '(k, ret) ← call mem (u_vma_unmap (load 8 mem (boot_info + 8)) 0x5000 (rs 3%nat)) k;
            '(mem, k) ← say (line "Server: unmapped page with addr: 0x5000") [] mem k;
            if negb (wrap32 ret =? 0) then
              '(mem, k) ← say (line "Server: invalid capability provided for unmap!") [] mem k;
              Ret (mem, ram, k, Killed)
            else Ret (mem, ram, k, Served)
        end
    end.
End server.

(** ** What the service needs *)

Section serves.
Context {PT M : Type} `{!X86_64 PT} `{!X86_64Laws PT} `{!PageSource M} `{!PageSourceLaws M}.
Implicit Types (k : Kernel PT M) (t : Task PT).

(** The task [t] at [p] is current on [me], and [cap_idx] denotes its own
    address space. *)
Record serves (me : nat) (cap_idx p : Z) k t : Prop := {
  sv_cpu : ∃ c, cpus (k_sched k) !! me = Some c ∧ curr_task_id c = t_id t;
  sv_task : task_table (k_sched k) !! t_id t = Some p ∧ Sched.heap (k_sched k) !! p = Some t;
  sv_cap : ∃ h rights, resolve_cap k t cap_idx KernelObjType.VSpace R_WRITE = Ret (Ok (h, rights)) ∧
    with_object (k_objects k) h (λ o, match obj_data o with ObjData.VSpace i => Some i | _ => None end) = Ret (Some (Some (t_id t)))
}.

Lemma serves_current me cap_idx p k t :
  serves me cap_idx p k t → current_id k me = Ret (t_id t) ∧ lookup_task k (t_id t) = Ret (Some (p, t)).
Proof.
  intros [(c & Hc & E) [H1 H2] _]. unfold current_id, cpu, arr_get. rewrite Hc. cbn [mbind outcome_bind]. rewrite E. split; [done|].
  unfold lookup_task, get_task_by_index, deref. rewrite H1, H2. done.
Qed.

Lemma serves_target me cap_idx p k t : serves me cap_idx p k t → target_vspace k me cap_idx = Ret (Ok (p, t)).
Proof.
  intros Hs. destruct (serves_current _ _ _ _ _ Hs) as [E1 E2]. destruct Hs as [_ _ (h & rights & E3 & E4)].
  unfold target_vspace. rewrite E1. cbn [mbind outcome_bind]. rewrite E2. cbn [mbind outcome_bind unwrap]. rewrite E3.
  cbn [mbind outcome_bind]. rewrite E4. cbn [mbind outcome_bind mjoin option_join]. rewrite E2. done.
Qed.

(** Only the scheduler's tables, the objects and the capabilities matter. *)
Lemma serves_same me cap_idx p k k' t t' :
  serves me cap_idx p k t → cpus (k_sched k') = cpus (k_sched k) → task_table (k_sched k') = task_table (k_sched k) →
  Sched.heap (k_sched k') !! p = Some t' → t_id t' = t_id t → cnode t' = cnode t → k_objects k' = k_objects k →
  serves me cap_idx p k' t'.
Proof.
  intros [H1 [H2 H2'] H3] Ec Et Eh Ei En Eo. split.
  - by rewrite Ec, Ei.
  - by rewrite Et, Ei.
  - rewrite Eo, Ei. unfold resolve_cap in *. by rewrite En, Eo.
Qed.
End serves.

(** ** The calls *)

Section calls.
Context {PT M : Type} `{!X86_64 PT} `{!X86_64Laws PT} `{!PageSource M} `{!PageSourceLaws M}.
Context (hhdm : Z) (me : nat) (sp : Z).
Implicit Types (k : Kernel PT M) (t : Task PT) (mem : Z → Z).

Lemma call_alloc_frame mem r k id : current_id k me = Ret id → call hhdm me sp mem (u_alloc_frame r) k = frame_alloc k.
Proof.
  intros Hid. unfold call, syscall_handler_inner, syscall_dispatcher. cbn [syscall_number_or_irq_or_error_code u_alloc_frame syscall0 sys_regs].
  rewrite Hid. cbn. by destruct (frame_alloc k) as [[k' v]| |].
Qed.

Lemma call_vma_map mem r k id c a n f :
  current_id k me = Ret id → call hhdm me sp mem (u_vma_map c a n f r) k = vma_map k me c a n (wrap32 f).
Proof.
  intros Hid. unfold call, syscall_handler_inner, syscall_dispatcher.
  cbn [syscall_number_or_irq_or_error_code u_vma_map syscall4 sys_regs rdi rsi rdx r10 r8]. rewrite Hid.
  cbn -[vma_map wrap32]. by destruct (vma_map _ _ _ _ _ _) as [[k' v]| |].
Qed.

Lemma call_vma_unmap mem r k id c a :
  current_id k me = Ret id → call hhdm me sp mem (u_vma_unmap c a r) k = vma_unmap k me c a.
Proof.
  intros Hid. unfold call, syscall_handler_inner, syscall_dispatcher.
  cbn [syscall_number_or_irq_or_error_code u_vma_unmap syscall2 sys_regs rdi rsi]. rewrite Hid.
  cbn -[vma_unmap]. by destruct (vma_unmap _ _ _ _) as [[k' v]| |].
Qed.

Context (cap_idx p : Z).

(** The task with its address space replaced. *)
Lemma serves_space k t a m :
  serves me cap_idx p k t → serves me cap_idx p (with_mem m (put_space p t a k)) (with_space a t).
Proof. intros Hs. eapply serves_same; [exact Hs|done|done|apply lookup_insert_eq|done..]. Qed.

(** The page the service uses: readable and writable. *)
Definition SERVER_PAGE : Vma := mk_vma 0x5000 4096 (MF_READ + MF_WRITE + MF_USER) Reserved.

Definition untouched (a : AddrSpace PT) : Prop :=
  regions_inv (vmas a) ∧ (∀ x v, vmas a !! x = Some v → x < 0x5000 ∧ x + v_size v ≤ 0x5000 ∨ 0x6000 ≤ x) ∧ translate (page_table a) 0x5000 = None.

Lemma server_page_ok : region_ok 0x5000 SERVER_PAGE.
Proof. split; [done|done|done|left; cbn; lia]. Qed.

(** Mapping it reserves the region and touches no page table. *)
Lemma server_as_map a (m : M) :
  untouched a →
  wp (as_map a m 0x5000 4096 Reserved (MF_READ + MF_WRITE + MF_USER)) (λ r,
    r = (mk_as (<[0x5000:=SERVER_PAGE]> (vmas a)) (page_table a), m, Ok ()) ∧ regions_inv (<[0x5000:=SERVER_PAGE]> (vmas a))).
Proof.
  intros (Hri & Hfree & _). unfold as_map. rewrite is_aligned_law. cbn -[find_overlapping map_in_page_table insert]. fold SERVER_PAGE.
  apply wp_bind. eapply wp_mono; [apply (find_overlapping_spec a SERVER_PAGE 0x5000 Hri server_page_ok)|]. intros [w|].
  - intros (x & Hx & H1 & H2). cbn in H1. destruct (Hfree _ _ Hx); lia.
  - intros Hno. unfold map_in_page_table. change (vma_pages SERVER_PAGE) with [0%nat]. cbn [for_each_ret].
    assert (page_va (PT:=PT) SERVER_PAGE 0 = Ret 0x5000) as ->.
    { destruct (wp_elim _ _ (wp_page_va 0x5000 SERVER_PAGE 0 (λ x, x = 0x5000) server_page_ok ltac:(by apply (bool_decide_unpack _)) eq_refl)) as (x & E & ->).
      done. }
    cbn [mbind outcome_bind v_backing SERVER_PAGE for_each_ret]. apply wp_ret. split; [done|].
    apply regions_insert; [done|apply server_page_ok|done|done].
Qed.

Lemma server_map_spec mem k t r :
  serves me cap_idx p k t → untouched (addr_space t) →
  wp (call hhdm me sp mem (u_vma_map cap_idx 0x5000 4096 (Z.lor MAP_READ (Z.lor MAP_WRITE MAP_USER)) r) k)
    (λ '(k', v), v = 0 ∧ k_console k' = k_console k ∧ k_mem k' = k_mem k ∧
      let a := mk_as (<[0x5000:=SERVER_PAGE]> (vmas (addr_space t))) (page_table (addr_space t)) in
      serves me cap_idx p k' (with_space a t) ∧ regions_inv (vmas a)).
Proof.
  intros Hs Hfree. destruct (serves_current _ _ _ _ _ Hs) as [Hid _]. rewrite (call_vma_map _ _ _ _ _ _ _ _ Hid).
  unfold vma_map. rewrite (serves_target _ _ _ _ _ Hs). cbn [mbind outcome_bind].
  apply wp_bind, wp_virt_new; [left; lia|]. change (mf_from_bits_truncate _) with (MF_READ + MF_WRITE + MF_USER).
  apply wp_bind. eapply wp_mono; [by apply server_as_map|]. intros ? [-> Hri]. cbn [expect mbind outcome_bind]. apply wp_ret.
  split; [done|]. split; [done|]. split; [done|]. split; [by apply serves_space|done].
Qed.

Lemma page_of_server : page_of 0x5000 = 0x5000.
Proof. reflexivity. Qed.

(** The first access faults and gets a page; then accesses succeed. *)
Definition filled (B : gmap Z nat) k t k' (f : Z) : Prop :=
  k_console k' = k_console k ∧ ∃ a flags,
    serves me cap_idx p k' (with_space a t) ∧ vmas a = vmas (addr_space t) ∧
    (∀ write, permits (PT:=PT) write flags = true) ∧
    mapped_at (page_table (addr_space t)) (page_table a) 0x5000 f flags ∧ B !! f = None ∧ grown (<[f:=0%nat]> B) (k_mem k').

Lemma server_fault_spec k t B :
  serves me cap_idx p k t → regions_inv (vmas (addr_space t)) → vmas (addr_space t) !! 0x5000 = Some SERVER_PAGE →
  translate (page_table (addr_space t)) 0x5000 = None → pages_out (k_mem k) B →
  post (access_step me true 0x5000 k) (λ r, ∃ k' f, r = inl k' ∧ filled B k t k' f) (fault_stops (addr_space t) (k_mem k) 0x5000 6).
Proof.
  intros Hs Hri Hv Hnone HB. destruct (serves_current _ _ _ _ _ Hs) as [E1 E2].
  unfold access_step. rewrite E1. cbn [mbind outcome_bind]. rewrite E2. cbn [mbind outcome_bind unwrap].
  rewrite page_of_server, Hnone. unfold handle_page_fault. change (Z.lor 4 2) with 6. change (Z.land 6 4 =? 0) with false. cbv iota.
  rewrite E1. cbn [mbind outcome_bind]. rewrite E2. cbn [mbind outcome_bind unwrap].
  pose proof (page_fault_spec (addr_space t) (k_mem k) B 0x5000 6 Hri HB ltac:(left; lia)) as Hf.
  destruct (page_fault _ _ _ _) as [[[a m] r]|e|]; [|done..]. cbn [mbind outcome_bind post] in *. destruct r; cbn [fault_outcome] in Hf.
  2:{ destruct Hf as (_ & _ & Hf). exfalso. apply Hf. exists SERVER_PAGE. split; [by exists 0x5000|]. split; [unfold inside; cbn; lia|].
      split; [done|]. split; [done|]. done. }
  destruct Hf as (Ev & _ & v & f & ((x & Hx) & Hin & _) & _ & Hm & Hnew & Hg).
  assert (v = SERVER_PAGE) as ->.
  { destruct (Z.lt_trichotomy x 0x5000) as [Hlt|[->|Hgt]]; [|congruence|].
    - pose proof (ri_ordered _ Hri _ _ _ _ Hx Hv Hlt). destruct (ri_ok _ Hri _ _ Hx) as [Hok _]. unfold inside in Hin. rewrite (ro_key _ _ Hok) in Hin. lia.
    - destruct (ri_ok _ Hri _ _ Hx) as [Hok _]. unfold inside in Hin. rewrite (ro_key _ _ Hok) in Hin. lia. }
  eexists _, f. split; [done|]. split; [done|]. exists a, (to_page_table_flags (PT:=PT) (v_flags SERVER_PAGE)).
  split; [by apply serves_space|]. split; [done|]. split; [|done].
  destruct (page_table_flags_rights (PT:=PT) (v_flags SERVER_PAGE)) as (_ & Hw & Hus & _). intros write. unfold permits. rewrite Hw, Hus. by destruct write.
Qed.

Lemma access_hit k t write f flags :
  serves me cap_idx p k t → translate (page_table (addr_space t)) 0x5000 = Some (f, flags) → permits (PT:=PT) write flags = true →
  access_step me write 0x5000 k = Ret (inr (k, Some f)).
Proof.
  intros Hs Ht Hp. destruct (serves_current _ _ _ _ _ Hs) as [E1 E2].
  unfold access_step. rewrite E1. cbn [mbind outcome_bind]. rewrite E2. cbn [mbind outcome_bind unwrap]. rewrite page_of_server, Ht, Hp.
  change (0x5000 mod PAGE_SIZE) with 0. by rewrite Z.add_0_r.
Qed.

Lemma server_touch_spec k t B :
  serves me cap_idx p k t → regions_inv (vmas (addr_space t)) → vmas (addr_space t) !! 0x5000 = Some SERVER_PAGE →
  translate (page_table (addr_space t)) 0x5000 = None → pages_out (k_mem k) B →
  post (touch me true 0x5000 k) (λ '(k', w), ∃ f, w = Some f ∧ touch me false 0x5000 k' = Ret (k', Some f) ∧ filled B k t k' f)
    (fault_stops (addr_space t) (k_mem k) 0x5000 6).
Proof.
  intros Hs Hri Hv Hnone HB. unfold touch. cbn [Prelude.iter].
  eapply post_bind_post; [by eapply server_fault_spec|]. intros r (k' & f & -> & Hf). cbv iota.
  pose proof Hf as (Hco & a & flags & Hs' & Ev & Hperm & Hm & Hrest).
  assert (translate (page_table a) 0x5000 = Some (f, flags)) as Ht by (rewrite Hm; by rewrite decide_True).
  rewrite (access_hit k' (with_space a t) true f flags Hs' Ht (Hperm _)). cbn [mbind outcome_bind post].
  exists f. split; [done|]. split; [|done]. by rewrite (access_hit k' (with_space a t) false f flags Hs' Ht (Hperm _)).
Qed.

Lemma server_unmap_spec mem k t r :
  serves me cap_idx p k t → regions_inv (vmas (addr_space t)) → vmas (addr_space t) !! 0x5000 = Some SERVER_PAGE →
  wp (call hhdm me sp mem (u_vma_unmap cap_idx 0x5000 r) k) (λ '(k', v), v = 0 ∧ k_console k' = k_console k ∧ k_mem k' = k_mem k ∧
    ∃ a, serves me cap_idx p k' (with_space a t) ∧ vmas a = delete 0x5000 (vmas (addr_space t)) ∧
      unmapped_at (page_table (addr_space t)) (page_table a) 0x5000).
Proof.
  intros Hs Hri Hv. destruct (serves_current _ _ _ _ _ Hs) as [Hid _]. rewrite (call_vma_unmap _ _ _ _ _ _ Hid).
  unfold vma_unmap. rewrite (serves_target _ _ _ _ _ Hs). cbn [mbind outcome_bind].
  apply wp_bind, wp_virt_new; [left; lia|]. apply wp_bind. eapply wp_mono; [by apply (as_unmap_spec _ 0x5000 SERVER_PAGE)|].
  intros [a [u|e]] (_ & _ & Ev & Hr); cbn [expect mbind outcome_bind].
  2:{ destruct e as [|?| |]; try done. by destruct Hr as [Hr _]. }
  apply wp_ret. split; [done|]. split; [done|]. split; [done|]. exists a.
  split; [eapply serves_same; [exact Hs|done|done|apply lookup_insert_eq|done..]|]. split; [done|].
  intros page. rewrite Hr. change (npages SERVER_PAGE) with 1%nat. cbn [v_vaddr SERVER_PAGE].
  apply decide_ext. rewrite covered_S by done. split; [intros [Hc|Hc]; [by destruct (covered_0 0x5000 page)|lia]|intros ->; right; lia].
Qed.
End calls.

(** ** The capabilities of the first task *)

(** The second capability of [make_init_caps] denotes the address space. *)
Lemma init_caps_vspace o id o' nd info :
  table_ok o → make_init_caps o id cnode_new = Ret (o', nd, info) →
  table_ok o' ∧ (self_tcb_cap info = 0 ∧ self_vspace_cap info = 1 ∧ self_cnode_cap info = 2) ∧ ∃ h x, cnode_get nd 1 = Ret (Some (cap_new h R_ALL)) ∧
    0 ≤ h_index h < Z.of_nat MAX_OBJECTS ∧ object_at o' h = Some x ∧ obj_type x = KernelObjType.VSpace ∧ obj_data x = ObjData.VSpace id.
Proof.
  intros Ho E. unfold make_init_caps in E.
  destruct (wp_elim _ _ (obj_insert_grow o (object_new KernelObjType.Thread (ObjData.Thread id)) Ho)) as ([o1 r1] & E1 & Ho1 & _).
  rewrite E1 in E. cbn [mbind outcome_bind] in E. destruct r1 as [h1|]; [|done]. cbn [expect mbind outcome_bind] in E.
  destruct (wp_elim _ _ (obj_insert_grow o1 (object_new KernelObjType.VSpace (ObjData.VSpace id)) Ho1)) as ([o2 r2] & E2 & Ho2 & _ & H2).
  rewrite E2 in E. cbn [mbind outcome_bind] in E. destruct r2 as [h2|]; [|done]. cbn [expect mbind outcome_bind] in E.
  destruct (wp_elim _ _ (obj_insert_grow o2 (object_new KernelObjType.CNode (ObjData.CNode id)) Ho2)) as ([o3 r3] & E3 & Ho3 & Hg & _).
  rewrite E3 in E. cbn [mbind outcome_bind] in E. destruct r3 as [h3|]; [|done]. cbn [expect mbind outcome_bind] in E.
  destruct H2 as (Hi & _ & Hx). destruct (Hg h2 _ ltac:(lia) Hx) as (x & Hx' & Et & Ed).
  vm_compute in E. injection E as <- <- <-. split; [done|]. split; [done|]. exists h2, x. split; [reflexivity|]. done.
Qed.

(** ** The messages *)

Lemma pad_zero_width c l : pad c 0 l = l.
Proof. unfold pad. by replace (Z.to_nat (0 - Z.of_nat (length l))) with 0%nat by lia. Qed.

Section messages.
Context (mem : Z → Z) (buf : Z) (fuel : nat).
#[local] Notation formats := (formats mem buf 1024 fuel).

Lemma formats_plain pre l ap t : chr "%" ∉ pre → formats l ap t → formats (pre ++ l) ap (pre ++ t).
Proof.
  intros Hp Hf. induction pre as [|c pre IH]; [done|]. apply not_elem_of_cons in Hp as [H1 H2].
  cbn [app]. apply fmt_char; [done|]. by apply IH.
Qed.

Lemma formats_text pre ap : chr "%" ∉ pre → formats pre ap pre.
Proof. intros Hp. rewrite <-(app_nil_r pre). apply formats_plain; [done|constructor]. Qed.

Lemma formats_d w ds l ap t :
  0 ≤ w < 2 ^ 63 → numeral DEC_digits w ds → formats l ap t → formats (text "%d" ++ l) (w :: ap) (ds ++ t).
Proof.
  intros Hw Hn Hf. change (text "%d" ++ l) with (chr "%" :: (if false then text "0" else []) ++ [] ++ chr "d" :: l).
  eapply (fmt_directive _ _ _ _ false []); [constructor|done|done|done| |exact Hf].
  change (value 10 []) with 0. rewrite <-(pad_zero_width (pad_char false) ds).
  assert (as_long w = w) as El by (unfold as_long; by rewrite (proj2 (Z.ltb_lt _ _)) by lia).
  apply conv_d; [by left|lia| |]; rewrite El; [unfold LONG_MIN; lia|]. unfold signed_numeral. by rewrite (proj2 (Z.ltb_ge _ _)) by lia.
Qed.

Lemma formats_x w ds l ap t :
  0 ≤ w < 2 ^ 64 → numeral hex_digits w ds → formats l ap t → formats (text "%x" ++ l) (w :: ap) (ds ++ t).
Proof.
  intros Hw Hn Hf. change (text "%x" ++ l) with (chr "%" :: (if false then text "0" else []) ++ [] ++ chr "x" :: l).
  eapply (fmt_directive _ _ _ _ false []); [constructor|done|done|done| |exact Hf].
  change (value 10 []) with 0. rewrite <-(pad_zero_width (pad_char false) ds). by apply conv_x.
Qed.
End messages.

(** A numeral of the program has no zero byte and at most 20 digits. *)
Lemma hex_numeral w : 0 ≤ w < 2 ^ 64 → ∃ ds, numeral hex_digits w ds.
Proof.
  intros Hw. destruct (wp_elim _ _ (number_spec hex_digits (hex_step hex_digits) w (hex_step_converts hex_digits eq_refl) ltac:(cbn; lia) eq_refl Hw))
    as (ds & _ & Hn & _). by exists ds.
Qed.

Lemma numeral_nonzero w ds : numeral hex_digits w ds → 0 ∉ ds ∧ (0 ≤ w < 2 ^ 64 → (length ds ≤ 20)%nat).
Proof.
  intros Hn. split.
  - destruct Hn as (vs & Hvs & _). intros Hz. apply list_elem_of_lookup_1 in Hz as [i Hi].
    destruct (Forall2_lookup_r _ _ _ _ _ Hvs Hi) as (v & _ & _ & Hc). apply list_elem_of_lookup_2 in Hc. revert Hc. by apply (bool_decide_unpack _).
  - intros Hw. destruct (wp_elim _ _ (number_spec hex_digits (hex_step hex_digits) w (hex_step_converts hex_digits eq_refl) ltac:(cbn; lia) eq_refl Hw))
      as (ds' & _ & Hn' & Hl). by rewrite (numeral_unique hex_digits w ds ds') by (done || cbn; lia).
Qed.

(** What the messages with directives stand for. *)
Lemma formats_info mem buf fuel :
  formats mem buf 1024 fuel (line "Got initial boot info. TCB CAP: %d | vspace CAP: %d | cnode CAP: %d") [0; 1; 2]
    (line "Got initial boot info. TCB CAP: 0 | vspace CAP: 1 | cnode CAP: 2").
Proof.
  assert (∀ v c, shows DEC_digits v c → 0 ≤ v → v = 0 ∨ 0 < v → numeral DEC_digits v [c]) as Hd.
  { intros v c Hs Hv Hor. exists [v]. split; [constructor; [exact Hs|constructor]|]. split; [cbn; lia|]. destruct Hor as [->|?]; [by left|right; by exists v, []]. }
  replace (line "Got initial boot info. TCB CAP: %d | vspace CAP: %d | cnode CAP: %d") with
    (text "Got initial boot info. TCB CAP: " ++ text "%d" ++ text " | vspace CAP: " ++ text "%d" ++ text " | cnode CAP: " ++ text "%d" ++ [10])
    by (vm_compute; reflexivity).
  replace (line "Got initial boot info. TCB CAP: 0 | vspace CAP: 1 | cnode CAP: 2") with
    (text "Got initial boot info. TCB CAP: " ++ text "0" ++ text " | vspace CAP: " ++ text "1" ++ text " | cnode CAP: " ++ text "2" ++ [10])
    by (vm_compute; reflexivity).
  apply formats_plain; [by apply (bool_decide_unpack _)|]. apply formats_d; [lia|apply Hd; [done|lia..]|].
  apply formats_plain; [by apply (bool_decide_unpack _)|]. apply formats_d; [lia|apply Hd; [done|lia..]|].
  apply formats_plain; [by apply (bool_decide_unpack _)|]. apply formats_d; [lia|apply Hd; [done|lia..]|].
  apply formats_text. by apply (bool_decide_unpack _).
Qed.

Lemma formats_addr mem buf fuel w h :
  0 ≤ w < 2 ^ 64 → numeral hex_digits w h →
  formats mem buf 1024 fuel (line "Server: allocated frame. Addr: 0x%x") [w] (text "Server: allocated frame. Addr: 0x" ++ h ++ [10]).
Proof.
  intros Hw Hn. replace (line "Server: allocated frame. Addr: 0x%x") with (text "Server: allocated frame. Addr: 0x" ++ text "%x" ++ [10])
    by (vm_compute; reflexivity).
  apply formats_plain; [by apply (bool_decide_unpack _)|]. apply formats_x; [done|done|]. apply formats_text. by apply (bool_decide_unpack _).
Qed.

Lemma formats_wrote mem buf fuel : formats mem buf 1024 fuel (line "wrote: 0x%x") [0xDEADBEEF] (line "wrote: 0xdeadbeef").
Proof.
  replace (line "wrote: 0x%x") with (text "wrote: 0x" ++ text "%x" ++ [10]) by (vm_compute; reflexivity).
  replace (line "wrote: 0xdeadbeef") with (text "wrote: 0x" ++ text "deadbeef" ++ [10]) by (vm_compute; reflexivity).
  apply formats_plain; [by apply (bool_decide_unpack _)|]. apply formats_x; [lia| |apply formats_text; by apply (bool_decide_unpack _)].
  exists [13; 14; 10; 13; 11; 14; 14; 15]. split; [do 8 (constructor; [split; [lia|vm_compute; reflexivity]|]); constructor|].
  split; [vm_compute; reflexivity|]. right. exists 13. eexists. split; [reflexivity|lia].
Qed.

Section theorem.
Context {PT M : Type} `{!X86_64 PT} `{!X86_64Laws PT} `{!PageSource M} `{!PageSourceLaws M}.
Context (hhdm : Z) (me : nat) (sp : Z) (fuel : nat) (buf : Z) (lit : list Z → Z) (rs : nat → TaskRegisters).
Implicit Types (k : Kernel PT M) (t : Task PT) (mem ram : Z → Z).

(** The task with the capabilities of [make_init_caps] is current on [me]. *)
Record first_task (p : Z) (boot_info : InitSvrsBootInfo) k t : Prop := {
  ft_cpu : ∃ c, cpus (k_sched k) !! me = Some c ∧ curr_task_id c = t_id t;
  ft_task : task_table (k_sched k) !! t_id t = Some p ∧ Sched.heap (k_sched k) !! p = Some t;
  ft_caps : ∃ o, table_ok o ∧ make_init_caps o (t_id t) cnode_new = Ret (k_objects k, cnode t, boot_info)
}.

Lemma first_task_serves p b k t : first_task p b k t → serves me (self_vspace_cap b) p k t.
Proof.
  intros [Hc Ht (o & Ho & E)]. destruct (init_caps_vspace _ _ _ _ _ Ho E) as (Ho' & (_ & -> & _) & h & x & Hcap & Hi & Hx & Ety & Ed).
  split; [done|done|]. exists h, R_ALL. unfold resolve_cap. change (wrap32 1) with 1. rewrite Hcap. cbn [mbind outcome_bind].
  change (rights_contain (cap_rights (cap_new h R_ALL)) R_WRITE) with true. cbn [negb cap_new cap_handle cap_rights].
  rewrite !(with_object_at k) by done. rewrite Hx. cbn [fmap option_fmap option_map mbind outcome_bind default].
  rewrite bool_decide_true by done. by rewrite Ed.
Qed.

(** The literals of the run. *)
Definition messages : list (list Z) :=
  [line "Init process started!";
   line "Got initial boot info. TCB CAP: %d | vspace CAP: %d | cnode CAP: %d";
   line "Server: allocated frame. Addr: 0x%x";
   line "Server: mapped page with addr: 0x5000";
   line "wrote: 0x%x";
   line "Server: unmapped page with addr: 0x5000"].

Definition same_but_buffer mem mem' : Prop := ∀ x, ¬ (buf ≤ x < buf + 1024) → mem' x = mem x.

(** The program in memory: its literals and the boot information, apart from
    the buffer of [printf]. *)
Record service_image (b : InitSvrsBootInfo) (boot_info : Z) mem : Prop := {
  si_buf : 0x1000 ≤ buf ≤ 0x00007FFFFFFFFFFF;
  si_lits : ∀ l, l ∈ messages → user_string mem buf 1024 fuel (lit l) l;
  si_info : load 8 mem boot_info = self_tcb_cap b ∧ load 8 mem (boot_info + 8) = self_vspace_cap b ∧
            load 8 mem (boot_info + 16) = self_cnode_cap b;
  si_apart : apart boot_info 24 buf 1024
}.

Lemma image_kept b bi mem mem' : service_image b bi mem → same_but_buffer mem mem' → service_image b bi mem'.
Proof.
  intros [H1 H2 (H3 & H4 & H5) H6] Hs. split; [done| | |done].
  - intros l Hl. destruct (H2 l Hl) as ([Hc He] & Hf & Hm & Ha). split; [|done]. split.
    + intros i c Hi. pose proof (lookup_lt_Some _ _ _ Hi). rewrite Hs by lia. by apply Hc.
    + by rewrite Hs by lia.
  - rewrite <-H3, <-H4, <-H5. unfold apart in H6. split_and!; apply load_ext; intros x Hx; apply Hs; unfold range in Hx; lia.
Qed.

Definition with_output (out : list Z) k : Kernel PT M :=
  mk_kernel (k_sched k) (k_objects k) (k_ipc k) (k_mem k) (k_console k ++ out).

Lemma serves_output c p k t out : serves me c p k t → serves me c p (with_output out k) t.
Proof. intros Hs. eapply serves_same; [exact Hs|done|done|apply (sv_task _ _ _ _ _ Hs)|done..]. Qed.

Lemma say_spec b bi mem k l ap out :
  service_image b bi mem → l ∈ messages → formats mem buf 1024 fuel l ap out → 0 ∉ out → (length out ≤ 1023)%nat →
  wp (say hhdm me sp fuel buf lit rs l ap mem k) (λ '(mem', k'),
    k' = with_output out k ∧ service_image b bi mem' ∧ same_but_buffer mem mem').
Proof.
  intros Him Hl Hf Hz Hlen. unfold say. apply wp_bind.
  eapply wp_mono; [apply (run_printf_spec hhdm me sp fuel buf (lit l) l ap out); [apply (si_buf _ _ _ Him)..|by apply (si_lits _ _ _ Him)|done|done]|].
  intros [[mem' k'] res] (-> & -> & Hs). apply wp_ret. rewrite take_ge by done. split; [done|]. split; [by eapply image_kept|done].
Qed.

(** A message without directives. *)
Lemma say_text b bi mem k l :
  service_image b bi mem → l ∈ messages → chr "%" ∉ l → 0 ∉ l → (length l ≤ 1023)%nat →
  wp (say hhdm me sp fuel buf lit rs l [] mem k) (λ '(mem', k'),
    k' = with_output l k ∧ service_image b bi mem' ∧ same_but_buffer mem mem').
Proof. intros Him Hl Hp Hz Hlen. eapply say_spec; [done|done|by apply formats_text|done|done]. Qed.

(** What is on the console in the end; [h] is the address of the frame. *)
Definition server_report (h : list Z) : list Z :=
  line "Init process started!" ++
  line "Got initial boot info. TCB CAP: 0 | vspace CAP: 1 | cnode CAP: 2" ++
  (text "Server: allocated frame. Addr: 0x" ++ h ++ [10]) ++
  line "Server: mapped page with addr: 0x5000" ++
  line "wrote: 0xdeadbeef" ++
  line "Server: unmapped page with addr: 0x5000".

(** The region of the page is recorded. *)
Definition with_server_page (a : AddrSpace PT) : AddrSpace PT := mk_as (<[0x5000:=SERVER_PAGE]> (vmas a)) (page_table a).

(** Why the run may panic: there is no frame for its request, or the fault at
    its page gets none or cannot map it. *)
Definition service_stops k t (e : panic) : Prop :=
  (e = PUnwrap ∧ ∃ m', page_alloc (k_mem k) 0 SAFE_KERNEL_PAGES = Ret (m', None)) ∨
  ∃ m1 f1, page_alloc (k_mem k) 0 SAFE_KERNEL_PAGES = Ret (m1, Some f1) ∧
    fault_stops (with_server_page (addr_space t)) m1 0x5000 6 e.

(** What the run leaves. *)
Record service_done p b k t B mem ram mem' ram' k' (f1 f2 : Z) : Prop := {
  sd_console : ∃ h, numeral hex_digits f1 h ∧ k_console k' = k_console k ++ server_report h;
  sd_memory : same_but_buffer mem mem';
  sd_frame : load 8 ram' f2 = 0xDEADBEEF ∧ ∀ x, ¬ range f2 8 x → ram' x = ram x;
  sd_space : ∃ a, serves me (self_vspace_cap b) p k' (with_space a t) ∧ vmas a = vmas (addr_space t) ∧
    same_mappings (page_table (addr_space t)) (page_table a);
  sd_fresh : f1 ≠ f2 ∧ B !! f1 = None ∧ B !! f2 = None;
  sd_pages : ∃ B', B ⊆ B' ∧ B' !! f1 = Some 0%nat ∧ B' !! f2 = Some 0%nat ∧ pages_out (k_mem k') B'
}.

Lemma image_caps p b k t bi mem :
  first_task p b k t → service_image b bi mem →
  load 8 mem bi = 0 ∧ load 8 mem (bi + 8) = self_vspace_cap b ∧ self_vspace_cap b = 1 ∧ load 8 mem (bi + 16) = 2.
Proof.
  intros [_ _ (o & Ho & E)] [_ _ (H1 & H2 & H3) _]. destruct (init_caps_vspace _ _ _ _ _ Ho E) as (_ & (E1 & E2 & E3) & _).
  split_and!; congruence.
Qed.

Ltac said H := eapply post_bind; [eapply H; [done|set_solver|by apply (bool_decide_unpack _)..]|].

(** The first part of the run, up to the frame. *)
Lemma service_begins p b k t bi mem (rest : Z → (Z → Z) → Kernel PT M → outcome ((Z → Z) * (Z → Z) * Kernel PT M * server_end)) B Q :
  first_task p b k t → pages_out (k_mem k) B → service_image b bi mem →
  (∀ m1 f1 h mem1, page_alloc (k_mem k) 0 SAFE_KERNEL_PAGES = Ret (m1, Some f1) → B !! f1 = None → pages_out m1 (<[f1:=0%nat]> B) →
     numeral hex_digits f1 h → service_image b bi mem1 → same_but_buffer mem mem1 →
     post (rest f1 mem1 (with_output (text "Server: allocated frame. Addr: 0x" ++ h ++ [10]) (with_mem m1 (with_output
       (line "Got initial boot info. TCB CAP: 0 | vspace CAP: 1 | cnode CAP: 2") (with_output (line "Init process started!") k))))) Q (service_stops k t)) →
  post ('(mem, k) ← say hhdm me sp fuel buf lit rs (line "Init process started!") [] mem k;
        '(mem, k) ← say hhdm me sp fuel buf lit rs (line "Got initial boot info. TCB CAP: %d | vspace CAP: %d | cnode CAP: %d")
          [load 8 mem bi; load 8 mem (bi + 8); load 8 mem (bi + 16)] mem k;
        '(k, addr) ← call hhdm me sp mem (u_alloc_frame (rs 1%nat)) k;
        '(mem, k) ← say hhdm me sp fuel buf lit rs (line "Server: allocated frame. Addr: 0x%x") [addr] mem k;
        rest addr mem k) Q (service_stops k t).
Proof.
  intros Hf HB Him Hrest. said say_text. intros [mem1 k1] (-> & Him1 & Hm1). cbv beta iota.
  destruct (image_caps _ _ _ _ _ _ Hf Him1) as (-> & E2 & Ev & ->). rewrite E2, Ev.
  eapply post_bind; [eapply say_spec; [exact Him1|set_solver|apply formats_info|by apply (bool_decide_unpack _)..]|].
  intros [mem2 k2] (-> & Him2 & Hm2). set (k2 := with_output _ (with_output _ k)).
  assert (serves me (self_vspace_cap b) p k2 t) as Hs by (by do 2 apply serves_output; apply first_task_serves).
  rewrite (call_alloc_frame _ _ _ _ _ _ _ (proj1 (serves_current _ _ _ _ _ Hs))). unfold frame_alloc. change (k_mem k2) with (k_mem k).
  destruct (wp_elim _ _ (page_alloc_law (k_mem k) B 0 HB)) as ([m1 [f1|]] & E1 & Hr1); rewrite E1; cbn [mbind outcome_bind unwrap post].
  2:{ left. split; [done|]. by exists m1. }
  destruct Hr1 as [Hn1 Hp1]. destruct (pages_out_aligned _ _ f1 _ Hp1 (lookup_insert_eq _ _ _)) as (Hf0 & _ & Hf1).
  pose proof (block_bytes_positive 0). assert (0 ≤ f1 < 2 ^ 64) as Hf1' by lia. destruct (hex_numeral f1 Hf1') as [h Hh].
  destruct (numeral_nonzero _ _ Hh) as [Hz Hl]. specialize (Hl Hf1').
  eapply post_bind; [eapply say_spec; [exact Him2|set_solver|by apply (formats_addr _ _ _ f1 h)| |]|].
  - rewrite !not_elem_of_app. split; [by apply (bool_decide_unpack _)|]. split; [done|by apply (bool_decide_unpack _)].
  - rewrite !length_app. change (length (text "Server: allocated frame. Addr: 0x")) with 33%nat. cbn [length]. lia.
  - intros [mem3 k3] (-> & Him3 & Hm3). apply Hrest; [done..|]. intros x Hx. by rewrite Hm3, Hm2, Hm1.
Qed.

(** The second part: the page is mapped, written, read and unmapped. *)
Lemma service_uses_page p b k t bi mem ram B :
  serves me (self_vspace_cap b) p k t → untouched (addr_space t) → pages_out (k_mem k) B → service_image b bi mem →
  post ('(k, ret) ← call hhdm me sp mem (u_vma_map (load 8 mem (bi + 8)) 0x5000 4096 (Z.lor MAP_READ (Z.lor MAP_WRITE MAP_USER)) (rs 2%nat)) k;
        if negb (wrap32 ret =? 0) then
          '(mem, k) ← say hhdm me sp fuel buf lit rs (line "Server: invalid capability provided for map!") [] mem k;
          Ret (mem, ram, k, Killed)
        else
          '(mem, k) ← say hhdm me sp fuel buf lit rs (line "Server: mapped page with addr: 0x5000") [] mem k;
          '(k, at_w) ← touch me true 0x5000 k;
          match at_w with
          | None => Ret (mem, ram, k, Stopped)
          | Some w =>
              let ram := ByteMem.store 8 w 0xDEADBEEF ram in
              '(k, at_r) ← touch me false 0x5000 k;
              match at_r with
              | None => Ret (mem, ram, k, Stopped)
              | Some r =>
                  '(mem, k) ← say hhdm me sp fuel buf lit rs (line "wrote: 0x%x") [load 8 ram r] mem k;
                  '(k, ret) ← call hhdm me sp mem (u_vma_unmap (load 8 mem (bi + 8)) 0x5000 (rs 3%nat)) k;
                  '(mem, k) ← say hhdm me sp fuel buf lit rs (line "Server: unmapped page with addr: 0x5000") [] mem k;
                  if negb (wrap32 ret =? 0) then
                    '(mem, k) ← say hhdm me sp fuel buf lit rs (line "Server: invalid capability provided for unmap!") [] mem k;
                    Ret (mem, ram, k, Killed)
                  else Ret (mem, ram, k, Served)
              end
          end)
    (λ '(mem', ram', k', e), e = Served ∧ ∃ f a,
      k_console k' = k_console k ++ line "Server: mapped page with addr: 0x5000" ++ line "wrote: 0xdeadbeef" ++
        line "Server: unmapped page with addr: 0x5000" ∧
      same_but_buffer mem mem' ∧ ram' = ByteMem.store 8 f 0xDEADBEEF ram ∧
      serves me (self_vspace_cap b) p k' (with_space a t) ∧ vmas a = vmas (addr_space t) ∧
      same_mappings (page_table (addr_space t)) (page_table a) ∧ B !! f = None ∧ grown (<[f:=0%nat]> B) (k_mem k'))
    (fault_stops (with_server_page (addr_space t)) (k_mem k) 0x5000 6).
Proof.
  intros Hs Hun HB Him. rewrite (proj1 (proj2 (si_info _ _ _ Him))).
  eapply post_bind; [by apply (server_map_spec hhdm me sp (self_vspace_cap b) p mem k t)|].
  intros [k2 v] (-> & Ek2 & Em2 & Hs2 & Hri2). change (wrap32 0 =? 0) with true. cbn [negb]. fold (with_server_page (addr_space t)) in Hs2, Hri2.
  said say_text. intros [mem3 k3] (-> & Him3 & Hm3). set (k3 := with_output _ k2). set (t2 := with_space _ t) in *.
  assert (k_mem k3 = k_mem k) as Em3 by done.
  eapply post_bind_post; [eapply post_weaken; [apply (server_touch_spec me (self_vspace_cap b) p k3 t2 B);
    [by apply serves_output|done|apply lookup_insert_eq|apply Hun|by rewrite Em3]|by rewrite Em3]|].
  intros [k4 w] (f & -> & Et & Ek4 & a4 & flags & Hs4 & Ev4 & _ & Hm4 & Hnf & Hg). rewrite Et. cbn [mbind outcome_bind].
  rewrite load_store_eq by done.
  eapply post_bind; [eapply say_spec; [exact Him3|set_solver|apply formats_wrote|by apply (bool_decide_unpack _)..]|].
  intros [mem5 k5] (-> & Him5 & Hm5). rewrite (proj1 (proj2 (si_info _ _ _ Him5))).
  eapply post_bind; [apply (server_unmap_spec hhdm me sp (self_vspace_cap b) p mem5 _ (with_space a4 t2));
    [by apply serves_output|by cbn; rewrite Ev4|by cbn; rewrite Ev4; apply lookup_insert_eq]|].
  intros [k6 v] (-> & Ek6 & Em6 & a6 & Hs6 & Ev6 & Hm6). change (wrap32 0 =? 0) with true. cbn [negb].
  said say_text. intros [mem7 k7] (-> & Him7 & Hm7). split; [done|]. exists f, a6. split_and!.
  - unfold with_output at 1. cbn [k_console]. rewrite Ek6. unfold with_output at 1. cbn [k_console]. rewrite Ek4. unfold k3, with_output at 1.
    cbn [k_console]. by rewrite Ek2, <-!app_assoc.
  - intros x Hx. by rewrite Hm7, Hm5, Hm3.
  - done.
  - by apply serves_output.
  - rewrite Ev6. cbn [addr_space with_space]. rewrite Ev4. cbn [t2 addr_space with_space vmas]. apply delete_insert_id.
    destruct Hun as (_ & Hfree & _). destruct (vmas (addr_space t) !! 0x5000) as [v|] eqn:E; [|done].
    destruct (Hfree _ _ E); lia.
  - intros page. rewrite Hm6. cbn [addr_space with_space]. case_decide as Hp; [subst; symmetry; apply Hun|]. rewrite Hm4, decide_False by done. done.
  - done.
  - by change (k_mem (with_output _ k6)) with (k_mem k6); rewrite Em6.
Qed.

(** C21: the init service does what it says.  When the task with the capabilities
    of [make_init_caps] is current, its program and boot information are in its
    memory and nothing is at 0x5000, its run makes all its calls successfully
    and reaches its final loop: it is given a frame, its request for the page
    succeeds, writing to the page faults once and is resumed, reading it gives
    the value back, and it unmaps the page.  Its six messages, with the numbers
    of its capabilities, the address of the frame in hexadecimal and the value
    it read, are on the console in order; its address space is as before, and
    of its memory only the buffer of [printf] has changed.  The frame behind
    the page holds the value and stays allocated although nothing maps it.  The
    only panics are those for lack of a frame, for its request or for the
    fault, or of a page table that cannot map it. *)
Theorem init_service_runs p b bi mem ram k t B :
  first_task p b k t → untouched (addr_space t) → pages_out (k_mem k) B → service_image b bi mem →
  post (server_start hhdm me sp fuel buf lit rs bi mem ram k)
    (λ '(mem', ram', k', e), e = Served ∧ ∃ f1 f2, service_done p b k t B mem ram mem' ram' k' f1 f2)
    (service_stops k t).
Proof.
  intros Hf Hun HB Him. unfold server_start. cbv zeta. eapply service_begins; [done|done|done|].
  intros m1 f1 h mem1 E1 Hn1 Hp1 Hh Him1 Hm1. set (k1 := with_output _ (with_mem m1 _)).
  assert (serves me (self_vspace_cap b) p k1 t) as Hs.
  { apply serves_output. eapply serves_same; [by apply first_task_serves|done|done|apply (ft_task _ _ _ _ Hf)|done..]. }
  eapply post_weaken; [eapply post_mono; [by apply (service_uses_page p b k1 t bi mem1 ram (<[f1:=0%nat]> B))|]|].
  2:{ intros e He. right. by exists m1, f1. }
  intros [[[mem' ram'] k'] e] (-> & f2 & a & Hc & Hm' & -> & Hs' & Ev & Hmap & Hn2 & B' & Hsub & HB').
  apply lookup_insert_None in Hn2 as [Hn2 Hne]. split; [done|]. exists f1, f2. split.
  - exists h. split; [done|]. rewrite Hc. unfold k1, with_output, with_mem, server_report. cbn [k_console]. by rewrite <-!app_assoc.
  - intros x Hx. by rewrite Hm', Hm1.
  - split; [by apply load_store_eq|]. intros x Hx. by apply store_ne.
  - by exists a.
  - done.
  - exists B'. split_and!; [| | |done].
    + etrans; [by apply (insert_subseteq B f1 0%nat)|]. etrans; [|exact Hsub]. apply insert_subseteq. by rewrite lookup_insert_ne.
    + eapply lookup_weaken; [|exact Hsub]. rewrite lookup_insert_ne by done. apply lookup_insert_eq.
    + eapply lookup_weaken; [|exact Hsub]. apply lookup_insert_eq.
Qed.
End theorem.

(** ** A run *)

Definition service_caps : ObjectTable * CNode * InitSvrsBootInfo :=
  match make_init_caps table_new 1 cnode_new with Ret r => r | _ => (table_new, cnode_new, mk_bootinfo 0 0 0 0) end.

Definition service_task : Task ref_pt :=
  mk_task 1 regs_default 0 (as_new (mk_ref 0x1000 ∅)) (mk_stack 0 0 []) service_caps.1.2 TaskState.Running.

(** Memory from 0x100000 on is free. *)
Definition service_pages : ref_pages * (Z → Z) := (mk_ref_pages 0x100000 (λ _, frame_absent), λ _, 0).

Definition service_kernel : Kernel ref_pt (ref_pages * (Z → Z)) :=
  mk_kernel (mk_sched {[5 := service_task]} {[1 := 5]} [] [mk_cpu (rq (cpu_new service_task)) 5 service_task 1 false 0 0 0 0] 0)
    service_caps.1.1 ipc_new service_pages [].

(** The literals are 256 bytes apart, the boot information is at 0x1000. *)
Definition service_lit (l : list Z) : Z :=
  match list_find (l =.) messages with Some (i, _) => 0x400100 + 0x100 * Z.of_nat i | None => 0x400000 end.
Definition service_mem : Z → Z :=
  ByteMem.store 8 0x1010 2 (ByteMem.store 8 0x1008 1 (foldr (λ l mem, with_string (service_lit l) l mem) (λ _, 0) messages)).

Definition string_there (mem : Z → Z) (a : Z) (l : list Z) : bool :=
  forallb (λ '(i, c), (mem (a + Z.of_nat i) =? c) && negb (c =? 0)) (imap pair l) && (mem (a + Z.of_nat (length l)) =? 0).

Lemma string_there_spec mem a l : string_there mem a l = true → cstring mem a l.
Proof.
  intros [H1 H2]%andb_prop. split; [|by apply Z.eqb_eq]. intros i c Hi. rewrite forallb_forall in H1.
  specialize (H1 (i, c)). rewrite <-list_elem_of_In in H1. cbv beta iota in H1.
  destruct (andb_prop _ _ (H1 ltac:(apply list_elem_of_lookup_2 with i; by rewrite list_lookup_imap, Hi))) as [E1 E2].
  split; [by apply Z.eqb_eq|]. apply negb_true_iff in E2. by apply Z.eqb_neq.
Qed.

Lemma service_image_ok : service_image 200 0x7FFFFFFE0000 service_lit service_caps.2 0x1000 service_mem.
Proof.
  split.
  - lia.
  - assert (forallb (λ l, string_there service_mem (service_lit l) l && (length l <? 200)%nat &&
      (service_lit l + Z.of_nat (length l) <? 0x7FFFFFFE0000)) messages = true) as H by (vm_compute; reflexivity).
    rewrite forallb_forall in H. intros l Hl%list_elem_of_In. destruct (andb_prop _ _ (H l Hl)) as [[H1 H2]%andb_prop H3].
    apply Nat.ltb_lt in H2. apply Z.ltb_lt in H3.
    split; [by apply string_there_spec|]. split; [done|]. split; [unfold INT_MAX; lia|by left].
  - vm_compute. done.
  - left. vm_compute. discriminate.
Qed.

Lemma ref_page_alloc p mem :
  (ref_place p 0 + block_bytes 0 <=? REF_LIMIT) = true →
  ∃ m', page_alloc (p, mem) 0 SAFE_KERNEL_PAGES = Ret (m', Some (ref_place p 0)) ∧ rp_next m'.1 = ref_place p 0 + block_bytes 0.
Proof.
  intros H. unfold page_alloc, heap_source. cbn [hp_alloc ref_heap]. unfold ref_alloc. rewrite H. cbn [mbind outcome_bind].
  eexists. split; [reflexivity|done].
Qed.

Lemma service_never_stops e : ¬ service_stops service_kernel service_task e.
Proof.
  destruct (ref_page_alloc service_pages.1 service_pages.2 eq_refl) as ([p1 mem1] & E1 & Hp1). cbn [fst] in Hp1.
  assert (ref_place p1 0 + block_bytes 0 <=? REF_LIMIT = true) as H2 by (unfold ref_place; rewrite Hp1; reflexivity).
  destruct (ref_page_alloc p1 mem1 H2) as ([p2 mem2] & E2 & _).
  change (page_alloc _ _ _) with (page_alloc (k_mem service_kernel) 0 SAFE_KERNEL_PAGES) in E1.
  intros [(_ & m' & E)|(m1 & f1 & E & _ & v & _ & H)]; rewrite E1 in E; [discriminate E|].
  injection E as <- _. destruct H as [(m2 & E)|(m2 & f & pt & m3 & e' & _ & Em)]; [rewrite E2 in E; discriminate E|].
  unfold map_single_page in Em. cbn [map_to ref_x86] in Em. unfold ref_map_to in Em. simpl in Em. rewrite lookup_empty in Em. discriminate Em.
Qed.

Lemma init_service_runs_witness :
  wp (server_start REF_HHDM 0 0 200 0x7FFFFFFE0000 service_lit (λ _, regs_default) 0x1000 service_mem (λ _, 0) service_kernel)
    (λ '(_, ram', k', e), e = Served ∧ ∃ f1 f2 h, numeral hex_digits f1 h ∧ k_console k' = server_report h ∧ load 8 ram' f2 = 0xDEADBEEF).
Proof.
  assert (first_task 0 5 service_caps.2 service_kernel service_task) as Hf.
  { split; [eexists; split; reflexivity|split; [reflexivity|apply lookup_singleton_eq]|].
    exists table_new. split; [eexists _, _; apply table_inv_new|vm_compute; reflexivity]. }
  assert (untouched (addr_space service_task)) as Hu.
  { split; [split; intros *; cbn; by rewrite lookup_empty|]. split; [intros x v; cbn; by rewrite lookup_empty|reflexivity]. }
  assert (since REF_HHDM ∅ (λ _, 0) (k_mem service_kernel) ∅) as Hout.
  { apply since_refl. split; [vm_compute; split; discriminate|done|done]. }
  pose proof (init_service_runs (PageSourceLaws0 := relative_laws REF_HHDM ∅ (λ _, 0)) REF_HHDM 0 0 200 0x7FFFFFFE0000 service_lit
    (λ _, regs_default) 5 service_caps.2 0x1000 service_mem (λ _, 0) service_kernel service_task ∅ Hf Hu Hout service_image_ok) as H.
  clear Hf Hu Hout. revert H.
  generalize (server_start REF_HHDM 0 0 200 0x7FFFFFFE0000 service_lit (λ _, regs_default) 0x1000 service_mem (λ _, 0) service_kernel).
  intros [[[[mem' ram'] k'] e]|e|] H; [|exact (service_never_stops e H)|exact H].
  destruct H as (He & f1 & f2 & Hd). split; [exact He|]. destruct (sd_console _ _ _ _ _ _ _ _ _ _ _ _ _ _ Hd) as (h & Hn & Hc). exists f1, f2, h.
  split; [exact Hn|]. split; [exact Hc|]. exact (proj1 (sd_frame _ _ _ _ _ _ _ _ _ _ _ _ _ _ Hd)).
Defined.
