(* ===== verification/KernelSpec.v ===== *)
(** * The kernel as a whole: invariant

    Scheduler, IPC, capabilities and system calls together.  A task is either
    in user mode, or suspended inside a system call with its registers on its
    kernel stack.  The invariant ties the components: a task waiting at an
    endpoint is asleep inside a receive, a task with a message in its mailbox
    is awake inside a receive, and only sleepers have a wake-up time. *)
From S2P Require Import Prelude Misc Memblock Frame Sparsemem Zones Paging AddrSpace KernelStacks.
From S2P Require Import Objects ObjectsSpec Endpoints EndpointsSpec Runqueue RunqueueSpec.
From S2P Require Import Sched SchedSpec SchedOps SchedLoops Syscalls SyscallsSpec.
#[local] Open Scope Z_scope.

Section kernel.
Context {PT M : Type} `{!X86_64 PT} `{!PageSource M} `{!PageSourceLaws M}.
Implicit Types (k : Kernel PT M) (t u : Task PT) (s : Sched PT) (c : ExecCpu PT).

(** The tasks suspended in the kernel, by id, and the messages handed over and
    taken so far, with their receivers. *)
Record machine := mk_machine {
  m_kernel : Kernel PT M;
  m_frames : gmap Z (after * TaskRegisters);
  m_sent : list (Z * FastMessage);
  m_taken : list (Z * FastMessage)
}.

Definition tasks k : gmap Z (Task PT) := heap (k_sched k).
Definition mail k : gmap Z FastMessage := pending_messages (k_ipc k).

(** The part of the invariant that relates tasks, mailboxes and queues. *)
Record linked (h : gmap Z (Task PT)) (ipc : IpcManager) (fr : gmap Z (after * TaskRegisters)) : Prop := {
  lk_waiting : ∀ id, id ∈ all_waiting ipc → ∃ r, fr !! id = Some (AfterRecv, r);
  lk_asleep : ∀ p t, h !! p = Some t → t_id t ∈ all_waiting ipc → task_state t = TaskState.Sleep;
  lk_mailed : ∀ id msg, pending_messages ipc !! id = Some msg →
    (∃ r, fr !! id = Some (AfterRecv, r)) ∧ length (msg_data msg) = 4%nat;
  lk_awake : ∀ p t, h !! p = Some t → is_Some (pending_messages ipc !! t_id t) → task_state t ≠ TaskState.Sleep;
  lk_recv : ∀ p t r, h !! p = Some t → fr !! t_id t = Some (AfterRecv, r) →
    task_state t = TaskState.Sleep ∨ is_Some (pending_messages ipc !! t_id t);
  lk_wake : ∀ p t, h !! p = Some t → wake_at_tick t ≠ 0 →
    task_state t = TaskState.Sleep ∧ ∃ r, fr !! t_id t = Some (AfterSleep, r)
}.

Record kinv (hhdm n : Z) (st : machine) : Prop := {
  ki_sched : sched_inv hhdm n (k_sched (m_kernel st));
  ki_mail : mail_inv (k_ipc (m_kernel st), m_sent st, m_taken st);
  ki_table : table_ok (k_objects (m_kernel st));
  ki_caps : ∀ p t, tasks (m_kernel st) !! p = Some t → cnode_ok (k_objects (m_kernel st)) (cnode t);
  ki_mem : ∃ B, pages_out (k_mem (m_kernel st)) B;
  ki_frames : ∀ id f, m_frames st !! id = Some f → is_Some (task_table (k_sched (m_kernel st)) !! id);
  ki_linked : linked (tasks (m_kernel st)) (k_ipc (m_kernel st)) (m_frames st)
}.

(** ** Steps of one component *)

Lemma linked_tasks h h' ipc fr :
  (∀ p t', h' !! p = Some t' → ∃ t, h !! p = Some t ∧ t_id t' = t_id t ∧ wake_at_tick t' = wake_at_tick t ∧
    (task_state t' = TaskState.Sleep ↔ task_state t = TaskState.Sleep)) →
  linked h ipc fr → linked h' ipc fr.
Proof.
  intros Hback [Hw Ha Hm Hk Hr Hs]. split; try done.
  - intros p t' (t & Ht & Ei & _ & Es)%Hback. rewrite Ei. intros Hin. apply Es. by eapply Ha.
  - intros p t' (t & Ht & Ei & _ & Es)%Hback. rewrite Ei. intros Hin. rewrite Es. by eapply Hk.
  - intros p t' r (t & Ht & Ei & _ & Es)%Hback. rewrite Ei, Es. by apply (Hr p).
  - intros p t' (t & Ht & Ei & Ew & Es)%Hback. rewrite Ei, Ew, Es. by apply (Hs p).
Qed.

Lemma linked_quiet h h' ipc fr : heap_quiet h h' → linked h ipc fr → linked h' ipc fr.
Proof.
  intros Hq. apply linked_tasks. intros p t' Ht'. specialize (Hq p). rewrite Ht' in Hq.
  inversion Hq as [t ? ((Ei & _) & _ & Ew & Es)|]; subst. by exists t.
Qed.

Lemma kinv_quiet hhdm n n' k fr sent taken s' :
  kinv hhdm n (mk_machine k fr sent taken) → sched_inv hhdm n' s' →
  task_table s' = task_table (k_sched k) → heap_quiet (tasks k) (heap s') →
  kinv hhdm n' (mk_machine (with_sched s' k) fr sent taken).
Proof.
  intros [H1 H2 H3 H4 H5 H6 H7] Hs' Et Hq. simpl in *. split; simpl; try done.
  - intros p t' Ht'. unfold tasks in *. simpl in *. specialize (Hq p). rewrite Ht' in Hq.
    inversion Hq as [t ? (_ & Ec & _) E|]; subst. rewrite Ec. by eapply (H4 p).
  - rewrite Et. done.
  - by eapply linked_quiet.
Qed.

Lemma kinv_mem hhdm n k fr sent taken m' B :
  kinv hhdm n (mk_machine k fr sent taken) → pages_out m' B →
  kinv hhdm n (mk_machine (with_mem m' k) fr sent taken).
Proof. intros [H1 H2 H3 H4 H5 H6 H7] HB. split; simpl in *; try done. by exists B. Qed.

(** ** The running task *)

(** Task [t] runs in user mode on CPU [me]. *)
Record runs_on k (fr : gmap Z (after * TaskRegisters)) (me : nat) c t : Prop := {
  ro_cpu : cpus (k_sched k) !! me = Some c;
  ro_curr : curr_task c ≠ 0;
  ro_task : tasks k !! curr_task c = Some t;
  ro_user : fr !! t_id t = None
}.

Lemma current_facts hhdm n k fr sent taken me c :
  kinv hhdm n (mk_machine k fr sent taken) → cpus (k_sched k) !! me = Some c → curr_task c ≠ 0 →
  ∃ t, tasks k !! curr_task c = Some t ∧ task_state t = TaskState.Running ∧
    current_id k me = Ret (t_id t) ∧ lookup_task k (t_id t) = Ret (Some (curr_task c, t)).
Proof.
  intros Hk Hi Hc. pose proof (ki_sched _ _ _ Hk) as Hs. simpl in Hs.
  destruct (current_at _ _ _ _ _ Hs Hi Hc) as [_ (t & Ht & Eid & Hst)]. exists t.
  split; [done|]. split; [done|]. unfold current_id. rewrite (cpu_eq _ _ _ Hi). simpl. rewrite Eid.
  split; [done|]. unfold lookup_task, get_task_by_index, deref.
  rewrite (co_table _ _ _ _ _ (sc_core _ _ _ Hs) _ _ Ht), Ht. done.
Qed.

Lemma runs_on_facts hhdm n k fr sent taken me c t :
  kinv hhdm n (mk_machine k fr sent taken) → runs_on k fr me c t →
  task_state t = TaskState.Running ∧ current_id k me = Ret (t_id t) ∧
  lookup_task k (t_id t) = Ret (Some (curr_task c, t)) ∧
  t_id t ∉ all_waiting (k_ipc k) ∧ mail k !! t_id t = None.
Proof.
  intros Hk [Hi Hc Ht Hu]. destruct (current_facts _ _ _ _ _ _ _ _ Hk Hi Hc) as (t' & Ht' & Hst & E1 & E2).
  simplify_eq. split; [done|]. split; [done|]. split; [done|]. destruct Hk as [_ _ _ _ _ _ [Hw _ Hm _ _ _]]. simpl in *.
  split.
  - intros [r Hr]%Hw. congruence.
  - destruct (mail k !! t_id t) as [msg|] eqn:E; [|done]. destruct (Hm _ _ E) as [[r Hr] _]. congruence.
Qed.

(** ** Sending *)

(** The messages a step puts into mailboxes. *)
Definition new_mail k k' : list (Z * FastMessage) := map_to_list (mail k' ∖ mail k).

Lemma new_mail_same k k' : mail k' = mail k → new_mail k k' = [].
Proof. intros E. unfold new_mail. by rewrite E, map_difference_diag, map_to_list_empty. Qed.

Lemma new_mail_insert k k' x msg :
  mail k !! x = None → mail k' = <[x:=msg]> (mail k) → new_mail k k' = [(x, msg)].
Proof.
  intros Hx E. unfold new_mail. rewrite E, <-(map_to_list_singleton x msg). f_equal. apply map_eq. intros y.
  apply option_eq. intros m. rewrite lookup_difference_Some, lookup_singleton_Some, lookup_insert_Some.
  split; [intros [[?|[? ?]] ?]; [done|congruence]|]. intros [-> ->]. auto.
Qed.

(** What handing a message to the endpoint [ep] can affect. *)
Record message_sent k k' (ep : Z) : Prop := {
  ms_objects : k_objects k' = k_objects k;
  ms_mem : k_mem k' = k_mem k;
  ms_cpus : cpus (k_sched k') = cpus (k_sched k);
  ms_table : task_table (k_sched k') = task_table (k_sched k);
  ms_queues : ∀ ep', ep' ≠ ep → waiting (k_ipc k') ep' = waiting (k_ipc k) ep';
  ms_mail : ∀ x, x ∉ waiting (k_ipc k) ep → mail k' !! x = mail k !! x;
  ms_tasks : tasks k' = tasks k ∨ ∃ q u, tasks k !! q = Some u ∧ task_state u = TaskState.Sleep ∧
    t_id u ∈ waiting (k_ipc k) ep ∧ tasks k' = <[q:=with_state TaskState.Ready u]> (tasks k)
}.

(** Waking the receiver [x] that waited first. *)
Lemma linked_wake h ipc ipc' fr x q u msg ep l :
  linked h ipc fr → NoDup (all_waiting ipc) → endpoint_updated ipc ipc' ep (x :: l) l →
  pending_messages ipc' = <[x:=msg]> (pending_messages ipc) → length (msg_data msg) = 4%nat →
  h !! q = Some u → t_id u = x → (∀ p t, h !! p = Some t → t_id t = x → p = q) →
  linked (<[q:=with_state TaskState.Ready u]> h) ipc' fr.
Proof.
  intros [Hw Ha Hm Hk Hr Hs] Hnd [_ _ _ _ Hall] Ep Hmsg Hq Hx Huniq.
  assert (all_waiting ipc ≡ₚ x :: all_waiting ipc') as Hperm.
  { apply (Permutation_app_inv_r l). rewrite <-Hall. simpl. by rewrite Permutation_middle. }
  assert (x ∉ all_waiting ipc') as Hx' by (rewrite Hperm in Hnd; by apply NoDup_cons in Hnd as [? _]).
  split.
  - intros id Hid. apply Hw. rewrite Hperm. by right.
  - intros p t [[<- <-]|[Hne Ht]]%lookup_insert_Some; simpl; [congruence|].
    intros Hin. eapply Ha; [done|]. rewrite Hperm. by right.
  - intros id m. rewrite Ep. intros [[<- <-]|[Hne Hid]]%lookup_insert_Some; [|by apply Hm].
    split; [|done]. apply Hw. rewrite Hperm. by left.
  - intros p t [[<- <-]|[Hne Ht]]%lookup_insert_Some; [done|]. rewrite Ep.
    rewrite lookup_insert_ne; [by eapply Hk|]. intros E. apply Hne. symmetry. by apply (Huniq p t).
  - intros p t r [[<- <-]|[Hne Ht]]%lookup_insert_Some Hf.
    + right. simpl. rewrite Ep, Hx, lookup_insert_eq. by eexists.
    + destruct (Hr p t r Ht Hf) as [?|[m Hpm]]; [by left|right]. rewrite Ep.
      destruct (decide (x = t_id t)) as [->|]; [rewrite lookup_insert_eq|rewrite lookup_insert_ne by done]; by eexists.
  - intros p t [[<- <-]|[Hne Ht]]%lookup_insert_Some; [|by apply (Hs p t)]. simpl. intros Hwk.
    destruct (Hs q u Hq Hwk) as (_ & r & Hf). destruct (Hw x) as [r' Hf']; [rewrite Hperm; by left|]. congruence.
Qed.

Lemma linked_ipc h ipc ipc' fr :
  linked h ipc fr → pending_messages ipc' = pending_messages ipc →
  (∀ x, x ∈ all_waiting ipc' → x ∈ all_waiting ipc) → linked h ipc' fr.
Proof.
  intros [Hw Ha Hm Hk Hr Hs] Ep Hall. split; rewrite ?Ep; try done.
  - intros id Hid. by apply Hw, Hall.
  - intros p t Ht Hin. eapply Ha; [done|]. by apply Hall.
Qed.

Lemma kinv_ipc hhdm n k fr sent taken ipc' sent' :
  kinv hhdm n (mk_machine k fr sent taken) → mail_inv (ipc', sent', taken) →
  linked (tasks k) ipc' fr → kinv hhdm n (mk_machine (with_ipc ipc' k) fr sent' taken).
Proof. intros [H1 H2 H3 H4 H5 H6 H7] Hm Hl. split; simpl in *; done. Qed.

Lemma waiting_task hhdm n k fr sent taken x :
  kinv hhdm n (mk_machine k fr sent taken) → x ∈ all_waiting (k_ipc k) →
  ∃ q u, task_table (k_sched k) !! x = Some q ∧ tasks k !! q = Some u ∧ t_id u = x ∧
    task_state u = TaskState.Sleep.
Proof.
  intros Hk Hx. destruct (lk_waiting _ _ _ (ki_linked _ _ _ Hk) _ Hx) as [r Hr].
  destruct (ki_frames _ _ _ Hk _ _ Hr) as [q Hq]. simpl in *.
  destruct (co_named _ _ _ _ _ (sc_core _ _ _ (ki_sched _ _ _ Hk)) _ _ Hq) as (u & Hu & Eu).
  exists q, u. split; [done|]. split; [done|]. split; [done|].
  eapply (lk_asleep _ _ _ (ki_linked _ _ _ Hk)); [done|]. simpl. by rewrite Eu.
Qed.

Lemma send_message_spec hhdm n k fr sent taken id ep msg :
  kinv hhdm n (mk_machine k fr sent taken) → length (msg_data msg) = 4%nat →
  wp (send_message k id ep msg) (λ '(k', r),
    kinv hhdm n (mk_machine k' fr (new_mail k k' ++ sent) taken) ∧ message_sent k k' ep ∧
    match r with
    | None => ∃ x l, waiting (k_ipc k) ep = x :: l ∧ waiting (k_ipc k') ep = l ∧ mail k' !! x = Some msg
    | Some e => waiting (k_ipc k) ep = [] ∧ mail k' = mail k
    end).
Proof.
  intros Hk Hmsg. pose proof (ki_mail _ _ _ Hk) as Hmail. simpl in Hmail. unfold send_message.
  destruct (wp_elim _ _ (handle_send_spec (k_ipc k) id ep msg (mv_ok _ Hmail))) as ([ipc' r] & E & Hok & Hr).
  destruct (mail_inv_send _ _ _ _ _ _ _ _ Hmail E) as [Hmail' Hempty].
  rewrite E. cbn [mbind outcome_bind]. destruct r as [x| | | |err]; try done.
  - destruct Hr as [Ep [l Hu]]. pose proof Hu as [Ebef Eaft Eoth _ Hall].
    assert (x ∈ all_waiting (k_ipc k)) as Hx.
    { assert (x ∈ all_waiting ipc' ++ x :: l) as Hin by set_solver. rewrite Hall in Hin.
      assert (all_waiting (k_ipc k) ≡ₚ x :: all_waiting ipc') as ->; [|by left].
      apply (Permutation_app_inv_r l). rewrite <-Hall. simpl. by rewrite Permutation_middle. }
    destruct (waiting_task _ _ _ _ _ _ _ Hk Hx) as (q & u & Hq & Hqu & Eu & Hst).
    cbn [k_sched with_ipc]. unfold get_task_by_index. rewrite Hq.
    destruct (awaken_task_spec hhdm n (k_sched k) q u (ki_sched _ _ _ Hk) Hqu Hst)
      as (s' & Es & Hs' & Eh & Et & Eg & Ec).
    rewrite Es. cbn [mbind outcome_bind]. apply wp_ret.
    assert (new_mail k (with_sched s' (with_ipc ipc' k)) = [(x, msg)]) as ->.
    { apply new_mail_insert; [by apply Hempty|done]. }
    split; [|split].
    + destruct Hk as [H1 H2 H3 H4 H5 H6 H7]. simpl in *. split; simpl; try done.
      * intros p t. unfold tasks. simpl. rewrite Eh.
        intros [[<- <-]|[_ Ht]]%lookup_insert_Some; [by apply (H4 q u)|by apply (H4 p t)].
      * by rewrite Et.
      * unfold tasks. simpl. rewrite Eh. eapply linked_wake; try done; [apply H2|].
        intros p t Ht Eid. apply (id_unique _ _ _ _ _ _ _ H1 Ht Hqu). congruence.
    + split; try done; simpl.
      * intros y Hy. unfold mail. simpl. rewrite Ep, lookup_insert_ne; [done|]. intros <-. apply Hy. rewrite Ebef. by left.
      * right. exists q, u. rewrite Eu, Ebef. split; [done|]. split; [done|]. split; [by left|]. exact Eh.
    + exists x, l. split; [done|]. split; [done|]. unfold mail. simpl. by rewrite Ep, lookup_insert_eq.
  - destruct Hr as [Ep [Ebef Eaft Eoth _ Hall]]. rewrite !app_nil_r in Hall. apply wp_ret.
    rewrite (new_mail_same k (with_ipc ipc' k)) by done. split; [|split; [split; try done|done]].
    + eapply kinv_ipc; [done|done|]. eapply linked_ipc; [apply Hk|done|]. intros y. by rewrite Hall.
    + intros y _. unfold mail. simpl. by rewrite Ep.
    + by left.
  - destruct Hr as (-> & -> & Hno). apply wp_ret.
    rewrite (new_mail_same k (with_ipc (k_ipc k) k)) by done.
    split; [|split; [split; try done; by left|]].
    + eapply kinv_ipc; [done|done|apply Hk].
    + split; [|done]. unfold waiting. destruct (get_endpoint _ ep) eqn:Eg; [|done].
      exfalso. apply Hno. by eexists.
Qed.

(** ** Suspending and resuming *)

(** Task [t] goes to sleep inside a system call. *)
Lemma linked_suspend h ipc ipc' fr p t t' a r :
  linked h ipc fr → h !! p = Some t → t_id t' = t_id t → task_state t' = TaskState.Sleep →
  (∀ q u, h !! q = Some u → t_id u = t_id t → q = p) →
  t_id t ∉ all_waiting ipc → pending_messages ipc !! t_id t = None →
  pending_messages ipc' = pending_messages ipc →
  (∀ x, x ∈ all_waiting ipc' → x ∈ all_waiting ipc ∨ x = t_id t ∧ a = AfterRecv) →
  (wake_at_tick t' ≠ 0 → a = AfterSleep) →
  linked (<[p:=t']> h) ipc' (<[t_id t:=(a, r)]> fr).
Proof.
  intros [Hw Ha Hm Hk Hr Hs] Hp Eid Hst Huniq Hnw Hnm Ep Hall Hwk. rewrite <-Eid in *.
  assert (∀ q u, q ≠ p → h !! q = Some u → t_id u ≠ t_id t') as Hoth by (intros q u Hne Hu E; by apply Hne, (Huniq q u)).
  split.
  - intros id [Hid|[-> ->]]%Hall; [|rewrite lookup_insert_eq; by eexists].
    rewrite lookup_insert_ne by (intros <-; done). by apply Hw.
  - intros q u [[<- <-]|[Hne Hu]]%lookup_insert_Some; [done|]. intros [Hin|[E _]]%Hall; [by apply (Ha q)|].
    exfalso. by apply (Hoth q u).
  - intros id m. rewrite Ep. intros Hid. rewrite lookup_insert_ne by (intros <-; congruence). by apply Hm.
  - intros q u. rewrite Ep. intros [[<- <-]|[Hne Hu]]%lookup_insert_Some; [intros [? ?]; congruence|by apply (Hk q)].
  - intros q u r'. rewrite Ep. intros [[<- <-]|[Hne Hu]]%lookup_insert_Some; [by left|].
    rewrite lookup_insert_ne by (intros E; by apply (Hoth q u)). by apply (Hr q).
  - intros q u [[<- <-]|[Hne Hu]]%lookup_insert_Some Hu0.
    + split; [done|]. rewrite lookup_insert_eq, Hwk by done. by eexists.
    + rewrite lookup_insert_ne by (intros E; by apply (Hoth q u)). by apply (Hs q).
Qed.

(** Task [t], awake, leaves the system call it was suspended in. *)
Lemma linked_resume h ipc ipc' fr p t a r :
  linked h ipc fr → h !! p = Some t → task_state t ≠ TaskState.Sleep → fr !! t_id t = Some (a, r) →
  (∀ q u, h !! q = Some u → t_id u = t_id t → q = p) →
  all_waiting ipc' = all_waiting ipc → pending_messages ipc' = delete (t_id t) (pending_messages ipc) →
  linked h ipc' (delete (t_id t) fr).
Proof.
  intros [Hw Ha Hm Hk Hr Hs] Hp Hst Hf Huniq Eall Ep.
  assert (t_id t ∉ all_waiting ipc) as Hnw by (intros Hin; apply Hst; by apply (Ha p t)).
  split; rewrite ?Eall, ?Ep; try done.
  - intros id Hid. rewrite lookup_delete_ne by (intros <-; done). by apply Hw.
  - intros id m [Hne Hid]%lookup_delete_Some. rewrite lookup_delete_ne by done. by apply Hm.
  - intros q u Hu [m Hmu]. apply lookup_delete_Some in Hmu as [_ Hmu]. eapply Hk; [done|by eexists].
  - intros q u r' Hu [Hne Hfu]%lookup_delete_Some. rewrite lookup_delete_ne by done. by apply (Hr q u r').
  - intros q u Hu Hwk. destruct (Hs q u Hu Hwk) as (Hsl & r' & Hfu). split; [done|].
    rewrite lookup_delete_ne; [by exists r'|]. intros E. rewrite (Huniq q u Hu) in Hu by done. congruence.
Qed.

(** What queueing the current task at [ep] can affect. *)
Record receive_begun k k' (ep p : Z) (t : Task PT) : Prop := {
  rb_objects : k_objects k' = k_objects k;
  rb_mem : k_mem k' = k_mem k;
  rb_cpus : length (cpus (k_sched k')) = length (cpus (k_sched k));
  rb_mail : mail k' = mail k;
  rb_queues : ∀ ep', ep' ≠ ep → waiting (k_ipc k') ep' = waiting (k_ipc k) ep';
  rb_tasks : tasks k' = tasks k ∨ ∃ sp, tasks k' = <[p:=with_saved_rsp sp (with_state TaskState.Sleep t)]> (tasks k)
}.

Lemma kinv_unique hhdm n k fr sent taken p q t u :
  kinv hhdm n (mk_machine k fr sent taken) → tasks k !! p = Some t → tasks k !! q = Some u → t_id u = t_id t → q = p.
Proof. intros Hk Ht Hu E. eapply id_unique; [apply (ki_sched _ _ _ Hk)|done|done|done]. Qed.

Lemma kinv_block hhdm n k fr sent taken me c t sp ipc' ep l :
  kinv hhdm n (mk_machine k fr sent taken) → runs_on k fr me c t →
  mail_inv (ipc', sent, taken) → pending_messages ipc' = mail k →
  endpoint_updated (k_ipc k) ipc' ep l (l ++ [t_id t]) →
  wp (block_current_on_ipc hhdm me sp (k_sched k)) (λ s',
    receive_begun k (with_sched s' (with_ipc ipc' k)) ep (curr_task c) t ∧
    ∀ r, kinv hhdm n (mk_machine (with_sched s' (with_ipc ipc' k)) (<[t_id t:=(AfterRecv, r)]> fr) sent taken)).
Proof.
  intros Hk Hro Hmail' Ep [Ebef Eaft Eoth _ Hall].
  destruct (runs_on_facts _ _ _ _ _ _ _ _ _ Hk Hro) as (Hst & _ & _ & Hnw & Hnm). destruct Hro as [Hi Hc Ht Hu].
  eapply wp_mono; [by apply (block_current_on_ipc_spec hhdm n (k_sched k) me c sp (ki_sched _ _ _ Hk))|].
  intros s' (Hs' & t0 & Ht0 & Eh & Et & El). unfold tasks in Ht. rewrite Ht in Ht0. injection Ht0 as <-. split.
  { split; try done. right. by exists sp. }
  intros r.
  assert (∀ q u, tasks k !! q = Some u → t_id u = t_id t → q = curr_task c) as Huniq by (intros q u; by eapply kinv_unique).
  destruct Hk as [H1 H2 H3 H4 H5 H6 H7].
  simpl in *. split; simpl; try done.
  - intros p u. unfold tasks. simpl. rewrite Eh.
    intros [[<- <-]|[_ Hu']]%lookup_insert_Some; [by apply (H4 (curr_task c) t)|by apply (H4 p u)].
  - rewrite Et. intros id f [[<- _]|[_ Hf]]%lookup_insert_Some; [|by eapply H6].
    rewrite (co_table _ _ _ _ _ (sc_core _ _ _ H1) _ _ Ht). by eexists.
  - unfold tasks. simpl. rewrite Eh. eapply linked_suspend; try done.
    + intros x Hx. assert (x ∈ all_waiting ipc' ++ l) as Hx' by set_solver. rewrite Hall in Hx'.
      assert (all_waiting ipc' ≡ₚ t_id t :: all_waiting (k_ipc k)) as Hperm.
      { apply (Permutation_app_inv_r l). rewrite Hall, app_assoc. by rewrite <-Permutation_cons_append. }
      rewrite Hperm in Hx. apply elem_of_cons in Hx as [->|?]; auto.
    + intros Hwk. destruct (lk_wake _ _ _ H7 _ _ Ht Hwk) as (? & _). congruence.
Qed.

Lemma recv_message_spec hhdm n k fr sent taken me c t sp ep :
  kinv hhdm n (mk_machine k fr sent taken) → runs_on k fr me c t →
  wp (recv_message hhdm me sp k (t_id t) ep) (λ '(k', v), receive_begun k k' ep (curr_task c) t ∧
    match v with
    | Suspends a => a = AfterRecv ∧ ∀ r, kinv hhdm n (mk_machine k' (<[t_id t:=(AfterRecv, r)]> fr) sent taken)
    | Returns v => kinv hhdm n (mk_machine k' fr sent taken)
    end).
Proof.
  intros Hk Hro. pose proof (ki_mail _ _ _ Hk) as Hmail. simpl in Hmail.
  destruct (runs_on_facts _ _ _ _ _ _ _ _ _ Hk Hro) as (_ & _ & _ & Hnw & Hnm).
  unfold recv_message, recv_enqueue.
  destruct (wp_elim _ _ (handle_recv_spec (k_ipc k) (t_id t) ep (mv_ok _ Hmail))) as ([ipc' r] & E & Hok & Ep & Hr).
  pose proof (mail_inv_recv _ _ _ _ _ _ _ Hmail Hnw Hnm E) as Hmail'.
  rewrite E. cbn [mbind outcome_bind].
  assert ((∀ x, x ∈ all_waiting ipc' → x ∈ all_waiting (k_ipc k)) → kinv hhdm n (mk_machine (with_ipc ipc' k) fr sent taken)) as Hsame.
  { intros Hall. eapply kinv_ipc; [done|done|]. eapply linked_ipc; [apply Hk|done|done]. }
  destruct r as [| | | |err]; try done.
  - destruct Hr as [l Hu]. cbn [mbind outcome_bind k_sched with_ipc]. apply wp_bind.
    eapply wp_mono; [by apply (kinv_block hhdm n k fr sent taken me c t sp ipc' ep l)|].
    intros s' [Hb Hk']. apply wp_ret. done.
  - cbn [mbind outcome_bind]. apply wp_ret. destruct err;
      try (destruct Hr as (_ & -> & _); split; [split; try done; by left|by apply Hsame]).
    destruct Hr as [l [Ebef Eaft Eoth _ Hall]]. split; [split; try done; by left|]. apply Hsame.
    intros x. assert (all_waiting ipc' ≡ₚ all_waiting (k_ipc k)) as -> by by apply (Permutation_app_inv_r l). done.
Qed.
End kernel.
Arguments machine : clear implicits.
