(* ===== verification/KernelSteps.v ===== *)
(** * The kernel as a whole: every step preserves the invariant *)
From S2P Require Import Prelude Misc Memblock Frame Sparsemem Zones Paging AddrSpace AddrSpaceSpec KernelStacks.
From S2P Require Import Objects ObjectsSpec Endpoints EndpointsSpec Runqueue RunqueueSpec.
From S2P Require Import Sched SchedSpec SchedOps SchedLoops Syscalls SyscallsSpec KernelSpec.
#[local] Open Scope Z_scope.

Section steps.
Context {PT M : Type} `{!X86_64 PT, !X86_64Laws PT} `{!PageSource M, !PageSourceLaws M}.
Implicit Types (k : Kernel PT M) (t u : Task PT) (s : Sched PT) (c : ExecCpu PT) (a : AddrSpace PT).

(** ** Address spaces keep their top-level table *)

Definition root a : Z := level_4_table (page_table a).

Lemma halts_virt_new x : halts (virt_new x).
Proof. unfold halts. rewrite virt_new_law. by case_bool_decide. Qed.

Lemma halts_phys_new x : halts (phys_new x).
Proof. unfold halts. rewrite phys_new_law. by case_bool_decide. Qed.

Lemma halts_nth_page x i : halts (nth_page x i).
Proof.
  apply halts_bind; [|intros; apply halts_add64]. unfold halts, mul64. by destruct (_ <=? _).
Qed.

Lemma halts_page_va v i : halts (page_va v i).
Proof. apply halts_bind; [apply halts_nth_page|intros; apply halts_virt_new]. Qed.

Lemma halts_page_pa x i : halts (page_pa x i).
Proof. apply halts_bind; [apply halts_nth_page|intros; apply halts_phys_new]. Qed.

Lemma halts_vma_end v : halts (vma_end v).
Proof. apply halts_bind; [apply halts_add64|intros; apply halts_virt_new]. Qed.

Lemma halts_find_overlapping a v : halts (find_overlapping a v).
Proof.
  apply halts_bind; [apply halts_vma_end|]. intros e. destruct (last_entry _ _) as [[? w]|]; [|done].
  apply halts_bind; [|done]. apply halts_bind; [apply halts_vma_end|]. intros x.
  destruct (_ <? _); [|done]. by apply halts_bind; [apply halts_vma_end|].
Qed.

Lemma halts_as_find a addr : halts (as_find a addr).
Proof.
  unfold as_find. destruct (last_entry _ _) as [[? w]|]; [|done]. apply halts_bind; [|done].
  unfold vma_contains. destruct (_ <=? _); [|done]. by apply halts_bind; [apply halts_vma_end|].
Qed.

Lemma as_map_reserved_root a (m : M) va size flags :
  post (as_map a m va size Reserved flags) (λ '(a', m', _), root a' = root a ∧ m' = m) (λ _, True).
Proof.
  unfold as_map. destruct (_ || _); [done|]. eapply post_bind_post; [apply halts_find_overlapping|].
  intros [v|] _; [done|]. eapply (post_bind_post _ _ (λ '(pt, m', _), pt = page_table a ∧ m' = m)).
  - unfold map_in_page_table. cbn [v_backing v_flags].
    eapply (post_bind_post _ _ (λ r, match r with inl (pt, m') => pt = page_table a ∧ m' = m | inr _ => False end)).
    + apply (post_for_each_ret _ _ _ (λ '(pt, m'), pt = page_table a ∧ m' = m)); [done| |by intros [? ?]].
      intros i [pt m'] _ [-> ->]. by eapply post_bind_post; [apply halts_page_va|].
    + by intros [[pt m']|[[pt m'] e]].
  - intros [[pt m'] [?|?]] [-> ->]; done.
Qed.

Lemma as_unmap_root a va : post (as_unmap a va) (λ '(a', _), root a' = root a) (λ _, True).
Proof.
  unfold as_unmap. destruct (vmas a !! va) as [v|]; [|done].
  eapply (post_bind_post _ _ (λ r, match r with inl pt | inr (pt, _) => level_4_table pt = root a end)).
  - apply (post_for_each_ret _ _ _ (λ pt, level_4_table pt = root a)); [done| |done].
    intros i pt _ Hpt. eapply post_bind_post; [apply halts_page_va|]. intros x _.
    destruct (unmap_single_page pt x) as [pt' r] eqn:E. apply unmap_single_page_spec in E as [E _].
    destruct (v_backing v), r; simpl; congruence.
  - by intros [pt|[pt e]].
Qed.

Definition pages_kept (m : M) : Prop := ∃ B, pages_out m B.

Lemma pages_kept_grown B (m : M) : grown B m → pages_kept m.
Proof. intros (B' & _ & H). by exists B'. Qed.

Lemma as_protect_root a (m : M) va flags :
  pages_kept m →
  post (as_protect a m va flags) (λ '(a', m', _), root a' = root a ∧ pages_kept m') (λ _, True).
Proof.
  intros Hm. unfold as_protect. destruct (vmas a !! va) as [v|]; [|done].
  eapply (post_bind_post _ _ (λ r, match r with inl (pt, m') | inr (pt, m', _) => level_4_table pt = root a ∧ pages_kept m' end)).
  - apply (post_for_each_ret _ _ _ (λ '(pt, m'), level_4_table pt = root a ∧ pages_kept m')); [done| |by intros [? ?]].
    intros i [pt m'] _ [Hpt [B HB]]. eapply post_bind_post; [apply halts_page_va|]. intros x _.
    destruct (v_backing v); [| |split; [done|by exists B]].
    all: eapply post_bind_post; [apply halts_page_pa|]; intros ph _.
    all: destruct (unmap_single_page pt x) as [pt1 [f|e]] eqn:E; apply unmap_single_page_spec in E as [E _].
    all: try (split; [congruence|by exists B]).
    all: eapply post_bind; [apply (map_single_page_spec pt1 m' B _ _ _ HB), bits_present_flags|].
    all: intros [[pt2 m2] r] (Hg & E2 & _); apply pages_kept_grown in Hg; destruct r; simpl; split; congruence || done.
  - by intros [[pt m']|[[pt m'] e]].
Qed.

Lemma page_fault_root a (m : M) addr error :
  pages_kept m →
  post (page_fault a m addr error) (λ '(a', m', _), root a' = root a ∧ pages_kept m') (λ _, True).
Proof.
  intros [B HB]. pose proof (ex_intro (pages_out m) B HB : pages_kept m) as Hm.
  unfold page_fault. destruct (negb _); [done|]. eapply post_bind_post; [apply halts_as_find|].
  intros [v|] _; [|done]. destruct (_ && _); [done|]. destruct (v_backing v); try done.
  eapply post_bind; [by apply (page_alloc_law m B 0)|]. intros [m1 [p|]] Hp; [|done]. simpl.
  eapply post_bind_post; [apply halts_virt_new|]. intros x _.
  eapply post_bind; [apply (map_single_page_spec _ m1 _ _ _ _ (proj2 Hp)), bits_present_flags|].
  intros [[pt2 m2] [?|?]] (Hg & E2 & _); [|done]. simpl. split; [done|]. by eapply pages_kept_grown.
Qed.

(** ** Writing a task *)

Lemma sched_inv_store hhdm n s p t t' :
  sched_inv hhdm n s → heap s !! p = Some t → same_task t t' → task_state t' = task_state t →
  sched_inv hhdm n (store p t' s).
Proof.
  intros [Hc Hcp Hx Ht] Hp Hs Hst. split; simpl; try done.
  - by eapply core_same.
  - eapply context_keep; [|done]. by eapply heap_kept_insert.
Qed.

Lemma kinv_store_space hhdm n k fr sent taken p t a :
  kinv hhdm n (mk_machine k fr sent taken) → tasks k !! p = Some t → root a = root (addr_space t) →
  kinv hhdm n (mk_machine (put_space p t a k) fr sent taken).
Proof.
  intros Hk Ht Hr. eapply (kinv_quiet hhdm n n); [done| |done|].
  - eapply sched_inv_store; [apply (ki_sched _ _ _ Hk)|done|done|done].
  - eapply heap_quiet_insert; [done|]. done.
Qed.

(** ** Memory calls *)

(** What the memory calls of task [t] can affect. *)
Record space_changed k k' (t : Task PT) : Prop := {
  sg_objects : k_objects k' = k_objects k;
  sg_ipc : k_ipc k' = k_ipc k;
  sg_cpus : cpus (k_sched k') = cpus (k_sched k);
  sg_tasks : tasks k' = tasks k ∨ ∃ q u a, tasks k !! q = Some u ∧ tasks k' = <[q:=with_space a u]> (tasks k) ∧
    holds (k_objects k) (cnode t) KernelObjType.VSpace (ObjData.VSpace (t_id u)) R_WRITE
}.

Lemma target_vspace_spec hhdm n k fr sent taken me c t idx :
  kinv hhdm n (mk_machine k fr sent taken) → runs_on k fr me c t →
  post (target_vspace k me idx) (λ r, match r with
    | Ok (q, u) => tasks k !! q = Some u ∧
        holds (k_objects k) (cnode t) KernelObjType.VSpace (ObjData.VSpace (t_id u)) R_WRITE
    | Err e => ∃ err, e = as_syscall_err err
    end) (λ _, True).
Proof.
  intros Hk Hro. destruct (runs_on_facts _ _ _ _ _ _ _ _ _ Hk Hro) as (_ & Eid & Elk & _).
  unfold target_vspace. rewrite Eid. cbn [mbind outcome_bind]. rewrite Elk. cbn [mbind outcome_bind unwrap].
  pose proof (ki_caps _ _ _ Hk _ _ (ro_task _ _ _ _ _ Hro)) as Hn. simpl in Hn.
  eapply post_bind; [by apply resolve_cap_spec; [apply (ki_table _ _ _ Hk)|]|].
  intros [[h rt]|e]; [|intros [-> _]; by eexists]. intros (cap & x & Hg & -> & _).
  rewrite with_object_at by (apply (ki_table _ _ _ Hk) || apply Hg). cbn [mbind outcome_bind].
  pose proof Hg as (_ & _ & _ & _ & Hx & _). rewrite Hx. simpl.
  destruct (obj_data x) as [id| | |] eqn:Hd; simpl; [|by exists CapError.WrongType..].
  unfold lookup_task, get_task_by_index. destruct (task_table (k_sched k) !! id) as [q|] eqn:Hq; [|done].
  destruct (co_named _ _ _ _ _ (sc_core _ _ _ (ki_sched _ _ _ Hk)) _ _ Hq) as (u & Hu & <-). simpl in Hu.
  unfold deref. rewrite Hu. simpl. split; [done|]. rewrite <-Hd. by eapply granting_holds.
Qed.

Lemma kinv_target hhdm n k fr sent taken t q u a m' :
  kinv hhdm n (mk_machine k fr sent taken) → tasks k !! q = Some u →
  holds (k_objects k) (cnode t) KernelObjType.VSpace (ObjData.VSpace (t_id u)) R_WRITE →
  root a = root (addr_space u) → pages_kept m' →
  kinv hhdm n (mk_machine (with_mem m' (put_space q u a k)) fr sent taken) ∧
  space_changed k (with_mem m' (put_space q u a k)) t.
Proof.
  intros Hk Hu Hh Hr [B HB]. split.
  - eapply kinv_mem; [|done]. by apply kinv_store_space.
  - split; try done. right. by exists q, u, a.
Qed.

Lemma kinv_unchanged hhdm n k fr sent taken t :
  kinv hhdm n (mk_machine k fr sent taken) → kinv hhdm n (mk_machine k fr sent taken) ∧ space_changed k k t.
Proof. intros Hk. split; [done|]. split; try done. by left. Qed.

Lemma vma_map_spec hhdm n k fr sent taken me c t idx va size flags :
  kinv hhdm n (mk_machine k fr sent taken) → runs_on k fr me c t →
  post (vma_map k me idx va size flags)
    (λ '(k', _), kinv hhdm n (mk_machine k' fr sent taken) ∧ space_changed k k' t) (λ _, True).
Proof.
  intros Hk Hro. eapply post_bind_post; [by eapply target_vspace_spec|].
  intros [[q u]|e]; [|intros _; by apply kinv_unchanged]. intros [Hu Hh].
  eapply post_bind_post; [apply halts_virt_new|]. intros x _.
  eapply post_bind_post; [apply as_map_reserved_root|]. intros [[a m'] [?|?]] [Hr ->]; [|done]. simpl.
  apply kinv_target; try done. apply (ki_mem _ _ _ Hk).
Qed.

Lemma vma_unmap_spec hhdm n k fr sent taken me c t idx va :
  kinv hhdm n (mk_machine k fr sent taken) → runs_on k fr me c t →
  post (vma_unmap k me idx va)
    (λ '(k', _), kinv hhdm n (mk_machine k' fr sent taken) ∧ space_changed k k' t) (λ _, True).
Proof.
  intros Hk Hro. eapply post_bind_post; [by eapply target_vspace_spec|].
  intros [[q u]|e]; [|intros _; by apply kinv_unchanged]. intros [Hu Hh].
  eapply post_bind_post; [apply halts_virt_new|]. intros x _.
  eapply post_bind_post; [apply as_unmap_root|]. intros [a [?|?]] Hr; [|done]. simpl.
  change (put_space q u a k) with (with_mem (k_mem (put_space q u a k)) (put_space q u a k)).
  apply kinv_target; try done. apply (ki_mem _ _ _ Hk).
Qed.

Lemma mprotect_spec hhdm n k fr sent taken me c t idx va flags :
  kinv hhdm n (mk_machine k fr sent taken) → runs_on k fr me c t →
  post (mprotect k me idx va flags)
    (λ '(k', _), kinv hhdm n (mk_machine k' fr sent taken) ∧ space_changed k k' t) (λ _, True).
Proof.
  intros Hk Hro. eapply post_bind_post; [by eapply target_vspace_spec|].
  intros [[q u]|e]; [|intros _; by apply kinv_unchanged]. intros [Hu Hh].
  eapply post_bind_post; [apply halts_virt_new|]. intros x _.
  eapply post_bind_post; [apply as_protect_root, (ki_mem _ _ _ Hk)|]. intros [[a m'] [?|?]] [Hr Hm]; [|done]. simpl.
  by apply kinv_target.
Qed.

Lemma frame_alloc_spec hhdm n k fr sent taken t :
  kinv hhdm n (mk_machine k fr sent taken) →
  post (frame_alloc k)
    (λ '(k', _), kinv hhdm n (mk_machine k' fr sent taken) ∧ space_changed k k' t) (λ _, True).
Proof.
  intros Hk. destruct (ki_mem _ _ _ Hk) as [B HB]. unfold frame_alloc.
  eapply post_bind; [by apply (page_alloc_law _ B 0)|]. intros [m' [p|]] Hp; [|done]. simpl.
  split; [by eapply kinv_mem; [|apply Hp]|]. split; try done. by left.
Qed.

Lemma handle_page_fault_spec hhdm n k fr sent taken me c addr error :
  kinv hhdm n (mk_machine k fr sent taken) → cpus (k_sched k) !! me = Some c → curr_task c ≠ 0 →
  post (handle_page_fault k me addr error) (λ '(k', _), kinv hhdm n (mk_machine k' fr sent taken)) (λ _, True).
Proof.
  intros Hk Hi Hc. unfold handle_page_fault. destruct (_ =? 0); [done|].
  destruct (current_facts _ _ _ _ _ _ _ _ Hk Hi Hc) as (t & Ht & _ & Eid & Elk).
  rewrite Eid. cbn [mbind outcome_bind]. rewrite Elk. cbn [mbind outcome_bind unwrap].
  eapply post_bind_post; [apply page_fault_root, (ki_mem _ _ _ Hk)|]. intros [[a m'] r] [Hr [B HB]]. simpl.
  eapply kinv_mem; [|done]. by apply kinv_store_space.
Qed.

(** ** Confinement *)

(** What a system call of the task [t] at [p] may do: change address spaces it
    holds a capability for, put messages into the mailboxes of receivers at
    endpoints it may write to, change the queues of endpoints it may use and of
    the endpoint named after itself, give up its own capabilities, and obtain
    new ones only for new endpoints. *)
Record confined k k' (p : Z) (t : Task PT) : Prop := {
  cf_tasks : ∀ q u, tasks k !! q = Some u → ∃ u', tasks k' !! q = Some u' ∧ t_id u' = t_id u ∧
    (q ≠ p → cnode u' = cnode u) ∧
    (addr_space u' = addr_space u ∨
     holds (k_objects k) (cnode t) KernelObjType.VSpace (ObjData.VSpace (t_id u)) R_WRITE);
  cf_no_new : ∀ q, tasks k !! q = None → tasks k' !! q = None;
  cf_own : ∀ t' i cap, tasks k' !! p = Some t' → cnode t' !! i = Some cap → cap_is_null cap = false →
    cnode t !! i = Some cap ∨
    object_at (k_objects k) (cap_handle cap) = None ∧
    ∃ x, object_at (k_objects k') (cap_handle cap) = Some x ∧ obj_data x = ObjData.Endpoint (wrap32 (t_id t));
  cf_objects : objects_grow (k_objects k) (k_objects k');
  cf_mail : ∀ x, mail k' !! x = mail k !! x ∨ ∃ ep, x ∈ waiting (k_ipc k) ep ∧
    holds (k_objects k) (cnode t) KernelObjType.Endpoint (ObjData.Endpoint ep) R_WRITE;
  cf_queues : ∀ ep, waiting (k_ipc k') ep = waiting (k_ipc k) ep ∨ ep = t_id t ∨
    holds (k_objects k) (cnode t) KernelObjType.Endpoint (ObjData.Endpoint ep) R_WRITE ∨
    holds (k_objects k) (cnode t) KernelObjType.Endpoint (ObjData.Endpoint ep) R_READ
}.

(** Calls that leave capabilities and objects alone. *)
Lemma confined_intro k k' p t :
  tasks k !! p = Some t → k_objects k' = k_objects k → (∀ q, tasks k !! q = None → tasks k' !! q = None) →
  (∀ q u, tasks k !! q = Some u → ∃ u', tasks k' !! q = Some u' ∧ t_id u' = t_id u ∧ cnode u' = cnode u ∧
    (addr_space u' = addr_space u ∨
     holds (k_objects k) (cnode t) KernelObjType.VSpace (ObjData.VSpace (t_id u)) R_WRITE)) →
  (∀ x, mail k' !! x = mail k !! x ∨ ∃ ep, x ∈ waiting (k_ipc k) ep ∧
    holds (k_objects k) (cnode t) KernelObjType.Endpoint (ObjData.Endpoint ep) R_WRITE) →
  (∀ ep, waiting (k_ipc k') ep = waiting (k_ipc k) ep ∨ ep = t_id t ∨
    holds (k_objects k) (cnode t) KernelObjType.Endpoint (ObjData.Endpoint ep) R_WRITE ∨
    holds (k_objects k) (cnode t) KernelObjType.Endpoint (ObjData.Endpoint ep) R_READ) →
  confined k k' p t.
Proof.
  intros Hp Eo Hnn Ht Hm Hq. split; try done.
  - intros q u Hu. destruct (Ht q u Hu) as (u' & ? & ? & ? & ?). by exists u'.
  - intros t' i cap Ht' Hi _. left. destruct (Ht p t Hp) as (u' & Hu' & _ & Ec & _). congruence.
  - by rewrite Eo.
Qed.

Lemma confined_refl k p t : tasks k !! p = Some t → confined k k p t.
Proof. intros Hp. apply confined_intro; auto. intros q u Hu. exists u. auto. Qed.

Lemma confined_space k k' p t : tasks k !! p = Some t → space_changed k k' t → confined k k' p t.
Proof.
  intros Hp [Eo Ei _ Et]. apply confined_intro; try done.
  - intros q Hq. destruct Et as [->|(q' & u0 & a & Hu0 & -> & _)]; [done|].
    rewrite lookup_insert_ne; [done|]. intros ->. congruence.
  - intros q u Hu. destruct Et as [->|(q' & u0 & a & Hu0 & -> & Hh)]; [exists u; auto|].
    destruct (decide (q = q')) as [->|Hne]; [|exists u; rewrite lookup_insert_ne by done; auto].
    rewrite lookup_insert_eq. eexists. split; [done|]. simplify_eq. auto.
  - intros x. left. unfold mail. by rewrite Ei.
  - intros ep. left. by rewrite Ei.
Qed.

Lemma confined_sent k k' p t ep :
  tasks k !! p = Some t → message_sent k k' ep →
  holds (k_objects k) (cnode t) KernelObjType.Endpoint (ObjData.Endpoint ep) R_WRITE → confined k k' p t.
Proof.
  intros Hp [Eo _ _ _ Hq Hm Et] Hh. apply confined_intro; try done.
  - intros q Hn. destruct Et as [->|(q' & u0 & Hu0 & _ & _ & ->)]; [done|].
    rewrite lookup_insert_ne; [done|]. intros ->. congruence.
  - intros q u Hu. destruct Et as [->|(q' & u0 & Hu0 & _ & _ & ->)]; [exists u; auto|].
    destruct (decide (q = q')) as [->|Hne]; [|exists u; rewrite lookup_insert_ne by done; auto].
    rewrite lookup_insert_eq. eexists. split; [done|]. simplify_eq. auto.
  - intros x. destruct (decide (x ∈ waiting (k_ipc k) ep)); [right; eauto|left; auto].
  - intros ep'. destruct (decide (ep' = ep)) as [->|]; auto.
Qed.

Lemma confined_recv k k1 k2 p t t1 ep :
  confined k k1 p t → tasks k1 !! p = Some t1 → cnode t1 = cnode t → addr_space t1 = addr_space t →
  k_objects k1 = k_objects k → tasks k !! p = Some t → receive_begun k1 k2 ep p t1 →
  holds (k_objects k) (cnode t) KernelObjType.Endpoint (ObjData.Endpoint ep) R_READ → confined k k2 p t.
Proof.
  intros [Ht Hnn Hown Hob Hm Hq] Hp1 Ec Ea Eo1 Hp [Eo _ _ Em Hq2 Et] Hh. split.
  - intros q u Hu. destruct (Ht q u Hu) as (u1 & Hu1 & Hid & Hcn & Hsp).
    destruct Et as [->|[sp ->]]; [by exists u1|].
    destruct (decide (q = p)) as [->|Hne]; [|exists u1; by rewrite lookup_insert_ne].
    rewrite lookup_insert_eq. eexists. split; [done|]. simplify_eq. done.
  - intros q Hn. destruct Et as [->|[sp ->]]; [by apply Hnn|].
    rewrite lookup_insert_ne; [by apply Hnn|]. intros ->. congruence.
  - intros t' i cap Ht' Hi Hn. rewrite Eo. destruct Et as [E|[sp E]]; rewrite E in Ht'.
    + by apply (Hown t').
    + rewrite lookup_insert_eq in Ht'. injection Ht' as <-. by apply (Hown t1).
  - by rewrite Eo.
  - intros x. rewrite Em. apply Hm.
  - intros ep'. destruct (decide (ep' = ep)) as [->|Hne]; [by right; right; right|]. rewrite Hq2 by done. apply Hq.
Qed.
End steps.
