(* ===== verification/KernelCalls.v ===== *)
(** * The kernel as a whole: system calls *)
From S2P Require Import Prelude Misc Memblock Frame Sparsemem Zones Paging AddrSpace KernelStacks.
From S2P Require Import Objects ObjectsSpec Endpoints EndpointsSpec Runqueue RunqueueSpec.
From S2P Require Import Sched SchedSpec SchedOps SchedLoops Syscalls SyscallsSpec KernelSpec KernelSteps.
#[local] Open Scope Z_scope.

(** ** Endpoints that come and go *)

Lemma get_endpoint_set t i x y id :
  endpoints t !! i = Some x → ¬ has_id id x → ¬ has_id id y →
  get_endpoint (set_endpoints (<[i:=y]> (endpoints t)) t) id = get_endpoint t id.
Proof.
  intros Hi Hx Hy. unfold get_endpoint. simpl. rewrite (list_find_insert _ _ i x y) by tauto.
  destruct (list_find (has_id id) (endpoints t)) as [[j z]|] eqn:E; [|done]. simpl.
  apply list_find_Some in E as (Hj & Hz & _). rewrite decide_False; [done|]. intros ->. congruence.
Qed.

Lemma waiting_create m t ep : ep ≠ t → waiting (ipc_create_endpoint m t).1 ep = waiting m ep.
Proof.
  intros Hne. unfold waiting, ipc_create_endpoint, create_endpoint.
  destruct (list_find _ _) as [[i s]|] eqn:E; [|done]. apply list_find_Some in E as (Hi & -> & _). simpl.
  rewrite (get_endpoint_set _ i None); [done|done|by intros []|]. simpl. congruence.
Qed.

Lemma waiting_destroy m id ep : ep ≠ id → waiting (ipc_destroy_endpoint m id) ep = waiting m ep.
Proof.
  intros Hne. unfold waiting, ipc_destroy_endpoint, destroy_endpoint.
  destruct (list_find (has_id id) _) as [[i s]|] eqn:E; [|done]. apply list_find_Some in E as (Hi & Hs & _). simpl.
  rewrite (get_endpoint_set _ i s); [done|done| |by intros []]. destruct s as [e|]; simpl in *; congruence.
Qed.

Section calls.
Context {PT M : Type} `{!X86_64 PT, !X86_64Laws PT} `{!PageSource M, !PageSourceLaws M}.
Implicit Types (k : Kernel PT M) (t u : Task PT) (s : Sched PT) (c : ExecCpu PT).

(** A new set of capabilities for the caller, and new objects. *)
Lemma kinv_caps hhdm n k fr sent taken p t ipc' o' nd :
  kinv hhdm n (mk_machine k fr sent taken) → tasks k !! p = Some t →
  mail_inv (ipc', sent, taken) → pending_messages ipc' = mail k →
  (∀ x, x ∈ all_waiting ipc' → x ∈ all_waiting (k_ipc k)) →
  table_ok o' → objects_grow (k_objects k) o' → cnode_ok o' nd →
  kinv hhdm n (mk_machine (mk_kernel (store p (with_cnode nd t) (k_sched k)) o' ipc' (k_mem k) (k_console k))
    fr sent taken).
Proof.
  intros [H1 H2 H3 H4 H5 H6 H7] Ht Hm Ep Hall Ho Hg Hn. simpl in *. split; simpl; try done.
  - by eapply sched_inv_store.
  - intros q u. unfold tasks. simpl.
    intros [[<- <-]|[_ Hu]]%lookup_insert_Some; [done|]. eapply cnode_ok_grow; [done|]. by eapply H4.
  - eapply linked_ipc; [|exact Ep|exact Hall]. eapply linked_tasks; [|exact H7].
    unfold tasks. simpl. intros q u [[<- <-]|[_ Hu]]%lookup_insert_Some; [by exists t|by exists u].
Qed.

Lemma cnode_alloc_spec (nd : CNode) cap :
  length nd = CAPABILITY_MAX →
  wp (cnode_alloc nd cap) (λ '(nd', r), match r with
    | Some i => 0 ≤ i ∧ nd' = <[Z.to_nat i:=cap]> nd
    | None => nd' = nd
    end).
Proof.
  intros Hl. unfold cnode_alloc, cnode_find_free. destruct (list_find _ nd) as [[i c0]|] eqn:Hf; simpl; [|by apply wp_ret].
  apply list_find_Some in Hf as (Hi & _ & _). apply lookup_lt_Some in Hi.
  rewrite Nat2Z.id. apply wp_bind, wp_arr_set; [done|]. apply wp_ret. split; [lia|]. by rewrite Nat2Z.id.
Qed.

Lemma handle_ipc_ep_create_spec hhdm n k fr sent taken me c t :
  kinv hhdm n (mk_machine k fr sent taken) → runs_on k fr me c t →
  post (handle_ipc_ep_create k (t_id t)) (λ '(k', _),
    kinv hhdm n (mk_machine k' fr sent taken) ∧ confined k k' (curr_task c) t ∧ mail k' = mail k ∧
    cpus (k_sched k') = cpus (k_sched k)) (λ _, True).
Proof.
  intros Hk Hro. pose proof (ro_task _ _ _ _ _ Hro) as Ht.
  pose proof (ki_caps _ _ _ Hk _ _ Ht) as Hn. simpl in Hn.
  destruct (runs_on_facts _ _ _ _ _ _ _ _ _ Hk Hro) as (_ & _ & Elk & _).
  assert (mail_inv ((ipc_create_endpoint (k_ipc k) (t_id t)).1, sent, taken)) as Hmail.
  { eapply mail_inv_step; [apply ipc_create|apply Hk]. }
  pose proof (all_waiting_create (k_ipc k) (t_id t)) as Hall.
  pose proof (waiting_create (k_ipc k) (t_id t)) as Hwait.
  assert (pending_messages (ipc_create_endpoint (k_ipc k) (t_id t)).1 = mail k) as Ep.
  { unfold ipc_create_endpoint. by destruct (create_endpoint _ _). }
  assert (∀ ep, (ipc_create_endpoint (k_ipc k) (t_id t)).2 = Some ep → ep = t_id t) as Eep.
  { intros ep. unfold ipc_create_endpoint, create_endpoint. destruct (list_find _ _) as [[i s0]|]; [|done].
    simpl. by intros [= <-]. }
  unfold handle_ipc_ep_create. destruct (ipc_create_endpoint (k_ipc k) (t_id t)) as [ipc' r]. simpl in *.
  destruct r as [ep|]; [|done]. rewrite (Eep ep eq_refl). cbn [unwrap mbind outcome_bind].
  eapply post_bind; [apply obj_insert_grow, (ki_table _ _ _ Hk)|].
  intros [o' [h|?]] (Ho & Hg & Hh); [|done]. destruct Hh as (Hidx & Hold & Hnew).
  cbn [expect mbind outcome_bind]. unfold lookup_task in *. simpl in *. rewrite Elk.
  cbn [unwrap mbind outcome_bind].
  eapply post_bind; [apply cnode_alloc_spec, (cn_len _ _ Hn)|]. intros [nd' [i|]]; [|done]. intros [Hi ->]. simpl.
  set (cap := cap_new h R_ALL) in *.
  split; [|split; [|done]].
  - apply (kinv_caps hhdm n k fr sent taken (curr_task c) t ipc' o'); try done; [by intros x; rewrite Hall|].
    apply cnode_ok_set; [by eapply cnode_ok_grow|]. intros _. split; [done|]. by eexists.
  - split; simpl; try done.
    + intros q u Hu. unfold tasks. simpl. destruct (decide (q = curr_task c)) as [->|Hne].
      * rewrite lookup_insert_eq. eexists. split; [done|]. unfold tasks in *. simplify_eq. split; [done|]. split; [done|by left].
      * rewrite lookup_insert_ne by done. exists u. auto.
    + intros q Hq. unfold tasks in *. simpl. rewrite lookup_insert_ne; [done|]. intros <-. congruence.
    + intros t' j cap'. unfold tasks. simpl. rewrite lookup_insert_eq. intros [= <-]. simpl.
      intros [(<- & <- & _)|[_ Hj]]%list_lookup_insert_Some _; [right|by left].
      split; [done|]. eexists. split; [done|]. done.
    + intros x. left. unfold mail. simpl. by rewrite Ep.
    + intros ep'. destruct (decide (ep' = t_id t)) as [->|Hne]; auto.
Qed.

Lemma handle_ipc_ep_destroy_spec hhdm n k fr sent taken me c t idx :
  kinv hhdm n (mk_machine k fr sent taken) → runs_on k fr me c t →
  wp (handle_ipc_ep_destroy k (t_id t) idx) (λ '(k', _),
    kinv hhdm n (mk_machine k' fr sent taken) ∧ confined k k' (curr_task c) t ∧ mail k' = mail k ∧
    cpus (k_sched k') = cpus (k_sched k)).
Proof.
  intros Hk Hro. pose proof (ro_task _ _ _ _ _ Hro) as Ht.
  pose proof (ki_caps _ _ _ Hk _ _ Ht) as Hn. simpl in Hn.
  destruct (runs_on_facts _ _ _ _ _ _ _ _ _ Hk Hro) as (_ & _ & Elk & _).
  unfold handle_ipc_ep_destroy. rewrite Elk. cbn [mbind outcome_bind].
  apply wp_bind. eapply wp_mono; [apply resolve_endpoint_cap_spec; [apply (ki_table _ _ _ Hk)|done]|].
  intros [ep|e]; [|intros ->; apply wp_ret; split; [done|]; split; [by apply confined_refl|done]].
  intros (cap & x & Hg & Hd). pose proof (granting_holds _ _ _ _ _ _ _ Hg) as Hh. rewrite Hd in Hh.
  destruct Hg as (Hi & Hnull & Hr & Hidx & Hx & Hty).
  rewrite cnode_get_lookup by (apply Hn || apply wrap32_nonneg). rewrite Hi. cbn [mbind outcome_bind option_bind].
  rewrite Hnull. cbn [unwrap mbind outcome_bind]. unfold cnode_delete.
  pose proof (lookup_lt_Some _ _ _ Hi) as Hlt.
  apply wp_bind, wp_arr_set; [done|]. apply wp_bind.
  eapply wp_mono; [by apply obj_dec_ref_grow; [apply (ki_table _ _ _ Hk)|]|]. intros [o' b] [Ho Hgr]. apply wp_ret.
  destruct (all_waiting_destroy (k_ipc k) ep) as [l Hall].
  split; [|split; [|done]].
  - apply (kinv_caps hhdm n k fr sent taken (curr_task c) t (ipc_destroy_endpoint (k_ipc k) ep) o'); try done.
    + eapply mail_inv_step; [apply ipc_destroy|apply Hk].
    + intros y Hy. rewrite <-Hall. apply elem_of_app. by left.
    + apply cnode_ok_set; [by eapply cnode_ok_grow|done].
  - split; simpl; try done.
    + intros q u Hu. unfold tasks. simpl. destruct (decide (q = curr_task c)) as [->|Hne].
      * rewrite lookup_insert_eq. eexists. split; [done|]. unfold tasks in *. simplify_eq. split; [done|]. split; [done|by left].
      * rewrite lookup_insert_ne by done. exists u. auto.
    + intros q Hq. unfold tasks in *. simpl. rewrite lookup_insert_ne; [done|]. intros <-. congruence.
    + intros t' j cap'. unfold tasks. simpl. rewrite lookup_insert_eq. intros [= <-]. simpl.
      intros [(<- & <- & _)|[_ Hj]]%list_lookup_insert_Some Hnn; [done|by left].
    + auto.
    + intros ep'. destruct (decide (ep' = ep)) as [->|Hne]; [|left; by apply waiting_destroy]. right. right. left.
      destruct Hh as (j & cap' & x' & ? & ? & Hr' & ?). exists j, cap', x'. split_and!; try tauto.
      eapply rights_contain_trans; [exact Hr'|]. done.
Qed.

(** ** IPC calls *)

(** The outcome of a system call of [t] on the CPU [c]. *)
Definition call_done hhdm n k fr sent taken c t k' (v : verdict) : Prop :=
  confined k k' (curr_task c) t ∧ length (cpus (k_sched k')) = length (cpus (k_sched k)) ∧
  match v with
  | Returns _ => kinv hhdm n (mk_machine k' fr (new_mail k k' ++ sent) taken)
  | Suspends a => ∀ r, kinv hhdm n (mk_machine k' (<[t_id t:=(a, r)]> fr) (new_mail k k' ++ sent) taken)
  end.

Lemma call_done_same hhdm n k fr sent taken c t k' x :
  confined k k' (curr_task c) t → length (cpus (k_sched k')) = length (cpus (k_sched k)) → mail k' = mail k →
  kinv hhdm n (mk_machine k' fr sent taken) → call_done hhdm n k fr sent taken c t k' (Returns x).
Proof. intros Hc Hl Hm Hk. split; [done|]. split; [done|]. by rewrite new_mail_same. Qed.

Lemma call_done_refl hhdm n k fr sent taken me c t x :
  kinv hhdm n (mk_machine k fr sent taken) → runs_on k fr me c t →
  call_done hhdm n k fr sent taken c t k (Returns x).
Proof. intros Hk Hro. apply call_done_same; try done. by eapply confined_refl, ro_task. Qed.

Lemma send_labelled_spec hhdm n k fr sent taken me c t label ipc :
  kinv hhdm n (mk_machine k fr sent taken) → runs_on k fr me c t → length (ipc_msg ipc) = 4%nat →
  wp (ok_code (send_labelled label k (t_id t) ipc)) (λ '(k', v), call_done hhdm n k fr sent taken c t k' v).
Proof.
  intros Hk Hro Hlen. pose proof (ro_task _ _ _ _ _ Hro) as Ht.
  pose proof (ki_caps _ _ _ Hk _ _ Ht) as Hn. simpl in Hn.
  destruct (runs_on_facts _ _ _ _ _ _ _ _ _ Hk Hro) as (_ & _ & Elk & _).
  unfold ok_code, send_labelled. rewrite Elk. cbn [mbind outcome_bind].
  apply wp_bind, wp_bind. eapply wp_mono; [apply resolve_endpoint_cap_spec; [apply (ki_table _ _ _ Hk)|done]|].
  intros [ep|e]; [|intros ->; apply wp_ret, wp_ret; by eapply call_done_refl].
  intros (cap & x & Hg & Hd). pose proof (granting_holds _ _ _ _ _ _ _ Hg) as Hh. rewrite Hd in Hh.
  apply wp_bind. eapply wp_mono; [by apply (send_message_spec hhdm n k fr sent taken)|].
  intros [k' r] (Hk' & Hs & _). apply wp_ret, wp_ret.
  split; [by eapply confined_sent|]. split; [by rewrite (ms_cpus _ _ _ Hs)|done].
Qed.

Lemma recv_call_done hhdm n k fr sent taken me c t k1 ep sp :
  runs_on k fr me c t → confined k k1 (curr_task c) t → k_objects k1 = k_objects k →
  cpus (k_sched k1) = cpus (k_sched k) → tasks k1 !! curr_task c = Some t →
  kinv hhdm n (mk_machine k1 fr (new_mail k k1 ++ sent) taken) →
  holds (k_objects k) (cnode t) KernelObjType.Endpoint (ObjData.Endpoint ep) R_READ →
  wp (recv_message hhdm me sp k1 (t_id t) ep) (λ '(k', v), call_done hhdm n k fr sent taken c t k' v).
Proof.
  intros [Hi Hc Ht Hu] Hconf Eo Ecpu Ht1 Hk1 Hh. eapply wp_mono.
  { apply (recv_message_spec hhdm n k1 fr _ taken me c t sp ep Hk1). split; try done. by rewrite Ecpu. }
  intros [k' v] [Hb Hv]. assert (new_mail k k' = new_mail k k1) as En.
  { unfold new_mail. by rewrite (rb_mail _ _ _ _ _ Hb). }
  split; [by eapply confined_recv|]. split; [rewrite (rb_cpus _ _ _ _ _ Hb); by rewrite Ecpu|].
  rewrite En. destruct v as [v|a]; [done|]. destruct Hv as [-> Hv]. done.
Qed.

Lemma handle_ipc_recv_spec hhdm n k fr sent taken me c t sp idx :
  kinv hhdm n (mk_machine k fr sent taken) → runs_on k fr me c t →
  wp (handle_ipc_recv hhdm me sp k (t_id t) idx) (λ '(k', v), call_done hhdm n k fr sent taken c t k' v).
Proof.
  intros Hk Hro. pose proof (ro_task _ _ _ _ _ Hro) as Ht.
  pose proof (ki_caps _ _ _ Hk _ _ Ht) as Hn. simpl in Hn.
  destruct (runs_on_facts _ _ _ _ _ _ _ _ _ Hk Hro) as (_ & _ & Elk & _).
  unfold handle_ipc_recv. rewrite Elk. cbn [mbind outcome_bind]. apply wp_bind.
  eapply wp_mono; [apply resolve_endpoint_cap_spec; [apply (ki_table _ _ _ Hk)|done]|].
  intros [ep|e]; [|intros ->; apply wp_ret; by eapply call_done_refl].
  intros (cap & x & Hg & Hd). pose proof (granting_holds _ _ _ _ _ _ _ Hg) as Hh. rewrite Hd in Hh.
  eapply recv_call_done; try done; [by apply confined_refl|]. by rewrite new_mail_same.
Qed.

Lemma handle_ipc_call_spec hhdm n k fr sent taken me c t sp ipc :
  kinv hhdm n (mk_machine k fr sent taken) → runs_on k fr me c t → length (ipc_msg ipc) = 4%nat →
  wp (handle_ipc_call hhdm me sp k (t_id t) ipc) (λ '(k', v), call_done hhdm n k fr sent taken c t k' v).
Proof.
  intros Hk Hro Hlen. pose proof (ro_task _ _ _ _ _ Hro) as Ht.
  pose proof (ki_caps _ _ _ Hk _ _ Ht) as Hn. simpl in Hn.
  destruct (runs_on_facts _ _ _ _ _ _ _ _ _ Hk Hro) as (Hst & _ & Elk & _).
  unfold handle_ipc_call. rewrite Elk. cbn [mbind outcome_bind]. apply wp_bind.
  eapply wp_mono; [apply resolve_endpoint_cap_spec; [apply (ki_table _ _ _ Hk)|done]|].
  intros [ep|e]; [|intros ->; apply wp_ret; by eapply call_done_refl].
  intros (cap & x & Hg & Hd). pose proof (granting_holds _ _ _ _ _ _ _ Hg) as Hh. rewrite Hd in Hh.
  destruct ipc as [ipc_ep words]. simpl in Hlen. destruct words as [|m0 [|m1 [|m2 [|m3 [|]]]]]; try done.
  unfold arr_get. cbn [ipc_msg lookup list_lookup mbind outcome_bind]. apply wp_bind.
  eapply wp_mono; [apply resolve_endpoint_cap_spec; [apply (ki_table _ _ _ Hk)|done]|].
  intros [rep|e]; [|intros ->; apply wp_ret; by eapply call_done_refl].
  intros (rcap & rx & Hrg & Hrd). pose proof (granting_holds _ _ _ _ _ _ _ Hrg) as Hrh. rewrite Hrd in Hrh.
  apply wp_bind. eapply wp_mono; [by apply (send_message_spec hhdm n k fr sent taken)|].
  intros [k1 r] (Hk1 & Hs & _). destruct r as [e|].
  { apply wp_ret. split; [by eapply confined_sent|]. split; [by rewrite (ms_cpus _ _ _ Hs)|done]. }
  eapply recv_call_done; try done; [by eapply confined_sent|apply Hs|apply Hs|].
  destruct (ms_tasks _ _ _ Hs) as [->|(q & u & Hu & Hsl & _ & ->)]; [done|].
  rewrite lookup_insert_ne; [done|]. intros ->. congruence.
Qed.

Lemma thread_sleep_spec hhdm n k fr sent taken me c t sp ns :
  kinv hhdm n (mk_machine k fr sent taken) → runs_on k fr me c t → 0 ≤ ns →
  post (thread_sleep hhdm me sp k ns) (λ '(k', v), call_done hhdm n k fr sent taken c t k' v) (λ p, p = POverflow).
Proof.
  intros Hk Hro Hns. destruct (runs_on_facts _ _ _ _ _ _ _ _ _ Hk Hro) as (Hst & _ & _ & Hnw & Hnm).
  pose proof Hro as [Hi Hc Ht Hu]. unfold thread_sleep. rewrite (cpu_eq _ _ _ Hi). cbn [mbind outcome_bind].
  eapply post_bind_post; [by apply (sleep_spec hhdm n (k_sched k) me c ns sp (ki_sched _ _ _ Hk))|].
  intros s' (Hs' & El & [->|(t0 & w & c' & Ht0 & Hw & Eh & Et & Hc' & Ec')]).
  { rewrite (cpu_eq _ _ _ Hi). cbn [mbind outcome_bind]. rewrite Z.eqb_refl. simpl.
    replace (with_sched (k_sched k) k) with k by by destruct k. by eapply call_done_refl. }
  rewrite (cpu_eq _ _ _ Hc'). cbn [mbind outcome_bind]. rewrite Ec', (proj2 (Z.eqb_neq _ _)) by congruence. simpl.
  unfold tasks in Ht. rewrite Ht in Ht0. injection Ht0 as <-. split; [|split; [done|]].
  - apply confined_intro; try done; [| |auto|auto].
    { intros q Hq. unfold tasks in *. simpl. rewrite Eh, lookup_insert_ne; [done|]. intros <-. congruence. }
    intros q u0 Hu0. unfold tasks in *. simpl. rewrite Eh.
    destruct (decide (q = curr_task c)) as [->|Hne]; [|exists u0; rewrite lookup_insert_ne by done; auto].
    rewrite lookup_insert_eq. eexists. split; [done|]. simplify_eq. auto.
  - intros r. rewrite new_mail_same by done.
    assert (∀ q u, tasks k !! q = Some u → t_id u = t_id t → q = curr_task c) as Huniq by (intros q u0; by eapply kinv_unique).
    destruct Hk as [H1 H2 H3 H4 H5 H6 H7]. simpl in *. split; simpl; try done.
    + intros p u0. unfold tasks. simpl. rewrite Eh.
      intros [[<- <-]|[_ Hu']]%lookup_insert_Some; [by apply (H4 (curr_task c) t)|by apply (H4 p u0)].
    + rewrite Et. intros id f [[<- _]|[_ Hf]]%lookup_insert_Some; [|by eapply H6].
      rewrite (co_table _ _ _ _ _ (sc_core _ _ _ H1) _ _ Ht). by eexists.
    + unfold tasks. simpl. rewrite Eh. eapply linked_suspend; try done. by left.
Qed.

(** ** The dispatcher *)

Lemma post_ok_ret (m : outcome (Kernel PT M * Z)) Q (P : panic → Prop) :
  post m (λ '(k', v), Q k' (Returns v)) P → post (ok_ret m) (λ '(k', v), Q k' v) P.
Proof. intros H. eapply post_bind_post; [exact H|]. by intros [k' v]. Qed.

Lemma post_any {A} (m : outcome A) (Q : A → Prop) (P : panic → Prop) : post m Q P → post m Q (λ _, True).
Proof. intros H. by eapply post_weaken. Qed.

Lemma call_done_space hhdm n k fr sent taken me c t k' x :
  kinv hhdm n (mk_machine k' fr sent taken) → runs_on k fr me c t → space_changed k k' t →
  call_done hhdm n k fr sent taken c t k' (Returns x).
Proof.
  intros Hk Hro Hs. apply call_done_same; try done.
  - eapply confined_space; [by eapply ro_task|done].
  - by rewrite (sg_cpus _ _ _ Hs).
  - unfold mail. by rewrite (sg_ipc _ _ _ Hs).
Qed.

Definition ipc_calls : list Z := [IpcEpDestroy; IpcSend; IpcRecv; IpcCall; IpcReply].

Lemma ipc_dispatch hhdm n k fr sent taken me c t sp user r :
  kinv hhdm n (mk_machine k fr sent taken) → runs_on k fr me c t →
  syscall_number_or_irq_or_error_code r ∈ ipc_calls →
  wp (syscall_dispatcher hhdm me sp user k r) (λ '(k', v), call_done hhdm n k fr sent taken c t k' v).
Proof.
  intros Hk Hro Hnr. destruct (runs_on_facts _ _ _ _ _ _ _ _ _ Hk Hro) as (_ & Eid & _).
  unfold syscall_dispatcher. rewrite Eid.
  repeat (apply elem_of_cons in Hnr as [->|Hnr]); [..|by apply not_elem_of_nil in Hnr]; simpl.
  - unfold ok_code. apply wp_bind. eapply wp_mono; [by apply (handle_ipc_ep_destroy_spec hhdm n k fr sent taken me c)|].
    intros [k' v] (Hk' & Hc & Hm & Ec). apply wp_ret. apply call_done_same; try done. by rewrite Ec.
  - by apply send_labelled_spec with me.
  - by apply handle_ipc_recv_spec.
  - by apply handle_ipc_call_spec.
  - by apply send_labelled_spec with me.
Qed.

Lemma syscall_dispatcher_spec hhdm n k fr sent taken me c t sp user r :
  kinv hhdm n (mk_machine k fr sent taken) → runs_on k fr me c t → 0 ≤ rdi r →
  post (syscall_dispatcher hhdm me sp user k r) (λ '(k', v), call_done hhdm n k fr sent taken c t k' v) (λ _, True).
Proof.
  intros Hk Hro Hr. destruct (decide (syscall_number_or_irq_or_error_code r ∈ ipc_calls)) as [Hnr|Hnr].
  { apply post_wp. by apply ipc_dispatch. }
  unfold ipc_calls in Hnr. rewrite !not_elem_of_cons in Hnr. destruct Hnr as (Hn1 & Hn2 & Hn3 & Hn4 & Hn5 & _).
  destruct (runs_on_facts _ _ _ _ _ _ _ _ _ Hk Hro) as (_ & Eid & _).
  unfold syscall_dispatcher. destruct (_ =? SYS_DEBUG_PRINT).
  { unfold debug_print. repeat case_match; simplify_eq; try (by eapply call_done_refl).
    apply call_done_same; try done.
    - apply confined_intro; auto; [by eapply ro_task|]. intros q u Hu. exists u. auto.
    - by destruct Hk. }
  rewrite Eid. cbn [mbind outcome_bind].
  rewrite (proj2 (Z.eqb_neq _ _) Hn1), (proj2 (Z.eqb_neq _ _) Hn2), (proj2 (Z.eqb_neq _ _) Hn3),
    (proj2 (Z.eqb_neq _ _) Hn4), (proj2 (Z.eqb_neq _ _) Hn5).
  destruct (_ =? IpcEpCreate).
  { apply post_ok_ret. eapply post_mono; [by apply (handle_ipc_ep_create_spec hhdm n k fr sent taken me c)|].
    intros [k' v] (Hk' & Hc & Hm & Ec). apply call_done_same; try done. by rewrite Ec. }
  destruct (_ =? FrameAlloc).
  { apply post_ok_ret. eapply post_mono; [by apply (frame_alloc_spec hhdm n k fr sent taken t)|].
    intros [k' v] [Hk' Hs]. by eapply call_done_space. }
  destruct (_ =? VmaMap).
  { apply post_ok_ret. eapply post_mono; [by eapply vma_map_spec|].
    intros [k' v] [Hk' Hs]. by eapply call_done_space. }
  destruct (_ =? VmaUnmap).
  { apply post_ok_ret. eapply post_mono; [by eapply vma_unmap_spec|].
    intros [k' v] [Hk' Hs]. by eapply call_done_space. }
  destruct (_ =? Mprotect).
  { apply post_ok_ret. eapply post_mono; [by eapply mprotect_spec|].
    intros [k' v] [Hk' Hs]. by eapply call_done_space. }
  destruct (_ =? ThreadSleep); [|by eapply call_done_refl].
  eapply post_any. by apply thread_sleep_spec.
Qed.

(** ** Leaving a system call *)

Lemma resume_spec hhdm n k fr sent taken me c t a r :
  kinv hhdm n (mk_machine k fr sent taken) → cpus (k_sched k) !! me = Some c → curr_task c ≠ 0 →
  tasks k !! curr_task c = Some t → fr !! t_id t = Some (a, r) →
  wp (resume a k (t_id t) r) (λ '(k', r'), (k_sched k' = k_sched k ∧ k_objects k' = k_objects k) ∧
    match a with
    | AfterRecv => ∃ msg, mail k !! t_id t = Some msg ∧
        kinv hhdm n (mk_machine k' (delete (t_id t) fr) sent ((t_id t, msg) :: taken)) ∧
        rdi r' = msg_label msg ∧ [rsi r'; rdx r'; r10 r'; r8 r'] = msg_data msg ∧
        syscall_number_or_irq_or_error_code r' = ret_code IpcOk
    | AfterSleep => kinv hhdm n (mk_machine k' (delete (t_id t) fr) sent taken) ∧ r' = with_result 0 r
    end).
Proof.
  intros Hk Hi Hc Ht Hf. destruct (current_facts _ _ _ _ _ _ _ _ Hk Hi Hc) as (t' & Ht' & Hst & _). simplify_eq.
  assert (task_state t ≠ TaskState.Sleep) as Hns by congruence.
  assert (∀ q u, tasks k !! q = Some u → t_id u = t_id t → q = curr_task c) as Huniq by (intros q u0; by eapply kinv_unique).
  pose proof Hk as [H1 H2 H3 H4 H5 H6 H7]. simpl in *.
  assert (∀ id f, delete (t_id t) fr !! id = Some f → is_Some (task_table (k_sched k) !! id)) as H6'.
  { intros id f [_ Hid]%lookup_delete_Some. by eapply H6. }
  assert (t_id t ∉ all_waiting (k_ipc k)) as Hnw by (intros Hin; apply Hns; by apply (lk_asleep _ _ _ H7 (curr_task c) t)).
  destruct a; simpl.
  - destruct (lk_recv _ _ _ H7 _ _ _ Ht Hf) as [?|[msg Hm]]; [done|].
    destruct (lk_mailed _ _ _ H7 _ _ Hm) as [_ Hlen]. rewrite Hm.
    unfold with_message, arr_get.
    destruct (msg_data msg) as [|d0 [|d1 [|d2 [|d3 [|]]]]] eqn:Ed; try done.
    cbn [lookup list_lookup mbind outcome_bind]. apply wp_ret. split; [done|]. exists msg. split; [done|]. split; [|done].
    split; simpl; try done.
    + pose proof (mail_inv_step _ _ (ipc_take (k_ipc k) sent taken (t_id t) Hnw) H2) as Hmail. simpl in Hmail.
      by rewrite Hm in Hmail.
    + by eapply linked_resume.
  - apply wp_ret. split; [done|]. split; [|done]. split; simpl; try done.
    eapply linked_resume; try done. rewrite delete_id; [done|].
    destruct (pending_messages (k_ipc k) !! t_id t) as [msg|] eqn:E; [|done].
    destruct (lk_mailed _ _ _ H7 _ _ E) as [[r' Hr'] _]. congruence.
Qed.
End calls.
