(* ===== verification/KernelTheorems.v ===== *)
(** * The kernel as a whole: theorems

    Runs of the kernel are sequences of system calls, returns from suspended
    calls, page faults, timer interrupts, iterations of the idle loop and
    creations of tasks, on any CPU and in any order.  A system call is one
    step up to its end or to the context switch in it: system calls run with
    interrupts masked, so this is exact as long as no other CPU enters the
    kernel at the same time. *)
From S2P Require Import Prelude Misc Memblock Frame Sparsemem Zones Paging PagingRef ZonesSource AddrSpace KernelStacks.
From S2P Require Import Objects ObjectsSpec Endpoints EndpointsSpec Runqueue RunqueueSpec.
From S2P Require Import Sched SchedSpec SchedOps SchedLoops SchedTheorems.
From S2P Require Import Syscalls SyscallsSpec KernelSpec KernelSteps KernelCalls.
#[local] Open Scope Z_scope.

(** ** The capabilities of new tasks *)

(** Every capability names the task [id]. *)
Definition caps_name (o : ObjectTable) (n : CNode) (id : Z) : Prop :=
  ∀ i cap, n !! i = Some cap → cap_is_null cap = false →
    ∃ x, object_at o (cap_handle cap) = Some x ∧ names_task id (obj_data x).

Lemma caps_name_grow o o' n id : objects_grow o o' → cnode_ok o n → caps_name o n id → caps_name o' n id.
Proof.
  intros Hg Hn Hc i cap Hi Hnull. destruct (Hc i cap Hi Hnull) as (x & Hx & Hd).
  destruct (cn_live _ _ Hn i cap Hi Hnull) as [Hh _].
  destruct (Hg (cap_handle cap) x ltac:(lia) Hx) as (x' & Hx' & _ & E). exists x'. by rewrite E.
Qed.

Lemma caps_name_set o n i h id x :
  caps_name o n id → object_at o h = Some x → names_task id (obj_data x) →
  caps_name o (<[i:=cap_new h R_ALL]> n) id.
Proof.
  intros Hc Hx Hd j cap [(<- & <- & _)|[_ Hj]]%list_lookup_insert_Some Hn; [by exists x|by apply (Hc j)].
Qed.

Lemma make_init_caps_spec o id :
  table_ok o →
  post (make_init_caps o id cnode_new) (λ '(o', nd, _), table_ok o' ∧ objects_grow o o' ∧ cnode_ok o' nd ∧
    caps_name o' nd id) (λ e, e = PUnwrap).
Proof.
  intros Ho. unfold make_init_caps.
  eapply post_bind; [by apply obj_insert_grow|]. intros [o1 [h1|?]] (Ho1 & Hg1 & Hh1); [|done].
  destruct Hh1 as (Hi1 & _ & Hx1). cbn [expect mbind outcome_bind].
  eapply post_bind; [by apply obj_insert_grow|]. intros [o2 [h2|?]] (Ho2 & Hg2 & Hh2); [|done].
  destruct Hh2 as (Hi2 & _ & Hx2). cbn [expect mbind outcome_bind].
  eapply post_bind; [by apply obj_insert_grow|]. intros [o3 [h3|?]] (Ho3 & Hg3 & Hh3); [|done].
  destruct Hh3 as (Hi3 & _ & Hx3). cbn [expect mbind outcome_bind].
  destruct (Hg3 h2 _ ltac:(lia) Hx2) as (x2 & Hx2' & _ & Ed2).
  destruct (Hg2 h1 _ ltac:(lia) Hx1) as (x1 & Hx1' & _ & Ed1).
  destruct (Hg3 h1 _ ltac:(lia) Hx1') as (y1 & Hy1 & _ & Ey1).
  assert (cnode_ok o3 cnode_new ∧ caps_name o3 cnode_new id) as [Hok0 Hnm0].
  { split; [apply cnode_ok_new|]. by intros i cap [-> _]%lookup_replicate. }
  eapply post_bind; [apply cnode_alloc_spec, (cn_len _ _ Hok0)|]. intros [n1 [i1|]]; [|done]. intros [_ ->].
  cbn [unwrap mbind outcome_bind].
  eapply post_bind; [apply cnode_alloc_spec; by rewrite length_insert; apply (cn_len _ _ Hok0)|].
  intros [n2 [i2|]]; [|done]. intros [_ ->]. cbn [unwrap mbind outcome_bind].
  eapply post_bind; [apply cnode_alloc_spec; rewrite !length_insert; apply (cn_len _ _ Hok0)|].
  intros [n3 [i3|]]; [|done]. intros [_ ->]. cbn [unwrap mbind outcome_bind].
  split; [done|]. split; [by do 2 (etrans; [eassumption|])|]. split.
  - repeat apply cnode_ok_set; try done; intros _; (split; [done|by eexists]).
  - eapply caps_name_set; [|done|done]. eapply caps_name_set; [|exact Hx2'|by rewrite Ed2].
    eapply caps_name_set; [done|exact Hy1|]. by rewrite Ey1, Ed1.
Qed.

Section theorems.
Context {PT M : Type} `{!X86_64 PT, !X86_64Laws PT} `{!PageSource M, !PageSourceLaws M}.
Implicit Types (k : Kernel PT M) (t u : Task PT) (s : Sched PT) (c : ExecCpu PT) (st : machine PT M).

(** ** Runs *)

(** How a new task gets its capabilities: [loader o id o' n] relates the object
    tables before and after and the capabilities of the task [id]. *)
Definition loader_type : Type := ObjectTable → Z → ObjectTable → CNode → Prop.

(** Any capabilities for existing objects ... *)
Definition any_loader : loader_type := λ o id o' n, table_ok o' ∧ objects_grow o o' ∧ cnode_ok o' n.
(** ... or those [make_init_caps] gives to the first task. *)
Definition init_loader : loader_type := λ o id o' n, ∃ info, make_init_caps o id cnode_new = Ret (o', n, info).

Definition machine_init (idles : list (Task PT)) (m : M) : machine PT M :=
  mk_machine (mk_kernel (sched_init idles) table_new ipc_new m []) ∅ [] [].

Inductive machine_step (hhdm : Z) (loader : loader_type) : machine PT M → machine PT M → Prop :=
  | m_syscall me c t sp user r k fr sent taken k' res :
      runs_on k fr me c t → 0 ≤ rdi r →
      syscall_handler_inner hhdm me sp user k r = Ret (k', res) →
      machine_step hhdm loader (mk_machine k fr sent taken)
        (mk_machine k' (match res with inl _ => fr | inr a => <[t_id t:=(a, r)]> fr end)
          (new_mail k k' ++ sent) taken)
  | m_resume me c t a r k fr sent taken k' r' :
      cpus (k_sched k) !! me = Some c → curr_task c ≠ 0 → tasks k !! curr_task c = Some t →
      fr !! t_id t = Some (a, r) → resume a k (t_id t) r = Ret (k', r') →
      machine_step hhdm loader (mk_machine k fr sent taken)
        (mk_machine k' (delete (t_id t) fr) sent
          (match a, mail k !! t_id t with AfterRecv, Some msg => (t_id t, msg) :: taken | _, _ => taken end))
  | m_fault me c addr error k fr sent taken k' res :
      cpus (k_sched k) !! me = Some c → curr_task c ≠ 0 →
      handle_page_fault k me addr error = Ret (k', res) →
      machine_step hhdm loader (mk_machine k fr sent taken) (mk_machine k' fr sent taken)
  | m_tick me sp k fr sent taken s' :
      (me < length (cpus (k_sched k)))%nat → scheduler_tick_irq hhdm me sp (k_sched k) = Ret s' →
      machine_step hhdm loader (mk_machine k fr sent taken) (mk_machine (with_sched s' k) fr sent taken)
  | m_idle me k fr sent taken s' :
      (me < length (cpus (k_sched k)))%nat → idle_iteration me (k_sched k) = Ret s' →
      machine_step hhdm loader (mk_machine k fr sent taken) (mk_machine (with_sched s' k) fr sent taken)
  | m_start me c sp num' k fr sent taken s' :
      cpus (k_sched k) !! me = Some c → curr_task c = 0 →
      init_scheduler_percpu hhdm (Z.of_nat me) sp (k_sched k) = Ret (num', s') →
      machine_step hhdm loader (mk_machine k fr sent taken) (mk_machine (with_sched s' k) fr sent taken)
  | m_spawn p t o' k fr sent taken s' :
      tasks k !! p = None → p ≠ 0 → task_table (k_sched k) !! t_id t = None →
      task_state t = TaskState.Ready → wake_at_tick t = 0 → (∃ cr3, cr3_of hhdm t cr3) →
      loader (k_objects k) (t_id t) o' (cnode t) →
      add_task_to_execute (store p t (k_sched k)) p = Ret s' →
      machine_step hhdm loader (mk_machine k fr sent taken)
        (mk_machine (with_sched s' (with_objects o' k)) fr sent taken).

Lemma any_init_loader o id o' n : table_ok o → init_loader o id o' n → any_loader o id o' n.
Proof.
  intros Ho [info E]. pose proof (make_init_caps_spec o id Ho) as H. rewrite E in H.
  destruct H as (? & ? & ? & _). done.
Qed.

(** ** Preservation of the invariant *)

Lemma machine_init_inv hhdm idles m B :
  Forall (λ t, ∃ cr3, cr3_of hhdm t cr3) idles → pages_out m B → kinv hhdm 0 (machine_init idles m).
Proof.
  intros Hid HB. split; simpl; try done.
  - by apply sched_init_inv.
  - apply mail_inv_new.
  - eexists _, _. apply table_inv_new.
  - by exists B.
  - assert (all_waiting ipc_new = []) as E by (vm_compute; reflexivity).
    split; simpl; rewrite ?E; try done; by intros id ?%not_elem_of_nil.
Qed.

Lemma kinv_le hhdm n n' st : n ≤ n' → kinv hhdm n st → kinv hhdm n' st.
Proof. intros Hn [H1 H2 H3 H4 H5 H6 H7]. split; try done. by eapply sched_inv_le. Qed.

Lemma spawn_inv hhdm n p t o' k fr sent taken s' :
  kinv hhdm n (mk_machine k fr sent taken) →
  tasks k !! p = None → p ≠ 0 → task_table (k_sched k) !! t_id t = None →
  task_state t = TaskState.Ready → wake_at_tick t = 0 → (∃ cr3, cr3_of hhdm t cr3) →
  any_loader (k_objects k) (t_id t) o' (cnode t) →
  add_task_to_execute (store p t (k_sched k)) p = Ret s' →
  kinv hhdm n (mk_machine (with_sched s' (with_objects o' k)) fr sent taken) ∧ cpus s' = cpus (k_sched k).
Proof.
  intros [H1 H2 H3 H4 H5 H6 H7] Hp Hp0 Hid Hst Hw Hcr (Ho & Hg & Hn) E. simpl in *.
  destruct (wp_inv _ _ _ E (spawn_spec hhdm n _ p t H1 Hp Hp0 Hid Hst Hcr)) as (Hs' & Ec & Eh & Et).
  split; [|done].
  assert (fr !! t_id t = None) as Hfr.
  { destruct (fr !! t_id t) as [f|] eqn:Ef; [|done]. destruct (H6 _ _ Ef). congruence. }
  split; simpl; try done.
  - intros q u. unfold tasks. simpl. rewrite Eh.
    intros [[<- <-]|[_ Hu]]%lookup_insert_Some; [done|]. eapply cnode_ok_grow; [done|]. by eapply H4.
  - rewrite Et. intros id f Hf. rewrite lookup_insert_ne; [by eapply H6|]. intros <-. congruence.
  - unfold tasks. simpl. rewrite Eh. destruct H7 as [Hwt Ha Hm Hk Hr Hwk]. split; try done.
    + intros q u [[<- <-]|[_ Hu]]%lookup_insert_Some; [|by apply (Ha q)]. intros [r Hin]%Hwt. congruence.
    + intros q u [[<- <-]|[_ Hu]]%lookup_insert_Some; [|by apply (Hk q)]. rewrite Hst. done.
    + intros q u r [[<- <-]|[_ Hu]]%lookup_insert_Some; [congruence|by apply (Hr q)].
    + intros q u [[<- <-]|[_ Hu]]%lookup_insert_Some; [done|by apply (Hwk q)].
Qed.

Lemma tick_inv hhdm n me sp k fr sent taken s' :
  kinv hhdm n (mk_machine k fr sent taken) → n < u64_max →
  (me < length (cpus (k_sched k)))%nat → scheduler_tick_irq hhdm me sp (k_sched k) = Ret s' →
  kinv hhdm (n + 1) (mk_machine (with_sched s' k) fr sent taken) ∧ length (cpus s') = length (cpus (k_sched k)).
Proof.
  intros Hk Hn Hme E. destruct (lookup_lt_is_Some_2 _ _ Hme) as [c Hi].
  pose proof (wp_inv _ _ _ E (scheduler_tick_spec hhdm n _ me c sp (ki_sched _ _ _ Hk) Hi Hn)) as (Hs' & Et & El & Hq & _).
  split; [|done]. set (now := next_tick _) in *.
  assert (linked (wake_due me now <$> tasks k) (k_ipc k) fr) as Hl.
  { destruct Hk as [_ _ _ _ _ _ [Hwt Ha Hm Hkk Hr Hwk]]. simpl in *.
    assert (∀ p t', (wake_due me now <$> tasks k) !! p = Some t' → ∃ t, tasks k !! p = Some t ∧ t_id t' = t_id t ∧
      (t' = t ∨ task_state t' = TaskState.Ready ∧ wake_at_tick t' = 0 ∧ ∃ r, fr !! t_id t = Some (AfterSleep, r))) as Hb.
    { intros p t'. rewrite lookup_fmap. destruct (tasks k !! p) as [t|] eqn:Ht; [|done]. simpl. intros [= <-]. exists t.
      split; [done|]. unfold wake_due. destruct (_ && _) eqn:Ed; [|auto]. split; [done|]. right. split; [done|]. split; [done|].
      apply andb_true_iff in Ed as [_ Ed]. unfold due in Ed. rewrite !andb_true_iff in Ed. destruct Ed as [[_ Ed] _].
      apply negb_true_iff, Z.eqb_neq in Ed. by apply (Hwk p t Ht Ed). }
    split; try done.
    - intros p t' (t & Ht & Ei & [->|(_ & _ & r & Hf)])%Hb; [by apply (Ha p)|]. rewrite Ei. intros [r' Hf']%Hwt. congruence.
    - intros p t' (t & Ht & Ei & [->|(-> & _)])%Hb; [by apply (Hkk p)|done].
    - intros p t' r (t & Ht & Ei & [->|(_ & _ & r' & Hf)])%Hb; [by apply (Hr p)|]. rewrite Ei, Hf. done.
    - intros p t' (t & Ht & Ei & [->|(_ & -> & _)])%Hb; [by apply (Hwk p)|done]. }
  destruct Hk as [H1 H2 H3 H4 H5 H6 H7]. simpl in *. split; simpl; try done.
  - intros p t' Ht'. unfold tasks in *. simpl in *. specialize (Hq p). rewrite Ht' in Hq.
    rewrite lookup_fmap in Hq. destruct (heap (k_sched k) !! p) as [t|] eqn:Ht; [|inversion Hq].
    inversion Hq as [? ? (_ & Ec & _)|]; subst. rewrite Ec. unfold wake_due. destruct (_ && _); by apply (H4 p t).
  - by rewrite Et.
  - by eapply linked_quiet.
Qed.

Lemma machine_step_inv hhdm n st st' :
  machine_step hhdm any_loader st st' → kinv hhdm n st → n + 4 ≤ u64_max →
  (length (cpus (k_sched (m_kernel st))) ≤ 5)%nat →
  kinv hhdm (n + 4) st' ∧ length (cpus (k_sched (m_kernel st'))) = length (cpus (k_sched (m_kernel st))).
Proof.
  intros Hst Hk Hn Hc.
  assert (∀ n', n' ≤ n + 4 → kinv hhdm n' st' → kinv hhdm (n + 4) st') as Hle by (intros n' Hn'; by apply kinv_le).
  destruct Hst as [me c t sp user r k fr sent taken k' res Hro Hr E|me c t a r k fr sent taken k' r' Hi Hcu Ht Hf E
    |me c addr error k fr sent taken k' res Hi Hcu E|me sp k fr sent taken s' Hme E|me k fr sent taken s' Hme E
    |me c sp num' k fr sent taken s' Hi Hcu E|p t o' k fr sent taken s' Hp Hp0 Hid Hrd Hw Hcr Hl E]; simpl in *.
  - pose proof (syscall_dispatcher_spec hhdm n k fr sent taken me c t sp user r Hk Hro Hr) as Hd.
    unfold syscall_handler_inner in E. destruct (syscall_dispatcher hhdm me sp user k r) as [[k1 v]|?|]; try done.
    simpl in E. destruct Hd as (_ & El & Hv).
    destruct v as [v|a]; injection E as <- <-; (split; [apply (Hle n); [lia|done]|done]).
  - pose proof (wp_inv _ _ _ E (resume_spec hhdm n k fr sent taken me c t a r Hk Hi Hcu Ht Hf)) as [[Es _] Hr].
    split; [|by rewrite Es]. apply (Hle n); [lia|]. destruct a; [|by destruct (mail k !! t_id t); apply Hr].
    destruct Hr as (msg & -> & Hk' & _). done.
  - pose proof (handle_page_fault_spec hhdm n k fr sent taken me c addr error Hk Hi Hcu) as Hd. rewrite E in Hd.
    split; [apply (Hle n); [lia|done]|]. unfold handle_page_fault in E. destruct (_ =? 0); [by injection E as <- _|].
    destruct (current_facts _ _ _ _ _ _ _ _ Hk Hi Hcu) as (t & _ & _ & Eid & Elk). rewrite Eid in E. simpl in E.
    rewrite Elk in E. simpl in E. destruct (page_fault _ _ _ _) as [[[a m'] r]|?|]; simpl in E; try done.
    by injection E as <- _.
  - destruct (tick_inv hhdm n me sp k fr sent taken s' Hk ltac:(lia) Hme E) as [Hk' El].
    split; [apply (Hle (n + 1)); [lia|done]|done].
  - pose proof (idle_iteration_spec hhdm n _ me (ki_sched _ _ _ Hk) Hme Hc Hn) as Hd. simpl in Hd. rewrite E in Hd.
    destruct Hd as (Hs' & El & Eh & Et). split; [|done]. eapply kinv_quiet; try done.
    unfold tasks. rewrite Eh. reflexivity.
  - pose proof (wp_inv _ _ _ E (init_scheduler_percpu_spec hhdm n _ me c _ sp (ki_sched _ _ _ Hk) Hi eq_refl Hcu))
      as (_ & Hs' & El & Eh & Et & _). split; [|done]. apply (Hle n); [lia|]. eapply kinv_quiet; try done.
    unfold tasks. rewrite Eh. reflexivity.
  - destruct (spawn_inv hhdm n p t o' k fr sent taken s' Hk Hp Hp0 Hid Hrd Hw Hcr Hl E) as [Hk' Ec].
    rewrite Ec. split; [apply (Hle n); [lia|done]|done].
Qed.

Lemma machine_reachable hhdm idles m B j st :
  Forall (λ t, ∃ cr3, cr3_of hhdm t cr3) idles → (length idles ≤ 5)%nat → pages_out m B →
  4 * Z.of_nat j ≤ u64_max → nsteps (machine_step hhdm any_loader) j (machine_init idles m) st →
  kinv hhdm (4 * Z.of_nat j) st ∧ length (cpus (k_sched (m_kernel st))) = length idles.
Proof.
  intros Hid Hlen HB Hj Hsteps. revert st Hj Hsteps. induction j as [|j IH]; intros st Hj Hsteps.
  - inversion Hsteps; subst. split; [by eapply machine_init_inv|]. simpl. by rewrite length_fmap.
  - apply nsteps_inv_r in Hsteps as (st1 & Hsteps & Hst). destruct (IH st1) as [Hk1 Hl1]; [lia|done|].
    destruct (machine_step_inv _ _ _ _ Hst Hk1) as [Hk Hl]; [lia|lia|].
    split; [|congruence]. by replace (4 * Z.of_nat (S j)) with (4 * Z.of_nat j + 4) by lia.
Qed.

(** ** Theorems *)

(** C2: messages arrive.  In every state that a machine of at most five CPUs can
    reach, the messages handed over so far are those taken by their receivers
    together with those in the mailboxes.  When a task suspended in a receive or
    a call is scheduled again there is a message in its mailbox, one that was
    sent to it, and the call returns with its label and its four words in the
    registers.  The IPC calls other than the creation of an endpoint never
    panic, whatever their arguments. *)
Theorem receives_get_messages hhdm idles m B j st :
  Forall (λ t, ∃ cr3, cr3_of hhdm t cr3) idles → (length idles ≤ 5)%nat → pages_out m B →
  4 * Z.of_nat j ≤ u64_max → nsteps (machine_step hhdm any_loader) j (machine_init idles m) st →
  let k := m_kernel st in
  m_sent st ≡ₚ m_taken st ++ map_to_list (mail k) ∧
  (∀ me c t r, cpus (k_sched k) !! me = Some c → curr_task c ≠ 0 → tasks k !! curr_task c = Some t →
    m_frames st !! t_id t = Some (AfterRecv, r) →
    ∃ msg, (t_id t, msg) ∈ m_sent st ∧ mail k !! t_id t = Some msg ∧
      wp (resume AfterRecv k (t_id t) r) (λ '(_, r'), rdi r' = msg_label msg ∧
        [rsi r'; rdx r'; r10 r'; r8 r'] = msg_data msg ∧
        syscall_number_or_irq_or_error_code r' = ret_code IpcOk)) ∧
  (∀ me c t sp user r, runs_on k (m_frames st) me c t →
    syscall_number_or_irq_or_error_code r ∈ ipc_calls →
    wp (syscall_dispatcher hhdm me sp user k r) (λ _, True)).
Proof.
  intros Hid Hlen HB Hj Hsteps k. destruct (machine_reachable _ _ _ _ _ _ Hid Hlen HB Hj Hsteps) as [Hk _].
  destruct st as [k0 fr sent taken]. cbn [m_kernel m_frames m_sent m_taken] in *. subst k. pose proof (mv_conserved _ (ki_mail _ _ _ Hk)) as Hcons.
  cbn in Hcons. split; [done|]. split.
  - intros me c t r Hi Hc Ht Hf.
    destruct (wp_elim _ _ (resume_spec _ _ _ _ _ _ _ _ _ _ _ Hk Hi Hc Ht Hf)) as ([k' r'] & E & _ & msg & Hm & _ & H1 & H2 & H3).
    exists msg. split; [|split; [done|by rewrite E; apply wp_ret]]. rewrite Hcons. apply elem_of_app. right.
    by apply elem_of_map_to_list.
  - intros me c t sp user r Hro Hnr. eapply wp_mono; [by eapply ipc_dispatch|]. by intros [k' v].
Qed.


(** ** Tasks created by the loader *)

Definition all_named k : Prop := ∀ p t, tasks k !! p = Some t → caps_name (k_objects k) (cnode t) (t_id t).

Lemma all_named_quiet k s' :
  (∀ p, option_Forall2 (λ t t', t_id t' = t_id t ∧ cnode t' = cnode t) (tasks k !! p) (heap s' !! p)) →
  all_named k → all_named (with_sched s' k).
Proof.
  intros Hq Hk p t' Ht'. unfold tasks in *. simpl in *. specialize (Hq p). rewrite Ht' in Hq.
  inversion Hq as [t ? [Ei Ec]|]; subst. rewrite Ei, Ec. by apply (Hk p).
Qed.

Lemma all_named_call k k' p t :
  confined k k' p t → tasks k !! p = Some t → (∀ q u, tasks k !! q = Some u → cnode_ok (k_objects k) (cnode u)) →
  all_named k → all_named k'.
Proof.
  intros [Ht Hnn Hown Hg _ _] Hp Hok Hk q u' Hu'.
  destruct (tasks k !! q) as [u|] eqn:Hu; [|by rewrite (Hnn q Hu) in Hu'].
  destruct (Ht q u Hu) as (u0 & Hu0 & Ei & Ecn & _). simplify_eq.
  destruct (decide (q = p)) as [->|Hne].
  - simplify_eq. intros i cap Hi Hn. destruct (Hown _ i cap Hu' Hi Hn) as [Hi'|(_ & x & Hx & Hd)].
    + rewrite Ei. by apply (caps_name_grow _ _ _ _ Hg (Hok _ _ Hp) (Hk _ _ Hp) i).
    + exists x. by rewrite Hd, Ei.
  - rewrite (Ecn Hne), Ei. eapply caps_name_grow; [done|by apply (Hok q)|by apply (Hk q)].
Qed.

Lemma heap_quiet_caps (h h' : gmap Z (Task PT)) p :
  heap_quiet h h' → option_Forall2 (λ t t', t_id t' = t_id t ∧ cnode t' = cnode t) (h !! p) (h' !! p).
Proof. intros Hq. destruct (Hq p) as [t t' ((Ei & _) & Ec & _)|]; by constructor. Qed.

Lemma all_named_step hhdm n st st' :
  machine_step hhdm init_loader st st' → kinv hhdm n st → n + 4 ≤ u64_max →
  (length (cpus (k_sched (m_kernel st))) ≤ 5)%nat → all_named (m_kernel st) → all_named (m_kernel st').
Proof.
  intros Hst Hk Hn Hc Hnm.
  destruct Hst as [me c t sp user r k fr sent taken k' res Hro Hr E|me c t a r k fr sent taken k' r' Hi Hcu Ht Hf E
    |me c addr error k fr sent taken k' res Hi Hcu E|me sp k fr sent taken s' Hme E|me k fr sent taken s' Hme E
    |me c sp num' k fr sent taken s' Hi Hcu E|p t o' k fr sent taken s' Hp Hp0 Hid Hrd Hw Hcr Hl E]; simpl in *.
  - pose proof (syscall_dispatcher_spec hhdm n k fr sent taken me c t sp user r Hk Hro Hr) as Hd.
    unfold syscall_handler_inner in E. destruct (syscall_dispatcher hhdm me sp user k r) as [[k1 v]|?|]; try done.
    simpl in E. destruct Hd as (Hcf & _ & _). assert (k' = k1) as -> by by destruct v; injection E.
    eapply all_named_call; [done|by eapply ro_task|apply (ki_caps _ _ _ Hk)|done].
  - pose proof (wp_inv _ _ _ E (resume_spec hhdm n k fr sent taken me c t a r Hk Hi Hcu Ht Hf)) as [[Es Eo] _].
    intros p u. unfold tasks. rewrite Es, Eo. apply Hnm.
  - unfold handle_page_fault in E. destruct (_ =? 0); [by injection E as <- _|].
    destruct (current_facts _ _ _ _ _ _ _ _ Hk Hi Hcu) as (t & Ht & _ & Eid & Elk). rewrite Eid in E. simpl in E.
    rewrite Elk in E. simpl in E. destruct (page_fault _ _ _ _) as [[[a m'] r]|?|]; simpl in E; try done.
    injection E as <- _. intros p u. unfold tasks. simpl.
    intros [[<- <-]|[_ Hu]]%lookup_insert_Some; [by apply (Hnm (curr_task c) t)|by apply (Hnm p u)].
  - destruct (lookup_lt_is_Some_2 _ _ Hme) as [c Hi].
    pose proof (wp_inv _ _ _ E (scheduler_tick_spec hhdm n _ me c sp (ki_sched _ _ _ Hk) Hi ltac:(lia))) as (_ & _ & _ & Hq & _).
    apply all_named_quiet; [|done]. intros p.
    pose proof (heap_quiet_caps _ _ p Hq) as Hp. rewrite lookup_fmap in Hp. unfold tasks. simpl in Hp.
    destruct (heap (k_sched k) !! p) as [t|]; inversion Hp as [? t' [Ei Ec]|]; subst; constructor.
    unfold wake_due in *. by destruct (_ && _).
  - pose proof (idle_iteration_spec hhdm n _ me (ki_sched _ _ _ Hk) Hme Hc Hn) as Hd. simpl in Hd. rewrite E in Hd.
    destruct Hd as (_ & _ & Eh & _). intros p t. unfold tasks. simpl. rewrite Eh. apply Hnm.
  - pose proof (wp_inv _ _ _ E (init_scheduler_percpu_spec hhdm n _ me c _ sp (ki_sched _ _ _ Hk) Hi eq_refl Hcu))
      as (_ & _ & _ & Eh & _). intros p t. unfold tasks. simpl. rewrite Eh. apply Hnm.
  - destruct Hl as [info El]. pose proof (make_init_caps_spec (k_objects k) (t_id t) (ki_table _ _ _ Hk)) as Hm.
    rewrite El in Hm. destruct Hm as (_ & Hg & _ & Hnew).
    pose proof (wp_inv _ _ _ E (spawn_spec hhdm n _ p t (ki_sched _ _ _ Hk) Hp Hp0 Hid Hrd Hcr)) as (_ & _ & Eh & _).
    intros q u. unfold tasks. simpl. rewrite Eh. intros [[<- <-]|[_ Hu]]%lookup_insert_Some; [done|].
    eapply caps_name_grow; [done|by apply (ki_caps _ _ _ Hk q u)|by apply (Hnm q u)].
Qed.

Lemma init_step_any hhdm st st' :
  table_ok (k_objects (m_kernel st)) → machine_step hhdm init_loader st st' → machine_step hhdm any_loader st st'.
Proof.
  intros Ho Hst. destruct Hst; try (by econstructor). eapply m_spawn; try done. by apply any_init_loader.
Qed.

(** C20: tasks created by [make_init_caps] never obtain a capability that names
    another task.  Whatever calls they make, every capability a task holds is
    for its own thread, address space or capability slots, or for an endpoint
    with its own number; so no task can ever address another. *)
Theorem capabilities_stay_home hhdm idles m B j st p t ty d rights :
  Forall (λ t, ∃ cr3, cr3_of hhdm t cr3) idles → (length idles ≤ 5)%nat → pages_out m B →
  4 * Z.of_nat j ≤ u64_max → nsteps (machine_step hhdm init_loader) j (machine_init idles m) st →
  tasks (m_kernel st) !! p = Some t → holds (k_objects (m_kernel st)) (cnode t) ty d rights →
  names_task (t_id t) d.
Proof.
  intros Hid Hlen HB Hj Hsteps Ht Hh.
  cut (all_named (m_kernel st)).
  { intros Hnm. destruct Hh as (i & cap & x & Hi & Hn & _ & Hx & _ & <-).
    destruct (Hnm p t Ht i cap Hi Hn) as (x' & Hx' & Hd). by simplify_eq. }
  clear p t Ht Hh.
  cut (nsteps (machine_step hhdm any_loader) j (machine_init idles m) st ∧ all_named (m_kernel st)); [tauto|].
  revert st Hj Hsteps. induction j as [|j IH]; intros st Hj Hsteps.
  - inversion Hsteps; subst. split; [constructor|]. done.
  - apply nsteps_inv_r in Hsteps as (st1 & Hsteps & Hst). destruct (IH st1) as [Hany Hnm]; [lia|done|].
    assert (4 * Z.of_nat j ≤ u64_max) as Hj' by lia.
    destruct (machine_reachable _ _ _ _ _ _ Hid Hlen HB Hj' Hany) as [Hk Hl].
    split; [eapply nsteps_r; [done|]; apply init_step_any; [apply (ki_table _ _ _ Hk)|done]|].
    eapply (all_named_step hhdm (4 * Z.of_nat j)); [done|done|lia|lia|done].
Qed.

(** ** Running the machine *)

Definition do_spawn (p : Z) t (o' : ObjectTable) st : machine PT M :=
  match add_task_to_execute (store p t (k_sched (m_kernel st))) p with
  | Ret s' => mk_machine (with_sched s' (with_objects o' (m_kernel st))) (m_frames st) (m_sent st) (m_taken st)
  | _ => st
  end.
Definition do_tick (hhdm : Z) (me : nat) (sp : Z) st : machine PT M :=
  match scheduler_tick_irq hhdm me sp (k_sched (m_kernel st)) with
  | Ret s' => mk_machine (with_sched s' (m_kernel st)) (m_frames st) (m_sent st) (m_taken st)
  | _ => st
  end.
Definition do_idle (me : nat) st : machine PT M :=
  match idle_iteration me (k_sched (m_kernel st)) with
  | Ret s' => mk_machine (with_sched s' (m_kernel st)) (m_frames st) (m_sent st) (m_taken st)
  | _ => st
  end.
Definition do_call (hhdm : Z) (me : nat) (sp id : Z) (r : TaskRegisters) st : machine PT M :=
  match syscall_handler_inner hhdm me sp (λ _, 0) (m_kernel st) r with
  | Ret (k', res) =>
      mk_machine k' (match res with inl _ => m_frames st | inr a => <[id:=(a, r)]> (m_frames st) end)
        (new_mail (m_kernel st) k' ++ m_sent st) (m_taken st)
  | _ => st
  end.

Definition returned {A} (m : outcome A) : bool := match m with Ret _ => true | _ => false end.

Lemma do_spawn_step hhdm loader p t o' st :
  tasks (m_kernel st) !! p = None → p ≠ 0 → task_table (k_sched (m_kernel st)) !! t_id t = None →
  task_state t = TaskState.Ready → wake_at_tick t = 0 → (∃ cr3, cr3_of hhdm t cr3) →
  loader (k_objects (m_kernel st)) (t_id t) o' (cnode t) →
  machine_step hhdm loader st (do_spawn p t o' st).
Proof.
  intros ? ? ? ? ? ? ?. unfold do_spawn. destruct st as [k fr sent taken]. simpl in *.
  unfold add_task_to_execute, table_insert, deref. simpl. rewrite lookup_insert_eq. simpl.
  eapply m_spawn; try done. unfold add_task_to_execute, table_insert, deref. simpl. by rewrite lookup_insert_eq.
Qed.

Lemma do_tick_step hhdm loader me sp st :
  (me < length (cpus (k_sched (m_kernel st))))%nat →
  returned (scheduler_tick_irq hhdm me sp (k_sched (m_kernel st))) = true →
  machine_step hhdm loader st (do_tick hhdm me sp st).
Proof.
  unfold do_tick. destruct st as [k fr sent taken]. cbn [m_kernel m_frames m_sent m_taken].
  destruct (scheduler_tick_irq _ _ _ _) eqn:E; try done. intros. by eapply m_tick.
Qed.

Lemma do_idle_step hhdm loader me st :
  (me < length (cpus (k_sched (m_kernel st))))%nat →
  returned (idle_iteration me (k_sched (m_kernel st))) = true →
  machine_step hhdm loader st (do_idle me st).
Proof.
  unfold do_idle. destruct st as [k fr sent taken]. cbn [m_kernel m_frames m_sent m_taken].
  destruct (idle_iteration _ _) eqn:E; try done. intros. by eapply m_idle.
Qed.

Lemma do_call_step hhdm loader me sp c t r st :
  runs_on (m_kernel st) (m_frames st) me c t → 0 ≤ rdi r →
  returned (syscall_handler_inner hhdm me sp (λ _, 0) (m_kernel st) r) = true →
  machine_step hhdm loader st (do_call hhdm me sp (t_id t) r st).
Proof.
  unfold do_call. destruct st as [k fr sent taken]. cbn [m_kernel m_frames m_sent m_taken].
  destruct (syscall_handler_inner _ _ _ _ _ _) as [[k' res]|?|] eqn:E; try done. intros. by eapply m_syscall.
Qed.
End theorems.
