(* ===== verification/MemTests.v ===== *)
(** * Starting the memory subsystem

    Models [init_memory_subsys] of kernel/src/arch/amd64/memory/mod.rs: physical
    memory, the kernel page table and the test of both in mem_subsys_tests.rs,
    which every boot runs.  The test maps a cleared page, reads it, writes it,
    reads it back, and undoes everything; the theorem says that no boot stops
    in one of its assertions and what it leaves behind. *)
From stdpp Require Import functions.
From S2P Require Import Memblock Sparsemem Zones Paging PagingRef.
From S2P Require Import Prelude Misc Frame ByteMem Slab SlabMem SlabLists SlabCaches SlabHeap SlabGrow SlabOps SlabFree Kmalloc HeapSpec HeapOps HeapMachine ZonesHeap PhysMem HeapTheorems.
From S2P Require Import Loader PagesRef.
#[local] Open Scope Z_scope.

Definition SELFTEST_VADDR : Z := 0x10000.
Definition SELFTEST_VALUE : Z := 0xDEADC0DEDEADC0DE.
Definition SELFTEST_FLAGS {PT} `{!X86_64 PT} : Z := flags_of [b_present page_bits; b_writable page_bits].

Section selftest.
Context {P PT : Type} {HP : HeapPages P} `{!X86_64 PT} {XL : X86_64Laws PT} (hhdm : Z).

(** A word read by the kernel at the virtual address [va]. *)
Definition vread (pt : PT) (va : Z) (mem : Z → Z) : outcome Z :=
  match translate pt (page_of va) with
  | Some (frame, _) => Ret (load 8 mem (hhdm + frame + va mod PAGE_SIZE))
  | None => Panic PExplicit
  end.

Definition selftest_all_memory_subsystem (pt : PT) (m : P * (Z → Z)) : outcome (PT * (P * (Z → Z))) :=
  '(m, r) ← page_alloc m 0 SAFE_KERNEL_PAGES;
  phys ← unwrap r;
  virt ← virt_new SELFTEST_VADDR;
  '(pt, m) ← kmap_page pt m virt phys SELFTEST_FLAGS;
  v ← vread pt virt m.2;
  _ ← assert (v =? 0);
  mem ← vwrite hhdm pt virt SELFTEST_VALUE m.2;
  v ← vread pt virt mem;
  _ ← assert (v =? SELFTEST_VALUE);
  pt ← kunmap_page pt virt;
  m ← page_free (m.1, mem) phys;
  Ret (pt, m).
End selftest.

(** The third result records what the tests of physical memory keep. *)
Definition init_memory_subsys {PT} `{!X86_64 PT} {XL : X86_64Laws PT} `{!OffsetPageTable PT} (pmm_tests : bool) (hhdm cr3 : Z)
    (mmap : list Entry) (mem : Z → Z) : outcome (heap zpages * PT * ledger) :=
  '(h, L) ← init_physical_memory pmm_tests hhdm mmap mem;
  pt ← init_virtual_memory hhdm cr3 hhdm (h_mem h);
  '(pt, m) ← selftest_all_memory_subsystem hhdm pt (h_pages h, h_mem h);
  Ret (mk_heap (h_slab h) m.1 m.2, pt, L).

(** ** Page tables as clients of the heap's pages

    The frames a page table takes are entries of the ledger. *)

Section tables.
Context {P PT : Type} {HP : HeapPages P} {X : X86_64 PT} {XL : X86_64Laws PT} (hhdm : Z) {HL : HeapPagesLaws P hhdm}.
Implicit Types (m : P * (Z → Z)) (L : ledger) (D : gmap Z nat).
Context (hhdm_high : 2 ^ 64 - 2 ^ 47 ≤ hhdm) (hhdm_align : (PAGE_SIZE | hhdm)).

#[local] Instance shift_inj : Inj (=) (=) (λ a, a + hhdm).
Proof. intros a b. lia. Qed.

Definition table_pages D : ledger := kmap (λ a, a + hhdm) (OPages <$> D).

Lemma table_pages_lookup D a : table_pages D !! (a + hhdm) = OPages <$> D !! a.
Proof. unfold table_pages. rewrite (lookup_kmap (λ a, a + hhdm) _ a). apply lookup_fmap. Qed.

Lemma table_pages_insert D a o : table_pages (<[a:=o]> D) = <[a + hhdm:=OPages o]> (table_pages D).
Proof. unfold table_pages. by rewrite fmap_insert, (kmap_insert (λ a, a + hhdm)). Qed.

Lemma table_pages_delete D a : table_pages (delete a D) = delete (a + hhdm) (table_pages D).
Proof. unfold table_pages. by rewrite fmap_delete, (kmap_delete (λ a, a + hhdm)). Qed.

(** The slab allocator [s], the owners [L0] and their memory [mem0] stay. *)
Context (s : SlabAllocator) (L0 : ledger) (mem0 : Z → Z).

Definition in_ledger m D : Prop :=
  L0 ##ₘ table_pages D ∧ heap_ok (hhdm:=hhdm) (mk_heap s m.1 m.2) (L0 ∪ table_pages D) ∧
  ∀ q w, L0 !! q = Some w → ∀ a, range q (o_size w) a → m.2 a = mem0 a.

Lemma in_ledger_alloc m D o :
  in_ledger m D →
  wp (page_alloc m o SAFE_KERNEL_PAGES) (λ '(m', r),
    match r with Some a => D !! a = None ∧ in_ledger m' (<[a:=o]> D) | None => in_ledger m' D end).
Proof using hhdm_high X.
  destruct m as [p mem]. intros (Hd & Hok & Hk). unfold page_alloc, heap_source. cbn [fst snd] in *.
  pose proof (pages_ok (X:=X) hhdm_high _ _ o true Hok) as Hp. cbn [heap_do h_pages h_mem] in Hp.
  destruct (hp_alloc p mem o SAFE_KERNEL_PAGES) as [[[p' mem'] r]| |]; [|done|done]. cbn [mbind outcome_bind wp] in *.
  destruct Hp as (Hok' & Hkeep & Hr). unfold set_mem, set_pages in *. cbn [h_slab h_pages h_mem] in *.
  assert (∀ q w, L0 !! q = Some w → ∀ a, range q (o_size w) a → mem' a = mem0 a) as Hk'.
  { intros q w Hq a Ha. destruct (Hkeep q w ltac:(by apply lookup_union_Some_l) ltac:(by intros [])) as [_ Hm].
    cbn [h_mem] in Hm. rewrite Hm by done. by apply (Hk q w). }
  destruct r as [a|]; [|by split].
  destruct (owner_place (hhdm:=hhdm) _ _ _ _ Hok' (lookup_insert_eq _ _ _)) as (Hlo & _).
  rewrite decide_False in Hr by lia. destruct Hr as (Hn & _ & _). apply lookup_union_None in Hn as [Hn0 Hn].
  rewrite table_pages_lookup in Hn. apply fmap_None in Hn. split; [done|]. unfold in_ledger. rewrite table_pages_insert.
  split; [by apply map_disjoint_insert_r|]. by rewrite <-insert_union_r.
Qed.

Lemma in_ledger_free m D a o :
  in_ledger m D → D !! a = Some o → wp (page_free m a) (λ m', in_ledger m' (delete a D)).
Proof using hhdm_high X.
  destruct m as [p mem]. intros (Hd & Hok & Hk) Ha. unfold page_free, heap_source. cbn [fst snd] in *.
  assert (table_pages D !! (a + hhdm) = Some (OPages o)) as Ht by (by rewrite table_pages_lookup, Ha).
  pose proof (free_pages_ok (X:=X) hhdm_high _ _ a o Hok ltac:(by apply lookup_union_Some_r)) as Hp. cbn [heap_do h_pages h_mem] in Hp.
  destruct (hp_free p a) as [p'| |]; [|done|done]. cbn [mbind outcome_bind wp] in *. destruct Hp as (Hok' & _ & _).
  unfold in_ledger. rewrite table_pages_delete. split; [by apply map_disjoint_delete_r|]. split; [|done].
  rewrite delete_union, (delete_id L0) in Hok'; [done|]. by eapply map_disjoint_Some_l.
Qed.

Definition ledger_laws : PageSourceLaws (P * (Z → Z)).
Proof using hhdm_high X HL s L0 mem0.
  refine {| pages_out := in_ledger; page_alloc_law := in_ledger_alloc; page_free_law := in_ledger_free |}.
  - intros m D a o (Hd & (B & V & [Hh _] & Hho) & _) Ha.
    destruct (ho_cell _ _ _ Hho (a + hhdm) (OPages o)) as (r & Hc & Hf).
    { apply lookup_union_Some_r; [done|]. by rewrite table_pages_lookup, Ha. }
    cbn [fits] in Hf. subst r. destruct Hc as [Hc _]. rewrite Z.add_simpl_r in Hc.
    destruct (hp_out_place _ _ _ _ (hr_pages Hh) Hc) as (H0 & Hal & Hle & _). split; [done|]. split; [|done].
    apply Z.mod_divide; [done|]. etransitivity; [|exact Hal]. unfold block_bytes. apply Z.divide_factor_l.
  - intros m D a o a' o' (Hd & Hok & _) Ha Ha' Hne.
    assert (∀ b o, D !! b = Some o → (L0 ∪ table_pages D) !! (b + hhdm) = Some (OPages o)) as Hl.
    { intros b x Hb. apply lookup_union_Some_r; [done|]. by rewrite table_pages_lookup, Hb. }
    pose proof (owners_apart (hhdm:=hhdm) _ _ _ _ _ _ Hok (Hl _ _ Ha) (Hl _ _ Ha') ltac:(lia)) as Hap.
    cbn [o_size] in Hap. unfold ByteMem.apart in Hap. lia.
Defined.
End tables.

(** ** The test passes *)

(** A cleared page reads as zero. *)
Lemma load_cleared n mem a : (∀ x, range a (Z.of_nat n) x → mem x = 0) → load n mem a = 0.
Proof.
  revert a. induction n as [|n IH]; intros a Hz; [done|]. cbn [load]. rewrite (IH (a + 1)).
  - rewrite Hz; [done|]. unfold range. lia.
  - intros x Hx. apply Hz. unfold range in *. lia.
Qed.

Section proofs.
Context {P PT : Type} {HP : HeapPages P} {X : X86_64 PT} {XL : X86_64Laws PT} {hhdm : Z} {HL : HeapPagesLaws P hhdm}.
Implicit Types (h : heap P) (m : P * (Z → Z)) (pt : PT) (L : ledger) (D : gmap Z nat).
Context (hhdm_high : 2 ^ 64 - 2 ^ 47 ≤ hhdm) (hhdm_align : (PAGE_SIZE | hhdm)).
#[local] Notation heap_ok := (heap_ok (hhdm:=hhdm)).
#[local] Notation table_pages := (table_pages hhdm).

Lemma selftest_flags : Z.testbit SELFTEST_FLAGS (b_present page_bits) = true ∧ Z.testbit SELFTEST_FLAGS (b_writable page_bits) = true.
Proof using XL.
  pose proof (proj2 page_bits_law) as Hr. rewrite !Forall_cons in Hr. destruct Hr as (? & ? & _).
  assert (Forall (λ i, 0 ≤ i < 64) [b_present page_bits; b_writable page_bits]) as Hf by (repeat (constructor; [done|]); constructor).
  split; (apply page_flags_present; [|exact Hf]); [by left|by right; left].
Qed.

(** Mapping a page: the frames taken for it become entries of the ledger. *)
Lemma kmap_page_ledger pt h L virt phys flags :
  heap_ok h L → Z.testbit flags (b_present page_bits) = true →
  post (kmap_page pt (h_pages h, h_mem h) virt phys flags) (λ '(pt', m'),
    level_4_table pt' = level_4_table pt ∧ translate pt (page_of virt) = None ∧
    mapped_at pt pt' (page_of virt) (page_of phys) flags ∧ ∃ D, in_ledger hhdm (h_slab h) L (h_mem h) m' D)
    (λ e, e = PUnwrap ∧ ∃ pt' m' s, map_single_page pt (h_pages h, h_mem h) virt phys flags = Ret (pt', m', Err s)).
Proof using hhdm_high XL.
  intros Hok Hf. unfold kmap_page.
  assert (in_ledger hhdm (h_slab h) L (h_mem h) (h_pages h, h_mem h) ∅) as H0.
  { unfold in_ledger, MemTests.table_pages. rewrite fmap_empty, kmap_empty, map_union_empty. split; [apply map_disjoint_empty_r|].
    split; [|done]. by destruct h. }
  destruct (wp_elim _ _ (map_single_page_spec (PageSourceLaws0 := ledger_laws (X:=X) hhdm hhdm_high (h_slab h) L (h_mem h)) pt _ ∅ virt phys flags
    H0 Hf)) as ([[pt' m'] r] & E & (D & _ & HD) & Hroot & Hr).
  rewrite E. cbn [mbind outcome_bind]. destruct r as [[]|s]; cbn [expect mbind outcome_bind post]; [|split; [done|by eauto]].
  destruct Hr as [Hn Hm]. do 3 (split; [done|]). by exists D.
Qed.
(** Accesses at the start of a mapped page go to its frame. *)
Lemma vread_mapped pt va mem f fl : translate pt va = Some (f, fl) → (PAGE_SIZE | va) → vread hhdm pt va mem = Ret (load 8 mem (f + hhdm)).
Proof.
  intros Ht Hal. apply Z.mod_divide in Hal; [|done]. unfold vread, page_of. rewrite Hal, Z.sub_0_r, Ht. do 2 f_equal. lia.
Qed.

Lemma vwrite_mapped pt va v mem f fl :
  translate pt va = Some (f, fl) → Z.testbit fl (b_writable page_bits) = true → (PAGE_SIZE | va) →
  vwrite hhdm pt va v mem = Ret (ByteMem.store 8 (f + hhdm) v mem).
Proof.
  intros Ht Hw Hal. apply Z.mod_divide in Hal; [|done]. unfold vwrite, page_of. rewrite Hal, Z.sub_0_r, Ht, Hw. do 2 f_equal. lia.
Qed.

(** The accesses of the test, on a cleared page. *)
Lemma selftest_accesses pt mem a fl {A} (f : (Z → Z) → outcome A) Q R :
  translate pt SELFTEST_VADDR = Some (a, fl) → Z.testbit fl (b_writable page_bits) = true →
  (∀ x, range (a + hhdm) PAGE_SIZE x → mem x = 0) →
  post (f (ByteMem.store 8 (a + hhdm) SELFTEST_VALUE mem)) Q R →
  post (v ← vread hhdm pt SELFTEST_VADDR mem;
    _ ← assert (v =? 0);
    mem ← vwrite hhdm pt SELFTEST_VADDR SELFTEST_VALUE mem;
    v ← vread hhdm pt SELFTEST_VADDR mem;
    _ ← assert (v =? SELFTEST_VALUE);
    f mem) Q R.
Proof.
  intros Ht Hw Hz Hf. assert (PAGE_SIZE | SELFTEST_VADDR) as Hal by by exists 16.
  rewrite (vread_mapped _ _ _ _ _ Ht Hal). cbn [mbind outcome_bind].
  rewrite load_cleared by (intros x Hx; apply Hz; unfold range, PAGE_SIZE in *; lia).
  cbn [Z.eqb assert mbind outcome_bind]. rewrite (vwrite_mapped _ _ _ _ _ _ Ht Hw Hal). cbn [mbind outcome_bind].
  rewrite (vread_mapped _ _ _ _ _ Ht Hal). cbn [mbind outcome_bind]. rewrite load_store_eq by done. by rewrite Z.eqb_refl.
Qed.

(** What the test leaves: every mapping is as before, and the heap with its
    owners and their memory, plus the frames taken for page tables. *)
Definition selftest_done h L pt pt' m' : Prop :=
  (∀ page, translate pt' page = translate pt page) ∧ level_4_table pt' = level_4_table pt ∧
  translate pt SELFTEST_VADDR = None ∧ ∃ D, in_ledger hhdm (h_slab h) L (h_mem h) m' D.

(** There is no page for the test, or the crate refuses to map it. *)
Definition selftest_stops pt (p : P) mem : Prop :=
  hp_none (hhdm := hhdm) p 0 ∨
  ∃ m1 a pt' m' s, page_alloc (p, mem) 0 SAFE_KERNEL_PAGES = Ret (m1, Some a) ∧
    map_single_page pt m1 SELFTEST_VADDR a SELFTEST_FLAGS = Ret (pt', m', Err s).

(** The page of the test. *)
Lemma alloc_page h L :
  heap_ok h L →
  wp (page_alloc (h_pages h, h_mem h) 0 SAFE_KERNEL_PAGES) (λ '(m', r), match r with
    | Some a => ∃ h', m' = (h_pages h', h_mem h') ∧ h_slab h' = h_slab h ∧ L !! (a + hhdm) = None ∧
        heap_ok h' (<[a + hhdm:=OPages 0]> L) ∧ same_for L h h' ∧ ∀ x, range (a + hhdm) PAGE_SIZE x → h_mem h' x = 0
    | None => hp_none (hhdm := hhdm) (h_pages h) 0
    end).
Proof using hhdm_high X.
  intros Hok. pose proof (pages_ok (X:=X) hhdm_high h L 0 true Hok) as Hp. cbn [heap_do] in Hp. unfold page_alloc, heap_source.
  destruct (hp_alloc (h_pages h) (h_mem h) 0 SAFE_KERNEL_PAGES) as [[[p mem] [a|]]| |]; [| |done|done]; cbn [mbind outcome_bind wp] in *.
  - destruct Hp as (Hok' & Hk & Hr). destruct (owner_place (hhdm:=hhdm) _ _ _ _ Hok' (lookup_insert_eq _ _ _)) as (Hlo & _).
    rewrite decide_False in Hr by lia. destruct Hr as (Hn & _ & Hz). exists (set_mem mem (set_pages p h)). do 3 (split; [done|]).
    split; [done|]. split; [|by apply Hz]. intros q w Hq. by apply (Hk q w Hq); intros [].
  - destruct Hp as (_ & _ & Hr). rewrite decide_True in Hr by done. apply Hr.
Qed.

(** The page is given back. *)
Lemma free_page h L a :
  heap_ok h (<[a + hhdm:=OPages 0]> L) → L !! (a + hhdm) = None →
  wp (page_free (h_pages h, h_mem h) a) (λ m', m'.2 = h_mem h ∧ heap_ok (mk_heap (h_slab h) m'.1 m'.2) L).
Proof using hhdm_high X.
  intros Hok Hn. pose proof (free_pages_ok (X:=X) hhdm_high h _ a 0 Hok (lookup_insert_eq _ _ _)) as Hp. cbn [heap_do] in Hp.
  unfold page_free, heap_source. destruct (hp_free (h_pages h) a) as [p| |]; [|done|done]. cbn [mbind outcome_bind wp] in *.
  destruct Hp as (Hok' & _ & _). rewrite delete_insert_id in Hok' by done. done.
Qed.

Lemma selftest_spec pt h L :
  heap_ok h L →
  post (selftest_all_memory_subsystem hhdm pt (h_pages h, h_mem h)) (λ '(pt', m'), selftest_done h L pt pt' m')
    (λ e, e = PUnwrap ∧ selftest_stops pt (h_pages h) (h_mem h)).
Proof using hhdm_high hhdm_align XL.
  intros Hok. destruct selftest_flags as [Hpr Hwr]. unfold selftest_all_memory_subsystem.
  destruct (wp_elim _ _ (alloc_page h L Hok)) as ([m1 [a|]] & Ea & Hr); rewrite Ea; cbn [unwrap mbind outcome_bind];
    [|by split; [|left]].
  destruct Hr as (h1 & -> & Es & Hn & Hok1 & Hs1 & Hz).
  rewrite virt_new_law, bool_decide_true by (left; done). cbn [mbind outcome_bind].
  eapply post_bind_post; [eapply post_weaken; [apply (kmap_page_ledger pt h1 _ SELFTEST_VADDR a SELFTEST_FLAGS Hok1 Hpr)|]|].
  { intros e (-> & pt' & m' & s & E). split; [done|]. right. by exists (h_pages h1, h_mem h1), a, pt', m', s. }
  intros [pt2 [p2 mem2]] (Hroot & Hnone & Hmap & D & Hd & Hok2 & Hk). cbn [fst snd] in *.
  change (page_of SELFTEST_VADDR) with SELFTEST_VADDR in *.
  assert (page_of a = a) as Epa.
  { destruct (owner_place (hhdm:=hhdm) _ _ _ _ Hok1 (lookup_insert_eq _ _ _)) as (_ & _ & Hal). cbn [o_align] in Hal.
    change (block_bytes 0) with PAGE_SIZE in Hal. unfold page_of. rewrite Z.add_comm in Hal. apply Z.divide_add_cancel_r in Hal; [|done].
    apply Z.mod_divide in Hal; [lia|done]. }
  rewrite Epa in Hmap.
  assert (translate pt2 SELFTEST_VADDR = Some (a, SELFTEST_FLAGS)) as Ht by (by rewrite Hmap, decide_True).
  apply (selftest_accesses pt2 mem2 a SELFTEST_FLAGS); [done|done| |].
  { intros x Hx. rewrite (Hk _ _ (lookup_insert_eq _ _ _)) by done. by apply Hz. }
  unfold kunmap_page. destruct (unmap_single_page pt2 SELFTEST_VADDR) as [pt3 r] eqn:Eu.
  apply unmap_single_page_spec in Eu as [Hroot' Eu]. change (page_of SELFTEST_VADDR) with SELFTEST_VADDR in Eu. rewrite Ht in Eu.
  destruct Eu as [-> Hun]. cbn [expect mbind outcome_bind].
  apply map_disjoint_insert_l in Hd as [HDa Hd]. rewrite <-insert_union_l in Hok2.
  assert ((L ∪ table_pages D) !! (a + hhdm) = None) as Hfree by by apply lookup_union_None.
  destruct (write_owned _ _ _ _ (ByteMem.store 8 (a + hhdm) SELFTEST_VALUE mem2) Hok2 Hfree) as [Hok3 Hs3].
  { intros x Hx. apply store_ne. cbn [o_size] in Hx. change (block_bytes 0) with PAGE_SIZE in Hx. unfold range, PAGE_SIZE in *. lia. }
  eapply post_bind; [apply (free_page _ _ a Hok3 Hfree)|]. intros [p4 mem4] [Hm4 Hok4]. cbn [post fst snd set_mem h_mem h_slab] in *. subst mem4.
  split; [|split; [congruence|split; [done|]]].
  { intros q. rewrite Hun, Hmap. by case_decide as E; [rewrite E|]. }
  exists D. split; [done|]. rewrite <-Es. split; [done|]. cbn [snd]. intros q w Hq x Hx.
  pose proof (Hs3 q w ltac:(by apply lookup_union_Some_l) x Hx) as E. cbn [set_mem h_mem] in E. rewrite E.
  rewrite (Hk q w) by (done || by rewrite lookup_insert_ne; [|congruence]). by apply (Hs1 q w).
Qed.
End proofs.

(** ** The theorem *)

Section boot.
Context {PT : Type} {X : X86_64 PT} {XL : X86_64Laws PT} `{!OffsetPageTable PT} {OL : OffsetPageTableLaws PT}.

(** The kernel page table is the active one, with every mapping the bootloader
    made; the heap is the one of [init_physical_memory] with the frames of page
    tables taken from it. *)
Record memory_ready (hhdm cr3 : Z) (h0 h : heap zpages) (L : ledger) (pt : PT) : Prop := {
  my_table : level_4_table pt = cr3 + hhdm;
  my_mappings : ∀ page, translate pt page = translate (offset_page_table_new (h_mem h0) (cr3 + hhdm) hhdm : PT) page;
  my_unmapped : translate pt SELFTEST_VADDR = None;
  my_heap : ∃ D, heap_ok (hhdm:=hhdm) h (L ∪ table_pages hhdm D);
  my_kept : ∀ q w, L !! q = Some w → ∀ a, range q (o_size w) a → h_mem h a = h_mem h0 a
}.

Lemma init_virtual_memory_eq hhdm cr3 mem :
  hhdm_ok hhdm → cr3 + hhdm ≤ u64_max →
  init_virtual_memory (PT := PT) hhdm cr3 hhdm mem = Ret (offset_page_table_new mem (cr3 + hhdm) hhdm).
Proof.
  intros [Hhigh Hroom _] Hfit. unfold init_virtual_memory, get_active_pml4, phys_to_virt, add64.
  rewrite (proj2 (Z.leb_le _ _)) by done. cbn [mbind outcome_bind].
  rewrite virt_new_law, bool_decide_true; [done|]. right. unfold u64_max in *. lia.
Qed.

(** Why the start may stop: for a reason in the memory map, because a test of
    physical memory gets no memory, or because the last test gets none or finds
    its address in use. *)
Definition memory_stops (tests : bool) (hhdm cr3 : Z) (mmap : list Entry) (mem : Z → Z) (e : panic) : Prop :=
  boot_panic hhdm mmap e ∨
  e = PUnwrap ∧
    (tests = true ∧ (∃ h, init_allocators hhdm mmap mem = Ret h ∧ run_all_stops (X:=X) (hhdm:=hhdm) h) ∨
     ∃ h L, init_physical_memory (X:=X) tests hhdm mmap mem = Ret (h, L) ∧
       selftest_stops (hhdm:=hhdm) (offset_page_table_new (h_mem h) (cr3 + hhdm) hhdm : PT) (h_pages h) (h_mem h)).

(** C16: the memory subsystem starts, with the tests of physical memory or
    without.  Booting stops only for a reason that lies in the memory map, or
    because a test gets no memory, when the pages that its request may need are
    used up, or the last one finds its address in use; no assertion of a test
    fails.  Otherwise the heap is in order: it has handed out the frames
    of page tables and, with the tests, one page they never give back (without
    them it starts empty), and the page table of the kernel is the active one
    with all its mappings as they were, the page of the test unmapped again. *)
Theorem memory_subsystem_boots tests hhdm cr3 mmap mem :
  bootable mmap → hhdm_ok hhdm → 0 ≤ cr3 → cr3 + hhdm ≤ u64_max →
  post (init_memory_subsys (PT := PT) tests hhdm cr3 mmap mem)
    (λ '(h, pt, L), ∃ h0, init_physical_memory (X:=X) tests hhdm mmap mem = Ret (h0, L) ∧ memory_ready hhdm cr3 h0 h L pt ∧
       if tests then ∃ page, L = {[page := OPages 0]} else fresh_heap hhdm h0 ∧ L = ∅)
    (memory_stops tests hhdm cr3 mmap mem).
Proof.
  intros Hb Hh Hc Hfit. pose proof (init_physical_memory_spec (X:=X) hhdm tests mmap mem Hb Hh) as Hi. unfold init_memory_subsys.
  destruct (init_physical_memory tests hhdm mmap mem) as [[h0 L]|e|] eqn:Ei; [|destruct Hi as [?|(-> & -> & ?)]; [by left|by right; split; [|left]]|done].
  cbn [mbind outcome_bind].
  rewrite init_virtual_memory_eq by done. cbn [mbind outcome_bind]. destruct Hi as [Hok Hi].
  eapply post_bind_post; [eapply post_weaken; [apply (selftest_spec (hh_high _ Hh) (hhdm_page _ Hh) _ h0 L Hok)|]|].
  { intros e [-> Hs]. right. split; [done|]. right. by exists h0, L. }
  intros [pt [p m]] (Ht & Hroot & Hn & D & Hd & HD & Hk). cbn [post]. exists h0. split; [done|]. split; [|exact Hi].
  split; [by rewrite Hroot, opt_table|done|by rewrite Ht|by exists D|done].
Qed.
End boot.

(** Starting the allocators writes nothing to the memory they manage. *)
Lemma init_allocators_mem hhdm mmap mem h : init_allocators hhdm mmap mem = Ret h → h_mem h = mem.
Proof.
  unfold init_allocators. destruct (initialize_memblock_from_mm mmap) as [r| |]; try discriminate. cbn [mbind outcome_bind].
  destruct (expect_ok r) as [mb| |]; try discriminate. cbn [mbind outcome_bind].
  destruct (init_sparsemem_layer hhdm mb) as [[mb' s]| |]; try discriminate. cbn [mbind outcome_bind].
  destruct (init_zones_manager s) as [[mgr s']| |]; try discriminate. cbn [mbind outcome_bind].
  unfold slab_init, SLAB. cbn [h_slab h_pages h_mem]. rewrite slab_init_caches. by intros [= <-].
Qed.

(** The sample machine starts, with nothing mapped below the kernel. *)
Lemma boot_table_unmapped page : translate (offset_page_table_new (λ _, 0) (0x2000 + BOOT_HHDM) BOOT_HHDM : ref_pt) page = None.
Proof. apply (opt_zero _ _ _ _), load_cleared. done. Qed.

(** The reference page table maps every page that is free. *)
Lemma ref_map_single {M} `{!PageSource M} (pt : ref_pt) (m : M) virt phys flags pt' m' r :
  ref_map pt !! page_containing virt = None → map_single_page pt m virt phys flags = Ret (pt', m', r) → r = Ok ().
Proof. intros Hn. unfold map_single_page. cbn [map_to ref_x86]. unfold ref_map_to. rewrite Hn. by intros [= _ _ <-]. Qed.

Lemma untested_allocators {PT} {X : X86_64 PT} hhdm mmap mem h L :
  init_physical_memory (X := X) false hhdm mmap mem = Ret (h, L) → init_allocators hhdm mmap mem = Ret h.
Proof. unfold init_physical_memory. destruct (init_allocators hhdm mmap mem) as [h'| |]; [|done|done]. by intros [= <- _]. Qed.

Lemma boot_selftest_runs h0 L :
  init_physical_memory (X := ref_x86) false BOOT_HHDM boot_mmap (λ _, 0) = Ret (h0, L) →
  ¬ selftest_stops (hhdm := BOOT_HHDM) (offset_page_table_new (h_mem h0) (0x2000 + BOOT_HHDM) BOOT_HHDM : ref_pt) (h_pages h0) (h_mem h0).
Proof.
  intros E%untested_allocators. pose proof (boot_has_pages _ _ E) as Hn. rewrite (init_allocators_mem _ _ _ _ E).
  intros [Hs|(m1 & a & pt' & m' & s & _ & Em)]; [by apply Hn|].
  apply ref_map_single in Em; [discriminate Em|exact (boot_table_unmapped (page_containing SELFTEST_VADDR))].
Qed.

(** Without the tests it starts; with them, it starts or one of them has found
    the pages used up. *)
Lemma memory_subsystem_boots_witness :
  wp (init_memory_subsys (PT := ref_pt) false BOOT_HHDM 0x2000 boot_mmap (λ _, 0))
    (λ '(h, pt, L), translate pt SELFTEST_VADDR = None ∧ ∃ D, heap_ok (hhdm := BOOT_HHDM) h (L ∪ table_pages BOOT_HHDM D)) ∧
  post (init_memory_subsys (PT := ref_pt) true BOOT_HHDM 0x2000 boot_mmap (λ _, 0))
    (λ '(h, pt, L), ∃ page D, heap_ok (hhdm := BOOT_HHDM) h ({[page := OPages 0]} ∪ table_pages BOOT_HHDM D))
    (λ e, e = PUnwrap ∧ memory_stops (PT := ref_pt) true BOOT_HHDM 0x2000 boot_mmap (λ _, 0) e ∧ ¬ boot_panic BOOT_HHDM boot_mmap e).
Proof.
  pose proof (λ tests, memory_subsystem_boots (PT := ref_pt) tests BOOT_HHDM 0x2000 boot_mmap (λ _, 0) boot_mmap_bootable boot_hhdm_ok
    ltac:(discriminate) ltac:(discriminate)) as H. split.
  - specialize (H false). revert H. generalize (init_memory_subsys (PT := ref_pt) false BOOT_HHDM 0x2000 boot_mmap (λ _, 0)).
    intros [[[h pt] L]|e|] H; [| |exact H].
    + destruct H as (h1 & _ & Hm & _). split; [exact (my_unmapped _ _ _ _ _ _ Hm)|exact (my_heap _ _ _ _ _ _ Hm)].
    + destruct H as [Hp|(_ & [[Hf _]|(h0 & L0 & E & Hs)])]; [exact (boot_never_stops e Hp)|discriminate Hf|exact (boot_selftest_runs h0 L0 E Hs)].
  - specialize (H true). revert H. generalize (init_memory_subsys (PT := ref_pt) true BOOT_HHDM 0x2000 boot_mmap (λ _, 0)).
    intros [[[h pt] L]|e|] H; [| |exact H].
    + destruct H as (h1 & _ & Hm & page & ->). destruct (my_heap _ _ _ _ _ _ Hm) as [D HD]. exists page, D. exact HD.
    + split; [|split; [exact H|exact (boot_never_stops e)]].
      destruct H as [Hp|[He _]]; [destruct (boot_never_stops e Hp)|exact He].
Defined.
