(* ===== verification/LoaderTheorems.v ===== *)
(** * Building tasks: the first task runs its image

    What [make_init_task] leaves behind: an address space in which user code
    sees the image, a cleared stack and the boot information, a kernel stack
    from which the first switch enters that image, and capabilities for the
    task itself; everything the kernel had handed out before is as it was. *)
From S2P Require Import Prelude Misc Memblock Frame Sparsemem Zones Paging AddrSpace AddrSpaceSpec.
From S2P Require Import KernelStacks KernelStacksSpec Objects ObjectsSpec Endpoints Sched Syscalls SyscallsSpec.
From S2P Require Import ByteMem Slab SlabHeap Machine Entry Loader KernelTheorems PagingRef PagesRef.
#[local] Open Scope Z_scope.

Section loaded.
Context {P PT : Type} {HP : HeapPages P} `{!X86_64 PT} {XL : X86_64Laws PT} {OT : OffsetPageTable PT} {OL : OffsetPageTableLaws PT}.
Context {hhdm : Z} {HL : HeapPagesLaws P hhdm}.

(** What user code reads at [va]; [None] is a page fault. *)
Definition user_byte (pt : PT) (mem : Z → Z) (va : Z) : option Z :=
  match translate pt (page_of va) with
  | Some (f, flags) =>
      if Z.testbit flags (b_user page_bits) then Some (mem (f + hhdm + va mod PAGE_SIZE)) else None
  | None => None
  end.

Definition user_word (pt : PT) (mem : Z → Z) (va : Z) : Z := load 8 (λ x, default 0 (user_byte pt mem x)) va.

Definition image_pages (bytes : list Z) : nat := Z.to_nat ((Z.of_nat (length bytes) + PAGE_SIZE - 1) / PAGE_SIZE).

(** The address space of a task with the image [bytes]. *)
Record shows_program (bytes : list Z) (cpio : Z) (pt : PT) (mem : Z → Z) : Prop := {
  sp_image : ∀ i, 0 ≤ i < Z.of_nat (image_pages bytes) * PAGE_SIZE →
    user_byte pt mem (USER_LOAD_VADDR + i) = Some (default 0 (bytes !! Z.to_nat i));
  sp_stack : ∀ i, 0 ≤ i < USER_STACK_PAGES_COUNT * PAGE_SIZE → user_byte pt mem (USER_STACK_BOTTOM + i) = Some 0;
  sp_info : ∀ k w, [0; 1; 2; cpio] !! k = Some w → user_word pt mem (BOOTINFO_VADDR + 8 * Z.of_nat k) = w;
  sp_pages : ∀ page, low page → snd <$> translate pt page = layout (image_pages bytes) 4 true page
}.

(** Switching to the saved stack pointer of the task and running the
    trampoline enters user mode. *)
Definition enters_user (tramp : Z) (kpt : PT) (mem : Z → Z) (t : Task PT) : Prop :=
  ∀ m, let sp := rsp (t_registers t) in
  may_switch m → regs m RSI = sp → (∀ x, range sp 144 x → Machine.mem m x = kview (hhdm := hhdm) kpt mem x) →
  ByteMem.apart sp 144 (regs m RSP - 120) 120 → ByteMem.apart sp 144 (regs m RDI) 8 →
  let m1 := do_switch m in
  let m2 := run id 0 user_task_trampoline m1 in
  m_rip m1 = tramp ∧ m_rip m2 = USER_ENTRY_VADDR ∧ m_cs m2 = USER_CS ∧ m_cr3 m2 = regs m RDX ∧
  regs m2 RSP = USER_STACK_TOP_VIRT_ADDR - 8 ∧ regs m2 RDI = BOOTINFO_VADDR ∧ m_rflags m2 = RFLAGS_WITH_IR ∧
  ∀ r, r ≠ RSP → r ≠ RDI → r ≠ RCX → r ≠ R11 → regs m2 r = 0.

Record init_task_built (B : gmap Z nat) (ss : list KernelStack) (cr3 tramp : Z) (bytes : list Z) (id cpio : Z) (k k' : kdata (P := P) (PT := PT))
    (t : Task PT) : Prop := {
  it_task : t_id t = id ∧ task_state t = TaskState.Ready ∧ wake_at_tick t = 0 ∧ vmas (addr_space t) = ∅;
  it_program : shows_program bytes cpio (page_table (addr_space t)) (kd_pages k').2;
  it_start : enters_user tramp (kd_pt k') (kd_pages k').2 t;
  it_blocks : ∃ B', B ⊆ B' ∧ hp_out (kd_pages k').1 B' ∧
    (∀ page f fl, low page → translate (page_table (addr_space t)) page = Some (f, fl) →
      ∃ a o, B' !! a = Some o ∧ B !! a = None ∧ a ≤ f ∧ f + PAGE_SIZE ≤ a + block_bytes o) ∧
    stacks_inv (kd_bump k') (kd_pt k') B' (ss ++ [kernel_stack t]);
  it_kept : kept hhdm B (kd_pages k).2 (kd_pages k').2;
  it_kernel : ∃ mem1 root, level_4_table (page_table (addr_space t)) = hhdm + root ∧ B !! root = None ∧
    (∀ x, ¬ range (root + hhdm) PAGE_SIZE x → mem1 x = (kd_pages k).2 x) ∧
    ∀ page, canonical page → ¬ low page →
      translate (page_table (addr_space t)) page = translate (offset_page_table_new mem1 (cr3 + hhdm) hhdm) page;
  it_caps : table_ok (kd_objects k') ∧ objects_grow (kd_objects k) (kd_objects k') ∧
    cnode_ok (kd_objects k') (cnode t) ∧ caps_name (kd_objects k') (cnode t) id
}.

(** ** The contents of the lower half *)

Definition user_image (bytes : list Z) (info : InitSvrsBootInfo) (x : Z) : Z :=
  if decide (range BOOTINFO_VADDR PAGE_SIZE x) then put_bootinfo BOOTINFO_VADDR info (λ _, 0) x
  else if decide (USER_LOAD_VADDR ≤ x < USER_STACK_BOTTOM) then default 0 (bytes !! Z.to_nat (x - USER_LOAD_VADDR))
  else 0.

Definition image_fits (bytes : list Z) : Prop := USER_LOAD_VADDR + Z.of_nat (length bytes) ≤ USER_STACK_BOTTOM.

Lemma image_pages_fit bytes :
  image_fits bytes → USER_LOAD_VADDR + Z.of_nat (image_pages bytes) * PAGE_SIZE ≤ USER_STACK_BOTTOM ∧
  Z.of_nat (image_pages bytes) = (Z.of_nat (length bytes) + PAGE_SIZE - 1) / PAGE_SIZE.
Proof.
  unfold image_fits, image_pages. intros Hf. set (n := Z.of_nat (length bytes)) in *.
  assert (0 ≤ n) as H0 by lia. unfold PAGE_SIZE. rewrite Z2Nat.id by (apply Z.div_pos; lia). split; [|done].
  change USER_STACK_BOTTOM with 140737488273408 in *. change USER_LOAD_VADDR with 4194304 in *.
  pose proof (Z.mul_div_le (n + 4096 - 1) 4096 ltac:(lia)). assert ((n + 4096 - 1) / 4096 < 34359737325) as Hq; [|lia].
  apply Z.div_lt_upper_bound; lia.
Qed.

Lemma user_image_shows bytes info :
  image_fits bytes → shows_image (user_image bytes info) bytes ∧ shows_stack (user_image bytes info) ∧
  shows_info (user_image bytes info) info.
Proof.
  intros Hf. destruct (image_pages_fit bytes Hf) as [Hp Hn].
  change USER_STACK_BOTTOM with 140737488273408 in Hp. change USER_LOAD_VADDR with 4194304 in Hp.
  split; [|split]; intros i Hi; unfold user_image.
  - rewrite <-Hn in Hi. rewrite decide_False by (unfold range, BOOTINFO_VADDR, USER_LOAD_VADDR, PAGE_SIZE in *; lia).
    rewrite decide_True by (change USER_STACK_BOTTOM with 140737488273408; unfold USER_LOAD_VADDR; lia). do 2 f_equal. lia.
  - change USER_STACK_BOTTOM with 140737488273408. rewrite decide_False by (unfold range, BOOTINFO_VADDR, PAGE_SIZE in *; lia).
    rewrite decide_False; [done|lia].
  - rewrite decide_True; [done|]. unfold range. lia.
Qed.

(** The first three slots of an empty capability table are used. *)
Lemma make_init_caps_slots o id o' n info :
  make_init_caps o id cnode_new = Ret (o', n, info) → info = mk_bootinfo 0 1 2 0.
Proof.
  unfold make_init_caps. intros H.
  destruct (obj_insert o _) as [[o1 [h1|]]|e|]; try done. cbn [mbind outcome_bind expect] in H.
  destruct (obj_insert o1 _) as [[o2 [h2|]]|e|]; try done. cbn [mbind outcome_bind expect] in H.
  destruct (obj_insert o2 _) as [[o3 [h3|]]|e|]; try done. cbn [mbind outcome_bind expect] in H.
  vm_compute in H. by injection H as _ _ <-.
Qed.

Lemma put_bootinfo_word a info mem k w :
  Forall is_u64 (bootinfo_words info) → bootinfo_words info !! k = Some w →
  load 8 (put_bootinfo a info mem) (a + 8 * Z.of_nat k) = w.
Proof.
  intros Hu Hk. pose proof (proj1 (Forall_lookup _ _) Hu k w Hk) as Hw.
  change (put_bootinfo a info mem) with (ByteMem.store 8 (a + 8 * 3) (cpio_base_addr info)
    (ByteMem.store 8 (a + 8 * 2) (self_cnode_cap info) (ByteMem.store 8 (a + 8 * 1) (self_vspace_cap info)
      (ByteMem.store 8 (a + 8 * 0) (self_tcb_cap info) mem)))).
  unfold bootinfo_words in Hk.
  do 4 (destruct k as [|k]; [injection Hk as <-;
    repeat (rewrite load_store_ne by (unfold ByteMem.apart; lia)); apply load_store_eq;
    change (256 ^ Z.of_nat 8) with (2 ^ 64); unfold is_u64, u64_max in Hw; lia|]).
  done.
Qed.

Lemma covered_page_of base n i :
  base mod PAGE_SIZE = 0 → 0 ≤ i < Z.of_nat n * PAGE_SIZE → covered base n (page_of (base + i)).
Proof.
  intros Hb Hi. split; [|apply page_of_mod]. unfold page_of, PAGE_SIZE in *.
  rewrite Zplus_mod, Hb, Z.add_0_l, Z.mod_mod by lia.
  pose proof (Z.mod_pos_bound i 4096 ltac:(lia)). pose proof (Z.mod_le i 4096 ltac:(lia) ltac:(lia)). lia.
Qed.

Section contents.
Context (B0 B : gmap Z nat) (mem0 : Z → Z) (pt0 pt : PT) (m : P * (Z → Z)) (T : gmap Z (Z * Z)) (bytes : list Z) (cpio : Z).
#[local] Notation info := (mk_bootinfo 0 1 2 cpio).
Context (Hfits : image_fits bytes) (Hcpio : is_u64 cpio).
Context (Hs : user_space (hhdm := hhdm) B0 mem0 (user_image bytes info) pt0 pt m T B).
Context (HT : ∀ p, snd <$> T !! p = layout (image_pages bytes) 4 true p).

Lemma user_byte_at va fl :
  low (page_of va) → layout (image_pages bytes) 4 true (page_of va) = Some fl → Z.testbit fl (b_user page_bits) = true →
  user_byte pt m.2 va = Some (user_image bytes info va).
Proof.
  intros Hl Hfl Hu. rewrite <-HT in Hfl. unfold user_byte. rewrite (us_table _ _ _ _ _ _ _ _ Hs _ Hl).
  destruct (T !! page_of va) as [[f fl']|] eqn:E; [|done]. injection Hfl as ->. rewrite Hu. f_equal.
  rewrite (us_bytes _ _ _ _ _ _ _ _ Hs _ _ _ _ E) by (apply Z.mod_pos_bound; done). f_equal. unfold page_of. lia.
Qed.

Lemma user_flags : Forall (λ fl, Z.testbit fl (b_user page_bits) = true) [IMAGE_FLAGS; USER_STACK_FLAGS; BOOTINFO_FLAGS].
Proof.
  pose proof (proj2 page_bits_law) as Hr. rewrite !Forall_cons in Hr. destruct Hr as (? & ? & ? & ? & ? & _).
  rewrite !Forall_cons. repeat split; try done; (apply page_flags_present; [set_solver|]); repeat (constructor; [done|]); constructor.
Qed.

Lemma space_shows : shows_program bytes cpio pt m.2.
Proof.
  destruct (image_pages_fit bytes Hfits) as [Hp Hn]. destruct (user_image_shows bytes info Hfits) as (Hi & Hst & Hin).
  pose proof user_flags as Hf. rewrite !Forall_cons in Hf. destruct Hf as (F1 & F2 & F3 & _).
  assert (∀ va, range BOOTINFO_VADDR PAGE_SIZE va → user_byte pt m.2 va = Some (user_image bytes info va)) as Hboot.
  { intros va Hva. assert (page_of va = BOOTINFO_VADDR) as Hpg.
    { unfold page_of, range, BOOTINFO_VADDR, PAGE_SIZE in *. rewrite Z.mod_eq by lia.
      assert (va / 4096 = 1) as -> by (symmetry; apply (Z.div_unique va 4096 1 (va - 4096)); lia). lia. }
    apply (user_byte_at va BOOTINFO_FLAGS); rewrite ?Hpg; [unfold low, BOOTINFO_VADDR; lia|reflexivity|done]. }
  split.
  - intros i Hi'. rewrite <-Hi by (rewrite <-Hn; lia).
    pose proof (covered_page_of USER_LOAD_VADDR (image_pages bytes) i eq_refl Hi') as Hc.
    apply (user_byte_at _ IMAGE_FLAGS); [|unfold layout; by rewrite decide_True|done].
    destruct Hc as [[H1 H2] _]. change USER_STACK_BOTTOM with 140737488273408 in Hp. unfold low, USER_LOAD_VADDR in *. lia.
  - intros i Hi'. rewrite <-(Hst i Hi'). pose proof (covered_page_of USER_STACK_BOTTOM 4 i eq_refl Hi') as Hc.
    assert (¬ covered USER_LOAD_VADDR (image_pages bytes) (page_of (USER_STACK_BOTTOM + i))) as Hnc.
    { destruct Hc as [[H1 _] _]. intros [[_ H2] _]. lia. }
    apply (user_byte_at _ USER_STACK_FLAGS); [|unfold layout; by rewrite decide_False, decide_True|done].
    destruct Hc as [[H1 H2] _]. change USER_STACK_BOTTOM with 140737488273408 in *. unfold low, PAGE_SIZE in *. lia.
  - intros k w Hk. unfold user_word.
    assert (Forall is_u64 (bootinfo_words info)) as Hall.
    { repeat (apply Forall_cons_2; [unfold is_u64, u64_max in *; cbn; lia|]). apply Forall_nil_2. }
    rewrite <-(put_bootinfo_word BOOTINFO_VADDR info (λ _, 0) k w Hall Hk).
    apply load_ext. intros x Hx. pose proof (lookup_lt_Some _ _ _ Hk) as Hk'. cbn in Hk'.
    assert (range BOOTINFO_VADDR PAGE_SIZE x) as Hxr by (unfold range, BOOTINFO_VADDR, PAGE_SIZE in *; lia).
    rewrite Hboot by done. cbn [default]. unfold user_image. by rewrite decide_True.
  - intros page Hl. by rewrite (us_table _ _ _ _ _ _ _ _ Hs _ Hl).
Qed.
End contents.

(** ** The kernel stack *)

Lemma stacks_inv_none bump (kpt : PT) B ss : stacks_inv bump kpt B ss → stacks_inv bump kpt ∅ [].
Proof. intros [H1 H2 H3 H4]. split; [done|set_solver|done|done]. Qed.

Lemma stacks_inv_frames bump (kpt : PT) B B' ss :
  stacks_inv bump kpt B ss → (∀ s f, s ∈ ss → f ∈ ks_pages s → B' !! f = Some 0%nat) → stacks_inv bump kpt B' ss.
Proof.
  intros [H1 H2 H3 H4] Hf. split; try done. intros s Hs. destruct (H2 s Hs). split; try done. intros f Hin. by apply (Hf s).
Qed.

Lemma post_both {A} (m : outcome A) (Q Q' : A → Prop) R : post m Q R → post m Q' R → post m (λ a, Q a ∧ Q' a) R.
Proof. by destruct m. Qed.

Lemma stack_alloc_spec bump (kpt : PT) (m : P * (Z → Z)) B B1 ss :
  hp_out m.1 B1 → B ⊆ B1 → stacks_inv bump kpt B ss →
  post (allocate_kernel_stack bump kpt m DEFAULT_KERNEL_STACK_SIZE) (λ '(bump', kpt', m', s),
    ∃ D, B1 ##ₘ D ∧ hp_out m'.1 (B1 ∪ D) ∧ kept hhdm B1 m.2 m'.2 ∧ stack_ok bump' kpt' D s ∧
      stacks_inv bump' kpt' (B1 ∪ D) (ss ++ [s])) (λ _, ¬ stack_room room bump kpt m 16).
Proof.
  intros Hout HB Hss.
  assert (∀ B0 mem0 ss0 B', since hhdm B0 mem0 m B' → stacks_inv bump kpt B' ss0 →
    post (allocate_kernel_stack bump kpt m DEFAULT_KERNEL_STACK_SIZE) (λ '(bump', kpt', m', s),
      ∃ D, B' ⊆ D ∧ since hhdm B0 mem0 m' D ∧ stacks_inv bump' kpt' D (ss0 ++ [s])) (λ _, ¬ stack_room room bump kpt m 16)) as Hspec.
  { intros B0 mem0 ss0 B' Hm Hss0. eapply post_weaken; [eapply post_mono;
      [apply (allocate_kernel_stack_room (PageSourceLaws0 := relative_laws hhdm B0 mem0) room bump kpt m B' ss0); try done; apply room_budget|]|].
    - intros [[[bump' kpt'] m'] s] (_ & _ & (D & H) & _). by exists D.
    - by intros e [_ He]. }
  assert (since hhdm B1 m.2 m ∅) as Hm1 by (rewrite (surjective_pairing m) at 2; by apply since_refl).
  assert (since hhdm ∅ m.2 m B1) as Hm2.
  { split; [apply map_disjoint_empty_l|]. split; [by rewrite map_empty_union|]. done. }
  assert (stacks_inv bump kpt B1 ss) as Hss1.
  { destruct Hss. split; try done. intros s Hs. eapply stack_ok_kept; [by apply si_stack|done|done|done]. }
  eapply post_mono; [apply (post_both _ _ _ _ (Hspec B1 m.2 [] ∅ Hm1 (stacks_inv_none _ _ _ _ Hss)) (Hspec ∅ m.2 ss B1 Hm2 Hss1))|].
  - intros [[[bump' kpt'] m'] s] [(D & _ & (Hd & HD & Hk) & Hnew) (D' & HD' & _ & Hall)]. exists D.
    pose proof (si_stack _ _ _ _ Hnew s ltac:(set_solver)) as Hs.
    do 3 (split; [done|]). split; [done|]. eapply stacks_inv_frames; [exact Hall|].
    intros s' f [Hs'| ->%list_elem_of_singleton]%elem_of_app Hf.
    + apply lookup_union_Some_l. eapply lookup_weaken; [|exact HB]. by apply (so_frames _ _ _ _ (si_stack _ _ _ _ Hss s' Hs')).
    + apply lookup_union_Some_r; [done|]. by apply (so_frames _ _ _ _ Hs).
Qed.

(** A stack that shows the words of [init_task_stack] enters user mode. *)
Lemma stack_enters p' B D bump (kpt : PT) t g mem tramp :
  hp_out p' B → D ⊆ B → stack_ok bump kpt D (kernel_stack t) → is_u64 tramp →
  stack_shows (hhdm := hhdm) kpt (kernel_stack t) mem (init_task_stack tramp (ks_top (kernel_stack t)) g).1 →
  rsp (t_registers t) = (init_task_stack tramp (ks_top (kernel_stack t)) g).2 →
  enters_user tramp kpt mem t.
Proof.
  intros Hout HD Hok Htr Hsh Hsp m sp Hm Hsi Hmem Ha1 Ha2 m1 m2.
  set (top := ks_top (kernel_stack t)) in *. set (st := init_task_stack tramp top g) in *.
  assert (st.2 = top - 144) as E2 by (unfold st, init_task_stack; cbn [snd]; lia).
  pose proof (so_pages _ _ _ _ Hok) as H1. pose proof (so_top _ _ _ _ Hok) as H2.
  pose proof (vo_low _ _ (so_va _ _ _ _ Hok)) as H3. pose proof (vo_high _ _ (so_va _ _ _ _ Hok)) as H4.
  fold top in H2. fold sp in Hsp. unfold KERNEL_STACKS_VA_BASE, KERNEL_STACKS_VA_SIZE, PAGE_SIZE in *.
  destruct (init_task_starts tramp top g m Htr Hm) as (S1 & S2 & S3 & _ & S4 & S5 & S6 & S7 & S8 & _); fold st.
  - congruence.
  - rewrite E2. lia.
  - unfold u64_max. lia.
  - intros x Hx. rewrite <-Hsp in Hx. rewrite (Hmem x Hx). apply Hsh. unfold in_stack. fold top. unfold range in Hx. lia.
  - by rewrite <-Hsp.
  - by rewrite <-Hsp.
  - fold m1 in S1, S2, S3, S4, S5, S6, S7, S8. fold m2 in S2, S3, S4, S5, S6, S7, S8. done.
Qed.

(** ** Putting it together *)

Lemma start_space p' mem mem' B C root cr3 :
  hp_out p' (<[root:=0%nat]> B) → B !! root = None → half_copied (hhdm := hhdm) mem' root cr3 →
  (∀ x, ¬ range (root + hhdm) PAGE_SIZE x → mem' x = mem x) →
  let pt0 := offset_page_table_new mem' (hhdm + root) hhdm in
  laid_out (hhdm := hhdm) B mem C pt0 0 0 false pt0 (p', mem') (<[root:=0%nat]> B).
Proof.
  intros Hp Hn Hc Hm pt0. exists ∅, (<[root:=0%nat]> B). split; [done|].
  assert (∀ page, low page → translate pt0 page = None) as Hl.
  { intros page Hp'. unfold pt0. rewrite Z.add_comm. by apply (half_copied_table _ _ _ _ _ Hc). }
  assert (∀ page, low page → ¬ huge pt0 page) as Hh.
  { intros page Hp'. unfold pt0. rewrite Z.add_comm. by apply (half_copied_table _ _ _ _ _ Hc). }
  split; [split; try done|].
  - by apply insert_subseteq.
  - cbn [snd]. apply (kept_other hhdm p' B (<[root:=0%nat]> B) root 0); [done|by apply insert_subseteq|done|by apply lookup_insert_eq|done].
  - intros page. rewrite lookup_empty. unfold layout. by rewrite !decide_False by apply covered_0.
Qed.

(** Writing to the kernel stack keeps what was handed out before it. *)
Lemma stack_only_kept p' B1 D bump (kpt : PT) s mem mem' :
  B1 ##ₘ D → hp_out p' (B1 ∪ D) → stack_ok bump kpt D s → stack_only (hhdm := hhdm) s mem mem' → kept hhdm B1 mem mem'.
Proof.
  intros Hd Hp Hs Ho a o x Ha Hx. apply Ho. intros f Hf Hr. pose proof (so_frames _ _ _ _ Hs f Hf) as HDf.
  assert (a ≠ f) as Hne. { intros ->. by eapply map_disjoint_spec. }
  pose proof (hp_out_disjoint p' _ a o f 0%nat Hp (lookup_union_Some_l _ _ _ _ Ha) (lookup_union_Some_r _ _ _ _ Hd HDf) Hne) as Hap.
  change (block_bytes 0) with PAGE_SIZE in Hap. unfold ByteMem.apart, range in *. lia.
Qed.

(** The last part: the kernel stack and the task. *)
Lemma finish_spec cr3 tramp bytes id cpio (p : P) mem (kpt : PT) bump o o' nd B ss pt0 pt m mem1 root :
  let k := mk_kdata (p, mem) kpt bump o in
  let C := user_image bytes (mk_bootinfo 0 1 2 cpio) in
  stacks_inv bump kpt B ss → image_fits bytes → is_u64 tramp → is_u64 cpio →
  B !! root = None → half_copied (hhdm := hhdm) mem1 root cr3 → (∀ x, ¬ range (root + hhdm) PAGE_SIZE x → mem1 x = mem x) →
  pt0 = offset_page_table_new mem1 (hhdm + root) hhdm →
  table_ok o' ∧ objects_grow o o' ∧ cnode_ok o' nd ∧ caps_name o' nd id →
  laid_out (hhdm := hhdm) B mem C pt0 (image_pages bytes) 4 true pt m B →
  post ('(bump, kpt, m, kernel_stack) ← allocate_kernel_stack bump kpt m DEFAULT_KERNEL_STACK_SIZE;
        '(mem, initial_rsp) ← write_init_stack hhdm kpt tramp (ks_top kernel_stack) m.2;
        Ret (mk_kdata (m.1, mem) kpt bump o',
          Ok (mk_task id (with_rdi BOOTINFO_VADDR (with_rsp initial_rsp regs_default)) 0 (as_new pt) kernel_stack nd TaskState.Ready)))
    (λ '(k', r), ∃ t, r = @Ok string _ t ∧ init_task_built B ss cr3 tramp bytes id cpio k k' t) (λ _, ¬ stack_room room bump kpt m 16).
Proof.
  intros k C Hss Hfit Htr Hcp Hn Hhc Hout1 -> Hcaps (T & B1 & HB1 & Hs & HT).
  eapply post_bind_post; [apply (stack_alloc_spec bump kpt m B B1 ss (us_out _ _ _ _ _ _ _ _ Hs) HB1 Hss)|].
  intros [[[bump' kpt'] m'] s] (D & Hd & Hp' & Hk & Hok & Hss').
  eapply post_bind; [apply (write_init_stack_spec m'.1 (B1 ∪ D) D bump' kpt' s Hp' (map_union_subseteq_r _ _ Hd) Hok tramp m'.2
    (kview (hhdm := hhdm) kpt' m'.2)); by intros x Hx|].
  intros [mem' sp] (Hsh & -> & Ho). eexists. split; [done|].
  assert (user_space (hhdm := hhdm) B mem C (offset_page_table_new mem1 (hhdm + root) hhdm) pt (m'.1, mem') T (B1 ∪ D)) as Hs'.
  { eapply us_grow; [exact Hs|by apply map_union_subseteq_l|done|]. cbn [snd]. eapply kept_trans; [done|exact Hk|].
    by apply (stack_only_kept m'.1 B1 D bump' kpt' s). }
  split; cbn [t_id task_state wake_at_tick addr_space as_new vmas page_table kernel_stack t_registers cnode kd_pages kd_pt kd_bump kd_objects fst snd].
  - done.
  - apply (space_shows _ _ _ _ _ _ _ _ _ Hfit Hcp Hs' HT).
  - eapply (stack_enters m'.1 (B1 ∪ D) D bump' kpt' _ _ _ _ Hp'); [by apply map_union_subseteq_r|exact Hok|done|exact Hsh|done].
  - exists (B1 ∪ D). split; [exact (us_sub _ _ _ _ _ _ _ _ Hs')|]. split; [done|]. split; [|done].
    intros page f fl Hl. rewrite (us_table _ _ _ _ _ _ _ _ Hs' _ Hl). apply (us_frame _ _ _ _ _ _ _ _ Hs').
  - exact (us_kept _ _ _ _ _ _ _ _ Hs').
  - exists mem1, root. split; [rewrite (us_root _ _ _ _ _ _ _ _ Hs'); apply opt_table|]. split; [done|]. split; [done|].
    intros page Hc Hl. rewrite (us_upper _ _ _ _ _ _ _ _ Hs' _ Hl), Z.add_comm. by apply (half_copied_table _ _ _ _ _ Hhc).
  - done.
Qed.

(** What is enough to build the task: pages for its tables, image, stack, boot
    information and kernel stack; slots for its three objects; addresses for
    its kernel stack, with no huge page there. *)
Record enough (bytes : list Z) (id : Z) (k : kdata (P := P) (PT := PT)) : Prop := {
  en_pages : supplies (4 * image_pages bytes + 82) (kd_pages k).1;
  en_objects : ∃ r, make_init_caps (kd_objects k) id cnode_new = Ret r;
  en_stack : kd_bump k + 17 * PAGE_SIZE ≤ KERNEL_STACKS_VA_BASE + KERNEL_STACKS_VA_SIZE;
  en_huge : ∀ p, kd_bump k ≤ p < kd_bump k + 17 * PAGE_SIZE → ¬ huge (kd_pt k) p
}.

Lemma init_task_spec cr3 tramp bytes id cpio k B ss :
  2 ^ 64 - 2 ^ 47 ≤ hhdm →
  hp_out (kd_pages k).1 B → table_ok (kd_objects k) → stacks_inv (kd_bump k) (kd_pt k) B ss →
  active_reserved (kd_pages k).1 (kd_pages k).2 cr3 → cr3 + hhdm ≤ u64_max → image_fits bytes → is_u64 tramp → is_u64 cpio →
  post (make_init_task hhdm cr3 tramp bytes id cpio k) (λ '(k', r), ∃ t, r = Ok t ∧ init_task_built B ss cr3 tramp bytes id cpio k k' t)
    (λ _, ¬ enough bytes id k).
Proof.
  intros Hhh Hp Ho Hss Hact Hcr Hfit Htr Hcp. destruct k as [[p mem] kpt bump o]. cbn [kd_pages kd_pt kd_bump kd_objects fst snd] in *.
  destruct (user_image_shows bytes (mk_bootinfo 0 1 2 cpio) Hfit) as (Himg & Hstk & Hinf).
  destruct (image_pages_fit bytes Hfit) as [Hfit' _]. set (C := user_image bytes (mk_bootinfo 0 1 2 cpio)) in *.
  set (n := image_pages bytes) in *. set (k := mk_kdata (p, mem) kpt bump o).
  assert (enough bytes id k → room (4 * n + 82) (p, mem)) as Hroom by (by intros []).
  unfold make_init_task. cbn [kd_pages kd_pt kd_bump kd_objects k].
  eapply post_bind_post; [eapply post_weaken; [by apply (create_pt4_spec cr3 p mem B)|]|].
  { intros e Hr He. apply Hr, (room_le (4 * n + 82)); [lia|by apply Hroom]. }
  intros [[p1 mem1] root] (Hn & Hp1 & Hhc & Hout1 & Hu1 & Hrt).
  destruct (hp_out_place p1 _ root 0%nat Hp1 ltac:(by apply lookup_insert_eq)) as (Hr0 & _).
  unfold phys_to_offset_page_table. rewrite virt_add_law, bool_decide_true by (right; unfold u64_max in *; lia). cbn [mbind outcome_bind snd].
  set (pt0 := offset_page_table_new mem1 (hhdm + root) hhdm).
  pose proof (start_space p1 mem mem1 B C root cr3 Hp1 Hn Hhc Hout1) as H0. fold pt0 in H0.
  eapply post_bind_post; [eapply post_weaken; [by apply (load_image_spec B mem C pt0 bytes pt0 (p1, mem1) (<[root:=0%nat]> B))|]|].
  { intros e Hr He. apply Hr, (uses_room 1 (4 * n) (p, mem)), (room_le (4 * n + 82)); [done|lia|by apply Hroom]. }
  intros [pt2 m2] [H2 Hu2]. change (Z.to_nat _) with n in H2, Hu2.
  pose proof (uses_trans _ _ _ _ _ Hu1 Hu2) as Hu12.
  eapply post_bind_post; [eapply post_weaken; [by apply (make_user_stack_spec B mem C pt0 n pt2 m2 (<[root:=0%nat]> B))|]|].
  { intros e Hr He. apply Hr, (uses_room _ 13 _ _ Hu12), (room_le (4 * n + 82)); [lia|by apply Hroom]. }
  intros [pt3 m3] ((T3 & B3 & HB3 & Hs3 & HT3) & Hu3). pose proof (uses_trans _ _ _ _ _ Hu12 Hu3) as Hu13.
  eapply post_bind; [apply (us_alloc B mem C pt0 _ _ _ _ 0 Hs3); lia|]. intros [[p4 mem4] [a|]] Hr.
  2:{ intros He. apply Hr, (uses_room _ 1 _ _ Hu13), (room_le (4 * n + 82)); [lia|by apply Hroom]. }
  destruct Hr as (Hu4 & Hs4 & HBa & Ha0 & Hu & Hz). cbn [snd unwrap mbind outcome_bind] in Hz |- *.
  pose proof (uses_trans _ _ _ _ _ Hu13 Hu4) as Hu14. pose proof (lookup_insert_eq B3 a 0%nat) as Ha.
  destruct (hp_out_place p4 _ a 0%nat (us_out _ _ _ _ _ _ _ _ Hs4) Ha) as (Hpa0 & _ & _ & Hpa1). change (block_bytes 0) with PAGE_SIZE in Hpa1.
  pose proof (make_init_caps_spec o id Ho) as Hcaps. pose proof (make_init_caps_slots o id) as Hslots.
  destruct (make_init_caps o id cnode_new) as [[[o' nd] info]|e|] eqn:Ecaps;
    [|intros [_ [r Er] _ _]; cbn [kd_objects k] in Er; congruence|done].
  rewrite (Hslots o' nd info eq_refl). cbn [mbind outcome_bind self_tcb_cap self_vspace_cap self_cnode_cap].
  unfold phys_to_virt. apply post_add64; [unfold PAGE_SIZE, u64_max in *; lia|].
  rewrite virt_new_law, bool_decide_true by (left; unfold BOOTINFO_VADDR; lia). cbn [mbind outcome_bind].
  eapply post_bind; [by apply (map_bootinfo_spec B mem C pt0 n pt3 p4 mem4 T3 (<[a:=0%nat]> B3) a)|].
  intros [[pt5 m5] [[]|e]].
  2:{ intros Hr He. apply Hr, (uses_room _ 3 _ _ Hu14), (room_le (4 * n + 82)); [lia|by apply Hroom]. }
  intros ((T5 & B5 & HB5 & Hs5 & HT5) & Hu5). cbn [expect mbind outcome_bind]. pose proof (uses_trans _ _ _ _ _ Hu14 Hu5) as Hu15.
  eapply post_weaken; [apply (finish_spec cr3 tramp bytes id cpio p mem kpt bump o o' nd B ss pt0 pt5 m5 mem1 root Hss Hfit Htr Hcp Hn Hhc Hout1 eq_refl Hcaps)|].
  - exists T5, B5. split; [|done]. exact (us_sub _ _ _ _ _ _ _ _ Hs5).
  - intros e Hr He. apply Hr. split; [|exact (conj (en_stack _ _ _ He) (en_huge _ _ _ He))].
    apply (uses_room _ 64 _ _ Hu15), (room_le (4 * n + 82)); [lia|by apply Hroom].
Qed.

(** [make_init_task], whatever pages, objects and stacks the kernel had
    handed out before, returns a task whose user memory holds exactly the
    image (zeros up to the end of its last page), a cleared stack and the boot
    information, with the flags of each, and nothing else in the lower half;
    the first switch to its kernel stack enters user mode at the start of the
    image with the address of the boot information as argument; all its frames
    are new, the memory of earlier blocks and the kernel half are unchanged,
    its capabilities name the task alone; it panics only when there is not
    [enough] of pages, objects or stack addresses. *)
Theorem init_task_loaded cr3 tramp bytes id cpio (k : kdata (P := P) (PT := PT)) B ss :
  2 ^ 64 - 2 ^ 47 ≤ hhdm →
  hp_out (kd_pages k).1 B → table_ok (kd_objects k) → stacks_inv (kd_bump k) (kd_pt k) B ss →
  active_reserved (kd_pages k).1 (kd_pages k).2 cr3 → cr3 + hhdm ≤ u64_max → image_fits bytes → is_u64 tramp → is_u64 cpio →
  post (make_init_task hhdm cr3 tramp bytes id cpio k)
    (λ '(k', r), ∃ t, r = Ok t ∧ init_task_built B ss cr3 tramp bytes id cpio k k' t) (λ _, ¬ enough bytes id k).
Proof. apply init_task_spec. Qed.

(** ** Kernel tasks *)

(** Switching to the task enters the trampoline with the entry point. *)
Definition enters_kernel (tramp entry : Z) (kpt : PT) (mem : Z → Z) (t : Task PT) : Prop :=
  ∀ m, let sp := rsp (t_registers t) in
  may_switch m → regs m RSI = sp → (∀ x, range sp 128 x → Machine.mem m x = kview (hhdm := hhdm) kpt mem x) →
  let m1 := do_switch m in
  m_rip m1 = tramp ∧ starts_with entry m1 ∧ regs m1 RSP = ks_top (kernel_stack t) ∧ m_cr3 m1 = regs m RDX.

Record kernel_task_built (B : gmap Z nat) (ss : list KernelStack) (cr3 tramp id entry : Z) (k k' : kdata (P := P) (PT := PT))
    (t : Task PT) : Prop := {
  kt_task : t_id t = id ∧ task_state t = TaskState.Ready ∧ wake_at_tick t = 0 ∧ cnode t = cnode_new;
  kt_space : vmas (addr_space t) = ∅ ∧
    page_table (addr_space t) = offset_page_table_new (kd_pages k).2 (cr3 + hhdm) hhdm;
  kt_start : enters_kernel tramp entry (kd_pt k') (kd_pages k').2 t;
  kt_blocks : ∃ B', B ⊆ B' ∧ hp_out (kd_pages k').1 B' ∧ stacks_inv (kd_bump k') (kd_pt k') B' (ss ++ [kernel_stack t]);
  kt_kept : kept hhdm B (kd_pages k).2 (kd_pages k').2;
  kt_objects : kd_objects k' = kd_objects k
}.

(** [make_kernel_task] returns a task in the active address space whose first
    switch enters the trampoline with the entry point as argument, on a stack
    of its own; it panics only when the kernel has not enough pages or stack
    addresses for that. *)
Theorem kernel_task_loaded cr3 tramp id entry (k : kdata (P := P) (PT := PT)) B ss :
  canonical hhdm → hp_out (kd_pages k).1 B → stacks_inv (kd_bump k) (kd_pt k) B ss → cr3 + hhdm ≤ u64_max → is_u64 tramp → is_u64 entry →
  post (make_kernel_task hhdm cr3 tramp id entry k) (λ '(k', t), kernel_task_built B ss cr3 tramp id entry k k' t)
    (λ _, ¬ stack_room room (kd_bump k) (kd_pt k) (kd_pages k) 16).
Proof.
  intros Hhh Hp Hss Hcr Htr Hen. unfold make_kernel_task. rewrite virt_new_law, bool_decide_true by done. cbn [mbind outcome_bind].
  unfold phys_to_virt. apply post_add64; [done|].
  eapply post_bind_post; [by apply (stack_alloc_spec _ _ _ B B ss)|]. intros [[[bump' kpt'] m'] s] (D & Hd & Hp' & Hk & Hok & Hss').
  eapply post_bind; [apply (write_kernel_stack_spec m'.1 (B ∪ D) D bump' kpt' s Hp' (map_union_subseteq_r _ _ Hd) Hok tramp entry m'.2
    (kview (hhdm := hhdm) kpt' m'.2)); by intros x Hx|].
  intros [mem' sp] (Hsh & -> & Ho).
  split; cbn [t_id task_state wake_at_tick addr_space as_new vmas page_table kernel_stack t_registers cnode kd_pages kd_pt kd_bump kd_objects fst snd];
    try done.
  - intros m sp Hm Hsi Hmem. cbn [t_registers kernel_stack] in *.
    apply (new_kernel_task_starts tramp entry (ks_top s) (kview (hhdm := hhdm) kpt' m'.2) m Htr Hen Hm Hsi).
    intros x Hx. rewrite (Hmem x Hx). apply Hsh. unfold in_stack, range in *. unfold kernel_task_stack in Hx. cbn [snd] in Hx.
    pose proof (so_pages _ _ _ _ Hok). pose proof (so_top _ _ _ _ Hok). unfold PAGE_SIZE in *. lia.
  - exists (B ∪ D). split; [by apply map_union_subseteq_l|]. done.
  - eapply kept_trans; [done|exact Hk|]. by apply (stack_only_kept m'.1 B D bump' kpt' s).
Qed.
End loaded.

(** ** A run *)

Definition sample_kdata : kdata (P := ref_pages) (PT := ref_pt) :=
  mk_kdata (mk_ref_pages 0x100000 (λ _, frame_absent), λ _, 0) (mk_ref 0 ∅) KERNEL_STACKS_VA_BASE table_new.

Definition sample_loaded : outcome (kdata (P := ref_pages) (PT := ref_pt) * result string (Task ref_pt)) :=
  make_init_task REF_HHDM 0x2000 0xFFFFFFFF80003000 [0x90; 0xC3] 1 0x5000 sample_kdata.

Definition loads {K A : Type} (r : outcome (K * result string A)) : bool :=
  match r with Ret (_, Ok _) => true | _ => false end.

Lemma loads_Ret {K A} (r : outcome (K * result string A)) : loads r = true → ∃ k t, r = Ret (k, Ok t).
Proof. destruct r as [[k [t|]]| |]; try done. by exists k, t. Qed.

Lemma sample_returns : loads sample_loaded = true.
Proof. vm_compute. reflexivity. Qed.

Lemma sample_active : active_reserved (kd_pages sample_kdata).1 (kd_pages sample_kdata).2 0x2000.
Proof.
  intros p' mem' a E. change (hp_alloc _ _ 0 SAFE_KERNEL_PAGES) with
    (ref_alloc (mk_ref_pages 0x100000 (λ _, frame_absent)) (λ _, 0) 0 SAFE_KERNEL_PAGES) in E.
  unfold ref_alloc in E. change (ref_place _ 0) with 0x100000 in E. change (0x100000 + block_bytes 0 <=? REF_LIMIT) with true in E.
  injection E as _ _ <-. right. vm_compute. discriminate.
Qed.

Lemma sample_pages : ref_out (kd_pages sample_kdata).1 ∅.
Proof. split; [vm_compute; split; discriminate|done|done]. Qed.

Lemma sample_objects : table_ok (kd_objects sample_kdata).
Proof. eexists _, _. apply table_inv_new. Qed.

Lemma sample_stacks : stacks_inv (kd_bump sample_kdata) (kd_pt sample_kdata) ∅ [].
Proof.
  split.
  - split; [vm_compute; reflexivity|split; vm_compute; discriminate].
  - intros s Hs. by apply not_elem_of_nil in Hs.
  - done.
  - intros p _. apply (lookup_empty p).
Qed.

(** The two bytes of the image, followed by zeros. *)
Lemma init_task_loaded_witness :
  ∃ k' t, sample_loaded = Ret (k', Ok t) ∧
    let see va := user_byte (hhdm := REF_HHDM) (page_table (addr_space t)) (kd_pages k').2 va in
    see 0x400000 = Some 0x90 ∧ see 0x400001 = Some 0xC3 ∧ see 0x400002 = Some 0 ∧ see 0x7FFFFFFEFFF8 = Some 0.
Proof.
  pose proof (init_task_loaded (hhdm := REF_HHDM) 0x2000 0xFFFFFFFF80003000 [0x90; 0xC3] 1 0x5000 sample_kdata ∅ [] ltac:(vm_compute; discriminate) sample_pages
    sample_objects sample_stacks sample_active ltac:(vm_compute; discriminate) ltac:(vm_compute; discriminate)
    ltac:(split; vm_compute; discriminate) ltac:(split; vm_compute; discriminate)) as H.
  fold sample_loaded in H. destruct (loads_Ret _ sample_returns) as (k' & t & E). exists k', t. split; [exact E|].
  rewrite E in H. clear E. destruct H as (t' & [= <-] & Hb).
  pose proof (it_program _ _ _ _ _ _ _ _ _ _ Hb) as Hp. clear Hb. cbn zeta.
  split; [|split; [|split]].
  - exact (sp_image _ _ _ _ Hp 0 ltac:(split; vm_compute; [discriminate|reflexivity])).
  - exact (sp_image _ _ _ _ Hp 1 ltac:(split; vm_compute; [discriminate|reflexivity])).
  - exact (sp_image _ _ _ _ Hp 2 ltac:(split; vm_compute; [discriminate|reflexivity])).
  - exact (sp_stack _ _ _ _ Hp 0x3FF8 ltac:(split; vm_compute; [discriminate|reflexivity])).
Defined.
