(* ===== verification/Boot.v ===== *)
(** * Starting the system

    Models what kernel/src/main.rs does with the archive of services
    ([get_init_srvs] of bootinfo/mod.rs, the search, the first task and its
    place in the scheduler), the start of the other processors
    (arch/amd64/cpu/smp/startup.rs) and the kernel's command line
    (cmd_args/mod.rs).  What the bootloader answers (modules, processors) is an
    argument.  The theorem composes the archive, the loader and the scheduler:
    the task that will run is the file of the archive. *)
From Stdlib Require Import Ascii.
From S2P Require Import Prelude Misc Cpio Memblock Frame Sparsemem Zones Paging PagingRef AddrSpace AddrSpaceSpec.
From S2P Require Import KernelStacks KernelStacksSpec Objects ObjectsSpec Endpoints Sched SchedSpec SchedOps Syscalls.
From S2P Require Import ByteMem Slab SlabHeap Machine Idt Gdt Devices Acpi Entry Loader PagesRef SyscallsSpec Userland KernelTheorems LoaderTheorems.
#[local] Open Scope Z_scope.

(** ** The command line *)

Record SelfTestMask := mk_mask { mask_pmm : bool; mask_vmm : bool; mask_slab : bool }.
Definition mask_default : SelfTestMask := mk_mask false false false.

Record KernelArgs := mk_args { selftest : bool; selftest_mask : SelfTestMask; debug : bool }.
Definition args_default : KernelArgs := mk_args false mask_default false.

(** [slice::split]. *)
Fixpoint split_on (sep : Z) (l : list Z) : list (list Z) :=
  match l with
  | [] => [[]]
  | b :: l =>
      if b =? sep then [] :: split_on sep l
      else match split_on sep l with
           | t :: ts => (b :: t) :: ts
           | [] => [[b]]
           end
  end.

Definition parse_token (token : list Z) (a : KernelArgs) : KernelArgs :=
  if bool_decide (token = text "selftest=all") then mk_args true (selftest_mask a) (debug a)
  else if bool_decide (token = text "selftest=pmm") then
    mk_args true (mk_mask true (mask_vmm (selftest_mask a)) (mask_slab (selftest_mask a))) (debug a)
  else if bool_decide (token = text "debug") then mk_args (selftest a) (selftest_mask a) true
  else a.

Definition parse_cmdline (cmdline : list Z) : KernelArgs :=
  fold_left (λ a t, parse_token t a) (split_on (chr " ") cmdline) args_default.

(** ** The archive among the modules *)

(** A module: its string, and where its bytes are. *)
Record Module_ := mk_module { md_string : list Z; md_addr : Z; md_size : Z }.

(** [str::contains]. *)
Fixpoint contains (needle l : list Z) : bool :=
  bool_decide (take (length needle) l = needle) || match l with [] => false | _ :: l => contains needle l end.

Definition is_init_srvs (m : Module_) : bool :=
  let cmdline := if utf8_valid (md_string m) then md_string m else [] in
  contains (text "init_srvs") cmdline || bool_decide (cmdline = []).

Definition module_bytes (mem : Z → Z) (m : Module_) : list Z := (λ i, mem (md_addr m + i)) <$> seqZ 0 (md_size m).

(** [response] is that to the module request. *)
Definition get_init_srvs (response : option (list Module_)) (mem : Z → Z) : option (list Z) :=
  match response with
  | None => None
  | Some modules => module_bytes mem <$> head (filter (λ m, is_init_srvs m = true) modules)
  end.

(** ** The first task *)

Section kmain.
Context {P PT : Type} {HP : HeapPages P} `{!X86_64 PT} {XL : X86_64Laws PT} `{!OffsetPageTable PT} (hhdm : Z).

(** The part of [kmain] between [arch_init] and [init_bsp_core_smp]; the task
    is allocated at [p], [cpio_ptr] is the address of the variable. *)
Definition load_init_service (fuel : nat) (cr3 trampoline : Z) (response : option (list Module_)) (cpio_ptr p : Z)
    (k : kdata (P := P) (PT := PT)) (s : Sched PT) : outcome (kdata (P := P) (PT := PT) * Sched PT) :=
  init_srvs ← unwrap (get_init_srvs response (kd_pages k).2);
  r ← cpio_find fuel init_srvs (text "server.bin");
  match r with
  | Some data =>
      '(k, r) ← make_init_task hhdm cr3 trampoline data 1 cpio_ptr k;
      init ← expect r;
      s ← add_task_to_execute (Sched.store p init s) p;
      Ret (k, s)
  | None => Panic PExplicit
  end.
End kmain.

(** ** The early start *)

Section startup.
Context {PT M D G : Type} `{!X86_64 PT} `{!PageSource M} `{!Mmio D} `{!PortIo D} `{!GdtCrate G}.

(** What the early start leaves: the segments and interrupt table of the boot
    CPU, the page table and allocator, and the cells of the devices. *)
Record started := mk_started {
  st_tss : TaskStateSegment; st_segments : segments G; st_idt : list IDTEntry;
  st_pt : PT; st_mem : M; st_devices : D;
  st_acpi : option AcpiContext; st_hpet : option HPET; st_lapic : option Lapic; st_ioapic : option IOApic
}.

(** [early_startup]: [init_memory] is [init_memory_subsys] of MemTests.v; [stacks] are the two
    interrupt stacks and the task state segment, [stubs] the interrupt stubs. *)
Definition early_startup (init_memory : Z → list Entry → outcome (PT * M)) (stacks : Z * Z * Z) (stubs : list Z)
    (hhdm_offset : option Z) (memmap : option (list Entry)) (acpi : option AcpiTables) (c : segments G) (d : D) : outcome started :=
  let '(df_stack, pf_stack, tss_slot) := stacks in
  '(tss, c) ← init_bootstrap_gdt df_stack pf_stack tss_slot c;
  idt ← interrupt_table KERNEL_CODE_SELECTOR stubs;
  hhdm ← unwrap hhdm_offset;
  memmap ← unwrap memmap;
  '(pt, m) ← init_memory hhdm memmap;
  '(pt, m, ctx) ← init_acpi hhdm acpi memmap None pt m;
  '(pt, m, d, hpet) ← start_hpet ctx None pt m d;
  '(pt, m, d, lapic) ← init_bootstrap_lapic hhdm ctx None pt m d;
  '(pt, m, d, ioapic) ← init_ioapic hhdm ctx None pt m d;
  Ret (mk_started tss c idt pt m d ctx hpet lapic ioapic).
End startup.

(** ** The other processors *)

(** [Cpu] of the bootloader: [goto_address] is written to start it. *)
Record Cpu := mk_limine_cpu { lc_lapic_id : Z; lc_extra : Z; lc_goto : option Z }.

Definition bootstrap_bsp_cpu (entry region : Z) (c : Cpu) : Cpu := mk_limine_cpu (lc_lapic_id c) region (Some entry).
Definition bootstrap_cpu (bsp_lapic_id entry region : Z) (c : Cpu) : Cpu :=
  if bsp_lapic_id =? lc_lapic_id c then c else mk_limine_cpu (lc_lapic_id c) region (Some entry).

(** The loop of [smp_startup]: CPU [i] of the list gets the region at the
    position of its id. [region_at] gives the address of an entry of the
    regions, of which there are [n]. *)
Definition start_cpu (bsp_lapic_id entry : Z) (n : nat) (region_at : nat → Z) (i : nat) (cpus : list Cpu) : outcome (list Cpu) :=
  c ← arr_get cpus i;
  pos ← unwrap (fst <$> list_find (λ c', lc_lapic_id c' = lc_lapic_id c) cpus);
  _ ← (if (pos <? n)%nat then Ret () else Panic PBounds);
  arr_set cpus i
    (if lc_lapic_id c =? bsp_lapic_id then bootstrap_bsp_cpu entry (region_at pos) c
     else bootstrap_cpu bsp_lapic_id entry (region_at pos) c).

(** [smp_startup] up to the wait. *)
Definition start_cpus (bsp_lapic_id entry : Z) (n : nat) (region_at : nat → Z) (response : option (list Cpu)) : outcome (list Cpu) :=
  cpus ← unwrap response;
  for_range 0 (length cpus) (start_cpu bsp_lapic_id entry n region_at) cpus.

(** How many CPUs the wait of [smp_startup] waits for, as a [u8]. *)
Definition awaited_cpus (n : nat) : outcome Z := d ← sub64 (Z.of_nat n) 1; Ret (d mod 2 ^ 8).

(** [bsp_cpu] of [init_bsp_core_smp]. *)
Definition find_bsp (bsp_lapic_id : Z) (response : option (list Cpu)) : outcome Cpu :=
  cpus ← unwrap response;
  unwrap (snd <$> list_find (λ c, lc_lapic_id c = bsp_lapic_id) cpus).

(** ** The service of the archive becomes the first task *)

Section boots.
Context {P PT : Type} {HP : HeapPages P} `{!X86_64 PT} {XL : X86_64Laws PT} {OT : OffsetPageTable PT} {OL : OffsetPageTableLaws PT}.
Context {hhdm : Z} {HL : HeapPagesLaws P hhdm}.
Implicit Types (k : kdata (P := P) (PT := PT)) (s : Sched PT).

(** The first module that may be the archive holds the files [ps], [data] being
    the first whose name ends in [server.bin]. *)
Record boot_archive (fuel : nat) (mem : Z → Z) (ms : list Module_) (ps : list packed) (data : list Z) : Prop := {
  ba_files : archive_ok ps;
  ba_fuel : (length ps < fuel)%nat;
  ba_bytes : ∃ md trailer rest, head (filter (λ m, is_init_srvs m = true) ms) = Some md ∧
    packed_ok trailer ∧ ce_name (pk_entry trailer) = TRAILER ∧ len (cpio_files ps ++ cpio_encode trailer) + 7 ≤ u64_max ∧
    module_bytes mem md = cpio_files ps ++ cpio_encode trailer ++ rest;
  ba_service : lookup_file (Cpio.entries ps) (text "server.bin") = Some data
}.

(** C10: the first task is the file of the archive.  When the bootloader's
    modules hold an archive with a file named [server.bin], the kernel finds
    it, and the task it creates and queues for execution is task 1 with exactly
    the bytes of that file as its program, entering it in user mode; the
    scheduler is otherwise as before, and so is everything that was allocated.
    It fails only for lack of pages, objects or stack addresses: with [enough]
    of them it returns. *)
Theorem boot_runs_service fuel cr3 tramp ms ps data cpio_ptr p k s B ss :
  2 ^ 64 - 2 ^ 47 ≤ hhdm →
  boot_archive fuel (kd_pages k).2 ms ps data →
  hp_out (kd_pages k).1 B → table_ok (kd_objects k) → stacks_inv (kd_bump k) (kd_pt k) B ss →
  active_reserved (kd_pages k).1 (kd_pages k).2 cr3 → cr3 + hhdm ≤ u64_max → image_fits data → is_u64 tramp → is_u64 cpio_ptr →
  post (load_init_service hhdm fuel cr3 tramp (Some ms) cpio_ptr p k s)
    (λ '(k', s'), ∃ t, init_task_built (hhdm := hhdm) B ss cr3 tramp data 1 cpio_ptr k k' t ∧
      Sched.heap s' = <[p:=t]> (Sched.heap s) ∧ task_table s' = <[1:=p]> (task_table s) ∧ global_queue s' = global_queue s ++ [p] ∧ cpus s' = cpus s)
    (λ _, ¬ enough data 1 k).
Proof.
  intros Hhh [Hf Hfuel (md & tr & rest & Hmd & Htr & Hname & Hlen & Hbytes) Hserv] Hp Ho Hss Hact Hcr Hfit Htramp Hcp.
  unfold load_init_service, get_init_srvs. rewrite Hmd. cbn [fmap option_fmap option_map unwrap mbind outcome_bind]. rewrite Hbytes.
  rewrite (cpio_find_spec ps tr rest (text "server.bin") fuel Hf Htr Hname Hlen Hfuel), Hserv. cbn [mbind outcome_bind].
  eapply post_bind_post; [by apply (init_task_spec cr3 tramp data 1 cpio_ptr k B ss)|]. intros [k' r] (t & -> & Hb).
  cbn [expect mbind outcome_bind]. destruct (it_task _ _ _ _ _ _ _ _ _ _ Hb) as (Hid & _).
  unfold add_task_to_execute, table_insert, deref. cbn [Sched.heap Sched.store with_heap unwrap]. rewrite lookup_insert_eq.
  cbn [mbind outcome_bind unwrap]. rewrite Hid. exists t. done.
Qed.
End boots.

(** *** A run *)

Definition service_archive : list packed := [sample_packed (text "README") [7]; sample_packed (text "init/server.bin") [0x90; 0xC3]].
Definition archive_module : Module_ :=
  mk_module (text "init_srvs.cpio") 0x500000 (len (cpio_files service_archive ++ cpio_encode (sample_packed TRAILER []))).

Definition boot_kdata : kdata (P := ref_pages) (PT := ref_pt) :=
  mk_kdata (mk_ref_pages 0x100000 (λ _, frame_absent),
    put_bytes 0x500000 (cpio_files service_archive ++ cpio_encode (sample_packed TRAILER [])) (λ _, 0))
    (mk_ref 0 ∅) KERNEL_STACKS_VA_BASE table_new.

Lemma boot_sample_archive :
  boot_archive 5 (kd_pages boot_kdata).2 [mk_module (text "font") 0 16; archive_module] service_archive [0x90; 0xC3].
Proof.
  split.
  - split; [|by repeat constructor]. by repeat (apply Forall_cons; split; [split; vm_compute; done|]).
  - cbn. lia.
  - exists archive_module, (sample_packed TRAILER []), []. split; [vm_compute; reflexivity|]. split; [split; vm_compute; done|].
    split; [reflexivity|]. split; [vm_compute; discriminate|]. vm_compute. reflexivity.
  - vm_compute. reflexivity.
Qed.

Lemma boot_sample_active : active_reserved (kd_pages boot_kdata).1 (kd_pages boot_kdata).2 0x2000.
Proof.
  intros p' mem' a E. cbn [kd_pages boot_kdata fst snd] in E.
  change (hp_alloc ?p ?m 0 SAFE_KERNEL_PAGES) with (ref_alloc p m 0 SAFE_KERNEL_PAGES) in E.
  unfold ref_alloc in E. change (ref_place _ 0) with 0x100000 in E. change (0x100000 + block_bytes 0 <=? REF_LIMIT) with true in E.
  injection E as _ _ <-. right. vm_compute. discriminate.
Qed.

Definition boot_sched : Sched ref_pt := mk_sched ∅ ∅ [] [] 0.

Lemma boot_enough : enough [0x90; 0xC3] 1 boot_kdata.
Proof.
  split; [|by eexists|vm_compute; discriminate|by intros p _ []].
  apply ref_supplies; vm_compute; discriminate.
Qed.

(** The kernel has enough of everything: it returns, the task is queued, and its
    first byte is the first of the file. *)
Lemma boot_runs_service_witness :
  wp (load_init_service REF_HHDM 5 0x2000 0xFFFFFFFF80003000 (Some [mk_module (text "font") 0 16; archive_module]) 0x7000 9 boot_kdata boot_sched)
    (λ '(k', s'), global_queue s' = [9] ∧
      ∃ t, Sched.heap s' !! 9 = Some t ∧ user_byte (hhdm := REF_HHDM) (page_table (addr_space t)) (kd_pages k').2 0x400000 = Some 0x90).
Proof.
  pose proof (boot_runs_service (hhdm := REF_HHDM) 5 0x2000 0xFFFFFFFF80003000 [mk_module (text "font") 0 16; archive_module] service_archive
    [0x90; 0xC3] 0x7000 9 boot_kdata boot_sched ∅ [] ltac:(vm_compute; discriminate) boot_sample_archive sample_pages sample_objects sample_stacks boot_sample_active
    ltac:(vm_compute; discriminate) ltac:(vm_compute; discriminate) ltac:(split; vm_compute; discriminate)
    ltac:(split; vm_compute; discriminate)) as H.
  revert H. generalize (load_init_service REF_HHDM 5 0x2000 0xFFFFFFFF80003000 (Some [mk_module (text "font") 0 16; archive_module])
    0x7000 9 boot_kdata boot_sched).
  intros [[k' s']|e|] H; [|exact (H boot_enough)|exact H]. destruct H as (t & Hb & Hh & _ & Hq & _). split; [exact Hq|]. exists t.
  split; [rewrite Hh; apply lookup_insert_eq|].
  exact (sp_image _ _ _ _ (it_program _ _ _ _ _ _ _ _ _ _ Hb) 0 ltac:(split; vm_compute; [discriminate|reflexivity])).
Defined.

(** ** Every processor is started on its own region *)

Lemma find_position (cpus : list Cpu) i c :
  NoDup (lc_lapic_id <$> cpus) → cpus !! i = Some c → list_find (λ c', lc_lapic_id c' = lc_lapic_id c) cpus = Some (i, c).
Proof.
  intros Hd Hi. apply list_find_Some. split; [done|]. split; [done|]. intros j c' Hj Hlt E.
  apply (f_equal (fmap lc_lapic_id)) in Hi, Hj. rewrite <-list_lookup_fmap in Hi, Hj. cbn in Hi, Hj. rewrite E in Hj.
  pose proof (NoDup_lookup _ _ _ _ Hd Hi Hj). lia.
Qed.

(** With distinct ids and a region for each, processor [i] is started at the
    entry with region [i]; with fewer regions than processors the kernel
    panics. *)
Theorem processors_started bsp entry n region_at cpus :
  NoDup (lc_lapic_id <$> cpus) →
  post (start_cpus bsp entry n region_at (Some cpus))
    (λ cpus', (length cpus ≤ n)%nat ∧ cpus' = imap (λ i c, mk_limine_cpu (lc_lapic_id c) (region_at i) (Some entry)) cpus)
    (λ e, (n < length cpus)%nat ∧ e = PBounds).
Proof.
  intros Hd. unfold start_cpus. cbn [unwrap mbind outcome_bind]. unfold for_range. rewrite Nat.sub_0_r.
  set (f := λ (i : nat) (c : Cpu), mk_limine_cpu (lc_lapic_id c) (region_at i) (Some entry)).
  apply (post_for_each _ _ _ (λ done_ cs, (length done_ ≤ n)%nat ∧ cs = imap f (take (length done_) cpus) ++ drop (length done_) cpus)).
  - split; [cbn; lia|done].
  - intros done_ i rest cs Hs [Hn ->].
    assert (i = length done_ ∧ (i < length cpus)%nat) as [-> Hi].
    { pose proof (f_equal (.!! length done_) Hs) as E. rewrite list_lookup_middle in E by done. apply lookup_seq in E. lia. }
    destruct (lookup_lt_is_Some_2 cpus (length done_) Hi) as [c Hc]. set (j := length done_) in *.
    assert (length (imap f (take j cpus)) = j) as Hl by (rewrite length_imap, length_take; lia).
    assert (drop j cpus = c :: drop (S j) cpus) as Ed by (by apply drop_S).
    assert (lc_lapic_id <$> imap f (take j cpus) ++ drop j cpus = lc_lapic_id <$> cpus) as Eid.
    { rewrite fmap_app, fmap_imap. rewrite (imap_const lc_lapic_id), <-fmap_app. by rewrite take_drop. }
    unfold start_cpu, arr_get. rewrite Ed, list_lookup_middle by done. cbn [mbind outcome_bind].
    rewrite (find_position _ j c); [|by rewrite <-Ed, Eid|by rewrite list_lookup_middle]. cbn [fmap option_fmap option_map fst unwrap mbind outcome_bind].
    destruct (Nat.ltb_spec j n) as [Hlt|Hge]; cbn [mbind outcome_bind post]; [|split; [lia|done]].
    unfold arr_set. rewrite list_lookup_middle by done. cbn [post].
    rewrite length_app, Nat.add_1_r. fold j. split; [lia|].
    rewrite (take_S_r _ _ _ Hc), imap_app, length_take, Nat.min_l, <-app_assoc by lia.
    replace (<[j:=_]> _) with (imap f (take j cpus) ++ f j c :: drop (S j) cpus); [cbn; by rewrite Nat.add_0_r|].
    rewrite insert_app_r_alt by lia. rewrite Hl, Nat.sub_diag. cbn [insert list_insert]. do 2 f_equal. unfold bootstrap_bsp_cpu, bootstrap_cpu, f.
    rewrite (Z.eqb_sym bsp). by destruct (Z.eqb_spec (lc_lapic_id c) bsp).
  - intros cs [Hn ->]. rewrite length_seq in *. split; [done|]. by rewrite firstn_all, drop_all, app_nil_r.
Qed.

(** The wait counts in a byte: with 257 processors it waits for none. *)
Lemma awaited_wraps : awaited_cpus 257 = Ret 0.
Proof. reflexivity. Qed.

(** [selftest=all] asks for self tests but selects none. *)
Lemma selftest_all_selects_none : parse_cmdline (text "debug selftest=all") = mk_args true mask_default true.
Proof. vm_compute. reflexivity. Qed.
