(* ===== verification/KernelRun.v ===== *)
(** * The kernel as a whole: a run

    Two CPUs and two tasks: the first task creates an endpoint and waits at it,
    the second sends it a message, and the first is scheduled again on the
    other CPU.  The run shows that the theorems of KernelTheorems.v apply, and
    what happens when a send falls between the two halves of a receive. *)
From S2P Require Import Prelude Misc Memblock Frame Sparsemem Zones Paging PagingRef ZonesSource AddrSpace KernelStacks.
From S2P Require Import Objects ObjectsSpec Endpoints EndpointsSpec Runqueue RunqueueSpec.
From S2P Require Import Sched SchedSpec SchedOps SchedLoops SchedTheorems.
From S2P Require Import Syscalls SyscallsSpec KernelSpec KernelSteps KernelCalls KernelTheorems.
#[local] Open Scope Z_scope.

(** The registers of a system call. *)
Definition call_regs (nr a1 a2 a3 a4 a5 : Z) : TaskRegisters :=
  mk_regs 0 0 0 0 0 0 0 a4 0 a5 0 0 a3 a2 a1 nr 0 0 0 0 0.

(** The second task starts with a capability to send to the first endpoint. *)
Definition sender_caps : CNode := <[0%nat:=cap_new (mk_handle 0 0) R_WRITE]> cnode_new.

Section run.
Context (m : zmem).

Definition run0 : machine ref_pt zmem := machine_init [sample_idle; sample_idle] m.
Definition run1 := do_spawn 7 (sample_task 1) table_new run0.
Definition run2 := do_idle 0 run1.
Definition run3 := do_tick sample_hhdm 0 0x4000 run2.
Definition run4 := do_call sample_hhdm 0 0x4800 1 (call_regs IpcEpCreate 0 0 0 0 0) run3.
Definition run5 := do_call sample_hhdm 0 0x4800 1 (call_regs IpcRecv 0 0 0 0 0) run4.
Definition run6 := do_spawn 8 (with_cnode sender_caps (sample_task 2)) (k_objects (m_kernel run5)) run5.
Definition run7 := do_idle 0 run6.
Definition run8 := do_tick sample_hhdm 0 0x4000 run7.
Definition run9 := do_call sample_hhdm 0 0x4800 2 (call_regs IpcSend 0 11 12 13 14) run8.
Definition run10 := do_idle 1 run9.
Definition run11 := do_tick sample_hhdm 1 0x4000 run10.

(** The current task of a CPU. *)
Definition cpu_at_run (st : machine ref_pt zmem) (me : nat) : ExecCpu ref_pt :=
  default (cpu_new sample_idle) (cpus (k_sched (m_kernel st)) !! me).
Definition task_at_run (st : machine ref_pt zmem) (me : nat) : Task ref_pt :=
  default sample_idle (tasks (m_kernel st) !! curr_task (cpu_at_run st me)).

Lemma runs_on_run st me id :
  cpus (k_sched (m_kernel st)) !! me = Some (cpu_at_run st me) →
  curr_task (cpu_at_run st me) ≠ 0 →
  tasks (m_kernel st) !! curr_task (cpu_at_run st me) = Some (task_at_run st me) →
  t_id (task_at_run st me) = id → m_frames st !! id = None →
  runs_on (m_kernel st) (m_frames st) me (cpu_at_run st me) (task_at_run st me).
Proof. intros. subst. by split. Qed.

Lemma run_call_step loader me sp id r st :
  runs_on (m_kernel st) (m_frames st) me (cpu_at_run st me) (task_at_run st me) →
  t_id (task_at_run st me) = id → 0 ≤ rdi r →
  returned (syscall_handler_inner sample_hhdm me sp (λ _, 0) (m_kernel st) r) = true →
  machine_step sample_hhdm loader st (do_call sample_hhdm me sp id r st).
Proof. intros Hro <- Hr Hret. by eapply do_call_step. Qed.

Lemma run3_runs : runs_on (m_kernel run3) (m_frames run3) 0 (cpu_at_run run3 0) (task_at_run run3 0).
Proof. apply (runs_on_run _ _ 1); vm_compute; [reflexivity|discriminate|reflexivity|reflexivity|reflexivity]. Qed.
Lemma run4_runs : runs_on (m_kernel run4) (m_frames run4) 0 (cpu_at_run run4 0) (task_at_run run4 0).
Proof. apply (runs_on_run _ _ 1); vm_compute; [reflexivity|discriminate|reflexivity|reflexivity|reflexivity]. Qed.
Lemma run8_runs : runs_on (m_kernel run8) (m_frames run8) 0 (cpu_at_run run8 0) (task_at_run run8 0).
Proof. apply (runs_on_run _ _ 2); vm_compute; [reflexivity|discriminate|reflexivity|reflexivity|reflexivity]. Qed.

Hypothesis Hm : ∃ B, pages_out m B.

Lemma run5_steps : nsteps (machine_step sample_hhdm any_loader) 5 run0 run5.
Proof.
  apply (nsteps_l _ _ run0 run1).
  { unfold run1. apply (do_spawn_step _ _ 7 (sample_task 1) table_new run0); try done; [by exists 0x2000|].
    split; [eexists _, _; apply table_inv_new|]. split; [done|apply cnode_ok_new]. }
  apply (nsteps_l _ _ run1 run2); [unfold run2; apply (do_idle_step _ _ 0 run1); [vm_compute; lia|vm_compute; reflexivity]|].
  apply (nsteps_l _ _ run2 run3); [unfold run3; apply (do_tick_step _ _ 0 0x4000 run2); [vm_compute; lia|vm_compute; reflexivity]|].
  apply (nsteps_l _ _ run3 run4); [unfold run4; apply (run_call_step _ 0 0x4800 1 (call_regs IpcEpCreate 0 0 0 0 0) run3); [apply run3_runs|vm_compute; reflexivity|simpl; lia|vm_compute; reflexivity]|].
  apply nsteps_once. unfold run5. apply (run_call_step _ 0 0x4800 1 (call_regs IpcRecv 0 0 0 0 0) run4); [apply run4_runs|vm_compute; reflexivity|simpl; lia|vm_compute; reflexivity].
Qed.

Lemma run8_steps : nsteps (machine_step sample_hhdm any_loader) 8 run0 run8.
Proof.
  destruct Hm as [B HB].
  destruct (machine_reachable sample_hhdm [sample_idle; sample_idle] m B 5 run5 sample_idles_ok) as [Hk _];
    [simpl; lia|done|unfold u64_max; lia|apply run5_steps|].
  eapply (nsteps_trans 5 3); [apply run5_steps|]. apply (nsteps_l _ _ run5 run6).
  { unfold run6. apply (do_spawn_step _ _ 8 (with_cnode sender_caps (sample_task 2)) _ run5);
      [vm_compute; reflexivity|done|vm_compute; reflexivity|done|done|by exists 0x2000|].
    split; [apply (ki_table _ _ _ Hk)|]. split; [done|].
    apply cnode_ok_set; [apply cnode_ok_new|]. intros _. split; [simpl; unfold MAX_OBJECTS; lia|].
    vm_compute. by eexists. }
  apply (nsteps_l _ _ run6 run7); [unfold run7; apply (do_idle_step _ _ 0 run6); [vm_compute; lia|vm_compute; reflexivity]|].
  apply nsteps_once. unfold run8. apply (do_tick_step _ _ 0 0x4000 run7); [vm_compute; lia|vm_compute; reflexivity].
Qed.

Lemma run11_steps : nsteps (machine_step sample_hhdm any_loader) 11 run0 run11.
Proof.
  eapply (nsteps_trans 8 3); [apply run8_steps|].
  apply (nsteps_l _ _ run8 run9); [unfold run9; apply (run_call_step _ 0 0x4800 2 (call_regs IpcSend 0 11 12 13 14) run8); [apply run8_runs|vm_compute; reflexivity|simpl; lia|vm_compute; reflexivity]|].
  apply (nsteps_l _ _ run9 run10); [unfold run10; apply (do_idle_step _ _ 1 run9); [vm_compute; lia|vm_compute; reflexivity]|].
  apply nsteps_once. unfold run11. apply (do_tick_step _ _ 1 0x4000 run10); [vm_compute; lia|vm_compute; reflexivity].
Qed.
End run.

(** The receiver, scheduled on CPU 1, returns with the words 11 to 14. *)
Lemma receives_get_messages_witness :
  ∃ m : zmem, wp (resume AfterRecv (m_kernel (run11 m)) 1 (call_regs IpcRecv 0 0 0 0 0))
    (λ '(_, r'), rdi r' = L_NOTIFY ∧ [rsi r'; rdx r'; r10 r'; r8 r'] = [11; 12; 13; 14]).
Proof.
  destruct small_machine_page as (m & root & Hout & _). exists m.
  destruct (receives_get_messages sample_hhdm [sample_idle; sample_idle] m {[root := 0%nat]} 11 (run11 m)
    sample_idles_ok) as (_ & H & _); [simpl; lia|exact Hout|unfold u64_max; lia|apply run11_steps; eauto|].
  destruct (H 1%nat (cpu_at_run (run11 m) 1) (task_at_run (run11 m) 1) (call_regs IpcRecv 0 0 0 0 0))
    as (msg & _ & Em & Hw); [vm_compute; reflexivity|vm_compute; discriminate|vm_compute; reflexivity|vm_compute; reflexivity|].
  assert (t_id (task_at_run (run11 m) 1) = 1) as Eid by (vm_compute; reflexivity).
  rewrite Eid in Em, Hw. eapply wp_mono; [exact Hw|]. intros [k' r'] (H1 & H2 & _).
  assert (msg = msg_with_data L_NOTIFY [11; 12; 13; 14]) as ->.
  { assert (mail (m_kernel (run11 m)) !! 1 = Some (msg_with_data L_NOTIFY [11; 12; 13; 14])) as E by (vm_compute; reflexivity).
    rewrite E in Em. by injection Em. }
  split; [exact H1|exact H2].
Defined.



(** ** A task created by the loader *)

Definition loaded : ObjectTable * CNode * InitSvrsBootInfo :=
  match make_init_caps table_new 1 cnode_new with
  | Ret x => x
  | _ => (table_new, cnode_new, mk_bootinfo 0 0 0 0)
  end.

Section own.
Context (m : zmem).

Definition own0 : machine ref_pt zmem := machine_init [sample_idle; sample_idle] m.
Definition own1 := do_spawn 7 (with_cnode loaded.1.2 (sample_task 1)) loaded.1.1 own0.
Definition own2 := do_idle 0 own1.
Definition own3 := do_tick sample_hhdm 0 0x4000 own2.
Definition own4 := do_call sample_hhdm 0 0x4800 1 (call_regs IpcEpCreate 0 0 0 0 0) own3.

Lemma own3_runs : runs_on (m_kernel own3) (m_frames own3) 0 (cpu_at_run own3 0) (task_at_run own3 0).
Proof. apply (runs_on_run _ _ 1); vm_compute; [reflexivity|discriminate|reflexivity|reflexivity|reflexivity]. Qed.

Lemma own4_steps : nsteps (machine_step sample_hhdm init_loader) 4 own0 own4.
Proof.
  apply (nsteps_l _ _ own0 own1).
  { unfold own1. apply do_spawn_step; try done; [by exists 0x2000|]. exists loaded.2. vm_compute. reflexivity. }
  apply (nsteps_l _ _ own1 own2); [unfold own2; apply do_idle_step; [vm_compute; lia|vm_compute; reflexivity]|].
  apply (nsteps_l _ _ own2 own3); [unfold own3; apply do_tick_step; [vm_compute; lia|vm_compute; reflexivity]|].
  apply nsteps_once. unfold own4.
  apply run_call_step; [apply own3_runs|vm_compute; reflexivity|simpl; lia|vm_compute; reflexivity].
Qed.
End own.

(** After creating an endpoint the task holds a capability for it, in slot 3. *)
Lemma capabilities_stay_home_witness :
  ∃ m : zmem, holds (k_objects (m_kernel (own4 m))) (cnode (task_at_run (own4 m) 0)) KernelObjType.Endpoint
      (ObjData.Endpoint 1) R_ALL ∧ names_task 1 (ObjData.Endpoint 1).
Proof.
  destruct small_machine_page as (m & root & Hout & _). exists m.
  assert (holds (k_objects (m_kernel (own4 m))) (cnode (task_at_run (own4 m) 0)) KernelObjType.Endpoint
    (ObjData.Endpoint 1) R_ALL) as Hh.
  { exists 3%nat. eexists _, _. split; [vm_compute; reflexivity|]. split; [vm_compute; reflexivity|].
    split; [vm_compute; reflexivity|]. split; [vm_compute; reflexivity|]. split; vm_compute; reflexivity. }
  split; [exact Hh|].
  assert (t_id (task_at_run (own4 m) 0) = 1) as Eid by (vm_compute; reflexivity).
  pose proof (capabilities_stay_home sample_hhdm [sample_idle; sample_idle] m {[root := 0%nat]} 4 (own4 m) 7
    (task_at_run (own4 m) 0) KernelObjType.Endpoint (ObjData.Endpoint 1) R_ALL sample_idles_ok) as H.
  rewrite Eid in H. apply H;
    [simpl; lia|exact Hout|unfold u64_max; lia|apply own4_steps|vm_compute; reflexivity|exact Hh].
Defined.

(** ** A send between the two halves of a receive

    [handle_ipc_recv] queues the task and only then, after releasing the lock
    of the IPC manager, marks it asleep and leaves its stack.  CPU 0 has done
    the first half for task 7 when task 8 on CPU 1 sends. *)
Section race.
Context (m : zmem).

Definition race1 := do_spawn 7 (sample_task 1) table_new (machine_init [sample_idle; sample_idle; sample_idle] m).
Definition race2 := do_tick sample_hhdm 0 0x4000 (do_idle 0 race1).
Definition race3 := do_call sample_hhdm 0 0x4800 1 (call_regs IpcEpCreate 0 0 0 0 0) race2.
Definition race4 := do_spawn 8 (with_cnode sender_caps (sample_task 2)) (k_objects (m_kernel race3)) race3.
Definition race5 := do_tick sample_hhdm 1 0x4000 (do_idle 1 race4).

(** The first half on CPU 0, the send on CPU 1, then CPU 2 looks for work. *)
Definition racing (k : Kernel ref_pt zmem) : outcome (Sched ref_pt) :=
  '(k, _) ← recv_enqueue k 1 1;
  '(k, _) ← handle_ipc_send k 2 (mk_ipc_args 0 [11; 12; 13; 14]);
  s ← idle_iteration 2 (k_sched k);
  scheduler_tick_irq sample_hhdm 2 0x4000 s.

(** CPU 2 now runs task 7 although CPU 0 still does: both are on the same
    kernel stack, CPU 2 at the stack pointer saved before the last time the
    task was scheduled. *)
Theorem send_inside_receive_runs_task_twice :
  ∃ s c0 c2, racing (m_kernel race5) = Ret s ∧ cpus s !! 0%nat = Some c0 ∧ cpus s !! 2%nat = Some c2 ∧
    curr_task c0 = 7 ∧ curr_task c2 = 7 ∧ top_of_kernel_stack c0 = top_of_kernel_stack c2 ∧
    cpu_rsp c2 = rsp (t_registers (sample_task 1)).
Proof. eexists _, _, _. split; [vm_compute; reflexivity|]. vm_compute. split_and!; reflexivity. Qed.
End race.
